(* ===== verification/_CoqProject ===== *)
-Q . S2P
Prelude.v
Domain.v
PyText.v
Json.v
JsonLoads.v
Bits.v
Signatures.v
Independence.v
StateMachine.v
Memory.v
ShadowValidator.v
PyFloat.v
FloatRound.v
Templates.v
Assembler.v
Statistics.v
Lift.v
Killswitch.v
Fusion.v
Abstention.v
Buffer.v
Client.v
Delivery.v
Lifecycle.v
VaultStore.v
Sweeps.v
Revalidation.v
Invalidator.v
StatusWriter.v
EditOps.v
Descendants.v
Forensics.v
Promotion.v
Scoring.v
Epochs.v
Consolidation.v
WorkQueue.v
Corroboration.v
ShadowStore.v
Governance.v
HotPath.v
Assembly.v
Pipeline.v
Erasure.v
ValkeyKeys.v
Coordinator.v
Saga.v
EraseStores.v
ValkeyErase.v
ErasureRuns.v
Blackboard.v
BlackboardRaces.v
SeqSet.v
Envelope.v
Sections.v
Shred.v
ShredGuarantees.v
TraceWriter.v
TraceRuns.v
TraceGuarantees.v
TraceArchive.v
TraceRefs.v
ArchiveGuarantees.v
Jit.v
OutcomeIntake.v
Proposals.v
