(* ===== verification/Prelude.v ===== *)
(** * Tracebed: verification of the memory-governance core (root file)

    Tracebed keeps a memory for software agents.  Agents report traces through an SDK;
    workers distil memories from them; a memory is governed by a state machine whose
    guards decide when it may be recalled; workers promote, score, revalidate, sweep,
    merge and recall memories in a vault; the hot path retrieves, fuses, filters, packs
    and renders memories into a context block; a kill switch disables memory for an
    agent type when it measurably harms outcomes.  The development models the parts that
    carry this logic (Python, under src/src/tracebed/, and the SQL the stores run) and
    proves what each of them promises to the others.

    ** Files, and the code they model

    - Prelude (this file): fallible code ([result], [let!], [check!]), Python's stable
      [sorted] and insertion-ordered [dict], the tactics and the hint database, generic
      list lemmas.
    - Domain: domain/enums.py, domain/ids.py (typed ids; UUIDv7 minting with its module
      state), instants, exceptions.
    - PyText, Json, JsonLoads, PyFloat, FloatRound, Bits: the parts of Python the code uses:
      [str] as code points, UTF-8, UUID text, JSON written and read, binary64 floats with their exact values,
      order and rounding, arbitrary-precision bit masks.
    - Signatures: domain/signatures.py, domain/canonical.py (SimHash, input signatures,
      canonical JSON).
    - Independence: the independence graph and the bounded clique search of
      domain/state_machine.py ([_compatibility_graph], [independent_confirmations]).
    - StateMachine: the rest of domain/state_machine.py: statuses, limits, evidence,
      every guard, the transition table, [apply].
    - Memory: domain/memory.py, domain/visibility.py, domain/subject_tags.py.
    - ShadowValidator: workers/independence.py and workers/shadow_validator.py, the
      worker that moves rows out of quarantine; its trace index is a parameter.
    - Corroboration: workers/corroboration.py with its adapter in stores/pg/learning.py, the
      writer of the confirming runs ShadowValidator judges.  ShadowStore:
      stores/pg/shadow_validator.py; both workers over the tables of VaultStore.
    - Templates: hotpath/templates.py, hotpath/renderer.py.
    - Assembler: hotpath/assembler.py (dedup and budget packing).
    - Fusion: hotpath/fusion.py.  Abstention: hotpath/abstention.py and the saturation
      of hotpath/calibration.py.
    - Statistics, Lift, Killswitch: workers/statistics.py (exact Benjamini-Hochberg),
      workers/lift.py (stratified estimates), workers/killswitch.py (the trigger, its
      application, overrides).
    - Buffer, Client, Delivery: sdk/buffer.py and the write path of sdk/client.py: the
      ring buffer, the dispatch of one leased batch, flushes, and the transition system
      of host threads and flusher.
    - Lifecycle: the port of the lifecycle workers (workers/invalidator.py), as a class
      with its laws, and the monad the workers run in.  VaultStore: its SQL adapter
      stores/pg/memory_lifecycle.py over the tables of a [database].
    - Sweeps, Revalidation, Invalidator: workers/sweeps.py, workers/revalidation.py,
      workers/invalidator.py.
    - StatusWriter: the audited status writer stores/pg/lifecycle.py and the port its
      clients use.  EditOps: workers/edit_ops.py and [unpin] of workers/preferences.py.
      Descendants, Forensics: workers/forensics.py and the review entries it opens
      (workers/review_queue.py).  Promotion: workers/promotion.py.
    - Scoring: workers/scorer.py with its SQL adapter stores/pg/scoring.py.  Epochs:
      workers/epochs.py.  Consolidation: workers/deltas.py, workers/consolidator.py.
    - WorkQueue: [WorkerQueue] of stores/pg/queue.py with the two database functions
      it calls (migrations/0012_erasure_saga.sql), and what the purge of an erasure request
      deletes from the queue's tables (migrations/0013_erasure_deployment.sql).
    - Governance: all operations on the vault together.
    - HotPath, Assembly, Pipeline: hotpath/budget.py, hotpath/holdout.py (the deadline, the
      arm draw and the effects of a retrieval), hotpath/assembly.py with
      hotpath/calibration.py, and hotpath/pipeline.py: the whole retrieval call.
    - Jit: hotpath/jit.py, the lesson injected after a failed tool call.
    - Erasure: erasure/domain.py, the ports of the saga and the programs of its adapters.
      ValkeyKeys: stores/valkey/keys.py.  Coordinator: erasure/executor.py.  Saga: the
      protocol the coordinator refines.  EraseStores: erasure/fixed_stores.py and the
      Qdrant, AGE and Valkey erasers (stores/vector, stores/graph and
      stores/valkey/erasure.py); ValkeyErase: what the last one removes.  ErasureRuns: a
      small outside world on which all of it runs.
    - Blackboard, BlackboardRaces: workflow/blackboard.py and stores/pg/blackboard.py: the
      calls as trees of SQL statements, and their interleavings at READ COMMITTED.
    - Envelope: crypto/envelope.py and crypto/subject_digest.py, the stored form of a trace
      object.  Sections: the interface [SubjectKeys] the trace writer uses.  Shred:
      crypto/shred.py over the subject-key table (stores/pg/repo.py and the two statements of
      migrations/0012_erasure_saga.sql that create and destroy keys), an instance of that
      interface; ShredGuarantees: what destroying a key does.
    - SeqSet, TraceWriter: ingest/trace_writer.py with the statements of stores/pg/repo.py it
      runs and the object names of stores/tracestore.  TraceRuns: the invariant of the index
      and the archive under any number of writers and sweepers.  TraceGuarantees: what
      readers and well-formed runs may rely on.
    - OutcomeIntake: ingest/outcome_intake.py with [insert_outcome_event] of stores/pg/repo.py.
    - Proposals: workflow/agent_control.py with the proposal statements of stores/pg/repo.py and
      the frame of the content scan (core/scans), around its rules.
    - TraceArchive: ingest/trace_archive.py, the strict reader of finished runs, with the keys
      of stores/tracestore/base.py.  TraceRefs: the references of both stores.
      ArchiveGuarantees: the reader against the writer.

    ** How the parts meet

    [StateMachine.apply] calls [Independence.independent_confirmations] through the
    quarantine guard; ShadowValidator builds the confirmations and calls [apply];
    Memory constructs the rows [apply] moves.  The lifecycle workers, the edits, the
    recall, promotion and scoring are written against interfaces ([LifecycleRepo],
    [StatusRepo], [ForensicsReads], [PromotionReads], [ScorerRepo], [EpochStore]); their
    theorems use the laws of the interfaces, and the SQL adapters are instances over one
    [database], so Governance can interleave every operation on the same tables.
    Assembler produces the slot list that Templates renders; Fusion and Abstention
    produce and filter its candidates; Assembly composes them over the candidate store, and
    Pipeline runs the ladder around it.  Killswitch calls Statistics and Lift.  Delivery
    drives Client's dispatch over Buffer's operations.  The erasure coordinator is written
    against [ErasureDb] and stores of which it needs only that a lost lease passes through
    their handlers ([HonestStore]); the adapters are instances of that class.
    TraceWriter consumes the items WorkQueue hands out and settles them, computes the
    signatures of Signatures, and uses the crypto layer and the object store through
    [SubjectKeys] and [TraceStore]; ShredGuarantees gives the instance of the former, and both
    object stores are instances of the latter.  TraceArchive reads what TraceWriter stored,
    over any later state of Shred's key table; what it asks of references is [ReadableRefs],
    which both stores satisfy.  OutcomeIntake and Proposals consume the items of WorkQueue too;
    Proposals creates rows through [StateMachine.apply] and Memory's constructor, and
    Corroboration records the runs ShadowValidator counts.

    ** State and effects

    A raise is [Err e]; message texts are not modelled unless the code stores them.  A
    worker threads the store and the number of clock (or verifier, or judge) calls made
    so far, and keeps the writes it made before it raised; each adapter call is one
    transaction.  A loop is a [Fixpoint] on the list it walks; where the source loops on
    an index, a stack or a frontier there is fuel, and a lemma shows that the fuel chosen
    is enough: the step budget of the source itself bounds the clique search
    ([Independence.v]); the generation bound plus one bounds the descendant walk
    ([Descendants.v]); [length its] rounds bound one dispatch ([Client.dispatch_fuel]); a
    flush on a quiet host ends within one round more than there are items
    ([Delivery.flush_loop_terminates]).  The erasure loops run as long as the database hands
    out work, so their fuel is arbitrary: out of fuel a run is [Running], and the theorems
    hold of everything it has done.  A call to a collaborator records the question and the
    answer in a log that the same definition computes from the call it makes (the store reads
    of a retrieval, the methods of an erasure adapter), so a theorem about the log is about
    the calls.  The SDK's threads and the queue's clients are
    interleavings of atomic steps: the operations under the buffer's lock, the calls of
    one transaction.  The blackboard is finer, one step per SQL statement, because its
    answers depend on what commits between two statements; the trace writer is one step per
    run and transaction, which is what its advisory lock gives, with every fault around it
    (the store, the statements, the COMMIT, its acknowledgement, the settlements) an input.
    Floats are the kernel's binary64; integers are [Z] (Python's are
    unbounded) with the widths the code packs into written out.

    Parameters stand for what is not in the repository or not decided by it: SHA-256 and
    Unicode normalisation (Signatures), the sample statistics of the numerical library
    (Lift), the trace index (ShadowValidator), the platform's float power (Sweeps), the
    verifier (Revalidation), the cache client (Invalidator), the judge (Scoring), the
    database's erasure fence (VaultStore), every collaborator of a retrieval, which may
    raise, stall and answer anything (Pipeline), the text of instants and ids in review entries
    (Forensics), the two aggregate selects of stores/pg/promotion.py, which the repository
    leaves unimplemented (Promotion), the epoch store (Epochs), the clock, HTTP client,
    token provider, pydantic dump, flush lock and host threads (Client), the database port,
    the adapters' clients and the clock of the erasure saga (Coordinator, EraseStores), with
    the documented guarantees of SCAN and UNLINK for what the cache adapter removes
    (ValkeyErase), pydantic's validation and dump of events, the erasure fence
    and the arm recorded for a run (TraceWriter), SHA-256 with its digest size and AES-GCM
    with its documented laws, the random draws and what other transactions do to the key
    table meanwhile (Envelope, Shred), the outages an archive reader meets (TraceArchive), the
    retriever, store, clock and recorders of the just-in-time gate (Jit), the source of candidate
    runs (Corroboration), and pydantic's validation of reports and proposals and the regular
    expressions of the scan rules (OutcomeIntake, Proposals).

    ** What the theorems show

    - Governance (StateMachine, Independence, ShadowValidator, ShadowStore, Governance):
      proposals are never recalled, and under any sequence of worker operations on the vault,
      finished or stopped by an exception, a quarantined row becomes retrievable only through
      a validation pass that found two pairwise independent confirmations among the runs
      recorded for the row ([apply] alone would also allow an operator's restore from the
      archive, which no worker asks for); the count of independent confirmations is sound
      always and exact within its budget.
    - Vault workers (Sweeps, Revalidation, Invalidator, EditOps, Forensics, Promotion,
      StatusWriter, VaultStore): what each batch changes, exactly, and that it changes
      nothing else; idempotence, at most one strike per instant, all-or-nothing batches,
      one winner among racing writers, the log that explains every status the audited writer
      set (the lifecycle adapter keeps none), the bounded
      walk over descendants.
    - Scores (Scoring, FloatRound, Epochs): Q moves toward the outcome under rounding, the
      daily cap and replay safety over any sequence of batches, the ledger that explains
      every score, epochs identified by their pin.
    - Consolidation: a sweep is an ordered dict update, and the record gives back every
      earlier state.
    - Work queue: for every row and every interleaving the tables show the phase of a lease
      protocol; dispositions are fenced by the generation of the claim, deliveries are
      bounded, a row is queued, dead-lettered, acknowledged or purged by an erasure that
      covers it, a ready row is not starved.
    - Retrieval (HotPath, Assembly, Pipeline): a call never fails because of its
      collaborators and leaves one terminal row; what is delivered was fetched in this call,
      admitted on its own evidence under the answers of this call, in time and logged; the holdout arm does the same work and delivers nothing.
    - Just-in-time lessons (Jit): one shot per run until its release or a claim, of whatever run,
      whose own idle time has passed since, under every interleaving; one accounted lesson per
      shot, the best of those that clear the gates.
    - Corroboration: what is recorded is distinct, foreign to the memory's origins, never lost
      and added once, under any number of writers; what one batch adds, exactly.
    - Erasure (Saga, ValkeyErase, ValkeyKeys): a run makes only the calls the saga's protocol
      allows, does nothing after a lost lease, marks only a target on which the deleting and
      then the verifying method of its adapter ran, completes only after every store was closed, and leaves one receipt when it
      fails; the cache adapter removes one project's keys and no other; cache keys are
      injective and confined to their project.
    - Blackboard (BlackboardRaces): under every interleaving answers stay true and one call per
      key wins; a race ends with one winner; no row is written in another principal's name.
    - Trace ingest (SeqSet, TraceGuarantees): the stored ranges are exactly the numbers
      delivered; the archive of a run is exactly its recorded events, each once, whatever the
      order, the faults and the redeliveries (its objects open, where no attempt lost the race
      to create a key); a run is finished exactly when its archive is whole, and then frozen;
      fault-free attempts get a well-formed run through.
    - Outcomes (OutcomeIntake): under any interleaving, recorded outcomes stay, carry the identity
      of the queue's columns and a fail-closed weight flag, and are there when an item is
      acknowledged; what a redelivery does, exactly (a weight that crossed zero makes it a
      conflict).
    - Proposals: an item adds at most one row, in quarantine, scanned and below both caps; the caps
      and uniqueness hold under any interleaving, where rows are stamped on the day they were
      counted for (a submission across midnight breaks it).
    - Crypto shredding (Envelope, ShredGuarantees): an object has one byte form; every share of a
      data key is needed; destroying keys turns exactly the sections wrapped under them into
      tombstones and leaves the rest readable (of objects sealed without a lost race); a tombstone is evidence of a destroyed key;
      nothing is encrypted under a destroyed key again; the loser of a race for a new key
      writes an object nobody can read.
    - Archive (ArchiveGuarantees): every finished run the writer stored without losing a race for
      a key reads back whole and in order, or as shredded once one of its keys is destroyed, never as corrupt and never in
      part; an outage only ever asks for another try.
    - Rows (Memory): provenance round trip, which items can be constructed.
    - Context block (Assembler, Templates, Fusion): token budgets, work conservation,
      determinism; structural confinement of rendered text; what fusion returns.
    - Kill switch (Statistics, Killswitch): the exact step-up procedure, the
      four-condition trigger.
    - SDK (Buffer, Client, Delivery): accounting, in-order and at most once acknowledged
      delivery with stable payloads under every interleaving, delivery of everything on a
      healthy connection.

    ** Not modelled

    The retriever's thread pool, the
    two-phase authorized enqueue, queue maintenance and the Tier A lane,
    distillation (driven by model calls), spend control, the HTTP API, the erasure daemon with
    its signals and the trace-store erasers, routing and prefetch, configuration loading.
    Of the trace writer, the outcome intake and the proposal intake, the authority version 0 path
    (the worker queue never hands out such items).  Of the crypto layer and the archive, the objects of the format before [tb-env/2] and
    events whose payload holds floats.  The remaining store adapters and the process wiring are calls into
    external systems. *)

From stdpp Require Export base list gmap strings sorting.
From Stdlib Require Export ZArith Lia.

#[global] Set Default Goal Selector "!".

(** ** Python exceptions and fallible code

    Code that raises is a function into [result]; the error value is the
    exception class.  Message texts are not modelled, except where the code
    carries them on as data (see [GuardReason] in StateMachine.v). *)

Inductive result (E A : Type) : Type :=
| Ok (a : A)
| Err (e : E).
Arguments Ok {E A} a.
Arguments Err {E A} e.

Declare Scope result_scope.
Delimit Scope result_scope with result.

Definition rbind {E A B} (m : result E A) (f : A → result E B) : result E B :=
  match m with Ok a => f a | Err e => Err e end.

Notation "'let!' x := m 'in' k" := (rbind m (λ x, k))
  (at level 10, x pattern, m at level 100, k at level 200) : result_scope.
Notation "'check!' b 'else' e 'in' k" := (if b then k else Err e)
  (at level 10, b at level 100, e at level 100, k at level 200) : result_scope.
Open Scope result_scope.

#[export] Instance Ok_inj {E A} : Inj (=) (=) (@Ok E A).
Proof. by intros ?? [= ->]. Qed.
#[export] Instance Err_inj {E A} : Inj (=) (=) (@Err E A).
Proof. by intros ?? [= ->]. Qed.

Definition is_ok {E A} (r : result E A) : bool :=
  match r with Ok _ => true | Err _ => false end.

(** [sequence]: run a list of fallible computations left to right, stopping at
    the first exception (a Python comprehension whose body may raise). *)
Fixpoint rmap {E A B} (f : A → result E B) (l : list A) : result E (list B) :=
  match l with
  | [] => Ok []
  | x :: l' => let! y := f x in let! ys := rmap f l' in Ok (y :: ys)
  end.

(** ** Sorting with a key, as Python's [sorted]: stable, by a boolean order. *)

Fixpoint py_insert {A} (leb : A → A → bool) (x : A) (l : list A) : list A :=
  match l with
  | [] => [x]
  | y :: l' => if leb x y then x :: l else y :: py_insert leb x l'
  end.

Fixpoint py_sorted {A} (leb : A → A → bool) (l : list A) : list A :=
  match l with
  | [] => []
  | x :: l' => py_insert leb x (py_sorted leb l')
  end.

(** A total preorder given by a boolean test: what [sorted] needs of a key. *)
Class TotalPreorder {A} (leb : A → A → bool) : Prop := {
  leb_total : ∀ x y, leb x y = true ∨ leb y x = true;
  leb_trans : ∀ x y z, leb x y = true → leb y z = true → leb x z = true;
}.

(** ** Tactics of the development *)

(** Split every boolean connective in hypotheses and goal into its parts. *)
Ltac bsplit :=
  repeat match goal with
  | H : (_ && _) = true |- _ => apply andb_true_iff in H; destruct H
  | H : (_ || _) = false |- _ => apply orb_false_iff in H; destruct H
  | H : negb _ = true |- _ => apply negb_true_iff in H
  | H : negb _ = false |- _ => apply negb_false_iff in H
  end.

(** Case-split on the scrutinee of the first [match]/[if] in the hypothesis or goal. *)
Ltac case_first H :=
  match type of H with
  | context [match ?x with _ => _ end] => destruct x eqn:?; try discriminate H
  end.

(** Invert chains of [let!]/[check!] that ended in [Ok]. *)
Ltac rinv H :=
  repeat (unfold rbind in H; cbn beta iota in H; case_first H);
  try (injection H as H; subst).

(** ** Generic lemmas *)

Lemma rbind_Ok {E A B} (m : result E A) (f : A → result E B) b :
  rbind m f = Ok b ↔ ∃ a, m = Ok a ∧ f a = Ok b.
Proof.
  destruct m as [a|e]; simpl; [|by split; [|intros (? & ? & ?)]].
  split; [eauto | by intros (a' & [= <-] & ?)].
Qed.

Lemma rmap_Ok {E A B} (f : A → result E B) l ys :
  rmap f l = Ok ys ↔ Forall2 (λ x y, f x = Ok y) l ys.
Proof.
  revert ys; induction l as [|x l IH]; intros ys; simpl.
  - split; [intros [= <-]; constructor | intros Hf; by inversion Hf].
  - rewrite rbind_Ok. setoid_rewrite rbind_Ok. setoid_rewrite IH. split.
    + intros (y & Hy & ys' & Hys & [= <-]). by constructor.
    + intros Hf; inversion Hf; subst; eauto 10.
Qed.

Lemma rmap_lookup {E A B} (f : A → result E B) l ys i x :
  rmap f l = Ok ys → l !! i = Some x → ∃ y, ys !! i = Some y ∧ f x = Ok y.
Proof. intros H%rmap_Ok Hi. by destruct (Forall2_lookup_l _ _ _ _ _ H Hi) as (y & ? & ?); exists y. Qed.

Lemma rmap_length {E A B} (f : A → result E B) l ys : rmap f l = Ok ys → length ys = length l.
Proof. intros H%rmap_Ok. symmetry. by eapply Forall2_length. Qed.

Lemma rmap_total {E A B} (f : A → result E B) l :
  (∀ x, x ∈ l → ∃ y, f x = Ok y) → ∃ ys, rmap f l = Ok ys.
Proof.
  induction l as [|x l IH]; intros Hf; simpl; [by exists []|]. destruct (Hf x) as [y ->]; [left|].
  destruct IH as [ys ->]; [|by exists (y :: ys)]. intros z Hz. apply Hf. by right.
Qed.

(** Mapping over a permutation of the list permutes the results. *)
Lemma rmap_Permutation {E A B} (f : A → result E B) l l' ys :
  l ≡ₚ l' → rmap f l = Ok ys → ∃ ys', rmap f l' = Ok ys' ∧ ys ≡ₚ ys'.
Proof.
  setoid_rewrite rmap_Ok. intros Hp. revert ys.
  induction Hp as [|x l l' _ IH|x y l|l1 l2 l3 _ IH1 _ IH2]; intros ys H.
  - inversion H; subst. by exists [].
  - inversion H as [|? z ? zs Hz Hzs]; subst. destruct (IH _ Hzs) as (zs' & ? & Hp).
    exists (z :: zs'). split; [by constructor|by rewrite Hp].
  - inversion H as [|? z ? zs Hz Hzs]; subst. inversion Hzs as [|? z' ? zs' Hz' Hzs']; subst.
    exists (z' :: z :: zs'). split; [by repeat constructor|constructor].
  - destruct (IH1 _ H) as (ys2 & H2 & Hp2). destruct (IH2 _ H2) as (ys3 & H3 & Hp3).
    exists ys3. split; [done|by rewrite Hp2].
Qed.

Lemma rmap_ext {E A B} (f g : A → result E B) l :
  (∀ x, x ∈ l → f x = g x) → rmap f l = rmap g l.
Proof.
  induction l as [|x l IH]; intros Hfg; simpl; [done|]. rewrite Hfg by left.
  rewrite IH; [done|]. intros y Hy. apply Hfg. by right.
Qed.

Lemma elem_of_snoc {A} (x y : A) l : x ∈ l ++ [y] ↔ x ∈ l ∨ x = y.
Proof. by rewrite elem_of_app, list_elem_of_singleton. Qed.

Lemma elem_of_concat {A} (x : A) ls : x ∈ concat ls ↔ ∃ l, l ∈ ls ∧ x ∈ l.
Proof.
  rewrite list_elem_of_In, in_concat. by setoid_rewrite list_elem_of_In.
Qed.

Lemma forallb_Permutation {A} (f : A → bool) l1 l2 : l1 ≡ₚ l2 → forallb f l1 = forallb f l2.
Proof. induction 1; simpl; [done|by f_equal|by rewrite !andb_assoc, (andb_comm (f _))|congruence]. Qed.

Lemma lookup_nth {A} (l : list A) i d : (i < length l)%nat → l !! i = Some (nth i l d).
Proof. intros Hi. rewrite nth_lookup. by destruct (lookup_lt_is_Some_2 l i Hi) as [x ->]. Qed.

Lemma submseteq_NoDup {A} (l k : list A) : NoDup k → l ⊆+ k → NoDup l.
Proof. intros Hk [k' Hp]%submseteq_Permutation. rewrite Hp in Hk. by apply NoDup_app in Hk as [? _]. Qed.

Lemma filter_keys_NoDup {A K} (key : A → K) (f : A → bool) l :
  NoDup (key <$> l) → NoDup (key <$> List.filter f l).
Proof.
  intros Hl. apply submseteq_NoDup with (key <$> l); [done|]. apply fmap_submseteq. clear Hl.
  induction l as [|x l IH]; [done|]. cbn [List.filter]. case_match; [by constructor|by apply submseteq_cons].
Qed.

Lemma filter_all_true {A} (p : A → bool) l : (∀ x, x ∈ l → p x = true) → List.filter p l = l.
Proof.
  induction l as [|x l IH]; simpl; intros H; [done|]. rewrite H by left. f_equal.
  apply IH. intros y ?. apply H. by right.
Qed.

Lemma filter_all_false {A} (p : A → bool) l : (∀ x, x ∈ l → p x = false) → List.filter p l = [].
Proof.
  induction l as [|x l IH]; simpl; intros H; [done|]. rewrite H by left.
  apply IH. intros y ?. apply H. by right.
Qed.

Lemma StronglySorted_sublist {A} (R : relation A) l1 l2 :
  l1 `sublist_of` l2 → StronglySorted R l2 → StronglySorted R l1.
Proof.
  induction 1 as [|x l1 l2 Hs IH|x l1 l2 Hs IH]; intros H2; [done|..]; apply StronglySorted_inv in H2 as [H2 Hx].
  - constructor; [by apply IH|]. rewrite Forall_forall in *. intros y Hy. apply Hx.
    by eapply elem_of_sublist.
  - by apply IH.
Qed.

(** Grouping a list by a key, over keys that cover it, loses and invents nothing. *)
Section GroupBy.
Context {A K : Type} `{EqDecision K} (f : A → K).

Lemma filter_key_Permutation l ks : NoDup ks →
  concat (map (λ k, List.filter (λ x, bool_decide (f x = k)) l) ks)
  ≡ₚ List.filter (λ x, bool_decide (f x ∈ ks)) l.
Proof.
  intros Hnd. induction l as [|x l IH]; simpl.
  { clear Hnd. induction ks; [done|]. simpl. done. }
  case_bool_decide as Hin.
  - rewrite <-IH. clear IH. induction Hnd as [|k ks Hk Hnd IH2]; [by apply not_elem_of_nil in Hin|].
    simpl. case_bool_decide as Hs.
    + simpl. constructor. apply Permutation_app_head. subst k.
      erewrite map_ext_in; [reflexivity|]. intros k' Hk'%list_elem_of_In.
      rewrite bool_decide_eq_false_2; [done|]. by intros <-.
    + rewrite IH2 by (apply elem_of_cons in Hin as [?|?]; congruence).
      by rewrite Permutation_middle.
  - rewrite <-IH. erewrite map_ext_in; [reflexivity|].
    intros k Hk%list_elem_of_In. rewrite bool_decide_eq_false_2; [done|]. by intros <-.
Qed.

Lemma group_by_Permutation l ks : NoDup ks → (∀ x, x ∈ l → f x ∈ ks) →
  concat (map (λ k, List.filter (λ x, bool_decide (f x = k)) l) ks) ≡ₚ l.
Proof.
  intros Hnd Hcov. rewrite filter_key_Permutation by done.
  induction l as [|x l IH]; [done|]. simpl. rewrite bool_decide_eq_true_2 by (apply Hcov; left).
  rewrite IH; [done|]. intros y Hy. apply Hcov. by right.
Qed.

(** A list that is already grouped in the order of the keys is a fixed point. *)
Lemma group_by_grouped ks gs : NoDup ks →
  Forall2 (λ k g, ∀ x, x ∈ g → f x = k) ks gs →
  concat (map (λ k, List.filter (λ x, bool_decide (f x = k)) (concat gs)) ks) = concat gs.
Proof.
  intros Hnd Hg. induction Hg as [|k g ks gs Hk Hg IH]; [done|].
  apply NoDup_cons in Hnd as [Hnk Hnd]. cbn [map concat]. rewrite List.filter_app.
  assert (H1 : List.filter (λ x, bool_decide (f x = k)) g = g)
    by (apply filter_all_true; intros x Hx; apply bool_decide_eq_true_2; by apply Hk).
  assert (H2 : ∀ k' l, (∀ x, x ∈ l → f x ≠ k') → List.filter (λ x, bool_decide (f x = k')) l = [])
    by (intros k' l Hl; apply filter_all_false; intros x Hx; apply bool_decide_eq_false_2; by apply Hl).
  rewrite H1, H2, app_nil_r.
  - f_equal. erewrite map_ext_in; [by apply IH|]. intros k' Hk'%list_elem_of_In. cbn beta.
    rewrite List.filter_app, H2; [done|]. intros x Hx Hfx. apply Hk in Hx. congruence.
  - intros x (g' & Hg' & Hxg)%elem_of_concat Hfx.
    apply list_elem_of_lookup in Hg' as [i Hi].
    destruct (Forall2_lookup_r _ _ _ _ _ Hg Hi) as (k' & Hk' & Hgk). apply Hgk in Hxg.
    apply Hnk. apply list_elem_of_lookup. exists i. congruence.
Qed.

(** The group of a key, read back by filtering. *)
Lemma filter_grouped ks gs i k g : NoDup ks →
  Forall2 (λ k g, ∀ x, x ∈ g → f x = k) ks gs → ks !! i = Some k → gs !! i = Some g →
  List.filter (λ x, bool_decide (f x = k)) (concat gs) = g.
Proof.
  intros Hnd Hg. revert i. induction Hg as [|k0 g0 ks gs Hk Hg IH]; intros i Hi Hj; [done|].
  apply NoDup_cons in Hnd as [Hnk Hnd]. cbn [concat]. rewrite List.filter_app.
  destruct i as [|i]; simpl in Hi, Hj.
  - injection Hi as ->. injection Hj as ->.
    rewrite (filter_all_true _ g), filter_all_false; [apply app_nil_r| |].
    + intros x (g' & Hg' & Hx)%elem_of_concat. apply bool_decide_eq_false_2. intros <-.
      apply list_elem_of_lookup in Hg' as [j Hj].
      destruct (Forall2_lookup_r _ _ _ _ _ Hg Hj) as (k' & Hk' & Hgk). apply Hgk in Hx. subst k'.
      apply Hnk, list_elem_of_lookup. eauto.
    + intros x Hx. apply bool_decide_eq_true_2. by apply Hk.
  - rewrite filter_all_false, IH with i; [done..|]. intros x Hx. apply Hk in Hx.
    apply bool_decide_eq_false_2. intros <-. subst k0. apply Hnk, list_elem_of_lookup. eauto.
Qed.
End GroupBy.

Section Sorting.
Context {A : Type} (leb : A → A → bool).

Lemma py_insert_Permutation x l : py_insert leb x l ≡ₚ x :: l.
Proof.
  induction l as [|y l IH]; simpl; [done|].
  destruct (leb x y); [done|]. rewrite IH. apply Permutation_swap.
Qed.

Lemma py_sorted_Permutation l : py_sorted leb l ≡ₚ l.
Proof. induction l as [|x l IH]; simpl; [done|]. by rewrite py_insert_Permutation, IH. Qed.

Lemma elem_of_py_sorted x l : x ∈ py_sorted leb l ↔ x ∈ l.
Proof. by rewrite py_sorted_Permutation. Qed.

Lemma length_py_sorted l : length (py_sorted leb l) = length l.
Proof. by rewrite py_sorted_Permutation. Qed.

Context `{!TotalPreorder leb}.

Lemma leb_refl x : leb x x = true.
Proof. destruct (leb_total x x); done. Qed.

Lemma leb_false_flip x y : leb x y = false → leb y x = true.
Proof. intros H. destruct (leb_total x y); congruence. Qed.

Lemma py_insert_Sorted x l :
  StronglySorted (λ a b, leb a b = true) l →
  StronglySorted (λ a b, leb a b = true) (py_insert leb x l).
Proof.
  induction 1 as [|y l Hl IH Hall]; simpl.
  - repeat constructor.
  - destruct (leb x y) eqn:Hxy.
    + constructor; [by constructor|]. constructor; [done|].
      eapply Forall_impl; [exact Hall|]. eauto using leb_trans.
    + constructor; [done|]. rewrite py_insert_Permutation.
      constructor; [by apply leb_false_flip | done].
Qed.

Lemma py_sorted_Sorted l : StronglySorted (λ a b, leb a b = true) (py_sorted leb l).
Proof. induction l; simpl; [constructor|]. by apply py_insert_Sorted. Qed.

(** Two sorted permutations of each other agree when ties are only between equals. *)
Lemma sorted_unique l1 l2 :
  (∀ x y, x ∈ l1 → y ∈ l1 → leb x y = true → leb y x = true → x = y) →
  StronglySorted (λ a b, leb a b = true) l1 →
  StronglySorted (λ a b, leb a b = true) l2 → l1 ≡ₚ l2 → l1 = l2.
Proof.
  intros Hanti H1; revert l2; induction H1 as [|x l1 H1 IH Hx]; intros l2 H2 Hp.
  - by apply Permutation_nil_l in Hp.
  - destruct H2 as [|y l2 H2 Hy]; [by apply symmetry, Permutation_nil_l in Hp|].
    rewrite Forall_forall in Hx, Hy.
    assert (x = y) as <-.
    { assert (x ∈ y :: l2) as Hx2 by (rewrite <-Hp; left).
      assert (y ∈ x :: l1) as Hy1 by (rewrite Hp; left).
      apply elem_of_cons in Hx2 as [->|Hx2]; [done|].
      apply elem_of_cons in Hy1 as [->|Hy1]; [done|].
      apply Hanti; [left|by right|by apply Hx|by apply Hy]. }
    f_equal. apply IH; [|done|by apply Permutation_cons_inv in Hp].
    intros ????. apply Hanti; by right.
Qed.

(** Permuting the input of [sorted] does not change its output when the key
    separates the elements. *)
Lemma py_sorted_perm_inv l1 l2 :
  (∀ x y, x ∈ l1 → y ∈ l1 → leb x y = true → leb y x = true → x = y) →
  l1 ≡ₚ l2 → py_sorted leb l1 = py_sorted leb l2.
Proof.
  intros Hanti Hp. apply sorted_unique; [|apply py_sorted_Sorted..|].
  - intros ??. rewrite !elem_of_py_sorted. apply Hanti.
  - by rewrite !py_sorted_Permutation.
Qed.
End Sorting.

Lemma py_insert_below {A} (leb : A → A → bool) x l : Forall (λ y, leb x y = true) l → py_insert leb x l = x :: l.
Proof. destruct 1 as [|y l Hy _]; [done|]. cbn. by rewrite Hy. Qed.

Lemma py_sorted_sorted {A} (leb : A → A → bool) l : StronglySorted (λ a b, leb a b = true) l → py_sorted leb l = l.
Proof. induction 1 as [|x l Hs IH Hall]; [done|]. cbn. by rewrite IH, py_insert_below. Qed.

Lemma py_sorted_fmap {A B} (f : A → B) (leb : B → B → bool) l :
  py_sorted leb (f <$> l) = f <$> py_sorted (λ a b, leb (f a) (f b)) l.
Proof.
  assert (Hins : ∀ x k, py_insert leb (f x) (f <$> k) = f <$> py_insert (λ a b, leb (f a) (f b)) x k).
  { intros x k. induction k as [|y k IH]; [done|]. cbn. destruct (leb (f x) (f y)); [done|]. cbn. by rewrite IH. }
  induction l as [|x l IH]; [done|]. cbn. by rewrite IH, Hins.
Qed.

(** Two orders that agree on the elements sort alike. *)
Lemma py_sorted_ext {A} (leb1 leb2 : A → A → bool) l :
  (∀ x y, x ∈ l → y ∈ l → leb1 x y = leb2 x y) → py_sorted leb1 l = py_sorted leb2 l.
Proof.
  induction l as [|x l IH]; intros Heq; simpl; [done|].
  rewrite IH by (intros ????; apply Heq; by right).
  assert (Hins : ∀ k, (∀ y, y ∈ k → leb1 x y = leb2 x y) → py_insert leb1 x k = py_insert leb2 x k).
  { induction k as [|y k IHk]; intros Hk; simpl; [done|]. rewrite Hk by left.
    destruct (leb2 x y); [done|]. f_equal. apply IHk. intros z Hz. apply Hk. by right. }
  apply Hins. intros y Hy. apply Heq; [left|]. right. by apply elem_of_py_sorted in Hy.
Qed.

(** The number of elements a key puts strictly before [x]: its position in the sorted list. *)
Lemma py_sorted_position {A} (leb : A → A → bool) `{!TotalPreorder leb} l i x :
  NoDup l → (∀ x y, x ∈ l → y ∈ l → leb x y = true → leb y x = true → x = y) →
  py_sorted leb l !! i = Some x → i = length (List.filter (λ y, negb (leb x y)) l).
Proof.
  intros Hnd Hanti Hi. pose proof (py_sorted_Sorted leb l) as Hs.
  pose proof (py_sorted_Permutation leb l) as Hp.
  assert (Hlen : length (List.filter (λ y, negb (leb x y)) l)
               = length (List.filter (λ y, negb (leb x y)) (py_sorted leb l))).
  { clear -Hp. induction Hp; simpl; [done|destruct (leb x x0); simpl; lia| |congruence].
    destruct (leb x y), (leb x x0); done. }
  rewrite Hlen. clear Hlen.
  assert (Hanti' : ∀ y, y ∈ py_sorted leb l → leb x y = true → leb y x = true → x = y).
  { intros y Hy. apply Hanti; [|by apply elem_of_py_sorted in Hy]. apply (elem_of_py_sorted leb).
    apply list_elem_of_lookup. eauto. }
  assert (Hnd' : NoDup (py_sorted leb l)) by (by rewrite Hp).
  clear Hp Hnd Hanti. revert i Hi. induction Hs as [|y k Hk IH Hy]; intros i Hi; [done|].
  apply NoDup_cons in Hnd' as [Hyk Hnd']. rewrite Forall_forall in Hy. destruct i as [|i]; simpl in *.
  - injection Hi as ->. rewrite leb_refl by done. simpl. rewrite filter_all_false; [done|].
    intros z Hz. by rewrite Hy.
  - assert (Hx : x ∈ k) by (apply list_elem_of_lookup; eauto).
    destruct (leb x y) eqn:Hxy; simpl.
    + exfalso. assert (x = y) as ->; [|done]. apply Hanti'; [left|done|by apply Hy].
    + f_equal. apply IH; [|done|done]. intros z Hz. apply Hanti'. by right.
Qed.

(** ** Python dicts in insertion order

    [dict_set] overwrites an existing key in place and appends a new one. *)

Section Dict.
Context {K V : Type} `{EqDecision K}.

Fixpoint dict_get (d : list (K * V)) (k : K) : option V :=
  match d with
  | [] => None
  | (k', v) :: d' => if bool_decide (k' = k) then Some v else dict_get d' k
  end.

Fixpoint dict_set (d : list (K * V)) (k : K) (v : V) : list (K * V) :=
  match d with
  | [] => [(k, v)]
  | (k', v') :: d' => if bool_decide (k' = k) then (k', v) :: d' else (k', v') :: dict_set d' k v
  end.

Lemma dict_get_app a b k :
  dict_get (a ++ b) k = match dict_get a k with Some v => Some v | None => dict_get b k end.
Proof. induction a as [|[k' v] a IH]; simpl; [done|]. by case_bool_decide. Qed.

Lemma dict_get_None d k : dict_get d k = None ↔ k ∉ d.*1.
Proof.
  induction d as [|[k' v] d IH]; simpl; [by split; [intros _ ?%not_elem_of_nil|]|].
  rewrite not_elem_of_cons. case_bool_decide; [naive_solver|]. rewrite IH. naive_solver.
Qed.

Lemma dict_get_Some_elem d k v : dict_get d k = Some v → (k, v) ∈ d.
Proof.
  induction d as [|[k' v'] d IH]; simpl; [done|]. case_bool_decide; [intros [= ->]; subst; left|].
  intros Hg. right. by apply IH.
Qed.

Lemma dict_get_set d k v k' :
  dict_get (dict_set d k v) k' = if decide (k = k') then Some v else dict_get d k'.
Proof.
  induction d as [|[k0 v0] d IH]; simpl.
  - case_bool_decide; by case_decide.
  - destruct (decide (k0 = k)) as [->|Hne].
    + rewrite (bool_decide_eq_true_2 (k = k)) by done. simpl.
      case_bool_decide; by case_decide.
    + rewrite (bool_decide_eq_false_2 (k0 = k)) by done. simpl. rewrite IH.
      case_bool_decide as H1; case_decide as H2; congruence.
Qed.

Lemma dict_set_new d k v : k ∉ d.*1 → dict_set d k v = d ++ [(k, v)].
Proof.
  induction d as [|[k' v'] d IH]; simpl; [done|]. intros [Hne Hd]%not_elem_of_cons.
  rewrite bool_decide_eq_false_2 by congruence. by rewrite IH.
Qed.

Lemma dict_set_keys d k v : k ∈ d.*1 → (dict_set d k v).*1 = d.*1.
Proof.
  induction d as [|[k' v'] d IH]; simpl; [by intros ?%not_elem_of_nil|].
  case_bool_decide; [done|]. intros [?|?]%elem_of_cons; [congruence|]. cbn [fmap list_fmap]. f_equal. by apply IH.
Qed.

Lemma elem_of_dict_set d k v k' v' : NoDup d.*1 →
  (k', v') ∈ dict_set d k v ↔ (k' = k ∧ v' = v) ∨ (k' ≠ k ∧ (k', v') ∈ d).
Proof.
  induction d as [|[k0 v0] d IH]; simpl; intros Hnd.
  - rewrite list_elem_of_singleton, elem_of_nil. naive_solver.
  - apply NoDup_cons in Hnd as [Hk0 Hnd]. case_bool_decide as Heq; rewrite !elem_of_cons.
    + subst k0. assert ((k, v') ∉ d) by (intros ?; apply Hk0, list_elem_of_fmap; by exists (k, v')).
      destruct (decide (k' = k)) as [->|]; naive_solver.
    + rewrite IH by done. destruct (decide (k' = k)); naive_solver.
Qed.

(** A dict comprehension: later entries overwrite earlier ones. *)
Definition dict_of (l : list (K * V)) : list (K * V) := foldl (λ d p, dict_set d p.1 p.2) [] l.

Lemma dict_of_NoDup l : NoDup l.*1 → dict_of l = l.
Proof.
  unfold dict_of. intros Hnd. change l with ([] ++ l) in Hnd. rewrite <-(app_nil_l l) at 2.
  generalize dependent (@nil (K * V)). induction l as [|[k v] l IH]; intros d Hnd; simpl.
  - by rewrite app_nil_r.
  - rewrite dict_set_new.
    + rewrite IH; [by rewrite <-app_assoc|]. by rewrite <-app_assoc.
    + rewrite fmap_app in Hnd. apply NoDup_app in Hnd as (_ & Hd & _). intros Hin.
      apply (Hd _ Hin). by left.
Qed.

Lemma dict_get_NoDup d k v : NoDup d.*1 → (k, v) ∈ d → dict_get d k = Some v.
Proof.
  intros Hnd Hin. induction d as [|[k' v'] d IH]; [by apply not_elem_of_nil in Hin|].
  apply NoDup_cons in Hnd as [Hk Hnd]. simpl. apply elem_of_cons in Hin as [[= <- <-]|Hin].
  - by rewrite bool_decide_eq_true_2.
  - rewrite bool_decide_eq_false_2; [by apply IH|]. intros ->. apply Hk, list_elem_of_fmap. by exists (k, v).
Qed.

Lemma dict_get_Permutation d d' k : NoDup d.*1 → d ≡ₚ d' → dict_get d k = dict_get d' k.
Proof.
  intros Hnd Hp. assert (NoDup d'.*1) by (by rewrite <-Hp).
  destruct (dict_get d k) as [v|] eqn:Hg.
  - symmetry. apply dict_get_NoDup; [done|]. rewrite <-Hp. by apply dict_get_Some_elem.
  - symmetry. apply dict_get_None. rewrite <-Hp. by apply dict_get_None.
Qed.

Lemma dict_set_NoDup d k v : NoDup d.*1 → NoDup (dict_set d k v).*1.
Proof.
  intros Hnd. destruct (decide (k ∈ d.*1)) as [Hk|Hk]; [by rewrite dict_set_keys|].
  rewrite dict_set_new, fmap_app by done. apply NoDup_app. split_and!; [done| |by apply NoDup_singleton].
  intros x Hx ->%list_elem_of_singleton. done.
Qed.
End Dict.

(** ** Hint database of the development *)
Create HintDb tracebed.
#[export] Hint Resolve py_sorted_Sorted leb_refl leb_false_flip : tracebed.

(** [list(dict.fromkeys(xs))]: the distinct elements, in the order of first occurrence. *)
Definition fromkeys {A} `{EqDecision A} (xs : list A) : list A := (dict_of ((λ x, (x, tt)) <$> xs)).*1.

Lemma fromkeys_spec {A} `{EqDecision A} (xs : list A) :
  NoDup (fromkeys xs) ∧ ∀ x, x ∈ fromkeys xs ↔ x ∈ xs.
Proof.
  unfold fromkeys, dict_of.
  assert (H : ∀ d : list (A * unit), NoDup d.*1 →
    NoDup (foldl (λ d p, dict_set d p.1 p.2) d ((λ x, (x, tt)) <$> xs)).*1
    ∧ ∀ x, x ∈ (foldl (λ d p, dict_set d p.1 p.2) d ((λ x, (x, tt)) <$> xs)).*1 ↔ x ∈ d.*1 ∨ x ∈ xs).
  { induction xs as [|x xs IH]; intros d Hd; cbn; [set_solver|].
    destruct (IH (dict_set d x tt)) as [H1 H2]; [by apply dict_set_NoDup|]. split; [done|].
    intros y. rewrite H2. destruct (decide (x ∈ d.*1)) as [Hx|Hx].
    - rewrite dict_set_keys by done. set_solver.
    - rewrite dict_set_new, fmap_app by done. set_solver. }
  destruct (H []) as [H1 H2]; [constructor|]. split; [done|]. intros x. rewrite H2. set_solver.
Qed.

Lemma fromkeys_id {A} `{EqDecision A} (xs : list A) : NoDup xs → fromkeys xs = xs.
Proof.
  intros Hnd. unfold fromkeys. rewrite dict_of_NoDup; rewrite <- list_fmap_compose; by rewrite list_fmap_id.
Qed.

Lemma fromkeys_length {A} `{EqDecision A} (xs : list A) : length (fromkeys xs) = length xs ↔ NoDup xs.
Proof.
  split; [|intros H; by rewrite fromkeys_id]. intros Hlen. destruct (fromkeys_spec xs) as [Hnd Hin].
  assert (fromkeys xs ⊆+ xs) as Hsub by (apply NoDup_submseteq; [done|]; intros x; by rewrite Hin).
  rewrite <- (submseteq_length_Permutation _ _ Hsub); [done|lia].
Qed.
