(* ===== verification/Domain.v ===== *)
(** * Shared vocabulary: enums, typed identifiers, UUIDv7 minting, instants

    Models src/src/tracebed/domain/enums.py (one inductive type per [StrEnum]),
    domain/ids.py ([TypedId] and its subclasses, [uuid7], [uuid7_timestamp_ms])
    and the instants the rest of the domain passes around ([datetime] values with
    or without a time zone). *)

From S2P Require Import Prelude.
Open Scope Z_scope.

(** ** Enums (domain/enums.py) *)

Inductive ProvenanceClass := PARSER | DISTILLER | HUMAN_VERDICT | PROPOSAL | OPERATOR.
Inductive TrustTier := TierA | TierB.
Inductive MemType := EPISODIC | SEMANTIC | LESSON | PREFERENCE.
Inductive Lane := OPERATIONAL | QUALITY.
Inductive ScopeType := AGENT_TYPE | WORKFLOW_TEMPLATE | USER | PROJECT_SHARED.
Inductive Slot := STATIC_PREFIX | FACT | EXEMPLAR | PITFALL | CANDIDATE_NOTE | JIT_LESSON.
Inductive OutcomeCode :=
| INJECTED | ABSTAINED_THRESHOLD | ABSTAINED_RARITY | EMPTY_RESULT
| DEGRADED_LEXICAL | TIMEOUT_PREFIX_ONLY | STORE_ERROR | OUTCOME_HOLDOUT.
Inductive Arm := MEMORY_ON | ARM_HOLDOUT.

#[export] Instance ProvenanceClass_eq_dec : EqDecision ProvenanceClass.
Proof. solve_decision. Defined.
#[export] Instance TrustTier_eq_dec : EqDecision TrustTier.
Proof. solve_decision. Defined.
#[export] Instance MemType_eq_dec : EqDecision MemType.
Proof. solve_decision. Defined.
#[export] Instance Lane_eq_dec : EqDecision Lane.
Proof. solve_decision. Defined.
#[export] Instance ScopeType_eq_dec : EqDecision ScopeType.
Proof. solve_decision. Defined.
#[export] Instance Slot_eq_dec : EqDecision Slot.
Proof. solve_decision. Defined.
#[export] Instance OutcomeCode_eq_dec : EqDecision OutcomeCode.
Proof. solve_decision. Defined.
#[export] Instance Arm_eq_dec : EqDecision Arm.
Proof. solve_decision. Defined.

Definition ProvenanceClass_value (c : ProvenanceClass) : string :=
  match c with
  | PARSER => "parser" | DISTILLER => "distiller" | HUMAN_VERDICT => "human_verdict"
  | PROPOSAL => "proposal" | OPERATOR => "operator"
  end.

Definition Slot_value (s : Slot) : string :=
  match s with
  | STATIC_PREFIX => "static_prefix" | FACT => "fact" | EXEMPLAR => "exemplar"
  | PITFALL => "pitfall" | CANDIDATE_NOTE => "candidate_note" | JIT_LESSON => "jit_lesson"
  end.

(** ** UUIDs and typed identifiers (domain/ids.py)

    A UUID is its 128-bit integer; [UUID(int=...)] refuses anything outside the
    range, so the bound is part of the type.  The subclasses of [TypedId] never
    compare equal to each other: each is a record type of its own. *)

Record uuid := mkUUID { uuid_int : N; uuid_bound : Is_true (N.ltb uuid_int (2 ^ 128)) }.

Lemma uuid_eq (a b : uuid) : uuid_int a = uuid_int b → a = b.
Proof. destruct a, b; simpl; intros ->. f_equal. apply proof_irrel. Qed.

#[export] Instance uuid_eq_dec : EqDecision uuid.
Proof.
  refine (λ a b, cast_if (decide (uuid_int a = uuid_int b))); [by apply uuid_eq | congruence].
Defined.

#[export] Program Instance uuid_countable : Countable uuid := {|
  encode u := encode (uuid_int u);
  decode p := n ← decode p;
              match decide (Is_true (N.ltb n (2 ^ 128))) with
              | left H => Some (mkUUID n H)
              | right _ => None
              end |}.
Next Obligation.
  intros [n Hn]. cbn [uuid_int]. rewrite decode_encode. cbn [mbind option_bind].
  destruct (decide _) as [H|H]; [|done]. f_equal. by apply uuid_eq.
Qed.

Record ProjectId := mkProjectId { ProjectId_value : uuid }.
Record RunId := mkRunId { RunId_value : uuid }.
Record PrincipalId := mkPrincipalId { PrincipalId_value : uuid }.
Record MemoryId := mkMemoryId { MemoryId_value : uuid }.
Record AgentTypeId := mkAgentTypeId { AgentTypeId_value : uuid }.

#[export] Instance ProjectId_eq_dec : EqDecision ProjectId.
Proof. solve_decision. Defined.
#[export] Instance RunId_eq_dec : EqDecision RunId.
Proof. solve_decision. Defined.
#[export] Instance PrincipalId_eq_dec : EqDecision PrincipalId.
Proof. solve_decision. Defined.
#[export] Instance MemoryId_eq_dec : EqDecision MemoryId.
Proof. solve_decision. Defined.
#[export] Instance AgentTypeId_eq_dec : EqDecision AgentTypeId.
Proof. solve_decision. Defined.

#[export] Program Instance ProjectId_countable : Countable ProjectId :=
  inj_countable' ProjectId_value mkProjectId _.
Next Obligation. by intros []. Qed.
#[export] Program Instance RunId_countable : Countable RunId :=
  inj_countable' RunId_value mkRunId _.
Next Obligation. by intros []. Qed.
#[export] Program Instance MemoryId_countable : Countable MemoryId :=
  inj_countable' MemoryId_value mkMemoryId _.
Next Obligation. by intros []. Qed.

(** The authenticated scope of a request (domain/scope.py): who is calling, on behalf of
    what, in which project. *)
Record ProjectScope := mkScope {
  sc_project_id : ProjectId;
  sc_agent_type_id : AgentTypeId;
  sc_principal_id : PrincipalId;
}.

(** ** Instants: [datetime] with or without tzinfo, in microseconds since the epoch *)

Record datetime := mkDatetime { dt_us : Z; dt_aware : bool }.

Definition timedelta_days (d : Z) : Z := d * 86400 * 1000000.

(** ** Exceptions raised by the modelled code *)

Inductive exn :=
| ValueError | TypeError | RuntimeError | LookupError
| ConfigError | ProvenanceIncomplete | TracebedError | CrossEpochComparison
| KeyError | AssertionError | OverflowError.

(** ** UUIDv7 (domain/ids.py, [uuid7])

    The module-level state is [_last_ms] and [_counter]; one mint reads the clock
    ([now]) and 8 random bytes ([rand], the integer [os.urandom(8)] decodes to). *)

Record uuid7_state := mkU7 { last_ms : Z; counter : Z }.

Definition uuid7_init : uuid7_state := mkU7 (-1) 0.

Definition COUNTER_MAX : Z := 0xFFF.

(** The critical section: the millisecond and sequence number of this mint. *)
Definition uuid7_tick (st : uuid7_state) (now : Z) : Z * Z * uuid7_state :=
  if now =? last_ms st then
    let c := counter st + 1 in
    if COUNTER_MAX <? c then (now + 1, 0, mkU7 (now + 1) 0)
    else (now, c, mkU7 (last_ms st) c)
  else if now <? last_ms st then
    let c := counter st + 1 in
    if COUNTER_MAX <? c then (last_ms st + 1, 0, mkU7 (last_ms st + 1) 0)
    else (last_ms st, c, mkU7 (last_ms st) c)
  else (now, 0, mkU7 now 0).

Definition uuid7_pack (ms seq rand : Z) : Z :=
  let rand_b := Z.land rand (Z.shiftl 1 62 - 1) in
  let value := Z.shiftl (Z.land ms (Z.shiftl 1 48 - 1)) 80 in
  let value := Z.lor value (Z.shiftl 0x7 76) in
  let value := Z.lor value (Z.shiftl (Z.land seq COUNTER_MAX) 64) in
  let value := Z.lor value (Z.shiftl 2 62) in
  Z.lor value rand_b.

Definition uuid7 (st : uuid7_state) (now rand : Z) : Z * uuid7_state :=
  let '(ms, seq, st') := uuid7_tick st now in
  (uuid7_pack ms seq rand, st').

(** A run of mints: one clock reading and one random word per call. *)
Fixpoint uuid7_mints (st : uuid7_state) (inputs : list (Z * Z)) : list Z * uuid7_state :=
  match inputs with
  | [] => ([], st)
  | (now, rand) :: rest =>
      let '(v, st') := uuid7 st now rand in
      let '(vs, st'') := uuid7_mints st' rest in (v :: vs, st'')
  end.

(** [UUID.version]: only an RFC 4122 variant (top bits 10) has one. *)
Definition uuid_version (v : Z) : option Z :=
  if Z.testbit v 63 && negb (Z.testbit v 62)
  then Some (Z.land (Z.shiftr v 76) 0xF) else None.

Definition uuid7_timestamp_ms (v : Z) : result exn Z :=
  match uuid_version v with
  | Some 7 => Ok (Z.shiftr v 80)
  | _ => Err ValueError
  end.

(** *** The packed layout, as arithmetic *)

Lemma lor_disjoint_add a b k : 0 ≤ k → 0 ≤ b < 2 ^ k → Z.lor (Z.shiftl a k) b = a * 2 ^ k + b.
Proof.
  intros Hk Hb. rewrite <-Z.shiftl_mul_pow2 by done. symmetry.
  rewrite Z.add_nocarry_lxor; [apply Z.lxor_lor|];
    (apply Z.bits_inj'; intros n Hn; rewrite Z.land_spec, Z.bits_0, Z.shiftl_spec by done;
     destruct (Z.ltb_spec n k);
     [rewrite Z.testbit_neg_r by lia; done|];
     rewrite <-(Z.mod_small b (2 ^ k)) by done;
     rewrite Z.mod_pow2_bits_high by lia; apply andb_false_r).
Qed.

Lemma uuid7_pack_layout ms seq rand :
  0 ≤ ms < 2 ^ 48 → 0 ≤ seq ≤ COUNTER_MAX →
  uuid7_pack ms seq rand
  = ms * 2 ^ 80 + 7 * 2 ^ 76 + seq * 2 ^ 64 + 2 * 2 ^ 62 + rand mod 2 ^ 62.
Proof.
  intros Hms Hseq. unfold uuid7_pack.
  assert (Hr : 0 ≤ rand mod 2 ^ 62 < 2 ^ 62) by (apply Z.mod_pos_bound; lia).
  change (Z.shiftl 1 48 - 1) with (Z.ones 48). change (Z.shiftl 1 62 - 1) with (Z.ones 62).
  unfold COUNTER_MAX in *. change 0xFFF with (Z.ones 12).
  rewrite !Z.land_ones by lia. rewrite (Z.mod_small ms), (Z.mod_small seq) by lia.
  rewrite <-!Z.lor_assoc, (lor_disjoint_add 2 _ 62) by lia.
  rewrite (lor_disjoint_add seq _ 64), (lor_disjoint_add 7 _ 76), (lor_disjoint_add ms _ 80)
    by lia.
  lia.
Qed.

(** *** One tick moves the pair (millisecond, counter) strictly forward *)

Definition u7_ok (st : uuid7_state) : Prop := -1 ≤ last_ms st ∧ 0 ≤ counter st ≤ COUNTER_MAX.

Lemma uuid7_tick_spec st now ms seq st' :
  u7_ok st → 0 ≤ now → uuid7_tick st now = (ms, seq, st') →
  st' = mkU7 ms seq ∧ 0 ≤ ms ∧ u7_ok st'
  ∧ last_ms st * 2 ^ 12 + counter st < ms * 2 ^ 12 + seq.
Proof.
  intros [Hl Hc] Hnow. unfold uuid7_tick, u7_ok, COUNTER_MAX in *.
  destruct (Z.eqb_spec now (last_ms st)), (Z.ltb_spec now (last_ms st)),
    (Z.ltb_spec 0xFFF (counter st + 1)); intros [= <- <- <-]; simpl;
    (split; [f_equal; lia|lia]).
Qed.

(** The 76 leading bits of a minted value order it: later ticks give larger values. *)
Lemma uuid7_pack_lt ms seq r ms' seq' r' :
  0 ≤ ms < 2 ^ 48 → 0 ≤ seq ≤ COUNTER_MAX → 0 ≤ ms' < 2 ^ 48 → 0 ≤ seq' ≤ COUNTER_MAX →
  ms * 2 ^ 12 + seq < ms' * 2 ^ 12 + seq' →
  uuid7_pack ms seq r < uuid7_pack ms' seq' r'.
Proof.
  intros. rewrite !uuid7_pack_layout by done.
  pose proof (Z.mod_pos_bound r (2 ^ 62) ltac:(lia)).
  pose proof (Z.mod_pos_bound r' (2 ^ 62) ltac:(lia)). unfold COUNTER_MAX in *. destruct (Z.lt_total ms ms') as [?|[->|?]]; lia.
Qed.

Lemma uuid7_mints_spec inputs : ∀ st vs st',
  u7_ok st → Forall (λ i, 0 ≤ i.1) inputs → uuid7_mints st inputs = (vs, st') →
  last_ms st' < 2 ^ 48 →
  last_ms st ≤ last_ms st'
  ∧ (∀ r, 0 ≤ last_ms st → Forall (λ v, uuid7_pack (last_ms st) (counter st) r < v) vs)
  ∧ StronglySorted Z.lt vs.
Proof.
  induction inputs as [|[now rand] inputs IH]; intros st vs st' Hok Hin Hm Hlt; simpl in Hm.
  - injection Hm as <- <-. repeat split; [lia|constructor|constructor].
  - inversion Hin as [|?? Hnow Hin']; subst; simpl in Hnow.
    unfold uuid7 in Hm. destruct (uuid7_tick st now) as [[ms seq] st1] eqn:Ht.
    destruct (uuid7_tick_spec _ _ _ _ _ Hok Hnow Ht) as (-> & Hms & Hok1 & Hstep).
    destruct (uuid7_mints (mkU7 ms seq) inputs) as [vs1 st2] eqn:Hrest. injection Hm as <- <-.
    destruct (IH _ _ _ Hok1 Hin' Hrest Hlt) as (Hle & Hall & Hss). simpl in Hle, Hall.
    destruct Hok as [? ?], Hok1 as [? ?]; simpl in *; unfold COUNTER_MAX in *.
    assert (Hone : ∀ r, 0 ≤ last_ms st →
      uuid7_pack (last_ms st) (counter st) r < uuid7_pack ms seq rand).
    { intros. apply uuid7_pack_lt; unfold COUNTER_MAX; lia. }
    repeat split; [lia| |constructor; [done|by apply Hall]].
    intros r Hst. constructor; [by apply Hone|].
    eapply Forall_impl; [exact (Hall rand ltac:(lia))|].
    intros v Hv. specialize (Hone r Hst). simpl in Hv. lia.
Qed.

(** Reading a fixed-width field back from a sum of fields. *)
Lemma div_field v hi k lo : v = hi * 2 ^ k + lo → 0 ≤ lo < 2 ^ k → 0 ≤ k → Z.shiftr v k = hi.
Proof.
  intros -> ? ?. rewrite Z.shiftr_div_pow2 by done. symmetry.
  by apply Z.div_unique with lo; [left|lia].
Qed.

Lemma uuid7_pack_timestamp ms seq rand :
  0 ≤ ms < 2 ^ 48 → 0 ≤ seq ≤ COUNTER_MAX →
  uuid7_timestamp_ms (uuid7_pack ms seq rand) = Ok ms.
Proof.
  intros Hms Hseq. pose proof (uuid7_pack_layout ms seq rand Hms Hseq) as Hv.
  set (v := uuid7_pack ms seq rand) in *. clearbody v.
  pose proof (Z.mod_pos_bound rand (2 ^ 62) ltac:(lia)) as Hr.
  generalize dependent (rand mod 2 ^ 62); intros r Hv Hr. unfold COUNTER_MAX in *.
  unfold uuid7_timestamp_ms, uuid_version. rewrite !Z.testbit_odd.
  rewrite (div_field v (ms * 2 ^ 17 + 7 * 2 ^ 13 + seq * 2 + 1) 63 r) by lia.
  rewrite (div_field v (ms * 2 ^ 18 + 7 * 2 ^ 14 + seq * 4 + 2) 62 r) by lia.
  rewrite (div_field v (ms * 2 ^ 4 + 7) 76 (seq * 2 ^ 64 + 2 * 2 ^ 62 + r)) by lia.
  rewrite (div_field v ms 80 (7 * 2 ^ 76 + seq * 2 ^ 64 + 2 * 2 ^ 62 + r)) by lia.
  change 0xF with (Z.ones 4). rewrite Z.land_ones by lia.
  replace (ms * 2 ^ 17 + 7 * 2 ^ 13 + seq * 2 + 1) with (2 * (ms * 2 ^ 16 + 7 * 2 ^ 12 + seq) + 1)
    by lia.
  replace (ms * 2 ^ 18 + 7 * 2 ^ 14 + seq * 4 + 2)
    with (2 * (ms * 2 ^ 17 + 7 * 2 ^ 13 + seq * 2 + 1)) by lia.
  replace ((ms * 2 ^ 4 + 7) mod 2 ^ 4) with 7 by (rewrite Z.add_comm, Z_mod_plus_full; done).
  rewrite Z.odd_add, !Z.odd_mul. done.
Qed.

(** ** Properties *)

(** Any sequence of UUIDv7 mints from the initial module state, under any
    non-negative clock readings (repeated, stepped backwards, or exhausting the
    12-bit counter inside one millisecond) and any random bytes, yields strictly
    increasing identifiers, as long as the logical millisecond still fits its 48 bits. *)
Lemma uuid7_mints_increasing inputs vs st' :
  Forall (λ i, 0 ≤ i.1) inputs → uuid7_mints uuid7_init inputs = (vs, st') →
  last_ms st' < 2 ^ 48 → StronglySorted Z.lt vs ∧ length vs = length inputs.
Proof.
  intros Hin Hm Hlt. split.
  - eapply uuid7_mints_spec; [|done..]. unfold u7_ok, COUNTER_MAX; simpl; lia.
  - clear Hin Hlt. revert vs st' Hm. generalize uuid7_init.
    induction inputs as [|[now rand] l IH]; simpl; intros st vs st'; [by intros [= <- <-]|].
    destruct (uuid7 st now rand) as [v st1]. destruct (uuid7_mints st1 l) eqn:Hr.
    intros [= <- <-]; simpl. f_equal. by eapply IH.
Qed.

Lemma uuid7_mints_increasing_witness :
  let r := uuid7_mints uuid7_init [(5, 9); (5, 2); (3, 7); (6, 0)] in
  StronglySorted Z.lt r.1 ∧ length r.1 = 4%nat.
Proof.
  apply (uuid7_mints_increasing [(5, 9); (5, 2); (3, 7); (6, 0)] _
           (uuid7_mints uuid7_init [(5, 9); (5, 2); (3, 7); (6, 0)]).2).
  - repeat constructor; simpl; lia.
  - reflexivity.
  - vm_compute. reflexivity.
Defined.

(** A minted UUIDv7 is a valid 128-bit RFC 4122 version-7 value, and
    [uuid7_timestamp_ms] reads back exactly the millisecond recorded in the module
    state, which is never earlier than the clock reading. *)
Lemma uuid7_timestamp_roundtrip st now rand :
  u7_ok st → 0 ≤ now → last_ms (uuid7 st now rand).2 < 2 ^ 48 →
  let '(v, st') := uuid7 st now rand in
  uuid7_timestamp_ms v = Ok (last_ms st') ∧ now ≤ last_ms st' ∧ 0 ≤ v < 2 ^ 128.
Proof.
  intros Hok Hnow. unfold uuid7. destruct (uuid7_tick st now) as [[ms seq] st'] eqn:Ht.
  pose proof Ht as Ht'.
  destruct (uuid7_tick_spec _ _ _ _ _ Hok Hnow Ht) as (-> & Hms & [Hl Hc] & Hstep).
  simpl in *. intros Hlt. repeat split.
  - by apply uuid7_pack_timestamp.
  - unfold uuid7_tick in Ht'.
    repeat case_match; injection Ht' as <- <- _; lia.
  - rewrite uuid7_pack_layout by lia. pose proof (Z.mod_pos_bound rand (2 ^ 62)). lia.
  - rewrite uuid7_pack_layout by lia. pose proof (Z.mod_pos_bound rand (2 ^ 62) ltac:(lia)).
    unfold COUNTER_MAX in *. lia.
Qed.

Lemma uuid7_timestamp_roundtrip_witness :
  uuid7_timestamp_ms (uuid7 (mkU7 8 0xFFF) 8 77).1 = Ok 9.
Proof.
  apply (uuid7_timestamp_roundtrip (mkU7 8 0xFFF) 8 77).
  - unfold u7_ok, COUNTER_MAX; simpl; lia.
  - lia.
  - vm_compute. reflexivity.
Defined.
