(* ===== verification/PyText.v ===== *)
(** * Python text: code-point strings, ordering, hexadecimal, UTF-8, whitespace

    The built-in string operations the modelled code calls: comparison of [str]
    values, [str(UUID)] and [UUID(str)], [str.split], [str.strip] emptiness,
    [str.encode("utf-8")] and [int.from_bytes].  A Python [str] is the list of its
    code points. *)

From S2P Require Import Prelude Domain.
Open Scope Z_scope.

Abbreviation pystr := (list Z).

Fixpoint of_ascii (s : string) : pystr :=
  match s with
  | EmptyString => []
  | String c s' => Z.of_nat (Ascii.nat_of_ascii c) :: of_ascii s'
  end.

(** [MemType.value]. *)
Definition MemType_value (t : MemType) : pystr :=
  of_ascii match t with
  | EPISODIC => "episodic" | SEMANTIC => "semantic" | LESSON => "lesson" | PREFERENCE => "preference"
  end.

(** ** Lexicographic order on code points *)

Fixpoint str_leb (a b : pystr) : bool :=
  match a, b with
  | [], _ => true
  | _ :: _, [] => false
  | x :: a', y :: b' => if x <? y then true else if y <? x then false else str_leb a' b'
  end.

Definition str_ltb (a b : pystr) : bool := negb (str_leb b a).

#[export] Instance str_leb_preorder : TotalPreorder str_leb.
Proof.
  split.
  - induction x as [|x a IH]; intros [|y b]; simpl; auto.
    destruct (Z.ltb_spec x y), (Z.ltb_spec y x); auto.
  - induction x as [|x a IH]; intros [|y b] [|z c]; simpl; try done.
    destruct (Z.ltb_spec x y), (Z.ltb_spec y x), (Z.ltb_spec y z), (Z.ltb_spec z y),
      (Z.ltb_spec x z), (Z.ltb_spec z x); try done; try lia; eauto.
Qed.

Lemma str_leb_antisym a b : str_leb a b = true → str_leb b a = true → a = b.
Proof.
  revert b; induction a as [|x a IH]; intros [|y b]; simpl; try done.
  destruct (Z.ltb_spec x y), (Z.ltb_spec y x); try done; try lia.
  intros. f_equal; [lia | by apply IH].
Qed.

Lemma str_ltb_irrefl a : str_ltb a a = false.
Proof. unfold str_ltb. rewrite leb_refl by apply _. done. Qed.

Lemma str_ltb_total a b : a ≠ b → str_ltb a b = true ∨ str_ltb b a = true.
Proof.
  unfold str_ltb. intros Hne. destruct (str_leb b a) eqn:H1, (str_leb a b) eqn:H2; auto.
  destruct Hne. by apply str_leb_antisym.
Qed.

(** ** Hexadecimal and UUID text *)

Definition hex_char (d : Z) : Z := if d <? 10 then 48 + d else 87 + d.

Definition hex_val (c : Z) : option Z :=
  if (48 <=? c) && (c <=? 57) then Some (c - 48)
  else if (97 <=? c) && (c <=? 102) then Some (c - 87)
  else if (65 <=? c) && (c <=? 70) then Some (c - 55) else None.

(** [k] hexadecimal digits of [n], most significant first ([format(n, '0kx')] for
    [0 <= n < 16^k]). *)
Fixpoint hex_pad (k : nat) (n : Z) : pystr :=
  match k with
  | O => []
  | S k' => hex_pad k' (n / 16) ++ [hex_char (n mod 16)]
  end.

Fixpoint hex_read (acc : Z) (s : pystr) : option Z :=
  match s with
  | [] => Some acc
  | c :: s' => match hex_val c with Some d => hex_read (acc * 16 + d) s' | None => None end
  end.

(** [str(uuid)]: the 8-4-4-4-12 form. *)
Definition uuid_str (u : uuid) : pystr :=
  let h := hex_pad 32 (Z.of_N (uuid_int u)) in
  take 8 h ++ [45] ++ take 4 (drop 8 h) ++ [45] ++ take 4 (drop 12 h) ++ [45]
    ++ take 4 (drop 16 h) ++ [45] ++ drop 20 h.

#[global] Arguments uuid_str : simpl never.

Definition uuid_of_Z (n : Z) : option uuid :=
  match decide (Is_true (N.ltb (Z.to_N n) (2 ^ 128))) with
  | left H => if n <? 0 then None else Some (mkUUID (Z.to_N n) H)
  | right _ => None
  end.

(** [UUID(text)] on hexadecimal text with hyphens (the [urn:]/brace spellings the
    constructor also accepts never occur in the values this code writes). *)
Definition uuid_parse (s : pystr) : option uuid :=
  let h := filter (λ c, c ≠ 45) s in
  if Nat.eqb (length h) 32 then hex_read 0 h ≫= uuid_of_Z else None.

Lemma hex_val_char d : 0 ≤ d < 16 → hex_val (hex_char d) = Some d.
Proof.
  intros Hd. unfold hex_val, hex_char. destruct (Z.ltb_spec d 10).
  - rewrite !(proj2 (Z.leb_le _ _)) by lia. simpl. f_equal. lia.
  - rewrite (proj2 (Z.leb_gt (87 + d) 57)), !(proj2 (Z.leb_le _ _)) by lia. simpl.
    f_equal. lia.
Qed.

Lemma hex_char_not_hyphen d : 0 ≤ d → hex_char d ≠ 45.
Proof. unfold hex_char. case_match; lia. Qed.

Lemma length_hex_pad k n : length (hex_pad k n) = k.
Proof. revert n; induction k; intros; simpl; [done|]. rewrite length_app, IHk. simpl. lia. Qed.

Lemma hex_pad_not_hyphen k n : Forall (λ c, c ≠ 45) (hex_pad k n).
Proof.
  revert n; induction k; intros; simpl; [constructor|].
  apply Forall_app; split; [done|]. repeat constructor.
  apply hex_char_not_hyphen, Z.mod_pos_bound. lia.
Qed.

Lemma hex_read_app acc s1 s2 :
  hex_read acc (s1 ++ s2) = hex_read acc s1 ≫= λ a, hex_read a s2.
Proof.
  revert acc; induction s1 as [|c s1 IH]; intros; simpl; [done|].
  destruct (hex_val c); [apply IH|done].
Qed.

Lemma hex_read_pad k acc n :
  0 ≤ n < 16 ^ Z.of_nat k → hex_read acc (hex_pad k n) = Some (acc * 16 ^ Z.of_nat k + n).
Proof.
  revert acc n; induction k as [|k IH]; intros acc n Hn.
  - simpl in *. f_equal. lia.
  - rewrite Nat2Z.inj_succ, Z.pow_succ_r in * by lia. simpl.
    rewrite hex_read_app, IH by (split; [apply Z.div_pos|apply Z.div_lt_upper_bound]; lia).
    simpl. rewrite hex_val_char by (apply Z.mod_pos_bound; lia).
    f_equal. pose proof (Z.div_mod n 16). lia.
Qed.

Lemma filter_all {A} (P : A → Prop) `{!∀ x, Decision (P x)} l :
  Forall P l → filter P l = l.
Proof.
  induction 1; [done|]. rewrite filter_cons_True by done. by f_equal.
Qed.

(** [UUID(str(u)) == u]. *)
Lemma uuid_parse_str u : uuid_parse (uuid_str u) = Some u.
Proof.
  destruct u as [n Hn]. unfold uuid_parse, uuid_str. cbn [uuid_int].
  set (h := hex_pad 32 (Z.of_N n)).
  assert (Hh : Forall (λ c, c ≠ 45) h) by apply hex_pad_not_hyphen.
  rewrite !filter_app. rewrite !(filter_all _ (take _ _)) by (apply Forall_take; auto using Forall_drop).
  rewrite (filter_all _ (drop 20 h)) by auto using Forall_drop.
  assert (Hhy : filter (λ c : Z, c ≠ 45) [45] = []) by reflexivity. rewrite Hhy, !app_nil_l.
  assert (Hcat : take 8 h ++ take 4 (drop 8 h) ++ take 4 (drop 12 h) ++ take 4 (drop 16 h) ++ drop 20 h = h).
  { assert (Hd : ∀ a, drop 4 (drop a h) = drop (4 + a) h)
      by (intros; by rewrite drop_drop, Nat.add_comm).
    assert (Ht : ∀ a b, b = (4 + a)%nat → take 4 (drop a h) ++ drop b h = drop a h)
      by (intros ? ? ->; rewrite <-Hd; apply take_drop).
    rewrite (Ht 16 20)%nat, (Ht 12 16)%nat, (Ht 8 12)%nat by done. apply take_drop. }
  rewrite Hcat. unfold h at 1. rewrite length_hex_pad. simpl Nat.eqb. cbv iota.
  pose proof Hn as Hb. apply Is_true_true, N.ltb_lt in Hb.
  unfold h. rewrite hex_read_pad by (change (16 ^ Z.of_nat 32) with (2 ^ 128); lia).
  simpl. unfold uuid_of_Z. rewrite Z.mul_0_l, Z.add_0_l, N2Z.id.
  destruct (decide _) as [H|H]; [|done].
  destruct (Z.ltb_spec (Z.of_N n) 0); [lia|]. f_equal. by apply uuid_eq.
Qed.

Lemma uuid_str_inj u v : uuid_str u = uuid_str v → u = v.
Proof. intros H. apply (inj Some). by rewrite <-!uuid_parse_str, H. Qed.

(** ** Big-endian integers *)

Fixpoint int_from_bytes_big (acc : Z) (bs : list Z) : Z :=
  match bs with [] => acc | b :: bs' => int_from_bytes_big (acc * 256 + b) bs' end.

Fixpoint int_to_bytes_big (k : nat) (n : Z) : list Z :=
  match k with O => [] | S k' => int_to_bytes_big k' (n / 256) ++ [n mod 256] end.

Lemma length_int_to_bytes_big k n : length (int_to_bytes_big k n) = k.
Proof. revert n; induction k; intros; simpl; [done|]. rewrite length_app, IHk. simpl. lia. Qed.

Lemma int_from_bytes_big_app acc b1 b2 :
  int_from_bytes_big acc (b1 ++ b2) = int_from_bytes_big (int_from_bytes_big acc b1) b2.
Proof. revert acc; induction b1; intros; simpl; auto. Qed.

Lemma int_from_to_bytes k n acc :
  0 ≤ n < 256 ^ Z.of_nat k →
  int_from_bytes_big acc (int_to_bytes_big k n) = acc * 256 ^ Z.of_nat k + n.
Proof.
  revert acc n; induction k as [|k IH]; intros acc n Hn.
  - simpl in *. lia.
  - rewrite Nat2Z.inj_succ, Z.pow_succ_r in * by lia. simpl.
    rewrite int_from_bytes_big_app, IH
      by (split; [apply Z.div_pos|apply Z.div_lt_upper_bound]; lia).
    simpl. pose proof (Z.div_mod n 256). lia.
Qed.

Lemma int_from_bytes_big_bound bs acc :
  Forall (λ b, 0 ≤ b < 256) bs → 0 ≤ acc →
  0 ≤ int_from_bytes_big acc bs < (acc + 1) * 256 ^ Z.of_nat (length bs).
Proof.
  intros H; revert acc; induction H as [|b bs Hb _ IH]; intros acc Hacc; [simpl; lia|].
  cbn [int_from_bytes_big length]. rewrite Nat2Z.inj_succ, Z.pow_succ_r by lia.
  specialize (IH (acc * 256 + b)). pose proof (Z.pow_pos_nonneg 256 (Z.of_nat (length bs))). nia.
Qed.

(** ** Whitespace, as [str.isspace]/[str.split] classify it *)

Definition py_isspace (c : Z) : bool :=
  ((9 <=? c) && (c <=? 13)) || ((28 <=? c) && (c <=? 32)) || (c =? 133) || (c =? 160)
  || (c =? 5760) || ((8192 <=? c) && (c <=? 8202)) || (c =? 8232) || (c =? 8233)
  || (c =? 8239) || (c =? 8287) || (c =? 12288).

(** [not s.strip()]: empty or whitespace only. *)
Definition py_blank (s : pystr) : bool := forallb py_isspace s.

(** [str.split()]: the maximal runs of non-whitespace. *)
Fixpoint py_split_aux (cur : pystr) (s : pystr) : list pystr :=
  match s with
  | [] => match cur with [] => [] | _ => [rev cur] end
  | c :: s' =>
      if py_isspace c
      then match cur with [] => py_split_aux [] s' | _ => rev cur :: py_split_aux [] s' end
      else py_split_aux (c :: cur) s'
  end.
Definition py_split (s : pystr) : list pystr := py_split_aux [] s.

(** [sep.join(parts)]. *)
Fixpoint py_join (sep : pystr) (parts : list pystr) : pystr :=
  match parts with
  | [] => []
  | [p] => p
  | p :: rest => p ++ sep ++ py_join sep rest
  end.

(** ** UTF-8 ([str.encode("utf-8")], strict: a lone surrogate raises) *)

Definition utf8_char (c : Z) : result exn (list Z) :=
  if c <? 0x80 then Ok [c]
  else if c <? 0x800 then Ok [0xC0 + c / 64; 0x80 + c mod 64]
  else if (0xD800 <=? c) && (c <=? 0xDFFF) then Err ValueError
  else if c <? 0x10000 then Ok [0xE0 + c / 4096; 0x80 + (c / 64) mod 64; 0x80 + c mod 64]
  else Ok [0xF0 + c / 262144; 0x80 + (c / 4096) mod 64; 0x80 + (c / 64) mod 64; 0x80 + c mod 64].

Definition utf8_encode (s : pystr) : result exn (list Z) :=
  let! parts := rmap utf8_char s in Ok (concat parts).
