(* ===== verification/Json.v ===== *)
(** * JSON text as [json.dumps]/[json.loads] produce and read it, and canonical JSON

    String escaping in both modes the code uses ([ensure_ascii=True] in
    hotpath/templates.py, [ensure_ascii=False] in domain/canonical.py), decimal
    integers, and [canonical_json] (domain/canonical.py) on values built from
    strings, integers, booleans, null, lists and string-keyed mappings. *)

From S2P Require Import Prelude Domain PyText.
Open Scope Z_scope.

(** ** Decimal integers ([str(int)], [int(str)]) *)

Fixpoint dec_digits (fuel : nat) (n : Z) : pystr :=
  match fuel with
  | O => []
  | S k => if n <? 10 then [48 + n] else dec_digits k (n / 10) ++ [48 + n mod 10]
  end.

(** [str(n)]; the digit count is at most the bit count plus one. *)
Definition dec_str (n : Z) : pystr :=
  let digits m := dec_digits (S (Z.to_nat (Z.log2 m))) m in
  if n <? 0 then 45 :: digits (- n) else digits n.

Fixpoint dec_read (acc : Z) (s : pystr) : option Z :=
  match s with
  | [] => Some acc
  | c :: s' => if (48 <=? c) && (c <=? 57) then dec_read (acc * 10 + (c - 48)) s' else None
  end.

Lemma dec_read_app acc s1 s2 :
  dec_read acc (s1 ++ s2) = dec_read acc s1 ≫= λ a, dec_read a s2.
Proof.
  revert acc; induction s1 as [|c s1 IH]; intros; simpl; [done|].
  case_match; [apply IH|done].
Qed.

Lemma dec_read_digit acc d : 0 ≤ d < 10 → dec_read acc [48 + d] = Some (acc * 10 + d).
Proof.
  intros. simpl. rewrite !(proj2 (Z.leb_le _ _)) by lia. simpl. f_equal. lia.
Qed.

Lemma dec_digits_read k n : 0 ≤ n < 2 ^ Z.of_nat k → (0 < k)%nat →
  dec_read 0 (dec_digits k n) = Some n.
Proof.
  revert n; induction k as [|k IH]; intros n Hn Hk; [lia|]. cbn [dec_digits].
  destruct (Z.ltb_spec n 10); [by rewrite dec_read_digit by lia|].
  rewrite Nat2Z.inj_succ, Z.pow_succ_r in Hn by lia.
  assert (Hdm : n = 10 * (n / 10) + n mod 10) by (apply Z.div_mod; lia).
  pose proof (Z.mod_pos_bound n 10 ltac:(lia)).
  rewrite dec_read_app, IH; [|split; [lia|]; nia|destruct k; simpl in *; lia].
  cbn [mbind option_bind]. rewrite dec_read_digit by lia. f_equal. lia.
Qed.

Lemma dec_str_read n : 0 ≤ n → dec_read 0 (dec_str n) = Some n.
Proof.
  intros Hn. unfold dec_str. destruct (Z.ltb_spec n 0); [lia|].
  apply dec_digits_read; [|lia]. split; [done|].
  rewrite Nat2Z.inj_succ, Z2Nat.id by apply Z.log2_nonneg.
  destruct (Z.eq_dec n 0) as [->|]; [done|]. apply Z.log2_spec. lia.
Qed.

Lemma dec_digits_chars k n : 0 ≤ n → Forall (λ c, 48 ≤ c ≤ 57) (dec_digits k n).
Proof.
  revert n; induction k as [|k IH]; intros n Hn; cbn [dec_digits]; [constructor|].
  destruct (Z.ltb_spec n 10); [repeat constructor; lia|].
  apply Forall_app. split; [apply IH, Z.div_pos; lia|].
  pose proof (Z.mod_pos_bound n 10 ltac:(lia)). repeat constructor; lia.
Qed.

Lemma dec_str_chars n : 0 ≤ n → Forall (λ c, 48 ≤ c ≤ 57) (dec_str n).
Proof.
  intros. unfold dec_str. destruct (Z.ltb_spec n 0); [lia|]. by apply dec_digits_chars.
Qed.

Lemma dec_str_nonempty n : dec_str n ≠ [].
Proof.
  unfold dec_str. case_match; [done|]. cbn [dec_digits]. case_match; [done|].
  intros [_ [=]]%app_eq_nil.
Qed.

(** ** String escaping *)

(** The short escapes of the JSON encoder's table. *)
Definition short_escape (c : Z) : option Z :=
  if c =? 92 then Some 92 else if c =? 34 then Some 34
  else if c =? 8 then Some 98 else if c =? 12 then Some 102
  else if c =? 10 then Some 110 else if c =? 13 then Some 114
  else if c =? 9 then Some 116 else None.

Definition u_escape (n : Z) : pystr := 92 :: 117 :: hex_pad 4 n.

(** [ensure_ascii=True]: printable ASCII is kept; anything else becomes a backslash
    escape, astral code points as a surrogate pair. *)
Definition escape_ascii_char (c : Z) : pystr :=
  match short_escape c with
  | Some e => [92; e]
  | None =>
      if (32 <=? c) && (c <=? 126) then [c]
      else if c <? 0x10000 then u_escape c
      else let n := c - 0x10000 in
           u_escape (0xD800 + (Z.land (Z.shiftr n 10) 0x3FF))
             ++ u_escape (0xDC00 + (Z.land n 0x3FF))
  end.

Definition json_dumps_ascii (s : pystr) : pystr :=
  34 :: concat (escape_ascii_char <$> s) ++ [34].

(** [ensure_ascii=False]: only control characters, quote and backslash are escaped. *)
Definition escape_plain_char (c : Z) : pystr :=
  match short_escape c with
  | Some e => [92; e]
  | None => if c <? 32 then u_escape c else [c]
  end.

Definition json_dumps_plain (s : pystr) : pystr :=
  34 :: concat (escape_plain_char <$> s) ++ [34].

(** ** Reading a JSON string ([json.loads] on a text that starts with a quote)

    [read_u] reads the four hexadecimal digits of a [\u] escape; [json_chars]
    decodes up to the closing quote, joining a high and a following low surrogate
    escape, and refuses raw control characters. *)

Definition read_u (s : pystr) : option (Z * pystr) :=
  match s with
  | a :: b :: c :: d :: rest => n ← hex_read 0 [a; b; c; d]; Some (n, rest)
  | _ => None
  end.

Definition long_unescape (e : Z) : option Z :=
  if e =? 34 then Some 34 else if e =? 92 then Some 92 else if e =? 47 then Some 47
  else if e =? 98 then Some 8 else if e =? 102 then Some 12 else if e =? 110 then Some 10
  else if e =? 114 then Some 13 else if e =? 116 then Some 9 else None.

(** Decode the [\u] escape after its marker; returns the code point and what follows. *)
Definition read_u_pair (s : pystr) : option (Z * pystr) :=
  '(n, rest) ← read_u s;
  if (0xD800 <=? n) && (n <=? 0xDBFF) then
    match rest with
    | b1 :: b2 :: rest' =>
        if (b1 =? 92) && (b2 =? 117) then
          match read_u rest' with
          | Some (n2, rest2) =>
              if (0xDC00 <=? n2) && (n2 <=? 0xDFFF)
              then Some (0x10000 + Z.lor (Z.shiftl (n - 0xD800) 10) (n2 - 0xDC00), rest2)
              else Some (n, rest)
          | None => None
          end
        else Some (n, rest)
    | _ => Some (n, rest)
    end
  else Some (n, rest).

Fixpoint json_chars (fuel : nat) (s : pystr) : option (pystr * pystr) :=
  match fuel with
  | O => None
  | S k =>
      match s with
      | [] => None
      | c :: s' =>
          if c =? 34 then Some ([], s')
          else if c =? 92 then
            match s' with
            | [] => None
            | e :: s'' =>
                if e =? 117 then
                  '(n, rest) ← read_u_pair s'';
                  '(t, tail) ← json_chars k rest; Some (n :: t, tail)
                else
                  n ← long_unescape e;
                  '(t, tail) ← json_chars k s''; Some (n :: t, tail)
            end
          else if c <? 32 then None
          else '(t, tail) ← json_chars k s'; Some (c :: t, tail)
      end
  end.

(** [json.loads(text)] for a text whose first character is a quote: the whole text
    must be one string literal. *)
Definition json_loads_str (s : pystr) : option pystr :=
  match s with
  | [] => None
  | q :: s' =>
      if q =? 34
      then '(t, tail) ← json_chars (S (length s')) s'; match tail with [] => Some t | _ => None end
      else None
  end.

(** *** [json.loads] inverts [json.dumps(ensure_ascii=True)] *)

Definition is_high (c : Z) : bool := (0xD800 <=? c) && (c <=? 0xDBFF).
Definition is_low (c : Z) : bool := (0xDC00 <=? c) && (c <=? 0xDFFF).

(** Text whose code points are in range and in which no lone high surrogate is directly
    followed by a lone low one (Python strings may contain such a pair; JSON cannot tell it
    from the astral character it encodes). *)
Fixpoint encodable (s : pystr) : Prop :=
  match s with
  | [] => True
  | c :: s' =>
      0 ≤ c ≤ 0x10FFFF
      ∧ match s' with [] => True | d :: _ => is_high c && is_low d = false end
      ∧ encodable s'
  end.

Lemma read_u_pad n rest : 0 ≤ n < 0x10000 → read_u (hex_pad 4 n ++ rest) = Some (n, rest).
Proof.
  intros Hn. destruct (hex_pad 4 n) as [|a [|b [|c [|d [|e l]]]]] eqn:He;
    pose proof (length_hex_pad 4 n) as Hl; rewrite He in Hl; try discriminate Hl.
  cbn [app read_u]. rewrite <-He, hex_read_pad by (simpl; lia). done.
Qed.

Lemma read_u_escape_low n rest :
  0 ≤ n < 0x10000 → is_high n = false →
  read_u_pair (hex_pad 4 n ++ rest) = Some (n, rest).
Proof.
  intros Hn Hh. unfold read_u_pair. rewrite read_u_pad by done. simpl.
  unfold is_high in Hh. by rewrite Hh.
Qed.

(** A high surrogate stays alone unless a low one follows as an escape. *)
Lemma read_u_escape_high n rest :
  0 ≤ n < 0x10000 →
  (∀ t, rest = 92 :: 117 :: t → ∃ m t', read_u t = Some (m, t') ∧ is_low m = false) →
  read_u_pair (hex_pad 4 n ++ rest) = Some (n, rest).
Proof.
  intros Hn Hr. unfold read_u_pair. rewrite read_u_pad by done. cbn [mbind option_bind].
  case_match; [|done]. destruct rest as [|b1 [|b2 t]]; [done..|].
  destruct (Z.eqb_spec b1 92), (Z.eqb_spec b2 117); simpl; try done. subst.
  destruct (Hr t eq_refl) as (m & t' & -> & Hm). unfold is_low in Hm. by rewrite Hm.
Qed.

Lemma read_u_astral c rest :
  0x10000 ≤ c ≤ 0x10FFFF →
  read_u_pair (hex_pad 4 (0xD800 + Z.land (Z.shiftr (c - 0x10000) 10) 0x3FF)
               ++ u_escape (0xDC00 + Z.land (c - 0x10000) 0x3FF) ++ rest)
  = Some (c, rest).
Proof.
  intros Hc. change 0x3FF with (Z.ones 10). rewrite !Z.land_ones, Z.shiftr_div_pow2 by lia.
  set (n := c - 0x10000). assert (Hd : 0 ≤ n / 2 ^ 10 < 2 ^ 10)
    by (subst n; split; [apply Z.div_pos|apply Z.div_lt_upper_bound]; lia).
  pose proof (Z.mod_pos_bound n (2 ^ 10) ltac:(lia)) as Hm.
  rewrite (Z.mod_small (n / 2 ^ 10)) by done. unfold read_u_pair. rewrite read_u_pad by lia.
  cbn [mbind option_bind]. rewrite !(proj2 (Z.leb_le _ _)) by lia. cbn [andb u_escape app].
  rewrite !Z.eqb_refl. cbn [andb]. rewrite read_u_pad by lia.
  rewrite !(proj2 (Z.leb_le _ _)) by lia. cbn [andb]. do 2 f_equal.
  replace (0xD800 + n / 2 ^ 10 - 0xD800) with (n / 2 ^ 10) by lia.
  replace (0xDC00 + n mod 2 ^ 10 - 0xDC00) with (n mod 2 ^ 10) by lia.
  rewrite lor_disjoint_add by lia. pose proof (Z.div_mod n (2 ^ 10)). subst n. lia.
Qed.

Lemma escape_cases c : 0 ≤ c ≤ 0x10FFFF →
  (∃ e, escape_ascii_char c = [92; e] ∧ e ≠ 117 ∧ long_unescape e = Some c)
  ∨ (escape_ascii_char c = [c] ∧ 32 ≤ c ≤ 126 ∧ c ≠ 34 ∧ c ≠ 92)
  ∨ (c < 0x10000 ∧ escape_ascii_char c = 92 :: 117 :: hex_pad 4 c)
  ∨ (0x10000 ≤ c
     ∧ escape_ascii_char c
       = 92 :: 117 :: hex_pad 4 (0xD800 + Z.land (Z.shiftr (c - 0x10000) 10) 0x3FF)
         ++ u_escape (0xDC00 + Z.land (c - 0x10000) 0x3FF)).
Proof.
  intros Hc. unfold escape_ascii_char. destruct (short_escape c) as [e|] eqn:Hs.
  - left. exists e. unfold short_escape in Hs.
    repeat (case_match eqn:Heq; [apply Z.eqb_eq in Heq; subst c; injection Hs as <-;
      repeat split; done|clear Heq]). done.
  - right. unfold short_escape in Hs.
    destruct (Z.eqb_spec c 92); [done|]. destruct (Z.eqb_spec c 34); [done|].
    destruct ((32 <=? c) && (c <=? 126)) eqn:Hp.
    + left. apply andb_true_iff in Hp as [?%Z.leb_le ?%Z.leb_le]. done.
    + right. destruct (Z.ltb_spec c 0x10000); [by left|by right].
Qed.

(** What follows the escape of a lone high surrogate cannot complete it. *)
Lemma escapes_no_low c s tail : encodable (c :: s) → is_high c = true →
  ∀ t, concat (escape_ascii_char <$> s) ++ 34 :: tail = 92 :: 117 :: t →
  ∃ m t', read_u t = Some (m, t') ∧ is_low m = false.
Proof.
  intros (Hc & Hpair & Hs) Hh t. destruct s as [|d s]; [done|].
  destruct Hs as (Hd & _). rewrite Hh in Hpair. cbn [andb fmap list_fmap concat] in *.
  destruct (escape_cases d Hd) as [(e & -> & ? & _)|[(-> & ? & _ & ?)|[(? & ->)|(Hb & ->)]]];
    cbn [app].
  - intros [= -> _]. done.
  - intros [= -> _]. done.
  - intros H'. apply (inj (λ l, 92 :: 117 :: l)) in H' as <-. eexists _, _. split; [|exact Hpair].
    rewrite <-app_assoc. apply read_u_pad. lia.
  - intros H'. apply (inj (λ l, 92 :: 117 :: l)) in H' as <-. eexists _, _. split.
    + rewrite <-!app_assoc. apply read_u_pad. change 0x3FF with (Z.ones 10).
      rewrite Z.land_ones by lia. pose proof (Z.mod_pos_bound (Z.shiftr (d - 0x10000) 10) (2 ^ 10)). lia.
    + unfold is_low. apply andb_false_iff. left. apply Z.leb_gt. change 0x3FF with (Z.ones 10).
      rewrite Z.land_ones by lia.
      pose proof (Z.mod_pos_bound (Z.shiftr (d - 0x10000) 10) (2 ^ 10) ltac:(lia)). lia.
Qed.

Lemma json_chars_escape s : ∀ fuel tail, encodable s → (length s < fuel)%nat →
  json_chars fuel (concat (escape_ascii_char <$> s) ++ 34 :: tail) = Some (s, tail).
Proof.
  induction s as [|c s IH]; intros fuel tail Hs Hf; (destruct fuel as [|k]; [simpl in *; lia|]);
    [done|].
  pose proof Hs as (Hc & _ & Hs'). specialize (IH k tail Hs' ltac:(simpl in *; lia)).
  cbn [fmap list_fmap concat].
  destruct (escape_cases c Hc)
    as [(e & -> & He & Hu)|[(-> & Hr & ? & ?)|[(Hlt & ->)|(Hge & ->)]]];
    rewrite <-?app_assoc; cbn [app json_chars].
  - rewrite (proj2 (Z.eqb_neq e 117)) by done. simpl. rewrite Hu. simpl. by rewrite IH.
  - rewrite !(proj2 (Z.eqb_neq c _)), (proj2 (Z.ltb_ge _ _)) by lia. by rewrite IH.
  - change (92 =? 34) with false. change (92 =? 92) with true. rewrite Z.eqb_refl. cbv iota.
    destruct (is_high c) eqn:Hh.
    + rewrite read_u_escape_high; [|lia|by eapply escapes_no_low]. simpl. by rewrite IH.
    + rewrite read_u_escape_low by (done || lia). simpl. by rewrite IH.
  - change (92 =? 34) with false. change (92 =? 92) with true. rewrite Z.eqb_refl. cbv iota.
    rewrite <-app_assoc, read_u_astral by lia. simpl. by rewrite IH.
Qed.

Lemma length_escape c : 0 ≤ c ≤ 0x10FFFF → (1 ≤ length (escape_ascii_char c))%nat.
Proof.
  intros Hc. destruct (escape_cases c Hc) as [(? & -> & _)|[(-> & _)|[(_ & ->)|(_ & ->)]]]; simpl; lia.
Qed.

Lemma length_escapes s : encodable s → (length s ≤ length (concat (escape_ascii_char <$> s)))%nat.
Proof.
  induction s as [|c s IH]; [done|]. intros (Hc & _ & Hs). cbn [fmap list_fmap concat length].
  rewrite length_app. pose proof (length_escape c Hc). specialize (IH Hs). lia.
Qed.

Lemma json_loads_dumps s : encodable s → json_loads_str (json_dumps_ascii s) = Some s.
Proof.
  intros Hs. unfold json_loads_str, json_dumps_ascii. rewrite Z.eqb_refl.
  rewrite json_chars_escape; [done|done|]. rewrite length_app. pose proof (length_escapes s Hs).
  simpl. lia.
Qed.

(** Every character the encoder emits is printable ASCII. *)
Lemma hex_pad_printable k n : Forall (λ c, 32 ≤ c ≤ 126) (hex_pad k n).
Proof.
  revert n; induction k as [|k IH]; intros; simpl; [constructor|].
  apply Forall_app. split; [done|]. repeat constructor; unfold hex_char;
    pose proof (Z.mod_pos_bound n 16 ltac:(lia)); case_match eqn:Hq;
    rewrite ?Z.ltb_lt, ?Z.ltb_ge in Hq; lia.
Qed.

Lemma escape_printable c : 0 ≤ c ≤ 0x10FFFF → Forall (λ c, 32 ≤ c ≤ 126) (escape_ascii_char c).
Proof.
  intros Hc. destruct (escape_cases c Hc) as [(e & -> & _ & Hu)|[(-> & ? & _)|[(_ & ->)|(_ & ->)]]].
  - unfold long_unescape in Hu. repeat constructor; try lia;
      repeat (case_match eqn:Heq; [apply Z.eqb_eq in Heq; lia|clear Heq]); done.
  - repeat constructor; lia.
  - repeat (constructor; [lia|]). apply hex_pad_printable.
  - repeat (constructor; [lia|]). apply Forall_app. split; [apply hex_pad_printable|].
    repeat (constructor; [lia|]). apply hex_pad_printable.
Qed.

Lemma json_dumps_printable s :
  Forall (λ c, 0 ≤ c ≤ 0x10FFFF) s → Forall (λ c, 32 ≤ c ≤ 126) (json_dumps_ascii s).
Proof.
  intros Hs. unfold json_dumps_ascii. constructor; [lia|]. apply Forall_app.
  split; [|repeat constructor; lia].
  induction Hs; simpl; [constructor|]. apply Forall_app. split; [by apply escape_printable|done].
Qed.

(** ** Canonical JSON (domain/canonical.py) *)

Inductive json :=
| JNull | JBool (b : bool) | JInt (n : Z) | JStr (s : pystr)
| JArr (l : list json) | JObj (l : list (pystr * json)).

(** [json.dumps(obj, sort_keys=True, separators=(",", ":"))]; [str] writes a string. *)
Fixpoint json_text (str : pystr → pystr) (j : json) : pystr :=
  match j with
  | JNull => of_ascii "null"
  | JBool true => of_ascii "true"
  | JBool false => of_ascii "false"
  | JInt n => dec_str n
  | JStr s => str s
  | JArr l => of_ascii "[" ++ py_join (of_ascii ",") (map (json_text str) l) ++ of_ascii "]"
  | JObj l =>
      of_ascii "{"
      ++ py_join (of_ascii ",")
           (map (λ kv, str kv.1 ++ of_ascii ":" ++ kv.2)
              (py_sorted (λ a b, str_leb a.1 b.1) (map (λ kv, (kv.1, json_text str kv.2)) l)))
      ++ of_ascii "}"
  end.

(** [ensure_ascii=False] *)
Definition json_dumps : json → pystr := json_text json_dumps_plain.

Definition canonical_json (j : json) : result exn (list Z) := utf8_encode (json_dumps j).

Example canonical_json_ex :
  canonical_json (JObj [(of_ascii "b", JArr [JInt 10; JNull]); (of_ascii "a", JStr [10; 65])])
  = Ok (of_ascii "{" ++ [34] ++ of_ascii "a" ++ [34] ++ of_ascii ":" ++ [34; 92; 110; 65; 34]
        ++ of_ascii "," ++ [34] ++ of_ascii "b" ++ [34] ++ of_ascii ":[10,null]}").
Proof. vm_compute. reflexivity. Qed.
