(* ===== verification/JsonLoads.v ===== *)
(** * Reading JSON ([json.loads]) and UTF-8

    The reader of Python's [json] module on texts without floats: numbers with a fraction or
    an exponent, and the constants NaN and Infinity, are outside [json] and refused here.
    The hook decides what becomes of an object's pairs: a [dict], or an error when a key is
    repeated.  [loads_text] shows that it reads back what the canonical writers write, with
    the keys of every object in order. *)

From S2P Require Import Prelude Domain PyText Json.
Open Scope Z_scope.

Definition is_ws (c : Z) : bool := (c =? 32) || (c =? 9) || (c =? 10) || (c =? 13).
Fixpoint skip_ws (s : pystr) : pystr :=
  match s with c :: s' => if is_ws c then skip_ws s' else s | [] => [] end.

Definition is_digit (c : Z) : bool := (48 <=? c) && (c <=? 57).
Fixpoint span_digits (s : pystr) : pystr * pystr :=
  match s with
  | c :: s' => if is_digit c then let '(ds, rest) := span_digits s' in (c :: ds, rest) else ([], s)
  | [] => ([], [])
  end.

(** What makes the number before it a float. *)
Definition float_tail (s : pystr) : bool :=
  match s with
  | c :: d :: s' =>
      if c =? 46 then is_digit d
      else ((c =? 101) || (c =? 69))
           && (is_digit d || (((d =? 43) || (d =? 45)) && match s' with e :: _ => is_digit e | [] => false end))
  | _ => false
  end.

Definition read_nat (s : pystr) : option (Z * pystr) :=
  match s with
  | c :: s' =>
      if c =? 48 then Some (0, s')
      else if is_digit c then let '(ds, rest) := span_digits s in n ← dec_read 0 ds; Some (n, rest) else None
  | [] => None
  end.

Definition read_number (s : pystr) : option (json * pystr) :=
  '(n, rest) ← match s with
               | c :: s' => if c =? 45 then '(n, rest) ← read_nat s'; Some (- n, rest) else read_nat s
               | [] => None
               end;
  if float_tail rest then None else Some (JInt n, rest).

Fixpoint strip_prefix (p s : pystr) : option pystr :=
  match p, s with
  | [], _ => Some s
  | a :: p', b :: s' => if a =? b then strip_prefix p' s' else None
  | _, [] => None
  end.

Definition read_literal (s : pystr) : option (json * pystr) :=
  match strip_prefix (of_ascii "null") s, strip_prefix (of_ascii "true") s, strip_prefix (of_ascii "false") s with
  | Some r, _, _ => Some (JNull, r)
  | _, Some r, _ => Some (JBool true, r)
  | _, _, Some r => Some (JBool false, r)
  | _, _, _ => read_number s
  end.

Definition read_string (s : pystr) : option (pystr * pystr) :=
  match s with
  | c :: s' => if c =? 34 then json_chars (S (length s')) s' else None
  | [] => None
  end.

Section Loads.
Context (hook : list (pystr * json) → option (list (pystr * json))).

Fixpoint scan_once (fuel : nat) (s : pystr) : option (json * pystr) :=
  match fuel with
  | O => None
  | S n =>
      match s with
      | [] => None
      | c :: s' =>
          if c =? 34 then '(t, rest) ← read_string s; Some (JStr t, rest)
          else if c =? 123 then
            match skip_ws s' with
            | d :: rest =>
                if d =? 125 then fields ← hook []; Some (JObj fields, rest)
                else '(pairs, rest') ← scan_members n (d :: rest); fields ← hook pairs; Some (JObj fields, rest')
            | [] => None
            end
          else if c =? 91 then
            match skip_ws s' with
            | d :: rest =>
                if d =? 93 then Some (JArr [], rest)
                else '(l, rest') ← scan_elements n (d :: rest); Some (JArr l, rest')
            | [] => None
            end
          else read_literal s
      end
  end
with scan_members (fuel : nat) (s : pystr) : option (list (pystr * json) * pystr) :=
  match fuel with
  | O => None
  | S n =>
      '(k, r) ← read_string s;
      match skip_ws r with
      | c :: r1 =>
          if c =? 58 then
            '(v, r2) ← scan_once n (skip_ws r1);
            match skip_ws r2 with
            | d :: r3 =>
                if d =? 125 then Some ([(k, v)], r3)
                else if d =? 44 then '(l, r4) ← scan_members n (skip_ws r3); Some ((k, v) :: l, r4)
                else None
            | [] => None
            end
          else None
      | [] => None
      end
  end
with scan_elements (fuel : nat) (s : pystr) : option (list json * pystr) :=
  match fuel with
  | O => None
  | S n =>
      '(v, r) ← scan_once n s;
      match skip_ws r with
      | d :: r1 =>
          if d =? 93 then Some ([v], r1)
          else if d =? 44 then '(l, r2) ← scan_elements n (skip_ws r1); Some (v :: l, r2)
          else None
      | [] => None
      end
  end.

(** Each call but the one from [scan_elements] to [scan_once] reads a character. *)
Definition json_loads (s : pystr) : option json :=
  match s with
  | c :: _ =>
      if c =? 0xFEFF then None
      else '(j, rest) ← scan_once (2 * length s + 2) (skip_ws s);
           match skip_ws rest with [] => Some j | _ => None end
  | [] => None
  end.

End Loads.

(** [dict(pairs)], and the hooks that refuse a repeated key. *)
Definition dict_hook (pairs : list (pystr * json)) : option (list (pystr * json)) := Some (dict_of pairs).
Definition no_duplicates (pairs : list (pystr * json)) : option (list (pystr * json)) :=
  if bool_decide (NoDup pairs.*1) then Some pairs else None.

(** ** Reading back *)

(** Keys in order, at every level. *)
Fixpoint sort_json (j : json) : json :=
  match j with
  | JArr l => JArr (map sort_json l)
  | JObj l => JObj (py_sorted (λ a b, str_leb a.1 b.1) (map (λ kv, (kv.1, sort_json kv.2)) l))
  | _ => j
  end.

(** A [json] that Python can hold: the keys of an object are distinct; strings are [good]. *)
Fixpoint json_wf (good : pystr → Prop) (j : json) : Prop :=
  match j with
  | JStr s => good s
  | JArr l => foldr (λ x P, json_wf good x ∧ P) True l
  | JObj l => NoDup l.*1 ∧ foldr (λ kv P, (good kv.1 ∧ json_wf good kv.2) ∧ P) True l
  | _ => True
  end.

Lemma json_ind_nested (P : json → Prop) :
  P JNull → (∀ b, P (JBool b)) → (∀ n, P (JInt n)) → (∀ s, P (JStr s)) → (∀ l, Forall P l → P (JArr l)) →
  (∀ l, Forall (λ kv, P kv.2) l → P (JObj l)) → ∀ j, P j.
Proof.
  intros Hn Hb Hi Hs Ha Ho. fix IH 1. intros [|b|n|s|l|l]; [exact Hn|apply Hb|apply Hi|apply Hs|apply Ha|apply Ho].
  - induction l as [|x l Hl]; constructor; [apply IH|exact Hl].
  - induction l as [|[k v] l Hl]; constructor; [apply IH|exact Hl].
Qed.

Lemma wf_arr good l : json_wf good (JArr l) ↔ Forall (json_wf good) l.
Proof. cbn. induction l as [|x l IH]; cbn; [by split|]. by rewrite IH, Forall_cons. Qed.

Lemma wf_obj good l : json_wf good (JObj l) ↔ NoDup l.*1 ∧ Forall (λ kv, good kv.1 ∧ json_wf good kv.2) l.
Proof. cbn. apply and_iff_compat_l. induction l as [|x l IH]; cbn; [by split|]. by rewrite IH, Forall_cons. Qed.

(** What may follow a value inside a text. *)
Definition ends (tail : pystr) : Prop := match tail with [] => True | c :: _ => c = 44 ∨ c = 93 ∨ c = 125 end.

Lemma span_digits_app ds tail : Forall (λ c, 48 <= c <= 57) ds → ends tail → span_digits (ds ++ tail) = (ds, tail).
Proof.
  intros Hd Ht. induction Hd as [|c ds Hc Hd IH]; cbn.
  - destruct tail as [|c tail]; [done|]. cbn in *. unfold is_digit.
    destruct (Z.leb_spec 48 c), (Z.leb_spec c 57); cbn; try done; lia.
  - unfold is_digit. rewrite !(proj2 (Z.leb_le _ _)) by lia. cbn. by rewrite IH.
Qed.

Lemma float_tail_ends tail : ends tail → float_tail tail = false.
Proof. destruct tail as [|c [|d s]]; [done..|]. by intros [->|[->| ->]]. Qed.

Lemma dec_digits_head k n : 0 < n < 2 ^ Z.of_nat k → (0 < k)%nat → ∃ c r, dec_digits k n = c :: r ∧ 49 <= c <= 57.
Proof.
  revert n. induction k as [|k IH]; intros n Hn Hk; [lia|]. cbn [dec_digits]. destruct (Z.ltb_spec n 10).
  - exists (48 + n), []. split; [done|lia].
  - assert (Hdiv : 0 < n / 10 < 2 ^ Z.of_nat k).
    { split; [apply Z.div_str_pos; lia|]. rewrite Nat2Z.inj_succ, Z.pow_succ_r in Hn by lia. apply Z.div_lt_upper_bound; lia. }
    destruct (IH (n / 10) Hdiv) as (c & r & -> & Hc); [destruct k; [cbn in *; lia|lia]|]. by exists c, (r ++ [48 + n mod 10]).
Qed.

Lemma read_nat_dec n tail : 0 <= n → ends tail → read_nat (dec_str n ++ tail) = Some (n, tail).
Proof.
  intros Hn Ht. destruct (decide (n = 0)) as [->|]; [by cbn|].
  pose proof (dec_str_chars n Hn) as Hch. pose proof (dec_str_read n Hn) as Hr.
  assert (Hhead : ∃ c r, dec_str n = c :: r ∧ 49 <= c <= 57).
  { unfold dec_str. rewrite (proj2 (Z.ltb_ge n 0)) by lia. apply dec_digits_head; [|lia].
    rewrite Nat2Z.inj_succ, Z2Nat.id by apply Z.log2_nonneg. pose proof (Z.log2_spec n). lia. }
  destruct Hhead as (c & r & Hd & Hc). rewrite Hd in *. cbn [app read_nat].
  rewrite (proj2 (Z.eqb_neq c 48)) by lia. unfold is_digit at 1. rewrite !(proj2 (Z.leb_le _ _)) by lia. cbn [andb].
  change (c :: r ++ tail) with ((c :: r) ++ tail). rewrite span_digits_app by done. cbn [mbind option_bind]. by rewrite Hr.
Qed.

Lemma strip_other a p c s : a ≠ c → strip_prefix (a :: p) (c :: s) = None.
Proof. intros Hne. cbn. by rewrite (proj2 (Z.eqb_neq a c)). Qed.

Lemma dec_str_head n : ∃ c r, dec_str n = c :: r ∧ (c = 45 ∨ 48 <= c <= 57).
Proof.
  destruct (Z.ltb_spec n 0).
  - unfold dec_str. rewrite (proj2 (Z.ltb_lt n 0)) by lia. by eexists _, _; split; [|left].
  - pose proof (dec_str_chars n ltac:(lia)) as Hch. pose proof (dec_str_nonempty n). destruct (dec_str n) as [|c r]; [done|].
    exists c, r. split; [done|]. apply Forall_cons in Hch as [? _]. by right.
Qed.

Lemma read_literal_int n tail : ends tail → read_literal (dec_str n ++ tail) = Some (JInt n, tail).
Proof.
  intros Ht. pose proof (dec_str_head n) as Hhead.
  assert (Hnum : read_number (dec_str n ++ tail) = Some (JInt n, tail)).
  { unfold read_number. destruct (Z.ltb_spec n 0).
    - assert (Hneg : dec_str n = 45 :: dec_str (- n)).
      { unfold dec_str. rewrite (proj2 (Z.ltb_lt n 0)), (proj2 (Z.ltb_ge (- n) 0)) by lia. done. }
      rewrite Hneg. cbn [app Z.eqb Pos.eqb]. rewrite read_nat_dec by (done || lia). cbn. rewrite float_tail_ends by done.
      by rewrite Z.opp_involutive.
    - pose proof (read_nat_dec n tail ltac:(lia) Ht) as Hr. destruct Hhead as (c & r & Hd & Hc). rewrite Hd in *. cbn [app] in *.
      pose proof (dec_str_chars n ltac:(lia)) as Hch. rewrite Hd in Hch. apply Forall_cons in Hch as [? _].
      rewrite (proj2 (Z.eqb_neq c 45)) by lia. rewrite Hr. cbn. by rewrite float_tail_ends. }
  destruct Hhead as (c & r & Hd & Hc). rewrite Hd in *. unfold read_literal.
  change (of_ascii "null") with (110 :: of_ascii "ull"). change (of_ascii "true") with (116 :: of_ascii "rue").
  change (of_ascii "false") with (102 :: of_ascii "alse"). cbn [app] in *. by rewrite !strip_other by lia.
Qed.

#[export] Instance key_leb_preorder {A} : TotalPreorder (λ a b : pystr * A, str_leb a.1 b.1).
Proof. split; [intros a b; apply (leb_total a.1 b.1)|intros a b c; apply (leb_trans a.1 b.1 c.1)]. Qed.

Section RoundTrip.
Context (str : pystr → pystr) (good : pystr → Prop) (hook : list (pystr * json) → option (list (pystr * json))).
Hypothesis str_quote : ∀ s, ∃ body, str s = 34 :: body.
Hypothesis str_reads : ∀ s tail, good s → read_string (str s ++ tail) = Some (s, tail).
Hypothesis hook_distinct : ∀ pairs, NoDup pairs.*1 → hook pairs = Some pairs.
Abbreviation text := (json_text str).
Abbreviation key_leb := (λ a b : pystr * json, str_leb a.1 b.1).

Definition starts (s : pystr) : Prop := ∃ c r, s = c :: r ∧ is_ws c = false ∧ c ≠ 93 ∧ c ≠ 125 ∧ c < 128.

Lemma starts_ws s tail : starts s → skip_ws (s ++ tail) = s ++ tail.
Proof. intros (c & r & -> & Hw & _). cbn. by rewrite Hw. Qed.

Lemma starts_app s tail : starts s → starts (s ++ tail).
Proof. intros (c & r & -> & ?). by exists c, (r ++ tail). Qed.

Lemma str_starts s : starts (str s).
Proof. destruct (str_quote s) as [body ->]. by exists 34, body. Qed.

Lemma text_starts j : starts (text j).
Proof.
  destruct j as [|[]|n|s|l|l]; try (by eexists _, _); [|apply str_starts]. cbn [json_text].
  destruct (dec_str_head n) as (c & r & -> & Hc). exists c, r. split; [done|]. unfold is_ws.
  rewrite !(proj2 (Z.eqb_neq c _)) by lia. split_and!; [done|lia..].
Qed.

(** The text of an object: its members in the order of their keys. *)
Definition member (kv : pystr * json) : pystr := str kv.1 ++ [58] ++ text kv.2.

Lemma text_obj l : text (JObj l) = [123] ++ py_join [44] (member <$> py_sorted key_leb l) ++ [125].
Proof.
  cbn [json_text]. change (of_ascii "{") with [123]. change (of_ascii "}") with [125]. change (of_ascii ",") with [44].
  do 2 f_equal. change (map (λ kv : pystr * json, (kv.1, text kv.2)) l) with ((λ kv : pystr * json, (kv.1, text kv.2)) <$> l).
  rewrite py_sorted_fmap. f_equal. apply (List.map_map (λ kv : pystr * json, (kv.1, text kv.2))).
Qed.

Lemma text_arr l : text (JArr l) = [91] ++ py_join [44] (text <$> l) ++ [93].
Proof. done. Qed.

Lemma sort_obj l : sort_json (JObj l) = JObj ((λ kv, (kv.1, sort_json kv.2)) <$> py_sorted key_leb l).
Proof.
  cbn [sort_json]. f_equal. change (map (λ kv : pystr * json, (kv.1, sort_json kv.2)) l) with ((λ kv : pystr * json, (kv.1, sort_json kv.2)) <$> l).
  by rewrite py_sorted_fmap.
Qed.

Definition reads (j : json) : Prop := ∀ fuel tail, (2 * length (text j) <= fuel)%nat → ends tail →
  scan_once hook fuel (text j ++ tail) = Some (sort_json j, tail).

Lemma join_cons (sep p q : pystr) ps : py_join sep (p :: q :: ps) = p ++ sep ++ py_join sep (q :: ps).
Proof. done. Qed.

Lemma join_starts sep p ps : starts p → starts (py_join sep (p :: ps)).
Proof. intros Hp. destruct ps; [done|]. rewrite join_cons. by apply starts_app. Qed.

Ltac next_char := cbn [mbind option_bind app skip_ws is_ws Z.eqb Pos.eqb orb].

Lemma elements_read l fuel tail : l ≠ [] → Forall reads l → (2 * length (py_join [44]%Z (text <$> l)) + 1 <= fuel)%nat →
  scan_elements hook fuel (py_join [44] (text <$> l) ++ 93 :: tail) = Some (sort_json <$> l, tail).
Proof.
  intros Hne Hl. revert fuel. induction Hl as [|x l Hx Hl IH]; intros fuel Hf; [done|]. destruct fuel as [|n]; [lia|].
  cbn [scan_elements]. destruct l as [|y l]; rewrite ?fmap_cons in *.
  - cbn [fmap list_fmap py_join] in *. rewrite Hx; [done|lia|cbn; auto].
  - rewrite join_cons in *. rewrite !length_app in Hf. cbn [length] in Hf. rewrite <- !app_assoc. cbn [app].
    rewrite Hx; [|lia|cbn; auto]. next_char. rewrite starts_ws by apply join_starts, text_starts.
    by rewrite IH by (done || lia).
Qed.

Lemma members_read l fuel tail : l ≠ [] → Forall (λ kv, good kv.1 ∧ reads kv.2) l →
  (2 * length (py_join [44]%Z (member <$> l)) + 1 <= fuel)%nat →
  scan_members hook fuel (py_join [44] (member <$> l) ++ 125 :: tail) = Some ((λ kv, (kv.1, sort_json kv.2)) <$> l, tail).
Proof.
  intros Hne Hl. revert fuel. induction Hl as [|[k v] l [Hk Hv] Hl IH]; intros fuel Hf; [done|]. destruct fuel as [|n]; [lia|].
  cbn [fst snd] in *. assert (Hm : member (k, v) = str k ++ [58] ++ text v) by done.
  cbn [scan_members]. destruct l as [|y l]; rewrite ?fmap_cons in *.
  - cbn [fmap list_fmap py_join] in *. rewrite Hm in *. rewrite !length_app in Hf. rewrite <- !app_assoc.
    rewrite str_reads by done. next_char. rewrite starts_ws by apply text_starts. rewrite Hv; [done|lia|cbn; auto].
  - rewrite join_cons, Hm in *. rewrite !length_app in Hf. cbn [length] in Hf. rewrite <- !app_assoc.
    rewrite str_reads by done. next_char. rewrite starts_ws by apply text_starts. rewrite Hv; [|lia|cbn; auto]. next_char.
    rewrite starts_ws by apply join_starts, starts_app, str_starts. by rewrite IH by (done || lia).
Qed.

Lemma scan_object l fuel tail : NoDup l.*1 → Forall (λ kv, good kv.1 ∧ reads kv.2) l →
  (2 * length (text (JObj l)) <= fuel)%nat → scan_once hook fuel (text (JObj l) ++ tail) = Some (sort_json (JObj l), tail).
Proof.
  intros Hnd Hl. rewrite text_obj, sort_obj. pose proof (py_sorted_Permutation key_leb l) as Hp.
  assert (Hs : Forall (λ kv, good kv.1 ∧ reads kv.2) (py_sorted key_leb l)) by (by rewrite Hp).
  assert (Hnd' : NoDup (py_sorted key_leb l).*1) by (by rewrite Hp). clear Hp Hl Hnd.
  revert Hs Hnd'. generalize (py_sorted key_leb l). clear l. intros l Hs Hnd Hf. rewrite !length_app in Hf. cbn [length] in Hf.
  destruct fuel as [|n]; [lia|]. rewrite <- !app_assoc. cbn [app scan_once Z.eqb Pos.eqb]. destruct l as [|kv l].
  { next_char. rewrite hook_distinct by done. done. }
  rewrite fmap_cons in *. destruct (join_starts [44] (member kv) (member <$> l)) as (c & r & Hj & Hw & _ & Hc & _);
    [apply starts_app, str_starts|].
  rewrite Hj. cbn [app skip_ws]. rewrite Hw, (proj2 (Z.eqb_neq c 125)) by done.
  change (c :: r ++ 125 :: tail) with ((c :: r) ++ 125 :: tail). rewrite <- Hj, <- fmap_cons, members_read by (done || (rewrite fmap_cons; lia)).
  cbn [mbind option_bind]. rewrite hook_distinct; [done|]. by rewrite <- list_fmap_compose.
Qed.

Lemma scan_array l fuel tail : Forall reads l → (2 * length (text (JArr l)) <= fuel)%nat →
  scan_once hook fuel (text (JArr l) ++ tail) = Some (sort_json (JArr l), tail).
Proof.
  intros Hl Hf. rewrite text_arr in *. rewrite !length_app in Hf. cbn [length] in Hf. destruct fuel as [|n]; [lia|].
  rewrite <- !app_assoc. cbn [app scan_once Z.eqb Pos.eqb]. destruct l as [|x l]; [done|].
  rewrite fmap_cons in *. destruct (join_starts [44] (text x) (text <$> l)) as (c & r & Hj & Hw & Hc & _); [apply text_starts|].
  rewrite Hj. cbn [app skip_ws]. rewrite Hw, (proj2 (Z.eqb_neq c 93)) by done.
  change (c :: r ++ 93 :: tail) with ((c :: r) ++ 93 :: tail). rewrite <- Hj, <- fmap_cons, elements_read by (done || (rewrite fmap_cons; lia)).
  done.
Qed.

Lemma scan_literal fuel s j tail : (1 <= fuel)%nat → starts s → read_literal (s ++ tail) = Some (j, tail) →
  head s ≠ Some 34 → head s ≠ Some 123 → head s ≠ Some 91 → scan_once hook fuel (s ++ tail) = Some (j, tail).
Proof.
  intros Hf (c & r & -> & _) Hr H1 H2 H3. destruct fuel as [|n]; [lia|]. cbn [app scan_once head] in *.
  rewrite !(proj2 (Z.eqb_neq c _)) by congruence. done.
Qed.

Theorem scan_text j : json_wf good j → reads j.
Proof.
  induction j as [|b|n|s|l IH|l IH] using json_ind_nested; intros Hwf fuel tail Hf Ht.
  - destruct fuel as [|fuel]; [cbn in Hf; lia|]. done.
  - destruct b, fuel as [|fuel]; [cbn in Hf; lia|done|cbn in Hf; lia|done].
  - pose proof (text_starts (JInt n)) as Hst. destruct (dec_str_head n) as (c & r & Hd & Hc). cbn [json_text sort_json] in *.
    apply scan_literal; [rewrite Hd in Hf; cbn in Hf; lia|done|by apply read_literal_int|..]; rewrite Hd; cbn; intros [= ->]; lia.
  - destruct (str_quote s) as [body Hb]. cbn [json_text sort_json] in *. pose proof (str_reads s tail Hwf) as Hr. rewrite Hb in *.
    destruct fuel as [|fuel]; [cbn in Hf; lia|]. cbn [app scan_once] in *. change (34 =? 34) with true. cbn iota. by rewrite Hr.
  - apply wf_arr in Hwf. apply scan_array; [|done]. rewrite Forall_forall in *. eauto.
  - apply wf_obj in Hwf as [Hnd Hwf]. apply scan_object; [done| |done]. rewrite Forall_forall in *. intros kv Hkv.
    destruct (Hwf kv Hkv). split; [done|]. by apply IH.
Qed.

(** [json.loads(json.dumps(j))] is [j], keys in order. *)
Theorem loads_text j : json_wf good j → json_loads hook (text j) = Some (sort_json j).
Proof.
  intros Hwf. pose proof (scan_text j Hwf (2 * length (text j) + 2)%nat [] ltac:(lia) I) as Hs. rewrite app_nil_r in Hs.
  pose proof (text_starts j) as Hst. unfold json_loads. rewrite <- (app_nil_r (text j)) at 1.
  pose proof (starts_ws (text j) [] Hst) as Hws. rewrite app_nil_r in *. destruct Hst as (c & r & Ht & _ & _ & _ & Hc).
  rewrite Ht in *. rewrite Hws, (proj2 (Z.eqb_neq c 0xFEFF)) by lia. by rewrite Hs.
Qed.

Lemma text_sorted j : text (sort_json j) = text j.
Proof using Type.
  induction j as [|b|n|s|l IH|l IH] using json_ind_nested; try done.
  - cbn [sort_json]. rewrite !text_arr. do 3 f_equal. change (map sort_json l) with (sort_json <$> l).
    rewrite <- list_fmap_compose. by apply Forall_fmap_ext_1.
  - rewrite sort_obj, !text_obj. do 3 f_equal. rewrite py_sorted_fmap. cbn [fst].
    rewrite (py_sorted_sorted _ (py_sorted key_leb l)) by apply (py_sorted_Sorted key_leb).
    rewrite <- list_fmap_compose. apply Forall_fmap_ext_1. rewrite py_sorted_Permutation.
    eapply Forall_impl; [done|]. intros kv Hkv. unfold compose, member. cbn [fst snd]. by rewrite Hkv.
Qed.

End RoundTrip.

(** ** The two writers *)

Definition code_points (s : pystr) : Prop := Forall (λ c, 0 <= c <= 0x10FFFF) s.

Lemma read_string_ascii s tail : encodable s → read_string (json_dumps_ascii s ++ tail) = Some (s, tail).
Proof.
  intros Hs. unfold read_string, json_dumps_ascii. cbn [app Z.eqb Pos.eqb]. rewrite <- app_assoc. cbn [app].
  apply json_chars_escape; [done|]. rewrite length_app. pose proof (length_escapes s Hs). cbn. lia.
Qed.

Lemma json_chars_plain s : ∀ fuel tail, code_points s → (length s < fuel)%nat →
  json_chars fuel (concat (escape_plain_char <$> s) ++ 34 :: tail) = Some (s, tail).
Proof.
  induction s as [|c s IH]; intros fuel tail Hs Hf; (destruct fuel as [|k]; [cbn in *; lia|]); [done|].
  apply Forall_cons in Hs as [Hc Hs]. specialize (IH k tail Hs ltac:(cbn in *; lia)). cbn [fmap list_fmap concat].
  rewrite <- app_assoc. unfold escape_plain_char at 1.
  assert (Hcases : (∃ e, short_escape c = Some e ∧ e ≠ 117 ∧ long_unescape e = Some c)
                   ∨ (short_escape c = None ∧ c ≠ 34 ∧ c ≠ 92)).
  { destruct (short_escape c) as [e|] eqn:Hs'.
    - left. exists e. unfold short_escape in Hs'. split; [done|]. repeat (case_match eqn:Heq; [apply Z.eqb_eq in Heq; subst c; by injection Hs' as <-|clear Heq]). done.
    - right. split; [done|]. unfold short_escape in Hs'. destruct (Z.eqb_spec c 92); [done|]. by destruct (Z.eqb_spec c 34). }
  destruct Hcases as [(e & -> & He & Hu)|(-> & H34 & H92)].
  - cbn [app json_chars Z.eqb Pos.eqb]. rewrite (proj2 (Z.eqb_neq e 117)), Hu by done. cbn [mbind option_bind]. by rewrite IH.
  - destruct (Z.ltb_spec c 32).
    + unfold u_escape. cbn [app json_chars Z.eqb Pos.eqb]. rewrite read_u_escape_low; [cbn [mbind option_bind]; by rewrite IH|lia|].
      unfold is_high. rewrite (proj2 (Z.leb_gt _ c)) by lia. done.
    + cbn [app json_chars]. rewrite (proj2 (Z.eqb_neq c 34)), (proj2 (Z.eqb_neq c 92)), (proj2 (Z.ltb_ge c 32)) by lia.
      by rewrite IH.
Qed.

Lemma read_string_plain s tail : code_points s → read_string (json_dumps_plain s ++ tail) = Some (s, tail).
Proof.
  intros Hs. unfold read_string, json_dumps_plain. cbn [app Z.eqb Pos.eqb]. rewrite <- app_assoc. cbn [app].
  apply json_chars_plain; [done|]. rewrite length_app. cbn.
  assert (length s <= length (concat (escape_plain_char <$> s)))%nat; [|lia]. clear Hs. induction s as [|c s IH]; [done|]. cbn.
  rewrite length_app. assert (1 <= length (escape_plain_char c))%nat; [|lia]. unfold escape_plain_char. repeat case_match; cbn; lia.
Qed.

Lemma dict_hook_distinct pairs : NoDup pairs.*1 → dict_hook pairs = Some pairs.
Proof. intros H. unfold dict_hook. by rewrite dict_of_NoDup. Qed.

Lemma no_duplicates_distinct pairs : NoDup pairs.*1 → no_duplicates pairs = Some pairs.
Proof. intros H. unfold no_duplicates. by rewrite bool_decide_eq_true_2. Qed.

(** [json.dumps(ensure_ascii=True, sort_keys=True)], strict reader. *)
Definition json_dumps_sorted_ascii : json → pystr := json_text json_dumps_ascii.

Lemma loads_ascii j : json_wf encodable j → json_loads no_duplicates (json_dumps_sorted_ascii j) = Some (sort_json j).
Proof.
  intros Hwf. eapply (loads_text _ encodable); [by intros s; eexists| |apply no_duplicates_distinct|done].
  intros s tail Hs. by apply read_string_ascii.
Qed.

Lemma loads_plain j : json_wf code_points j → json_loads dict_hook (json_dumps j) = Some (sort_json j).
Proof.
  intros Hwf. eapply (loads_text _ code_points); [by intros s; eexists| |apply dict_hook_distinct|done].
  intros s tail Hs. by apply read_string_plain.
Qed.

(** ** UTF-8 ([bytes.decode("utf-8")], strict) *)

Definition cont (lo hi b : Z) : bool := (lo <=? b) && (b <=? hi).

Fixpoint utf8_decode (bs : list Z) : result exn pystr :=
  match bs with
  | [] => Ok []
  | a :: r =>
      if cont 0 0x7F a then let! s := utf8_decode r in Ok (a :: s)
      else match r with
           | [] => Err ValueError
           | b :: r1 =>
               if cont 0xC2 0xDF a then
                 check! cont 0x80 0xBF b else ValueError in
                 let! s := utf8_decode r1 in Ok ((a - 0xC0) * 64 + (b - 0x80) :: s)
               else match r1 with
                    | [] => Err ValueError
                    | c :: r2 =>
                        if cont 0xE0 0xEF a then
                          check! cont (if a =? 0xE0 then 0xA0 else 0x80) (if a =? 0xED then 0x9F else 0xBF) b
                                 && cont 0x80 0xBF c else ValueError in
                          let! s := utf8_decode r2 in Ok ((a - 0xE0) * 4096 + (b - 0x80) * 64 + (c - 0x80) :: s)
                        else match r2 with
                             | [] => Err ValueError
                             | d :: r3 =>
                                 check! cont 0xF0 0xF4 a
                                        && cont (if a =? 0xF0 then 0x90 else 0x80) (if a =? 0xF4 then 0x8F else 0xBF) b
                                        && cont 0x80 0xBF c && cont 0x80 0xBF d else ValueError in
                                 let! s := utf8_decode r3 in
                                 Ok ((a - 0xF0) * 262144 + (b - 0x80) * 4096 + (c - 0x80) * 64 + (d - 0x80) :: s)
                             end
                    end
           end
  end.

Lemma cont_true lo hi b : lo <= b <= hi → cont lo hi b = true.
Proof. intros. unfold cont. rewrite !(proj2 (Z.leb_le _ _)) by lia. done. Qed.

Lemma cont_false lo hi b : b < lo ∨ hi < b → cont lo hi b = false.
Proof. intros. unfold cont. apply andb_false_iff. destruct (Z.leb_spec lo b), (Z.leb_spec b hi); auto; lia. Qed.

(** The base-64 digits of a code point. *)
Lemma digits64 c : 0 <= c mod 64 < 64 ∧ 0 <= (c / 64) mod 64 < 64
  ∧ c = c / 64 * 64 + c mod 64 ∧ c / 64 = c / 4096 * 64 + (c / 64) mod 64
  ∧ 0 <= (c / 4096) mod 64 < 64 ∧ c / 4096 = c / 262144 * 64 + (c / 4096) mod 64.
Proof.
  pose proof (Z.mod_pos_bound c 64 ltac:(lia)). pose proof (Z.mod_pos_bound (c / 64) 64 ltac:(lia)).
  pose proof (Z.mod_pos_bound (c / 4096) 64 ltac:(lia)).
  pose proof (Z.div_mod c 64 ltac:(lia)). pose proof (Z.div_mod (c / 64) 64 ltac:(lia)) as Hd1.
  pose proof (Z.div_mod (c / 4096) 64 ltac:(lia)) as Hd2. rewrite Z.div_div in Hd1, Hd2 by lia.
  change (64 * 64) with 4096 in Hd1. change (4096 * 64) with 262144 in Hd2. split_and!; lia.
Qed.

Lemma utf8_decode_char c bs rest : 0 <= c <= 0x10FFFF → utf8_char c = Ok bs →
  utf8_decode (bs ++ rest) = (let! s := utf8_decode rest in Ok (c :: s)).
Proof.
  intros Hc. unfold utf8_char. destruct (Z.ltb_spec c 0x80).
  { intros [= <-]. cbn [app utf8_decode]. by rewrite cont_true by lia. }
  destruct (Z.ltb_spec c 0x800).
  { intros [= <-]. cbn [app utf8_decode]. pose proof (Z.div_mod c 64 ltac:(lia)). pose proof (Z.mod_pos_bound c 64 ltac:(lia)).
    assert (2 <= c / 64 < 32) by (split; [apply Z.div_le_lower_bound|apply Z.div_lt_upper_bound]; lia).
    rewrite cont_false, !cont_true by lia. destruct (utf8_decode rest); cbn; [|done]. do 2 f_equal. lia. }
  destruct ((0xD800 <=? c) && (c <=? 0xDFFF)) eqn:Hsur; [done|]. destruct (Z.ltb_spec c 0x10000).
  { intros [= <-]. cbn [app utf8_decode]. destruct (digits64 c) as (Hm & Hm1 & Hd1 & Hd2 & _). 
    assert (0 <= c / 4096 < 16) by (split; [apply Z.div_le_lower_bound|apply Z.div_lt_upper_bound]; lia).
    rewrite !(cont_false _ _ (0xE0 + c / 4096)), (cont_true 0xE0 0xEF), (cont_true 0x80 0xBF (0x80 + c mod 64)) by lia.
    rewrite cont_true.
    - cbn [andb]. destruct (utf8_decode rest); cbn; [|done]. do 2 f_equal. lia.
    - destruct (Z.eqb_spec (0xE0 + c / 4096) 0xE0), (Z.eqb_spec (0xE0 + c / 4096) 0xED); lia. }
  intros [= <-]. cbn [app utf8_decode]. destruct (digits64 c) as (Hm & Hm1 & Hd1 & Hd2 & Hm2 & Hd3).
  assert (0 <= c / 262144 < 5) by (split; [apply Z.div_le_lower_bound|apply Z.div_lt_upper_bound]; lia).
  rewrite !(cont_false _ _ (0xF0 + c / 262144)), (cont_true 0xF0 0xF4), !(cont_true 0x80 0xBF) by lia.
  rewrite cont_true.
  - cbn [andb]. destruct (utf8_decode rest); cbn; [|done]. do 2 f_equal. lia.
  - destruct (Z.eqb_spec (0xF0 + c / 262144) 0xF0), (Z.eqb_spec (0xF0 + c / 262144) 0xF4); lia.
Qed.

Lemma utf8_roundtrip s bs : code_points s → utf8_encode s = Ok bs → utf8_decode bs = Ok s.
Proof.
  intros Hs He. unfold utf8_encode in He. apply rbind_Ok in He as (parts & Hp & [= <-]). revert parts Hp.
  induction Hs as [|c s Hc Hs IH]; intros parts; cbn [rmap]; [by intros [= <-]|].
  intros (bc & Hbc & (bs & Hbs & [= <-])%rbind_Ok)%rbind_Ok. cbn [concat]. rewrite (utf8_decode_char c bc) by done. by rewrite (IH bs).
Qed.

(** [json.loads(raw.decode("utf-8"))] *)
Definition loads_bytes (hook : list (pystr * json) → option (list (pystr * json))) (raw : list Z) : option json :=
  match utf8_decode raw with Ok s => json_loads hook s | Err _ => None end.

(** The text of a value is text. *)
Lemma codes_app s t : code_points (s ++ t) ↔ code_points s ∧ code_points t.
Proof. apply Forall_app. Qed.

Lemma codes_ascii s : code_points (of_ascii s).
Proof.
  induction s as [|a s IH]; [constructor|]. cbn. constructor; [|done].
  pose proof (Ascii.nat_ascii_bounded a) as Hb. lia.
Qed.

Lemma codes_join sep ps : code_points sep → Forall code_points ps → code_points (py_join sep ps).
Proof.
  intros Hsep Hps. induction Hps as [|p ps Hp Hps IH]; [constructor|]. destruct ps; [done|]. rewrite join_cons.
  by rewrite !codes_app.
Qed.

Lemma codes_dec n : code_points (dec_str n).
Proof.
  unfold dec_str. assert (Hd : ∀ m k, 0 <= m → code_points (dec_digits k m)).
  { intros m k Hm. eapply Forall_impl; [by apply dec_digits_chars|]. intros c Hc. cbn in Hc. lia. }
  destruct (Z.ltb_spec n 0); [constructor; [lia|]|]; apply Hd; lia.
Qed.

Lemma codes_plain s : code_points s → code_points (json_dumps_plain s).
Proof.
  intros Hs. unfold json_dumps_plain. constructor; [lia|]. rewrite codes_app. split; [|by repeat constructor].
  induction Hs as [|c s Hc Hs IH]; [constructor|]. cbn. rewrite codes_app. split; [|done]. unfold escape_plain_char.
  destruct (short_escape c) as [e|] eqn:He.
  - unfold short_escape in He. repeat (case_match; [injection He as <-; by repeat constructor|]). done.
  - destruct (Z.ltb_spec c 32); [|constructor; [lia|constructor]]. unfold u_escape. do 2 (constructor; [lia|]).
    eapply Forall_impl; [apply hex_pad_printable|]. intros d Hd. cbn in Hd. lia.
Qed.

Lemma codes_text j : json_wf code_points j → code_points (json_dumps j).
Proof.
  unfold json_dumps. induction j as [|b|n|s|l IH|l IH] using json_ind_nested; intros Hwf.
  - apply codes_ascii.
  - destruct b; apply codes_ascii.
  - apply codes_dec.
  - by apply codes_plain.
  - apply wf_arr in Hwf. rewrite text_arr, !codes_app. split_and!; [by repeat constructor| |by repeat constructor].
    apply codes_join; [by repeat constructor|]. rewrite Forall_fmap. rewrite Forall_forall in *. intros x Hx. cbn. eauto.
  - apply wf_obj in Hwf as [_ Hwf]. rewrite text_obj, !codes_app. split_and!; [by repeat constructor| |by repeat constructor].
    apply codes_join; [by repeat constructor|]. rewrite Forall_fmap, py_sorted_Permutation. rewrite Forall_forall in *.
    intros kv Hkv. unfold compose, member. destruct (Hwf kv Hkv). rewrite !codes_app.
    split_and!; [by apply codes_plain|by repeat constructor|by apply IH].
Qed.

(** A line written by [canonical_json] reads back to the same value, which is written to the same line. *)
Theorem canonical_roundtrip j line : json_wf code_points j → canonical_json j = Ok line →
  loads_bytes dict_hook line = Some (sort_json j) ∧ canonical_json (sort_json j) = Ok line.
Proof.
  intros Hwf Hl. unfold canonical_json in *. split.
  - unfold loads_bytes. rewrite (utf8_roundtrip (json_dumps j) line) by (done || by apply codes_text). by apply loads_plain.
  - unfold json_dumps in *. by rewrite text_sorted.
Qed.
