(* ===== verification/Bits.v ===== *)
(** * Python integers used as bit masks

    [int.bit_count], [int.bit_length] and the loop idiom

      while m: low = m & -m; vertex = low.bit_length() - 1; m ^= low; ...

    with the lemmas that read a mask as the finite set of its bit positions. *)

From S2P Require Import Prelude.
Open Scope Z_scope.

(** ** Operations *)

Fixpoint pos_bit_count (p : positive) : Z :=
  match p with
  | xH => 1
  | xO p' => pos_bit_count p'
  | xI p' => 1 + pos_bit_count p'
  end.

(** [int.bit_count()]: the number of ones in the absolute value. *)
Definition bit_count (n : Z) : Z :=
  match n with Z0 => 0 | Zpos p | Zneg p => pos_bit_count p end.

(** [int.bit_length()]. *)
Definition bit_length (n : Z) : Z := if n =? 0 then 0 else Z.log2 (Z.abs n) + 1.

(** The pairs [(low, vertex)] the loop idiom visits, in order; the loop clears one
    bit per round, so [bit_count m] rounds exhaust [m]. *)
Fixpoint low_bits_loop (rounds : nat) (m : Z) : list (Z * Z) :=
  match rounds with
  | O => []
  | S k =>
      if m =? 0 then []
      else let low := Z.land m (- m) in
           (low, bit_length low - 1) :: low_bits_loop k (Z.lxor m low)
  end.
Definition low_bits (m : Z) : list (Z * Z) := low_bits_loop (Z.to_nat (bit_count m)) m.

(** A mask as a finite set of positions. *)
Definition elems (m : Z) : gset Z := list_to_set (low_bits m).*2.

(** ** Counting and clearing bits *)

Lemma bit_count_div2 m : 0 ≤ m → bit_count m = Z.b2z (Z.odd m) + bit_count (Z.div2 m).
Proof. intros. by destruct m as [|[p|p|]|]. Qed.

Lemma bit_count_nonneg m : 0 ≤ bit_count m.
Proof. assert (∀ p, 0 < pos_bit_count p) by (induction p; simpl; lia).
  destruct m as [|p|p]; simpl; [lia|..]; specialize (H p); lia. Qed.

Lemma bit_count_0 m : 0 ≤ m → bit_count m = 0 → m = 0.
Proof.
  assert (H : ∀ p, 0 < pos_bit_count p) by (induction p; simpl; lia).
  destruct m as [|p|p]; simpl; [done| |lia]. specialize (H p). lia.
Qed.

Lemma testbit_div2 m n : 0 ≤ n → Z.testbit (Z.div2 m) n = Z.testbit m (Z.succ n).
Proof. intros. by rewrite Z.div2_spec, Z.shiftr_spec. Qed.

Lemma odd_clearbit m k : 0 < k → Z.odd (Z.clearbit m k) = Z.odd m.
Proof. intros. rewrite <-!Z.bit0_odd. apply Z.clearbit_neq; lia. Qed.

Lemma div2_clearbit m k : 0 ≤ k → Z.div2 (Z.clearbit m (Z.succ k)) = Z.clearbit (Z.div2 m) k.
Proof.
  intros. apply Z.bits_inj'; intros n Hn.
  rewrite testbit_div2 by done. rewrite !Z.clearbit_eqb by lia.
  rewrite testbit_div2 by done. f_equal. f_equal.
  destruct (Z.eqb_spec (Z.succ k) (Z.succ n)), (Z.eqb_spec k n); lia.
Qed.

Lemma div2_clearbit_0 m : Z.div2 (Z.clearbit m 0) = Z.div2 m.
Proof.
  apply Z.bits_inj'; intros n Hn. rewrite !testbit_div2 by done.
  apply Z.clearbit_neq; lia.
Qed.

Lemma clearbit_nonneg m k : 0 ≤ m → 0 ≤ k → 0 ≤ Z.clearbit m k.
Proof. intros. unfold Z.clearbit. apply Z.ldiff_nonneg. by left. Qed.

(** Clearing a set bit lowers the count by one. *)
Lemma bit_count_clearbit m k :
  0 ≤ m → 0 ≤ k → Z.testbit m k = true → bit_count (Z.clearbit m k) = bit_count m - 1.
Proof.
  intros Hm Hk. revert m Hm. revert k Hk. refine (natlike_ind _ _ _).
  - intros m Hm Hb. rewrite Z.bit0_odd in Hb.
    rewrite (bit_count_div2 m), (bit_count_div2 (Z.clearbit m 0)), div2_clearbit_0, Hb
      by auto using clearbit_nonneg with lia.
    rewrite <-Z.bit0_odd, Z.clearbit_eq. simpl. lia.
  - intros k Hk IH m Hm Hb.
    rewrite (bit_count_div2 m), (bit_count_div2 (Z.clearbit m _)), div2_clearbit, odd_clearbit
      by auto using clearbit_nonneg with lia.
    rewrite IH; [lia | by apply Z.div2_nonneg | by rewrite testbit_div2].
Qed.

(** ** The lowest set bit *)

Definition lowest (m k : Z) : Prop :=
  0 ≤ k ∧ Z.testbit m k = true ∧ ∀ j, j < k → Z.testbit m j = false.

Lemma land_opp_odd q : Z.land (2 * q + 1) (- (2 * q + 1)) = 1.
Proof.
  replace (- (2 * q + 1)) with (Z.lnot (2 * q)) by (unfold Z.lnot; lia).
  apply Z.bits_inj'; intros n Hn. rewrite Z.land_spec, Z.lnot_spec by done.
  destruct (Z.eq_dec n 0) as [->|]; [by rewrite Z.testbit_odd_0, Z.testbit_even_0|].
  replace n with (Z.succ (Z.pred n)) by lia.
  rewrite Z.testbit_odd_succ, Z.testbit_even_succ, andb_negb_r by lia.
  change 1 with (2 * 0 + 1). by rewrite Z.testbit_odd_succ, Z.bits_0 by lia.
Qed.

Lemma lowest_0 m : Z.testbit m 0 = true → lowest m 0.
Proof. intros. repeat split; [lia|done|]. intros j Hj. by apply Z.testbit_neg_r. Qed.

Lemma land_opp_pow2 p : ∃ k, Z.land (Zpos p) (- Zpos p) = 2 ^ k ∧ lowest (Zpos p) k.
Proof.
  induction p as [p _|p (k & Hl & Hk & Hb & Hj)|].
  - exists 0. split; [exact (land_opp_odd (Zpos p))|by apply lowest_0].
  - exists (Z.succ k). change (Zpos p~0) with (2 * Zpos p). rewrite <-Z.mul_opp_r. split.
    + rewrite !(Z.mul_comm 2), <-!(Z.shiftl_mul_pow2 _ 1), <-Z.shiftl_land, Hl by lia.
      rewrite Z.shiftl_mul_pow2, Z.pow_succ_r by lia. lia.
    + split; [lia|]. split; [by rewrite Z.double_bits_succ|].
      intros j Hjk. destruct (Z.ltb_spec j 0); [by apply Z.testbit_neg_r|].
      destruct (Z.eq_dec j 0) as [->|]; [by rewrite Z.testbit_even_0|].
      replace j with (Z.succ (Z.pred j)) by lia. rewrite Z.double_bits_succ. apply Hj. lia.
  - exists 0. split; [done|by apply lowest_0].
Qed.

Lemma bit_length_pow2 k : 0 ≤ k → bit_length (2 ^ k) - 1 = k.
Proof.
  intros. unfold bit_length. pose proof (Z.pow_pos_nonneg 2 k ltac:(lia) ltac:(lia)).
  rewrite (proj2 (Z.eqb_neq _ _)), Z.abs_eq, Z.log2_pow2 by lia. lia.
Qed.

Lemma lxor_pow2_clearbit m k : 0 ≤ k → Z.testbit m k = true → Z.lxor m (2 ^ k) = Z.clearbit m k.
Proof.
  intros Hk Hb. apply Z.bits_inj'; intros n Hn.
  rewrite Z.lxor_spec, Z.pow2_bits_eqb, Z.clearbit_eqb by lia.
  destruct (Z.eqb_spec k n) as [->|]; [by rewrite Hb|].
  by rewrite xorb_false_r, andb_true_r.
Qed.

(** One round of the idiom on a non-zero mask. *)
Lemma low_bits_loop_S k m :
  0 < m → ∃ v, lowest m v ∧
    low_bits_loop (S k) m = (2 ^ v, v) :: low_bits_loop k (Z.clearbit m v).
Proof.
  intros Hm. destruct m as [|p|p]; [lia| |lia].
  destruct (land_opp_pow2 p) as (v & Hl & Hlow). exists v.
  assert (0 ≤ v) by apply Hlow. split; [done|].
  cbn [low_bits_loop]. rewrite Hl, bit_length_pow2 by done.
  rewrite lxor_pow2_clearbit by (done || apply Hlow). done.
Qed.

(** ** A mask and the set of its bits *)

Lemma low_bits_loop_spec k : ∀ m, 0 ≤ m → bit_count m = Z.of_nat k →
  length (low_bits_loop k m) = k
  ∧ Forall (λ lv, 0 ≤ lv.2 ∧ lv.1 = 2 ^ lv.2) (low_bits_loop k m)
  ∧ (∀ v, v ∈ (low_bits_loop k m).*2 ↔ Z.testbit m v = true)
  ∧ NoDup (low_bits_loop k m).*2.
Proof.
  induction k as [|k IH]; intros m Hm Hc.
  - apply bit_count_0 in Hc as ->; [|done]. simpl. repeat split; try constructor.
    + by intros ?%elem_of_nil.
    + by rewrite Z.bits_0.
  - assert (0 < m) as Hpos by (destruct m; simpl in *; lia).
    destruct (low_bits_loop_S k m Hpos) as (v & (Hv & Hb & _) & ->).
    destruct (IH (Z.clearbit m v)) as (Hlen & Hall & Hin & Hnd);
      [by apply clearbit_nonneg | rewrite bit_count_clearbit by done; lia|].
    simpl. repeat split.
    + by rewrite Hlen.
    + constructor; [done|exact Hall].
    + rewrite elem_of_cons, Hin. intros [->|H]; [done|].
      rewrite Z.clearbit_eqb in H by done. by apply andb_true_iff in H as [? _].
    + intros Hb'. rewrite elem_of_cons, Hin, Z.clearbit_eqb by done.
      destruct (Z.eqb_spec v v0) as [->|]; [by left|right]. by rewrite Hb'.
    + constructor; [|done]. rewrite Hin, Z.clearbit_eq. done.
Qed.

Section LowBits.
Context (m : Z) (Hm : 0 ≤ m).

Lemma low_bits_spec :
  length (low_bits m) = Z.to_nat (bit_count m)
  ∧ Forall (λ lv, 0 ≤ lv.2 ∧ lv.1 = 2 ^ lv.2) (low_bits m)
  ∧ (∀ v, v ∈ (low_bits m).*2 ↔ Z.testbit m v = true)
  ∧ NoDup (low_bits m).*2.
Proof.
  apply low_bits_loop_spec; [done|]. pose proof (bit_count_nonneg m). lia.
Qed.

Lemma elem_of_elems v : v ∈ elems m ↔ Z.testbit m v = true.
Proof. unfold elems. rewrite elem_of_list_to_set. apply low_bits_spec. Qed.

Lemma size_elems : Z.of_nat (size (elems m)) = bit_count m.
Proof.
  destruct low_bits_spec as (Hlen & _ & _ & Hnd). unfold elems.
  rewrite size_list_to_set, length_fmap, Hlen by done.
  pose proof (bit_count_nonneg m). lia.
Qed.
End LowBits.

Lemma elems_land a b : 0 ≤ a → 0 ≤ b → elems (Z.land a b) = elems a ∩ elems b.
Proof.
  intros Ha Hb. apply set_eq; intros v.
  rewrite elem_of_intersection, !elem_of_elems, Z.land_spec, andb_true_iff
    by (try apply Z.land_nonneg; auto). done.
Qed.

Lemma elems_lor a b : 0 ≤ a → 0 ≤ b → elems (Z.lor a b) = elems a ∪ elems b.
Proof.
  intros Ha Hb. apply set_eq; intros v.
  rewrite elem_of_union, !elem_of_elems, Z.lor_spec, orb_true_iff
    by (try apply Z.lor_nonneg; auto). done.
Qed.

Lemma elems_land_lnot a b : 0 ≤ a → 0 ≤ b → elems (Z.land a (Z.lnot b)) = elems a ∖ elems b.
Proof.
  intros Ha Hb. apply set_eq; intros v.
  rewrite elem_of_difference, !elem_of_elems by (try apply Z.land_nonneg; auto).
  rewrite Z.land_spec, andb_true_iff. destruct (Z.ltb_spec v 0).
  - rewrite !(Z.testbit_neg_r _ v) by done. naive_solver.
  - rewrite Z.lnot_spec, negb_true_iff, not_true_iff_false by done. done.
Qed.

Lemma elems_lxor_pow2 a v : 0 ≤ a → 0 ≤ v → v ∈ elems a → elems (Z.lxor a (2 ^ v)) = elems a ∖ {[v]}.
Proof.
  intros Ha Hv Hin. apply elem_of_elems in Hin; [|done].
  rewrite lxor_pow2_clearbit by done. apply set_eq; intros w.
  rewrite elem_of_difference, !elem_of_elems, Z.clearbit_eqb by auto using clearbit_nonneg.
  rewrite andb_true_iff, negb_true_iff, Z.eqb_neq. set_solver.
Qed.

Lemma elems_pow2 v : 0 ≤ v → elems (2 ^ v) = {[v]}.
Proof.
  intros Hv. pose proof (Z.pow_pos_nonneg 2 v ltac:(lia) Hv). apply set_eq; intros w.
  rewrite elem_of_elems, Z.pow2_bits_eqb, Z.eqb_eq, elem_of_singleton by lia. naive_solver.
Qed.

Lemma elems_0 : elems 0 = ∅.
Proof. reflexivity. Qed.

Lemma elems_empty a : 0 ≤ a → elems a = ∅ → a = 0.
Proof.
  intros Ha He. apply bit_count_0; [done|]. rewrite <-size_elems, He by done. done.
Qed.

Lemma elems_ones n : elems (Z.shiftl 1 (Z.of_nat n) - 1) = list_to_set (Z.of_nat <$> seq 0 n).
Proof.
  change (Z.shiftl 1 (Z.of_nat n) - 1) with (Z.pred (Z.shiftl 1 (Z.of_nat n))).
  fold (Z.ones (Z.of_nat n)).
  assert (0 ≤ Z.ones (Z.of_nat n)).
  { rewrite Z.ones_equiv. pose proof (Z.pow_pos_nonneg 2 (Z.of_nat n)). lia. }
  apply set_eq; intros v. rewrite elem_of_elems, elem_of_list_to_set, list_elem_of_fmap by done.
  setoid_rewrite elem_of_seq. rewrite Z.testbit_ones by lia.
  rewrite andb_true_iff, Z.leb_le, Z.ltb_lt. split.
  - intros [??]. exists (Z.to_nat v). lia.
  - intros (k & -> & ?). lia.
Qed.
