(* ===== verification/Signatures.v ===== *)
(** * Input signatures and SimHash clustering (domain/signatures.py)

    [same_cluster], [is_absent_signature] and [hamming] are translated as they are.
    The hash and Unicode primitives the module calls are outside the repository:
    [sha256] (hashlib) and [nfc_casefold] ([unicodedata.normalize] followed by
    [casefold]) are section variables; the only fact used of them is that a SHA-256
    digest is 32 bytes.  [canonical_json] is Json.v's. *)

From S2P Require Import Prelude Domain PyText Json Bits.
Open Scope Z_scope.

Definition SIMHASH_HEAD_CHARS : nat := 512.
Definition SAME_CLUSTER_MAX_HAMMING : Z := 8.
Definition SIG_HASH_LEN : nat := 40.
Definition ABSENT_SIGNATURE : list Z := replicate SIG_HASH_LEN 0.
Definition MAX_TOOL_MANIFEST_ENTRIES : nat := 512.
Definition MAX_TOOL_ID_CHARS : nat := 256.
Definition MAX_NORMALISE_CHARS : nat := SIMHASH_HEAD_CHARS * 64.
Definition SHINGLE_SIZE : nat := 3.

(** ** Clusters *)

Definition hamming (a b : Z) : Z := bit_count (Z.lxor a b).

Definition trailing_simhash (sig : list Z) : result exn Z :=
  if Nat.eqb (length sig) SIG_HASH_LEN
  then Ok (int_from_bytes_big 0 (drop (length sig - 8) sig)) else Err ValueError.

Definition same_cluster (a b : list Z) : result exn bool :=
  let! x := trailing_simhash a in
  let! y := trailing_simhash b in
  Ok (hamming x y <=? SAME_CLUSTER_MAX_HAMMING).

Definition is_absent_signature (sig : list Z) : bool := bool_decide (sig = ABSENT_SIGNATURE).

(** ** Shingles and votes *)

(** [_char_shingles]: the distinct windows of [size] characters, sorted. *)
Definition char_shingles (text : pystr) (size : nat) : list pystr :=
  if Nat.ltb (length text) size
  then match text with [] => [] | _ => [text] end
  else py_sorted str_leb
         (remove_dups ((λ i, take size (drop i text)) <$> seq 0 (length text - size + 1))).

(** One shingle's votes: +1 on each one bit of its hash, -1 on each zero bit. *)
Definition vote (h : Z) (votes : list Z) : list Z :=
  imap (λ bit v, if Z.testbit h (Z.of_nat bit) then v + 1 else v - 1) votes.

(** The majority word: bit [i] is set when its votes are positive. *)
Definition majority (votes : list Z) : Z :=
  foldl (λ acc '(bit, v), if 0 <? v then Z.lor acc (Z.shiftl 1 (Z.of_nat bit)) else acc)
    0 (imap pair votes).

Section Hashing.
Context (sha256 : list Z → list Z) (nfc_casefold : pystr → pystr).

Definition shingle_hash (shingle : pystr) : result exn Z :=
  let! bs := utf8_encode shingle in Ok (int_from_bytes_big 0 (take 8 (sha256 bs))).

Definition simhash64 (text : pystr) : result exn Z :=
  let normalized := nfc_casefold (take MAX_NORMALISE_CHARS text) in
  let normalized := py_join [32] (py_split normalized) in
  let head := take SIMHASH_HEAD_CHARS normalized in
  match head with
  | [] => Ok 0
  | _ => let! hs := rmap shingle_hash (char_shingles head SHINGLE_SIZE) in
         Ok (majority (foldl (λ votes h, vote h votes) (replicate 64 0) hs))
  end.

(** [_normalise_tool_manifest] on a list of strings ([None] is the empty list):
    bounded entry count, bounded entry length, sorted. *)
Definition normalise_tool_manifest (manifest : option (list pystr)) : result exn (list pystr) :=
  match manifest with
  | None => Ok []
  | Some entries =>
      check! Nat.leb (length entries) MAX_TOOL_MANIFEST_ENTRIES else ValueError in
      check! forallb (λ e, Nat.leb (length e) MAX_TOOL_ID_CHARS) entries else ValueError in
      Ok (py_sorted str_leb entries)
  end.

(** The structured half hashes the canonical JSON of the three features, the
    free-text half is the SimHash of the query as 8 big-endian bytes. *)
Definition input_signature_hash (agent_type_id : AgentTypeId) (query_text : pystr)
    (workflow_template : option pystr) (tool_manifest : option (list pystr)) :
    result exn (list Z) :=
  let! manifest := normalise_tool_manifest tool_manifest in
  let! features := canonical_json (JObj
    [(of_ascii "agent_type", JStr (uuid_str (AgentTypeId_value agent_type_id)));
     (of_ascii "workflow_template", JStr (default [] workflow_template));
     (of_ascii "tool_manifest", JArr (JStr <$> manifest))]) in
  let structured := sha256 features in
  let! sh := simhash64 query_text in
  Ok (structured ++ int_to_bytes_big 8 sh).
End Hashing.

(** ** Lemmas *)

Lemma hamming_comm a b : hamming a b = hamming b a.
Proof. unfold hamming. by rewrite Z.lxor_comm. Qed.

Lemma trailing_simhash_ok s : length s = SIG_HASH_LEN → ∃ x, trailing_simhash s = Ok x.
Proof. intros H. unfold trailing_simhash. rewrite H. simpl. eauto. Qed.

Lemma same_cluster_ok a b :
  length a = SIG_HASH_LEN → length b = SIG_HASH_LEN → ∃ r, same_cluster a b = Ok r.
Proof.
  intros Ha Hb. unfold same_cluster.
  destruct (trailing_simhash_ok _ Ha) as [x ->], (trailing_simhash_ok _ Hb) as [y ->].
  simpl. eauto.
Qed.

Lemma same_cluster_comm a b :
  length a = SIG_HASH_LEN → length b = SIG_HASH_LEN → same_cluster a b = same_cluster b a.
Proof.
  intros Ha Hb. unfold same_cluster.
  destruct (trailing_simhash_ok _ Ha) as [x ->], (trailing_simhash_ok _ Hb) as [y ->].
  simpl. by rewrite hamming_comm.
Qed.

Lemma same_cluster_refl a : length a = SIG_HASH_LEN → same_cluster a a = Ok true.
Proof.
  intros Ha. unfold same_cluster. destruct (trailing_simhash_ok _ Ha) as [x ->]. simpl.
  unfold hamming. by rewrite Z.lxor_nilpotent.
Qed.

(** The vote total of one bit is the number of one bits minus the number of zero bits. *)
Lemma votes_foldl hs votes :
  foldl (λ vs h, vote h vs) votes hs
  = imap (λ bit v, v + Z.of_nat (length (filter (λ h, Z.testbit h (Z.of_nat bit) = true) hs))
                     - Z.of_nat (length (filter (λ h, Z.testbit h (Z.of_nat bit) = false) hs)))
      votes.
Proof.
  revert votes; induction hs as [|h hs IH]; intros votes; simpl.
  - trans (imap (const id) votes); [by rewrite imap_const, list_fmap_id|].
    apply imap_ext. intros. simpl. lia.
  - rewrite IH. unfold vote. apply list_eq. intros i. rewrite !list_lookup_imap.
    destruct (votes !! i) as [v|]; [|done]. simpl. f_equal. rewrite !filter_cons.
    destruct (Z.testbit h (Z.of_nat i)); simpl; lia.
Qed.

Lemma majority_bound votes : 0 ≤ majority votes < 2 ^ Z.of_nat (length votes).
Proof.
  unfold majority.
  assert (H : ∀ l acc n, Forall (λ p : nat * Z, (p.1 < n)%nat) l → 0 ≤ acc < 2 ^ Z.of_nat n →
    0 ≤ foldl (λ acc '(bit, v), if 0 <? v then Z.lor acc (Z.shiftl 1 (Z.of_nat bit)) else acc)
        acc l < 2 ^ Z.of_nat n).
  { induction l as [|[bit v] l IH]; intros acc n Hl Hacc; simpl; [done|].
    inversion Hl as [|?? Hbit Hl']; subst. simpl in Hbit. apply IH; [done|].
    case_match; [|done]. rewrite Z.shiftl_1_l.
    pose proof (Z.pow_pos_nonneg 2 (Z.of_nat bit)).
    pose proof (Z.pow_pos_nonneg 2 (Z.of_nat n)).
    split; [apply Z.lor_nonneg; lia|].
    destruct (Z.eq_dec (Z.lor acc (2 ^ Z.of_nat bit)) 0) as [->|]; [lia|].
    apply Z.log2_lt_pow2; [pose proof (proj2 (Z.lor_nonneg acc (2 ^ Z.of_nat bit))); lia|].
    rewrite Z.log2_lor by lia. apply Z.max_lub_lt.
    - destruct (Z.eq_dec acc 0) as [->|]; [simpl; lia|]. apply Z.log2_lt_pow2; lia.
    - rewrite Z.log2_pow2; lia. }
  apply H; [|pose proof (Z.pow_pos_nonneg 2 (Z.of_nat (length votes))); lia].
  apply Forall_forall. intros [i v] Hi. apply list_elem_of_lookup in Hi as [k Hk].
  rewrite list_lookup_imap, fmap_Some in Hk. destruct Hk as (w & Hw & [= -> ->]).
  simpl. by eapply lookup_lt_Some.
Qed.

Lemma py_sorted_str_perm l1 l2 : l1 ≡ₚ l2 → py_sorted str_leb l1 = py_sorted str_leb l2.
Proof. apply py_sorted_perm_inv; [apply _|]. intros. by apply str_leb_antisym. Qed.

Definition windows (text : pystr) (size : nat) : list pystr :=
  (λ i, take size (drop i text)) <$> seq 0 (length text - size + 1).

(** Shingles only see the set of windows. *)
Lemma char_shingles_windows t1 t2 size :
  (size ≤ length t1)%nat → (size ≤ length t2)%nat →
  (∀ w, w ∈ windows t1 size ↔ w ∈ windows t2 size) →
  char_shingles t1 size = char_shingles t2 size.
Proof.
  intros H1 H2 Hw. unfold char_shingles.
  rewrite !(proj2 (Nat.ltb_ge _ _)) by done. apply py_sorted_str_perm.
  apply NoDup_Permutation; [apply NoDup_remove_dups..|].
  intros w. rewrite !elem_of_remove_dups. apply Hw.
Qed.

(** Past three copies, one more filler character adds no new window. *)
Lemma windows_filler x c n w :
  (3 ≤ n)%nat →
  w ∈ windows (x ++ replicate (S n) c) 3 ↔ w ∈ windows (x ++ replicate n c) 3.
Proof.
  intros Hn. unfold windows. rewrite !list_elem_of_fmap. setoid_rewrite elem_of_seq.
  rewrite !length_app, !length_replicate.
  assert (Hsame : ∀ i, (i + 3 ≤ length x + n)%nat →
    take 3 (drop i (x ++ replicate (S n) c)) = take 3 (drop i (x ++ replicate n c))).
  { intros i Hi. apply list_eq. intros k.
    destruct (decide (k < 3)%nat); [|by rewrite !lookup_take_ge by lia].
    rewrite !lookup_take_lt, !lookup_drop by lia.
    destruct (decide (i + k < length x)%nat); [by rewrite !lookup_app_l by lia|].
    rewrite !lookup_app_r by lia. by rewrite !lookup_replicate_2 by lia. }
  assert (Hlast : ∀ m, (3 ≤ m)%nat →
    take 3 (drop (length x + (m - 3)) (x ++ replicate m c)) = replicate 3 c).
  { intros m Hm. rewrite drop_app_ge by lia.
    replace (length x + (m - 3) - length x)%nat with (m - 3)%nat by lia.
    rewrite drop_replicate, take_replicate. f_equal. lia. }
  split; intros (i & -> & Hi).
  - destruct (decide (i + 3 ≤ length x + n)%nat).
    + exists i. split; [by apply Hsame|lia].
    + exists (length x + (n - 3))%nat. split; [|lia].
      replace i with (length x + (S n - 3))%nat by lia. by rewrite !Hlast by lia.
  - exists i. split; [symmetry; apply Hsame; lia|lia].
Qed.

(** ** Properties *)

(** Repeated filler is capped at a single vote: appending more copies of one
    character to a text that already ends in three of them leaves the shingle list,
    hence every bit vote of the SimHash, unchanged. *)
Lemma char_shingles_filler x c n k :
  (3 ≤ n)%nat →
  char_shingles (x ++ replicate (n + k) c) SHINGLE_SIZE
  = char_shingles (x ++ replicate n c) SHINGLE_SIZE.
Proof.
  intros Hn. unfold SHINGLE_SIZE. apply char_shingles_windows;
    [rewrite length_app, length_replicate; lia..|].
  intros w. induction k as [|k IH]; [by rewrite Nat.add_0_r|].
  replace (n + S k)%nat with (S (n + k))%nat by lia. rewrite windows_filler by lia. exact IH.
Qed.

Lemma char_shingles_filler_witness :
  char_shingles (of_ascii "go" ++ replicate (3 + 40) 97) SHINGLE_SIZE
  = char_shingles (of_ascii "go" ++ replicate 3 97) SHINGLE_SIZE.
Proof. apply (char_shingles_filler (of_ascii "go") 97 3 40). lia. Defined.

Lemma simhash64_bound sha256 nfc text h :
  simhash64 sha256 nfc text = Ok h → 0 ≤ h < 2 ^ 64.
Proof.
  unfold simhash64. case_match; [intros [= <-]; lia|]. intros Hok.
  apply rbind_Ok in Hok as (hs & _ & [= <-]).
  rewrite votes_foldl. pose proof (majority_bound (imap (λ (bit : nat) v, v
    + Z.of_nat (length (filter (λ h, Z.testbit h (Z.of_nat bit) = true) hs))
    - Z.of_nat (length (filter (λ h, Z.testbit h (Z.of_nat bit) = false) hs)))
    (replicate 64 0))) as Hb.
  by rewrite length_imap, length_replicate in Hb.
Qed.

(** A computed input signature is exactly [SIG_HASH_LEN] bytes, its trailing
    eight bytes decode to the SimHash of the query text (so [same_cluster] compares
    what was hashed), and reordering the tool manifest does not change it. *)
Lemma input_signature_hash_shape sha256 nfc agent query wf manifest manifest' sig :
  (∀ bs, length (sha256 bs) = 32%nat) →
  manifest ≡ₚ manifest' →
  input_signature_hash sha256 nfc agent query wf (Some manifest) = Ok sig →
  length sig = SIG_HASH_LEN
  ∧ trailing_simhash sig = simhash64 sha256 nfc query
  ∧ input_signature_hash sha256 nfc agent query wf (Some manifest') = Ok sig.
Proof.
  intros Hsha Hp Hsig. pose proof Hsig as Hsig'. unfold input_signature_hash in Hsig.
  apply rbind_Ok in Hsig as (ms & Hms & H). apply rbind_Ok in H as (fs & Hfs & H).
  apply rbind_Ok in H as (sh & Hsh & <-%(inj Ok)).
  assert (Hlen : length (sha256 fs ++ int_to_bytes_big 8 sh) = SIG_HASH_LEN).
  { by rewrite length_app, Hsha, length_int_to_bytes_big. }
  split; [exact Hlen|]. split.
  - unfold trailing_simhash. rewrite Hlen, Hsh. simpl Nat.eqb. cbv iota.
    rewrite drop_app_ge by (rewrite Hsha; unfold SIG_HASH_LEN; lia). rewrite Hsha.
    change (drop (SIG_HASH_LEN - 8 - 32) (int_to_bytes_big 8 sh)) with (int_to_bytes_big 8 sh).
    rewrite int_from_to_bytes; [done|]. by apply simhash64_bound in Hsh.
  - rewrite <-Hsig'. unfold input_signature_hash, normalise_tool_manifest.
    by rewrite <-(Permutation_length Hp), (py_sorted_str_perm _ _ Hp), (forallb_Permutation _ _ _ Hp).
Qed.

Lemma input_signature_hash_shape_witness :
  let sha := λ bs : list Z, replicate 31 0 ++ [Z.of_nat (length bs) mod 256] in
  ∃ sig, input_signature_hash sha id (mkAgentTypeId (mkUUID 7 I)) (of_ascii "hello world")
           None (Some [of_ascii "b"; of_ascii "a"]) = Ok sig
         ∧ length sig = SIG_HASH_LEN
         ∧ input_signature_hash sha id (mkAgentTypeId (mkUUID 7 I)) (of_ascii "hello world")
             None (Some [of_ascii "a"; of_ascii "b"]) = Ok sig.
Proof.
  intros sha.
  eexists. split; [vm_compute; reflexivity|].
  destruct (input_signature_hash_shape sha id (mkAgentTypeId (mkUUID 7 I))
    (of_ascii "hello world") None [of_ascii "b"; of_ascii "a"] [of_ascii "a"; of_ascii "b"]
    (replicate 31 0 ++ [102] ++ [0;0;0;0;0;0;0;0])) as (H1 & _ & H3).
  - intros bs. unfold sha. by rewrite length_app, length_replicate.
  - apply Permutation_swap.
  - vm_compute. reflexivity.
  - split; [exact H1|exact H3].
Defined.
