(* ===== verification/Independence.v ===== *)
(** * Independent confirmations: the bounded maximum-clique search

    Models the independence half of domain/state_machine.py: [ShadowConfirmation],
    [_compatibility_graph] and [independent_confirmations] (Bron-Kerbosch with
    pivoting over adjacency bit masks, with its early exit and its step budget).
    The abstract specification is "the largest set of pairwise independent
    confirmations"; the theorems show that the search never over-reports it, is
    exact when the budget is not exhausted, and always terminates. *)

From S2P Require Import Prelude Domain PyText Bits Signatures.
Open Scope Z_scope.

Definition SHADOW_CONFIRM_MIN_INDEPENDENT : Z := 2.
Definition MAX_CONFIRMATIONS_CONSIDERED : nat := 256.
Definition MAX_CLIQUE_SEARCH_STEPS : Z := 50000.

(** ** Confirmations

    The length check of [__post_init__] is part of the type: no object that fails it
    exists. *)

Record ShadowConfirmation := mkConfirmation {
  sc_run_id : RunId;
  sc_principal_id : PrincipalId;
  sc_sig : list Z;
  sc_sig_len : Is_true (Nat.eqb (length sc_sig) SIG_HASH_LEN);
}.

(** [ShadowConfirmation(run_id=..., principal_id=..., input_signature_hash=...)]. *)
Definition make_confirmation (r : RunId) (p : PrincipalId) (sig : list Z) :
    result exn ShadowConfirmation :=
  match decide (Is_true (Nat.eqb (length sig) SIG_HASH_LEN)) with
  | left H => Ok (mkConfirmation r p sig H)
  | right _ => Err ValueError
  end.

(** The edge test of [_compatibility_graph]: no shared run, principal or cluster. *)
Definition compatible (a b : ShadowConfirmation) : bool :=
  if decide (sc_run_id a = sc_run_id b) then false
  else if decide (sc_principal_id a = sc_principal_id b) then false
  else match same_cluster (sc_sig a) (sc_sig b) with
       | Ok same => negb same
       | Err _ => false  (* unreachable: both signatures have the right length *)
       end.

(** ** The compatibility graph *)

Definition adj_at (adj : list Z) (v : Z) : Z := nth (Z.to_nat v) adj 0.

Definition or_bit (adj : list Z) (i j : nat) : list Z :=
  <[i := Z.lor (nth i adj 0) (Z.shiftl 1 (Z.of_nat j))]> adj.

Definition compatibility_step (confs : list ShadowConfirmation) (adj : list Z) (ij : nat * nat) :
    list Z :=
  let '(i, j) := ij in
  match confs !! i, confs !! j with
  | Some a, Some b => if compatible a b then or_bit (or_bit adj i j) j i else adj
  | _, _ => adj
  end.

(** The pairs [i < j] in the order of the two nested loops. *)
Definition index_pairs (n : nat) : list (nat * nat) :=
  i ← seq 0 n; j ← seq (S i) (n - S i); [(i, j)].

Definition compatibility_graph (confs : list ShadowConfirmation) : list Z :=
  let n := length confs in
  foldl (compatibility_step confs) (replicate n 0) (index_pairs n).

(** ** The search *)

Record search_state := mkSearch { best : Z; steps : Z }.

Section Search.
Context (adj : list Z) (target : Z).

(** The pivot loop: the first vertex of [remaining] with the most candidate
    neighbours, scanning set bits from the lowest. *)
Definition pivot_step (candidates : Z) (acc lv : Z * Z) : Z * Z :=
  let '(pivot, pivot_degree) := acc in
  let vertex := lv.2 in
  let degree := bit_count (Z.land candidates (adj_at adj vertex)) in
  if pivot_degree <? degree then (vertex, degree) else (pivot, pivot_degree).

Definition find_pivot (candidates remaining : Z) : Z :=
  (foldl (pivot_step candidates) (-1, -1) (low_bits remaining)).1.

(** The branch loop of [expand] over the set bits of [branch], with the recursive
    call as an argument. *)
Fixpoint visit (rec : Z → Z → search_state → option (bool * search_state))
    (bits : list (Z * Z)) (candidates excluded : Z) (st : search_state) :
    option (bool * search_state) :=
  match bits with
  | [] => Some (false, st)
  | (low, vertex) :: bits' =>
      match rec (Z.land candidates (adj_at adj vertex)) (Z.land excluded (adj_at adj vertex)) st with
      | None => None
      | Some (true, st') => Some (true, st')
      | Some (false, st') => visit rec bits' (Z.lxor candidates low) (Z.lor excluded low) st'
      end
  end.

(** [expand size candidates excluded]: [None] is "out of fuel" (the recursion depth
    bound; never reached, see [expand_terminates]); the boolean is the Python return
    value, [true] meaning "abort the whole search". *)
Fixpoint expand (fuel : nat) (size candidates excluded : Z) (st : search_state) :
    option (bool * search_state) :=
  match fuel with
  | O => None
  | S fuel' =>
      if (candidates =? 0) && (excluded =? 0) then
        let b := Z.max (best st) size in
        Some (target <=? b, mkSearch b (steps st))
      else
        let st := mkSearch (best st) (steps st + 1) in
        if MAX_CLIQUE_SEARCH_STEPS <? steps st then Some (true, st)
        else if size + bit_count candidates <=? best st then Some (false, st)
        else
          let pivot := find_pivot candidates (Z.lor candidates excluded) in
          let branch := if 0 <=? pivot
                        then Z.land candidates (Z.lnot (adj_at adj pivot)) else candidates in
          visit (expand fuel' (size + 1)) (low_bits branch) candidates excluded st
  end.
End Search.

(** The whole search with its final state; [n] vertices need recursion depth [n + 1]. *)
Definition clique_search (confs : list ShadowConfirmation) (at_least : option Z) :
    option (bool * search_state) :=
  let considered := take MAX_CONFIRMATIONS_CONSIDERED confs in
  let n := length considered in
  let target := match at_least with None => Z.of_nat n | Some k => Z.min k (Z.of_nat n) end in
  expand (compatibility_graph considered) target (S n) 0 (Z.shiftl 1 (Z.of_nat n) - 1) 0
    (mkSearch 0 0).

Definition independent_confirmations (confs : list ShadowConfirmation) (at_least : option Z) : Z :=
  let considered := take MAX_CONFIRMATIONS_CONSIDERED confs in
  match considered with
  | [] => 0
  | _ => match clique_search confs at_least with Some (_, st) => best st | None => 0 end
  end.

(** ** The abstract specification *)

(** [I] is a set of positions of pairwise independent confirmations. *)
Definition independent_set (confs : list ShadowConfirmation) (I : gset nat) : Prop :=
  (∀ i, i ∈ I → (i < length confs)%nat)
  ∧ ∀ i j a b, i ∈ I → j ∈ I → i ≠ j → confs !! i = Some a → confs !! j = Some b →
      compatible a b = true.

(** ** The search over an arbitrary symmetric irreflexive graph *)

(** What the branch loop knows of the bits still to visit. *)
Definition bits_ok (bits : list (Z * Z)) (candidates : Z) : Prop :=
  Forall (λ lv, 0 ≤ lv.2 ∧ lv.1 = 2 ^ lv.2) bits
  ∧ NoDup bits.*2 ∧ ∀ v, v ∈ bits.*2 → v ∈ elems candidates.

Lemma low_bits_ok branch candidates :
  0 ≤ branch → elems branch ⊆ elems candidates → bits_ok (low_bits branch) candidates.
Proof.
  intros Hb Hsub. destruct (low_bits_spec branch Hb) as (_ & Hall & Hin & Hnd).
  repeat split; [done..|]. intros v Hv. apply Hsub, elem_of_elems; [done|]. by apply Hin.
Qed.

Lemma bits_ok_cons low v bits candidates :
  0 ≤ candidates → bits_ok ((low, v) :: bits) candidates →
  0 ≤ v ∧ low = 2 ^ v ∧ v ∈ elems candidates ∧ v ∉ bits.*2
  ∧ 0 ≤ Z.lxor candidates low ∧ elems (Z.lxor candidates low) = elems candidates ∖ {[v]}
  ∧ bits_ok bits (Z.lxor candidates low).
Proof.
  intros Hc (Hall & Hnd & Hin). inversion Hall as [|?? [Hv Hlow] Hall']; subst.
  inversion Hnd as [|?? Hni Hnd']; subst. simpl in *. subst low.
  assert (Hvc : v ∈ elems candidates) by (apply Hin; left).
  assert (Hx : elems (Z.lxor candidates (2 ^ v)) = elems candidates ∖ {[v]})
    by by apply elems_lxor_pow2.
  repeat split; try done.
  - rewrite lxor_pow2_clearbit by (try apply elem_of_elems; done). by apply clearbit_nonneg.
  - intros w Hw. rewrite Hx. apply elem_of_difference. split; [apply Hin; by right|].
    intros ->%elem_of_singleton. done.
Qed.

(** What the search is promised of its adjacency masks: an undirected loop-free graph
    on the vertex set [V].  [compatibility_graph] discharges it below. *)
Class UGraph (adj : list Z) (V : gset Z) : Prop := {
  adj_nonneg : ∀ v, 0 ≤ adj_at adj v;
  V_nonneg : ∀ v, v ∈ V → 0 ≤ v;
  N_sym : ∀ v w, v ∈ V → w ∈ V → w ∈ elems (adj_at adj v) → v ∈ elems (adj_at adj w);
  N_irrefl : ∀ v, v ∈ V → v ∉ elems (adj_at adj v);
}.
#[export] Hint Resolve adj_nonneg V_nonneg N_sym : tracebed.

Section Graph.
Context (adj : list Z) (V : gset Z) (target : Z) `{HG : !UGraph adj V}.
Abbreviation N v := (elems (adj_at adj v)).
#[local] Hint Extern 0 (0 ≤ adj_at adj _) => apply HG : core.

Definition clique (C : gset Z) : Prop :=
  C ⊆ V ∧ ∀ v w, v ∈ C → w ∈ C → v ≠ w → w ∈ N v.

(** [S] is a set of common neighbours of [R], all outside [R]. *)
Definition extends (R S : gset Z) : Prop :=
  S ⊆ V ∧ ∀ v, v ∈ S → v ∉ R ∧ ∀ r, r ∈ R → v ∈ N r.

Lemma clique_empty : clique ∅.
Proof. split; [apply empty_subseteq|]. by intros ?? ?%elem_of_empty. Qed.

Lemma clique_add R v : clique R → v ∈ V → v ∉ R → (∀ r, r ∈ R → v ∈ N r) → clique ({[v]} ∪ R).
Proof.
  intros [HV HR] Hv Hni Hadj. split; [set_solver|].
  intros x y [->%elem_of_singleton|Hx]%elem_of_union [->%elem_of_singleton|Hy]%elem_of_union Hne;
    [done| |by apply Hadj|by apply HR].
  apply N_sym; [by apply HV|done|by apply Hadj].
Qed.

(** Descending into [v] keeps candidates and excluded vertices common neighbours. *)
Lemma extends_descend R S v : extends R S → extends ({[v]} ∪ R) (S ∩ N v ∖ {[v]}).
Proof. intros [HV HS]. split; [set_solver|]. intros w Hw. set_solver. Qed.

Lemma descend_eq S v : v ∈ V → S ∩ N v ∖ {[v]} = S ∩ N v.
Proof.
  intros Hv. apply set_eq. intros w. rewrite elem_of_difference, elem_of_singleton.
  split; [by intros [? _]|]. intros Hw. split; [done|]. intros ->.
  apply (N_irrefl v); [done|]. by apply elem_of_intersection in Hw as [_ ?].
Qed.

Lemma extends_land R m v :
  0 ≤ m → v ∈ V → extends R (elems m) → extends ({[v]} ∪ R) (elems (Z.land m (adj_at adj v))).
Proof.
  intros Hm Hv HS. rewrite elems_land, <-(descend_eq (elems m) v) by done.
  by apply extends_descend.
Qed.

Lemma land_adj_nonneg m v : 0 ≤ m → 0 ≤ Z.land m (adj_at adj v).
Proof. intros. apply Z.land_nonneg. by left. Qed.

(** Descending shrinks the candidate set. *)
Lemma size_descend m v :
  0 ≤ m → v ∈ V → v ∈ elems m → (size (elems (Z.land m (adj_at adj v))) < size (elems m))%nat.
Proof.
  intros Hm Hv Hin. rewrite elems_land by done. apply subset_size.
  split; [set_solver|]. intros Hsub. apply (N_irrefl v Hv).
  specialize (Hsub v Hin). by apply elem_of_intersection in Hsub as [_ ?].
Qed.

(** *** The pivot is one of the scanned vertices *)
Lemma pivot_fold_elem cand bits : ∀ acc, (foldl (pivot_step adj cand) acc bits).1 ∈ acc.1 :: bits.*2.
Proof.
  induction bits as [|[l v] bits IH]; intros [p d]; simpl; [left|].
  case_match; match goal with |- (foldl _ ?a _).1 ∈ _ => specialize (IH a) end;
    simpl in IH; rewrite !elem_of_cons in *; tauto.
Qed.

Lemma find_pivot_elem cand m : 0 ≤ m → m ≠ 0 → find_pivot adj cand m ∈ elems m.
Proof.
  intros Hm Hne. destruct (low_bits_spec m Hm) as (Hlen & _).
  unfold find_pivot, elems. rewrite elem_of_list_to_set.
  destruct (low_bits m) as [|[l0 v0] bits].
  { exfalso. apply Hne, bit_count_0; [done|]. pose proof (bit_count_nonneg m). simpl in Hlen. lia. }
  assert (Hp : pivot_step adj cand (-1, -1) (l0, v0)
               = (v0, bit_count (Z.land cand (adj_at adj v0)))).
  { unfold pivot_step. cbn [snd].
    pose proof (bit_count_nonneg (Z.land cand (adj_at adj v0))).
    by rewrite (proj2 (Z.ltb_lt _ _)) by lia. }
  cbn [foldl]. rewrite Hp. apply (pivot_fold_elem cand bits (v0, _)).
Qed.

(** *** Termination *)
Lemma lor_pow2_nonneg m v : 0 ≤ m → 0 ≤ v → 0 ≤ Z.lor m (2 ^ v).
Proof. intros. apply Z.lor_nonneg. split; [done|]. apply Z.pow_nonneg. lia. Qed.

Lemma visit_terminates rec fuel bits : ∀ cand excl st,
  0 ≤ cand → 0 ≤ excl → elems cand ⊆ V → bits_ok bits cand → (size (elems cand) ≤ fuel)%nat →
  (∀ c e s, 0 ≤ c → 0 ≤ e → elems c ⊆ V → (size (elems c) < fuel)%nat →
     ∃ r, rec c e s = Some r) →
  ∃ r, visit adj rec bits cand excl st = Some r.
Proof.
  induction bits as [|[low v] bits IH]; intros cand excl st Hc He HV Hok Hf Hrec; simpl; [eauto|].
  destruct (bits_ok_cons _ _ _ _ Hc Hok) as (Hv & -> & Hvc & _ & Hx & Hel & Hok').
  destruct (Hrec (Z.land cand (adj_at adj v)) (Z.land excl (adj_at adj v)) st)
    as [[[|] s] ->]; [by apply land_adj_nonneg..| | |eauto|].
  - rewrite elems_land by done. set_solver.
  - pose proof (size_descend cand v Hc (HV v Hvc) Hvc). lia.
  - apply IH; try done; rewrite ?Hel; [by apply lor_pow2_nonneg|set_solver|].
    etrans; [apply subseteq_size|exact Hf]. set_solver.
Qed.

Lemma branch_sub cand excl :
  0 ≤ cand → 0 ≤ excl →
  let pivot := find_pivot adj cand (Z.lor cand excl) in
  let branch := if 0 <=? pivot then Z.land cand (Z.lnot (adj_at adj pivot)) else cand in
  0 ≤ branch ∧ elems branch ⊆ elems cand.
Proof.
  intros Hc He pivot branch. subst branch. case_match; [|done].
  rewrite elems_land_lnot by done. split; [apply Z.land_nonneg; by left|set_solver].
Qed.

Lemma expand_terminates fuel : ∀ sz cand excl st,
  0 ≤ cand → 0 ≤ excl → elems cand ⊆ V → (size (elems cand) < fuel)%nat →
  ∃ r, expand adj target fuel sz cand excl st = Some r.
Proof.
  induction fuel as [|fuel IH]; intros sz cand excl st Hc He HV Hf; [lia|].
  cbn [expand]. case_match; [eauto|]. case_match; [eauto|]. case_match; [eauto|].
  destruct (branch_sub cand excl Hc He) as [Hb Hsub].
  apply visit_terminates with fuel; [done..|by apply low_bits_ok|lia|].
  intros. by apply IH.
Qed.

(** *** Soundness: every reported size is the size of some clique *)

Definition found (k : Z) : Prop := ∃ C, clique C ∧ Z.of_nat (size C) = k.

(** What the recursive call of the branch loop guarantees. *)
Definition rec_sound (sz : Z) (rec : Z → Z → search_state → option (bool * search_state)) : Prop :=
  ∀ R c e s b s', rec c e s = Some (b, s') → 0 ≤ c → clique R → Z.of_nat (size R) = sz →
    extends R (elems c) → found (best s) → found (best s').

Lemma size_add (R : gset Z) v : v ∉ R → Z.of_nat (size ({[v]} ∪ R)) = Z.of_nat (size R) + 1.
Proof. intros. rewrite size_union, size_singleton by set_solver. lia. Qed.

Lemma visit_sound sz rec bits : rec_sound (sz + 1) rec → ∀ R cand excl st b st',
  visit adj rec bits cand excl st = Some (b, st') → 0 ≤ cand → bits_ok bits cand →
  clique R → Z.of_nat (size R) = sz → extends R (elems cand) →
  found (best st) → found (best st').
Proof.
  intros Hrec R. induction bits as [|[low v] bits IH];
    intros cand excl st b st' Hvis Hc Hok HR Hsz Hext Hf; simpl in Hvis; [by injection Hvis as <- <-|].
  destruct (bits_ok_cons _ _ _ _ Hc Hok) as (Hv & -> & Hvc & _ & Hx & Hel & Hok').
  destruct Hext as [HV Hext]. destruct (Hext v Hvc) as [HvR Hadj].
  destruct (rec _ _ _) as [[b1 st1]|] eqn:Hr; [|done].
  assert (Hf1 : found (best st1)).
  { eapply Hrec; [exact Hr|by apply land_adj_nonneg|apply clique_add; eauto|..|done].
    - rewrite size_add by done. lia.
    - apply extends_land; [done|by apply HV|done]. }
  destruct b1; [by injection Hvis as <- <-|].
  eapply IH; [exact Hvis|done..| |done]. rewrite Hel. split; [set_solver|].
  intros w Hw. apply Hext. set_solver.
Qed.

Lemma expand_sound fuel : ∀ sz, rec_sound sz (expand adj target fuel sz).
Proof.
  induction fuel as [|fuel IH]; intros sz R cand excl st b st' Hexp Hc HR Hsz Hext Hf; [done|].
  cbn [expand] in Hexp. case_match eqn:Hz.
  - injection Hexp as <- <-. simpl.
    destruct (Z.max_spec (best st) sz) as [[_ ->]|[_ ->]]; [|done]. by exists R.
  - case_match; [by injection Hexp as <- <-|]. case_match; [by injection Hexp as <- <-|].
    eapply visit_sound; [apply IH|exact Hexp|done| |done..].
    apply low_bits_ok; case_match; try done.
    + apply Z.land_nonneg. by left.
    + rewrite elems_land_lnot by done. set_solver.
Qed.

(** *** Completeness: a search that ran to the end saw every maximal clique *)

Definition maximal (C : gset Z) : Prop :=
  clique C ∧ ∀ u, u ∈ V → u ∉ C → ¬ (∀ c, c ∈ C → u ∈ N c).

Definition exhausted (st : search_state) : Prop := MAX_CLIQUE_SEARCH_STEPS < steps st.

(** The contract of one call: it only raises the incumbent; an abort means the target
    was reached or the budget ran out; otherwise every maximal clique between [R] and
    [R] plus the candidates is accounted for. *)
Definition rec_complete (sz : Z) (rec : Z → Z → search_state → option (bool * search_state)) : Prop :=
  ∀ R c e s b s', rec c e s = Some (b, s') → 0 ≤ c → 0 ≤ e → R ⊆ V → Z.of_nat (size R) = sz →
    extends R (elems c) → extends R (elems e) →
    best s ≤ best s' ∧ steps s ≤ steps s'
    ∧ (b = true → target ≤ best s' ∨ exhausted s')
    ∧ (b = false → ∀ C, maximal C → R ⊆ C → C ⊆ R ∪ elems c → Z.of_nat (size C) ≤ best s').

Lemma extends_sub R S S' : S' ⊆ S → extends R S → extends R S'.
Proof. intros Hsub [HV HS]. split; [set_solver|]. intros v Hv. apply HS. set_solver. Qed.

Lemma visit_complete sz rec bits : rec_complete (sz + 1) rec → ∀ R cand excl st b st',
  visit adj rec bits cand excl st = Some (b, st') → 0 ≤ cand → 0 ≤ excl → bits_ok bits cand →
  R ⊆ V → Z.of_nat (size R) = sz → extends R (elems cand) → extends R (elems excl) →
  best st ≤ best st' ∧ steps st ≤ steps st'
  ∧ (b = true → target ≤ best st' ∨ exhausted st')
  ∧ (b = false → ∀ C, maximal C → R ⊆ C → C ⊆ R ∪ elems cand →
       (∃ v, v ∈ bits.*2 ∧ v ∈ C) → Z.of_nat (size C) ≤ best st').
Proof.
  intros Hrec R. induction bits as [|[low v] bits IH];
    intros cand excl st b st' Hvis Hc He Hok HR Hsz Hcx Hex; simpl in Hvis.
  { injection Hvis as <- <-. repeat split; [lia..|done|]. intros _ C _ _ _ (v & []%elem_of_nil & _). }
  destruct (bits_ok_cons _ _ _ _ Hc Hok) as (Hv & -> & Hvc & _ & Hx & Hel & Hok').
  pose proof Hcx as [HV Hext]. destruct (Hext v Hvc) as [HvR Hadj].
  destruct (rec _ _ _) as [[b1 st1]|] eqn:Hr; [|done].
  destruct (Hrec ({[v]} ∪ R) _ _ _ _ _ Hr) as (Hb & Hs & Ht & Hcov);
    [by apply land_adj_nonneg|by apply land_adj_nonneg|set_solver
    |rewrite size_add by done; lia|apply extends_land; auto..|].
  destruct b1; [injection Hvis as <- <-; repeat split; [done..|auto|done]|].
  destruct (IH _ _ _ _ _ Hvis) as (Hb' & Hs' & Ht' & Hcov'); try done.
  - by apply lor_pow2_nonneg.
  - rewrite Hel. eapply extends_sub; [|exact Hcx]. set_solver.
  - rewrite elems_lor, elems_pow2 by (try apply Z.pow_nonneg; lia).
    destruct Hex as [HVe Hexe]. split; [set_solver|]. intros w [Hw| ->%elem_of_singleton]%elem_of_union; auto.
  - repeat split; [lia..|done|]. intros -> C HC HRC HCsub (w & Hw & HwC).
    specialize (Hcov eq_refl C HC). specialize (Hcov' eq_refl C HC HRC).
    destruct (decide (v ∈ C)) as [HvC|HvC].
    + etrans; [apply Hcov|done]; [set_solver|]. rewrite elems_land by done.
      intros c Hcc. apply elem_of_union. destruct (decide (c ∈ {[v]} ∪ R)) as [|Hni]; [by left|].
      apply not_elem_of_union in Hni as [Hcv%not_elem_of_singleton HcR]. right.
      apply elem_of_intersection. split; [by apply HCsub, elem_of_union in Hcc as [|]|].
      by apply HC.
    + apply Hcov'; [rewrite Hel; clear -HCsub HvC; set_solver|]. exists w. split; [|done].
      rewrite fmap_cons in Hw. cbn [snd] in Hw.
      apply elem_of_cons in Hw as [Hwv|Hw]; [congruence|exact Hw].
Qed.

(** A maximal clique meets the branch set [candidates \ N(pivot)]. *)
Lemma branch_meets R cand excl C :
  0 ≤ cand → 0 ≤ excl → Z.lor cand excl ≠ 0 →
  extends R (elems cand) → extends R (elems excl) → maximal C → R ⊆ C → C ⊆ R ∪ elems cand →
  let pivot := find_pivot adj cand (Z.lor cand excl) in
  0 ≤ pivot ∧ ∃ v, v ∈ elems (Z.land cand (Z.lnot (adj_at adj pivot))) ∧ v ∈ C.
Proof.
  intros Hc He Hne Hcx Hex [HC Hmax] HRC HCsub pivot.
  assert (Hp : pivot ∈ elems cand ∪ elems excl).
  { rewrite <-elems_lor by done. apply find_pivot_elem; [|done]. by apply Z.lor_nonneg. }
  assert (HpV : pivot ∈ V ∧ pivot ∉ R ∧ ∀ r, r ∈ R → pivot ∈ N r).
  { destruct Hcx as [HV1 H1], Hex as [HV2 H2].
    apply elem_of_union in Hp as [Hp|Hp]; split; auto. }
  destruct HpV as (HpV & HpR & HpN). split; [by apply V_nonneg|].
  rewrite elems_land_lnot by done.
  destruct (decide (set_Exists (λ v, v ∈ elems cand ∖ N pivot) C)) as [(v & ? & ?)|Hno]; [eauto|].
  exfalso. assert (Hin : ∀ c, c ∈ C → c ∉ R → c ∈ elems cand ∧ c ∈ N pivot).
  { intros c Hcc HcR. assert (Hcc' : c ∈ elems cand) by set_solver. split; [done|].
    destruct (decide (c ∈ N pivot)); [done|]. destruct Hno. exists c. set_solver. }
  assert (HpC : pivot ∉ C).
  { intros HpC. destruct (Hin pivot HpC HpR) as [_ Hself]. by apply (N_irrefl pivot). }
  apply (Hmax pivot); [done..|]. intros c Hcc.
  destruct (decide (c ∈ R)); [by apply HpN|]. apply N_sym; [done|by apply HC|].
  by apply Hin.
Qed.

Lemma expand_complete fuel : ∀ sz, rec_complete sz (expand adj target fuel sz).
Proof.
  induction fuel as [|fuel IH]; intros sz R cand excl st b st' Hexp Hc He HR Hsz Hcx Hex; [done|].
  cbn [expand] in Hexp. destruct ((cand =? 0) && (excl =? 0)) eqn:Hz.
  - injection Hexp as <- <-. simpl. bsplit. apply Z.eqb_eq in H as ->.
    repeat split; [lia..|intros ?%Z.leb_le; by left|].
    intros _ C _ HRC HCs. assert (C = R) as -> by (rewrite elems_0 in HCs; set_solver). lia.
  - case_match eqn:Hst; simpl in Hst.
    { injection Hexp as <- <-. simpl. repeat split; [lia..| |done].
      intros _. right. by apply Z.ltb_lt. }
    case_match eqn:Hpr; simpl in Hpr.
    { injection Hexp as <- <-. simpl. repeat split; [lia..|done|]. intros _ C HC HRC HCs.
      apply Z.leb_le in Hpr. rewrite <-size_elems in Hpr by done.
      assert (size C ≤ size (R ∪ elems cand))%nat by by apply subseteq_size.
      rewrite size_union_alt in H.
      assert (size (elems cand ∖ R) ≤ size (elems cand))%nat by (apply subseteq_size; set_solver).
      lia. }
    destruct (branch_sub cand excl Hc He) as [Hb Hsub].
    destruct (visit_complete sz _ _ (IH (sz + 1)) R _ _ _ _ _ Hexp)
      as (H1 & H2 & H3 & H4); try done; [by apply low_bits_ok|]. simpl in H1, H2.
    repeat split; [lia..|done|]. intros -> C HC HRC HCs. apply H4; [done..|].
    assert (Hne : Z.lor cand excl ≠ 0).
    { intros [-> ->]%Z.lor_eq_0_iff. done. }
    destruct (branch_meets R cand excl C Hc He Hne Hcx Hex HC HRC HCs) as (Hp & v & Hv & HvC).
    exists v. split; [|done]. rewrite (proj2 (Z.leb_le _ _)) by done.
    apply low_bits_spec; [apply Z.land_nonneg; by left|].
    apply elem_of_elems; [apply Z.land_nonneg; by left|done].
Qed.

(** Every clique extends to a maximal one. *)
Lemma clique_maximal C : clique C → ∃ M, maximal M ∧ C ⊆ M.
Proof.
  remember (size V - size C)%nat as d eqn:Hd. revert C Hd.
  induction (lt_wf d) as [d _ IH]; intros C -> HC.
  destruct (decide (set_Exists (λ u, u ∉ C ∧ set_Forall (λ c, u ∈ N c) C) V))
    as [(u & Hu & HuC & Hall)|Hno].
  - assert (HC' : clique ({[u]} ∪ C)) by (apply clique_add; auto).
    destruct (IH (size V - size ({[u]} ∪ C))%nat) with ({[u]} ∪ C) as (M & HM & Hsub); [|done..|].
    + assert (size ({[u]} ∪ C) ≤ size V)%nat by (apply subseteq_size, HC').
      rewrite size_union, size_singleton in * by set_solver. lia.
    + exists M. split; [done|]. set_solver.
  - exists C. split; [|done]. split; [done|]. intros u Hu HuC Hall. apply Hno.
    exists u. split; [done|]. split; [done|]. intros c Hcc. by apply Hall.
Qed.

(** *** A quorum of at most two never exhausts the budget *)

(** With nothing excluded the search walks straight down to a leaf. *)
Lemma descent fuel : ∀ sz cand st,
  0 ≤ cand → elems cand ⊆ V → (size (elems cand) < fuel)%nat →
  best st < target → target ≤ (if cand =? 0 then sz else sz + 1) →
  steps st + Z.of_nat (size (elems cand)) ≤ MAX_CLIQUE_SEARCH_STEPS →
  ∃ st', expand adj target fuel sz cand 0 st = Some (true, st') ∧ target ≤ best st'.
Proof.
  induction fuel as [|fuel IH]; intros sz cand st Hc HV Hf Hb Ht Hs; [lia|].
  cbn [expand]. rewrite Z.eqb_refl, andb_true_r.
  destruct (Z.eqb_spec cand 0) as [->|Hne].
  { eexists. split; [f_equal; f_equal|simpl; lia]. apply Z.leb_le. lia. }
  assert (Hpos : (0 < size (elems cand))%nat).
  { assert (size (elems cand) ≠ 0%nat); [|lia]. intros Hsz%size_empty_inv.
    apply Hne, elems_empty; [done|]. by apply leibniz_equiv. }
  cbn [steps best]. rewrite (proj2 (Z.ltb_ge _ _)) by lia.
  rewrite (proj2 (Z.leb_gt _ _)) by (rewrite <-size_elems by done; lia).
  destruct (branch_sub cand 0 Hc ltac:(lia)) as [Hbr Hsub].
  rewrite Z.lor_0_r in *. set (p := find_pivot adj cand cand) in *.
  assert (Hp : p ∈ elems cand) by by apply find_pivot_elem.
  assert (Hp0 : 0 ≤ p) by by apply V_nonneg, HV.
  rewrite (proj2 (Z.leb_le 0 p)) in * by done.
  set (branch := Z.land cand (Z.lnot (adj_at adj p))) in *.
  pose proof (low_bits_ok branch cand Hbr Hsub) as Hok.
  assert (Hpb : p ∈ (low_bits branch).*2).
  { apply low_bits_spec, elem_of_elems; [done..|]. unfold branch.
    rewrite elems_land_lnot by done. apply elem_of_difference.
    split; [done|]. apply N_irrefl. by apply HV. }
  destruct (low_bits branch) as [|[low v] bits]; [by apply elem_of_nil in Hpb|].
  destruct (bits_ok_cons _ _ _ _ Hc Hok) as (Hv & -> & Hvc & _).
  pose proof (size_descend cand v Hc (HV v Hvc) Hvc) as Hlt.
  destruct (IH (sz + 1) (Z.land cand (adj_at adj v)) (mkSearch (best st) (steps st + 1)))
    as (st' & Hex & Hbest).
  - by apply land_adj_nonneg.
  - rewrite elems_land by done. clear -HV. set_solver.
  - lia.
  - done.
  - case_match; lia.
  - simpl. lia.
  - exists st'. split; [|done]. cbn [visit]. rewrite Z.land_0_l, Hex. done.
Qed.

(** The root loop for a quorum of two: a vertex without candidate neighbours costs no
    step; the first one with a neighbour reaches the quorum. *)
Lemma quorum_two_loop fuel bits : ∀ cand excl st,
  target = 2 → 0 ≤ cand → 0 ≤ excl → elems cand ⊆ V → elems excl ⊆ V → bits_ok bits cand →
  (size (elems cand) ≤ fuel)%nat → best st < target →
  (∀ x v, x ∈ elems excl → v ∈ elems cand → v ∉ N x) →
  steps st + Z.of_nat (size (elems cand)) ≤ MAX_CLIQUE_SEARCH_STEPS →
  ∃ b st', visit adj (expand adj target fuel 1) bits cand excl st = Some (b, st')
           ∧ (b = true → target ≤ best st') .
Proof.
  induction bits as [|[low v] bits IH];
    intros cand excl st Ht Hc He HVc HVe Hok Hf Hb Hsep Hs; cbn [visit]; [by eexists _, _|].
  destruct (bits_ok_cons _ _ _ _ Hc Hok) as (Hv & -> & Hvc & _ & Hx & Hel & Hok').
  assert (HvV : v ∈ V) by by apply HVc.
  pose proof (size_descend cand v Hc HvV Hvc) as Hlt.
  assert (Hexcl : Z.land excl (adj_at adj v) = 0).
  { apply elems_empty; [by apply land_adj_nonneg|]. rewrite elems_land by done.
    apply set_eq. intros x. split; [|by intros ?%elem_of_empty].
    intros [Hxe Hxv]%elem_of_intersection. exfalso. apply (Hsep x v Hxe Hvc).
    apply N_sym; auto. }
  rewrite Hexcl. destruct (Z.eqb_spec (Z.land cand (adj_at adj v)) 0) as [Hz|Hnz].
  - destruct fuel as [|fuel]; [lia|]. cbn [expand]. rewrite Hz, Z.eqb_refl. cbn [andb].
    rewrite (proj2 (Z.leb_gt _ _)) by lia. apply IH; try done; simpl; rewrite ?Hel.
    + by apply lor_pow2_nonneg.
    + clear -HVc. set_solver.
    + rewrite elems_lor, elems_pow2 by (try apply Z.pow_nonneg; lia). clear -HVe HvV. set_solver.
    + assert (size (elems cand ∖ {[v]}) ≤ size (elems cand))%nat
        by (apply subseteq_size; clear; set_solver). lia.
    + lia.
    + rewrite elems_lor, elems_pow2 by (try apply Z.pow_nonneg; lia).
      intros x w [Hxe| ->%elem_of_singleton]%elem_of_union [Hw _]%elem_of_difference; [auto|].
      intros HwN. assert (Hin : w ∈ elems (Z.land cand (adj_at adj v)))
        by (rewrite elems_land by done; by apply elem_of_intersection).
      rewrite Hz in Hin. by apply elem_of_empty in Hin.
    + assert (size (elems cand ∖ {[v]}) ≤ size (elems cand))%nat
        by (apply subseteq_size; clear; set_solver). lia.
  - destruct (descent fuel 1 (Z.land cand (adj_at adj v)) st) as (st' & -> & Hbest).
    + by apply land_adj_nonneg.
    + rewrite elems_land by done. clear -HVc. set_solver.
    + lia.
    + done.
    + rewrite (proj2 (Z.eqb_neq _ _)) by done. lia.
    + lia.
    + by exists true, st'.
Qed.
End Graph.

(** ** The compatibility graph is the compatibility relation *)

Lemma sig_len_eq (c : ShadowConfirmation) : length (sc_sig c) = SIG_HASH_LEN.
Proof. pose proof (sc_sig_len c) as H. by apply Is_true_true, Nat.eqb_eq in H. Qed.

Lemma compatible_sym a b : compatible a b = compatible b a.
Proof.
  unfold compatible. rewrite (same_cluster_comm (sc_sig a)) by apply sig_len_eq.
  repeat case_decide; congruence.
Qed.

(** The edge test as a proposition: three distinctness conditions, nothing hidden in
    the unreachable branch. *)
Lemma compatible_spec a b :
  compatible a b = true ↔
  sc_run_id a ≠ sc_run_id b ∧ sc_principal_id a ≠ sc_principal_id b
  ∧ same_cluster (sc_sig a) (sc_sig b) = Ok false.
Proof.
  unfold compatible.
  destruct (same_cluster_ok (sc_sig a) (sc_sig b)) as [r ->]; [apply sig_len_eq..|].
  repeat case_decide; [naive_solver..|]. destruct r; naive_solver.
Qed.

Lemma nth_insert (l : list Z) i j x :
  (i < length l)%nat → nth j (<[i := x]> l) 0 = if decide (i = j) then x else nth j l 0.
Proof.
  intros Hi. rewrite !nth_lookup. case_decide as Hij.
  - subst j. by rewrite list_lookup_insert_eq.
  - by rewrite list_lookup_insert_ne.
Qed.

Lemma testbit_or_bit adj i j a b :
  (i < length adj)%nat →
  Z.testbit (nth a (or_bit adj i j) 0) (Z.of_nat b)
  = Z.testbit (nth a adj 0) (Z.of_nat b) || bool_decide (a = i ∧ b = j).
Proof.
  intros Hi. unfold or_bit. rewrite nth_insert by done. case_decide as Hia.
  - subst a. rewrite Z.lor_spec, Z.shiftl_1_l, Z.pow2_bits_eqb by lia.
    destruct (Z.eqb_spec (Z.of_nat j) (Z.of_nat b)) as [He|He]; case_bool_decide; naive_solver lia.
  - rewrite bool_decide_eq_false_2, orb_false_r; [done|]. naive_solver.
Qed.

Definition graph_ok (n : nat) (adj : list Z) : Prop := length adj = n ∧ Forall (λ m, 0 ≤ m) adj.

Lemma nth_nonneg adj k : Forall (λ m, 0 ≤ m) adj → 0 ≤ nth k adj 0.
Proof.
  intros H. rewrite nth_lookup. destruct (adj !! k) eqn:Hk; simpl; [|lia].
  rewrite Forall_lookup in H. eauto.
Qed.

Lemma or_bit_ok n adj i j : graph_ok n adj → graph_ok n (or_bit adj i j).
Proof.
  intros [Hl Hn]. split; unfold or_bit; [by rewrite length_insert|].
  apply Forall_insert; [done|]. apply Z.lor_nonneg.
  split; [by apply nth_nonneg|]. rewrite Z.shiftl_1_l. apply Z.pow_nonneg. lia.
Qed.

Section CompatibilityGraph.
Context (confs : list ShadowConfirmation).
Abbreviation n := (length confs).

(** Confirmations [i] and [j] exist and are compatible. *)
Definition edge (i j : nat) : Prop :=
  ∃ a b, confs !! i = Some a ∧ confs !! j = Some b ∧ compatible a b = true.

Lemma edge_sym i j : edge i j → edge j i.
Proof. intros (a & b & ? & ? & ?). exists b, a. by rewrite compatible_sym. Qed.

Lemma compatibility_fold pairs : ∀ adj,
  graph_ok n adj → (∀ i j, (i, j) ∈ pairs → (i < n)%nat ∧ (j < n)%nat) →
  graph_ok n (foldl (compatibility_step confs) adj pairs)
  ∧ ∀ a b, Z.testbit (nth a (foldl (compatibility_step confs) adj pairs) 0) (Z.of_nat b) = true
    ↔ Z.testbit (nth a adj 0) (Z.of_nat b) = true
      ∨ (edge a b ∧ ((a, b) ∈ pairs ∨ (b, a) ∈ pairs)).
Proof.
  induction pairs as [|[i j] pairs IH]; intros adj Hok Hp; cbn [foldl].
  { split; [done|]. intros a b. set_solver. }
  assert (Hstep : graph_ok n (compatibility_step confs adj (i, j))
    ∧ ∀ a b, Z.testbit (nth a (compatibility_step confs adj (i, j)) 0) (Z.of_nat b) = true
      ↔ Z.testbit (nth a adj 0) (Z.of_nat b) = true
        ∨ (edge a b ∧ ((a, b) = (i, j) ∨ (b, a) = (i, j)))).
  { destruct (Hp i j) as [Hi Hj]; [left|]. unfold compatibility_step.
    destruct (lookup_lt_is_Some_2 confs i Hi) as [x Hx].
    destruct (lookup_lt_is_Some_2 confs j Hj) as [y Hy]. rewrite Hx, Hy.
    destruct (compatible x y) eqn:Hxy.
    - assert (edge i j) by (exists x, y; done). assert (edge j i) by by apply edge_sym.
      split; [by apply or_bit_ok, or_bit_ok|]. intros a b.
      rewrite !testbit_or_bit by (destruct Hok; unfold or_bit; rewrite ?length_insert; lia).
      rewrite !orb_true_iff, !bool_decide_eq_true. naive_solver.
    - split; [done|]. intros a b. split; [by left|]. intros [|(He & Hab)]; [done|exfalso].
      assert (edge i j) as (x' & y' & ? & ? & ?)
        by (destruct Hab as [[= -> ->]|[= -> ->]]; [done|by apply edge_sym]).
      simplify_eq. congruence. }
  destruct Hstep as [Hok' Hbits]. destruct (IH _ Hok') as [Hok'' Hbits'].
  { intros ???. apply Hp. by right. }
  split; [done|]. intros a b. rewrite Hbits', Hbits, !elem_of_cons. tauto.
Qed.

Lemma elem_of_index_pairs k i j : (i, j) ∈ index_pairs k ↔ (i < j < k)%nat.
Proof.
  unfold index_pairs. rewrite list_elem_of_bind. setoid_rewrite list_elem_of_bind.
  setoid_rewrite elem_of_seq. setoid_rewrite list_elem_of_singleton. split.
  - intros (x & (y & [= -> ->] & ?) & ?). lia.
  - intros ?. exists i. split; [|lia]. exists j. split; [done|lia].
Qed.

Lemma compatibility_graph_spec :
  graph_ok n (compatibility_graph confs)
  ∧ ∀ a b, Z.testbit (nth a (compatibility_graph confs) 0) (Z.of_nat b) = true
           ↔ edge a b ∧ a ≠ b.
Proof.
  unfold compatibility_graph.
  destruct (compatibility_fold (index_pairs n) (replicate n 0)) as [Hok Hbits].
  - split; [by rewrite length_replicate|]. by apply Forall_replicate.
  - intros i j. rewrite elem_of_index_pairs. lia.
  - split; [done|]. intros a b. rewrite Hbits, !elem_of_index_pairs.
    rewrite (nth_lookup (replicate n 0)).
    assert (default 0 (replicate n 0 !! a) = 0) as ->.
    { destruct (replicate n 0 !! a) eqn:E; [|done]. by apply lookup_replicate in E as [-> _]. }
    rewrite Z.bits_0. split; [intros [|[He ?]]; [done|]; split; [done|lia]|].
    intros [He Hne]. right. split; [done|].
    destruct He as (x & y & Hx%lookup_lt_Some & Hy%lookup_lt_Some & _). lia.
Qed.
End CompatibilityGraph.

(** ** The theorems about [independent_confirmations] *)

Section Top.
Context (confs : list ShadowConfirmation).
Abbreviation considered := (take MAX_CONFIRMATIONS_CONSIDERED confs).
Abbreviation n := (length considered).
Abbreviation adj := (compatibility_graph considered).

Definition vertices : gset Z := list_to_set (Z.of_nat <$> seq 0 n).

Lemma elem_of_vertices v : v ∈ vertices ↔ 0 ≤ v < Z.of_nat n.
Proof.
  unfold vertices. rewrite elem_of_list_to_set, list_elem_of_fmap. setoid_rewrite elem_of_seq.
  split; [intros (k & -> & ?); lia|]. intros. exists (Z.to_nat v). lia.
Qed.

Lemma comp_adj_nonneg v : 0 ≤ adj_at adj v.
Proof. apply nth_nonneg. apply (compatibility_graph_spec considered). Qed.

Lemma elem_of_adj v w :
  v ∈ vertices → w ∈ vertices →
  (w ∈ elems (adj_at adj v) ↔ edge considered (Z.to_nat v) (Z.to_nat w) ∧ v ≠ w).
Proof.
  rewrite !elem_of_vertices. intros Hv Hw. rewrite elem_of_elems by apply comp_adj_nonneg.
  unfold adj_at. rewrite <-(Z2Nat.id w) at 1 by lia.
  rewrite (proj2 (compatibility_graph_spec considered)).
  split; intros [? Hne]; (split; [done|]); lia.
Qed.

Lemma adj_sym v w :
  v ∈ vertices → w ∈ vertices → w ∈ elems (adj_at adj v) → v ∈ elems (adj_at adj w).
Proof.
  intros Hv Hw. rewrite !elem_of_adj by done. intros [He Hne]. split; [by apply edge_sym|done].
Qed.

Lemma adj_irrefl v : v ∈ vertices → v ∉ elems (adj_at adj v).
Proof. intros Hv. rewrite elem_of_adj by done. by intros [_ ?]. Qed.

Lemma vertices_nonneg v : v ∈ vertices → 0 ≤ v.
Proof. rewrite elem_of_vertices. lia. Qed.

#[local] Instance comp_graph : UGraph adj vertices.
Proof. split; auto using comp_adj_nonneg, vertices_nonneg, adj_sym, adj_irrefl. Qed.

Lemma size_set_map_inj {A B} `{Countable A, Countable B} (f : A → B) (X : gset A) :
  (∀ x y, x ∈ X → y ∈ X → f x = f y → x = y) → size (set_map f X : gset B) = size X.
Proof.
  intros Hinj. unfold set_map. rewrite size_list_to_set; [by rewrite length_fmap|].
  apply NoDup_fmap_2_strong; [|apply NoDup_elements].
  intros x y. rewrite !elem_of_elements. apply Hinj.
Qed.

(** Cliques of the graph and independent sets of confirmations are the same thing. *)
Lemma clique_independent C :
  clique adj vertices C → ∃ I, independent_set considered I ∧ size I = size C.
Proof.
  intros [HV HC]. exists (set_map Z.to_nat C). split; [split|].
  - intros i. rewrite elem_of_map. intros (v & -> & Hv%HV). apply elem_of_vertices in Hv. lia.
  - intros i j a b. rewrite !elem_of_map. intros (v & -> & Hv) (w & -> & Hw) Hne Ha Hb.
    assert (v ≠ w) by congruence.
    pose proof (HC v w Hv Hw H) as Hin. apply elem_of_adj in Hin as [(x & y & Hx & Hy & Hc) _]; auto.
    simplify_eq. done.
  - apply size_set_map_inj. intros x y Hx%HV%vertices_nonneg Hy%HV%vertices_nonneg. lia.
Qed.

Lemma independent_clique I :
  independent_set considered I → ∃ C, clique adj vertices C ∧ size C = size I.
Proof.
  intros [HI Hind]. exists (set_map Z.of_nat I).
  assert (HV : ∀ v, v ∈ (set_map Z.of_nat I : gset Z) → v ∈ vertices).
  { intros v. rewrite elem_of_map, elem_of_vertices. intros (i & -> & Hi%HI). lia. }
  split; [split|].
  - exact HV.
  - intros v w Hv Hw Hne. apply elem_of_adj; [by apply HV..|]. split; [|done].
    apply elem_of_map in Hv as (i & -> & Hi), Hw as (j & -> & Hj). rewrite !Nat2Z.id.
    destruct (lookup_lt_is_Some_2 considered i (HI i Hi)) as [a Ha].
    destruct (lookup_lt_is_Some_2 considered j (HI j Hj)) as [b Hb].
    exists a, b. split; [done|]. split; [done|]. apply (Hind i j); auto; congruence.
  - apply size_set_map_inj. intros. lia.
Qed.

Lemma root_elems : elems (Z.shiftl 1 (Z.of_nat n) - 1) = vertices.
Proof. apply elems_ones. Qed.

Lemma root_nonneg : 0 ≤ Z.shiftl 1 (Z.of_nat n) - 1.
Proof. rewrite Z.shiftl_1_l. pose proof (Z.pow_pos_nonneg 2 (Z.of_nat n)). lia. Qed.

Lemma size_vertices : size vertices = n.
Proof.
  unfold vertices. rewrite size_list_to_set, length_fmap, length_seq; [done|].
  apply NoDup_fmap_2, NoDup_seq. apply _.
Qed.

Lemma extends_empty S : S ⊆ vertices → extends adj vertices ∅ S.
Proof. intros. split; [done|]. intros v Hv. set_solver. Qed.

Lemma clique_search_total at_least : ∃ r, clique_search confs at_least = Some r.
Proof.
  unfold clique_search.
  apply (expand_terminates adj vertices _);
    rewrite ?root_elems, ?size_vertices; [apply root_nonneg|lia|done|lia].
Qed.

Definition search_target (at_least : option Z) : Z :=
  match at_least with None => Z.of_nat n | Some k => Z.min k (Z.of_nat n) end.

Lemma clique_search_sound at_least b st :
  clique_search confs at_least = Some (b, st) →
  ∃ I, independent_set considered I ∧ Z.of_nat (size I) = best st.
Proof.
  intros Hs.
  assert (Hf : found adj vertices (best st)).
  { eapply (expand_sound adj vertices _) with (R := ∅) (sz := 0);
      [exact Hs|apply root_nonneg|apply clique_empty|by rewrite size_empty| |].
    - apply extends_empty. by rewrite root_elems.
    - exists ∅. split; [apply clique_empty|by rewrite size_empty]. }
  destruct Hf as (C & HC & Hsz). destruct (clique_independent C HC) as (I & HI & Heq).
  exists I. split; [done|]. lia.
Qed.

(** The two ways the whole search can end. *)
Lemma clique_search_contract at_least b st :
  clique_search confs at_least = Some (b, st) →
  (b = true → search_target at_least ≤ best st ∨ exhausted st)
  ∧ (b = false → ∀ I, independent_set considered I → Z.of_nat (size I) ≤ best st).
Proof.
  intros Hs.
  destruct (expand_complete adj vertices (search_target at_least) _ _ ∅ _ _ _ _ _ Hs)
    as (_ & _ & Ht & Hf).
  - apply root_nonneg.
  - lia.
  - apply empty_subseteq.
  - by rewrite size_empty.
  - apply extends_empty. by rewrite root_elems.
  - apply extends_empty. rewrite elems_0. apply empty_subseteq.
  - split; [done|]. intros Hb I HI. destruct (independent_clique I HI) as (C & HC & <-).
    destruct (clique_maximal adj vertices C HC) as (M & HM & HCM).
    specialize (Hf Hb M HM). rewrite root_elems in Hf.
    assert (size C ≤ size M)%nat by by apply subseteq_size.
    assert (Z.of_nat (size M) ≤ best st); [|lia].
    destruct HM as [[HV _] _]. apply Hf; [apply empty_subseteq|]. clear -HV. set_solver.
Qed.

Lemma n_bound : (n ≤ 256)%nat.
Proof. rewrite length_take. unfold MAX_CONFIRMATIONS_CONSIDERED. lia. Qed.

(** A quorum of one or two is decided within the budget. *)
Lemma clique_search_quorum k I b st :
  0 < k ≤ 2 → clique_search confs (Some k) = Some (b, st) → independent_set considered I →
  k ≤ Z.of_nat (size I) → k ≤ best st.
Proof.
  intros Hk Hs HI HkI. pose proof n_bound as Hn.
  assert (HIn : (size I ≤ n)%nat).
  { destruct (independent_clique I HI) as (C & [HV _] & <-). rewrite <-size_vertices.
    by apply subseteq_size. }
  assert (Htgt : search_target (Some k) = k) by (unfold search_target; lia).
  pose proof root_nonneg as Hrn. pose proof root_elems as Hre. pose proof size_vertices as Hsv.
  set (full := Z.shiftl 1 (Z.of_nat n) - 1) in *.
  assert (Hfull : full ≠ 0).
  { intros Hz. rewrite Hz, elems_0 in Hre. rewrite <-Hre, size_empty in Hsv. lia. }
  destruct (decide (k ≤ 1)) as [Hk1|Hk2].
  - destruct (descent adj vertices (search_target (Some k)) (S n) 0 full (mkSearch 0 0)) as (st' & Hex & Hb); rewrite ?Hre, ?Hsv; simpl;
      unfold MAX_CLIQUE_SEARCH_STEPS; try lia; [done| |].
    + rewrite (proj2 (Z.eqb_neq _ _)) by done. lia.
    + unfold clique_search in Hs. fold (search_target (Some k)) full in Hs.
      rewrite Hex in Hs. injection Hs as <- <-. lia.
  - destruct (Z.leb_spec k (best st)) as [|Hlt]; [done|exfalso].
    assert (Hnb : b = true → k ≤ best st).
    { unfold clique_search in Hs. fold (search_target (Some k)) full in Hs.
      cbn [expand] in Hs. rewrite (proj2 (Z.eqb_neq _ _)) in Hs by done. cbn [andb] in Hs.
      cbn [steps best] in Hs.
      rewrite (proj2 (Z.ltb_ge _ _)) in Hs by (unfold MAX_CLIQUE_SEARCH_STEPS; lia).
      rewrite (proj2 (Z.leb_gt _ _)) in Hs
        by (rewrite <-size_elems, Hre, Hsv by done; lia).
      destruct (branch_sub adj vertices full 0 Hrn ltac:(lia)) as [Hbr Hsub].
      destruct (quorum_two_loop adj vertices (search_target (Some k)) n (low_bits (if 0 <=? find_pivot adj full (Z.lor full 0)
           then Z.land full (Z.lnot (adj_at adj (find_pivot adj full (Z.lor full 0)))) else full))
        full 0 (mkSearch 0 1)) as (b' & st' & Hv & Hb'); rewrite ?Hre, ?Hsv, ?elems_0;
        unfold MAX_CLIQUE_SEARCH_STEPS; simpl; try lia; try done.
      - by apply low_bits_ok.
      - change (0 + 1) with 1 in Hs. rewrite Hv in Hs. injection Hs as <- <-.
        intros Hb. apply Hb' in Hb. lia. }
    destruct b; [specialize (Hnb eq_refl); lia|].
    destruct (clique_search_contract _ _ _ Hs) as [_ Hcov]. specialize (Hcov eq_refl I HI). lia.
Qed.
End Top.

Lemma independent_confirmations_search confs at_least b st :
  clique_search confs at_least = Some (b, st) → independent_confirmations confs at_least = best st.
Proof.
  unfold independent_confirmations. destruct (take _ confs) eqn:Hc; [|by intros ->].
  unfold clique_search. rewrite Hc. simpl. by intros [= <- <-].
Qed.

Lemma independent_set_sub confs I J : J ⊆ I → independent_set confs I → independent_set confs J.
Proof. intros Hsub [H1 H2]. split; [auto|]. intros i j a b Hi Hj. apply H2; auto. Qed.

Lemma independent_confirmations_attained confs at_least :
  ∃ I, independent_set (take MAX_CONFIRMATIONS_CONSIDERED confs) I
       ∧ Z.of_nat (size I) = independent_confirmations confs at_least.
Proof.
  destruct (clique_search_total confs at_least) as [[b st] Hs].
  rewrite (independent_confirmations_search _ _ _ _ Hs). by eapply clique_search_sound.
Qed.

Lemma independent_confirmations_quorum confs k :
  0 < k ≤ 2 →
  k ≤ independent_confirmations confs (Some k)
  ↔ ∃ I, independent_set (take MAX_CONFIRMATIONS_CONSIDERED confs) I ∧ k ≤ Z.of_nat (size I).
Proof.
  intros Hk. destruct (clique_search_total confs (Some k)) as [[b st] Hs].
  rewrite (independent_confirmations_search _ _ _ _ Hs). split.
  - intros Hle. destruct (clique_search_sound _ _ _ _ Hs) as (I & HI & Heq). exists I. split; [done|lia].
  - intros (I & HI & Hsz). by eapply clique_search_quorum.
Qed.

(** Two independent confirmations are two positions with compatible observations. *)
Lemma independent_pair confs :
  (∃ I, independent_set confs I ∧ 2 ≤ Z.of_nat (size I))
  ↔ ∃ i j a b, i ≠ j ∧ confs !! i = Some a ∧ confs !! j = Some b ∧ compatible a b = true.
Proof.
  split.
  - intros (I & [Hlt Hind] & Hsz).
    destruct (size_pos_elem_of I) as [i Hi]; [lia|].
    destruct (size_pos_elem_of (I ∖ {[i]})) as [j Hj].
    { rewrite size_difference, size_singleton by set_solver. lia. }
    apply elem_of_difference in Hj as [Hj Hne%not_elem_of_singleton].
    destruct (lookup_lt_is_Some_2 confs i (Hlt i Hi)) as [a Ha].
    destruct (lookup_lt_is_Some_2 confs j (Hlt j Hj)) as [b Hb].
    exists i, j, a, b. repeat split; try done. by apply (Hind i j).
  - intros (i & j & a & b & Hne & Ha & Hb & Hc). exists {[i; j]}. split; [split|].
    + intros k Hk. apply elem_of_union in Hk as [->%elem_of_singleton| ->%elem_of_singleton];
        by eapply lookup_lt_Some.
    + intros k l x y Hk Hl Hkl Hx Hy.
      apply elem_of_union in Hk as [->%elem_of_singleton| ->%elem_of_singleton],
        Hl as [->%elem_of_singleton| ->%elem_of_singleton]; simplify_eq; try done.
      by rewrite compatible_sym.
    + rewrite size_union, !size_singleton by set_solver. lia.
Qed.

(** ** Properties *)

(** Independence is never over-reported: whatever the graph, the early exit and the
    step budget do, the returned number is the size of a set of pairwise independent
    confirmations (distinct runs, principals and signature clusters) among the first
    [MAX_CONFIRMATIONS_CONSIDERED] offered. *)
Lemma independent_confirmations_sound confs at_least :
  ∃ I, independent_set (take MAX_CONFIRMATIONS_CONSIDERED confs) I
       ∧ Z.of_nat (size I) = independent_confirmations confs at_least.
Proof. apply independent_confirmations_attained. Qed.

(** [C2] The search always terminates and never over-reports: the answer is the size of a
    set of pairwise independent confirmations (distinct runs, principals and signature
    clusters) among the first [MAX_CONFIRMATIONS_CONSIDERED].  When it ends within its step
    budget the answer is exact up to the requested threshold: no independent set is larger
    (or the answer has reached [at_least]).  Without [at_least] this is the maximum. *)
Theorem independent_confirmations_exact confs at_least :
  ∃ aborted st, clique_search confs at_least = Some (aborted, st)
    ∧ best st = independent_confirmations confs at_least
    ∧ (∃ I, independent_set (take MAX_CONFIRMATIONS_CONSIDERED confs) I
            ∧ Z.of_nat (size I) = independent_confirmations confs at_least)
    ∧ (steps st ≤ MAX_CLIQUE_SEARCH_STEPS →
       ∀ I, independent_set (take MAX_CONFIRMATIONS_CONSIDERED confs) I →
         Z.min (Z.of_nat (size I)) (search_target confs at_least)
         ≤ independent_confirmations confs at_least).
Proof.
  destruct (clique_search_total confs at_least) as [[b st] Hs]. exists b, st.
  pose proof (independent_confirmations_attained confs at_least) as Hatt.
  rewrite (independent_confirmations_search _ _ _ _ Hs) in *. split_and!; [done|done|done|].
  intros Hst I HI. destruct (clique_search_contract _ _ _ _ Hs) as [Ht Hf]. destruct b.
  - destruct (Ht eq_refl) as [|Hex]; [lia|]. unfold exhausted in Hex. lia.
  - specialize (Hf eq_refl I HI). lia.
Qed.

(** The quorums the quarantine guard asks for (one or two) are decided exactly, with no
    caveat about the step budget: the search reports at least [k] if and only if [k]
    pairwise independent confirmations exist among those considered. *)
Lemma quorum_exact confs k :
  0 < k ≤ SHADOW_CONFIRM_MIN_INDEPENDENT →
  k ≤ independent_confirmations confs (Some k)
  ↔ ∃ I, independent_set (take MAX_CONFIRMATIONS_CONSIDERED confs) I ∧ k ≤ Z.of_nat (size I).
Proof. apply independent_confirmations_quorum. Qed.

(** A confirmation with a given run, principal and SimHash, for concrete examples. *)
Definition conf_ex (r p : N) (Hr : Is_true (N.ltb r (2 ^ 128))) (Hp : Is_true (N.ltb p (2 ^ 128)))
    (byte : Z) : ShadowConfirmation :=
  mkConfirmation (mkRunId (mkUUID r Hr)) (mkPrincipalId (mkUUID p Hp))
    (replicate 32 1 ++ replicate 8 byte) I.

(** The module docstring's example: p1/clusterA, p2/clusterB, p3/clusterA is 2, not 3. *)
Example independent_confirmations_naive_count :
  independent_confirmations [conf_ex 1 1 I I 0; conf_ex 2 2 I I 255; conf_ex 3 3 I I 0] None = 2.
Proof. vm_compute. reflexivity. Qed.

Lemma quorum_exact_witness :
  2 ≤ independent_confirmations [conf_ex 1 1 I I 0; conf_ex 2 2 I I 255] (Some 2).
Proof.
  apply (quorum_exact [conf_ex 1 1 I I 0; conf_ex 2 2 I I 255] 2); [done|].
  apply independent_pair. exists 0%nat, 1%nat, (conf_ex 1 1 I I 0), (conf_ex 2 2 I I 255).
  repeat split; done.
Defined.
