(* ===== verification/StateMachine.v ===== *)
(** * The memory state machine (domain/state_machine.py)

    Statuses, limits, evidence, one definition per guard, the transition table, the
    creation statuses and [apply].  A guard's refusal text is a [GuardReason]: one
    constructor per refusal, carrying the values the f-string interpolates.  The
    lifecycle of one row (creation, then any sequence of successful [apply] calls
    under evidence that keeps the row's immutable columns) is the inductive relation
    [lifecycle]; the governance invariants are proved over it. *)

From Stdlib Require Import Floats.
From S2P Require Import Prelude Domain Signatures Independence.
Open Scope Z_scope.

(** ** Data *)

Inductive Status :=
| QUARANTINED | CANDIDATE | VALIDATED | SUPERSEDED | STALE
| RETIRED | ARCHIVED | PINNED | TOMBSTONED.

#[export] Instance Status_eq_dec : EqDecision Status.
Proof. solve_decision. Defined.

Definition all_statuses : list Status :=
  [QUARANTINED; CANDIDATE; VALIDATED; SUPERSEDED; STALE; RETIRED; ARCHIVED; PINNED; TOMBSTONED].

Definition RETRIEVABLE_STATUSES : list Status := [VALIDATED; CANDIDATE; PINNED].

Definition STALE_RETIRE_STRIKE_THRESHOLD : Z := 2.

Record TransitionLimits := mkLimits {
  quarantine_ttl_days : Z;
  candidate_ttl_days : Z;
  promote_min_outcomes : Z;
  failure_lesson_outcomes : Z;
  promotion_min_distinct_principals : Z;
  retire_q_threshold : float;
  retire_min_scored_uses : Z;
  retire_min_distinct_principals : Z;
  archive_floor : float;
}.

(** [TransitionLimits.__post_init__]: the integer floors, then the two probabilities. *)
Definition limits_post_init (l : TransitionLimits) : result exn TransitionLimits :=
  let floors := [(quarantine_ttl_days l, 1); (candidate_ttl_days l, 1);
                 (promote_min_outcomes l, 1); (failure_lesson_outcomes l, 1);
                 (promotion_min_distinct_principals l, SHADOW_CONFIRM_MIN_INDEPENDENT);
                 (retire_min_scored_uses l, 1); (retire_min_distinct_principals l, 2)] in
  check! forallb (λ '(value, floor), negb (value <? floor)) floors else ConfigError in
  check! forallb (λ f, (0 <=? f)%float && (f <=? 1)%float) [retire_q_threshold l; archive_floor l]
    else ConfigError in
  Ok l.

Record TransitionEvidence := mkEvidence {
  now : datetime;
  provenance_class : ProvenanceClass;
  trust_tier : TrustTier;
  mem_type : MemType;
  is_failure_lesson : bool;
  scan_passed : bool;
  scan_repass : bool;
  provenance_complete : bool;
  status_changed_at : option datetime;
  confirmations : list ShadowConfirmation;
  has_verified_human_verdict : bool;
  promotion_outcomes : Z;
  promotion_distinct_principals : Z;
  outcome_consistent : bool;
  open_contradiction : bool;
  contradiction_equal_or_stronger : bool;
  contradiction_weaker_provenance : bool;
  scan_reflag : bool;
  invalidation_event : bool;
  ttl_class_expired : bool;
  revalidation_failed : bool;
  reverified : bool;
  strike_count : Z;
  q_value : float;
  scored_use_count : Z;
  distinct_scoring_principals : Z;
  decay_floor_reached : bool;
  operator_restore : bool;
  operator_created : bool;
  erasure_or_approved_delete : bool;
}.

(** The dataclass defaults: what a caller that sets only the four mandatory fields has. *)
Definition default_evidence (n : datetime) (pc : ProvenanceClass) (tt : TrustTier) (mt : MemType) :
    TransitionEvidence :=
  mkEvidence n pc tt mt false false false false None [] false 0 0 false false false false false
    false false false false 0 0%float 0 0 false false false false.

(** [TransitionEvidence.__post_init__]: no timezone-naive instants. *)
Definition evidence_post_init (e : TransitionEvidence) : result exn TransitionEvidence :=
  check! dt_aware (now e) else ValueError in
  check! (match status_changed_at e with None => true | Some d => dt_aware d end) else ValueError in
  Ok e.

(** ** Guard outcomes *)

Inductive GuardReason :=
| tier_must_be_A | class_must_be_parser | scan_did_not_pass | provenance_incomplete
| tier_must_be_B | class_must_be_distiller_or_proposal
| class_must_be_operator | operator_created_not_set | pinned_rows_are_preferences_only
| proposal_never_exits_quarantine
| too_few_independent (independent required : Z)
| too_few_outcomes (have need : Z) | too_few_promotion_principals (have need : Z)
| outcomes_inconsistent | scan_repass_missing | open_contradiction_blocks
| no_weaker_contradiction_or_reflag | no_stronger_contradiction
| no_staleness_signal | decay_floor_not_reached
| q_above_threshold (q threshold : float) | too_few_scored_uses (have need : Z)
| too_few_scoring_principals (have need : Z)
| not_reverified | second_strike_required (strikes : Z)
| proposal_never_restored | no_operator_restore | no_erasure_reason
| status_changed_at_missing | ttl_not_reached (age limit : Z).

Record GuardOutcome := mkOutcome { ok : bool; reason : option GuardReason }.
Definition pass : GuardOutcome := mkOutcome true None.
Definition refuse (r : GuardReason) : GuardOutcome := mkOutcome false (Some r).

Abbreviation Guard := (TransitionEvidence → TransitionLimits → GuardOutcome).

(** ** Guards, one per legal edge *)

Definition guard_none_to_candidate : Guard := λ e l,
  if bool_decide (trust_tier e ≠ TierA) then refuse tier_must_be_A
  else if bool_decide (provenance_class e ≠ PARSER) then refuse class_must_be_parser
  else if negb (scan_passed e) then refuse scan_did_not_pass
  else if negb (provenance_complete e) then refuse provenance_incomplete
  else pass.

Definition guard_none_to_quarantined : Guard := λ e l,
  if bool_decide (trust_tier e ≠ TierB) then refuse tier_must_be_B
  else if bool_decide (provenance_class e ∉ [DISTILLER; PROPOSAL])
  then refuse class_must_be_distiller_or_proposal
  else if negb (scan_passed e) then refuse scan_did_not_pass
  else if negb (provenance_complete e) then refuse provenance_incomplete
  else pass.

Definition guard_none_to_pinned : Guard := λ e l,
  if bool_decide (provenance_class e ≠ OPERATOR) then refuse class_must_be_operator
  else if negb (operator_created e) then refuse operator_created_not_set
  else if bool_decide (mem_type e ≠ PREFERENCE) then refuse pinned_rows_are_preferences_only
  else pass.

Definition required_confirmations (e : TransitionEvidence) (l : TransitionLimits) : Z :=
  if is_failure_lesson e && bool_decide (mem_type e = LESSON)
  then failure_lesson_outcomes l else SHADOW_CONFIRM_MIN_INDEPENDENT.

Definition guard_quarantined_to_candidate : Guard := λ e l,
  if bool_decide (provenance_class e = PROPOSAL) then refuse proposal_never_exits_quarantine
  else
    let required := required_confirmations e l in
    let independent := independent_confirmations (confirmations e) (Some required) in
    if required <=? independent then pass
    else refuse (too_few_independent independent required).

(** Shared TTL check; instants are aware by [evidence_post_init]. *)
Definition guard_ttl_expired (e : TransitionEvidence) (ttl_days : Z) : GuardOutcome :=
  match status_changed_at e with
  | None => refuse status_changed_at_missing
  | Some changed =>
      let age := dt_us (now e) - dt_us changed in
      let limit := timedelta_days ttl_days in
      if limit <=? age then pass else refuse (ttl_not_reached age limit)
  end.

Definition guard_quarantined_to_archived : Guard := λ e l, guard_ttl_expired e (quarantine_ttl_days l).

Definition guard_candidate_to_validated : Guard := λ e l,
  if promotion_outcomes e <? promote_min_outcomes l
  then refuse (too_few_outcomes (promotion_outcomes e) (promote_min_outcomes l))
  else if promotion_distinct_principals e <? promotion_min_distinct_principals l
  then refuse (too_few_promotion_principals (promotion_distinct_principals e)
                 (promotion_min_distinct_principals l))
  else if negb (outcome_consistent e) then refuse outcomes_inconsistent
  else if negb (scan_repass e) then refuse scan_repass_missing
  else if open_contradiction e then refuse open_contradiction_blocks
  else pass.

Definition guard_candidate_to_quarantined : Guard := λ e l,
  if contradiction_weaker_provenance e || scan_reflag e then pass
  else refuse no_weaker_contradiction_or_reflag.

Definition guard_candidate_to_archived : Guard := λ e l, guard_ttl_expired e (candidate_ttl_days l).

Definition guard_validated_to_superseded : Guard := λ e l,
  if contradiction_equal_or_stronger e then pass else refuse no_stronger_contradiction.

Definition guard_validated_to_stale : Guard := λ e l,
  if invalidation_event e || ttl_class_expired e || revalidation_failed e then pass
  else refuse no_staleness_signal.

Definition guard_validated_to_archived : Guard := λ e l,
  if decay_floor_reached e then pass else refuse decay_floor_not_reached.

Definition guard_validated_to_retired : Guard := λ e l,
  if (retire_q_threshold l <=? q_value e)%float
  then refuse (q_above_threshold (q_value e) (retire_q_threshold l))
  else if scored_use_count e <? retire_min_scored_uses l
  then refuse (too_few_scored_uses (scored_use_count e) (retire_min_scored_uses l))
  else if distinct_scoring_principals e <? retire_min_distinct_principals l
  then refuse (too_few_scoring_principals (distinct_scoring_principals e)
                 (retire_min_distinct_principals l))
  else pass.

Definition guard_stale_to_validated : Guard := λ e l,
  if reverified e then pass else refuse not_reverified.

Definition guard_stale_to_retired : Guard := λ e l,
  if STALE_RETIRE_STRIKE_THRESHOLD <=? strike_count e then pass
  else refuse (second_strike_required (strike_count e)).

Definition guard_archived_to_validated : Guard := λ e l,
  if bool_decide (provenance_class e = PROPOSAL) then refuse proposal_never_restored
  else if operator_restore e then pass else refuse no_operator_restore.

Definition guard_to_tombstoned : Guard := λ e l,
  if erasure_or_approved_delete e then pass else refuse no_erasure_reason.

(** ** The table *)

Definition NON_TERMINAL_STATUSES : list Status := filter (λ s, s ≠ TOMBSTONED) all_statuses.

Definition TRANSITIONS : list (option Status * Status * Guard) :=
  [ (None, CANDIDATE, guard_none_to_candidate);
    (None, QUARANTINED, guard_none_to_quarantined);
    (None, PINNED, guard_none_to_pinned);
    (Some QUARANTINED, CANDIDATE, guard_quarantined_to_candidate);
    (Some QUARANTINED, ARCHIVED, guard_quarantined_to_archived);
    (Some CANDIDATE, VALIDATED, guard_candidate_to_validated);
    (Some CANDIDATE, QUARANTINED, guard_candidate_to_quarantined);
    (Some CANDIDATE, ARCHIVED, guard_candidate_to_archived);
    (Some VALIDATED, SUPERSEDED, guard_validated_to_superseded);
    (Some VALIDATED, STALE, guard_validated_to_stale);
    (Some VALIDATED, ARCHIVED, guard_validated_to_archived);
    (Some VALIDATED, RETIRED, guard_validated_to_retired);
    (Some STALE, VALIDATED, guard_stale_to_validated);
    (Some STALE, RETIRED, guard_stale_to_retired);
    (Some ARCHIVED, VALIDATED, guard_archived_to_validated) ]
  ++ map (λ s, (Some s, TOMBSTONED, guard_to_tombstoned)) NON_TERMINAL_STATUSES.

(** [_TRANSITIONS.get((current, target))]. *)
Definition transitions_get (current : option Status) (target : Status) : option Guard :=
  snd <$> find (λ '(c, t, _), bool_decide (c = current) && bool_decide (t = target)) TRANSITIONS.

Definition LEGAL_CREATION_STATUSES : list Status :=
  omap (λ '(c, t, _), match c with None => Some t | Some _ => None end) TRANSITIONS.

Inductive transition_error :=
| IllegalTransition (current : option Status) (target : Status)
| GuardNotSatisfied (current : option Status) (target : Status) (why : option GuardReason).

Definition assert_legal_creation_status (s : Status) : result transition_error unit :=
  if bool_decide (s ∈ LEGAL_CREATION_STATUSES) then Ok tt else Err (IllegalTransition None s).

(** ** [apply], the only way a status changes *)

Definition apply (current : option Status) (target : Status) (e : TransitionEvidence)
    (l : TransitionLimits) : result transition_error Status :=
  match transitions_get current target with
  | None => Err (IllegalTransition current target)
  | Some guard =>
      let outcome := guard e l in
      if negb (ok outcome) then Err (GuardNotSatisfied current target (reason outcome))
      else Ok target
  end.

(** ** Lemmas about single transitions *)

Lemma legal_creation_iff s :
  assert_legal_creation_status s = Ok tt ↔ s = CANDIDATE ∨ s = QUARANTINED ∨ s = PINNED.
Proof. destruct s; vm_compute; naive_solver. Qed.

Lemma apply_refused current target e l c t why :
  apply current target e l = Err (GuardNotSatisfied c t why) →
  c = current ∧ t = target
  ∧ ∃ g, transitions_get current target = Some g ∧ ok (g e l) = false ∧ reason (g e l) = why.
Proof.
  unfold apply. destruct (transitions_get current target) as [g|]; [|done].
  destruct (ok (g e l)) eqn:Hok; [done|]. intros [= <- <- <-]. eauto 10.
Qed.

Lemma transitions_get_exit :
  transitions_get (Some QUARANTINED) CANDIDATE = Some guard_quarantined_to_candidate.
Proof. reflexivity. Qed.

Lemma apply_edge current target g e l :
  transitions_get current target = Some g →
  apply current target e l
  = if ok (g e l) then Ok target else Err (GuardNotSatisfied current target (reason (g e l))).
Proof. unfold apply. intros ->. by destruct (ok (g e l)). Qed.

(** Open up an [apply] call that succeeded at a given pair of statuses. *)
Ltac apply_inv H :=
  unfold apply in H; cbn in H;
  repeat match type of H with
  | (if ?b then _ else _) = Ok _ => destruct b eqn:?; try discriminate H
  | context [match ?b with _ => _ end] => destruct b eqn:?; try discriminate H
  end.

Lemma apply_target current target e l s : apply current target e l = Ok s → s = target.
Proof. unfold apply. repeat case_match; try done. by intros [= ->]. Qed.

Lemma apply_ok current target e l s :
  apply current target e l = Ok s ↔
  s = target ∧ ∃ g, transitions_get current target = Some g ∧ ok (g e l) = true.
Proof.
  unfold apply. destruct (transitions_get current target) as [g|].
  - destruct (ok (g e l)) eqn:Hok; simpl; split.
    + intros [= <-]. eauto.
    + by intros (-> & _).
    + done.
    + intros (_ & g' & [= <-] & Hg). congruence.
  - split; [done|]. by intros (_ & g & [=] & _).
Qed.

(** The three creation edges. *)
Lemma apply_creation target e l s :
  apply None target e l = Ok s →
  (s = CANDIDATE ∧ trust_tier e = TierA ∧ provenance_class e = PARSER
     ∧ scan_passed e = true ∧ provenance_complete e = true)
  ∨ (s = QUARANTINED ∧ trust_tier e = TierB
     ∧ (provenance_class e = DISTILLER ∨ provenance_class e = PROPOSAL)
     ∧ scan_passed e = true ∧ provenance_complete e = true)
  ∨ (s = PINNED ∧ provenance_class e = OPERATOR ∧ operator_created e = true
     ∧ mem_type e = PREFERENCE).
Proof.
  intros H. pose proof (apply_target _ _ _ _ _ H) as ->.
  apply apply_ok in H as (_ & g & Hg & Hok).
  destruct target; cbn in Hg; try discriminate Hg; injection Hg as <-.
  - unfold guard_none_to_quarantined in Hok.
    destruct (trust_tier e), (provenance_class e), (scan_passed e), (provenance_complete e);
      cbn in Hok; try discriminate Hok; auto 10.
  - unfold guard_none_to_candidate in Hok.
    destruct (trust_tier e), (provenance_class e), (scan_passed e), (provenance_complete e);
      cbn in Hok; try discriminate Hok; auto 10.
  - unfold guard_none_to_pinned in Hok.
    destruct (provenance_class e), (operator_created e), (mem_type e);
      cbn in Hok; try discriminate Hok; auto 10.
Qed.

(** The edges out of each status. *)
Lemma apply_edges c target e l s :
  apply (Some c) target e l = Ok s →
  s = TOMBSTONED ∨
  match c with
  | QUARANTINED => s = CANDIDATE ∨ s = ARCHIVED
  | CANDIDATE => s = VALIDATED ∨ s = QUARANTINED ∨ s = ARCHIVED
  | VALIDATED => s = SUPERSEDED ∨ s = STALE ∨ s = ARCHIVED ∨ s = RETIRED
  | STALE => s = VALIDATED ∨ s = RETIRED
  | ARCHIVED => s = VALIDATED
  | SUPERSEDED | RETIRED | PINNED | TOMBSTONED => False
  end.
Proof.
  intros H. pose proof (apply_target _ _ _ _ _ H) as ->.
  apply apply_ok in H as (_ & g & Hg & _).
  destruct c, target; cbn in Hg; (discriminate Hg || tauto).
Qed.

Lemma tombstoned_final target e l s : apply (Some TOMBSTONED) target e l ≠ Ok s.
Proof.
  intros H. apply apply_ok in H as (_ & g & Hg & _). destruct target; cbn in Hg; discriminate Hg.
Qed.

(** Leaving quarantine upwards: never a proposal, and the quorum was met. *)
Lemma quarantine_exit e l s :
  apply (Some QUARANTINED) CANDIDATE e l = Ok s →
  provenance_class e ≠ PROPOSAL
  ∧ required_confirmations e l
    ≤ independent_confirmations (confirmations e) (Some (required_confirmations e l)).
Proof.
  intros H. apply apply_ok in H as (_ & g & Hg & Hok). cbn in Hg. injection Hg as <-.
  unfold guard_quarantined_to_candidate in Hok. case_bool_decide; [done|].
  case_match eqn:Hle; [|done]. split; [done|]. by apply Z.leb_le.
Qed.

Lemma archived_restore e l s :
  apply (Some ARCHIVED) VALIDATED e l = Ok s →
  provenance_class e ≠ PROPOSAL ∧ operator_restore e = true.
Proof.
  intros H. apply apply_ok in H as (_ & g & Hg & Hok). cbn in Hg. injection Hg as <-.
  unfold guard_archived_to_validated in Hok. case_bool_decide; [done|]. by case_match.
Qed.

(** The numeric floors of accepted limits. *)
Lemma limits_floors l l' :
  limits_post_init l = Ok l' →
  l' = l ∧ 1 ≤ quarantine_ttl_days l ∧ 1 ≤ candidate_ttl_days l ∧ 1 ≤ promote_min_outcomes l
  ∧ 1 ≤ failure_lesson_outcomes l ∧ 2 ≤ promotion_min_distinct_principals l
  ∧ 1 ≤ retire_min_scored_uses l ∧ 2 ≤ retire_min_distinct_principals l.
Proof.
  unfold limits_post_init. cbn [forallb]. intros H.
  case_match eqn:Hf; [|done]. case_match; [|done]. injection H as <-.
  bsplit. rewrite !Z.ltb_ge in *. unfold SHADOW_CONFIRM_MIN_INDEPENDENT in *. by split_and!.
Qed.

Lemma required_positive e l :
  1 ≤ failure_lesson_outcomes l → 1 ≤ required_confirmations e l.
Proof. unfold required_confirmations, SHADOW_CONFIRM_MIN_INDEPENDENT. case_match; lia. Qed.

(** ** Lifecycles

    A row has immutable columns; every piece of evidence used on it repeats them. *)

Record row_columns := mkColumns {
  col_class : ProvenanceClass; col_tier : TrustTier; col_type : MemType }.

Definition about (r : row_columns) (e : TransitionEvidence) : Prop :=
  provenance_class e = col_class r ∧ trust_tier e = col_tier r ∧ mem_type e = col_type r.

(** One performed transition: where it came from, where it went, the evidence, and the
    limits in force at the time (the configuration may change over a row's life). *)
Definition performed : Type := option Status * Status * TransitionEvidence * TransitionLimits.

(** [lifecycle r hist s]: the row [r], created and moved by the transitions of [hist]
    (latest first), is now in status [s]. *)
Inductive lifecycle (r : row_columns) : list performed → Status → Prop :=
| lifecycle_create target e l s :
    about r e → apply None target e l = Ok s → lifecycle r [(None, s, e, l)] s
| lifecycle_step hist c target e l s :
    lifecycle r hist c → about r e → apply (Some c) target e l = Ok s →
    lifecycle r ((Some c, s, e, l) :: hist) s.

(** A transition that was a corroborated exit from quarantine. *)
Definition corroborated_exit (p : performed) : Prop :=
  let '(c, t, e, l) := p in
  c = Some QUARANTINED ∧ t = CANDIDATE
  ∧ ∃ I, independent_set (take MAX_CONFIRMATIONS_CONSIDERED (confirmations e)) I
         ∧ required_confirmations e l ≤ Z.of_nat (size I).

(** A transition that was an operator restore from the archive. *)
Definition operator_restored (p : performed) : Prop :=
  let '(c, t, e, l) := p in c = Some ARCHIVED ∧ t = VALIDATED ∧ operator_restore e = true.

Lemma exit_corroborated l e s :
  apply (Some QUARANTINED) CANDIDATE e l = Ok s →
  corroborated_exit (Some QUARANTINED, CANDIDATE, e, l).
Proof.
  intros [_ Hq]%quarantine_exit. repeat split.
  destruct (independent_confirmations_attained (confirmations e) (Some (required_confirmations e l)))
    as (I & HI & Hsz). exists I. split; [done|lia].
Qed.

(** Proposals circulate between quarantine, archive and tombstone only. *)
Lemma proposal_statuses r hist s :
  lifecycle r hist s → col_class r = PROPOSAL → s ∈ [QUARANTINED; ARCHIVED; TOMBSTONED].
Proof.
  intros Hlife Hp. induction Hlife as [target e l s (Hc & _ & _) H|hist c target e l s Hlife IH (Hc & _ & _) H].
  - apply apply_creation in H. rewrite Hc, Hp in H. destruct H as [(? & ? & ? & _)|[(-> & _)|(? & ? & _)]];
      [done|set_solver|done].
  - pose proof H as Hs. apply apply_edges in Hs as [->|Hs]; [set_solver|].
    rewrite !elem_of_cons in IH. destruct IH as [->|[->|[->|[]%elem_of_nil]]].
    + destruct Hs as [-> | ->]; [|set_solver].
      pose proof (apply_target _ _ _ _ _ H) as <-. apply quarantine_exit in H as [? _]. congruence.
    + subst s. pose proof (apply_target _ _ _ _ _ H) as <-.
      apply archived_restore in H as [? _]. congruence.
    + done.
Qed.

(** Once past quarantine or the archive, the history shows how. *)
Lemma content_history r hist s :
  lifecycle r hist s → col_tier r = TierB →
  s ∈ [QUARANTINED; ARCHIVED; PINNED; TOMBSTONED]
  ∨ ∃ p, p ∈ hist ∧ (corroborated_exit p ∨ operator_restored p).
Proof.
  intros Hlife HB.
  induction Hlife as [target e l s (_ & Ht & _) H|hist c target e l s Hlife IH _ H].
  - left. apply apply_creation in H. destruct H as [(_ & HA & _)|[(-> & _)|(-> & _)]];
      [congruence|set_solver..].
  - destruct IH as [Hc|(p & Hp & Hd)]; [|right; exists p; split; [by right|done]].
    pose proof (apply_target _ _ _ _ _ H) as Hst.
    pose proof H as Hs. apply apply_edges in Hs as [->|Hs]; [left; set_solver|].
    rewrite !elem_of_cons in Hc. destruct Hc as [->|[->|[->|[->|[]%elem_of_nil]]]]; try done.
    + destruct Hs as [-> | ->]; [|left; set_solver]. right. subst target.
      eexists. split; [left|]. left. by eapply exit_corroborated.
    + subst s target. right. eexists. split; [left|]. right.
      apply archived_restore in H as [_ ?]. by repeat split.
Qed.

(** Reachability from a given status by further transitions of the same row. *)
Lemma lifecycle_tier r hist s : lifecycle r hist s → s = PINNED → col_class r = OPERATOR.
Proof.
  intros Hlife. induction Hlife as [target e l s (Hc & _ & _) H|hist c target e l s Hlife IH _ H]; intros ->.
  - apply apply_creation in H. destruct H as [(? & _)|[(? & _)|(_ & Ho & _)]]; congruence.
  - apply apply_edges in H as [?|H]; [done|]. destruct c; naive_solver.
Qed.

(** ** Properties *)

(** Proposals are never recalled: a row of provenance class [PROPOSAL], moved by any
    sequence of successful transitions under any limits, is never in a retrievable status
    (it stays in quarantine, archive or tombstone). *)
Lemma proposals_never_retrievable r hist s :
  lifecycle r hist s → col_class r = PROPOSAL → s ∉ RETRIEVABLE_STATUSES.
Proof.
  intros Hlife Hp. pose proof (proposal_statuses _ _ _ Hlife Hp) as Hs.
  unfold RETRIEVABLE_STATUSES. rewrite !elem_of_cons in Hs.
  destruct Hs as [->|[->|[->|[]%elem_of_nil]]]; set_solver.
Qed.

Definition limits_ex : TransitionLimits := mkLimits 30 45 3 1 2 (1/4) 5 2 (1/8).

Definition proposal_ev (n : Z) : TransitionEvidence :=
  mkEvidence (mkDatetime n true) PROPOSAL TierB LESSON true true true true
    (Some (mkDatetime 0 true)) [] true 9 9 true false false false false
    false false false false 0 0%float 0 0 false true true false.

Lemma proposals_never_retrievable_witness :
  ARCHIVED ∉ RETRIEVABLE_STATUSES.
Proof.
  apply (proposals_never_retrievable (mkColumns PROPOSAL TierB LESSON)
    [(Some QUARANTINED, ARCHIVED, proposal_ev (timedelta_days 31), limits_ex);
     (None, QUARANTINED, proposal_ev 0, limits_ex)] ARCHIVED); [|reflexivity].
  eapply (lifecycle_step _ _ QUARANTINED ARCHIVED).
  - eapply (lifecycle_create _ QUARANTINED); [by repeat split|vm_compute; reflexivity].
  - by repeat split.
  - vm_compute. reflexivity.
Defined.

(** Quarantine gate: a content-derived (Tier B) row that has become [CANDIDATE] or
    [VALIDATED] has, in its own history, either a corroborated exit from quarantine (a set of
    pairwise independent confirmations at least as large as the guard required) or an explicit
    operator restore from the archive. *)
Lemma quarantine_gate r hist s :
  lifecycle r hist s → col_tier r = TierB → s = CANDIDATE ∨ s = VALIDATED →
  ∃ p, p ∈ hist ∧ (corroborated_exit p ∨ operator_restored p).
Proof.
  intros Hlife HB Hs. destruct (content_history _ _ _ Hlife HB) as [Hin|?]; [|done].
  destruct Hs; subst s; set_solver.
Qed.

Definition distilled_ev : TransitionEvidence :=
  mkEvidence (mkDatetime 0 true) DISTILLER TierB SEMANTIC false true true true None
    [conf_ex 1 1 I I 0; conf_ex 2 2 I I 255] false 0 0 false false false false false
    false false false false 0 0%float 0 0 false false false false.

Lemma quarantine_gate_witness :
  ∃ p, p ∈ [(Some QUARANTINED, CANDIDATE, distilled_ev, limits_ex);
             (None, QUARANTINED, distilled_ev, limits_ex)]
       ∧ (corroborated_exit p ∨ operator_restored p).
Proof.
  apply (quarantine_gate (mkColumns DISTILLER TierB SEMANTIC) _ CANDIDATE);
    [|reflexivity|by left].
  eapply (lifecycle_step _ _ QUARANTINED CANDIDATE).
  - eapply (lifecycle_create _ QUARANTINED); [by repeat split|vm_compute; reflexivity].
  - by repeat split.
  - vm_compute. reflexivity.
Defined.

(** The quarantine exit is decided exactly: for a row that is not a failure lesson,
    [apply QUARANTINED -> CANDIDATE] succeeds if and only if its class is not [PROPOSAL] and
    two of the considered confirmations come from distinct runs, distinct principals and
    distinct signature clusters.  No limit, flag or other evidence field matters. *)
Lemma quarantine_exit_iff e l :
  is_failure_lesson e && bool_decide (mem_type e = LESSON) = false →
  apply (Some QUARANTINED) CANDIDATE e l = Ok CANDIDATE
  ↔ provenance_class e ≠ PROPOSAL
    ∧ ∃ i j a b, i ≠ j
      ∧ take MAX_CONFIRMATIONS_CONSIDERED (confirmations e) !! i = Some a
      ∧ take MAX_CONFIRMATIONS_CONSIDERED (confirmations e) !! j = Some b
      ∧ sc_run_id a ≠ sc_run_id b ∧ sc_principal_id a ≠ sc_principal_id b
      ∧ same_cluster (sc_sig a) (sc_sig b) = Ok false.
Proof.
  intros Hnf.
  assert (Hr : required_confirmations e l = 2) by (unfold required_confirmations; by rewrite Hnf).
  assert (Hpair : 2 ≤ independent_confirmations (confirmations e) (Some 2)
    ↔ ∃ i j a b, i ≠ j
      ∧ take MAX_CONFIRMATIONS_CONSIDERED (confirmations e) !! i = Some a
      ∧ take MAX_CONFIRMATIONS_CONSIDERED (confirmations e) !! j = Some b
      ∧ compatible a b = true).
  { rewrite independent_confirmations_quorum by lia. apply independent_pair. }
  setoid_rewrite compatible_spec in Hpair. rewrite <-Hpair. split.
  - intros H. apply quarantine_exit in H. by rewrite Hr in H.
  - intros [Hp Hq]. apply apply_ok. split; [done|].
    exists guard_quarantined_to_candidate. split; [reflexivity|].
    unfold guard_quarantined_to_candidate. clear Hnf. case_bool_decide; [done|].
    rewrite Hr. by rewrite (proj2 (Z.leb_le _ _)).
Qed.

Lemma quarantine_exit_iff_witness :
  apply (Some QUARANTINED) CANDIDATE distilled_ev limits_ex = Ok CANDIDATE.
Proof.
  apply (quarantine_exit_iff distilled_ev limits_ex); [reflexivity|].
  split; [done|]. exists 0%nat, 1%nat, (conf_ex 1 1 I I 0), (conf_ex 2 2 I I 255).
  split; [done|]. split; [reflexivity|]. split; [reflexivity|].
  split; [vm_compute; congruence|]. split; [vm_compute; congruence|]. vm_compute. reflexivity.
Defined.

(** Configuration cannot disable the machine: under limits that [TransitionLimits]
    accepts, leaving quarantine upwards always takes at least one independent confirmation,
    promotion at least two principals, one outcome, a clean re-scan and no open
    contradiction, automatic retirement at least two scoring principals, and TTL archiving at
    least one full day in the status. *)
Lemma limits_cannot_disable l l' e s :
  limits_post_init l = Ok l' →
  (apply (Some QUARANTINED) CANDIDATE e l = Ok s →
     ∃ I, independent_set (take MAX_CONFIRMATIONS_CONSIDERED (confirmations e)) I
          ∧ 1 ≤ Z.of_nat (size I))
  ∧ (apply (Some CANDIDATE) VALIDATED e l = Ok s →
     2 ≤ promotion_distinct_principals e ∧ 1 ≤ promotion_outcomes e
     ∧ outcome_consistent e = true ∧ scan_repass e = true ∧ open_contradiction e = false)
  ∧ (apply (Some VALIDATED) RETIRED e l = Ok s →
     2 ≤ distinct_scoring_principals e ∧ 1 ≤ scored_use_count e)
  ∧ (∀ c, c = QUARANTINED ∨ c = CANDIDATE → apply (Some c) ARCHIVED e l = Ok s →
     ∃ d, status_changed_at e = Some d ∧ timedelta_days 1 ≤ dt_us (now e) - dt_us d).
Proof.
  intros (_ & Hq & Hc & Hpo & Hf & Hpp & Hsu & Hsp)%limits_floors. split_and!.
  - intros (_ & _ & I & HI & Hsz)%exit_corroborated. exists I. split; [done|].
    pose proof (required_positive e l Hf). lia.
  - intros (_ & g & [= <-] & Hok)%apply_ok. unfold guard_candidate_to_validated in Hok.
    repeat (case_match; try discriminate Hok). bsplit. rewrite Z.ltb_ge in *. split_and!; lia || done.
  - intros (_ & g & [= <-] & Hok)%apply_ok. unfold guard_validated_to_retired in Hok.
    repeat (case_match; try discriminate Hok). rewrite Z.ltb_ge in *. lia.
  - intros c Hcc (_ & g & Hg & Hok)%apply_ok.
    assert (∃ d, 1 ≤ d ∧ guard_ttl_expired e d = g e l) as (d & Hd & Heq).
    { destruct Hcc as [-> | ->]; injection Hg as <-; eauto. }
    rewrite <-Heq in Hok. unfold guard_ttl_expired in Hok. case_match; [|done].
    case_match eqn:Hle; [|done]. apply Z.leb_le in Hle. unfold timedelta_days in *.
    eexists. split; [done|lia].
Qed.

Lemma limits_cannot_disable_witness :
  ∃ d, status_changed_at (proposal_ev (timedelta_days 31)) = Some d
       ∧ timedelta_days 1 ≤ dt_us (now (proposal_ev (timedelta_days 31))) - dt_us d.
Proof.
  apply (limits_cannot_disable limits_ex limits_ex (proposal_ev (timedelta_days 31)) ARCHIVED)
    with QUARANTINED; [reflexivity|by left|vm_compute; reflexivity].
Defined.

(** Erasure reaches everything and is final: from every status but [TOMBSTONED] the
    tombstone edge exists and is taken exactly when erasure (or an approved delete) is
    evidenced; from [TOMBSTONED] every transition is illegal, whatever the evidence. *)
Lemma erasure_total_and_final c e l :
  (c ≠ TOMBSTONED →
     apply (Some c) TOMBSTONED e l
     = if erasure_or_approved_delete e then Ok TOMBSTONED
       else Err (GuardNotSatisfied (Some c) TOMBSTONED (Some no_erasure_reason)))
  ∧ ∀ target, apply (Some TOMBSTONED) target e l = Err (IllegalTransition (Some TOMBSTONED) target).
Proof.
  split.
  - intros Hc. assert (transitions_get (Some c) TOMBSTONED = Some guard_to_tombstoned) as Hg
      by (destruct c; try done; vm_compute; reflexivity).
    unfold apply. rewrite Hg. unfold guard_to_tombstoned.
    by destruct (erasure_or_approved_delete e).
  - intros target. destruct target; vm_compute; reflexivity.
Qed.

(** The stored human-verdict flag opens no edge: flipping
    [has_verified_human_verdict] in the evidence changes no outcome of [apply], for any pair
    of statuses, evidence and limits. *)
Lemma human_verdict_flag_ignored current target l
    n pc tt mt fl sp sr pcm sca confs b1 b2 po pdp oc opc ces cwp srf ie tce rf rv sc q suc dsp dfr orr ocr er :
  apply current target
    (mkEvidence n pc tt mt fl sp sr pcm sca confs b1 po pdp oc opc ces cwp srf ie tce rf rv sc q suc dsp dfr orr ocr er) l
  = apply current target
    (mkEvidence n pc tt mt fl sp sr pcm sca confs b2 po pdp oc opc ces cwp srf ie tce rf rv sc q suc dsp dfr orr ocr er) l.
Proof. destruct current as [[]|], target; reflexivity. Qed.

(** The insert door: [assert_legal_creation_status] accepts exactly the statuses some
    creation edge targets ([CANDIDATE], [QUARANTINED], [PINNED]), so no directly retrievable
    [VALIDATED] row can be constructed, and every successful creation lands on one of them. *)
Lemma creation_statuses s :
  (assert_legal_creation_status s = Ok tt ↔ s = CANDIDATE ∨ s = QUARANTINED ∨ s = PINNED)
  ∧ ∀ target e l, apply None target e l = Ok s → assert_legal_creation_status s = Ok tt.
Proof.
  split; [apply legal_creation_iff|].
  intros target e l H. apply apply_creation in H.
  destruct H as [(-> & _)|[(-> & _)|(-> & _)]]; reflexivity.
Qed.

(** The restore edge is the one way around corroboration that the table leaves open: a
    distilled row archived on TTL expiry, never confirmed, restored by an operator. *)
Example restore_without_corroboration :
  let e := mkEvidence (mkDatetime (timedelta_days 40) true) DISTILLER TierB SEMANTIC
    false true false true (Some (mkDatetime 0 true)) [] false 0 0 false false false false false
    false false false false 0 0%float 0 0 false true false false in
  apply (Some QUARANTINED) ARCHIVED e limits_ex = Ok ARCHIVED
  ∧ apply (Some ARCHIVED) VALIDATED e limits_ex = Ok VALIDATED
  ∧ apply (Some QUARANTINED) VALIDATED e limits_ex
    = Err (IllegalTransition (Some QUARANTINED) VALIDATED).
Proof. vm_compute. auto. Qed.
