(* ===== verification/Memory.v ===== *)
(** * Memory items: provenance, construction, scope visibility, subject tags

    Models domain/memory.py ([Provenance] with its on-disk shape, the
    provenance-complete-or-rejected rule, [NewMemoryItem]), domain/visibility.py
    ([scope_visible]) and domain/subject_tags.py ([validate_subject_tag]).

    A jsonb column is an association list of keys to [json] values; [raw.get(key)] is
    the first binding.  [str(v)] of a nested container is Python's [repr], whose text
    is a parameter: no theorem depends on it. *)

From S2P Require Import Prelude Domain PyText Json StateMachine.
Open Scope Z_scope.

(** ** Provenance (domain/memory.py) *)

Record Provenance := mkProvenance {
  cls : ProvenanceClass;
  trace_ids : list RunId;
  verdict_id : option uuid;
  tool_refs : list pystr;
  input_sig_hashes : list (list Z);
  run_id : option RunId;
  principal : option PrincipalId;
}.

Inductive ProvenanceField := F_trace_ids | F_verdict_id | F_run_id | F_principal.

Definition REQUIRED_PROVENANCE_FIELDS (c : ProvenanceClass) : list ProvenanceField :=
  match c with
  | PARSER => [F_trace_ids]
  | DISTILLER => [F_trace_ids]
  | HUMAN_VERDICT => [F_verdict_id]
  | PROPOSAL => [F_run_id]
  | OPERATOR => [F_principal]
  end.

(** [_is_absent(getattr(p, name))]: [None] and empty collections are both absent. *)
Definition is_absent (p : Provenance) (f : ProvenanceField) : bool :=
  match f with
  | F_trace_ids => bool_decide (trace_ids p = [])
  | F_verdict_id => bool_decide (verdict_id p = None)
  | F_run_id => bool_decide (run_id p = None)
  | F_principal => bool_decide (principal p = None)
  end.

(** The error carries the [missing] list the message names. *)
Definition validate_provenance (p : Provenance) : result (exn * list ProvenanceField) unit :=
  let missing := List.filter (is_absent p) (REQUIRED_PROVENANCE_FIELDS (cls p)) in
  match missing with
  | [] => Ok tt
  | _ => Err (ProvenanceIncomplete, missing)
  end.

Definition bytes_hex (bs : list Z) : pystr := concat (map (hex_pad 2) bs).

(** [bytes.fromhex]: ASCII whitespace is skipped between bytes. *)
Fixpoint bytes_fromhex (s : pystr) : result exn (list Z) :=
  match s with
  | [] => Ok []
  | c :: s' =>
      if ((9 <=? c) && (c <=? 13)) || (c =? 32) then bytes_fromhex s'
      else match s' with
           | [] => Err ValueError
           | d :: s'' =>
               match hex_val c, hex_val d with
               | Some hi, Some lo => let! rest := bytes_fromhex s'' in Ok (hi * 16 + lo :: rest)
               | _, _ => Err ValueError
               end
           end
  end.

Definition nonempty_entry {A} (key : string) (l : list A) (v : list A → json) :
    list (pystr * json) :=
  match l with [] => [] | _ => [(of_ascii key, v l)] end.

Definition optional_entry {A} (key : string) (o : option A) (v : A → json) : list (pystr * json) :=
  match o with None => [] | Some x => [(of_ascii key, v x)] end.

Definition to_json (p : Provenance) : list (pystr * json) :=
  [(of_ascii "class", JStr (of_ascii (ProvenanceClass_value (cls p))))]
  ++ nonempty_entry "trace_ids" (trace_ids p)
       (λ ts, JArr (map (λ t, JStr (uuid_str (RunId_value t))) ts))
  ++ optional_entry "verdict_id" (verdict_id p) (λ v, JStr (uuid_str v))
  ++ nonempty_entry "tool_refs" (tool_refs p) (λ ts, JArr (map JStr ts))
  ++ nonempty_entry "input_sig_hashes" (input_sig_hashes p)
       (λ hs, JArr (map (λ h, JStr (bytes_hex h)) hs))
  ++ optional_entry "run_id" (run_id p) (λ r, JStr (uuid_str (RunId_value r)))
  ++ optional_entry "principal" (principal p) (λ x, JStr (uuid_str (PrincipalId_value x))).

(** [ProvenanceClass(value)]: only the five string values are members. *)
Definition all_classes : list ProvenanceClass :=
  [PARSER; DISTILLER; HUMAN_VERDICT; PROPOSAL; OPERATOR].
Definition ProvenanceClass_of (v : json) : option ProvenanceClass :=
  match v with
  | JStr s => find (λ c, bool_decide (of_ascii (ProvenanceClass_value c) = s)) all_classes
  | _ => None
  end.

Definition uuid_new (s : pystr) : result exn uuid :=
  match uuid_parse s with Some u => Ok u | None => Err ValueError end.

Section FromJson.
(** [repr] of a nested list or dict. *)
Variable repr_container : json → pystr.

Definition py_str (v : json) : pystr :=
  match v with
  | JNull => of_ascii "None"
  | JBool true => of_ascii "True"
  | JBool false => of_ascii "False"
  | JInt n => dec_str n
  | JStr s => s
  | JArr _ | JObj _ => repr_container v
  end.

(** [_seq(key)]: falsy values are empty, other non-list values are refused. *)
Definition seq_of (raw : list (pystr * json)) (key : string) : result exn (list json) :=
  match dict_get raw (of_ascii key) with
  | None | Some JNull | Some (JBool false) | Some (JStr []) | Some (JObj []) => Ok []
  | Some (JInt n) => if n =? 0 then Ok [] else Err ProvenanceIncomplete
  | Some (JArr l) => Ok l
  | Some _ => Err ProvenanceIncomplete
  end.

(** [f(str(v)) if v is not None else None]. *)
Definition opt_of {A} (raw : list (pystr * json)) (key : string)
    (f : pystr → result exn A) : result exn (option A) :=
  match dict_get raw (of_ascii key) with
  | None | Some JNull => Ok None
  | Some v => let! x := f (py_str v) in Ok (Some x)
  end.

Definition from_json (raw : list (pystr * json)) : result exn Provenance :=
  match dict_get raw (of_ascii "class") with
  | None => Err ProvenanceIncomplete
  | Some c =>
      match ProvenanceClass_of c with
      | None => Err ProvenanceIncomplete
      | Some klass =>
          let! ts0 := seq_of raw "trace_ids" in
          let! ts := rmap (λ t, let! u := uuid_new (py_str t) in Ok (mkRunId u)) ts0 in
          let! v := opt_of raw "verdict_id" uuid_new in
          let! tr0 := seq_of raw "tool_refs" in
          let! hs0 := seq_of raw "input_sig_hashes" in
          let! hs := rmap (λ h, bytes_fromhex (py_str h)) hs0 in
          let! r := opt_of raw "run_id" (λ s, let! u := uuid_new s in Ok (mkRunId u)) in
          let! p := opt_of raw "principal" (λ s, let! u := uuid_new s in Ok (mkPrincipalId u)) in
          Ok (mkProvenance klass ts v (map py_str tr0) hs r p)
      end
  end.
End FromJson.

(** ** [NewMemoryItem] and its [__post_init__] *)

Record NewMemoryItem := mkItem {
  scope_type : ScopeType;
  scope_id : option uuid;
  item_mem_type : MemType;
  kind : pystr;
  lane : Lane;
  item_tier : TrustTier;
  status : Status;
  content : pystr;
  token_count : Z;
  provenance : Provenance;
  subject_tag : option pystr;
  cluster_id : option uuid;
  ttl_class : option pystr;
  valid_from : option datetime;
  valid_to : option datetime;
  schema_version : Z;
  item_id : option MemoryId;
  extra : list (pystr * json);
}.

Inductive item_error := ItemStatus (e : transition_error) | ItemValue (e : exn).

Definition item_post_init (m : NewMemoryItem) : result item_error NewMemoryItem :=
  match assert_legal_creation_status (status m) with
  | Err e => Err (ItemStatus e)
  | Ok _ =>
      let shared := bool_decide (scope_type m = PROJECT_SHARED) in
      let unscoped := bool_decide (scope_id m = None) in
      if negb shared && unscoped then Err (ItemValue ValueError)
      else if shared && negb unscoped then Err (ItemValue ValueError)
      else if token_count m <? 0 then Err (ItemValue ValueError)
      else if py_blank (content m) then Err (ItemValue ValueError)
      else Ok m
  end.

(** ** Scope visibility (domain/visibility.py) *)

Record RunVisibility := mkVisibility {
  agent_type_id : AgentTypeId;
  workflow_template_id : option uuid;
  user_scope_id : option uuid;
}.

Definition opt_eqb (a b : option uuid) : bool :=
  match a, b with Some x, Some y => bool_decide (x = y) | _, _ => false end.

Definition scope_visible (st : ScopeType) (sid : option uuid) (v : RunVisibility) : bool :=
  match st with
  | PROJECT_SHARED => true
  | AGENT_TYPE => opt_eqb sid (Some (AgentTypeId_value (agent_type_id v)))
  | WORKFLOW_TEMPLATE => opt_eqb sid (workflow_template_id v)
  | USER => opt_eqb sid (user_scope_id v)
  end.

(** ** Subject tags (domain/subject_tags.py) *)

Definition PROJECT_SUBJECT_TAG : pystr := of_ascii "__project__".
Definition MAX_SUBJECT_TAG_SCALARS : Z := 128.
Definition MAX_SUBJECT_TAG_UTF8_BYTES : Z := 512.

Definition control_char (c : Z) : bool :=
  ((0 <=? c) && (c <=? 31)) || ((127 <=? c) && (c <=? 159)).

Definition validate_subject_tag (tag : pystr) (allow_reserved : bool) : result exn pystr :=
  match utf8_encode tag with
  | Err _ => Err ValueError
  | Ok encoded =>
      let n := Z.of_nat (length tag) in
      let b := Z.of_nat (length encoded) in
      if negb ((1 <=? n) && (n <=? MAX_SUBJECT_TAG_SCALARS))
         || negb ((1 <=? b) && (b <=? MAX_SUBJECT_TAG_UTF8_BYTES))
         || (negb (bool_decide (tag = [])) && py_blank tag)
         || existsb control_char tag
      then Err ValueError
      else if negb allow_reserved && bool_decide (tag = PROJECT_SUBJECT_TAG) then Err ValueError
      else Ok tag
  end.

(** ** Lemmas *)

Lemma of_ascii_inj s t : of_ascii s = of_ascii t → s = t.
Proof.
  revert t; induction s as [|c s IH]; intros [|d t]; simpl; try done.
  intros [= Hc Hs]. f_equal; [|by apply IH].
  apply Nat2Z.inj in Hc. by rewrite <-(Ascii.ascii_nat_embedding c), Hc, Ascii.ascii_nat_embedding.
Qed.

Lemma key_eqb s t : bool_decide (of_ascii s = of_ascii t) = String.eqb s t.
Proof.
  destruct (String.eqb_spec s t) as [->|Hne]; [by rewrite bool_decide_eq_true_2|].
  apply bool_decide_eq_false_2. intros ?%of_ascii_inj. done.
Qed.

Lemma dict_get_cons s (v : json) k : dict_get [(of_ascii s, v)] (of_ascii k) = if String.eqb s k then Some v else None.
Proof. simpl. by rewrite key_eqb. Qed.

Lemma dict_get_nonempty {A} s (l : list A) v k :
  dict_get (nonempty_entry s l v) (of_ascii k)
  = if String.eqb s k then match l with [] => None | _ => Some (v l) end else None.
Proof. destruct l; [by destruct (String.eqb s k)|]. apply dict_get_cons. Qed.

Lemma dict_get_optional {A} s (o : option A) v k :
  dict_get (optional_entry s o v) (of_ascii k)
  = if String.eqb s k then v <$> o else None.
Proof. destruct o; [apply dict_get_cons|by destruct (String.eqb s k)]. Qed.

(** Every key of [to_json] reads back its own entry. *)
Ltac read_back := intros; unfold to_json; rewrite !dict_get_app, dict_get_cons, !dict_get_nonempty,
  !dict_get_optional; cbn [String.eqb Ascii.eqb Bool.eqb]; by repeat case_match.

Lemma get_class p :
  dict_get (to_json p) (of_ascii "class") = Some (JStr (of_ascii (ProvenanceClass_value (cls p)))).
Proof. read_back. Qed.
Lemma get_trace_ids p :
  dict_get (to_json p) (of_ascii "trace_ids")
  = match trace_ids p with
    | [] => None
    | _ => Some (JArr (map (λ t, JStr (uuid_str (RunId_value t))) (trace_ids p)))
    end.
Proof. read_back. Qed.
Lemma get_verdict_id p :
  dict_get (to_json p) (of_ascii "verdict_id") = (λ v, JStr (uuid_str v)) <$> verdict_id p.
Proof. read_back. Qed.
Lemma get_tool_refs p :
  dict_get (to_json p) (of_ascii "tool_refs")
  = match tool_refs p with [] => None | _ => Some (JArr (map JStr (tool_refs p))) end.
Proof. read_back. Qed.
Lemma get_hashes p :
  dict_get (to_json p) (of_ascii "input_sig_hashes")
  = match input_sig_hashes p with
    | [] => None
    | _ => Some (JArr (map (λ h, JStr (bytes_hex h)) (input_sig_hashes p)))
    end.
Proof. read_back. Qed.
Lemma get_run_id p :
  dict_get (to_json p) (of_ascii "run_id") = (λ r, JStr (uuid_str (RunId_value r))) <$> run_id p.
Proof. read_back. Qed.
Lemma get_principal p :
  dict_get (to_json p) (of_ascii "principal")
  = (λ x, JStr (uuid_str (PrincipalId_value x))) <$> principal p.
Proof. read_back. Qed.

Lemma seq_of_entry {A} raw key (l : list A) f :
  dict_get raw (of_ascii key) = match l with [] => None | _ => Some (JArr (map f l)) end →
  seq_of raw key = Ok (map f l).
Proof. unfold seq_of. intros ->. by destruct l. Qed.

Lemma opt_of_entry {A} repr raw key (o : option A) (f : A → pystr) g :
  dict_get raw (of_ascii key) = (λ x, JStr (f x)) <$> o → (∀ x, g (f x) = Ok x) →
  opt_of repr raw key g = Ok o.
Proof. unfold opt_of. intros -> Hg. destruct o; simpl; [by rewrite Hg|done]. Qed.

Lemma rmap_map {E A B C} (f : B → result E C) (g : A → B) (h : A → C) l :
  Forall (λ x, f (g x) = Ok (h x)) l → rmap f (map g l) = Ok (map h l).
Proof. induction 1 as [|x l Hx Hl IH]; simpl; [done|]. rewrite Hx; simpl. by rewrite IH. Qed.

Lemma uuid_new_str u : uuid_new (uuid_str u) = Ok u.
Proof. unfold uuid_new. by rewrite uuid_parse_str. Qed.

Lemma run_id_read t : (let! u := uuid_new (uuid_str (RunId_value t)) in Ok (mkRunId u)) = Ok t.
Proof. rewrite uuid_new_str. by destruct t. Qed.
Lemma principal_read t :
  (let! u := uuid_new (uuid_str (PrincipalId_value t)) in Ok (mkPrincipalId u)) = Ok t.
Proof. rewrite uuid_new_str. by destruct t. Qed.

Lemma hex_char_not_space d :
  0 ≤ d < 16 → ((9 <=? hex_char d) && (hex_char d <=? 13)) || (hex_char d =? 32) = false.
Proof.
  intros. unfold hex_char. case_match;
    rewrite (proj2 (Z.leb_gt _ 13)), (proj2 (Z.eqb_neq _ 32)), andb_false_r by lia; done.
Qed.

Lemma bytes_fromhex_pair c d s hi lo :
  ((9 <=? c) && (c <=? 13)) || (c =? 32) = false → hex_val c = Some hi → hex_val d = Some lo →
  bytes_fromhex (c :: d :: s) = let! rest := bytes_fromhex s in Ok (hi * 16 + lo :: rest).
Proof. intros Hs Hc Hd. simpl. by rewrite Hs, Hc, Hd. Qed.

Lemma bytes_fromhex_hex bs : Forall (λ b, 0 ≤ b < 256) bs → bytes_fromhex (bytes_hex bs) = Ok bs.
Proof.
  induction 1 as [|b bs Hb Hbs IH]; [done|].
  assert (Hhi : 0 ≤ b / 16 < 16) by (split; [apply Z.div_pos|apply Z.div_lt_upper_bound]; lia).
  pose proof (Z.mod_pos_bound b 16 ltac:(lia)) as Hlo.
  assert (Hm : (b / 16) mod 16 = b / 16) by (apply Z.mod_small; lia).
  change (bytes_hex (b :: bs)) with (hex_pad 2 b ++ bytes_hex bs). cbn [hex_pad app]. rewrite Hm.
  rewrite (bytes_fromhex_pair _ _ _ (b / 16) (b mod 16)), IH; simpl;
    [|by apply hex_char_not_space|by apply hex_val_char..].
  do 2 f_equal. pose proof (Z.div_mod b 16). lia.
Qed.

Lemma ProvenanceClass_of_value c :
  ProvenanceClass_of (JStr (of_ascii (ProvenanceClass_value c))) = Some c.
Proof. by destruct c. Qed.

Lemma utf8_char_length c bs : utf8_char c = Ok bs → (1 ≤ length bs ≤ 4)%nat.
Proof. unfold utf8_char. intros H. repeat case_match; try discriminate; injection H as <-; simpl; lia. Qed.

Lemma py_blank_false s : py_blank s = false ↔ ∃ c, c ∈ s ∧ py_isspace c = false.
Proof.
  unfold py_blank. induction s as [|c s IH]; simpl.
  - split; [done|]. by intros (c & Hc%not_elem_of_nil & _).
  - destruct (py_isspace c) eqn:Hc; simpl.
    + rewrite IH. split; intros (d & Hd & ?); exists d; (split; [|done]); [by right|].
      apply elem_of_cons in Hd as [->|?]; [congruence|done].
    + split; [|done]. intros _. exists c. split; [left|done].
Qed.

Definition is_surrogate (c : Z) : Prop := 0xD800 ≤ c ≤ 0xDFFF.

Lemma utf8_char_ok c : (∃ bs, utf8_char c = Ok bs) ↔ ¬ is_surrogate c.
Proof.
  unfold utf8_char, is_surrogate. split.
  - intros [bs H]. repeat case_match; try discriminate; bsplit;
      rewrite ?Z.ltb_lt, ?Z.ltb_ge, ?andb_false_iff, ?Z.leb_gt in *; lia.
  - intros Hs. repeat case_match; eauto. bsplit. rewrite !Z.leb_le in *. lia.
Qed.

(** A strictly encodable string has between one and four bytes per code point. *)
Lemma utf8_encode_length s bs :
  utf8_encode s = Ok bs → (length s ≤ length bs ≤ 4 * length s)%nat.
Proof.
  unfold utf8_encode. rewrite rbind_Ok. intros (parts & Hp & Hbs). injection Hbs as <-.
  apply rmap_Ok in Hp. induction Hp as [|c p s parts Hc _ IH]; simpl; [lia|].
  rewrite length_app. apply utf8_char_length in Hc. lia.
Qed.

Lemma utf8_encode_ok s : (∃ bs, utf8_encode s = Ok bs) ↔ Forall (λ c, ¬ is_surrogate c) s.
Proof.
  unfold utf8_encode. setoid_rewrite rbind_Ok. setoid_rewrite rmap_Ok. split.
  - intros (bs & parts & Hp & _). induction Hp; constructor; [apply utf8_char_ok; eauto|done].
  - induction 1 as [|c s Hc _ (bs & parts & Hp & _)]; [by exists [], []; repeat constructor|].
    apply utf8_char_ok in Hc as [b Hb]. eexists _, (b :: parts).
    split; [by constructor|reflexivity].
Qed.

Lemma from_to_json repr p :
  Forall (Forall (λ b, 0 ≤ b < 256)) (input_sig_hashes p) → from_json repr (to_json p) = Ok p.
Proof.
  intros Hb. unfold from_json. rewrite get_class, ProvenanceClass_of_value.
  rewrite (seq_of_entry _ _ _ _ (get_trace_ids p)). cbn [rbind].
  rewrite (rmap_map _ _ id); [|apply Forall_true; exact run_id_read].
  cbn [rbind]. rewrite (opt_of_entry _ _ _ _ _ _ (get_verdict_id p) uuid_new_str). cbn [rbind].
  rewrite (seq_of_entry _ _ _ _ (get_tool_refs p)). cbn [rbind].
  rewrite (seq_of_entry _ _ _ _ (get_hashes p)). cbn [rbind].
  rewrite (rmap_map _ _ id); [|eapply Forall_impl; [exact Hb|]; intros h; apply bytes_fromhex_hex].
  cbn [rbind]. rewrite (opt_of_entry _ _ _ _ _ _ (get_run_id p) run_id_read).
  cbn [rbind]. rewrite (opt_of_entry _ _ _ _ _ _ (get_principal p) principal_read).
  cbn [rbind]. rewrite map_map, !map_id. by destruct p.
Qed.

(** ** Properties *)

(** The persisted provenance survives its round trip: [from_json (to_json p)] rebuilds
    [p] exactly, for every class and every combination of present and absent fields (the
    signature hashes being bytes), whatever [repr] does. *)
Lemma provenance_json_roundtrip repr p :
  Forall (Forall (λ b, 0 ≤ b < 256)) (input_sig_hashes p) → from_json repr (to_json p) = Ok p.
Proof. apply from_to_json. Qed.

Definition provenance_ex : Provenance :=
  mkProvenance DISTILLER [mkRunId (mkUUID 7 I)] None [of_ascii "search"] [[0; 171; 255]]
    (Some (mkRunId (mkUUID 9 I))) (Some (mkPrincipalId (mkUUID 11 I))).

Lemma provenance_json_roundtrip_witness :
  from_json (λ _, []) (to_json provenance_ex) = Ok provenance_ex.
Proof.
  apply (provenance_json_roundtrip (λ _, []) provenance_ex). repeat constructor; lia.
Defined.

(** The evidence pointer each class must carry. *)
Definition points_at_evidence (p : Provenance) : Prop :=
  match cls p with
  | PARSER | DISTILLER => trace_ids p ≠ []
  | HUMAN_VERDICT => is_Some (verdict_id p)
  | PROPOSAL => is_Some (run_id p)
  | OPERATOR => is_Some (principal p)
  end.

(** Provenance-complete-or-rejected: [validate_provenance] accepts exactly the values
    that carry the evidence pointer of their class, and a rejection names exactly the
    required fields that are absent; the verdict is the same on the rehydrated row. *)
Lemma validate_provenance_exact repr p :
  (validate_provenance p = Ok tt ↔ points_at_evidence p)
  ∧ (∀ e missing, validate_provenance p = Err (e, missing) →
       e = ProvenanceIncomplete
       ∧ ∀ f, f ∈ missing ↔ f ∈ REQUIRED_PROVENANCE_FIELDS (cls p) ∧ is_absent p f = true)
  ∧ (Forall (Forall (λ b, 0 ≤ b < 256)) (input_sig_hashes p) →
       ∀ q, from_json repr (to_json p) = Ok q → validate_provenance q = validate_provenance p).
Proof.
  split_and!.
  - unfold validate_provenance, points_at_evidence, is_absent.
    destruct p as [[] ts v tr hs r pr]; simpl; case_bool_decide; simpl;
      rewrite <-?not_eq_None_Some; naive_solver.
  - unfold validate_provenance. intros e missing. case_match eqn:Hm; [done|].
    intros [= <- <-]. split; [done|]. intros f. rewrite <-Hm, !list_elem_of_In, filter_In. done.
  - intros Hb q Hq. assert (q = p) as ->; [|done]. clear -Hb Hq.
    revert q Hq. intros q. rewrite from_to_json by done. by intros [= <-].
Qed.

(** The construction door of the store: an item can be built only with a creation
    status (so never [VALIDATED]), a scope id exactly when it is not project-shared, a
    non-negative token count and content that is not blank. *)
Lemma new_memory_item_exact m :
  item_post_init m = Ok m ↔
  (status m = CANDIDATE ∨ status m = QUARANTINED ∨ status m = PINNED)
  ∧ (scope_id m = None ↔ scope_type m = PROJECT_SHARED)
  ∧ 0 ≤ token_count m ∧ ∃ c, c ∈ content m ∧ py_isspace c = false.
Proof.
  rewrite <-py_blank_false, <-legal_creation_iff. unfold item_post_init.
  destruct (assert_legal_creation_status (status m)) as [[]|e]; [|naive_solver].
  case_bool_decide as Hs; case_bool_decide as Hi; cbn [negb andb]; [|naive_solver..|].
  all: destruct (Z.ltb_spec (token_count m) 0); [split; [done|]; intros (_ & _ & ? & _); lia|].
  all: destruct (py_blank (content m)); naive_solver.
Qed.

(** The reference of the run that a scope type is compared with. *)
Definition run_reference (st : ScopeType) (v : RunVisibility) : option uuid :=
  match st with
  | PROJECT_SHARED => None
  | AGENT_TYPE => Some (AgentTypeId_value (agent_type_id v))
  | WORKFLOW_TEMPLATE => workflow_template_id v
  | USER => user_scope_id v
  end.

Lemma scope_visible_spec st sid v :
  scope_visible st sid v = true ↔
  st = PROJECT_SHARED ∨ st ≠ PROJECT_SHARED ∧ ∃ u, sid = Some u ∧ run_reference st v = Some u.
Proof.
  destruct st, sid; unfold scope_visible, opt_eqb, run_reference; simpl; repeat case_match;
    rewrite ?bool_decide_eq_true; naive_solver.
Qed.

(** Scope isolation: a constructed item that is not project-shared is visible to a run
    exactly when the run carries the owner's own reference of that scope type, so two runs
    that both see it share that reference, and a run whose workflow or user reference is
    unresolved ([None]) sees no item of that scope. *)
Lemma scope_isolation m v :
  item_post_init m = Ok m → scope_type m ≠ PROJECT_SHARED →
  ∃ owner, scope_id m = Some owner
    ∧ (scope_visible (scope_type m) (scope_id m) v = true
       ↔ run_reference (scope_type m) v = Some owner)
    ∧ (run_reference (scope_type m) v = None → scope_visible (scope_type m) (scope_id m) v = false)
    ∧ ∀ v', scope_visible (scope_type m) (scope_id m) v = true →
       scope_visible (scope_type m) (scope_id m) v' = true →
       run_reference (scope_type m) v = run_reference (scope_type m) v'.
Proof.
  intros Hm Hns. destruct (scope_id m) as [owner|] eqn:Hid.
  - assert (Hv : ∀ w, scope_visible (scope_type m) (Some owner) w = true
                     ↔ run_reference (scope_type m) w = Some owner).
    { intros w. rewrite scope_visible_spec. naive_solver. }
    exists owner. rewrite <-not_true_iff_false. setoid_rewrite Hv.
    split_and!; [done|done|congruence|congruence].
  - exfalso. unfold item_post_init in Hm. rewrite Hid in Hm. case_match; [|done].
    rewrite (bool_decide_eq_false_2 _ Hns) in Hm. done.
Qed.

Definition item_ex : NewMemoryItem :=
  mkItem USER (Some (mkUUID 4 I)) PREFERENCE (of_ascii "tone") QUALITY TierB QUARANTINED
    (of_ascii "terse") 3 provenance_ex None None None None None 1 None [].

Lemma scope_isolation_witness :
  ∃ owner, scope_id item_ex = Some owner
    ∧ (scope_visible USER (scope_id item_ex) (mkVisibility (mkAgentTypeId (mkUUID 4 I)) None None)
       = true ↔ run_reference USER (mkVisibility (mkAgentTypeId (mkUUID 4 I)) None None) = Some owner).
Proof.
  destruct (scope_isolation item_ex (mkVisibility (mkAgentTypeId (mkUUID 4 I)) None None))
    as (owner & H1 & H2 & _); [reflexivity|discriminate|].
  exists owner. split; [exact H1|exact H2].
Defined.

(** Subject tags: a tag is accepted, unchanged, exactly when it has 1 to 128 code points,
    none of them a surrogate or a control character, is not all whitespace and is not the
    reserved project tag (unless allowed).  The 512-byte bound excludes nothing more. *)
Lemma validate_subject_tag_exact tag allow t :
  validate_subject_tag tag allow = Ok t ↔
  t = tag ∧ (1 ≤ length tag ≤ 128)%nat ∧ Forall (λ c, ¬ is_surrogate c) tag
  ∧ Forall (λ c, control_char c = false) tag ∧ (∃ c, c ∈ tag ∧ py_isspace c = false)
  ∧ (allow = true ∨ tag ≠ PROJECT_SUBJECT_TAG).
Proof.
  rewrite <-utf8_encode_ok, <-py_blank_false.
  assert (Hctl : existsb control_char tag = false ↔ Forall (λ c, control_char c = false) tag).
  { induction tag; simpl; [by split|]. rewrite orb_false_iff, Forall_cons. by rewrite IHtag. }
  rewrite <-Hctl. unfold validate_subject_tag. destruct (utf8_encode tag) as [bs|e] eqn:Hu.
  2: { split; [done|]. by intros (_ & _ & (? & ?) & _). }
  apply utf8_encode_length in Hu. unfold MAX_SUBJECT_TAG_SCALARS, MAX_SUBJECT_TAG_UTF8_BYTES.
  destruct (decide (1 ≤ length tag ≤ 128)%nat) as [Hlen|Hlen].
  - rewrite !(proj2 (Z.leb_le _ _)) by lia. cbn [negb andb orb].
    rewrite bool_decide_eq_false_2 by (intros ->; simpl in *; lia). cbn [negb andb].
    destruct (py_blank tag), (existsb control_char tag), allow; simpl;
      try case_bool_decide; naive_solver.
  - replace ((1 <=? Z.of_nat (length tag)) && (Z.of_nat (length tag) <=? 128)) with false.
    + split; [done|naive_solver].
    + symmetry. apply andb_false_iff. rewrite !Z.leb_gt. lia.
Qed.
