(* ===== verification/ShadowValidator.v ===== *)
(** * Shadow validation: resolving confirmations and leaving quarantine

    Models workers/independence.py ([build_confirmations], [independent_of],
    [count_independent]) and workers/shadow_validator.py ([origin_runs],
    [ShadowValidator.evaluate_one], [_resolve_confirmations], [run_once], [_require_row]).

    The trace index port is the parameter [lookup]; the repository is the log of the
    [ShadowTransitionWrite]s it was asked to persist; the clock is one reading per row.
    The configuration is the raw [TransitionLimits] projection, validated by
    [limits_post_init] at every evaluation as [TransitionLimits.from_config] does. *)

From Stdlib Require Import Floats.
From S2P Require Import Prelude Domain PyText Signatures Independence StateMachine Memory.
Open Scope Z_scope.

(** ** workers/independence.py *)

Record ConfirmingRun := mkConfirming {
  cr_run_id : RunId;
  cr_principal_id : PrincipalId;
  cr_sig : list Z;
}.

(** The first loop: distinct run ids in order of appearance, stopping at the bound.  [seen]
    holds the same ids as [deduped] (kept in reverse, as [append] is at the far end). *)
Fixpoint dedup_loop (deduped : list RunId) (run_ids : list RunId) : list RunId :=
  match run_ids with
  | [] => rev deduped
  | r :: rest =>
      if bool_decide (r ∈ deduped) then dedup_loop deduped rest
      else
        let deduped := r :: deduped in
        if (MAX_CONFIRMATIONS_CONSIDERED <=? length deduped)%nat then rev deduped
        else dedup_loop deduped rest
  end.

Section Independence.
Context (lookup : ProjectId → RunId → option ConfirmingRun).

(** The second loop. *)
Fixpoint resolve_loop (project_id : ProjectId) (include_absent_signatures : bool)
    (deduped : list RunId) : result exn (list ShadowConfirmation) :=
  match deduped with
  | [] => Ok []
  | r :: rest =>
      match lookup project_id r with
      | None => resolve_loop project_id include_absent_signatures rest
      | Some found =>
          if bool_decide (cr_run_id found ≠ r) then Err TracebedError
          else match make_confirmation (cr_run_id found) (cr_principal_id found) (cr_sig found) with
               | Err _ => resolve_loop project_id include_absent_signatures rest
               | Ok c =>
                   if negb include_absent_signatures && is_absent_signature (sc_sig c)
                   then resolve_loop project_id include_absent_signatures rest
                   else let! cs := resolve_loop project_id include_absent_signatures rest in
                        Ok (c :: cs)
               end
      end
  end.

Definition build_confirmations (project_id : ProjectId) (run_ids : list RunId)
    (include_absent_signatures : bool) : result exn (list ShadowConfirmation) :=
  resolve_loop project_id include_absent_signatures (dedup_loop [] run_ids).

Definition count_independent (project_id : ProjectId) (run_ids : list RunId)
    (at_least : option Z) : result exn Z :=
  let! cs := build_confirmations project_id run_ids false in
  Ok (independent_confirmations cs at_least).
End Independence.

Definition independent_of (a b : ShadowConfirmation) : bool :=
  if is_absent_signature (sc_sig a) || is_absent_signature (sc_sig b) then false
  else 2 <=? independent_confirmations [a; b] (Some 2).

(** ** workers/shadow_validator.py *)

Record QuarantinedMemoryRow := mkQRow {
  q_id : MemoryId;
  q_project_id : ProjectId;
  q_status : Status;
  q_trust_tier : TrustTier;
  q_mem_type : MemType;
  q_provenance : Provenance;
  q_status_changed_at : option datetime;
  q_is_failure_lesson : bool;
  q_confirming_run_ids : list RunId;
}.

Record ShadowTransitionWrite := mkShadowWrite {
  w_memory_id : MemoryId;
  w_from_status : Status;
  w_to_status : Status;
  w_now : datetime;
  w_epoch_id : Z;
}.

Record ShadowValidationOutcome := mkShadowOutcome {
  o_memory_id : MemoryId;
  o_promoted : bool;
  o_to_status : option Status;
  o_independent_count : Z;
  o_reason : option GuardReason;
}.

Record ShadowValidationBatchResult := mkShadowBatch {
  rows_examined : nat;
  outcomes : list ShadowValidationOutcome;
}.

Inductive shadow_error := ShadowExn (e : exn) | ShadowIllegal (e : transition_error).

Definition lift_exn {A} (r : result exn A) : result shadow_error A :=
  match r with Ok a => Ok a | Err e => Err (ShadowExn e) end.

Definition origin_runs (p : Provenance) : gset RunId :=
  list_to_set (trace_ids p) ∪ match run_id p with Some r => {[r]} | None => ∅ end.

Definition require_row (row : QuarantinedMemoryRow) (project_id : ProjectId) : result exn unit :=
  check! bool_decide (q_project_id row = project_id) else TracebedError in
  check! bool_decide (q_status row = QUARANTINED) else TracebedError in
  Ok tt.

(** [sorted(origins, key=str)]. *)
Definition run_id_leb (a b : RunId) : bool :=
  str_leb (uuid_str (RunId_value a)) (uuid_str (RunId_value b)).
Definition sorted_origins (origins : gset RunId) : list RunId :=
  py_sorted run_id_leb (elements origins).

Section Validator.
Context (lookup : ProjectId → RunId → option ConfirmingRun) (epoch_id : Z).

Definition resolve_confirmations (project_id : ProjectId) (row : QuarantinedMemoryRow) :
    result exn (list ShadowConfirmation) :=
  if bool_decide (cls (q_provenance row) = PROPOSAL) then Ok []
  else
    let origins := origin_runs (q_provenance row) in
    let offered := filter (λ r, r ∉ origins) (q_confirming_run_ids row) in
    match offered with
    | [] => Ok []
    | _ =>
        let! cs := build_confirmations lookup project_id offered false in
        let! os := build_confirmations lookup project_id (sorted_origins origins) true in
        match os with
        | [] => Ok cs
        | _ => Ok (List.filter (λ c, forallb (independent_of c) os) cs)
        end
    end.

(** The evidence [evaluate_one] assembles; the fields it does not set have their defaults. *)
Definition shadow_evidence (n : datetime) (row : QuarantinedMemoryRow)
    (cs : list ShadowConfirmation) : TransitionEvidence :=
  let verdict := bool_decide (cls (q_provenance row) = HUMAN_VERDICT)
                 && negb (bool_decide (verdict_id (q_provenance row) = None)) in
  mkEvidence n (cls (q_provenance row)) (q_trust_tier row) (q_mem_type row)
    (q_is_failure_lesson row) false false false (q_status_changed_at row) cs verdict
    0 0 false false false false false false false false false 0 0%float 0 0
    false false false false.

(** One evaluation: the outcome or the exception, and the writes persisted. *)
Definition evaluate_one (project_id : ProjectId) (row : QuarantinedMemoryRow)
    (cfg : TransitionLimits) (n : datetime) :
    result shadow_error ShadowValidationOutcome * list ShadowTransitionWrite :=
  let decision :=
    let! _ := lift_exn (require_row row project_id) in
    let! limits := lift_exn (limits_post_init cfg) in
    let! cs := lift_exn (resolve_confirmations project_id row) in
    let! evidence := lift_exn (evidence_post_init (shadow_evidence n row cs)) in
    Ok (independent_confirmations cs None, apply (Some (q_status row)) CANDIDATE evidence limits) in
  match decision with
  | Err e => (Err e, [])
  | Ok (independent, Ok new_status) =>
      (Ok (mkShadowOutcome (q_id row) true (Some new_status) independent None),
       [mkShadowWrite (q_id row) (q_status row) new_status n epoch_id])
  | Ok (independent, Err (GuardNotSatisfied _ _ why)) =>
      (Ok (mkShadowOutcome (q_id row) false None independent why), [])
  | Ok (_, Err e) => (Err (ShadowIllegal e), [])
  end.

(** The comprehension of [run_once]: rows in order, stopping at the first exception; what
    was persisted before it stays persisted.  [clock] gives the reading of each call. *)
Fixpoint evaluate_rows (project_id : ProjectId) (cfg : TransitionLimits) (clock : nat → datetime)
    (i : nat) (rows : list QuarantinedMemoryRow) :
    result shadow_error (list ShadowValidationOutcome) * list ShadowTransitionWrite :=
  match rows with
  | [] => (Ok [], [])
  | row :: rest =>
      match evaluate_one project_id row cfg (clock i) with
      | (Err e, ws) => (Err e, ws)
      | (Ok o, ws) =>
          let '(r, ws') := evaluate_rows project_id cfg clock (S i) rest in
          (let! os := r in Ok (o :: os), ws ++ ws')
      end
  end.

Definition run_once (select_quarantined : ProjectId → list QuarantinedMemoryRow)
    (project_id : ProjectId) (cfg : TransitionLimits) (clock : nat → datetime) :
    result shadow_error ShadowValidationBatchResult * list ShadowTransitionWrite :=
  let rows := select_quarantined project_id in
  let '(r, ws) := evaluate_rows project_id cfg clock 0 rows in
  (let! os := r in Ok (mkShadowBatch (length rows) os), ws).
End Validator.

(** ** Lemmas *)

(** Reference definitions: the first occurrences of a list, and what one considered run
    contributes. *)
Fixpoint first_occurrences (l : list RunId) : list RunId :=
  match l with
  | [] => []
  | r :: l' => r :: filter (λ x, x ≠ r) (first_occurrences l')
  end.

Lemma elem_of_first_occurrences r l : r ∈ first_occurrences l ↔ r ∈ l.
Proof.
  induction l as [|x l IH]; simpl; [done|]. rewrite !elem_of_cons, list_elem_of_filter, IH.
  destruct (decide (r = x)); naive_solver.
Qed.

Lemma NoDup_first_occurrences l : NoDup (first_occurrences l).
Proof.
  induction l as [|x l IH]; simpl; constructor.
  - rewrite list_elem_of_filter. naive_solver.
  - by apply NoDup_filter.
Qed.

Lemma dedup_loop_spec l : ∀ acc, (length acc < MAX_CONFIRMATIONS_CONSIDERED)%nat →
  dedup_loop acc l
  = take MAX_CONFIRMATIONS_CONSIDERED (rev acc ++ filter (λ x, x ∉ acc) (first_occurrences l)).
Proof.
  induction l as [|r l IH]; intros acc Hacc; cbn [dedup_loop first_occurrences].
  - rewrite filter_nil, app_nil_r, take_ge; [done|]. rewrite length_rev. lia.
  - case_bool_decide as Hr.
    + rewrite IH by done. do 2 f_equal. rewrite filter_cons_False by tauto.
      rewrite list_filter_filter. apply list_filter_iff. intros x. naive_solver.
    + assert (Hf : filter (λ x, x ∉ acc) (r :: filter (λ x, x ≠ r) (first_occurrences l))
                   = r :: filter (λ x, x ∉ r :: acc) (first_occurrences l)).
      { rewrite filter_cons_True by done. f_equal. rewrite list_filter_filter.
        apply list_filter_iff. intros x. rewrite elem_of_cons. naive_solver. }
      rewrite Hf, cons_middle, app_assoc. change (rev acc ++ [r]) with (rev (r :: acc)).
      destruct (Nat.leb_spec MAX_CONFIRMATIONS_CONSIDERED (length (r :: acc))) as [Hlen|Hlen].
      * rewrite take_app_length'; [done|]. rewrite length_rev. cbn [length] in *. lia.
      * by apply IH.
Qed.

(** The runs [build_confirmations] resolves. *)
Definition considered (runs : list RunId) : list RunId :=
  take MAX_CONFIRMATIONS_CONSIDERED (first_occurrences runs).

Lemma dedup_considered runs : dedup_loop [] runs = considered runs.
Proof.
  rewrite dedup_loop_spec by (unfold MAX_CONFIRMATIONS_CONSIDERED; simpl; lia).
  unfold considered. simpl rev. rewrite app_nil_l. f_equal.
  rewrite (list_filter_iff _ (λ _, True)) by (intros; split; [done|intros _; apply not_elem_of_nil]).
  induction (first_occurrences runs) as [|x l IH]; [done|]. rewrite filter_cons_True by done. by f_equal.
Qed.

Section ResolveLemmas.
Context (lookup : ProjectId → RunId → option ConfirmingRun) (pid : ProjectId).

(** The port answered for the run it was asked about. *)
Definition honest (r : RunId) : bool :=
  match lookup pid r with None => true | Some f => bool_decide (cr_run_id f = r) end.

(** What one run contributes: nothing if unknown, malformed, or (for evidence) absent. *)
Definition contribution (keep_absent : bool) (r : RunId) : option ShadowConfirmation :=
  f ← lookup pid r;
  match make_confirmation r (cr_principal_id f) (cr_sig f) with
  | Err _ => None
  | Ok c => if negb keep_absent && is_absent_signature (sc_sig c) then None else Some c
  end.

Lemma resolve_loop_spec keep l :
  resolve_loop lookup pid keep l
  = if forallb honest l then Ok (omap (contribution keep) l) else Err TracebedError.
Proof.
  induction l as [|r l IH]; [done|]. cbn [resolve_loop forallb omap list_omap].
  unfold honest at 1, contribution at 1.
  destruct (lookup pid r) as [f|]; cbn [mbind option_bind]; [|exact IH].
  destruct (decide (cr_run_id f = r)) as [<-|H];
    [|by rewrite (bool_decide_eq_true_2 (_ ≠ _)), bool_decide_eq_false_2].
  rewrite (bool_decide_eq_false_2 (_ ≠ _)), bool_decide_eq_true_2 by auto. cbn [andb].
  destruct (make_confirmation _ _ _) as [c|]; [|exact IH].
  destruct (negb keep && _); [exact IH|]. rewrite IH. by destruct (forallb honest l).
Qed.

Lemma build_spec runs keep :
  build_confirmations lookup pid runs keep
  = if forallb honest (considered runs)
    then Ok (omap (contribution keep) (considered runs)) else Err TracebedError.
Proof. unfold build_confirmations. by rewrite dedup_considered, resolve_loop_spec. Qed.

Lemma contribution_spec keep r c :
  contribution keep r = Some c →
  sc_run_id c = r
  ∧ (∃ f, lookup pid r = Some f ∧ sc_principal_id c = cr_principal_id f ∧ sc_sig c = cr_sig f)
  ∧ (keep = false → is_absent_signature (sc_sig c) = false).
Proof.
  unfold contribution. destruct (lookup pid r) as [f|]; cbn [mbind option_bind]; [|done].
  destruct (make_confirmation _ _ _) as [a|] eqn:Hmk; [|done].
  destruct (negb keep && _) eqn:Hab; [done|]. intros [= <-].
  unfold make_confirmation in Hmk. case_match; [|done]. injection Hmk as <-. cbn in *.
  split_and!; [done|by exists f|]. intros Hk. by rewrite Hk in Hab.
Qed.

Lemma build_elem runs keep cs c :
  build_confirmations lookup pid runs keep = Ok cs → c ∈ cs →
  sc_run_id c ∈ runs
  ∧ (∃ f, lookup pid (sc_run_id c) = Some f ∧ sc_principal_id c = cr_principal_id f
          ∧ sc_sig c = cr_sig f)
  ∧ (keep = false → is_absent_signature (sc_sig c) = false).
Proof.
  rewrite build_spec. case_match; [|done]. intros [= <-] (r & Hr & Hc)%list_elem_of_omap.
  apply contribution_spec in Hc as (<- & Hf & Ha). split_and!; [|done..].
  apply elem_of_first_occurrences. eapply elem_of_take in Hr as (? & ? & _).
  by eapply list_elem_of_lookup_2.
Qed.

(** Origins within the bound are all kept, absent or not. *)
Lemma build_complete runs cs r f :
  build_confirmations lookup pid runs true = Ok cs →
  (length (first_occurrences runs) ≤ MAX_CONFIRMATIONS_CONSIDERED)%nat →
  r ∈ runs → lookup pid r = Some f → length (cr_sig f) = SIG_HASH_LEN →
  ∃ c, c ∈ cs ∧ sc_run_id c = r ∧ sc_principal_id c = cr_principal_id f ∧ sc_sig c = cr_sig f.
Proof.
  rewrite build_spec. case_match; [|done]. intros [= <-] Hlen Hr Hf Hsig.
  unfold considered. rewrite take_ge by done.
  assert (∃ c, contribution true r = Some c
               ∧ sc_run_id c = r ∧ sc_principal_id c = cr_principal_id f ∧ sc_sig c = cr_sig f)
    as (c & Hc & ?).
  { unfold contribution. rewrite Hf. cbn [mbind option_bind]. unfold make_confirmation.
    destruct (decide _) as [Hb|Hb]; [by eexists|].
    destruct Hb. by rewrite Hsig. }
  exists c. split; [|done]. apply list_elem_of_omap. exists r. split; [|done].
  by apply elem_of_first_occurrences.
Qed.
End ResolveLemmas.

Lemma independent_of_spec a b :
  independent_of a b = true ↔
  is_absent_signature (sc_sig a) = false ∧ is_absent_signature (sc_sig b) = false
  ∧ compatible a b = true.
Proof.
  unfold independent_of. destruct (is_absent_signature (sc_sig a)); [naive_solver|].
  destruct (is_absent_signature (sc_sig b)); [naive_solver|]. cbn [orb].
  rewrite Z.leb_le, independent_confirmations_quorum, independent_pair by lia.
  change (take MAX_CONFIRMATIONS_CONSIDERED [a; b]) with [a; b]. split.
  - intros (i & j & x & y & Hne & Hi & Hj & Hc).
    assert (i = 0 ∧ j = 1 ∨ i = 1 ∧ j = 0)%nat as [[-> ->]|[-> ->]];
      [|simpl in *; simplify_eq; done|simpl in *; simplify_eq; by rewrite compatible_sym].
    apply lookup_lt_Some in Hi, Hj. simpl in *. lia.
  - intros (_ & _ & Hc). by exists 0%nat, 1%nat, a, b.
Qed.

(** What a resolved confirmation is: offered, not an origin, known to the index with a
    recorded input, and independent of every origin the index can resolve. *)
Definition corroborates (lookup : ProjectId → RunId → option ConfirmingRun) (pid : ProjectId)
    (row : QuarantinedMemoryRow) (c : ShadowConfirmation) : Prop :=
  sc_run_id c ∈ q_confirming_run_ids row ∧ sc_run_id c ∉ origin_runs (q_provenance row)
  ∧ (∃ f, lookup pid (sc_run_id c) = Some f ∧ sc_principal_id c = cr_principal_id f
          ∧ sc_sig c = cr_sig f)
  ∧ is_absent_signature (sc_sig c) = false
  ∧ ∀ r f, r ∈ considered (sorted_origins (origin_runs (q_provenance row))) →
      lookup pid r = Some f → length (cr_sig f) = SIG_HASH_LEN →
      cr_principal_id f ≠ sc_principal_id c ∧ is_absent_signature (cr_sig f) = false
      ∧ same_cluster (sc_sig c) (cr_sig f) = Ok false.

Lemma contribution_known lookup pid r f :
  lookup pid r = Some f → length (cr_sig f) = SIG_HASH_LEN →
  ∃ c, contribution lookup pid true r = Some c
       ∧ sc_run_id c = r ∧ sc_principal_id c = cr_principal_id f ∧ sc_sig c = cr_sig f.
Proof.
  intros Hf Hsig. unfold contribution. rewrite Hf. cbn [mbind option_bind].
  unfold make_confirmation. destruct (decide _) as [Hb|Hb]; [by eexists|].
  destruct Hb. by rewrite Hsig.
Qed.

Lemma resolve_corroborates lookup pid row cs c :
  resolve_confirmations lookup pid row = Ok cs → c ∈ cs → corroborates lookup pid row c.
Proof.
  unfold resolve_confirmations. case_bool_decide; [by intros [= <-] ?%not_elem_of_nil|].
  case_match eqn:Hoff; [by intros [= <-] ?%not_elem_of_nil|]. rewrite <-Hoff.
  rewrite rbind_Ok. intros (cs0 & Hcs0 & Hrest). rewrite rbind_Ok in Hrest.
  destruct Hrest as (os & Hos & Hcs). intros Hc.
  assert (c ∈ cs0 ∧ ∀ o, o ∈ os → independent_of c o = true) as [Hc0 Hind].
  { destruct os as [|o os]; apply (inj Ok) in Hcs; subst cs; [split; [done|]; by intros ? ?%not_elem_of_nil|].
    apply list_elem_of_In, filter_In in Hc as [Hc Hall]. pose proof (proj1 (forallb_forall _ _) Hall) as Hall'.
    split; [by apply list_elem_of_In|]. intros x Hx. by apply Hall', list_elem_of_In. }
  destruct (build_elem _ _ _ _ _ _ Hcs0 Hc0) as (Hr & Hf & Ha).
  apply list_elem_of_filter in Hr as [Hno Hr]. split_and!; [done..|by apply Ha|].
  intros r' f Hro Hlk Hsig. destruct (contribution_known _ _ _ _ Hlk Hsig) as (o & Ho & <- & Hp & Hs).
  assert (o ∈ os) as Hin.
  { rewrite build_spec in Hos. destruct (forallb (honest _ _) _); [|done].
    apply (inj Ok) in Hos. subst os.
    apply list_elem_of_omap. eauto. }
  apply Hind, independent_of_spec in Hin as (_ & Hao & (_ & Hpr & Hcl)%compatible_spec).
  rewrite <-Hp, <-Hs. done.
Qed.

(** The successful branches of [evaluate_one]. *)
Lemma evaluate_one_ok lookup ep pid row cfg n o ws :
  evaluate_one lookup ep pid row cfg n = (Ok o, ws) →
  ∃ cs, require_row row pid = Ok tt ∧ limits_post_init cfg = Ok cfg
    ∧ resolve_confirmations lookup pid row = Ok cs
    ∧ o_memory_id o = q_id row
    ∧ ((apply (Some QUARANTINED) CANDIDATE (shadow_evidence n row cs) cfg = Ok CANDIDATE
        ∧ o_promoted o = true ∧ o_to_status o = Some CANDIDATE
        ∧ ws = [mkShadowWrite (q_id row) QUARANTINED CANDIDATE n ep])
       ∨ (∃ why, apply (Some QUARANTINED) CANDIDATE (shadow_evidence n row cs) cfg
                 = Err (GuardNotSatisfied (Some QUARANTINED) CANDIDATE why)
          ∧ o_reason o = why ∧ o_promoted o = false ∧ o_to_status o = None ∧ ws = [])).
Proof.
  unfold evaluate_one. intros Hev.
  destruct (require_row row pid) as [[]|] eqn:Hreq; [|done]. cbn [lift_exn rbind] in Hev.
  assert (Hq : q_status row = QUARANTINED).
  { unfold require_row in Hreq. case_bool_decide; [|done]. by case_bool_decide. }
  destruct (limits_post_init cfg) as [l|] eqn:Hl; [|done]. cbn [lift_exn rbind] in Hev.
  assert (l = cfg) as ->. { unfold limits_post_init in Hl. repeat case_match; congruence. }
  destruct (resolve_confirmations lookup pid row) as [cs|]; [|done]. cbn [lift_exn rbind] in Hev.
  destruct (evidence_post_init _) as [e|] eqn:He; [|done]. cbn [lift_exn rbind] in Hev.
  assert (e = shadow_evidence n row cs) as ->.
  { unfold evidence_post_init in He. repeat case_match; congruence. }
  exists cs. split_and!; [done..| |]; rewrite Hq in Hev.
  - destruct (apply _ _ _ _) as [s|[]]; by simplify_eq.
  - destruct (apply _ _ _ _) as [s|[c t|c t why]] eqn:Hap; simplify_eq; simpl.
    + left. apply apply_ok in Hap as (-> & _). done.
    + right. exists why. by apply apply_refused in Hap as (-> & -> & _).
Qed.

Lemma omap_NoDup_runs lookup pid keep l :
  NoDup l → NoDup (map sc_run_id (omap (contribution lookup pid keep) l)).
Proof.
  induction 1 as [|r l Hr Hl IH]; [constructor|]. cbn [omap list_omap].
  destruct (contribution lookup pid keep r) as [c|] eqn:Hc; [|exact IH].
  apply contribution_spec in Hc as (Hid & _). simpl. constructor; [|exact IH].
  rewrite Hid. intros (c' & Heq & Hc')%list_elem_of_fmap.
  apply list_elem_of_omap in Hc' as (r' & Hr' & Hc'). apply contribution_spec in Hc' as (Hid' & _).
  congruence.
Qed.

Lemma length_omap_le {A B} (f : A → option B) l : (length (omap f l) ≤ length l)%nat.
Proof. induction l as [|x l IH]; [done|]. cbn [omap list_omap]. destruct (f x); simpl; lia. Qed.

(** ** Properties *)

(** [build_confirmations] is exactly "the contributions of the first 256 distinct runs":
    one lookup per distinct run, unknown, malformed and (for evidence) absent-signature runs
    contribute nothing, and the only exception is a port that answers for another run.  So
    the result has at most 256 confirmations, with pairwise distinct runs. *)
Lemma build_confirmations_exact lookup pid runs keep :
  build_confirmations lookup pid runs keep
  = (if forallb (honest lookup pid) (considered runs)
     then Ok (omap (contribution lookup pid keep) (considered runs)) else Err TracebedError)
  ∧ ∀ cs, build_confirmations lookup pid runs keep = Ok cs →
      NoDup (map sc_run_id cs) ∧ (length cs ≤ MAX_CONFIRMATIONS_CONSIDERED)%nat
      ∧ ∀ c, c ∈ cs → sc_run_id c ∈ runs
                      ∧ (keep = false → is_absent_signature (sc_sig c) = false).
Proof.
  split; [apply build_spec|]. intros cs Hcs. split_and!.
  - rewrite build_spec in Hcs. destruct (forallb _ _); [|done]. apply (inj Ok) in Hcs. subst cs.
    apply omap_NoDup_runs. eapply sublist_NoDup; [apply NoDup_first_occurrences|apply sublist_take].
  - rewrite build_spec in Hcs. destruct (forallb _ _); [|done]. apply (inj Ok) in Hcs. subst cs.
    etrans; [apply length_omap_le|]. unfold considered. rewrite length_take. lia.
  - intros c Hc. eapply build_elem in Hc as (? & _ & ?); eauto.
Qed.

(** [independent_of] decides the pairwise independence predicate and fails closed: it is
    symmetric in effect, false as soon as either input is unrecorded, and otherwise true
    exactly for distinct runs, distinct principals and distinct signature clusters. *)
Lemma independent_of_exact a b :
  (independent_of a b = true ↔
   is_absent_signature (sc_sig a) = false ∧ is_absent_signature (sc_sig b) = false
   ∧ sc_run_id a ≠ sc_run_id b ∧ sc_principal_id a ≠ sc_principal_id b
   ∧ same_cluster (sc_sig a) (sc_sig b) = Ok false)
  ∧ independent_of a b = independent_of b a.
Proof.
  split; [by rewrite independent_of_spec, compatible_spec|].
  apply eq_bool_prop_intro. rewrite !Is_true_true, !independent_of_spec, compatible_sym. tauto.
Qed.

(** [C3] A row is promoted out of quarantine only on real, later, independent evidence: it is
    not a proposal, and there is a set of confirmations, as large as the guard requires and
    pairwise independent, each of them an offered run that is not one of the memory's own
    origins, resolved from the trace index with a recorded input, and sharing neither the
    principal nor the signature cluster of any origin the index can resolve.  The one write
    is [QUARANTINED -> CANDIDATE] for that row; a row that is not promoted is not written. *)
Theorem promotion_corroborated lookup ep pid row cfg n o ws :
  evaluate_one lookup ep pid row cfg n = (Ok o, ws) →
  (o_promoted o = false ∧ ws = [])
  ∨ o_promoted o = true ∧ cls (q_provenance row) ≠ PROPOSAL
    ∧ ws = [mkShadowWrite (q_id row) QUARANTINED CANDIDATE n ep]
    ∧ ∃ cs I, independent_set cs I
      ∧ (if q_is_failure_lesson row && bool_decide (q_mem_type row = LESSON)
         then failure_lesson_outcomes cfg else 2) ≤ Z.of_nat (size I)
      ∧ ∀ c, c ∈ cs → corroborates lookup pid row c.
Proof.
  intros (cs & _ & _ & Hcs & _ & [(Hap & Hp & _ & ->)|(? & _ & _ & Hp & _ & ->)])%evaluate_one_ok;
    [right|by left].
  destruct (quarantine_exit _ _ _ Hap) as [Hnp Hreq]. split_and!; [done..|].
  destruct (independent_confirmations_attained cs
    (Some (required_confirmations (shadow_evidence n row cs) cfg))) as (I & HI & Hsz).
  exists (take MAX_CONFIRMATIONS_CONSIDERED cs), I. split; [done|]. split.
  - rewrite Hsz. exact Hreq.
  - intros c Hc. eapply resolve_corroborates; [done|].
    by apply elem_of_take in Hc as (i & Hi%list_elem_of_lookup_2 & _).
Qed.

(** A concrete trace index: run [r] of principal [r], clusters by the parity of [r]. *)
Definition lookup_ex (pid : ProjectId) (r : RunId) : option ConfirmingRun :=
  let byte := if N.odd (uuid_int (RunId_value r)) then 0 else 255 in
  Some (mkConfirming r (mkPrincipalId (RunId_value r)) (replicate 32 1 ++ replicate 8 byte)).

Definition run_ex (n : N) (H : Is_true (N.ltb n (2 ^ 128))) : RunId := mkRunId (mkUUID n H).

Definition row_ex : QuarantinedMemoryRow :=
  mkQRow (mkMemoryId (mkUUID 1 I)) (mkProjectId (mkUUID 2 I)) QUARANTINED TierB LESSON
    (mkProvenance DISTILLER [run_ex 3 I] None [] [] None None) None true
    [run_ex 3 I; run_ex 5 I; run_ex 4 I].

(** Run 3 is an origin, run 5 shares its cluster: run 4 alone corroborates. *)
Lemma promotion_corroborated_witness :
  ∃ cs J, independent_set cs J ∧ 1 ≤ Z.of_nat (size J)
    ∧ ∀ c, c ∈ cs → corroborates lookup_ex (mkProjectId (mkUUID 2 I)) row_ex c.
Proof.
  destruct (promotion_corroborated lookup_ex 7 (mkProjectId (mkUUID 2 I)) row_ex limits_ex
    (mkDatetime 0 true)
    (mkShadowOutcome (mkMemoryId (mkUUID 1 I)) true (Some CANDIDATE) 1 None)
    [mkShadowWrite (mkMemoryId (mkUUID 1 I)) QUARANTINED CANDIDATE (mkDatetime 0 true) 7])
    as [[H _]|(_ & _ & _ & cs & J & H1 & H2 & H3)].
  - vm_compute. reflexivity.
  - discriminate H.
  - exists cs, J. split; [exact H1|]. split; [exact H2|exact H3].
Defined.

(** A sweep never explodes on deficient evidence: for a quarantined row of the project,
    under accepted limits, aware instants and a port that answers for the run it is asked
    about, [evaluate_one] returns an outcome whatever the index holds (unknown runs,
    malformed or absent signatures, any number of offered runs). *)
Lemma evaluate_one_total lookup ep pid row cfg n :
  q_project_id row = pid → q_status row = QUARANTINED → limits_post_init cfg = Ok cfg →
  dt_aware n = true → (∀ d, q_status_changed_at row = Some d → dt_aware d = true) →
  (∀ r, honest lookup pid r = true) →
  ∃ o ws, evaluate_one lookup ep pid row cfg n = (Ok o, ws).
Proof.
  intros Hpid Hq Hl Hn Hd Hh. unfold evaluate_one, require_row.
  rewrite !bool_decide_eq_true_2, Hl by done. cbn [lift_exn rbind].
  assert (Hb : ∀ runs keep, ∃ cs, build_confirmations lookup pid runs keep = Ok cs).
  { intros runs keep. rewrite build_spec, (proj2 (forallb_forall _ _)) by auto. eauto. }
  assert (∃ cs, resolve_confirmations lookup pid row = Ok cs) as [cs ->].
  { unfold resolve_confirmations. case_bool_decide; [eauto|]. case_match eqn:Hf; [eauto|].
    rewrite <-Hf. edestruct Hb as [cs ->]. cbn [rbind]. edestruct Hb as [os ->]. cbn [rbind].
    destruct os; eauto. }
  cbn [lift_exn rbind]. unfold evidence_post_init. cbn [now shadow_evidence status_changed_at].
  rewrite Hn. assert (match q_status_changed_at row with None => true | Some d => dt_aware d end = true)
    as Hdd by (destruct (q_status_changed_at row); auto).
  rewrite Hdd, Hq. cbn [lift_exn rbind].
  destruct (apply _ _ _ _) as [s|[c t|]] eqn:Hap; [eauto| |eauto].
  exfalso. rewrite (apply_edge _ _ _ _ _ transitions_get_exit) in Hap. by destruct (ok _).
Qed.

Lemma evaluate_one_total_witness :
  ∃ o ws, evaluate_one lookup_ex 7 (mkProjectId (mkUUID 2 I)) row_ex limits_ex (mkDatetime 0 true)
          = (Ok o, ws).
Proof.
  apply (evaluate_one_total lookup_ex 7 (mkProjectId (mkUUID 2 I)) row_ex limits_ex (mkDatetime 0 true));
    try reflexivity; [discriminate|].
  intros r. unfold honest, lookup_ex. apply bool_decide_eq_true_2. reflexivity.
Defined.

(** A proposal gains nothing from shadow validation: its evaluation performs no lookup
    (it is the same for every trace index), persists nothing and is refused by class. *)
Lemma proposal_row_inert lookup lookup' ep pid row cfg n :
  cls (q_provenance row) = PROPOSAL →
  evaluate_one lookup ep pid row cfg n = evaluate_one lookup' ep pid row cfg n
  ∧ (evaluate_one lookup ep pid row cfg n).2 = []
  ∧ ∀ o, (evaluate_one lookup ep pid row cfg n).1 = Ok o →
      o_promoted o = false ∧ o_reason o = Some proposal_never_exits_quarantine.
Proof.
  intros Hp. split.
  { unfold evaluate_one, resolve_confirmations. by rewrite !bool_decide_eq_true_2. }
  assert (Hws : ∀ r ws, evaluate_one lookup ep pid row cfg n = (r, ws) → ws = []
    ∧ ∀ o, r = Ok o → o_promoted o = false ∧ o_reason o = Some proposal_never_exits_quarantine).
  { intros [o|e] ws Hev; [|unfold evaluate_one in Hev; by repeat case_match; simplify_eq].
    apply evaluate_one_ok in Hev as (cs & _ & _ & _ & _ & [(Hap & _)|(why & Hap & <- & Hpr & _ & ->)]).
    - by apply quarantine_exit in Hap as [? _].
    - split; [done|]. intros ? [= <-]. split; [done|].
      apply apply_refused in Hap as (_ & _ & g & Hg & _ & Hwhy). rewrite transitions_get_exit in Hg.
      injection Hg as <-. rewrite <-Hwhy. unfold guard_quarantined_to_candidate. by rewrite bool_decide_eq_true_2. }
  destruct (evaluate_one lookup ep pid row cfg n) as [r ws]. simpl. eauto.
Qed.

Lemma proposal_row_inert_witness :
  let row := mkQRow (mkMemoryId (mkUUID 1 I)) (mkProjectId (mkUUID 2 I)) QUARANTINED TierB LESSON
    (mkProvenance PROPOSAL [] None [] [] (Some (run_ex 3 I)) None) None true [run_ex 4 I] in
  (evaluate_one lookup_ex 7 (mkProjectId (mkUUID 2 I)) row limits_ex (mkDatetime 0 true)).2 = [].
Proof.
  intros row.
  apply (proposal_row_inert lookup_ex lookup_ex 7 (mkProjectId (mkUUID 2 I)) row limits_ex
    (mkDatetime 0 true)). reflexivity.
Defined.

Lemma evaluate_rows_ok lookup ep pid cfg clock rows : ∀ i os ws,
  evaluate_rows lookup ep pid cfg clock i rows = (Ok os, ws) →
  map o_memory_id os = map q_id rows
  ∧ map w_memory_id ws = map o_memory_id (List.filter o_promoted os)
  ∧ Forall (λ w, w_from_status w = QUARANTINED ∧ w_to_status w = CANDIDATE ∧ w_epoch_id w = ep) ws
  ∧ Forall2 (λ row o, o_promoted o = true → cls (q_provenance row) ≠ PROPOSAL
                      ∧ q_project_id row = pid ∧ q_status row = QUARANTINED) rows os.
Proof.
  induction rows as [|row rows IH]; intros i os ws Hev; cbn [evaluate_rows] in Hev.
  - injection Hev as <- <-. repeat constructor.
  - destruct (evaluate_one lookup ep pid row cfg (clock i)) as [[o|] ws0] eqn:Hone; [|done].
    destruct (evaluate_rows _ _ _ _ _ _ rows) as [[os'|] ws'] eqn:Hrows; [|done].
    cbn [rbind] in Hev. injection Hev as <- <-.
    destruct (IH _ _ _ Hrows) as (H1 & H2 & H3 & H4).
    apply evaluate_one_ok in Hone
      as (cs & Hreq & _ & _ & Hid & [(Hap & Hp & _ & ->)|(why & _ & _ & Hp & _ & ->)]);
      simpl; rewrite Hid, Hp, H1; simpl; rewrite H2, ?Hid.
    + split_and!; [done|done|by constructor|]. constructor; [|done]. intros _.
      apply quarantine_exit in Hap as [? _]. split; [done|].
      unfold require_row in Hreq. case_bool_decide; [|done]. by case_bool_decide.
    + split_and!; [done|done|done|]. constructor; [congruence|done].
Qed.

(** A batch that completes examined every selected row once, in order, and persisted
    exactly one [QUARANTINED -> CANDIDATE] write, stamped with the validator's epoch, for
    each promoted row and nothing for the others; a promoted row belongs to the requested
    project, was quarantined and is not a proposal. *)
Lemma run_once_exact lookup ep select pid cfg clock batch ws :
  run_once lookup ep select pid cfg clock = (Ok batch, ws) →
  rows_examined batch = length (select pid)
  ∧ map o_memory_id (outcomes batch) = map q_id (select pid)
  ∧ map w_memory_id ws = map o_memory_id (List.filter o_promoted (outcomes batch))
  ∧ Forall (λ w, w_from_status w = QUARANTINED ∧ w_to_status w = CANDIDATE ∧ w_epoch_id w = ep) ws
  ∧ Forall2 (λ row o, o_promoted o = true → cls (q_provenance row) ≠ PROPOSAL
                      ∧ q_project_id row = pid ∧ q_status row = QUARANTINED)
      (select pid) (outcomes batch).
Proof.
  unfold run_once. destruct (evaluate_rows _ _ _ _ _ _ _) as [[os|] ws'] eqn:Hev; [|done].
  cbn [rbind]. intros [= <- <-]. split; [done|]. by eapply evaluate_rows_ok.
Qed.

Lemma run_once_exact_witness :
  let b := run_once lookup_ex 7 (λ _, [row_ex]) (mkProjectId (mkUUID 2 I)) limits_ex
             (λ _, mkDatetime 0 true) in
  map w_memory_id b.2 = [mkMemoryId (mkUUID 1 I)].
Proof.
  intros b.
  apply (run_once_exact lookup_ex 7 (λ _, [row_ex]) (mkProjectId (mkUUID 2 I)) limits_ex
    (λ _, mkDatetime 0 true)
    (mkShadowBatch 1 [mkShadowOutcome (mkMemoryId (mkUUID 1 I)) true (Some CANDIDATE) 1 None]) b.2).
  vm_compute. reflexivity.
Defined.
