(* ===== verification/PyFloat.v ===== *)
(** * Python floats: binary64 with their order

    A Python [float] is a primitive [float].  Comparisons are IEEE: NaN compares false
    with everything, the two zeros are equal.  On the values that are not NaN they are a
    total preorder; [frank] maps a float to a triple of integers whose lexicographic
    order is exactly that order, so proofs about sorted keys reduce to linear
    arithmetic. *)

From Stdlib Require Export Floats.
From S2P Require Import Prelude Domain PyText.
Open Scope Z_scope.

Definition is_nan_f (x : float) : bool := negb (x =? x)%float.

(** [math.isfinite]: neither NaN nor an infinity. *)
Definition isfinite (x : float) : bool :=
  match Prim2SF x with S754_zero _ | S754_finite _ _ _ => true | _ => false end.

(** Python's [max] and [min] on two floats: the first argument unless the second is strictly
    better (so a NaN in second place is ignored). *)
Definition py_fmax (a b : float) : float := if (a <? b)%float then b else a.
Definition py_fmin (a b : float) : float := if (b <? a)%float then b else a.

(** ** The order as a lexicographic order on integer triples *)

Definition SFrank (x : spec_float) : Z * Z * Z :=
  match x with
  | S754_zero _ => (0, 0, 0)
  | S754_infinity false => (2, 0, 0)
  | S754_infinity true => (-2, 0, 0)
  | S754_nan => (0, 0, 0)
  | S754_finite false m e => (1, e, Zpos m)
  | S754_finite true m e => (-1, - e, Zneg m)
  end.

Definition frank (x : float) : Z * Z * Z := SFrank (Prim2SF x).

Definition lex_lt (a b : Z * Z * Z) : Prop :=
  let '(a1, a2, a3) := a in let '(b1, b2, b3) := b in
  a1 < b1 ∨ a1 = b1 ∧ (a2 < b2 ∨ a2 = b2 ∧ a3 < b3).

Definition SFnan (x : spec_float) : bool := match x with S754_nan => true | _ => false end.
Definition not_nan (x : float) : Prop := SFnan (Prim2SF x) = false.

Lemma SFcompare_rank x y :
  SFnan x = false → SFnan y = false →
  match SFcompare x y with
  | Some Lt => lex_lt (SFrank x) (SFrank y)
  | Some Eq => SFrank x = SFrank y
  | Some Gt => lex_lt (SFrank y) (SFrank x)
  | None => False
  end.
Proof.
  destruct x as [[]|[]| |[] m e], y as [[]|[]| |[] m' e']; cbn; intros; try done; try lia.
  all: destruct (Z.compare_spec e e'); cbn; try lia; subst;
    change (Pos.compare_cont Eq m m') with (Pos.compare m m');
    destruct (Pos.compare_spec m m'); cbn; try lia; congruence.
Qed.

Lemma ltb_rank x y : not_nan x → not_nan y → (x <? y)%float = true ↔ lex_lt (frank x) (frank y).
Proof.
  intros Hx Hy. rewrite FloatAxioms.ltb_spec. unfold SFltb, frank.
  pose proof (SFcompare_rank _ _ Hx Hy) as H. destruct (SFcompare _ _) as [[]|]; [| | |done].
  - rewrite H. destruct (SFrank (Prim2SF y)) as [[]]. simpl. split; [done|lia].
  - done.
  - destruct (SFrank (Prim2SF x)) as [[]], (SFrank (Prim2SF y)) as [[]]. simpl in *. split; [done|lia].
Qed.

Lemma eqb_rank x y : not_nan x → not_nan y → (x =? y)%float = true ↔ frank x = frank y.
Proof.
  intros Hx Hy. rewrite FloatAxioms.eqb_spec. unfold SFeqb, frank.
  pose proof (SFcompare_rank _ _ Hx Hy) as H. destruct (SFcompare _ _) as [[]|]; [done| | |done].
  all: destruct (SFrank (Prim2SF x)) as [[]], (SFrank (Prim2SF y)) as [[]]; simpl in *;
    split; [done|]; intros [= -> -> ->]; lia.
Qed.

Lemma leb_rank x y :
  not_nan x → not_nan y →
  (x <=? y)%float = true ↔ lex_lt (frank x) (frank y) ∨ frank x = frank y.
Proof.
  intros Hx Hy. rewrite FloatAxioms.leb_spec. unfold SFleb, frank.
  pose proof (SFcompare_rank _ _ Hx Hy) as H. destruct (SFcompare _ _) as [[]|]; [by split; auto|by split; auto| |done].
  destruct (SFrank (Prim2SF x)) as [[]], (SFrank (Prim2SF y)) as [[]]; simpl in *.
  split; [done|]. intros [?|[= -> -> ->]]; lia.
Qed.

Lemma opp_not_nan x : not_nan x → not_nan (- x)%float.
Proof. unfold not_nan. rewrite FloatAxioms.opp_spec. by destruct (Prim2SF x) as [[]|[]| |[]]. Qed.

(** Negation reverses the order. *)
Lemma frank_opp x : not_nan x → frank (- x)%float = let '(a, b, c) := frank x in (- a, - b, - c).
Proof.
  unfold frank, not_nan. rewrite FloatAxioms.opp_spec.
  destruct (Prim2SF x) as [[]|[]| |[]]; cbn; intros; try done; by rewrite Z.opp_involutive.
Qed.

(** A comparison with NaN is false, so a comparison that holds excludes NaN. *)
Lemma leb_not_nan x y : (x <=? y)%float = true → not_nan x ∧ not_nan y.
Proof.
  rewrite FloatAxioms.leb_spec. unfold SFleb, not_nan.
  destruct (Prim2SF x) as [[]|[]| |[]], (Prim2SF y) as [[]|[]| |[]]; done.
Qed.

Lemma ltb_not_nan x y : (x <? y)%float = true → not_nan x ∧ not_nan y.
Proof.
  rewrite FloatAxioms.ltb_spec. unfold SFltb, not_nan.
  destruct (Prim2SF x) as [[]|[]| |[]], (Prim2SF y) as [[]|[]| |[]]; done.
Qed.

Lemma fleb_refl x : not_nan x → (x <=? x)%float = true.
Proof. intros Hx. apply leb_rank; auto. Qed.

Lemma fleb_total x y : not_nan x → not_nan y → (x <=? y)%float = false → (y <? x)%float = true.
Proof.
  intros Hx Hy. rewrite <- not_true_iff_false, leb_rank, ltb_rank by done.
  destruct (frank x) as [[]], (frank y) as [[]]. simpl. intros Hn.
  destruct (decide (z = z2 ∧ z0 = z3 ∧ z1 = z4)) as [(-> & -> & ->)|Hne]; [exfalso; tauto|].
  assert (¬ (z < z2 ∨ z = z2 ∧ (z0 < z3 ∨ z0 = z3 ∧ z1 < z4))) by tauto. lia.
Qed.

Lemma fltb_negb_leb x y : not_nan x → not_nan y → negb (x <? y)%float = (y <=? x)%float.
Proof.
  intros Hx Hy. apply eq_bool_prop_intro. rewrite !Is_true_true, negb_true_iff, <- not_true_iff_false.
  rewrite ltb_rank, leb_rank by done. destruct (frank x) as [[a b] c], (frank y) as [[a' b'] c']. simpl. split.
  - intros Hn. destruct (decide (a = a' ∧ b = b' ∧ c = c')) as [(-> & -> & ->)|]; [by right|left; lia].
  - intros [?|[= -> -> ->]]; lia.
Qed.

Lemma isfinite_not_nan x : isfinite x = true → not_nan x.
Proof. unfold isfinite, not_nan. by destruct (Prim2SF x). Qed.

(** ** Sort keys [(-score, text)] *)

(** Python's tuple comparison: the first components that differ decide. *)
Definition key_ltb (a b : float * pystr) : bool :=
  if (a.1 =? b.1)%float then str_ltb a.2 b.2 else (a.1 <? b.1)%float.

(** [sorted] puts [x] before [y] unless [key y < key x]. *)
Definition key_leb (a b : float * pystr) : bool := negb (key_ltb b a).

Lemma key_leb_rank a b :
  not_nan a.1 → not_nan b.1 →
  key_leb a b = true
  ↔ lex_lt (frank a.1) (frank b.1) ∨ frank a.1 = frank b.1 ∧ str_leb a.2 b.2 = true.
Proof.
  intros Ha Hb. unfold key_leb, key_ltb. rewrite negb_true_iff. case_match eqn:He.
  - apply eqb_rank in He; [|done..]. unfold str_ltb. rewrite negb_false_iff, He.
    destruct (frank a.1) as [[]]. simpl. split; [auto|]. intros [?|[_ ?]]; [lia|done].
  - rewrite <-not_true_iff_false, ltb_rank by done.
    rewrite <-not_true_iff_false, eqb_rank in He by done.
    destruct (frank a.1) as [[a1 a2] a3], (frank b.1) as [[b1 b2] b3]; simpl in *. split.
    + intros Hn. left. destruct (decide (a1 = b1)), (decide (a2 = b2)), (decide (a3 = b3)); subst; lia || done.
    + intros [?|[[= -> -> ->] _]]; [lia|done].
Qed.

Lemma lex_lt_trans a b c : lex_lt a b → lex_lt b c → lex_lt a c.
Proof. destruct a as [[]], b as [[]], c as [[]]; simpl; lia. Qed.

Lemma lex_trichotomy a b : lex_lt a b ∨ a = b ∨ lex_lt b a.
Proof.
  destruct a as [[a1 a2] a3], b as [[b1 b2] b3]; simpl.
  destruct (Z.lt_total a1 b1) as [|[->|]]; [lia| |lia].
  destruct (Z.lt_total a2 b2) as [|[->|]]; [lia| |lia].
  destruct (Z.lt_total a3 b3) as [|[->|]]; [lia|auto|lia].
Qed.

Lemma lex_irrefl a : ¬ lex_lt a a.
Proof. destruct a as [[]]; simpl; lia. Qed.

(** ** Exact values ([Fraction(x)])

    Every finite double is an integer multiple of 2^-1074, its exact value is
    [fscaled x / 2^1074].  On non-negative values the float order is the order of the
    scaled integers. *)

Definition fscaled (x : float) : Z :=
  match Prim2SF x with
  | S754_finite false m e => Zpos m * 2 ^ (e + 1074)
  | S754_finite true m e => Zneg m * 2 ^ (e + 1074)
  | _ => 0
  end.

Lemma digits2_size m : digits2_pos m = Pos.size m.
Proof. induction m as [m IH|m IH|]; simpl; [by rewrite IH..|done]. Qed.

(** The mantissa of a canonical float: either full (53 bits) or at the least exponent. *)
Lemma canonical_bounds m e :
  SpecFloat.bounded prec emax m e = true →
  -1074 ≤ e ∧ Zpos m < 2 ^ 53 ∧ (e = -1074 ∨ 2 ^ 52 ≤ Zpos m).
Proof.
  unfold SpecFloat.bounded, canonical_mantissa, fexp, SpecFloat.emin, prec, emax.
  intros [Hc%Z.eqb_eq _]%andb_true_iff. rewrite digits2_size in Hc.
  pose proof (Pos.size_gt m) as Hgt. pose proof (Pos.size_le m) as Hle.
  apply Pos2Z.pos_lt_pos in Hgt. rewrite Pos2Z.inj_pow in Hgt.
  apply Pos2Z.pos_le_pos in Hle. rewrite Pos2Z.inj_pow in Hle.
  assert (Hpow : Zpos (Pos.size m) ≤ 53) by lia. split_and!; [lia| |].
  - eapply Z.lt_le_trans; [exact Hgt|]. apply Z.pow_le_mono_r; lia.
  - destruct (decide (e = -1074)); [by left|]. right.
    assert (Zpos (Pos.size m) = 53) as Hs by lia. rewrite Hs in Hle. lia.
Qed.

Lemma scaled_lex m e m' e' :
  SpecFloat.bounded prec emax m e = true → SpecFloat.bounded prec emax m' e' = true →
  e < e' ∨ e = e' ∧ Zpos m < Zpos m' →
  Zpos m * 2 ^ (e + 1074) < Zpos m' * 2 ^ (e' + 1074).
Proof.
  intros (He & Hm & _)%canonical_bounds (He' & Hm' & Hc')%canonical_bounds [Hlt|[-> Hlt]].
  - destruct Hc' as [->|Hc']; [lia|].
    replace (e' + 1074) with ((e' - e - 1) + 1 + (e + 1074)) by lia.
    rewrite (Z.pow_add_r 2 _ (e + 1074)), (Z.pow_add_r 2 (e' - e - 1) 1) by lia.
    assert (0 < 2 ^ (e + 1074)) by (apply Z.pow_pos_nonneg; lia).
    assert (0 ≤ e' - e - 1) as Hk by (clear -Hlt; lia).
    assert (0 < 2 ^ (e' - e - 1)) as Hk2 by (apply Z.pow_pos_nonneg; [done|exact Hk]).
    change (2 ^ 1) with 2. change (2 ^ 53) with (2 * 2 ^ 52) in Hm. clear -Hm Hc' H Hk2.
    generalize dependent (2 ^ (e' - e - 1)). generalize dependent (2 ^ (e + 1074)).
    generalize dependent (2 ^ 52). intros c Hm Hc' p Hp q Hq.
    assert (Zpos m < Zpos m' * (q * 2)) by nia. nia.
  - apply Z.mul_lt_mono_pos_r; [apply Z.pow_pos_nonneg; lia|done].
Qed.

(** The floats that are zero or positive finite numbers. *)
Definition nonneg_finite (x : float) : bool :=
  match Prim2SF x with S754_zero _ | S754_finite false _ _ => true | _ => false end.

Lemma nonneg_finite_not_nan x : nonneg_finite x = true → not_nan x.
Proof. unfold nonneg_finite, not_nan. by destruct (Prim2SF x) as [[]|[]| |[]]. Qed.

Lemma ltb_scaled x y :
  nonneg_finite x = true → nonneg_finite y = true → (x <? y)%float = true ↔ fscaled x < fscaled y.
Proof.
  intros Hx Hy. rewrite ltb_rank by auto using nonneg_finite_not_nan.
  pose proof (Prim2SF_valid x) as Vx. pose proof (Prim2SF_valid y) as Vy.
  unfold nonneg_finite, frank, fscaled in *.
  assert (Hpos : ∀ m e, SpecFloat.bounded prec emax m e = true → 0 < Zpos m * 2 ^ (e + 1074)).
  { intros m e (? & _)%canonical_bounds. pose proof (Z.pow_pos_nonneg 2 (e + 1074)). lia. }
  destruct (Prim2SF x) as [s|s| |[] m e], (Prim2SF y) as [s'|s'| |[] m' e']; try done; simpl in *.
  - lia.
  - specialize (Hpos _ _ Vy). lia.
  - specialize (Hpos _ _ Vx). lia.
  - split; [intros [?|[_ H]]; [lia|by apply scaled_lex]|]. intros Hlt. right. split; [done|].
    destruct (decide (e < e' ∨ e = e' ∧ Zpos m < Zpos m')) as [?|Hn]; [lia|].
    destruct (decide (e = e' ∧ m = m')) as [[-> ->]|Hne]; [lia|].
    assert (e' < e ∨ e' = e ∧ Zpos m' < Zpos m) as Hgt by (destruct (decide (e = e')); subst; lia || (right; split; [done|]; assert (m ≠ m') by naive_solver; lia)).
    pose proof (scaled_lex _ _ _ _ Vy Vx Hgt). lia.
Qed.

Lemma leb_scaled x y :
  nonneg_finite x = true → nonneg_finite y = true → (x <=? y)%float = true ↔ fscaled x ≤ fscaled y.
Proof.
  intros Hx Hy. rewrite leb_rank by auto using nonneg_finite_not_nan.
  pose proof (ltb_scaled y x Hy Hx) as Hyx. rewrite ltb_rank in Hyx by auto using nonneg_finite_not_nan.
  destruct (lex_trichotomy (frank x) (frank y)) as [H|[H|H]].
  - pose proof (ltb_scaled x y Hx Hy) as Hxy. rewrite ltb_rank in Hxy by auto using nonneg_finite_not_nan.
    split; [|auto]. intros _. apply Hxy in H. lia.
  - split; [|auto]. intros _. destruct (Z.lt_ge_cases (fscaled y) (fscaled x)) as [Hlt|]; [|lia].
    apply Hyx in Hlt. rewrite H in Hlt. by apply lex_irrefl in Hlt.
  - split; [|intros Hle; apply Hyx in H; lia].
    intros [H'|H']; [destruct (lex_irrefl (frank x)); by eapply lex_lt_trans|].
    rewrite H' in H. by apply lex_irrefl in H.
Qed.

Lemma fscaled_nonneg x : nonneg_finite x = true → 0 ≤ fscaled x.
Proof.
  unfold nonneg_finite, fscaled. destruct (Prim2SF x) as [s|s| |[] m e]; try done.
  intros _. pose proof (Z.pow_nonneg 2 (e + 1074)). lia.
Qed.

(** A float between zero and one, in the source's chained comparison. *)
Lemma unit_interval x : (0 <=? x)%float = true → (x <=? 1)%float = true → nonneg_finite x = true.
Proof.
  intros H0 H1. pose proof (leb_not_nan _ _ H1) as [Hx _].
  rewrite leb_rank in H0, H1 by (done || reflexivity).
  unfold nonneg_finite, not_nan, frank in *. change (Prim2SF 0) with (S754_zero false) in H0.
  change (Prim2SF 1) with (S754_finite false 4503599627370496 (-52)) in H1.
  destruct (Prim2SF x) as [s|[]| |[] m e]; simpl in *; try done; exfalso.
  - destruct H0 as [?|?]; [lia|done].
  - destruct H1 as [?|?]; [lia|done].
  - destruct H0 as [?|?]; [lia|done].
Qed.
