(* ===== verification/FloatRound.v ===== *)
(** * Rounding of binary64 sums

    What the code relies on of float addition: the rounded sum of two finite floats never
    crosses a float that the exact sum did not cross ([add_ge], [add_le]), and the sign of a
    product or a difference is that of the exact result.  Values are compared as integers
    scaled by 2^1074 ([PyFloat.fscaled]). *)

From Stdlib Require Import Floats.
From S2P Require Import Prelude PyFloat.
Open Scope Z_scope.

(** ** Shifting right with rounding bits *)

Lemma iter_pos_nat {A} (f : A → A) n x : iter_pos f n x = Nat.iter (Pos.to_nat n) f x.
Proof.
  revert x. induction n as [n IH|n IH|]; intros x; cbn [iter_pos].
  - rewrite !IH, Pos2Nat.inj_xI, <- Nat.iter_succ_r, <- Nat.iter_add. f_equal. lia.
  - rewrite !IH, Pos2Nat.inj_xO, <- Nat.iter_add. f_equal. lia.
  - done.
Qed.

Lemma shr_iter m k : 0 ≤ m →
  let r := Nat.iter k shr_1 (Build_shr_record m false false) in
  shr_m r = m / 2 ^ Z.of_nat k ∧ (m mod 2 ^ Z.of_nat k = 0 → shr_r r = false ∧ shr_s r = false).
Proof.
  intros Hm. induction k as [|k [IHm IHx]]; cbn [Nat.iter nat_rect].
  { cbn. rewrite Z.div_1_r. done. }
  set (r := Nat.iter k shr_1 _) in *. change (nat_rect _ _ _ k) with r.
  assert (Hpow : 2 ^ Z.of_nat (S k) = 2 ^ Z.of_nat k * 2) by (rewrite Nat2Z.inj_succ, Z.pow_succ_r; lia).
  assert (Hp : 0 < 2 ^ Z.of_nat k) by (apply Z.pow_pos_nonneg; lia).
  assert (Hdiv : shr_m (shr_1 r) = shr_m r / 2 ∧ shr_r (shr_1 r) = Z.odd (shr_m r) ∧ shr_s (shr_1 r) = shr_r r || shr_s r).
  { assert (0 ≤ shr_m r) as H0 by (rewrite IHm; apply Z.div_pos; lia).
    destruct r as [[|[p|p|]|p] b c]; cbn in *; try done; try (split_and!; [|done|done]).
    - rewrite Pos2Z.inj_xI, (Z.mul_comm 2), Z.div_add_l by lia. change (1 / 2) with 0. lia.
    - rewrite Pos2Z.inj_xO, (Z.mul_comm 2), Z.div_mul; lia. }
  destruct Hdiv as (-> & -> & ->). rewrite IHm, Hpow, Z.div_div by lia. split; [done|].
  intros Hmod. assert (Hm' : m = 2 ^ Z.of_nat k * 2 * (m / (2 ^ Z.of_nat k * 2))) by (apply Z.div_exact; lia).
  set (q := m / (2 ^ Z.of_nat k * 2)) in *.
  assert (Hk : m = (2 * q) * 2 ^ Z.of_nat k) by lia.
  destruct IHx as [-> ->]; [rewrite Hk; apply Z.mod_mul; lia|]. split; [|done].
  rewrite Hk, Z.div_mul by lia. by rewrite Z.odd_mul.
Qed.

Lemma shr_spec m e n : 0 ≤ m → 0 ≤ n →
  ∃ r, shr (Build_shr_record m false false) e n = (r, e + n)
    ∧ shr_m r = m / 2 ^ n ∧ (m mod 2 ^ n = 0 → shr_r r = false ∧ shr_s r = false).
Proof.
  intros Hm Hn. destruct n as [|n|n]; [|eexists|lia].
  - eexists. cbn. rewrite Z.add_0_r, Z.div_1_r. done.
  - cbn [shr]. rewrite iter_pos_nat. split; [done|].
    rewrite <- (positive_nat_Z n). by apply shr_iter.
Qed.

Lemma digits_bounds p : 2 ^ (Zpos (digits2_pos p) - 1) ≤ Zpos p < 2 ^ Zpos (digits2_pos p).
Proof.
  rewrite digits2_size. pose proof (Pos.size_gt p) as Hgt. pose proof (Pos.size_le p) as Hle.
  apply Pos2Z.pos_lt_pos in Hgt. rewrite Pos2Z.inj_pow in Hgt.
  apply Pos2Z.pos_le_pos in Hle. rewrite Pos2Z.inj_pow, (Pos2Z.inj_xO p) in Hle. split; [|done].
  assert (2 ^ Zpos (Pos.size p) = 2 * 2 ^ (Zpos (Pos.size p) - 1)); [|lia].
  rewrite <- Z.pow_succ_r by lia. f_equal. lia.
Qed.

Lemma round_even_spec m l : round_nearest_even m l = m ∨ round_nearest_even m l = m + 1 ∧ l ≠ loc_Exact.
Proof. destruct l as [|[]]; cbn; [auto| |auto|auto]. destruct (Z.even m); auto. Qed.

(** ** Rounding a positive number *)

Lemma fexp_max e : fexp prec emax e = Z.max (e - 53) (-1074).
Proof. done. Qed.

Lemma iter_xO m d : Zpos (Pos.iter xO m d) = Zpos m * 2 ^ Zpos d
  ∧ Zpos (digits2_pos (Pos.iter xO m d)) = Zpos (digits2_pos m) + Zpos d.
Proof.
  induction d as [|d [IH1 IH2]] using Pos.peano_ind; [cbn; split; lia|].
  rewrite Pos.iter_succ. cbn [digits2_pos]. rewrite (Pos2Z.inj_xO (Pos.iter xO m d)), IH1, !Pos2Z.inj_succ, IH2, Z.pow_succ_r by lia.
  split; lia.
Qed.

Lemma align_spec m e f : ∃ mz, shl_align m e f = (mz, Z.min e f)
  ∧ Zpos mz = Zpos m * 2 ^ (e - Z.min e f)
  ∧ Zpos (digits2_pos mz) + Z.min e f = Zpos (digits2_pos m) + e.
Proof.
  unfold shl_align. destruct (f - e) as [|d|d] eqn:Hd.
  - exists m. rewrite Z.min_l by lia. rewrite Z.sub_diag. split_and!; [done|lia|lia].
  - exists m. rewrite Z.min_l by lia. rewrite Z.sub_diag. split_and!; [done|lia|lia].
  - exists (Pos.iter xO m d). destruct (iter_xO m d) as [H1 H2]. rewrite Z.min_r by lia.
    replace (e - f) with (Zpos d) by lia. split_and!; [done|done|lia].
Qed.

(** A normalised significand is not shifted again, and the carry out is. *)
Lemma renormalise m1 f : -1074 ≤ f → 0 < m1 ≤ 2 ^ 53 →
  ∃ r m' e', shr_fexp prec emax m1 f loc_Exact = (r, e') ∧ shr_m r = Zpos m' ∧ f ≤ e'
    ∧ Zpos m' * 2 ^ (e' + 1074) = m1 * 2 ^ (f + 1074).
Proof.
  intros Hf [Hpos Hle]. destruct m1 as [|p|p]; [lia| |lia]. unfold shr_fexp. cbn [shr_record_of_loc Zdigits2].
  rewrite fexp_max. pose proof (digits_bounds p) as [Hlo _].
  destruct (decide (Zpos p = 2 ^ 53)) as [Heq|Hne].
  { assert (p = 9007199254740992%positive) as -> by (change (2 ^ 53) with 9007199254740992 in Heq; lia).
    cbn [digits2_pos Pos.succ]. replace (_ - f) with 1 by lia.
    eexists _, 4503599627370496%positive, (f + 1). split; [done|]. split; [done|]. split; [lia|].
    replace (f + 1 + 1074) with (Z.succ (f + 1074)) by lia. rewrite Z.pow_succ_r by lia. lia. }
  assert (Hd : Zpos (digits2_pos p) ≤ 53).
  { apply Z.lt_succ_r, Z.lt_sub_lt_add_r with (p := 1). apply (Z.pow_lt_mono_r_iff 2); [lia|lia|]. lia. }
  exists (Build_shr_record (Zpos p) false false), p, f.
  destruct (Z.max _ _ - f) as [|n|n] eqn:Hn; [done| lia |done].
Qed.

Lemma round_aux_grid sx mz ez : -1074 ≤ ez ≤ fexp prec emax (Zpos (digits2_pos mz) + ez) →
  let M := Zpos mz * 2 ^ (ez + 1074) in
  ∃ g, 0 ≤ g ∧ M < 2 ^ (53 + g) ∧ (g = 0 ∨ 2 ^ (52 + g) ≤ M) ∧
    (binary_round_aux prec emax sx (Zpos mz) ez loc_Exact = S754_infinity sx
     ∨ ∃ m' e', binary_round_aux prec emax sx (Zpos mz) ez loc_Exact = S754_finite sx m' e' ∧ -1074 ≤ e'
       ∧ (Zpos m' * 2 ^ (e' + 1074) = M / 2 ^ g * 2 ^ g
          ∨ Zpos m' * 2 ^ (e' + 1074) = M / 2 ^ g * 2 ^ g + 2 ^ g ∧ M mod 2 ^ g ≠ 0)).
Proof.
  set (D := Zpos (digits2_pos mz)). set (f := fexp prec emax (D + ez)). intros [Hez Hf] M.
  pose proof (digits_bounds mz) as [Hlo Hhi]. fold D in Hlo, Hhi. pose proof (fexp_max (D + ez)) as Hfm. fold f in Hfm.
  set (n := f - ez). assert (Hn : 0 ≤ n) by lia. set (P := 2 ^ (ez + 1074)).
  assert (HP : 0 < P) by (apply Z.pow_pos_nonneg; lia). assert (H2n : 0 < 2 ^ n) by (apply Z.pow_pos_nonneg; lia).
  assert (Hg : 2 ^ (f + 1074) = 2 ^ n * P) by (unfold P; rewrite <- Z.pow_add_r by lia; f_equal; lia).
  assert (Hsplit : ∀ c, 0 ≤ c → 2 ^ (c + (f + 1074)) = 2 ^ (c + n) * P).
  { intros c Hc. unfold P. rewrite <- Z.pow_add_r by lia. f_equal. lia. }
  exists (f + 1074). split; [lia|]. rewrite !Hsplit, Hg by lia. unfold M. fold P.
  assert (Hup : Zpos mz < 2 ^ (53 + n)) by (eapply Z.lt_le_trans; [exact Hhi|]; apply Z.pow_le_mono_r; lia).
  assert (Hdown : n = 0 ∨ 2 ^ (52 + n) ≤ Zpos mz).
  { destruct (decide (f = -1074)); [left; lia|]. right. replace (52 + n) with (D - 1) by lia. done. }
  split; [by apply Z.mul_lt_mono_pos_r|]. split.
  { destruct Hdown; [destruct (decide (f = -1074)); [left; lia|]|right; by apply Z.mul_le_mono_pos_r].
    right. apply Z.mul_le_mono_pos_r; [done|]. replace (52 + n) with (D - 1) by lia. done. }
  rewrite Z.div_mul_cancel_r by lia. rewrite Z.mul_mod_distr_r by lia.
  destruct (shr_spec (Zpos mz) ez n) as (r & Hr & Hm & Hx); [lia|lia|].
  set (q := Zpos mz / 2 ^ n) in *. set (m1 := round_nearest_even q (loc_of_shr_record r)).
  assert (Hq : 0 < q < 2 ^ 53).
  { unfold q. split; [|apply Z.div_lt_upper_bound; [lia|]; rewrite <- Z.pow_add_r by lia; by rewrite (Z.add_comm n)].
    apply Z.div_str_pos. split; [done|]. destruct Hdown as [->|H52]; [cbn; lia|].
    etransitivity; [|exact H52]. apply Z.pow_le_mono_r; lia. }
  assert (Hm1 : m1 = q ∨ m1 = q + 1 ∧ Zpos mz mod 2 ^ n ≠ 0).
  { destruct (round_even_spec q (loc_of_shr_record r)) as [?|[? Hl]]; [by left|]. right. split; [done|].
    intros H0. apply Hl. destruct (Hx H0) as [Hb Hs]. clear -Hb Hs. destruct r as [? ? ?]. cbn in *. by subst. }
  destruct (renormalise m1 f) as (r2 & m' & e' & Hr2 & Hm2 & He' & Hval); [lia|lia|].
  assert (binary_round_aux prec emax sx (Zpos mz) ez loc_Exact
          = if e' <=? emax - prec then S754_finite sx m' e' else S754_infinity sx) as ->.
  { unfold binary_round_aux, shr_fexp at 1. cbn [shr_record_of_loc Zdigits2]. fold D f n. rewrite Hr, Hm.
    replace (ez + n) with f by lia. fold m1. by rewrite Hr2, Hm2. }
  destruct (Z.leb_spec e' (emax - prec)); [right|by left].
  exists m', e'. split; [done|]. split; [lia|]. rewrite Hval, Hg.
  destruct Hm1 as [->|[-> Hne]]; [left; lia|right]. split; [lia|]. nia.
Qed.

(** Rounding [m * 2^e] does not cross a float. *)
Lemma round_no_crossing sx m e mx ex : -1074 ≤ e → SpecFloat.bounded prec emax mx ex = true →
  let M := Zpos m * 2 ^ (e + 1074) in let X := Zpos mx * 2 ^ (ex + 1074) in
  binary_round prec emax sx m e = S754_infinity sx
  ∨ ∃ m' e', binary_round prec emax sx m e = S754_finite sx m' e' ∧ -1074 ≤ e'
    ∧ (X ≤ M → X ≤ Zpos m' * 2 ^ (e' + 1074)) ∧ (M ≤ X → Zpos m' * 2 ^ (e' + 1074) ≤ X).
Proof.
  intros He HX M X. unfold binary_round. set (f := fexp prec emax (Zpos (digits2_pos m) + e)).
  assert (-1074 ≤ f) by (unfold f; rewrite fexp_max; lia).
  destruct (align_spec m e f) as (mz & -> & Hmz & Hd).
  destruct (round_aux_grid sx mz (Z.min e f)) as (g & Hg & _ & Hlow & Hres).
  { split; [lia|]. rewrite Hd. fold f. lia. }
  assert (HM : Zpos mz * 2 ^ (Z.min e f + 1074) = M).
  { rewrite Hmz, <- Z.mul_assoc, <- Z.pow_add_r by lia. unfold M. do 2 f_equal. lia. }
  rewrite HM in Hlow, Hres. destruct Hres as [?|(m' & e' & -> & He' & HR)]; [by left|right].
  exists m', e'. split; [done|]. split; [done|]. set (R := Zpos m' * 2 ^ (e' + 1074)) in *. clearbody R.
  apply canonical_bounds in HX as (Hex & Hmx & _). set (P := 2 ^ g) in *.
  assert (HP : 0 < P) by (apply Z.pow_pos_nonneg; lia).
  pose proof (Z.div_mod M P ltac:(lia)) as HMP. pose proof (Z.mod_pos_bound M P HP) as Hmod.
  destruct (Z.le_gt_cases g (ex + 1074)) as [Hge|Hlt].
  - assert (∃ c, X = c * P) as [c Hc].
    { exists (Zpos mx * 2 ^ (ex + 1074 - g)). unfold X, P. rewrite <- Z.mul_assoc, <- Z.pow_add_r by lia.
      do 2 f_equal. lia. }
    rewrite Hc. set (q := M / P) in *. split; intros HXM.
    + assert (c ≤ q) by (apply Z.div_le_lower_bound; lia).
      assert (c * P ≤ q * P) by (by apply Z.mul_le_mono_pos_r). lia.
    + destruct HR as [->|[-> Hne]]; [lia|]. assert (q * P < c * P) as Hqc%Z.mul_lt_mono_pos_r by lia; [|done].
      assert ((q + 1) * P ≤ c * P) by (apply Z.mul_le_mono_pos_r; lia). lia.
  - assert (HX' : X < 2 ^ (52 + g)).
    { unfold X. eapply Z.lt_le_trans with (2 ^ 53 * 2 ^ (ex + 1074)).
      - apply Z.mul_lt_mono_pos_r; [apply Z.pow_pos_nonneg; lia|done].
      - rewrite <- Z.pow_add_r by lia. apply Z.pow_le_mono_r; lia. }
    destruct Hlow as [->|Hlow]; [lia|]. rewrite Z.pow_add_r in HX', Hlow by lia. fold P in HX', Hlow.
    assert (Hq : 2 ^ 52 ≤ M / P) by (apply Z.div_le_lower_bound; lia).
    apply (Z.mul_le_mono_pos_r _ _ P HP) in Hq. split; intros HXM; lia.
Qed.

(** ** Sums *)

(** Zero, negative or minus infinity. *)
Definition nonpos (x : float) : bool :=
  match Prim2SF x with S754_zero _ | S754_finite true _ _ | S754_infinity true => true | _ => false end.
Definition nonneg (x : float) : bool :=
  match Prim2SF x with S754_zero _ | S754_finite false _ _ | S754_infinity false => true | _ => false end.

Lemma isfinite_cases x : isfinite x = true →
  match Prim2SF x with S754_zero _ | S754_finite _ _ _ => True | _ => False end.
Proof.
  unfold isfinite. intros H. pose proof (isfinite_not_nan x H) as Hn. unfold not_nan in Hn.
  destruct (Prim2SF x) as [s|s| |s m e] eqn:Hx; [done| |done|done]. exfalso.
  assert (x = SF2Prim (S754_infinity s)) as -> by by rewrite <- Hx, SF2Prim_Prim2SF. by destruct s.
Qed.

Lemma add_ge x y : nonneg_finite x = true → nonneg y = true → isfinite (x + y)%float = true →
  nonneg_finite (x + y)%float = true ∧ (x <=? x + y)%float = true.
Proof.
  intros Hx Hy Hf. apply isfinite_cases in Hf.
  assert (nonneg_finite (x + y)%float = true ∧ fscaled x ≤ fscaled (x + y)%float) as [Hn Hs].
  2: { split; [done|]. by apply leb_scaled. }
  pose proof (Prim2SF_valid x) as Vx. pose proof (Prim2SF_valid y) as Vy.
  unfold nonneg_finite, nonneg, fscaled in *. rewrite add_spec in *. unfold SF64add in *.
  destruct (Prim2SF x) as [s|s| |[] mx ex]; try done; destruct (Prim2SF y) as [t|[]| |[] my ey]; try done;
    cbn [SFadd] in *.
  - by destruct s, t.
  - split; [done|]. pose proof (Z.pow_nonneg 2 (ey + 1074)). lia.
  - cbn in Vx, Vy. pose proof (canonical_bounds _ _ Vx) as (Hex & _). pose proof (canonical_bounds _ _ Vy) as (Hey & _).
    destruct (align_spec mx ex (Z.min ex ey)) as (ax & Hax & Hvx & _). destruct (align_spec my ey (Z.min ex ey)) as (ay & Hay & Hvy & _).
    rewrite Hax, Hay in *. cbn [fst cond_Zopp] in *.
    change (Zpos ax + Zpos ay) with (Zpos (ax + ay)) in *. cbn [binary_normalize] in *.
    destruct (round_no_crossing false (ax + ay) (Z.min ex ey) mx ex) as [Hi|(m' & e' & Hr & He' & Hge & _)]; [lia|done| |].
    { by rewrite Hi in Hf. }
    rewrite Hr in *. split; [done|]. apply Hge. rewrite Pos2Z.inj_add, Hvx.
    replace (Z.min ex (Z.min ex ey)) with (Z.min ex ey) by lia.
    assert (0 < 2 ^ (Z.min ex ey + 1074)) as HP by (apply Z.pow_pos_nonneg; lia).
    assert (Hsp : 2 ^ (ex + 1074) = 2 ^ (ex - Z.min ex ey) * 2 ^ (Z.min ex ey + 1074))
      by (rewrite <- Z.pow_add_r by lia; f_equal; lia).
    rewrite Hsp. nia.
Qed.

Lemma add_le x y : nonneg_finite x = true → nonpos y = true → isfinite (x + y)%float = true →
  (x + y <=? x)%float = true.
Proof.
  intros Hx Hy Hf. apply isfinite_cases in Hf.
  assert (nonneg_finite (x + y)%float = true → fscaled (x + y)%float ≤ fscaled x) as Hs.
  2: { pose proof (nonneg_finite_not_nan x Hx) as Hnx. destruct (nonneg_finite (x + y)%float) eqn:Hn.
       - apply leb_scaled; auto.
       - rewrite leb_spec. unfold nonneg_finite in *. unfold SFleb, SFcompare.
         destruct (Prim2SF (x + y)) as [?|?| |[] ? ?], (Prim2SF x) as [?|?| |[] ? ?]; done. }
  pose proof (Prim2SF_valid x) as Vx. pose proof (Prim2SF_valid y) as Vy.
  unfold nonneg_finite, nonpos, fscaled in *. rewrite add_spec in *. unfold SF64add in *.
  destruct (Prim2SF x) as [s|s| |[] mx ex]; try done; destruct (Prim2SF y) as [t|[]| |[] my ey]; try done;
    cbn [SFadd] in *.
  - by destruct s, t.
  - cbn in Vx, Vy. pose proof (canonical_bounds _ _ Vx) as (Hex & _). pose proof (canonical_bounds _ _ Vy) as (Hey & _).
    destruct (align_spec mx ex (Z.min ex ey)) as (ax & Hax & Hvx & _). destruct (align_spec my ey (Z.min ex ey)) as (ay & Hay & Hvy & _).
    rewrite Hax, Hay in *. cbn [fst cond_Zopp] in *. change (- Zpos ay) with (Zneg ay) in *.
    assert (HX : 0 ≤ Zpos mx * 2 ^ (ex + 1074)) by (pose proof (Z.pow_nonneg 2 (ex + 1074)); lia).
    destruct (Zpos ax + Zneg ay) as [|m|m] eqn:Hsum; cbn [binary_normalize] in *; [done| |].
    + destruct (round_no_crossing false m (Z.min ex ey) mx ex) as [Hi|(m' & e' & Hr & He' & _ & Hle)]; [lia|done| |].
      { by rewrite Hi in Hf. }
      rewrite Hr in *. intros _. apply Hle.
      assert (0 < 2 ^ (Z.min ex ey + 1074)) as HP by (apply Z.pow_pos_nonneg; lia).
      assert (Hsp : 2 ^ (ex + 1074) = 2 ^ (ex - Z.min ex ey) * 2 ^ (Z.min ex ey + 1074))
        by (rewrite <- Z.pow_add_r by lia; f_equal; lia).
      replace (Z.min ex (Z.min ex ey)) with (Z.min ex ey) in Hvx by lia. rewrite Hsp. nia.
    + destruct (round_no_crossing true m (Z.min ex ey) mx ex) as [Hi|(m' & e' & Hr & _)]; [lia|done| |].
      { by rewrite Hi in Hf. }
      by rewrite Hr.
Qed.

(** ** Signs of products and differences *)

Definition is_nan_sf (x : float) : Prop := Prim2SF x = S754_nan.

Lemma round_aux_sign sx mx ex lx :
  match binary_round_aux prec emax sx mx ex lx with
  | S754_finite s _ _ | S754_infinity s => s = sx
  | _ => True
  end.
Proof.
  unfold binary_round_aux. destruct (shr_fexp _ _ mx ex lx) as [r e]. destruct (shr_fexp _ _ _ e _) as [r' e'].
  destruct (shr_m r'); [done| |done]. by destruct (e' <=? _).
Qed.

Lemma mul_nonneg x y : nonneg x = true → nonneg y = true → nonneg (x * y)%float = true ∨ is_nan_sf (x * y)%float.
Proof.
  unfold nonneg, is_nan_sf. rewrite mul_spec. unfold SF64mul.
  destruct (Prim2SF x) as [s|[]| |[] mx ex], (Prim2SF y) as [t|[]| |[] my ey]; try done; cbn [SFmul xorb]; auto.
  intros _ _. pose proof (round_aux_sign false (Zpos (mx * my)) (ex + ey) loc_Exact) as H.
  destruct (binary_round_aux _ _ _ _ _ _) as [|[]| |[] ? ?]; auto; done.
Qed.

Lemma mul_nonpos x y : nonneg x = true → nonpos y = true → nonpos (x * y)%float = true ∨ is_nan_sf (x * y)%float.
Proof.
  unfold nonneg, nonpos, is_nan_sf. rewrite mul_spec. unfold SF64mul.
  destruct (Prim2SF x) as [s|[]| |[] mx ex], (Prim2SF y) as [t|[]| |[] my ey]; try done; cbn [SFmul xorb]; auto.
  intros _ _. pose proof (round_aux_sign true (Zpos (mx * my)) (ex + ey) loc_Exact) as H.
  destruct (binary_round_aux _ _ _ _ _ _) as [|[]| |[] ? ?]; auto; done.
Qed.

Lemma mul_nan x y : is_nan_sf x → is_nan_sf (x * y)%float.
Proof. unfold is_nan_sf. rewrite mul_spec. by intros ->. Qed.

Lemma add_nan x y : is_nan_sf y → isfinite (x + y)%float = false.
Proof.
  intros Hy. destruct (isfinite (x + y)) eqn:Hf; [|done]. apply isfinite_cases in Hf. rewrite add_spec in Hf.
  unfold is_nan_sf in Hy. rewrite Hy in Hf. by destruct (Prim2SF x).
Qed.

Lemma normalize_sign m e : match binary_normalize prec emax m e false with
  | S754_finite s _ _ | S754_infinity s => s = (m <? 0)
  | _ => True
  end.
Proof.
  destruct m as [|m|m]; cbn [binary_normalize]; [done| |]; unfold binary_round; destruct (shl_align _ _ _);
    apply round_aux_sign.
Qed.

(** The aligned significands of a difference have its sign. *)
Lemma sub_sign x y : nonneg_finite x = true → nonneg_finite y = true →
  (fscaled y ≤ fscaled x → nonneg (x - y)%float = true ∨ is_nan_sf (x - y)%float)
  ∧ (fscaled x ≤ fscaled y → nonpos (x - y)%float = true ∨ is_nan_sf (x - y)%float).
Proof.
  intros Hx Hy. pose proof (Prim2SF_valid x) as Vx. pose proof (Prim2SF_valid y) as Vy.
  unfold nonneg_finite, nonneg, nonpos, fscaled, is_nan_sf in *. rewrite sub_spec. unfold SF64sub.
  assert (Hpos : ∀ m e, SpecFloat.bounded prec emax m e = true → 0 < Zpos m * 2 ^ (e + 1074)).
  { intros m e (? & _)%canonical_bounds. pose proof (Z.pow_pos_nonneg 2 (e + 1074)). lia. }
  destruct (Prim2SF x) as [s|s| |[] mx ex]; try done; destruct (Prim2SF y) as [t|t| |[] my ey]; try done;
    cbn [SFsub negb].
  - by destruct s, t; auto.
  - specialize (Hpos my ey Vy). split; [lia|by left].
  - specialize (Hpos mx ex Vx). split; [by left|lia].
  - cbn in Vx, Vy. pose proof (canonical_bounds _ _ Vx) as (Hex & _). pose proof (canonical_bounds _ _ Vy) as (Hey & _).
    destruct (align_spec mx ex (Z.min ex ey)) as (ax & -> & Hvx & _). destruct (align_spec my ey (Z.min ex ey)) as (ay & -> & Hvy & _).
    cbn [fst cond_Zopp]. pose proof (normalize_sign (Zpos ax - Zpos ay) (Z.min ex ey)) as Hsign.
    replace (Z.min ex (Z.min ex ey)) with (Z.min ex ey) in Hvx by lia.
    replace (Z.min ey (Z.min ex ey)) with (Z.min ex ey) in Hvy by lia.
    set (P := 2 ^ (Z.min ex ey + 1074)). assert (HP : 0 < P) by (apply Z.pow_pos_nonneg; lia).
    assert (Hsp : ∀ e, Z.min ex ey ≤ e → 2 ^ (e + 1074) = 2 ^ (e - Z.min ex ey) * P)
      by (intros e Hle; unfold P; rewrite <- Z.pow_add_r by lia; f_equal; lia).
    rewrite (Hsp ex), (Hsp ey), !Z.mul_assoc, <- Hvx, <- Hvy by lia. rewrite <- !Z.mul_le_mono_pos_r by done.
    destruct (Zpos ax - Zpos ay) as [|d|d] eqn:Hd.
    + split; auto.
    + split; [|lia]. intros _. destruct (binary_normalize _ _ _ _ _) as [|[]| |[] ? ?]; auto; done.
    + split; [lia|]. intros _. destruct (binary_normalize _ _ _ _ _) as [|[]| |[] ? ?]; auto; done.
Qed.

Lemma fleb_nonneg x : (0 <=? x)%float = true → nonneg x = true.
Proof. rewrite leb_spec. unfold nonneg. by destruct (Prim2SF x) as [|[]| |[] ? ?]. Qed.

Lemma fltb_nonneg x : (0 <? x)%float = true → nonneg x = true.
Proof. rewrite ltb_spec. unfold nonneg. by destruct (Prim2SF x) as [|[]| |[] ? ?]. Qed.

Lemma not_fleb_nonneg x : isfinite x = true → (x <=? 0)%float = false → nonneg x = true.
Proof.
  intros Hf. apply isfinite_cases in Hf. rewrite leb_spec. unfold nonneg.
  by destruct (Prim2SF x) as [|[]| |[] ? ?].
Qed.

Lemma mul_nan_r x y : is_nan_sf y → is_nan_sf (x * y)%float.
Proof. unfold is_nan_sf. rewrite mul_spec. intros ->. by destruct (Prim2SF x). Qed.

(** ** Order *)

Lemma fleb_trans x y z : (x <=? y)%float = true → (y <=? z)%float = true → (x <=? z)%float = true.
Proof.
  intros Hxy Hyz. destruct (leb_not_nan _ _ Hxy) as [Hx Hy]. destruct (leb_not_nan _ _ Hyz) as [_ Hz].
  rewrite leb_rank in * by done. destruct Hxy as [H|H], Hyz as [H'|H']; rewrite ?H, ?H' in *; auto.
  left. by eapply lex_lt_trans.
Qed.

Lemma fltb_fleb_absurd x y : (x <? y)%float = true → (y <=? x)%float = true → False.
Proof.
  intros Hlt Hle. destruct (ltb_not_nan _ _ Hlt) as [Hx Hy]. rewrite ltb_rank in Hlt by done. rewrite leb_rank in Hle by done.
  destruct Hle as [H|H]; [by eapply lex_irrefl, lex_lt_trans|rewrite H in Hlt; by eapply lex_irrefl].
Qed.
