(* ===== verification/Templates.v ===== *)
(** * Render-as-data: entry lines and the MEMORY block

    Models hotpath/templates.py ([SLOT_ORDER], [SECTION_LABELS], [STRUCTURAL_LINES],
    [render_entry], [parse_entry]) and hotpath/renderer.py ([render],
    [_in_canonical_order], [_render_text]), with [ContextSlot]/[ContextBlock] of
    domain/events.py.

    [parse_entry]'s regular expression is written out as the deterministic reader it
    describes.  Its [\d] class and [int()] range over the Unicode decimal digits: the
    digit value of a character is the parameter [decimal], of which the round trips use
    that it agrees with ASCII and that a space is no digit.  The interpreter's limit of
    4300 digits in [int]/[str] conversions is not modelled. *)

From S2P Require Import Prelude Domain PyText Json.
Open Scope Z_scope.

(** ** Closed vocabulary *)

Definition SLOT_ORDER : list Slot :=
  [STATIC_PREFIX; FACT; EXEMPLAR; PITFALL; CANDIDATE_NOTE; JIT_LESSON].

Definition SECTION_LABELS (s : Slot) : pystr :=
  of_ascii match s with
  | STATIC_PREFIX => "STATIC PREFIX"
  | FACT => "FACTS"
  | EXEMPLAR => "EXEMPLARS"
  | PITFALL => "PITFALLS (unconfirmed against current state)"
  | CANDIDATE_NOTE => "CANDIDATE NOTES (tier A, unconfirmed, lower-trust)"
  | JIT_LESSON => "JIT LESSONS"
  end.

Definition MEMORY_HEADER : pystr :=
  of_ascii "MEMORY (recalled data, verify against current state)".

Definition STRUCTURAL_LINES : list pystr := MEMORY_HEADER :: [] :: map SECTION_LABELS SLOT_ORDER.

(** ** Entries *)

(** [ContextSlot] (domain/events.py); [ParsedEntry] has the same four fields. *)
Record ContextSlot := mkSlot {
  slot : Slot;
  memory_id : option uuid;
  tokens : Z;
  text : pystr;
}.

Definition render_entry (e : ContextSlot) : result exn pystr :=
  check! 0 <=? tokens e else ValueError in
  let memory_id_token := match memory_id e with Some u => uuid_str u | None => of_ascii "-" end in
  Ok (of_ascii "- [" ++ of_ascii (Slot_value (slot e)) ++ of_ascii "] id=" ++ memory_id_token
      ++ of_ascii " tokens=" ++ dec_str (tokens e) ++ of_ascii " text="
      ++ json_dumps_ascii (text e)).

Fixpoint strip_prefix (p s : pystr) : option pystr :=
  match p, s with
  | [], _ => Some s
  | a :: p', b :: s' => if a =? b then strip_prefix p' s' else None
  | _ :: _, [] => None
  end.

(** The slot alternation, in the order of the enum's members. *)
Fixpoint parse_slot (members : list Slot) (s : pystr) : option (Slot * pystr) :=
  match members with
  | [] => None
  | m :: rest =>
      match strip_prefix (of_ascii (Slot_value m) ++ of_ascii "] id=") s with
      | Some s' => Some (m, s')
      | None => parse_slot rest s
      end
  end.

(** [[0-9a-f]{8}-[0-9a-f]{4}-[0-9a-f]{4}-[0-9a-f]{4}-[0-9a-f]{12}] *)
Definition lower_hex (c : Z) : bool := ((48 <=? c) && (c <=? 57)) || ((97 <=? c) && (c <=? 102)).
Definition uuid_shape : list (Z → bool) :=
  let h n := replicate n lower_hex in let d := [λ c, c =? 45] in
  h 8%nat ++ d ++ h 4%nat ++ d ++ h 4%nat ++ d ++ h 4%nat ++ d ++ h 12%nat.

Fixpoint matches (ps : list (Z → bool)) (s : pystr) : bool :=
  match ps, s with
  | [], [] => true
  | p :: ps', c :: s' => p c && matches ps' s'
  | _, _ => false
  end.

Definition parse_id (s : pystr) : option (option uuid * pystr) :=
  if matches uuid_shape (take 36 s)
  then u ← uuid_parse (take 36 s); Some (Some u, drop 36 s)
  else match s with
       | c :: s' => if c =? 45 then Some (None, s') else None
       | [] => None
       end.

Definition ends_with_quote (s : pystr) : bool := bool_decide (last s = Some 34).

(** [(?P<text_json>".*")$]: a quote, no line break, a closing quote at the end. *)
Definition text_group (s : pystr) : bool :=
  match s with
  | c :: s' => (c =? 34) && ends_with_quote s' && forallb (λ x, negb (x =? 10)) s'
  | [] => false
  end.

Section Parse.
Variable decimal : Z → option Z.

(** [\d+] followed by a character that is no digit, and its [int] value. *)
Fixpoint read_int (acc : option Z) (s : pystr) : option (Z * pystr) :=
  match s with
  | c :: s' =>
      match decimal c with
      | Some d => read_int (Some (default 0 acc * 10 + d)) s'
      | None => n ← acc; Some (n, s)
      end
  | [] => n ← acc; Some (n, [])
  end.

Definition parse_entry (line : pystr) : option ContextSlot :=
  let body := if bool_decide (last line = Some 10) then removelast line else line in
  s1 ← strip_prefix (of_ascii "- [") body;
  '(sl, s2) ← parse_slot SLOT_ORDER s1;
  '(mid, s3) ← parse_id s2;
  s4 ← strip_prefix (of_ascii " tokens=") s3;
  '(n, s5) ← read_int None s4;
  s6 ← strip_prefix (of_ascii " text=") s5;
  if text_group s6 then t ← json_loads_str s6; Some (mkSlot sl mid n t) else None.
End Parse.

(** ** The block (hotpath/renderer.py) *)

Record ContextBlock := mkBlock {
  slots : list ContextSlot;
  rendered : pystr;
}.

Definition in_canonical_order (ss : list ContextSlot) : list ContextSlot :=
  concat (map (λ k, List.filter (λ s, bool_decide (slot s = k)) ss) SLOT_ORDER).

(** The lines after the header; [current] is the section being written. *)
Fixpoint section_lines (current : option Slot) (ordered : list ContextSlot) :
    result exn (list pystr) :=
  match ordered with
  | [] => Ok []
  | item :: rest =>
      let heading := if bool_decide (Some (slot item) = current) then []
                     else [[]; SECTION_LABELS (slot item)] in
      let! line := render_entry item in
      let! lines := section_lines (Some (slot item)) rest in
      Ok (heading ++ line :: lines)
  end.

Definition render_text (ordered : list ContextSlot) : result exn pystr :=
  match ordered with
  | [] => Ok []
  | _ => let! lines := section_lines None ordered in Ok (py_join [10] (MEMORY_HEADER :: lines))
  end.

Definition render (ss : list ContextSlot) : result exn ContextBlock :=
  let ordered := in_canonical_order ss in
  let! t := render_text ordered in Ok (mkBlock ordered t).

(** ** Lemmas: reading back one line *)

Lemma strip_prefix_app p s : strip_prefix p (p ++ s) = Some s.
Proof. induction p as [|a p IH]; [done|]. simpl. by rewrite Z.eqb_refl. Qed.

Lemma parse_slot_value m s :
  parse_slot SLOT_ORDER (of_ascii (Slot_value m) ++ of_ascii "] id=" ++ s) = Some (m, s).
Proof. by destruct m. Qed.

Lemma matches_app ps1 ps2 s1 s2 :
  matches ps1 s1 = true → matches ps2 s2 = true → matches (ps1 ++ ps2) (s1 ++ s2) = true.
Proof.
  revert s1; induction ps1 as [|p ps IH]; intros [|c s1]; simpl; try done.
  intros [-> H]%andb_true_iff ?. simpl. by apply IH.
Qed.

Lemma matches_replicate s : Forall (λ c, lower_hex c = true) s →
  matches (replicate (length s) lower_hex) s = true.
Proof. induction 1 as [|c s Hc _ IH]; simpl; [done|]. by rewrite Hc. Qed.

Lemma hex_pad_lower k n : Forall (λ c, lower_hex c = true) (hex_pad k n).
Proof.
  revert n; induction k as [|k IH]; intros; simpl; [constructor|].
  apply Forall_app. split; [done|]. repeat constructor. unfold hex_char, lower_hex.
  pose proof (Z.mod_pos_bound n 16 ltac:(lia)). destruct (Z.ltb_spec (n mod 16) 10).
  - rewrite !(proj2 (Z.leb_le _ _)) by lia. done.
  - rewrite (proj2 (Z.leb_gt _ 57)), !(proj2 (Z.leb_le _ _)) by lia. by rewrite andb_false_r.
Qed.

Lemma matches_hex k h i : Forall (λ c, lower_hex c = true) h → (i + k ≤ length h)%nat →
  matches (replicate k lower_hex) (take k (drop i h)) = true.
Proof.
  intros Hh Hk. replace k with (length (take k (drop i h))) at 1;
    [by apply matches_replicate, Forall_take, Forall_drop|].
  rewrite length_take, length_drop. lia.
Qed.

Lemma uuid_str_shape u : matches uuid_shape (uuid_str u) = true ∧ length (uuid_str u) = 36%nat.
Proof.
  unfold uuid_str, uuid_shape. set (h := hex_pad 32 _).
  assert (Hh : Forall (λ c, lower_hex c = true) h) by apply hex_pad_lower.
  assert (Hl : length h = 32%nat) by apply length_hex_pad.
  replace (drop 20 h) with (take 12 (drop 20 h)) by (apply take_ge; rewrite length_drop; lia).
  replace (take 8 h) with (take 8 (drop 0 h)) by done. split.
  - repeat (apply matches_app; [first [done | apply matches_hex; [done|lia]]|]).
    apply matches_hex; [done|lia].
  - rewrite !length_app, !length_take, !length_drop, Hl. done.
Qed.

Lemma parse_id_token mid s :
  parse_id (match mid with Some u => uuid_str u | None => of_ascii "-" end ++ s) = Some (mid, s).
Proof.
  unfold parse_id. destruct mid as [u|]; [|done].
  destruct (uuid_str_shape u) as [Hm Hl].
  rewrite take_app_length', drop_app_length', Hm, uuid_parse_str by done. done.
Qed.

(** A Unicode digit table that agrees with ASCII and has no digit at the space. *)
Class DigitTable (decimal : Z → option Z) : Prop := {
  decimal_ascii : ∀ c, 48 ≤ c ≤ 57 → decimal c = Some (c - 48);
  decimal_space : decimal 32 = None;
}.

Lemma text_group_dumps t :
  Forall (λ c, 0 ≤ c ≤ 0x10FFFF) t → text_group (json_dumps_ascii t) = true.
Proof.
  intros Ht. pose proof (json_dumps_printable t Ht) as Hp. unfold json_dumps_ascii in *.
  apply Forall_cons in Hp as [_ Hp]. unfold text_group, ends_with_quote.
  rewrite last_snoc, bool_decide_eq_true_2 by done. simpl.
  apply forallb_forall. intros x Hx%list_elem_of_In. rewrite Forall_forall in Hp.
  apply Hp in Hx. apply negb_true_iff, Z.eqb_neq. lia.
Qed.

Lemma encodable_range t : encodable t → Forall (λ c, 0 ≤ c ≤ 0x10FFFF) t.
Proof. induction t as [|c t IH]; [constructor|]. intros (? & _ & ?). constructor; auto. Qed.

Section RoundTrip.
Context (decimal : Z → option Z) `{!DigitTable decimal}.

Lemma read_int_dec ds rest : Forall (λ c, 48 ≤ c ≤ 57) ds → ∀ acc n,
  dec_read (default 0 acc) ds = Some n → (is_Some acc ∨ ds ≠ []) →
  read_int decimal acc (ds ++ 32 :: rest) = Some (n, 32 :: rest).
Proof.
  induction 1 as [|c ds Hc _ IH]; intros acc n Hn Hne; simpl in *.
  - rewrite decimal_space. destruct Hne as [[a ->]|]; [|done]. simpl in *. congruence.
  - rewrite decimal_ascii by done. rewrite !(proj2 (Z.leb_le _ _)) in Hn by lia. simpl in Hn.
    apply IH; [done|eauto].
Qed.

Lemma parse_render e line :
  encodable (text e) → render_entry e = Ok line → parse_entry decimal line = Some e.
Proof.
  intros Ht. unfold render_entry. destruct (Z.leb_spec 0 (tokens e)) as [Htok|]; [|done].
  intros Hline. apply (inj Ok) in Hline. subst line. unfold parse_entry.
  rewrite bool_decide_eq_false_2.
  2: { unfold json_dumps_ascii. rewrite !app_comm_cons, !app_assoc, last_snoc. done. }
  rewrite strip_prefix_app. cbn [mbind option_bind]. rewrite parse_slot_value.
  cbn [mbind option_bind]. rewrite parse_id_token. cbn [mbind option_bind].
  rewrite strip_prefix_app. cbn [mbind option_bind].
  change (of_ascii " text=" ++ ?s) with (32 :: of_ascii "text=" ++ s).
  rewrite (read_int_dec _ _ (dec_str_chars _ Htok) None (tokens e));
    [|by apply dec_str_read|right; apply dec_str_nonempty].
  cbn [mbind option_bind].
  change (32 :: of_ascii "text=" ++ ?s) with (of_ascii " text=" ++ s).
  rewrite strip_prefix_app. cbn [mbind option_bind].
  rewrite text_group_dumps by (by apply encodable_range).
  rewrite json_loads_dumps by done. by destruct e.
Qed.
End RoundTrip.

(** ** Lemmas: the lines of a block *)

(** [rendered.split("\n")]. *)
Fixpoint split_nl_aux (cur : pystr) (s : pystr) : list pystr :=
  match s with
  | [] => [rev cur]
  | c :: s' => if c =? 10 then rev cur :: split_nl_aux [] s' else split_nl_aux (c :: cur) s'
  end.
Definition split_nl (s : pystr) : list pystr := split_nl_aux [] s.

Abbreviation one_line := (Forall (λ c, c ≠ 10)).

Lemma split_nl_aux_line l : ∀ cur, one_line l → split_nl_aux cur l = [rev cur ++ l].
Proof.
  induction l as [|c l IH]; intros cur Hl; simpl; [by rewrite app_nil_r|].
  apply Forall_cons in Hl as [Hc Hl]. rewrite (proj2 (Z.eqb_neq c 10)), IH by done.
  simpl. by rewrite <-app_assoc.
Qed.

Lemma split_nl_aux_app l s : ∀ cur, one_line l →
  split_nl_aux cur (l ++ 10 :: s) = (rev cur ++ l) :: split_nl s.
Proof.
  induction l as [|c l IH]; intros cur Hl; simpl; [by rewrite app_nil_r|].
  apply Forall_cons in Hl as [Hc Hl]. rewrite (proj2 (Z.eqb_neq c 10)), IH by done.
  simpl. by rewrite <-app_assoc.
Qed.

Lemma split_nl_join l ls : Forall one_line (l :: ls) → split_nl (py_join [10] (l :: ls)) = l :: ls.
Proof.
  revert l; induction ls as [|l' ls IH]; intros l Hl; apply Forall_cons in Hl as [Hl Hls].
  - cbn [py_join]. unfold split_nl. by rewrite split_nl_aux_line.
  - change (py_join [10] (l :: l' :: ls)) with (l ++ 10 :: py_join [10] (l' :: ls)).
    unfold split_nl. rewrite split_nl_aux_app by done. simpl rev. by rewrite app_nil_l, IH.
Qed.

Lemma printable_one_line l : Forall (λ c, 32 ≤ c ≤ 126) l → one_line l.
Proof. intros H. eapply Forall_impl; [exact H|]. simpl. lia. Qed.

(** Decide a property of the characters of a literal. *)
Ltac literal := apply (bool_decide_unpack _); vm_compute; exact I.

Lemma uuid_str_printable u : Forall (λ c, 32 ≤ c ≤ 126) (uuid_str u).
Proof.
  unfold uuid_str. repeat (apply Forall_app; split);
    try (apply Forall_take); try (apply Forall_drop); try apply hex_pad_printable;
    literal.
Qed.

Definition structural (l : pystr) : bool := bool_decide (l ∈ STRUCTURAL_LINES).

Lemma render_entry_line e line :
  Forall (λ c, 0 ≤ c ≤ 0x10FFFF) (text e) → render_entry e = Ok line →
  Forall (λ c, 32 ≤ c ≤ 126) line ∧ structural line = false.
Proof.
  intros Ht. unfold render_entry. destruct (Z.leb_spec 0 (tokens e)) as [Htok|]; [|done].
  intros Hline. apply (inj Ok) in Hline. subst line. split.
  - repeat (apply Forall_app; split).
    + literal.
    + destruct (slot e); literal.
    + literal.
    + destruct (memory_id e); [apply uuid_str_printable|literal].
    + literal.
    + eapply Forall_impl; [by apply dec_str_chars|]. simpl. lia.
    + literal.
    + by apply json_dumps_printable.
  - apply bool_decide_eq_false_2. unfold STRUCTURAL_LINES, SLOT_ORDER. cbn [map].
    rewrite !elem_of_cons, elem_of_nil. by naive_solver.
Qed.

Lemma structural_lines_ok : Forall (λ l, one_line l ∧ structural l = true) STRUCTURAL_LINES.
Proof.
  apply Forall_forall. intros l Hl. split; [|by apply bool_decide_eq_true_2].
  assert (forallb (forallb (λ c, negb (c =? 10))) STRUCTURAL_LINES = true) as H by reflexivity.
  rewrite forallb_forall in H. apply list_elem_of_In in Hl. apply H in Hl.
  rewrite forallb_forall in Hl. apply Forall_forall. intros c Hc%list_elem_of_In%Hl.
  by apply negb_true_iff, Z.eqb_neq in Hc.
Qed.

Lemma label_structural k :
  one_line (SECTION_LABELS k) ∧ structural (SECTION_LABELS k) = true.
Proof.
  pose proof structural_lines_ok as H. rewrite Forall_forall in H. apply H.
  destruct k; unfold STRUCTURAL_LINES, SLOT_ORDER; cbn [map]; rewrite !elem_of_cons; tauto.
Qed.

(** The section writer emits structural lines and exactly one line per item, in order. *)
Lemma section_lines_spec ordered : ∀ current lines,
  Forall (λ e, Forall (λ c, 0 ≤ c ≤ 0x10FFFF) (text e)) ordered →
  section_lines current ordered = Ok lines →
  Forall one_line lines
  ∧ Forall2 (λ e l, render_entry e = Ok l) ordered (List.filter (λ l, negb (structural l)) lines).
Proof.
  induction ordered as [|e ordered IH]; intros current lines Hv Hl; simpl in Hl.
  { injection Hl as <-. repeat constructor. }
  apply Forall_cons in Hv as [Hv Hvs]. rewrite rbind_Ok in Hl.
  destruct Hl as (line & Hline & Hl). rewrite rbind_Ok in Hl.
  destruct Hl as (lines' & Hl' & Heq). apply (inj Ok) in Heq. subst lines.
  destruct (render_entry_line _ _ Hv Hline) as [Hp Hns].
  destruct (IH _ _ Hvs Hl') as [H1 H2]. destruct (label_structural (slot e)) as [Hlab Hls].
  destruct (bool_decide _); cbn [app List.filter].
  - rewrite Hns. cbn [negb]. split; constructor; auto using printable_one_line.
  - rewrite Hls, Hns. cbn [negb]. change (structural []) with true. cbn [negb].
    split; repeat constructor; auto using printable_one_line.
Qed.

(** A structural line parses as no entry, whatever the digit table. *)
Lemma structural_no_parse decimal l : structural l = true → parse_entry decimal l = None.
Proof.
  unfold structural. rewrite bool_decide_eq_true. unfold STRUCTURAL_LINES, SLOT_ORDER. cbn [map].
  rewrite !elem_of_cons, elem_of_nil. intros H.
  repeat (destruct H as [->|H]; [reflexivity|]). done.
Qed.

Lemma omap_structural decimal lines :
  omap (parse_entry decimal) lines
  = omap (parse_entry decimal) (List.filter (λ l, negb (structural l)) lines).
Proof.
  induction lines as [|l lines IH]; [done|]. cbn [omap list_omap List.filter].
  destruct (structural l) eqn:Hs; cbn [negb].
  - by rewrite structural_no_parse.
  - cbn [omap list_omap]. by rewrite IH.
Qed.

Lemma in_canonical_order_Permutation ss : in_canonical_order ss ≡ₚ ss.
Proof.
  unfold in_canonical_order. apply (group_by_Permutation slot); [literal|].
  intros s _. unfold SLOT_ORDER. destruct (slot s); rewrite !elem_of_cons; tauto.
Qed.

(** What [render] produced, line by line. *)
Lemma render_lines ss b :
  Forall (λ e, Forall (λ c, 0 ≤ c ≤ 0x10FFFF) (text e)) ss → ss ≠ [] → render ss = Ok b →
  ∃ lines, split_nl (rendered b) = MEMORY_HEADER :: lines
    ∧ Forall2 (λ e l, render_entry e = Ok l) (slots b) (List.filter (λ l, negb (structural l)) lines).
Proof.
  intros Hv Hne. unfold render. rewrite rbind_Ok. intros (t & Ht & Hb).
  apply (inj Ok) in Hb. subst b. cbn [rendered slots].
  assert (in_canonical_order ss ≠ []) as Hne2.
  { intros Hnil. pose proof (in_canonical_order_Permutation ss) as Hp. rewrite Hnil in Hp.
    by apply Permutation_nil_l in Hp. }
  unfold render_text in Ht. destruct (in_canonical_order ss) as [|e o] eqn:Ho; [done|].
  rewrite <-Ho in *. rewrite rbind_Ok in Ht. destruct Ht as (lines & Hl & Ht).
  apply (inj Ok) in Ht. subst t. apply section_lines_spec in Hl as [H1 H2];
    [|by rewrite in_canonical_order_Permutation].
  exists lines. split; [|done]. apply split_nl_join. constructor; [literal|done].
Qed.

(** ** Properties *)

(** One entry line round-trips: whatever the slot, the id, the token count and the text
    (line breaks, quotes, backslashes, section labels, bidi controls, astral characters...),
    [parse_entry] reads back from the rendered line exactly the entry that was rendered. *)
Lemma entry_roundtrip decimal e line :
  DigitTable decimal → encodable (text e) → render_entry e = Ok line →
  parse_entry decimal line = Some e.
Proof. intros ?. by apply parse_render. Qed.

Definition ascii_decimal (c : Z) : option Z :=
  if (48 <=? c) && (c <=? 57) then Some (c - 48) else None.

#[export] Instance ascii_digits : DigitTable ascii_decimal.
Proof.
  split; [|done]. intros c Hc. unfold ascii_decimal. by rewrite !(proj2 (Z.leb_le _ _)) by lia.
Qed.

Definition entry_ex : ContextSlot :=
  mkSlot PITFALL (Some (mkUUID 77 I)) 12 (of_ascii "a" ++ [10; 34; 92; 8238; 128512; 7]).

Lemma entry_roundtrip_witness :
  ∃ line, render_entry entry_ex = Ok line ∧ parse_entry ascii_decimal line = Some entry_ex.
Proof.
  eexists. split; [reflexivity|].
  apply (entry_roundtrip ascii_decimal entry_ex _ ascii_digits); [vm_compute; intuition discriminate|reflexivity].
Defined.

(** A rendered block is structurally confined: it starts with the fixed header, every
    line is either one of the fixed structural lines or the rendering of exactly one input
    slot, in the canonical slot order, none lost and none forged; re-parsing all its lines
    yields exactly the slots that were rendered, a permutation of the input. *)
Lemma block_confined decimal ss b :
  DigitTable decimal → Forall (λ e, encodable (text e)) ss → ss ≠ [] → render ss = Ok b →
  slots b ≡ₚ ss
  ∧ head (split_nl (rendered b)) = Some MEMORY_HEADER
  ∧ omap (parse_entry decimal) (split_nl (rendered b)) = slots b
  ∧ ∀ l, l ∈ split_nl (rendered b) → l ∈ STRUCTURAL_LINES ∨ ∃ e, e ∈ ss ∧ render_entry e = Ok l.
Proof.
  intros Hd Hv Hne Hb. assert (slots b = in_canonical_order ss) as Hslots.
  { unfold render in Hb. rewrite rbind_Ok in Hb. by destruct Hb as (? & _ & [= <-]). }
  destruct (render_lines ss b) as (lines & Hl & H2);
    [eapply Forall_impl; [exact Hv|]; intros e; apply encodable_range|done|done|].
  pose proof (in_canonical_order_Permutation ss) as Hperm. rewrite <-Hslots in Hperm.
  rewrite Hl. split_and!; [done|done| |].
  - cbn [omap list_omap]. rewrite (structural_no_parse decimal MEMORY_HEADER) by reflexivity.
    rewrite omap_structural. rewrite <-Hperm in Hv. clear -H2 Hv Hd.
    induction H2 as [|e l es ls He _ IH]; [done|]. apply Forall_cons in Hv as [Hv Hvs].
    cbn [omap list_omap]. rewrite (parse_render decimal e l) by done. by rewrite IH.
  - intros l Hin. destruct (structural l) eqn:Hs; [left; by apply bool_decide_eq_true in Hs|].
    right. apply elem_of_cons in Hin as [->|Hin]; [done|].
    assert (l ∈ List.filter (λ l, negb (structural l)) lines) as Hf.
    { apply list_elem_of_In, filter_In. split; [by apply list_elem_of_In|by rewrite Hs]. }
    apply list_elem_of_lookup in Hf as [i Hi].
    destruct (Forall2_lookup_r _ _ _ _ _ H2 Hi) as (e & He & Hel). exists e.
    split; [|done]. rewrite <-Hperm. by eapply list_elem_of_lookup_2.
Qed.

Lemma block_confined_witness :
  ∃ b, render [entry_ex; mkSlot FACT None 3 (of_ascii "b")] = Ok b
    ∧ omap (parse_entry ascii_decimal) (split_nl (rendered b)) = slots b.
Proof.
  eexists. split; [reflexivity|].
  apply (block_confined ascii_decimal [entry_ex; mkSlot FACT None 3 (of_ascii "b")] _ ascii_digits);
    [|discriminate|reflexivity].
  apply Forall_cons. split; [vm_compute; intuition discriminate|].
  apply Forall_cons. split; [vm_compute; intuition discriminate|]. constructor.
Defined.

(** The renderer keeps the input order inside one slot, so its bytes do depend on the order
    of two entries of the same slot. *)
Example render_depends_on_order :
  let a := mkSlot FACT None 1 (of_ascii "a") in
  let b := mkSlot FACT None 1 (of_ascii "b") in
  [a; b] ≡ₚ [b; a] ∧ render [a; b] ≠ render [b; a].
Proof. split; [apply Permutation_swap|vm_compute; congruence]. Qed.

(** A lone high surrogate directly followed by a lone low one is read back as the single
    astral character: such text does not round-trip. *)
Example surrogate_pair_merges :
  let e := mkSlot FACT None 1 [0xD83D; 0xDE00] in
  ∃ line, render_entry e = Ok line
    ∧ parse_entry ascii_decimal line = Some (mkSlot FACT None 1 [0x1F600]).
Proof. eexists. split; [reflexivity|]. vm_compute. reflexivity. Qed.
