(* ===== verification/Assembler.v ===== *)
(** * Budget packing and placement (hotpath/assembler.py)

    [Candidate] with its construction checks, [_better], [_collapse], [_dedup], [_pack],
    [_clamp] and [assemble].  The configuration is the part of [EffectiveConfig] the
    function reads ([budget.*] and [tier_a.candidate_cap_per_run]), with no assumption on
    its values: caps may be negative, inconsistent or missing.  Scores are binary64. *)

From S2P Require Import Prelude Domain PyText PyFloat Templates.
Open Scope Z_scope.

(** ** Candidates *)

(** [Candidate.__post_init__], as one test on the fields. *)
Definition candidate_ok (txt : pystr) (tok : Z) (sc : float) (key : pystr) : bool :=
  (0 <=? tok) && negb (py_blank txt) && negb (bool_decide (key = [])) && isfinite sc.

(** A [Candidate] that was constructed, hence passed its checks. *)
Record Candidate := mkCandidate {
  c_slot : Slot;
  c_memory_id : MemoryId;
  c_mem_type : MemType;
  c_text : pystr;
  c_tokens : Z;
  c_score : float;
  c_dedup_key : pystr;
  c_ok : Is_true (candidate_ok c_text c_tokens c_score c_dedup_key);
}.

(** [Candidate(slot=..., ...)]. *)
Definition make_candidate (s : Slot) (m : MemoryId) (mt : MemType) (txt : pystr) (tok : Z)
    (sc : float) (key : pystr) : result exn Candidate :=
  match decide (Is_true (candidate_ok txt tok sc key)) with
  | left H => Ok (mkCandidate s m mt txt tok sc key H)
  | right _ => Err ValueError
  end.

Record BudgetConfig := mkBudget {
  total_tokens : Z;
  static_prefix : Z;
  static_prefix_prefs : Z;
  static_prefix_lessons : Z;
  dynamic : Z;
  slot_caps : gmap string Z;
  candidate_cap_per_run : Z;
}.

Record AssembledContext := mkAssembled {
  a_slots : list ContextSlot;
  a_total_tokens : Z;
  a_dropped : list MemoryId;
}.

Definition DYNAMIC_SLOTS : list Slot := filter (λ s, s ≠ STATIC_PREFIX) SLOT_ORDER.

(** ** Deduplication *)

Definition id_str (m : MemoryId) : pystr := uuid_str (MemoryId_value m).

Definition better (candidate current : Candidate) : bool :=
  (c_score current <? c_score candidate)%float
  || ((c_score candidate =? c_score current)%float
      && str_ltb (id_str (c_memory_id candidate)) (id_str (c_memory_id current))).

Section Collapse.
Context {K : Type} `{EqDecision K} (key : Candidate → K).

Definition collapse_step (best : list (K * Candidate)) (c : Candidate) : list (K * Candidate) :=
  match dict_get best (key c) with
  | None => dict_set best (key c) c
  | Some current => if better c current then dict_set best (key c) c else best
  end.

Definition collapse (cs : list Candidate) : list Candidate := (foldl collapse_step [] cs).*2.
End Collapse.

Definition dedup (cs : list Candidate) : list Candidate :=
  collapse c_dedup_key (collapse c_memory_id cs).

(** ** Packing *)

(** The sort key [(-score, str(memory_id))]. *)
Definition pack_key (c : Candidate) : float * pystr := ((- c_score c)%float, id_str (c_memory_id c)).
Definition candidate_leb (a b : Candidate) : bool := key_leb (pack_key a) (pack_key b).

Fixpoint pack_loop (cap : Z) (max_count : option Z) (selected : list Candidate) (used : Z)
    (ordered : list Candidate) : list Candidate * Z :=
  match ordered with
  | [] => (selected, used)
  | c :: rest =>
      if match max_count with Some m => m <=? Z.of_nat (length selected) | None => false end
      then pack_loop cap max_count selected used rest
      else if cap <? used + c_tokens c then pack_loop cap max_count selected used rest
      else pack_loop cap max_count (selected ++ [c]) (used + c_tokens c) rest
  end.

Definition pack (cs : list Candidate) (cap : Z) (max_count : option Z) : list Candidate * Z :=
  pack_loop cap max_count [] 0 (py_sorted candidate_leb cs).

Definition clamp (cap headroom : Z) : Z := Z.max (Z.min cap headroom) 0.

(** ** [assemble] *)

Definition of_slot (s : Slot) (cs : list Candidate) : list Candidate :=
  List.filter (λ c, bool_decide (c_slot c = s)) cs.

(** One iteration of the loop over the dynamic slots: budget left and what was selected. *)
Definition dynamic_step (cfg : BudgetConfig) (deduped : list Candidate)
    (st : list Candidate * Z) (s : Slot) : list Candidate * Z :=
  let '(selected, remaining) := st in
  let slot_cap := clamp (default 0 (slot_caps cfg !! Slot_value s)) remaining in
  let max_count := if bool_decide (s = CANDIDATE_NOTE) then Some (candidate_cap_per_run cfg) else None in
  let '(sel, used) := pack (of_slot s deduped) slot_cap max_count in
  (selected ++ sel, remaining - used).

Definition to_slot (c : Candidate) : ContextSlot :=
  mkSlot (c_slot c) (Some (MemoryId_value (c_memory_id c))) (c_tokens c) (c_text c).

Definition memory_id_leb (a b : MemoryId) : bool := str_leb (id_str a) (id_str b).

(** The selection, in placement order, and the tokens it spends. *)
Definition select (cs : list Candidate) (cfg : BudgetConfig) : list Candidate * Z :=
  let deduped := dedup cs in
  let static_items := of_slot STATIC_PREFIX deduped in
  let prefs := List.filter (λ c, bool_decide (c_mem_type c = PREFERENCE)) static_items in
  let lessons := List.filter (λ c, negb (bool_decide (c_mem_type c = PREFERENCE))) static_items in
  let static_pool := clamp (static_prefix cfg) (total_tokens cfg) in
  let '(prefs_selected, prefs_used) :=
    pack prefs (clamp (static_prefix_prefs cfg) static_pool) None in
  let lessons_cap := clamp (static_prefix_lessons cfg) (static_pool - prefs_used) in
  let '(lessons_selected, lessons_used) := pack lessons lessons_cap None in
  let dynamic_pool := clamp (dynamic cfg) (total_tokens cfg - prefs_used - lessons_used) in
  let '(dynamic_selected, remaining) :=
    foldl (dynamic_step cfg deduped) ([], dynamic_pool) DYNAMIC_SLOTS in
  (prefs_selected ++ lessons_selected ++ dynamic_selected,
   prefs_used + lessons_used + (dynamic_pool - remaining)).

Definition assemble (cs : list Candidate) (cfg : BudgetConfig) : AssembledContext :=
  let '(ordered, total) := select cs cfg in
  let selected_ids : gset MemoryId := list_to_set (map c_memory_id ordered) in
  let dropped : gset MemoryId :=
    list_to_set (filter (λ m, m ∉ selected_ids) (map c_memory_id cs)) in
  mkAssembled (map to_slot ordered) total (py_sorted memory_id_leb (elements dropped)).

(** ** Lemmas: the order of candidates *)

Lemma candidate_ok_spec c : 0 ≤ c_tokens c ∧ not_nan (c_score c).
Proof.
  destruct c as [s m mt txt tok sc key H]; simpl. apply Is_true_true in H. unfold candidate_ok in H.
  bsplit. split; [by apply Z.leb_le|by apply isfinite_not_nan].
Qed.

Lemma pack_key_not_nan c : not_nan (pack_key c).1.
Proof. apply opp_not_nan, candidate_ok_spec. Qed.

Lemma candidate_leb_rank a b :
  candidate_leb a b = true
  ↔ lex_lt (frank (pack_key a).1) (frank (pack_key b).1)
    ∨ frank (pack_key a).1 = frank (pack_key b).1
      ∧ str_leb (id_str (c_memory_id a)) (id_str (c_memory_id b)) = true.
Proof. apply key_leb_rank; apply pack_key_not_nan. Qed.

#[export] Instance candidate_leb_preorder : TotalPreorder candidate_leb.
Proof.
  split.
  - intros a b. rewrite !candidate_leb_rank.
    destruct (lex_trichotomy (frank (pack_key a).1) (frank (pack_key b).1)) as [|[Heq|]]; [auto| |auto].
    rewrite Heq. destruct (leb_total (leb := str_leb) (id_str (c_memory_id a)) (id_str (c_memory_id b))); auto.
  - intros a b c. rewrite !candidate_leb_rank.
    intros [H1|[H1 H1']] [H2|[H2 H2']].
    + left. eapply lex_lt_trans; eauto.
    + left. by rewrite <-H2.
    + left. by rewrite H1.
    + right. split; [congruence|]. eapply leb_trans; eauto.
Qed.

#[export] Instance memory_id_leb_preorder : TotalPreorder memory_id_leb.
Proof.
  split; [intros x y; apply (leb_total (leb := str_leb))|].
  intros x y z. apply (leb_trans (leb := str_leb)).
Qed.

Lemma id_str_inj a b : id_str a = id_str b → a = b.
Proof. destruct a, b. unfold id_str. simpl. by intros ->%uuid_str_inj. Qed.

(** Ties of the sort key are between copies of one memory. *)
Lemma candidate_leb_antisym a b :
  candidate_leb a b = true → candidate_leb b a = true → c_memory_id a = c_memory_id b.
Proof.
  rewrite !candidate_leb_rank. intros [H1|[H1 H1']] [H2|[H2 H2']].
  - destruct (lex_irrefl (frank (pack_key a).1)). by eapply lex_lt_trans.
  - rewrite H2 in H1. by apply lex_irrefl in H1.
  - rewrite H1 in H2. by apply lex_irrefl in H2.
  - by apply id_str_inj, str_leb_antisym.
Qed.

(** [_better] is the strict part of the sort order. *)
Lemma better_leb a b : better a b = negb (candidate_leb b a).
Proof.
  destruct (candidate_ok_spec a) as [_ Ha], (candidate_ok_spec b) as [_ Hb].
  apply eq_bool_prop_intro. rewrite !Is_true_true, negb_true_iff, <-not_true_iff_false.
  rewrite candidate_leb_rank. unfold better, pack_key; cbn [fst].
  rewrite orb_true_iff, andb_true_iff, ltb_rank, eqb_rank, !frank_opp by done.
  unfold str_ltb. rewrite negb_true_iff, <-not_true_iff_false.
  generalize (str_leb (id_str (c_memory_id b)) (id_str (c_memory_id a))); intros t.
  destruct (frank (c_score a)) as [[a1 a2] a3], (frank (c_score b)) as [[b1 b2] b3].
  cbn [lex_lt]. destruct t.
  - split; [intros [?|[[= -> -> ->] ?]]; [|done]|].
    + intros [?|[[= ] _]]; lia.
    + intros Hn. left. destruct (decide (a1 = b1 ∧ a2 = b2 ∧ a3 = b3)) as [(-> & -> & ->)|];
        [destruct Hn; by right|]. lia.
  - split; [intros [?|[[= -> -> ->] _]]; intros [?|[_ ?]]; done || lia|].
    intros Hn. destruct (decide (a1 = b1 ∧ a2 = b2 ∧ a3 = b3)) as [(-> & -> & ->)|]; [by right|]. left. lia.
Qed.

(** ** Lemmas: [_collapse] keeps the best candidate of every key *)

Section CollapseLemmas.
Context {K : Type} `{EqDecision K} (key : Candidate → K).

Record collapse_inv (best : list (K * Candidate)) (seen : list Candidate) : Prop := {
  ci_nodup : NoDup best.*1;
  ci_best : ∀ k c, (k, c) ∈ best →
    key c = k ∧ c ∈ seen ∧ ∀ d, d ∈ seen → key d = k → candidate_leb c d = true;
  ci_all : ∀ d, d ∈ seen → key d ∈ best.*1;
}.

Lemma collapse_inv_step best seen c :
  collapse_inv best seen → collapse_inv (collapse_step key best c) (seen ++ [c]).
Proof.
  intros [Hnd Hbest Hall]. unfold collapse_step.
  assert (Hins : (∀ d, d ∈ seen → key d = key c → candidate_leb c d = true) →
                 collapse_inv (dict_set best (key c) c) (seen ++ [c])).
  { intros Hle. split.
    - by apply dict_set_NoDup.
    - intros k x. rewrite elem_of_dict_set by done. intros [[-> ->]|[Hne Hx]].
      + split; [done|]. split; [by apply elem_of_snoc; right|]. intros d Hd Hk.
        apply elem_of_snoc in Hd as [Hd| ->]; [by apply Hle|].
        by apply leb_refl; apply _.
      + apply Hbest in Hx as (<- & Hx & Hmin). split; [done|]. split; [by apply elem_of_snoc; left|].
        intros d Hd Hk. apply elem_of_snoc in Hd as [Hd| ->]; [by apply Hmin|done].
    - intros d Hd.
      assert (∀ k, k ∈ best.*1 ∨ k = key c → k ∈ (dict_set best (key c) c).*1) as Hk.
      { intros k Hk. destruct (decide (key c ∈ best.*1)) as [Hin|Hin].
        - rewrite dict_set_keys by done. by destruct Hk as [|Heq]; [|subst k].
        - rewrite dict_set_new, fmap_app by done. apply elem_of_app.
          destruct Hk as [|Heq]; [by left|subst k; right; left]. }
      apply Hk. apply elem_of_snoc in Hd as [Hd| ->]; auto. }
  destruct (dict_get best (key c)) as [cur|] eqn:Hg.
  - apply dict_get_Some_elem in Hg. destruct (Hbest _ _ Hg) as (Hkc & Hcur & Hmin).
    rewrite better_leb. destruct (candidate_leb cur c) eqn:Hle; cbn [negb].
    + split; [done| |].
      * intros k x Hx. destruct (Hbest _ _ Hx) as (<- & Hxs & Hxm). split; [done|].
        split; [by apply elem_of_snoc; left|]. intros d Hd Hk.
        apply elem_of_snoc in Hd as [Hd| ->]; [by apply Hxm|].
        eapply leb_trans; [|exact Hle]. by apply Hxm; [|congruence].
      * intros d Hd. apply elem_of_snoc in Hd as [Hd| ->]; [auto|].
        apply list_elem_of_fmap. by exists (key c, cur).
    + apply Hins. intros d Hd Hk. apply leb_false_flip in Hle; [|apply _].
      eapply leb_trans; [exact Hle|]. by apply Hmin.
  - apply Hins. intros d Hd Hk. exfalso. apply dict_get_None in Hg. apply Hg. rewrite <-Hk. auto.
Qed.

Lemma collapse_fold cs : collapse_inv (foldl (collapse_step key) [] cs) cs.
Proof.
  induction cs as [|c cs IH] using rev_ind.
  - split; [constructor|by intros ?? ?%not_elem_of_nil|by intros ? ?%not_elem_of_nil].
  - rewrite foldl_snoc. by apply collapse_inv_step.
Qed.

(** The survivors: input candidates, one per key, none beaten by another of its key. *)
Lemma collapse_spec cs :
  NoDup (map key (collapse key cs))
  ∧ (∀ c, c ∈ collapse key cs →
       c ∈ cs ∧ ∀ d, d ∈ cs → key d = key c → candidate_leb c d = true)
  ∧ (∀ d, d ∈ cs → ∃ c, c ∈ collapse key cs ∧ key c = key d).
Proof.
  destruct (collapse_fold cs) as [Hnd Hbest Hall]. unfold collapse.
  set (best := foldl (collapse_step key) [] cs) in *. clearbody best.
  assert (Hkeys : map key best.*2 = best.*1).
  { clear Hall Hnd. induction best as [|[k c] best IH]; [done|]. simpl.
    destruct (Hbest k c) as [-> _]; [left|]. f_equal. apply IH. intros k' c' ?. apply Hbest. by right. }
  split_and!.
  - by rewrite Hkeys.
  - intros c Hc. apply list_elem_of_fmap in Hc as ([k c'] & -> & Hc).
    apply Hbest in Hc as (<- & ? & ?). done.
  - intros d Hd. apply Hall in Hd. rewrite <-Hkeys in Hd.
    apply list_elem_of_fmap in Hd as (c & -> & Hc). eauto.
Qed.

(** Nothing to collapse: the input comes back unchanged. *)
Lemma collapse_NoDup cs : NoDup (map key cs) → collapse key cs = cs.
Proof.
  intros Hnd. unfold collapse. assert (foldl (collapse_step key) [] cs = (λ c, (key c, c)) <$> cs) as ->.
  { induction cs as [|c cs IH] using rev_ind; [done|].
    rewrite map_app, NoDup_app in Hnd. destruct Hnd as (Hnd & Hdis & _).
    rewrite foldl_snoc, IH, fmap_app by done. unfold collapse_step.
    assert (key c ∉ ((λ c, (key c, c)) <$> cs).*1) as Hk.
    { rewrite <-list_fmap_compose. intros Hin. eapply Hdis; [|left].
      apply list_elem_of_fmap in Hin as (d & Hd & Hin). apply list_elem_of_fmap. by exists d. }
    rewrite (proj2 (dict_get_None _ _) Hk). by apply dict_set_new. }
  rewrite <-list_fmap_compose. by apply list_fmap_id.
Qed.
End CollapseLemmas.

(** ** Lemmas: packing *)

Definition sum_tokens (cs : list Candidate) : Z := foldr (λ c n, c_tokens c + n) 0 cs.

Lemma sum_tokens_app a b : sum_tokens (a ++ b) = sum_tokens a + sum_tokens b.
Proof. induction a as [|c a IH]; simpl; [done|]. rewrite IH. lia. Qed.

Lemma sum_tokens_nonneg cs : 0 ≤ sum_tokens cs.
Proof. induction cs as [|c cs IH]; simpl; [done|]. pose proof (candidate_ok_spec c). lia. Qed.

(** The count limit, reached or not. *)
Definition count_reached (mc : option Z) (sel : list Candidate) : Prop :=
  ∃ m, mc = Some m ∧ m ≤ Z.of_nat (length sel).

Lemma pack_loop_spec cap mc ordered : ∀ sel res n,
  pack_loop cap mc sel (sum_tokens sel) ordered = (res, n) →
  (∀ m, mc = Some m → Z.of_nat (length sel) ≤ Z.max 0 m) → sum_tokens sel ≤ Z.max 0 cap →
  ∃ more, res = sel ++ more ∧ more `sublist_of` ordered ∧ n = sum_tokens res
    ∧ n ≤ Z.max 0 cap ∧ (∀ m, mc = Some m → Z.of_nat (length res) ≤ Z.max 0 m)
    ∧ ∀ c, c ∈ ordered → c ∈ more ∨ cap < n + c_tokens c ∨ count_reached mc res.
Proof.
  induction ordered as [|c ordered IH]; intros sel res n Hp Hcount Hcap; cbn [pack_loop] in Hp.
  { injection Hp as <- <-. exists []. rewrite app_nil_r. split_and!; try done.
    by intros c ?%not_elem_of_nil. }
  assert (Hskip : pack_loop cap mc sel (sum_tokens sel) ordered = (res, n) →
    (∀ more, n = sum_tokens res → res = sel ++ more → cap < n + c_tokens c ∨ count_reached mc res) →
    ∃ more, res = sel ++ more ∧ more `sublist_of` c :: ordered ∧ n = sum_tokens res
      ∧ n ≤ Z.max 0 cap ∧ (∀ m, mc = Some m → Z.of_nat (length res) ≤ Z.max 0 m)
      ∧ ∀ d, d ∈ c :: ordered → d ∈ more ∨ cap < n + c_tokens d ∨ count_reached mc res).
  { intros Hp' Hwhy. destruct (IH sel res n Hp' Hcount Hcap) as (more & Hres & Hsub & Hn & ? & ? & Hmax).
    exists more. split_and!; try done; [by apply sublist_cons|].
    intros d [->|Hd]%elem_of_cons; [right; eauto|auto]. }
  destruct (match mc with Some m => m <=? Z.of_nat (length sel) | None => false end) eqn:Hm.
  - apply Hskip; [done|]. intros more _ ->. right. destruct mc as [m|]; [|done].
    exists m. split; [done|]. apply Z.leb_le in Hm. rewrite length_app. lia.
  - destruct (Z.ltb_spec cap (sum_tokens sel + c_tokens c)) as [Hover|Hfit].
    + apply Hskip; [done|]. intros more -> ->. left. rewrite sum_tokens_app.
      pose proof (sum_tokens_nonneg more). lia.
    + clear Hskip. replace (sum_tokens sel + c_tokens c) with (sum_tokens (sel ++ [c])) in *
        by (rewrite sum_tokens_app; simpl; lia).
      destruct (IH _ _ _ Hp) as (more & -> & Hsub & Hn & Hle & Hc & Hmax); [|lia|].
      { intros m ->. apply Z.leb_gt in Hm. rewrite length_app. simpl. lia. }
      exists (c :: more). rewrite <-app_assoc in *. cbn [app] in *.
      split_and!; try done; [by apply sublist_skip|].
      intros d [->|Hd]%elem_of_cons; [left; left|].
      destruct (Hmax d Hd) as [?|?]; [left; by right|auto].
Qed.

Lemma pack_spec cs cap mc sel n :
  0 ≤ cap → pack cs cap mc = (sel, n) →
  sel ⊆+ cs ∧ n = sum_tokens sel ∧ n ≤ cap
  ∧ (∀ m, mc = Some m → Z.of_nat (length sel) ≤ Z.max 0 m)
  ∧ ∀ c, c ∈ cs → c ∈ sel ∨ cap < n + c_tokens c ∨ count_reached mc sel.
Proof.
  intros Hcap Hp. unfold pack in Hp.
  destruct (pack_loop_spec cap mc _ [] sel n Hp) as (more & -> & Hsub & Hn & Hle & Hc & Hmax);
    [simpl; intros; lia|simpl; lia|].
  cbn [app] in *. split_and!; try done; [|lia|].
  - etrans; [by apply sublist_submseteq|]. by rewrite (py_sorted_Permutation candidate_leb).
  - intros c Hin. apply Hmax. by apply elem_of_py_sorted.
Qed.

Lemma clamp_bounds cap headroom :
  0 ≤ clamp cap headroom ≤ Z.max 0 cap ∧ (0 ≤ headroom → clamp cap headroom ≤ headroom).
Proof. unfold clamp. lia. Qed.

Definition cap_of (cfg : BudgetConfig) (s : Slot) : Z := default 0 (slot_caps cfg !! Slot_value s).

(** What one dynamic slot received out of the deduplicated candidates. *)
Record slot_part (cfg : BudgetConfig) (deduped : list Candidate) (left : Z) (s : Slot)
    (part : list Candidate) : Prop := {
  sp_sub : part ⊆+ of_slot s deduped;
  sp_cap : sum_tokens part ≤ Z.max 0 (cap_of cfg s);
  sp_count : s = CANDIDATE_NOTE → Z.of_nat (length part) ≤ Z.max 0 (candidate_cap_per_run cfg);
  sp_full : ∀ c, c ∈ of_slot s deduped →
    c ∈ part ∨ cap_of cfg s < sum_tokens part + c_tokens c ∨ left < c_tokens c
    ∨ s = CANDIDATE_NOTE ∧ candidate_cap_per_run cfg ≤ Z.of_nat (length part);
}.

Lemma slot_part_less cfg deduped left left' s part :
  left' ≤ left → slot_part cfg deduped left s part → slot_part cfg deduped left' s part.
Proof.
  intros Hle [H1 H2 H3 H4]. split; try done. intros c Hc.
  destruct (H4 c Hc) as [?|[?|[?|?]]]; auto. right; right; left. lia.
Qed.

Lemma dynamic_loop_spec cfg deduped ss : ∀ sel rem sel' rem',
  0 ≤ rem → foldl (dynamic_step cfg deduped) (sel, rem) ss = (sel', rem') →
  ∃ parts, sel' = sel ++ concat parts ∧ rem' = rem - sum_tokens (concat parts) ∧ 0 ≤ rem'
    ∧ Forall2 (slot_part cfg deduped rem') ss parts.
Proof.
  induction ss as [|s ss IH]; intros sel rem sel' rem' Hrem Hf; cbn [foldl] in Hf.
  { injection Hf as <- <-. exists []. simpl. rewrite app_nil_r. split_and!; [done|lia|done|constructor]. }
  unfold dynamic_step at 2 in Hf.
  destruct (pack _ _ _) as [part used] eqn:Hp in Hf.
  fold (cap_of cfg s) in Hp. pose proof (clamp_bounds (cap_of cfg s) rem) as [[Hc0 Hc1] Hc2].
  destruct (pack_spec _ _ _ _ _ Hc0 Hp) as (Hsub & -> & Hle & Hcnt & Hmax).
  specialize (Hc2 Hrem).
  apply IH in Hf as (parts & -> & -> & Hpos & Hparts); [|lia].
  exists (part :: parts). cbn [concat]. rewrite sum_tokens_app, <-app_assoc.
  split_and!; [done|lia|lia|].
  pose proof (sum_tokens_nonneg (concat parts)). constructor.
  - split.
    + done.
    + lia.
    + intros ->. apply Hcnt. done.
    + intros c Hc. destruct (Hmax c Hc) as [?|[Hlt|(m & Hm & Hle')]]; [auto| |].
      * unfold clamp in *. right. destruct (decide (cap_of cfg s < sum_tokens part + c_tokens c)); [auto|].
        right; left. pose proof (candidate_ok_spec c). pose proof (sum_tokens_nonneg part). lia.
      * case_bool_decide; [|done]. injection Hm as <-. auto.
  - eapply Forall2_impl; [exact Hparts|]. intros s' p'. apply slot_part_less. lia.
Qed.

(** ** Lemmas: the whole selection *)

Definition pref_items (cs : list Candidate) : list Candidate :=
  List.filter (λ c, bool_decide (c_mem_type c = PREFERENCE)) (of_slot STATIC_PREFIX (dedup cs)).
Definition lesson_items (cs : list Candidate) : list Candidate :=
  List.filter (λ c, negb (bool_decide (c_mem_type c = PREFERENCE))) (of_slot STATIC_PREFIX (dedup cs)).

Record selection (cs : list Candidate) (cfg : BudgetConfig)
    (prefs lessons : list Candidate) (parts : list (list Candidate)) (left : Z) : Prop := {
  se_prefs : prefs ⊆+ pref_items cs;
  se_lessons : lessons ⊆+ lesson_items cs;
  se_prefs_cap : sum_tokens prefs ≤ Z.max 0 (static_prefix_prefs cfg);
  se_lessons_cap : sum_tokens lessons ≤ Z.max 0 (static_prefix_lessons cfg);
  se_static : sum_tokens prefs + sum_tokens lessons ≤ Z.max 0 (static_prefix cfg);
  se_dynamic : sum_tokens (concat parts) ≤ Z.max 0 (dynamic cfg);
  se_total : sum_tokens prefs + sum_tokens lessons + sum_tokens (concat parts)
             ≤ Z.max 0 (total_tokens cfg);
  se_left : left = clamp (dynamic cfg) (total_tokens cfg - sum_tokens prefs - sum_tokens lessons)
                   - sum_tokens (concat parts);
  se_parts : Forall2 (slot_part cfg (dedup cs) left) DYNAMIC_SLOTS parts;
}.

Lemma select_spec cs cfg sel n :
  select cs cfg = (sel, n) →
  ∃ prefs lessons parts left, sel = prefs ++ lessons ++ concat parts ∧ n = sum_tokens sel
    ∧ selection cs cfg prefs lessons parts left.
Proof.
  unfold select. fold (pref_items cs) (lesson_items cs).
  set (pool := clamp (static_prefix cfg) (total_tokens cfg)).
  pose proof (clamp_bounds (static_prefix cfg) (total_tokens cfg)) as [[Hs0 Hs1] Hs2]. fold pool in Hs0, Hs1, Hs2.
  destruct (pack (pref_items cs) _ None) as [prefs pu] eqn:Hp.
  pose proof (clamp_bounds (static_prefix_prefs cfg) pool) as [[Hp0 Hp1] Hp2].
  destruct (pack_spec _ _ _ _ _ Hp0 Hp) as (Hpsub & -> & Hple & _).
  destruct (pack (lesson_items cs) _ None) as [lessons lu] eqn:Hl.
  pose proof (clamp_bounds (static_prefix_lessons cfg) (pool - sum_tokens prefs)) as [[Hl0 Hl1] Hl2].
  destruct (pack_spec _ _ _ _ _ Hl0 Hl) as (Hlsub & -> & Hlle & _).
  set (dp := clamp (dynamic cfg) _).
  pose proof (clamp_bounds (dynamic cfg) (total_tokens cfg - sum_tokens prefs - sum_tokens lessons))
    as [[Hd0 Hd1] Hd2]. fold dp in Hd0, Hd1, Hd2.
  destruct (foldl _ _ _) as [dsel rem] eqn:Hf.
  destruct (dynamic_loop_spec _ _ _ _ _ _ _ Hd0 Hf) as (parts & -> & -> & Hpos & Hparts).
  intros [= <- <-]. cbn [app] in *.
  exists prefs, lessons, parts, (dp - sum_tokens (concat parts)).
  rewrite !sum_tokens_app. split_and!; [done|lia|].
  assert (0 ≤ total_tokens cfg - sum_tokens prefs - sum_tokens lessons ∨ dp = 0) as Htot
    by (subst dp; unfold clamp; lia).
  assert (0 ≤ total_tokens cfg ∨ pool = 0) as Hpt by (subst pool; unfold clamp; lia).
  specialize (Hp2 Hs0). assert (0 ≤ pool - sum_tokens prefs) as Hpp by lia. specialize (Hl2 Hpp).
  split; [exact Hpsub|exact Hlsub| | | | | |reflexivity|exact Hparts];
    clear Hp Hl Hf Hparts; clearbody dp pool; lia.
Qed.

Lemma DYNAMIC_SLOTS_eq : DYNAMIC_SLOTS = [FACT; EXEMPLAR; PITFALL; CANDIDATE_NOTE; JIT_LESSON].
Proof. reflexivity. Qed.

Lemma elem_of_slot c s cs : c ∈ of_slot s cs ↔ c ∈ cs ∧ c_slot c = s.
Proof.
  unfold of_slot. rewrite list_elem_of_In, filter_In, <-list_elem_of_In.
  by rewrite bool_decide_eq_true.
Qed.

Lemma filter_split {A} (f : A → bool) l :
  List.filter f l ++ List.filter (λ x, negb (f x)) l ≡ₚ l.
Proof.
  induction l as [|x l IH]; [done|]. simpl. destruct (f x); simpl.
  - by rewrite IH.
  - by rewrite <-Permutation_middle, IH.
Qed.

Lemma submseteq_concat {A} (gs hs : list (list A)) :
  Forall2 (λ g h, g ⊆+ h) gs hs → concat gs ⊆+ concat hs.
Proof. induction 1; simpl; [done|]. by apply submseteq_app. Qed.

(** The selection never invents or duplicates a deduplicated candidate. *)
Lemma selection_sub cs cfg prefs lessons parts left :
  selection cs cfg prefs lessons parts left →
  prefs ++ lessons ++ concat parts ⊆+ dedup cs.
Proof.
  intros [Hp Hl _ _ _ _ _ _ Hparts].
  rewrite <-(group_by_Permutation c_slot (dedup cs) (STATIC_PREFIX :: DYNAMIC_SLOTS)).
  2: { literal. }
  2: { intros c _. rewrite DYNAMIC_SLOTS_eq. destruct (c_slot c); rewrite !elem_of_cons; tauto. }
  cbn [map concat]. rewrite app_assoc. apply submseteq_app.
  - etrans; [by apply submseteq_app|]. unfold pref_items, lesson_items. by rewrite filter_split.
  - apply submseteq_concat. clear -Hparts. induction Hparts as [|s p ss ps Hsp _ IH]; [constructor|].
    simpl. constructor; [|done]. apply Hsp.
Qed.

(** Each group of the selection holds candidates of its own slot. *)
Lemma selection_grouped cs cfg prefs lessons parts left :
  selection cs cfg prefs lessons parts left →
  Forall2 (λ k g, ∀ c, c ∈ g → c_slot c = k) SLOT_ORDER ((prefs ++ lessons) :: parts).
Proof.
  intros [Hp Hl _ _ _ _ _ _ Hparts]. change SLOT_ORDER with (STATIC_PREFIX :: DYNAMIC_SLOTS).
  assert (∀ c f, c ∈ List.filter f (of_slot STATIC_PREFIX (dedup cs)) → c_slot c = STATIC_PREFIX) as Hst.
  { intros c f. rewrite list_elem_of_In, filter_In, <-list_elem_of_In, elem_of_slot. tauto. }
  constructor.
  - intros c [Hc|Hc]%elem_of_app; eapply Hst; by eapply elem_of_submseteq.
  - eapply Forall2_impl; [exact Hparts|]. intros s p Hsp c Hc.
    eapply elem_of_submseteq in Hc; [|apply Hsp]. by apply elem_of_slot in Hc as [_ ?].
Qed.

Lemma dedup_NoDup cs :
  NoDup (map c_memory_id (dedup cs)) ∧ NoDup (map c_dedup_key (dedup cs))
  ∧ ∀ c, c ∈ dedup cs → c ∈ cs.
Proof.
  destruct (collapse_spec c_memory_id cs) as (H1 & H2 & _).
  destruct (collapse_spec c_dedup_key (collapse c_memory_id cs)) as (H3 & H4 & _).
  fold (dedup cs) in H3, H4. split_and!; [|done|intros c Hc; by apply H2, H4].
  assert (NoDup (dedup cs)) as Hnd by (by eapply NoDup_fmap_1).
  assert (∀ a b, a ∈ dedup cs → b ∈ dedup cs → c_memory_id a = c_memory_id b → a = b) as Hinj.
  { intros a b Ha%H4 Hb%H4 Hab. destruct Ha as [Ha _], Hb as [Hb _].
    clear -Ha Hb Hab H1. induction (collapse c_memory_id cs) as [|x l IH];
      [by apply not_elem_of_nil in Ha|].
    apply NoDup_cons in H1 as [Hx H1].
    apply elem_of_cons in Ha as [->|Ha], Hb as [->|Hb]; [done| | |by apply IH].
    - destruct Hx. rewrite Hab. apply list_elem_of_fmap. eauto.
    - destruct Hx. rewrite <-Hab. apply list_elem_of_fmap. eauto. }
  clear -Hnd Hinj. induction Hnd as [|x l Hx Hnd IH]; [constructor|]. simpl. constructor.
  - intros (y & Hxy & Hy)%list_elem_of_fmap. assert (x = y) as ->; [|done].
    apply Hinj; [left|by right|done].
  - apply IH. intros a b ??. apply Hinj; by right.
Qed.

(** ** Properties *)

(** Tokens of the slots whose kind satisfies a test. *)
Definition slot_tokens (p : Slot → bool) (ss : list ContextSlot) : Z :=
  foldr (λ s n, tokens s + n) 0 (List.filter (λ s, p (slot s)) ss).

Lemma slot_tokens_map p cs :
  slot_tokens p (map to_slot cs) = sum_tokens (List.filter (λ c, p (c_slot c)) cs).
Proof.
  unfold slot_tokens. induction cs as [|c cs IH]; [done|]. simpl.
  destruct (p (c_slot c)); simpl; by rewrite IH.
Qed.

Lemma count_notes_map k cs :
  length (List.filter (λ s, bool_decide (slot s = k)) (map to_slot cs))
  = length (List.filter (λ c, bool_decide (c_slot c = k)) cs).
Proof. induction cs as [|c cs IH]; [done|]. simpl. case_bool_decide; simpl; by rewrite IH. Qed.

Lemma SLOT_ORDER_NoDup : NoDup SLOT_ORDER.
Proof. literal. Qed.

Lemma selection_static cs cfg prefs lessons parts left :
  selection cs cfg prefs lessons parts left →
  List.filter (λ c, bool_decide (c_slot c = STATIC_PREFIX)) (prefs ++ lessons ++ concat parts)
  = prefs ++ lessons.
Proof.
  intros Hsel%selection_grouped. rewrite app_assoc.
  by apply (filter_grouped c_slot SLOT_ORDER ((prefs ++ lessons) :: parts) 0 _ _ SLOT_ORDER_NoDup).
Qed.

Lemma selection_dynamic cs cfg prefs lessons parts left i s part :
  selection cs cfg prefs lessons parts left → DYNAMIC_SLOTS !! i = Some s → parts !! i = Some part →
  List.filter (λ c, bool_decide (c_slot c = s)) (prefs ++ lessons ++ concat parts) = part.
Proof.
  intros Hsel%selection_grouped Hs Hp. rewrite app_assoc.
  by apply (filter_grouped c_slot SLOT_ORDER ((prefs ++ lessons) :: parts) (S i) _ _ SLOT_ORDER_NoDup).
Qed.

Lemma dynamic_index s : s ≠ STATIC_PREFIX → ∃ i, DYNAMIC_SLOTS !! i = Some s.
Proof.
  intros Hs. apply list_elem_of_lookup. rewrite DYNAMIC_SLOTS_eq.
  destruct s; rewrite ?elem_of_cons; tauto.
Qed.

(** The part a dynamic slot received, through the whole selection. *)
Lemma selection_part cs cfg prefs lessons parts left s :
  selection cs cfg prefs lessons parts left → s ≠ STATIC_PREFIX →
  slot_part cfg (dedup cs) left s
    (List.filter (λ c, bool_decide (c_slot c = s)) (prefs ++ lessons ++ concat parts)).
Proof.
  intros Hsel [i Hi]%dynamic_index. pose proof (se_parts _ _ _ _ _ _ Hsel) as Hparts.
  destruct (Forall2_lookup_l _ _ _ _ _ Hparts Hi) as (part & Hp & Hpart).
  by rewrite (selection_dynamic _ _ _ _ _ _ _ _ _ Hsel Hi Hp).
Qed.

Lemma sum_filter_split (p : Candidate → bool) cs :
  sum_tokens cs = sum_tokens (List.filter p cs) + sum_tokens (List.filter (λ c, negb (p c)) cs).
Proof.
  induction cs as [|c cs IH]; [done|]. simpl. rewrite IH. destruct (p c); simpl; lia.
Qed.

(** [C38] The token budget holds by construction, under any configuration whatsoever
    (negative, inconsistent or missing caps): the reported total is the sum of the placed
    slots and never exceeds [total_tokens]; the static prefix stays within its pool, the
    dynamic slots within theirs, each dynamic slot within its own cap, and the Tier A
    candidate notes within their count. *)
Theorem assemble_within_budget cs cfg :
  let a := assemble cs cfg in
  a_total_tokens a = slot_tokens (λ _, true) (a_slots a)
  ∧ a_total_tokens a ≤ Z.max 0 (total_tokens cfg)
  ∧ slot_tokens (λ s, bool_decide (s = STATIC_PREFIX)) (a_slots a) ≤ Z.max 0 (static_prefix cfg)
  ∧ slot_tokens (λ s, negb (bool_decide (s = STATIC_PREFIX))) (a_slots a) ≤ Z.max 0 (dynamic cfg)
  ∧ (∀ s, s ≠ STATIC_PREFIX →
       slot_tokens (λ k, bool_decide (k = s)) (a_slots a) ≤ Z.max 0 (cap_of cfg s))
  ∧ Z.of_nat (length (List.filter (λ s, bool_decide (slot s = CANDIDATE_NOTE)) (a_slots a)))
    ≤ Z.max 0 (candidate_cap_per_run cfg).
Proof.
  intros a. subst a. unfold assemble. destruct (select cs cfg) as [sel n] eqn:Hsel.
  cbn [a_slots a_total_tokens].
  destruct (select_spec _ _ _ _ Hsel) as (prefs & lessons & parts & left & -> & -> & H).
  rewrite !slot_tokens_map, (selection_static _ _ _ _ _ _ H), filter_all_true by done.
  pose proof (sum_filter_split (λ c, bool_decide (c_slot c = STATIC_PREFIX)) (prefs ++ lessons ++ concat parts)) as Hsum.
  rewrite (selection_static _ _ _ _ _ _ H), !sum_tokens_app in Hsum.
  rewrite !sum_tokens_app. pose proof H as [_ _ _ _ Hst Hdy Htot _ _]. split_and!; try lia.
  - intros s Hs. rewrite slot_tokens_map. by apply (selection_part _ _ _ _ _ _ s H).
  - rewrite count_notes_map. by apply (selection_part _ _ _ _ _ _ CANDIDATE_NOTE H).
Qed.

(** Nothing is lost, forged or repeated: the placed slots are the images of input
    candidates with pairwise distinct memory ids and pairwise distinct dedup keys; every
    input memory id is either placed or reported as dropped, never both, and the report
    lists only input ids, each once, in the order of their text. *)
Lemma assemble_accounts_for_every_id cs cfg :
  let a := assemble cs cfg in
  (∃ sel, a_slots a = map to_slot sel ∧ (∀ c, c ∈ sel → c ∈ cs)
     ∧ NoDup (map c_memory_id sel) ∧ NoDup (map c_dedup_key sel)
     ∧ ∀ m, m ∈ a_dropped a ↔ m ∈ map c_memory_id cs ∧ m ∉ map c_memory_id sel)
  ∧ NoDup (a_dropped a)
  ∧ StronglySorted (λ x y, memory_id_leb x y = true) (a_dropped a).
Proof.
  intros a. subst a. unfold assemble. destruct (select cs cfg) as [sel n] eqn:Hsel.
  cbn [a_slots a_dropped].
  destruct (select_spec _ _ _ _ Hsel) as (prefs & lessons & parts & left & Heq & _ & H).
  apply selection_sub in H. rewrite <-Heq in H. destruct (dedup_NoDup cs) as (Hid & Hkey & Hin).
  split_and!.
  - exists sel. split_and!.
    + done.
    + intros c Hc. by apply Hin, (elem_of_submseteq sel).
    + eapply submseteq_NoDup; [exact Hid|]. by apply fmap_submseteq.
    + eapply submseteq_NoDup; [exact Hkey|]. by apply fmap_submseteq.
    + intros m. rewrite elem_of_py_sorted, elem_of_elements, elem_of_list_to_set.
      rewrite list_elem_of_filter, elem_of_list_to_set. tauto.
  - rewrite (py_sorted_Permutation memory_id_leb). apply NoDup_elements.
  - apply py_sorted_Sorted. apply _.
Qed.

(** Placement: the assembler's slot list is already in the renderer's canonical order
    (the static prefix first, then the dynamic slots in [SLOT_ORDER]), so the renderer's
    defensive regrouping is the identity on it and the structured and the rendered view
    list the same slots in the same order. *)
Lemma assemble_placement cs cfg :
  in_canonical_order (a_slots (assemble cs cfg)) = a_slots (assemble cs cfg)
  ∧ ∀ b, render (a_slots (assemble cs cfg)) = Ok b → slots b = a_slots (assemble cs cfg).
Proof.
  assert (Hfix : in_canonical_order (a_slots (assemble cs cfg)) = a_slots (assemble cs cfg)).
  { unfold assemble. destruct (select cs cfg) as [sel n] eqn:Hsel. cbn [a_slots].
    destruct (select_spec _ _ _ _ Hsel) as (prefs & lessons & parts & left & -> & _ & H).
    apply selection_grouped in H. rewrite app_assoc.
    change ((prefs ++ lessons) ++ concat parts) with (concat ((prefs ++ lessons) :: parts)).
    rewrite concat_map. apply (group_by_grouped slot SLOT_ORDER); [apply SLOT_ORDER_NoDup|].
    apply Forall2_fmap_r. eapply Forall2_impl; [exact H|].
    intros k g Hg x (c & -> & Hc)%list_elem_of_fmap. by apply Hg. }
  split; [exact Hfix|]. intros b. unfold render. rewrite Hfix, rbind_Ok. by intros (t & _ & [= <-]).
Qed.

(** Packing is work-conserving: a deduplicated candidate for a dynamic slot is left out
    only if it does not fit what is left of its slot's cap, or of the shared dynamic pool at
    the end of packing, or the candidate-note count is used up.  So no budget is left idle
    that an omitted candidate could have used. *)
Lemma assemble_work_conserving cs cfg c :
  c ∈ dedup cs → c_slot c ≠ STATIC_PREFIX →
  let ss := a_slots (assemble cs cfg) in
  let spent p := slot_tokens p ss in
  to_slot c ∈ ss
  ∨ cap_of cfg (c_slot c) < spent (λ k, bool_decide (k = c_slot c)) + c_tokens c
  ∨ clamp (dynamic cfg) (total_tokens cfg - spent (λ k, bool_decide (k = STATIC_PREFIX)))
    < spent (λ k, negb (bool_decide (k = STATIC_PREFIX))) + c_tokens c
  ∨ c_slot c = CANDIDATE_NOTE
    ∧ candidate_cap_per_run cfg
      ≤ Z.of_nat (length (List.filter (λ s, bool_decide (slot s = CANDIDATE_NOTE)) ss)).
Proof.
  intros Hc Hs. unfold assemble. destruct (select cs cfg) as [sel n] eqn:Hsel. cbn [a_slots].
  destruct (select_spec _ _ _ _ Hsel) as (prefs & lessons & parts & left & -> & _ & H).
  rewrite !slot_tokens_map.
  pose proof (sum_filter_split (λ c, bool_decide (c_slot c = STATIC_PREFIX)) (prefs ++ lessons ++ concat parts)) as Hsum.
  rewrite (selection_static _ _ _ _ _ _ H) in *. rewrite !sum_tokens_app in *.
  pose proof (se_left _ _ _ _ _ _ H) as Hleft.
  destruct (sp_full _ _ _ _ _ (selection_part _ _ _ _ _ _ _ H Hs) c) as [Hin|[Hcap|[Hl|[Hn Hcnt]]]].
  - apply elem_of_slot. split; done.
  - left. apply list_elem_of_fmap. exists c. split; [done|]. by apply elem_of_slot in Hin as [? _].
  - auto.
  - right; right; left. rewrite Z.sub_add_distr. lia.
  - right; right; right. split; [done|]. rewrite count_notes_map. by rewrite Hn in Hcnt.
Qed.

(** *** Independence of the input order *)

Lemma same_id_eq cs a b :
  NoDup (map c_memory_id cs) → a ∈ cs → b ∈ cs → c_memory_id a = c_memory_id b → a = b.
Proof.
  intros Hnd Ha Hb Hab. induction cs as [|x l IH]; [by apply not_elem_of_nil in Ha|].
  apply NoDup_cons in Hnd as [Hx Hnd].
  apply elem_of_cons in Ha as [->|Ha], Hb as [->|Hb]; [done| | |by apply IH].
  - destruct Hx. rewrite Hab. apply list_elem_of_fmap. eauto.
  - destruct Hx. rewrite <-Hab. apply list_elem_of_fmap. eauto.
Qed.

Lemma dedup_Permutation cs cs' :
  NoDup (map c_memory_id cs) → cs ≡ₚ cs' → dedup cs ≡ₚ dedup cs'.
Proof.
  intros Hnd Hp. assert (NoDup (map c_memory_id cs')) as Hnd' by (by rewrite <-Hp).
  assert (Hincl : ∀ l l', NoDup (map c_memory_id l) → l ≡ₚ l' →
            ∀ c, c ∈ collapse c_dedup_key l → c ∈ collapse c_dedup_key l').
  { intros l l' Hl Hll c Hc.
    destruct (collapse_spec c_dedup_key l) as (_ & H2 & _). destruct (H2 c Hc) as [Hcl Hmin].
    destruct (collapse_spec c_dedup_key l') as (_ & H2' & H3').
    destruct (H3' c) as (d & Hd & Hkey); [by rewrite <-Hll|].
    destruct (H2' d Hd) as [Hdl Hmin']. rewrite <-Hll in Hdl.
    assert (c = d) as ->; [|done]. eapply same_id_eq; [exact Hl|done|done|].
    apply candidate_leb_antisym; [by apply Hmin|]. apply Hmin'; [by rewrite <-Hll|done]. }
  unfold dedup. rewrite !(collapse_NoDup c_memory_id) by done.
  apply NoDup_Permutation.
  - eapply NoDup_fmap_1, collapse_spec.
  - eapply NoDup_fmap_1, collapse_spec.
  - intros c. split; [by apply Hincl|]. apply Hincl; done.
Qed.

Lemma filter_Permutation {A} (f : A → bool) l l' :
  l ≡ₚ l' → List.filter f l ≡ₚ List.filter f l'.
Proof.
  induction 1 as [|x l l' _ IH|x y l|l1 l2 l3 _ IH1 _ IH2]; simpl; [done| | |by etrans].
  - destruct (f x); [by constructor|done].
  - destruct (f x), (f y); try done. apply Permutation_swap.
Qed.

Lemma pack_Permutation cs cs' cap mc :
  NoDup (map c_memory_id cs) → cs ≡ₚ cs' → pack cs cap mc = pack cs' cap mc.
Proof.
  intros Hnd Hp. unfold pack. f_equal. apply py_sorted_perm_inv; [apply _| |done].
  intros a b Ha Hb H1 H2. eapply same_id_eq; [done..|]. by apply candidate_leb_antisym.
Qed.

Lemma filter_ids_NoDup (f : Candidate → bool) cs :
  NoDup (map c_memory_id cs) → NoDup (map c_memory_id (List.filter f cs)).
Proof.
  induction cs as [|c cs IH]; [done|]. simpl. intros [Hc Hnd]%NoDup_cons.
  destruct (f c); [|by apply IH]. simpl. constructor; [|by apply IH].
  intros (d & Hd & [Hin _]%list_elem_of_In%filter_In)%list_elem_of_fmap.
  apply Hc. rewrite Hd. apply list_elem_of_fmap. exists d. split; [done|]. by apply list_elem_of_In.
Qed.

Lemma select_Permutation cs cs' cfg :
  NoDup (map c_memory_id cs) → cs ≡ₚ cs' → select cs cfg = select cs' cfg.
Proof.
  intros Hnd Hp. pose proof (dedup_Permutation _ _ Hnd Hp) as Hd.
  destruct (dedup_NoDup cs) as [Hdn _].
  assert (Hpack : ∀ f g cap mc,
    pack (List.filter g (List.filter f (dedup cs))) cap mc
    = pack (List.filter g (List.filter f (dedup cs'))) cap mc).
  { intros. apply pack_Permutation; [by apply filter_ids_NoDup, filter_ids_NoDup|].
    by apply filter_Permutation, filter_Permutation. }
  assert (Hstep : ∀ st s, dynamic_step cfg (dedup cs) st s = dynamic_step cfg (dedup cs') st s).
  { intros [sel rem] s. unfold dynamic_step, of_slot.
    rewrite (pack_Permutation (List.filter _ (dedup cs)) (List.filter (λ c, bool_decide (c_slot c = s)) (dedup cs')));
      [done|by apply filter_ids_NoDup|by apply filter_Permutation]. }
  unfold select, of_slot. rewrite Hpack.
  destruct (pack _ _ None) as [prefs pu]. rewrite Hpack. destruct (pack _ _ None) as [lessons lu].
  assert (∀ ss st, foldl (dynamic_step cfg (dedup cs)) st ss = foldl (dynamic_step cfg (dedup cs')) st ss) as ->;
    [|done].
  induction ss as [|s ss IH]; intros st; [done|]. simpl. by rewrite Hstep, IH.
Qed.

(** Determinism: when no memory is proposed twice, the assembled context (slots, order,
    token total and drop report) does not depend on the order in which the retrieval arms
    listed the candidates. *)
Lemma assemble_order_independent cs cs' cfg :
  NoDup (map c_memory_id cs) → cs ≡ₚ cs' → assemble cs cfg = assemble cs' cfg.
Proof.
  intros Hnd Hp. unfold assemble. rewrite (select_Permutation cs cs') by done.
  destruct (select cs' cfg) as [sel n]. f_equal. do 2 f_equal.
  apply list_to_set_perm_L. by rewrite Hp.
Qed.

(** A candidate for concrete examples. *)
Definition cand_ex (s : Slot) (id : N) (H : Is_true (N.ltb id (2 ^ 128))) (tok : Z) (sc : float)
    (key : string) : option Candidate :=
  match make_candidate s (mkMemoryId (mkUUID id H)) LESSON (of_ascii "x") tok sc (of_ascii key) with
  | Ok c => Some c | Err _ => None
  end.

Definition budget_ex : BudgetConfig :=
  mkBudget 100 60 20 50 40 {[ "fact" := 30; "pitfall" := 30 ]} 1.

Lemma assemble_order_independent_witness :
  let cs := omap id [cand_ex FACT 1 I 20 0.5%float "a"; cand_ex FACT 2 I 20 0.75%float "b";
                     cand_ex PITFALL 3 I 5 0.25%float "a"] in
  assemble cs budget_ex = assemble (reverse cs) budget_ex ∧ length cs = 3%nat.
Proof.
  split; [|reflexivity]. apply assemble_order_independent; [|symmetry; apply reverse_Permutation].
  apply (bool_decide_unpack _). vm_compute. exact I.
Defined.

(** [_better] breaks ties by the memory id only: two proposals of the same memory with the
    same score are tied, the first one seen wins, and the context depends on the input order. *)
Example duplicate_tie_order_dependent :
  let cs := omap id [cand_ex FACT 1 I 20 0.5%float "a"; cand_ex PITFALL 1 I 20 0.5%float "a"] in
  cs ≡ₚ reverse cs ∧ a_slots (assemble cs budget_ex) ≠ a_slots (assemble (reverse cs) budget_ex).
Proof. split; [symmetry; apply reverse_Permutation|vm_compute; congruence]. Qed.

Definition cand_low : Candidate :=
  mkCandidate FACT (mkMemoryId (mkUUID 1 I)) LESSON [120] 20 0.5%float [97] I.
Definition cand_high : Candidate :=
  mkCandidate FACT (mkMemoryId (mkUUID 2 I)) LESSON [120] 20 0.75%float [98] I.

(** The lower-scored fact does not fit next to the higher-scored one: 20 + 20 > 30. *)
Lemma assemble_work_conserving_witness :
  let ss := a_slots (assemble [cand_low; cand_high] budget_ex) in
  to_slot cand_low ∈ ss
  ∨ cap_of budget_ex FACT < slot_tokens (λ k, bool_decide (k = FACT)) ss + 20
  ∨ clamp 40 (100 - slot_tokens (λ k, bool_decide (k = STATIC_PREFIX)) ss)
    < slot_tokens (λ k, negb (bool_decide (k = STATIC_PREFIX))) ss + 20
  ∨ FACT = CANDIDATE_NOTE
    ∧ 1 ≤ Z.of_nat (length (List.filter (λ s, bool_decide (slot s = CANDIDATE_NOTE)) ss)).
Proof.
  apply (assemble_work_conserving [cand_low; cand_high] budget_ex cand_low); [|discriminate].
  assert (dedup [cand_low; cand_high] = [cand_low; cand_high]) as -> by (vm_compute; reflexivity).
  left.
Defined.
