(* ===== verification/Statistics.v ===== *)
(** * Benjamini-Hochberg in exact arithmetic (workers/statistics.py)

    [_validated], [_exact_adjusted] and [benjamini_hochberg].  [Fraction(p)] is the exact
    rational value of the double; the step-up loop is over rationals ([Q]).  The abstract
    specification mentions no ranks and no sorting: a hypothesis is rejected exactly when
    some p-value at least as large clears the threshold for the number of p-values up to
    it. *)

From Stdlib Require Import QArith Qminmax.
From S2P Require Import Prelude Domain PyText PyFloat.
Open Scope Z_scope.

Definition validated (ps : list float) : result exn unit :=
  check! forallb (λ p, (0 <=? p)%float && (p <=? 1)%float) ps else ValueError in Ok tt.

(** [Fraction(x)] of a finite double. *)
Definition fraction (x : float) : Q := Qmake (fscaled x) (2 ^ 1074).

(** [p_values[i]]. *)
Definition p_at (ps : list float) (i : nat) : float := nth i ps 0%float.

(** [sorted(range(m), key=lambda i: p_values[i])]. *)
Definition index_leb (ps : list float) (i j : nat) : bool := negb (p_at ps j <? p_at ps i)%float.
Definition bh_order (ps : list float) : list nat := py_sorted (index_leb ps) (seq 0 (length ps)).

(** [min(1, Fraction(p) * m / rank)]. *)
Definition bh_candidate (m : nat) (p : float) (rank : nat) : Q :=
  Qmin 1 (fraction p * inject_Z (Z.of_nat m) / inject_Z (Z.of_nat rank)).

(** The loop [for rank in range(m, 0, -1)]: [rank] is the rank about to be processed. *)
Fixpoint adjust_loop (ps : list float) (order : list nat) (rank : nat) (running_min : Q)
    (adjusted : list Q) : list Q :=
  match rank with
  | O => adjusted
  | S r =>
      let idx := nth r order 0%nat in
      let candidate := bh_candidate (length ps) (p_at ps idx) rank in
      let running_min := Qmin running_min candidate in
      adjust_loop ps order r running_min (<[idx := running_min]> adjusted)
  end.

Definition exact_adjusted (ps : list float) : list Q :=
  let m := length ps in
  adjust_loop ps (bh_order ps) m 1 (replicate m 1%Q).

Definition benjamini_hochberg (ps : list float) (alpha : float) : result exn (list bool) :=
  check! (0 <? alpha)%float && (alpha <? 1)%float else ValueError in
  match ps with
  | [] => Ok []
  | _ =>
      let! _ := validated ps in
      Ok (map (λ a, Qle_bool a (fraction alpha)) (exact_adjusted ps))
  end.

(** ** Lemmas *)

Section BH.
Context (ps : list float).

Lemma length_adjust_loop order rank : ∀ run adj,
  length (adjust_loop ps order rank run adj) = length adj.
Proof.
  induction rank as [|r IH]; intros; simpl; [done|]. by rewrite IH, length_insert.
Qed.

Lemma adjust_loop_untouched order rank : ∀ run adj i,
  (∀ r, (r < rank)%nat → nth r order 0%nat ≠ i) →
  adjust_loop ps order rank run adj !! i = adj !! i.
Proof.
  induction rank as [|r IH]; intros run adj i Hi; simpl; [done|].
  rewrite IH by (intros; apply Hi; lia). apply list_lookup_insert_ne. apply Hi. lia.
Qed.

(** The step-up minimum: below a threshold iff some candidate of this rank or later is. *)
Lemma adjust_loop_spec order t rank : NoDup order → (rank ≤ length order)%nat → ∀ run adj,
  (∀ i, i ∈ order → (i < length adj)%nat) →
  let cand r := bh_candidate (length ps) (p_at ps (nth r order 0%nat)) (S r) in
  ((run <= t)%Q ↔ ∃ j, (rank ≤ j < length order)%nat ∧ (cand j <= t)%Q) →
  ∀ r, (r < rank)%nat →
  ∃ a, adjust_loop ps order rank run adj !! nth r order 0%nat = Some a
    ∧ ((a <= t)%Q ↔ ∃ j, (r ≤ j < length order)%nat ∧ (cand j <= t)%Q).
Proof.
  intros Hnd. induction rank as [|k IH]; intros Hk run adj Hin cand Hrun r Hr; [lia|].
  cbn [adjust_loop]. set (idx := nth k order 0%nat). set (run' := Qmin run _).
  assert (Hidx : order !! k = Some idx) by (apply lookup_nth; lia).
  assert (Hrun' : (run' <= t)%Q ↔ ∃ j, (k ≤ j < length order)%nat ∧ (cand j <= t)%Q).
  { subst run'. rewrite Q.min_le_iff, Hrun. split.
    - intros [(j & Hj & Hc)|Hc]; [exists j; split; [lia|done]|exists k; split; [lia|exact Hc]].
    - intros (j & Hj & Hc). destruct (decide (j = k)) as [->|]; [by right|left; exists j; split; [lia|done]]. }
  destruct (decide (r = k)) as [->|Hne].
  - exists run'. split; [|exact Hrun'].
    rewrite adjust_loop_untouched; [|intros r Hr'; fold idx].
    + fold idx. apply list_lookup_insert_eq. apply Hin. by eapply list_elem_of_lookup_2.
    + intros Heq. assert (order !! r = Some idx) as Hr2.
      { rewrite <-Heq. apply lookup_nth. lia. }
      pose proof (NoDup_lookup _ _ _ _ Hnd Hidx Hr2). lia.
  - apply IH; [lia| |exact Hrun'|lia]. intros i Hi. rewrite length_insert. by apply Hin.
Qed.

(** *** The order *)

Hypothesis ps_ok : Forall (λ p, nonneg_finite p = true) ps.

Lemma p_at_ok i : nonneg_finite (p_at ps i) = true.
Proof.
  unfold p_at. destruct (decide (i < length ps)%nat) as [Hi|Hi].
  - rewrite Forall_forall in ps_ok. apply ps_ok. apply list_elem_of_lookup.
    exists i. by apply lookup_nth.
  - by rewrite nth_overflow by lia.
Qed.

Lemma index_leb_scaled i j :
  index_leb ps i j = true ↔ fscaled (p_at ps i) ≤ fscaled (p_at ps j).
Proof.
  unfold index_leb. rewrite negb_true_iff, <-not_true_iff_false, ltb_scaled by apply p_at_ok. lia.
Qed.

#[local] Instance index_leb_preorder : TotalPreorder (index_leb ps).
Proof. split; intros *; rewrite !index_leb_scaled; lia. Qed.

(** The p-values in rank order, as scaled integers. *)
Definition ranked : list Z := (λ i, fscaled (p_at ps i)) <$> bh_order ps.

Lemma map_p_at : p_at ps <$> seq 0 (length ps) = ps.
Proof.
  apply list_eq. intros i. rewrite list_lookup_fmap.
  destruct (decide (i < length ps)%nat) as [Hi|Hi].
  - rewrite lookup_seq_lt by done. simpl. symmetry. by apply lookup_nth.
  - rewrite lookup_ge_None_2, (lookup_ge_None_2 ps) by (rewrite ?length_seq; lia). done.
Qed.

Lemma ranked_Permutation : ranked ≡ₚ fscaled <$> ps.
Proof.
  unfold ranked, bh_order. rewrite (py_sorted_Permutation (index_leb ps)).
  transitivity (fscaled <$> (p_at ps <$> seq 0 (length ps)));
    [by rewrite <-list_fmap_compose|by rewrite map_p_at].
Qed.

Lemma ranked_sorted : StronglySorted Z.le ranked.
Proof.
  unfold ranked, bh_order. pose proof (py_sorted_Sorted (index_leb ps) (seq 0 (length ps))) as H.
  induction H as [|i l Hl IH Hi]; [constructor|]. cbn [fmap list_fmap]. constructor; [done|].
  apply Forall_fmap. eapply Forall_impl; [exact Hi|]. intros j. by rewrite index_leb_scaled.
Qed.

Lemma bh_order_facts :
  NoDup (bh_order ps) ∧ length (bh_order ps) = length ps
  ∧ ∀ i, i ∈ bh_order ps ↔ (i < length ps)%nat.
Proof.
  unfold bh_order. split_and!.
  - rewrite (py_sorted_Permutation (index_leb ps)). apply NoDup_seq.
  - by rewrite length_py_sorted, length_seq.
  - intros i. rewrite elem_of_py_sorted, elem_of_seq. lia.
Qed.
End BH.

(** In a sorted list the entries up to [x] are exactly a prefix. *)
Definition count_le (x : Z) (vs : list Z) : nat := length (filter (λ v, v ≤ x) vs).

Lemma count_le_prefix x vs : StronglySorted Z.le vs →
  ∀ r y, vs !! r = Some y → y ≤ x ↔ (r < count_le x vs)%nat.
Proof.
  unfold count_le. induction 1 as [|v vs Hs IH Hall]; intros r y Hr; [done|].
  rewrite filter_cons. case_decide as Hv.
  - destruct r as [|r]; simpl in *; [injection Hr as ->; split; [lia|done]|].
    rewrite (IH _ _ Hr). lia.
  - destruct r as [|r]; simpl in *; [injection Hr as ->|].
    + split; [done|]. rewrite Forall_forall in Hall.
      destruct (filter _ vs) as [|z l] eqn:Hf; simpl; [lia|].
      assert (z ∈ filter (λ v, v ≤ x) vs) as [Hz Hz']%list_elem_of_filter by (rewrite Hf; left).
      apply Hall in Hz'. lia.
    + rewrite (IH _ _ Hr). rewrite Forall_forall in Hall. apply list_elem_of_lookup_2 in Hr.
      split; [|lia]. intros Hlt.
      destruct (filter (λ v, v ≤ x) vs) as [|z l] eqn:Hf; simpl in *; [lia|].
      assert (z ∈ filter (λ v, v ≤ x) vs) as [Hz Hz']%list_elem_of_filter by (rewrite Hf; left).
      apply Hall in Hz'. lia.
Qed.

#[export] Instance count_le_Proper x : Proper ((≡ₚ) ==> (=)) (count_le x).
Proof. intros vs vs' H. unfold count_le. by rewrite H. Qed.

(** Below 1, the capped candidate is under the threshold iff the exact product inequality
    [m * p <= rank * alpha] holds. *)
Lemma candidate_le m p rank alpha :
  (0 < rank)%nat → (fraction alpha < 1)%Q →
  (bh_candidate m p rank <= fraction alpha)%Q
  ↔ Z.of_nat m * fscaled p ≤ Z.of_nat rank * fscaled alpha.
Proof.
  intros Hr Ha. unfold bh_candidate. rewrite Q.min_le_iff.
  assert (Hdiv : (fraction p * inject_Z (Z.of_nat m) / inject_Z (Z.of_nat rank) <= fraction alpha)%Q
    ↔ Z.of_nat m * fscaled p ≤ Z.of_nat rank * fscaled alpha).
  { assert (0 < inject_Z (Z.of_nat rank))%Q as Hpos by (rewrite <-(Zlt_Qlt 0); lia).
    assert (∀ x y z : Q, (0 < z)%Q → (x / z <= y)%Q ↔ (x <= y * z)%Q) as Hd.
    { intros x y z Hz. split; intros H.
      - apply (Qmult_le_r _ _ z Hz) in H. by rewrite Qmult_comm, Qmult_div_r in H
          by (intros H0; rewrite H0 in Hz; by apply Qlt_irrefl in Hz).
      - by apply Qle_shift_div_r. }
    rewrite Hd by done. unfold fraction, Qle, Qmult, inject_Z. cbn [Qnum Qden].
    rewrite !Pos.mul_1_r. rewrite <-Z.mul_le_mono_pos_r by lia. lia. }
  rewrite Hdiv. split; [intros [H|H]; [|done]|auto]. exfalso. by apply Qle_not_lt in H.
Qed.

Lemma fraction_lt_1 alpha : (0 <? alpha)%float = true → (alpha <? 1)%float = true →
  nonneg_finite alpha = true ∧ (fraction alpha < 1)%Q ∧ 0 < fscaled alpha.
Proof.
  intros H0 H1. assert (nonneg_finite alpha = true) as Hn.
  { apply unit_interval.
    - destruct (ltb_not_nan _ _ H0). rewrite leb_rank by done. left. by apply ltb_rank.
    - destruct (ltb_not_nan _ _ H1). rewrite leb_rank by done. left. by apply ltb_rank. }
  split; [done|]. apply ltb_scaled in H0; [|done..]. apply ltb_scaled in H1; [|done..].
  split; [|exact H0]. unfold fraction, Qlt. cbn [Qnum Qden].
  change (fscaled 1) with (2 ^ 1074) in H1. rewrite Z.mul_1_r, Z.mul_1_l, Pos2Z.inj_pow. exact H1.
Qed.

(** What one rank decides. *)
Lemma exact_adjusted_rank ps alpha r :
  Forall (λ p, nonneg_finite p = true) ps → (fraction alpha < 1)%Q → (r < length ps)%nat →
  ∃ a, exact_adjusted ps !! nth r (bh_order ps) 0%nat = Some a
    ∧ ((a <= fraction alpha)%Q ↔ ∃ j y, (r ≤ j)%nat ∧ ranked ps !! j = Some y
         ∧ Z.of_nat (length ps) * y ≤ Z.of_nat (S j) * fscaled alpha).
Proof.
  intros Hps Ha Hr. destruct (bh_order_facts ps) as (Hnd & Hlen & Hin). unfold exact_adjusted.
  destruct (adjust_loop_spec ps (bh_order ps) (fraction alpha) (length ps) Hnd ltac:(lia) 1
    (replicate (length ps) 1%Q)) with (r := r) as (a & Hlk & Hiff); [| |done|].
  - intros i. rewrite Hin, length_replicate. done.
  - split; [intros H; by apply Qle_not_lt in H|]. intros (j & Hj & _). lia.
  - exists a. split; [exact Hlk|]. rewrite Hiff. rewrite Hlen. split.
    + intros (j & Hj & Hc). exists j, (fscaled (p_at ps (nth j (bh_order ps) 0%nat))).
      split; [lia|]. apply candidate_le in Hc; [|lia|done]. split; [|exact Hc].
      unfold ranked. rewrite list_lookup_fmap, (lookup_nth _ _ 0%nat) by lia. done.
    + intros (j & y & Hj & Hy & Hle). unfold ranked in Hy. rewrite list_lookup_fmap in Hy.
      destruct (bh_order ps !! j) as [idx|] eqn:Hidx; [|done]. simpl in Hy. injection Hy as <-.
      pose proof (lookup_lt_Some _ _ _ Hidx). rewrite (lookup_nth _ _ 0%nat) in Hidx by done.
      injection Hidx as <-. exists j. split; [lia|]. apply candidate_le; [lia|done..].
Qed.

Lemma validated_ok ps : validated ps = Ok tt ↔ Forall (λ p, (0 <=? p)%float = true ∧ (p <=? 1)%float = true) ps.
Proof.
  unfold validated. induction ps as [|p ps IH]; simpl; [by split|].
  rewrite Forall_cons. destruct (0 <=? p)%float, (p <=? 1)%float; simpl; try naive_solver.
Qed.

Lemma validated_nonneg ps : validated ps = Ok tt → Forall (λ p, nonneg_finite p = true) ps.
Proof.
  intros H%validated_ok. eapply Forall_impl; [exact H|]. intros p [H0 H1]. by apply unit_interval.
Qed.

(** The rank-free rule on scaled values. *)
Definition bh_rejects (ps : list float) (alpha : float) (p : float) : Prop :=
  ∃ q, q ∈ ps ∧ fscaled p ≤ fscaled q
    ∧ Z.of_nat (length ps) * fscaled q
      ≤ Z.of_nat (count_le (fscaled q) (fscaled <$> ps)) * fscaled alpha.

Lemma ranked_rejects ps alpha r y :
  Forall (λ p, nonneg_finite p = true) ps → 0 < fscaled alpha → ranked ps !! r = Some y →
  (∃ j z, (r ≤ j)%nat ∧ ranked ps !! j = Some z
     ∧ Z.of_nat (length ps) * z ≤ Z.of_nat (S j) * fscaled alpha)
  ↔ ∃ z, z ∈ fscaled <$> ps ∧ y ≤ z
     ∧ Z.of_nat (length ps) * z ≤ Z.of_nat (count_le z (fscaled <$> ps)) * fscaled alpha.
Proof.
  intros Hps Ha Hr. pose proof (ranked_sorted ps Hps) as Hs.
  pose proof (ranked_Permutation ps) as Hperm.
  setoid_rewrite <-Hperm. split.
  - intros (j & z & Hj & Hz & Hle). exists z. split; [by eapply list_elem_of_lookup_2|].
    pose proof (proj1 (count_le_prefix z _ Hs j z Hz) ltac:(lia)) as Hc. split; [|nia].
    apply (count_le_prefix z _ Hs r y Hr). lia.
  - intros (z & [j0 Hj0]%list_elem_of_lookup & Hyz & Hle).
    pose proof (proj1 (count_le_prefix z _ Hs r y Hr) Hyz) as Hrc.
    assert (count_le z (ranked ps) ≤ length (ranked ps))%nat as Hcl by apply length_filter.
    destruct (lookup_lt_is_Some_2 (ranked ps) (count_le z (ranked ps) - 1)) as [w Hw]; [lia|].
    exists (count_le z (ranked ps) - 1)%nat, w. split; [lia|]. split; [done|].
    pose proof (proj2 (count_le_prefix z _ Hs _ _ Hw) ltac:(lia)) as Hwz.
    replace (S (count_le z (ranked ps) - 1)) with (count_le z (ranked ps)) by lia. nia.
Qed.

Lemma count_filter ps q :
  Forall (λ p, nonneg_finite p = true) ps → nonneg_finite q = true →
  count_le (fscaled q) (fscaled <$> ps) = length (filter (λ x, (x <=? q)%float = true) ps).
Proof.
  unfold count_le. intros Hps Hq. induction Hps as [|p ps Hp _ IH]; [done|].
  cbn [fmap list_fmap]. rewrite !filter_cons. pose proof (leb_scaled p q Hp Hq) as Hle.
  destruct (decide (fscaled p ≤ fscaled q)), (decide ((p <=? q)%float = true)); simpl; [by rewrite IH|tauto..|done].
Qed.

(** Every entry of the verdict, through the rank-free rule. *)
Lemma bh_entry ps alpha rs i p :
  benjamini_hochberg ps alpha = Ok rs → ps !! i = Some p →
  ∃ b, rs !! i = Some b ∧ (b = true ↔ bh_rejects ps alpha p).
Proof.
  unfold benjamini_hochberg. intros Hbh Hp. destruct ((0 <? alpha)%float && _) eqn:Ha; [|done].
  apply andb_true_iff in Ha as [H0 H1]. destruct (fraction_lt_1 _ H0 H1) as (_ & Hlt & Hpos).
  destruct ps as [|p0 ps0] eqn:Hps; [done|]. rewrite <-Hps in *. clear p0 ps0 Hps.
  rewrite rbind_Ok in Hbh. destruct Hbh as ([] & Hv & Hrs). apply (inj Ok) in Hrs. subst rs.
  apply validated_nonneg in Hv. destruct (bh_order_facts ps) as (Hnd & Hlen & Hin).
  pose proof (lookup_lt_Some _ _ _ Hp) as Hi. apply Hin in Hi.
  apply list_elem_of_lookup in Hi as [r Hr]. pose proof (lookup_lt_Some _ _ _ Hr) as Hrl.
  rewrite (lookup_nth _ _ 0%nat) in Hr by done. injection Hr as Hr.
  destruct (exact_adjusted_rank ps alpha r Hv Hlt ltac:(lia)) as (a & Hlk & Hiff).
  rewrite Hr in Hlk. exists (Qle_bool a (fraction alpha)).
  change (map ?f ?l) with (f <$> l). rewrite list_lookup_fmap, Hlk. split; [done|].
  rewrite Qle_bool_iff, Hiff.
  assert (Hry : ranked ps !! r = Some (fscaled p)).
  { unfold ranked. rewrite list_lookup_fmap, (lookup_nth _ _ 0%nat) by done. cbn [fmap option_fmap option_map].
    rewrite Hr. unfold p_at. rewrite nth_lookup, Hp. done. }
  rewrite (ranked_rejects _ _ _ _ Hv Hpos Hry). unfold bh_rejects. split.
  - intros (z & (q & -> & Hq)%list_elem_of_fmap & ?). eauto.
  - intros (q & Hq & ?). exists (fscaled q). split; [|done]. apply list_elem_of_fmap. eauto.
Qed.

(** A rejected p-value is itself at most alpha. *)
Lemma bh_rejects_alpha ps alpha p :
  Forall (λ p, nonneg_finite p = true) ps → 0 < fscaled alpha → bh_rejects ps alpha p →
  fscaled p ≤ fscaled alpha.
Proof.
  intros Hps Ha (q & Hq & Hpq & Hle).
  assert (count_le (fscaled q) (fscaled <$> ps) ≤ length ps)%nat as Hc.
  { unfold count_le. etrans; [apply length_filter|]. by rewrite length_fmap. }
  assert (0 < length ps)%nat by (destruct ps; [by apply not_elem_of_nil in Hq|simpl; lia]).
  rewrite Forall_forall in Hps. pose proof (fscaled_nonneg q (Hps q Hq)). nia.
Qed.

Lemma bh_length ps alpha rs : benjamini_hochberg ps alpha = Ok rs → length rs = length ps.
Proof.
  unfold benjamini_hochberg. destruct (_ && _); [|done]. destruct ps as [|p ps0] eqn:E.
  - intros H. by apply (inj Ok) in H as <-.
  - rewrite <-E. rewrite rbind_Ok. intros (_ & _ & H). apply (inj Ok) in H as <-.
    unfold exact_adjusted. by rewrite length_map, length_adjust_loop, length_replicate.
Qed.

(** ** Properties *)

(** [C39] [benjamini_hochberg] is the exact Benjamini-Hochberg procedure: on accepted inputs
    it answers in the input order, and hypothesis [i] is rejected if and only if some p-value
    [q] of the family, at least as large as its own, satisfies [m * q <= k * alpha] where [k]
    is how many p-values are at most [q], the products being exact (no rounding).  The rule
    mentions neither ranks nor ties, so the verdict of a p-value does not depend on the
    order of the family, and a rejected p-value is never above [alpha]. *)
Theorem benjamini_hochberg_exact ps alpha rs :
  benjamini_hochberg ps alpha = Ok rs →
  length rs = length ps
  ∧ ∀ i p, ps !! i = Some p → ∃ b, rs !! i = Some b
      ∧ (b = true ↔ ∃ q, q ∈ ps ∧ (p <=? q)%float = true
           ∧ Z.of_nat (length ps) * fscaled q
             ≤ Z.of_nat (length (filter (λ x, (x <=? q)%float = true) ps)) * fscaled alpha)
      ∧ (b = true → (p <=? alpha)%float = true).
Proof.
  intros Hbh. split; [by eapply bh_length|]. intros i p Hp.
  destruct (bh_entry _ _ _ _ _ Hbh Hp) as (b & Hb & Hiff). exists b. split; [done|].
  unfold benjamini_hochberg in Hbh. destruct ((0 <? alpha)%float && _) eqn:Ha; [|done].
  apply andb_true_iff in Ha as [H0 H1]. destruct (fraction_lt_1 _ H0 H1) as (Hna & _ & Hpos).
  assert (Forall (λ p, nonneg_finite p = true) ps) as Hok.
  { destruct ps as [|p0 ps0]; [constructor|]. rewrite rbind_Ok in Hbh.
    destruct Hbh as ([] & Hv & _). by apply validated_nonneg. }
  pose proof Hok as Hok'. rewrite Forall_forall in Hok'.
  assert (nonneg_finite p = true) as Hpn by (apply Hok', list_elem_of_lookup; eauto).
  split; [|rewrite leb_scaled, Hiff by done; by apply bh_rejects_alpha].
  rewrite Hiff. unfold bh_rejects. split; intros (q & Hq & Hpq & Hle); exists q.
  - split; [done|]. rewrite leb_scaled by auto. split; [done|].
    etrans; [exact Hle|]. apply Z.mul_le_mono_nonneg_r; [lia|]. apply inj_le.
    apply Nat.eq_le_incl, count_filter; auto.
  - split; [done|]. rewrite leb_scaled in Hpq by auto. split; [done|].
    etrans; [exact Hle|]. apply Z.mul_le_mono_nonneg_r; [lia|]. apply inj_le.
    apply Nat.eq_le_incl. symmetry. apply count_filter; auto.
Qed.

Lemma benjamini_hochberg_exact_witness :
  let ps := [0.04%float; 0.5%float; 0.03%float] in
  ∃ b, [false; false; false] !! 0%nat = Some b
    ∧ (b = true → (0.04 <=? 0.05)%float = true).
Proof.
  intros ps. destruct (benjamini_hochberg_exact ps 0.05%float [false; false; false]) as [_ H];
    [vm_compute; reflexivity|].
  destruct (H 0%nat 0.04%float eq_refl) as (b & Hb & _ & Ha). exists b. split; [exact Hb|exact Ha].
Defined.

(** The two boundary cases of the module's documentation, decided exactly. *)
Example bh_boundary_reject :
  benjamini_hochberg [0.1%float; 0.1%float; 0.1%float] 0.1%float = Ok [true; true; true].
Proof. vm_compute. reflexivity. Qed.
Example bh_boundary_keep :
  benjamini_hochberg
    [0.03%float; 0.729%float; 0.010000000000000002%float; 0.548%float; 0.93%float] 0.05%float
  = Ok [false; false; false; false; false].
Proof. vm_compute. reflexivity. Qed.
