(* ===== verification/Lift.v ===== *)
(** * Stratified lift (workers/lift.py)

    Observations and their placement invariant, treatment and shadow-control groups,
    [LiftEstimate] with its construction checks, the directional p-value, the adverse
    test, [estimate_lift], [stratify], [compute_stratified_lift] and
    [naive_aggregate_lift].

    The four functions of Python's [statistics] module that [estimate_lift] calls (mean,
    variance, and the normal distribution's CDF and its inverse) are parameters; the
    theorems hold for every choice of them. *)

From S2P Require Import Prelude Domain PyText PyFloat.
Open Scope Z_scope.

Abbreviation StratumKey := (AgentTypeId * MemType)%type.

Inductive AdverseDirection := LOWER | HIGHER.

#[export] Instance AdverseDirection_eq_dec : EqDecision AdverseDirection.
Proof. solve_decision. Defined.

(** ** Observations *)

Record LiftObservation := mkObs {
  ob_run_id : RunId;
  ob_agent_type_id : AgentTypeId;
  ob_arm : Arm;
  ob_outcome_code : OutcomeCode;
  ob_mem_type : option MemType;
  ob_outcome_r : float;
}.

Definition NEVER_PLACING_CODES : list OutcomeCode :=
  [ABSTAINED_THRESHOLD; ABSTAINED_RARITY; EMPTY_RESULT; TIMEOUT_PREFIX_ONLY; STORE_ERROR].
Definition ALWAYS_PLACING_CODES : list OutcomeCode := [INJECTED].

Definition validate_placement (arm : Arm) (code : OutcomeCode) (mt : option MemType) :
    result exn unit :=
  if bool_decide (code ∈ ALWAYS_PLACING_CODES) && bool_decide (mt = None) then Err ValueError
  else if bool_decide (code ∈ NEVER_PLACING_CODES) && negb (bool_decide (mt = None)) then Err ValueError
  else if bool_decide (code = OUTCOME_HOLDOUT) && negb (bool_decide (arm = ARM_HOLDOUT)) then Err ValueError
  else Ok tt.

Definition observation_post_init (o : LiftObservation) : result exn LiftObservation :=
  check! (0 <=? ob_outcome_r o)%float && (ob_outcome_r o <=? 1)%float else ValueError in
  let! _ := validate_placement (ob_arm o) (ob_outcome_code o) (ob_mem_type o) in
  Ok o.

Definition is_treatment (o : LiftObservation) : bool :=
  bool_decide (ob_arm o = MEMORY_ON) && negb (bool_decide (ob_mem_type o = None)).

Definition is_shadow_control (o : LiftObservation) : bool :=
  bool_decide (ob_arm o = ARM_HOLDOUT) && negb (bool_decide (ob_mem_type o = None)).

(** ** Estimates *)

Record LiftEstimate := mkEstimate {
  le_agent_type_id : option AgentTypeId;
  le_mem_type : option MemType;
  n_treatment : Z;
  n_control : Z;
  point_estimate : float;
  lower_bound : float;
  upper_bound : float;
  p_value : float;
  confidence : float;
}.

Definition estimate_post_init (e : LiftEstimate) : result exn LiftEstimate :=
  check! forallb isfinite
    [point_estimate e; lower_bound e; upper_bound e; p_value e; confidence e] else ValueError in
  check! (0 <=? p_value e)%float && (p_value e <=? 1)%float else ValueError in
  check! negb ((n_treatment e <? 0) || (n_control e <? 0)) else ValueError in
  Ok e.

Definition directional_p_value (e : LiftEstimate) (d : AdverseDirection) : float :=
  let diff := point_estimate e in
  if (diff =? 0)%float then 0.5%float
  else
    let observed_below := (diff <? 0)%float in
    let adverse_below := bool_decide (d = LOWER) in
    let tail := (p_value e / 2)%float in
    if Bool.eqb observed_below adverse_below then tail else (1 - tail)%float.

Definition is_adverse (e : LiftEstimate) (d : AdverseDirection) : bool :=
  match d with
  | LOWER => (lower_bound e <? 0)%float
  | HIGHER => (0 <? lower_bound e)%float
  end.

(** [float(n)] of a sample count. *)
Definition float_of_nat (n : nat) : float := PrimFloat.of_uint63 (Uint63.of_Z (Z.of_nat n)).

(** [d.setdefault(key, []).append(x)]. *)
Definition dict_append {K V} `{EqDecision K} (d : list (K * list V)) (k : K) (x : V) :
    list (K * list V) :=
  dict_set d k (default [] (dict_get d k) ++ [x]).

Definition stratify_step (st : list (StratumKey * list float) * list (StratumKey * list float))
    (o : LiftObservation) : list (StratumKey * list float) * list (StratumKey * list float) :=
  let '(treatment, control) := st in
  match ob_mem_type o with
  | None => st
  | Some mt =>
      if is_treatment o then (dict_append treatment (ob_agent_type_id o, mt) (ob_outcome_r o), control)
      else (treatment, dict_append control (ob_agent_type_id o, mt) (ob_outcome_r o))
  end.

Definition stratify (obs : list LiftObservation) :
    list (StratumKey * list float) * list (StratumKey * list float) :=
  foldl stratify_step ([], []) obs.

(** The sort key [(str(agent_type_id), mem_type.value)]. *)
Definition stratum_leb (a b : StratumKey) : bool :=
  let sa := uuid_str (AgentTypeId_value a.1) in
  let sb := uuid_str (AgentTypeId_value b.1) in
  if bool_decide (sa = sb) then str_leb (MemType_value a.2) (MemType_value b.2) else str_leb sa sb.

Record LiftReport := mkReport {
  estimates : list (StratumKey * LiftEstimate);
  insufficient_data : list StratumKey;
}.

Section Estimate.
(** [statistics.fmean], [statistics.variance(xs, xbar)], [NormalDist().inv_cdf] and [.cdf]. *)
Variable fmean : list float → float.
Variable variance : list float → float → float.
Variable inv_cdf : float → float.
Variable cdf : float → float.

Definition estimate_lift (treatment control : list float) (agent : option AgentTypeId)
    (mt : option MemType) (conf : float) : result exn LiftEstimate :=
  check! (0.5 <? conf)%float && (conf <? 1)%float else ValueError in
  let n1 := length treatment in
  let n2 := length control in
  check! negb ((n1 <? 2)%nat || (n2 <? 2)%nat) else ValueError in
  let mean1 := fmean treatment in
  let mean2 := fmean control in
  let var1 := variance treatment mean1 in
  let var2 := variance control mean2 in
  let diff := (mean1 - mean2)%float in
  let se := PrimFloat.sqrt (var1 / float_of_nat n1 + var2 / float_of_nat n2)%float in
  if (se =? 0)%float then
    estimate_post_init
      (mkEstimate agent mt (Z.of_nat n1) (Z.of_nat n2) diff diff diff
         (if (diff =? 0)%float then 1%float else 0%float) conf)
  else
    let z := inv_cdf conf in
    let margin := (z * se)%float in
    let z_stat := (diff / se)%float in
    let p := (2 * (1 - cdf (PrimFloat.abs z_stat)))%float in
    estimate_post_init
      (mkEstimate agent mt (Z.of_nat n1) (Z.of_nat n2) diff (diff - margin)%float
         (diff + margin)%float p conf).

(** One key of the report's loop. *)
Definition report_step (treatment control : list (StratumKey * list float)) (conf : float)
    (acc : result exn LiftReport) (key : StratumKey) : result exn LiftReport :=
  let! rep := acc in
  let t_values := default [] (dict_get treatment key) in
  let c_values := default [] (dict_get control key) in
  if (length t_values <? 2)%nat || (length c_values <? 2)%nat
  then Ok (mkReport (estimates rep) (insufficient_data rep ++ [key]))
  else
    let! e := estimate_lift t_values c_values (Some key.1) (Some key.2) conf in
    Ok (mkReport (dict_set (estimates rep) key e) (insufficient_data rep)).

Definition observed_keys (treatment control : list (StratumKey * list float)) : list StratumKey :=
  py_sorted stratum_leb (remove_dups (treatment.*1 ++ control.*1)).

Definition compute_stratified_lift (obs : list LiftObservation) (conf : float) :
    result exn LiftReport :=
  let '(treatment, control) := stratify obs in
  foldl (report_step treatment control conf) (Ok (mkReport [] [])) (observed_keys treatment control).

Definition naive_aggregate_lift (obs : list LiftObservation) (conf : float) :
    result exn LiftEstimate :=
  let treatment := map ob_outcome_r (List.filter (λ o, bool_decide (ob_arm o = MEMORY_ON)) obs) in
  let control := map ob_outcome_r (List.filter (λ o, bool_decide (ob_arm o = ARM_HOLDOUT)) obs) in
  check! negb ((length treatment <? 2)%nat || (length control <? 2)%nat) else ValueError in
  estimate_lift treatment control None None conf.
End Estimate.

(** ** Lemmas: the buckets *)

Definition in_cell (k : StratumKey) (o : LiftObservation) : bool :=
  bool_decide (ob_mem_type o = Some k.2) && bool_decide (ob_agent_type_id o = k.1).

(** The outcomes of one cell's treatment and shadow-control runs, in order. *)
Definition cell_values (group : LiftObservation → bool) (k : StratumKey)
    (obs : list LiftObservation) : list float :=
  map ob_outcome_r (List.filter (λ o, group o && in_cell k o) obs).

Definition bucket (vs : list float) : option (list float) :=
  match vs with [] => None | _ => Some vs end.

Lemma bucket_snoc vs x : bucket (vs ++ [x]) = Some (default [] (bucket vs) ++ [x]).
Proof. by destruct vs. Qed.

Lemma cell_values_snoc group k obs o :
  cell_values group k (obs ++ [o])
  = cell_values group k obs ++ (if group o && in_cell k o then [ob_outcome_r o] else []).
Proof.
  unfold cell_values. rewrite List.filter_app, map_app. simpl.
  by destruct (group o && in_cell k o).
Qed.

Lemma dict_get_append {K V} `{EqDecision K} (d : list (K * list V)) k x k' :
  dict_get (dict_append d k x) k'
  = if decide (k = k') then Some (default [] (dict_get d k) ++ [x]) else dict_get d k'.
Proof. apply dict_get_set. Qed.

Lemma stratify_spec obs k :
  dict_get (stratify obs).1 k = bucket (cell_values is_treatment k obs)
  ∧ dict_get (stratify obs).2 k = bucket (cell_values is_shadow_control k obs).
Proof.
  unfold stratify. induction obs as [|o obs [IHt IHc]] using rev_ind; [done|].
  rewrite foldl_snoc, !cell_values_snoc.
  destruct (foldl stratify_step ([], []) obs) as [t c]. cbn [fst snd] in *.
  unfold stratify_step. destruct (ob_mem_type o) as [mt|] eqn:Hmt.
  2: { unfold in_cell. rewrite Hmt, !(bool_decide_eq_false_2 (None = Some _)) by done. cbn [andb].
       by rewrite !andb_false_r, !app_nil_r. }
  assert (Hcell : in_cell k o = bool_decide ((ob_agent_type_id o, mt) = k)).
  { unfold in_cell. rewrite Hmt. destruct k as [a m]; simpl. apply eq_bool_prop_intro.
    rewrite andb_True, !bool_decide_spec. naive_solver. }
  assert (Htr : is_treatment o = bool_decide (ob_arm o = MEMORY_ON)).
  { unfold is_treatment. rewrite Hmt, (bool_decide_eq_false_2 (Some mt = None)) by done. apply andb_true_r. }
  assert (Hsh : is_shadow_control o = bool_decide (ob_arm o = ARM_HOLDOUT)).
  { unfold is_shadow_control. rewrite Hmt, (bool_decide_eq_false_2 (Some mt = None)) by done. apply andb_true_r. }
  rewrite Hcell, Htr, Hsh.
  destruct (ob_arm o); cbn [fst snd].
  - rewrite (bool_decide_eq_true_2 (MEMORY_ON = MEMORY_ON)), (bool_decide_eq_false_2 (MEMORY_ON = ARM_HOLDOUT)) by done.
    cbn [andb fst snd]. rewrite app_nil_r, dict_get_append. split; [|done].
    destruct (decide ((ob_agent_type_id o, mt) = k)) as [Hk|Hk].
    + by rewrite bool_decide_eq_true_2, bucket_snoc, Hk, IHt.
    + by rewrite bool_decide_eq_false_2, app_nil_r.
  - rewrite (bool_decide_eq_false_2 (ARM_HOLDOUT = MEMORY_ON)), (bool_decide_eq_true_2 (ARM_HOLDOUT = ARM_HOLDOUT)) by done.
    cbn [andb fst snd]. rewrite app_nil_r, dict_get_append. split; [done|].
    destruct (decide ((ob_agent_type_id o, mt) = k)) as [Hk|Hk].
    + by rewrite bool_decide_eq_true_2, bucket_snoc, Hk, IHc.
    + by rewrite bool_decide_eq_false_2, app_nil_r.
Qed.

Lemma bucket_default vs : default [] (bucket vs) = vs.
Proof. by destruct vs. Qed.

(** ** Lemmas: the report *)

Section ReportLemmas.
Context (fmean : list float → float) (variance : list float → float → float)
  (inv_cdf cdf : float → float) (treatment control : list (StratumKey * list float)) (conf : float).

Let t_of k := default [] (dict_get treatment k).
Let c_of k := default [] (dict_get control k).
Let est k := estimate_lift fmean variance inv_cdf cdf (t_of k) (c_of k) (Some k.1) (Some k.2) conf.
Let small k := (length (t_of k) <? 2)%nat || (length (c_of k) <? 2)%nat.

Lemma report_loop_spec keys rep : NoDup keys →
  foldl (report_step fmean variance inv_cdf cdf treatment control conf) (Ok (mkReport [] [])) keys
  = Ok rep →
  (∀ k, k ∈ insufficient_data rep ↔ k ∈ keys ∧ small k = true)
  ∧ (∀ k e, dict_get (estimates rep) k = Some e ↔ k ∈ keys ∧ small k = false ∧ est k = Ok e)
  ∧ (∀ k, k ∈ keys → small k = false → ∃ e, est k = Ok e).
Proof.
  revert rep. induction keys as [|key keys IH] using rev_ind; intros rep Hnd Hf.
  { injection Hf as <-. split_and!; simpl.
    - intros k. split; [by intros ?%not_elem_of_nil|]. by intros [?%not_elem_of_nil _].
    - intros k e. split; [done|]. by intros [?%not_elem_of_nil _].
    - by intros k ?%not_elem_of_nil. }
  rewrite foldl_snoc in Hf. unfold report_step at 1 in Hf. rewrite rbind_Ok in Hf.
  destruct Hf as (rep0 & Hf0 & Hf). fold (t_of key) (c_of key) in Hf. fold (small key) in Hf.
  apply NoDup_app in Hnd as (Hnd & Hdis & _).
  assert (Hkey : key ∉ keys) by (intros H; eapply Hdis; [exact H|left]).
  destruct (IH rep0 Hnd Hf0) as (Hi & He & Hok).
  destruct (small key) eqn:Hs.
  - apply (inj Ok) in Hf. subst rep. simpl. split_and!.
    + intros k. rewrite !elem_of_snoc, Hi. split; [|naive_solver].
      intros [?| ->]; [naive_solver|auto].
    + intros k e. rewrite He, elem_of_snoc. split; [naive_solver|].
      intros ([?| ->] & ? & ?); [done|congruence].
    + intros k [?| ->]%elem_of_snoc ?; [auto|congruence].
  - rewrite rbind_Ok in Hf. destruct Hf as (e0 & He0 & Hf). fold (est key) in He0.
    apply (inj Ok) in Hf. subst rep. simpl. split_and!.
    + intros k. rewrite Hi, elem_of_snoc. split; [naive_solver|].
      intros ([?| ->] & ?); [done|congruence].
    + intros k e. rewrite dict_get_set, elem_of_snoc. case_decide as Hk.
      * subst k. split; [intros [= <-]; auto|]. intros (_ & _ & ?). congruence.
      * rewrite He. split; [naive_solver|]. intros ([?| ->] & ?); done.
    + intros k [?| ->]%elem_of_snoc ?; eauto.
Qed.
End ReportLemmas.

Lemma elem_of_observed_keys t c k :
  k ∈ observed_keys t c ↔ is_Some (dict_get t k) ∨ is_Some (dict_get c k).
Proof.
  unfold observed_keys. rewrite elem_of_py_sorted, elem_of_remove_dups, elem_of_app.
  rewrite <-!not_eq_None_Some, !dict_get_None. destruct (decide (k ∈ t.*1)), (decide (k ∈ c.*1)); tauto.
Qed.

Lemma observed_keys_NoDup t c : NoDup (observed_keys t c).
Proof.
  unfold observed_keys. rewrite (py_sorted_Permutation stratum_leb). apply NoDup_remove_dups.
Qed.

(** ** Properties *)

(** Lift is computed per cell and never pooled: in a completed report, a cell has an
    estimate if and only if it has at least two treatment and two shadow-control runs, that
    estimate is [estimate_lift] of exactly the cell's own outcomes, in order, and the
    observed cells with too little data are exactly the ones listed as insufficient.
    Abstained, degraded and empty runs of either arm contribute to no cell. *)
Lemma stratified_lift_exact fmean variance inv_cdf cdf obs conf rep k :
  compute_stratified_lift fmean variance inv_cdf cdf obs conf = Ok rep →
  let t := cell_values is_treatment k obs in
  let c := cell_values is_shadow_control k obs in
  (∀ e, dict_get (estimates rep) k = Some e ↔
     (2 ≤ length t)%nat ∧ (2 ≤ length c)%nat
     ∧ estimate_lift fmean variance inv_cdf cdf t c (Some k.1) (Some k.2) conf = Ok e)
  ∧ (k ∈ insufficient_data rep ↔
     (0 < length t + length c)%nat ∧ ((length t < 2)%nat ∨ (length c < 2)%nat))
  ∧ ((2 ≤ length t)%nat → (2 ≤ length c)%nat → is_Some (dict_get (estimates rep) k)).
Proof.
  intros Hrep t c. unfold compute_stratified_lift in Hrep. destruct (stratify_spec obs k) as [Ht Hc].
  fold t in Ht. fold c in Hc. clearbody t c.
  destruct (stratify obs) as [treatment control]. cbn [fst snd] in *.
  destruct (report_loop_spec _ _ _ _ _ _ _ _ _ (observed_keys_NoDup _ _) Hrep) as (Hi & He & Hok).
  specialize (Hi k). specialize (He k). specialize (Hok k).
  rewrite Ht, Hc, !bucket_default in *.
  assert (Hobs : k ∈ observed_keys treatment control ↔ (0 < length t + length c)%nat).
  { rewrite elem_of_observed_keys, Ht, Hc. destruct t, c; simpl; (split; [|intros; try lia; eauto]).
    all: try lia. by intros [[]|[]]. }
  assert (Hs : (length t <? 2)%nat || (length c <? 2)%nat = true ↔ (length t < 2)%nat ∨ (length c < 2)%nat).
  { rewrite orb_true_iff, !Nat.ltb_lt. done. }
  assert (Hs' : (length t <? 2)%nat || (length c <? 2)%nat = false ↔ (2 ≤ length t)%nat ∧ (2 ≤ length c)%nat).
  { rewrite orb_false_iff, !Nat.ltb_ge. done. }
  split_and!.
  - intros e. rewrite He, Hobs, Hs'. split; [tauto|]. intros (? & ? & ?). split_and!; [lia|done..].
  - by rewrite Hi, Hobs, Hs.
  - intros H1 H2. destruct Hok as [e Hest]; [apply Hobs; lia|by apply Hs'|]. exists e.
    apply He. rewrite Hobs, Hs'. split_and!; [lia|done..].
Qed.

Definition obs_ex (n : N) (H : Is_true (N.ltb n (2 ^ 128))) (a : Arm) (mt : option MemType) (r : float) :
    LiftObservation :=
  mkObs (mkRunId (mkUUID n H)) (mkAgentTypeId (mkUUID 1 I)) a
    (match mt with Some _ => INJECTED | None => EMPTY_RESULT end) mt r.

Lemma stratified_lift_exact_witness :
  let obs := [obs_ex 1 I MEMORY_ON (Some LESSON) 1%float; obs_ex 2 I ARM_HOLDOUT (Some LESSON) 0%float;
              obs_ex 3 I MEMORY_ON None 0.5%float; obs_ex 4 I MEMORY_ON (Some LESSON) 1%float;
              obs_ex 5 I ARM_HOLDOUT (Some LESSON) 0%float; obs_ex 6 I MEMORY_ON (Some SEMANTIC) 1%float] in
  let fmean (xs : list float) := match xs with x :: _ => x | [] => 0%float end in
  ∃ rep, compute_stratified_lift fmean (λ _ _, 0%float) (λ x, x) (λ x, x) obs 0.95%float = Ok rep
    ∧ is_Some (dict_get (estimates rep) (mkAgentTypeId (mkUUID 1 I), LESSON)).
Proof.
  intros obs fmean. eexists. split; [reflexivity|].
  apply (stratified_lift_exact fmean (λ _ _, 0%float) (λ x, x) (λ x, x) obs 0.95%float _
    (mkAgentTypeId (mkUUID 1 I), LESSON)); [reflexivity|vm_compute; lia..].
Defined.
