(* ===== verification/Killswitch.v ===== *)
(** * The kill switch (workers/killswitch.py, and workers/safety_lift.py's use of it)

    [evaluate_sustained], [_evidence], [KillswitchGridEvaluator.evaluate_grid], [apply],
    [record_override], [_moment], [_emit_audit] and [evaluate_safety_grid].  A calendar day
    is the number of days since the epoch; the store and the audit sink are the logs of
    the writes and events they received (a failing audit sink is suppressed by the code,
    so it shows as a missing event, never as an exception). *)

From S2P Require Import Prelude Domain PyText PyFloat Statistics Lift.
Open Scope Z_scope.

Inductive TriggerReason := TASK_QUALITY_LIFT | SAFETY_VIOLATION_RATE.

Definition TriggerReason_value (r : TriggerReason) : string :=
  match r with
  | TASK_QUALITY_LIFT => "task_quality_lift" | SAFETY_VIOLATION_RATE => "safety_violation_rate"
  end.
Definition AdverseDirection_value (d : AdverseDirection) : string :=
  match d with LOWER => "lower" | HIGHER => "higher" end.

Record KillswitchConfig := mkKsConfig { window_days : Z; min_cell_n : Z }.

Record DailyLiftSnapshot := mkSnapshot {
  day : Z;
  estimate : LiftEstimate;
  scoring_epoch_id : option Z;
}.

(** [_utc_day]. *)
Definition utc_day (instant : datetime) : result exn Z :=
  check! dt_aware instant else ValueError in Ok (dt_us instant / timedelta_days 1).

Record SustainedResult := mkSustained {
  sustained : bool;
  min_n_satisfied : bool;
  latest_estimate : option LiftEstimate;
  days_covered : Z;
}.

(** The loop that files the in-window snapshots by day. *)
Fixpoint window_loop (start now : Z) (expected_epoch : option Z)
    (by_day : list (Z * LiftEstimate)) (history : list DailyLiftSnapshot) :
    result exn (list (Z * LiftEstimate)) :=
  match history with
  | [] => Ok by_day
  | snap :: rest =>
      if negb ((start <=? day snap) && (day snap <=? now))
      then window_loop start now expected_epoch by_day rest
      else match dict_get by_day (day snap) with
           | Some _ => Err ValueError
           | None =>
               if match expected_epoch with
                  | Some ep => negb (bool_decide (scoring_epoch_id snap = Some ep))
                  | None => false
                  end
               then Err CrossEpochComparison
               else window_loop start now expected_epoch
                      (dict_set by_day (day snap) (estimate snap)) rest
           end
  end.

(** [[start + timedelta(days=i) for i in range(window_days)]]. *)
Definition required_days (start window : Z) : list Z :=
  map (λ i, start + Z.of_nat i) (seq 0 (Z.to_nat window)).

Definition evaluate_sustained (history : list DailyLiftSnapshot) (window min_n now : Z)
    (direction : AdverseDirection) (expected_epoch : option Z) : result exn SustainedResult :=
  check! 1 <=? window else ValueError in
  check! 1 <=? min_n else ValueError in
  let start := now - (window - 1) in
  let! by_day := window_loop start now expected_epoch [] history in
  let days := required_days start window in
  let covered := Z.of_nat (length (List.filter (λ d, negb (bool_decide (dict_get by_day d = None))) days)) in
  let latest := dict_get by_day now in
  if negb (covered =? window) then Ok (mkSustained false false latest covered)
  else
    let window_estimates := omap (dict_get by_day) days in
    Ok (mkSustained
          (forallb (λ e, is_adverse e direction) window_estimates)
          (forallb (λ e, (min_n <=? n_treatment e) && (min_n <=? n_control e)) window_estimates)
          latest covered).

(** ** Evidence payloads *)

Inductive ev_value :=
| EvText (s : pystr) | EvBool (b : bool) | EvInt (n : Z) | EvFloat (f : float).

Definition ev_opt {A} (key : string) (o : option A) (f : A → ev_value) : list (string * ev_value) :=
  match o with Some x => [(key, f x)] | None => [] end.

Record evidence_args := mkEvArgs {
  ea_sustained : option bool;
  ea_min_n : option bool;
  ea_bh : option bool;
  ea_direction : option AdverseDirection;
  ea_estimate : option LiftEstimate;
  ea_epoch : option Z;
  ea_principal : option PrincipalId;
  ea_override : option pystr;
  ea_days : option Z;
  ea_window : option Z;
}.

Definition build_evidence (reason : TriggerReason) (source : string) (a : evidence_args) :
    list (string * ev_value) :=
  [("source", EvText (of_ascii source)); ("reason", EvText (of_ascii (TriggerReason_value reason)))]
  ++ ev_opt "adverse_direction" (ea_direction a) (λ d, EvText (of_ascii (AdverseDirection_value d)))
  ++ ev_opt "sustained" (ea_sustained a) EvBool
  ++ ev_opt "min_n_satisfied" (ea_min_n a) EvBool
  ++ ev_opt "bh_significant" (ea_bh a) EvBool
  ++ (match ea_days a, ea_window a with
      | Some d, Some w => [("days_covered", EvInt d); ("window_days", EvInt w)]
      | _, _ => []
      end)
  ++ (match ea_estimate a with
      | None => []
      | Some e =>
          [("lower_bound", EvFloat (lower_bound e)); ("point_estimate", EvFloat (point_estimate e));
           ("p_value", EvFloat (p_value e)); ("n_treatment", EvInt (n_treatment e));
           ("n_control", EvInt (n_control e)); ("confidence", EvFloat (confidence e))]
          ++ ev_opt "directional_p_value" (ea_direction a) (λ d, EvFloat (directional_p_value e d))
      end)
  ++ ev_opt "scoring_epoch_id" (ea_epoch a) EvInt
  ++ ev_opt "principal_id" (ea_principal a) (λ p, EvText (uuid_str (PrincipalId_value p)))
  ++ ev_opt "override_reason" (ea_override a) EvText.

(** ** The grid *)

Record TriggerDecision := mkDecision {
  td_key : StratumKey;
  td_reason : TriggerReason;
  should_disable : bool;
  td_sustained : bool;
  td_min_n : bool;
  bh_significant : bool;
  td_latest : option LiftEstimate;
  td_evidence : list (string * ev_value);
}.

Definition cell_p_value (direction : AdverseDirection) (r : SustainedResult) : float :=
  match latest_estimate r with Some e => directional_p_value e direction | None => 1%float end.

Definition make_decision (cfg : KillswitchConfig) (reason : TriggerReason)
    (direction : AdverseDirection) (epoch : option Z) (key : StratumKey) (r : SustainedResult)
    (significant : bool) : TriggerDecision :=
  mkDecision key reason (sustained r && min_n_satisfied r && significant)
    (sustained r) (min_n_satisfied r) significant (latest_estimate r)
    (build_evidence reason "auto_killswitch"
       (mkEvArgs (Some (sustained r)) (Some (min_n_satisfied r)) (Some significant) (Some direction)
          (latest_estimate r) epoch None None (Some (days_covered r)) (Some (window_days cfg)))).

Definition evaluate_grid (clock_now : datetime)
    (history_by_cell : list (StratumKey * list DailyLiftSnapshot)) (cfg : KillswitchConfig)
    (reason : TriggerReason) (direction : AdverseDirection) (bh_alpha : float)
    (epoch : option Z) (now : option Z) : result exn (list (StratumKey * TriggerDecision)) :=
  let! as_of := match now with Some d => Ok d | None => utc_day clock_now end in
  let! results := rmap (λ c, evaluate_sustained c.2 (window_days cfg) (min_cell_n cfg) as_of
                               direction epoch) history_by_cell in
  let p_values := map (cell_p_value direction) results in
  let! rejected := benjamini_hochberg p_values bh_alpha in
  Ok (zip_with (λ key rb, (key, make_decision cfg reason direction epoch key rb.1 rb.2))
        history_by_cell.*1 (zip results rejected)).

(** [evaluate_safety_grid] (workers/safety_lift.py). *)
Definition evaluate_safety_grid (clock_now : datetime)
    (history_by_cell : list (StratumKey * list DailyLiftSnapshot)) (cfg : KillswitchConfig)
    (bh_alpha : float) (epoch : Z) : result exn (list (StratumKey * TriggerDecision)) :=
  evaluate_grid clock_now history_by_cell cfg SAFETY_VIOLATION_RATE HIGHER bh_alpha (Some epoch) None.

(** ** Writes *)

Record KillswitchWrite := mkKsWrite {
  kw_project : ProjectId;
  kw_key : StratumKey;
  kw_disabled : bool;
  kw_evidence : list (string * ev_value);
  kw_changed_at : datetime;
}.

(** An audit event: the envelope fields and the nested evidence. *)
Record AuditEvent := mkAudit {
  ae_project : ProjectId;
  ae_key : StratumKey;
  ae_disabled : bool;
  ae_evidence : list (string * ev_value);
}.

Record ks_log := mkKsLog { writes : list KillswitchWrite; audit_events : list AuditEvent }.

(** [_moment]. *)
Definition moment (clock_now : datetime) (now : option datetime) : result exn datetime :=
  let instant := match now with Some i => i | None => clock_now end in
  check! dt_aware instant else ValueError in Ok instant.

(** [write_killswitch_state] followed by [_emit_audit]; [audit] tells whether a sink that
    accepts events is attached. *)
Definition write_and_audit (audit : bool) (l : ks_log) (w : KillswitchWrite) : ks_log :=
  mkKsLog (writes l ++ [w])
    (if audit
     then audit_events l ++ [mkAudit (kw_project w) (kw_key w) (kw_disabled w) (kw_evidence w)]
     else audit_events l).

Definition ks_apply (audit : bool) (clock_now : datetime) (project_id : ProjectId)
    (decisions : list (StratumKey * TriggerDecision)) (now : option datetime) (l : ks_log) :
    result exn (list StratumKey) * ks_log :=
  match moment clock_now now with
  | Err e => (Err e, l)
  | Ok m =>
      let '(applied, l') := foldl (λ st kd,
        let '(applied, l) := st in
        if negb (should_disable kd.2) then st
        else (applied ++ [kd.1],
              write_and_audit audit l (mkKsWrite project_id kd.1 true (td_evidence kd.2) m)))
        ([], l) decisions in
      (Ok applied, l')
  end.

Definition record_override (audit : bool) (clock_now : datetime) (project_id : ProjectId)
    (key : StratumKey) (disabled : bool) (principal_id : PrincipalId) (justification : pystr)
    (trigger_reason : TriggerReason) (now : option datetime) (l : ks_log) :
    result exn unit * ks_log :=
  if py_blank justification then (Err ValueError, l)
  else match moment clock_now now with
       | Err e => (Err e, l)
       | Ok m =>
           let ev := build_evidence trigger_reason "operator_override"
             (mkEvArgs None None None None None None (Some principal_id) (Some justification) None None) in
           (Ok tt, write_and_audit audit l (mkKsWrite project_id key disabled ev m))
       end.

(** ** Lemmas: one cell *)

Definition in_window (start now : Z) (s : DailyLiftSnapshot) : Prop := start ≤ day s ≤ now.

Definition epoch_ok (expected : option Z) (s : DailyLiftSnapshot) : Prop :=
  ∀ ep, expected = Some ep → scoring_epoch_id s = Some ep.

Lemma window_loop_spec start now ep history : ∀ by_day by_day',
  window_loop start now ep by_day history = Ok by_day' →
  (∀ d e, dict_get by_day' d = Some e ↔
     dict_get by_day d = Some e
     ∨ ∃ s, s ∈ history ∧ in_window start now s ∧ day s = d ∧ estimate s = e)
  ∧ ∀ s, s ∈ history → in_window start now s → epoch_ok ep s.
Proof.
  induction history as [|snap rest IH]; intros by_day by_day' Hw; cbn [window_loop] in Hw.
  { injection Hw as <-. split.
    - intros d e. split; [auto|]. by intros [?|(s & ?%not_elem_of_nil & _)].
    - by intros s ?%not_elem_of_nil. }
  destruct ((start <=? day snap) && (day snap <=? now)) eqn:Hin; cbn [negb] in Hw.
  - apply andb_true_iff in Hin as [H1%Z.leb_le H2%Z.leb_le].
    destruct (dict_get by_day (day snap)) as [?|] eqn:Hget; [done|].
    destruct (match ep with Some _ => _ | None => false end) eqn:Hep; [done|].
    destruct (IH _ _ Hw) as [Hspec Hepo]. split.
    + intros d e. rewrite Hspec, dict_get_set. setoid_rewrite elem_of_cons. case_decide as Hd.
      * subst d. rewrite Hget. split.
        -- intros [Heq|(s & Hs & ?)]; right.
           ++ injection Heq as <-. exists snap. split; [by left|]. by repeat split.
           ++ exists s. split; [by right|done].
        -- intros [?|(s & [->|?] & ? & ? & <-)]; [done|by left|right; exists s; auto].
      * split.
        -- intros [?|(s & ? & ?)]; [auto|right; exists s; auto].
        -- intros [?|(s & [->|?] & ? & ? & ?)]; [auto|done|right; exists s; auto].
    + intros s [->|Hs]%elem_of_cons Hsin; [|by apply Hepo]. intros e ->.
      apply negb_false_iff, bool_decide_eq_true in Hep. done.
  - destruct (IH _ _ Hw) as [Hspec Hepo].
    assert (Hout : ¬ in_window start now snap).
    { unfold in_window. intros [??]. rewrite !(proj2 (Z.leb_le _ _)) in Hin by done. done. }
    split.
    + intros d e. rewrite Hspec. setoid_rewrite elem_of_cons. split.
      * intros [?|(s & ? & ?)]; [auto|right; exists s; auto].
      * intros [?|(s & [->|?] & ? & ?)]; [auto|done|right; exists s; auto].
    + intros s [->|Hs]%elem_of_cons Hsin; [done|by apply Hepo].
Qed.

Lemma elem_of_required_days now w d :
  1 ≤ w → d ∈ required_days (now - (w - 1)) w ↔ now - w < d ≤ now.
Proof.
  intros Hw. unfold required_days. rewrite list_elem_of_In, in_map_iff. split.
  - intros (i & <- & Hi%in_seq). lia.
  - intros Hd. exists (Z.to_nat (d - (now - (w - 1)))). split; [lia|]. apply in_seq. lia.
Qed.

Lemma length_required_days start w : 1 ≤ w → Z.of_nat (length (required_days start w)) = w.
Proof. intros Hw. unfold required_days. rewrite length_map, length_seq. lia. Qed.

Lemma filter_full {A} (p : A → bool) l :
  length (List.filter p l) = length l ↔ ∀ x, x ∈ l → p x = true.
Proof.
  induction l as [|x l IH]; simpl; [split; [by intros _ ? ?%not_elem_of_nil|done]|].
  setoid_rewrite elem_of_cons. pose proof (filter_length_le p l) as Hle.
  destruct (p x) eqn:Hp; simpl.
  - rewrite Nat.succ_inj_wd, IH. naive_solver.
  - split; [lia|]. intros H. rewrite H in Hp; [done|auto].
Qed.

(** Every day of the window was reported, adverse and with enough runs on both arms. *)
Definition sustained_harm (hist : list DailyLiftSnapshot) (w n now : Z) (dir : AdverseDirection) : Prop :=
  ∀ d, now - w < d ≤ now → ∃ s, s ∈ hist ∧ day s = d ∧ is_adverse (estimate s) dir = true
    ∧ n ≤ n_treatment (estimate s) ∧ n ≤ n_control (estimate s).

Lemma evaluate_sustained_spec hist w n now dir ep r :
  evaluate_sustained hist w n now dir ep = Ok r →
  (sustained r && min_n_satisfied r = true ↔ sustained_harm hist w n now dir)
  ∧ (∀ e, latest_estimate r = Some e ↔ ∃ s, s ∈ hist ∧ day s = now ∧ estimate s = e)
  ∧ (∀ s, s ∈ hist → now - w < day s ≤ now → epoch_ok ep s).
Proof.
  unfold evaluate_sustained. destruct (Z.leb_spec 1 w) as [Hw|]; [|done].
  destruct (Z.leb_spec 1 n) as [Hn|]; [|done]. rewrite rbind_Ok. intros (by_day & Hloop & Hr).
  destruct (window_loop_spec _ _ _ _ _ _ Hloop) as [Hspec Hepo].
  set (days := required_days _ _) in Hr.
  assert (Hget : ∀ d e, now - w < d ≤ now →
    dict_get by_day d = Some e ↔ ∃ s, s ∈ hist ∧ day s = d ∧ estimate s = e).
  { intros d e Hd. rewrite Hspec. cbn [dict_get]. unfold in_window. split; [naive_solver|].
    intros (s & ? & <- & ?). right. exists s. split_and!; [done|lia..|done|done]. }
  assert (Hlast : ∀ e, dict_get by_day now = Some e ↔ ∃ s, s ∈ hist ∧ day s = now ∧ estimate s = e).
  { intros e. apply Hget. lia. }
  split; [|split].
  2: { intros e. rewrite <-Hlast. by repeat case_match; injection Hr as <-. }
  2: { intros s Hs Hd. apply Hepo; [done|]. unfold in_window. lia. }
  destruct (Z.eqb_spec (Z.of_nat (length (List.filter (λ d, negb (bool_decide (dict_get by_day d = None))) days))) w)
    as [Hcov|Hcov]; cbn [negb] in Hr; injection Hr as <-; cbn [sustained min_n_satisfied].
  - assert (Hfull : ∀ d, d ∈ days → is_Some (dict_get by_day d)).
    { rewrite <-(length_required_days (now - (w - 1)) w Hw) in Hcov. fold days in Hcov.
      apply Nat2Z.inj in Hcov. rewrite filter_full in Hcov. intros d Hd. apply Hcov in Hd.
      apply negb_true_iff, bool_decide_eq_false in Hd. by apply not_eq_None_Some. }
    rewrite andb_true_iff, !forallb_forall. unfold sustained_harm. split.
    + intros [Hadv Hmin] d Hd. pose proof (proj2 (elem_of_required_days now w d Hw) Hd) as Hdd.
      destruct (Hfull d Hdd) as [e He].
      assert (In e (omap (dict_get by_day) days)) as Hin by (apply list_elem_of_In, list_elem_of_omap; eauto).
      specialize (Hadv e Hin). specialize (Hmin e Hin).
      apply andb_true_iff in Hmin as [?%Z.leb_le ?%Z.leb_le].
      apply Hget in He as (s & Hs & Hday & <-); [|done]. exists s. done.
    + intros Hh. split; intros e (d & Hd & He)%list_elem_of_In%list_elem_of_omap;
        apply elem_of_required_days in Hd; try done;
        destruct (Hh d Hd) as (s & Hs & Hday & Ha & Ht & Hc);
        assert (dict_get by_day d = Some (estimate s)) as He' by (apply Hget; eauto);
        rewrite He in He'; injection He' as ->; [done|].
      by rewrite !(proj2 (Z.leb_le _ _)).
  - split; [done|]. intros Hh. exfalso. apply Hcov.
    rewrite <-(length_required_days (now - (w - 1)) w Hw). fold days. f_equal. apply filter_full.
    intros d Hd. apply negb_true_iff, bool_decide_eq_false. apply not_eq_None_Some.
    apply elem_of_required_days in Hd; [|done]. destruct (Hh d Hd) as (s & Hs & Hday & _).
    exists (estimate s). apply Hget; eauto.
Qed.

(** ** Lemmas: the grid *)

Lemma evaluate_grid_inv clock hbc cfg reason dir alpha ep now ds :
  evaluate_grid clock hbc cfg reason dir alpha ep now = Ok ds →
  ∃ as_of results rejected,
    (match now with Some d => Ok d | None => utc_day clock end) = Ok as_of
    ∧ rmap (λ c, evaluate_sustained c.2 (window_days cfg) (min_cell_n cfg) as_of dir ep) hbc = Ok results
    ∧ benjamini_hochberg (map (cell_p_value dir) results) alpha = Ok rejected
    ∧ ds = zip_with (λ key rb, (key, make_decision cfg reason dir ep key rb.1 rb.2))
             hbc.*1 (zip results rejected).
Proof.
  unfold evaluate_grid. rewrite rbind_Ok. intros (as_of & Has & H). rewrite rbind_Ok in H.
  destruct H as (results & Hr & H). rewrite rbind_Ok in H. destruct H as (rejected & Hb & H).
  apply (inj Ok) in H. exists as_of, results, rejected. done.
Qed.

(** The decision at position [i] of the grid. *)
Lemma evaluate_grid_lookup clock hbc cfg reason dir alpha ep now ds i key hist :
  evaluate_grid clock hbc cfg reason dir alpha ep now = Ok ds → hbc !! i = Some (key, hist) →
  ∃ as_of results r b,
    (match now with Some d => Ok d | None => utc_day clock end) = Ok as_of
    ∧ rmap (λ c, evaluate_sustained c.2 (window_days cfg) (min_cell_n cfg) as_of dir ep) hbc = Ok results
    ∧ results !! i = Some r
    ∧ evaluate_sustained hist (window_days cfg) (min_cell_n cfg) as_of dir ep = Ok r
    ∧ ds !! i = Some (key, make_decision cfg reason dir ep key r b)
    ∧ (b = true ↔ bh_rejects (map (cell_p_value dir) results) alpha (cell_p_value dir r))
    ∧ (b = true → fscaled (cell_p_value dir r) ≤ fscaled alpha).
Proof.
  intros (as_of & results & rejected & Has & Hr & Hb & ->)%evaluate_grid_inv Hi.
  destruct (rmap_lookup _ _ _ _ _ Hr Hi) as (r & Hri & Hev). simpl in Hev.
  assert (Hpi : map (cell_p_value dir) results !! i = Some (cell_p_value dir r)).
  { change (map ?f ?l) with (f <$> l). by rewrite list_lookup_fmap, Hri. }
  destruct (bh_entry _ _ _ _ _ Hb Hpi) as (b & Hbi & Hiff).
  exists as_of, results, r, b. split_and!; try done.
  - rewrite lookup_zip_with, list_lookup_fmap, Hi. cbn [fmap option_fmap option_map mbind option_bind fst].
    rewrite lookup_zip_with, Hri. cbn [mbind option_bind]. by rewrite Hbi.
  - rewrite Hiff. unfold benjamini_hochberg in Hb. destruct ((0 <? alpha)%float && _) eqn:Ha; [|done].
    apply andb_true_iff in Ha as [H0 H1]. destruct (fraction_lt_1 _ H0 H1) as (_ & _ & Hpos).
    apply bh_rejects_alpha; [|done].
    destruct (map (cell_p_value dir) results) as [|p ps]; [constructor|].
    rewrite rbind_Ok in Hb. destruct Hb as ([] & Hv & _). by apply validated_nonneg.
Qed.

Lemma evaluate_grid_keys clock hbc cfg reason dir alpha ep now ds :
  evaluate_grid clock hbc cfg reason dir alpha ep now = Ok ds → ds.*1 = hbc.*1.
Proof.
  intros (as_of & results & rejected & _ & Hr & Hb & ->)%evaluate_grid_inv.
  apply bh_length in Hb. apply rmap_length in Hr. rewrite length_map in Hb.
  assert (length hbc.*1 = length (zip results rejected)) as Hl
    by (rewrite length_fmap, length_zip_with; lia).
  clear -Hl. revert Hl. generalize (hbc.*1) as ks. generalize (zip results rejected) as rbs.
  intros rbs ks. revert rbs. induction ks as [|k ks IH]; intros [|rb rbs] Hl; try done.
  simpl. f_equal. apply IH. simpl in Hl. lia.
Qed.

(** ** Properties *)

(** The four-condition trigger, exactly: a cell is marked for disabling if and only if
    every calendar day of the window ending today has a snapshot that is adverse in the
    configured direction with enough runs in both arms, and the cell survives the exact
    Benjamini-Hochberg correction across the whole grid on today's directional p-value.  So a
    missing day never triggers, a cell is never disabled with a directional p-value above
    [alpha], and when an epoch is demanded no in-window snapshot of another epoch was used. *)
Lemma killswitch_trigger_exact clock hbc cfg reason dir alpha ep today ds i key hist dec :
  evaluate_grid clock hbc cfg reason dir alpha ep (Some today) = Ok ds →
  hbc !! i = Some (key, hist) → ds !! i = Some (key, dec) →
  ∃ results p, map (cell_p_value dir) results !! i = Some p
    ∧ length results = length hbc
    ∧ (should_disable dec = true ↔
         sustained_harm hist (window_days cfg) (min_cell_n cfg) today dir
         ∧ bh_rejects (map (cell_p_value dir) results) alpha p)
    ∧ (should_disable dec = true → fscaled p ≤ fscaled alpha
         ∧ ∃ s, s ∈ hist ∧ day s = today ∧ p = directional_p_value (estimate s) dir)
    ∧ (∀ s, s ∈ hist → today - window_days cfg < day s ≤ today → epoch_ok ep s).
Proof.
  intros Hg Hi Hd.
  destruct (evaluate_grid_lookup _ _ _ _ _ _ _ _ _ _ _ _ Hg Hi)
    as (as_of & results & r & b & Has & Hr & Hri & Hev & Hdi & Hiff & Hle).
  injection Has as <-. rewrite Hd in Hdi. injection Hdi as ->.
  destruct (evaluate_sustained_spec _ _ _ _ _ _ _ Hev) as (Hsus & Hlast & Hep).
  exists results, (cell_p_value dir r). cbn [should_disable make_decision].
  split; [change (map ?f ?l) with (f <$> l); by rewrite list_lookup_fmap, Hri|].
  split; [by eapply rmap_length|]. split; [|split; [|done]].
  - by rewrite andb_true_iff, Hsus, Hiff.
  - intros [Hs Hb]%andb_true_iff. split; [by apply Hle|]. apply Hsus in Hs.
    assert (1 ≤ window_days cfg) as Hw.
    { unfold evaluate_sustained in Hev. by destruct (Z.leb_spec 1 (window_days cfg)). }
    destruct (Hs today ltac:(lia)) as (s & Hin & Hday & _).
    exists s. split; [done|]. split; [done|]. unfold cell_p_value.
    assert (latest_estimate r = Some (estimate s)) as -> by (apply Hlast; eauto). done.
Qed.

(** Applying the decisions writes exactly the triggering cells, in grid order, each with
    [disabled = true], its own evidence and one time-zone-aware instant, and returns their
    keys; every other cell's state is untouched and nothing is ever re-enabled. *)
Lemma killswitch_apply_exact audit clock pid ds now l :
  let m := match now with Some i => i | None => clock end in
  let triggering := List.filter (λ kd, should_disable kd.2) ds in
  ks_apply audit clock pid ds now l
  = if dt_aware m then
      (Ok (map fst triggering),
       mkKsLog (writes l ++ map (λ kd, mkKsWrite pid kd.1 true (td_evidence kd.2) m) triggering)
         (if audit
          then audit_events l ++ map (λ kd, mkAudit pid kd.1 true (td_evidence kd.2)) triggering
          else audit_events l))
    else (Err ValueError, l).
Proof.
  intros m triggering. unfold ks_apply, moment. fold m. destruct (dt_aware m); [|done].
  subst triggering. set (step := λ st kd, _).
  assert (Hf : ∀ ds acc l, foldl step (acc, l) ds =
    (acc ++ map fst (List.filter (λ kd, should_disable kd.2) ds),
     mkKsLog (writes l ++ map (λ kd, mkKsWrite pid kd.1 true (td_evidence kd.2) m)
                (List.filter (λ kd, should_disable kd.2) ds))
       (if audit
        then audit_events l ++ map (λ kd, mkAudit pid kd.1 true (td_evidence kd.2))
               (List.filter (λ kd, should_disable kd.2) ds)
        else audit_events l))).
  { clear ds l. induction ds as [|[k d] ds IH]; intros acc l.
    - simpl. rewrite !app_nil_r. by destruct audit, l.
    - cbn [foldl]. unfold step at 2. cbn [fst snd]. destruct (should_disable d) eqn:Hd; cbn [negb].
      + rewrite IH. cbn [List.filter snd fst]. rewrite Hd. cbn [map write_and_audit writes audit_events].
        rewrite <-!app_assoc. by destruct audit; rewrite <-?app_assoc.
      + rewrite IH. cbn [List.filter snd]. by rewrite Hd. }
  by rewrite Hf.
Qed.

(** A worked grid: two adverse days out of a two-day window, and a cell with a gap. *)
Definition est_ex (lb p : float) : LiftEstimate :=
  mkEstimate None None 200 200 lb lb 0.5%float p 0.95%float.

Definition grid_ex : list (StratumKey * list DailyLiftSnapshot) :=
  [((mkAgentTypeId (mkUUID 1 I), LESSON),
    [mkSnapshot 9 (est_ex (-0.25)%float 0.01%float) None; mkSnapshot 10 (est_ex (-0.25)%float 0.01%float) None]);
   ((mkAgentTypeId (mkUUID 1 I), SEMANTIC),
    [mkSnapshot 10 (est_ex (-0.25)%float 0.001%float) None])].

Example killswitch_grid_ex :
  (λ ds, map (λ kd, should_disable kd.2) ds)
  <$> (match evaluate_grid (mkDatetime 0 true) grid_ex (mkKsConfig 2 100) TASK_QUALITY_LIFT LOWER
               0.05%float None (Some 10) with Ok ds => Some ds | Err _ => None end)
  = Some [true; false].
Proof. vm_compute. reflexivity. Qed.

Lemma killswitch_trigger_exact_witness :
  ∃ ds dec p, evaluate_grid (mkDatetime 0 true) grid_ex (mkKsConfig 2 100) TASK_QUALITY_LIFT LOWER
                0.05%float None (Some 10) = Ok ds
    ∧ ds !! 0%nat = Some ((mkAgentTypeId (mkUUID 1 I), LESSON), dec)
    ∧ should_disable dec = true ∧ fscaled p ≤ fscaled 0.05%float.
Proof.
  destruct (evaluate_grid (mkDatetime 0 true) grid_ex (mkKsConfig 2 100) TASK_QUALITY_LIFT LOWER
                0.05%float None (Some 10)) as [ds|] eqn:Hg; [|vm_compute in Hg; discriminate].
  pose proof Hg as Hv. vm_compute in Hv. injection Hv as Hv.
  assert (∃ dec, ds !! 0%nat = Some ((mkAgentTypeId (mkUUID 1 I), LESSON), dec)
                 ∧ should_disable dec = true) as (dec & Hd & Hs)
    by (rewrite <-Hv; eexists; split; reflexivity).
  destruct (killswitch_trigger_exact _ _ _ _ _ _ _ _ _ 0 _ _ _ Hg eq_refl Hd)
    as (results & p & _ & _ & _ & Hle & _).
  exists ds, dec, p. split; [reflexivity|]. split; [exact Hd|]. split; [exact Hs|].
  exact (proj1 (Hle Hs)).
Defined.
