(* ===== verification/Fusion.v ===== *)
(** * Rank fusion of the two search arms

    Models src/src/tracebed/hotpath/fusion.py ([ArmSignal], [FusedCandidate],
    [_rank_within_arm], [fuse]) with the [ArmHit] of stores/pg/search.py.  Scores are
    binary64 floats; an integer divisor is converted as Python does, with
    [OverflowError] beyond the largest double.

    The theorems: what each field of the fused list is, position by position, and that
    the result does not depend on the order in which the stores returned the hits. *)

From S2P Require Import Prelude Domain PyText PyFloat StateMachine.
Open Scope Z_scope.

Record ArmHit := mkHit {
  h_memory_id : MemoryId;
  h_raw_score : float;
  h_trust_tier : TrustTier;
  h_status : Status;
}.

Record ArmSignal := mkSignal { sg_raw_score : float; sg_rank : Z }.

Record FusedCandidate := mkFused {
  f_memory_id : MemoryId;
  f_trust_tier : TrustTier;
  f_status : Status;
  f_fused_rank : Z;
  f_lexical : option ArmSignal;
  f_vector : option ArmSignal;
}.

(** [ArmSignal.__post_init__]. *)
Definition signal_post_init (s : ArmSignal) : result exn ArmSignal :=
  check! negb (sg_rank s <? 1) else ValueError in Ok s.

(** [FusedCandidate.__post_init__]. *)
Definition fused_post_init (f : FusedCandidate) : result exn FusedCandidate :=
  check! negb (f_fused_rank f <? 1) else ValueError in
  check! negb (bool_decide (f_lexical f = None) && bool_decide (f_vector f = None)) else ValueError in
  Ok f.

Definition id_text (m : MemoryId) : pystr := uuid_str (MemoryId_value m).
#[global] Arguments id_text : simpl never.

(** The sort keys [(-score, str(memory_id))]. *)
Definition hit_key (h : ArmHit) : float * pystr := ((- h_raw_score h)%float, id_text (h_memory_id h)).
Definition hit_leb (a b : ArmHit) : bool := key_leb (hit_key a) (hit_key b).

Definition score_key (p : MemoryId * float) : float * pystr := ((- p.2)%float, id_text p.1).
Definition score_leb (a b : MemoryId * float) : bool := key_leb (score_key a) (score_key b).

Fixpoint enumerate {A} (start : Z) (l : list A) : list (Z * A) :=
  match l with [] => [] | x :: l' => (start, x) :: enumerate (start + 1) l' end.

Definition rank_within_arm (hits : list ArmHit) : list (MemoryId * Z) :=
  dict_of (map (λ p, (h_memory_id p.2, p.1)) (enumerate 1 (py_sorted hit_leb hits))).

Definition by_id (hits : list ArmHit) : list (MemoryId * ArmHit) :=
  dict_of (map (λ h, (h_memory_id h, h)) hits).

(** [float(n)] as an operand of a division: round to nearest even, or [OverflowError]. *)
Definition float_of_int (n : Z) : result exn float :=
  check! Z.abs n <? 2 ^ 1024 - 2 ^ 970 else OverflowError in
  Ok (SF2Prim (binary_normalize FloatOps.prec FloatOps.emax n 0 false)).

Section Fuse.
Context (rrf_k : Z) (weight_lexical weight_vector : float).

(** One arm's share of the sum: nothing when the arm did not return the candidate. *)
Definition arm_term (weight : float) (ranks : list (MemoryId * Z)) (m : MemoryId) (score : float)
  : result exn float :=
  match dict_get ranks m with
  | None => Ok score
  | Some r => let! d := float_of_int (rrf_k + r) in Ok (score + weight / d)%float
  end.

Definition rrf_score (lexical_rank vector_rank : list (MemoryId * Z)) (m : MemoryId) : result exn float :=
  let! s := arm_term weight_lexical lexical_rank m 0 in arm_term weight_vector vector_rank m s.

Definition signal_of (hit : option ArmHit) (ranks : list (MemoryId * Z)) (m : MemoryId)
  : result exn (option ArmSignal) :=
  match hit with
  | None => Ok None
  | Some h =>
      match dict_get ranks m with
      | None => Err KeyError
      | Some r => let! s := signal_post_init (mkSignal (h_raw_score h) r) in Ok (Some s)
      end
  end.

(** One entry of the fused list. *)
Definition fuse_one (lexical_by_id vector_by_id : list (MemoryId * ArmHit))
    (lexical_rank vector_rank : list (MemoryId * Z)) (p : Z * (MemoryId * float))
  : result exn FusedCandidate :=
  let '(position, (m, _)) := p in
  let lexical_hit := dict_get lexical_by_id m in
  let vector_hit := dict_get vector_by_id m in
  match (match lexical_hit with Some h => Some h | None => vector_hit end) with
  | None => Err AssertionError
  | Some source =>
      let! lexical := signal_of lexical_hit lexical_rank m in
      let! vector := signal_of vector_hit vector_rank m in
      fused_post_init (mkFused m (h_trust_tier source) (h_status source) position lexical vector)
  end.

(** [set(lexical_by_id) | set(vector_by_id)], in some order. *)
Definition all_ids (lexical_by_id vector_by_id : list (MemoryId * ArmHit)) : list MemoryId :=
  lexical_by_id.*1
  ++ List.filter (λ m, negb (bool_decide (m ∈ lexical_by_id.*1))) vector_by_id.*1.

Definition scored (lexical_hits vector_hits : list ArmHit) : result exn (list (MemoryId * float)) :=
  let lexical_rank := rank_within_arm lexical_hits in
  let vector_rank := rank_within_arm vector_hits in
  rmap (λ m, let! s := rrf_score lexical_rank vector_rank m in Ok (m, s))
       (all_ids (by_id lexical_hits) (by_id vector_hits)).

Definition fuse (lexical_hits vector_hits : list ArmHit) : result exn (list FusedCandidate) :=
  check! negb (rrf_k <=? 0) else ValueError in
  check! negb ((weight_lexical <? 0)%float || (weight_vector <? 0)%float) else ValueError in
  let! scores := scored lexical_hits vector_hits in
  rmap (fuse_one (by_id lexical_hits) (by_id vector_hits)
                 (rank_within_arm lexical_hits) (rank_within_arm vector_hits))
       (enumerate 1 (py_sorted score_leb scores)).

(** ** The order on keys, total on the floats that are not NaN *)

(** The same order computed on ranks: total on every float, equal to [key_leb] off NaN. *)
Definition rank_leb (a b : float * pystr) : bool :=
  bool_decide (lex_lt (frank a.1) (frank b.1))
  || bool_decide (frank a.1 = frank b.1) && str_leb a.2 b.2.

Lemma rank_leb_true a b : rank_leb a b = true
  ↔ lex_lt (frank a.1) (frank b.1) ∨ frank a.1 = frank b.1 ∧ str_leb a.2 b.2 = true.
Proof. unfold rank_leb. by rewrite orb_true_iff, andb_true_iff, !bool_decide_eq_true. Qed.

Lemma key_leb_rank_leb a b : not_nan a.1 → not_nan b.1 → key_leb a b = rank_leb a b.
Proof.
  intros Ha Hb. apply eq_bool_prop_intro. rewrite !Is_true_true, rank_leb_true. by apply key_leb_rank.
Qed.

#[local] Instance rank_leb_preorder {A} (k : A → float * pystr) : TotalPreorder (λ a b, rank_leb (k a) (k b)).
Proof.
  split.
  - intros a b. rewrite !rank_leb_true.
    destruct (lex_trichotomy (frank (k a).1) (frank (k b).1)) as [|[Heq|]]; [auto| |auto].
    rewrite Heq. destruct (leb_total (leb := str_leb) (k a).2 (k b).2); auto.
  - intros a b c. rewrite !rank_leb_true. intros [H1|[H1 H1']] [H2|[H2 H2']].
    + left. eapply lex_lt_trans; eauto.
    + left. by rewrite <-H2.
    + left. by rewrite H1.
    + right. split; [congruence|]. eapply leb_trans; eauto.
Qed.

Lemma rank_leb_antisym a b : rank_leb a b = true → rank_leb b a = true → a.2 = b.2.
Proof.
  rewrite !rank_leb_true. intros [H1|[H1 H1']] [H2|[H2 H2']].
  - destruct (lex_irrefl (frank a.1)). by eapply lex_lt_trans.
  - rewrite H2 in H1. by apply lex_irrefl in H1.
  - rewrite H1 in H2. by apply lex_irrefl in H2.
  - by apply str_leb_antisym.
Qed.

Lemma id_text_inj a b : id_text a = id_text b → a = b.
Proof. destruct a as [u], b as [v]. unfold id_text. simpl. by intros ->%uuid_str_inj. Qed.

(** ** Lemmas: one arm *)

(** What the store promises of one arm's hits: one per memory, and scores that are numbers. *)
Definition good_arm (hits : list ArmHit) : Prop :=
  NoDup (h_memory_id <$> hits) ∧ Forall (λ h, not_nan (h_raw_score h)) hits.

Definition find_hit (hits : list ArmHit) (m : MemoryId) : option ArmHit :=
  List.find (λ h, bool_decide (h_memory_id h = m)) hits.

(** The position of a hit in its arm: one more than the number of hits with a greater
    score, or the same score and a smaller identifier. *)
Definition position (hits : list ArmHit) (h : ArmHit) : Z :=
  1 + Z.of_nat (length (List.filter (λ h', negb (hit_leb h h')) hits)).

(** The untouched contribution of an arm to a memory. *)
Definition arm_signal (hits : list ArmHit) (m : MemoryId) : option ArmSignal :=
  (λ h, mkSignal (h_raw_score h) (position hits h)) <$> find_hit hits m.

Lemma by_id_get hits m : NoDup (h_memory_id <$> hits) → dict_get (by_id hits) m = find_hit hits m.
Proof.
  intros Hnd. unfold by_id. rewrite dict_of_NoDup.
  - unfold find_hit. induction hits as [|h hits IH]; simpl; [done|]. case_bool_decide; [done|].
    apply IH. by apply NoDup_cons in Hnd as [_ ?].
  - rewrite <-list_fmap_compose. exact Hnd.
Qed.

Lemma by_id_keys hits : NoDup (h_memory_id <$> hits) → (by_id hits).*1 = h_memory_id <$> hits.
Proof.
  intros Hnd. unfold by_id. rewrite dict_of_NoDup; rewrite <-list_fmap_compose; [done|exact Hnd].
Qed.

Lemma find_hit_Some hits m h : find_hit hits m = Some h → h ∈ hits ∧ h_memory_id h = m.
Proof.
  intros [Hin Hm%bool_decide_eq_true]%find_some. split; [by apply list_elem_of_In|done].
Qed.

Lemma find_hit_elem hits m : m ∈ h_memory_id <$> hits ↔ find_hit hits m ≠ None.
Proof.
  unfold find_hit. induction hits as [|h hits IH]; simpl; [by rewrite elem_of_nil|].
  rewrite elem_of_cons, IH. case_bool_decide; naive_solver.
Qed.

Lemma find_hit_NoDup hits h : NoDup (h_memory_id <$> hits) → h ∈ hits → find_hit hits (h_memory_id h) = Some h.
Proof.
  intros Hnd Hin. destruct (find_hit hits (h_memory_id h)) as [h'|] eqn:Hf.
  - apply find_hit_Some in Hf as [Hin' Hid]. f_equal.
    apply list_elem_of_lookup in Hin as [i Hi], Hin' as [j Hj].
    assert (i = j) as ->; [|congruence]. apply (NoDup_lookup _ _ _ (h_memory_id h) Hnd);
      rewrite list_lookup_fmap, ?Hi, ?Hj; simpl; congruence.
  - exfalso. eapply find_hit_elem; [|exact Hf]. apply list_elem_of_fmap. eauto.
Qed.

Lemma hit_leb_rank hits x y : good_arm hits → x ∈ hits → y ∈ hits →
  hit_leb x y = rank_leb (hit_key x) (hit_key y).
Proof.
  intros [_ Hn] Hx Hy. rewrite Forall_forall in Hn. apply key_leb_rank_leb; simpl; apply opp_not_nan; auto.
Qed.

Lemma hit_leb_antisym hits x y : good_arm hits → x ∈ hits → y ∈ hits →
  rank_leb (hit_key x) (hit_key y) = true → rank_leb (hit_key y) (hit_key x) = true → x = y.
Proof.
  intros [Hnd _] Hx Hy H1 H2. assert (Hid : h_memory_id x = h_memory_id y).
  { apply id_text_inj. exact (rank_leb_antisym (hit_key x) (hit_key y) H1 H2). }
  pose proof (find_hit_NoDup _ _ Hnd Hx) as E1. pose proof (find_hit_NoDup _ _ Hnd Hy) as E2. congruence.
Qed.

Lemma arm_sorted hits : good_arm hits →
  py_sorted hit_leb hits = py_sorted (λ a b, rank_leb (hit_key a) (hit_key b)) hits.
Proof. intros Hg. apply py_sorted_ext. intros x y. by apply hit_leb_rank. Qed.

Lemma arm_sorted_perm hits hits' : good_arm hits → hits ≡ₚ hits' →
  py_sorted hit_leb hits = py_sorted hit_leb hits'.
Proof.
  intros Hg Hp. assert (good_arm hits') by (unfold good_arm in *; by rewrite <-Hp).
  rewrite !arm_sorted by done. apply py_sorted_perm_inv; [apply rank_leb_preorder| |done].
  intros x y Hx Hy. by apply (hit_leb_antisym hits).
Qed.

Lemma good_arm_NoDup hits : good_arm hits → NoDup hits.
Proof. intros [Hnd _]. by eapply NoDup_fmap_1. Qed.

Lemma arm_position hits i h : good_arm hits → py_sorted hit_leb hits !! i = Some h →
  position hits h = Z.of_nat i + 1.
Proof.
  intros Hg. rewrite arm_sorted by done. intros Hi.
  assert (Hh : h ∈ hits).
  { apply (elem_of_py_sorted (λ a b, rank_leb (hit_key a) (hit_key b))), list_elem_of_lookup. eauto. }
  apply py_sorted_position in Hi; [|apply _|by apply good_arm_NoDup|intros x y; by apply hit_leb_antisym].
  unfold position. rewrite Hi.
  rewrite (List.filter_ext_in _ (λ y, negb (rank_leb (hit_key h) (hit_key y)))); [lia|].
  intros y Hy%list_elem_of_In. f_equal. by eapply hit_leb_rank.
Qed.

Lemma enumerate_lookup {A} start (l : list A) i :
  enumerate start l !! i = (λ x, (start + Z.of_nat i, x)) <$> l !! i.
Proof.
  revert start i. induction l as [|x l IH]; intros start i; simpl; [done|].
  destruct i as [|i]; simpl; [by rewrite Z.add_0_r|]. rewrite IH.
  destruct (l !! i); simpl; [|done]. do 2 f_equal. lia.
Qed.

Lemma enumerate_snd {A} start (l : list A) : (enumerate start l).*2 = l.
Proof. revert start. induction l as [|x l IH]; intros start; [done|]. cbn [enumerate]. by rewrite fmap_cons, IH. Qed.

Lemma rank_get hits m : good_arm hits →
  dict_get (rank_within_arm hits) m = position hits <$> find_hit hits m.
Proof.
  intros Hg. pose proof (good_arm_NoDup _ Hg) as Hn. pose proof Hg as [Hnd _].
  set (entries := map (λ p, (h_memory_id p.2, p.1)) (enumerate 1 (py_sorted hit_leb hits))).
  assert (Hk : entries.*1 = h_memory_id <$> py_sorted hit_leb hits).
  { unfold entries. rewrite <-list_fmap_compose. rewrite <-(enumerate_snd 1 (py_sorted _ _)) at 2.
    by rewrite <-list_fmap_compose. }
  assert (Hnk : NoDup entries.*1) by (rewrite Hk; by rewrite (py_sorted_Permutation hit_leb hits)).
  unfold rank_within_arm. fold entries. rewrite dict_of_NoDup by done.
  destruct (find_hit hits m) as [h|] eqn:Hf; simpl.
  - apply find_hit_Some in Hf as [Hin <-]. apply dict_get_NoDup; [done|].
    apply (elem_of_py_sorted hit_leb), list_elem_of_lookup in Hin as [i Hi].
    apply list_elem_of_fmap. exists (Z.of_nat i + 1, h). simpl. rewrite (arm_position _ _ _ Hg Hi).
    split; [done|]. apply list_elem_of_lookup. exists i. rewrite enumerate_lookup, Hi. simpl.
    do 2 f_equal. lia.
  - apply dict_get_None. rewrite Hk, (py_sorted_Permutation hit_leb hits).
    intros Hin%find_hit_elem. done.
Qed.

Lemma position_bounds hits h : 1 ≤ position hits h ≤ 1 + Z.of_nat (length hits).
Proof. unfold position. pose proof (List.filter_length_le (λ h', negb (hit_leb h h')) hits). lia. Qed.

(** ** Lemmas: the fused list *)

Lemma float_of_int_small n : 0 ≤ n ≤ 2 ^ 1023 → is_ok (float_of_int n) = true.
Proof.
  intros Hn. unfold float_of_int.
  assert (2 ^ 1023 < 2 ^ 1024 - 2 ^ 970) by reflexivity.
  assert (Z.abs n <? 2 ^ 1024 - 2 ^ 970 = true) as -> by (apply Z.ltb_lt; lia). done.
Qed.

Lemma arm_term_total weight hits m score : 0 < rrf_k → good_arm hits →
  rrf_k + Z.of_nat (length hits) < 2 ^ 1023 →
  ∃ s, arm_term weight (rank_within_arm hits) m score = Ok s.
Proof.
  intros Hk Hg Hb. unfold arm_term. rewrite rank_get by done.
  destruct (find_hit hits m) as [h|]; simpl; [|by eexists].
  pose proof (position_bounds hits h). pose proof (float_of_int_small (rrf_k + position hits h)) as Hf.
  destruct (float_of_int _) as [d|]; [by eexists|]. discriminate Hf. lia.
Qed.

Lemma all_ids_NoDup lex vec : NoDup (h_memory_id <$> lex) → NoDup (h_memory_id <$> vec) →
  NoDup (all_ids (by_id lex) (by_id vec)).
Proof.
  intros Hl Hv. unfold all_ids. rewrite !by_id_keys by done. apply NoDup_app. split_and!; [done| |].
  - intros m Hm Hf%list_elem_of_In%filter_In. destruct Hf as [_ Hf%negb_true_iff%bool_decide_eq_false]. done.
  - apply NoDup_ListNoDup, List.NoDup_filter. by apply NoDup_ListNoDup.
Qed.

Lemma elem_of_all_ids lex vec m : NoDup (h_memory_id <$> lex) → NoDup (h_memory_id <$> vec) →
  m ∈ all_ids (by_id lex) (by_id vec) ↔ m ∈ h_memory_id <$> lex ∨ m ∈ h_memory_id <$> vec.
Proof.
  intros Hl Hv. unfold all_ids. rewrite !by_id_keys, elem_of_app by done.
  split; (intros [H|H]; [by left|]).
  - apply list_elem_of_In, filter_In in H as [H _]. right. by apply list_elem_of_In.
  - destruct (decide (m ∈ h_memory_id <$> lex)); [by left|right].
    apply list_elem_of_In, filter_In. split; [by apply list_elem_of_In|].
    by rewrite bool_decide_eq_false_2.
Qed.

Lemma scored_spec lex vec scores : scored lex vec = Ok scores →
  scores.*1 = all_ids (by_id lex) (by_id vec).
Proof.
  unfold scored. intros H%rmap_Ok. induction H as [|m [m' s] ms scores Hm _ IH]; [done|].
  apply rbind_Ok in Hm as (s' & _ & [= <- <-]). rewrite fmap_cons. by rewrite IH.
Qed.

Lemma scored_total lex vec : 0 < rrf_k → good_arm lex → good_arm vec →
  rrf_k + Z.of_nat (length lex) < 2 ^ 1023 → rrf_k + Z.of_nat (length vec) < 2 ^ 1023 →
  ∃ scores, scored lex vec = Ok scores.
Proof.
  intros Hk Hl Hv Hbl Hbv. apply rmap_total. intros m _. unfold rrf_score.
  destruct (arm_term_total weight_lexical lex m 0 Hk Hl Hbl) as [s1 ->]. simpl.
  destruct (arm_term_total weight_vector vec m s1 Hk Hv Hbv) as [s2 ->]. by eexists.
Qed.

(** The entry the source describes for a memory at a position of the fused order. *)
Definition fused_spec (lex vec : list ArmHit) (i : nat) (m : MemoryId) (f : FusedCandidate) : Prop :=
  f_memory_id f = m ∧ f_fused_rank f = Z.of_nat i + 1
  ∧ f_lexical f = arm_signal lex m ∧ f_vector f = arm_signal vec m
  ∧ ∃ source, (find_hit lex m = Some source ∨ find_hit lex m = None ∧ find_hit vec m = Some source)
              ∧ f_trust_tier f = h_trust_tier source ∧ f_status f = h_status source.

Lemma signal_of_spec hits m : good_arm hits →
  signal_of (dict_get (by_id hits) m) (rank_within_arm hits) m = Ok (arm_signal hits m).
Proof.
  intros Hg. rewrite by_id_get by apply Hg. unfold signal_of, arm_signal. rewrite rank_get by done.
  destruct (find_hit hits m) as [h|]; simpl; [|done]. pose proof (position_bounds hits h).
  unfold signal_post_init. simpl. destruct (Z.ltb_spec (position hits h) 1); [lia|done].
Qed.

Lemma fuse_one_spec lex vec i m s : good_arm lex → good_arm vec →
  m ∈ all_ids (by_id lex) (by_id vec) →
  ∃ f, fuse_one (by_id lex) (by_id vec) (rank_within_arm lex) (rank_within_arm vec)
                (Z.of_nat i + 1, (m, s)) = Ok f ∧ fused_spec lex vec i m f.
Proof.
  intros Hl Hv Hm. apply elem_of_all_ids in Hm; [|apply Hl|apply Hv]. rewrite !find_hit_elem in Hm.
  unfold fuse_one. rewrite !signal_of_spec by done. rewrite !by_id_get by (apply Hl || apply Hv).
  assert (∃ source, (match find_hit lex m with Some h => Some h | None => find_hit vec m end) = Some source
            ∧ (find_hit lex m = Some source ∨ find_hit lex m = None ∧ find_hit vec m = Some source))
    as (source & -> & Hs).
  { destruct (find_hit lex m) as [h|]; [by exists h; auto|].
    destruct (find_hit vec m) as [h|]; [by exists h; auto|]. by destruct Hm. }
  cbn [rbind]. unfold fused_post_init. cbn [f_fused_rank f_lexical f_vector].
  destruct (Z.ltb_spec (Z.of_nat i + 1) 1); [lia|]. cbn [negb].
  assert (bool_decide (arm_signal lex m = None) && bool_decide (arm_signal vec m = None) = false) as ->.
  { unfold arm_signal. apply andb_false_iff. destruct Hs as [->|[_ ->]]; [left|right]; done. }
  eexists. split; [done|]. unfold fused_spec. simpl. split_and!; eauto.
Qed.

(** The fused list names the memories in the order it was given them. *)
Lemma fuse_ids lex_d vec_d lex_r vec_r start ordered fused :
  rmap (fuse_one lex_d vec_d lex_r vec_r) (enumerate start ordered) = Ok fused →
  f_memory_id <$> fused = ordered.*1.
Proof.
  intros Hf%rmap_Ok. rewrite <-(enumerate_snd start ordered), <-list_fmap_compose. symmetry.
  apply list_eq_Forall2, Forall2_fmap. eapply Forall2_impl; [exact Hf|].
  intros [pos [m s]] f Hfo. simpl. unfold fuse_one in Hfo.
  destruct (match dict_get lex_d m with Some _ => _ | None => _ end); [|done].
  apply rbind_Ok in Hfo as (l & _ & Hfo). apply rbind_Ok in Hfo as (v & _ & Hfo).
  unfold fused_post_init in Hfo. do 2 (case_first Hfo). by injection Hfo as <-.
Qed.

(** ** Theorems *)

(** Fusion, position by position: on two arms whose hits are numbers, one per memory,
    [fuse] returns, with one entry per memory that either arm found, ranked 1, 2, ... in
    order; each entry carries each arm's raw score untouched with its position in that arm,
    and nothing for an arm that did not find it (an empty arm suppresses no candidate). *)
Lemma fuse_exact lex vec : 0 < rrf_k → (weight_lexical <? 0)%float = false →
  (weight_vector <? 0)%float = false → good_arm lex → good_arm vec →
  rrf_k + Z.of_nat (length lex) < 2 ^ 1023 → rrf_k + Z.of_nat (length vec) < 2 ^ 1023 →
  ∃ fused, fuse lex vec = Ok fused
  ∧ NoDup (f_memory_id <$> fused)
  ∧ (∀ m, m ∈ f_memory_id <$> fused ↔ m ∈ h_memory_id <$> lex ∨ m ∈ h_memory_id <$> vec)
  ∧ ∀ i f, fused !! i = Some f → fused_spec lex vec i (f_memory_id f) f.
Proof.
  intros Hk Hwl Hwv Hl Hv Hbl Hbv. unfold fuse.
  rewrite (proj2 (Z.leb_gt _ _) Hk), Hwl, Hwv. cbn [negb orb].
  destruct (scored_total lex vec Hk Hl Hv Hbl Hbv) as [scores Hs]. rewrite Hs. cbn [rbind].
  set (ordered := py_sorted score_leb scores). pose proof (scored_spec _ _ _ Hs) as Hids.
  assert (Hperm : ordered.*1 ≡ₚ all_ids (by_id lex) (by_id vec)).
  { unfold ordered. by rewrite (py_sorted_Permutation score_leb scores), Hids. }
  assert (Hone : ∀ i p, enumerate 1 ordered !! i = Some p → ∃ f,
    fuse_one (by_id lex) (by_id vec) (rank_within_arm lex) (rank_within_arm vec) p = Ok f
    ∧ fused_spec lex vec i p.2.1 f).
  { intros i p. rewrite enumerate_lookup. destruct (ordered !! i) as [[m s]|] eqn:Hi; [|done].
    intros [= <-]. rewrite Z.add_comm. cbn [fst snd]. apply fuse_one_spec; [done..|]. rewrite <-Hperm.
    apply list_elem_of_lookup. exists i. by rewrite list_lookup_fmap, Hi. }
  destruct (rmap_total (fuse_one (by_id lex) (by_id vec) (rank_within_arm lex) (rank_within_arm vec))
              (enumerate 1 ordered)) as [fused Hf].
  { intros p [i Hp]%list_elem_of_lookup. destruct (Hone i p Hp) as (f & ? & _). by exists f. }
  assert (Hspec : ∀ i f, fused !! i = Some f → ∃ p, enumerate 1 ordered !! i = Some p ∧ fused_spec lex vec i p.2.1 f).
  { intros i f Hi. pose proof Hf as HF%rmap_Ok.
    destruct (Forall2_lookup_r _ _ _ _ _ HF Hi) as (p & Hp & Hpf). exists p. split; [done|].
    destruct (Hone i p Hp) as (f' & Hf' & Hsp). congruence. }
  pose proof (fuse_ids _ _ _ _ _ _ _ Hf) as Hmap.
  exists fused. rewrite Hmap, Hperm. split_and!; [done|by apply all_ids_NoDup; [apply Hl|apply Hv]|..].
  - intros m. rewrite Hperm. apply elem_of_all_ids; [apply Hl|apply Hv].
  - intros i f Hi. destruct (Hspec i f Hi) as (p & _ & Hsp). pose proof Hsp as (Heq & _). by rewrite Heq.
Qed.

(** Two arms in a different order score every memory alike. *)
Lemma rank_perm hits hits' : good_arm hits → hits ≡ₚ hits' → rank_within_arm hits = rank_within_arm hits'.
Proof. intros Hg Hp. unfold rank_within_arm. by rewrite (arm_sorted_perm hits hits'). Qed.

Lemma by_id_perm hits hits' m : good_arm hits → hits ≡ₚ hits' →
  dict_get (by_id hits) m = dict_get (by_id hits') m.
Proof.
  intros [Hnd _] Hp. unfold by_id. rewrite !dict_of_NoDup.
  - apply dict_get_Permutation; [by rewrite <-list_fmap_compose|]. by rewrite Hp.
  - rewrite <-list_fmap_compose. change (NoDup (h_memory_id <$> hits')). by rewrite <-Hp.
  - rewrite <-list_fmap_compose. exact Hnd.
Qed.

Lemma good_arm_perm hits hits' : good_arm hits → hits ≡ₚ hits' → good_arm hits'.
Proof. unfold good_arm. intros Hg Hp. by rewrite <-Hp. Qed.

Lemma scored_perm lex lex' vec vec' scores :
  good_arm lex → good_arm vec → lex ≡ₚ lex' → vec ≡ₚ vec' → scored lex vec = Ok scores →
  ∃ scores', scored lex' vec' = Ok scores' ∧ scores ≡ₚ scores'.
Proof.
  intros Hl Hv Pl Pv. unfold scored. rewrite (rank_perm lex lex'), (rank_perm vec vec') by done.
  apply rmap_Permutation. apply NoDup_Permutation.
  - apply all_ids_NoDup; [apply Hl|apply Hv].
  - apply all_ids_NoDup; [apply (good_arm_perm lex)|apply (good_arm_perm vec)]; done.
  - pose proof (good_arm_perm _ _ Hl Pl) as [Hl' _]. pose proof (good_arm_perm _ _ Hv Pv) as [Hv' _].
    destruct Hl as [Hl _], Hv as [Hv _]. intros m. rewrite !elem_of_all_ids by done. by rewrite Pl, Pv.
Qed.

(** The fused ordering is a function of the two sets of hits: permuting the hits of
    either arm changes nothing, provided the scores are numbers (ties are broken by the
    identifier, never by arrival order). *)
Lemma fuse_order_independent lex lex' vec vec' fused :
  good_arm lex → good_arm vec → lex ≡ₚ lex' → vec ≡ₚ vec' →
  (∀ scores, scored lex vec = Ok scores → Forall (λ p, not_nan p.2) scores) →
  fuse lex vec = Ok fused → fuse lex' vec' = Ok fused.
Proof.
  intros Hl Hv Pl Pv Hnn. unfold fuse. destruct (negb (rrf_k <=? 0)); [|done].
  destruct (negb _); [|done]. intros (scores & Hs & Hf)%rbind_Ok.
  destruct (scored_perm _ _ _ _ _ Hl Hv Pl Pv Hs) as (scores' & -> & Hp). cbn [rbind].
  specialize (Hnn _ Hs). rewrite Forall_forall in Hnn.
  assert (Hsort : py_sorted score_leb scores = py_sorted score_leb scores').
  { assert (Hleb : ∀ k, (∀ p, p ∈ k → p ∈ scores) →
      py_sorted score_leb k = py_sorted (λ a b, rank_leb (score_key a) (score_key b)) k).
    { intros k Hk. apply py_sorted_ext. intros x y Hx Hy.
      apply key_leb_rank_leb; simpl; apply opp_not_nan, Hnn; auto. }
    rewrite !Hleb; [|intros p; by rewrite Hp|done].
    apply py_sorted_perm_inv; [apply rank_leb_preorder| |done]. intros x y Hx Hy H1 H2.
    assert (Hid : x.1 = y.1) by (apply id_text_inj; exact (rank_leb_antisym (score_key x) (score_key y) H1 H2)).
    assert (Hnd : NoDup scores.*1) by (rewrite (scored_spec _ _ _ Hs); apply all_ids_NoDup; [apply Hl|apply Hv]).
    destruct x as [m s], y as [m' s']. simpl in Hid. subst m'.
    apply (dict_get_NoDup _ _ _ Hnd) in Hx, Hy. congruence. }
  rewrite <-Hsort, <-Hf. rewrite (rank_perm lex lex'), (rank_perm vec vec') by done.
  apply rmap_ext. intros [pos [m s]] _. unfold fuse_one.
  by rewrite (by_id_perm lex lex'), (by_id_perm vec vec').
Qed.

End Fuse.

(** ** Witnesses: three memories, one of them found by both arms *)

Definition hit_ex (id : N) (H : Is_true (N.ltb id (2 ^ 128))) (score : float) : ArmHit :=
  mkHit (mkMemoryId (mkUUID id H)) score TierA VALIDATED.

Definition lex_ex : list ArmHit := [hit_ex 1 I 7.5; hit_ex 2 I 3]%float.
Definition vec_ex : list ArmHit := [hit_ex 2 I 0.5; hit_ex 3 I 0.75]%float.

Lemma good_ex : good_arm lex_ex ∧ good_arm vec_ex.
Proof.
  assert (Hnd : ∀ l : list MemoryId, bool_decide (NoDup l) = true → NoDup l) by (intros l; apply bool_decide_eq_true).
  split; split; first [apply Hnd; vm_compute; reflexivity|repeat constructor].
Qed.

Definition fused_of (r : result exn (list FusedCandidate)) : list FusedCandidate :=
  match r with Ok l => l | Err _ => [] end.

Lemma fuse_exact_witness :
  ∃ fused, fuse 60 1 1 lex_ex vec_ex = Ok fused
  ∧ (λ f, (uuid_int (MemoryId_value (f_memory_id f)), f_fused_rank f, sg_rank <$> f_lexical f, sg_rank <$> f_vector f)) <$> fused
    = [(2%N, 1, Some 2, Some 2); (1%N, 2, Some 1, None); (3%N, 3, None, Some 1)]
  ∧ NoDup (f_memory_id <$> fused).
Proof.
  destruct good_ex as [Hl Hv].
  destruct (fuse_exact 60 1 1 lex_ex vec_ex) as (fused & Hf & Hnd & _);
    [reflexivity|vm_compute; reflexivity|vm_compute; reflexivity|exact Hl|exact Hv|reflexivity|reflexivity|].
  exists fused. split; [exact Hf|]. split; [|exact Hnd].
  assert (fused = fused_of (fuse 60 1 1 lex_ex vec_ex)) as -> by (by rewrite Hf).
  vm_compute. reflexivity.
Defined.

Definition nan_free (l : list (MemoryId * float)) : bool := forallb (λ p, negb (SFnan (Prim2SF p.2))) l.

Lemma nan_free_Forall l : nan_free l = true → Forall (λ p, not_nan p.2) l.
Proof.
  unfold nan_free. rewrite forallb_forall. intros H. apply Forall_forall. intros p Hp%list_elem_of_In.
  apply H in Hp. unfold not_nan. by destruct (SFnan _).
Qed.

Lemma fuse_order_independent_witness :
  fuse 60 1 1 (reverse lex_ex) (reverse vec_ex) = Ok (fused_of (fuse 60 1 1 lex_ex vec_ex)).
Proof.
  destruct good_ex as [Hl Hv].
  apply (fuse_order_independent 60 1 1 lex_ex (reverse lex_ex) vec_ex (reverse vec_ex));
    [exact Hl|exact Hv|symmetry; apply reverse_Permutation|symmetry; apply reverse_Permutation| |vm_compute; reflexivity].
  intros scores Hs.
  assert (scores = match scored 60 1 1 lex_ex vec_ex with Ok l => l | Err _ => [] end) as -> by (by rewrite Hs).
  apply nan_free_Forall. vm_compute. reflexivity.
Defined.
