(* ===== verification/Abstention.v ===== *)
(** * Abstention from calibrated raw signals

    Models src/src/tracebed/hotpath/abstention.py ([RarityEvidence], [CandidateSignals]
    with their validation, [rare_shared_term_count], [rarity_gate_passes], [decide]) and
    [bm25_saturate] of hotpath/calibration.py, with the abstention section of
    domain/config.py.

    The theorem says exactly when a candidate is injected and which code is reported
    otherwise, and that a malformed (NaN, infinite, out of range) signal never reaches a
    comparison. *)

From S2P Require Import Prelude Domain PyText PyFloat.
Open Scope Z_scope.

Record AbstentionConfig := mkAbstention {
  cos_threshold : float;
  bm25_sat_k : float;
  bm25_norm_threshold : float;
  rarity_min_shared_terms : Z;
  rarity_max_df_pct : float;
  rarity_min_corpus_docs : Z;
}.

Record RarityEvidence := mkRarity {
  shared_term_doc_freq_pct : list float;
  corpus_doc_count : Z;
}.

(** [lo <= x <= hi] as Python chains it. *)
Definition within (lo x hi : float) : bool := (lo <=? x)%float && (x <=? hi)%float.

Definition rarity_post_init (r : RarityEvidence) : result exn RarityEvidence :=
  check! negb (corpus_doc_count r <? 0) else ValueError in
  check! forallb (λ pct, within 0 pct 100) (shared_term_doc_freq_pct r) else ValueError in
  Ok r.

Record CandidateSignals := mkSignals {
  cos_sim : option float;
  bm25_raw : option float;
  rarity : RarityEvidence;
}.

Definition signals_post_init (s : CandidateSignals) : result exn CandidateSignals :=
  check! match cos_sim s with Some c => within (-1) c 1 | None => true end else ValueError in
  check! match bm25_raw s with
         | Some b => negb (negb (isfinite b) || (b <? 0)%float) | None => true end else ValueError in
  check! match cos_sim s, bm25_raw s with None, None => false | _, _ => true end else ValueError in
  Ok s.

(** Constructing the evidence, then the signals, as the retriever does. *)
Definition make_signals (cos bm25 : option float) (pcts : list float) (docs : Z)
  : result exn CandidateSignals :=
  let! r := rarity_post_init (mkRarity pcts docs) in signals_post_init (mkSignals cos bm25 r).

Definition bm25_saturate (raw k : float) : result exn float :=
  check! negb (negb (isfinite raw) || (raw <? 0)%float) else ValueError in
  check! negb (negb (isfinite k) || (k <=? 0)%float) else ValueError in
  Ok (raw / (raw + k))%float.

Record AbstentionDecision := mkDecision {
  inject : bool;
  outcome_code : option OutcomeCode;
  bm25_norm : option float;
  d_rare_shared_term_count : Z;
}.

Definition rare_shared_term_count (r : RarityEvidence) (cfg : AbstentionConfig) : Z :=
  Z.of_nat (length (List.filter (λ pct, (pct <=? rarity_max_df_pct cfg)%float) (shared_term_doc_freq_pct r))).

Definition rarity_gate_passes (r : RarityEvidence) (cfg : AbstentionConfig) : bool :=
  if corpus_doc_count r <? rarity_min_corpus_docs cfg then false
  else rarity_min_shared_terms cfg <=? rare_shared_term_count r cfg.

Definition decide (s : CandidateSignals) (cfg : AbstentionConfig) : result exn AbstentionDecision :=
  let! norm := match bm25_raw s with
               | None => Ok None
               | Some raw => let! n := bm25_saturate raw (bm25_sat_k cfg) in Ok (Some n)
               end in
  let shared_rare := rare_shared_term_count (rarity s) cfg in
  let cold_start := corpus_doc_count (rarity s) <? rarity_min_corpus_docs cfg in
  let abstain code := Ok (mkDecision false (Some code) norm shared_rare) in
  if cold_start || (shared_rare <? rarity_min_shared_terms cfg) then abstain ABSTAINED_RARITY
  else if match cos_sim s with Some c => (c <? cos_threshold cfg)%float | None => false end
  then abstain ABSTAINED_THRESHOLD
  else if match norm with Some n => (n <? bm25_norm_threshold cfg)%float | None => false end
  then abstain ABSTAINED_THRESHOLD
  else Ok (mkDecision true None norm shared_rare).

(** ** Lemmas *)

Lemma signals_valid cos bm25 pcts docs s : make_signals cos bm25 pcts docs = Ok s →
  s = mkSignals cos bm25 (mkRarity pcts docs)
  ∧ (∀ c, cos = Some c → not_nan c) ∧ (∀ b, bm25 = Some b → isfinite b = true ∧ (b <? 0)%float = false)
  ∧ (cos ≠ None ∨ bm25 ≠ None) ∧ Forall (λ p, not_nan p) pcts.
Proof.
  unfold make_signals, rarity_post_init, signals_post_init, within. simpl.
  destruct (negb (docs <? 0)); [|done]. destruct (forallb _ pcts) eqn:Hp; [|done]. simpl.
  intros H. do 3 case_first H. injection H as <-. split_and!; [done| | | |].
  - intros c ->. bsplit. by apply (leb_not_nan c 1).
  - intros b ->. by bsplit.
  - destruct cos, bm25; auto.
  - apply Forall_forall. intros x Hx%list_elem_of_In. rewrite forallb_forall in Hp.
    specialize (Hp x Hx). bsplit. by apply (leb_not_nan x 100).
Qed.

(** Off NaN, not being below a threshold is reaching it. *)
Lemma reaches c t : not_nan c → not_nan t → (c <? t)%float = false ↔ (t <=? c)%float = true.
Proof.
  intros Hc Ht. rewrite <-not_true_iff_false, ltb_rank, leb_rank by done.
  destruct (lex_trichotomy (frank c) (frank t)) as [H|[H|H]].
  - split; [done|]. intros [H'|H']; [by destruct (lex_irrefl (frank c)); eapply lex_lt_trans|].
    rewrite H' in H. by apply lex_irrefl in H.
  - split; [by right|]. intros _ H'. rewrite H in H'. by apply lex_irrefl in H'.
  - split; [by left|]. intros _ H'. destruct (lex_irrefl (frank c)). by eapply lex_lt_trans.
Qed.

Lemma rarity_gate_iff r cfg : rarity_gate_passes r cfg = true ↔
  rarity_min_corpus_docs cfg ≤ corpus_doc_count r ∧ rarity_min_shared_terms cfg ≤ rare_shared_term_count r cfg.
Proof.
  unfold rarity_gate_passes. destruct (Z.ltb_spec (corpus_doc_count r) (rarity_min_corpus_docs cfg)).
  - split; [done|lia].
  - rewrite Z.leb_le. lia.
Qed.

(** ** Theorem *)

(** The abstention decision, for every constructed candidate and a configuration whose
    cosine threshold is a number and whose saturation constant is valid: [decide] never
    raises; it injects exactly when the project has enough documents, enough shared terms
    are rare, the cosine (when the vector arm gave one) reaches its threshold and the
    saturated BM25 score (when the lexical arm gave one) is not below its own; otherwise it
    reports [ABSTAINED_RARITY] exactly when the rarity gate fails, else
    [ABSTAINED_THRESHOLD].  No signal it compares is NaN. *)
Lemma decide_exact cfg cos bm25 pcts docs s :
  make_signals cos bm25 pcts docs = Ok s →
  not_nan (cos_threshold cfg) → isfinite (bm25_sat_k cfg) = true → (bm25_sat_k cfg <=? 0)%float = false →
  ∃ d, decide s cfg = Ok d
  ∧ (∀ b, bm25 = Some b → bm25_norm d = Some (b / (b + bm25_sat_k cfg))%float)
  ∧ (inject d = true ↔
       rarity_gate_passes (mkRarity pcts docs) cfg = true
       ∧ (∀ c, cos = Some c → (cos_threshold cfg <=? c)%float = true)
       ∧ (∀ n, bm25_norm d = Some n → (n <? bm25_norm_threshold cfg)%float = false))
  ∧ (inject d = false →
       outcome_code d = Some (if rarity_gate_passes (mkRarity pcts docs) cfg
                              then ABSTAINED_THRESHOLD else ABSTAINED_RARITY))
  ∧ (inject d = true ↔ outcome_code d = None).
Proof.
  intros (-> & Hc & Hb & _ & _)%signals_valid Ht Hk1 Hk2. unfold decide. cbn [bm25_raw cos_sim rarity].
  assert (∃ norm, match bm25 with
                  | None => Ok None
                  | Some raw => let! n := bm25_saturate raw (bm25_sat_k cfg) in Ok (Some n)
                  end = (Ok norm : result exn (option float))
          ∧ (∀ b, bm25 = Some b → norm = Some (b / (b + bm25_sat_k cfg))%float)) as (norm & -> & Hnorm).
  { destruct bm25 as [b|]; [|by exists None]. destruct (Hb b eq_refl) as [Hf Hn].
    unfold bm25_saturate. rewrite Hf, Hn, Hk1, Hk2. eexists. split; [done|]. by intros ? [= <-]. }
  cbn [rbind].
  assert (Hr : (corpus_doc_count (mkRarity pcts docs) <? rarity_min_corpus_docs cfg)
      || (rare_shared_term_count (mkRarity pcts docs) cfg <? rarity_min_shared_terms cfg)
      = negb (rarity_gate_passes (mkRarity pcts docs) cfg)).
  { unfold rarity_gate_passes. destruct (_ <? rarity_min_corpus_docs cfg); [done|]. simpl. by rewrite Z.ltb_antisym. }
  rewrite Hr. clear Hr. set (gate := rarity_gate_passes _ cfg). destruct gate; cbn [negb].
  2: { eexists. split; [done|]. simpl. split_and!; [done|naive_solver|done|naive_solver]. }
  assert (Hcos : match cos with Some c => (c <? cos_threshold cfg)%float | None => false end = false
    ↔ ∀ c, cos = Some c → (cos_threshold cfg <=? c)%float = true).
  { destruct cos as [c|]; [|naive_solver]. rewrite reaches; [naive_solver|by apply Hc|done]. }
  assert (Hbm : match norm with Some n => (n <? bm25_norm_threshold cfg)%float | None => false end = false
    ↔ ∀ n, norm = Some n → (n <? bm25_norm_threshold cfg)%float = false) by (destruct norm; naive_solver).
  destruct (match cos with Some _ => _ | None => _ end); [|destruct (match norm with Some _ => _ | None => _ end)];
    (eexists; split; [done|]); simpl; split_and!; naive_solver.
Qed.

Definition config_ex : AbstentionConfig := mkAbstention 0.6 10 0.5 2 2 200.

(** A candidate seen by the vector arm only: the BM25 gate is skipped, and it is injected. *)
Lemma decide_exact_witness :
  ∃ d s, make_signals (Some 0.75%float) None [0.5; 1.5]%float 300 = Ok s
  ∧ decide s config_ex = Ok d ∧ inject d = true ∧ (inject d = true ↔ outcome_code d = None).
Proof.
  destruct (decide_exact config_ex (Some 0.75%float) None [0.5; 1.5]%float 300
    (mkSignals (Some 0.75%float) None (mkRarity [0.5; 1.5]%float 300))) as (d & Hd & _ & Hi & _ & Hc);
    [vm_compute; reflexivity..|].
  exists d, (mkSignals (Some 0.75%float) None (mkRarity [0.5; 1.5]%float 300)).
  split; [vm_compute; reflexivity|]. split; [exact Hd|]. split; [|exact Hc].
  vm_compute in Hd. by injection Hd as <-.
Defined.
