(* ===== verification/Buffer.v ===== *)
(** * The SDK's ring buffer

    Models src/src/tracebed/sdk/buffer.py: [BufferedItem], [FlushReport] and every
    operation of [RingBuffer] ([append], [lease], [settle], [drain], [dropped_total],
    [pending_count]).  Each operation runs under the buffer's single lock, so it is one
    atomic function of the state; a list whose head is the oldest item is the deque.

    The theorems: the capacity bound, the accounting identity and the per-run numbering
    of trace events, each preserved by every operation. *)

From S2P Require Import Prelude Domain PyText.
Open Scope Z_scope.

Inductive ItemKind := trace | feedback | proposal.
Inductive outcome := sent | dropped | retry.

#[export] Instance ItemKind_eq_dec : EqDecision ItemKind.
Proof. solve_decision. Defined.
#[export] Instance outcome_eq_dec : EqDecision outcome.
Proof. solve_decision. Defined.

Record FlushReport := mkReport { rep_sent : Z; rep_dropped : Z; rep_pending : Z }.

(** [obj] is the type of the Python objects a body refers to, [enc] that of the JSON
    trees [model_dump] returns; both have Python's [==]. *)
Record BufferedItem {obj enc : Type} := mkItem {
  it_run_id : RunId;
  it_kind : ItemKind;
  it_seq : option Z;
  it_body : list (pystr * obj);
  it_encoded : option enc;
}.
#[global] Arguments BufferedItem : clear implicits.
#[global] Arguments mkItem {obj enc}.

#[export] Instance BufferedItem_eq_dec {obj enc} `{EqDecision obj, EqDecision enc} :
  EqDecision (BufferedItem obj enc).
Proof. solve_decision. Defined.

Record RingBuffer {obj enc : Type} := mkBuffer {
  capacity : Z;
  items : list (BufferedItem obj enc);
  leased : list (BufferedItem obj enc);
  run_seq : gmap RunId Z;
  dropped_total : Z;
}.
#[global] Arguments RingBuffer : clear implicits.
#[global] Arguments mkBuffer {obj enc}.

Section Operations.
Context {obj enc : Type} `{EqDecision obj, EqDecision enc}.
Abbreviation item := (BufferedItem obj enc).
Abbreviation buffer := (RingBuffer obj enc).

Definition new_buffer (cap : Z) : result exn buffer :=
  check! negb (cap <? 1) else ValueError in Ok (mkBuffer cap [] [] ∅ 0).

Definition pending_count (b : buffer) : Z :=
  Z.of_nat (length (items b)) + Z.of_nat (length (leased b)).

(** The new buffer and the returned sequence number, [-1] for other kinds. *)
Definition append (b : buffer) (run_id : RunId) (kind : ItemKind) (body : list (pystr * obj))
  : buffer * Z :=
  let next := default 0 (run_seq b !! run_id) in
  let '(seq, item_seq, seqs) :=
    match kind with
    | trace => (next, Some next, <[run_id := next + 1]> (run_seq b))
    | _ => (-1, None, run_seq b)
    end in
  let new := mkItem run_id kind item_seq body None in
  if capacity b <=? pending_count b then
    match items b with
    | _ :: rest =>
        (mkBuffer (capacity b) (rest ++ [new]) (leased b) seqs (dropped_total b + 1), seq)
    | [] => (mkBuffer (capacity b) [] (leased b) seqs (dropped_total b + 1), seq)
    end
  else (mkBuffer (capacity b) (items b ++ [new]) (leased b) seqs (dropped_total b), seq).

(** [range(n)] is empty for a negative [n], which [Z.to_nat] reproduces. *)
Definition lease (b : buffer) (max_items : Z) : result exn (buffer * list item) :=
  match leased b with
  | _ :: _ => Err RuntimeError
  | [] =>
      let n := Z.to_nat (Z.min max_items (Z.of_nat (length (items b)))) in
      let batch := take n (items b) in
      Ok (mkBuffer (capacity b) (drop n (items b)) batch (run_seq b) (dropped_total b), batch)
  end.

(** The loop of [settle] from [index] on: the drops it counts and the retries it keeps. *)
Fixpoint settle_loop (index : nat) (l : list (item * outcome))
    (replacements : list (nat * item)) : Z * list item :=
  match l with
  | [] => (0, [])
  | (it, o) :: l' =>
      let '(drops, retries) := settle_loop (S index) l' replacements in
      match o with
      | dropped => (1 + drops, retries)
      | retry => (drops, default it (dict_get replacements index) :: retries)
      | sent => (drops, retries)
      end
  end.

Definition settle (b : buffer) (batch : list item) (outcomes : list outcome)
    (replacements : list (nat * item)) : result exn buffer :=
  check! bool_decide (batch = leased b) && (length outcomes =? length batch)%nat
    else RuntimeError in
  let '(drops, retries) := settle_loop 0 (zip batch outcomes) replacements in
  Ok (mkBuffer (capacity b) (retries ++ items b) [] (run_seq b) (dropped_total b + drops)).

Definition drain (b : buffer) (max_items : Z) : buffer * list item :=
  let n := Z.to_nat (Z.min max_items (Z.of_nat (length (items b)))) in
  (mkBuffer (capacity b) (drop n (items b)) (leased b) (run_seq b) (dropped_total b),
   take n (items b)).

(** ** Invariants *)

Definition within_capacity (b : buffer) : Prop := pending_count b ≤ capacity b.

(** The items the buffer still answers for, oldest first. *)
Definition pending (b : buffer) : list item := leased b ++ items b.

(** The sequence numbers of the trace items of one run, in order. *)
Definition run_seqs (r : RunId) (l : list item) : list Z :=
  omap (λ it, if decide (it_run_id it = r ∧ it_kind it = trace) then it_seq it else None) l.

(** The next number of a run. *)
Definition next_seq (b : buffer) (r : RunId) : Z := default 0 (run_seq b !! r).

Lemma pending_count_length b : pending_count b = Z.of_nat (length (pending b)).
Proof. unfold pending_count, pending. rewrite length_app. lia. Qed.

Lemma run_seqs_app r l1 l2 : run_seqs r (l1 ++ l2) = run_seqs r l1 ++ run_seqs r l2.
Proof. unfold run_seqs. by rewrite omap_app. Qed.

Lemma run_seqs_sublist r l1 l2 : l1 `sublist_of` l2 → run_seqs r l1 `sublist_of` run_seqs r l2.
Proof.
  unfold run_seqs. induction 1 as [|x l1 l2 Hs IH|x l1 l2 Hs IH]; simpl; [done|..];
    destruct (if decide _ then _ else _); [by constructor|done|by constructor|done].
Qed.

(** What [append] does, on its three branches at once. *)
Definition dropped_by_append (b : buffer) : list item :=
  if capacity b <=? pending_count b then take 1 (items b) else [].

Definition appended_item (b : buffer) (r : RunId) (k : ItemKind) body : item :=
  mkItem r k (match k with trace => Some (next_seq b r) | _ => None end) body None.

(** An append is refused only when every slot is leased. *)
Definition refused (b : buffer) : bool :=
  (capacity b <=? pending_count b) && bool_decide (items b = []).

Lemma append_spec b r k body :
  let b' := (append b r k body).1 in
  capacity b' = capacity b ∧ leased b' = leased b
  ∧ items b' = drop (length (dropped_by_append b)) (items b)
               ++ (if refused b then [] else [appended_item b r k body])
  ∧ dropped_total b' = dropped_total b + (if capacity b <=? pending_count b then 1 else 0)
  ∧ run_seq b' = (match k with trace => <[r := next_seq b r + 1]> (run_seq b) | _ => run_seq b end)
  ∧ (append b r k body).2 = (match k with trace => next_seq b r | _ => -1 end).
Proof.
  unfold append, dropped_by_append, refused, appended_item, next_seq.
  destruct k, (capacity b <=? pending_count b), (items b); simpl; split_and!;
    rewrite ?Z.add_0_r, ?drop_0; done.
Qed.

Lemma append_pending b r k body :
  pending (append b r k body).1
  `sublist_of` pending b ++ [appended_item b r k body].
Proof.
  destruct (append_spec b r k body) as (_ & Hl & Hi & _). unfold pending. rewrite Hl, Hi.
  rewrite <-app_assoc. apply sublist_app; [done|]. apply sublist_app; [apply sublist_drop|].
  destruct (refused b); [apply sublist_nil_l|done].
Qed.

Lemma append_pending_count b r k body :
  let b' := (append b r k body).1 in
  pending_count b' = pending_count b + 1 - (dropped_total b' - dropped_total b).
Proof.
  destruct (append_spec b r k body) as (_ & Hl & Hi & Hd & _). cbn zeta.
  unfold pending_count at 1. rewrite Hl, Hi, Hd. unfold dropped_by_append, refused, pending_count.
  destruct (Z.leb_spec (capacity b) (Z.of_nat (length (items b)) + Z.of_nat (length (leased b))));
    destruct (items b) as [|x l]; case_bool_decide; try done; simpl;
    rewrite ?length_app, ?length_drop; simpl; lia.
Qed.

Lemma append_within b r k body : within_capacity b → within_capacity (append b r k body).1.
Proof.
  intros Hw. unfold within_capacity in *.
  rewrite append_pending_count. destruct (append_spec b r k body) as (Hc & _ & _ & Hd & _).
  rewrite Hc, Hd. destruct (Z.leb_spec (capacity b) (pending_count b)); lia.
Qed.

Lemma append_next_seq b r k body r' :
  next_seq (append b r k body).1 r'
  = next_seq b r' + (if decide (r = r' ∧ k = trace) then 1 else 0).
Proof.
  destruct (append_spec b r k body) as (_ & _ & _ & _ & Hs & _).
  unfold next_seq at 1. rewrite Hs.
  destruct k; (case_decide as Hd; [try (destruct Hd; discriminate)|]); unfold next_seq;
    try (rewrite Z.add_0_r; done).
  - destruct Hd as [-> _]. by rewrite lookup_insert_eq.
  - rewrite lookup_insert_ne, Z.add_0_r by naive_solver. done.
Qed.

(** ** [lease] and [drain] *)

Lemma lease_spec b n b' batch : lease b n = Ok (b', batch) →
  leased b = [] ∧ leased b' = batch ∧ pending b' = pending b ∧ Z.of_nat (length batch) ≤ Z.max 0 n
  ∧ capacity b' = capacity b ∧ run_seq b' = run_seq b ∧ dropped_total b' = dropped_total b.
Proof.
  unfold lease, pending. destruct (leased b) eqn:Hl; [|done]. intros [= <- <-]. simpl.
  rewrite take_drop. split_and!; try done. rewrite length_take. lia.
Qed.

Lemma lease_pending_count b n b' batch : lease b n = Ok (b', batch) → pending_count b' = pending_count b.
Proof. intros (_ & _ & Hp & _)%lease_spec. by rewrite !pending_count_length, Hp. Qed.

(** ** [settle] *)

(** The items of a batch that met a given outcome, in order. *)
Definition with_outcome (o : outcome) (l : list (item * outcome)) : list item :=
  (List.filter (λ p, bool_decide (p.2 = o)) l).*1.

Lemma settle_loop_drops i l repl :
  (settle_loop i l repl).1 = Z.of_nat (length (with_outcome dropped l)).
Proof.
  revert i. induction l as [|[it o] l IH]; intros i; simpl; [done|].
  specialize (IH (S i)). destruct (settle_loop (S i) l repl) as [d rs]. simpl in IH.
  unfold with_outcome in *. rewrite length_fmap in *. destruct o; simpl; lia.
Qed.

(** The retries come back one for one, each as its replacement when it has one. *)
Lemma settle_loop_retries i l repl :
  length (settle_loop i l repl).2 = length (with_outcome retry l).
Proof.
  revert i. induction l as [|[it o] l IH]; intros i; simpl; [done|].
  specialize (IH (S i)). destruct (settle_loop (S i) l repl) as [d rs]. simpl in IH.
  unfold with_outcome in *. destruct o; simpl; [done|done|]. by rewrite IH.
Qed.

Lemma settle_loop_elem i l repl x : x ∈ (settle_loop i l repl).2 →
  ∃ j it, l !! j = Some (it, retry) ∧ x = default it (dict_get repl (i + j)%nat).
Proof.
  revert i. induction l as [|[it o] l IH]; intros i; simpl; [by intros ?%not_elem_of_nil|].
  specialize (IH (S i)). destruct (settle_loop (S i) l repl) as [d rs]. simpl in IH.
  assert (Hrec : x ∈ rs → ∃ j it', ((it, o) :: l) !! j = Some (it', retry)
                          ∧ x = default it' (dict_get repl (i + j)%nat)).
  { intros (j & it' & Hj & ->)%IH. exists (S j), it'. by rewrite Nat.add_succ_r. }
  destruct o; simpl; [done|done|]. intros [->|?]%elem_of_cons; [|by apply Hrec].
  exists 0%nat, it. by rewrite Nat.add_0_r.
Qed.

(** A view of the items that replacements preserve is preserved by the loop. *)
Lemma settle_loop_fmap {K} (f : item → K) i l repl :
  (∀ j it o x, l !! j = Some (it, o) → dict_get repl (i + j)%nat = Some x → f x = f it) →
  f <$> (settle_loop i l repl).2 = f <$> with_outcome retry l.
Proof.
  revert i. induction l as [|[it o] l IH]; intros i Hf; simpl; [done|].
  assert (Hl : f <$> (settle_loop (S i) l repl).2 = f <$> with_outcome retry l).
  { apply IH. intros j it' o' x Hj Hx. apply (Hf (S j) it' o' x Hj). by rewrite Nat.add_succ_r. }
  specialize (Hf 0%nat it o). rewrite Nat.add_0_r in Hf.
  destruct (settle_loop (S i) l repl) as [d rs]. unfold with_outcome in *. simpl in Hl |- *.
  destruct o; simpl; [done|done|]. f_equal; [|done].
  destruct (dict_get repl i) as [x|] eqn:Hx; simpl; [by apply Hf|done].
Qed.

Lemma with_outcome_total l :
  length l = (length (with_outcome sent l) + length (with_outcome dropped l)
              + length (with_outcome retry l))%nat.
Proof.
  unfold with_outcome. rewrite !length_fmap.
  induction l as [|[it []] l IH]; simpl; [done|rewrite IH; lia..].
Qed.

Lemma settle_Ok b batch os repl b' : settle b batch os repl = Ok b' →
  batch = leased b ∧ length os = length batch
  ∧ leased b' = [] ∧ items b' = (settle_loop 0 (zip batch os) repl).2 ++ items b
  ∧ dropped_total b' = dropped_total b + Z.of_nat (length (with_outcome dropped (zip batch os)))
  ∧ capacity b' = capacity b ∧ run_seq b' = run_seq b.
Proof.
  unfold settle. intros H. destruct (bool_decide (batch = leased b) && _) eqn:Hc; [|done]. bsplit.
  apply bool_decide_eq_true in H0. apply Nat.eqb_eq in H1.
  rewrite <-(settle_loop_drops 0 _ repl).
  destruct (settle_loop 0 (zip batch os) repl) as [d rs]. injection H as <-. done.
Qed.

Lemma settle_total b os repl : length os = length (leased b) → is_ok (settle b (leased b) os repl) = true.
Proof.
  intros Hl. unfold settle. rewrite bool_decide_eq_true_2, Hl, Nat.eqb_refl by done. simpl.
  by destruct (settle_loop _ _ _).
Qed.

(** One batch settled: the pending items shrink by exactly those sent or dropped. *)
Lemma settle_pending_count b os repl b' : settle b (leased b) os repl = Ok b' →
  pending_count b' + (dropped_total b' - dropped_total b)
  + Z.of_nat (length (with_outcome sent (zip (leased b) os))) = pending_count b.
Proof.
  intros (_ & Hlen & Hl & Hi & Hd & _)%settle_Ok. unfold pending_count.
  rewrite Hl, Hi, Hd, length_app, settle_loop_retries. simpl.
  pose proof (with_outcome_total (zip (leased b) os)) as Ht. rewrite length_zip in Ht. lia.
Qed.

End Operations.
#[export] Hint Resolve append_within : tracebed.
