(* ===== verification/Client.v ===== *)
(** * The SDK client: delivery of buffered work

    Models the write path of src/src/tracebed/sdk/client.py: [_freeze], [_post] with
    [_auth_headers], [_dispatch], [_do_flush] with [_report] and
    [_take_reported_drops], and [_BoundedArmMemory].

    What the code does not own is a parameter: the clock, the token provider, the HTTP
    client, pydantic's [model_dump] followed by the JSON check, the flush lock and the
    host's threads.  They share a state [W], so that a caller mutating a model between
    two attempts, a token expiring or a server failing are all behaviours of the
    parameters.  The flusher touches the buffer only through the lock-protected
    operations of Buffer.v, so the interleavings of flusher and host threads are exactly
    the sequences of those operations: [step] is that relation, and the theorems hold
    for every reachable state. *)

From S2P Require Import Prelude Domain PyText PyFloat Buffer.
Open Scope Z_scope.

Definition MAX_DRAIN_BATCH : Z := 500.

(** The body of one POST: the batch route's event list, or one event under its key. *)
Inductive payload {enc : Type} :=
| TraceBatch (events : list (pystr * option Z * option enc))
| Single (run_id : pystr) (key : pystr) (value : option enc).
#[global] Arguments payload : clear implicits.

(** One HTTP request that was started, with how its response was classified. *)
Record Post {enc : Type} := mkPost {
  post_path : pystr;
  post_payload : payload enc;
  post_result : outcome;
}.
#[global] Arguments Post : clear implicits.
#[global] Arguments mkPost {enc}.

(** ** The bounded memory of arms ([_BoundedArmMemory])

    The [OrderedDict] as an association list, oldest entry first. *)

Definition ARM_MEMORY_CAPACITY : nat := 4096.

Definition od_move_to_end (d : list (RunId * Arm)) (r : RunId) (a : Arm) : list (RunId * Arm) :=
  List.filter (λ p, negb (bool_decide (p.1 = r))) d ++ [(r, a)].

(** [while len(self._data) > self._capacity: popitem(last=False)]. *)
Fixpoint od_evict (cap : nat) (d : list (RunId * Arm)) : list (RunId * Arm) :=
  match d with
  | [] => []
  | _ :: d' => if (cap <? length d)%nat then od_evict cap d' else d
  end.

Definition arm_set (cap : nat) (d : list (RunId * Arm)) (r : RunId) (a : Arm) : list (RunId * Arm) :=
  od_evict cap (od_move_to_end d r a).

Definition arm_get (d : list (RunId * Arm)) (r : RunId) : option Arm * list (RunId * Arm) :=
  match dict_get d r with
  | Some a => (Some a, od_move_to_end d r a)
  | None => (None, d)
  end.

Lemma od_evict_length cap d : (length (od_evict cap d) ≤ cap)%nat.
Proof.
  induction d as [|x d IH]; simpl; [lia|]. destruct (Nat.ltb_spec cap (S (length d))); [done|simpl; lia].
Qed.

Lemma od_evict_last cap d x : (1 ≤ cap)%nat → ∃ d', od_evict cap (d ++ [x]) = d' ++ [x].
Proof.
  intros Hc. induction d as [|y d IH]; simpl.
  - destruct (Nat.ltb_spec cap 1); [lia|]. by exists [].
  - destruct (_ <? _)%nat; [done|]. by exists (y :: d).
Qed.

Lemma move_to_end_get d r a r' :
  dict_get (od_move_to_end d r a) r' = if decide (r = r') then Some a else dict_get d r'.
Proof.
  unfold od_move_to_end. rewrite dict_get_app. simpl.
  induction d as [|[k v] d IH]; simpl; [case_bool_decide; by case_decide|].
  destruct (decide (k = r)) as [->|Hne].
  - rewrite bool_decide_eq_true_2 by done. simpl. rewrite IH. case_decide; [done|].
    by rewrite bool_decide_eq_false_2.
  - rewrite (bool_decide_eq_false_2 (k = r)) by done. simpl.
    destruct (bool_decide (k = r')) eqn:Hb; [|exact IH]. apply bool_decide_eq_true in Hb as <-.
    by rewrite decide_False by congruence.
Qed.

Lemma move_to_end_NoDup d r a : NoDup d.*1 → NoDup (od_move_to_end d r a).*1.
Proof.
  intros Hd. unfold od_move_to_end. rewrite fmap_app. apply NoDup_app. split_and!; [|
    |apply NoDup_singleton].
  - induction d as [|[k v] d IH]; [done|]. rewrite fmap_cons in Hd. apply NoDup_cons in Hd as [Hk Hd].
    simpl. case_bool_decide; simpl; [by apply IH|]. apply NoDup_cons. split; [|by apply IH].
    intros ([k' v'] & Heq & Hin)%list_elem_of_fmap. apply list_elem_of_In, filter_In in Hin as [Hin _].
    apply Hk, list_elem_of_fmap. exists (k', v'). split; [done|]. by apply list_elem_of_In.
  - intros x Hx Hr. apply list_elem_of_singleton in Hr as ->.
    apply list_elem_of_fmap in Hx as ([k v] & Heq & Hin).
    apply list_elem_of_In, filter_In in Hin as [_ Hin]. simpl in *.
    by rewrite bool_decide_eq_true_2 in Hin by done.
Qed.

Lemma od_evict_suffix cap d : od_evict cap d `suffix_of` d.
Proof.
  induction d as [|x d IH]; simpl; [done|]. destruct (_ <? _)%nat; [by apply suffix_cons_r|done].
Qed.

(** The memory stays within its capacity, remembers the arm just set, and a read changes
    no stored arm. *)
Lemma arm_set_spec cap d r a : (1 ≤ cap)%nat → NoDup d.*1 →
  (length (arm_set cap d r a) ≤ cap)%nat ∧ NoDup (arm_set cap d r a).*1
  ∧ (arm_get (arm_set cap d r a) r).1 = Some a.
Proof.
  intros Hc Hd. unfold arm_set. split_and!; [apply od_evict_length|..].
  - destruct (od_evict_suffix cap (od_move_to_end d r a)) as [k Hk].
    pose proof (move_to_end_NoDup d r a Hd) as Hn. rewrite Hk, fmap_app in Hn.
    by apply NoDup_app in Hn as (_ & _ & ?).
  - destruct (od_evict_suffix cap (od_move_to_end d r a)) as [k Hk].
    pose proof (move_to_end_NoDup d r a Hd) as Hn. rewrite Hk, fmap_app in Hn.
    apply NoDup_app in Hn as (_ & Hdis & _).
    destruct (od_evict_last cap (List.filter (λ p, negb (bool_decide (p.1 = r))) d) (r, a) Hc) as [d' Hd'].
    pose proof (move_to_end_get d r a r) as Hg. rewrite decide_True, Hk, dict_get_app in Hg by done.
    unfold arm_get. destruct (dict_get k r) eqn:Hkr; [|by rewrite Hg].
    exfalso. apply (Hdis r).
    + apply list_elem_of_fmap. exists (r, a0). split; [done|]. by apply dict_get_Some_elem.
    + fold (od_move_to_end d r a) in Hd'. rewrite Hd', fmap_app. apply elem_of_app. right. by left.
Qed.

Lemma arm_get_spec d r r' : dict_get (arm_get d r).2 r' = dict_get d r'.
Proof.
  unfold arm_get. destruct (dict_get d r) eqn:Hd; [|done]. simpl. rewrite move_to_end_get.
  case_decide; congruence.
Qed.

(** Python's [max(a, b)]: the first argument unless the second is greater. *)
Definition fmax (a b : float) : float := if (a <? b)%float then b else a.

(** ** What the client calls *)

Record Env {W obj enc : Type} := mkEnv {
  monotonic_ms : W → float * W;
  is_model : obj → bool;
  (** [model_dump(mode="json")], then [json.dumps(...).encode()]: [None] when either raises. *)
  model_dump : obj → W → option enc * W;
  api_key : option pystr;
  (** the token provider, if configured; its call returns [None] when it raises *)
  token_provider : option (W → option pystr * W);
  (** path, body, headers, timeout; the status code, [None] when the call raises *)
  http_post : pystr → payload enc → list (pystr * pystr) → float → W → option Z * W;
  (** [acquire(timeout=...)] of the flush lock *)
  acquire : float → W → bool * W;
  (** the calls of [append] the host's threads made since the last operation *)
  host : W → list (RunId * ItemKind * list (pystr * obj)) * W;
}.
#[global] Arguments Env : clear implicits.

(** The settlement of one batch ([_BatchSettlement]) with [_flush_errors], the world,
    and the log of the requests started. *)
Record io {W obj enc : Type} := mkIO {
  world : W;
  outcomes : list outcome;
  replacements : list (nat * BufferedItem obj enc);
  n_sent : Z;
  flush_errors : Z;
  posts : list (Post enc);
}.
#[global] Arguments io : clear implicits.
#[global] Arguments mkIO {W obj enc}.

Section Dispatch.
Context {W obj enc : Type} `{EqDecision obj, EqDecision enc} (E : Env W obj enc).
Abbreviation item := (BufferedItem obj enc).
Abbreviation IO := (io W obj enc).

Definition M (A : Type) : Type := IO → A * IO.
#[export] Instance M_ret : MRet M := λ A x s, (x, s).
#[export] Instance M_bind : MBind M := λ A B f m s, let '(x, s') := m s in f x s'.

Definition lift {A} (f : W → A * W) : M A := λ s,
  let '(x, w) := f (world s) in
  (x, mkIO w (outcomes s) (replacements s) (n_sent s) (flush_errors s) (posts s)).

Definition now : M float := lift (monotonic_ms E).

Definition count_error : M unit := λ s,
  (tt, mkIO (world s) (outcomes s) (replacements s) (n_sent s) (flush_errors s + 1) (posts s)).

Definition set_outcome (i : nat) (o : outcome) : M unit := λ s,
  (tt, mkIO (world s) (<[i := o]> (outcomes s)) (replacements s) (n_sent s) (flush_errors s) (posts s)).

Definition set_replacement (i : nat) (it : item) : M unit := λ s,
  (tt, mkIO (world s) (outcomes s) (dict_set (replacements s) i it) (n_sent s) (flush_errors s) (posts s)).

Definition add_sent (n : Z) : M unit := λ s,
  (tt, mkIO (world s) (outcomes s) (replacements s) (n_sent s + n) (flush_errors s) (posts s)).

Definition log_post (p : Post enc) : M unit := λ s,
  (tt, mkIO (world s) (outcomes s) (replacements s) (n_sent s) (flush_errors s) (posts s ++ [p])).

(** [_auth_headers]; [None] is [_WriteTokenUnavailable]. *)
Definition auth_headers (for_write : bool) : M (option (list (pystr * pystr))) :=
  let key := match api_key E with Some k => [(of_ascii "X-API-Key", k)] | None => [] end in
  match token_provider E with
  | None => mret (Some key)
  | Some provider =>
      tok ← lift provider;
      match tok with
      | Some t => mret (Some ((of_ascii "Authorization", of_ascii "Bearer " ++ t) :: key))
      | None => mret (if for_write then None else Some key)
      end
  end.

Definition freeze (it : item) (key : pystr) : M (option item) :=
  match it_encoded it with
  | Some _ => mret (Some it)
  | None =>
      match dict_get (it_body it) key with
      | Some model =>
          if is_model E model then
            encoded ← lift (model_dump E model);
            match encoded with
            | Some e =>
                mret (Some (mkItem (it_run_id it) (it_kind it) (it_seq it) (it_body it) (Some e)))
            | None => count_error ≫= λ _, mret None
            end
          else count_error ≫= λ _, mret None
      | None => count_error ≫= λ _, mret None
      end
  end.

(** How [_post] classifies a response; [None] is an exception of the HTTP client. *)
Definition classify (response : option Z) : outcome :=
  match response with
  | None => retry
  | Some code =>
      if (200 <=? code) && (code <? 300) then sent
      else if (code =? 408) || (code =? 429) || (500 <=? code) then retry
      else dropped
  end.

Definition post (path : pystr) (body : payload enc) (deadline_ms : float) : M outcome :=
  t ← now;
  if (deadline_ms <=? t)%float then mret retry else
  headers ← auth_headers true;
  match headers with
  | None => mret retry
  | Some hs =>
      t' ← now;
      let remaining_s := ((deadline_ms - t') / 1000)%float in
      if (remaining_s <=? 0)%float then mret retry else
      response ← lift (http_post E path body hs remaining_s);
      _ ← log_post (mkPost path body (classify response));
      _ ← (if decide (classify response = sent) then mret tt else count_error);
      mret (classify response)
  end.

(** ** [_dispatch] *)

(** The freezing of one contiguous group of trace items: [None] when the deadline passes
    in between (the early [return]), else the frozen members with their indices. *)
Fixpoint freeze_group (its : list item) (deadline_ms : float) (idxs : list nat)
  : M (option (list (nat * item))) :=
  match idxs with
  | [] => mret (Some [])
  | i :: idxs' =>
      t ← now;
      if (deadline_ms <=? t)%float then mret None else
      match its !! i with
      | None => mret None
      | Some it =>
          frozen ← freeze it (of_ascii "event");
          match frozen with
          | None => _ ← set_outcome i dropped; freeze_group its deadline_ms idxs'
          | Some f =>
              _ ← set_replacement i f;
              rest ← freeze_group its deadline_ms idxs';
              mret (cons (i, f) <$> rest)
          end
      end
  end.

(** [while end < len(items) and items[end].kind == "trace"]. *)
Fixpoint trace_prefix (l : list item) : nat :=
  match l with
  | it :: l' => if decide (it_kind it = trace) then S (trace_prefix l') else O
  | [] => O
  end.

Definition event_of (it : item) : pystr * option Z * option enc :=
  (uuid_str (RunId_value (it_run_id it)), it_seq it, it_encoded it).

Fixpoint set_outcomes (idxs : list nat) (o : outcome) : M unit :=
  match idxs with
  | [] => mret tt
  | i :: idxs' => _ ← set_outcome i o; set_outcomes idxs' o
  end.

Definition item_key (k : ItemKind) : pystr :=
  of_ascii (match k with feedback => "event" | _ => "proposal" end).
Definition item_path (k : ItemKind) : pystr :=
  of_ascii (match k with feedback => "/v1/feedback" | _ => "/v1/propose_memory" end).

(** The loop from [index]; [index] grows in every iteration, so [length its] rounds do. *)
Fixpoint dispatch_loop (fuel : nat) (its : list item) (deadline_ms : float) (index : nat) : M unit :=
  match fuel with
  | O => mret tt
  | S fuel =>
    match its !! index with
    | None => mret tt
    | Some it =>
      t ← now;
      if (deadline_ms <=? t)%float then mret tt else
      match it_kind it with
      | trace =>
          let len := trace_prefix (drop index its) in
          group ← freeze_group its deadline_ms (seq index len);
          match group with
          | None => mret tt
          | Some [] => dispatch_loop fuel its deadline_ms (index + len)
          | Some traces =>
              result ← post (of_ascii "/v1/trace/batch")
                            (TraceBatch (event_of <$> traces.*2)) deadline_ms;
              match result with
              | retry => mret tt
              | _ =>
                  _ ← set_outcomes traces.*1 result;
                  _ ← add_sent (if decide (result = sent) then Z.of_nat (length traces) else 0);
                  dispatch_loop fuel its deadline_ms (index + len)
              end
          end
      | k =>
          frozen ← freeze it (item_key k);
          match frozen with
          | None => _ ← set_outcome index dropped; dispatch_loop fuel its deadline_ms (S index)
          | Some f =>
              _ ← set_replacement index f;
              result ← post (item_path k)
                            (Single (uuid_str (RunId_value (it_run_id it))) (item_key k) (it_encoded f))
                            deadline_ms;
              match result with
              | retry => mret tt
              | _ =>
                  _ ← set_outcome index result;
                  _ ← add_sent (if decide (result = sent) then 1 else 0);
                  dispatch_loop fuel its deadline_ms (S index)
              end
          end
      end
    end
  end.

Definition dispatch (its : list item) (deadline_ms : float) : M unit :=
  dispatch_loop (length its) its deadline_ms 0.

(** The state a batch starts in: everything to be retried, nothing frozen. *)
Definition fresh_settlement (its : list item) (w : W) (errors : Z) (log : list (Post enc)) : IO :=
  mkIO w (replicate (length its) retry) [] 0 errors log.

(** ** What the primitive steps leave alone *)

(** Only the world and the error counter may differ. *)
Definition same_ledger (s s' : IO) : Prop :=
  outcomes s' = outcomes s ∧ replacements s' = replacements s
  ∧ n_sent s' = n_sent s ∧ posts s' = posts s.

#[local] Instance same_ledger_refl : Reflexive same_ledger.
Proof. by repeat split. Qed.
#[local] Instance same_ledger_trans : Transitive same_ledger.
Proof. unfold same_ledger. intros ??? (?&?&?&?) (?&?&?&?). split_and!; congruence. Qed.

Lemma lift_ledger {A} (f : W → A * W) s x s' : lift f s = (x, s') → same_ledger s s'.
Proof. unfold lift. destruct (f (world s)). intros [= <- <-]. by repeat split. Qed.

Lemma now_ledger s x s' : now s = (x, s') → same_ledger s s'.
Proof. apply lift_ledger. Qed.

Lemma auth_headers_ledger b s x s' : auth_headers b s = (x, s') → same_ledger s s'.
Proof.
  unfold auth_headers. destruct (token_provider E) as [provider|]; [|by intros [= <- <-]].
  unfold mbind, M_bind. destruct (lift provider s) as [tok s1] eqn:Ht. apply lift_ledger in Ht.
  destruct tok; by intros [= <- <-].
Qed.

(** A frozen item is the item with an encoding, and the item itself if it had one. *)
Definition frozen_of (it f : item) : Prop :=
  it_run_id f = it_run_id it ∧ it_kind f = it_kind it ∧ it_seq f = it_seq it
  ∧ it_body f = it_body it ∧ it_encoded f ≠ None ∧ (it_encoded it ≠ None → f = it).

Lemma freeze_spec it key s x s' : freeze it key s = (x, s') →
  same_ledger s s' ∧ (∀ f, x = Some f → frozen_of it f) ∧ (it_encoded it ≠ None → x = Some it).
Proof.
  unfold freeze, frozen_of. destruct (it_encoded it) as [e|] eqn:He.
  { intros [= <- <-]. split_and!; [by repeat split|by intros f [= <-]; split_and!; rewrite ?He|done]. }
  unfold mbind, M_bind.
  destruct (dict_get _ key) as [model|]; [|by intros [= <- <-]; split_and!].
  destruct (is_model E model); [|by intros [= <- <-]; split_and!].
  destruct (lift _ s) as [enc' s1] eqn:Hl. apply lift_ledger in Hl.
  destruct enc' as [e|]; intros [= <- <-]; split_and!; try done.
  intros f [= <-]. by split_and!.
Qed.

(** [_post] starts at most one request, classified as its result; a result other than
    [retry] means that one was started. *)
Lemma post_spec path body dl s o s' : post path body dl s = (o, s') →
  outcomes s' = outcomes s ∧ replacements s' = replacements s ∧ n_sent s' = n_sent s
  ∧ (posts s' = posts s ∧ o = retry ∨ posts s' = posts s ++ [mkPost path body o]).
Proof.
  unfold post, mbind, M_bind. destruct (now s) as [t s1] eqn:Hn. apply now_ledger in Hn.
  destruct (dl <=? t)%float. { intros [= <- <-]. destruct Hn as (?&?&?&?). by split_and!; [..|left]. }
  destruct (auth_headers true s1) as [[hs|] s2] eqn:Ha; apply auth_headers_ledger in Ha;
    pose proof (transitivity Hn Ha) as H2; clear Hn Ha.
  2: { intros [= <- <-]. destruct H2 as (?&?&?&?). by split_and!; [..|left]. }
  destruct (now s2) as [t' s3] eqn:Hn. apply now_ledger in Hn. pose proof (transitivity H2 Hn) as H3.
  destruct (_ <=? 0)%float. { intros [= <- <-]. destruct H3 as (?&?&?&?). by split_and!; [..|left]. }
  destruct (lift _ s3) as [resp s4] eqn:Hl. apply lift_ledger in Hl.
  pose proof (transitivity H3 Hl) as (H4 & H5 & H6 & H7).
  unfold log_post. cbn beta iota. case_decide; intros [= <- <-]; cbn; split_and!; try done;
    right; by rewrite H7.
Qed.

(** ** Termination: the fuel of the loop is enough *)

Lemma trace_prefix_pos it l : it_kind it = trace → (1 ≤ trace_prefix (it :: l))%nat.
Proof. intros Hk. simpl. rewrite decide_True by done. lia. Qed.

Lemma dispatch_fuel its dl fuel1 fuel2 index s :
  (length its - index ≤ fuel1)%nat → (fuel1 ≤ fuel2)%nat →
  dispatch_loop fuel2 its dl index s = dispatch_loop fuel1 its dl index s.
Proof.
  revert fuel2 index s. induction fuel1 as [|fuel1 IH]; intros fuel2 index s Hf H2.
  - assert (Hn : its !! index = None) by (apply lookup_ge_None_2; lia).
    destruct fuel2; simpl; [done|]. by rewrite Hn.
  - destruct fuel2 as [|fuel2]; [lia|]. simpl. destruct (its !! index) as [it|] eqn:Hi; [|done].
    pose proof (lookup_lt_Some _ _ _ Hi).
    assert (Hlen : it_kind it = trace → (1 ≤ trace_prefix (drop index its))%nat).
    { intros Hk. rewrite (drop_S _ _ _ Hi). by apply trace_prefix_pos. }
    assert (IH' : ∀ i s, (index < i)%nat →
      dispatch_loop fuel2 its dl i s = dispatch_loop fuel1 its dl i s) by (intros; apply IH; lia).
    unfold mbind, M_bind. destruct (now s) as [t s1]. destruct (dl <=? t)%float; [done|].
    destruct (it_kind it).
    + specialize (Hlen eq_refl). destruct (freeze_group _ _ _ _) as [[[|x l]|] s2]; [by apply IH'; lia| |done].
      destruct (post _ _ _ _) as [[] s3]; [| |done].
      all: destruct (set_outcomes _ _ _) as [? s4]; cbn; apply IH'; lia.
    + destruct (freeze _ _ _) as [[f|] s2]; cbn; [|apply IH'; lia].
      destruct (post _ _ _ _) as [[] s3]; cbn; [apply IH'; lia..|done].
    + destruct (freeze _ _ _) as [[f|] s2]; cbn; [|apply IH'; lia].
      destruct (post _ _ _ _) as [[] s3]; cbn; [apply IH'; lia..|done].
Qed.

(** ** What the server saw *)

(** The sequence numbers of one run in a batch, in order. *)
Definition batch_seqs (r : RunId) (events : list (pystr * option Z * option enc)) : list Z :=
  omap (λ ev, if decide (ev.1.1 = uuid_str (RunId_value r)) then ev.1.2 else None) events.

Definition post_events (p : Post enc) : list (pystr * option Z * option enc) :=
  match post_payload p with TraceBatch evs => evs | Single _ _ _ => [] end.

(** The sequence numbers of one run the server acknowledged, in the order of the requests. *)
Definition accepted_seqs (r : RunId) (ps : list (Post enc)) : list Z :=
  concat (map (λ p, if decide (post_result p = sent) then batch_seqs r (post_events p) else []) ps).

(** Every trace event offered in some request, acknowledged or not. *)
Definition offered (ps : list (Post enc)) : list (pystr * option Z * option enc) :=
  concat (map post_events ps).

Lemma accepted_seqs_app r ps1 ps2 :
  accepted_seqs r (ps1 ++ ps2) = accepted_seqs r ps1 ++ accepted_seqs r ps2.
Proof. unfold accepted_seqs. by rewrite map_app, concat_app. Qed.

Lemma offered_app ps1 ps2 : offered (ps1 ++ ps2) = offered ps1 ++ offered ps2.
Proof. unfold offered. by rewrite map_app, concat_app. Qed.

Lemma batch_seqs_events r (l : list item) : Forall (λ it, it_kind it = trace) l →
  batch_seqs r (event_of <$> l) = run_seqs r l.
Proof.
  induction 1 as [|it l Hk Hl IH]; [done|]. unfold batch_seqs, run_seqs in *.
  cbn [fmap list_fmap omap list_omap event_of fst snd]. cbn [fmap list_fmap] in IH. rewrite IH.
  assert (Heq : (if decide (uuid_str (RunId_value (it_run_id it)) = uuid_str (RunId_value r))
                 then it_seq it else None)
              = (if decide (it_run_id it = r ∧ it_kind it = trace) then it_seq it else None)).
  { repeat case_decide; try done; exfalso.
    - apply uuid_str_inj in H. destruct (it_run_id it), r. simpl in H. subst. tauto.
    - destruct H0 as [<- _]. done. }
  by rewrite Heq.
Qed.

(** ** One group of trace items *)

(** [group_rel i gs os traces]: the members of a group at index [i], the outcomes freezing
    gave them ([dropped] or still [retry]) and the frozen members to send. *)
Inductive group_rel : nat → list item → list outcome → list (nat * item) → Prop :=
| group_nil i : group_rel i [] [] []
| group_drop i it gs os ts : group_rel (S i) gs os ts → group_rel i (it :: gs) (dropped :: os) ts
| group_keep i it f gs os ts : frozen_of it f → group_rel (S i) gs os ts →
    group_rel i (it :: gs) (retry :: os) ((i, f) :: ts).

Definition not_sent (o : outcome) : Prop := o ≠ sent.
Definition settled (o : outcome) : Prop := o ≠ retry.

(** What a group does to the settlement, from outcomes [d ++ replicate k retry]. *)
Record group_post (its : list item) (d : list outcome) (k m : nat) (s : IO)
    (r : option (list (nat * item))) (s' : IO) (g : list outcome) : Prop := {
  gp_outcomes : outcomes s' = d ++ g ++ replicate (k - length g) retry;
  gp_len : (length g ≤ m)%nat;
  gp_not_sent : Forall not_sent g;
  gp_sent : n_sent s' = n_sent s;
  gp_posts : posts s' = posts s;
  gp_old : ∀ i, (i < length d)%nat → dict_get (replacements s') i = dict_get (replacements s) i;
  gp_new : ∀ i f, (length d ≤ i)%nat → dict_get (replacements s') i = Some f →
    (i < length d + length g)%nat ∧ ∃ it, its !! i = Some it ∧ frozen_of it f;
  gp_some : ∀ ts, r = Some ts → length g = m
    ∧ group_rel (length d) (take m (drop (length d) its)) g ts
    ∧ ∀ i f, (i, f) ∈ ts → dict_get (replacements s') i = Some f;
}.

Lemma insert_at_length {A} (d l : list A) x y : <[length d := y]> (d ++ x :: l) = d ++ y :: l.
Proof. rewrite insert_app_r_alt, Nat.sub_diag by lia. done. Qed.

Lemma group_early its d k m s s' : outcomes s = d ++ replicate k retry → same_ledger s s' →
  (∀ i, (length d ≤ i)%nat → dict_get (replacements s) i = None) →
  group_post its d k m s None s' [].
Proof.
  intros Ho (H1 & H2 & H3 & H4) Hfresh. constructor; simpl; try done.
  - by rewrite H1, Ho, Nat.sub_0_r.
  - lia.
  - by rewrite H2.
  - intros i f Hi. by rewrite H2, Hfresh by lia.
Qed.

(** Prefixing one member to the rest of its group. *)
Lemma group_step its d k m s s1 r r' s' o g it :
  its !! length d = Some it → (S m ≤ k)%nat → o ≠ sent →
  n_sent s1 = n_sent s → posts s1 = posts s →
  (∀ i, i ≠ length d → dict_get (replacements s1) i = dict_get (replacements s) i) →
  (o = dropped → r' = r ∧ dict_get (replacements s1) (length d) = None) →
  (o = retry → ∃ f, frozen_of it f ∧ r' = cons (length d, f) <$> r
                    ∧ dict_get (replacements s1) (length d) = Some f) →
  group_post its (d ++ [o]) (k - 1) m s1 r s' g →
  group_post its d k (S m) s r' s' (o :: g).
Proof.
  intros Hit Hk Ho Hns Hps Hrep Hdrop Hkeep [G1 G2 G3 G4 G5 G6 G7 G8].
  rewrite length_app in *. simpl in *.
  assert (Hlast : dict_get (replacements s') (length d) = dict_get (replacements s1) (length d))
    by (apply G6; lia).
  constructor; simpl.
  - rewrite G1, <-app_assoc. simpl. do 3 f_equal. f_equal. lia.
  - lia.
  - by constructor.
  - congruence.
  - congruence.
  - intros i Hi. rewrite G6 by lia. apply Hrep. lia.
  - intros i f Hi Hf. destruct (decide (i = length d)) as [->|Hne].
    + split; [lia|]. exists it. split; [done|]. rewrite Hlast in Hf. destruct o; [done| |].
      * destruct Hdrop as [_ Hd]; [done|]. congruence.
      * destruct Hkeep as (f' & Hff & _ & Hf'); [done|]. congruence.
    + destruct (G7 i f) as [? ?]; [lia|done|]. split; [lia|done].
  - intros ts Hts. rewrite (drop_S _ _ _ Hit). simpl. rewrite Nat.add_1_r in G8.
    destruct o; [done| |].
    + destruct Hdrop as [-> _]; [done|]. destruct (G8 _ Hts) as (Hl & Hg & Hin).
      split_and!; [lia|by constructor|done].
    + destruct Hkeep as (f & Hff & -> & Hf'); [done|]. destruct r as [ts'|]; [|done].
      injection Hts as <-. destruct (G8 _ eq_refl) as (Hl & Hg & Hin).
      split_and!; [lia|by constructor|]. intros i f0 [[= -> ->]|Hi]%elem_of_cons; [|by apply Hin].
      by rewrite Hlast.
Qed.

Lemma freeze_group_spec its dl m d k s r s' :
  (length d + m ≤ length its)%nat → (m ≤ k)%nat → outcomes s = d ++ replicate k retry →
  (∀ i, (length d ≤ i)%nat → dict_get (replacements s) i = None) →
  freeze_group its dl (seq (length d) m) s = (r, s') → ∃ g, group_post its d k m s r s' g.
Proof.
  revert d k s r s'. induction m as [|m IH]; intros d k s r s' Hn Hk Ho Hfresh H.
  - injection H as <- <-. exists []. constructor; try done.
    + simpl. by rewrite Nat.sub_0_r.
    + intros i f ?. by rewrite Hfresh.
    + intros ts [= <-]. split_and!; [done|constructor|by intros ?? ?%not_elem_of_nil].
  - simpl in H. unfold mbind, M_bind in H. destruct (now s) as [t s1] eqn:Hnow.
    apply now_ledger in Hnow. destruct (dl <=? t)%float.
    { injection H as <- <-. exists []. by apply group_early. }
    destruct (lookup_lt_is_Some_2 its (length d)) as [it Hit]; [lia|]. rewrite Hit in H.
    destruct (freeze _ _ _) as [x s2] eqn:Hfr. apply freeze_spec in Hfr as (Hl & Hfz & _).
    pose proof (transitivity Hnow Hl) as (L1 & L2 & L3 & L4).
    destruct k as [|k]; [lia|]. simpl in Ho.
    destruct x as [f|]; cbn in H.
    + destruct (freeze_group _ _ _ _) as [r0 s4] eqn:Hrec in H. injection H as <- <-.
      rewrite <-(Nat.add_1_r (length d)) in Hrec.
      replace (length d + 1)%nat with (length (d ++ [retry])) in Hrec by (by rewrite length_app).
      apply (IH _ k) in Hrec as [g Hg].
      * exists (retry :: g). eapply (group_step its d (S k) m s _ r0 _ s4 retry g it); [..|simpl; rewrite Nat.sub_0_r; exact Hg]; [done|lia|done|exact L3|exact L4| |done|].
        -- intros i Hi. cbn. rewrite dict_get_set, decide_False, L2 by done. done.
        -- intros _. exists f. split_and!; [by apply Hfz|done|]. cbn. by rewrite dict_get_set, decide_True.
      * rewrite length_app. simpl. lia.
      * lia.
      * cbn. rewrite L1, Ho, <-app_assoc. done.
      * intros i Hi. rewrite length_app in Hi. simpl in Hi. cbn.
        rewrite dict_get_set, decide_False, L2 by lia. apply Hfresh. lia.
    + rewrite <-(Nat.add_1_r (length d)) in H.
      replace (length d + 1)%nat with (length (d ++ [dropped])) in H by (by rewrite length_app).
      apply (IH _ k) in H as [g Hg].
      * exists (dropped :: g). eapply (group_step its d (S k) m s _ r r s' dropped g it); [..|simpl; rewrite Nat.sub_0_r; exact Hg]; [done|lia|done|exact L3|exact L4| | |done].
        -- intros i Hi. cbn. by rewrite L2.
        -- intros _. split; [done|]. cbn. rewrite L2. by apply Hfresh.
      * rewrite length_app. simpl. lia.
      * lia.
      * cbn. rewrite L1, Ho, insert_at_length, <-app_assoc. done.
      * intros i Hi. rewrite length_app in Hi. simpl in Hi. cbn. rewrite L2. apply Hfresh. lia.
Qed.

(** The outcome a whole group takes from its request; members dropped earlier keep theirs. *)
Definition resolve (o x : outcome) : outcome := match x with retry => o | _ => x end.

Lemma set_outcomes_spec gs g ts d rest o s :
  group_rel (length d) gs g ts → outcomes s = d ++ g ++ rest →
  set_outcomes ts.*1 o s
  = (tt, mkIO (world s) (d ++ (resolve o <$> g) ++ rest) (replacements s) (n_sent s) (flush_errors s) (posts s)).
Proof.
  intros Hg. remember (length d) as i eqn:Hi. revert d Hi s.
  induction Hg as [i|i it gs os ts Hg IH|i it f gs os ts Hf Hg IH]; intros d -> s Ho.
  - simpl. destruct s; simpl in *. by subst.
  - specialize (IH (d ++ [dropped])). rewrite length_app, Nat.add_1_r in IH.
    rewrite IH; [|done|by rewrite Ho, <-app_assoc]. by rewrite <-app_assoc.
  - cbn [fmap list_fmap set_outcomes fst]. unfold mbind, M_bind, set_outcome.
    specialize (IH (d ++ [o])). rewrite length_app, Nat.add_1_r in IH.
    cbn [fmap list_fmap fst] in IH. rewrite IH; [|done|].
    + cbn. by rewrite <-app_assoc.
    + cbn. rewrite Ho. rewrite <-app_comm_cons, insert_at_length. by rewrite <-app_assoc.
Qed.

(** ** The ledger of a batch *)

Definition sent_items (its : list item) (os : list outcome) : list item :=
  with_outcome sent (zip its os).

Lemma sent_items_not_sent its os : Forall not_sent os → sent_items its os = [].
Proof.
  intros Ho. revert its. induction Ho as [|o os Hne Ho IH]; intros [|it its]; try done.
  unfold sent_items, with_outcome in *. simpl. rewrite bool_decide_eq_false_2 by done. apply IH.
Qed.

Lemma sent_items_app its d e : (length d ≤ length its)%nat →
  sent_items its (d ++ e) = sent_items its d ++ sent_items (drop (length d) its) e.
Proof.
  revert its. induction d as [|o d IH]; intros its Hl.
  { destruct its; by rewrite ?drop_0. }
  destruct its as [|it its]; simpl in Hl; [lia|]. unfold sent_items, with_outcome in *. simpl.
  case_bool_decide; simpl; rewrite IH by lia; done.
Qed.

Lemma replicate_not_sent k : Forall not_sent (replicate k retry).
Proof. by apply Forall_replicate. Qed.

(** Of a group that resolves to [o], the members sent are exactly those in the request. *)
Lemma group_sent i gs g ts o rest : group_rel i gs g ts → gs `prefix_of` rest → o ≠ retry →
  length (sent_items rest (resolve o <$> g)) = (if decide (o = sent) then length ts else 0)%nat
  ∧ ∀ r, run_seqs r (sent_items rest (resolve o <$> g)) = if decide (o = sent) then run_seqs r ts.*2 else [].
Proof.
  intros Hg. revert rest. unfold sent_items, with_outcome, run_seqs.
  induction Hg as [i|i it gs os ts Hg IH|i it f gs os ts Hf Hg IH]; intros rest [k ->] Ho.
  - destruct k; by case_decide.
  - cbn. apply IH; [by exists k|done].
  - destruct (IH (gs ++ k)) as [IH1 IH2]; [by exists k|done|].
    rewrite <-app_comm_cons, !fmap_cons. cbn [zip_with List.filter resolve snd].
    case_decide; [|by rewrite bool_decide_eq_false_2]. rewrite bool_decide_eq_true_2 by done.
    rewrite fmap_cons. cbn [length omap list_omap fst snd]. rewrite IH1. split; [done|]. intros r. destruct Hf as (-> & -> & -> & _).
    rewrite IH2. done.
Qed.

Lemma group_traces i gs g ts : group_rel i gs g ts → Forall (λ it, it_kind it = trace) gs →
  Forall (λ it, it_kind it = trace) ts.*2 ∧ (length ts ≤ length gs)%nat.
Proof.
  induction 1 as [i|i it gs os ts Hg IH|i it f gs os ts Hf Hg IH]; intros Hk; [by split|..];
    apply Forall_cons in Hk as [Hk1 Hk2]; destruct (IH Hk2) as [IH1 IH2]; simpl; split; try lia; [done|].
  constructor; [|done]. destruct Hf as (_ & -> & _). done.
Qed.

Lemma trace_prefix_spec (l : list item) : (trace_prefix l ≤ length l)%nat
  ∧ Forall (λ it, it_kind it = trace) (take (trace_prefix l) l).
Proof.
  induction l as [|it l [IH1 IH2]]; simpl; [by split|]. case_decide; simpl; [|by split; [lia|]].
  split; [lia|by constructor].
Qed.

(** What the batch did so far, against the log it started from: the server acknowledged
    exactly the items settled as sent, in order; every event offered is that of the frozen
    item kept for a retry; no request is larger than the batch. *)
Definition ledger (its : list item) (log0 : list (Post enc)) (s : IO) : Prop :=
  ∃ ps, posts s = log0 ++ ps
  ∧ (∀ r, accepted_seqs r ps = run_seqs r (sent_items its (outcomes s)))
  ∧ n_sent s = Z.of_nat (length (sent_items its (outcomes s)))
  ∧ (∀ ev, ev ∈ offered ps → ∃ i f, dict_get (replacements s) i = Some f
                                    ∧ it_kind f = trace ∧ ev = event_of f)
  ∧ Forall (λ p, length (post_events p) ≤ length its)%nat ps.

Lemma ledger_extend its log0 s s' ps' :
  ledger its log0 s → posts s' = posts s ++ ps' →
  (∀ r, run_seqs r (sent_items its (outcomes s'))
        = run_seqs r (sent_items its (outcomes s)) ++ accepted_seqs r ps') →
  n_sent s' - n_sent s = Z.of_nat (length (sent_items its (outcomes s')))
                         - Z.of_nat (length (sent_items its (outcomes s))) →
  (∀ i f, dict_get (replacements s) i = Some f → dict_get (replacements s') i = Some f) →
  (∀ ev, ev ∈ offered ps' → ∃ i f, dict_get (replacements s') i = Some f
                                   ∧ it_kind f = trace ∧ ev = event_of f) →
  Forall (λ p, length (post_events p) ≤ length its)%nat ps' →
  ledger its log0 s'.
Proof.
  intros (ps & H1 & H2 & H3 & H4 & H5) Hp Hseq Hn Hrep Hev Hlen. exists (ps ++ ps'). split_and!.
  - by rewrite Hp, H1, app_assoc.
  - intros r. by rewrite accepted_seqs_app, Hseq, H2.
  - lia.
  - intros ev. rewrite offered_app, elem_of_app. intros [(i & f & ? & ?)%H4|?]; [|by apply Hev].
    exists i, f. auto.
  - by apply Forall_app.
Qed.

(** ** The loop invariant and what [_dispatch] leaves behind *)

Record loop_inv (its : list item) (log0 : list (Post enc)) (index : nat) (s : IO) (d : list outcome) : Prop := {
  li_out : outcomes s = d ++ replicate (length its - index) retry;
  li_len : length d = index;
  li_bound : (index ≤ length its)%nat;
  li_settled : Forall settled d;
  li_rep : ∀ i f, dict_get (replacements s) i = Some f →
    (i < index)%nat ∧ ∃ it, its !! i = Some it ∧ frozen_of it f;
  li_ledger : ledger its log0 s;
}.

Record dispatched (its : list item) (log0 : list (Post enc)) (s : IO) : Prop := {
  dp_len : length (outcomes s) = length its;
  dp_order : ∃ d rest, outcomes s = d ++ rest ∧ Forall settled d ∧ Forall not_sent rest;
  dp_rep : ∀ i f, dict_get (replacements s) i = Some f → ∃ it, its !! i = Some it ∧ frozen_of it f;
  dp_ledger : ledger its log0 s;
}.

Lemma loop_inv_dispatched its log0 index s d : loop_inv its log0 index s d → dispatched its log0 s.
Proof.
  intros [Ho Hl Hb Hs Hr Hg]. constructor; try done.
  - rewrite Ho, length_app, length_replicate. lia.
  - exists d, (replicate (length its - index) retry). split_and!; try done. apply replicate_not_sent.
  - intros i f Hf. by destruct (Hr i f Hf).
Qed.

Lemma ledger_same its log0 s s' : ledger its log0 s → same_ledger s s' → ledger its log0 s'.
Proof. unfold ledger. intros Hl (-> & -> & -> & ->). done. Qed.

Lemma loop_inv_same its log0 index s s' d :
  loop_inv its log0 index s d → same_ledger s s' → loop_inv its log0 index s' d.
Proof.
  intros [Ho Hl Hb Hs Hr Hg] Hsame. pose proof (ledger_same _ _ _ _ Hg Hsame).
  destruct Hsame as (E1 & E2 & E3 & E4). constructor; try done; [by rewrite E1|by rewrite E2].
Qed.

(** A group's frozen members are the only events its request offers. *)
Definition group_request (path : pystr) (ts : list (nat * item)) (o : outcome) : Post enc :=
  mkPost path (TraceBatch (event_of <$> ts.*2)) o.

Lemma group_offered (ps : list (Post enc)) path ts o (s : IO) ev :
  ps = [] ∨ ps = [group_request path ts o] →
  Forall (λ it, it_kind it = trace) ts.*2 →
  (∀ i f, (i, f) ∈ ts → dict_get (replacements s) i = Some f) →
  ev ∈ offered ps →
  ∃ i f, dict_get (replacements s) i = Some f ∧ it_kind f = trace ∧ ev = event_of f.
Proof.
  intros [->| ->] Hk Hin; [by intros ?%not_elem_of_nil|]. unfold offered. cbn [map concat].
  rewrite app_nil_r. cbn [post_events group_request post_payload].
  intros (f & -> & Hf)%list_elem_of_fmap. pose proof Hf as Hf'.
  apply list_elem_of_fmap in Hf as ([i f'] & -> & Hif). exists i, f'. split_and!; [by apply Hin| |done].
  rewrite Forall_forall in Hk. by apply Hk.
Qed.

Lemma loop_group its log0 index s d g ts s1 s2 o ps' path :
  let len := trace_prefix (drop index its) in
  loop_inv its log0 index s d →
  group_post its d (length its - index) len s (Some ts) s1 g → o ≠ retry →
  outcomes s2 = d ++ (resolve o <$> g) ++ replicate (length its - index - length g) retry →
  replacements s2 = replacements s1 → posts s2 = posts s1 ++ ps' →
  (ps' = [] ∧ ts = [] ∨ ps' = [group_request path ts o]) →
  n_sent s2 = n_sent s1 + (if decide (o = sent) then Z.of_nat (length ts) else 0) →
  loop_inv its log0 (index + len) s2 (d ++ (resolve o <$> g)).
Proof.
  intros len [Ho Hl Hb Hs Hr Hg] [G1 G2 G3 G4 G5 G6 G7 G8] Hno Ho2 Hr2 Hp2 Hps Hn2.
  destruct (G8 _ eq_refl) as (Hlen & Hrel & Hin). rewrite Hl in *.
  destruct (trace_prefix_spec (drop index its)) as [Hpl Hpk]. fold len in Hpl, Hpk.
  rewrite length_drop in Hpl. destruct (group_traces _ _ _ _ Hrel Hpk) as [Htk Htl].
  destruct (group_sent _ _ _ _ o (drop index its) Hrel) as [Hsl Hsr]; [apply prefix_take|done|].
  assert (Hsent : sent_items its (outcomes s2)
    = sent_items its (outcomes s) ++ sent_items (drop index its) (resolve o <$> g)).
  { rewrite Ho2, Ho, app_assoc, !sent_items_app, !(sent_items_not_sent _ (replicate _ _)), !app_nil_r;
      rewrite ?length_app, ?length_fmap, ?Hl; [done|apply replicate_not_sent..|lia|lia|lia]. }
  constructor.
  - rewrite Ho2, <-app_assoc. do 3 f_equal. lia.
  - rewrite length_app, length_fmap. lia.
  - lia.
  - apply Forall_app; split; [done|]. apply Forall_fmap. apply Forall_forall. intros x Hx. cbn.
    by destruct x.
  - rewrite Hr2. intros i f Hf. destruct (decide (i < index)%nat) as [Hi|Hi].
    + rewrite G6 in Hf by done. apply Hr in Hf as [? ?]. split; [lia|done].
    + destruct (G7 i f) as [? ?]; [lia|done|]. split; [lia|done].
  - eapply (ledger_extend _ _ s _ ps'); [done|by rewrite Hp2, G5|..].
    + intros r. rewrite Hsent, run_seqs_app. f_equal. rewrite Hsr. unfold accepted_seqs.
      destruct Hps as [[-> ->]| ->]; [by case_decide|].
      cbn [map concat post_result group_request post_events post_payload]. case_decide; [|done].
      by rewrite app_nil_r, batch_seqs_events.
    + rewrite Hn2, Hsent, length_app, Hsl, G4. case_decide; lia.
    + intros i f Hf. rewrite Hr2. destruct (Hr _ _ Hf) as [? _]. by rewrite G6.
    + intros ev. rewrite Hr2. eapply (group_offered _ path ts o); [|done|done]. tauto.
    + destruct Hps as [[-> _]| ->]; [constructor|]. constructor; [|constructor].
      cbn. rewrite !length_fmap. rewrite length_take, length_drop in Htl. lia.
Qed.

(** The group stays to be retried: its request was not started, or failed. *)
Lemma loop_group_retry its log0 index s d g ots s1 s2 ts ps' path :
  let len := trace_prefix (drop index its) in
  loop_inv its log0 index s d →
  group_post its d (length its - index) len s ots s1 g →
  outcomes s2 = outcomes s1 → replacements s2 = replacements s1 → n_sent s2 = n_sent s1 →
  posts s2 = posts s1 ++ ps' →
  (ps' = [] ∨ ps' = [group_request path ts retry] ∧ ots = Some ts) →
  dispatched its log0 s2.
Proof.
  intros len [Ho Hl Hb Hs Hr Hg] [G1 G2 G3 G4 G5 G6 G7 G8] Ho2 Hr2 Hn2 Hp2 Hps. rewrite Hl in *.
  destruct (trace_prefix_spec (drop index its)) as [Hpl Hpk]. fold len in Hpl, Hpk.
  rewrite length_drop in Hpl.
  assert (Hsent : sent_items its (outcomes s2) = sent_items its (outcomes s)).
  { rewrite Ho2, G1, Ho, !sent_items_app, !(sent_items_not_sent _ (replicate _ _)),
      (sent_items_not_sent _ g), !app_nil_r; rewrite ?length_drop, ?Hl;
      try done; try lia; apply replicate_not_sent. }
  constructor.
  - rewrite Ho2, G1, !length_app, length_replicate. lia.
  - exists d, (g ++ replicate (length its - index - length g) retry).
    rewrite Ho2, G1. split_and!; [done..|]. apply Forall_app. split; [done|apply replicate_not_sent].
  - rewrite Hr2. intros i f Hf. destruct (decide (i < index)%nat) as [Hi|Hi].
    + rewrite G6 in Hf by done. by apply Hr in Hf as [? ?].
    + by destruct (G7 i f) as [? ?]; [lia|done|].
  - eapply (ledger_extend _ _ s _ ps'); [done|by rewrite Hp2, G5|..].
    + intros r. rewrite Hsent. destruct Hps as [->|[-> _]]; cbn; by rewrite ?app_nil_r.
    + rewrite Hsent. lia.
    + intros i f Hf. rewrite Hr2. destruct (Hr _ _ Hf) as [? _]. by rewrite G6.
    + destruct Hps as [->|[-> ->]]; [by intros ? ?%not_elem_of_nil|].
      destruct (G8 _ eq_refl) as (Hlen & Hrel & Hin). intros ev. rewrite Hr2.
      eapply (group_offered _ path ts retry); [by right| |done].
      by destruct (group_traces _ _ _ _ Hrel Hpk).
    + destruct Hps as [->|[-> ->]]; [constructor|]. constructor; [|constructor].
      destruct (G8 _ eq_refl) as (_ & Hrel & _). destruct (group_traces _ _ _ _ Hrel Hpk) as [_ Htl].
      cbn. rewrite !length_fmap. rewrite length_take, length_drop in Htl. lia.
Qed.

(** Requests on the feedback and proposal routes carry no trace event. *)
Definition no_trace_request (p : Post enc) : Prop := post_events p = [].

Lemma no_trace_requests ps : Forall no_trace_request ps →
  offered ps = [] ∧ ∀ r, accepted_seqs r ps = [].
Proof.
  unfold offered, accepted_seqs. induction 1 as [|p ps Hp _ [IH1 IH2]]; [done|].
  unfold no_trace_request in Hp. simpl. rewrite Hp, IH1. split; [done|]. intros r.
  rewrite IH2. by case_decide.
Qed.

(** The replacements after an item at [index]: as before, or with its frozen form. *)
Definition replaced (index : nat) (it : item) (s s' : IO) : Prop :=
  replacements s' = replacements s
  ∨ ∃ f, frozen_of it f ∧ replacements s' = dict_set (replacements s) index f.

Lemma replaced_get its log0 index s d it s' : loop_inv its log0 index s d →
  its !! index = Some it → replaced index it s s' →
  (∀ i f, dict_get (replacements s') i = Some f →
     (i < S index)%nat ∧ ∃ it, its !! i = Some it ∧ frozen_of it f)
  ∧ (∀ i f, dict_get (replacements s) i = Some f → dict_get (replacements s') i = Some f).
Proof.
  intros [_ _ _ _ Hr _] Hit [->|(f0 & Hf0 & ->)].
  - split; [|done]. intros i f Hf. destruct (Hr _ _ Hf). split; [lia|done].
  - split; intros i f; rewrite dict_get_set; case_decide as Hd.
    + subst i. intros [= <-]. split; [lia|]. by exists it.
    + intros Hf. destruct (Hr _ _ Hf). split; [lia|done].
    + subst i. intros Hf. destruct (Hr _ _ Hf). lia.
    + done.
Qed.

Lemma loop_single its log0 index s d it s' o ps' :
  loop_inv its log0 index s d → its !! index = Some it → it_kind it ≠ trace → o ≠ retry →
  outcomes s' = <[index := o]> (outcomes s) → replaced index it s s' →
  posts s' = posts s ++ ps' → Forall no_trace_request ps' →
  n_sent s' = n_sent s + (if decide (o = sent) then 1 else 0) →
  loop_inv its log0 (S index) s' (d ++ [o]).
Proof.
  intros Hinv Hit Hk Hno Ho' Hrep Hp Hps Hn.
  destruct (replaced_get _ _ _ _ _ _ _ Hinv Hit Hrep) as [Hr1 Hr2].
  destruct Hinv as [Ho Hl Hb Hs Hr Hg]. pose proof (lookup_lt_Some _ _ _ Hit) as Hlt.
  destruct (no_trace_requests ps' Hps) as [Hoff Hacc].
  assert (Ho2 : outcomes s' = d ++ [o] ++ replicate (length its - S index) retry).
  { rewrite Ho', Ho. replace (length its - index)%nat with (S (length its - S index)) by lia.
    simpl. rewrite <-Hl. apply insert_at_length. }
  assert (Hsent : sent_items its (outcomes s')
    = sent_items its (outcomes s) ++ (if decide (o = sent) then [it] else [])).
  { rewrite Ho2, Ho, app_assoc, !sent_items_app, !(sent_items_not_sent _ (replicate _ _)), !app_nil_r;
      rewrite ?length_app, ?Hl; simpl; try lia; try apply replicate_not_sent.
    f_equal. rewrite (drop_S _ _ _ Hit). unfold sent_items, with_outcome. simpl.
    destruct (drop (S index) its); case_decide; case_bool_decide; done. }
  constructor; try done.
  - by rewrite <-app_assoc.
  - rewrite length_app. simpl. lia.
  - apply Forall_app; split; [done|]. by constructor.
  - eapply (ledger_extend _ _ s _ ps'); [done|done|..].
    + intros r. rewrite Hsent, run_seqs_app, Hacc. f_equal. case_decide; [|done].
      unfold run_seqs. simpl. rewrite decide_False by tauto. done.
    + rewrite Hsent, length_app, Hn. case_decide; simpl; lia.
    + done.
    + rewrite Hoff. by intros ? ?%not_elem_of_nil.
    + eapply Forall_impl; [done|]. intros p ->. simpl. lia.
Qed.

Lemma loop_single_retry its log0 index s d it s' ps' :
  loop_inv its log0 index s d → its !! index = Some it → replaced index it s s' →
  outcomes s' = outcomes s → n_sent s' = n_sent s →
  posts s' = posts s ++ ps' → Forall no_trace_request ps' → dispatched its log0 s'.
Proof.
  intros Hinv Hit Hrep Ho' Hn Hp Hps.
  destruct (replaced_get _ _ _ _ _ _ _ Hinv Hit Hrep) as [Hr1 Hr2].
  destruct (no_trace_requests ps' Hps) as [Hoff Hacc].
  destruct (loop_inv_dispatched _ _ _ _ _ Hinv) as [D1 D2 _ D4].
  constructor; rewrite ?Ho'; try done; [intros i f Hf; by destruct (Hr1 i f Hf)|].
  eapply (ledger_extend _ _ s _ ps'); rewrite ?Ho'; [done|done|..].
  - intros r. by rewrite Hacc, app_nil_r.
  - lia.
  - done.
  - rewrite Hoff. by intros ? ?%not_elem_of_nil.
  - eapply Forall_impl; [done|]. intros p ->. simpl. lia.
Qed.

(** One iteration on a feedback or proposal item, given the rest of the loop. *)
Lemma loop_single_iter its log0 index s d it dl (K : M unit) u s' :
  loop_inv its log0 index s d → its !! index = Some it → it_kind it ≠ trace →
  (∀ d1 s1 u s', loop_inv its log0 (S index) s1 d1 → K s1 = (u, s') → dispatched its log0 s') →
  (frozen ← freeze it (item_key (it_kind it));
   match frozen with
   | None => _ ← set_outcome index dropped; K
   | Some f =>
       _ ← set_replacement index f;
       result ← post (item_path (it_kind it))
         (Single (uuid_str (RunId_value (it_run_id it))) (item_key (it_kind it)) (it_encoded f)) dl;
       match result with
       | retry => mret tt
       | _ => _ ← set_outcome index result;
              _ ← add_sent (if decide (result = sent) then 1 else 0); K
       end
   end) s = (u, s') → dispatched its log0 s'.
Proof.
  intros Hinv Hit Hk HK. unfold mbind, M_bind, set_replacement, set_outcome, add_sent.
  destruct (freeze it _ s) as [x s1] eqn:Hf. apply freeze_spec in Hf as (Hl & Hfz & _).
  pose proof (loop_inv_same _ _ _ _ _ _ Hinv Hl) as Hinv1. destruct x as [f|]; cbn beta iota.
  - destruct (post _ _ dl _) as [o s3] eqn:Hp. apply post_spec in Hp as (P1 & P2 & P3 & P4).
    cbn in P1, P2, P3, P4.
    assert (Hps : ∃ ps, posts s3 = posts s1 ++ ps ∧ Forall no_trace_request ps).
    { destruct P4 as [[-> _]| ->]; [by exists []; rewrite app_nil_r|]. eexists; split; [done|].
      by repeat constructor. }
    destruct Hps as (ps & Hps1 & Hps2).
    assert (Hrep : ∀ s4 : IO, replacements s4 = replacements s3 → replaced index it s1 s4).
    { intros s4 Heq. right. exists f. split; [by apply Hfz|]. by rewrite Heq, P2. }
    destruct o; cbn beta iota.
    1: intros H; eapply (HK (d ++ [sent])), H.
    2: intros H; eapply (HK (d ++ [dropped])), H.
    1,2: eapply (loop_single its log0 index s1 d it _ _ ps);
      [done..|cbn; by rewrite P1|by apply Hrep|exact Hps1|exact Hps2|cbn; by rewrite P3].
    intros [= <- <-]. eapply (loop_single_retry its log0 index s1); try done. by apply Hrep.
  - intros H. eapply (HK (d ++ [dropped])), H.
    eapply (loop_single its log0 index s1 d it _ _ []); try done.
    + by left.
    + by rewrite app_nil_r.
    + rewrite decide_False, Z.add_0_r by done. done.
Qed.

Lemma group_rel_nil i gs g : group_rel i gs g [] → resolve dropped <$> g = g.
Proof.
  remember [] as ts. induction 1 as [|? ? ? ? ? ? IH|]; [done| |done].
  rewrite fmap_cons. cbn [resolve]. by rewrite IH.
Qed.

(** One iteration on a group of traces, given the rest of the loop. *)
Lemma loop_group_iter its log0 index s d it dl (K : M unit) u s' :
  let len := trace_prefix (drop index its) in
  loop_inv its log0 index s d → its !! index = Some it →
  (∀ d1 s1 u s', loop_inv its log0 (index + len) s1 d1 → K s1 = (u, s') → dispatched its log0 s') →
  (group ← freeze_group its dl (seq index len);
   match group with
   | None => mret tt
   | Some [] => K
   | Some traces =>
       result ← post (of_ascii "/v1/trace/batch") (TraceBatch (event_of <$> traces.*2)) dl;
       match result with
       | retry => mret tt
       | _ => _ ← set_outcomes traces.*1 result;
              _ ← add_sent (if decide (result = sent) then Z.of_nat (length traces) else 0); K
       end
   end) s = (u, s') → dispatched its log0 s'.
Proof.
  intros len Hinv Hit HK. unfold mbind, M_bind.
  destruct (trace_prefix_spec (drop index its)) as [Hpl _]. fold len in Hpl. rewrite length_drop in Hpl.
  destruct (freeze_group _ _ _ _) as [r s1] eqn:Hfg.
  pose proof Hinv as [Ho Hl Hb Hs Hr _]. rewrite <-Hl in Hfg.
  apply (freeze_group_spec _ _ _ _ (length its - index)) in Hfg as [g Hg]; [|lia|lia|done|].
  2: { intros i Hi. destruct (dict_get _ i) eqn:Hd; [|done]. apply Hr in Hd. lia. }
  destruct r as [ts|].
  2: { intros [= <- <-]. eapply (loop_group_retry _ _ _ _ _ _ _ _ _ [] [] []); try done; [|by left].
       by rewrite app_nil_r. }
  pose proof (gp_some _ _ _ _ _ _ _ _ Hg _ eq_refl) as (Hlen & Hrel & Hin).
  pose proof (gp_outcomes _ _ _ _ _ _ _ _ Hg) as Hout.
  destruct ts as [|t ts].
  - intros H. eapply HK, H.
    eapply (loop_group _ _ _ _ _ _ _ _ _ dropped [] [] Hinv Hg); try done.
    + by rewrite (group_rel_nil _ _ _ Hrel).
    + by rewrite app_nil_r.
    + by left.
    + rewrite decide_False, Z.add_0_r by done. done.
  - destruct (post _ _ _ _) as [o s2] eqn:Hp. apply post_spec in Hp as (P1 & P2 & P3 & P4).
    assert (Hps : o ≠ retry → posts s2 = posts s1 ++ [group_request (of_ascii "/v1/trace/batch") (t :: ts) o])
      by (intros ?; destruct P4 as [[_ ?]|P4]; [done|by rewrite P4]).
    destruct o; cbn beta iota.
    3: { intros [= <- <-]. destruct P4 as [[P4 _]|P4].
         - eapply (loop_group_retry _ _ _ _ _ _ _ _ _ [] [] [] Hinv Hg); try done; [|by left].
           by rewrite P4, app_nil_r.
         - eapply (loop_group_retry _ _ _ _ _ _ _ _ _ (t :: ts) _ _ Hinv Hg P1 P2 P3 P4). by right. }
    all: erewrite set_outcomes_spec by (done || by rewrite P1); unfold add_sent; cbn beta iota;
      intros H; eapply HK, H.
    1: eapply (loop_group _ _ _ _ _ _ _ _ _ sent _ (of_ascii "/v1/trace/batch") Hinv Hg).
    7: eapply (loop_group _ _ _ _ _ _ _ _ _ dropped _ (of_ascii "/v1/trace/batch") Hinv Hg).
    1,7: done.
    1,6: cbn [outcomes]; done.
    1,5: exact P2.
    1,4: cbn [posts]; by apply Hps.
    1,3: by right.
    all: cbn [n_sent]; by rewrite P3.
Qed.

Lemma dispatch_loop_spec fuel its log0 dl index s d u s' :
  loop_inv its log0 index s d → dispatch_loop fuel its dl index s = (u, s') →
  dispatched its log0 s'.
Proof.
  revert index s d u s'. induction fuel as [|fuel IH]; intros index s d u s' Hinv.
  { intros [= <- <-]. by eapply loop_inv_dispatched. }
  simpl. destruct (its !! index) as [it|] eqn:Hit.
  2: { intros [= <- <-]. by eapply loop_inv_dispatched. }
  unfold mbind at 1, M_bind at 1. destruct (now s) as [t s1] eqn:Hn. apply now_ledger in Hn.
  pose proof (loop_inv_same _ _ _ _ _ _ Hinv Hn) as Hinv1. destruct (dl <=? t)%float.
  { intros [= <- <-]. by eapply loop_inv_dispatched. }
  destruct (it_kind it) eqn:Hk; intros H.
  - eapply loop_group_iter; [exact Hinv1|exact Hit| |exact H].
    intros d1 s2 u' s2' Hi Hl. by eapply IH.
  - eapply (loop_single_iter its log0 index s1 d it dl); rewrite ?Hk; [done..| |exact H].
    intros d1 s2 u' s2' Hi Hl. by eapply IH.
  - eapply (loop_single_iter its log0 index s1 d it dl); rewrite ?Hk; [done..| |exact H].
    intros d1 s2 u' s2' Hi Hl. by eapply IH.
Qed.

Lemma fresh_loop_inv its w errs log0 : loop_inv its log0 0 (fresh_settlement its w errs log0) [].
Proof.
  constructor; simpl; try done; try lia.
  - by rewrite Nat.sub_0_r.
  - exists []. rewrite sent_items_not_sent by apply replicate_not_sent.
    split_and!; simpl; [by rewrite app_nil_r|done|done|by intros ? ?%not_elem_of_nil|constructor].
Qed.

(** What every call of [_dispatch] leaves behind. *)
Lemma dispatch_spec its dl w errs log0 u s' :
  dispatch its dl (fresh_settlement its w errs log0) = (u, s') → dispatched its log0 s'.
Proof. eapply dispatch_loop_spec, fresh_loop_inv. Qed.

End Dispatch.
#[global] Arguments item_key _ /.
#[global] Arguments item_path _ /.
