(* ===== verification/Delivery.v ===== *)
(** * The SDK client: flushes, and the system of host threads and flusher

    Models [TracebedClient._do_flush], [flush], [_report] and [_take_reported_drops] of
    src/src/tracebed/sdk/client.py on top of Buffer.v and Client.v, and the transition
    system whose atomic steps are the lock-protected operations of the buffer.

    The theorems: nothing is lost uncounted and the buffer stays within its capacity; the
    server acknowledges the trace events of a run in strictly increasing order, each at
    most once, and a retry repeats the payload first offered; every flush is a sequence of
    steps, never raises and reports exactly what it did; on a healthy connection it
    terminates with everything delivered. *)

From S2P Require Import Prelude Domain PyText PyFloat Buffer Client.
Open Scope Z_scope.

Record TracebedClient {obj enc : Type} := mkClient {
  c_buffer : RingBuffer obj enc;
  c_last_reported_dropped : Z;
  c_flush_errors : Z;
  c_posts : list (Post enc);
}.
#[global] Arguments TracebedClient : clear implicits.
#[global] Arguments mkClient {obj enc}.

Section Flush.
Context {W obj enc : Type} `{EqDecision obj, EqDecision enc} (E : Env W obj enc).
Abbreviation item := (BufferedItem obj enc).
Abbreviation buffer := (RingBuffer obj enc).
Abbreviation client := (TracebedClient obj enc).
Abbreviation call := (RunId * ItemKind * list (pystr * obj))%type.

Definition with_buffer (c : client) (b : buffer) : client :=
  mkClient b (c_last_reported_dropped c) (c_flush_errors c) (c_posts c).

(** Calls of [append] by the host's threads, in the order they took the lock. *)
Definition appends (b : buffer) (calls : list call) : buffer :=
  foldl (λ b '(r, k, body), (append b r k body).1) b calls.

Definition host_turn (c : client) (w : W) : client * W :=
  let '(calls, w') := host E w in (with_buffer c (appends (c_buffer c) calls), w').

Definition take_reported_drops (c : client) : Z * client :=
  let current_dropped := dropped_total (c_buffer c) in
  (current_dropped - c_last_reported_dropped c,
   mkClient (c_buffer c) current_dropped (c_flush_errors c) (c_posts c)).

Definition report (total : Z) (report_drops : bool) (c : client) (w : W) : FlushReport * client * W :=
  let '(c1, w1) := host_turn c w in
  let '(n, c2) := if report_drops then take_reported_drops c1 else (0, c1) in
  let '(c3, w2) := host_turn c2 w1 in
  (mkReport total n (pending_count (c_buffer c3)), c3, w2).

(** The loop of [_do_flush], run under the flush lock.  [None]: more than [fuel] batches. *)
Fixpoint flush_loop (fuel : nat) (deadline_ms : float) (total : Z) (c : client) (w : W)
  : option (result exn (Z * client * W)) :=
  match fuel with
  | O => None
  | S fuel =>
      let '(t, w) := monotonic_ms E w in
      if negb (t <? deadline_ms)%float then Some (Ok (total, c, w)) else
      let '(c, w) := host_turn c w in
      match lease (c_buffer c) MAX_DRAIN_BATCH with
      | Err e => Some (Err e)
      | Ok (b, []) => Some (Ok (total, with_buffer c b, w))
      | Ok (b, its) =>
          let s := (dispatch E its deadline_ms
                      (fresh_settlement its w (c_flush_errors c) (c_posts c))).2 in
          let c := mkClient b (c_last_reported_dropped c) (flush_errors s) (posts s) in
          let '(c, w) := host_turn c (world s) in
          match settle (c_buffer c) its (outcomes s) (replacements s) with
          | Err e => Some (Err e)
          | Ok b =>
              let c := with_buffer c b in
              if decide (retry ∈ outcomes s) then Some (Ok (total + n_sent s, c, w))
              else flush_loop fuel deadline_ms (total + n_sent s) c w
          end
      end
  end.

Definition do_flush (fuel : nat) (timeout_s : float) (report_drops : bool) (c : client) (w : W)
  : option (result exn (FlushReport * client * W)) :=
  let '(t, w) := monotonic_ms E w in
  let deadline_ms := (t + fmax timeout_s 0 * 1000)%float in
  let '(t', w) := monotonic_ms E w in
  let remaining_s := fmax ((deadline_ms - t') / 1000) 0 in
  let '(acquired, w) := acquire E remaining_s w in
  if negb acquired then Some (Ok (report 0 report_drops c w)) else
  match flush_loop fuel deadline_ms 0 c w with
  | None => None
  | Some (Err e) => Some (Err e)
  | Some (Ok (total, c, w)) => Some (Ok (report total report_drops c w))
  end.

(** ** The transition system *)

(** The buffer and the request log, with ghost totals of the items offered to [append]
    and of those settled as sent. *)
Record sys := mkSys {
  s_buf : buffer;
  s_log : list (Post enc);
  s_appended : Z;
  s_sent : Z;
}.

Inductive step : sys → sys → Prop :=
| step_append b log a n r k body :
    step (mkSys b log a n) (mkSys (append b r k body).1 log (a + 1) n)
| step_lease b log a n b' batch :
    lease b MAX_DRAIN_BATCH = Ok (b', batch) →
    step (mkSys b log a n) (mkSys b' log a n)
| step_deliver b log a n dl w errs u s b' :
    dispatch E (leased b) dl (fresh_settlement (leased b) w errs log) = (u, s) →
    settle b (leased b) (outcomes s) (replacements s) = Ok b' →
    step (mkSys b log a n) (mkSys b' (posts s) a (n + n_sent s)).

Definition initial (cap : Z) (s : sys) : Prop :=
  ∃ b, new_buffer cap = Ok b ∧ s = mkSys b [] 0 0.

Definition reachable (cap : Z) (s : sys) : Prop := ∃ s0, initial cap s0 ∧ rtc step s0 s.

Lemma reachable_ind_inv cap (P : sys → Prop) :
  (∀ s, initial cap s → P s) → (∀ s s', P s → step s s' → P s') → ∀ s, reachable cap s → P s.
Proof.
  intros Hi Hs s (s0 & H0 & Hr). specialize (Hi s0 H0). clear H0.
  induction Hr as [|x y z Hxy Hyz IH]; [done|]. eauto.
Qed.

(** ** Accounting *)

Definition accounted (cap : Z) (s : sys) : Prop :=
  capacity (s_buf s) = cap ∧ within_capacity (s_buf s)
  ∧ s_appended s = s_sent s + dropped_total (s_buf s) + pending_count (s_buf s).

Lemma step_accounted cap s s' : accounted cap s → step s s' → accounted cap s'.
Proof.
  unfold accounted. intros (Hc & Hw & Ha) Hs.
  destruct Hs as [b log a n r k body|b log a n b' batch Hl|b log a n dl w errs u s b' Hd Hs]; simpl in *.
  - pose proof (append_spec b r k body) as (Hc' & _). pose proof (append_pending_count b r k body).
    split_and!; [congruence|by apply append_within|]. cbn zeta in *. lia.
  - pose proof (lease_pending_count _ _ _ _ Hl). apply lease_spec in Hl as (_ & _ & _ & _ & Hc' & _ & Hd).
    unfold within_capacity in *. split_and!; [congruence|congruence|]. rewrite Hd. lia.
  - apply dispatch_spec in Hd as [_ _ _ (ps & _ & _ & Hn & _)].
    pose proof (settle_pending_count _ _ _ _ Hs) as Hp.
    apply settle_Ok in Hs as (_ & _ & _ & _ & Hdr & Hc' & _).
    unfold within_capacity, sent_items in *. split_and!; [congruence| |]; rewrite ?Hc'; lia.
Qed.

(** ** Order and identity of the delivered events *)

Record ordered (s : sys) : Prop := {
  od_sorted : ∀ r, StronglySorted Z.lt (accepted_seqs r (s_log s) ++ run_seqs r (pending (s_buf s)));
  od_bound : ∀ r z, z ∈ accepted_seqs r (s_log s) ++ run_seqs r (pending (s_buf s)) →
    0 ≤ z < next_seq (s_buf s) r;
  od_numbered : ∀ it, it ∈ pending (s_buf s) → it_kind it = trace → it_seq it ≠ None;
  od_offered : ∀ ev, ev ∈ offered (s_log s) → ∃ r z e,
    ev = (uuid_str (RunId_value r), Some z, Some e) ∧ z < next_seq (s_buf s) r;
  od_stable : ∀ u z e1 e2, (u, z, e1) ∈ offered (s_log s) → (u, z, e2) ∈ offered (s_log s) → e1 = e2;
  od_pending : ∀ it e, it ∈ pending (s_buf s) → it_kind it = trace →
    (uuid_str (RunId_value (it_run_id it)), it_seq it, e) ∈ offered (s_log s) → it_encoded it = e;
  od_leased : Z.of_nat (length (leased (s_buf s))) ≤ MAX_DRAIN_BATCH;
  od_batches : Forall (λ p, Z.of_nat (length (post_events p)) ≤ MAX_DRAIN_BATCH) (s_log s);
  od_next : ∀ r, 0 ≤ next_seq (s_buf s) r;
}.

Lemma run_id_str_inj r1 r2 : uuid_str (RunId_value r1) = uuid_str (RunId_value r2) → r1 = r2.
Proof. destruct r1 as [u1], r2 as [u2]. simpl. by intros H%uuid_str_inj; subst. Qed.

(** Projections of an equality of events, leaving the printed identifier folded. *)
Lemma triple_inj {A B C} (a a' : A) (b b' : B) (c c' : C) :
  (a, b, c) = (a', b', c') → a = a' ∧ b = b' ∧ c = c'.
Proof. by intros [= -> -> ->]. Qed.

Lemma elem_of_run_seqs r (l : list item) z :
  z ∈ run_seqs r l ↔ ∃ it, it ∈ l ∧ it_run_id it = r ∧ it_kind it = trace ∧ it_seq it = Some z.
Proof.
  unfold run_seqs. rewrite list_elem_of_omap. split.
  - intros (it & Hin & H). exists it. case_decide; [tauto|done].
  - intros (it & Hin & H1 & H2 & H3). exists it. rewrite decide_True by done. done.
Qed.

(** In a buffer in order, a number identifies the position of its item. *)
Lemma run_seqs_position (l : list item) i j it1 it2 :
  (∀ r, StronglySorted Z.lt (run_seqs r l)) → l !! i = Some it1 → l !! j = Some it2 →
  it_kind it1 = trace → it_kind it2 = trace → it_run_id it1 = it_run_id it2 →
  it_seq it1 = it_seq it2 → it_seq it1 ≠ None → i = j.
Proof.
  intros Hs Hi Hj Hk1 Hk2 Hr Hq Hne.
  assert (Hlt : ∀ i j it1 it2, l !! i = Some it1 → l !! j = Some it2 → it_kind it1 = trace →
    it_kind it2 = trace → it_run_id it1 = it_run_id it2 → it_seq it1 = it_seq it2 →
    it_seq it1 ≠ None → ¬ (i < j)%nat).
  { clear -Hs. intros i j it1 it2 Hi Hj Hk1 Hk2 Hr Hq Hne Hij.
    destruct (it_seq it1) as [z|] eqn:Hz; [|done]. specialize (Hs (it_run_id it1)).
    rewrite <-(take_drop (S i) l), run_seqs_app in Hs.
    assert (z < z); [|lia]. eapply StronglySorted_app_1_elem_of; [exact Hs|..]; apply elem_of_run_seqs.
    - exists it1. split; [|done]. apply list_elem_of_lookup. exists i. rewrite lookup_take_lt by lia. done.
    - exists it2. split; [|done]. apply list_elem_of_lookup. exists (j - S i)%nat.
      rewrite lookup_drop. rewrite <-Hj. f_equal. lia. }
  destruct (Nat.lt_trichotomy i j) as [Hij|[?|Hij]]; [|done|]; exfalso; revert Hij.
  - by apply (Hlt i j it1 it2).
  - apply (Hlt j i it2 it1); congruence.
Qed.

Lemma append_ordered b log a n r k body : ordered (mkSys b log a n) →
  ordered (mkSys (append b r k body).1 log (a + 1) n).
Proof.
  intros [O1 O2 O3 O4 O5 O6 O7 O8 O9]. simpl in *.
  pose proof (append_pending b r k body) as Hsub.
  destruct (append_spec b r k body) as (_ & Hl & _).
  assert (Hnext : ∀ r', next_seq b r' ≤ next_seq (append b r k body).1 r')
    by (intros r'; rewrite append_next_seq; case_decide; lia).
  assert (Hel : ∀ it, it ∈ pending (append b r k body).1 → it ∈ pending b ∨ it = appended_item b r k body).
  { intros it Hit. apply elem_of_snoc. by eapply elem_of_sublist. }
  assert (Hnew : ∀ r' z, z ∈ run_seqs r' [appended_item b r k body] →
                   r = r' ∧ k = trace ∧ z = next_seq b r).
  { intros r' z (it & ->%list_elem_of_singleton & <- & Hk & Hz)%elem_of_run_seqs.
    unfold appended_item in *. simpl in *. subst k. by injection Hz. }
  assert (Hseqs : ∀ r', accepted_seqs r' log ++ run_seqs r' (pending (append b r k body).1)
    `sublist_of` (accepted_seqs r' log ++ run_seqs r' (pending b)) ++ run_seqs r' [appended_item b r k body]).
  { intros r'. rewrite <-app_assoc, <-run_seqs_app. apply sublist_app; [done|]. by apply run_seqs_sublist. }
  constructor; simpl.
  - intros r'. eapply StronglySorted_sublist; [apply Hseqs|]. apply StronglySorted_app_2; [|apply O1|].
    + intros x y Hx Hy%Hnew. apply O2 in Hx. destruct Hy as (-> & _ & ->). lia.
    + unfold run_seqs. simpl. destruct (if decide _ then _ else _); repeat constructor.
  - intros r' z Hz. eapply elem_of_sublist in Hz; [|apply Hseqs].
    apply elem_of_app in Hz as [Hz|Hz].
    + apply O2 in Hz. specialize (Hnext r'). lia.
    + apply Hnew in Hz as (-> & -> & ->). rewrite append_next_seq, decide_True by done.
      specialize (O9 r'). lia.
  - intros it [Hit| ->]%Hel; [by apply O3|]. simpl. by intros ->.
  - intros ev (r' & z & e & -> & Hz)%O4. exists r', z, e. split; [done|]. specialize (Hnext r'). lia.
  - done.
  - intros it e [Hit| ->]%Hel; [by apply O6|]. simpl. intros -> Hoff.
    apply O4 in Hoff as (r' & z & e' & (Hu & Hz & _)%triple_inj & Hlt).
    apply run_id_str_inj in Hu as <-. injection Hz as <-. lia.
  - by rewrite Hl.
  - done.
  - intros r'. specialize (Hnext r'). specialize (O9 r'). lia.
Qed.

Lemma lease_ordered b log a n b' batch : ordered (mkSys b log a n) →
  lease b MAX_DRAIN_BATCH = Ok (b', batch) → ordered (mkSys b' log a n).
Proof.
  intros [O1 O2 O3 O4 O5 O6 O7 O8 O9] (_ & Hl & Hp & Hlen & _ & Hs & _)%lease_spec. simpl in *.
  assert (Hn : ∀ r, next_seq b' r = next_seq b r) by (intros r; unfold next_seq; by rewrite Hs).
  constructor; simpl; rewrite ?Hp, ?Hl; try setoid_rewrite Hn; try done.
Qed.

(** *** One delivery *)

Definition item_view (it : item) : RunId * ItemKind * option Z := (it_run_id it, it_kind it, it_seq it).

Lemma run_seqs_view r (l1 l2 : list item) : item_view <$> l1 = item_view <$> l2 → run_seqs r l1 = run_seqs r l2.
Proof.
  revert l2. induction l1 as [|x l1 IH]; intros [|y l2]; try done. rewrite !fmap_cons.
  intros [Hv Hl]%(inj2 cons). apply triple_inj in Hv as (Hr & Hk & Hs).
  specialize (IH _ Hl). unfold run_seqs in *. simpl. rewrite Hr, Hk, Hs.
  destruct (if decide _ then _ else _); [f_equal|]; exact IH.
Qed.

Lemma with_outcome_sublist o (L : list item) os : with_outcome o (zip L os) `sublist_of` L.
Proof.
  revert os. induction L as [|it L IH]; intros [|x os]; try apply sublist_nil_l.
  unfold with_outcome in *. simpl. case_bool_decide; simpl; by constructor.
Qed.

(** What was sent precedes what is kept: no acknowledged item overtakes a retried one. *)
Lemma sent_before_retries (L : list item) d rest : Forall settled d → Forall not_sent rest →
  sent_items L (d ++ rest) ++ with_outcome retry (zip L (d ++ rest)) `sublist_of` L.
Proof.
  intros Hd Hr. revert L. induction Hd as [|o d Ho Hd IH]; intros L.
  - simpl. rewrite sent_items_not_sent by done. apply with_outcome_sublist.
  - destruct L as [|it L]; [done|]. specialize (IH L). unfold sent_items, with_outcome in *.
    destruct o; simpl; [by constructor|by constructor|done].
Qed.

(** Where an event offered by a batch comes from. *)
Definition offered_from (L : list item) (repl : list (nat * item)) (ev : pystr * option Z * option enc) : Prop :=
  ∃ i it f, L !! i = Some it ∧ dict_get repl i = Some f ∧ frozen_of it f ∧ it_kind it = trace
  ∧ ev = (uuid_str (RunId_value (it_run_id it)), it_seq it, it_encoded f).

Lemma dispatched_offered L log (s : io W obj enc) ps ev :
  dispatched L log s →
  (∀ ev, ev ∈ offered ps → ∃ i f, dict_get (replacements s) i = Some f ∧ it_kind f = trace ∧ ev = event_of f) →
  ev ∈ offered ps → offered_from L (replacements s) ev.
Proof.
  intros [_ _ Hrep _] Hps (i & f & Hf & Hk & ->)%Hps. destruct (Hrep i f Hf) as (it & Hit & Hfr).
  exists i, it, f. pose proof Hfr as (H1 & H2 & H3 & _). split_and!; try done; [congruence|].
  unfold event_of. by rewrite H1, H3.
Qed.

(** The item the buffer keeps after a settlement is the one taken, possibly frozen. *)
Lemma kept_item (L : list item) log (s : io W obj enc) x : dispatched L log s →
  x ∈ (settle_loop 0 (zip L (outcomes s)) (replacements s)).2 →
  ∃ j it, L !! j = Some it ∧ item_view x = item_view it
  ∧ (it_encoded it ≠ None → x = it) ∧ (∀ f, dict_get (replacements s) j = Some f → x = f).
Proof.
  intros [_ _ Hrep _] (j & it & Hj & ->)%settle_loop_elem. simpl. exists j, it.
  apply lookup_zip_Some in Hj as [Hj _]. destruct (dict_get _ j) as [f|] eqn:Hf; simpl.
  - destruct (Hrep j f Hf) as (it' & Hj' & (H1 & H2 & H3 & _ & _ & H6)).
    assert (it' = it) as -> by congruence. unfold item_view. split_and!; [done|congruence|done|].
    by intros f' [= ->].
  - done.
Qed.

Section Deliver.
Variables (b : buffer) (log : list (Post enc)) (a n n' : Z) (s : io W obj enc) (b' : buffer).
Hypothesis Hord : ordered (mkSys b log a n).
Hypothesis Hdisp : dispatched (leased b) log s.
Hypothesis Hset : settle b (leased b) (outcomes s) (replacements s) = Ok b'.

Lemma pend_sorted r : StronglySorted Z.lt (run_seqs r (pending b)).
Proof. eapply StronglySorted_app_1_r, (od_sorted _ Hord). Qed.

(** The same number in the batch and elsewhere in the buffer is the same position. *)
Lemma leased_position i j it x : leased b !! i = Some it → pending b !! j = Some x →
  it_kind it = trace → it_kind x = trace → it_run_id it = it_run_id x → it_seq it = it_seq x → i = j.
Proof.
  intros Hi Hj Hk Hkx Hr Hq. apply (run_seqs_position (pending b) i j it x); try done.
  - apply pend_sorted.
  - unfold pending. by rewrite lookup_app_l by (by eapply lookup_lt_Some).
  - apply (od_numbered _ Hord); [|done]. simpl. unfold pending. apply elem_of_app. left.
    apply list_elem_of_lookup. eauto.
Qed.

Lemma leased_pending i it : leased b !! i = Some it → it ∈ pending b.
Proof. intros Hi. apply elem_of_app. left. apply list_elem_of_lookup. eauto. Qed.

Lemma deliver_next r : next_seq b' r = next_seq b r.
Proof. unfold next_seq. by apply settle_Ok in Hset as (_ & _ & _ & _ & _ & _ & ->). Qed.

Lemma deliver_pending :
  pending b' = (settle_loop 0 (zip (leased b) (outcomes s)) (replacements s)).2 ++ items b.
Proof. unfold pending. by apply settle_Ok in Hset as (_ & _ & -> & -> & _). Qed.

Lemma deliver_kept x : x ∈ pending b' →
  ∃ j it, pending b !! j = Some it ∧ item_view x = item_view it ∧ (it_encoded it ≠ None → x = it)
  ∧ ∀ f, (j < length (leased b))%nat → dict_get (replacements s) j = Some f → x = f.
Proof.
  rewrite deliver_pending. intros [Hx|Hx]%elem_of_app.
  - destruct (kept_item _ _ _ _ Hdisp Hx) as (j & it & Hj & H1 & H2 & H3). exists j, it.
    split_and!; auto. unfold pending. by rewrite lookup_app_l by (by eapply lookup_lt_Some).
  - apply list_elem_of_lookup in Hx as [k Hk]. exists (length (leased b) + k)%nat, x.
    split_and!; [|done|done|intros; lia].
    unfold pending. by rewrite lookup_app_r, Nat.add_sub' by lia.
Qed.

(** New requests agree with the kept items and with every earlier request. *)
Lemma new_offer_pending x ev : x ∈ pending b' → it_kind x = trace →
  offered_from (leased b) (replacements s) ev →
  ev.1 = (uuid_str (RunId_value (it_run_id x)), it_seq x) → it_encoded x = ev.2.
Proof.
  intros (j & it & Hj & (Hv1 & Hv2 & Hv3)%triple_inj & _ & Hrep)%deliver_kept Hk
    (i & it0 & f & Hi & Hf & Hfr & Hk0 & ->) [Hu Hq]%pair_equal_spec. simpl in Hu, Hq |- *.
  apply run_id_str_inj in Hu.
  assert (i = j) as -> by (eapply leased_position; eauto; congruence).
  rewrite (Hrep f); [done| |done]. by eapply lookup_lt_Some.
Qed.

Lemma old_offer_new ev e : offered_from (leased b) (replacements s) ev →
  (ev.1, e) ∈ offered log → ev.2 = e.
Proof.
  intros (i & it & f & Hi & Hf & Hfr & Hk & ->) Hoff. simpl in *.
  pose proof (od_offered _ Hord _ Hoff) as (r & z & e' & (_ & _ & ->)%triple_inj & _).
  assert (He : it_encoded it = Some e')
    by (apply (od_pending _ Hord); [by eapply leased_pending|done|done]).
  destruct Hfr as (_ & _ & _ & _ & _ & Hsame). rewrite Hsame by (by rewrite He). done.
Qed.

Lemma new_offers_agree ev1 ev2 : offered_from (leased b) (replacements s) ev1 →
  offered_from (leased b) (replacements s) ev2 → ev1.1 = ev2.1 → ev1.2 = ev2.2.
Proof.
  intros (i & it & f & Hi & Hf & Hfr & Hk & ->) (j & it' & f' & Hj & Hf' & Hfr' & Hk' & ->).
  simpl. intros [Hu Hq]%pair_equal_spec. apply run_id_str_inj in Hu.
  assert (i = j) as ->; [|congruence]. eapply leased_position; eauto.
  unfold pending. by rewrite lookup_app_l by (by eapply lookup_lt_Some).
Qed.

Lemma deliver_seqs r : ∃ ps, posts s = log ++ ps
  ∧ accepted_seqs r (posts s) ++ run_seqs r (pending b')
    `sublist_of` accepted_seqs r log ++ run_seqs r (pending b).
Proof.
  destruct Hdisp as [Hlen (d & rest & Hos & Hd & Hr) Hrep (ps & Hp & Hacc & _)]. exists ps.
  split; [done|]. rewrite Hp, accepted_seqs_app, Hacc, deliver_pending, <-app_assoc.
  apply sublist_app; [done|]. unfold pending. rewrite !run_seqs_app, app_assoc.
  apply sublist_app; [|done]. rewrite <-run_seqs_app.
  rewrite (run_seqs_view r _ (sent_items (leased b) (outcomes s)
             ++ with_outcome retry (zip (leased b) (outcomes s)))).
  - apply run_seqs_sublist. rewrite Hos. by apply sent_before_retries.
  - rewrite !fmap_app. f_equal. apply settle_loop_fmap. intros j it o x Hj Hx.
    apply lookup_zip_Some in Hj as [Hj _]. destruct (Hrep _ _ Hx) as (it' & Hj' & (H1 & H2 & H3 & _)).
    simpl in Hj'. unfold item_view. congruence.
Qed.

Lemma deliver_ordered : ordered (mkSys b' (posts s) a n').
Proof.
  destruct Hdisp as [Hlen _ _ (ps & Hp & _ & _ & Hev & Hbatch)].
  assert (Hoff : ∀ ev, ev ∈ offered (posts s) → ev ∈ offered log ∨ offered_from (leased b) (replacements s) ev).
  { intros ev. rewrite Hp, offered_app, elem_of_app. intros [?|?]; [by left|right].
    by eapply dispatched_offered. }
  assert (Hsub : ∀ r, accepted_seqs r (posts s) ++ run_seqs r (pending b')
    `sublist_of` accepted_seqs r log ++ run_seqs r (pending b)) by (intros r; by destruct (deliver_seqs r) as (? & _ & ?)).
  constructor; simpl.
  - intros r. eapply StronglySorted_sublist; [apply Hsub|apply (od_sorted _ Hord)].
  - intros r z Hz. rewrite deliver_next. apply (od_bound _ Hord). by eapply elem_of_sublist.
  - intros x (j & it & Hj & (_ & Hv2 & Hv3)%triple_inj & _)%deliver_kept Hk. rewrite Hv3.
    apply (od_numbered _ Hord); [|congruence]. apply list_elem_of_lookup. eauto.
  - intros ev [Hev'|(i & it & f & Hi & Hf & (_ & _ & _ & _ & He & _) & Hk & ->)]%Hoff.
    + destruct (od_offered _ Hord _ Hev') as (r & z & e & Hz). exists r, z, e. by rewrite deliver_next.
    + pose proof (leased_pending _ _ Hi) as Hin. pose proof (od_numbered _ Hord _ Hin Hk) as Hq.
      destruct (it_seq it) as [z|] eqn:Hz; [|done]. destruct (it_encoded f) as [e|]; [|done].
      exists (it_run_id it), z, e. split; [done|]. rewrite deliver_next. simpl.
      apply (od_bound _ Hord). apply elem_of_app. right. apply elem_of_run_seqs. eauto.
  - intros u z e1 e2 [H1|H1]%Hoff [H2|H2]%Hoff.
    + by eapply (od_stable _ Hord).
    + symmetry. by apply (old_offer_new (u, z, e2)).
    + by apply (old_offer_new (u, z, e1)).
    + by apply (new_offers_agree (u, z, e1) (u, z, e2)).
  - intros x e Hx Hk [Ho|Ho]%Hoff; [|by apply (new_offer_pending x _ Hx Hk Ho)].
    destruct (deliver_kept x Hx) as (j & it & Hj & (Hv1 & Hv2 & Hv3)%triple_inj & Hsame & _).
    assert (He : it_encoded it = e).
    { apply (od_pending _ Hord); [|congruence|].
      - apply list_elem_of_lookup. eauto.
      - simpl. by rewrite <-Hv1, <-Hv3. }
    destruct (od_offered _ Hord _ Ho) as (r & z & e' & (_ & _ & ->)%triple_inj & _).
    rewrite Hsame; [done|]. by rewrite He.
  - by apply settle_Ok in Hset as (_ & _ & -> & _).
  - rewrite Hp. apply Forall_app. split; [apply (od_batches _ Hord)|].
    eapply Forall_impl; [exact Hbatch|]. pose proof (od_leased _ Hord). simpl in *. intros p ?. lia.
  - intros r. rewrite deliver_next. apply (od_next _ Hord).
Qed.
End Deliver.

Lemma step_ordered s s' : ordered s → step s s' → ordered s'.
Proof.
  intros Ho Hs. destruct Hs as [b log a n r k body|b log a n b' batch Hl|b log a n dl w errs u s b' Hd Hs].
  - by apply append_ordered.
  - by eapply lease_ordered.
  - apply dispatch_spec in Hd. by eapply deliver_ordered.
Qed.

(** ** Every flush is a sequence of steps *)

Lemma appends_steps b log a n calls :
  rtc step (mkSys b log a n) (mkSys (appends b calls) log (a + Z.of_nat (length calls)) n)
  ∧ leased (appends b calls) = leased b ∧ dropped_total b ≤ dropped_total (appends b calls).
Proof.
  revert b a. induction calls as [|[[r k] body] calls IH]; intros b a; simpl.
  - rewrite Z.add_0_r. split_and!; [done|done|lia].
  - destruct (append_spec b r k body) as (_ & Hl & _ & Hd & _).
    destruct (IH (append b r k body).1 (a + 1)) as (IH1 & IH2 & IH3). split_and!.
    + eapply rtc_l; [apply (step_append b log a n r k body)|].
      replace (a + Z.of_nat (S (length calls))) with (a + 1 + Z.of_nat (length calls)) by lia. exact IH1.
    + by rewrite IH2.
    + rewrite Hd in IH3. destruct (_ <=? _); lia.
Qed.

Lemma host_turn_steps c w c' w' a n : host_turn c w = (c', w') →
  (∃ a', rtc step (mkSys (c_buffer c) (c_posts c) a n) (mkSys (c_buffer c') (c_posts c') a' n))
  ∧ leased (c_buffer c') = leased (c_buffer c)
  ∧ dropped_total (c_buffer c) ≤ dropped_total (c_buffer c')
  ∧ c_last_reported_dropped c' = c_last_reported_dropped c ∧ c_posts c' = c_posts c.
Proof.
  unfold host_turn. destruct (host E w) as [calls w1]. intros [= <- <-]. simpl.
  destruct (appends_steps (c_buffer c) (c_posts c) a n calls) as (H1 & H2 & H3).
  split_and!; eauto.
Qed.

(** One batch: host calls, the lease, more host calls while it is out, the settlement. *)
Lemma batch_steps c w c1 w1 b L dl u s c2 w2 b' last a n :
  host_turn c w = (c1, w1) → lease (c_buffer c1) MAX_DRAIN_BATCH = Ok (b, L) →
  dispatch E L dl (fresh_settlement L w1 (c_flush_errors c1) (c_posts c1)) = (u, s) →
  host_turn (mkClient b last (flush_errors s) (posts s)) (world s) = (c2, w2) →
  settle (c_buffer c2) L (outcomes s) (replacements s) = Ok b' →
  ∃ a', rtc step (mkSys (c_buffer c) (c_posts c) a n) (mkSys b' (c_posts c2) a' (n + n_sent s)).
Proof.
  intros Hh1 Hlease Hdisp Hh2 Hset.
  destruct (host_turn_steps _ _ _ _ a n Hh1) as ((a1 & Ha1) & _).
  pose proof (lease_spec _ _ _ _ Hlease) as (_ & Hb1 & _).
  unfold host_turn in Hh2. destruct (host E (world s)) as [calls w4]. injection Hh2 as <- <-.
  destruct (appends_steps b (c_posts c1) a1 n calls) as (Hmid & Hlm & _). simpl in *.
  exists (a1 + Z.of_nat (length calls)).
  etransitivity; [exact Ha1|]. eapply rtc_l; [eapply step_lease; exact Hlease|].
  eapply rtc_r; [exact Hmid|]. rewrite Hb1 in Hlm. rewrite <-Hlm in Hdisp, Hset.
  eapply step_deliver; [exact Hdisp|exact Hset].
Qed.

(** [_report] after a run of the loop. *)
Lemma report_steps total report_drops c c1 w1 : leased (c_buffer c1) = [] →
  c_last_reported_dropped c1 = c_last_reported_dropped c →
  c_last_reported_dropped c ≤ dropped_total (c_buffer c) →
  dropped_total (c_buffer c) ≤ dropped_total (c_buffer c1) →
  (∀ a n, ∃ a', rtc step (mkSys (c_buffer c) (c_posts c) a n)
                         (mkSys (c_buffer c1) (c_posts c1) a' (n + total))) →
  ∃ rep c' w', report total report_drops c1 w1 = (rep, c', w') ∧ leased (c_buffer c') = []
  ∧ rep_pending rep = pending_count (c_buffer c')
  ∧ rep_dropped rep = c_last_reported_dropped c' - c_last_reported_dropped c
  ∧ (if report_drops then dropped_total (c_buffer c) else c_last_reported_dropped c)
    ≤ c_last_reported_dropped c' ≤ dropped_total (c_buffer c')
  ∧ ∀ a n, ∃ a', rtc step (mkSys (c_buffer c) (c_posts c) a n)
                          (mkSys (c_buffer c') (c_posts c') a' (n + rep_sent rep)).
Proof.
  intros Hl1 Hr1 Hlast Hd1 Hs1. unfold report, take_reported_drops.
  destruct (host_turn c1 w1) as [c2 w2] eqn:Hh2.
  pose proof (λ a n, host_turn_steps _ _ _ _ a n Hh2) as Hs2. destruct (Hs2 0 0) as (_ & Hl2 & Hd2 & Hr2 & _).
  set (x := if report_drops then _ else _).
  assert (Hx : c_buffer x.2 = c_buffer c2 ∧ c_posts x.2 = c_posts c2
    ∧ x.1 = c_last_reported_dropped x.2 - c_last_reported_dropped c
    ∧ (if report_drops then dropped_total (c_buffer c) else c_last_reported_dropped c)
      ≤ c_last_reported_dropped x.2 ≤ dropped_total (c_buffer c2)).
  { subst x. destruct report_drops; simpl; rewrite Hr2, Hr1; split_and!; (done || lia). }
  destruct x as [n3 c3]. simpl in Hx. destruct Hx as (Hx1 & Hx2 & Hx3 & Hx4).
  destruct (host_turn c3 w2) as [c4 w4] eqn:Hh4.
  pose proof (λ a n, host_turn_steps _ _ _ _ a n Hh4) as Hs4. destruct (Hs4 0 0) as (_ & Hl4 & Hd4 & Hr4 & _).
  eexists _, c4, w4. split; [done|]. simpl. rewrite Hr4, Hl4, Hx1, Hl2, Hx3. rewrite Hx1 in Hd4.
  split_and!; try done; try lia.
  intros a n. destruct (Hs1 a n) as (a1 & Ha1). destruct (Hs2 a1 (n + total)) as ((a2 & Ha2) & _).
  destruct (Hs4 a2 (n + total)) as ((a3 & Ha3) & _). rewrite Hx1, Hx2 in Ha3.
  exists a3. etransitivity; [exact Ha1|]. by etransitivity.
Qed.

(** What one run of the loop does, from a buffer with no batch out. *)
Lemma flush_loop_steps fuel dl total c w r : leased (c_buffer c) = [] →
  flush_loop fuel dl total c w = Some r →
  ∃ total' c' w', r = Ok (total', c', w') ∧ leased (c_buffer c') = []
  ∧ c_last_reported_dropped c' = c_last_reported_dropped c
  ∧ dropped_total (c_buffer c) ≤ dropped_total (c_buffer c')
  ∧ ∀ a n, ∃ a', rtc step (mkSys (c_buffer c) (c_posts c) a n)
                          (mkSys (c_buffer c') (c_posts c') a' (n + (total' - total))).
Proof.
  revert total c w r. induction fuel as [|fuel IH]; intros total c w r Hl; [done|].
  cbn [flush_loop]. destruct (monotonic_ms E w) as [t w1].
  destruct (negb _).
  { intros [= <-]. exists total, c, w1. split_and!; try done. intros a n. exists a.
    rewrite Z.sub_diag, Z.add_0_r. done. }
  destruct (host_turn c w1) as [c1 w2] eqn:Hh1.
  pose proof (λ a n, host_turn_steps _ _ _ _ a n Hh1) as Hs1.
  destruct (Hs1 0 0) as (_ & Hl1 & Hd1 & Hr1 & Hp1).
  destruct (lease (c_buffer c1) MAX_DRAIN_BATCH) as [[b its]|e] eqn:Hlease.
  2: { unfold lease in Hlease. by rewrite Hl1, Hl in Hlease. }
  pose proof (lease_spec _ _ _ _ Hlease) as (_ & Hb1 & _ & _ & _ & _ & Hb6).
  destruct its as [|it its].
  { intros [= <-]. exists total, (with_buffer c1 b), w2. split_and!; try done; simpl; [lia|].
    intros a n. destruct (Hs1 a n) as ((a1 & Ha1) & _). exists a1. rewrite Z.sub_diag, Z.add_0_r.
    eapply rtc_r; [exact Ha1|]. eapply step_lease; exact Hlease. }
  set (L := it :: its) in *. clearbody L.
  destruct (dispatch E L dl _) as [u s] eqn:Hdisp. cbn [snd].
  destruct (host_turn _ (world s)) as [c2 w3] eqn:Hh2.
  pose proof (λ a n, host_turn_steps _ _ _ _ a n Hh2) as Hs2. cbn [c_buffer c_posts c_last_reported_dropped] in Hs2.
  destruct (Hs2 0 0) as (_ & Hl2 & Hd2 & Hr2 & Hp2). rewrite Hb1 in Hl2.
  pose proof (dispatch_spec _ _ _ _ _ _ _ _ Hdisp) as Hdp.
  destruct (settle (c_buffer c2) L _ _) as [b'|e] eqn:Hset.
  2: { pose proof (settle_total (c_buffer c2) (outcomes s) (replacements s)) as Ht.
       rewrite Hl2, Hset in Ht. specialize (Ht (dp_len _ _ _ Hdp)). done. }
  pose proof (settle_Ok _ _ _ _ _ Hset) as (_ & _ & Hb1' & _ & Hb5' & _).
  pose proof (λ a n, batch_steps _ _ _ _ _ _ _ _ _ _ _ _ _ a n Hh1 Hlease Hdisp Hh2 Hset) as Hsteps.
  case_decide.
  - intros [= <-]. exists (total + n_sent s), (with_buffer c2 b'), w3. simpl. split_and!; try done; try lia.
    intros a n. destruct (Hsteps a n) as (a' & Ha'). exists a'.
    by replace (total + n_sent s - total) with (n_sent s) by lia.
  - intros Hrec. apply IH in Hrec as (total' & c' & w' & -> & H1 & H2 & H3 & H4); [|done].
    exists total', c', w'. simpl in *. split_and!; try done; try lia.
    intros a n. destruct (Hsteps a n) as (a1 & Ha1). destruct (H4 a1 (n + n_sent s)) as (a' & Ha').
    exists a'. etransitivity; [exact Ha1|].
    by replace (n + (total' - total)) with (n + n_sent s + (total' - (total + n_sent s))) by lia.
Qed.

(** ** Termination and delivery on a healthy connection *)

(** Nothing expires, every item can be encoded and the server acknowledges. *)
Record healthy (dl : float) : Prop := {
  h_clock : ∀ w, let t := (monotonic_ms E w).1 in
    (t <? dl)%float = true ∧ (dl <=? t)%float = false ∧ ((dl - t) / 1000 <=? 0)%float = false;
  h_token : ∀ p w, token_provider E = Some p → (p w).1 ≠ None;
  h_http : ∀ path body hs t w, classify (http_post E path body hs t w).1 = sent;
  h_dump : ∀ m w, is_model E m = true → (model_dump E m w).1 ≠ None;
}.

(** The key [_dispatch] freezes an item under. *)
Definition freeze_key (it : item) : pystr :=
  match it_kind it with trace => of_ascii "event" | k => item_key k end.

(** The item already has its encoding, or its body holds a model under its key. *)
Definition encodable (it : item) : Prop :=
  it_encoded it ≠ None ∨ ∃ m, dict_get (it_body it) (freeze_key it) = Some m ∧ is_model E m = true.

Section Healthy.
Variable dl : float.
Hypothesis Hok : healthy dl.
Abbreviation IO := (io W obj enc).

Lemma healthy_now (s : IO) : ∃ t s', now E s = (t, s') ∧ same_ledger s s'
  ∧ (t <? dl)%float = true ∧ (dl <=? t)%float = false ∧ ((dl - t) / 1000 <=? 0)%float = false.
Proof.
  pose proof (h_clock _ Hok (world s)) as Ht. destruct (now E s) as [t s'] eqn:Hn.
  exists t, s'. split_and!; [done|by eapply now_ledger|..]; unfold now, lift in Hn;
    destruct (monotonic_ms E (world s)) as [t' w']; injection Hn as <- <-; apply Ht.
Qed.

Lemma healthy_freeze (s : IO) it : encodable it → ∃ f s',
  freeze E it (freeze_key it) s = (Some f, s') ∧ same_ledger s s'.
Proof.
  intros He. destruct (freeze E it (freeze_key it) s) as [x s'] eqn:Hf.
  pose proof (freeze_spec _ _ _ _ _ _ Hf) as (Hl & _ & Hsame).
  destruct He as [He|(m & Hm & Hi)]; [by exists it, s'; rewrite <-Hsame|].
  unfold freeze in Hf. rewrite Hm, Hi in Hf. destruct (it_encoded it) as [e|].
  { injection Hf as <- <-. by exists it, s. }
  unfold mbind, M_bind, lift in Hf. pose proof (h_dump _ Hok m (world s) Hi) as Hd.
  destruct (model_dump E m (world s)) as [[e|] w'] eqn:Hw; simpl in Hd; [|done].
  cbn beta iota in Hf. injection Hf as <- <-. by eexists _, _.
Qed.

Lemma healthy_post (s : IO) path body : ∃ s', post E path body dl s = (sent, s').
Proof.
  unfold post, mbind, M_bind. destruct (healthy_now s) as (t & s1 & -> & _ & _ & -> & _).
  assert (∃ hs s2, auth_headers E true s1 = (Some hs, s2)) as (hs & s2 & ->).
  { unfold auth_headers. destruct (token_provider E) as [p|] eqn:Hp; [|by eexists _, _].
    pose proof (h_token _ Hok p (world s1) Hp) as Ht. unfold mbind, M_bind, lift.
    destruct (p (world s1)) as [[tok|] w']; [by eexists _, _|done]. }
  destruct (healthy_now s2) as (t' & s3 & -> & _ & _ & _ & Hrem). rewrite Hrem. unfold lift.
  pose proof (h_http _ Hok path body hs ((dl - t') / 1000)%float (world s3)) as Hh.
  destruct (http_post E path body hs _ (world s3)) as [resp w']. simpl in Hh. rewrite Hh.
  unfold log_post. rewrite decide_True by done. by eexists.
Qed.

Lemma healthy_group its m i (s : IO) :
  Forall encodable its → Forall (λ it, it_kind it = trace) (take m (drop i its)) →
  (i + m ≤ length its)%nat →
  ∃ ts s', freeze_group E its dl (seq i m) s = (Some ts, s') ∧ outcomes s' = outcomes s ∧ length ts = m.
Proof.
  intros He. revert i s. induction m as [|m IH]; intros i s Hk Hn; [by eexists _, _|].
  destruct (lookup_lt_is_Some_2 its i) as [it Hit]; [lia|].
  rewrite (drop_S _ _ _ Hit) in Hk. apply Forall_cons in Hk as [Hki Hk].
  cbn [seq freeze_group]. unfold mbind, M_bind. destruct (healthy_now s) as (t & s1 & -> & (L1 & _) & _ & -> & _).
  rewrite Hit. pose proof (Forall_lookup_1 _ _ _ _ He Hit) as Hei.
  destruct (healthy_freeze s1 it Hei) as (f & s2 & Hf & (L2 & _)). unfold freeze_key in Hf.
  rewrite Hki in Hf. rewrite Hf. unfold set_replacement.
  destruct (IH (S i) (mkIO (world s2) (outcomes s2) (dict_set (replacements s2) i f) (n_sent s2)
                       (flush_errors s2) (posts s2)) Hk) as (ts & s3 & Hg & Ho & Hl); [lia|].
  rewrite Hg. eexists _, _. split; [done|]. simpl in *. split; congruence.
Qed.

Lemma group_rel_full i gs g (ts : list (nat * item)) :
  group_rel i gs g ts → length ts = length g → g = replicate (length g) retry.
Proof.
  induction 1 as [i|i it gs os ts Hg IH|i it f gs os ts Hf Hg IH]; simpl; intros Hl; [done| |].
  - exfalso. clear IH. assert (length ts ≤ length os)%nat; [|lia].
    clear -Hg. induction Hg; simpl; lia.
  - f_equal. apply IH. lia.
Qed.

(** One iteration on a group of traces reaches the end of the group. *)
Lemma healthy_iter_group its log0 index (s : IO) it u s' (K : M unit) :
  let len := trace_prefix (drop index its) in
  Forall encodable its → loop_inv its log0 index s (replicate index sent) →
  its !! index = Some it → it_kind it = trace →
  (group ← freeze_group E its dl (seq index len);
   match group with
   | None => mret tt
   | Some [] => K
   | Some traces =>
       result ← post E (of_ascii "/v1/trace/batch") (TraceBatch (event_of <$> traces.*2)) dl;
       match result with
       | retry => mret tt
       | _ => _ ← set_outcomes traces.*1 result;
              _ ← add_sent (if decide (result = sent) then Z.of_nat (length traces) else 0); K
       end
   end) s = (u, s') →
  ∃ s1, loop_inv its log0 (index + len) s1 (replicate (index + len) sent) ∧ K s1 = (u, s').
Proof.
  intros len He Hinv Hit Hk. unfold mbind, M_bind. destruct (trace_prefix_spec (drop index its)) as [Hpl Hpk].
  fold len in Hpl, Hpk. rewrite length_drop in Hpl. pose proof (lookup_lt_Some _ _ _ Hit).
  assert (1 ≤ len)%nat by (unfold len; rewrite (drop_S _ _ _ Hit); by apply trace_prefix_pos).
  destruct (healthy_group its len index s He Hpk) as (ts & s1 & Hfg & _ & Hts); [lia|].
  rewrite Hfg. pose proof Hinv as [Ho Hl Hb _ Hr _]. rewrite <-Hl in Hfg.
  apply (freeze_group_spec _ _ _ _ _ (length its - index)) in Hfg as [g Hg]; [|lia|lia|by rewrite Ho|].
  2: { intros i Hi. destruct (dict_get _ i) eqn:Hd; [|done]. apply Hr in Hd. lia. }
  pose proof (gp_some _ _ _ _ _ _ _ _ Hg _ eq_refl) as (Hlen & Hrel & Hin).
  pose proof (gp_outcomes _ _ _ _ _ _ _ _ Hg) as Hout.
  assert (Hgr : resolve sent <$> g = replicate len sent).
  { rewrite (group_rel_full _ _ _ _ Hrel) by lia. rewrite fmap_replicate, Hlen. done. }
  destruct ts as [|t ts]; [simpl in Hts; lia|].
  destruct (healthy_post s1 (of_ascii "/v1/trace/batch") (TraceBatch (event_of <$> (t :: ts).*2))) as (s2 & Hp).
  rewrite Hp. apply post_spec in Hp as (P1 & P2 & P3 & P4).
  destruct P4 as [[_ ?]|P4]; [done|].
  erewrite set_outcomes_spec; [|exact Hrel|by rewrite P1]. unfold add_sent. cbn beta iota.
  intros HK. eexists. split; [|exact HK]. rewrite replicate_add, <-Hgr.
  eapply (loop_group _ _ _ _ _ _ _ _ _ sent _ (of_ascii "/v1/trace/batch") Hinv Hg);
    [done|done|exact P2|exact P4|by right|cbn [n_sent]; by rewrite P3].
Qed.

(** One iteration on any other item reaches the next one. *)
Lemma healthy_iter_single its log0 index (s : IO) it u s' (K : M unit) :
  Forall encodable its → loop_inv its log0 index s (replicate index sent) →
  its !! index = Some it → it_kind it ≠ trace →
  (frozen ← freeze E it (item_key (it_kind it));
   match frozen with
   | None => _ ← set_outcome index dropped; K
   | Some f =>
       _ ← set_replacement index f;
       result ← post E (item_path (it_kind it))
         (Single (uuid_str (RunId_value (it_run_id it))) (item_key (it_kind it)) (it_encoded f)) dl;
       match result with
       | retry => mret tt
       | _ => _ ← set_outcome index result;
              _ ← add_sent (if decide (result = sent) then 1 else 0); K
       end
   end) s = (u, s') →
  ∃ s1, loop_inv its log0 (S index) s1 (replicate (S index) sent) ∧ K s1 = (u, s').
Proof.
  intros He Hinv Hit Hk. unfold mbind, M_bind. pose proof (Forall_lookup_1 _ _ _ _ He Hit) as Hei.
  destruct (healthy_freeze s it Hei) as (f & s1 & Hf & Hl).
  replace (freeze_key it) with (item_key (it_kind it)) in Hf by (unfold freeze_key; by destruct (it_kind it)).
  rewrite Hf. apply freeze_spec in Hf as (_ & Hfz & _).
  pose proof (loop_inv_same _ _ _ _ _ _ Hinv Hl) as Hinv1.
  unfold set_replacement, set_outcome, add_sent. cbn beta iota.
  match goal with |- context [post E ?p ?b dl ?s0] => destruct (healthy_post s0 p b) as (s2 & Hp) end.
  rewrite Hp. apply post_spec in Hp as (P1 & P2 & P3 & P4). destruct P4 as [[_ ?]|P4]; [done|].
  intros HK. eexists. split; [|exact HK]. rewrite <-Nat.add_1_r, replicate_add, Nat.add_1_r.
  eapply (loop_single its log0 index s1 _ it); try done; cbn.
  - by rewrite P1.
  - right. exists f. split; [by apply Hfz|]. by rewrite P2.
  - by repeat constructor.
  - by rewrite P3.
Qed.

(** The loop settles every item as sent. *)
Lemma healthy_loop its log0 fuel index (s : IO) u s' :
  Forall encodable its → (length its - index ≤ fuel)%nat →
  loop_inv its log0 index s (replicate index sent) →
  dispatch_loop E fuel its dl index s = (u, s') → outcomes s' = replicate (length its) sent.
Proof.
  intros He. revert index s u s'. induction fuel as [|fuel IH]; intros index s u s' Hf Hinv H.
  - injection H as <- <-. destruct Hinv as [Ho _ Hb _ _ _]. rewrite Ho.
    replace index with (length its) by lia. by rewrite Nat.sub_diag, app_nil_r.
  - cbn [dispatch_loop] in H. destruct (its !! index) as [it|] eqn:Hit.
    2: { injection H as <- <-. destruct Hinv as [Ho _ Hb _ _ _]. apply lookup_ge_None_1 in Hit. rewrite Ho.
         replace index with (length its) by lia. by rewrite Nat.sub_diag, app_nil_r. }
    unfold mbind at 1, M_bind at 1 in H. pose proof (lookup_lt_Some _ _ _ Hit).
    destruct (healthy_now s) as (t & s1 & Hn & Hsame & _ & Hexp & _). rewrite Hn, Hexp in H.
    pose proof (loop_inv_same _ _ _ _ _ _ Hinv Hsame) as Hinv1.
    destruct (it_kind it) eqn:Hk.
    + assert (1 ≤ trace_prefix (drop index its))%nat by (rewrite (drop_S _ _ _ Hit); by apply trace_prefix_pos).
      destruct (healthy_iter_group its log0 index s1 it u s'
        (dispatch_loop E fuel its dl (index + trace_prefix (drop index its)))) as (s2 & Hi2 & Hrec); [done..|].
      eapply IH; [|exact Hi2|exact Hrec]. lia.
    + destruct (healthy_iter_single its log0 index s1 it u s' (dispatch_loop E fuel its dl (S index)))
        as (s2 & Hi2 & Hrec); rewrite ?Hk; [done..|]. eapply IH; [|exact Hi2|exact Hrec]. lia.
    + destruct (healthy_iter_single its log0 index s1 it u s' (dispatch_loop E fuel its dl (S index)))
        as (s2 & Hi2 & Hrec); rewrite ?Hk; [done..|]. eapply IH; [|exact Hi2|exact Hrec]. lia.
Qed.

Lemma healthy_dispatch its w errs log u s' : Forall encodable its →
  dispatch E its dl (fresh_settlement its w errs log) = (u, s') →
  outcomes s' = replicate (length its) sent ∧ n_sent s' = Z.of_nat (length its).
Proof.
  intros He Hd. pose proof (dispatch_spec _ _ _ _ _ _ _ _ Hd) as [_ _ _ (ps & _ & _ & Hn & _)].
  assert (Ho : outcomes s' = replicate (length its) sent).
  { eapply (healthy_loop its log _ 0); [done| |apply fresh_loop_inv|exact Hd]. lia. }
  split; [done|]. rewrite Hn, Ho. unfold sent_items, with_outcome. rewrite length_fmap.
  clear. induction its as [|it its IH]; simpl; [done|]. lia.
Qed.
End Healthy.

Definition quiet_host : Prop := ∀ w, (host E w).1 = [].

Lemma quiet_turn c w : quiet_host → ∃ w', host_turn c w = (with_buffer c (c_buffer c), w').
Proof. intros Hq. unfold host_turn. specialize (Hq w). destruct (host E w) as [calls w']. simpl in Hq. subst. by exists w'. Qed.

Lemma settle_loop_sent i (l : list item) repl :
  settle_loop i (zip l (replicate (length l) sent)) repl = (0, []).
Proof. revert i. induction l as [|x l IH]; intros i; simpl; [done|]. by rewrite IH. Qed.

(** A quiet host: the loop ends after at most one more round than there are items. *)
Lemma flush_loop_terminates fuel dl total c w : quiet_host → leased (c_buffer c) = [] →
  (length (items (c_buffer c)) < fuel)%nat → flush_loop fuel dl total c w ≠ None.
Proof.
  intros Hq. revert total c w. induction fuel as [|fuel IH]; intros total c w Hl Hf; [lia|].
  cbn [flush_loop]. destruct (monotonic_ms E w) as [t w1]. destruct (negb _); [done|].
  destruct (quiet_turn c w1 Hq) as (w2 & ->). cbn [c_buffer with_buffer].
  unfold lease. rewrite Hl. cbn zeta. set (k := Z.to_nat _).
  assert (Hk : items (c_buffer c) ≠ [] → (1 ≤ k)%nat).
  { unfold k, MAX_DRAIN_BATCH. destruct (items (c_buffer c)); [done|]. simpl. lia. }
  destruct (take k (items (c_buffer c))) as [|it its] eqn:Ht; [done|].
  destruct (dispatch E _ dl _) as [u s] eqn:Hd. cbn [snd].
  destruct (quiet_turn (mkClient (mkBuffer (capacity (c_buffer c)) (drop k (items (c_buffer c))) (it :: its)
    (run_seq (c_buffer c)) (dropped_total (c_buffer c))) (c_last_reported_dropped c) (flush_errors s) (posts s))
    (world s) Hq) as (w3 & Hw3).
  cbn [c_last_reported_dropped with_buffer] in Hw3 |- *. rewrite Hw3. cbn [c_buffer with_buffer].
  destruct (settle _ _ _ _) as [b'|e] eqn:Hs; [|done]. case_decide as Hr; [done|]. apply IH; cbn [with_buffer c_buffer].
  - by apply settle_Ok in Hs as (_ & _ & -> & _).
  - apply settle_Ok in Hs as (_ & Hlen & _ & -> & _). cbn [items]. rewrite length_app, settle_loop_retries.
    assert (with_outcome retry (zip (it :: its) (outcomes s)) = []) as ->.
    { unfold with_outcome. rewrite filter_all_false; [done|]. intros [x o] Hx.
      apply bool_decide_eq_false_2. simpl. intros ->. apply Hr.
      apply list_elem_of_lookup in Hx as [i Hi]. apply lookup_zip_Some in Hi as [_ Hi].
      apply list_elem_of_lookup. eauto. }
    rewrite length_drop. simpl. assert (items (c_buffer c) ≠ []) by (intros Hn; by rewrite Hn, take_nil in Ht).
    specialize (Hk H). lia.
Qed.

(** A quiet host and a healthy connection: everything pending is delivered. *)
Lemma flush_loop_delivers fuel dl total c w r : quiet_host → healthy dl → leased (c_buffer c) = [] →
  Forall encodable (items (c_buffer c)) →
  flush_loop fuel dl total c w = Some r →
  ∃ c' w', r = Ok (total + Z.of_nat (length (items (c_buffer c))), c', w')
  ∧ pending (c_buffer c') = [] ∧ dropped_total (c_buffer c') = dropped_total (c_buffer c)
  ∧ c_last_reported_dropped c' = c_last_reported_dropped c.
Proof.
  intros Hq Hok. revert total c w r. induction fuel as [|fuel IH]; intros total c w r Hl He; [done|].
  cbn [flush_loop]. pose proof (h_clock _ Hok w) as (Hc & _). destruct (monotonic_ms E w) as [t w1].
  simpl in Hc. rewrite Hc. cbn [negb].
  destruct (quiet_turn c w1 Hq) as (w2 & ->). cbn [c_buffer with_buffer].
  unfold lease. rewrite Hl. cbn zeta. set (k := Z.to_nat _).
  destruct (take k (items (c_buffer c))) as [|it its] eqn:Ht.
  { assert (Hn : items (c_buffer c) = []).
    { unfold k, MAX_DRAIN_BATCH in Ht. destruct (items (c_buffer c)) as [|x l]; [done|].
      replace (Z.to_nat _) with (S (Z.to_nat (Z.min 499 (Z.of_nat (length l))))) in Ht by (simpl; lia). done. }
    intros [= <-]. eexists _, _. rewrite Hn. simpl. rewrite Z.add_0_r, drop_nil. done. }
  assert (Hei : Forall encodable (it :: its)) by (rewrite <-Ht; by apply Forall_take).
  assert (Hlen : length (items (c_buffer c)) = (length (it :: its) + length (drop k (items (c_buffer c))))%nat)
    by (rewrite <-Ht, <-length_app, take_drop; done).
  destruct (dispatch E _ dl _) as [u s] eqn:Hd. cbn [snd].
  destruct (healthy_dispatch _ Hok _ _ _ _ _ _ Hei Hd) as [Ho Hn].
  destruct (quiet_turn (mkClient (mkBuffer (capacity (c_buffer c)) (drop k (items (c_buffer c))) (it :: its)
    (run_seq (c_buffer c)) (dropped_total (c_buffer c))) (c_last_reported_dropped c) (flush_errors s) (posts s))
    (world s) Hq) as (w3 & Hw3).
  cbn [c_last_reported_dropped with_buffer] in Hw3 |- *. rewrite Hw3. cbn [c_buffer with_buffer].
  unfold settle. rewrite Ho, bool_decide_eq_true_2, length_replicate, Nat.eqb_refl by done.
  cbn [andb]. rewrite settle_loop_sent. cbn beta iota. rewrite decide_False.
  2: { intros [? _]%elem_of_replicate. done. }
  intros Hrec. apply IH in Hrec as (c' & w' & -> & H1 & H2 & H3); [|done|by apply Forall_drop].
  exists c', w'. simpl in *. split_and!; [do 3 f_equal; lia|done|lia|done].
Qed.


Lemma initial_ordered cap : ordered (mkSys (mkBuffer cap [] [] ∅ 0) [] 0 0).
Proof.
  constructor; simpl.
  - intros r. constructor.
  - by intros r z ?%not_elem_of_nil.
  - by intros it ?%not_elem_of_nil.
  - by intros ev ?%not_elem_of_nil.
  - by intros u z e1 e2 ?%not_elem_of_nil.
  - by intros it e ?%not_elem_of_nil.
  - done.
  - constructor.
  - intros r. unfold next_seq. simpl. by rewrite lookup_empty.
Qed.

(** ** Theorems *)

(** Accounting of the SDK's buffer, for every interleaving of host calls and flushes:
    the buffer never holds more than its capacity (a batch in flight included), and every
    item ever handed to [append] was settled as sent, is counted in [dropped_total], or is
    still pending. *)
Lemma sdk_accounting cap s : reachable cap s →
  pending_count (s_buf s) ≤ cap
  ∧ s_appended s = s_sent s + dropped_total (s_buf s) + pending_count (s_buf s).
Proof.
  intros Hr. assert (accounted cap s) as (Hc & Hw & Ha); [|by unfold within_capacity in Hw; rewrite Hc in Hw].
  revert s Hr. apply reachable_ind_inv; [|by apply step_accounted].
  intros s (b & Hb & ->). unfold new_buffer in Hb. destruct (cap <? 1) eqn:Hlt; [done|].
  injection Hb as <-. unfold accounted, within_capacity, pending_count. simpl. lia.
Qed.

(** [C4] Delivery of traces, for every interleaving of host calls and flushes: the
    sequence numbers of a run that the server acknowledged, followed by those still
    pending, are strictly increasing (so each is acknowledged at most once and none
    overtakes an earlier one); two requests that offer the same event offer the same
    payload, whatever the host did to its model in between; no request exceeds the batch
    limit of the route. *)
Theorem sdk_delivery_order cap s : reachable cap s →
  (∀ r, StronglySorted Z.lt (accepted_seqs r (s_log s) ++ run_seqs r (pending (s_buf s)))
        ∧ Forall (λ z, 0 ≤ z < next_seq (s_buf s) r) (accepted_seqs r (s_log s)))
  ∧ (∀ u z e1 e2, (u, z, e1) ∈ offered (s_log s) → (u, z, e2) ∈ offered (s_log s) → e1 = e2)
  ∧ Forall (λ p, Z.of_nat (length (post_events p)) ≤ 500) (s_log s).
Proof.
  intros Hr. assert (ordered s) as [O1 O2 O3 O4 O5 O6 O7 O8 O9].
  { revert s Hr. apply reachable_ind_inv; [|by apply step_ordered].
    intros s (b & Hb & ->). unfold new_buffer in Hb. destruct (cap <? 1); [done|]. injection Hb as <-.
    apply initial_ordered. }
  split_and!; [|done|exact O8]. intros r. split; [apply O1|]. apply Forall_forall. intros z Hz.
  apply O2, elem_of_app. by left.
Qed.

(** A flush that starts with no batch in flight never raises, returns with no batch in
    flight, and is a sequence of steps of the system that settles as sent exactly the
    number it reports; its drop report continues where the previous one ended, and its
    pending count is that of the buffer it leaves. *)
Lemma flush_refines_steps fuel timeout_s report_drops c w r :
  leased (c_buffer c) = [] → c_last_reported_dropped c ≤ dropped_total (c_buffer c) →
  do_flush fuel timeout_s report_drops c w = Some r →
  ∃ rep c' w', r = Ok (rep, c', w')
  ∧ leased (c_buffer c') = []
  ∧ rep_pending rep = pending_count (c_buffer c')
  ∧ rep_dropped rep = c_last_reported_dropped c' - c_last_reported_dropped c
  ∧ (if report_drops then dropped_total (c_buffer c) else c_last_reported_dropped c)
    ≤ c_last_reported_dropped c' ≤ dropped_total (c_buffer c')
  ∧ ∀ a n, ∃ a', rtc step (mkSys (c_buffer c) (c_posts c) a n)
                          (mkSys (c_buffer c') (c_posts c') a' (n + rep_sent rep)).
Proof.
  intros Hl Hlast. unfold do_flush. destruct (monotonic_ms E w) as [t w1].
  destruct (monotonic_ms E w1) as [t' w2]. destruct (acquire E _ w2) as [got w3].
  destruct got; cbn [negb].
  - destruct (flush_loop _ _ 0 c w3) as [r'|] eqn:Hf; [|done].
    apply flush_loop_steps in Hf as (total & c1 & w4 & -> & H1 & H2 & H3 & H4); [|done].
    destruct (report_steps total report_drops c c1 w4) as (rep & c' & w' & Heq & Hres); [done..| |].
    + intros a n. destruct (H4 a n) as (a' & Ha'). exists a'. by rewrite Z.sub_0_r in Ha'.
    + intros [= <-]. exists rep, c', w'. by rewrite Heq.
  - destruct (report_steps 0 report_drops c c w3) as (rep & c' & w' & Heq & Hres); [done..| |].
    + intros a n. exists a. by rewrite Z.add_0_r.
    + intros [= <-]. exists rep, c', w'. by rewrite Heq.
Qed.

(** On a quiet host and a healthy connection a flush terminates with everything
    delivered: with more rounds than pending items it returns, reports every pending item
    as sent, nothing pending and every drop not yet reported, and leaves the buffer empty. *)
Lemma flush_delivers_everything fuel timeout_s c w :
  let deadline_ms := ((monotonic_ms E w).1 + fmax timeout_s 0 * 1000)%float in
  quiet_host → healthy deadline_ms → (∀ t w, (acquire E t w).1 = true) →
  leased (c_buffer c) = [] → Forall encodable (items (c_buffer c)) →
  (length (items (c_buffer c)) < fuel)%nat →
  ∃ c' w', do_flush fuel timeout_s true c w
           = Some (Ok (mkReport (Z.of_nat (length (items (c_buffer c))))
                                (dropped_total (c_buffer c) - c_last_reported_dropped c) 0, c', w'))
  ∧ pending (c_buffer c') = [] ∧ dropped_total (c_buffer c') = dropped_total (c_buffer c).
Proof.
  intros dl Hq Hok Hacq Hl He Hf. unfold do_flush. unfold dl in Hok. clear dl.
  destruct (monotonic_ms E w) as [t w1]. simpl in Hok. destruct (monotonic_ms E w1) as [t' w2].
  specialize (Hacq (fmax ((t + fmax timeout_s 0 * 1000 - t') / 1000) 0)%float w2).
  destruct (acquire E _ w2) as [got w3]. simpl in Hacq. subst got. cbn [negb].
  pose proof (flush_loop_terminates fuel (t + fmax timeout_s 0 * 1000) 0 c w3 Hq Hl Hf) as Ht.
  destruct (flush_loop fuel _ 0 c w3) as [r|] eqn:Hfl; [|done]. clear Ht.
  apply flush_loop_delivers in Hfl as (c1 & w4 & -> & H1 & H2 & H3); [|done..].
  unfold report. destruct (quiet_turn c1 w4 Hq) as (w5 & ->). cbn [take_reported_drops].
  match goal with |- context [host_turn ?cc w5] => destruct (quiet_turn cc w5 Hq) as (w6 & ->) end.
  cbn [c_buffer with_buffer c_last_reported_dropped]. eexists _, _.
  split; [by rewrite pending_count_length, H1, H2, H3, Z.add_0_l|]. done.
Qed.

End Flush.
#[global] Arguments sys : clear implicits.

(** ** A concrete run

    A server that answers 503 once and 200 afterwards, and a host whose model changes
    after every request ([model_dump] reads the number of requests so far). *)

Section Run.
Context {W obj enc : Type} `{EqDecision obj, EqDecision enc} (E : Env W obj enc).
Abbreviation sys := (sys obj enc).

Definition sys_append (r : RunId) (k : ItemKind) body (s : sys) : sys :=
  mkSys (append (s_buf s) r k body).1 (s_log s) (s_appended s + 1) (s_sent s).

(** One lease and its delivery in the world [w]. *)
Definition sys_round (dl : float) (w : W) (s : sys) : sys :=
  match lease (s_buf s) MAX_DRAIN_BATCH with
  | Err _ => s
  | Ok (b, _) =>
      let r := (dispatch E (leased b) dl (fresh_settlement (leased b) w 0 (s_log s))).2 in
      match settle b (leased b) (outcomes r) (replacements r) with
      | Err _ => s
      | Ok b' => mkSys b' (posts r) (s_appended s) (s_sent s + n_sent r)
      end
  end.

Lemma sys_append_reachable cap r k body s :
  reachable E cap s → reachable E cap (sys_append r k body s).
Proof.
  intros (s0 & H0 & Hs). exists s0. split; [done|]. eapply rtc_r; [exact Hs|].
  destruct s. by constructor.
Qed.

Lemma sys_round_reachable cap dl w s : reachable E cap s → reachable E cap (sys_round dl w s).
Proof.
  intros (s0 & H0 & Hs). exists s0. split; [done|]. unfold sys_round.
  destruct (lease _ _) as [[b batch]|] eqn:Hl; [|done].
  destruct (dispatch _ _ _ _) as [u r] eqn:Hd. cbn [snd].
  destruct (settle _ _ _ _) as [b'|] eqn:Hset; [|done].
  etransitivity; [exact Hs|]. destruct s as [b0 log a n]. simpl in *.
  eapply rtc_l; [by eapply step_lease|]. apply rtc_once. by eapply step_deliver.
Qed.
End Run.

Definition server_env (status : nat → Z) : Env nat nat nat := {|
  monotonic_ms w := (0%float, w);
  is_model _ := true;
  model_dump m w := (Some (m + w)%nat, w);
  api_key := None;
  token_provider := None;
  http_post _ _ _ _ w := (Some (status w), S w);
  acquire _ w := (true, w);
  host w := ([], w);
|}.

Definition demo_env : Env nat nat nat := server_env (λ w, if (w =? 0)%nat then 503 else 200).
Definition good_env : Env nat nat nat := server_env (λ _, 200).

Definition demo_run : RunId := mkRunId (mkUUID 7 I).
Definition demo_body (n : nat) : list (pystr * nat) := [(of_ascii "event", n)].

Definition demo_start : sys nat nat := mkSys (mkBuffer 2 [] [] ∅ 0) [] 0 0.

(** Three traces into a buffer of two, a round that fails and one that succeeds. *)
Definition demo_sys : sys nat nat :=
  sys_round demo_env 1000 1%nat (sys_round demo_env 1000 0%nat
    (sys_append demo_run trace (demo_body 30) (sys_append demo_run trace (demo_body 20)
      (sys_append demo_run trace (demo_body 10) demo_start)))).

Lemma demo_reachable : reachable demo_env 2 demo_sys.
Proof.
  do 2 apply sys_round_reachable. do 3 apply sys_append_reachable.
  exists demo_start. split; [|done]. by eexists.
Qed.

Lemma sdk_accounting_witness :
  (s_appended demo_sys, s_sent demo_sys, dropped_total (s_buf demo_sys)) = (3, 2, 1)
  ∧ pending_count (s_buf demo_sys) ≤ 2.
Proof.
  split; [vm_compute; reflexivity|].
  exact (proj1 (sdk_accounting demo_env 2 demo_sys demo_reachable)).
Defined.

(** Numbers 1 and 2 are acknowledged by the second request, with the payloads of the
    first ([20 + 0] and [30 + 0]), although the host's models have changed since. *)
Lemma sdk_delivery_order_witness :
  accepted_seqs demo_run (s_log demo_sys) = [1; 2]
  ∧ (λ ev, (ev.1.2, ev.2)) <$> offered (s_log demo_sys)
    = [(Some 1, Some 20%nat); (Some 2, Some 30%nat); (Some 1, Some 20%nat); (Some 2, Some 30%nat)]
  ∧ StronglySorted Z.lt (accepted_seqs demo_run (s_log demo_sys) ++ run_seqs demo_run (pending (s_buf demo_sys))).
Proof.
  split; [vm_compute; reflexivity|]. split; [vm_compute; reflexivity|].
  exact (proj1 (proj1 (sdk_delivery_order demo_env 2 demo_sys demo_reachable) demo_run)).
Defined.

Definition demo_client : TracebedClient nat nat :=
  mkClient (s_buf (sys_append demo_run trace (demo_body 20)
                    (sys_append demo_run feedback (demo_body 10) demo_start))) 0 0 [].

Definition reported (o : option (result exn (FlushReport * TracebedClient nat nat * nat))) : option FlushReport :=
  match o with Some (Ok (rep, _, _)) => Some rep | _ => None end.

(** The first request fails: both items stay pending. *)
Lemma flush_refines_steps_witness :
  ∃ rep c' w', do_flush demo_env 5 5 true demo_client 0%nat = Some (Ok (rep, c', w'))
  ∧ rep = mkReport 0 0 2 ∧ rep_pending rep = pending_count (c_buffer c').
Proof.
  assert (Hr : reported (do_flush demo_env 5 5 true demo_client 0%nat) = Some (mkReport 0 0 2))
    by (vm_compute; reflexivity).
  pose proof (λ r, flush_refines_steps demo_env 5 5 true demo_client 0%nat r) as Hc.
  generalize dependent (do_flush demo_env 5 5 true demo_client 0%nat). intros o Hr Hc.
  destruct o as [r|]; [|done].
  destruct (Hc r) as (rep & c' & w' & -> & _ & Hp & _); [reflexivity|discriminate|done|].
  exists rep, c', w'. injection Hr as Hr. auto.
Defined.

Lemma flush_delivers_everything_witness :
  ∃ c' w', do_flush good_env 5 5 true demo_client 0%nat = Some (Ok (mkReport 2 0 0, c', w'))
  ∧ pending (c_buffer c') = [] ∧ dropped_total (c_buffer c') = 0.
Proof.
  apply (flush_delivers_everything good_env 5 5 demo_client 0%nat); [done| |done|reflexivity| |].
  - constructor; intros; [|discriminate|reflexivity|discriminate].
    repeat split; vm_compute; reflexivity.
  - assert (He : ∀ it : BufferedItem nat nat, it ∈ items (c_buffer demo_client) →
              dict_get (it_body it) (freeze_key it) ≠ None).
    { apply Forall_forall. vm_compute. repeat constructor; discriminate. }
    apply Forall_forall. intros it Hit. right. specialize (He it Hit).
    destruct (dict_get _ _) as [m|]; [|done]. by exists m.
  - vm_compute. lia.
Defined.
