(* ===== verification/Lifecycle.v ===== *)
(** * Lifecycle workers: shared rows, writes and the store they act through

    Models the shapes the lifecycle workers share (src/src/tracebed/workers/invalidator.py:
    [LifecycleMemoryRow], [LifecycleTransitionWrite], [InvalidationSelector],
    [selector_matches], [MemoryLifecycleRepoPort]).  The port is a class of operations
    with its documented laws; the workers of Sweeps.v, Revalidation.v and Invalidator.v
    are written and proved against it, and VaultStore.v discharges it for the Postgres
    store.

    [vstep] is the governed change of one row (a transition [StateMachine.apply] allowed,
    or a touch that keeps the status); a store whose rows all have a [lifecycle] keeps
    that property along [vstep], which is what every worker is shown to do. *)

From Stdlib Require Import Floats.
From S2P Require Import Prelude Domain PyText StateMachine Memory.
Open Scope Z_scope.

(** ** Rows and writes *)

Record LifecycleMemoryRow := mkLRow {
  l_id : MemoryId;
  l_project_id : ProjectId;
  l_status : Status;
  l_trust_tier : TrustTier;
  l_mem_type : MemType;
  l_provenance : Provenance;
  l_status_changed_at : option datetime;
  l_strike_count : Z;
  l_last_retrieved_at : option datetime;
  l_created_at : datetime;
  l_q_value : float;
}.

(** The primary key of [memory_item]. *)
Abbreviation row_key := (ProjectId * MemoryId)%type.
Definition l_key (r : LifecycleMemoryRow) : row_key := (l_project_id r, l_id r).

(** [require_aware] on an optional instant. *)
Definition require_aware (d : option datetime) : bool :=
  match d with None => true | Some t => dt_aware t end.

Definition lrow_post_init (r : LifecycleMemoryRow) : result exn LifecycleMemoryRow :=
  check! require_aware (l_status_changed_at r) && require_aware (l_last_retrieved_at r)
         && dt_aware (l_created_at r) else ValueError in
  check! (0 <=? l_q_value r)%float && (l_q_value r <=? 1)%float else ValueError in
  Ok r.

Record LifecycleTransitionWrite := mkLWrite {
  lw_memory_id : MemoryId;
  lw_from_status : Status;
  lw_to_status : Status;
  lw_now : datetime;
  lw_strike_count : option Z;
  lw_q_value : option float;
  lw_last_revalidated_at : option datetime;
}.

Record InvalidationSelector := mkSelector {
  sel_tool_refs : list pystr;
  sel_trace_ids : list RunId;
  sel_input_sig_hashes : list (list Z);
}.

Definition selector_is_empty (s : InvalidationSelector) : bool :=
  match sel_tool_refs s, sel_trace_ids s, sel_input_sig_hashes s with
  | [], [], [] => true | _, _, _ => false end.

(** [set(a) & set(b)] is not empty. *)
Definition overlaps {A} `{EqDecision A} (a b : list A) : bool :=
  existsb (λ x, bool_decide (x ∈ b)) a.

Definition selector_matches (p : Provenance) (s : InvalidationSelector) : bool :=
  overlaps (sel_tool_refs s) (tool_refs p)
  || overlaps (sel_trace_ids s) (trace_ids p)
  || overlaps (sel_input_sig_hashes s) (input_sig_hashes p).

Lemma overlaps_true {A} `{EqDecision A} (a b : list A) :
  overlaps a b = true ↔ ∃ x, x ∈ a ∧ x ∈ b.
Proof.
  unfold overlaps. rewrite existsb_exists. setoid_rewrite bool_decide_eq_true.
  by setoid_rewrite list_elem_of_In.
Qed.

Lemma selector_empty_matches p s : selector_is_empty s = true → selector_matches p s = false.
Proof. unfold selector_is_empty, selector_matches. by destruct s as [[] [] []]. Qed.

(** The selector's hashes are Python [bytes]. *)
Definition bytes_ok (hs : list (list Z)) : bool := forallb (forallb (λ b, (0 <=? b) && (b <? 256))) hs.

(** ** The slice of [EffectiveConfig] the lifecycle workers read *)

Record EffectiveConfig := mkConfig {
  cfg_quarantine_ttl_days : Z;
  cfg_candidate_ttl_days : Z;
  cfg_revalidation_age_days : Z;
  cfg_decay_pct_per_idle_week : float;
  cfg_archive_floor : float;
  cfg_min_outcomes : Z;
  cfg_failure_lesson_outcomes : Z;
  cfg_promotion_min_distinct_principals : Z;
  cfg_q_threshold : float;
  cfg_min_scored_uses : Z;
  cfg_retirement_min_distinct_principals : Z;
  cfg_q_start : float;
}.

(** The field bounds of the two bounded sections, then the model validator. *)
Definition config_validate (c : EffectiveConfig) : result exn EffectiveConfig :=
  check! (0 <=? cfg_decay_pct_per_idle_week c)%float && (cfg_decay_pct_per_idle_week c <=? 100)%float
         && (0 <=? cfg_archive_floor c)%float && (cfg_archive_floor c <=? 1)%float
         && (1 <=? cfg_quarantine_ttl_days c) && (1 <=? cfg_candidate_ttl_days c)
         && (1 <=? cfg_revalidation_age_days c)
         && (0 <=? cfg_q_start c)%float && (cfg_q_start c <=? 1)%float else ValueError in
  check! negb (cfg_q_start c <=? cfg_archive_floor c)%float else ValueError in
  Ok c.

(** [TransitionLimits.from_config]. *)
Definition from_config (c : EffectiveConfig) : result exn TransitionLimits :=
  limits_post_init
    (mkLimits (cfg_quarantine_ttl_days c) (cfg_candidate_ttl_days c) (cfg_min_outcomes c)
       (cfg_failure_lesson_outcomes c) (cfg_promotion_min_distinct_principals c) (cfg_q_threshold c)
       (cfg_min_scored_uses c) (cfg_retirement_min_distinct_principals c) (cfg_archive_floor c)).

(** The shipped defaults. *)
Definition default_config : EffectiveConfig :=
  mkConfig 30 45 30 5 0.15 2 1 2 0.25 4 3 0.5.

(** ** Errors *)

Inductive lifecycle_error :=
| LExn (e : exn)
| LTransition (e : transition_error)
| StaleStatusTransition
| NotFound.

Definition of_exn {A} (r : result exn A) : result lifecycle_error A :=
  match r with Ok a => Ok a | Err e => Err (LExn e) end.
Definition of_transition {A} (r : result transition_error A) : result lifecycle_error A :=
  match r with Ok a => Ok a | Err e => Err (LTransition e) end.

(** ** The port *)

(** The rows a store would serve. *)
Class Vault (S : Type) := vault : S → row_key → option LifecycleMemoryRow.

Class LifecycleRepo (S : Type) := {
  #[global] repo_vault :: Vault S;
  select_by_status : S → ProjectId → list Status → list LifecycleMemoryRow;
  select_due_for_revalidation : S → ProjectId → datetime → list LifecycleMemoryRow;
  select_by_provenance : S → ProjectId → InvalidationSelector → list LifecycleMemoryRow;
  persist : S → ProjectId → LifecycleTransitionWrite → result lifecycle_error S;
}.

(** The default [limit] of the two bounded selects. *)
Definition SELECT_LIMIT : nat := Z.to_nat 10000.

(** The row after a write: the status, its instant only when the status changed, and the
    fields the write carries. *)
Definition written (w : LifecycleTransitionWrite) (r : LifecycleMemoryRow) : LifecycleMemoryRow :=
  mkLRow (l_id r) (l_project_id r) (lw_to_status w) (l_trust_tier r) (l_mem_type r) (l_provenance r)
    (if decide (lw_from_status w = lw_to_status w) then l_status_changed_at r else Some (lw_now w))
    (default (l_strike_count r) (lw_strike_count w))
    (l_last_retrieved_at r) (l_created_at r)
    (default (l_q_value r) (lw_q_value w)).

(** [last_retrieved_at] if there is one, else [created_at]. *)
Definition idle_reference (r : LifecycleMemoryRow) : datetime :=
  default (l_created_at r) (l_last_retrieved_at r).

(** [s'] is [s] with row [m] set to [r]. *)
Definition updates {S} `{Vault S} (s s' : S) (m : row_key) (r : LifecycleMemoryRow) : Prop :=
  ∀ m', vault s' m' = if decide (m = m') then Some r else vault s m'.

(** What the port's documentation promises: selects return stored rows, each once, that
    satisfy the predicate (all of them, when fewer than the limit); a write reaches exactly
    the named row, and only if it is still of the named project and status. *)
Class LifecycleRepoLaws (S : Type) `{LifecycleRepo S} : Prop := {
  vault_id : ∀ s m r, vault s m = Some r → l_key r = m;
  select_sound : ∀ s p sts r, r ∈ select_by_status s p sts →
    vault s (l_key r) = Some r ∧ l_project_id r = p ∧ l_status r ∈ sts;
  select_NoDup : ∀ s p sts, NoDup (l_key <$> select_by_status s p sts);
  select_complete : ∀ s p sts m r, (length (select_by_status s p sts) < SELECT_LIMIT)%nat →
    vault s m = Some r → l_project_id r = p → l_status r ∈ sts → r ∈ select_by_status s p sts;
  due_sound : ∀ s p d r, r ∈ select_due_for_revalidation s p d →
    vault s (l_key r) = Some r ∧ l_project_id r = p ∧ l_status r = VALIDATED
    ∧ dt_us (idle_reference r) ≤ dt_us d;
  due_NoDup : ∀ s p d, NoDup (l_key <$> select_due_for_revalidation s p d);
  provenance_iff : ∀ s p sel r, bytes_ok (sel_input_sig_hashes sel) = true →
    r ∈ select_by_provenance s p sel ↔
    vault s (l_key r) = Some r ∧ l_project_id r = p ∧ selector_matches (l_provenance r) sel = true;
  provenance_NoDup : ∀ s p sel, NoDup (l_key <$> select_by_provenance s p sel);
  persist_applies : ∀ s p w r, vault s (p, lw_memory_id w) = Some r → l_status r = lw_from_status w →
    ∃ s', persist s p w = Ok s' ∧ updates s s' (p, lw_memory_id w) (written w r);
  persist_stale : ∀ s p w,
    (∀ r, vault s (p, lw_memory_id w) = Some r → l_status r ≠ lw_from_status w) →
    persist s p w = Err StaleStatusTransition;
}.

(** ** Workers: stateful code over a store, with a clock

    A worker threads the store and the number of clock readings so far; an exception keeps
    what was already written. *)

Section Worker.
Context {S : Type} `{!LifecycleRepo S} (clock : nat → datetime).

Definition worker (A : Type) : Type := S * nat → result lifecycle_error A * (S * nat).

Definition wret {A} (a : A) : worker A := λ σ, (Ok a, σ).
Definition wbind {A B} (m : worker A) (k : A → worker B) : worker B := λ σ,
  match m σ with
  | (Ok a, σ') => k a σ'
  | (Err e, σ') => (Err e, σ')
  end.
Definition wlift {A} (r : result lifecycle_error A) : worker A := λ σ, (r, σ).

Definition wnow : worker datetime := λ σ, (Ok (clock σ.2), (σ.1, 1 + σ.2)%nat).
Definition wread {A} (f : S → A) : worker A := λ σ, (Ok (f σ.1), σ).
Definition wpersist (p : ProjectId) (w : LifecycleTransitionWrite) : worker unit := λ σ,
  match persist σ.1 p w with
  | Ok s' => (Ok tt, (s', σ.2))
  | Err e => (Err e, σ)
  end.

(** A Python [for] over a materialised sequence, collecting what the body yields. *)
Fixpoint wfor {A B} (f : A → worker B) (l : list A) : worker (list B) :=
  match l with
  | [] => wret []
  | x :: l' => wbind (f x) (λ y, wbind (wfor f l') (λ ys, wret (y :: ys)))
  end.
End Worker.

#[global] Arguments worker S A : clear implicits.

Declare Scope worker_scope.
Delimit Scope worker_scope with worker.
Notation "'let*' x := m 'in' k" := (wbind m (λ x, k))
  (at level 10, x pattern, m at level 100, k at level 200) : worker_scope.
Open Scope worker_scope.

(** [_require_returned_row] and its siblings: re-assert what a select promised. *)
Definition require_returned_row (r : LifecycleMemoryRow) (p : ProjectId) (expected : Status)
  : result lifecycle_error unit :=
  check! bool_decide (l_project_id r = p) else LExn TracebedError in
  check! bool_decide (l_status r = expected) else LExn TracebedError in
  Ok tt.

(** The evidence every worker starts from: the row's own columns, the rest defaulted. *)
Definition row_evidence (n : datetime) (r : LifecycleMemoryRow) : TransitionEvidence :=
  mkEvidence n (cls (l_provenance r)) (l_trust_tier r) (l_mem_type r) false false false false
    (l_status_changed_at r) [] false 0 0 false false false false false
    false false false false 0 0%float 0 0 false false false false.

Definition row_columns_of (r : LifecycleMemoryRow) : row_columns :=
  mkColumns (cls (l_provenance r)) (l_trust_tier r) (l_mem_type r).

Lemma wbind_ok {S A B} (m : worker S A) (k : A → worker S B) σ a σ' :
  m σ = (Ok a, σ') → wbind m k σ = k a σ'.
Proof. unfold wbind. by intros ->. Qed.

Lemma wbind_inv {S A B} (m : worker S A) (k : A → worker S B) σ b σ' :
  wbind m k σ = (Ok b, σ') → ∃ a σ1, m σ = (Ok a, σ1) ∧ k a σ1 = (Ok b, σ').
Proof. unfold wbind. destruct (m σ) as [[a|e] σ1]; [|done]. eauto. Qed.

Lemma wfor_inv {S A B} (f : A → worker S B) xs σ ys σ' : wfor f xs σ = (Ok ys, σ') →
  Forall2 (λ x y, ∃ σ1 σ2, f x σ1 = (Ok y, σ2)) xs ys.
Proof.
  revert σ ys σ'. induction xs as [|x xs IH]; intros σ ys σ'; cbn [wfor]; [intros [= <- _]; constructor|].
  intros (y & σ1 & Hx & H)%wbind_inv. apply wbind_inv in H as (ys' & σ2 & Hxs & H). injection H as <- <-.
  constructor; eauto.
Qed.

Lemma wlift_ok {S A B} (r : result lifecycle_error A) (k : A → worker S B) σ a :
  r = Ok a → wbind (wlift r) k σ = k a σ.
Proof. intros ->. done. Qed.

Lemma evidence_ok e : dt_aware (now e) = true → require_aware (status_changed_at e) = true →
  of_exn (evidence_post_init e) = Ok e.
Proof. unfold evidence_post_init, require_aware. intros -> H. by rewrite H. Qed.

(** ** Governed change *)

Section Governed.
Context {S : Type} `{!Vault S}.

(** The columns no transition writes. *)
Definition same_columns (r r' : LifecycleMemoryRow) : Prop :=
  l_key r' = l_key r ∧ row_columns_of r' = row_columns_of r.

(** What may happen to one row: a transition [apply] allowed on evidence about that row, or
    a touch that keeps its status. *)
Inductive row_step (r r' : LifecycleMemoryRow) : Prop :=
| row_transition e l :
    same_columns r r' → about (row_columns_of r) e →
    apply (Some (l_status r)) (l_status r') e l = Ok (l_status r') → row_step r r'
| row_touch : same_columns r r' → l_status r' = l_status r → row_step r r'.

Inductive vstep (s s' : S) : Prop :=
| vstep_row k r r' : vault s k = Some r → row_step r r' → updates s s' k r' → vstep s s'
(** a write to another table *)
| vstep_elsewhere : (∀ k, vault s' k = vault s k) → vstep s s'.

(** Every row has a history of its own that the state machine allowed. *)
Definition governed (s : S) : Prop :=
  ∀ m r, vault s m = Some r → ∃ hist, lifecycle (row_columns_of r) hist (l_status r).

(** The instants of every row have a time zone. *)
Definition dated (s : S) : Prop :=
  ∀ m r, vault s m = Some r →
    require_aware (l_status_changed_at r) = true ∧ require_aware (l_last_retrieved_at r) = true
    ∧ dt_aware (l_created_at r) = true.

Lemma vstep_governed s s' : governed s → vstep s s' → governed s'.
Proof.
  intros Hg [k r r' Hr Hstep Hu|Hsame] m r0 Hr0; [|rewrite Hsame in Hr0; by eapply Hg]. rewrite Hu in Hr0.
  destruct (decide (k = m)) as [_|_]; [|by eapply Hg]. injection Hr0 as <-. destruct (Hg _ _ Hr) as [hist Hh].
  destruct Hstep as [e l [_ ->] Ha Happ|[_ ->] ->]; [|by exists hist].
  eexists. by eapply lifecycle_step.
Qed.

Lemma vsteps_governed s s' : governed s → rtc vstep s s' → governed s'.
Proof. intros Hg Hs. induction Hs; eauto using vstep_governed. Qed.

Lemma updates_same s m r : vault s m = Some r → updates s s m r.
Proof. intros Hr m'. by case_decide; subst. Qed.

(** A loop whose iterations act on different rows: each iteration finds its row as it was
    before the loop. *)
Definition acts_on {B} (m : worker S B) (k : row_key) (r : LifecycleMemoryRow)
    (Q : B → LifecycleMemoryRow → Prop) : Prop :=
  ∀ s n, vault s k = Some r →
    ∃ b g s' n', m (s, n) = (Ok b, (s', n')) ∧ Q b g ∧ updates s s' k g ∧ rtc vstep s s'.

Lemma wfor_keyed {A B} (key : A → row_key) (f : A → worker S B)
    (Q : A → LifecycleMemoryRow → B → LifecycleMemoryRow → Prop) xs s n :
  NoDup (key <$> xs) →
  (∀ x, x ∈ xs → ∃ r, vault s (key x) = Some r ∧ acts_on (f x) (key x) r (Q x r)) →
  ∃ ys s' n', wfor f xs (s, n) = (Ok ys, (s', n'))
    ∧ Forall2 (λ x y, ∃ r g, vault s (key x) = Some r ∧ Q x r y g ∧ vault s' (key x) = Some g) xs ys
    ∧ (∀ k, k ∉ key <$> xs → vault s' k = vault s k) ∧ rtc vstep s s'.
Proof.
  revert s n. induction xs as [|x xs IH]; intros s n Hnd Ha.
  { exists [], s, n. by split_and!. }
  rewrite fmap_cons in Hnd. apply NoDup_cons in Hnd as [Hx Hnd].
  destruct (Ha x ltac:(left)) as (r & Hr & Hact).
  destruct (Hact s n Hr) as (y & g & s1 & n1 & Hf & HQ & Hu & Hs1).
  assert (Hother : ∀ x', x' ∈ xs → vault s1 (key x') = vault s (key x')).
  { intros x' Hx'. rewrite Hu, decide_False; [done|]. intros Heq. apply Hx. rewrite Heq.
    by apply list_elem_of_fmap_2. }
  destruct (IH s1 n1 Hnd) as (ys & s2 & n2 & Hw & Hm1 & Hm2 & Hs2).
  { intros x' Hx'. rewrite Hother by done. apply Ha. by right. }
  exists (y :: ys), s2, n2. split_and!; [| | |by etransitivity].
  - cbn [wfor]. by rewrite (wbind_ok _ _ _ _ _ Hf), (wbind_ok _ _ _ _ _ Hw).
  - constructor.
    + exists r, g. split_and!; [done|done|]. rewrite Hm2 by done. by rewrite Hu, decide_True.
    + apply Forall2_same_length_lookup_2; [by eapply Forall2_length|].
      intros i x' y' Hx' Hy'. pose proof (Forall2_lookup_lr _ _ _ _ _ _ Hm1 Hx' Hy') as (r' & g' & Hr' & ? & ?).
      exists r', g'. rewrite Hother in Hr' by by eapply list_elem_of_lookup_2. done.
  - intros k. rewrite fmap_cons, not_elem_of_cons. intros [Hne Hk]. rewrite Hm2 by done.
    by rewrite Hu, decide_False by congruence.
Qed.

(** A loop that only reads. *)
Lemma wfor_reads {A B} (f : A → worker S B) (g : A → result lifecycle_error B) xs σ :
  (∀ x, f x σ = (g x, σ)) → wfor f xs σ = (rmap g xs, σ).
Proof.
  intros Hf. induction xs as [|x xs IH]; [done|]. cbn [wfor rmap]. unfold wbind at 1. rewrite Hf.
  destruct (g x); [|done]. unfold wbind. rewrite IH. cbn. by destruct (rmap g xs).
Qed.
End Governed.

(** ** Workers against the port *)

Section Workers.
Context {S : Type} `{!LifecycleRepo S}.
Context `{!LifecycleRepoLaws S}.

(** ** Loops over rows

    [acts_rel f r Q]: while [r] is stored, [f r] succeeds, changes that row and nothing
    else, by governed steps; [Q] relates what it yields and the row it leaves.  [acts] is
    the case where both are determined. *)

Definition acts_rel {B} (f : LifecycleMemoryRow → worker S B) (r : LifecycleMemoryRow)
    (Q : B → LifecycleMemoryRow → Prop) : Prop :=
  ∀ s k, vault s (l_key r) = Some r →
    ∃ b g s' k', f r (s, k) = (Ok b, (s', k')) ∧ Q b g ∧ updates s s' (l_key r) g ∧ rtc vstep s s'.

Definition acts {B} (f : LifecycleMemoryRow → worker S B) (r : LifecycleMemoryRow) (h : B)
    (g : LifecycleMemoryRow) : Prop :=
  ∀ s k, vault s (l_key r) = Some r →
    ∃ s' k', f r (s, k) = (Ok h, (s', k')) ∧ updates s s' (l_key r) g ∧ rtc vstep s s'.

(** The store after every row of a list was replaced by its image. *)
Definition mapped (s s' : S) (rows : list LifecycleMemoryRow)
    (g : LifecycleMemoryRow → LifecycleMemoryRow) : Prop :=
  (∀ r, r ∈ rows → vault s' (l_key r) = Some (g r))
  ∧ ∀ m, m ∉ l_key <$> rows → vault s' m = vault s m.

Lemma wfor_rel {B} (f : LifecycleMemoryRow → worker S B) Q rows s k :
  NoDup (l_key <$> rows) → (∀ r, r ∈ rows → vault s (l_key r) = Some r) →
  (∀ r, r ∈ rows → acts_rel f r (Q r)) →
  ∃ ys s' k', wfor f rows (s, k) = (Ok ys, (s', k'))
    ∧ Forall2 (λ r y, ∃ g, Q r y g ∧ vault s' (l_key r) = Some g) rows ys
    ∧ (∀ m, m ∉ l_key <$> rows → vault s' m = vault s m) ∧ rtc vstep s s'.
Proof.
  intros Hnd Hv Ha.
  destruct (wfor_keyed l_key f (λ x r y g, x = r → Q r y g) rows s k Hnd) as (ys & s' & k' & Hw & H2 & Hn & Hs).
  { intros r Hr. exists r. split; [by apply Hv|]. intros s0 n0 Hv0.
    destruct (Ha r Hr s0 n0 Hv0) as (b & g & s1 & n1 & ? & ? & ? & ?). exists b, g, s1, n1. by split_and!. }
  exists ys, s', k'. split_and!; [done| |done|done].
  apply Forall2_same_length_lookup_2; [by eapply Forall2_length|].
  intros i r y Hr Hy. pose proof (Forall2_lookup_lr _ _ _ _ _ _ H2 Hr Hy) as (r0 & g & Hr0 & HQ & Hg).
  exists g. split; [|done]. rewrite Hv in Hr0 by by eapply list_elem_of_lookup_2. injection Hr0 as <-. by apply HQ.
Qed.

Lemma wfor_acts {B} (f : LifecycleMemoryRow → worker S B) h g rows s k :
  NoDup (l_key <$> rows) → (∀ r, r ∈ rows → vault s (l_key r) = Some r) →
  (∀ r, r ∈ rows → acts f r (h r) (g r)) →
  ∃ s' k', wfor f rows (s, k) = (Ok (map h rows), (s', k')) ∧ mapped s s' rows g ∧ rtc vstep s s'.
Proof.
  intros Hnd Hv Ha.
  destruct (wfor_rel f (λ r y g', y = h r ∧ g' = g r) rows s k Hnd Hv) as (ys & s' & k' & Hw & H2 & Hn & Hs).
  { intros r Hr s0 k0 Hv0. destruct (Ha r Hr s0 k0 Hv0) as (s1 & k1 & ? & ? & ?).
    exists (h r), (g r), s1, k1. by split_and!. }
  exists s', k'. split_and!; [|split; [|done]|done].
  - rewrite Hw. do 2 f_equal. clear -H2. induction H2 as [|r y rows ys (? & [-> _] & _) _ IH]; [done|].
    simpl. by rewrite IH.
  - intros r (i & Hi)%list_elem_of_lookup. eapply Forall2_lookup_l in H2 as (y & _ & g' & [_ ->] & Hg); done.
Qed.

(** [mapped] determines every row. *)
Lemma mapped_vault s s' rows g m : mapped s s' rows g →
  (∃ r, r ∈ rows ∧ l_key r = m ∧ vault s' m = Some (g r))
  ∨ (m ∉ l_key <$> rows ∧ vault s' m = vault s m).
Proof.
  intros [H1 H2]. destruct (decide (m ∈ l_key <$> rows)) as [Hm|Hm]; [left|right; auto].
  apply list_elem_of_fmap in Hm as (r & -> & Hr). exists r. split_and!; auto.
Qed.

(** A loop over the rows of one project and status. *)
Definition population (p : ProjectId) (st : Status) (r : LifecycleMemoryRow) : bool :=
  bool_decide (l_project_id r = p) && bool_decide (l_status r = st).

Lemma population_true p st r : population p st r = true ↔ l_project_id r = p ∧ l_status r = st.
Proof. unfold population. by rewrite andb_true_iff, !bool_decide_eq_true. Qed.

Lemma select_one_sound s p st r : r ∈ select_by_status s p [st] →
  vault s (l_key r) = Some r ∧ l_project_id r = p ∧ l_status r = st.
Proof. intros (? & ? & ?%list_elem_of_singleton)%select_sound. done. Qed.

Lemma select_loop {B} (f : LifecycleMemoryRow → worker S B) h g p st s k :
  (∀ r, vault s (l_key r) = Some r → l_project_id r = p → l_status r = st → acts f r (h r) (g r)) →
  ∃ s' k', wfor f (select_by_status s p [st]) (s, k) = (Ok (map h (select_by_status s p [st])), (s', k'))
           ∧ mapped s s' (select_by_status s p [st]) g ∧ rtc vstep s s'.
Proof.
  intros Ha. apply wfor_acts; [apply select_NoDup|..]; intros r Hr;
    apply select_one_sound in Hr as (? & ? & ?); auto.
Qed.

(** When nothing was cut off by the limit, the loop reached every row of the population. *)
Lemma mapped_all s s' p st g m : (length (select_by_status s p [st]) < SELECT_LIMIT)%nat →
  mapped s s' (select_by_status s p [st]) g →
  vault s' m = (λ r, if population p st r then g r else r) <$> vault s m.
Proof.
  intros Hlim Hm. destruct (mapped_vault _ _ _ _ m Hm) as [(r & Hr & <- & ->)|[Hni ->]].
  - apply select_one_sound in Hr as (Hv & Hp & Hst). rewrite Hv. simpl.
    by rewrite (proj2 (population_true p st r)).
  - destruct (vault s m) as [r|] eqn:Hv; [|done]. simpl.
    destruct (population p st r) eqn:Hpop; [|done]. apply population_true in Hpop as [Hp Hst].
    destruct Hni. apply list_elem_of_fmap. exists r. split; [by rewrite (vault_id _ _ _ Hv)|].
    eapply select_complete; [done|done|done|]. rewrite Hst. by left.
Qed.

(** Whether cut off or not, rows on which [g] does nothing are as they were. *)
Lemma mapped_id s s' p st g : mapped s s' (select_by_status s p [st]) g →
  (∀ r, vault s (l_key r) = Some r → population p st r = true → g r = r) → ∀ m, vault s' m = vault s m.
Proof.
  intros Hm Hg m. destruct (mapped_vault _ _ _ _ m Hm) as [(r & Hr & <- & ->)|[_ ->]]; [|done].
  apply select_one_sound in Hr as (Hv & Hp & Hst). rewrite Hv. f_equal. apply Hg; [done|].
  by apply population_true.
Qed.

(** A population that did not grow is not cut off either. *)
Lemma select_shrinks s s' p st : (length (select_by_status s p [st]) < SELECT_LIMIT)%nat →
  (∀ m r, vault s' m = Some r → population p st r = true →
     ∃ r0, vault s m = Some r0 ∧ population p st r0 = true) →
  (length (select_by_status s' p [st]) < SELECT_LIMIT)%nat.
Proof.
  intros Hlim Hsub. eapply Nat.le_lt_trans; [|exact Hlim].
  rewrite <- (length_fmap l_key (select_by_status s' p [st])), <- (length_fmap l_key (select_by_status s p [st])).
  apply submseteq_length, NoDup_submseteq; [apply select_NoDup|].
  intros m (r & -> & (Hv & Hp & Hst)%select_one_sound)%list_elem_of_fmap.
  destruct (Hsub _ _ Hv) as (r0 & Hv0 & [Hp0 Hst0]%population_true); [by apply population_true|].
  apply list_elem_of_fmap. exists r0. split; [by rewrite (vault_id _ _ _ Hv0)|].
  eapply select_complete; [done|done|done|]. rewrite Hst0. by left.
Qed.

(** Reading and writing one row inside a body. *)
Lemma wpersist_spec p w r s k : vault s (p, lw_memory_id w) = Some r →
  l_status r = lw_from_status w →
  ∃ s', wpersist p w (s, k) = (Ok tt, (s', k)) ∧ persist s p w = Ok s'
        ∧ updates s s' (p, lw_memory_id w) (written w r).
Proof.
  intros Hr Hf. destruct (persist_applies s p w r Hr Hf) as (s' & Hs & Hu).
  exists s'. unfold wpersist. simpl. by rewrite Hs.
Qed.

(** A body that ends with one write: a transition [apply] allowed, or a touch. *)
Lemma persist_transition {B} (b : B) p w r e l s k :
  vault s (l_key r) = Some r → l_project_id r = p → lw_memory_id w = l_id r →
  lw_from_status w = l_status r → about (row_columns_of r) e →
  apply (Some (l_status r)) (lw_to_status w) e l = Ok (lw_to_status w) →
  ∃ s' k', wbind (wpersist p w) (λ _, wret b) (s, k) = (Ok b, (s', k'))
           ∧ updates s s' (l_key r) (written w r) ∧ rtc vstep s s'.
Proof.
  intros Hv Hp Hid Hf Ha Happ. assert (l_key r = (p, lw_memory_id w)) as Hk by (unfold l_key; congruence).
  rewrite Hk in Hv |- *. destruct (wpersist_spec p w r s k) as (s' & Hw & Hs & Hu); [done..|].
  exists s', k. split_and!; [unfold wbind; by rewrite Hw|done|]. apply rtc_once.
  eapply vstep_row; [exact Hv| |exact Hu]. by apply (row_transition _ _ e l).
Qed.

Lemma persist_touch {B} (b : B) p w r s k :
  vault s (l_key r) = Some r → l_project_id r = p → lw_memory_id w = l_id r →
  lw_from_status w = l_status r → lw_to_status w = l_status r →
  ∃ s' k', wbind (wpersist p w) (λ _, wret b) (s, k) = (Ok b, (s', k'))
           ∧ updates s s' (l_key r) (written w r) ∧ rtc vstep s s'.
Proof.
  intros Hv Hp Hid Hf Ht. assert (l_key r = (p, lw_memory_id w)) as Hk by (unfold l_key; congruence).
  rewrite Hk in Hv |- *. destruct (wpersist_spec p w r s k) as (s' & Hw & Hs & Hu); [done..|].
  exists s', k. split_and!; [unfold wbind; by rewrite Hw|done|]. apply rtc_once.
  eapply vstep_row; [exact Hv| |exact Hu]. by apply row_touch.
Qed.

(** A body that leaves the row alone. *)
Lemma leave_row {B} (b : B) r s k : vault s (l_key r) = Some r →
  ∃ s' k', wret b (s, k) = (Ok b, (s', k')) ∧ updates s s' (l_key r) r ∧ rtc vstep s s'.
Proof. intros Hv. exists s, k. split_and!; [done| |done]. intros m'. by case_decide; subst. Qed.

Lemma require_returned_row_ok r p st : l_project_id r = p → l_status r = st →
  require_returned_row r p st = Ok tt.
Proof. intros <- <-. unfold require_returned_row. by rewrite !bool_decide_eq_true_2. Qed.
End Workers.

#[export] Hint Resolve vsteps_governed updates_same : tracebed.
