(* ===== verification/VaultStore.v ===== *)
(** * The Postgres lifecycle store (stores/pg/memory_lifecycle.py)

    The table [memory_item] restricted to the columns the lifecycle projection reads and
    writes, as a finite map from its primary key; one definition per SQL template.  What
    the erasure fence decides ([tracebed_runtime_memory_visible]) is the parameter
    [memory_visible]: every statement carries it, so a fenced row is neither returned nor
    written.  The instance at the end discharges the port's laws (Lifecycle.v). *)

From Stdlib Require Import Floats.
From S2P Require Import Prelude Domain PyText Json StateMachine Memory Lifecycle.
Open Scope Z_scope.

(** The columns besides the key.  [input_sig_hashes] are [bytes]. *)
Record memory_columns := mkMemoryColumns {
  c_status : Status;
  c_trust_tier : TrustTier;
  c_mem_type : MemType;
  c_provenance : Provenance;
  c_status_changed_at : option datetime;
  c_strike_count : Z;
  c_last_retrieved_at : option datetime;
  c_created_at : datetime;
  c_q_value : float;
  c_last_revalidated_at : option datetime;
  c_scored_use_count : Z;
  c_last_scored_at : option datetime;
  c_epoch_id : option Z;
  c_subject_tag : option pystr;
  c_shadow_confirm_runs : list RunId;
  c_hashes : Is_true (bytes_ok (input_sig_hashes c_provenance));
}.

Abbreviation memory_item := (gmap row_key memory_columns).

(** [memory_status_log]. *)
Record status_log_row := mkLog {
  sl_key : row_key;
  sl_from_status : Status;
  sl_to_status : Status;
  sl_reason : pystr;
  sl_actor : option PrincipalId;
  sl_evidence : list (pystr * json);
  sl_epoch_id : option Z;
  sl_changed_at : datetime;
}.

(** [review_queue], [memory_link], [injection_log], [outcome_event]: the columns the workers
    read or write. *)
Record review_row := mkReview { rq_project_id : ProjectId; rq_reason : pystr; rq_memory_id : option MemoryId }.
Record link_row := mkLink {
  lk_project_id : ProjectId; lk_src_id : MemoryId; lk_dst_id : MemoryId; lk_relation : pystr }.
Record injection_row := mkInjection {
  ij_project_id : ProjectId; ij_run_id : RunId; ij_memory_id : MemoryId }.
Record outcome_row := mkOutcomeRow {
  oe_project_id : ProjectId; oe_event_id : uuid; oe_run_id : RunId }.

(** [memory_q_update]: the ledger of Q updates. *)
Record memory_q_update := mkQUpdateRow {
  qu_project_id : ProjectId;
  qu_memory_id : MemoryId;
  qu_event_id : uuid;
  qu_principal_id : PrincipalId;
  qu_previous_q : float;
  qu_new_q : float;
  qu_contribution : float;
  qu_epoch_id : Z;
  qu_scored_at : datetime;
}.

Record database := mkDb {
  items : memory_item;
  status_log : list status_log_row;
  review_queue : list review_row;
  memory_links : list link_row;
  injections : list injection_row;
  outcomes : list outcome_row;
  q_updates : list memory_q_update;
}.

Definition set_items (t : memory_item) (d : database) : database :=
  mkDb t (status_log d) (review_queue d) (memory_links d) (injections d) (outcomes d) (q_updates d).

(** [_row_to_lifecycle_row]. *)
Definition row_to_lifecycle_row (k : row_key) (c : memory_columns) : LifecycleMemoryRow :=
  mkLRow k.2 k.1 (c_status c) (c_trust_tier c) (c_mem_type c) (c_provenance c) (c_status_changed_at c)
    (c_strike_count c) (c_last_retrieved_at c) (c_created_at c) (c_q_value c).

(** jsonb [v ?| keys]: one of the keys is an element of the array [v] (or a key of the
    object); [NULL ?| keys] is [NULL], which a [WHERE] takes as false. *)
Definition jsonb_exists_any (v : option json) (keys : list pystr) : bool :=
  match v with
  | Some (JArr l) => existsb (λ x, match x with JStr s => bool_decide (s ∈ keys) | _ => false end) l
  | Some (JObj l) => existsb (λ '(k, _), bool_decide (k ∈ keys)) l
  | Some (JStr s) => bool_decide (s ∈ keys)
  | _ => false
  end.

(** The selector disjunction of [_SELECT_BY_PROVENANCE_SQL], on the persisted encoding. *)
Definition sql_provenance_matches (sel : InvalidationSelector) (p : Provenance) : bool :=
  let prov key := dict_get (to_json p) (of_ascii key) in
  jsonb_exists_any (prov "tool_refs") (sel_tool_refs sel)
  || jsonb_exists_any (prov "trace_ids") (map (λ r, uuid_str (RunId_value r)) (sel_trace_ids sel))
  || jsonb_exists_any (prov "input_sig_hashes") (map bytes_hex (sel_input_sig_hashes sel)).

Definition id_leb (a b : LifecycleMemoryRow) : bool :=
  N.leb (uuid_int (MemoryId_value (l_id a))) (uuid_int (MemoryId_value (l_id b))).

Section Store.
Context (memory_visible : ProjectId → MemoryId → bool).

(** [SELECT ... FROM memory_item WHERE project_id = p AND visible AND pred ORDER BY id]. *)
Definition sql_select (t : memory_item) (p : ProjectId) (pred : LifecycleMemoryRow → bool)
  : list LifecycleMemoryRow :=
  py_sorted id_leb
    (List.filter (λ r, bool_decide (l_project_id r = p) && memory_visible (l_project_id r) (l_id r) && pred r)
       ((λ kc, row_to_lifecycle_row kc.1 kc.2) <$> map_to_list t)).

(** [_require_scoped] / [_require_scoped_status] on every returned row. *)
Definition require_scoped_status (p : ProjectId) (sts : list Status) (r : LifecycleMemoryRow)
  : result exn LifecycleMemoryRow :=
  check! bool_decide (l_project_id r = p) else TracebedError in
  check! bool_decide (l_status r ∈ sts) else TracebedError in
  Ok r.

Definition pg_select_by_provenance (t : memory_item) (p : ProjectId) (sel : InvalidationSelector)
  : list LifecycleMemoryRow :=
  sql_select t p (λ r, sql_provenance_matches sel (l_provenance r)).

Definition pg_select_by_status (t : memory_item) (p : ProjectId) (sts : list Status) (limit : Z)
  : list LifecycleMemoryRow :=
  match sts with
  | [] => []
  | _ => take (Z.to_nat (Z.max 0 limit)) (sql_select t p (λ r, bool_decide (l_status r ∈ sts)))
  end.

Definition pg_select_due (t : memory_item) (p : ProjectId) (older_than : datetime) (limit : Z)
  : list LifecycleMemoryRow :=
  take (Z.to_nat (Z.max 0 limit))
    (sql_select t p (λ r, bool_decide (l_status r = VALIDATED)
                          && (dt_us (idle_reference r) <=? dt_us older_than))).

(** The [SET] clause of [_PERSIST_SQL]. *)
Definition sql_set (w : LifecycleTransitionWrite) (c : memory_columns) : memory_columns :=
  mkMemoryColumns (lw_to_status w) (c_trust_tier c) (c_mem_type c) (c_provenance c)
    (if decide (lw_from_status w = lw_to_status w) then c_status_changed_at c else Some (lw_now w))
    (default (c_strike_count c) (lw_strike_count w))
    (c_last_retrieved_at c) (c_created_at c)
    (default (c_q_value c) (lw_q_value w))
    (match lw_last_revalidated_at w with Some d => Some d | None => c_last_revalidated_at c end)
    (c_scored_use_count c) (c_last_scored_at c) (c_epoch_id c)
    (c_subject_tag c) (c_shadow_confirm_runs c) (c_hashes c).

(** The [WHERE] selects at most the one row of that key; no row is [rowcount == 0]. *)
Definition pg_persist (t : memory_item) (p : ProjectId) (w : LifecycleTransitionWrite)
  : result lifecycle_error memory_item :=
  match t !! (p, lw_memory_id w) with
  | Some c =>
      if bool_decide (c_status c = lw_from_status w) && memory_visible p (lw_memory_id w)
      then Ok (<[(p, lw_memory_id w) := sql_set w c]> t)
      else Err StaleStatusTransition
  | None => Err StaleStatusTransition
  end.

(** The rows the statements can see. *)
Definition table_vault (t : memory_item) (k : row_key) : option LifecycleMemoryRow :=
  if memory_visible k.1 k.2 then row_to_lifecycle_row k <$> t !! k else None.

#[export] Instance pg_vault : Vault database := λ d, table_vault (items d).

#[export] Instance pg_repo : LifecycleRepo database := {|
  repo_vault := pg_vault;
  select_by_status d p sts := pg_select_by_status (items d) p sts 10000;
  select_due_for_revalidation d p n := pg_select_due (items d) p n 10000;
  select_by_provenance d := pg_select_by_provenance (items d);
  persist d p w := match pg_persist (items d) p w with Ok t => Ok (set_items t d) | Err e => Err e end;
|}.

(** ** The laws *)

Lemma elem_of_sql_select t p pred r :
  r ∈ sql_select t p pred ↔ table_vault t (l_key r) = Some r ∧ l_project_id r = p ∧ pred r = true.
Proof.
  unfold sql_select. rewrite elem_of_py_sorted, list_elem_of_In, filter_In, <- list_elem_of_In,
    list_elem_of_fmap, !andb_true_iff, bool_decide_eq_true.
  unfold table_vault. cbn [fst snd]. split.
  - intros ([[k c] [-> Hk%elem_of_map_to_list]] & [Hp Hvis] & Hpred). cbn in *.
    rewrite Hvis. destruct k as [q m]. change (l_key (row_to_lifecycle_row (q, m) c)) with (q, m). by rewrite Hk.
  - intros (Hv & Hp & Hpred). destruct (memory_visible _ _) eqn:Hvis; [|done].
    destruct (t !! l_key r) as [c|] eqn:Hc; [|done]. injection Hv as Hr.
    split; [|done]. exists (l_key r, c). split; [done|]. by apply elem_of_map_to_list.
Qed.

Lemma sql_select_NoDup t p pred : NoDup (l_key <$> sql_select t p pred).
Proof.
  unfold sql_select. rewrite py_sorted_Permutation. apply filter_keys_NoDup.
  rewrite <- list_fmap_compose. rewrite (list_fmap_ext _ fst); [apply NoDup_fst_map_to_list|].
  by intros i [[] ?] _.
Qed.

(** The SQL predicate on the persisted strings is the overlap of the decoded values. *)
Lemma bytes_hex_inj a b : forallb (λ b, (0 <=? b) && (b <? 256)) a = true →
  forallb (λ b, (0 <=? b) && (b <? 256)) b = true → bytes_hex a = bytes_hex b → a = b.
Proof.
  intros Ha Hb Heq. apply (inj (@Ok exn (list Z))).
  rewrite <- (bytes_fromhex_hex a), <- (bytes_fromhex_hex b), Heq; [done|..];
    apply Forall_forall; intros x Hx%list_elem_of_In.
  - eapply forallb_forall in Hb; [|done]. lia.
  - eapply forallb_forall in Ha; [|done]. lia.
Qed.

Lemma jsonb_overlaps {A} `{EqDecision A} (enc : A → pystr) (l k : list A) :
  (∀ x y, x ∈ k → y ∈ l → enc x = enc y → x = y) →
  jsonb_exists_any (match l with [] => None | _ => Some (JArr (map (λ x, JStr (enc x)) l)) end) (map enc k)
  = overlaps k l.
Proof.
  intros Hinj. apply eq_bool_prop_intro. rewrite !Is_true_true, overlaps_true.
  transitivity (existsb (λ x, bool_decide (enc x ∈ map enc k)) l = true).
  { assert (Hm : existsb (λ x, match x with JStr s => bool_decide (s ∈ map enc k) | _ => false end)
                     (map (λ x, JStr (enc x)) l) = existsb (λ x, bool_decide (enc x ∈ map enc k)) l)
      by (clear; induction l as [|y l IH]; [done|]; simpl; by rewrite IH).
    rewrite <- Hm. by destruct l. }
  rewrite existsb_exists. setoid_rewrite bool_decide_eq_true. setoid_rewrite <- list_elem_of_In. split.
  - intros (y & Hy & (x & Heq & Hx)%list_elem_of_fmap). exists x. split; [done|].
    by rewrite (Hinj x y).
  - intros (x & Hx & Hy). exists x. split; [done|]. by apply list_elem_of_fmap_2.
Qed.

Lemma sql_provenance_decoded sel p : Is_true (bytes_ok (input_sig_hashes p)) →
  bytes_ok (sel_input_sig_hashes sel) = true → sql_provenance_matches sel p = selector_matches p sel.
Proof.
  intros Hp%Is_true_true Hs. unfold sql_provenance_matches, selector_matches.
  rewrite get_tool_refs, get_trace_ids, get_hashes.
  rewrite <- (map_id (sel_tool_refs sel)) at 1.
  rewrite (jsonb_overlaps id), !jsonb_overlaps; [done| | |done].
  - intros x y Hx%list_elem_of_In Hy%list_elem_of_In.
    eapply forallb_forall in Hs; [|exact Hx]. eapply forallb_forall in Hp; [|exact Hy].
    by apply bytes_hex_inj.
  - intros [x] [y] _ _ Heq%uuid_str_inj. simpl in Heq. by subst.
Qed.

Lemma take_id {A} (l : list A) n : (length (take n l) < n)%nat → take n l = l.
Proof. rewrite length_take. intros H. apply take_ge. lia. Qed.

Lemma take_NoDup_key (l : list LifecycleMemoryRow) n : NoDup (l_key <$> l) → NoDup (l_key <$> take n l).
Proof. intros H. eapply submseteq_NoDup; [exact H|]. apply sublist_submseteq, fmap_sublist, sublist_take. Qed.

Lemma vault_key t k r : table_vault t k = Some r → l_key r = k.
Proof.
  destruct k as [q m]. unfold table_vault. cbn. destruct (memory_visible q m); [|done].
  destruct (t !! (q, m)); [|done]. by intros [= <-].
Qed.

Lemma vault_stored t k r : table_vault t k = Some r →
  memory_visible k.1 k.2 = true ∧ ∃ c, t !! k = Some c ∧ r = row_to_lifecycle_row k c.
Proof.
  unfold table_vault. destruct (memory_visible k.1 k.2); [|done]. destruct (t !! k) as [c|]; [|done].
  intros [= <-]. eauto.
Qed.

Lemma pg_persist_applies d p w r : vault d (p, lw_memory_id w) = Some r → l_status r = lw_from_status w →
  ∃ d', persist d p w = Ok d' ∧ updates d d' (p, lw_memory_id w) (written w r).
Proof.
  intros (Hvis & c & Hc & ->)%vault_stored Hst. cbn [persist pg_repo]. unfold pg_persist. rewrite Hc.
  rewrite bool_decide_eq_true_2 by done. cbn in Hvis. rewrite Hvis. eexists. split; [done|].
  intros k. unfold vault, repo_vault, pg_vault, table_vault. cbn [items set_items pg_repo].
  destruct (decide ((p, lw_memory_id w) = k)) as [<-|Hne].
  - cbn. by rewrite Hvis, lookup_insert_eq.
  - by rewrite lookup_insert_ne.
Qed.

Lemma pg_persist_stale d p w :
  (∀ r, vault d (p, lw_memory_id w) = Some r → l_status r ≠ lw_from_status w) →
  persist d p w = Err StaleStatusTransition.
Proof.
  cbn [persist pg_repo]. unfold pg_persist, vault, repo_vault, pg_vault, table_vault. cbn.
  intros H. destruct (items d !! (p, lw_memory_id w)) as [c|]; [|done].
  destruct (memory_visible p (lw_memory_id w)); [|by rewrite andb_false_r].
  case_bool_decide as Heq; [|done]. by destruct (H _ eq_refl).
Qed.

#[export] Instance pg_laws : LifecycleRepoLaws database.
Proof.
  split.
  - intros d. apply vault_key.
  - intros d p sts r. cbn [select_by_status pg_repo]. unfold pg_select_by_status.
    destruct sts; [by intros ?%elem_of_nil|].
    intros (i & H%list_elem_of_lookup_2 & _)%elem_of_take.
    apply elem_of_sql_select in H as (? & ? & ?%bool_decide_eq_true_1). done.
  - intros d p sts. cbn. unfold pg_select_by_status. destruct sts; [constructor|].
    apply take_NoDup_key, sql_select_NoDup.
  - intros d p sts m r. cbn [select_by_status pg_repo]. unfold pg_select_by_status.
    destruct sts as [|st sts]; [by intros _ _ _ ?%elem_of_nil|]. intros Hlim Hv Hp Hst.
    rewrite take_id by done. apply elem_of_sql_select. rewrite bool_decide_eq_true_2 by done.
    by rewrite (vault_key _ _ _ Hv).
  - intros d p n r. cbn [select_due_for_revalidation pg_repo]. unfold pg_select_due.
    intros (i & H%list_elem_of_lookup_2 & _)%elem_of_take.
    apply elem_of_sql_select in H as (? & ? & [?%bool_decide_eq_true_1 ?%Z.leb_le]%andb_true_iff). done.
  - intros d p n. apply take_NoDup_key, sql_select_NoDup.
  - intros d p sel r Hsel. cbn [select_by_provenance pg_repo]. unfold pg_select_by_provenance.
    rewrite elem_of_sql_select. split; intros (Hv & Hp & Hm); split_and!; try done;
      apply vault_stored in Hv as (_ & c & _ & Hr); rewrite Hr in Hm |- *; cbn in Hm |- *;
      [rewrite <- sql_provenance_decoded|rewrite sql_provenance_decoded]; (done || apply c_hashes).
  - intros d p sel. apply sql_select_NoDup.
  - apply pg_persist_applies.
  - apply pg_persist_stale.
Qed.

(** The re-assertion on returned rows never fires: the predicate already held. *)
Lemma scoped_never_raises t p sts limit :
  rmap (require_scoped_status p sts) (pg_select_by_status t p sts limit) = Ok (pg_select_by_status t p sts limit).
Proof.
  assert (H : ∀ r, r ∈ pg_select_by_status t p sts limit → require_scoped_status p sts r = Ok r).
  { unfold pg_select_by_status. destruct sts; [by intros r ?%elem_of_nil|].
    intros r (i & H%list_elem_of_lookup_2 & _)%elem_of_take.
    apply elem_of_sql_select in H as (_ & Hp & Hst). unfold require_scoped_status.
    by rewrite bool_decide_eq_true_2, Hst. }
  revert H. generalize (pg_select_by_status t p sts limit). intros l H.
  induction l as [|r l IH]; [done|]. cbn. rewrite H by left. cbn.
  rewrite IH; [done|]. intros r' Hr'. apply H. by right.
Qed.

(** Writers racing for one row, in the order their statements run: a refused statement
    leaves the table as it was. *)
Fixpoint race (t : memory_item) (p : ProjectId) (ws : list LifecycleTransitionWrite)
  : list bool * memory_item :=
  match ws with
  | [] => ([], t)
  | w :: ws' =>
      match pg_persist t p w with
      | Ok t' => let '(rs, t'') := race t' p ws' in (true :: rs, t'')
      | Err _ => let '(rs, t'') := race t p ws' in (false :: rs, t'')
      end
  end.

Lemma pg_persist_moved t p w t' : pg_persist t p w = Ok t' →
  ∃ c, t' !! (p, lw_memory_id w) = Some c ∧ c_status c = lw_to_status w.
Proof.
  unfold pg_persist. destruct (t !! _) as [c|]; [|done]. destruct (_ && _); [|done].
  intros [= <-]. rewrite lookup_insert_eq. eexists. split; [done|]. done.
Qed.

Lemma race_lost t p m st ws c : t !! (p, m) = Some c → c_status c ≠ st →
  Forall (λ w, lw_memory_id w = m ∧ lw_from_status w = st) ws →
  race t p ws = (replicate (length ws) false, t).
Proof.
  intros Hc Hne Hws. induction Hws as [|w ws [Hm Hst] _ IH]; [done|]. cbn.
  assert (pg_persist t p w = Err StaleStatusTransition) as ->; [|by rewrite IH].
  unfold pg_persist. rewrite Hm, Hc, Hst. by rewrite bool_decide_eq_false_2.
Qed.

(** Optimistic concurrency: when any number of writers try to move the same row out of
    the same status, in any order, at most one of them is told it succeeded; the others
    raise [StaleStatusTransition] and change nothing. *)
Lemma one_winner t p m st ws :
  Forall (λ w, lw_memory_id w = m ∧ lw_from_status w = st ∧ lw_to_status w ≠ st) ws →
  (length (filter (λ b, b = true) (race t p ws).1) ≤ 1)%nat
  ∧ (∀ k, k ≠ (p, m) → (race t p ws).2 !! k = t !! k)
  ∧ ((race t p ws).2 = t ∨ ∃ w c, w ∈ ws ∧ t !! (p, m) = Some c ∧ (race t p ws).2 = <[(p, m) := sql_set w c]> t).
Proof.
  intros Hws. induction Hws as [|w ws (Hm & Hst & Hto) Hws IH]; [cbn; auto with lia|]. cbn [race].
  destruct (pg_persist t p w) as [t'|e] eqn:Hp.
  - destruct (pg_persist_moved _ _ _ _ Hp) as (c' & Hc' & Hs').
    rewrite Hm in Hc'. rewrite (race_lost t' p m st ws c'); [|done|congruence|].
    2: { eapply Forall_impl; [exact Hws|]. naive_solver. }
    unfold pg_persist in Hp. rewrite Hm in Hp. destruct (t !! (p, m)) as [c|] eqn:Hc; [|done].
    destruct (_ && _); [|done]. injection Hp as <-. cbn [fst snd]. split_and!.
    + rewrite filter_cons_True by done. cbn.
      clear. induction (length ws) as [|k IH]; cbn; [lia|]. by rewrite decide_False.
    + intros k Hk. by rewrite lookup_insert_ne.
    + right. exists w, c. split_and!; [left|done|done].
  - destruct (race t p ws) as [rs t''] eqn:Hr. cbn [fst snd] in *. destruct IH as (IH1 & IH2 & IH3).
    split_and!; [by rewrite filter_cons_False by done|done|].
    destruct IH3 as [->|(w' & c & Hw' & Hc & ->)]; [by left|]. right. exists w', c.
    split_and!; [by right|done|done].
Qed.
End Store.

(** ** An example table *)

Definition project_ex : ProjectId := mkProjectId (mkUUID 1 I).
Definition memory_ex (n : N) (H : Is_true (N.ltb n (2 ^ 128))) : MemoryId := mkMemoryId (mkUUID n H).
Definition instant (d : Z) : datetime := mkDatetime (timedelta_days d) true.
Definition columns_ex (st : Status) (changed : option datetime) (q : float) : memory_columns :=
  mkMemoryColumns st TierB LESSON provenance_ex changed 0 None (instant 0) q None 0 None None None [] I.

Definition table_ex : memory_item :=
  <[(project_ex, memory_ex 3 I) := columns_ex QUARANTINED (Some (instant 0)) 0.5]>
  (<[(project_ex, memory_ex 4 I) := columns_ex CANDIDATE (Some (instant 40)) 0.5]>
  (<[(project_ex, memory_ex 5 I) := columns_ex VALIDATED (Some (instant 1)) 0.5]> ∅)).

Definition db_ex : database := mkDb table_ex [] [] [] [] [] [].

Definition all_visible (p : ProjectId) (m : MemoryId) : bool := true.

Lemma one_winner_witness :
  let w to := mkLWrite (memory_ex 5 I) VALIDATED to (instant 60) None None None in
  (length (filter (λ b, b = true) (race all_visible table_ex project_ex [w STALE; w ARCHIVED]).1) ≤ 1)%nat.
Proof.
  intros w. apply (one_winner all_visible table_ex project_ex (memory_ex 5 I) VALIDATED [w STALE; w ARCHIVED]).
  repeat constructor; done.
Defined.

(** Boolean checks of a concrete table. *)
Definition columns_dated (c : memory_columns) : bool :=
  require_aware (c_status_changed_at c) && require_aware (c_last_retrieved_at c) && dt_aware (c_created_at c).

Lemma table_dated memory_visible d : forallb (λ kc, columns_dated kc.2) (map_to_list (items d)) = true →
  @dated _ (pg_vault memory_visible) d.
Proof.
  intros Ht k r (_ & c & Hc & ->)%vault_stored. rewrite forallb_forall in Ht.
  specialize (Ht (k, c)). rewrite <- list_elem_of_In, elem_of_map_to_list in Ht.
  specialize (Ht Hc). unfold columns_dated in Ht. cbn in Ht. by bsplit.
Qed.
