(* ===== verification/Sweeps.v ===== *)
(** * TTL sweeps and idle decay (workers/sweeps.py)

    The two TTL sweeps, the decay sweep and [run_all_sweeps], over any store that keeps
    the port's laws (Lifecycle.v).  The float power behind [**] is the parameter [fpow]:
    it is the C library's and nothing is assumed of it. *)

From S2P Require Import Prelude Domain PyText PyFloat StateMachine Memory Lifecycle VaultStore.
Open Scope Z_scope.

Record SweepResult := mkSweep {
  sw_rows_examined : Z;
  sw_transitioned : list MemoryId;
  sw_decayed_only : list MemoryId;
  sw_undatable : list MemoryId;
}.

Record SweepReport := mkReport {
  rep_quarantine : SweepResult; rep_candidate : SweepResult; rep_decay : SweepResult }.

(** Which of the result's lists a row is appended to, if any. *)
Inductive mark := Transitioned | DecayedOnly | Undatable | NotDue.

#[export] Instance mark_eq_dec : EqDecision mark.
Proof. solve_decision. Defined.

Definition marked (k : mark) (ms : list (mark * MemoryId)) : list MemoryId :=
  snd <$> filter (λ p, p.1 = k) ms.

Definition sweep_result (ms : list (mark * MemoryId)) : SweepResult :=
  mkSweep (Z.of_nat (length ms)) (marked Transitioned ms) (marked DecayedOnly ms) (marked Undatable ms).

Definition decay_evidence (n : datetime) (r : LifecycleMemoryRow) : TransitionEvidence :=
  mkEvidence n (cls (l_provenance r)) (l_trust_tier r) (l_mem_type r) false false false false
    (l_status_changed_at r) [] false 0 0 false false false false false
    false false false false 0 0%float 0 0 true false false false.

(** [(now - reference).days // 7]; comparing a naive with an aware instant raises. *)
Definition idle_weeks (reference n : datetime) : result exn Z :=
  check! Bool.eqb (dt_aware reference) (dt_aware n) else TypeError in
  Ok (if dt_us n <=? dt_us reference then 0
      else (dt_us n - dt_us reference) / timedelta_days 1 / 7).

Section Sweeps.
Context {S : Type} `{!LifecycleRepo S} (clock : nat → datetime) (fpow : float → Z → float).

Definition decayed_q_value (q_start floor pct_per_week : float) (idle_weeks : Z) : float :=
  let pct := py_fmin 100 (py_fmax 0 pct_per_week) in
  if idle_weeks <=? 0 then q_start
  else
    let factor := fpow (1 - pct / 100)%float idle_weeks in
    py_fmax floor (floor + (q_start - floor) * factor)%float.

(** The body of [_sweep_ttl]'s loop. *)
Definition sweep_ttl_row (p : ProjectId) (limits : TransitionLimits) (n : datetime)
    (source target : Status) (row : LifecycleMemoryRow) : worker S (mark * MemoryId) :=
  let* _ := wlift (require_returned_row row p source) in
  match l_status_changed_at row with
  | None => wret (Undatable, l_id row)
  | Some _ =>
      let* e := wlift (of_exn (evidence_post_init (row_evidence n row))) in
      match apply (Some (l_status row)) target e limits with
      | Err (GuardNotSatisfied _ _ _) => wret (NotDue, l_id row)
      | Err err => wlift (Err (LTransition err))
      | Ok new_status =>
          let* _ := wpersist p (mkLWrite (l_id row) (l_status row) new_status n None None None) in
          wret (Transitioned, l_id row)
      end
  end.

Definition sweep_ttl (p : ProjectId) (cfg : EffectiveConfig) (source target : Status)
  : worker S SweepResult :=
  let* limits := wlift (of_exn (from_config cfg)) in
  let* n := wnow clock in
  let* rows := wread (λ s, select_by_status s p [source]) in
  let* ms := wfor (sweep_ttl_row p limits n source target) rows in
  wret (sweep_result ms).

Definition quarantine_ttl_sweep (p : ProjectId) (cfg : EffectiveConfig) : worker S SweepResult :=
  sweep_ttl p cfg QUARANTINED ARCHIVED.
Definition candidate_ttl_sweep (p : ProjectId) (cfg : EffectiveConfig) : worker S SweepResult :=
  sweep_ttl p cfg CANDIDATE ARCHIVED.

(** The body of [decay_sweep]'s loop. *)
Definition decay_row (p : ProjectId) (cfg : EffectiveConfig) (limits : TransitionLimits) (n : datetime)
    (row : LifecycleMemoryRow) : worker S (mark * MemoryId) :=
  let* _ := wlift (require_returned_row row p VALIDATED) in
  let* weeks := wlift (of_exn (idle_weeks (idle_reference row) n)) in
  if weeks <=? 0 then wret (NotDue, l_id row)
  else
    let new_q := decayed_q_value (cfg_q_start cfg) (archive_floor limits)
                   (cfg_decay_pct_per_idle_week cfg) weeks in
    if (archive_floor limits <? new_q)%float then
      if (l_q_value row <=? new_q)%float then wret (NotDue, l_id row)
      else
        let* _ := wpersist p (mkLWrite (l_id row) (l_status row) (l_status row) n None (Some new_q) None) in
        wret (DecayedOnly, l_id row)
    else
      let* e := wlift (of_exn (evidence_post_init (decay_evidence n row))) in
      let* new_status := wlift (of_transition (apply (Some (l_status row)) ARCHIVED e limits)) in
      let* _ := wpersist p (mkLWrite (l_id row) (l_status row) new_status n None
                              (Some (archive_floor limits)) None) in
      wret (Transitioned, l_id row).

Definition decay_sweep (p : ProjectId) (cfg : EffectiveConfig) : worker S SweepResult :=
  let* limits := wlift (of_exn (from_config cfg)) in
  let* n := wnow clock in
  let* rows := wread (λ s, select_by_status s p [VALIDATED]) in
  let* ms := wfor (decay_row p cfg limits n) rows in
  wret (sweep_result ms).

Definition run_all_sweeps (p : ProjectId) (cfg : EffectiveConfig) : worker S SweepReport :=
  let* q := quarantine_ttl_sweep p cfg in
  let* c := candidate_ttl_sweep p cfg in
  let* d := decay_sweep p cfg in
  wret (mkReport q c d).
End Sweeps.

(** ** What one row is after each sweep *)

Definition archived_at (n : datetime) (q : float) (r : LifecycleMemoryRow) : LifecycleMemoryRow :=
  mkLRow (l_id r) (l_project_id r) ARCHIVED (l_trust_tier r) (l_mem_type r) (l_provenance r)
    (Some n) (l_strike_count r) (l_last_retrieved_at r) (l_created_at r) q.

Definition with_q (q : float) (r : LifecycleMemoryRow) : LifecycleMemoryRow :=
  mkLRow (l_id r) (l_project_id r) (l_status r) (l_trust_tier r) (l_mem_type r) (l_provenance r)
    (l_status_changed_at r) (l_strike_count r) (l_last_retrieved_at r) (l_created_at r) q.

Definition ttl_mark (ttl_days : Z) (n : datetime) (r : LifecycleMemoryRow) : mark :=
  match l_status_changed_at r with
  | None => Undatable
  | Some changed => if timedelta_days ttl_days <=? dt_us n - dt_us changed then Transitioned else NotDue
  end.

Definition ttl_after (ttl_days : Z) (n : datetime) (r : LifecycleMemoryRow) : LifecycleMemoryRow :=
  if decide (ttl_mark ttl_days n r = Transitioned) then archived_at n (l_q_value r) r else r.

(** Whole weeks since the row was last used. *)
Definition weeks_idle (n : datetime) (r : LifecycleMemoryRow) : Z :=
  if dt_us n <=? dt_us (idle_reference r) then 0
  else (dt_us n - dt_us (idle_reference r)) / timedelta_days 1 / 7.

Section Decay.
Context (fpow : float → Z → float) (cfg : EffectiveConfig) (n : datetime).

Definition curve (r : LifecycleMemoryRow) : float :=
  decayed_q_value fpow (cfg_q_start cfg) (cfg_archive_floor cfg) (cfg_decay_pct_per_idle_week cfg)
    (weeks_idle n r).

Definition decay_mark (r : LifecycleMemoryRow) : mark :=
  if weeks_idle n r <=? 0 then NotDue
  else if (cfg_archive_floor cfg <? curve r)%float
  then (if (l_q_value r <=? curve r)%float then NotDue else DecayedOnly)
  else Transitioned.

Definition decay_after (r : LifecycleMemoryRow) : LifecycleMemoryRow :=
  match decay_mark r with
  | DecayedOnly => with_q (curve r) r
  | Transitioned => archived_at n (cfg_archive_floor cfg) r
  | _ => r
  end.
End Decay.

Definition ttl_of (source : Status) (cfg : EffectiveConfig) : Z :=
  match source with QUARANTINED => cfg_quarantine_ttl_days cfg | _ => cfg_candidate_ttl_days cfg end.

(** All three sweeps on one row. *)
Definition swept (fpow : float → Z → float) (p : ProjectId) (cfg : EffectiveConfig) (n : datetime)
    (r : LifecycleMemoryRow) : LifecycleMemoryRow :=
  if population p QUARANTINED r then ttl_after (cfg_quarantine_ttl_days cfg) n r
  else if population p CANDIDATE r then ttl_after (cfg_candidate_ttl_days cfg) n r
  else if population p VALIDATED r then decay_after fpow cfg n r
  else r.

(** ** One row *)

Lemma from_config_limits cfg l : from_config cfg = Ok l →
  quarantine_ttl_days l = cfg_quarantine_ttl_days cfg ∧ candidate_ttl_days l = cfg_candidate_ttl_days cfg
  ∧ archive_floor l = cfg_archive_floor cfg.
Proof. unfold from_config. intros [-> _]%limits_floors. done. Qed.

Section OneRow.
Context {S : Type} `{!LifecycleRepo S, !LifecycleRepoLaws S}.
Context (p : ProjectId) (cfg : EffectiveConfig) (l : TransitionLimits) (n : datetime).
Hypothesis Hl : from_config cfg = Ok l.
Hypothesis Hn : dt_aware n = true.

Lemma ttl_guard source r : source = QUARANTINED ∨ source = CANDIDATE →
  apply (Some source) ARCHIVED (row_evidence n r) l
  = match ttl_mark (ttl_of source cfg) n r with
    | Transitioned => Ok ARCHIVED
    | _ => Err (GuardNotSatisfied (Some source) ARCHIVED
                  (reason (guard_ttl_expired (row_evidence n r) (ttl_of source cfg))))
    end.
Proof.
  destruct (from_config_limits _ _ Hl) as (Hq & Hc & _). unfold ttl_mark.
  intros [-> | ->];
    [rewrite (apply_edge _ _ guard_quarantined_to_archived) by reflexivity
    |rewrite (apply_edge _ _ guard_candidate_to_archived) by reflexivity];
    unfold guard_quarantined_to_archived, guard_candidate_to_archived; rewrite ?Hq, ?Hc;
    unfold guard_ttl_expired; cbn [row_evidence status_changed_at now ttl_of];
    (destruct (l_status_changed_at r); [|done]); by destruct (_ <=? _).
Qed.

Lemma sweep_ttl_row_acts source r : source = QUARANTINED ∨ source = CANDIDATE →
  l_project_id r = p → l_status r = source → require_aware (l_status_changed_at r) = true →
  acts (sweep_ttl_row p l n source ARCHIVED) r
    (ttl_mark (ttl_of source cfg) n r, l_id r) (ttl_after (ttl_of source cfg) n r).
Proof.
  intros Hsrc Hp Hst Haw s k Hv. unfold sweep_ttl_row.
  rewrite (wlift_ok _ _ _ tt) by by apply require_returned_row_ok.
  unfold ttl_after. destruct (l_status_changed_at r) as [d|] eqn:Hd.
  - rewrite (wlift_ok _ _ _ (row_evidence n r)) by (apply evidence_ok; [done|cbn; by rewrite Hd]).
    rewrite Hst, ttl_guard by done. assert (ttl_mark (ttl_of source cfg) n r = Transitioned ∨ ttl_mark (ttl_of source cfg) n r = NotDue)
      as [Hm|Hm] by (unfold ttl_mark; rewrite Hd; destruct (_ <=? _); tauto); rewrite Hm; [|by apply leave_row].
    rewrite decide_True by done.
    replace (archived_at n (l_q_value r) r) with (written (mkLWrite (l_id r) source ARCHIVED n None None None) r)
      by (destruct Hsrc as [-> | ->]; done).
    apply (persist_transition _ _ _ r (row_evidence n r) l); try done.
    rewrite Hst. cbn [lw_to_status]. rewrite ttl_guard by done. by rewrite Hm.
  - assert (ttl_mark (ttl_of source cfg) n r = Undatable) as -> by (unfold ttl_mark; by rewrite Hd).
    by apply leave_row.
Qed.

Lemma decay_row_acts fpow r :
  l_project_id r = p → l_status r = VALIDATED → require_aware (l_status_changed_at r) = true →
  dt_aware (idle_reference r) = true →
  acts (decay_row fpow p cfg l n) r (decay_mark fpow cfg n r, l_id r) (decay_after fpow cfg n r).
Proof.
  intros Hp Hst Haw Href s k Hv. unfold decay_row.
  destruct (from_config_limits _ _ Hl) as (_ & _ & Hf).
  rewrite (wlift_ok _ _ _ tt) by by apply require_returned_row_ok.
  rewrite (wlift_ok _ _ _ (weeks_idle n r)) by (unfold idle_weeks; by rewrite Href, Hn).
  rewrite Hf. fold (curve fpow cfg n r). unfold decay_after, decay_mark.
  destruct (weeks_idle n r <=? 0); [by apply leave_row|].
  destruct (cfg_archive_floor cfg <? curve fpow cfg n r)%float.
  - destruct (l_q_value r <=? curve fpow cfg n r)%float; [by apply leave_row|].
    replace (with_q (curve fpow cfg n r) r)
      with (written (mkLWrite (l_id r) (l_status r) (l_status r) n None (Some (curve fpow cfg n r)) None) r)
      by (unfold written; cbn; by rewrite decide_True).
    by apply persist_touch.
  - rewrite (wlift_ok _ _ _ (decay_evidence n r)) by by apply evidence_ok.
    rewrite (wlift_ok _ _ _ ARCHIVED) by by rewrite Hst.
    replace (archived_at n (cfg_archive_floor cfg) r)
      with (written (mkLWrite (l_id r) (l_status r) ARCHIVED n None (Some (cfg_archive_floor cfg)) None) r)
      by (unfold written; cbn; by rewrite Hst).
    apply (persist_transition _ _ _ r (decay_evidence n r) l); try done. by rewrite Hst.
Qed.
End OneRow.

(** ** Whole sweeps *)

(** The rows of a population, with the mark a sweep gives each. *)
Definition marks (mk : LifecycleMemoryRow → mark) (rows : list LifecycleMemoryRow) : list (mark * MemoryId) :=
  map (λ r, (mk r, l_id r)) rows.

Lemma marked_nil k mk rows : (∀ r, r ∈ rows → mk r ≠ k) → marked k (marks mk rows) = [].
Proof.
  intros H. unfold marked, marks. induction rows as [|r rows IH]; [done|]. cbn.
  rewrite decide_False by (apply H; left). apply IH. intros r' Hr'. apply H. by right.
Qed.

Section Whole.
Context {S : Type} `{!LifecycleRepo S, !LifecycleRepoLaws S}.
Context (clock : nat → datetime) (fpow : float → Z → float).
Context (p : ProjectId) (cfg : EffectiveConfig) (l : TransitionLimits).
Hypothesis Hl : from_config cfg = Ok l.

Lemma dated_idle s m r : dated s → vault s m = Some r → dt_aware (idle_reference r) = true.
Proof.
  intros Hd (_ & H & ?)%Hd. unfold idle_reference. by destruct (l_last_retrieved_at r).
Qed.

Lemma sweep_ttl_run source s k : source = QUARANTINED ∨ source = CANDIDATE →
  dt_aware (clock k) = true → dated s →
  ∃ s' k', sweep_ttl clock p cfg source ARCHIVED (s, k)
           = (Ok (sweep_result (marks (ttl_mark (ttl_of source cfg) (clock k)) (select_by_status s p [source]))), (s', k'))
           ∧ mapped s s' (select_by_status s p [source]) (ttl_after (ttl_of source cfg) (clock k))
           ∧ rtc vstep s s'.
Proof.
  intros Hsrc Hn Hd. unfold sweep_ttl. rewrite (wlift_ok _ _ _ l) by by rewrite Hl.
  destruct (select_loop (sweep_ttl_row p l (clock k) source ARCHIVED)
              (λ r, (ttl_mark (ttl_of source cfg) (clock k) r, l_id r))
              (ttl_after (ttl_of source cfg) (clock k)) p source s (1 + k)%nat) as (s' & k' & Hw & Hm & Hs).
  { intros r Hv Hp Hst. apply Hd in Hv as (? & _). by apply sweep_ttl_row_acts. }
  exists s', k'. split_and!; [|done..]. unfold wbind, wnow, wread. cbn [fst snd]. by rewrite Hw.
Qed.

Lemma decay_sweep_run s k : dt_aware (clock k) = true → dated s →
  ∃ s' k', decay_sweep clock fpow p cfg (s, k)
           = (Ok (sweep_result (marks (decay_mark fpow cfg (clock k)) (select_by_status s p [VALIDATED]))), (s', k'))
           ∧ mapped s s' (select_by_status s p [VALIDATED]) (decay_after fpow cfg (clock k))
           ∧ rtc vstep s s'.
Proof.
  intros Hn Hd. unfold decay_sweep. rewrite (wlift_ok _ _ _ l) by by rewrite Hl.
  destruct (select_loop (decay_row fpow p cfg l (clock k))
              (λ r, (decay_mark fpow cfg (clock k) r, l_id r))
              (decay_after fpow cfg (clock k)) p VALIDATED s (1 + k)%nat) as (s' & k' & Hw & Hm & Hs).
  { intros r Hv Hp Hst. pose proof (dated_idle _ _ _ Hd Hv). apply Hd in Hv as (? & _).
    by apply decay_row_acts. }
  exists s', k'. split_and!; [|done..]. unfold wbind, wnow, wread. cbn [fst snd]. by rewrite Hw.
Qed.

(** Rows keep their zones. *)
Lemma mapped_dated s s' rows g : dated s → mapped s s' rows g →
  (∀ r, r ∈ rows → vault s (l_key r) = Some r) →
  (∀ r, require_aware (l_status_changed_at r) = true → require_aware (l_status_changed_at (g r)) = true) →
  (∀ r, l_last_retrieved_at (g r) = l_last_retrieved_at r ∧ l_created_at (g r) = l_created_at r) →
  dated s'.
Proof.
  intros Hd Hm Hrows Hg Hc m r Hr.
  destruct (mapped_vault _ _ _ _ m Hm) as [(r0 & Hr0 & <- & Hv)|[_ Hv]]; rewrite Hv in Hr; [|by eapply Hd].
  injection Hr as <-. destruct (Hd _ _ (Hrows _ Hr0)) as (? & ? & ?). destruct (Hc r0) as [-> ->]. auto.
Qed.

Lemma ttl_after_dated ttl n r : dt_aware n = true → require_aware (l_status_changed_at r) = true →
  require_aware (l_status_changed_at (ttl_after ttl n r)) = true.
Proof. intros ??. unfold ttl_after. by case_decide. Qed.

Lemma decay_after_dated n r : dt_aware n = true → require_aware (l_status_changed_at r) = true →
  require_aware (l_status_changed_at (decay_after fpow cfg n r)) = true.
Proof. intros ??. unfold decay_after. by destruct (decay_mark _ _ _ _). Qed.

Lemma selected_stored s st r : r ∈ select_by_status s p [st] → vault s (l_key r) = Some r.
Proof. by intros (? & _)%select_one_sound. Qed.

(** A sweep restricted to its population, as a function on rows; it keeps a row's project
    and either keeps its status or archives it. *)
Definition only (st : Status) (g : LifecycleMemoryRow → LifecycleMemoryRow) (r : LifecycleMemoryRow) :=
  if population p st r then g r else r.

Definition archives (g : LifecycleMemoryRow → LifecycleMemoryRow) : Prop :=
  ∀ r, l_project_id (g r) = l_project_id r ∧ (l_status (g r) = l_status r ∨ l_status (g r) = ARCHIVED).

Lemma ttl_archives ttl n : archives (ttl_after ttl n).
Proof. intros r. unfold ttl_after. case_decide; auto. Qed.

Lemma decay_archives n : archives (decay_after fpow cfg n).
Proof. intros r. unfold decay_after. destruct (decay_mark _ _ _ _); auto. Qed.

Lemma only_population st st' g r : archives g → st' ≠ ARCHIVED →
  population p st' (only st g r) = true → population p st' r = true.
Proof.
  intros Hg Hne. unfold only. destruct (population p st r); [|done]. rewrite !population_true.
  destruct (Hg r) as [-> [-> | ->]]; [done|]. intros [_ <-]. done.
Qed.

Lemma swept_compose n r :
  swept fpow p cfg n r
  = only VALIDATED (decay_after fpow cfg n)
      (only CANDIDATE (ttl_after (cfg_candidate_ttl_days cfg) n)
         (only QUARANTINED (ttl_after (cfg_quarantine_ttl_days cfg) n) r)).
Proof.
  assert (Hother : ∀ st st' g, archives g → population p st r = true → st ≠ st' → st' ≠ ARCHIVED →
            population p st' (g r) = false).
  { intros st st' g Hg [Hp Hst]%population_true Hne Ha. apply not_true_iff_false. rewrite population_true.
    destruct (Hg r) as [_ [-> | ->]]; rewrite ?Hst; intros [_ ?]; congruence. }
  unfold swept, only. destruct (population p QUARANTINED r) eqn:HQ.
  { rewrite !(Hother QUARANTINED) by (done || apply ttl_archives). done. }
  destruct (population p CANDIDATE r) eqn:HC; [|done].
  by rewrite (Hother CANDIDATE) by (done || apply ttl_archives).
Qed.

Context (n : datetime) (Hclock : ∀ k, clock k = n) (Hn : dt_aware n = true).

(** Every population a sweep reads is below the limit of the select. *)
Definition uncut (s : S) : Prop :=
  Forall (λ st, (length (select_by_status s p [st]) < SELECT_LIMIT)%nat) [QUARANTINED; CANDIDATE; VALIDATED].

Lemma uncut_image s s' f : uncut s → (∀ m, vault s' m = f <$> vault s m) →
  (∀ st r, st ≠ ARCHIVED → population p st (f r) = true → population p st r = true) → uncut s'.
Proof.
  unfold uncut. rewrite !Forall_forall. intros Hu Hv Hf st Hst. apply (select_shrinks s); [by apply Hu|].
  intros m r Hr Hpop. rewrite Hv in Hr. destruct (vault s m) as [r0|]; [|done]. injection Hr as <-.
  exists r0. split; [done|]. apply Hf; [|done]. set_solver.
Qed.

Lemma ttl_step source s k : source = QUARANTINED ∨ source = CANDIDATE → dated s → uncut s →
  ∃ s' k', sweep_ttl clock p cfg source ARCHIVED (s, k)
           = (Ok (sweep_result (marks (ttl_mark (ttl_of source cfg) n) (select_by_status s p [source]))), (s', k'))
           ∧ (∀ m, vault s' m = only source (ttl_after (ttl_of source cfg) n) <$> vault s m)
           ∧ dated s' ∧ uncut s' ∧ rtc vstep s s'.
Proof.
  intros Hsrc Hd Hu. destruct (sweep_ttl_run source s k Hsrc ltac:(by rewrite Hclock) Hd)
    as (s' & k' & Hrun & Hm & Hs). rewrite Hclock in Hrun, Hm.
  assert (Hv : ∀ m, vault s' m = only source (ttl_after (ttl_of source cfg) n) <$> vault s m).
  { intros m. eapply mapped_all; [|exact Hm]. unfold uncut in Hu. rewrite !Forall_cons in Hu. naive_solver. }
  exists s', k'. split_and!; [done|done| | |done].
  - eapply mapped_dated; [done|exact Hm|apply selected_stored|intros; by apply ttl_after_dated|].
    intros r. unfold ttl_after. by case_decide.
  - eapply uncut_image; [done|exact Hv|]. intros. eapply only_population; [apply ttl_archives|done..].
Qed.

Lemma decay_step s k : dated s → uncut s →
  ∃ s' k', decay_sweep clock fpow p cfg (s, k)
           = (Ok (sweep_result (marks (decay_mark fpow cfg n) (select_by_status s p [VALIDATED]))), (s', k'))
           ∧ (∀ m, vault s' m = only VALIDATED (decay_after fpow cfg n) <$> vault s m)
           ∧ dated s' ∧ uncut s' ∧ rtc vstep s s'.
Proof.
  intros Hd Hu. destruct (decay_sweep_run s k ltac:(by rewrite Hclock) Hd)
    as (s' & k' & Hrun & Hm & Hs). rewrite Hclock in Hrun, Hm.
  assert (Hv : ∀ m, vault s' m = only VALIDATED (decay_after fpow cfg n) <$> vault s m).
  { intros m. eapply mapped_all; [|exact Hm]. unfold uncut in Hu. rewrite !Forall_cons in Hu. naive_solver. }
  exists s', k'. split_and!; [done|done| | |done].
  - eapply mapped_dated; [done|exact Hm|apply selected_stored|intros; by apply decay_after_dated|].
    intros r. unfold decay_after. by destruct (decay_mark _ _ _ _).
  - eapply uncut_image; [done|exact Hv|]. intros. eapply only_population; [apply decay_archives|done..].
Qed.

(** The marks and the effect of all three. *)
Lemma run_all_effect s k : dated s → uncut s →
  ∃ s1 s2 s' k', run_all_sweeps clock fpow p cfg (s, k)
    = (Ok (mkReport
             (sweep_result (marks (ttl_mark (cfg_quarantine_ttl_days cfg) n) (select_by_status s p [QUARANTINED])))
             (sweep_result (marks (ttl_mark (cfg_candidate_ttl_days cfg) n) (select_by_status s1 p [CANDIDATE])))
             (sweep_result (marks (decay_mark fpow cfg n) (select_by_status s2 p [VALIDATED])))), (s', k'))
    ∧ (∀ m, vault s1 m = only QUARANTINED (ttl_after (cfg_quarantine_ttl_days cfg) n) <$> vault s m)
    ∧ (∀ m, vault s2 m = only CANDIDATE (ttl_after (cfg_candidate_ttl_days cfg) n) <$> vault s1 m)
    ∧ (∀ m, vault s' m = swept fpow p cfg n <$> vault s m)
    ∧ dated s' ∧ uncut s' ∧ rtc vstep s s'.
Proof.
  intros Hd Hu.
  destruct (ttl_step QUARANTINED s k) as (s1 & k1 & H1 & Hv1 & Hd1 & Hu1 & Hs1); [auto..|].
  destruct (ttl_step CANDIDATE s1 k1) as (s2 & k2 & H2 & Hv2 & Hd2 & Hu2 & Hs2); [auto..|].
  destruct (decay_step s2 k2) as (s3 & k3 & H3 & Hv3 & Hd3 & Hu3 & Hs3); [auto..|].
  exists s1, s2, s3, k3. split_and!; try done.
  - unfold run_all_sweeps, quarantine_ttl_sweep, candidate_ttl_sweep.
    by rewrite (wbind_ok _ _ _ _ _ H1), (wbind_ok _ _ _ _ _ H2), (wbind_ok _ _ _ _ _ H3).
  - intros m. rewrite Hv3, Hv2, Hv1. destruct (vault s m); [|done]. simpl. by rewrite swept_compose.
  - by do 2 (etransitivity; [eassumption|]).
Qed.
End Whole.

(** ** A second run finds nothing to do *)

Section Again.
Context (fpow : float → Z → float) (p : ProjectId) (cfg : EffectiveConfig) (n : datetime).

Lemma swept_ttl_settled st ttl r :
  (st = QUARANTINED ∧ ttl = cfg_quarantine_ttl_days cfg) ∨ (st = CANDIDATE ∧ ttl = cfg_candidate_ttl_days cfg) →
  population p st (swept fpow p cfg n r) = true → ttl_mark ttl n (swept fpow p cfg n r) ≠ Transitioned.
Proof.
  intros Hst Hpop.
  assert (Hr : population p st r = true).
  { rewrite swept_compose in Hpop.
    do 2 (apply only_population in Hpop; [|first [apply decay_archives|apply ttl_archives]|naive_solver]).
    apply only_population in Hpop; [done|apply ttl_archives|naive_solver]. }
  assert (Heq : swept fpow p cfg n r = ttl_after ttl n r).
  { unfold swept. destruct Hst as [[-> ->]|[-> ->]]; [by rewrite Hr|].
    rewrite Hr. apply population_true in Hr as [Hp Hs]. unfold population at 1.
    by rewrite Hs, andb_false_r. }
  rewrite Heq in Hpop |- *. unfold ttl_after in *. case_decide as Hm; [|done].
  apply population_true in Hpop as [_ Hs]. cbn in Hs. naive_solver.
Qed.

Lemma swept_decay_settled r : population p VALIDATED (swept fpow p cfg n r) = true →
  decay_mark fpow cfg n (swept fpow p cfg n r) = NotDue.
Proof.
  intros Hpop.
  assert (Hr : population p VALIDATED r = true).
  { rewrite swept_compose in Hpop.
    do 2 (apply only_population in Hpop; [|first [apply decay_archives|apply ttl_archives]|done]).
    apply only_population in Hpop; [done|apply ttl_archives|done]. }
  assert (Heq : swept fpow p cfg n r = decay_after fpow cfg n r).
  { unfold swept. rewrite Hr. apply population_true in Hr as [Hp Hs]. unfold population.
    by rewrite Hs, !andb_false_r. }
  rewrite Heq in Hpop |- *. unfold decay_after in *.
  destruct (decay_mark fpow cfg n r) eqn:Hm; try done.
  - apply population_true in Hpop as [_ Hs]. done.
  - unfold decay_mark in Hm |- *. change (weeks_idle n (with_q _ r)) with (weeks_idle n r).
    change (curve fpow cfg n (with_q _ r)) with (curve fpow cfg n r).
    destruct (weeks_idle n r <=? 0); [done|].
    destruct (cfg_archive_floor cfg <? curve fpow cfg n r)%float eqn:Hf; [|done].
    cbn [with_q l_q_value]. rewrite fleb_refl; [done|]. exact (proj2 (ltb_not_nan _ _ Hf)).
  - unfold decay_mark in Hm. by repeat case_match.
Qed.

Lemma swept_idem r : swept fpow p cfg n (swept fpow p cfg n r) = swept fpow p cfg n r.
Proof.
  remember (swept fpow p cfg n r) as r' eqn:Hr'. unfold swept at 1.
  destruct (population p QUARANTINED r') eqn:HQ.
  { unfold ttl_after. rewrite decide_False; [done|]. subst r'. apply (swept_ttl_settled QUARANTINED); auto. }
  destruct (population p CANDIDATE r') eqn:HC.
  { unfold ttl_after. rewrite decide_False; [done|]. subst r'. apply (swept_ttl_settled CANDIDATE); auto. }
  destruct (population p VALIDATED r') eqn:HV; [|done].
  unfold decay_after. subst r'. by rewrite swept_decay_settled.
Qed.
End Again.

(** The rows of a select on a vault that is the image of a sweep. *)
Lemma settled_select {S : Type} `{!LifecycleRepo S, !LifecycleRepoLaws S} (s0 s : S) p st f r :
  (∀ m, vault s m = f <$> vault s0 m) → r ∈ select_by_status s p [st] →
  ∃ r0, r = f r0 ∧ population p st r = true.
Proof.
  intros Hv (Hr & Hp & Hst)%select_one_sound. rewrite Hv in Hr.
  destruct (vault s0 (l_key r)) as [r0|]; [|done]. injection Hr as Hr. exists r0.
  split; [done|]. by apply population_true.
Qed.

(** ** Theorems *)

(** A TTL sweep archives exactly the rows of its project and status whose time limit
    has passed, at the clock's instant; every other row, in this and in other projects, is
    unchanged; rows without a [status_changed_at] are reported. *)
Lemma ttl_sweep_exact {S : Type} `{!LifecycleRepo S, !LifecycleRepoLaws S}
    (clock : nat → datetime) p cfg l source (s : S) k :
  from_config cfg = Ok l → source = QUARANTINED ∨ source = CANDIDATE →
  dt_aware (clock k) = true → dated s →
  (length (select_by_status s p [source]) < SELECT_LIMIT)%nat →
  ∃ res s' k', sweep_ttl clock p cfg source ARCHIVED (s, k) = (Ok res, (s', k'))
    ∧ (∀ m, vault s' m
         = (λ r, if population p source r
                 then match l_status_changed_at r with
                      | Some changed => if timedelta_days (ttl_of source cfg) <=? dt_us (clock k) - dt_us changed
                                        then archived_at (clock k) (l_q_value r) r else r
                      | None => r
                      end
                 else r) <$> vault s m)
    ∧ (∀ m, m ∈ sw_undatable res ↔
         ∃ r, vault s (p, m) = Some r ∧ l_status r = source ∧ l_status_changed_at r = None)
    ∧ (∀ m, m ∈ sw_transitioned res ↔
         ∃ r, vault s (p, m) = Some r ∧ l_status r = source
              ∧ ttl_mark (ttl_of source cfg) (clock k) r = Transitioned).
Proof.
  intros Hl Hsrc Hn Hd Hlim.
  destruct (sweep_ttl_run clock p cfg l Hl source s k Hsrc Hn Hd) as (s' & k' & Hrun & Hm & _).
  assert (Hin : ∀ mk m, m ∈ marked mk (marks (ttl_mark (ttl_of source cfg) (clock k)) (select_by_status s p [source]))
            ↔ ∃ r, vault s (p, m) = Some r ∧ l_status r = source ∧ ttl_mark (ttl_of source cfg) (clock k) r = mk).
  { intros mk m. unfold marked, marks. rewrite list_elem_of_fmap. setoid_rewrite list_elem_of_filter. split.
    - intros ([k0 m0] & -> & Hk & (r & Heq & Hr)%list_elem_of_fmap). injection Heq as -> ->.
      apply select_one_sound in Hr as (Hv & Hp & Hst). exists r. unfold l_key in Hv. by rewrite Hp in Hv.
    - intros (r & Hv & Hst & Hk). exists (mk, m). split; [done|]. split; [done|].
      pose proof (vault_id _ _ _ Hv) as Hkey. unfold l_key in Hkey. injection Hkey as Hp Hm0.
      apply list_elem_of_fmap. exists r. rewrite Hk, Hm0. split; [done|].
      eapply select_complete; [done|done|done|]. rewrite Hst. by left. }
  eexists _, s', k'. split; [exact Hrun|]. split_and!.
  - intros m. rewrite (mapped_all _ _ _ _ _ _ Hlim Hm). destruct (vault s m) as [r|]; [|done]. cbn.
    f_equal. destruct (population p source r); [|done]. unfold ttl_after, ttl_mark.
    destruct (l_status_changed_at r); [|done]. by destruct (_ <=? _).
  - intros m. cbn [sweep_result sw_undatable]. rewrite Hin. unfold ttl_mark.
    split; intros (r & Hv & Hst & Hc); exists r; (split_and!; [done|done|]).
    + destruct (l_status_changed_at r); [by destruct (_ <=? _)|done].
    + by rewrite Hc.
  - intros m. apply Hin.
Qed.

(** Sweeping twice at the same instant is sweeping once: the first pass of
    [run_all_sweeps] brings every row of the project to its swept form, and a second pass at
    that instant succeeds, transitions nothing, decays nothing and leaves every row as it is. *)
Lemma sweeps_idempotent {S : Type} `{!LifecycleRepo S, !LifecycleRepoLaws S}
    (clock : nat → datetime) fpow p cfg l n (s : S) k :
  from_config cfg = Ok l → (∀ i, clock i = n) → dt_aware n = true → dated s → uncut p s →
  ∃ rep s1 k1 rep' s2 k2,
    run_all_sweeps clock fpow p cfg (s, k) = (Ok rep, (s1, k1))
    ∧ (∀ m, vault s1 m = swept fpow p cfg n <$> vault s m)
    ∧ run_all_sweeps clock fpow p cfg (s1, k1) = (Ok rep', (s2, k2))
    ∧ (∀ m, vault s2 m = vault s1 m)
    ∧ Forall (λ sr, sw_transitioned sr = [] ∧ sw_decayed_only sr = [])
        [rep_quarantine rep'; rep_candidate rep'; rep_decay rep'].
Proof.
  intros Hl Hc Hn Hd Hu.
  destruct (run_all_effect clock fpow p cfg l Hl n Hc Hn s k Hd Hu)
    as (? & ? & s1 & k1 & Hrun1 & _ & _ & Hv1 & Hd1 & Hu1 & _).
  destruct (run_all_effect clock fpow p cfg l Hl n Hc Hn s1 k1 Hd1 Hu1)
    as (t1 & t2 & s2 & k2 & Hrun2 & Hw1 & Hw2 & Hv2 & _).
  assert (HQ : ∀ m, vault t1 m = swept fpow p cfg n <$> vault s m).
  { intros m. rewrite Hw1, Hv1. destruct (vault s m) as [r|]; [|done]. cbn. f_equal. unfold only.
    destruct (population p QUARANTINED _) eqn:Hp; [|done]. unfold ttl_after.
    rewrite decide_False; [done|]. by eapply (swept_ttl_settled _ _ _ _ QUARANTINED); [left|]. }
  assert (HC : ∀ m, vault t2 m = swept fpow p cfg n <$> vault s m).
  { intros m. rewrite Hw2, HQ. destruct (vault s m) as [r|]; [|done]. cbn. f_equal. unfold only.
    destruct (population p CANDIDATE _) eqn:Hp; [|done]. unfold ttl_after.
    rewrite decide_False; [done|]. by eapply (swept_ttl_settled _ _ _ _ CANDIDATE); [right|]. }
  eexists _, s1, k1, _, s2, k2. split; [exact Hrun1|]. split; [done|]. split; [exact Hrun2|]. split.
  - intros m. rewrite Hv2, Hv1. destruct (vault s m); [|done]. cbn. by rewrite swept_idem.
  - cbn [rep_quarantine rep_candidate rep_decay]. repeat apply Forall_cons_2; [..|apply Forall_nil_2];
      cbn [sweep_result sw_transitioned sw_decayed_only]; split; apply marked_nil; intros r Hr.
    1,2: destruct (settled_select _ _ _ _ _ _ Hv1 Hr) as (r0 & -> & Hp).
    3,4: destruct (settled_select _ _ _ _ _ _ HQ Hr) as (r0 & -> & Hp).
    5,6: destruct (settled_select _ _ _ _ _ _ HC Hr) as (r0 & -> & Hp); by rewrite swept_decay_settled.
    1: by eapply (swept_ttl_settled _ _ _ _ QUARANTINED); [left|].
    2: by eapply (swept_ttl_settled _ _ _ _ CANDIDATE); [right|].
    all: unfold ttl_mark; destruct (l_status_changed_at _); [by destruct (_ <=? _)|done].
Qed.

(** Decay moves a value down the curve and never past the floor: after the sweep a row
    of the project's validated population is either as it was, or still validated with a
    value strictly below its old one and strictly above the floor, or archived with exactly
    the floor, and the last two only after at least one idle week.  No other row changes. *)
Lemma decay_bounds {S : Type} `{!LifecycleRepo S, !LifecycleRepoLaws S}
    (clock : nat → datetime) fpow p cfg l (s : S) k :
  from_config cfg = Ok l → dt_aware (clock k) = true → dated s →
  (∀ m r, vault s m = Some r → not_nan (l_q_value r)) →
  ∃ res s' k', decay_sweep clock fpow p cfg (s, k) = (Ok res, (s', k'))
    ∧ ∀ m r, vault s m = Some r → ∃ r', vault s' m = Some r'
      ∧ (r' = r
         ∨ population p VALIDATED r = true ∧ 1 ≤ weeks_idle (clock k) r
           ∧ ((∃ q, r' = with_q q r ∧ (cfg_archive_floor cfg <? q)%float = true ∧ (q <? l_q_value r)%float = true)
              ∨ r' = archived_at (clock k) (cfg_archive_floor cfg) r)).
Proof.
  intros Hl Hn Hd Hq.
  destruct (decay_sweep_run clock fpow p cfg l Hl s k Hn Hd) as (s' & k' & Hrun & Hm & _).
  eexists _, s', k'. split; [exact Hrun|]. intros m r Hr.
  destruct (mapped_vault _ _ _ _ m Hm) as [(r0 & Hr0 & <- & Hv)|[_ Hv]]; [|exists r; split; [congruence|by left]].
  apply select_one_sound in Hr0 as (Hv0 & Hp & Hst). rewrite Hr in Hv0. injection Hv0 as <-.
  exists (decay_after fpow cfg (clock k) r). split; [done|]. unfold decay_after, decay_mark.
  destruct (Z.leb_spec (weeks_idle (clock k) r) 0); [by left|].
  destruct (cfg_archive_floor cfg <? curve fpow cfg (clock k) r)%float eqn:Hf.
  - destruct (l_q_value r <=? curve fpow cfg (clock k) r)%float eqn:Hle; [by left|]. right.
    split_and!; [by apply population_true|lia|]. left. eexists. split_and!; [done|done|].
    apply fleb_total; [by eapply Hq|exact (proj2 (ltb_not_nan _ _ Hf))|done].
  - right. split_and!; [by apply population_true|lia|]. by right.
Qed.

Definition default_limits : TransitionLimits := mkLimits 30 45 2 1 2 0.25 4 3 0.15.

Lemma default_limits_ok : from_config default_config = Ok default_limits.
Proof. vm_compute. reflexivity. Qed.

Lemma ttl_sweep_exact_witness :
  ∃ res s' k', @sweep_ttl _ (pg_repo all_visible) (λ _, instant 60) project_ex default_config QUARANTINED ARCHIVED
                 (db_ex, 0%nat) = (Ok res, (s', k'))
    ∧ memory_ex 3 I ∈ sw_transitioned res.
Proof.
  destruct (@ttl_sweep_exact _ (pg_repo all_visible) (pg_laws all_visible) (λ _, instant 60) project_ex
              default_config default_limits QUARANTINED db_ex 0%nat)
    as (res & s' & k' & Hrun & _ & _ & Ht).
  - apply default_limits_ok.
  - by left.
  - done.
  - apply table_dated. vm_compute. reflexivity.
  - apply Nat.ltb_lt. vm_compute. reflexivity.
  - exists res, s', k'. split; [exact Hrun|]. apply Ht.
    exists (row_to_lifecycle_row (project_ex, memory_ex 3 I) (columns_ex QUARANTINED (Some (instant 0)) 0.5)).
    split_and!; vm_compute; reflexivity.
Defined.

(** Exact powers, for evaluation. *)
Definition fpow_ex (x : float) (k : Z) : float := Z.iter k (λ y, (y * x)%float) 1%float.

Lemma sweeps_idempotent_witness :
  ∃ s1 k1 rep' s2 k2,
    @run_all_sweeps _ (pg_repo all_visible) (λ _, instant 60) fpow_ex project_ex default_config (s1, k1)
      = (Ok rep', (s2, k2))
    ∧ sw_transitioned (rep_decay rep') = [].
Proof.
  destruct (@sweeps_idempotent _ (pg_repo all_visible) (pg_laws all_visible) (λ _, instant 60) fpow_ex project_ex
              default_config default_limits (instant 60) db_ex 0%nat)
    as (rep & s1 & k1 & rep' & s2 & k2 & _ & _ & Hrun & _ & Hf).
  - apply default_limits_ok.
  - done.
  - done.
  - apply table_dated. vm_compute. reflexivity.
  - unfold uncut. rewrite !Forall_cons. split_and!; try (apply Nat.ltb_lt; vm_compute; reflexivity). by apply Forall_nil.
  - exists s1, k1, rep', s2, k2. split; [exact Hrun|]. rewrite !Forall_cons in Hf.
    destruct Hf as (_ & _ & [Ht _] & _). exact Ht.
Defined.

Lemma decay_bounds_witness :
  ∃ res s' k', @decay_sweep _ (pg_repo all_visible) (λ _, instant 60) fpow_ex project_ex default_config
                 (db_ex, 0%nat) = (Ok res, (s', k')).
Proof.
  destruct (@decay_bounds _ (pg_repo all_visible) (pg_laws all_visible) (λ _, instant 60) fpow_ex project_ex
              default_config default_limits db_ex 0%nat) as (res & s' & k' & Hrun & _).
  - apply default_limits_ok.
  - done.
  - apply table_dated. vm_compute. reflexivity.
  - intros m r (_ & c & Hc & ->)%vault_stored. cbn [items db_ex] in Hc. unfold table_ex in Hc.
    rewrite !lookup_insert_Some, lookup_empty in Hc.
    destruct Hc as [[_ <-]|[_ [[_ <-]|[_ [[_ <-]|[_ ?]]]]]]; [reflexivity..|done].
  - by exists res, s', k'.
Defined.
