(* ===== verification/Revalidation.v ===== *)
(** * Re-verification of idle and stale memories (workers/revalidation.py)

    [RevalidationWorker.check_validated], [check_stale] and [run_once] over any store that
    keeps the port's laws.  The verifier is a parameter whose answer may differ at every
    call: it takes the number of clock readings so far, which grows with every check. *)

From Stdlib Require Import Floats.
From S2P Require Import Prelude Domain PyText StateMachine Memory Lifecycle VaultStore Sweeps.
Open Scope Z_scope.

Record RevalidationOutcome := mkReval {
  rv_memory_id : MemoryId;
  rv_verified : bool;
  rv_from_status : Status;
  rv_to_status : option Status;
}.

Record RevalidationBatchResult := mkRevalBatch {
  rvb_rows_examined : Z;
  rvb_outcomes : list RevalidationOutcome;
}.

(** The boundary test; instants are aware by the rows' construction. *)
Definition is_due_for_revalidation (row : LifecycleMemoryRow) (r_days : Z) (n : datetime) : bool :=
  if bool_decide (l_status row = STALE)
  then match l_status_changed_at row with None => true | Some changed => dt_us changed <? dt_us n end
  else if bool_decide (l_status row ≠ VALIDATED) then false
  else timedelta_days r_days <=? dt_us n - dt_us (idle_reference row).

Definition failed_evidence (n : datetime) (r : LifecycleMemoryRow) : TransitionEvidence :=
  mkEvidence n (cls (l_provenance r)) (l_trust_tier r) (l_mem_type r) false false false false
    (l_status_changed_at r) [] false 0 0 false false false false false
    false false true false 0 0%float 0 0 false false false false.

Definition reverified_evidence (n : datetime) (r : LifecycleMemoryRow) : TransitionEvidence :=
  mkEvidence n (cls (l_provenance r)) (l_trust_tier r) (l_mem_type r) false false false false
    (l_status_changed_at r) [] false 0 0 false false false false false
    false false false true 0 0%float 0 0 false false false false.

Definition strike_evidence (n : datetime) (strikes : Z) (r : LifecycleMemoryRow) : TransitionEvidence :=
  mkEvidence n (cls (l_provenance r)) (l_trust_tier r) (l_mem_type r) false false false false
    (l_status_changed_at r) [] false 0 0 false false false false false
    false false false false strikes 0%float 0 0 false false false false.

(** [older_than=now - timedelta(days=r_days)]. *)
Definition days_before (n : datetime) (d : Z) : datetime := mkDatetime (dt_us n - timedelta_days d) (dt_aware n).

Section Worker.
Context {S : Type} `{!LifecycleRepo S} (clock : nat → datetime) (reverify : nat → LifecycleMemoryRow → bool).

Definition wverify (row : LifecycleMemoryRow) : worker S bool := λ σ, (Ok (reverify σ.2 row), σ).

Definition check_validated (p : ProjectId) (cfg : EffectiveConfig) (row : LifecycleMemoryRow)
  : worker S RevalidationOutcome :=
  let* _ := wlift (require_returned_row row p VALIDATED) in
  let* n := wnow clock in
  let* verified := wverify row in
  if (verified : bool) then
    let* _ := wpersist p (mkLWrite (l_id row) VALIDATED VALIDATED n None None (Some n)) in
    wret (mkReval (l_id row) true VALIDATED None)
  else
    let* limits := wlift (of_exn (from_config cfg)) in
    let* e := wlift (of_exn (evidence_post_init (failed_evidence n row))) in
    let* new_status := wlift (of_transition (apply (Some (l_status row)) STALE e limits)) in
    let* _ := wpersist p (mkLWrite (l_id row) (l_status row) new_status n (Some 1) None (Some n)) in
    wret (mkReval (l_id row) false (l_status row) (Some new_status)).

Definition check_stale (p : ProjectId) (cfg : EffectiveConfig) (row : LifecycleMemoryRow)
  : worker S RevalidationOutcome :=
  let* _ := wlift (require_returned_row row p STALE) in
  let* n := wnow clock in
  let* limits := wlift (of_exn (from_config cfg)) in
  let* verified := wverify row in
  if (verified : bool) then
    let* e := wlift (of_exn (evidence_post_init (reverified_evidence n row))) in
    let* new_status := wlift (of_transition (apply (Some (l_status row)) VALIDATED e limits)) in
    let* _ := wpersist p (mkLWrite (l_id row) (l_status row) new_status n (Some 0) None (Some n)) in
    wret (mkReval (l_id row) true (l_status row) (Some new_status))
  else
    let next_strike := l_strike_count row + 1 in
    let* e := wlift (of_exn (evidence_post_init (strike_evidence n next_strike row))) in
    let* new_status := wlift (of_transition (apply (Some (l_status row)) RETIRED e limits)) in
    let* _ := wpersist p (mkLWrite (l_id row) (l_status row) new_status n (Some next_strike) None (Some n)) in
    wret (mkReval (l_id row) false (l_status row) (Some new_status)).

(** [struck_this_pass]: the rows the first loop moved into [stale]. *)
Definition struck_this_pass (outcomes : list RevalidationOutcome) : list MemoryId :=
  rv_memory_id <$> filter (λ o, rv_to_status o = Some STALE) outcomes.

Definition run_once (p : ProjectId) (cfg : EffectiveConfig) : worker S RevalidationBatchResult :=
  let* n := wnow clock in
  let r_days := cfg_revalidation_age_days cfg in
  let* due_validated := wread (λ s, select_due_for_revalidation s p (days_before n r_days)) in
  let* stale_rows := wread (λ s, List.filter (λ row, is_due_for_revalidation row r_days n)
                                    (select_by_status s p [STALE])) in
  let* outcomes := wfor (check_validated p cfg) due_validated in
  let* outcomes' := wfor (check_stale p cfg)
                      (filter (λ row, l_id row ∉ struck_this_pass outcomes) stale_rows) in
  wret (mkRevalBatch (Z.of_nat (length due_validated + length stale_rows)) (outcomes ++ outcomes')).
End Worker.

(** ** What happens to one row *)

Definition moved (st : Status) (n : datetime) (strikes : Z) (r : LifecycleMemoryRow) : LifecycleMemoryRow :=
  mkLRow (l_id r) (l_project_id r) st (l_trust_tier r) (l_mem_type r) (l_provenance r)
    (Some n) strikes (l_last_retrieved_at r) (l_created_at r) (l_q_value r).

Section Effect.
Context (clock : nat → datetime).

Inductive validated_effect (r : LifecycleMemoryRow) : RevalidationOutcome → LifecycleMemoryRow → Prop :=
| ve_verified : validated_effect r (mkReval (l_id r) true VALIDATED None) r
| ve_struck i : validated_effect r (mkReval (l_id r) false VALIDATED (Some STALE)) (moved STALE (clock i) 1 r).

Inductive stale_effect (r : LifecycleMemoryRow) : RevalidationOutcome → LifecycleMemoryRow → Prop :=
| se_recovered i : stale_effect r (mkReval (l_id r) true STALE (Some VALIDATED)) (moved VALIDATED (clock i) 0 r)
| se_retired i :
    stale_effect r (mkReval (l_id r) false STALE (Some RETIRED)) (moved RETIRED (clock i) (l_strike_count r + 1) r).

(** One pass over one row, [n] being the instant the pass started at. *)
Inductive revalidated (p : ProjectId) (r_days : Z) (n : datetime) (r : LifecycleMemoryRow)
  : LifecycleMemoryRow → Prop :=
| rv_same : revalidated p r_days n r r
| rv_validated o r' :
    population p VALIDATED r = true → is_due_for_revalidation r r_days n = true →
    validated_effect r o r' → revalidated p r_days n r r'
| rv_stale o r' :
    population p STALE r = true → is_due_for_revalidation r r_days n = true →
    stale_effect r o r' → revalidated p r_days n r r'.
End Effect.

(** Every stale row carries its first strike. *)
Definition struck {S} `{LifecycleRepo S} (s : S) : Prop :=
  ∀ m r, vault s m = Some r → l_status r = STALE → 1 ≤ l_strike_count r.

Section Proofs.
Context {S : Type} `{!LifecycleRepo S, !LifecycleRepoLaws S}.
Context (clock : nat → datetime) (reverify : nat → LifecycleMemoryRow → bool).
Context (p : ProjectId) (cfg : EffectiveConfig) (l : TransitionLimits).
Hypothesis Hl : from_config cfg = Ok l.
Hypothesis Hn : ∀ i, dt_aware (clock i) = true.

Lemma check_validated_acts r : l_project_id r = p → l_status r = VALIDATED →
  require_aware (l_status_changed_at r) = true →
  acts_rel (check_validated clock reverify p cfg) r (validated_effect clock r).
Proof.
  intros Hp Hst Haw s k Hv. unfold check_validated.
  rewrite (wlift_ok _ _ _ tt) by by apply require_returned_row_ok.
  rewrite (wbind_ok _ _ _ (clock k) (s, Datatypes.S k)) by done.
  rewrite (wbind_ok _ _ _ (reverify (Datatypes.S k) r) (s, Datatypes.S k)) by done.
  destruct (reverify (Datatypes.S k) r).
  - destruct (persist_touch (mkReval (l_id r) true VALIDATED None) p
                (mkLWrite (l_id r) VALIDATED VALIDATED (clock k) None None (Some (clock k))) r s (Datatypes.S k))
      as (s' & k' & Hrun & Hu & Hs); [done..|].
    eexists _, r, s', k'. split_and!; [exact Hrun|constructor| |done].
    replace r with (written (mkLWrite (l_id r) VALIDATED VALIDATED (clock k) None None (Some (clock k))) r) at 2; [done|].
    clear -Hst. destruct r. cbn in Hst. by subst.
  - rewrite (wlift_ok _ _ _ l) by by rewrite Hl.
    rewrite (wlift_ok _ _ _ (failed_evidence (clock k) r)) by (apply evidence_ok; [apply Hn|done]).
    rewrite (wlift_ok _ _ _ STALE) by by rewrite Hst.
    destruct (persist_transition (mkReval (l_id r) false (l_status r) (Some STALE)) p
                (mkLWrite (l_id r) (l_status r) STALE (clock k) (Some 1) None (Some (clock k))) r
                (failed_evidence (clock k) r) l s (Datatypes.S k))
      as (s' & k' & Hrun & Hu & Hs); [done..|by rewrite Hst|].
    rewrite Hst in Hrun, Hu |- *. eexists _, _, s', k'. split_and!; [exact Hrun|apply (ve_struck _ r k)|exact Hu|done].
Qed.

Lemma check_stale_acts r : l_project_id r = p → l_status r = STALE →
  require_aware (l_status_changed_at r) = true → 1 ≤ l_strike_count r →
  acts_rel (check_stale clock reverify p cfg) r (stale_effect clock r).
Proof.
  intros Hp Hst Haw Hk s k Hv. unfold check_stale.
  rewrite (wlift_ok _ _ _ tt) by by apply require_returned_row_ok.
  rewrite (wbind_ok _ _ _ (clock k) (s, Datatypes.S k)) by done.
  rewrite (wlift_ok _ _ _ l) by by rewrite Hl.
  rewrite (wbind_ok _ _ _ (reverify (Datatypes.S k) r) (s, Datatypes.S k)) by done.
  destruct (reverify (Datatypes.S k) r).
  - rewrite (wlift_ok _ _ _ (reverified_evidence (clock k) r)) by (apply evidence_ok; [apply Hn|done]).
    rewrite (wlift_ok _ _ _ VALIDATED) by by rewrite Hst.
    destruct (persist_transition (mkReval (l_id r) true (l_status r) (Some VALIDATED)) p
                (mkLWrite (l_id r) (l_status r) VALIDATED (clock k) (Some 0) None (Some (clock k))) r
                (reverified_evidence (clock k) r) l s (Datatypes.S k))
      as (s' & k' & Hrun & Hu & Hs); [done..|by rewrite Hst|].
    rewrite Hst in Hrun, Hu |- *. eexists _, _, s', k'. split_and!; [exact Hrun|apply (se_recovered _ r k)|exact Hu|done].
  - assert (Happ : apply (Some STALE) RETIRED (strike_evidence (clock k) (l_strike_count r + 1) r) l = Ok RETIRED).
    { rewrite (apply_edge _ _ guard_stale_to_retired) by reflexivity. unfold guard_stale_to_retired, STALE_RETIRE_STRIKE_THRESHOLD.
      cbn [strike_evidence strike_count]. by rewrite (proj2 (Z.leb_le 2 (l_strike_count r + 1))) by lia. }
    rewrite (wlift_ok _ _ _ (strike_evidence (clock k) (l_strike_count r + 1) r)) by (apply evidence_ok; [apply Hn|done]).
    rewrite (wlift_ok _ _ _ RETIRED) by (rewrite Hst; by rewrite Happ).
    destruct (persist_transition (mkReval (l_id r) false (l_status r) (Some RETIRED)) p
                (mkLWrite (l_id r) (l_status r) RETIRED (clock k) (Some (l_strike_count r + 1)) None (Some (clock k))) r
                (strike_evidence (clock k) (l_strike_count r + 1) r) l s (Datatypes.S k))
      as (s' & k' & Hrun & Hu & Hs); [done..|by rewrite Hst|].
    rewrite Hst in Hrun, Hu |- *. eexists _, _, s', k'. split_and!; [exact Hrun|apply (se_retired _ r k)|exact Hu|done].
Qed.

Lemma due_rows s n r : r ∈ select_due_for_revalidation s p (days_before n (cfg_revalidation_age_days cfg)) →
  vault s (l_key r) = Some r ∧ population p VALIDATED r = true
  ∧ is_due_for_revalidation r (cfg_revalidation_age_days cfg) n = true.
Proof.
  intros (Hv & Hp & Hst & Hle)%due_sound. cbn in Hle. split_and!; [done|by apply population_true|].
  unfold is_due_for_revalidation. rewrite Hst, !bool_decide_eq_false_2; [|naive_solver..]. apply Z.leb_le. lia.
Qed.

Lemma stale_rows s n r :
  r ∈ List.filter (λ row, is_due_for_revalidation row (cfg_revalidation_age_days cfg) n) (select_by_status s p [STALE]) →
  vault s (l_key r) = Some r ∧ population p STALE r = true
  ∧ is_due_for_revalidation r (cfg_revalidation_age_days cfg) n = true.
Proof.
  rewrite list_elem_of_In, filter_In, <- list_elem_of_In. intros [(? & ? & ?)%select_one_sound ?].
  split_and!; [done|by apply population_true|done].
Qed.

Lemma key_rows s (rows : list LifecycleMemoryRow) m r : (∀ r, r ∈ rows → vault s (l_key r) = Some r) →
  vault s m = Some r → m ∈ l_key <$> rows → r ∈ rows.
Proof.
  intros Hrows Hr (r0 & -> & Hr0)%list_elem_of_fmap. rewrite (Hrows _ Hr0) in Hr. by injection Hr as <-.
Qed.

Lemma Forall2_row {B} (Q : LifecycleMemoryRow → B → Prop) rows ys r :
  Forall2 Q rows ys → r ∈ rows → ∃ y, Q r y.
Proof. intros H (i & Hi)%list_elem_of_lookup. eapply Forall2_lookup_l in H as (y & _ & ?); [eauto|done]. Qed.

Lemma run_once_effect s k : dated s → struck s →
  ∃ res s' k', run_once clock reverify p cfg (s, k) = (Ok res, (s', k'))
    ∧ (∀ m r, vault s m = Some r → ∃ r', vault s' m = Some r'
         ∧ revalidated clock p (cfg_revalidation_age_days cfg) (clock k) r r')
    ∧ (∀ m, vault s m = None → vault s' m = None) ∧ rtc vstep s s'.
Proof.
  intros Hd Hk. unfold run_once. rewrite (wbind_ok _ _ _ (clock k) (s, Datatypes.S k)) by done.
  set (n := clock k). set (due := select_due_for_revalidation s p (days_before n (cfg_revalidation_age_days cfg))).
  set (stale := List.filter (λ row, is_due_for_revalidation row (cfg_revalidation_age_days cfg) n) (select_by_status s p [STALE])).
  rewrite (wbind_ok _ _ _ due (s, Datatypes.S k)) by done. rewrite (wbind_ok _ _ _ stale (s, Datatypes.S k)) by done.
  assert (Hdue : ∀ r, r ∈ due → vault s (l_key r) = Some r) by (intros r Hr; by apply due_rows in Hr as [? _]).
  destruct (wfor_rel (check_validated clock reverify p cfg) (validated_effect clock) due s (Datatypes.S k))
    as (ys & s1 & k1 & Hw1 & Hm1 & Ho1 & Hs1); [apply due_NoDup|done|..].
  { intros r (Hv & [? ?]%population_true & _)%due_rows. apply Hd in Hv as (? & _). by apply check_validated_acts. }
  rewrite (wbind_ok _ _ _ _ _ Hw1).
  set (rest := filter (λ row, l_id row ∉ struck_this_pass ys) stale).
  assert (Hrest : ∀ r, r ∈ rest → r ∈ stale) by (intros r Hr; by apply list_elem_of_filter in Hr as [_ ?]).
  assert (Hstale : ∀ r, r ∈ stale → vault s (l_key r) = Some r ∧ vault s1 (l_key r) = Some r).
  { intros r Hr. pose proof (stale_rows _ _ _ Hr) as (Hv & [_ Hst]%population_true & _). split; [done|].
    rewrite Ho1; [done|]. intros Hin. pose proof (key_rows _ _ _ _ Hdue Hv Hin) as Hr'.
    apply due_rows in Hr' as (_ & [_ ?]%population_true & _). congruence. }
  destruct (wfor_rel (check_stale clock reverify p cfg) (stale_effect clock) rest s1 k1)
    as (zs & s2 & k2 & Hw2 & Hm2 & Ho2 & Hs2).
  { apply submseteq_NoDup with (l_key <$> stale); [apply filter_keys_NoDup, select_NoDup|].
    apply fmap_submseteq, sublist_submseteq, sublist_filter. }
  { intros r Hr. by apply Hstale, Hrest. }
  { intros r Hr%Hrest. pose proof (stale_rows _ _ _ Hr) as (Hv & [? ?]%population_true & _).
    pose proof (Hd _ _ Hv) as (? & _). apply check_stale_acts; [done..|]. by eapply Hk. }
  rewrite (wbind_ok _ _ _ _ _ Hw2). eexists _, s2, k2. split; [done|].
  assert (Hsrest : ∀ r, r ∈ rest → vault s (l_key r) = Some r) by (intros r Hr; by apply Hstale, Hrest).
  split_and!; [| |by etransitivity].
  - intros m r Hr. destruct (decide (m ∈ l_key <$> rest)) as [Hin|Hni].
    { pose proof (key_rows _ _ _ _ Hsrest Hr Hin) as Hrr. apply vault_id in Hr as <-.
      destruct (Forall2_row _ _ _ _ Hm2 Hrr) as (o & g & Hg & Hvg). exists g. split; [done|].
      destruct (stale_rows _ _ _ (Hrest _ Hrr)) as (_ & ? & ?). by eapply rv_stale. }
    rewrite Ho2 by done. destruct (decide (m ∈ l_key <$> due)) as [Hin|Hni'].
    { pose proof (key_rows _ _ _ _ Hdue Hr Hin) as Hrr. apply vault_id in Hr as <-.
      destruct (Forall2_row _ _ _ _ Hm1 Hrr) as (o & g & Hg & Hvg). exists g. split; [done|].
      destruct (due_rows _ _ _ Hrr) as (_ & ? & ?). by eapply rv_validated. }
    rewrite Ho1 by done. exists r. split; [done|constructor].
  - intros m Hm. rewrite Ho2, Ho1; [done| |].
    + intros (r & -> & Hr%Hdue)%list_elem_of_fmap. congruence.
    + intros (r & -> & Hr%Hsrest)%list_elem_of_fmap. congruence.
Qed.
End Proofs.

(** ** A stale row without its first strike stops the pass *)

Section Blocked.
Context {S : Type} `{!LifecycleRepo S, !LifecycleRepoLaws S}.
Context (clock : nat → datetime) (reverify : nat → LifecycleMemoryRow → bool) (p : ProjectId) (cfg : EffectiveConfig).

Lemma check_validated_id r σ o σ' : check_validated (S := S) clock reverify p cfg r σ = (Ok o, σ') → rv_memory_id o = l_id r.
Proof.
  unfold check_validated. intros (? & ? & _ & H)%wbind_inv. apply wbind_inv in H as (n & ? & _ & H).
  apply wbind_inv in H as ([] & ? & _ & H).
  - apply wbind_inv in H as (? & ? & _ & H). by injection H as <- _.
  - apply wbind_inv in H as (? & ? & _ & H). apply wbind_inv in H as (? & ? & _ & H).
    apply wbind_inv in H as (? & ? & _ & H). apply wbind_inv in H as (? & ? & _ & H). by injection H as <- _.
Qed.

Lemma check_stale_refused r σ o σ' : l_status r = STALE → l_strike_count r ≤ 0 → (∀ i, reverify i r = false) →
  check_stale (S := S) clock reverify p cfg r σ ≠ (Ok o, σ').
Proof.
  intros Hst Hk Hv. unfold check_stale. intros (? & ? & _ & H)%wbind_inv. apply wbind_inv in H as (n & ? & _ & H).
  apply wbind_inv in H as (l & ? & _ & H). apply wbind_inv in H as (b & σ1 & Hb & H).
  unfold wverify in Hb. rewrite Hv in Hb. injection Hb as <- <-.
  apply wbind_inv in H as (e & ? & He & H). apply wbind_inv in H as (st & ? & Hs & _).
  unfold wlift in He, Hs. injection He as He _. injection Hs as Hs _.
  destruct (evidence_post_init _) as [e'|] eqn:Hpost; [|done]. injection He as ->.
  assert (e = strike_evidence n (l_strike_count r + 1) r) as ->.
  { unfold evidence_post_init in Hpost. case_match; [|done]. case_match; [|done]. by injection Hpost. }
  rewrite Hst, (apply_edge _ _ guard_stale_to_retired) in Hs by reflexivity.
  unfold guard_stale_to_retired, STALE_RETIRE_STRIKE_THRESHOLD in Hs. cbn [strike_evidence strike_count] in Hs.
  rewrite (proj2 (Z.leb_gt 2 _)) in Hs by lia. done.
Qed.

Lemma run_once_blocked r s k : vault s (l_key r) = Some r → population p STALE r = true → l_strike_count r ≤ 0 →
  (∀ i, reverify i r = false) → is_due_for_revalidation r (cfg_revalidation_age_days cfg) (clock k) = true →
  (length (select_by_status s p [STALE]) < SELECT_LIMIT)%nat →
  ∃ e σ, run_once clock reverify p cfg (s, k) = (Err e, σ).
Proof.
  intros Hv Hpop Hk Hrv Hdue Hlim. pose proof Hpop as [Hp Hst]%population_true.
  destruct (run_once clock reverify p cfg (s, k)) as [[res|e] σ] eqn:Hrun; [exfalso|eauto].
  unfold run_once in Hrun. apply wbind_inv in Hrun as (n & σ1 & Hnow & Hrun). injection Hnow as <- <-.
  apply wbind_inv in Hrun as (due & σ2 & Hd & Hrun). injection Hd as <- <-.
  apply wbind_inv in Hrun as (stale & σ3 & Hs & Hrun). injection Hs as <- <-.
  apply wbind_inv in Hrun as (ys & σ4 & Hys & Hrun). apply wbind_inv in Hrun as (zs & σ5 & Hzs & _).
  cbn [fst] in *. apply wfor_inv in Hys, Hzs.
  assert (Hin : r ∈ List.filter (λ row, is_due_for_revalidation row (cfg_revalidation_age_days cfg) (clock k))
                      (select_by_status s p [STALE])).
  { apply list_elem_of_In, filter_In. rewrite <- list_elem_of_In. split; [|done].
    eapply select_complete; [done|exact Hv|done|]. rewrite Hst. by left. }
  assert (Hns : l_id r ∉ struck_this_pass ys).
  { unfold struck_this_pass. intros (o & Hid & [_ Ho]%list_elem_of_filter)%list_elem_of_fmap.
    apply list_elem_of_lookup in Ho as [i Hi]. eapply Forall2_lookup_r in Hys as (r0 & Hr0 & ? & ? & Hc); [|exact Hi].
    apply check_validated_id in Hc. apply list_elem_of_lookup_2, due_sound in Hr0 as (Hv0 & Hp0 & Hst0 & _).
    assert (l_key r0 = l_key r) as Heq by (unfold l_key; congruence). rewrite Heq in Hv0. congruence. }
  pose proof (proj2 (list_elem_of_filter (λ row, l_id row ∉ struck_this_pass ys) _ r) (conj Hns Hin)) as Hrow.
  destruct (Forall2_row _ _ _ _ Hzs Hrow) as (o & σ6 & σ7 & Hc). by eapply check_stale_refused.
Qed.
End Blocked.

(** ** Passes preserve what they rely on *)

Section Preserved.
Context {S : Type} `{!LifecycleRepo S}.
Context (clock : nat → datetime) (p : ProjectId) (r_days : Z) (n : datetime).

Definition passed (s s' : S) : Prop :=
  (∀ m r, vault s m = Some r → ∃ r', vault s' m = Some r' ∧ revalidated clock p r_days n r r')
  ∧ (∀ m, vault s m = None → vault s' m = None).

Lemma passed_inv s s' m r' : passed s s' → vault s' m = Some r' →
  ∃ r, vault s m = Some r ∧ revalidated clock p r_days n r r'.
Proof.
  intros [H1 H2] Hr'. destruct (vault s m) as [r|] eqn:Hr.
  - destruct (H1 _ _ Hr) as (r'' & Hr'' & ?). assert (r'' = r') as -> by congruence. eauto.
  - apply H2 in Hr. congruence.
Qed.

Lemma revalidated_cases r r' : revalidated clock p r_days n r r' →
  r' = r ∨ ∃ st i k, r' = moved st (clock i) k r ∧ (st = STALE → k = 1).
Proof.
  intros [|o r'' _ _ [|i]|o r'' _ _ [i|i]]; eauto; right; eexists _, i, _; (split; [reflexivity|done]).
Qed.

Lemma passed_dated s s' : (∀ i, dt_aware (clock i) = true) → dated s → passed s s' → dated s'.
Proof.
  intros Hn Hd Hp m r' (r & Hr & Hc)%(passed_inv _ _ _ _ Hp). apply Hd in Hr as (? & ? & ?).
  apply revalidated_cases in Hc as [->|(st & i & k & -> & _)]; [done|]. cbn. by rewrite Hn.
Qed.

Lemma passed_struck s s' : struck s → passed s s' → struck s'.
Proof.
  intros Hk Hp m r' (r & Hr & Hc)%(passed_inv _ _ _ _ Hp) Hst.
  apply revalidated_cases in Hc as [->|(st & i & k & -> & Hone)]; [by eapply Hk|]. cbn in *.
  rewrite Hone by done. lia.
Qed.
End Preserved.

(** Any number of passes, one after the other. *)
Fixpoint passes {S} `{LifecycleRepo S} (clock : nat → datetime) (reverify : nat → LifecycleMemoryRow → bool)
    (p : ProjectId) (cfg : EffectiveConfig) (j : nat) : worker S unit :=
  match j with
  | O => wret tt
  | Datatypes.S j' => let* _ := run_once clock reverify p cfg in passes clock reverify p cfg j'
  end.

(** Still validated, or stale since this instant with one strike. *)
Definition at_most_struck (n : datetime) (r : LifecycleMemoryRow) : Prop :=
  l_status r = VALIDATED ∨ l_status r = STALE ∧ l_strike_count r = 1 ∧ l_status_changed_at r = Some n.

Lemma at_most_struck_pass clock p r_days n r r' : (∀ i, clock i = n) →
  at_most_struck n r → revalidated clock p r_days n r r' → at_most_struck n r'.
Proof.
  intros Hc Hr [|o r'' Hp Hdue [|i]|o r'' [_ Hst]%population_true Hdue _]; [done|done| |].
  - right. cbn. by rewrite Hc.
  - destruct Hr as [Hr|(_ & _ & Hch)]; [congruence|].
    unfold is_due_for_revalidation in Hdue. rewrite bool_decide_eq_true_2, Hch in Hdue by done.
    apply Z.ltb_lt in Hdue. lia.
Qed.

(** One pass, one strike: however often the batch is run against the same instant (a
    retry, a duplicated tick), and whatever the verifier answers each time, every run
    succeeds and a memory that was validated at the start is still validated, or stale with
    exactly one strike; it is never retired. *)
Lemma one_strike_per_instant {S : Type} `{!LifecycleRepo S, !LifecycleRepoLaws S}
    (clock : nat → datetime) reverify p cfg l n j (s : S) k m r :
  from_config cfg = Ok l → (∀ i, clock i = n) → dt_aware n = true → dated s → struck s →
  vault s m = Some r → l_status r = VALIDATED →
  ∃ s' k' r', passes clock reverify p cfg j (s, k) = (Ok tt, (s', k'))
    ∧ vault s' m = Some r' ∧ at_most_struck n r'.
Proof.
  intros Hl Hc Hn Hd Hk Hr Hst. assert (Hn' : ∀ i, dt_aware (clock i) = true) by (intros i; by rewrite Hc).
  assert (Ham : at_most_struck n r) by (by left). clear Hst.
  revert s k r Hd Hk Hr Ham. induction j as [|j IH]; intros s k r Hd Hk Hr Ham; [by exists s, k, r|].
  destruct (run_once_effect clock reverify p cfg l Hl Hn' s k Hd Hk) as (res & s1 & k1 & Hrun & H1 & H2 & _).
  assert (Hp : passed clock p (cfg_revalidation_age_days cfg) (clock k) s s1) by done.
  destruct (H1 _ _ Hr) as (r1 & Hr1 & Hrv). rewrite Hc in Hrv. cbn [passes].
  rewrite (wbind_ok _ _ _ _ _ Hrun). eapply IH; [by eapply passed_dated|by eapply passed_struck|exact Hr1|].
  by eapply at_most_struck_pass.
Qed.

Lemma one_strike_per_instant_witness :
  ∃ s' k' r', @passes _ (pg_repo all_visible) (λ _, instant 60) (λ _ _, false) project_ex default_config 2
                (db_ex, 0%nat) = (Ok tt, (s', k'))
    ∧ @vault _ (pg_vault all_visible) s' (project_ex, memory_ex 5 I) = Some r' ∧ at_most_struck (instant 60) r'.
Proof.
  apply (@one_strike_per_instant _ (pg_repo all_visible) (pg_laws all_visible) (λ _, instant 60) (λ _ _, false)
           project_ex default_config default_limits (instant 60) 2 db_ex 0%nat (project_ex, memory_ex 5 I)
           (row_to_lifecycle_row (project_ex, memory_ex 5 I) (columns_ex VALIDATED (Some (instant 1)) 0.5))).
  - apply default_limits_ok.
  - done.
  - done.
  - apply table_dated. vm_compute. reflexivity.
  - intros m r (_ & c & Hc & ->)%vault_stored. cbn [items db_ex] in Hc. unfold table_ex in Hc.
    rewrite !lookup_insert_Some, lookup_empty in Hc.
    destruct Hc as [[_ <-]|[_ [[_ <-]|[_ [[_ <-]|[_ ?]]]]]]; done.
  - vm_compute. reflexivity.
  - reflexivity.
Defined.
