(* ===== verification/Invalidator.v ===== *)
(** * Invalidation events (workers/invalidator.py)

    Parsing of raw payloads, [Invalidator._process_event] and [process_raw_batch], over any
    store that keeps the port's laws.  The tool-cache flush is the parameter [flush_cache]
    ([None] for a deployment wired without one), [fromisoformat] is the date parser and
    [repr_container] the [repr] of nested containers; nothing is assumed of the three. *)

From Stdlib Require Import Floats.
From S2P Require Import Prelude Domain PyText Json StateMachine Memory Lifecycle VaultStore Sweeps Revalidation.
Open Scope Z_scope.

Record InvalidationEvent := mkEvent {
  ev_event_type : pystr;
  ev_selector : InvalidationSelector;
  ev_fired_at : option datetime;
}.

Definition CACHE_FLUSH_EVENT_TYPE : pystr := of_ascii "cache_flush".

(** [_as_seq]. *)
Definition as_seq (v : option json) : result exn (list json) :=
  match v with
  | None | Some JNull => Ok []
  | Some (JArr l) => Ok l
  | Some _ => Err ValueError
  end.

Section Parse.
Context (repr_container : json → pystr) (fromisoformat : pystr → result exn datetime).

(** [raw.get("selector") or {}], which must then be a mapping. *)
Definition raw_selector_of (raw : list (pystr * json)) : result exn (list (pystr * json)) :=
  match dict_get raw (of_ascii "selector") with
  | None | Some JNull | Some (JBool false) | Some (JStr []) | Some (JArr []) => Ok []
  | Some (JInt n) => if n =? 0 then Ok [] else Err ValueError
  | Some (JObj o) => Ok o
  | Some _ => Err ValueError
  end.

Definition parse_invalidation_payload (raw : list (pystr * json)) : result exn InvalidationEvent :=
  match dict_get raw (of_ascii "event_type") with
  | Some (JStr (c :: cs)) =>
      let! raw_selector := raw_selector_of raw in
      let! tool_refs0 := as_seq (dict_get raw_selector (of_ascii "tool_refs")) in
      let! trace_ids0 := as_seq (dict_get raw_selector (of_ascii "trace_ids")) in
      let! trace_ids := rmap (λ t, let! u := uuid_new (py_str repr_container t) in Ok (mkRunId u)) trace_ids0 in
      let! hashes0 := as_seq (dict_get raw_selector (of_ascii "input_sig_hashes")) in
      let! hashes := rmap (λ h, bytes_fromhex (py_str repr_container h)) hashes0 in
      let! fired_at :=
        match dict_get raw (of_ascii "fired_at") with
        | None | Some JNull => Ok None
        | Some v => let! d := fromisoformat (py_str repr_container v) in
                    check! dt_aware d else ValueError in Ok (Some d)
        end in
      Ok (mkEvent (c :: cs) (mkSelector (map (py_str repr_container) tool_refs0) trace_ids hashes) fired_at)
  | _ => Err ValueError
  end.
End Parse.

Record InvalidatorResult := mkInvResult {
  ir_event_type : pystr;
  ir_cache_flushed : bool;
  ir_flushed_keys : Z;
  ir_considered : list MemoryId;
  ir_transitioned_to_stale : list MemoryId;
}.

Definition invalidated_evidence (n : datetime) (r : LifecycleMemoryRow) : TransitionEvidence :=
  mkEvidence n (cls (l_provenance r)) (l_trust_tier r) (l_mem_type r) false false false false
    (l_status_changed_at r) [] false 0 0 false false false false false
    true false false false 0 0%float 0 0 false false false false.

Section Worker.
Context {S : Type} `{!LifecycleRepo S} (clock : nat → datetime) (flush_cache : option (ProjectId → Z)).

(** The re-assertion of every selected row, before the first write. *)
Definition require_candidate (p : ProjectId) (sel : InvalidationSelector) (row : LifecycleMemoryRow)
  : result lifecycle_error unit :=
  check! bool_decide (l_project_id row = p) else LExn TracebedError in
  check! selector_matches (l_provenance row) sel else LExn TracebedError in
  Ok tt.

(** The body of the writing loop: the id of the row if it was moved. *)
Definition invalidate_row (p : ProjectId) (limits : TransitionLimits) (n : datetime)
    (row : LifecycleMemoryRow) : worker S (option MemoryId) :=
  if bool_decide (l_status row ≠ VALIDATED) then wret None
  else
    let* e := wlift (of_exn (evidence_post_init (invalidated_evidence n row))) in
    let* new_status := wlift (of_transition (apply (Some (l_status row)) STALE e limits)) in
    let* _ := wpersist p (mkLWrite (l_id row) (l_status row) new_status n (Some 1) None None) in
    wret (Some (l_id row)).

Definition process_event (p : ProjectId) (cfg : EffectiveConfig) (ev : InvalidationEvent)
  : worker S InvalidatorResult :=
  if bool_decide (ev_event_type ev = CACHE_FLUSH_EVENT_TYPE) then
    match flush_cache with
    | None => wret (mkInvResult (ev_event_type ev) false 0 [] [])
    | Some flush => wret (mkInvResult (ev_event_type ev) true (flush p) [] [])
    end
  else if selector_is_empty (ev_selector ev) then wret (mkInvResult (ev_event_type ev) false 0 [] [])
  else
    let* candidates := wread (λ s, select_by_provenance s p (ev_selector ev)) in
    let* _ := wlift (rmap (require_candidate p (ev_selector ev)) candidates) in
    let* limits := wlift (of_exn (from_config cfg)) in
    let* n := wnow clock in
    let* moved_ids := wfor (invalidate_row p limits n) candidates in
    wret (mkInvResult (ev_event_type ev) false 0 (l_id <$> candidates) (omap id moved_ids)).

Definition process_raw_batch (parse : list (pystr * json) → result exn InvalidationEvent)
    (p : ProjectId) (cfg : EffectiveConfig) (raw_events : list (list (pystr * json)))
  : worker S (list InvalidatorResult) :=
  let* parsed := wlift (of_exn (rmap parse raw_events)) in
  wfor (process_event p cfg) parsed.
End Worker.

(** ** What an event does to one row *)

(** The row is a validated dependent of what the event names. *)
Definition hits (p : ProjectId) (ev : InvalidationEvent) (r : LifecycleMemoryRow) : bool :=
  negb (bool_decide (ev_event_type ev = CACHE_FLUSH_EVENT_TYPE))
  && population p VALIDATED r && selector_matches (l_provenance r) (ev_selector ev).

Definition invalidated (p : ProjectId) (n : datetime) (ev : InvalidationEvent) (r : LifecycleMemoryRow)
  : LifecycleMemoryRow :=
  if hits p ev r then moved STALE n 1 r else r.

(** Hashes that came through [bytes.fromhex] are bytes. *)
Lemma hexval_range c d : hex_val c = Some d → 0 ≤ d < 16.
Proof. unfold hex_val. intros. repeat case_match; simplify_eq; lia. Qed.


Lemma fromhex_bytes n s bs : (length s ≤ n)%nat → bytes_fromhex s = Ok bs →
  forallb (λ b, (0 <=? b) && (b <? 256)) bs = true.
Proof.
  revert s bs. induction n as [|n IH]; intros [|c s] bs Hn H; cbn in Hn, H; try lia; try by injection H as <-.
  destruct (_ || _); [by apply (IH s); [lia|]|].
  destruct s as [|d s]; [done|]. cbn in Hn.
  destruct (hex_val c) as [hi|] eqn:Hhi; [|done]. destruct (hex_val d) as [lo|] eqn:Hlo; [|done].
  destruct (bytes_fromhex s) as [rest|] eqn:Hrest; [|done]. injection H as <-.
  apply hexval_range in Hhi, Hlo. cbn [forallb]. rewrite (IH s rest) by (done || lia).
  rewrite (proj2 (Z.leb_le _ _)), (proj2 (Z.ltb_lt _ _)) by lia. done.
Qed.

Lemma parsed_bytes repr iso raw ev : parse_invalidation_payload repr iso raw = Ok ev →
  bytes_ok (sel_input_sig_hashes (ev_selector ev)) = true.
Proof.
  unfold parse_invalidation_payload. destruct (dict_get raw _) as [[| | |[|c cs]| |]|]; try done.
  intros (o & _ & (trs & _ & (ts0 & _ & (ts & _ & (hs0 & _ & (hs & Hhs & (f & _ & H)%rbind_Ok)%rbind_Ok)
    %rbind_Ok)%rbind_Ok)%rbind_Ok)%rbind_Ok)%rbind_Ok.
  injection H as <-. cbn. apply forallb_forall. intros h Hh.
  apply list_elem_of_In, list_elem_of_lookup in Hh as (i & Hi).
  apply rmap_Ok in Hhs. destruct (Forall2_lookup_r _ _ _ _ _ Hhs Hi) as (v & _ & Hv).
  by eapply (fromhex_bytes (length (py_str repr v))).
Qed.

(** ** One event *)

Section Effect.
Context {S : Type} `{!LifecycleRepo S, !LifecycleRepoLaws S}.
Context (clock : nat → datetime) (flush_cache : option (ProjectId → Z)).
Context (p : ProjectId) (cfg : EffectiveConfig) (l : TransitionLimits).
Hypothesis Hl : from_config cfg = Ok l.
Hypothesis Hn : ∀ i, dt_aware (clock i) = true.

Lemma invalidate_row_acts n r : dt_aware n = true → l_project_id r = p → require_aware (l_status_changed_at r) = true →
  acts (invalidate_row p l n) r
    (if bool_decide (l_status r = VALIDATED) then Some (l_id r) else None)
    (if bool_decide (l_status r = VALIDATED) then moved STALE n 1 r else r).
Proof.
  intros Hna Hp Haw s k Hv. unfold invalidate_row. destruct (decide (l_status r = VALIDATED)) as [Hst|Hst].
  - rewrite (bool_decide_eq_false_2 (l_status r ≠ VALIDATED)) by tauto.
    rewrite (bool_decide_eq_true_2 (l_status r = VALIDATED)) by done.
    rewrite (wlift_ok _ _ _ (invalidated_evidence n r)) by by apply evidence_ok.
    rewrite (wlift_ok _ _ _ STALE) by by rewrite Hst.
    replace (moved STALE n 1 r) with (written (mkLWrite (l_id r) (l_status r) STALE n (Some 1) None None) r)
      by (by rewrite Hst).
    apply (persist_transition _ _ _ r (invalidated_evidence n r) l); try done. by rewrite Hst.
  - rewrite (bool_decide_eq_true_2 (l_status r ≠ VALIDATED)) by done.
    rewrite (bool_decide_eq_false_2 (l_status r = VALIDATED)) by done. by apply leave_row.
Qed.

(** What a processed event leaves behind, [n] being the instant it was processed at. *)
Definition event_effect (n : datetime) (ev : InvalidationEvent) (s : S) (res : InvalidatorResult) (s' : S) : Prop :=
  (∀ m, vault s' m = invalidated p n ev <$> vault s m)
  ∧ (∀ m, m ∈ ir_transitioned_to_stale res ↔ ∃ r, vault s (p, m) = Some r ∧ hits p ev r = true)
  ∧ rtc vstep s s'.

Lemma quiet_event n ev s res : (∀ r, hits p ev r = false) → ir_transitioned_to_stale res = [] →
  event_effect n ev s res s.
Proof.
  intros Hh Ht. split_and!; [| |done].
  - intros m. destruct (vault s m); [|done]. cbn. unfold invalidated. by rewrite Hh.
  - intros m. rewrite Ht. split; [by intros ?%elem_of_nil|]. intros (r & _ & Hr). by rewrite Hh in Hr.
Qed.

(** Selecting, re-asserting and writing: the rows of the selector, validated or not. *)
Lemma dependents ev s r : bytes_ok (sel_input_sig_hashes (ev_selector ev)) = true →
  ev_event_type ev ≠ CACHE_FLUSH_EVENT_TYPE → r ∈ select_by_provenance s p (ev_selector ev) →
  vault s (l_key r) = Some r ∧ l_project_id r = p
  ∧ selector_matches (l_provenance r) (ev_selector ev) = true
  ∧ hits p ev r = bool_decide (l_status r = VALIDATED).
Proof.
  intros Hb Hf (Hv & Hp & Hs)%provenance_iff; [|done]. split_and!; [done..|].
  unfold hits, population. rewrite bool_decide_eq_false_2, bool_decide_eq_true_2, Hs by done.
  cbn. by rewrite andb_true_r.
Qed.

Lemma hits_selected ev s m r : bytes_ok (sel_input_sig_hashes (ev_selector ev)) = true →
  vault s m = Some r → hits p ev r = true → r ∈ select_by_provenance s p (ev_selector ev).
Proof.
  intros Hb Hv Hh. unfold hits in Hh. bsplit. apply provenance_iff; [done|].
  match goal with H : population _ _ _ = true |- _ => apply population_true in H as [? ?] end.
  by rewrite (vault_id _ _ _ Hv).
Qed.

Lemma process_event_effect ev s k : bytes_ok (sel_input_sig_hashes (ev_selector ev)) = true → dated s →
  ∃ res s' k', process_event clock flush_cache p cfg ev (s, k) = (Ok res, (s', k'))
    ∧ event_effect (clock k) ev s res s'.
Proof.
  intros Hb Hd. unfold process_event.
  destruct (bool_decide_reflect (ev_event_type ev = CACHE_FLUSH_EVENT_TYPE)) as [Hflush|Hflush].
  { destruct flush_cache; eexists _, s, k; (split; [done|]); apply quiet_event; try done;
      intros r; unfold hits; by rewrite bool_decide_eq_true_2. }
  destruct (selector_is_empty (ev_selector ev)) eqn:Hempty.
  { eexists _, s, k. split; [done|]. apply quiet_event; [|done]. intros r. unfold hits.
    by rewrite selector_empty_matches, andb_false_r. }
  set (rows := select_by_provenance s p (ev_selector ev)). rewrite (wbind_ok _ _ _ rows (s, k)) by done.
  destruct (rmap_total (require_candidate p (ev_selector ev)) rows) as [us Hus].
  { intros r (_ & Hp & Hs & _)%dependents; [|done..]. exists tt. unfold require_candidate.
    by rewrite bool_decide_eq_true_2, Hs. }
  rewrite (wlift_ok _ _ _ us) by done. rewrite (wlift_ok _ _ _ l) by by rewrite Hl.
  rewrite (wbind_ok _ _ _ (clock k) (s, Datatypes.S k)) by done.
  destruct (wfor_acts (invalidate_row p l (clock k))
    (λ r, if bool_decide (l_status r = VALIDATED) then Some (l_id r) else None)
    (λ r, if bool_decide (l_status r = VALIDATED) then moved STALE (clock k) 1 r else r) rows s (Datatypes.S k))
    as (s' & k' & Hw & Hm & Hs); [apply provenance_NoDup|by intros r (? & _)%dependents|..].
  { intros r (Hv & ? & _)%dependents; [|done..]. apply Hd in Hv as (? & _). by apply invalidate_row_acts. }
  rewrite (wbind_ok _ _ _ _ _ Hw). eexists _, s', k'. split; [done|]. split_and!; [..|done].
  - intros m. destruct (mapped_vault _ _ _ _ m Hm) as [(r & Hr & <- & ->)|[Hni ->]].
    + apply dependents in Hr as (Hv & _ & _ & Hh); [|done..]. rewrite Hv. cbn. unfold invalidated. by rewrite Hh.
    + destruct (vault s m) as [r|] eqn:Hv; [|done]. cbn. unfold invalidated.
      destruct (hits p ev r) eqn:Hh; [|done]. destruct Hni.
      rewrite <- (vault_id _ _ _ Hv). apply list_elem_of_fmap_2. by eapply hits_selected.
  - intros m. cbn [ir_transitioned_to_stale]. rewrite list_elem_of_omap. setoid_rewrite list_elem_of_fmap. split.
    + intros (o & (r & -> & Hr) & Ho). apply dependents in Hr as (Hv & Hp & _ & Hh); [|done..].
      exists r. rewrite Hh. destruct (bool_decide _); [|done]. injection Ho as <-.
      unfold l_key in Hv. by rewrite Hp in Hv.
    + intros (r & Hv & Hh). pose proof (hits_selected _ _ _ _ Hb Hv Hh) as Hr.
      apply vault_id in Hv as Hk. unfold l_key in Hk. injection Hk as _ <-.
      exists (Some (l_id r)). split; [|done]. exists r. split; [|done].
      apply dependents in Hr as (_ & _ & _ & Heq); [|done..]. by rewrite <- Heq, Hh.
Qed.

Lemma event_dated n ev s res s' : dt_aware n = true → dated s → event_effect n ev s res s' → dated s'.
Proof.
  intros Hna Hd (Hv & _) m r' Hr'. rewrite Hv in Hr'. destruct (vault s m) as [r|] eqn:Hr; [|done].
  injection Hr' as <-. apply Hd in Hr as (? & ? & ?). unfold invalidated. by destruct (hits p ev r).
Qed.

(** A row after a batch of events. *)
Definition batch_effect (events : list InvalidationEvent) (r r' : LifecycleMemoryRow) : Prop :=
  if existsb (λ ev, hits p ev r) events then ∃ i, r' = moved STALE (clock i) 1 r else r' = r.

Lemma hits_moved ev n r : hits p ev (moved STALE n 1 r) = false.
Proof. unfold hits, population. cbn. by rewrite !andb_false_r. Qed.

Lemma batch_step k ev events r r' : batch_effect events (invalidated p (clock k) ev r) r' →
  batch_effect (ev :: events) r r'.
Proof.
  unfold batch_effect, invalidated. cbn [existsb]. destruct (hits p ev r); [|done]. cbn [orb].
  assert (existsb (λ ev', hits p ev' (moved STALE (clock k) 1 r)) events = false) as ->.
  { apply not_true_iff_false. rewrite existsb_exists. intros (ev' & _ & H). by rewrite hits_moved in H. }
  intros ->. by exists k.
Qed.

Lemma batch_events events s k :
  Forall (λ ev, bytes_ok (sel_input_sig_hashes (ev_selector ev)) = true) events → dated s →
  ∃ ress s' k', wfor (process_event clock flush_cache p cfg) events (s, k) = (Ok ress, (s', k'))
    ∧ (∀ m r, vault s m = Some r → ∃ r', vault s' m = Some r' ∧ batch_effect events r r')
    ∧ (∀ m, vault s m = None → vault s' m = None) ∧ rtc vstep s s'.
Proof.
  intros Hb. revert s k. induction Hb as [|ev events Hev _ IH]; intros s k Hd.
  { exists [], s, k. split_and!; [done| |done|done]. intros m r Hr. by exists r. }
  destruct (process_event_effect ev s k Hev Hd) as (res & s1 & k1 & Hrun & Heff).
  destruct (IH s1 k1) as (ress & s2 & k2 & Hw & Hrow & Hno & Hs2); [by eapply event_dated|].
  destruct Heff as (Hv & _ & Hs1).
  exists (res :: ress), s2, k2. split_and!; [| | |by etransitivity].
  - cbn [wfor]. by rewrite (wbind_ok _ _ _ _ _ Hrun), (wbind_ok _ _ _ _ _ Hw).
  - intros m r Hr. destruct (Hrow m (invalidated p (clock k) ev r)) as (r' & Hr' & He); [by rewrite Hv, Hr|].
    exists r'. split; [done|]. by eapply batch_step.
  - intros m Hm. apply Hno. by rewrite Hv, Hm.
Qed.
End Effect.

(** ** Theorems *)

(** An invalidation event moves exactly the validated memories of the project whose
    provenance shares a tool, a trace or an input signature with its selector into [stale],
    with one strike; every other row of every project is unchanged, and the result names
    exactly the moved rows.  A cache flush, or an event with an empty selector, moves none. *)
Lemma invalidation_exact {S : Type} `{!LifecycleRepo S, !LifecycleRepoLaws S}
    (clock : nat → datetime) flush_cache p cfg l ev (s : S) k :
  from_config cfg = Ok l → (∀ i, dt_aware (clock i) = true) → dated s →
  bytes_ok (sel_input_sig_hashes (ev_selector ev)) = true →
  ∃ res s' k', process_event clock flush_cache p cfg ev (s, k) = (Ok res, (s', k'))
    ∧ (∀ m, vault s' m = (λ r, if hits p ev r then moved STALE (clock k) 1 r else r) <$> vault s m)
    ∧ (∀ m, m ∈ ir_transitioned_to_stale res ↔
         ∃ r, vault s (p, m) = Some r ∧ l_status r = VALIDATED ∧ ev_event_type ev ≠ CACHE_FLUSH_EVENT_TYPE
              ∧ ((∃ t, t ∈ sel_tool_refs (ev_selector ev) ∧ t ∈ tool_refs (l_provenance r))
                 ∨ (∃ t, t ∈ sel_trace_ids (ev_selector ev) ∧ t ∈ trace_ids (l_provenance r))
                 ∨ (∃ h, h ∈ sel_input_sig_hashes (ev_selector ev) ∧ h ∈ input_sig_hashes (l_provenance r)))).
Proof.
  intros Hl Hn Hd Hb.
  destruct (process_event_effect clock flush_cache p cfg l Hl Hn ev s k Hb Hd)
    as (res & s' & k' & Hrun & Hv & Ht & _).
  exists res, s', k'. split_and!; [done|done|]. intros m. rewrite Ht.
  split; intros (r & Hr & Hh); exists r; (split; [done|]); unfold hits in *.
  - rewrite !andb_true_iff, negb_true_iff, bool_decide_eq_false, population_true in Hh.
    destruct Hh as ((? & _ & ?) & Hs). unfold selector_matches in Hs.
    rewrite !orb_true_iff, !overlaps_true in Hs. split_and!; [done|done|tauto].
  - destruct Hh as (Hst & Hf & Hs). rewrite !andb_true_iff, negb_true_iff, bool_decide_eq_false, population_true.
    unfold selector_matches. rewrite !orb_true_iff, !overlaps_true.
    apply vault_id in Hr. unfold l_key in Hr. injection Hr as Hp _. tauto.
Qed.

(** A batch is parsed before it is processed: with any malformed payload in it the call
    raises and nothing was written; otherwise every event is processed, and a memory ends up
    [stale] exactly if some event of the batch hits it, with one strike however many do. *)
Lemma batch_all_or_nothing {S : Type} `{!LifecycleRepo S, !LifecycleRepoLaws S}
    (clock : nat → datetime) flush_cache repr iso p cfg l raws (s : S) k :
  from_config cfg = Ok l → (∀ i, dt_aware (clock i) = true) → dated s →
  (∃ e raw, raw ∈ raws ∧ parse_invalidation_payload repr iso raw = Err e
     ∧ process_raw_batch clock flush_cache (parse_invalidation_payload repr iso) p cfg raws (s, k)
       = (Err (LExn e), (s, k)))
  ∨ ∃ events ress s' k', rmap (parse_invalidation_payload repr iso) raws = Ok events
     ∧ process_raw_batch clock flush_cache (parse_invalidation_payload repr iso) p cfg raws (s, k)
       = (Ok ress, (s', k'))
     ∧ ∀ m r, vault s m = Some r → ∃ r', vault s' m = Some r'
         ∧ if existsb (λ ev, hits p ev r) events then ∃ i, r' = moved STALE (clock i) 1 r else r' = r.
Proof.
  intros Hl Hn Hd. unfold process_raw_batch.
  destruct (rmap (parse_invalidation_payload repr iso) raws) as [events|e] eqn:Hp.
  - right. rewrite (wlift_ok _ _ _ events) by done.
    destruct (batch_events clock flush_cache p cfg l Hl Hn events s k) as (ress & s' & k' & Hw & Hrow & _); [|done|].
    + apply rmap_Ok in Hp. apply Forall_forall. intros ev (i & Hi)%list_elem_of_lookup.
      eapply Forall2_lookup_r in Hp as (raw & _ & Hraw); [|done]. by eapply parsed_bytes.
    + by exists events, ress, s', k'.
  - left. exists e. clear -Hp.
    assert (∃ raw, raw ∈ raws ∧ parse_invalidation_payload repr iso raw = Err e) as (raw & ? & ?).
    { induction raws as [|raw raws IH]; [done|]. cbn in Hp.
      destruct (parse_invalidation_payload repr iso raw) as [ev|e'] eqn:Hraw.
      - cbn in Hp. destruct (rmap _ raws); [done|]. injection Hp as ->.
        destruct IH as (raw' & ? & ?); [done|]. exists raw'. split; [by right|done].
      - injection Hp as ->. exists raw. split; [left|done]. }
    exists raw. by split_and!.
Qed.

Definition event_ex : InvalidationEvent :=
  mkEvent (of_ascii "tool_changed") (mkSelector [of_ascii "search"] [] []) None.

Lemma invalidation_exact_witness :
  ∃ res s' k', @process_event _ (pg_repo all_visible) (λ _, instant 60) None project_ex default_config event_ex
                 (db_ex, 0%nat) = (Ok res, (s', k'))
    ∧ memory_ex 5 I ∈ ir_transitioned_to_stale res.
Proof.
  destruct (@invalidation_exact _ (pg_repo all_visible) (pg_laws all_visible) (λ _, instant 60) None project_ex
              default_config default_limits event_ex db_ex 0%nat) as (res & s' & k' & Hrun & _ & Ht).
  - apply default_limits_ok.
  - done.
  - apply table_dated. vm_compute. reflexivity.
  - reflexivity.
  - exists res, s', k'. split; [exact Hrun|]. apply Ht.
    exists (row_to_lifecycle_row (project_ex, memory_ex 5 I) (columns_ex VALIDATED (Some (instant 1)) 0.5)).
    split_and!; [vm_compute; reflexivity|reflexivity|by vm_compute|].
    left. exists (of_ascii "search"). split; left.
Defined.

(** The second payload's [tool_refs] is a string, not a list. *)
Definition payloads_ex : list (list (pystr * json)) :=
  let payload refs := [(of_ascii "event_type", JStr (of_ascii "tool_changed"));
                       (of_ascii "selector", JObj [(of_ascii "tool_refs", refs)])] in
  [payload (JArr [JStr (of_ascii "search")]); payload (JStr (of_ascii "search"))].

Lemma batch_all_or_nothing_witness :
  ∃ e, @process_raw_batch _ (pg_repo all_visible) (λ _, instant 60) None
         (parse_invalidation_payload (λ _, []) (λ _, Err ValueError)) project_ex default_config payloads_ex
         (db_ex, 0%nat) = (Err (LExn e), (db_ex, 0%nat)).
Proof.
  destruct (@batch_all_or_nothing _ (pg_repo all_visible) (pg_laws all_visible) (λ _, instant 60) None (λ _, [])
              (λ _, Err ValueError) project_ex default_config default_limits payloads_ex db_ex 0%nat)
    as [(e & raw & _ & _ & H)|(events & _ & _ & _ & H & _)].
  - apply default_limits_ok.
  - done.
  - apply table_dated. vm_compute. reflexivity.
  - by exists e.
  - vm_compute in H. discriminate H.
Defined.
