(* ===== verification/StatusWriter.v ===== *)
(** * The status-write path (stores/pg/lifecycle.py)

    [LifecycleWriter.persist_status] is how promotion, shadow validation, operator edits,
    preferences and forensics commit a transition (the sweeps, revalidation and invalidation
    write through the lifecycle adapter of VaultStore.v, which keeps no log): the status update and its [memory_status_log] row in one
    transaction.  [StatusRepo] is the port those workers share
    ([MemoryEditRepoPort], [ForensicsRepoPort], the write half of [PromotionRepoPort]); the
    instance at the end implements it over the database of VaultStore.v. *)

From Stdlib Require Import Floats.
From S2P Require Import Prelude Domain PyText Json StateMachine Memory Lifecycle VaultStore.
Open Scope Z_scope.

(** ** Data (workers/edit_ops.py) *)

Record EditableMemory := mkEditable {
  e_id : MemoryId;
  e_project_id : ProjectId;
  e_status : Status;
  e_trust_tier : TrustTier;
  e_mem_type : MemType;
  e_provenance : Provenance;
  e_status_changed_at : option datetime;
  e_subject_tag : option pystr;
}.

Record MemoryStatusWrite := mkSWrite {
  w_memory_id : MemoryId;
  w_from_status : Status;
  w_to_status : Status;
  w_now : datetime;
  w_actor_principal : option PrincipalId;
}.

(** [MemoryStatusWrite.__post_init__]: an aware instant, and a real transition. *)
Definition status_write_post_init (w : MemoryStatusWrite) : result exn MemoryStatusWrite :=
  check! dt_aware (w_now w) else ValueError in
  check! bool_decide (w_from_status w ≠ w_to_status w) else ValueError in
  Ok w.

(** The projection of a stored row ([_to_editable]). *)
Definition editable_of (tag : option pystr) (r : LifecycleMemoryRow) : EditableMemory :=
  mkEditable (l_id r) (l_project_id r) (l_status r) (l_trust_tier r) (l_mem_type r) (l_provenance r)
    (l_status_changed_at r) tag.

(** ** The port *)

Class StatusRepo (S : Type) := {
  #[global] status_vault :: Vault S;
  get_memory_by_id : S → ProjectId → MemoryId → result lifecycle_error EditableMemory;
  persist_status : S → ProjectId → MemoryStatusWrite → result lifecycle_error S;
  insert_review_item : S → ProjectId → pystr → option MemoryId → S;
  (** the rows of [review_queue], as far as the workers are concerned *)
  review_rows : S → list (ProjectId * option MemoryId);
}.

(** The row after a status write. *)
Definition restatus (st : Status) (n : datetime) (r : LifecycleMemoryRow) : LifecycleMemoryRow :=
  mkLRow (l_id r) (l_project_id r) st (l_trust_tier r) (l_mem_type r) (l_provenance r) (Some n)
    (l_strike_count r) (l_last_retrieved_at r) (l_created_at r) (l_q_value r).

Class StatusRepoLaws (S : Type) `{StatusRepo S} : Prop := {
  status_vault_id : ∀ s m r, vault s m = Some r → l_key r = m;
  get_found : ∀ s p m r, vault s (p, m) = Some r → ∃ tag, get_memory_by_id s p m = Ok (editable_of tag r);
  get_missing : ∀ s p m, vault s (p, m) = None → get_memory_by_id s p m = Err NotFound;
  status_applies : ∀ s p w r, vault s (p, w_memory_id w) = Some r → l_status r = w_from_status w →
    is_Some (transitions_get (Some (w_from_status w)) (w_to_status w)) →
    ∃ s', persist_status s p w = Ok s' ∧ updates s s' (p, w_memory_id w) (restatus (w_to_status w) (w_now w) r);
  status_stale : ∀ s p w r, vault s (p, w_memory_id w) = Some r → l_status r ≠ w_from_status w →
    ∃ e, persist_status s p w = Err e;
  review_vault : ∀ s p reason m k, vault (insert_review_item s p reason m) k = vault s k;
  review_recorded : ∀ s p reason m, review_rows (insert_review_item s p reason m) = review_rows s ++ [(p, m)];
  status_reviews : ∀ s p w s', persist_status s p w = Ok s' → review_rows s' = review_rows s;
}.

(** ** Workers over the port *)

Section Workers.
Context {S : Type} `{!StatusRepo S}.

Definition wtry {A} (f : S → result lifecycle_error A) : worker S A := λ σ, (f σ.1, σ).
Definition wreview (p : ProjectId) (reason : pystr) (m : option MemoryId) : worker S unit := λ σ,
  (Ok tt, (insert_review_item σ.1 p reason m, σ.2)).

(** Building the write, then persisting it. *)
Definition wstatus (p : ProjectId) (w : MemoryStatusWrite) : worker S unit :=
  let* w' := wlift (of_exn (status_write_post_init w)) in
  λ σ, match persist_status σ.1 p w' with
       | Ok s' => (Ok tt, (s', σ.2))
       | Err e => (Err e, σ)
       end.

(** [_require_project]. *)
Definition require_project (row : EditableMemory) (p : ProjectId) : result lifecycle_error unit :=
  check! bool_decide (e_project_id row = p) else LExn TracebedError in Ok tt.

Context `{!StatusRepoLaws S}.

Lemma no_self_edge st e l : apply (Some st) st e l ≠ Ok st.
Proof. intros H. apply apply_ok in H as (_ & g & Hg & _). destruct st; discriminate Hg. Qed.

(** A write [apply] authorised, on a row as it was read, is a governed step. *)
Lemma wstatus_step p w r e l s k : vault s (p, w_memory_id w) = Some r → w_from_status w = l_status r →
  dt_aware (w_now w) = true → about (row_columns_of r) e →
  apply (Some (l_status r)) (w_to_status w) e l = Ok (w_to_status w) →
  ∃ s', wstatus p w (s, k) = (Ok tt, (s', k)) ∧ persist_status s p w = Ok s'
        ∧ updates s s' (p, w_memory_id w) (restatus (w_to_status w) (w_now w) r) ∧ vstep s s'.
Proof.
  intros Hv Hf Haw Ha Happ. unfold wstatus. rewrite (wlift_ok _ _ _ w).
  2: { unfold status_write_post_init. rewrite Haw, bool_decide_eq_true_2; [done|].
       intros Heq. rewrite <- Heq, Hf in Happ. by apply no_self_edge in Happ. }
  destruct (status_applies s p w r) as (s' & Hs & Hu); [done|done| |].
  { apply apply_ok in Happ as (_ & g & Hg & _). rewrite Hf, Hg. by eexists. }
  exists s'. cbn. rewrite Hs. split_and!; [done|done|done|].
  eapply vstep_row; [exact Hv| |exact Hu]. by apply (row_transition _ _ e l).
Qed.

Lemma get_row p m r s : vault s (p, m) = Some r →
  ∃ tag, get_memory_by_id s p m = Ok (editable_of tag r) ∧ require_project (editable_of tag r) p = Ok tt.
Proof.
  intros Hv. destruct (get_found s p m r Hv) as [tag Hg]. exists tag. split; [done|].
  apply status_vault_id in Hv. unfold l_key in Hv. injection Hv as Hp _.
  unfold require_project. cbn. by rewrite bool_decide_eq_true_2.
Qed.
End Workers.

(** ** The Postgres implementation *)

Section Postgres.
Context (memory_visible : ProjectId → MemoryId → bool).

(** [LifecycleWriter._authorize] without the optional re-verification. *)
Definition authorize (w : MemoryStatusWrite) : result transition_error unit :=
  match transitions_get (Some (w_from_status w)) (w_to_status w) with
  | Some _ => Ok tt
  | None => Err (IllegalTransition (Some (w_from_status w)) (w_to_status w))
  end.

(** [_authorize] with [guard_evidence] and [guard_limits], both or neither. *)
Definition authorize_with (w : MemoryStatusWrite) (guard_evidence : option TransitionEvidence)
    (guard_limits : option TransitionLimits) : result lifecycle_error unit :=
  match guard_evidence, guard_limits with
  | Some e, Some l => of_transition (let! _ := apply (Some (w_from_status w)) (w_to_status w) e l in Ok tt)
  | None, None => of_transition (authorize w)
  | _, _ => Err (LExn ValueError)
  end.

(** [_UPDATE_STATUS_SQL] on the row it selects. *)
Definition sql_set_status (w : MemoryStatusWrite) (c : memory_columns) : memory_columns :=
  mkMemoryColumns (w_to_status w) (c_trust_tier c) (c_mem_type c) (c_provenance c) (Some (w_now w))
    (c_strike_count c) (c_last_retrieved_at c) (c_created_at c) (c_q_value c) (c_last_revalidated_at c)
    (c_scored_use_count c) (c_last_scored_at c) (c_epoch_id c) (c_subject_tag c) (c_shadow_confirm_runs c)
    (c_hashes c).

Definition pg_persist_status (d : database) (p : ProjectId) (w : MemoryStatusWrite) (reason : pystr)
    (evidence : list (pystr * json)) (epoch_id : option Z)
    (guard_evidence : option TransitionEvidence) (guard_limits : option TransitionLimits)
  : result lifecycle_error database :=
  let! _ := authorize_with w guard_evidence guard_limits in
  let k := (p, w_memory_id w) in
  match items d !! k with
  | Some c =>
      check! bool_decide (c_status c = w_from_status w) else StaleStatusTransition in
      Ok (mkDb (<[k := sql_set_status w c]> (items d))
            (status_log d ++ [mkLog k (w_from_status w) (w_to_status w) reason (w_actor_principal w)
                                evidence epoch_id (w_now w)])
            (review_queue d) (memory_links d) (injections d) (outcomes d) (q_updates d))
  | None => Err StaleStatusTransition
  end.

Definition pg_get_memory_by_id (d : database) (p : ProjectId) (m : MemoryId)
  : result lifecycle_error EditableMemory :=
  match items d !! (p, m) with
  | Some c =>
      if memory_visible p m
      then Ok (editable_of (c_subject_tag c) (row_to_lifecycle_row (p, m) c))
      else Err NotFound
  | None => Err NotFound
  end.

Definition pg_insert_review_item (d : database) (p : ProjectId) (reason : pystr) (m : option MemoryId) : database :=
  mkDb (items d) (status_log d) (review_queue d ++ [mkReview p reason m]) (memory_links d) (injections d) (outcomes d) (q_updates d).

#[export] Instance pg_status_repo : StatusRepo database := {|
  status_vault := pg_vault memory_visible;
  get_memory_by_id := pg_get_memory_by_id;
  persist_status d p w := pg_persist_status d p w [] [] None None None;
  insert_review_item := pg_insert_review_item;
  review_rows d := (λ q, (rq_project_id q, rq_memory_id q)) <$> review_queue d;
|}.

Lemma persist_status_Ok d p w reason ev ep d' : pg_persist_status d p w reason ev ep None None = Ok d' ↔
  is_Some (transitions_get (Some (w_from_status w)) (w_to_status w))
  ∧ ∃ c, items d !! (p, w_memory_id w) = Some c ∧ c_status c = w_from_status w
    ∧ d' = mkDb (<[(p, w_memory_id w) := sql_set_status w c]> (items d))
             (status_log d ++ [mkLog (p, w_memory_id w) (w_from_status w) (w_to_status w) reason
                                 (w_actor_principal w) ev ep (w_now w)])
             (review_queue d) (memory_links d) (injections d) (outcomes d) (q_updates d).
Proof.
  unfold pg_persist_status, authorize_with, authorize.
  destruct (transitions_get _ _) as [g|]; cbn; [|split; [done|]; by intros [[? ?] _]].
  destruct (items d !! (p, w_memory_id w)) as [c|] eqn:Hc; [|split; [done|]; by intros (_ & c & ? & _)].
  case_bool_decide as Hst.
  - split; [intros [= <-]; split; [by eexists|]; by exists c|]. by intros (_ & c' & [= <-] & _ & ->).
  - split; [done|]. intros (_ & c' & [= <-] & ? & _). done.
Qed.

#[export] Instance pg_status_laws : StatusRepoLaws database.
Proof.
  split.
  - intros d. apply vault_key.
  - intros d p m r (Hvis & c & Hc & ->)%vault_stored. exists (c_subject_tag c).
    cbn [get_memory_by_id pg_status_repo]. unfold pg_get_memory_by_id. cbn in Hvis. by rewrite Hc, Hvis.
  - intros d p m Hv. cbn [get_memory_by_id pg_status_repo]. unfold pg_get_memory_by_id.
    change (table_vault memory_visible (items d) (p, m) = None) in Hv. unfold table_vault in Hv. cbn in Hv.
    by destruct (memory_visible p m), (items d !! (p, m)).
  - intros d p w r (Hvis & c & Hc & ->)%vault_stored Hst Hedge. eexists. split.
    { apply persist_status_Ok. split; [done|]. by exists c. }
    intros k. change (@vault _ status_vault) with (λ d, table_vault memory_visible (items d)).
    unfold table_vault. cbn [items]. destruct (decide ((p, w_memory_id w) = k)) as [<-|Hne].
    + cbn in Hvis |- *. by rewrite Hvis, lookup_insert_eq.
    + by rewrite lookup_insert_ne.
  - intros d p w r (Hvis & c & Hc & ->)%vault_stored Hne. cbn [persist_status pg_status_repo].
    destruct (pg_persist_status _ _ _ _ _ _ _ _) as [d'|e] eqn:Hp; [|by exists e].
    apply persist_status_Ok in Hp as (_ & c' & Hc' & Hst & _). rewrite Hc in Hc'. injection Hc' as <-. done.
  - done.
  - intros d p reason m. cbn. by rewrite fmap_app.
  - by intros d p w d' (_ & c & _ & _ & ->)%persist_status_Ok.
Qed.
End Postgres.

(** ** The log is the history of the statuses *)

(** One call of [persist_status] with all its arguments. *)
Record status_call := mkCall {
  sc_project : ProjectId;
  sc_write : MemoryStatusWrite;
  sc_reason : pystr;
  sc_evidence : list (pystr * json);
  sc_epoch : option Z;
  sc_guard_evidence : option TransitionEvidence;
  sc_guard_limits : option TransitionLimits;
}.

Definition call (d : database) (c : status_call) : result lifecycle_error database :=
  pg_persist_status d (sc_project c) (sc_write c) (sc_reason c) (sc_evidence c) (sc_epoch c)
    (sc_guard_evidence c) (sc_guard_limits c).

(** Calls one after the other; one that raises has changed nothing. *)
Definition calls (d : database) (cs : list status_call) : database :=
  foldl (λ d c, match call d c with Ok d' => d' | Err _ => d end) d cs.

Definition statuses (d : database) : gmap row_key Status := c_status <$> items d.

(** Applying logged transitions to a table of statuses, checking where each starts. *)
Fixpoint replay (m : gmap row_key Status) (log : list status_log_row) : option (gmap row_key Status) :=
  match log with
  | [] => Some m
  | e :: log' =>
      if bool_decide (m !! sl_key e = Some (sl_from_status e))
      then replay (<[sl_key e := sl_to_status e]> m) log' else None
  end.

Definition legal_entry (e : status_log_row) : Prop :=
  is_Some (transitions_get (Some (sl_from_status e)) (sl_to_status e)).

Lemma authorize_legal w ge gl : authorize_with w ge gl = Ok tt →
  is_Some (transitions_get (Some (w_from_status w)) (w_to_status w)).
Proof.
  unfold authorize_with, authorize. destruct ge as [e|], gl as [l|]; try done.
  - destruct (apply _ _ e l) as [st|] eqn:Happ; [|done]. intros _.
    apply apply_ok in Happ as (_ & g & Hg & _). rewrite Hg. by eexists.
  - by destruct (transitions_get _ _).
Qed.

Lemma call_logged d c d' : call d c = Ok d' →
  ∃ e, status_log d' = status_log d ++ [e] ∧ legal_entry e
       ∧ replay (statuses d) [e] = Some (statuses d').
Proof.
  unfold call, pg_persist_status. intros ([] & Hauth%authorize_legal & H)%rbind_Ok.
  destruct (items d !! _) as [col|] eqn:Hc; [|done]. case_bool_decide as Hst; [|done]. injection H as <-.
  eexists. split; [done|]. split; [done|]. cbn. unfold statuses. rewrite lookup_fmap, Hc. cbn.
  rewrite bool_decide_eq_true_2 by by rewrite Hst. by rewrite fmap_insert.
Qed.

Lemma replay_app m l1 l2 m' : replay m l1 = Some m' → replay m (l1 ++ l2) = replay m' l2.
Proof.
  revert m. induction l1 as [|e l1 IH]; intros m; cbn; [by intros [= ->]|]. case_bool_decide; [apply IH|done].
Qed.

(** [C21] The audited status writer keeps a complete log: after any sequence of calls of
    [LifecycleWriter.persist_status], with any arguments, including ones that raise, the
    entries added to the log are legal edges of the state machine, and replaying them over
    the old statuses, each from exactly the status the row then had, gives the new statuses
    of every row.  This writer makes no status change without its entry and no entry without
    its change; the lifecycle adapter of the sweeps (stores/pg/memory_lifecycle.py,
    VaultStore.v) writes statuses without a log entry and is not among the calls. *)
Theorem log_replays_statuses d cs :
  ∃ added, status_log (calls d cs) = status_log d ++ added
    ∧ Forall legal_entry added ∧ replay (statuses d) added = Some (statuses (calls d cs)).
Proof.
  revert d. induction cs as [|c cs IH]; intros d; cbn; [exists []; by rewrite app_nil_r|].
  destruct (call d c) as [d'|] eqn:Hc; [|by apply IH].
  destruct (call_logged _ _ _ Hc) as (e & Hlog & He & Hrep). destruct (IH d') as (added & Hlog' & Hadd & Hrep').
  exists (e :: added). split_and!.
  - fold (calls d' cs). rewrite Hlog', Hlog, <- app_assoc. done.
  - by constructor.
  - change (e :: added) with ([e] ++ added). by rewrite (replay_app _ _ _ _ Hrep).
Qed.
