(* ===== verification/EditOps.v ===== *)
(** * Operator edits and unpinning (workers/edit_ops.py, workers/preferences.py)

    [EditOps.merge], [EditOps.operator_edit] and [PreferenceManager.unpin] over the
    status-write port (StatusWriter.v).  The two [pin] operations insert new rows through the
    content scan suite and are not modelled. *)

From Stdlib Require Import Floats.
From S2P Require Import Prelude Domain PyText Json StateMachine Memory Lifecycle VaultStore Sweeps StatusWriter.
Open Scope Z_scope.

Definition superseding_evidence (n : datetime) (row : EditableMemory) : TransitionEvidence :=
  mkEvidence n (cls (e_provenance row)) (e_trust_tier row) (e_mem_type row) false false false false
    (e_status_changed_at row) [] false 0 0 false false true false false
    false false false false 0 0%float 0 0 false false false false.

Definition deletion_evidence (n : datetime) (row : EditableMemory) : TransitionEvidence :=
  mkEvidence n (cls (e_provenance row)) (e_trust_tier row) (e_mem_type row) false false false false
    (e_status_changed_at row) [] false 0 0 false false false false false
    false false false false 0 0%float 0 0 false false false true.

Record OperatorEditResult := mkEditResult {
  oer_memory_id : MemoryId;
  oer_from_status : Status;
  oer_to_status : Status;
  oer_principal_id : PrincipalId;
}.

Section Edit.
Context {S : Type} `{!StatusRepo S} (clock : nat → datetime).

(** The first loop of [merge] on one source: read it and ask the machine. *)
Definition resolve_source (p : ProjectId) (n : datetime) (limits : TransitionLimits) (s : S) (m : MemoryId)
  : result lifecycle_error (EditableMemory * Status) :=
  let! row := get_memory_by_id s p m in
  let! _ := require_project row p in
  let! e := of_exn (evidence_post_init (superseding_evidence n row)) in
  let! st := of_transition (apply (Some (e_status row)) SUPERSEDED e limits) in
  Ok (row, st).

Definition merge (p : ProjectId) (source_memory_ids : list MemoryId) (cfg : EffectiveConfig)
  : worker S (list MemoryId) :=
  let unique_ids := fromkeys source_memory_ids in
  if bool_decide (length unique_ids ≠ length source_memory_ids) then wlift (Err (LExn ValueError))
  else if (length unique_ids <? 2)%nat then wlift (Err (LExn ValueError))
  else
    let* n := wnow clock in
    let* limits := wlift (of_exn (from_config cfg)) in
    let* resolved := wfor (λ m, wtry (λ s, resolve_source p n limits s m)) unique_ids in
    let* _ := wfor (λ '(row, st), wstatus p (mkSWrite (e_id row) (e_status row) st n None)) resolved in
    wret ((λ x, e_id x.1) <$> resolved).

Definition operator_edit (p : ProjectId) (m : MemoryId) (principal_id : PrincipalId) (cfg : EffectiveConfig)
  : worker S OperatorEditResult :=
  let* row := wtry (λ s, get_memory_by_id s p m) in
  let* _ := wlift (require_project row p) in
  let* n := wnow clock in
  let* limits := wlift (of_exn (from_config cfg)) in
  let* e := wlift (of_exn (evidence_post_init (superseding_evidence n row))) in
  let* st := wlift (of_transition (apply (Some (e_status row)) SUPERSEDED e limits)) in
  let* _ := wstatus p (mkSWrite m (e_status row) st n (Some principal_id)) in
  wret (mkEditResult m (e_status row) st principal_id).

(** [PreferenceManager.unpin]; the result's statuses. *)
Definition unpin (p : ProjectId) (m : MemoryId) (cfg : EffectiveConfig) : worker S (Status * Status) :=
  let* row := wtry (λ s, get_memory_by_id s p m) in
  let* _ := wlift (require_project row p) in
  if bool_decide (e_status row ≠ PINNED) then wlift (Err (LExn ValueError))
  else
    let* n := wnow clock in
    let* limits := wlift (of_exn (from_config cfg)) in
    let* e := wlift (of_exn (evidence_post_init (deletion_evidence n row))) in
    let* st := wlift (of_transition (apply (Some (e_status row)) TOMBSTONED e limits)) in
    let* _ := wstatus p (mkSWrite m PINNED st n None) in
    wret (PINNED, st).
End Edit.

(** ** Merging *)

Section Merge.
Context {S : Type} `{!StatusRepo S, !StatusRepoLaws S}.
Context (clock : nat → datetime) (p : ProjectId) (cfg : EffectiveConfig) (l : TransitionLimits).
Hypothesis Hl : from_config cfg = Ok l.
Hypothesis Hn : ∀ i, dt_aware (clock i) = true.

Lemma about_editable tag r n : about (row_columns_of r) (superseding_evidence n (editable_of tag r))
  ∧ about (row_columns_of r) (deletion_evidence n (editable_of tag r)).
Proof. done. Qed.

Lemma supersede_iff st e : contradiction_equal_or_stronger e = true →
  apply (Some st) SUPERSEDED e l
  = if bool_decide (st = VALIDATED) then Ok SUPERSEDED else Err (IllegalTransition (Some st) SUPERSEDED).
Proof.
  intros He. destruct st; try reflexivity.
  rewrite (apply_edge _ _ guard_validated_to_superseded) by reflexivity. unfold guard_validated_to_superseded.
  by rewrite He.
Qed.

Lemma resolve_source_spec n s m : dt_aware n = true → dated s →
  (∃ r tag, vault s (p, m) = Some r ∧ l_status r = VALIDATED
     ∧ resolve_source p n l s m = Ok (editable_of tag r, SUPERSEDED))
  ∨ (∀ r, vault s (p, m) = Some r → l_status r ≠ VALIDATED) ∧ ∃ e, resolve_source p n l s m = Err e.
Proof.
  intros Hna Hd. unfold resolve_source. destruct (vault s (p, m)) as [r|] eqn:Hv.
  - destruct (get_row p m r s Hv) as (tag & -> & Hp). cbn [rbind]. rewrite Hp. cbn [rbind].
    rewrite evidence_ok by (done || by apply Hd in Hv as (? & _)). cbn [rbind].
    rewrite supersede_iff by done. cbn [e_status editable_of].
    destruct (decide (l_status r = VALIDATED)) as [Hst|Hst].
    + left. exists r, tag. by rewrite bool_decide_eq_true_2.
    + right. split; [by intros ? [= <-]|]. rewrite bool_decide_eq_false_2 by done. by eexists.
  - right. split; [done|]. rewrite get_missing by done. by eexists.
Qed.

(** The sources a merge accepts. *)
Definition mergeable (s : S) (ids : list MemoryId) : Prop :=
  NoDup ids ∧ (2 ≤ length ids)%nat
  ∧ ∀ m, m ∈ ids → ∃ r, vault s (p, m) = Some r ∧ l_status r = VALIDATED.

(** The writing loop, over sources that were all read before it. *)
Lemma supersede_all n (ids : list MemoryId) resolved s k : dt_aware n = true → NoDup ids →
  Forall2 (λ m x, ∃ r tag, vault s (p, m) = Some r ∧ l_status r = VALIDATED ∧ x = (editable_of tag r, SUPERSEDED))
    ids resolved →
  ∃ us s' k', wfor (λ '(row, st), wstatus p (mkSWrite (e_id row) (e_status row) st n None)) resolved (s, k)
              = (Ok us, (s', k'))
    ∧ (∀ m, vault s' m = if decide (m ∈ (λ i, (p, i)) <$> ids) then restatus SUPERSEDED n <$> vault s m else vault s m)
    ∧ rtc vstep s s'.
Proof.
  intros Hna Hnd H2.
  assert (Hids : (λ x, (p, e_id x.1)) <$> resolved = (λ i, (p, i)) <$> ids).
  { clear -H2 StatusRepoLaws0. induction H2 as [|m x ids resolved (r & tag & Hv & _ & ->) _ IH]; [done|].
    rewrite !fmap_cons, IH. f_equal. cbn. apply status_vault_id in Hv. unfold l_key in Hv. by injection Hv as _ ->. }
  destruct (wfor_keyed (λ x, (p, e_id x.1))
    (λ '(row, st), wstatus p (mkSWrite (e_id row) (e_status row) st n None))
    (λ _ r _ g, g = restatus SUPERSEDED n r) resolved s k) as (us & s' & k' & Hw & Hm & Ho & Hs).
  { rewrite Hids. apply NoDup_fmap_2; [|done]. by intros ?? [=]. }
  { intros x (i & Hi)%list_elem_of_lookup. eapply Forall2_lookup_r in H2 as (m & _ & r & tag & Hv & Hst & ->); [|done].
    exists r. assert (e_id (editable_of tag r) = m) as Heq
      by (apply status_vault_id in Hv; unfold l_key in Hv; by injection Hv). cbn [fst].
    rewrite Heq. split; [done|]. intros s0 n0 Hv0.
    destruct (wstatus_step p (mkSWrite m (l_status r) SUPERSEDED n None) r
                (superseding_evidence n (editable_of tag r)) l s0 n0) as (s1 & Hrun & _ & Hu & Hstep); [done..| |].
    { cbn. rewrite supersede_iff by done. by rewrite Hst. }
    exists tt, (restatus SUPERSEDED n r), s1, n0. split_and!; [done|done|exact Hu|by apply rtc_once]. }
  exists us, s', k'. split_and!; [done| |done]. intros m. rewrite Hids in Ho. case_decide as Hin; [|by apply Ho].
  rewrite <- Hids in Hin. apply list_elem_of_fmap in Hin as (x & -> & Hx).
  apply list_elem_of_lookup in Hx as [i Hi]. eapply Forall2_lookup_l in Hm as (u & _ & r & g & -> & -> & ->); done.
Qed.
End Merge.

(** ** Theorems *)

(** Merging is all or nothing: if the sources are distinct, at least two, and each a
    validated memory of the project, then every one of them becomes [SUPERSEDED] and no other
    row changes; otherwise the call raises and the store is exactly as it was. *)
Lemma merge_all_or_nothing {S : Type} `{!StatusRepo S, !StatusRepoLaws S}
    (clock : nat → datetime) p cfg l ids (s : S) k :
  from_config cfg = Ok l → (∀ i, dt_aware (clock i) = true) → dated s →
  (mergeable p s ids ∧ ∃ s' k', merge clock p ids cfg (s, k) = (Ok ids, (s', k'))
     ∧ ∀ m, vault s' m = if decide (m ∈ (λ i, (p, i)) <$> ids)
                         then restatus SUPERSEDED (clock k) <$> vault s m else vault s m)
  ∨ (¬ mergeable p s ids ∧ ∃ e k', merge clock p ids cfg (s, k) = (Err e, (s, k'))).
Proof.
  intros Hl Hn Hd. unfold merge, mergeable. destruct (decide (NoDup ids)) as [Hnd|Hnd].
  2: { right. split; [tauto|]. rewrite bool_decide_eq_true_2 by by rewrite fromkeys_length. by eexists _, _. }
  rewrite bool_decide_eq_false_2 by (intros H; apply H; by apply fromkeys_length).
  rewrite fromkeys_id by done. destruct (Nat.ltb_spec (length ids) 2) as [Hlt|Hge].
  { right. split; [intros (_ & ? & _); lia|]. by eexists _, _. }
  rewrite (wbind_ok _ _ _ (clock k) (s, Datatypes.S k)) by done.
  rewrite (wlift_ok _ _ _ l) by by rewrite Hl.
  assert (Hread : wfor (λ m, wtry (λ s, resolve_source p (clock k) l s m)) ids (s, Datatypes.S k)
                  = (rmap (resolve_source p (clock k) l s) ids, (s, Datatypes.S k))) by by apply wfor_reads.
  destruct (rmap (resolve_source p (clock k) l s) ids) as [resolved|e] eqn:Hres.
  - left. apply rmap_Ok in Hres.
    assert (H2 : Forall2 (λ m x, ∃ r tag, vault s (p, m) = Some r ∧ l_status r = VALIDATED
                            ∧ x = (editable_of tag r, SUPERSEDED)) ids resolved).
    { eapply Forall2_impl; [exact Hres|]. intros m x Hx. cbn in Hx.
      destruct (resolve_source_spec p l (clock k) s m (Hn k) Hd) as [(r & tag & ? & ? & Hok)|[_ [e Herr]]]; [|congruence].
      exists r, tag. split_and!; [done|done|congruence]. }
    split; [split_and!; [done|done|]|].
    { intros m [i Hi]%list_elem_of_lookup. eapply Forall2_lookup_l in H2 as (x & _ & r & tag & ? & ? & _); eauto. }
    destruct (supersede_all p l (clock k) ids resolved s (Datatypes.S k) (Hn k) Hnd H2)
      as (us & s' & k' & Hw & Hv & _).
    exists s', k'. split; [|done]. rewrite (wbind_ok _ _ _ _ _ Hread), (wbind_ok _ _ _ _ _ Hw).
    unfold wret. do 2 f_equal. clear -H2 StatusRepoLaws0.
    induction H2 as [|m x ids resolved (r & tag & Hv & _ & ->) _ IH]; [done|]. rewrite fmap_cons, IH. f_equal.
    cbn. apply status_vault_id in Hv. unfold l_key in Hv. by injection Hv.
  - right. split; [|exists e; eexists; unfold wbind at 1; by rewrite Hread].
    intros (_ & _ & Hall). destruct (rmap_total (resolve_source p (clock k) l s) ids) as [ys Hys]; [|congruence].
    intros m (r & Hv & Hst)%Hall.
    destruct (resolve_source_spec p l (clock k) s m (Hn k) Hd) as [(? & ? & _ & _ & ?)|[Hne _]]; [eauto|].
    by destruct (Hne r).
Qed.

Definition db_merge : database :=
  set_items (<[(project_ex, memory_ex 6 I) := columns_ex VALIDATED (Some (instant 2)) 0.25]> table_ex) db_ex.

Lemma merge_all_or_nothing_witness :
  ∃ s' k', @merge _ (pg_status_repo all_visible) (λ _, instant 60) project_ex [memory_ex 5 I; memory_ex 6 I]
             default_config (db_merge, 0%nat) = (Ok [memory_ex 5 I; memory_ex 6 I], (s', k')).
Proof.
  destruct (@merge_all_or_nothing _ (pg_status_repo all_visible) (pg_status_laws all_visible) (λ _, instant 60)
              project_ex default_config default_limits [memory_ex 5 I; memory_ex 6 I] db_merge 0%nat)
    as [(_ & s' & k' & Hrun & _)|[Hno _]].
  - apply default_limits_ok.
  - done.
  - apply table_dated. vm_compute. reflexivity.
  - by exists s', k'.
  - destruct Hno. split_and!; [by apply (bool_decide_unpack _)|done|].
    intros m [->|[->|[]%elem_of_nil]%elem_of_cons]%elem_of_cons; eexists; (split; [vm_compute; reflexivity|reflexivity]).
Defined.

(** Unpinning and editing move exactly the named row, and only off the edge they are for. *)
Section Single.
Context {S : Type} `{!StatusRepo S, !StatusRepoLaws S}.
Context (clock : nat → datetime) (p : ProjectId) (cfg : EffectiveConfig) (l : TransitionLimits).
Hypothesis Hl : from_config cfg = Ok l.
Hypothesis Hn : ∀ i, dt_aware (clock i) = true.

Lemma operator_edit_step m who r s k : dated s → vault s (p, m) = Some r → l_status r = VALIDATED →
  ∃ res s' k', operator_edit clock p m who cfg (s, k) = (Ok res, (s', k'))
    ∧ updates s s' (p, m) (restatus SUPERSEDED (clock k) r) ∧ vstep s s'.
Proof.
  intros Hd Hv Hst. unfold operator_edit. destruct (get_row p m r s Hv) as (tag & Hg & Hp).
  rewrite (wbind_ok _ _ _ (editable_of tag r) (s, k)) by (unfold wtry; cbn; by rewrite Hg).
  rewrite (wlift_ok _ _ _ tt) by done. rewrite (wbind_ok _ _ _ (clock k) (s, Datatypes.S k)) by done.
  rewrite (wlift_ok _ _ _ l) by by rewrite Hl.
  rewrite (wlift_ok _ _ _ (superseding_evidence (clock k) (editable_of tag r)))
    by (apply evidence_ok; [apply Hn|by apply Hd in Hv as (? & _)]).
  assert (Happ : apply (Some (l_status r)) SUPERSEDED (superseding_evidence (clock k) (editable_of tag r)) l = Ok SUPERSEDED)
    by (rewrite supersede_iff by done; by rewrite Hst).
  rewrite (wlift_ok _ _ _ SUPERSEDED) by (cbn; by rewrite Happ).
  destruct (wstatus_step p (mkSWrite m (l_status r) SUPERSEDED (clock k) (Some who)) r
              (superseding_evidence (clock k) (editable_of tag r)) l s (Datatypes.S k))
    as (s' & Hw & _ & Hu & Hs); [done|done|apply Hn|done|done|].
  eexists _, s', _. split_and!; [by rewrite (wbind_ok _ _ _ _ _ Hw)|exact Hu|exact Hs].
Qed.

Lemma unpin_step m r s k : dated s → vault s (p, m) = Some r → l_status r = PINNED →
  ∃ s' k', unpin clock p m cfg (s, k) = (Ok (PINNED, TOMBSTONED), (s', k'))
    ∧ updates s s' (p, m) (restatus TOMBSTONED (clock k) r) ∧ vstep s s'.
Proof.
  intros Hd Hv Hst. unfold unpin. destruct (get_row p m r s Hv) as (tag & Hg & Hp).
  rewrite (wbind_ok _ _ _ (editable_of tag r) (s, k)) by (unfold wtry; cbn; by rewrite Hg).
  rewrite (wlift_ok _ _ _ tt) by done. cbn [e_status editable_of].
  rewrite bool_decide_eq_false_2 by naive_solver. rewrite (wbind_ok _ _ _ (clock k) (s, Datatypes.S k)) by done.
  rewrite (wlift_ok _ _ _ l) by by rewrite Hl.
  rewrite (wlift_ok _ _ _ (deletion_evidence (clock k) (editable_of tag r)))
    by (apply evidence_ok; [apply Hn|by apply Hd in Hv as (? & _)]).
  rewrite (wlift_ok _ _ _ TOMBSTONED) by by rewrite Hst.
  destruct (wstatus_step p (mkSWrite m PINNED TOMBSTONED (clock k) None) r
              (deletion_evidence (clock k) (editable_of tag r)) l s (Datatypes.S k))
    as (s' & Hw & _ & Hu & Hs); [done|done|apply Hn|done|by rewrite Hst|].
  eexists s', _. split_and!; [by rewrite (wbind_ok _ _ _ _ _ Hw)|exact Hu|exact Hs].
Qed.
End Single.
