(* ===== verification/Descendants.v ===== *)
(** * The bounded descendant walk (workers/forensics.py, stores/graph/age.py)

    [Forensics._transitive_descendants] and [AgeGraph.transitive_descendants] are the same
    breadth-first walk over one-hop links, with a bound on generations and one on results.
    [children] is the one-hop query; nothing is assumed of it, so the link graph may be
    cyclic or unbounded.  The [while] loop runs on fuel; [walk_terminates] shows how much is
    always enough. *)

From S2P Require Import Prelude.
Open Scope Z_scope.

Section Walk.
Context {A : Type} `{EqDecision A} (children : A → list A) (max_generations max_descendants : Z).

(** [visited], [order] and [next_frontier], which the inner loops mutate. *)
Record walk_state := mkWalk { visited : list A; order : list A; next_frontier : list A }.

Definition discover (c : A) (st : walk_state) : walk_state :=
  mkWalk (c :: visited st) (order st ++ [c]) (next_frontier st ++ [c]).

(** The loop over one parent's children; [true] is [truncated]. *)
Fixpoint walk_children (cs : list A) (st : walk_state) : walk_state * bool :=
  match cs with
  | [] => (st, false)
  | c :: cs' =>
      if decide (c ∈ visited st) then walk_children cs' st
      else if max_descendants <=? Z.of_nat (length (order st)) then (st, true)
      else walk_children cs' (discover c st)
  end.

(** The loop over the frontier, which breaks when the inner one was truncated. *)
Fixpoint walk_frontier (parents : list A) (st : walk_state) : walk_state * bool :=
  match parents with
  | [] => (st, false)
  | x :: parents' =>
      let '(st', truncated) := walk_children (children x) st in
      if truncated then (st', true) else walk_frontier parents' st'
  end.

(** The [while frontier] loop. *)
Fixpoint walk (fuel : nat) (generations : Z) (frontier vis ord : list A) : option (list A * bool) :=
  match fuel with
  | O => None
  | S fuel' =>
      match frontier with
      | [] => Some (ord, false)
      | _ =>
          if max_generations <=? generations then Some (ord, true)
          else
            let '(st, truncated) := walk_frontier frontier (mkWalk vis ord []) in
            if (truncated : bool) then Some (order st, true)
            else walk fuel' (generations + 1) (next_frontier st) (visited st) (order st)
      end
  end.

Definition transitive_descendants (fuel : nat) (root : A) : option (list A * bool) :=
  walk fuel 0 [root] [root] [].

(** ** Termination *)

Lemma walk_enough fuel generations frontier vis ord : 0 ≤ generations →
  (Z.to_nat (max_generations - generations) < fuel)%nat →
  ∃ res, walk fuel generations frontier vis ord = Some res.
Proof.
  revert generations frontier vis ord. induction fuel as [|fuel IH]; intros g fr vis ord Hg Hf; [lia|].
  cbn. destruct fr as [|x fr]; [by eexists|]. destruct (Z.leb_spec max_generations g); [by eexists|].
  destruct (walk_frontier _ _) as [st []]; [by eexists|]. apply IH; lia.
Qed.

(** ** What is found *)

(** [y] is derived from [x] in one hop. *)
Definition child_of (x y : A) : Prop := y ∈ children x.

Record sound (root : A) (st : walk_state) : Prop := {
  s_visited : ∀ x, x ∈ visited st ↔ x = root ∨ x ∈ order st;
  s_nodup : NoDup (order st);
  s_root : root ∉ order st;
  s_reach : ∀ x, x ∈ order st → tc child_of root x;
  s_bound : Z.of_nat (length (order st)) ≤ Z.max 0 max_descendants;
  s_next : ∀ x, x ∈ next_frontier st → x ∈ order st;
}.

(** [st'] extends [st]: nothing found is lost, and what is new is in the next frontier. *)
Definition extends (st st' : walk_state) : Prop :=
  (∀ x, x ∈ visited st → x ∈ visited st') ∧ (∀ x, x ∈ next_frontier st → x ∈ next_frontier st')
  ∧ ∀ x, x ∈ visited st' → x ∈ visited st ∨ x ∈ next_frontier st'.

#[local] Instance extends_preorder : PreOrder extends.
Proof.
  split; [by intros st; repeat split; auto|].
  intros a b c (H1 & H2 & H3) (H4 & H5 & H6). repeat split; auto.
  intros x Hx. destruct (H6 x Hx) as [Hb|]; [|by right]. destruct (H3 x Hb); auto.
Qed.

Lemma discover_sound root c st : sound root st → c ∉ visited st → tc child_of root c →
  Z.of_nat (length (order st)) < max_descendants → sound root (discover c st).
Proof.
  intros [Hv Hn Hr Hre Hb Hnx] Hc Htc Hlt. rewrite Hv in Hc. split; cbn.
  - intros x. rewrite elem_of_cons, elem_of_app, list_elem_of_singleton, Hv. tauto.
  - apply NoDup_app. split_and!; [done| |apply NoDup_singleton]. intros x Hx ->%list_elem_of_singleton. tauto.
  - rewrite elem_of_app, list_elem_of_singleton. intros [?| ->]; tauto.
  - intros x. rewrite elem_of_app, list_elem_of_singleton. intros [?| ->]; auto.
  - rewrite length_app. cbn. lia.
  - intros x. rewrite !elem_of_app, !list_elem_of_singleton. intros [?| ->]; auto.
Qed.

Lemma walk_children_spec root x cs st st' tr : sound root st → (x = root ∨ x ∈ order st) →
  (∀ c, c ∈ cs → c ∈ children x) → walk_children cs st = (st', tr) →
  sound root st' ∧ extends st st' ∧ (tr = false → ∀ c, c ∈ cs → c ∈ visited st').
Proof.
  revert st. induction cs as [|c cs IH]; intros st Hs Hx Hc; cbn.
  { intros [= <- <-]. split_and!; [done|done|by intros _ ? ?%elem_of_nil]. }
  assert (Hc' : ∀ c, c ∈ cs → c ∈ children x) by (intros; apply Hc; by right).
  destruct (decide (c ∈ visited st)) as [Hin|Hin].
  - intros Hw. destruct (IH st Hs Hx Hc' Hw) as (? & Hext & Hcs). split_and!; [done|done|].
    intros Htr c' [->|?]%elem_of_cons; [by apply Hext|auto].
  - destruct (Z.leb_spec max_descendants (Z.of_nat (length (order st)))).
    { intros [= <- <-]. by split_and!. }
    intros Hw. assert (Htc : tc child_of root c).
    { assert (Hone : child_of x c) by (apply Hc; left). destruct Hx as [->|Hx]; [by apply tc_once|].
      eapply tc_r; [by apply Hs|done]. }
    destruct (IH (discover c st)) as (? & Hext & Hcs); [by apply discover_sound| |done|done|].
    { destruct Hx; [by left|right]. cbn. apply elem_of_app. by left. }
    assert (Hd : extends st (discover c st)).
    { repeat split; cbn; intros y; rewrite ?elem_of_cons, ?elem_of_app, ?list_elem_of_singleton; tauto. }
    split_and!; [done|by etransitivity|]. intros Htr c' [->|?]%elem_of_cons; [|auto].
    apply Hext. cbn. by left.
Qed.

Lemma walk_frontier_spec root parents st st' tr : sound root st →
  (∀ x, x ∈ parents → x = root ∨ x ∈ order st) → walk_frontier parents st = (st', tr) →
  sound root st' ∧ extends st st'
  ∧ (tr = false → ∀ x c, x ∈ parents → c ∈ children x → c ∈ visited st').
Proof.
  revert st. induction parents as [|x parents IH]; intros st Hs Hp; cbn.
  { intros [= <- <-]. split_and!; [done|done|by intros _ ? ? ?%elem_of_nil]. }
  destruct (walk_children (children x) st) as [st1 tr1] eqn:Hw1.
  destruct (walk_children_spec root x (children x) st st1 tr1) as (Hs1 & He1 & Hc1); [done|apply Hp; left|done|done|].
  destruct tr1; [by intros [= <- <-]|]. intros Hw.
  destruct (IH st1) as (Hs2 & He2 & Hc2); [done| |done|].
  { intros y Hy. apply (s_visited _ _ Hs1). apply He1. apply (s_visited _ _ Hs). apply Hp. by right. }
  split_and!; [done|by etransitivity|]. intros Htr y c [->|Hy]%elem_of_cons Hc.
  - apply He2. by apply Hc1.
  - by eapply Hc2.
Qed.

(** The loop invariant: sound, the frontier is part of what was found, and every visited
    node outside the frontier has all its children visited. *)
Record loop_inv (root : A) (frontier vis ord : list A) : Prop := {
  i_sound : sound root (mkWalk vis ord []);
  i_frontier : ∀ x, x ∈ frontier → x = root ∨ x ∈ ord;
  i_closed : ∀ x c, x ∈ vis → x ∉ frontier → c ∈ children x → c ∈ vis;
}.

Definition result_ok (root : A) (res : list A * bool) : Prop :=
  NoDup res.1 ∧ root ∉ res.1 ∧ (∀ x, x ∈ res.1 → tc child_of root x)
  ∧ Z.of_nat (length res.1) ≤ Z.max 0 max_descendants
  ∧ (res.2 = false → ∀ x, x ≠ root → tc child_of root x → x ∈ res.1).

Lemma sound_result root st tr : sound root st →
  (tr = false → ∀ x, x ≠ root → tc child_of root x → x ∈ order st) → result_ok root (order st, tr).
Proof. intros [] H. by split_and!. Qed.

Lemma closed_reaches root vis ord : loop_inv root [] vis ord → ∀ x, tc child_of root x → x ∈ vis.
Proof.
  intros [Hs _ Hcl]. assert (Hstep : ∀ x y, x ∈ vis → child_of x y → y ∈ vis).
  { intros x y Hx Hxy. eapply Hcl; [exact Hx|by intros ?%elem_of_nil|done]. }
  assert (Hall : ∀ a x, tc child_of a x → a ∈ vis → x ∈ vis)
    by (intros a x Hx; induction Hx as [a b Hab|a b c Hab Hbc IH]; eauto).
  intros x Hx. apply (Hall root x Hx). apply (s_visited _ _ Hs). by left.
Qed.

Lemma walk_ok root fuel g frontier vis ord res : loop_inv root frontier vis ord →
  walk fuel g frontier vis ord = Some res → result_ok root res.
Proof.
  revert g frontier vis ord. induction fuel as [|fuel IH]; intros g fr vis ord Hinv; [done|].
  pose proof (i_sound _ _ _ _ Hinv) as Hs. cbn. destruct fr as [|x fr].
  { intros [= <-]. apply (sound_result root (mkWalk vis ord []) false Hs). intros _ y Hne Hy. cbn.
    apply (closed_reaches _ _ _ Hinv) in Hy. apply (s_visited _ _ Hs) in Hy. cbn in Hy. tauto. }
  destruct (Z.leb_spec max_generations g).
  { intros [= <-]. by apply (sound_result root (mkWalk vis ord []) true Hs). }
  destruct (walk_frontier (x :: fr) (mkWalk vis ord [])) as [st tr] eqn:Hw.
  destruct (walk_frontier_spec root (x :: fr) (mkWalk vis ord []) st tr) as (Hs1 & He1 & Hc1);
    [done|apply (i_frontier _ _ _ _ Hinv)|done|].
  destruct tr; [intros [= <-]; by apply sound_result|]. apply IH. destruct He1 as (Hv & _ & Hnew). cbn in Hv, Hnew.
  split.
  - destruct Hs1. split; cbn; auto. by intros ? ?%elem_of_nil.
  - intros y Hy. right. by apply (s_next _ _ Hs1).
  - intros y c Hy Hnf Hc. destruct (Hnew y Hy) as [Hold|?]; [|done].
    destruct (decide (y ∈ x :: fr)) as [Hin|Hin]; [by eapply Hc1|].
    apply Hv. by eapply (i_closed _ _ _ _ Hinv).
Qed.

Lemma walk_start root : loop_inv root [root] [root] [].
Proof.
  split.
  - split; cbn; try by intros ? ?%elem_of_nil.
    + intros x. rewrite list_elem_of_singleton. split; [by left|]. by intros [?|?%elem_of_nil].
    + constructor.
    + by intros ?%elem_of_nil.
    + lia.
  - intros x ->%list_elem_of_singleton. by left.
  - intros x c Hx Hn. done.
Qed.
End Walk.

Definition MAX_DESCENDANTS_CONSIDERED : Z := 10000.
Definition MAX_GENERATIONS_CONSIDERED : Z := 256.

(** More fuel does not change a result. *)
Lemma walk_more {A} `{EqDecision A} (children : A → list A) mg md fuel fuel' g fr vis ord res :
  (fuel ≤ fuel')%nat → walk children mg md fuel g fr vis ord = Some res →
  walk children mg md fuel' g fr vis ord = Some res.
Proof.
  revert fuel' g fr vis ord. induction fuel as [|fuel IH]; intros [|fuel'] g fr vis ord Hle; cbn; try done; [lia|].
  destruct fr as [|x fr]; [done|]. destruct (_ <=? _); [done|]. destruct (walk_frontier _ _ _ _) as [st []]; [done|].
  apply IH. lia.
Qed.

(** [C22] The descendant walk always ends: whatever the link graph is (cyclic, or fanning out
    without bound), one more round than the generation bound is enough, and the result does
    not depend on how many rounds are allowed beyond that. *)
Theorem walk_terminates {A} `{EqDecision A} (children : A → list A) max_generations max_descendants (root : A) :
  ∃ res, ∀ fuel, (Z.to_nat max_generations < fuel)%nat →
    transitive_descendants children max_generations max_descendants fuel root = Some res.
Proof.
  destruct (walk_enough children max_generations max_descendants (S (Z.to_nat max_generations)) 0 [root] [root] [])
    as [res Hres]; [lia|rewrite Z.sub_0_r; lia|].
  exists res. intros fuel Hf. by eapply walk_more, Hres.
Qed.

Lemma descendants_spec {A} `{EqDecision A} (children : A → list A) (root : A) :
  ∃ found truncated,
    transitive_descendants children MAX_GENERATIONS_CONSIDERED MAX_DESCENDANTS_CONSIDERED
      (S (Z.to_nat MAX_GENERATIONS_CONSIDERED)) root = Some (found, truncated)
    ∧ NoDup found ∧ Z.of_nat (length found) ≤ MAX_DESCENDANTS_CONSIDERED
    ∧ (∀ x, x ∈ found → x ≠ root ∧ tc (child_of children) root x)
    ∧ (truncated = false → ∀ x, x ∈ found ↔ x ≠ root ∧ tc (child_of children) root x).
Proof.
  destruct (walk_enough children MAX_GENERATIONS_CONSIDERED MAX_DESCENDANTS_CONSIDERED
              (S (Z.to_nat MAX_GENERATIONS_CONSIDERED)) 0 [root] [root] []) as [[found tr] Hres]; [lia|cbn; lia|].
  exists found, tr. split; [exact Hres|].
  destruct (walk_ok _ _ _ root _ _ _ _ _ _ (walk_start _ _ root) Hres) as (Hnd & Hr & Hre & Hb & Hc). cbn in *.
  assert (∀ x, x ∈ found → x ≠ root ∧ tc (child_of children) root x) by (intros x Hx; split; [congruence|auto]).
  split_and!; [done|unfold MAX_DESCENDANTS_CONSIDERED in *; lia|done|].
  intros Htr x. split; [auto|]. intros [? ?]. auto.
Qed.

(** The blast radius is exact unless it says otherwise: the walk returns distinct proper
    descendants only, never more than the bound, never the memory itself; and when
    [truncated] is false it returns every transitive descendant, over any number of hops and
    despite cycles. *)
Lemma descendants_exact {A} `{EqDecision A} (children : A → list A) (root : A) :
  ∃ found truncated,
    transitive_descendants children MAX_GENERATIONS_CONSIDERED MAX_DESCENDANTS_CONSIDERED
      (S (Z.to_nat MAX_GENERATIONS_CONSIDERED)) root = Some (found, truncated)
    ∧ NoDup found ∧ Z.of_nat (length found) ≤ MAX_DESCENDANTS_CONSIDERED
    ∧ (∀ x, x ∈ found → x ≠ root ∧ tc (child_of children) root x)
    ∧ (truncated = false → ∀ x, x ∈ found ↔ x ≠ root ∧ tc (child_of children) root x).
Proof. apply descendants_spec. Qed.

(** A chain of exactly as many generations as the bound is found completely and still
    reported as truncated: the bound is tested before the last generation is expanded. *)
Lemma generation_bound_false_alarm :
  let children (n : Z) := if n <? 256 then [n + 1] else [] in
  ∃ found, transitive_descendants children MAX_GENERATIONS_CONSIDERED MAX_DESCENDANTS_CONSIDERED
             (S (Z.to_nat MAX_GENERATIONS_CONSIDERED)) 0 = Some (found, true)
           ∧ length found = 256%nat ∧ last found = Some 256 ∧ children 256 = [].
Proof. eexists. split_and!; vm_compute; reflexivity. Qed.
