(* ===== verification/Forensics.v ===== *)
(** * Recall and rollback (workers/forensics.py, with workers/review_queue.py)

    [Forensics.recall_and_rollback] over the status-write port: containment of a memory by
    the nearest legal edge, the runs it reached, the outcomes to re-open, its descendants
    (Descendants.v) and the review items.  The three reads of [ForensicsRepoPort] are
    [ForensicsReads]; a review item is first what it says ([review_reason]), then its text
    ([reason_text]), bounded as the code does. *)

From Stdlib Require Import Floats.
From S2P Require Import Prelude Domain PyText Json StateMachine Memory Lifecycle VaultStore Sweeps StatusWriter EditOps Descendants.
Open Scope Z_scope.

(** ** The review queue *)

(** What a review item says, by kind. *)
Inductive review_reason :=
| ContainedMemory (m : MemoryId) (from_status contained_status : Status) (already_contained : bool)
    (affected_run_count descendant_count : Z) (descendants_truncated : bool) (reversible : list Status)
| ReopenedOutcome (m : MemoryId) (run : RunId) (event : uuid)
| DerivedDescendant (descendant source : MemoryId).

(** [Status.value]. *)
Definition status_value (st : Status) : pystr :=
  of_ascii match st with
           | QUARANTINED => "quarantined" | CANDIDATE => "candidate" | VALIDATED => "validated"
           | SUPERSEDED => "superseded" | STALE => "stale" | RETIRED => "retired"
           | ARCHIVED => "archived" | PINNED => "pinned" | TOMBSTONED => "tombstoned"
           end.

Definition quoted_status (st : Status) : pystr := of_ascii "'" ++ status_value st ++ of_ascii "'".
Definition memory_text (m : MemoryId) : pystr := uuid_str (MemoryId_value m).

(** The f-strings of [flag_contained_memory], [flag_reopened_outcome] and
    [flag_descendant_of_quarantined]. *)
Definition reason_text (r : review_reason) : pystr :=
  match r with
  | ContainedMemory m from_status contained_status already runs descendants truncated reversible =>
      let head :=
        if already then
          of_ascii "contained memory (Recall & Rollback): memory " ++ memory_text m
          ++ of_ascii " was already outside the retrievable statuses at status " ++ quoted_status from_status
          ++ of_ascii "; no transition was applied"
        else
          of_ascii "contained memory (Recall & Rollback): memory " ++ memory_text m ++ of_ascii " moved "
          ++ quoted_status from_status ++ of_ascii " -> " ++ quoted_status contained_status in
      let radius :=
        of_ascii "; blast radius: " ++ (if (truncated : bool) then of_ascii "at least " else [])
        ++ dec_str descendants ++ of_ascii " derived descendant(s) across " ++ dec_str runs
        ++ of_ascii " affected run(s)"
        ++ (if truncated
            then of_ascii " -- THE DESCENDANT WALK HIT ITS BOUND, so this radius is INCOMPLETE and the true descendant set is larger"
            else []) in
      let tail :=
        match reversible with
        | [] => of_ascii "."
        | _ =>
            of_ascii ". WARNING: status " ++ quoted_status contained_status
            ++ of_ascii " still has a legal transition back into retrievable status(es) ["
            ++ py_join (of_ascii ", ") (map status_value reversible)
            ++ of_ascii "], which a background worker can take unattended -- this containment is reversible; confirm or erase the memory rather than leaving it here."
        end in
      head ++ radius ++ tail
  | ReopenedOutcome m run event =>
      of_ascii "reopened outcome: run " ++ uuid_str (RunId_value run) ++ of_ascii " (outcome " ++ uuid_str event
      ++ of_ascii ") was scored while memory " ++ memory_text m ++ of_ascii " was injected; " ++ memory_text m
      ++ of_ascii " has since been quarantined/contained (Recall & Rollback) and this outcome needs re-evaluation."
  | DerivedDescendant descendant source =>
      of_ascii "derived descendant: memory " ++ memory_text descendant
      ++ of_ascii " was derived (directly or transitively) from memory " ++ memory_text source
      ++ of_ascii ", which has been quarantined/contained (Recall & Rollback); review before trusting this descendant further."
  end.

Definition MAX_REASON_CHARS : Z := 4000.
Definition TRUNCATION_MARKER : pystr := of_ascii " [truncated]".

(** [_bounded]. *)
Definition bounded (reason : pystr) : pystr :=
  if Z.of_nat (length reason) <=? MAX_REASON_CHARS then reason
  else take (Z.to_nat MAX_REASON_CHARS - length TRUNCATION_MARKER) reason ++ TRUNCATION_MARKER.

(** [sorted(RETRIEVABLE_STATUSES)], by value. *)
Definition sorted_retrievable : list Status := [CANDIDATE; PINNED; VALIDATED].

Definition reversible_containment_targets (status : Status) (limits : TransitionLimits) (n : datetime)
  : result lifecycle_error (list Status) :=
  let! probe := of_exn (evidence_post_init (default_evidence n DISTILLER TierB LESSON)) in
  Ok (List.filter (λ target, match apply (Some status) target probe limits with
                             | Err (IllegalTransition _ _) => false
                             | _ => true
                             end) sorted_retrievable).

(** ** The worker *)

Record OutcomeEventRef := mkOutcomeRef { or_event_id : uuid; or_run_id : RunId }.

#[export] Instance OutcomeEventRef_eq_dec : EqDecision OutcomeEventRef.
Proof. solve_decision. Defined.

Class ForensicsReads (S : Type) := {
  list_runs_injected_with : S → ProjectId → MemoryId → list RunId;
  list_direct_derived_descendants : S → ProjectId → MemoryId → list MemoryId;
  list_outcome_events_for_runs : S → ProjectId → list RunId → list OutcomeEventRef;
}.

Record BlastRadiusReport := mkRadius {
  br_memory_id : MemoryId;
  br_from_status : Status;
  br_contained_status : Status;
  br_already_contained : bool;
  br_containment_reversible_by : list Status;
  br_affected_run_ids : list RunId;
  br_descendant_memory_ids : list MemoryId;
  br_descendants_truncated : bool;
  br_reopened_outcomes : list OutcomeEventRef;
  br_generated_at : datetime;
}.

Definition demotion_evidence (n : datetime) (row : EditableMemory) : TransitionEvidence :=
  mkEvidence n (cls (e_provenance row)) (e_trust_tier row) (e_mem_type row) false false false false
    (e_status_changed_at row) [] false 0 0 false false false true false
    false false false false 0 0%float 0 0 false false false false.

Definition poisoned_evidence (n : datetime) (row : EditableMemory) : TransitionEvidence :=
  mkEvidence n (cls (e_provenance row)) (e_trust_tier row) (e_mem_type row) false false false false
    (e_status_changed_at row) [] false 0 0 false false false false false
    true false false false 0 0%float 0 0 false false false false.

(** The nearest legal edge out of the retrievable statuses, with its evidence. *)
Definition containment_edge (n : datetime) (row : EditableMemory) : option (Status * TransitionEvidence) :=
  match e_status row with
  | CANDIDATE => Some (QUARANTINED, demotion_evidence n row)
  | VALIDATED => Some (STALE, poisoned_evidence n row)
  | PINNED => Some (TOMBSTONED, deletion_evidence n row)
  | _ => None
  end.

Section Recall.
Context {S : Type} `{!StatusRepo S, !ForensicsReads S} (clock : nat → datetime).

(** [_contain]. *)
Definition contain (p : ProjectId) (row : EditableMemory) (limits : TransitionLimits) (n : datetime)
  : worker S (bool * Status) :=
  if bool_decide (e_status row ∉ RETRIEVABLE_STATUSES) then wret (true, e_status row)
  else match containment_edge n row with
       | None => wlift (Err (LExn TracebedError))
       | Some (target, evidence) =>
           let* e := wlift (of_exn (evidence_post_init evidence)) in
           let* new_status := wlift (of_transition (apply (Some (e_status row)) target e limits)) in
           let* _ := wstatus p (mkSWrite (e_id row) (e_status row) new_status n None) in
           wret (false, new_status)
       end.

Definition flag (p : ProjectId) (r : review_reason) (m : MemoryId) : worker S unit :=
  wreview p (bounded (reason_text r)) (Some m).

(** [flag_contained_memory] reads the clock and the limits again. *)
Definition flag_contained_memory (p : ProjectId) (m : MemoryId) (from_status contained_status : Status)
    (already : bool) (runs descendants : Z) (truncated : bool) (cfg : EffectiveConfig) : worker S unit :=
  let* limits := wlift (of_exn (from_config cfg)) in
  let* n := wnow clock in
  let* reversible := wlift (reversible_containment_targets contained_status limits n) in
  flag p (ContainedMemory m from_status contained_status already runs descendants truncated reversible) m.

(** The re-opened outcomes; one outside the affected runs is a refusal. *)
Definition reopened (s : S) (p : ProjectId) (runs : list RunId) : result lifecycle_error (list OutcomeEventRef) :=
  match runs with
  | [] => Ok []
  | _ =>
      let refs := fromkeys (list_outcome_events_for_runs s p runs) in
      check! forallb (λ ref, bool_decide (or_run_id ref ∈ runs)) refs else LExn TracebedError in
      Ok refs
  end.

Definition recall_and_rollback (with_queue : bool) (p : ProjectId) (m : MemoryId) (cfg : EffectiveConfig)
  : worker S BlastRadiusReport :=
  let* n := wnow clock in
  let* limits := wlift (of_exn (from_config cfg)) in
  let* row := wtry (λ s, get_memory_by_id s p m) in
  let* _ := wlift (require_project row p) in
  let* outcome := contain p row limits n in
  let '(already, contained) := outcome in
  let* reversible := wlift (reversible_containment_targets contained limits n) in
  let* runs := wread (λ s, fromkeys (list_runs_injected_with s p m)) in
  let* walked := wread (λ s, transitive_descendants (list_direct_derived_descendants s p)
                               MAX_GENERATIONS_CONSIDERED MAX_DESCENDANTS_CONSIDERED
                               (Datatypes.S (Z.to_nat MAX_GENERATIONS_CONSIDERED)) m) in
  let '(descendants, truncated) := default ([], true) walked in
  let* refs := wtry (λ s, reopened s p runs) in
  let* _ :=
    (if (with_queue : bool) then
       let* _ := flag_contained_memory p m (e_status row) contained already (Z.of_nat (length runs))
                   (Z.of_nat (length descendants)) truncated cfg in
       let* _ := wfor (λ ref, flag p (ReopenedOutcome m (or_run_id ref) (or_event_id ref)) m) refs in
       let* _ := wfor (λ d, flag p (DerivedDescendant d m) d) descendants in
       wret tt
     else wret tt) in
  wret (mkRadius m (e_status row) contained already reversible runs descendants truncated refs n).
End Recall.

(** ** The Postgres reads (stores/pg/lifecycle.py, [ForensicsRepo]) *)

Definition by_uuid {A} (key : A → uuid) (a b : A) : bool := N.leb (uuid_int (key a)) (uuid_int (key b)).

Definition pg_list_runs_injected_with (d : database) (p : ProjectId) (m : MemoryId) : list RunId :=
  py_sorted (by_uuid RunId_value)
    (remove_dups (ij_run_id <$> filter (λ x, ij_project_id x = p ∧ ij_memory_id x = m) (injections d))).

Definition pg_list_direct_derived_descendants (d : database) (p : ProjectId) (m : MemoryId) : list MemoryId :=
  py_sorted (by_uuid MemoryId_value)
    (lk_src_id <$> filter (λ x, lk_project_id x = p ∧ lk_dst_id x = m ∧ lk_relation x = of_ascii "derived_from")
                     (memory_links d)).

Definition pg_list_outcome_events_for_runs (d : database) (p : ProjectId) (runs : list RunId) : list OutcomeEventRef :=
  match runs with
  | [] => []
  | _ => py_sorted (by_uuid or_event_id)
           ((λ x, mkOutcomeRef (oe_event_id x) (oe_run_id x))
              <$> filter (λ x, oe_project_id x = p ∧ oe_run_id x ∈ runs) (outcomes d))
  end.

#[export] Instance pg_reads : ForensicsReads database := {|
  list_runs_injected_with := pg_list_runs_injected_with;
  list_direct_derived_descendants := pg_list_direct_derived_descendants;
  list_outcome_events_for_runs := pg_list_outcome_events_for_runs;
|}.

(** What the worker relies on: outcomes of the runs asked for, and reads that a status write
    or a review item does not change. *)
Class ForensicsLaws (S : Type) `{!StatusRepo S, !ForensicsReads S} : Prop := {
  outcomes_in_radius : ∀ (s : S) p runs ref, ref ∈ list_outcome_events_for_runs s p runs → or_run_id ref ∈ runs;
  links_after_status : ∀ (s s' : S) p w, persist_status s p w = Ok s' →
    list_direct_derived_descendants s' = list_direct_derived_descendants s;
}.

#[export] Instance pg_forensics_laws memory_visible : @ForensicsLaws database (pg_status_repo memory_visible) pg_reads.
Proof.
  split.
  - intros d p runs ref. cbn. unfold pg_list_outcome_events_for_runs. destruct runs as [|r runs]; [by intros ?%elem_of_nil|].
    rewrite elem_of_py_sorted. by intros (x & -> & [[_ Hx] _]%list_elem_of_filter)%list_elem_of_fmap.
  - intros d d' p w (_ & c & _ & _ & ->)%persist_status_Ok. done.
Qed.

(** ** One recall *)

Section Proofs.
Context {S : Type} `{!StatusRepo S, !StatusRepoLaws S, !ForensicsReads S, !ForensicsLaws S}.
Context (clock : nat → datetime).
Context (p : ProjectId) (cfg : EffectiveConfig) (l : TransitionLimits).
Hypothesis Hl : from_config cfg = Ok l.
Hypothesis Hn : ∀ i, dt_aware (clock i) = true.

(** The status a recall leaves a memory of status [st] in. *)
Definition contained_status (st : Status) : Status :=
  match st with CANDIDATE => QUARANTINED | VALIDATED => STALE | PINNED => TOMBSTONED | st => st end.

(** The row a recall at [n] leaves. *)
Definition contained_row (n : datetime) (r : LifecycleMemoryRow) : LifecycleMemoryRow :=
  if bool_decide (l_status r ∉ RETRIEVABLE_STATUSES) then r else restatus (contained_status (l_status r)) n r.

Lemma retrievable_cases st : st ∈ RETRIEVABLE_STATUSES ↔ st = VALIDATED ∨ st = CANDIDATE ∨ st = PINNED.
Proof. unfold RETRIEVABLE_STATUSES. rewrite !elem_of_cons, elem_of_nil. tauto. Qed.

Lemma contained_not_retrievable st : contained_status st ∉ RETRIEVABLE_STATUSES.
Proof. rewrite retrievable_cases. destruct st; cbn; naive_solver. Qed.

Lemma contained_row_status n r : l_status (contained_row n r) = contained_status (l_status r).
Proof.
  unfold contained_row. case_bool_decide as Hout; [|done].
  rewrite retrievable_cases in Hout. destruct (l_status r); cbn; tauto.
Qed.

Lemma containment_edge_ok tag r n st : l_status r = st → st ∈ RETRIEVABLE_STATUSES →
  ∃ e, containment_edge n (editable_of tag r) = Some (contained_status st, e)
    ∧ now e = n ∧ status_changed_at e = l_status_changed_at r ∧ about (row_columns_of r) e
    ∧ apply (Some st) (contained_status st) e l = Ok (contained_status st).
Proof.
  intros Hst [->|[->| ->]]%retrievable_cases; unfold containment_edge; cbn [e_status editable_of]; rewrite Hst;
    eexists; (split_and!; [reflexivity|reflexivity|reflexivity|by repeat split|reflexivity]).
Qed.

Lemma contain_spec m tag r s k n : dt_aware n = true → dated s → vault s (p, m) = Some r →
  ∃ s', contain p (editable_of tag r) l n (s, k)
           = (Ok (bool_decide (l_status r ∉ RETRIEVABLE_STATUSES), contained_status (l_status r)), (s', k))
    ∧ updates s s' (p, m) (contained_row n r)
    ∧ list_direct_derived_descendants s' = list_direct_derived_descendants s.
Proof.
  intros Hna Hd Hv. unfold contain, contained_row. cbn [e_status editable_of].
  destruct (decide (l_status r ∈ RETRIEVABLE_STATUSES)) as [Hin|Hout].
  - rewrite bool_decide_eq_false_2 by tauto.
    destruct (containment_edge_ok tag r n (l_status r) eq_refl Hin) as (e & -> & He & Hch & Ha & Happ).
    rewrite (wlift_ok _ _ _ e) by (apply evidence_ok; [by rewrite He|rewrite Hch; by apply Hd in Hv as (? & _)]).
    rewrite (wlift_ok _ _ _ (contained_status (l_status r))) by by rewrite Happ.
    assert (l_id r = m) as Hid by (apply status_vault_id in Hv; unfold l_key in Hv; by injection Hv).
    cbn [e_id editable_of]. rewrite Hid.
    destruct (wstatus_step p (mkSWrite m (l_status r) (contained_status (l_status r)) n None) r e l s k)
      as (s' & Hw & Hp & Hu & Hs); [done..|].
    exists s'. split_and!; [by rewrite (wbind_ok _ _ _ _ _ Hw)|done|by eapply links_after_status].
  - rewrite bool_decide_eq_true_2 by done. exists s.
    assert (contained_status (l_status r) = l_status r) as ->
      by (rewrite retrievable_cases in Hout; destruct (l_status r); cbn; tauto).
    split_and!; [done|by apply updates_same|done].
Qed.

Lemma reversible_spec st n : dt_aware n = true →
  ∃ ts, reversible_containment_targets st l n = Ok ts
    ∧ ∀ t, t ∈ ts ↔ t ∈ RETRIEVABLE_STATUSES ∧ is_Some (transitions_get (Some st) t).
Proof.
  intros Hna. unfold reversible_containment_targets. rewrite evidence_ok by done. cbn [rbind].
  eexists. split; [done|]. intros t. rewrite list_elem_of_In, filter_In, <- list_elem_of_In.
  assert (Ht : t ∈ sorted_retrievable ↔ t ∈ RETRIEVABLE_STATUSES).
  { unfold sorted_retrievable, RETRIEVABLE_STATUSES. rewrite !elem_of_cons. tauto. }
  rewrite Ht. apply and_iff_compat_l. unfold apply. destruct (transitions_get (Some st) t) as [g|].
  - destruct (negb _); (split; [by eexists|done]).
  - split; [done|]. by intros [? ?].
Qed.

(** Review items leave the vault alone. *)
Definition same_vault (s s' : S) : Prop := ∀ k, vault s' k = vault s k.

Lemma flags_same {A} (f : A → review_reason * MemoryId) xs s k :
  ∃ us s', wfor (λ x, flag p (f x).1 (f x).2) xs (s, k) = (Ok us, (s', k)) ∧ same_vault s s'.
Proof.
  revert s. induction xs as [|x xs IH]; intros s; [by eexists [], s|]. cbn [wfor].
  set (s1 := insert_review_item s p (bounded (reason_text (f x).1)) (Some (f x).2)).
  destruct (IH s1) as (us & s' & Hw & Hv).
  exists (tt :: us), s'. rewrite (wbind_ok _ _ _ tt (s1, k)) by done. rewrite (wbind_ok _ _ _ _ _ Hw).
  split; [done|]. intros key. rewrite Hv. apply review_vault.
Qed.

(** Everything the queue records, after the report's facts are known. *)
Lemma record_same m st1 st2 already nr nd tr refs found s k :
  ∃ s' k', (let* _ := flag_contained_memory clock p m st1 st2 already nr nd tr cfg in
            let* _ := wfor (λ ref, flag p (ReopenedOutcome m (or_run_id ref) (or_event_id ref)) m) refs in
            let* _ := wfor (λ d, flag p (DerivedDescendant d m) d) found in wret tt) (s, k)
           = (Ok tt, (s', k')) ∧ same_vault s s'.
Proof.
  destruct (reversible_spec st2 (clock k) (Hn k)) as (ts & Hts & _).
  set (s0 := insert_review_item s p (bounded (reason_text (ContainedMemory m st1 st2 already nr nd tr ts))) (Some m)).
  rewrite (wbind_ok _ _ _ tt (s0, Datatypes.S k)).
  2: { unfold flag_contained_memory. rewrite (wlift_ok _ _ _ l) by by rewrite Hl.
       rewrite (wbind_ok _ _ _ (clock k) (s, Datatypes.S k)) by done. by rewrite (wlift_ok _ _ _ ts). }
  destruct (flags_same (λ ref, (ReopenedOutcome m (or_run_id ref) (or_event_id ref), m)) refs s0 (Datatypes.S k))
    as (us & s1 & Hw1 & Hs1).
  destruct (flags_same (λ d, (DerivedDescendant d m, d)) found s1 (Datatypes.S k)) as (us2 & s2 & Hw2 & Hs2).
  rewrite (wbind_ok _ _ _ _ _ Hw1), (wbind_ok _ _ _ _ _ Hw2). exists s2, (Datatypes.S k). split; [done|].
  intros key. rewrite Hs2, Hs1. apply review_vault.
Qed.

Lemma reopened_ok s runs : ∃ refs, reopened s p runs = Ok refs
  ∧ (∀ ref, ref ∈ refs → or_run_id ref ∈ runs).
Proof.
  unfold reopened. destruct runs as [|r0 runs]; [eexists; split; [done|]; by intros ? ?%elem_of_nil|].
  set (refs := fromkeys _).
  assert (Hin : ∀ ref, ref ∈ refs → or_run_id ref ∈ r0 :: runs).
  { intros ref Hr. eapply outcomes_in_radius. by apply (proj2 (fromkeys_spec _)). }
  exists refs. split; [|done]. rewrite (proj2 (forallb_forall _ _)); [done|].
  intros ref Hr%list_elem_of_In. by apply bool_decide_eq_true_2, Hin.
Qed.

Lemma recall_spec with_queue m r s k : dated s → vault s (p, m) = Some r →
  ∃ rep s' k', recall_and_rollback clock with_queue p m cfg (s, k) = (Ok rep, (s', k'))
    ∧ updates s s' (p, m) (contained_row (clock k) r)
    ∧ br_from_status rep = l_status r ∧ br_contained_status rep = contained_status (l_status r)
    ∧ br_already_contained rep = bool_decide (l_status r ∉ RETRIEVABLE_STATUSES)
    ∧ (∀ t, t ∈ br_containment_reversible_by rep ↔
         t ∈ RETRIEVABLE_STATUSES ∧ is_Some (transitions_get (Some (contained_status (l_status r))) t))
    ∧ (∀ ref, ref ∈ br_reopened_outcomes rep → or_run_id ref ∈ br_affected_run_ids rep)
    ∧ (br_descendants_truncated rep = false → ∀ x, x ∈ br_descendant_memory_ids rep ↔
         x ≠ m ∧ tc (child_of (list_direct_derived_descendants s p)) m x).
Proof.
  intros Hd Hv. unfold recall_and_rollback. destruct (get_row p m r s Hv) as (tag & Hg & Hp).
  rewrite (wbind_ok _ _ _ (clock k) (s, Datatypes.S k)) by done. rewrite (wlift_ok _ _ _ l) by by rewrite Hl.
  rewrite (wbind_ok _ _ _ (editable_of tag r) (s, Datatypes.S k)) by (unfold wtry; cbn; by rewrite Hg).
  rewrite (wlift_ok _ _ _ tt) by done.
  destruct (contain_spec m tag r s (Datatypes.S k) (clock k) (Hn k) Hd Hv) as (s1 & Hc & Hu & Hlinks).
  rewrite (wbind_ok _ _ _ _ _ Hc). cbn beta iota.
  destruct (reversible_spec (contained_status (l_status r)) (clock k) (Hn k)) as (ts & Hts & Hin).
  rewrite (wlift_ok _ _ _ ts) by done.
  set (runs := fromkeys (list_runs_injected_with s1 p m)).
  rewrite (wbind_ok _ _ _ runs (s1, Datatypes.S k)) by done.
  destruct (descendants_spec (list_direct_derived_descendants s1 p) m) as (found & tr & Hwalk & _ & _ & _ & Hfound).
  rewrite (wbind_ok _ _ _ (Some (found, tr)) (s1, Datatypes.S k)) by (unfold wread; cbn [fst]; by rewrite Hwalk).
  change (default ([], true) (Some (found, tr))) with (found, tr). cbn beta iota.
  destruct (reopened_ok s1 runs) as (refs & Hrefs & Hradius).
  rewrite (wbind_ok _ _ _ refs (s1, Datatypes.S k)) by (unfold wtry; cbn [fst]; by rewrite Hrefs).
  match goal with |- context [wbind ?rec _ (s1, _)] =>
    assert (∃ s' k', rec (s1, Datatypes.S k) = (Ok tt, (s', k')) ∧ same_vault s1 s') as (s' & k' & Hrun & Hsv)
      by (destruct with_queue; [by eapply record_same|by exists s1, (Datatypes.S k)]) end.
  rewrite (wbind_ok _ _ _ _ _ Hrun). eexists _, s', k'. split; [done|]. cbn. split_and!; try done.
  - intros key. rewrite Hsv. apply Hu.
  - by rewrite Hlinks in Hfound.
Qed.
End Proofs.

(** ** Theorems *)

(** A recall contains the memory: it succeeds on every memory of the project, leaves it
    outside the retrievable statuses (by the one legal edge of its status, or untouched if it
    was outside already) and changes no other row.  The report says what happened; it lists a
    status as reversible exactly if one legal transition leads back to it; and a descendant
    list that is not marked truncated is the full transitive closure of the links. *)
Lemma recall_contains {S : Type} `{!StatusRepo S, !StatusRepoLaws S, !ForensicsReads S, !ForensicsLaws S}
    (clock : nat → datetime) with_queue p cfg l m r (s : S) k :
  from_config cfg = Ok l → (∀ i, dt_aware (clock i) = true) → dated s → vault s (p, m) = Some r →
  ∃ rep s' k' r', recall_and_rollback clock with_queue p m cfg (s, k) = (Ok rep, (s', k'))
    ∧ updates s s' (p, m) r' ∧ l_status r' ∉ RETRIEVABLE_STATUSES
    ∧ br_from_status rep = l_status r ∧ br_contained_status rep = l_status r'
    ∧ l_status r' = contained_status (l_status r)
    ∧ (br_already_contained rep = true ↔ l_status r ∉ RETRIEVABLE_STATUSES)
    ∧ (br_already_contained rep = true → r' = r)
    ∧ (∀ t, t ∈ br_containment_reversible_by rep ↔
         t ∈ RETRIEVABLE_STATUSES ∧ is_Some (transitions_get (Some (l_status r')) t))
    ∧ (∀ ref, ref ∈ br_reopened_outcomes rep → or_run_id ref ∈ br_affected_run_ids rep)
    ∧ (br_descendants_truncated rep = false → ∀ x, x ∈ br_descendant_memory_ids rep ↔
         x ≠ m ∧ tc (child_of (list_direct_derived_descendants s p)) m x).
Proof.
  intros Hl Hn Hd Hv.
  destruct (recall_spec clock p cfg l Hl Hn with_queue m r s k Hd Hv)
    as (rep & s' & k' & Hrun & Hu & Hf & Hc & Ha & Hrev & Hrad & Hdesc).
  exists rep, s', k', (contained_row (clock k) r). rewrite contained_row_status, Ha, bool_decide_eq_true.
  split_and!; try done; [apply contained_not_retrievable|].
  intros Hout. unfold contained_row. by rewrite bool_decide_eq_true_2.
Qed.

Definition db_links : database :=
  mkDb table_ex [] []
    [mkLink project_ex (memory_ex 6 I) (memory_ex 5 I) (of_ascii "derived_from");
     mkLink project_ex (memory_ex 7 I) (memory_ex 6 I) (of_ascii "derived_from");
     mkLink project_ex (memory_ex 5 I) (memory_ex 7 I) (of_ascii "derived_from")] [] [] [].

Lemma recall_contains_witness :
  ∃ rep s' k', @recall_and_rollback _ (pg_status_repo all_visible) pg_reads (λ _, instant 60) true
                 project_ex (memory_ex 5 I) default_config (db_links, 0%nat) = (Ok rep, (s', k'))
    ∧ br_contained_status rep = STALE ∧ VALIDATED ∈ br_containment_reversible_by rep.
Proof.
  destruct (@recall_contains _ (pg_status_repo all_visible) (pg_status_laws all_visible) pg_reads
              (pg_forensics_laws all_visible) (λ _, instant 60) true project_ex default_config default_limits
              (memory_ex 5 I) (row_to_lifecycle_row (project_ex, memory_ex 5 I) (columns_ex VALIDATED (Some (instant 1)) 0.5))
              db_links 0%nat) as (rep & s' & k' & r' & Hrun & _ & _ & _ & Hcs & Hst & _ & _ & Hrev & _).
  - apply default_limits_ok.
  - done.
  - apply table_dated. vm_compute. reflexivity.
  - vm_compute. reflexivity.
  - exists rep, s', k'. split; [exact Hrun|]. rewrite Hcs, Hst. split; [reflexivity|].
    apply Hrev. rewrite Hst. split; [by left|]. by eexists.
Defined.
