(* ===== verification/Promotion.v ===== *)
(** * Promotion and retirement (workers/promotion.py, stores/pg/promotion.py)

    [PromotionWorker.evaluate_candidate], [evaluate_retirement] and the two batch runs over
    the status-write port.  The two selects are [PromotionReads]: the Postgres store does not
    implement them (they raise [NotImplementedError]), so what the worker relies on is stated
    as the laws of the class.  The text of a review item is the parameter [reason_text]. *)

From Stdlib Require Import Floats.
From S2P Require Import Prelude Domain PyText PyFloat Json StateMachine Memory Lifecycle VaultStore Sweeps StatusWriter.
Open Scope Z_scope.

(** The columns both projections carry. *)
Record governed_row := mkGRow {
  g_id : MemoryId;
  g_project_id : ProjectId;
  g_status : Status;
  g_trust_tier : TrustTier;
  g_mem_type : MemType;
  g_provenance : Provenance;
  g_status_changed_at : option datetime;
}.

Record CandidateMemoryRow := mkCandidate {
  cm_row : governed_row;
  cm_promotion_outcomes : Z;
  cm_promotion_distinct_principals : Z;
  cm_outcome_consistent : bool;
  cm_scan_repass : bool;
  cm_open_contradiction : bool;
}.

Record ValidatedMemoryRow := mkValidated {
  vm_row : governed_row;
  vm_q_value : float;
  vm_scored_use_count : Z;
  vm_distinct_scoring_principals : Z;
}.

Record PromotionTransitionWrite := mkPWrite {
  pw_memory_id : MemoryId; pw_from_status : Status; pw_to_status : Status; pw_now : datetime }.

Record PromotionOutcome := mkPromotion {
  po_memory_id : MemoryId; po_promoted : bool; po_to_status : option Status; po_reason : option GuardReason }.

Record RetirementOutcome := mkRetirement {
  ro_memory_id : MemoryId; ro_retired : bool; ro_routed_to_review : bool;
  ro_to_status : option Status; ro_reason : option GuardReason }.

Definition promotion_evidence (n : datetime) (row : CandidateMemoryRow) : TransitionEvidence :=
  let g := cm_row row in
  mkEvidence n (cls (g_provenance g)) (g_trust_tier g) (g_mem_type g) false false (cm_scan_repass row) false
    (g_status_changed_at g) [] false (cm_promotion_outcomes row) (cm_promotion_distinct_principals row)
    (cm_outcome_consistent row) (cm_open_contradiction row) false false false
    false false false false 0 0%float 0 0 false false false false.

Definition retirement_evidence (n : datetime) (row : ValidatedMemoryRow) : TransitionEvidence :=
  let g := vm_row row in
  mkEvidence n (cls (g_provenance g)) (g_trust_tier g) (g_mem_type g) false false false false
    (g_status_changed_at g) [] false 0 0 false false false false false
    false false false false 0 (vm_q_value row) (vm_scored_use_count row) (vm_distinct_scoring_principals row)
    false false false false.

Class PromotionReads (S : Type) := {
  select_candidates_for_promotion : S → ProjectId → list CandidateMemoryRow;
  select_validated_for_retirement : S → ProjectId → list ValidatedMemoryRow;
}.

(** [_require_status]. *)
Definition require_status (g : governed_row) (p : ProjectId) (expected : Status) : result lifecycle_error unit :=
  check! bool_decide (g_project_id g = p) else LExn TracebedError in
  check! bool_decide (g_status g = expected) else LExn TracebedError in
  Ok tt.

Section Worker.
Context {S : Type} `{!StatusRepo S, !PromotionReads S} (clock : nat → datetime).
Context (reason_text : ValidatedMemoryRow → TransitionLimits → option GuardReason → pystr).

(** [PromotionRepo.persist]: the write as a [MemoryStatusWrite] with no actor. *)
Definition persist_promotion (p : ProjectId) (w : PromotionTransitionWrite) : worker S unit :=
  wstatus p (mkSWrite (pw_memory_id w) (pw_from_status w) (pw_to_status w) (pw_now w) None).

Definition evaluate_candidate (p : ProjectId) (cfg : EffectiveConfig) (row : CandidateMemoryRow)
  : worker S PromotionOutcome :=
  let g := cm_row row in
  let* _ := wlift (require_status g p CANDIDATE) in
  let* n := wnow clock in
  let* limits := wlift (of_exn (from_config cfg)) in
  let* e := wlift (of_exn (evidence_post_init (promotion_evidence n row))) in
  match apply (Some (g_status g)) VALIDATED e limits with
  | Err (GuardNotSatisfied _ _ why) => wret (mkPromotion (g_id g) false None why)
  | Err err => wlift (Err (LTransition err))
  | Ok new_status =>
      let* _ := persist_promotion p (mkPWrite (g_id g) (g_status g) new_status n) in
      wret (mkPromotion (g_id g) true (Some new_status) None)
  end.

Definition run_promotion_once (p : ProjectId) (cfg : EffectiveConfig) : worker S (Z * list PromotionOutcome) :=
  let* rows := wread (λ s, select_candidates_for_promotion s p) in
  let* outcomes := wfor (evaluate_candidate p cfg) rows in
  wret (Z.of_nat (length rows), outcomes).

Definition evaluate_retirement (p : ProjectId) (cfg : EffectiveConfig) (row : ValidatedMemoryRow)
  : worker S RetirementOutcome :=
  let g := vm_row row in
  let* _ := wlift (require_status g p VALIDATED) in
  let* n := wnow clock in
  let* limits := wlift (of_exn (from_config cfg)) in
  let* e := wlift (of_exn (evidence_post_init (retirement_evidence n row))) in
  match apply (Some (g_status g)) RETIRED e limits with
  | Err (GuardNotSatisfied _ _ why) =>
      if (vm_q_value row <? retire_q_threshold limits)%float
         && (retire_min_scored_uses limits <=? vm_scored_use_count row)
         && (vm_distinct_scoring_principals row <? retire_min_distinct_principals limits)
      then
        let* _ := wreview p (reason_text row limits why) (Some (g_id g)) in
        wret (mkRetirement (g_id g) false true None why)
      else wret (mkRetirement (g_id g) false false None why)
  | Err err => wlift (Err (LTransition err))
  | Ok new_status =>
      let* _ := persist_promotion p (mkPWrite (g_id g) (g_status g) new_status n) in
      wret (mkRetirement (g_id g) true false (Some new_status) None)
  end.

Definition run_retirement_once (p : ProjectId) (cfg : EffectiveConfig) : worker S (Z * list RetirementOutcome) :=
  let* rows := wread (λ s, select_validated_for_retirement s p) in
  let* outcomes := wfor (evaluate_retirement p cfg) rows in
  wret (Z.of_nat (length rows), outcomes).
End Worker.

(** What the selects promise: rows of the store as they are, each once. *)
Definition reads_row {S} `{Vault S} (s : S) (p : ProjectId) (st : Status) (g : governed_row) : Prop :=
  g_project_id g = p ∧ g_status g = st
  ∧ ∃ r, vault s (p, g_id g) = Some r ∧ l_status r = g_status g ∧ l_trust_tier r = g_trust_tier g
         ∧ l_mem_type r = g_mem_type g ∧ l_provenance r = g_provenance g
         ∧ l_status_changed_at r = g_status_changed_at g.

Class PromotionReadsLaws (S : Type) `{!StatusRepo S, !PromotionReads S} : Prop := {
  candidates_sound : ∀ (s : S) p row, row ∈ select_candidates_for_promotion s p → reads_row s p CANDIDATE (cm_row row);
  candidates_NoDup : ∀ (s : S) p, NoDup ((g_id ∘ cm_row) <$> select_candidates_for_promotion s p);
  validated_sound : ∀ (s : S) p row, row ∈ select_validated_for_retirement s p →
    reads_row s p VALIDATED (vm_row row) ∧ not_nan (vm_q_value row);
  validated_NoDup : ∀ (s : S) p, NoDup ((g_id ∘ vm_row) <$> select_validated_for_retirement s p);
}.

(** ** The decisions *)

(** The five conditions of promotion. *)
Definition promotes (cfg : EffectiveConfig) (row : CandidateMemoryRow) : bool :=
  (cfg_min_outcomes cfg <=? cm_promotion_outcomes row)
  && (cfg_promotion_min_distinct_principals cfg <=? cm_promotion_distinct_principals row)
  && cm_outcome_consistent row && cm_scan_repass row && negb (cm_open_contradiction row).

(** Used enough and scored below the threshold. *)
Definition unwanted (cfg : EffectiveConfig) (row : ValidatedMemoryRow) : bool :=
  (vm_q_value row <? cfg_q_threshold cfg)%float && (cfg_min_scored_uses cfg <=? vm_scored_use_count row).
(** By enough distinct principals. *)
Definition widely (cfg : EffectiveConfig) (row : ValidatedMemoryRow) : bool :=
  cfg_retirement_min_distinct_principals cfg <=? vm_distinct_scoring_principals row.

Lemma promotion_guard cfg l n row : from_config cfg = Ok l →
  apply (Some CANDIDATE) VALIDATED (promotion_evidence n row) l
  = if promotes cfg row then Ok VALIDATED
    else Err (GuardNotSatisfied (Some CANDIDATE) VALIDATED (reason (guard_candidate_to_validated (promotion_evidence n row) l))).
Proof.
  unfold from_config. intros [-> _]%limits_floors. rewrite (apply_edge _ _ guard_candidate_to_validated) by reflexivity.
  unfold guard_candidate_to_validated, promotes.
  cbn [promotion_evidence promotion_outcomes promotion_distinct_principals outcome_consistent scan_repass
       open_contradiction promote_min_outcomes promotion_min_distinct_principals].
  rewrite !Z.ltb_antisym. destruct (_ <=? _); [|done]. destruct (_ <=? _); [|done].
  by destruct (cm_outcome_consistent row), (cm_scan_repass row), (cm_open_contradiction row).
Qed.

Lemma retirement_guard cfg l n row : from_config cfg = Ok l → not_nan (vm_q_value row) → not_nan (cfg_q_threshold cfg) →
  apply (Some VALIDATED) RETIRED (retirement_evidence n row) l
  = if unwanted cfg row && widely cfg row then Ok RETIRED
    else Err (GuardNotSatisfied (Some VALIDATED) RETIRED (reason (guard_validated_to_retired (retirement_evidence n row) l))).
Proof.
  unfold from_config. intros [-> _]%limits_floors Hq Ht.
  rewrite (apply_edge _ _ guard_validated_to_retired) by reflexivity.
  unfold guard_validated_to_retired, unwanted, widely.
  cbn [retirement_evidence q_value scored_use_count distinct_scoring_principals retire_q_threshold
       retire_min_scored_uses retire_min_distinct_principals].
  rewrite <- (fltb_negb_leb (vm_q_value row)) by done.
  destruct (vm_q_value row <? cfg_q_threshold cfg)%float; cbn [negb]; [|done].
  rewrite !Z.ltb_antisym. destruct (_ <=? _); [|done]. by destruct (_ <=? _).
Qed.

Lemma from_config_threshold cfg l : from_config cfg = Ok l → not_nan (cfg_q_threshold cfg).
Proof.
  unfold from_config, limits_post_init. cbn [forallb retire_q_threshold]. intros H.
  case_match; [|done]. case_match eqn:Hf; [|done]. clear H. bsplit.
  match goal with H : (0 <=? cfg_q_threshold cfg)%float = true |- _ => exact (proj2 (leb_not_nan _ _ H)) end.
Qed.

(** ** Batches *)

Section Batch.
Context {S : Type} `{!StatusRepo S, !StatusRepoLaws S} (p : ProjectId).
Context {R O : Type} (rid : R → MemoryId).
(** what a row becomes, whether a review item is opened for it, what is reported *)
Context (after : R → datetime → LifecycleMemoryRow → LifecycleMemoryRow) (asks : R → bool) (report : R → O → Prop).
Context (clock : nat → datetime).

Definition judges (f : R → worker S O) (row : R) (r : LifecycleMemoryRow) : Prop :=
  ∀ s k, vault s (p, rid row) = Some r →
    ∃ o s' k', f row (s, k) = (Ok o, (s', k')) ∧ report row o
      ∧ updates s s' (p, rid row) (after row (clock k) r)
      ∧ review_rows s' = review_rows s ++ (if asks row then [(p, Some (rid row))] else [])
      ∧ rtc vstep s s'.

Definition reviews_of (rows : list R) : list (ProjectId * option MemoryId) :=
  (λ row, (p, Some (rid row))) <$> List.filter asks rows.

Lemma judge_loop f rows s k : NoDup (rid <$> rows) →
  (∀ row, row ∈ rows → ∃ r, vault s (p, rid row) = Some r ∧ judges f row r) →
  ∃ os s' k', wfor f rows (s, k) = (Ok os, (s', k')) ∧ Forall2 report rows os
    ∧ (∀ row, row ∈ rows → ∃ r i, vault s (p, rid row) = Some r ∧ vault s' (p, rid row) = Some (after row (clock i) r))
    ∧ (∀ key, key ∉ (λ row, (p, rid row)) <$> rows → vault s' key = vault s key)
    ∧ review_rows s' = review_rows s ++ reviews_of rows ∧ rtc vstep s s'.
Proof.
  revert s k. induction rows as [|row rows IH]; intros s k Hnd Hrows.
  { exists [], s, k. split_and!; [done|constructor|by intros ? ?%elem_of_nil|done|by rewrite app_nil_r|done]. }
  rewrite fmap_cons in Hnd. apply NoDup_cons in Hnd as [Hx Hnd].
  destruct (Hrows row ltac:(left)) as (r & Hr & Hj).
  destruct (Hj s k Hr) as (o & s1 & k1 & Hf & Ho & Hu & Hrev & Hs1).
  assert (Hother : ∀ row', row' ∈ rows → vault s1 (p, rid row') = vault s (p, rid row')).
  { intros row' Hrow'. rewrite Hu, decide_False; [done|]. intros [= Heq]. apply Hx. rewrite Heq.
    by apply list_elem_of_fmap_2. }
  destruct (IH s1 k1 Hnd) as (os & s2 & k2 & Hw & Hos & Hin & Hout & Hrev2 & Hs2).
  { intros row' Hrow'. rewrite Hother by done. apply Hrows. by right. }
  exists (o :: os), s2, k2. split_and!.
  - cbn [wfor]. by rewrite (wbind_ok _ _ _ _ _ Hf), (wbind_ok _ _ _ _ _ Hw).
  - by constructor.
  - intros row' [->|Hrow']%elem_of_cons.
    + exists r, k. split; [done|]. rewrite Hout; [by rewrite Hu, decide_True|].
      intros (row' & [= Heq] & Hrow')%list_elem_of_fmap. apply Hx. rewrite Heq. by apply list_elem_of_fmap_2.
    + destruct (Hin row' Hrow') as (r' & i & Hr' & ?). exists r', i. by rewrite <- Hother.
  - intros key. rewrite fmap_cons, not_elem_of_cons. intros [Hne Hk]. rewrite Hout by done.
    by rewrite Hu, decide_False by congruence.
  - rewrite Hrev2, Hrev, <- app_assoc. unfold reviews_of. cbn [List.filter]. by destruct (asks row).
  - by etransitivity.
Qed.
End Batch.

Section Proofs.
Context {S : Type} `{!StatusRepo S, !StatusRepoLaws S, !PromotionReads S, !PromotionReadsLaws S}.
Context (clock : nat → datetime) (reason_text : ValidatedMemoryRow → TransitionLimits → option GuardReason → pystr).
Context (p : ProjectId) (cfg : EffectiveConfig) (l : TransitionLimits).
Hypothesis Hl : from_config cfg = Ok l.
Hypothesis Hn : ∀ i, dt_aware (clock i) = true.

Lemma require_status_ok g st : g_project_id g = p → g_status g = st → require_status g p st = Ok tt.
Proof. intros <- <-. unfold require_status. by rewrite !bool_decide_eq_true_2. Qed.

(** The write both workers end with. *)
Lemma persist_promotion_spec {B} (b : B) g r st e s k n : dt_aware n = true → vault s (p, g_id g) = Some r →
  l_status r = g_status g → about (row_columns_of r) e → apply (Some (g_status g)) st e l = Ok st →
  ∃ s' k', (let* _ := persist_promotion p (mkPWrite (g_id g) (g_status g) st n) in wret b) (s, k) = (Ok b, (s', k'))
    ∧ updates s s' (p, g_id g) (restatus st n r) ∧ review_rows s' = review_rows s ∧ rtc vstep s s'.
Proof.
  intros Hna Hv Hst Ha Happ. unfold persist_promotion. cbn [pw_memory_id pw_from_status pw_to_status pw_now].
  destruct (wstatus_step p (mkSWrite (g_id g) (g_status g) st n None) r e l s k) as (s' & Hw & Hp & Hu & Hs);
    [done|done|done|done|by rewrite Hst|].
  exists s', k. split_and!; [by rewrite (wbind_ok _ _ _ _ _ Hw)|done|by eapply status_reviews|by apply rtc_once].
Qed.

Lemma candidate_judged row s : dated s → reads_row s p CANDIDATE (cm_row row) →
  ∃ r, vault s (p, g_id (cm_row row)) = Some r ∧
    judges p (g_id ∘ cm_row)
      (λ row n r, if promotes cfg row then restatus VALIDATED n r else r) (λ _, false)
      (λ row o, po_memory_id o = g_id (cm_row row) ∧ po_promoted o = promotes cfg row)
      clock (evaluate_candidate clock p cfg) row r.
Proof.
  intros Hd (Hp & Hst & r & Hv & Hs & Ht & Hm & Hpr & Hch). exists r. split; [done|].
  pose proof (Hd _ _ Hv) as (Haw & _). intros s0 k Hv0. cbn in Hv0. unfold evaluate_candidate.
  rewrite (wlift_ok _ _ _ tt) by by apply require_status_ok.
  rewrite (wbind_ok _ _ _ (clock k) (s0, Datatypes.S k)) by done. rewrite (wlift_ok _ _ _ l) by by rewrite Hl.
  rewrite (wlift_ok _ _ _ (promotion_evidence (clock k) row))
    by (apply evidence_ok; [apply Hn|cbn; by rewrite <- Hch]).
  rewrite Hst, (promotion_guard cfg) by done. cbn [compose]. rewrite app_nil_r. destruct (promotes cfg row) eqn:Hdec.
  - destruct (persist_promotion_spec (mkPromotion (g_id (cm_row row)) true (Some VALIDATED) None) (cm_row row) r VALIDATED
      (promotion_evidence (clock k) row) s0 (Datatypes.S k) (clock k)) as (s' & k' & Hrun & Hu & Hrev & Hstep);
      [apply Hn|done|done|repeat split; cbn; congruence|by rewrite Hst, (promotion_guard cfg), Hdec|].
    rewrite Hst in Hrun. eexists _, s', k'. split; [exact Hrun|]. split; [by split|]. by split_and!.
  - eexists _, s0, _. split; [done|]. split; [by split|]. split; [by apply updates_same|by split].
Qed.

Lemma validated_judged row s : dated s → reads_row s p VALIDATED (vm_row row) → not_nan (vm_q_value row) →
  ∃ r, vault s (p, g_id (vm_row row)) = Some r ∧
    judges p (g_id ∘ vm_row)
      (λ row n r, if unwanted cfg row && widely cfg row then restatus RETIRED n r else r)
      (λ row, unwanted cfg row && negb (widely cfg row))
      (λ row o, ro_memory_id o = g_id (vm_row row) ∧ ro_retired o = unwanted cfg row && widely cfg row
                ∧ ro_routed_to_review o = unwanted cfg row && negb (widely cfg row))
      clock (evaluate_retirement clock reason_text p cfg) row r.
Proof.
  intros Hd (Hp & Hst & r & Hv & Hs & Ht & Hm & Hpr & Hch) Hq. exists r. split; [done|].
  pose proof (Hd _ _ Hv) as (Haw & _). pose proof (from_config_threshold _ _ Hl) as Hthr.
  intros s0 k Hv0. cbn in Hv0. unfold evaluate_retirement.
  rewrite (wlift_ok _ _ _ tt) by by apply require_status_ok.
  rewrite (wbind_ok _ _ _ (clock k) (s0, Datatypes.S k)) by done. rewrite (wlift_ok _ _ _ l) by by rewrite Hl.
  rewrite (wlift_ok _ _ _ (retirement_evidence (clock k) row))
    by (apply evidence_ok; [apply Hn|cbn; by rewrite <- Hch]).
  rewrite Hst, (retirement_guard cfg) by done. cbn [compose].
  assert (Hcond : (vm_q_value row <? retire_q_threshold l)%float && (retire_min_scored_uses l <=? vm_scored_use_count row)
    && (vm_distinct_scoring_principals row <? retire_min_distinct_principals l) = unwanted cfg row && negb (widely cfg row)).
  { pose proof Hl as Hl'. unfold from_config in Hl'. apply limits_floors in Hl' as [-> _]. cbn.
    unfold unwanted, widely. by rewrite Z.ltb_antisym. }
  rewrite Hcond. destruct (unwanted cfg row) eqn:Hun, (widely cfg row) eqn:Hwi; cbn [andb negb].
  - destruct (persist_promotion_spec (mkRetirement (g_id (vm_row row)) true false (Some RETIRED) None) (vm_row row) r RETIRED
      (retirement_evidence (clock k) row) s0 (Datatypes.S k) (clock k)) as (s' & k' & Hrun & Hu & Hrev & Hstep);
      [apply Hn|done|done|repeat split; cbn; congruence|by rewrite Hst, (retirement_guard cfg), Hun, Hwi|].
    rewrite Hst in Hrun. eexists _, s', k'. split; [exact Hrun|]. rewrite app_nil_r. split; [by split_and!|]. by split_and!.
  - eexists _, _, _. split; [done|]. split; [by split_and!|]. split_and!.
    + intros key. cbn. rewrite review_vault. by case_decide; subst.
    + apply review_recorded.
    + apply rtc_once. eapply vstep_row; [exact Hv0|by apply row_touch|].
      intros key. cbn. rewrite review_vault. by case_decide; subst.
  - eexists _, s0, _. split; [done|]. rewrite app_nil_r. split; [by split_and!|]. split; [by apply updates_same|by split].
  - eexists _, s0, _. split; [done|]. rewrite app_nil_r. split; [by split_and!|]. split; [by apply updates_same|by split].
Qed.
End Proofs.

(** ** Theorems *)

(** A promotion batch promotes exactly the selected candidates with enough consistent
    outcomes from enough distinct principals, a passed re-scan and no open contradiction; it
    always completes, reports each decision, opens no review item and changes no other row. *)
Lemma promotion_exact {S : Type} `{!StatusRepo S, !StatusRepoLaws S, !PromotionReads S, !PromotionReadsLaws S}
    (clock : nat → datetime) p cfg l (s : S) k :
  from_config cfg = Ok l → (∀ i, dt_aware (clock i) = true) → dated s →
  ∃ os s' k', run_promotion_once clock p cfg (s, k)
              = (Ok (Z.of_nat (length (select_candidates_for_promotion s p)), os), (s', k'))
    ∧ Forall2 (λ row o, po_memory_id o = g_id (cm_row row) ∧ po_promoted o = promotes cfg row)
        (select_candidates_for_promotion s p) os
    ∧ (∀ row, row ∈ select_candidates_for_promotion s p →
         ∃ r i, vault s (p, g_id (cm_row row)) = Some r
           ∧ vault s' (p, g_id (cm_row row)) = Some (if promotes cfg row then restatus VALIDATED (clock i) r else r))
    ∧ (∀ key, key ∉ (λ row, (p, g_id (cm_row row))) <$> select_candidates_for_promotion s p →
         vault s' key = vault s key)
    ∧ review_rows s' = review_rows s.
Proof.
  intros Hl Hn Hd. set (rows := select_candidates_for_promotion s p).
  destruct (judge_loop p (g_id ∘ cm_row) (λ row n r, if promotes cfg row then restatus VALIDATED n r else r) (λ _, false)
    (λ row o, po_memory_id o = g_id (cm_row row) ∧ po_promoted o = promotes cfg row) clock
    (evaluate_candidate clock p cfg) rows s k) as (os & s' & k' & Hw & Hos & Hin & Hout & Hrev & _);
    [apply candidates_NoDup|by intros row Hrow; eapply candidate_judged, candidates_sound|].
  exists os, s', k'. split.
  { unfold run_promotion_once. rewrite (wbind_ok _ _ _ rows (s, k)) by done. by rewrite (wbind_ok _ _ _ _ _ Hw). }
  split_and!; [done|done|done|]. rewrite Hrev. unfold reviews_of. rewrite filter_all_false by done. apply app_nil_r.
Qed.

(** Retirement needs the distinct-principals floor: of the selected validated memories
    exactly those scored below the threshold, in enough uses, by at least K distinct principals
    are retired; those that miss only the last condition are left validated and one review
    item is opened for each, in order; nothing happens to the rest. *)
Lemma retirement_trichotomy {S : Type} `{!StatusRepo S, !StatusRepoLaws S, !PromotionReads S, !PromotionReadsLaws S}
    (clock : nat → datetime) reason_text p cfg l (s : S) k :
  from_config cfg = Ok l → (∀ i, dt_aware (clock i) = true) → dated s →
  ∃ os s' k', run_retirement_once clock reason_text p cfg (s, k)
              = (Ok (Z.of_nat (length (select_validated_for_retirement s p)), os), (s', k'))
    ∧ Forall2 (λ row o, ro_memory_id o = g_id (vm_row row) ∧ ro_retired o = unwanted cfg row && widely cfg row
                        ∧ ro_routed_to_review o = unwanted cfg row && negb (widely cfg row))
        (select_validated_for_retirement s p) os
    ∧ (∀ row, row ∈ select_validated_for_retirement s p →
         ∃ r i, vault s (p, g_id (vm_row row)) = Some r
           ∧ vault s' (p, g_id (vm_row row))
             = Some (if unwanted cfg row && widely cfg row then restatus RETIRED (clock i) r else r))
    ∧ (∀ key, key ∉ (λ row, (p, g_id (vm_row row))) <$> select_validated_for_retirement s p →
         vault s' key = vault s key)
    ∧ review_rows s' = review_rows s
        ++ ((λ row, (p, Some (g_id (vm_row row))))
              <$> List.filter (λ row, unwanted cfg row && negb (widely cfg row)) (select_validated_for_retirement s p)).
Proof.
  intros Hl Hn Hd. set (rows := select_validated_for_retirement s p).
  destruct (judge_loop p (g_id ∘ vm_row)
    (λ row n r, if unwanted cfg row && widely cfg row then restatus RETIRED n r else r)
    (λ row, unwanted cfg row && negb (widely cfg row))
    (λ row o, ro_memory_id o = g_id (vm_row row) ∧ ro_retired o = unwanted cfg row && widely cfg row
              ∧ ro_routed_to_review o = unwanted cfg row && negb (widely cfg row)) clock
    (evaluate_retirement clock reason_text p cfg) rows s k) as (os & s' & k' & Hw & Hos & Hin & Hout & Hrev & _);
    [apply validated_NoDup|by intros row [? ?]%validated_sound; eapply validated_judged|].
  exists os, s', k'. split.
  { unfold run_retirement_once. rewrite (wbind_ok _ _ _ rows (s, k)) by done. by rewrite (wbind_ok _ _ _ _ _ Hw). }
  by split_and!.
Qed.

(** ** A concrete reader, for evaluation: fixed evidence for every row of the status *)

Definition grow_of (r : LifecycleMemoryRow) : governed_row :=
  mkGRow (l_id r) (l_project_id r) (l_status r) (l_trust_tier r) (l_mem_type r) (l_provenance r) (l_status_changed_at r).

Definition reads_ex : PromotionReads database := {|
  select_candidates_for_promotion d p :=
    (λ r, mkCandidate (grow_of r) 3 2 true true false) <$> pg_select_by_status all_visible (items d) p [CANDIDATE] 10000;
  select_validated_for_retirement d p :=
    (λ r, mkValidated (grow_of r) 0.125 6 2) <$> pg_select_by_status all_visible (items d) p [VALIDATED] 10000;
|}.

Lemma reads_ex_laws : @PromotionReadsLaws database (pg_status_repo all_visible) reads_ex.
Proof.
  assert (Hsound : ∀ (d : database) p st r, r ∈ pg_select_by_status all_visible (items d) p [st] 10000 →
            @reads_row _ (pg_vault all_visible) d p st (grow_of r)).
  { intros d p st r Hr.
    apply (@select_one_sound _ (pg_repo all_visible) (pg_laws all_visible)) in Hr as (Hv & Hp & Hst).
    split_and!; [done|done|]. exists r. split_and!; [|done..]. unfold l_key in Hv. by rewrite Hp in Hv. }
  assert (Hnd : ∀ (d : database) p st, NoDup (l_id <$> pg_select_by_status all_visible (items d) p [st] 10000)).
  { intros d p st. apply (NoDup_fmap_1 (λ m, (p, m))). rewrite <- list_fmap_compose.
    rewrite (Forall_fmap_ext_1 _ l_key); [exact (@select_NoDup _ (pg_repo all_visible) (pg_laws all_visible) d p [st])|].
    apply Forall_forall. intros r Hr.
    apply (@select_one_sound _ (pg_repo all_visible) (pg_laws all_visible)) in Hr as (_ & Hp & _).
    unfold l_key. cbn. by rewrite Hp. }
  split.
  - intros d p row (r & -> & Hr)%list_elem_of_fmap. by apply Hsound.
  - intros d p. cbn [select_candidates_for_promotion reads_ex]. rewrite <- list_fmap_compose. apply Hnd.
  - intros d p row (r & -> & Hr)%list_elem_of_fmap. split; [by apply Hsound|reflexivity].
  - intros d p. cbn [select_validated_for_retirement reads_ex]. rewrite <- list_fmap_compose. apply Hnd.
Qed.

Lemma promotion_exact_witness :
  ∃ os s' k', @run_promotion_once _ (pg_status_repo all_visible) reads_ex (λ _, instant 60) project_ex default_config
                (db_ex, 0%nat) = (Ok (1, os), (s', k')).
Proof.
  destruct (@promotion_exact _ (pg_status_repo all_visible) (pg_status_laws all_visible) reads_ex reads_ex_laws
              (λ _, instant 60) project_ex default_config default_limits db_ex 0%nat) as (os & s' & k' & Hrun & _).
  - apply default_limits_ok.
  - done.
  - apply table_dated. vm_compute. reflexivity.
  - exists os, s', k'. exact Hrun.
Defined.

Lemma retirement_trichotomy_witness :
  ∃ os s' k', @run_retirement_once _ (pg_status_repo all_visible) reads_ex (λ _, instant 60) (λ _ _ _, []) project_ex
                default_config (db_ex, 0%nat) = (Ok (1, os), (s', k'))
    ∧ @review_rows _ (pg_status_repo all_visible) s' = [(project_ex, Some (memory_ex 5 I))].
Proof.
  destruct (@retirement_trichotomy _ (pg_status_repo all_visible) (pg_status_laws all_visible) reads_ex reads_ex_laws
              (λ _, instant 60) (λ _ _ _, []) project_ex default_config default_limits db_ex 0%nat)
    as (os & s' & k' & Hrun & _ & _ & _ & Hrev).
  - apply default_limits_ok.
  - done.
  - apply table_dated. vm_compute. reflexivity.
  - exists os, s', k'. split; [exact Hrun|]. rewrite Hrev. vm_compute. reflexivity.
Defined.
