(* ===== verification/Scoring.v ===== *)
(** * Scoring (workers/scorer.py, stores/pg/scoring.py)

    The Q update and the batch that applies at most one of them per memory and day: input
    checks, the tie-break among the pending events, the daily cap, the replay ledger and the
    contribution verdict, against the port [ScorerRepo]; then the Postgres adapter, which
    writes the ledger [memory_q_update] and the memory's current values in one transaction.
    Real-number inputs are floats ([isinstance] cannot fail); a judge is a function that may
    answer differently at every call. *)

From Stdlib Require Import Floats.
From S2P Require Import Prelude Domain PyText StateMachine Memory PyFloat FloatRound Lifecycle VaultStore StatusWriter EditOps.
Open Scope Z_scope.

(** ** The rule *)

Inductive AdapterClass := A_VERDICT | A_CORRECTION_ADAPTER | A_DOWNSTREAM | A_IMPLICIT.

Definition adapter_value (a : AdapterClass) : pystr :=
  of_ascii match a with
           | A_VERDICT => "verdict" | A_CORRECTION_ADAPTER => "correction_adapter"
           | A_DOWNSTREAM => "downstream" | A_IMPLICIT => "implicit"
           end.

(** [ScoringInputInvalid] is a [TracebedError]. *)
Definition require_unit_interval (value : float) : result exn unit :=
  check! (0 <=? value)%float && (value <=? 1)%float else TracebedError in Ok tt.

Definition require_positive_rate (value : float) : result exn unit :=
  check! negb (negb (isfinite value) || (value <=? 0)%float) else TracebedError in Ok tt.

Definition clamp01 (value : float) : result exn float :=
  check! isfinite value else ValueError in
  if (value <? 0)%float then Ok 0%float
  else if (1 <? value)%float then Ok 1%float
  else Ok value.

Definition resolve_weight (a : AdapterClass) (adapter_weights : list (pystr * float)) : float :=
  match dict_get adapter_weights (adapter_value a) with
  | None => 0%float
  | Some w => if negb ((0 <? w)%float && (w <=? 1)%float) then 0%float else w
  end.

(** [None] is "no update: write nothing". *)
Definition compute_new_q (current_q r w c alpha : float) : result exn (option float) :=
  let! _ := require_unit_interval r in
  let! _ := require_unit_interval c in
  let! _ := require_unit_interval current_q in
  let! _ := require_positive_rate alpha in
  if (w =? 0)%float || (c =? 0)%float then Ok None
  else let! q := clamp01 (current_q + alpha * w * c * (r - current_q))%float in Ok (Some q).

(** ** The batch *)

Record ScoringEvent := mkEvent {
  se_event_id : uuid;
  se_run_id : RunId;
  se_memory_id : MemoryId;
  se_adapter : AdapterClass;
  se_r : float;
  se_principal_id : PrincipalId;
  se_arrived_at : datetime;
  se_outcome_summary : pystr;
}.

(** [ScoringEvent.__post_init__]. *)
Definition event_post_init (e : ScoringEvent) : result exn ScoringEvent :=
  check! dt_aware (se_arrived_at e) else TracebedError in
  let! _ := require_unit_interval (se_r e) in
  Ok e.

(** [_key(a) < _key(b)]: Python compares tuples at the first elements that differ; the two
    byte strings have the same length, so they compare as the numbers they encode. *)
Definition event_ltb (weights : list (pystr * float)) (a b : ScoringEvent) : bool :=
  let wa := (- resolve_weight (se_adapter a) weights)%float in
  let wb := (- resolve_weight (se_adapter b) weights)%float in
  if negb (wa =? wb)%float then (wa <? wb)%float
  else if negb (dt_us (se_arrived_at a) =? dt_us (se_arrived_at b))
  then dt_us (se_arrived_at a) <? dt_us (se_arrived_at b)
  else if negb (uuid_int (RunId_value (se_run_id a)) =? uuid_int (RunId_value (se_run_id b)))%N
  then (uuid_int (RunId_value (se_run_id a)) <? uuid_int (RunId_value (se_run_id b)))%N
  else (uuid_int (se_event_id a) <? uuid_int (se_event_id b))%N.

(** Python's [min] with a key: the first of the smallest. *)
Definition py_min {A} (ltb : A → A → bool) (x : A) (xs : list A) : A :=
  foldl (λ best y, if ltb y best then y else best) x xs.

Definition select_daily_winner (candidates : list ScoringEvent) (weights : list (pystr * float))
  : option ScoringEvent :=
  match candidates with
  | [] => None
  | x :: xs => Some (py_min (event_ltb weights) x xs)
  end.

Record ContributionVerdict := mkVerdict { cv_factor : float; cv_epoch_id : Z }.

(** [ContributionVerdict.__post_init__]: the factor is one of the rubric's three. *)
Definition verdict_post_init (v : ContributionVerdict) : result exn ContributionVerdict :=
  check! (cv_factor v =? 0)%float || (cv_factor v =? 0.5)%float || (cv_factor v =? 1)%float
  else TracebedError in Ok v.

(** [assert_same_epoch]. *)
Definition assert_same_epoch (a b : Z) : result exn unit :=
  check! a =? b else CrossEpochComparison in Ok tt.

Record QUpdate := mkQUpdate {
  q_memory_id : MemoryId;
  q_event_id : uuid;
  q_principal_id : PrincipalId;
  q_previous_q : float;
  q_new_q : float;
  q_contribution : float;
  q_epoch_id : Z;
  q_scored_at : datetime;
}.

Record ScoreBatchResult := mkScoreResult {
  applied : list QUpdate;
  skipped_replay : list uuid;
  skipped_short_circuit : list uuid;
  skipped_cap : list uuid;
}.

Record ScoringConfig := mkScoringConfig {
  alpha : float;
  adapter_weights : list (pystr * float);
  updates_per_memory_per_day : Z;
}.

(** The UTC calendar date of an aware instant, as a day number. *)
Definition utc_date (d : datetime) : Z := dt_us d / timedelta_days 1.

Class ScorerRepo (S : Type) := {
  current_q : S → ProjectId → MemoryId → result lifecycle_error float;
  applied_event_ids : S → ProjectId → MemoryId → list uuid;
  scored_updates_today : S → ProjectId → MemoryId → Z → Z;
  apply_q_update : S → ProjectId → QUpdate → result lifecycle_error S;
}.

(** The loop over the candidates: repeated ids are dropped, replays separated. *)
Fixpoint split_fresh (applied_ids seen : list uuid) (candidates : list ScoringEvent)
  : list uuid * list ScoringEvent :=
  match candidates with
  | [] => ([], [])
  | e :: rest =>
      if bool_decide (se_event_id e ∈ seen) then split_fresh applied_ids seen rest
      else
        let '(replayed, fresh) := split_fresh applied_ids (se_event_id e :: seen) rest in
        if bool_decide (se_event_id e ∈ applied_ids) then (se_event_id e :: replayed, fresh)
        else (replayed, e :: fresh)
  end.

Section Batch.
Context {S : Type} `{!ScorerRepo S} (clock : nat → datetime).
Context (judge : nat → pystr → pystr → result lifecycle_error ContributionVerdict).

Definition wjudge (content summary : pystr) : worker S ContributionVerdict := λ σ,
  (match judge σ.2 content summary with Ok v => of_exn (verdict_post_init v) | Err e => Err e end, σ).

Definition wscore (p : ProjectId) (u : QUpdate) : worker S unit := λ σ,
  match apply_q_update σ.1 p u with
  | Ok s' => (Ok tt, (s', σ.2))
  | Err e => (Err e, σ)
  end.

Definition run_scorer_batch (p : ProjectId) (m : MemoryId) (content : pystr) (candidates : list ScoringEvent)
    (cfg : ScoringConfig) (epoch_id : Z) : worker S ScoreBatchResult :=
  if negb (forallb (λ e, bool_decide (se_memory_id e = m)) candidates) then wlift (Err (LExn TracebedError))
  else
    let* instant := wnow clock in
    if negb (dt_aware instant) then wlift (Err (LExn TracebedError))
    else
      let today := utc_date instant in
      let* ids := wread (λ s, applied_event_ids s p m) in
      let '(replayed, fresh) := split_fresh ids [] candidates in
      let* spent := wread (λ s, scored_updates_today s p m today) in
      if updates_per_memory_per_day cfg <=? spent
      then wret (mkScoreResult [] replayed [] (se_event_id <$> fresh))
      else
        match select_daily_winner fresh (adapter_weights cfg) with
        | None => wret (mkScoreResult [] replayed [] [])
        | Some winner =>
            let losers := List.filter (λ i, bool_decide (i ≠ se_event_id winner)) (se_event_id <$> fresh) in
            let w := resolve_weight (se_adapter winner) (adapter_weights cfg) in
            if (w =? 0)%float then wret (mkScoreResult [] replayed (se_event_id <$> fresh) [])
            else
              let* verdict := wjudge content (se_outcome_summary winner) in
              let* _ := wlift (of_exn (assert_same_epoch epoch_id (cv_epoch_id verdict))) in
              let* q := wtry (λ s, current_q s p m) in
              let* new := wlift (of_exn (compute_new_q q (se_r winner) w (cv_factor verdict) (alpha cfg))) in
              match new with
              | None => wret (mkScoreResult [] replayed [se_event_id winner] losers)
              | Some new_q =>
                  let update := mkQUpdate m (se_event_id winner) (se_principal_id winner) q new_q
                                  (cv_factor verdict) epoch_id instant in
                  let* _ := wscore p update in
                  wret (mkScoreResult [update] replayed [] losers)
              end
        end.
End Batch.

(** ** What the port promises *)

Class ScorerLaws (S : Type) `{ScorerRepo S} := {
  ledger : S → ProjectId → MemoryId → list QUpdate;
  applied_iff : ∀ s p m i, i ∈ applied_event_ids s p m ↔ i ∈ q_event_id <$> ledger s p m;
  today_count : ∀ s p m day,
    scored_updates_today s p m day
    = Z.of_nat (length (List.filter (λ u, utc_date (q_scored_at u) =? day) (ledger s p m)));
  (** the ledger row is written with the update, once per event *)
  apply_ledger : ∀ s p u s', apply_q_update s p u = Ok s' → ∀ p' m',
    ledger s' p' m' =
    if decide ((p', m') = (p, q_memory_id u))
    then if decide (q_event_id u ∈ q_event_id <$> ledger s p (q_memory_id u))
         then ledger s p (q_memory_id u) else ledger s p (q_memory_id u) ++ [u]
    else ledger s p' m';
}.

(** ** The effect of one batch *)

Lemma py_min_elem {A} (ltb : A → A → bool) x xs : py_min ltb x xs ∈ x :: xs.
Proof.
  unfold py_min. revert x. induction xs as [|y xs IH]; intros x; cbn [foldl]; [by left|].
  specialize (IH (if ltb y x then y else x)). rewrite elem_of_cons in IH.
  destruct IH as [->|IH]; [destruct (ltb y x); set_solver|set_solver].
Qed.

Lemma select_winner_elem es weights e : select_daily_winner es weights = Some e → e ∈ es.
Proof. destruct es as [|x xs]; [done|]. intros [= <-]. apply py_min_elem. Qed.

Lemma split_fresh_spec ids seen es :
  let '(replayed, fresh) := split_fresh ids seen es in
  (∀ e, e ∈ fresh → e ∈ es ∧ se_event_id e ∉ ids ∧ se_event_id e ∉ seen)
  ∧ (∀ i, i ∈ replayed → i ∈ ids ∧ i ∉ seen)
  ∧ NoDup (replayed ++ (se_event_id <$> fresh))
  ∧ (∀ i, i ∈ replayed ++ (se_event_id <$> fresh) ↔ i ∈ se_event_id <$> es ∧ i ∉ seen).
Proof.
  revert seen. induction es as [|e es IH]; intros seen; cbn [split_fresh].
  { split_and!; [set_solver|set_solver|constructor|set_solver]. }
  case_bool_decide as Hseen.
  { specialize (IH seen). destruct (split_fresh ids seen es) as [rep fr]. destruct IH as (H1 & H2 & H3 & H4).
    split_and!; [set_solver|done|done|]. intros i. rewrite H4. set_solver. }
  specialize (IH (se_event_id e :: seen)). destruct (split_fresh ids _ es) as [rep fr].
  destruct IH as (H1 & H2 & H3 & H4). assert (Hni : se_event_id e ∉ rep ++ (se_event_id <$> fr)) by (rewrite H4; set_solver).
  case_bool_decide as Hid.
  - split_and!; [set_solver|set_solver|by constructor|]. intros i. cbn. rewrite !elem_of_cons, H4.
    destruct (decide (i = se_event_id e)); set_solver.
  - assert (Hp : rep ++ (se_event_id <$> e :: fr) ≡ₚ se_event_id e :: rep ++ (se_event_id <$> fr))
      by (cbn; by rewrite <- Permutation_middle).
    split_and!; [set_solver|set_solver|rewrite Hp; by constructor|]. intros i.
    rewrite Hp. cbn. rewrite !elem_of_cons, H4. destruct (decide (i = se_event_id e)); set_solver.
Qed.

Section Effect.
Context {S : Type} `{!ScorerRepo S} (clock : nat → datetime).
Context (judge : nat → pystr → pystr → result lifecycle_error ContributionVerdict).
Context (p : ProjectId) (m : MemoryId) (content : pystr) (cfg : ScoringConfig) (epoch_id : Z).

(** The update a batch started in [s] at instant [n] may apply. *)
Record applies_rule (s : S) (n : datetime) (es : list ScoringEvent) (e : ScoringEvent) (u : QUpdate) : Prop := {
  sc_candidate : e ∈ es;
  sc_memory : q_memory_id u = m;
  sc_event : q_event_id u = se_event_id e;
  sc_principal : q_principal_id u = se_principal_id e;
  sc_fresh : q_event_id u ∉ applied_event_ids s p m;
  sc_slot : scored_updates_today s p m (utc_date n) < updates_per_memory_per_day cfg;
  sc_instant : q_scored_at u = n;
  sc_aware : dt_aware n = true;
  sc_stamp : q_epoch_id u = epoch_id;
  sc_before : current_q s p m = Ok (q_previous_q u);
  sc_rule : compute_new_q (q_previous_q u) (se_r e) (resolve_weight (se_adapter e) (adapter_weights cfg))
              (q_contribution u) (alpha cfg) = Ok (Some (q_new_q u));
}.

Definition result_ids (r : ScoreBatchResult) : list uuid :=
  (q_event_id <$> applied r) ++ skipped_replay r ++ skipped_short_circuit r ++ skipped_cap r.

(** A batch writes nothing, or exactly the update it reports. *)
Lemma run_scorer_batch_effect es s k res s' k' :
  run_scorer_batch clock judge p m content es cfg epoch_id (s, k) = (res, (s', k')) →
  match res with
  | Err _ => s' = s
  | Ok r =>
      result_ids r ≡ₚ fromkeys (se_event_id <$> es)
      ∧ ((applied r = [] ∧ s' = s)
         ∨ ∃ e u, applied r = [u] ∧ applies_rule s (clock k) es e u ∧ apply_q_update s p u = Ok s')
  end.
Proof.
  unfold run_scorer_batch. destruct (negb (forallb _ _)); [by intros [= <- <- _]|].
  unfold wbind at 1. unfold wnow. cbn [fst snd]. destruct (dt_aware (clock k)) eqn:Ha; cbn [negb];
    [|by intros [= <- <- _]].
  unfold wbind at 1, wread at 1. cbn [fst snd].
  pose proof (split_fresh_spec (applied_event_ids s p m) [] es) as Hsplit.
  destruct (split_fresh _ [] es) as [rep fr]. destruct Hsplit as (Hfr & _ & Hnd & Hids).
  assert (Hall : rep ++ (se_event_id <$> fr) ≡ₚ fromkeys (se_event_id <$> es)).
  { destruct (fromkeys_spec (se_event_id <$> es)) as [Hnd' Hin].
    apply NoDup_Permutation; [done|done|]. intros i. rewrite Hids, Hin. set_solver. }
  unfold wbind at 1, wread at 1. cbn [fst snd].
  destruct (Z.leb_spec (updates_per_memory_per_day cfg) (scored_updates_today s p m (utc_date (clock k)))) as [|Hslot].
  { intros [= <- <- _]. split; [done|]. by left. }
  destruct (select_daily_winner fr (adapter_weights cfg)) as [e|] eqn:Hwin.
  2: { destruct fr; [|done]. intros [= <- <- _]. split; [|by left]. unfold result_ids. cbn. by rewrite <- Hall. }
  apply select_winner_elem in Hwin.
  destruct (resolve_weight _ _ =? 0)%float.
  { intros [= <- <- _]. split; [|by left]. unfold result_ids. cbn. by rewrite app_nil_r. }
  set (losers := List.filter _ _).
  assert (Hlose : se_event_id e :: losers ≡ₚ se_event_id <$> fr).
  { apply NoDup_app in Hnd as (_ & _ & Hnd). apply NoDup_Permutation; [|done|].
    - constructor; [|by apply NoDup_ListNoDup, List.NoDup_filter, NoDup_ListNoDup].
      rewrite list_elem_of_In. unfold losers. rewrite filter_In, bool_decide_eq_true. tauto.
    - intros i. rewrite elem_of_cons, !list_elem_of_In. unfold losers. rewrite filter_In, bool_decide_eq_true.
      rewrite <- !list_elem_of_In. split; [intros [->|[? _]]; [by apply list_elem_of_fmap_2|done]|].
      intros Hi. destruct (decide (i = se_event_id e)); tauto. }
  unfold wbind at 1, wjudge. cbn [fst snd].
  destruct (match judge _ content _ with Ok v => _ | Err e => _ end) as [v|err]; [|by intros [= <- <- _]].
  unfold wbind at 1, wlift at 1. destruct (of_exn (assert_same_epoch _ _)); [|by intros [= <- <- _]].
  unfold wbind at 1, wtry. cbn [fst snd]. destruct (current_q s p m) as [q|] eqn:Hq; [|by intros [= <- <- _]].
  unfold wbind at 1, wlift at 1. destruct (compute_new_q _ _ _ _ _) as [[new_q|]|] eqn:Hnew; cbn [of_exn];
    [| |by intros [= <- <- _]].
  2: { intros [= <- <- _]. split; [|by left]. unfold result_ids. cbn. rewrite <- Hall, <- Hlose. done. }
  unfold wbind, wscore. cbn [fst snd]. destruct (apply_q_update s p _) as [s1|] eqn:Happ; [|by intros [= <- <- _]].
  intros [= <- <- _]. split.
  - unfold result_ids. cbn. rewrite <- Hall, <- Hlose. by rewrite <- Permutation_middle.
  - right. eexists e, _. split; [done|]. split; [|exact Happ].
    destruct (Hfr e Hwin) as (? & ? & _). by split.
Qed.
End Effect.

(** ** Batch after batch *)

Record batch_call := mkBatchCall {
  bc_project : ProjectId;
  bc_memory : MemoryId;
  bc_content : pystr;
  bc_candidates : list ScoringEvent;
  bc_config : ScoringConfig;
  bc_epoch : Z;
}.

Section Batches.
Context {S : Type} `{!ScorerRepo S} (clock : nat → datetime).
Context (judge : nat → pystr → pystr → result lifecycle_error ContributionVerdict).

(** The store after a batch, whether it returned or raised. *)
Definition batch (σ : S * nat) (c : batch_call) : S * nat :=
  (run_scorer_batch clock judge (bc_project c) (bc_memory c) (bc_content c) (bc_candidates c)
     (bc_config c) (bc_epoch c) σ).2.

Definition batches (σ : S * nat) (cs : list batch_call) : S * nat := foldl batch σ cs.

Context `{!ScorerLaws S}.

Definition day_count (s : S) (p : ProjectId) (m : MemoryId) (day : Z) : Z :=
  Z.of_nat (length (List.filter (λ u, utc_date (q_scored_at u) =? day) (ledger s p m))).

(** What a batch does to the ledger of one memory. *)
Lemma batch_ledger σ c p m :
  ledger (batch σ c).1 p m = ledger σ.1 p m
  ∨ ∃ u, ledger (batch σ c).1 p m = ledger σ.1 p m ++ [u]
      ∧ q_event_id u ∉ q_event_id <$> ledger σ.1 p m
      ∧ day_count σ.1 p m (utc_date (q_scored_at u)) < updates_per_memory_per_day (bc_config c).
Proof.
  destruct σ as [s k]. unfold batch.
  destruct (run_scorer_batch _ _ _ _ _ _ _ _ (s, k)) as [res [s' k']] eqn:Hrun. cbn [fst snd].
  apply run_scorer_batch_effect in Hrun. destruct res as [r|]; [|subst s'; by left].
  destruct Hrun as (_ & [[_ ->]|(e & u & _ & Hsc & Happ)]); [by left|].
  rewrite (apply_ledger _ _ _ _ Happ p m). case_decide as Heq; [|by left]. injection Heq as -> ->.
  destruct Hsc as [_ Hm _ _ Hf Hslot Hn _ _ _ _]. rewrite Hm in *. rewrite applied_iff in Hf.
  rewrite decide_False by done. right. exists u. split_and!; [done|done|].
  unfold day_count. rewrite <- today_count. by rewrite Hn.
Qed.

Lemma batch_invariant σ c p m day cap : updates_per_memory_per_day (bc_config c) ≤ cap →
  (NoDup (q_event_id <$> ledger σ.1 p m) → NoDup (q_event_id <$> ledger (batch σ c).1 p m))
  ∧ day_count (batch σ c).1 p m day ≤ Z.max cap (day_count σ.1 p m day)
  ∧ ledger σ.1 p m `prefix_of` ledger (batch σ c).1 p m.
Proof.
  intros Hcap. destruct (batch_ledger σ c p m) as [Heq|(u & Heq & Hnew & Hday)].
  - unfold day_count. rewrite Heq. split_and!; [done|lia|done].
  - split_and!.
    + rewrite Heq, fmap_app. intros Hnd. apply NoDup_app. split_and!; [done| |apply NoDup_singleton].
      cbn. intros i Hi. rewrite list_elem_of_singleton. by intros ->.
    + unfold day_count in *. rewrite Heq, List.filter_app, length_app. cbn [List.filter].
      destruct (Z.eqb_spec (utc_date (q_scored_at u)) day) as [<-|]; cbn [length]; lia.
    + rewrite Heq. by apply prefix_app_r.
Qed.

Lemma batches_invariant cs σ p m day cap : Forall (λ c, updates_per_memory_per_day (bc_config c) ≤ cap) cs →
  (NoDup (q_event_id <$> ledger σ.1 p m) → NoDup (q_event_id <$> ledger (batches σ cs).1 p m))
  ∧ day_count (batches σ cs).1 p m day ≤ Z.max cap (day_count σ.1 p m day)
  ∧ ledger σ.1 p m `prefix_of` ledger (batches σ cs).1 p m.
Proof.
  revert σ. induction cs as [|c cs IH]; intros σ Hcs; [split_and!; [done|cbn; lia|done]|].
  apply Forall_cons in Hcs as [Hc Hcs]. destruct (batch_invariant σ c p m day cap Hc) as (H1 & H2 & H3).
  destruct (IH (batch σ c) Hcs) as (H4 & H5 & H6).
  change (batches σ (c :: cs)) with (batches (batch σ c) cs). split_and!; [tauto|lia|by etransitivity].
Qed.
End Batches.

(** ** The Postgres adapter (stores/pg/scoring.py) *)

Definition ledger_key (r : memory_q_update) : row_key := (qu_project_id r, qu_memory_id r).

(** [WHERE project_id = p AND memory_id = m]. *)
Definition ledger_rows (d : database) (p : ProjectId) (m : MemoryId) : list memory_q_update :=
  List.filter (λ r, bool_decide (ledger_key r = (p, m))) (q_updates d).

Definition pg_current_q (d : database) (p : ProjectId) (m : MemoryId) : result lifecycle_error float :=
  match items d !! (p, m) with
  | None => Err (LExn TracebedError)
  | Some c => Ok (c_q_value c)
  end.

Definition pg_applied_event_ids (d : database) (p : ProjectId) (m : MemoryId) : list uuid :=
  qu_event_id <$> ledger_rows d p m.

(** The half-open UTC range of the day. *)
Definition pg_scored_updates_today (d : database) (p : ProjectId) (m : MemoryId) (day : Z) : Z :=
  let day_start := timedelta_days day in
  Z.of_nat (length (List.filter (λ r, (day_start <=? dt_us (qu_scored_at r))
                                      && (dt_us (qu_scored_at r) <? day_start + timedelta_days 1))
                      (ledger_rows d p m))).

(** [_UPDATE_MEMORY_Q_SQL]. *)
Definition sql_score (u : QUpdate) (c : memory_columns) : memory_columns :=
  mkMemoryColumns (c_status c) (c_trust_tier c) (c_mem_type c) (c_provenance c) (c_status_changed_at c)
    (c_strike_count c) (c_last_retrieved_at c) (c_created_at c) (q_new_q u) (c_last_revalidated_at c)
    (c_scored_use_count c + 1) (Some (q_scored_at u)) (Some (q_epoch_id u)) (c_subject_tag c) (c_shadow_confirm_runs c)
    (c_hashes c).

Definition ledger_row (p : ProjectId) (u : QUpdate) : memory_q_update :=
  mkQUpdateRow p (q_memory_id u) (q_event_id u) (q_principal_id u) (q_previous_q u) (q_new_q u)
    (q_contribution u) (q_epoch_id u) (q_scored_at u).

(** Lock the row, insert into the ledger unless the event is there already, update. *)
Definition pg_apply_q_update (d : database) (p : ProjectId) (u : QUpdate) : result lifecycle_error database :=
  match items d !! (p, q_memory_id u) with
  | None => Err (LExn TracebedError)
  | Some c =>
      if bool_decide (q_event_id u ∈ qu_event_id <$> ledger_rows d p (q_memory_id u)) then Ok d
      else Ok (mkDb (<[(p, q_memory_id u) := sql_score u c]> (items d)) (status_log d) (review_queue d)
                 (memory_links d) (injections d) (outcomes d) (q_updates d ++ [ledger_row p u]))
  end.

#[export] Instance pg_scorer : ScorerRepo database := {|
  current_q := pg_current_q;
  applied_event_ids := pg_applied_event_ids;
  scored_updates_today := pg_scored_updates_today;
  apply_q_update := pg_apply_q_update;
|}.

Definition update_of (r : memory_q_update) : QUpdate :=
  mkQUpdate (qu_memory_id r) (qu_event_id r) (qu_principal_id r) (qu_previous_q r) (qu_new_q r)
    (qu_contribution r) (qu_epoch_id r) (qu_scored_at r).

Lemma in_day us day :
  (timedelta_days day <=? us) && (us <? timedelta_days day + timedelta_days 1) = (us / timedelta_days 1 =? day).
Proof.
  assert (Hpos : 0 < timedelta_days 1) by (unfold timedelta_days; lia).
  assert (Hday : timedelta_days day = timedelta_days 1 * day) by (unfold timedelta_days; lia).
  rewrite Hday. apply eq_true_iff_eq. rewrite andb_true_iff, Z.leb_le, Z.ltb_lt, Z.eqb_eq.
  split; [intros []; symmetry; apply Z.div_unique_pos with (us - timedelta_days 1 * day); lia|].
  intros <-. pose proof (Z.mul_div_le us (timedelta_days 1) Hpos).
  pose proof (Z.mul_succ_div_gt us (timedelta_days 1) Hpos). lia.
Qed.

#[export, refine] Instance pg_scorer_laws : ScorerLaws database := {|
  ledger d p m := update_of <$> ledger_rows d p m;
|}.
Proof.
  - intros d p m i. cbn. unfold pg_applied_event_ids. by rewrite <- list_fmap_compose.
  - intros d p m day. cbn. unfold pg_scored_updates_today. do 1 f_equal.
    rewrite List.filter_map_swap, length_map. f_equal. apply filter_ext. intros r. cbn. apply in_day.
  - intros d p u d'. cbn. unfold pg_apply_q_update. destruct (items d !! _) as [c|]; [|done].
    intros H p' m'.
    rewrite <- (list_fmap_compose update_of q_event_id).
    change (q_event_id ∘ update_of) with qu_event_id.
    destruct (decide (q_event_id u ∈ qu_event_id <$> ledger_rows d p (q_memory_id u))) as [Hin|Hout].
    + rewrite bool_decide_eq_true_2 in H by done. injection H as <-. case_decide as He; [|done]. by injection He as -> ->.
    + rewrite bool_decide_eq_false_2 in H by done. injection H as <-. unfold ledger_rows. cbn [q_updates].
      rewrite List.filter_app, fmap_app. cbn [List.filter]. unfold ledger_key at 2. cbn.
      case_decide as He; [injection He as -> ->; by rewrite bool_decide_eq_true_2; destruct u|].
      rewrite bool_decide_eq_false_2 by naive_solver. by rewrite app_nil_r.
Defined.

(** ** The ledger and the current values *)

Definition score_calls (d : database) (cs : list (ProjectId * QUpdate)) : database :=
  foldl (λ d c, match pg_apply_q_update d c.1 c.2 with Ok d' => d' | Err _ => d end) d cs.

Definition ledger_id (r : memory_q_update) : row_key * uuid := (ledger_key r, qu_event_id r).

(** The entries of one memory. *)
Definition of_key (k : row_key) : list memory_q_update → list memory_q_update :=
  List.filter (λ r, bool_decide (ledger_key r = k)).

(** A row after the updates [l], in order: the last one's values, all of them counted, and
    nothing else. *)
Record rescored (l : list memory_q_update) (c c' : memory_columns) : Prop := {
  rs_q : c_q_value c' = default (c_q_value c) (qu_new_q <$> last l);
  rs_uses : c_scored_use_count c' = c_scored_use_count c + Z.of_nat (length l);
  rs_at : c_last_scored_at c' = from_option (Some ∘ qu_scored_at) (c_last_scored_at c) (last l);
  rs_epoch : c_epoch_id c' = from_option (Some ∘ qu_epoch_id) (c_epoch_id c) (last l);
  rs_rest : ∀ k, let r := row_to_lifecycle_row k c in let r' := row_to_lifecycle_row k c' in
    l_status r' = l_status r ∧ row_columns_of r' = row_columns_of r ∧ l_strike_count r' = l_strike_count r
    ∧ l_status_changed_at r' = l_status_changed_at r;
}.

Lemma rescored_snoc l c c' p u : rescored l c c' → rescored (l ++ [ledger_row p u]) c (sql_score u c').
Proof.
  intros [H1 H2 H3 H4 H5]. split; [by rewrite last_snoc| |by rewrite last_snoc|by rewrite last_snoc|exact H5].
  cbn. rewrite H2, length_app. cbn. lia.
Qed.

Lemma score_calls_snoc d cs c :
  score_calls d (cs ++ [c])
  = match pg_apply_q_update (score_calls d cs) c.1 c.2 with Ok d' => d' | Err _ => score_calls d cs end.
Proof. unfold score_calls. by rewrite foldl_app. Qed.

Lemma ledger_id_mem d p m e : (p, m, e) ∈ ledger_id <$> q_updates d ↔ e ∈ qu_event_id <$> ledger_rows d p m.
Proof.
  unfold ledger_rows. rewrite !list_elem_of_fmap. split.
  - intros (r & Hk & Hr). exists r. injection Hk as -> -> ->. split; [done|].
    rewrite list_elem_of_In, filter_In, <- list_elem_of_In, bool_decide_eq_true. done.
  - intros (r & -> & Hr). rewrite list_elem_of_In, filter_In, <- list_elem_of_In, bool_decide_eq_true in Hr.
    destruct Hr as [Hr Hk]. exists r. split; [|done]. unfold ledger_id. by rewrite Hk.
Qed.

(** ** The tie-break *)

Definition weight_key (ws : list (pystr * float)) (e : ScoringEvent) : Z * Z * Z :=
  frank (- resolve_weight (se_adapter e) ws)%float.

Lemma resolve_weight_range a ws :
  resolve_weight a ws = 0%float
  ∨ (0 <? resolve_weight a ws)%float = true ∧ (resolve_weight a ws <=? 1)%float = true.
Proof.
  unfold resolve_weight. destruct (dict_get _ _) as [w|]; [|by left].
  destruct ((0 <? w)%float && (w <=? 1)%float) eqn:H; cbn [negb]; [|by left]. by right; bsplit.
Qed.

Lemma weight_not_nan a ws : not_nan (- resolve_weight a ws)%float.
Proof.
  apply opp_not_nan. destruct (resolve_weight_range a ws) as [->|[H _]]; [done|]. by apply ltb_not_nan in H as [_ H].
Qed.

(** The order as one of tuples of integers. *)
Definition event_key (ws : list (pystr * float)) (e : ScoringEvent) : (Z * Z * Z) * Z * N * N :=
  (weight_key ws e, dt_us (se_arrived_at e), uuid_int (RunId_value (se_run_id e)), uuid_int (se_event_id e)).

Definition event_lt (a b : (Z * Z * Z) * Z * N * N) : Prop :=
  let '(wa, ta, ra, ea) := a in let '(wb, tb, rb, eb) := b in
  lex_lt wa wb ∨ wa = wb ∧ (ta < tb ∨ ta = tb ∧ (ra < rb ∨ ra = rb ∧ ea < eb)%N).

Lemma event_ltb_key ws a b : event_ltb ws a b = true ↔ event_lt (event_key ws a) (event_key ws b).
Proof.
  unfold event_ltb, event_lt, event_key, weight_key.
  pose proof (weight_not_nan (se_adapter a) ws) as Ha. pose proof (weight_not_nan (se_adapter b) ws) as Hb.
  pose proof (eqb_rank _ _ Ha Hb) as He. pose proof (ltb_rank _ _ Ha Hb) as Hlt.
  set (wa := (- resolve_weight (se_adapter a) ws)%float) in *. set (wb := (- resolve_weight (se_adapter b) ws)%float) in *.
  destruct (wa =? wb)%float eqn:Heq; cbn [negb].
  2: { rewrite Hlt. split; [by left|]. intros [?|[Hr _]]; [done|]. by apply He in Hr. }
  assert (Hr : frank wa = frank wb) by by apply He.
  assert (Hn : ¬ lex_lt (frank wa) (frank wb)) by (rewrite Hr; apply lex_irrefl).
  destruct (Z.eqb_spec (dt_us (se_arrived_at a)) (dt_us (se_arrived_at b))) as [Ht|Ht]; cbn [negb].
  2: { rewrite Z.ltb_lt. split; [tauto|]. intros [?|[_ [?|[? _]]]]; [tauto|done|tauto]. }
  destruct (N.eqb_spec (uuid_int (RunId_value (se_run_id a))) (uuid_int (RunId_value (se_run_id b)))) as [Hu|Hu]; cbn [negb].
  - rewrite N.ltb_lt. split; [tauto|]. intros [?|[_ [?|[_ [?|[_ ?]]]]]]; [tauto|lia|lia|done].
  - rewrite N.ltb_lt. split; [tauto|]. intros [?|[_ [?|[_ [?|[? _]]]]]]; [tauto|lia|done|tauto].
Qed.

Lemma event_lt_trans a b c : event_lt a b → event_lt b c → event_lt a c.
Proof.
  destruct a as [[[wa ta] ra] ea], b as [[[wb tb] rb] eb], c as [[[wc tc] rc] ec]. cbn.
  intros [H1|[-> H1]] [H2|[-> H2]]; [left; by eapply lex_lt_trans|by left|by left|right; split; [done|lia]].
Qed.

Lemma event_lt_total a b : event_lt a b ∨ a = b ∨ event_lt b a.
Proof.
  destruct a as [[[wa ta] ra] ea], b as [[[wb tb] rb] eb]. cbn.
  destruct (lex_trichotomy wa wb) as [?|[->|?]]; [tauto| |tauto].
  destruct (Z.lt_trichotomy ta tb) as [?|[->|?]]; [tauto| |tauto].
  destruct (N.lt_trichotomy ra rb) as [?|[->|?]]; [tauto| |tauto].
  destruct (N.lt_trichotomy ea eb) as [?|[->|?]]; tauto.
Qed.

Lemma event_lt_irrefl a : ¬ event_lt a a.
Proof. destruct a as [[[w t] r] e]. cbn. intros [H|[_ H]]; [by eapply lex_irrefl|lia]. Qed.

(** The winner is below or level with every candidate. *)
Lemma py_min_least ws x xs : Forall (λ y, ¬ event_lt (event_key ws y) (event_key ws (py_min (event_ltb ws) x xs))) (x :: xs).
Proof.
  unfold py_min. revert x. induction xs as [|y xs IH]; intros x; cbn [foldl].
  { constructor; [apply event_lt_irrefl|constructor]. }
  set (b := if event_ltb ws y x then y else x). specialize (IH b). apply Forall_cons in IH as [Hb Hxs].
  set (w := foldl _ b xs) in *.
  assert (Hmin : ¬ event_lt (event_key ws x) (event_key ws b) ∧ ¬ event_lt (event_key ws y) (event_key ws b)).
  { unfold b. destruct (event_ltb ws y x) eqn:Hlt.
    - apply event_ltb_key in Hlt. split; [|apply event_lt_irrefl]. intros H.
      eapply event_lt_irrefl, event_lt_trans; eassumption.
    - split; [apply event_lt_irrefl|]. rewrite <- event_ltb_key. by rewrite Hlt. }
  assert (Hup : ∀ z, ¬ event_lt (event_key ws z) (event_key ws b) → ¬ event_lt (event_key ws z) (event_key ws w)).
  { intros z Hz Hzw. destruct (event_lt_total (event_key ws b) (event_key ws w)) as [?|[Heq|Hwb]]; [done| |].
    - by rewrite <- Heq in Hzw.
    - by apply Hz, (event_lt_trans _ _ _ Hzw). }
  repeat constructor; [apply Hup; tauto|apply Hup; tauto|done].
Qed.

Lemma key_same ws es a b : NoDup (se_event_id <$> es) → a ∈ es → b ∈ es → event_key ws a = event_key ws b → a = b.
Proof.
  intros Hnd Ha Hb Hk. apply (f_equal snd), uuid_eq in Hk.
  apply list_elem_of_lookup in Ha as [i Hi], Hb as [j Hj].
  assert (i = j) as -> by (eapply (NoDup_lookup (se_event_id <$> es) i j (se_event_id a)); [done| |];
    rewrite list_lookup_fmap; [by rewrite Hi|by rewrite Hj, Hk]).
  congruence.
Qed.

(** ** The direction of an update *)

Lemma require_unit_Ok v : require_unit_interval v = Ok tt ↔ (0 <=? v)%float = true ∧ (v <=? 1)%float = true.
Proof. unfold require_unit_interval. rewrite <- andb_true_iff. by destruct (_ && _). Qed.

Lemma compute_Some q r w c a q' : compute_new_q q r w c a = Ok (Some q') →
  ((0 <=? r)%float = true ∧ (r <=? 1)%float = true) ∧ (0 <=? c)%float = true
  ∧ ((0 <=? q)%float = true ∧ (q <=? 1)%float = true) ∧ nonneg a = true ∧ (w =? 0)%float = false
  ∧ clamp01 (q + a * w * c * (r - q))%float = Ok q'.
Proof.
  unfold compute_new_q. intros ([] & Hr%require_unit_Ok & H)%rbind_Ok. apply rbind_Ok in H as ([] & [Hc _]%require_unit_Ok & H).
  apply rbind_Ok in H as ([] & Hq%require_unit_Ok & H). apply rbind_Ok in H as ([] & Ha & H).
  unfold require_positive_rate in Ha. destruct (isfinite a) eqn:Hf; [|done]. destruct (a <=? 0)%float eqn:Hpos; [done|].
  destruct (w =? 0)%float; [done|]. destruct (c =? 0)%float; [done|]. cbn [orb] in H.
  apply rbind_Ok in H as (q1 & Hcl & [= ->]). split_and!; try done; [apply Hr..|apply Hq|apply Hq|]. by apply not_fleb_nonneg.
Qed.

Lemma clamp01_Ok v q : clamp01 v = Ok q → isfinite v = true
  ∧ (((v <? 0)%float = true ∧ q = 0%float) ∨ ((1 <? v)%float = true ∧ q = 1%float)
     ∨ ((0 <=? v)%float = true ∧ (v <=? 1)%float = true ∧ q = v)).
Proof.
  unfold clamp01. destruct (isfinite v) eqn:Hf; [|done]. pose proof (isfinite_not_nan v Hf) as Hn.
  destruct (v <? 0)%float eqn:H0; [intros [= <-]; auto|].
  destruct (1 <? v)%float eqn:H1; [intros [= <-]; auto|]. intros [= <-]. split; [done|]. right. right.
  pose proof (fltb_negb_leb v 0 Hn eq_refl) as E0. pose proof (fltb_negb_leb 1 v eq_refl Hn) as E1.
  rewrite H0 in E0. rewrite H1 in E1. auto.
Qed.

(** ** Theorems *)

(** [C24] An update moves Q toward the outcome, never away from it, whatever the rounding: with
    a weight the configuration yields, the new value is in [0, 1]; it is at least the old one
    if the reward is, and at most the old one if the reward is.  In particular a success
    never lowers Q and a failure never raises it. *)
Theorem q_moves_toward_outcome q r a ws c rate q' :
  compute_new_q q r (resolve_weight a ws) c rate = Ok (Some q') →
  (0 <=? q')%float = true ∧ (q' <=? 1)%float = true
  ∧ ((q <=? r)%float = true → (q <=? q')%float = true)
  ∧ ((r <=? q)%float = true → (q' <=? q)%float = true).
Proof.
  intros ((Hr0 & Hr1) & Hc & (Hq0 & Hq1) & Ha & Hw0 & Hcl)%compute_Some. apply clamp01_Ok in Hcl as [Hfin Hcl].
  assert (Hw : nonneg (resolve_weight a ws) = true).
  { destruct (resolve_weight_range a ws) as [Hz|[? _]]; [by rewrite Hz in Hw0|by apply fltb_nonneg]. }
  set (x := (rate * resolve_weight a ws * c * (r - q))%float) in *.
  pose proof (unit_interval q Hq0 Hq1) as Hq. pose proof (unit_interval r Hr0 Hr1) as Hr.
  assert (Hk : nonneg (rate * resolve_weight a ws * c)%float = true ∨ is_nan_sf (rate * resolve_weight a ws * c)%float).
  { destruct (mul_nonneg _ _ Ha Hw) as [H1|H1]; [|right; by apply mul_nan]. apply mul_nonneg; [done|by apply fleb_nonneg]. }
  assert (Hx : ¬ is_nan_sf x) by (intros H%(add_nan q); congruence).
  assert (Hup : (q <=? r)%float = true → nonneg_finite (q + x)%float = true ∧ (q <=? q + x)%float = true).
  { intros Hle%leb_scaled; [|done..]. apply add_ge; [done| |done].
    destruct Hk as [Hk|Hk]; [|destruct Hx; by apply mul_nan].
    destruct (proj1 (sub_sign r q Hr Hq) Hle) as [Hs|Hs]; [by destruct (mul_nonneg _ _ Hk Hs)|].
    destruct Hx. by apply mul_nan_r. }
  assert (Hdn : (r <=? q)%float = true → (q + x <=? q)%float = true).
  { intros Hle%leb_scaled; [|done..]. apply add_le; [done| |done].
    destruct Hk as [Hk|Hk]; [|destruct Hx; by apply mul_nan].
    destruct (proj2 (sub_sign r q Hr Hq) Hle) as [Hs|Hs]; [by destruct (mul_nonpos _ _ Hk Hs)|].
    destruct Hx. by apply mul_nan_r. }
  destruct Hcl as [[Hlt ->]|[[Hgt ->]|(H0 & H1 & ->)]].
  - split_and!; [done|done| |done]. intros Hle. destruct (Hup Hle) as [Hn _]. exfalso.
    apply ltb_scaled in Hlt; [|done|done]. pose proof (fscaled_nonneg _ Hn). change (fscaled 0) with 0 in Hlt. lia.
  - split_and!; [done|done|done|]. intros Hle. exfalso. specialize (Hdn Hle).
    apply (fltb_fleb_absurd 1 (q + x)); [done|]. by eapply fleb_trans.
  - split_and!; [done|done|intros Hle; by apply Hup|done].
Qed.


(** [C23] The daily cap and the replay ledger hold over any sequence of batches, with any
    candidates, verdicts and clock, finished or not: no event is in a memory's ledger twice,
    the ledger is only appended to, and no UTC day gets more updates than the cap (or than it
    had already). *)
Theorem scoring_cap_and_replay {S : Type} `{!ScorerRepo S, !ScorerLaws S} (clock : nat → datetime) judge
    (σ : S * nat) cs p m day cap :
  Forall (λ c, updates_per_memory_per_day (bc_config c) ≤ cap) cs →
  NoDup (q_event_id <$> ledger σ.1 p m) →
  NoDup (q_event_id <$> ledger (batches clock judge σ cs).1 p m)
  ∧ ledger σ.1 p m `prefix_of` ledger (batches clock judge σ cs).1 p m
  ∧ day_count (batches clock judge σ cs).1 p m day ≤ Z.max cap (day_count σ.1 p m day).
Proof. intros Hcs Hnd. destruct (batches_invariant clock judge cs σ p m day cap Hcs) as (H1 & H2 & H3). auto. Qed.

(** A batch accounts for every event: each distinct candidate is applied, a replay, short-
    circuited or over the cap, exactly one of them; it writes nothing unless it reports one
    update, and that update is the rule applied to a fresh candidate, for the memory's
    current Q, on a day with a slot left, stamped with the batch's instant and epoch. *)
Lemma batch_accounts_for_every_event {S : Type} `{!ScorerRepo S} (clock : nat → datetime) judge
    p m content es cfg epoch_id (s : S) k r s' k' :
  run_scorer_batch clock judge p m content es cfg epoch_id (s, k) = (Ok r, (s', k')) →
  NoDup (result_ids r) ∧ (∀ i, i ∈ result_ids r ↔ i ∈ se_event_id <$> es)
  ∧ ((applied r = [] ∧ s' = s)
     ∨ ∃ e u, applied r = [u] ∧ applies_rule p m cfg epoch_id s (clock k) es e u ∧ apply_q_update s p u = Ok s').
Proof.
  intros [Hids Hw]%run_scorer_batch_effect. destruct (fromkeys_spec (se_event_id <$> es)) as [Hnd Hin].
  split; [by rewrite Hids|]. split; [|done]. intros i. by rewrite Hids, Hin.
Qed.

(** The tie-break is total: among events with distinct ids the winner is the one strictly
    first by weight (highest), then arrival, then run, then event id; the order in which the
    store returned them does not matter. *)
Lemma daily_winner_exact es ws w :
  NoDup (se_event_id <$> es) →
  select_daily_winner es ws = Some w ↔
  w ∈ es ∧ ∀ e, e ∈ es → e ≠ w → event_lt (event_key ws w) (event_key ws e).
Proof.
  intros Hnd.
  assert (Hleast : ∀ w0, select_daily_winner es ws = Some w0 →
            w0 ∈ es ∧ ∀ e, e ∈ es → e ≠ w0 → event_lt (event_key ws w0) (event_key ws e)).
  { intros w0 Hw. split; [by eapply select_winner_elem|]. intros e He Hne.
    pose proof (select_winner_elem _ _ _ Hw) as Hin. destruct es as [|x xs]; [done|]. injection Hw as Hw.
    pose proof (py_min_least ws x xs) as Hall. rewrite Forall_forall in Hall. specialize (Hall e He). rewrite Hw in Hall.
    destruct (event_lt_total (event_key ws w0) (event_key ws e)) as [?|[Hk|?]]; [done| |done].
    destruct Hne. symmetry. by eapply key_same. }
  split; [apply Hleast|]. intros [Hin Hlt]. destruct (select_daily_winner es ws) as [w0|] eqn:Hw.
  - destruct (Hleast w0 eq_refl) as [Hin0 Hlt0]. destruct (decide (event_key ws w0 = event_key ws w)) as [Hk|Hk].
    + f_equal. by eapply key_same.
    + assert (w0 ≠ w) by congruence. destruct (event_lt_irrefl (event_key ws w)).
      eapply event_lt_trans; [by apply (Hlt w0)|]. by apply Hlt0.
  - destruct es; [by apply elem_of_nil in Hin|done].
Qed.

(** The ledger explains the current values: after any sequence of [apply_q_update] calls,
    with any updates, including ones that raise or repeat an event, every memory's Q value,
    use count, last scoring instant and epoch are those of the entries added for it to the
    ledger, in order; nothing else of the row changed, and no event is entered twice. *)
Lemma ledger_explains_scores d cs :
  NoDup (ledger_id <$> q_updates d) →
  NoDup (ledger_id <$> q_updates (score_calls d cs))
  ∧ ∃ added, q_updates (score_calls d cs) = q_updates d ++ added
    ∧ ∀ k, match items d !! k, items (score_calls d cs) !! k with
           | Some c, Some c' => rescored (of_key k added) c c'
           | None, None => True
           | _, _ => False
           end.
Proof.
  intros Hnd. induction cs as [|[p u] cs IH] using rev_ind.
  { split; [done|]. exists []. rewrite app_nil_r. split; [done|]. intros k. cbn.
    destruct (items d !! k); [|done]. split; cbn; try done. lia. }
  rewrite score_calls_snoc. cbn [fst snd]. destruct IH as (Hnd' & added & Hq & Hk).
  unfold pg_apply_q_update. set (d' := score_calls d cs) in *.
  destruct (items d' !! _) as [c0|] eqn:Hc0; [|split; [done|]; by exists added].
  case_bool_decide as Hdup; [split; [done|]; by exists added|]. cbn [q_updates items]. split.
  - rewrite fmap_app. apply NoDup_app. split_and!; [done| |apply NoDup_singleton].
    intros x Hx. cbn. rewrite list_elem_of_singleton. intros ->. by apply ledger_id_mem in Hx.
  - exists (added ++ [ledger_row p u]). split; [by rewrite Hq, app_assoc|]. intros k.
    specialize (Hk k). unfold of_key. rewrite List.filter_app. fold (of_key k added). cbn [List.filter].
    unfold ledger_key. cbn [ledger_row qu_project_id qu_memory_id]. destruct (decide ((p, q_memory_id u) = k)) as [<-|Hne].
    + rewrite lookup_insert_eq, bool_decide_eq_true_2 by done. rewrite Hc0 in Hk.
      destruct (items d !! _); [|done]. by apply rescored_snoc.
    + rewrite lookup_insert_ne, bool_decide_eq_false_2, app_nil_r by done. done.
Qed.

(** ** Concrete inputs *)

Definition weights_ex : list (pystr * float) :=
  [(of_ascii "verdict", 1%float); (of_ascii "correction_adapter", 0.8%float); (of_ascii "downstream", 0.3%float);
   (of_ascii "implicit", 0%float)].

Definition scoring_ex : ScoringConfig := mkScoringConfig 0.3 weights_ex 1.

Definition event_ex (n : N) (H : Is_true (N.ltb n (2 ^ 128))) (a : AdapterClass) (r : float) : ScoringEvent :=
  mkEvent (mkUUID n H) (mkRunId (mkUUID 7 I)) (memory_ex 5 I) a r (mkPrincipalId (mkUUID 11 I)) (instant 50) [].

Definition judge_ex (i : nat) (content summary : pystr) : result lifecycle_error ContributionVerdict :=
  Ok (mkVerdict 1 9).

Definition events_ex : list ScoringEvent := [event_ex 21 I A_DOWNSTREAM 1; event_ex 22 I A_VERDICT 1].

Definition call_ex : batch_call := mkBatchCall project_ex (memory_ex 5 I) [] events_ex scoring_ex 9.

Lemma scoring_cap_and_replay_witness :
  day_count (batches (λ _, instant 60) judge_ex (db_ex, 0%nat) [call_ex; call_ex]).1 project_ex (memory_ex 5 I) 60 ≤ 1.
Proof.
  destruct (scoring_cap_and_replay (λ _, instant 60) judge_ex (db_ex, 0%nat) [call_ex; call_ex] project_ex
              (memory_ex 5 I) 60 1) as (_ & _ & H).
  - repeat constructor; done.
  - constructor.
  - exact H.
Defined.

Lemma batch_accounts_for_every_event_witness :
  ∃ r σ, run_scorer_batch (λ _, instant 60) judge_ex project_ex (memory_ex 5 I) [] events_ex scoring_ex 9 (db_ex, 0%nat)
         = (Ok r, σ) ∧ applied r ≠ [] ∧ NoDup (result_ids r).
Proof.
  destruct (run_scorer_batch (λ _, instant 60) judge_ex project_ex (memory_ex 5 I) [] events_ex scoring_ex 9 (db_ex, 0%nat))
    as [[r|e] [s' k']] eqn:Hrun.
  - exists r, (s', k'). split; [done|]. split.
    + assert (Hap : length (match (run_scorer_batch (λ _, instant 60) judge_ex project_ex (memory_ex 5 I) [] events_ex
                       scoring_ex 9 (db_ex, 0%nat)).1 with Ok r => applied r | Err _ => [] end) = 1%nat)
        by (vm_compute; reflexivity).
      rewrite Hrun in Hap. cbn in Hap. intros Hnil. by rewrite Hnil in Hap.
    + apply (batch_accounts_for_every_event (λ _, instant 60) judge_ex project_ex (memory_ex 5 I) [] events_ex scoring_ex 9
               db_ex 0%nat r s' k' Hrun).
  - exfalso. assert (Hok : is_ok (run_scorer_batch (λ _, instant 60) judge_ex project_ex (memory_ex 5 I) [] events_ex
                              scoring_ex 9 (db_ex, 0%nat)).1 = true) by (vm_compute; reflexivity).
    by rewrite Hrun in Hok.
Defined.

Lemma daily_winner_exact_witness : select_daily_winner events_ex weights_ex = Some (event_ex 22 I A_VERDICT 1).
Proof.
  apply (daily_winner_exact events_ex weights_ex (event_ex 22 I A_VERDICT 1)).
  - apply (bool_decide_unpack _). vm_compute. exact I.
  - split; [right; left|]. intros e [->|[->|[]%elem_of_nil]%elem_of_cons]%elem_of_cons Hne; [|done].
    apply event_ltb_key. vm_compute. reflexivity.
Defined.

Lemma ledger_explains_scores_witness :
  NoDup (ledger_id <$> q_updates (score_calls db_ex
    [(project_ex, mkQUpdate (memory_ex 5 I) (mkUUID 22 I) (mkPrincipalId (mkUUID 11 I)) 0.5 0.65 1 9 (instant 60));
     (project_ex, mkQUpdate (memory_ex 5 I) (mkUUID 22 I) (mkPrincipalId (mkUUID 11 I)) 0.65 0.755 1 9 (instant 61))])).
Proof. apply (ledger_explains_scores db_ex _). constructor. Defined.

Lemma q_moves_toward_outcome_witness : ∃ q', compute_new_q 0.5 1 (resolve_weight A_DOWNSTREAM weights_ex) 0.5 0.3 = Ok (Some q')
  ∧ (0.5 <=? q')%float = true.
Proof.
  eexists. split; [vm_compute; reflexivity|].
  apply (q_moves_toward_outcome 0.5 1 A_DOWNSTREAM weights_ex 0.5 0.3); [vm_compute; reflexivity|reflexivity].
Defined.
