(* ===== verification/Epochs.v ===== *)
(** * Scoring epochs (workers/epochs.py)

    An epoch is identified by the judge's pin (model, version, sampling parameters, prompt
    hash); workers with different pins share one table of epochs.  The store behind
    [EpochStorePort] is a class with its documented contract (insert or return existing, by
    pin); the values of the sampling parameters are of any type with decidable equality. *)

From S2P Require Import Prelude Domain PyText.
Open Scope Z_scope.

Section Epochs.
Context {V : Type} `{!EqDecision V}.

(** [sampling_params] is a mapping: its order does not matter. *)
Record JudgePin := mkPin {
  judge_model_id : pystr;
  judge_model_version : pystr;
  sampling_params : gmap pystr V;
  prompt_hash : pystr;
}.

#[export] Instance JudgePin_eq_dec : EqDecision JudgePin.
Proof. solve_decision. Defined.

Record ScoringEpoch := mkEpoch { ep_epoch_id : Z; ep_pin : JudgePin; ep_started_at : datetime }.

(** [ScoringEpoch.__post_init__]; [EpochStoreViolation] is a [TracebedError]. *)
Definition epoch_post_init (e : ScoringEpoch) : result exn ScoringEpoch :=
  check! dt_aware (ep_started_at e) else TracebedError in Ok e.

Class EpochStore (S : Type) := {
  current_epoch : S → option ScoringEpoch;
  start_epoch : S → JudgePin → datetime → result exn (ScoringEpoch * S);
}.

Definition resolve_epoch {S} `{!EpochStore S} (pin : JudgePin) (n : datetime) (s : S)
  : result exn (ScoringEpoch * S) :=
  match current_epoch s with
  | Some c =>
      if bool_decide (ep_pin c = pin) then Ok (c, s)
      else
        let! started := start_epoch s pin n in
        check! bool_decide (ep_pin started.1 = pin) else TracebedError in Ok started
  | None =>
      let! started := start_epoch s pin n in
      check! bool_decide (ep_pin started.1 = pin) else TracebedError in Ok started
  end.

(** The contract of [EpochStorePort]: the rows ever started; [start_epoch] returns the row of
    that pin, or adds one with an id of its own. *)
Class EpochStoreLaws (S : Type) `{!EpochStore S} := {
  epoch_rows : S → list ScoringEpoch;
  current_row : ∀ s e, current_epoch s = Some e → e ∈ epoch_rows s;
  start_existing : ∀ s pin n e s', start_epoch s pin n = Ok (e, s') → pin ∈ ep_pin <$> epoch_rows s →
    e ∈ epoch_rows s ∧ ep_pin e = pin ∧ epoch_rows s' = epoch_rows s;
  start_new : ∀ s pin n e s', start_epoch s pin n = Ok (e, s') → pin ∉ ep_pin <$> epoch_rows s →
    ep_pin e = pin ∧ ep_epoch_id e ∉ ep_epoch_id <$> epoch_rows s ∧ epoch_rows s' = epoch_rows s ++ [e];
  start_total : ∀ s pin n, dt_aware n = true → ∃ r, start_epoch s pin n = Ok r;
}.

Section Contract.
Context {S : Type} `{!EpochStore S, !EpochStoreLaws S}.

(** One row per pin and per id. *)
Definition pinned_once (s : S) : Prop :=
  NoDup (ep_pin <$> epoch_rows s) ∧ NoDup (ep_epoch_id <$> epoch_rows s).

Lemma started_row s pin n e s' : pinned_once s → start_epoch s pin n = Ok (e, s') →
  pinned_once s' ∧ e ∈ epoch_rows s' ∧ ep_pin e = pin ∧ epoch_rows s `prefix_of` epoch_rows s'.
Proof.
  intros [Hp Hi] Hst. destruct (decide (pin ∈ ep_pin <$> epoch_rows s)) as [Hin|Hout].
  - destruct (start_existing _ _ _ _ _ Hst Hin) as (? & ? & Hrows). unfold pinned_once. by rewrite Hrows.
  - destruct (start_new _ _ _ _ _ Hst Hout) as (Hpin & Hid & Hrows). unfold pinned_once. rewrite Hrows, !fmap_app.
    split; [|split_and!; [apply elem_of_app; right; by left|done|by apply prefix_app_r]].
    split; apply NoDup_app; (split_and!; [done| |apply NoDup_singleton]); intros x Hx ->%list_elem_of_singleton; [|done].
    by rewrite Hpin in Hx.
Qed.

Lemma resolve_row pin n s : pinned_once s → dt_aware n = true →
  ∃ e s', resolve_epoch pin n s = Ok (e, s')
    ∧ pinned_once s' ∧ e ∈ epoch_rows s' ∧ ep_pin e = pin ∧ epoch_rows s `prefix_of` epoch_rows s'.
Proof.
  intros Hs Hn. assert (Hstart : ∃ e s', (let! started := start_epoch s pin n in
      check! bool_decide (ep_pin started.1 = pin) else TracebedError in Ok started) = Ok (e, s')
    ∧ pinned_once s' ∧ e ∈ epoch_rows s' ∧ ep_pin e = pin ∧ epoch_rows s `prefix_of` epoch_rows s').
  { destruct (start_total s pin n Hn) as [[e s'] Hst]. exists e, s'.
    destruct (started_row _ _ _ _ _ Hs Hst) as (? & ? & Hpin & ?). rewrite Hst. cbn.
    by rewrite bool_decide_eq_true_2. }
  unfold resolve_epoch. destruct (current_epoch s) as [c|] eqn:Hc; [|done]. case_bool_decide as Hpin; [|done].
  exists c, s. split_and!; [done|done|by apply current_row|done|done].
Qed.

(** Several workers, each with its pin, resolving one after the other. *)
Fixpoint resolves (clock : nat → datetime) (k : nat) (pins : list JudgePin) (s : S)
  : result exn (list ScoringEpoch * S) :=
  match pins with
  | [] => Ok ([], s)
  | pin :: pins' =>
      let! r := resolve_epoch pin (clock k) s in
      let! rs := resolves clock (1 + k)%nat pins' r.2 in
      Ok (r.1 :: rs.1, rs.2)
  end.

Lemma resolves_rows clock k pins s : pinned_once s → (∀ i, dt_aware (clock i) = true) →
  ∃ es s', resolves clock k pins s = Ok (es, s') ∧ ep_pin <$> es = pins
    ∧ pinned_once s' ∧ Forall (λ e, e ∈ epoch_rows s') es ∧ epoch_rows s `prefix_of` epoch_rows s'.
Proof.
  intros Hs Hn. revert k s Hs. induction pins as [|pin pins IH]; intros k s Hs; cbn [resolves].
  { exists [], s. by split_and!. }
  destruct (resolve_row pin (clock k) s Hs (Hn k)) as (e & s1 & -> & Hs1 & He & Hpin & Hpre). cbn [rbind fst snd].
  destruct (IH (1 + k)%nat s1 Hs1) as (es & s2 & -> & Hpins & Hs2 & Hall & Hpre2). cbn [rbind fst snd].
  exists (e :: es), s2. split_and!; [done|cbn; by rewrite Hpins, Hpin|done| |by etransitivity].
  constructor; [|done]. destruct Hpre2 as [rest ->]. apply elem_of_app. by left.
Qed.

Lemma same_id_same_row s e e' : pinned_once s → e ∈ epoch_rows s → e' ∈ epoch_rows s →
  (ep_epoch_id e = ep_epoch_id e' ↔ ep_pin e = ep_pin e').
Proof.
  intros [Hp Hi] He He'. apply list_elem_of_lookup in He as [i He], He' as [j He'].
  assert (Hij : ∀ {B} (f : ScoringEpoch → B), NoDup (f <$> epoch_rows s) → f e = f e' → e = e').
  { intros B f Hnd Hf. assert (i = j) as ->; [|congruence].
    eapply (NoDup_lookup (f <$> epoch_rows s) i j (f e)); [done| |]; rewrite list_lookup_fmap; [by rewrite He|by rewrite He', Hf]. }
  split; [intros H%(Hij _ ep_epoch_id Hi); by subst|intros H%(Hij _ ep_pin Hp); by subst].
Qed.
End Contract.

(** ** A table of epochs that keeps the contract *)

Definition epoch_table : Type := list ScoringEpoch.

Definition next_id (t : epoch_table) : Z := 1 + foldr Z.max 0 (ep_epoch_id <$> t).

#[export] Instance table_epochs : EpochStore epoch_table := {|
  current_epoch t := last t;
  start_epoch t pin n :=
    match List.find (λ e, bool_decide (ep_pin e = pin)) t with
    | Some e => Ok (e, t)
    | None => let! e := epoch_post_init (mkEpoch (next_id t) pin n) in Ok (e, t ++ [e])
    end;
|}.

#[export, refine] Instance table_epoch_laws : EpochStoreLaws epoch_table := {| epoch_rows t := t |}.
Proof.
  - intros t e H. by apply last_Some_elem_of in H.
  - intros t pin n e t'. cbn. destruct (List.find _ t) as [e0|] eqn:Hf.
    + intros [= <- <-] _. apply find_some in Hf as [Hin Hp%bool_decide_eq_true]. by rewrite list_elem_of_In.
    + intros _ (e0 & -> & He0)%list_elem_of_fmap. apply list_elem_of_In in He0. eapply find_none in Hf; [|exact He0].
      by apply bool_decide_eq_false in Hf.
  - intros t pin n e t'. cbn. destruct (List.find _ t) as [e0|] eqn:Hf.
    + intros _ Hni. apply find_some in Hf as [Hin Hp%bool_decide_eq_true]. destruct Hni. rewrite <- Hp.
      apply list_elem_of_fmap_2. by apply list_elem_of_In.
    + unfold epoch_post_init. destruct (dt_aware _); [|done]. intros [= <- <-] _. cbn. split_and!; [done| |done].
      intros Hin. assert (∀ l x, x ∈ l → x ≤ foldr Z.max 0 l) as Hmax
        by (clear; induction l as [|y l IH]; intros x; [by intros ?%elem_of_nil|]; intros [->|?%IH]%elem_of_cons; cbn; lia).
      apply Hmax in Hin. unfold next_id in Hin. lia.
  - intros t pin n Hn. cbn. destruct (List.find _ t); [by eexists|]. unfold epoch_post_init. cbn. rewrite Hn. by eexists.
Defined.
End Epochs.
Arguments JudgePin V : clear implicits.
Arguments ScoringEpoch V : clear implicits.
Arguments epoch_table V : clear implicits.

(** An epoch is its pin: whatever the order in which workers with different judges
    resolve their epochs, every resolution succeeds, two of them give the same epoch id if and
    only if their pins are the same, and no epoch already recorded is changed.  In particular
    alternating workers settle on one epoch each. *)
Lemma epoch_identity_is_pin {V : Type} `{!EqDecision V} {S : Type} `{!EpochStore (V := V) S, !EpochStoreLaws S}
    clock (pins : list (JudgePin V)) (s : S) :
  pinned_once s → (∀ i, dt_aware (clock i) = true) →
  ∃ es s', resolves clock 0 pins s = Ok (es, s') ∧ ep_pin <$> es = pins
    ∧ (∀ e e', e ∈ es → e' ∈ es → ep_epoch_id e = ep_epoch_id e' ↔ ep_pin e = ep_pin e')
    ∧ epoch_rows s `prefix_of` epoch_rows s'.
Proof.
  intros Hs Hn. destruct (resolves_rows clock 0 pins s Hs Hn) as (es & s' & Hr & Hp & Hs' & Hall & Hpre).
  exists es, s'. split_and!; try done. rewrite Forall_forall in Hall. intros e e' He He'.
  by eapply same_id_same_row; [exact Hs'|apply Hall..].
Qed.

Definition pin_ex (model : string) : JudgePin Z := mkPin (of_ascii model) (of_ascii model) {[ of_ascii "max_tokens" := 8 ]} [].

Lemma epoch_identity_is_pin_witness :
  ∃ es s', resolves (λ _, mkDatetime 0 true) 0 [pin_ex "judge"; pin_ex "distiller"; pin_ex "judge"] ([] : epoch_table Z) = Ok (es, s')
    ∧ ep_pin <$> es = [pin_ex "judge"; pin_ex "distiller"; pin_ex "judge"].
Proof.
  destruct (epoch_identity_is_pin (λ _, mkDatetime 0 true) [pin_ex "judge"; pin_ex "distiller"; pin_ex "judge"]
              ([] : epoch_table Z)) as (es & s' & Hr & Hp & _).
  - split; constructor.
  - done.
  - exists es, s'. split; [exact Hr|exact Hp].
Defined.
