(* ===== verification/Consolidation.v ===== *)
(** * Incremental consolidation (workers/deltas.py, workers/consolidator.py)

    A consolidated memory is an ordered set of named elements; the only way to change it is a
    delta that adds, amends or removes one of them, and every applied delta is recorded.  The
    theorems say what a sweep does to the set, and that the record alone gives back every
    earlier state. *)

From S2P Require Import Prelude Domain PyText.
Open Scope Z_scope.

Inductive DeltaOp := D_ADD | D_REMOVE | D_AMEND.

#[export] Instance DeltaOp_eq_dec : EqDecision DeltaOp.
Proof. solve_decision. Defined.

Record Element := mkElement { el_name : pystr; el_text : pystr }.

#[export] Instance Element_eq_dec : EqDecision Element.
Proof. solve_decision. Defined.

Definition element_post_init (e : Element) : result exn Element :=
  check! negb (py_blank (el_name e)) else ValueError in
  check! negb (py_blank (el_text e)) else ValueError in
  Ok e.

Record Delta := mkDelta { d_op : DeltaOp; d_name : pystr; d_text : option pystr }.

Definition delta_post_init (d : Delta) : result exn Delta :=
  check! negb (py_blank (d_name d)) else ValueError in
  match d_op d, d_text d with
  | D_REMOVE, Some _ => Err ValueError
  | D_REMOVE, None => Ok d
  | _, None => Err ValueError
  | _, Some t => check! negb (py_blank t) else ValueError in Ok d
  end.

(** [ElementSet.elements]. *)
Abbreviation ElementSet := (list Element).

Definition elementset_post_init (es : ElementSet) : result exn ElementSet :=
  check! bool_decide (NoDup (el_name <$> es)) else ValueError in Ok es.

Definition by_name (es : ElementSet) : list (pystr * Element) := dict_of ((λ e, (el_name e, e)) <$> es).

(** [ElementSet.render]: the texts, a newline between them. *)
Fixpoint render_elements (es : ElementSet) : pystr :=
  match es with
  | [] => []
  | [e] => el_text e
  | e :: es' => el_text e ++ [10] ++ render_elements es'
  end.

Definition required_text (d : Delta) : result exn pystr :=
  match d_text d with None => Err ValueError | Some t => Ok t end.

Definition apply_delta (state : ElementSet) (d : Delta) : result exn ElementSet :=
  let present := bool_decide (is_Some (dict_get (by_name state) (d_name d))) in
  let! new_elements :=
    match d_op d with
    | D_ADD =>
        check! negb present else ValueError in
        let! t := required_text d in
        let! e := element_post_init (mkElement (d_name d) t) in
        Ok (state ++ [e])
    | D_AMEND =>
        check! present else ValueError in
        let! t := required_text d in
        rmap (λ e, if bool_decide (el_name e = d_name d) then element_post_init (mkElement (el_name e) t) else Ok e) state
    | D_REMOVE =>
        check! present else ValueError in
        Ok (List.filter (λ e, bool_decide (el_name e ≠ d_name d)) state)
    end in
  elementset_post_init new_elements.

Fixpoint apply_deltas (state : ElementSet) (ds : list Delta) : result exn ElementSet :=
  match ds with
  | [] => Ok state
  | d :: ds' => let! state' := apply_delta state d in apply_deltas state' ds'
  end.

Record DeltaRecord := mkRecord {
  dr_memory_id : MemoryId; dr_sweep : Z; dr_delta : Delta; dr_applied_at : datetime }.

Definition record_post_init (r : DeltaRecord) : result exn DeltaRecord :=
  check! 0 <=? dr_sweep r else ValueError in Ok r.

(** The loop of [reconstruct] from a given state; it stops at the first record of a later
    sweep. *)
Fixpoint replay_log (state : ElementSet) (upto_sweep : option Z) (records : list DeltaRecord)
  : result exn ElementSet :=
  match records with
  | [] => Ok state
  | r :: rs =>
      if match upto_sweep with Some n => n <=? dr_sweep r | None => false end then Ok state
      else let! state' := apply_delta state (dr_delta r) in replay_log state' upto_sweep rs
  end.

Definition reconstruct (records : list DeltaRecord) (upto_sweep : option Z) : result exn ElementSet :=
  replay_log [] upto_sweep records.

Record ConsolidationOutcome := mkConsolidation {
  co_memory_id : MemoryId;
  co_sweep : Z;
  co_before : ElementSet;
  co_after : ElementSet;
  co_deltas : list Delta;
  co_records : list DeltaRecord;
}.

(** The delta of one incoming element, if any. *)
Definition diff_element (existing : list (pystr * Element)) (e : Element) : result exn (option Delta) :=
  match dict_get existing (el_name e) with
  | None => let! d := delta_post_init (mkDelta D_ADD (el_name e) (Some (el_text e))) in Ok (Some d)
  | Some current =>
      if bool_decide (el_text current ≠ el_text e)
      then let! d := delta_post_init (mkDelta D_AMEND (el_name e) (Some (el_text e))) in Ok (Some d)
      else Ok None
  end.

Definition record_all (m : MemoryId) (sweep : Z) (n : datetime) (ds : list Delta) : result exn (list DeltaRecord) :=
  rmap (λ d, record_post_init (mkRecord m sweep d n)) ds.

Definition consolidate (m : MemoryId) (state : ElementSet) (incoming : list Element) (sweep : Z) (n : datetime)
  : result exn ConsolidationOutcome :=
  check! bool_decide (NoDup (el_name <$> incoming)) else ValueError in
  let! found := rmap (diff_element (by_name state)) incoming in
  let deltas := omap id found in
  let! after := apply_deltas state deltas in
  let! records := record_all m sweep n deltas in
  Ok (mkConsolidation m sweep state after deltas records).

Definition retract (m : MemoryId) (state : ElementSet) (name : pystr) (sweep : Z) (n : datetime)
  : result exn ConsolidationOutcome :=
  check! bool_decide (is_Some (dict_get (by_name state) name)) else KeyError in
  let! d := delta_post_init (mkDelta D_REMOVE name None) in
  let! after := apply_deltas state [d] in
  let! records := record_all m sweep n [d] in
  Ok (mkConsolidation m sweep state after [d] records).

(** ** Elements as a dict *)

Definition pairs (es : ElementSet) : list (pystr * Element) := (λ e, (el_name e, e)) <$> es.

(** [d[name] = element]. *)
Definition upsert (es : ElementSet) (e : Element) : ElementSet := (dict_set (pairs es) (el_name e) e).*2.

Lemma pairs_keys es : (pairs es).*1 = el_name <$> es.
Proof. unfold pairs. by rewrite <- list_fmap_compose. Qed.

Lemma pairs_values es : (pairs es).*2 = es.
Proof. unfold pairs. rewrite <- list_fmap_compose. by apply list_fmap_id. Qed.

Lemma pairs_upsert es e : pairs (upsert es e) = dict_set (pairs es) (el_name e) e.
Proof.
  unfold upsert. induction es as [|e' es IH]; [done|]. cbn. case_bool_decide as Heq; cbn.
  - fold (pairs es). rewrite pairs_values. fold (pairs es). by rewrite Heq.
  - f_equal. exact IH.
Qed.

Lemma upsert_names es e : NoDup (el_name <$> es) → NoDup (el_name <$> upsert es e).
Proof. rewrite <- !pairs_keys, pairs_upsert. apply dict_set_NoDup. Qed.

Lemma by_name_pairs es : NoDup (el_name <$> es) → by_name es = pairs es.
Proof. rewrite <- pairs_keys. apply dict_of_NoDup. Qed.

Lemma dict_set_same {K V} `{EqDecision K} (d : list (K * V)) k v : dict_get d k = Some v → dict_set d k v = d.
Proof.
  induction d as [|[k' v'] d IH]; cbn; [done|]. case_bool_decide; [by intros [= ->]|]. intros Hg. by rewrite IH.
Qed.

Lemma upsert_new es e : el_name e ∉ el_name <$> es → upsert es e = es ++ [e].
Proof.
  rewrite <- pairs_keys. intros H. unfold upsert. rewrite dict_set_new by done.
  by rewrite fmap_app, pairs_values.
Qed.

(** Amending in place. *)
Lemma amend_upsert es e : NoDup (el_name <$> es) → el_name e ∈ el_name <$> es → element_post_init e = Ok e →
  rmap (λ e', if bool_decide (el_name e' = el_name e) then element_post_init (mkElement (el_name e') (el_text e)) else Ok e') es
  = Ok (upsert es e).
Proof.
  intros Hnd Hin He. unfold upsert. induction es as [|e' es IH]; [by apply elem_of_nil in Hin|].
  cbn in Hnd. apply NoDup_cons in Hnd as [Hni Hnd]. cbn. case_bool_decide as Heq.
  - rewrite Heq. assert (mkElement (el_name e) (el_text e) = e) as -> by by destruct e. rewrite He. cbn.
    rewrite pairs_values. assert (Hid : rmap (E := exn) Ok es = Ok es) by (clear; induction es as [|x es IH]; cbn; [done|by rewrite IH]).
    rewrite (rmap_ext _ Ok); [by rewrite Hid|].
    intros x Hx. rewrite bool_decide_eq_false_2; [done|]. intros Hc. apply Hni. rewrite Heq, <- Hc.
    by apply list_elem_of_fmap_2.
  - cbn. rewrite IH; [done|done|]. cbn in Hin. apply elem_of_cons in Hin as [Hin|Hin]; [congruence|done].
Qed.

Lemma names_ok es : NoDup (el_name <$> es) → elementset_post_init es = Ok es.
Proof. intros H. unfold elementset_post_init. by rewrite bool_decide_eq_true_2. Qed.

Lemma present_iff es n : NoDup (el_name <$> es) →
  bool_decide (is_Some (dict_get (by_name es) n)) = bool_decide (n ∈ el_name <$> es).
Proof.
  intros Hnd. rewrite by_name_pairs by done. apply bool_decide_ext. rewrite <- pairs_keys.
  rewrite <- not_eq_None_Some, dict_get_None. split; [apply dec_stable|tauto].
Qed.

(** One element of a sweep: its delta, applied, is the dict assignment. *)
Lemma diff_applies st0 st e : NoDup (el_name <$> st) → element_post_init e = Ok e →
  dict_get (by_name st0) (el_name e) = dict_get (by_name st) (el_name e) →
  ∃ od, diff_element (by_name st0) e = Ok od
    ∧ match od with None => Ok st | Some d => apply_delta st d end = Ok (upsert st e)
    ∧ (∀ d, od = Some d → d_op d ≠ D_REMOVE ∧ d_name d = el_name e).
Proof.
  intros Hnd He Hget. unfold diff_element. rewrite Hget.
  assert (Hd : ∀ op, op ≠ D_REMOVE → delta_post_init (mkDelta op (el_name e) (Some (el_text e)))
                                     = Ok (mkDelta op (el_name e) (Some (el_text e)))).
  { intros op Hop. revert He. unfold element_post_init, delta_post_init. cbn [d_op d_name d_text].
    destruct (py_blank (el_name e)); [done|]. destruct (py_blank (el_text e)); [done|]. intros _. by destruct op. }
  assert (Hmk : mkElement (el_name e) (el_text e) = e) by by destruct e.
  destruct (dict_get (by_name st) (el_name e)) as [cur|] eqn:Hcur.
  - assert (Hin : el_name e ∈ el_name <$> st).
    { rewrite by_name_pairs, <- pairs_keys in * by done. apply dict_get_Some_elem in Hcur.
      apply list_elem_of_fmap. by exists (el_name e, cur). }
    case_bool_decide as Htext.
    + rewrite Hd by done. cbn. eexists. split; [done|]. split; [|by intros d [= <-]].
      unfold apply_delta. cbn [d_op d_name]. rewrite present_iff, bool_decide_eq_true_2 by done. cbn.
      rewrite (amend_upsert st e) by done. cbn. by apply names_ok, upsert_names.
    + exists None. split; [done|]. split; [|done]. f_equal.
      rewrite by_name_pairs in Hcur by done. unfold upsert.
      assert (cur = e) as ->.
      { apply dict_get_Some_elem in Hcur. apply list_elem_of_fmap in Hcur as (e0 & [= Hn ->] & _).
        destruct e, e0; cbn in *; congruence. }
      by rewrite dict_set_same, pairs_values.
  - rewrite Hd by done. cbn. eexists. split; [done|]. split; [|by intros d [= <-]].
    assert (Hout : el_name e ∉ el_name <$> st).
    { rewrite by_name_pairs, <- pairs_keys in * by done. by apply dict_get_None. }
    unfold apply_delta. cbn [d_op d_name]. rewrite present_iff, bool_decide_eq_false_2 by done. cbn.
    rewrite Hmk, He. cbn. rewrite <- upsert_new by done. by apply names_ok, upsert_names.
Qed.

(** A whole sweep. *)
Lemma diff_all st0 incoming st : NoDup (el_name <$> st) → NoDup (el_name <$> incoming) →
  Forall (λ e, element_post_init e = Ok e) incoming →
  (∀ e, e ∈ incoming → dict_get (by_name st0) (el_name e) = dict_get (by_name st) (el_name e)) →
  ∃ found, rmap (diff_element (by_name st0)) incoming = Ok found
    ∧ apply_deltas st (omap id found) = Ok (foldl upsert st incoming)
    ∧ Forall (λ d, d_op d ≠ D_REMOVE) (omap id found).
Proof.
  revert st. induction incoming as [|e es IH]; intros st Hnd Hni Hok Hget; [by exists []|].
  cbn in Hni. apply NoDup_cons in Hni as [Hne Hni]. apply Forall_cons in Hok as [He Hok].
  destruct (diff_applies st0 st e) as (od & Hod & Happ & Hop); [done|done|apply Hget; by left|].
  destruct (IH (upsert st e)) as (found & Hf & Ha & Hall); [by apply upsert_names|done|done| |].
  { intros e' He'. rewrite Hget by by right. rewrite !by_name_pairs, pairs_upsert, dict_get_set by (done || by apply upsert_names).
    rewrite decide_False; [done|]. intros Heq. apply Hne. rewrite Heq. by apply list_elem_of_fmap_2. }
  exists (od :: found). cbn [rmap]. rewrite Hod. cbn. rewrite Hf. split; [done|].
  destruct od as [d|]; cbn [omap list_omap id].
  - destruct (Hop d eq_refl). split; [|by constructor]. cbn [apply_deltas]. rewrite Happ. exact Ha.
  - injection Happ as Hst. split; [|done]. cbn [foldl]. rewrite <- Ha. by rewrite <- Hst.
Qed.

Lemma record_all_ok m sweep n ds : 0 ≤ sweep → record_all m sweep n ds = Ok ((λ d, mkRecord m sweep d n) <$> ds).
Proof.
  intros Hs. unfold record_all. rewrite rmap_Ok. apply Forall2_fmap_r, Forall_Forall2_diag, Forall_true.
  intros d. unfold record_post_init. cbn. by rewrite (proj2 (Z.leb_le 0 sweep)).
Qed.

(** ** The record *)

Lemma record_all_inv m sweep n ds rs : record_all m sweep n ds = Ok rs →
  dr_delta <$> rs = ds ∧ Forall (λ r, dr_sweep r = sweep) rs.
Proof.
  unfold record_all. rewrite rmap_Ok. induction 1 as [|d r ds rs Hr _ [IH1 IH2]]; [done|].
  unfold record_post_init in Hr. destruct (_ <=? _); [|done]. injection Hr as <-. cbn. rewrite IH1. split; [done|].
  by constructor.
Qed.

(** An outcome's record holds its deltas, which lead from before to after. *)
Definition outcome_ok (o : ConsolidationOutcome) : Prop :=
  apply_deltas (co_before o) (co_deltas o) = Ok (co_after o)
  ∧ dr_delta <$> co_records o = co_deltas o ∧ Forall (λ r, dr_sweep r = co_sweep o) (co_records o).

Lemma consolidate_ok m st incoming sweep n o : consolidate m st incoming sweep n = Ok o →
  co_before o = st ∧ co_sweep o = sweep ∧ outcome_ok o.
Proof.
  unfold consolidate. case_bool_decide; [|done]. intros (found & _ & H1)%rbind_Ok.
  apply rbind_Ok in H1 as (after & Ha & H1). apply rbind_Ok in H1 as (rs & [Hr Hs]%record_all_inv & [= <-]). done.
Qed.

Lemma retract_ok m st name sweep n o : retract m st name sweep n = Ok o →
  co_before o = st ∧ co_sweep o = sweep ∧ outcome_ok o.
Proof.
  unfold retract. case_bool_decide; [|done]. intros (d & _ & H1)%rbind_Ok.
  apply rbind_Ok in H1 as (after & Ha & H1). apply rbind_Ok in H1 as (rs & [Hr Hs]%record_all_inv & [= <-]). done.
Qed.

Lemma replay_log_app st ds rs upto rest : apply_deltas st (dr_delta <$> rs) = Ok ds →
  (∀ r, r ∈ rs → match upto with Some n => dr_sweep r < n | None => True end) →
  replay_log st upto (rs ++ rest) = replay_log ds upto rest.
Proof.
  revert st. induction rs as [|r rs IH]; intros st; cbn; [by intros [= ->]|]. intros (st' & Hd & Hrest)%rbind_Ok Hup.
  assert (match upto with Some n => n <=? dr_sweep r | None => false end = false) as ->.
  { specialize (Hup r ltac:(left)). destruct upto; [by apply Z.leb_gt|done]. }
  rewrite Hd. cbn. apply IH; [done|]. intros r' Hr'. apply Hup. by right.
Qed.

Lemma replay_stop st n rs : Forall (λ r, n ≤ dr_sweep r) rs → replay_log st (Some n) rs = Ok st.
Proof. destruct rs as [|r rs]; [done|]. intros [H _]%Forall_cons. cbn. by rewrite (proj2 (Z.leb_le _ _) H). Qed.

(** ** A memory's life: sweeps and retractions, in order *)

Inductive edit := Sweep (incoming : list Element) | Retraction (name : pystr).

Fixpoint edits (m : MemoryId) (clock : nat → datetime) (k : nat) (st : ElementSet) (es : list (Z * edit))
  : result exn (ElementSet * list DeltaRecord) :=
  match es with
  | [] => Ok (st, [])
  | (sweep, e) :: es' =>
      let! o := match e with
                | Sweep incoming => consolidate m st incoming sweep (clock k)
                | Retraction name => retract m st name sweep (clock k)
                end in
      let! rest := edits m clock (S k) (co_after o) es' in
      Ok (rest.1, co_records o ++ rest.2)
  end.

Lemma edits_cons m clock k st sweep e es st' log : edits m clock k st ((sweep, e) :: es) = Ok (st', log) →
  ∃ o log', co_before o = st ∧ co_sweep o = sweep ∧ outcome_ok o
    ∧ edits m clock (S k) (co_after o) es = Ok (st', log') ∧ log = co_records o ++ log'
    ∧ match e with
      | Sweep incoming => consolidate m st incoming sweep (clock k)
      | Retraction name => retract m st name sweep (clock k)
      end = Ok o.
Proof.
  cbn [edits]. intros (o & Ho & H1)%rbind_Ok. apply rbind_Ok in H1 as ([st1 log1] & Hr & [= <- <-]).
  exists o, log1. assert (co_before o = st ∧ co_sweep o = sweep ∧ outcome_ok o) as (? & ? & ?)
    by (destruct e; [by eapply consolidate_ok|by eapply retract_ok]). done.
Qed.

Lemma edits_sweeps m clock k st es st' log lo : edits m clock k st es = Ok (st', log) →
  Forall (λ e, lo ≤ e.1) es → Forall (λ r, lo ≤ dr_sweep r) log.
Proof.
  revert k st log. induction es as [|[sweep e] es IH]; intros k st log; [by intros [= <- <-]|].
  intros (o & log' & _ & Hs & (_ & _ & Hall) & Hrest & -> & _)%edits_cons [Hlo Hes]%Forall_cons.
  apply Forall_app. split; [|by eapply IH]. eapply Forall_impl; [exact Hall|]. cbn in *. intros r ->. lia.
Qed.

(** The edits of the sweeps before [n]. *)
Definition before_sweep (n : Z) : list (Z * edit) → list (Z * edit) := List.filter (λ e, e.1 <? n).

Lemma edits_replay m clock k st es st' log : edits m clock k st es = Ok (st', log) → replay_log st None log = Ok st'.
Proof.
  revert k st log. induction es as [|[sweep e] es IH]; intros k st log; [by intros [= <- <-]|].
  intros (o & log' & <- & _ & (Ha & Hd & _) & Hrest & -> & _)%edits_cons.
  rewrite (replay_log_app _ (co_after o)); [by eapply IH|by rewrite Hd|done].
Qed.

Lemma edits_before m clock k st es st' log n : edits m clock k st es = Ok (st', log) → StronglySorted Z.le es.*1 →
  ∃ st1 log1, edits m clock k st (before_sweep n es) = Ok (st1, log1) ∧ replay_log st (Some n) log = Ok st1.
Proof.
  revert k st log. induction es as [|[sweep e] es IH]; intros k st log; [by intros [= <- <-] _; exists st, []|].
  intros Hrun Hsort. cbn in Hsort. apply StronglySorted_inv in Hsort as [Hsort Hle].
  unfold before_sweep. cbn [List.filter fst]. destruct (Z.ltb_spec sweep n) as [Hlt|Hge].
  - apply edits_cons in Hrun as (o & log' & <- & Hs & (Ha & Hd & Hall) & Hrest & -> & Ho).
    destruct (IH _ _ _ Hrest Hsort) as (st1 & log1 & Hrun1 & Hrep).
    exists st1, (co_records o ++ log1). cbn [edits]. rewrite Ho. cbn. unfold before_sweep in Hrun1. rewrite Hrun1. split; [done|].
    rewrite (replay_log_app _ (co_after o)); [done|by rewrite Hd|]. intros r Hr.
    rewrite Forall_forall in Hall. rewrite (Hall r Hr). lia.
  - assert (Forall (λ e, n ≤ e.1) es) as Hes.
    { rewrite Forall_fmap in Hle. eapply Forall_impl; [exact Hle|]. cbn. intros; lia. }
    assert (List.filter (λ e, e.1 <? n) es = []) as ->.
    { clear -Hes. induction Hes as [|x es Hx _ IH]; [done|]. cbn. by rewrite (proj2 (Z.ltb_ge _ _) Hx). }
    exists st, []. split; [done|]. apply replay_stop. eapply edits_sweeps; [exact Hrun|]. by constructor.
Qed.

(** ** Theorems *)

(** A sweep is a dict update and never forgets: with distinct, well-formed incoming
    elements it succeeds; the new set is the old one with each incoming element assigned to
    its name (in place when the name was there, appended otherwise), so every element keeps
    its place, and every name its element unless the sweep named it; no delta removes. *)
Lemma consolidate_exact m st incoming sweep n :
  NoDup (el_name <$> st) → NoDup (el_name <$> incoming) → Forall (λ e, element_post_init e = Ok e) incoming →
  0 ≤ sweep →
  ∃ o, consolidate m st incoming sweep n = Ok o ∧ co_after o = foldl upsert st incoming
    ∧ Forall (λ d, d_op d ≠ D_REMOVE) (co_deltas o) ∧ NoDup (el_name <$> co_after o)
    ∧ (el_name <$> st) `prefix_of` (el_name <$> co_after o)
    ∧ (∀ e, e ∈ st → el_name e ∉ el_name <$> incoming → e ∈ co_after o).
Proof.
  intros Hst Hinc Hok Hs. unfold consolidate. rewrite bool_decide_eq_true_2 by done.
  destruct (diff_all st incoming st) as (found & -> & Ha & Hall); [done..|]. cbn. rewrite Ha. cbn.
  rewrite record_all_ok by done. cbn. eexists. split; [done|]. cbn. split; [done|]. split; [done|].
  clear -Hst. revert st Hst. induction incoming as [|e es IH]; intros st Hst; cbn [foldl]; [by split_and!|].
  destruct (IH (upsert st e)) as (Hnd & Hpre & Hkeep); [by apply upsert_names|]. split; [done|]. split.
  - etransitivity; [|exact Hpre]. rewrite <- !pairs_keys, pairs_upsert.
    destruct (decide (el_name e ∈ (pairs st).*1)) as [Hin|Hout]; [by rewrite dict_set_keys|].
    rewrite dict_set_new, fmap_app by done. by apply prefix_app_r.
  - cbn. intros e' He' [Hne Hni]%not_elem_of_cons. apply Hkeep; [|done].
    assert ((el_name e', e') ∈ pairs (upsert st e)) as (e0 & [= _ ->] & ?)%list_elem_of_fmap; [|done].
    rewrite pairs_upsert. apply elem_of_dict_set; [by rewrite pairs_keys|]. right. split; [done|].
    by apply (list_elem_of_fmap_2 (λ e, (el_name e, e))).
Qed.

(** The record gives every state back: after any sweeps and retractions in sweep order,
    replaying the recorded deltas from nothing gives the current elements, and replaying
    them up to sweep [n] gives the elements as they were before sweep [n] ran. *)
Lemma record_reconstructs m clock es st log n :
  edits m clock 0 [] es = Ok (st, log) → StronglySorted Z.le es.*1 →
  reconstruct log None = Ok st
  ∧ ∃ st1 log1, edits m clock 0 [] (before_sweep n es) = Ok (st1, log1) ∧ reconstruct log (Some n) = Ok st1.
Proof. intros Hrun Hs. split; [by eapply edits_replay|by eapply edits_before]. Qed.

(** ** Concrete inputs *)

Definition element_ex (n t : string) : Element := mkElement (of_ascii n) (of_ascii t).

Definition memory_one : MemoryId := mkMemoryId (mkUUID 1 I).

Lemma consolidate_exact_witness :
  ∃ o, consolidate memory_one [element_ex "a" "x"; element_ex "b" "y"] [element_ex "b" "z"; element_ex "c" "w"] 3
         (mkDatetime 0 true) = Ok o
    ∧ co_after o = [element_ex "a" "x"; element_ex "b" "z"; element_ex "c" "w"].
Proof.
  destruct (consolidate_exact memory_one [element_ex "a" "x"; element_ex "b" "y"] [element_ex "b" "z"; element_ex "c" "w"] 3
              (mkDatetime 0 true)) as (o & Ho & Ha & _).
  - apply (bool_decide_unpack _). vm_compute. exact I.
  - apply (bool_decide_unpack _). vm_compute. exact I.
  - repeat constructor.
  - lia.
  - exists o. split; [exact Ho|]. rewrite Ha. vm_compute. reflexivity.
Defined.

Definition edits_ex : list (Z * edit) :=
  [(1, Sweep [element_ex "a" "x"; element_ex "b" "y"]); (2, Sweep [element_ex "b" "z"]); (3, Retraction (of_ascii "a"))].

Lemma record_reconstructs_witness :
  ∃ st log, edits memory_one (λ _, mkDatetime 0 true) 0 [] edits_ex = Ok (st, log) ∧ reconstruct log None = Ok st.
Proof.
  destruct (edits memory_one (λ _, mkDatetime 0 true) 0 [] edits_ex) as [[st log]|e] eqn:Hrun; [|by vm_compute in Hrun].
  exists st, log. split; [done|].
  apply (record_reconstructs memory_one (λ _, mkDatetime 0 true) edits_ex st log 2 Hrun).
  repeat constructor; cbn; lia.
Defined.
