(* ===== verification/WorkQueue.v ===== *)
(** * The worker side of the queue (stores/pg/queue.py, [WorkerQueue])

    Claims, acknowledgements, retries and rejections of leased rows.  The two database
    functions the class calls ([tracebed_worker_queue_claim],
    [tracebed_worker_queue_disposition], migrations/0012_erasure_saga.sql) are modelled with
    it, on the tables [work_queue] and [dead_letter]; each call is one transaction, so a
    history of the queue is a sequence of calls.  [locked] are the rows other transactions
    hold at the time ([SKIP LOCKED]); a fenced project is one with an open erasure request.
    The erasure saga's purge of the two tables ([tracebed_erasure_primary_batch], in the
    version of 0013_erasure_deployment.sql) is an operation of the history too.  Times are microseconds ([timestamptz]).  The session's role checks are not modelled, nor
    is a request that arrives while a call is running (the trigger then makes the call skip
    the row).  [QueueItem] is the item of authority version 1 that a claim returns. *)

From S2P Require Import Prelude Domain PyText Json.
Open Scope Z_scope.

Definition TOPIC_TRACE_EVENT : pystr := of_ascii "trace_event".
Definition TOPIC_OUTCOME_EVENT : pystr := of_ascii "outcome_event".
Definition TOPIC_MEMORY_PROPOSAL : pystr := of_ascii "memory_proposal".

Definition supported_topic (t : pystr) : bool :=
  bool_decide (t ∈ [TOPIC_TRACE_EVENT; TOPIC_OUTCOME_EVENT; TOPIC_MEMORY_PROPOSAL]).

(** A row of [work_queue]. *)
Record queue_row := mkQueueRow {
  wq_id : Z;
  wq_project_id : ProjectId;
  wq_topic : pystr;
  wq_payload : json;
  wq_priority : Z;
  wq_attempts : Z;
  wq_max_attempts : Z;
  wq_available_at : Z;
  wq_created_at : Z;
  wq_lease_expires_at : option Z;
  wq_authority_version : Z;
  wq_run_id : option uuid;
  wq_source_principal_id : option uuid;
  wq_source_agent_type_id : option uuid;
  wq_source_grant_id : option uuid;
  wq_required_role : option pystr;
  wq_feedback_source : option pystr;
  wq_run_owner_principal_id : option uuid;
  wq_run_owner_agent_type_id : option uuid;
  wq_subject_digests : list (list Z);
}.

Definition set_claim (r : queue_row) (lease_until attempts : Z) : queue_row :=
  mkQueueRow (wq_id r) (wq_project_id r) (wq_topic r) (wq_payload r) (wq_priority r) attempts (wq_max_attempts r)
    (wq_available_at r) (wq_created_at r) (Some lease_until) (wq_authority_version r) (wq_run_id r)
    (wq_source_principal_id r) (wq_source_agent_type_id r) (wq_source_grant_id r) (wq_required_role r)
    (wq_feedback_source r) (wq_run_owner_principal_id r) (wq_run_owner_agent_type_id r) (wq_subject_digests r).

Definition set_available (r : queue_row) (at_ : Z) : queue_row :=
  mkQueueRow (wq_id r) (wq_project_id r) (wq_topic r) (wq_payload r) (wq_priority r) (wq_attempts r) (wq_max_attempts r)
    at_ (wq_created_at r) None (wq_authority_version r) (wq_run_id r)
    (wq_source_principal_id r) (wq_source_agent_type_id r) (wq_source_grant_id r) (wq_required_role r)
    (wq_feedback_source r) (wq_run_owner_principal_id r) (wq_run_owner_agent_type_id r) (wq_subject_digests r).

Record dead_row := mkDead { dl_row : queue_row; dl_failed_at : Z; dl_last_error : pystr }.

Record queue_state := mkQueue {
  work_queue : gmap Z queue_row;
  dead_letter : list dead_row;
  next_row_id : Z;
  fenced_projects : list ProjectId;
  (** for the statements: the ids a purge has deleted from either table *)
  erased_rows : list Z;
  erased_letters : list Z;
}.

Definition set_queue (q : gmap Z queue_row) (s : queue_state) : queue_state :=
  mkQueue q (dead_letter s) (next_row_id s) (fenced_projects s) (erased_rows s) (erased_letters s).

(** [DELETE ... INSERT INTO dead_letter] of one row. *)
Definition bury (r : queue_row) (n : Z) (why : pystr) (s : queue_state) : queue_state :=
  mkQueue (delete (wq_id r) (work_queue s)) (dead_letter s ++ [mkDead r n why]) (next_row_id s) (fenced_projects s)
    (erased_rows s) (erased_letters s).

(** ** What happened to a row *)

Inductive queue_event :=
| Enqueued (id max_attempts : Z)
| Claimed (id attempts at_ lease_until : Z)
| Acked (id attempts : Z)
| Nacked (id attempts : Z)
| Rejected (id attempts : Z)
| Exhausted (id : Z)
| Purged (id : Z).

(** ** The database functions *)

Definition MAX_LEASE : Z := 24 * 3600 * 1000000.

Inductive queue_error := QValueError | QDenied.

(** [... AND available AND not leased AND no open erasure request ... FOR UPDATE SKIP LOCKED]. *)
Definition claimable (s : queue_state) (locked : list Z) (topic : pystr) (n : Z) (r : queue_row) : bool :=
  bool_decide (wq_topic r = topic) && (wq_available_at r <=? n)
  && match wq_lease_expires_at r with None => true | Some l => l <? n end
  && bool_decide (wq_project_id r ∉ fenced_projects s) && bool_decide (wq_id r ∉ locked).

(** [ORDER BY priority, id]. *)
Definition row_leb (a b : queue_row) : bool :=
  if wq_priority a =? wq_priority b then wq_id a <=? wq_id b else wq_priority a <? wq_priority b.

Definition candidates (s : queue_state) (locked : list Z) (topic : pystr) (n limit : Z) : list queue_row :=
  take (Z.to_nat limit) (py_sorted row_leb (List.filter (claimable s locked topic n) ((map_to_list (work_queue s)).*2))).

(** The loop: an exhausted row is dead-lettered, another one leased, a row that does not
    carry authority version 1 left alone. *)
Fixpoint claim_loop (n lease : Z) (limit : Z) (claimed : Z) (cs : list queue_row) (s : queue_state)
  : list queue_row * list queue_event * queue_state :=
  match cs with
  | [] => ([], [], s)
  | c :: cs' =>
      if wq_max_attempts c <? wq_attempts c then
        let '(rows, evs, s') := claim_loop n lease limit claimed cs' (bury c n (of_ascii "max_attempts_exceeded") s) in
        (rows, Exhausted (wq_id c) :: evs, s')
      else if wq_authority_version c =? 1 then
        let c' := set_claim c (n + lease) (wq_attempts c + 1) in
        let s1 := set_queue (<[wq_id c := c']> (work_queue s)) s in
        let ev := Claimed (wq_id c) (wq_attempts c + 1) n (n + lease) in
        if limit <=? claimed + 1 then ([c'], [ev], s1)
        else let '(rows, evs, s') := claim_loop n lease limit (claimed + 1) cs' s1 in (c' :: rows, ev :: evs, s')
      else if limit <=? claimed then ([], [], s)
      else claim_loop n lease limit claimed cs' s
  end.

Definition queue_claim (locked : list Z) (topic : pystr) (lease limit n : Z) (s : queue_state)
  : result queue_error (list queue_row * list queue_event * queue_state) :=
  check! supported_topic topic && (0 <? lease) && (lease <=? MAX_LEASE) && (1 <=? limit) && (limit <=? 100) else QDenied in
  Ok (claim_loop n lease limit 0 (candidates s locked topic n limit) s).

Inductive action := A_ack | A_nack (backoff : Z) | A_reject (reason : pystr).

Definition REJECTION_REASONS : list pystr :=
  of_ascii <$> ["malformed_authority"; "malformed_business_payload"; "authority_payload_shadow"; "owner_conflict";
                "outcome_replay_conflict"; "proposal_authority_conflict"; "max_attempts_exceeded"]%string.

(** The function acts on exactly the generation [(id, attempts, lease_expires_at)]. *)
Definition queue_disposition (id attempts lease_until : Z) (a : action) (n : Z) (s : queue_state)
  : result queue_error (bool * list queue_event * queue_state) :=
  check! (1 <=? id) && (1 <=? attempts)
         && match a with
            | A_nack b => (0 <=? b) && (b <=? MAX_LEASE)
            | A_reject why => bool_decide (why ∈ REJECTION_REASONS)
            | A_ack => true
            end else QDenied in
  match work_queue s !! id with
  | Some r =>
      if (wq_attempts r =? attempts) && bool_decide (wq_lease_expires_at r = Some lease_until)
         && (wq_authority_version r =? 1) && bool_decide (wq_project_id r ∉ fenced_projects s)
      then match a with
           | A_ack => Ok (true, [Acked id attempts], set_queue (delete id (work_queue s)) s)
           | A_nack b => Ok (true, [Nacked id attempts], set_queue (<[id := set_available r (n + b)]> (work_queue s)) s)
           | A_reject why => Ok (true, [Rejected id attempts], bury r n why s)
           end
      else Ok (false, [], s)
  | None => Ok (false, [], s)
  end.

(** ** Decoding a claimed row *)

Definition PROJECT_ROLES : list pystr := of_ascii <$> ["admin"; "data"; "erasure_request"; "export"; "feedback"]%string.
Definition FEEDBACK_SOURCES : list pystr := of_ascii <$> ["verdict"; "correction_adapter"; "downstream"]%string.

Record QueueItem := mkItem {
  qi_id : Z;
  qi_topic : pystr;
  qi_project_id : ProjectId;
  qi_payload : list (pystr * json);
  qi_priority : Z;
  qi_attempts : Z;
  qi_run_id : RunId;
  qi_source_principal_id : PrincipalId;
  qi_source_agent_type_id : AgentTypeId;
  qi_source_grant_id : uuid;
  qi_required_role : pystr;
  qi_feedback_source : option pystr;
  qi_run_owner_principal_id : PrincipalId;
  qi_run_owner_agent_type_id : AgentTypeId;
  qi_subject_digests : list (list Z);
  qi_max_attempts : Z;
  qi_available_at : Z;
  qi_created_at : Z;
  qi_lease_expires_at : Z;
}.

Definition exact {A} (v : option A) : result queue_error A :=
  match v with Some a => Ok a | None => Err QValueError end.

Definition exact_int (minimum v : Z) : result queue_error Z := check! minimum <=? v else QValueError in Ok v.

(** [_subject_digest_tuple]: at most 64 digests of 32 bytes, sorted and distinct. *)
Definition subject_digest_tuple (ds : list (list Z)) : result queue_error (list (list Z)) :=
  check! (length ds <=? 64)%nat && forallb (λ d, (length d =? 32)%nat) ds else QValueError in
  check! bool_decide (py_sorted str_leb ds = ds) && bool_decide (NoDup ds) else QValueError in
  Ok ds.

Definition row_to_item (r : queue_row) : result queue_error QueueItem :=
  let! payload := match wq_payload r with JObj l => Ok l | _ => Err QValueError end in
  check! supported_topic (wq_topic r) else QValueError in
  check! wq_authority_version r =? 1 else QValueError in
  let! role := exact (wq_required_role r) in
  check! bool_decide (role ∈ PROJECT_ROLES) else QValueError in
  check! match wq_feedback_source r with Some f => bool_decide (f ∈ FEEDBACK_SOURCES) | None => true end
  else QValueError in
  check! (if bool_decide (wq_topic r ∈ [TOPIC_TRACE_EVENT; TOPIC_MEMORY_PROPOSAL])
          then bool_decide (role = of_ascii "data") && bool_decide (wq_feedback_source r = None)
               && bool_decide (wq_source_principal_id r = wq_run_owner_principal_id r)
               && bool_decide (wq_source_agent_type_id r = wq_run_owner_agent_type_id r)
          else bool_decide (role = of_ascii "feedback") && bool_decide (wq_feedback_source r ≠ None)) else QValueError in
  let! id := exact_int 1 (wq_id r) in
  let! attempts := exact_int 1 (wq_attempts r) in
  let! run := exact (wq_run_id r) in
  let! principal := exact (wq_source_principal_id r) in
  let! agent := exact (wq_source_agent_type_id r) in
  let! grant := exact (wq_source_grant_id r) in
  let! owner := exact (wq_run_owner_principal_id r) in
  let! owner_agent := exact (wq_run_owner_agent_type_id r) in
  let! digests := subject_digest_tuple (wq_subject_digests r) in
  let! max_attempts := exact_int 0 (wq_max_attempts r) in
  let! lease := exact (wq_lease_expires_at r) in
  Ok (mkItem id (wq_topic r) (wq_project_id r) payload (wq_priority r) attempts (mkRunId run) (mkPrincipalId principal)
        (mkAgentTypeId agent) grant role (wq_feedback_source r) (mkPrincipalId owner) (mkAgentTypeId owner_agent) digests
        max_attempts (wq_available_at r) (wq_created_at r) lease).

(** ** The class *)

Record QueueConfig := mkQueueConfig { lease_seconds : Z; queue_max_attempts : Z; batch_size : Z }.

Definition item_leb (a b : QueueItem) : bool :=
  if qi_priority a =? qi_priority b then qi_id a <=? qi_id b else qi_priority a <? qi_priority b.

(** The rows returned by the claim: a malformed one is rejected in the same transaction. *)
Fixpoint decode_rows (n : Z) (rows : list queue_row) (s : queue_state)
  : result queue_error (list QueueItem * list queue_event * queue_state) :=
  match rows with
  | [] => Ok ([], [], s)
  | r :: rows' =>
      match row_to_item r with
      | Ok item =>
          let! rest := decode_rows n rows' s in
          let '(items, evs, s') := rest in Ok (item :: items, evs, s')
      | Err _ =>
          let! lease := exact (wq_lease_expires_at r) in
          let! id := exact_int 1 (wq_id r) in
          let! attempts := exact_int 1 (wq_attempts r) in
          let! d := queue_disposition id attempts lease (A_reject (of_ascii "malformed_authority")) n s in
          let '(_, evs1, s1) := d in
          let! rest := decode_rows n rows' s1 in
          let '(items, evs, s') := rest in Ok (items, evs1 ++ evs, s')
      end
  end.

Definition worker_claim (cfg : QueueConfig) (locked : list Z) (topic : pystr) (n_items n : Z) (s : queue_state)
  : result queue_error (list QueueItem * list queue_event * queue_state) :=
  check! supported_topic topic else QValueError in
  check! 0 <? n_items else QValueError in
  let batch := Z.min n_items (batch_size cfg) in
  let! claimed := queue_claim locked topic (lease_seconds cfg * 1000000) batch n s in
  let '(rows, evs, s1) := claimed in
  let! decoded := decode_rows n rows s1 in
  let '(items, evs', s') := decoded in
  Ok (py_sorted item_leb items, evs ++ evs', s').

(** [ack], [nack] and [reject] (and its alias [poison]); [_fence] is the item's generation. *)
Definition worker_ack (item : QueueItem) (n : Z) (s : queue_state) :=
  queue_disposition (qi_id item) (qi_attempts item) (qi_lease_expires_at item) A_ack n s.

Definition worker_nack (item : QueueItem) (backoff n : Z) (s : queue_state) :=
  check! 0 <=? backoff else QValueError in
  queue_disposition (qi_id item) (qi_attempts item) (qi_lease_expires_at item) (A_nack backoff) n s.

Definition worker_reject (item : QueueItem) (reason : pystr) (n : Z) (s : queue_state) :=
  check! bool_decide (reason ∈ REJECTION_REASONS) else QValueError in
  queue_disposition (qi_id item) (qi_attempts item) (qi_lease_expires_at item) (A_reject reason) n s.

(** ** Histories

    [Enqueue] is the [INSERT] of tracebed_authorized_enqueue: the serial id, no attempts and
    no lease; the request state of the projects changes from outside ([Fence]). *)

Definition new_row (id : Z) (r : queue_row) : queue_row :=
  mkQueueRow id (wq_project_id r) (wq_topic r) (wq_payload r) (wq_priority r) 0 (wq_max_attempts r)
    (wq_available_at r) (wq_created_at r) None (wq_authority_version r) (wq_run_id r)
    (wq_source_principal_id r) (wq_source_agent_type_id r) (wq_source_grant_id r) (wq_required_role r)
    (wq_feedback_source r) (wq_run_owner_principal_id r) (wq_run_owner_agent_type_id r) (wq_subject_digests r).

(** ** The purge of an erasure request

    [tracebed_erasure_primary_batch] on the two tables: the rows the request covers, at most
    [limit] of each table in the order of their physical location ([ctid]).  The function
    runs under the lease of an open request ([tracebed_erasure_assert_lease]), so its project
    is fenced. *)

Record purge_request := mkPurge {
  pr_project : ProjectId;
  pr_whole_project : bool;
  pr_subject_digest : option (list Z);
  pr_run_set : list uuid;
}.

Definition covers (pr : purge_request) (r : queue_row) : bool :=
  bool_decide (wq_project_id r = pr_project pr)
  && (pr_whole_project pr
      || match pr_subject_digest pr with Some d => bool_decide (d ∈ wq_subject_digests r) | None => false end
      || match wq_run_id r with Some u => bool_decide (u ∈ pr_run_set pr) | None => false end).

Definition by_ctid {A} (ctid : A → Z) (a b : A) : bool := ctid a <=? ctid b.

(** [SELECT ctid ... ORDER BY ctid LIMIT requested_limit]. *)
Definition selected {A} (ctid : A → Z) (limit : Z) (p : A → bool) (l : list A) : list A :=
  take (Z.to_nat limit) (py_sorted (by_ctid ctid) (List.filter p l)).

Definition primary_batch (pr : purge_request) (limit : Z) (ctid : queue_row → Z) (dl_ctid : dead_row → Z) (s : queue_state)
  : result queue_error (Z * list queue_event * queue_state) :=
  check! bool_decide (pr_project pr ∈ fenced_projects s) && (1 <=? limit) && (limit <=? 10000) else QDenied in
  let rows := wq_id <$> selected ctid limit (covers pr) ((map_to_list (work_queue s)).*2) in
  let letters := (λ d, wq_id (dl_row d)) <$> selected dl_ctid limit (λ d, covers pr (dl_row d)) (dead_letter s) in
  Ok (Z.of_nat (length rows + length letters), Purged <$> rows,
      mkQueue (foldr delete (work_queue s) rows)
        (List.filter (λ d, negb (bool_decide (wq_id (dl_row d) ∈ letters))) (dead_letter s))
        (next_row_id s) (fenced_projects s) (erased_rows s ++ rows) (erased_letters s ++ letters)).

Inductive queue_op :=
| Enqueue (r : queue_row)
| Claim (locked : list Z) (topic : pystr) (n_items now : Z)
| Ack (item : QueueItem) (now : Z)
| Nack (item : QueueItem) (backoff now : Z)
| Reject (item : QueueItem) (reason : pystr) (now : Z)
| Fence (projects : list ProjectId)
| Purge (pr : purge_request) (limit : Z) (ctid : queue_row → Z) (dl_ctid : dead_row → Z).

(** A call that raises rolls back: no event, the same state. *)
Definition committed {A} (s : queue_state) (r : result queue_error (A * list queue_event * queue_state))
  : list queue_event * queue_state :=
  match r with Ok (_, evs, s') => (evs, s') | Err _ => ([], s) end.

Definition queue_step (cfg : QueueConfig) (op : queue_op) (s : queue_state) : list queue_event * queue_state :=
  match op with
  | Enqueue r =>
      ([Enqueued (next_row_id s) (wq_max_attempts r)],
       mkQueue (<[next_row_id s := new_row (next_row_id s) r]> (work_queue s)) (dead_letter s) (next_row_id s + 1)
         (fenced_projects s) (erased_rows s) (erased_letters s))
  | Claim locked topic n_items n => committed s (worker_claim cfg locked topic n_items n s)
  | Ack item n => committed s (worker_ack item n s)
  | Nack item b n => committed s (worker_nack item b n s)
  | Reject item why n => committed s (worker_reject item why n s)
  | Fence ps => ([], mkQueue (work_queue s) (dead_letter s) (next_row_id s) ps (erased_rows s) (erased_letters s))
  | Purge pr limit ctid dl_ctid => committed s (primary_batch pr limit ctid dl_ctid s)
  end.

Fixpoint queue_run (cfg : QueueConfig) (ops : list queue_op) (s : queue_state) : list queue_event * queue_state :=
  match ops with
  | [] => ([], s)
  | op :: ops' =>
      let '(evs, s1) := queue_step cfg op s in
      let '(evs', s') := queue_run cfg ops' s1 in (evs ++ evs', s')
  end.

Definition empty_queue : queue_state := mkQueue ∅ [] 1 [] [] [].

(** ** The lease protocol of one row *)

Inductive phase :=
| Absent
| Ready (attempts max_attempts : Z)
| Leased (attempts max_attempts lease_until : Z)
| Done
| Buried
| Erased.

Definition event_id (e : queue_event) : Z :=
  match e with
  | Enqueued k _ | Claimed k _ _ _ | Acked k _ | Nacked k _ | Rejected k _ | Exhausted k | Purged k => k
  end.

Definition phase_step (e : queue_event) (p : phase) : option phase :=
  match e, p with
  | Enqueued _ m, Absent => Some (Ready 0 m)
  | Claimed _ b _ u, Ready a m => if (a <=? m) && (b =? a + 1) then Some (Leased b m u) else None
  | Claimed _ b t u', Leased a m u =>
      if (a <=? m) && (b =? a + 1) && (u <? t) then Some (Leased b m u') else None
  | Acked _ b, Leased a _ _ => if b =? a then Some Done else None
  | Nacked _ b, Leased a m _ => if b =? a then Some (Ready a m) else None
  | Rejected _ b, Leased a _ _ => if b =? a then Some Buried else None
  | Exhausted _, (Ready a m | Leased a m _) => if m <? a then Some Buried else None
  | Purged _, (Ready _ _ | Leased _ _ _) => Some Erased
  | _, _ => None
  end.

Definition phase_run (evs : list queue_event) (p : option phase) : option phase :=
  fold_left (λ p e, p ≫= phase_step e) evs p.

Definition events_of (k : Z) (evs : list queue_event) : list queue_event := List.filter (λ e, event_id e =? k) evs.

Definition buried_ids (s : queue_state) : list Z := (λ d, wq_id (dl_row d)) <$> dead_letter s.

(** The ids that were dead-lettered: still there, or purged from there. *)
Definition letter_ids (s : queue_state) : list Z := buried_ids s ++ erased_letters s.

(** The phase the tables show. *)
Definition phase_of (s : queue_state) (k : Z) : phase :=
  match work_queue s !! k with
  | Some r =>
      match wq_lease_expires_at r with
      | None => Ready (wq_attempts r) (wq_max_attempts r)
      | Some u => Leased (wq_attempts r) (wq_max_attempts r) u
      end
  | None =>
      if bool_decide (k ∈ letter_ids s) then Buried
      else if bool_decide (k ∈ erased_rows s) then Erased
      else if (1 <=? k) && (k <? next_row_id s) then Done else Absent
  end.

Definition queue_wf (s : queue_state) : Prop :=
  1 ≤ next_row_id s
  ∧ NoDup (letter_ids s ++ erased_rows s)
  ∧ (∀ k, k ∈ letter_ids s ++ erased_rows s → 1 ≤ k < next_row_id s ∧ work_queue s !! k = None)
  ∧ (∀ k r, work_queue s !! k = Some r → wq_id r = k ∧ 1 ≤ k < next_row_id s ∧ 0 ≤ wq_attempts r).

(** [s] reaches [s'] through [evs], and every row through its share of them. *)
Definition simulates (s : queue_state) (evs : list queue_event) (s' : queue_state) : Prop :=
  queue_wf s → queue_wf s' ∧ ∀ k, phase_run (events_of k evs) (Some (phase_of s k)) = Some (phase_of s' k).

Lemma simulates_refl s : simulates s [] s.
Proof. done. Qed.

Lemma events_of_app k l l' : events_of k (l ++ l') = events_of k l ++ events_of k l'.
Proof. apply List.filter_app. Qed.

Lemma simulates_trans s l s1 l' s' : simulates s l s1 → simulates s1 l' s' → simulates s (l ++ l') s'.
Proof.
  intros H1 H2 Hwf. destruct (H1 Hwf) as [Hwf1 Hp1], (H2 Hwf1) as [Hwf' Hp2]. split; [done|].
  intros k. rewrite events_of_app. unfold phase_run. rewrite fold_left_app. fold (phase_run (events_of k l)).
  fold (phase_run (events_of k l') (phase_run (events_of k l) (Some (phase_of s k)))). by rewrite Hp1, Hp2.
Qed.

(** An event that touches one row. *)
Lemma simulates_one s e s' :
  (queue_wf s → queue_wf s') →
  (queue_wf s → ∀ k, k ≠ event_id e → phase_of s' k = phase_of s k) →
  (queue_wf s → phase_step e (phase_of s (event_id e)) = Some (phase_of s' (event_id e))) →
  simulates s [e] s'.
Proof.
  intros Hwf Hother Hstep H. split; [auto|]. intros k. unfold events_of. cbn [List.filter].
  destruct (Z.eqb_spec (event_id e) k) as [<-|Hne].
  - cbn. auto.
  - cbn. by rewrite Hother.
Qed.

(** ** The three writes *)

Lemma update_wf s k r r' :
  work_queue s !! k = Some r → wq_id r' = wq_id r → (0 ≤ wq_attempts r → 0 ≤ wq_attempts r') → queue_wf s → queue_wf (set_queue (<[k := r']> (work_queue s)) s).
Proof.
  intros Hr Hid Hatt (H1 & H2 & H3 & H4). split_and!; [done|done| |].
  - intros j Hj. destruct (H3 j Hj) as [? HN]. split; [done|]. cbn. rewrite lookup_insert_ne; [done|].
    intros ->. congruence.
  - intros j q. cbn. destruct (decide (k = j)) as [->|Hne].
    + rewrite lookup_insert_eq. intros [= <-]. rewrite Hid. destruct (H4 _ _ Hr) as (? & ? & ?). auto.
    + rewrite lookup_insert_ne by done. apply H4.
Qed.

Lemma update_other s k r' j : j ≠ k → phase_of (set_queue (<[k := r']> (work_queue s)) s) j = phase_of s j.
Proof. intros Hne. unfold phase_of. cbn. by rewrite lookup_insert_ne. Qed.

Lemma delete_wf s k : queue_wf s → queue_wf (set_queue (delete k (work_queue s)) s).
Proof.
  intros (H1 & H2 & H3 & H4). split_and!; [done|done| |].
  - intros j Hj. destruct (H3 j Hj) as [? HN]. split; [done|]. cbn. by apply lookup_delete_None; right.
  - intros j q. cbn. intros [_ ?]%lookup_delete_Some. by apply H4.
Qed.

Lemma delete_other s k j : j ≠ k → phase_of (set_queue (delete k (work_queue s)) s) j = phase_of s j.
Proof. intros Hne. unfold phase_of. cbn. by rewrite lookup_delete_ne. Qed.

Lemma letter_ids_bury r n why s : letter_ids (bury r n why s) ≡ₚ wq_id r :: letter_ids s.
Proof.
  unfold letter_ids, buried_ids, bury. cbn. rewrite fmap_app, <- app_assoc. cbn. by rewrite <- Permutation_middle.
Qed.

Lemma bury_wf s k r n why : work_queue s !! k = Some r → queue_wf s → queue_wf (bury r n why s).
Proof.
  intros Hr (H1 & H2 & H3 & H4). destruct (H4 _ _ Hr) as (Hid & Hk & _). unfold queue_wf.
  assert (Hperm : letter_ids (bury r n why s) ++ erased_rows (bury r n why s) ≡ₚ k :: letter_ids s ++ erased_rows s)
    by (rewrite letter_ids_bury, Hid; done).
  rewrite Hperm. cbn. split_and!; [done| | |].
  - apply NoDup_cons. split; [|done]. intros [_ ?]%H3. congruence.
  - intros j. rewrite Hperm, elem_of_cons. intros [-> |Hj]; rewrite Hid.
    + split; [done|apply lookup_delete_eq].
    + destruct (H3 j Hj) as [? HN]. split; [done|]. by apply lookup_delete_None; right.
  - intros j q [_ ?]%lookup_delete_Some. by apply H4.
Qed.

Lemma bury_other s r n why j : j ≠ wq_id r → phase_of (bury r n why s) j = phase_of s j.
Proof.
  intros Hne. unfold phase_of.
  rewrite (bool_decide_ext (j ∈ letter_ids (bury r n why s)) (j ∈ letter_ids s))
    by (rewrite letter_ids_bury, elem_of_cons; naive_solver).
  unfold bury. cbn. by rewrite lookup_delete_ne by done.
Qed.

Lemma bury_phase s r n why : phase_of (bury r n why s) (wq_id r) = Buried.
Proof.
  unfold phase_of. rewrite bool_decide_true by (rewrite letter_ids_bury; by left).
  unfold bury. cbn. by rewrite lookup_delete_eq.
Qed.

Lemma row_phase s k r :
  work_queue s !! k = Some r →
  phase_of s k = match wq_lease_expires_at r with
                 | None => Ready (wq_attempts r) (wq_max_attempts r)
                 | Some u => Leased (wq_attempts r) (wq_max_attempts r) u
                 end.
Proof. intros Hr. unfold phase_of. by rewrite Hr. Qed.

Lemma live_not_ended s k r : queue_wf s → work_queue s !! k = Some r → k ∉ letter_ids s ∧ k ∉ erased_rows s.
Proof.
  intros (_ & _ & H3 & _) Hr. split; intros Hk; (destruct (H3 k); [apply elem_of_app; tauto|congruence]).
Qed.

(** ** Each call follows the protocol *)

Lemma claim_row_simulates s c n lease :
  work_queue s !! wq_id c = Some c → wq_attempts c ≤ wq_max_attempts c →
  (match wq_lease_expires_at c with None => true | Some l => l <? n end) = true →
  simulates s [Claimed (wq_id c) (wq_attempts c + 1) n (n + lease)]
    (set_queue (<[wq_id c := set_claim c (n + lease) (wq_attempts c + 1)]> (work_queue s)) s).
Proof.
  intros Hc Hle Hlease. apply simulates_one; [eapply update_wf; [done..|cbn; lia]|intros _ j; apply update_other|]. intros _.
  cbn [event_id]. rewrite (row_phase _ _ _ Hc). unfold phase_of. cbn [work_queue set_queue]. rewrite lookup_insert_eq.
  cbn. destruct (wq_lease_expires_at c) as [l|]; cbn; rewrite Z.eqb_refl, (proj2 (Z.leb_le _ _) Hle); cbn; [|done].
  by rewrite Hlease.
Qed.

Lemma exhaust_row_simulates s c n why :
  work_queue s !! wq_id c = Some c → wq_max_attempts c < wq_attempts c →
  simulates s [Exhausted (wq_id c)] (bury c n why s).
Proof.
  intros Hc Hlt. apply simulates_one; [by eapply bury_wf|intros _ j; apply bury_other|]. intros _.
  cbn [event_id]. rewrite (row_phase _ _ _ Hc), bury_phase.
  destruct (wq_lease_expires_at c); cbn; by rewrite (proj2 (Z.ltb_lt _ _) Hlt).
Qed.

Lemma disposition_simulates id attempts lease a n s b evs s' :
  queue_disposition id attempts lease a n s = Ok (b, evs, s') → simulates s evs s'.
Proof.
  unfold queue_disposition. destruct (_ && _); cbn; [|done].
  destruct (work_queue s !! id) as [r|] eqn:Hr; [|intros H; simplify_eq; apply simulates_refl].
  destruct (wq_attempts r =? attempts) eqn:Ha; cbn; [|intros H; simplify_eq; apply simulates_refl].
  case_bool_decide as Hl; cbn; [|intros H; simplify_eq; apply simulates_refl].
  destruct (_ && _); [|intros H; simplify_eq; apply simulates_refl]. apply Z.eqb_eq in Ha. subst attempts.
  destruct a; intros H; simplify_eq.
  - apply simulates_one; [apply delete_wf|intros _ j; apply delete_other|]. intros Hwf.
    destruct (live_not_ended _ _ _ Hwf Hr) as [Hnl Hne]. destruct Hwf as (_ & _ & _ & H4).
    cbn [event_id]. rewrite (row_phase _ _ _ Hr), Hl. cbn. rewrite Z.eqb_refl. f_equal. unfold phase_of.
    change (letter_ids (set_queue _ s)) with (letter_ids s). cbn.
    rewrite lookup_delete_eq, !bool_decide_false by done.
    destruct (H4 _ _ Hr) as (_ & ? & _). rewrite (proj2 (Z.leb_le _ _)), (proj2 (Z.ltb_lt _ _)) by lia. done.
  - apply simulates_one; [by eapply update_wf|intros _ j; apply update_other|]. intros _.
    cbn [event_id]. rewrite (row_phase _ _ _ Hr), Hl. cbn. rewrite Z.eqb_refl. unfold phase_of. cbn.
    by rewrite lookup_insert_eq.
  - intros Hwf. destruct Hwf as (H1 & H2 & H3 & H4) eqn:E. clear E. destruct (H4 _ _ Hr) as [Hid _].
    apply simulates_one; [by eapply bury_wf| | |done].
    + intros _ j Hj. apply bury_other. cbn in Hj. congruence.
    + intros _. cbn [event_id]. rewrite (row_phase _ _ _ Hr), Hl. cbn. rewrite Z.eqb_refl, <- Hid. by rewrite bury_phase.
Qed.

(** The candidates are rows of the table, free at [n], with distinct ids; a write to one
    leaves the others as they were selected. *)
Definition fresh_candidates (s : queue_state) (n : Z) (cs : list queue_row) : Prop :=
  NoDup (wq_id <$> cs)
  ∧ ∀ c, c ∈ cs → work_queue s !! wq_id c = Some c
                  ∧ match wq_lease_expires_at c with None => true | Some l => l <? n end = true.

Lemma fresh_tail s s' n c cs :
  (∀ j, j ≠ wq_id c → work_queue s' !! j = work_queue s !! j) →
  fresh_candidates s n (c :: cs) → fresh_candidates s' n cs.
Proof.
  intros Heq [Hnd Hin]. rewrite fmap_cons in Hnd. apply NoDup_cons in Hnd as [Hnotin Hnd]. split; [done|]. intros d Hd.
  destruct (Hin d) as [Hd1 Hd2]; [by right|]. split; [|done]. rewrite Heq; [done|].
  intros Hid. apply Hnotin. rewrite <- Hid. by apply list_elem_of_fmap_2.
Qed.

Lemma claim_loop_simulates n lease limit cs : ∀ claimed s rows evs s',
  fresh_candidates s n cs → claim_loop n lease limit claimed cs s = (rows, evs, s') → simulates s evs s'.
Proof.
  induction cs as [|c cs IH]; intros claimed s rows evs s' Hf; cbn [claim_loop].
  { intros [= _ <- <-]. apply simulates_refl. }
  destruct (proj2 Hf c) as [Hc Hfree]; [by left|].
  destruct (Z.ltb_spec (wq_max_attempts c) (wq_attempts c)) as [Hlt|Hge].
  - destruct (claim_loop _ _ _ _ _ _) as [[rows1 evs1] s1] eqn:E. intros [= <- <- <-].
    eapply (simulates_trans _ [Exhausted (wq_id c)]); [by apply exhaust_row_simulates|].
    eapply IH; [|exact E]. eapply fresh_tail; [|exact Hf]. intros j Hj. cbn. by rewrite lookup_delete_ne.
  - destruct (wq_authority_version c =? 1).
    + pose proof (claim_row_simulates s c n lease Hc Hge Hfree) as Hone.
      destruct (limit <=? claimed + 1); [by intros [= <- <- <-]|].
      destruct (claim_loop _ _ _ _ _ _) as [[rows1 evs1] s1] eqn:E. intros [= <- <- <-].
      eapply (simulates_trans _ [_]); [exact Hone|].
      eapply IH; [|exact E]. eapply fresh_tail; [|exact Hf]. intros j Hj. cbn. by rewrite lookup_insert_ne.
    + destruct (limit <=? claimed); [intros [= <- <- <-]; apply simulates_refl|].
      apply IH. by eapply fresh_tail.
Qed.

Lemma table_ids_NoDup s : queue_wf s → NoDup (wq_id <$> (map_to_list (work_queue s)).*2).
Proof.
  intros (_ & _ & _ & H4). rewrite <- list_fmap_compose, (list_fmap_ext _ fst); [apply NoDup_fst_map_to_list|].
  intros i [k r] Hi%list_elem_of_lookup_2%elem_of_map_to_list. by apply H4.
Qed.

Lemma table_row s r : queue_wf s → r ∈ (map_to_list (work_queue s)).*2 → work_queue s !! wq_id r = Some r.
Proof.
  intros (_ & _ & _ & H4) ([k q] & -> & Hq%elem_of_map_to_list)%list_elem_of_fmap. cbn. by destruct (H4 _ _ Hq) as [-> _].
Qed.

Lemma candidates_fresh s locked topic n limit : queue_wf s → fresh_candidates s n (candidates s locked topic n limit).
Proof.
  intros Hwf. split.
  - unfold candidates. rewrite fmap_take. eapply sublist_NoDup; [|apply sublist_take].
    rewrite py_sorted_Permutation. by apply filter_keys_NoDup, table_ids_NoDup.
  - intros c Hc. apply subseteq_take, elem_of_py_sorted, list_elem_of_In, filter_In in Hc.
    destruct Hc as [Hin Hcl]. unfold claimable in Hcl. rewrite !andb_true_iff in Hcl.
    destruct Hcl as [[[_ Hfree] _] _]. split; [|done].
    by apply table_row, list_elem_of_In.
Qed.

Lemma decode_rows_simulates n rows : ∀ s items evs s',
  decode_rows n rows s = Ok (items, evs, s') → simulates s evs s'.
Proof.
  induction rows as [|r rows IH]; intros s items evs s'; cbn [decode_rows].
  { intros H. simplify_eq. apply simulates_refl. }
  destruct (row_to_item r) as [item|].
  - destruct (decode_rows n rows s) as [[[its es] s1]|] eqn:E; cbn; [|done].
    intros H. simplify_eq. by eapply IH.
  - destruct (exact _); cbn; [|done]. destruct (exact_int 1 (wq_id r)); cbn; [|done].
    destruct (exact_int 1 (wq_attempts r)); cbn; [|done].
    destruct (queue_disposition _ _ _ _ _ _) as [[[b es1] s1]|] eqn:Ed; cbn; [|done].
    destruct (decode_rows n rows s1) as [[[its es] s2]|] eqn:E; cbn; [|done].
    intros H. simplify_eq. eapply simulates_trans; [by eapply disposition_simulates|by eapply IH].
Qed.

Lemma worker_claim_simulates cfg locked topic k n s items evs s' :
  worker_claim cfg locked topic k n s = Ok (items, evs, s') → simulates s evs s'.
Proof.
  unfold worker_claim, queue_claim. destruct (supported_topic topic); cbn; [|done]. destruct (0 <? k); cbn; [|done].
  destruct (_ && _); cbn; [|done]. destruct (claim_loop _ _ _ _ _ _) as [[rows es] s1] eqn:Ec.
  destruct (decode_rows n rows s1) as [[[its es'] s2]|] eqn:Ed; cbn; [|done].
  intros H. simplify_eq. intros Hwf. eapply simulates_trans; [|by eapply decode_rows_simulates|done].
  eapply claim_loop_simulates; [by apply candidates_fresh|exact Ec].
Qed.

Lemma enqueue_simulates s r :
  simulates s [Enqueued (next_row_id s) (wq_max_attempts r)]
    (mkQueue (<[next_row_id s := new_row (next_row_id s) r]> (work_queue s)) (dead_letter s) (next_row_id s + 1)
       (fenced_projects s) (erased_rows s) (erased_letters s)).
Proof.
  apply simulates_one; cbn [event_id].
  - intros (H1 & H2 & H3 & H4). split_and!; cbn; [lia|done| |].
    + intros j Hj. destruct (H3 j Hj). rewrite lookup_insert_ne by lia. split; [lia|done].
    + intros j q. rewrite lookup_insert_Some. intros [[<- <-]|[_ Hq]]; cbn; [lia|]. apply H4 in Hq. lia.
  - intros _ k Hk. unfold phase_of. cbn [work_queue next_row_id erased_rows]. rewrite lookup_insert_ne by done.
    change (letter_ids (mkQueue _ _ _ _ _ _)) with (letter_ids s).
    destruct (work_queue s !! k); [done|]. do 2 (case_bool_decide; [done|]).
    destruct (1 <=? k); cbn; [|done]. by replace (k <? next_row_id s + 1) with (k <? next_row_id s) by lia.
  - intros (H1 & H2 & H3 & H4). unfold phase_of. cbn. rewrite lookup_insert_eq. cbn.
    destruct (work_queue s !! next_row_id s) as [q|] eqn:Hq; [apply H4 in Hq; lia|].
    rewrite !bool_decide_false by (intros Hin; destruct (H3 (next_row_id s)); [apply elem_of_app; tauto|lia]). rewrite (Z.ltb_irrefl (next_row_id s)), andb_false_r. done.
Qed.

Lemma elem_of_selected {A} (ctid : A → Z) limit p l x : x ∈ selected ctid limit p l → x ∈ l ∧ p x = true.
Proof.
  intros Hx%subseteq_take. by apply elem_of_py_sorted, list_elem_of_In, filter_In in Hx as [?%list_elem_of_In ?].
Qed.

Lemma selected_NoDup {A} (key : A → Z) ctid limit p l : NoDup (key <$> l) → NoDup (key <$> selected ctid limit p l).
Proof.
  intros Hnd. unfold selected. rewrite fmap_take. eapply sublist_NoDup; [|apply sublist_take].
  rewrite py_sorted_Permutation. by apply filter_keys_NoDup.
Qed.

Lemma events_of_purged k rows : NoDup rows → events_of k (Purged <$> rows) = if decide (k ∈ rows) then [Purged k] else [].
Proof.
  induction 1 as [|j rows Hj Hnd IH]; [done|]. rewrite fmap_cons. unfold events_of in *. cbn. rewrite IH.
  destruct (Z.eqb_spec j k) as [->|Hne].
  - rewrite decide_False by done. rewrite decide_True by by left. done.
  - destruct (decide (k ∈ rows)); [rewrite decide_True by by right|rewrite decide_False by set_solver]; done.
Qed.

(** What the purge takes from the tables: live rows, dead letters, each once. *)
Lemma purge_rows_live pr limit ctid s k : queue_wf s →
  k ∈ wq_id <$> selected ctid limit (covers pr) ((map_to_list (work_queue s)).*2) →
  ∃ r, work_queue s !! k = Some r ∧ covers pr r = true.
Proof.
  intros Hwf (r & -> & [Hr Hc]%elem_of_selected)%list_elem_of_fmap. exists r. split; [by apply table_row|done].
Qed.

Lemma remaining_letters (letters : list Z) l : NoDup (wq_id ∘ dl_row <$> l) → NoDup letters →
  (∀ k, k ∈ letters → k ∈ wq_id ∘ dl_row <$> l) →
  (wq_id ∘ dl_row <$> List.filter (λ d, negb (bool_decide (wq_id (dl_row d) ∈ letters))) l) ++ letters
  ≡ₚ wq_id ∘ dl_row <$> l.
Proof.
  intros Hnd Hl Hsub. apply NoDup_Permutation; [|done|].
  - apply NoDup_app. split_and!; [by apply filter_keys_NoDup| |done].
    intros k (d & -> & [_ Hd]%list_elem_of_In%filter_In)%list_elem_of_fmap. by apply negb_true_iff, bool_decide_eq_false in Hd.
  - intros k. rewrite elem_of_app. split.
    + intros [(d & -> & [Hd _]%list_elem_of_In%filter_In)%list_elem_of_fmap|?]; [|by apply Hsub].
      apply list_elem_of_fmap_2. by apply list_elem_of_In.
    + intros (d & -> & Hd)%list_elem_of_fmap. destruct (decide (wq_id (dl_row d) ∈ letters)) as [?|Hn]; [by right|left].
      apply list_elem_of_fmap. exists d. split; [done|]. apply list_elem_of_In, filter_In. split; [by apply list_elem_of_In|].
      by rewrite bool_decide_false.
Qed.

Lemma purged_letter_ids pr limit dl_ctid q n ps rows s :
  let letters := (λ d, wq_id (dl_row d)) <$> selected dl_ctid limit (λ d, covers pr (dl_row d)) (dead_letter s) in
  NoDup (letter_ids s) →
  letter_ids (mkQueue q (List.filter (λ d, negb (bool_decide (wq_id (dl_row d) ∈ letters))) (dead_letter s)) n ps rows
                (erased_letters s ++ letters)) ≡ₚ letter_ids s.
Proof.
  intros letters Hnl. unfold letter_ids, buried_ids in *. cbn [dead_letter erased_letters].
  apply NoDup_app in Hnl as (Hb & _ & _).
  assert (Hrem : _ ++ letters ≡ₚ _) by (apply (remaining_letters letters (dead_letter s) Hb);
    [by apply (selected_NoDup (wq_id ∘ dl_row))|
     intros k (d & -> & [Hd _]%elem_of_selected)%list_elem_of_fmap; by apply (list_elem_of_fmap_2 (wq_id ∘ dl_row))]).
  transitivity ((wq_id ∘ dl_row <$> dead_letter s) ++ erased_letters s); [|done].
  rewrite <- Hrem, <- app_assoc. apply Permutation_app_head, Permutation_app_comm.
Qed.

Lemma primary_batch_simulates pr limit ctid dl_ctid s b evs s' :
  primary_batch pr limit ctid dl_ctid s = Ok (b, evs, s') → simulates s evs s'.
Proof.
  unfold primary_batch. destruct (_ && _); [|done]. set (rows := wq_id <$> _). set (letters := _ <$> selected dl_ctid _ _ _).
  intros H. apply (inj Ok) in H. injection H as _ <- <-. intros Hwf.
  assert (Hlive : ∀ k, k ∈ rows → ∃ r, work_queue s !! k = Some r ∧ covers pr r = true)
    by (intros k; by apply purge_rows_live).
  assert (Hnd : NoDup rows) by (by apply selected_NoDup, table_ids_NoDup).
  pose proof Hwf as (H1 & H2 & H3 & H4). apply NoDup_app in H2 as (Hnl & Hnle & Hne).
  pose proof (purged_letter_ids pr limit dl_ctid (foldr delete (work_queue s) rows) (next_row_id s) (fenced_projects s)
    (erased_rows s ++ rows) s Hnl) as Hletters. fold letters in Hletters.
  set (s' := mkQueue _ _ _ _ _ _) in *. split.
  - unfold queue_wf. rewrite Hletters. cbn [s' next_row_id erased_rows work_queue]. rewrite app_assoc. split_and!; [done| | |].
    + apply NoDup_app. split_and!; [by apply NoDup_app| |done]. intros k Hk (r & Hr & _)%Hlive. destruct (H3 k Hk). congruence.
    + intros k. rewrite Hletters, app_assoc, elem_of_app. intros [Hk|Hk].
      * destruct (H3 k Hk) as [? Hn]. split; [done|]. destruct (decide (k ∈ rows)); [by apply lookup_foldr_delete|].
        by rewrite lookup_foldr_delete_not_elem_of.
      * destruct (Hlive k Hk) as (r & Hr & _). destruct (H4 _ _ Hr) as (_ & ? & _). split; [done|by apply lookup_foldr_delete].
    + intros k r. destruct (decide (k ∈ rows)); [by rewrite lookup_foldr_delete|].
      rewrite lookup_foldr_delete_not_elem_of by done. apply H4.
  - intros k. rewrite events_of_purged by done.
    assert (Hlk : k ∈ letter_ids s' ↔ k ∈ letter_ids s) by by rewrite Hletters.
    case_decide as Hk.
    + destruct (Hlive k Hk) as (r & Hr & _). destruct (live_not_ended _ _ _ Hwf Hr) as [Hnk _].
      cbn. rewrite (row_phase _ _ _ Hr). unfold phase_of. rewrite (bool_decide_ext _ _ Hlk), bool_decide_false by done.
      cbn [s' work_queue erased_rows]. rewrite lookup_foldr_delete by done.
      rewrite bool_decide_true by (apply elem_of_app; by right). by destruct (wq_lease_expires_at r).
    + cbn. f_equal. unfold phase_of. rewrite (bool_decide_ext _ _ Hlk). cbn [s' work_queue erased_rows next_row_id].
      rewrite lookup_foldr_delete_not_elem_of by done.
      rewrite (bool_decide_ext (k ∈ erased_rows s ++ rows) (k ∈ erased_rows s)) by (rewrite elem_of_app; tauto). done.
Qed.

Lemma step_simulates cfg op s : simulates s (queue_step cfg op s).1 (queue_step cfg op s).2.
Proof.
  destruct op as [r|locked topic k n|item n|item b n|item why n|ps|pr limit ctid dl]; cbn [queue_step].
  - apply enqueue_simulates.
  - destruct (worker_claim _ _ _ _ _ _) as [[[its evs] s']|] eqn:E; cbn; [|apply simulates_refl].
    by eapply worker_claim_simulates.
  - unfold worker_ack. destruct (queue_disposition _ _ _ _ _ _) as [[[b evs] s']|] eqn:E; cbn; [|apply simulates_refl].
    by eapply disposition_simulates.
  - unfold worker_nack. destruct (0 <=? b); cbn; [|apply simulates_refl].
    destruct (queue_disposition _ _ _ _ _ _) as [[[b' evs] s']|] eqn:E; cbn; [|apply simulates_refl].
    by eapply disposition_simulates.
  - unfold worker_reject. destruct (bool_decide _); cbn; [|apply simulates_refl].
    destruct (queue_disposition _ _ _ _ _ _) as [[[b' evs] s']|] eqn:E; cbn; [|apply simulates_refl].
    by eapply disposition_simulates.
  - intros Hwf. split; [done|]. by intros k.
  - destruct (primary_batch _ _ _ _ _) as [[[b evs] s']|] eqn:E; cbn; [|apply simulates_refl].
    by eapply primary_batch_simulates.
Qed.

Lemma run_simulates cfg ops : ∀ s, simulates s (queue_run cfg ops s).1 (queue_run cfg ops s).2.
Proof.
  induction ops as [|op ops IH]; intros s; [apply simulates_refl|]. cbn [queue_run].
  pose proof (step_simulates cfg op s) as Hs. destruct (queue_step cfg op s) as [evs s1].
  specialize (IH s1). destruct (queue_run cfg ops s1) as [evs' s']. by eapply simulates_trans.
Qed.

Lemma empty_queue_wf : queue_wf empty_queue.
Proof. split_and!; cbn; [lia|constructor|by intros k ?%elem_of_nil|by intros k r]. Qed.

(** ** What a history in the protocol looks like *)

Definition is_claim (e : queue_event) : bool := match e with Claimed _ _ _ _ => true | _ => false end.
Definition is_terminal (e : queue_event) : bool :=
  match e with Acked _ _ | Rejected _ _ | Exhausted _ | Purged _ => true | _ => false end.
Definition claims (evs : list queue_event) : Z := Z.of_nat (length (List.filter is_claim evs)).

Definition trace_ok (k : Z) (tr : list queue_event) (p : phase) : Prop :=
  match p with
  | Absent => tr = []
  | Ready a m => Enqueued k m ∈ tr ∧ a = claims tr ∧ (∀ b t u, last tr ≠ Some (Claimed k b t u))
  | Leased a m u => Enqueued k m ∈ tr ∧ a = claims tr ∧ (∃ t, last tr = Some (Claimed k a t u)) ∧ a ≤ m + 1
  | Done | Buried | Erased => True
  end.

Lemma claims_snoc tr e : claims (tr ++ [e]) = claims tr + (if is_claim e then 1 else 0).
Proof. unfold claims. rewrite List.filter_app, length_app. cbn. destruct (is_claim e); cbn; lia. Qed.

Lemma phase_run_None evs : phase_run evs None = None.
Proof. by induction evs. Qed.

Lemma phase_run_app l l' p : phase_run (l ++ l') p = phase_run l' (phase_run l p).
Proof. apply fold_left_app. Qed.

Lemma phase_run_trace k tr p :
  (∀ e, e ∈ tr → event_id e = k) → phase_run tr (Some Absent) = Some p → trace_ok k tr p.
Proof.
  revert p. induction tr as [|e tr IH] using rev_ind; intros p Hk; [by intros [= <-]|].
  rewrite phase_run_app. cbn. destruct (phase_run tr (Some Absent)) as [q|] eqn:Hq; [|done]. cbn.
  assert (Hq' : trace_ok k tr q) by (apply IH; [intros e' ?; apply Hk, elem_of_app; by left|done]).
  assert (He : event_id e = k) by (apply Hk, elem_of_app; right; by left). clear IH Hk Hq.
  destruct e, q; cbn in *; try done; repeat (case_match; try done); intros [= <-]; cbn; try done;
    rewrite ?elem_of_app, claims_snoc, ?last_snoc; cbn; naive_solver (set_solver || lia).
Qed.

Lemma events_of_id k evs e : e ∈ events_of k evs → event_id e = k.
Proof. unfold events_of. rewrite list_elem_of_In, filter_In. by intros [_ ?%Z.eqb_eq]. Qed.

Lemma elem_of_events_of k evs e : e ∈ events_of k evs → e ∈ evs.
Proof. unfold events_of. rewrite !list_elem_of_In, filter_In. by intros [? _]. Qed.

Lemma events_of_cons_id e l : events_of (event_id e) (e :: l) = e :: events_of (event_id e) l.
Proof. unfold events_of. cbn. by rewrite Z.eqb_refl. Qed.

Lemma terminal_stuck e evs p q : is_terminal e = true → phase_run evs (Some p ≫= phase_step e) = Some q → evs = [].
Proof.
  intros He. destruct (Some p ≫= phase_step e) as [p'|] eqn:Hp; [|by rewrite phase_run_None].
  assert (Hp' : p' = Done ∨ p' = Buried ∨ p' = Erased).
  { destruct e, p; cbn in *; try done; repeat (case_match; try done); simplify_eq; auto. }
  destruct evs as [|e' evs]; [done|]. intros Hrun.
  replace (phase_run (e' :: evs) (Some p')) with (phase_run evs None) in Hrun; [by rewrite phase_run_None in Hrun|].
  destruct Hp' as [-> | [-> | ->]]; by destruct e'.
Qed.

(** The protocol read off a history: a disposition follows its own claim, a claim comes
    after the last lease has run out (or was given back), and nothing follows an end. *)
Definition event_fenced (l1 : list queue_event) (e : queue_event) (l2 : list queue_event) : Prop :=
  let k := event_id e in
  match e with
  | Enqueued _ _ => events_of k l1 = []
  | Claimed _ a t _ =>
      a = claims (events_of k l1) + 1
      ∧ (∃ m, Enqueued k m ∈ l1 ∧ a ≤ m + 1)
      ∧ (∀ b t' u, last (events_of k l1) = Some (Claimed k b t' u) → u < t)
  | Acked _ a | Nacked _ a | Rejected _ a => ∃ t u, last (events_of k l1) = Some (Claimed k a t u)
  | Exhausted _ => ∃ m, Enqueued k m ∈ l1 ∧ m < claims (events_of k l1)
  | Purged _ => ∃ m, Enqueued k m ∈ l1
  end
  ∧ (is_terminal e = true → events_of k l2 = []).

Lemma protocol_fenced l1 e l2 q :
  phase_run (events_of (event_id e) (l1 ++ e :: l2)) (Some Absent) = Some q → event_fenced l1 e l2.
Proof.
  intros Hrun. rewrite events_of_app, events_of_cons_id, phase_run_app in Hrun.
  destruct (phase_run (events_of (event_id e) l1) (Some Absent)) as [p|] eqn:Hp;
    [|by rewrite phase_run_None in Hrun].
  split; [|intros He; by apply (terminal_stuck e _ p q)].
  pose proof (phase_run_trace _ _ _ (events_of_id _ _) Hp) as Htr.
  pose proof (elem_of_events_of (event_id e) l1) as Hin.
  change (phase_run (e :: events_of (event_id e) l2) (Some p))
    with (phase_run (events_of (event_id e) l2) (phase_step e p)) in Hrun.
  destruct (phase_step e p) as [p'|] eqn:Hs; [|by rewrite phase_run_None in Hrun]. clear Hrun Hp.
  destruct e, p; cbn in *; try done; repeat (case_match; try done); simplify_eq;
    repeat match goal with H : _ && _ = true |- _ => apply andb_true_iff in H as [??] end; destruct_and?.
  - split_and!; [lia|exists max_attempts; split; [by apply Hin|lia]|naive_solver].
  - split_and!; [lia|exists max_attempts; split; [by apply Hin|lia]|].
    intros b t' v Hl. match goal with H : ∃ t, last _ = _ |- _ => destruct H as [? Hl'] end. rewrite Hl' in Hl. simplify_eq. lia.
  - replace attempts with attempts0 by lia. naive_solver.
  - replace attempts with attempts0 by lia. naive_solver.
  - replace attempts with attempts0 by lia. naive_solver.
  - exists max_attempts. split; [by apply Hin|lia].
  - exists max_attempts. split; [by apply Hin|lia].
  - exists max_attempts. by apply Hin.
  - exists max_attempts. by apply Hin.
Qed.

Lemma empty_phase k : phase_of empty_queue k = Absent.
Proof. unfold phase_of. cbn. destruct (Z.leb_spec 1 k), (Z.ltb_spec k 1); cbn; [lia|done..]. Qed.

(** ** What a purge may take *)

(** [k] was taken by a purge of a fenced project, from the table it was in, being covered. *)
Definition purged_from (cfg : QueueConfig) (ops : list queue_op) (s0 : queue_state) (k : Z) : Prop :=
  ∃ ops1 pr limit ctid dl_ctid ops2, ops = ops1 ++ Purge pr limit ctid dl_ctid :: ops2 ∧
    let s := (queue_run cfg ops1 s0).2 in
    pr_project pr ∈ fenced_projects s
    ∧ ∃ r, wq_id r = k ∧ covers pr r = true ∧ (work_queue s !! k = Some r ∨ r ∈ dl_row <$> dead_letter s).

Definition erased (s : queue_state) : list Z := erased_rows s ++ erased_letters s.

Lemma disposition_erased id attempts lease a n s b evs s' :
  queue_disposition id attempts lease a n s = Ok (b, evs, s') → erased s' = erased s.
Proof.
  unfold queue_disposition. destruct (_ && _); cbn; [|done]. destruct (work_queue s !! id); [|by intros [= _ _ <-]].
  case_match; [|by intros [= _ _ <-]]. destruct a; intros H'; apply (inj Ok) in H'; by injection H' as _ _ <-.
Qed.

Lemma claim_loop_erased n lease limit cs : ∀ claimed s, erased (claim_loop n lease limit claimed cs s).2 = erased s.
Proof.
  induction cs as [|c cs IH]; intros claimed s; [done|]. cbn [claim_loop]. destruct (_ <? _).
  - specialize (IH claimed (bury c n (of_ascii "max_attempts_exceeded") s)). by destruct (claim_loop _ _ _ _ _ _) as [[??]?].
  - destruct (_ =? _).
    + destruct (_ <=? _); [done|].
      specialize (IH (claimed + 1) (set_queue (<[wq_id c:=set_claim c (n + lease) (wq_attempts c + 1)]> (work_queue s)) s)).
      by destruct (claim_loop _ _ _ _ _ _) as [[??]?].
    + destruct (_ <=? _); [done|]. apply IH.
Qed.

Lemma decode_rows_erased n rows : ∀ s items evs s', decode_rows n rows s = Ok (items, evs, s') → erased s' = erased s.
Proof.
  induction rows as [|r rows IH]; intros s items evs s'; cbn [decode_rows]; [by intros [= _ _ <-]|].
  destruct (row_to_item r) as [item|].
  - destruct (decode_rows n rows s) as [[[its es] s1]|] eqn:E; cbn; [|done]. intros [= _ _ <-]. by eapply IH.
  - destruct (exact _); cbn; [|done]. destruct (exact_int 1 (wq_id r)); cbn; [|done].
    destruct (exact_int 1 (wq_attempts r)); cbn; [|done].
    destruct (queue_disposition _ _ _ _ _ _) as [[[b es1] s1]|] eqn:Ed; cbn; [|done].
    destruct (decode_rows n rows s1) as [[[its es] s2]|] eqn:E; cbn; [|done].
    intros [= _ _ <-]. rewrite (IH _ _ _ _ E). by eapply disposition_erased.
Qed.

Lemma worker_claim_erased cfg locked topic k n s items evs s' :
  worker_claim cfg locked topic k n s = Ok (items, evs, s') → erased s' = erased s.
Proof.
  unfold worker_claim, queue_claim. destruct (supported_topic topic); cbn; [|done]. destruct (0 <? k); cbn; [|done].
  destruct (_ && _); cbn; [|done].
  pose proof (claim_loop_erased n (lease_seconds cfg * 1000000) (Z.min k (batch_size cfg))
    (candidates s locked topic n (Z.min k (batch_size cfg))) 0 s) as Hc.
  destruct (claim_loop _ _ _ _ _ _) as [[rows es] s1]. cbn in Hc.
  destruct (decode_rows n rows s1) as [[[its es'] s2]|] eqn:Ed; cbn; [|done].
  intros [= _ _ <-]. rewrite <- Hc. by eapply decode_rows_erased.
Qed.

Lemma primary_batch_erased pr limit ctid dl_ctid s b evs s' k : queue_wf s →
  primary_batch pr limit ctid dl_ctid s = Ok (b, evs, s') → k ∈ erased s' →
  k ∈ erased s ∨ pr_project pr ∈ fenced_projects s
    ∧ ∃ r, wq_id r = k ∧ covers pr r = true ∧ (work_queue s !! k = Some r ∨ r ∈ dl_row <$> dead_letter s).
Proof.
  intros Hwf. unfold primary_batch. destruct (bool_decide _) eqn:Hf; [|done]. apply bool_decide_eq_true in Hf.
  destruct (_ && _); [|done]. cbn [rbind]. intros H. apply (inj Ok) in H. injection H as _ _ <-. unfold erased. cbn.
  rewrite !elem_of_app. intros [[?|Hk]|[?|Hk]]; [by left; left| |by left; right|]; right; (split; [done|]).
  - destruct (purge_rows_live _ _ _ _ _ Hwf Hk) as (r & Hr & Hc). exists r. destruct Hwf as (_ & _ & _ & H4).
    split; [by apply H4|]. by split; [|left].
  - apply list_elem_of_fmap in Hk as (d & -> & [Hd Hc]%elem_of_selected). exists (dl_row d).
    split; [done|]. split; [done|]. right. by apply list_elem_of_fmap_2.
Qed.

Lemma step_erased cfg op s k : queue_wf s → k ∈ erased (queue_step cfg op s).2 →
  k ∈ erased s ∨ purged_from cfg [op] s k.
Proof.
  intros Hwf. destruct op as [r|locked topic i n|item n|item b n|item why n|ps|pr limit ctid dl]; cbn [queue_step]; try by left.
  - destruct (worker_claim _ _ _ _ _ _) as [[[its evs] s']|] eqn:E; cbn; [|by left]. rewrite (worker_claim_erased _ _ _ _ _ _ _ _ _ E). by left.
  - unfold worker_ack. destruct (queue_disposition _ _ _ _ _ _) as [[[b evs] s']|] eqn:E; cbn; [|by left].
    rewrite (disposition_erased _ _ _ _ _ _ _ _ _ E). by left.
  - unfold worker_nack. destruct (0 <=? b); cbn; [|by left].
    destruct (queue_disposition _ _ _ _ _ _) as [[[b' evs] s']|] eqn:E; cbn; [|by left].
    rewrite (disposition_erased _ _ _ _ _ _ _ _ _ E). by left.
  - unfold worker_reject. destruct (bool_decide _); cbn; [|by left].
    destruct (queue_disposition _ _ _ _ _ _) as [[[b' evs] s']|] eqn:E; cbn; [|by left].
    rewrite (disposition_erased _ _ _ _ _ _ _ _ _ E). by left.
  - destruct (primary_batch _ _ _ _ _) as [[[b evs] s']|] eqn:E; cbn; [|by left].
    intros Hk. destruct (primary_batch_erased _ _ _ _ _ _ _ _ _ Hwf E Hk) as [?|?]; [by left|right].
    by exists [], pr, limit, ctid, dl, [].
Qed.

Lemma run_erased cfg ops : ∀ s k, queue_wf s → k ∈ erased (queue_run cfg ops s).2 →
  k ∈ erased s ∨ purged_from cfg ops s k.
Proof.
  induction ops as [|op ops IH]; intros s k Hwf; [by left|]. cbn [queue_run].
  pose proof (step_simulates cfg op s Hwf) as [Hwf1 _]. pose proof (step_erased cfg op s k Hwf) as Hstep.
  destruct (queue_step cfg op s) as [evs s1] eqn:E. cbn [fst snd] in *. specialize (IH s1 k Hwf1).
  destruct (queue_run cfg ops s1) as [evs' s'] eqn:E'. cbn [snd] in *. intros Hk.
  destruct (IH Hk) as [Hk1|(ops1 & pr & limit & ctid & dl & ops2 & -> & Hp)].
  - destruct (Hstep Hk1) as [?|(ops1 & pr & limit & ctid & dl & ops2 & Hops & Hp)]; [by left|right].
    destruct ops1; [|by destruct ops1]. cbn in Hops. injection Hops as -> <-. by exists [], pr, limit, ctid, dl, ops.
  - right. exists (op :: ops1), pr, limit, ctid, dl, ops2. split; [done|]. cbn [queue_run]. rewrite E.
    by destruct (queue_run cfg ops1 s1).
Qed.

(** ** What a claim hands out *)







#[export] Instance row_leb_total : TotalPreorder row_leb.
Proof.
  split.
  - intros a b. unfold row_leb. destruct (Z.eqb_spec (wq_priority a) (wq_priority b)) as [->|]; [rewrite Z.eqb_refl; lia|].
    destruct (Z.eqb_spec (wq_priority b) (wq_priority a)); lia.
  - intros a b c. unfold row_leb.
    destruct (Z.eqb_spec (wq_priority a) (wq_priority b)), (Z.eqb_spec (wq_priority b) (wq_priority c)),
      (Z.eqb_spec (wq_priority a) (wq_priority c)); lia.
Qed.





(** The settings do not keep within what the function accepts. *)
Lemma oversized_claim_denied cfg locked topic k n s :
  supported_topic topic = true → 100 < k → 100 < batch_size cfg →
  worker_claim cfg locked topic k n s = Err QDenied.
Proof.
  intros Ht Hk Hb. unfold worker_claim, queue_claim. rewrite Ht, (proj2 (Z.ltb_lt 0 k)) by lia.
  replace (Z.min k (batch_size cfg) <=? 100) with false by lia. by rewrite andb_false_r.
Qed.

(** ** The theorems *)

(** [C36] Whatever the producers, the workers and the erasure requests do, and in whatever
    order, the tables show for every row id the phase its history reached in the lease
    protocol: absent, ready, leased, done, buried or erased.  In particular no row is ever
    lost: an enqueued row is in [work_queue], in [dead_letter] (exactly once), acknowledged,
    or was deleted from one of the two tables by a purge of its own project, under an open
    erasure request that covers the row. *)
Theorem queue_refines_lease_protocol cfg ops k :
  let run := queue_run cfg ops empty_queue in
  phase_run (events_of k run.1) (Some Absent) = Some (phase_of run.2 k)
  ∧ NoDup (buried_ids run.2)
  ∧ (k ∈ buried_ids run.2 → work_queue run.2 !! k = None)
  ∧ (k ∈ erased run.2 → purged_from cfg ops empty_queue k)
  ∧ (phase_of run.2 k = Buried → k ∈ buried_ids run.2 ∨ k ∈ erased run.2)
  ∧ (phase_of run.2 k = Erased → k ∈ erased run.2).
Proof.
  cbn zeta. destruct (run_simulates cfg ops empty_queue empty_queue_wf) as [(_ & H2 & H3 & _) Hp]. split_and!.
  - by rewrite <- Hp, empty_phase.
  - by apply NoDup_app in H2 as [[? _]%NoDup_app _].
  - intros Hk. apply H3. apply elem_of_app; left. by apply elem_of_app; left.
  - intros Hk. by destruct (run_erased cfg ops empty_queue k empty_queue_wf Hk) as [[]%elem_of_nil|].
  - unfold phase_of. case_match; [by case_match|]. case_bool_decide as Hk; [|by repeat case_match].
    intros _. apply elem_of_app in Hk as [?|?]; [by left|right]. by apply elem_of_app; right.
  - unfold phase_of. case_match; [by case_match|]. case_bool_decide; [done|].
    case_bool_decide; [intros _; by apply elem_of_app; left|by case_match].
Qed.

(** [C37] Every acknowledgement, retry and rejection that takes effect settles the row's
    latest claim, once and before any other; a row is claimed at most [max_attempts + 1]
    times and never while an earlier lease is running; a row that was acknowledged,
    rejected, exhausted or purged is never seen again; and only a row claimed more often than its
    [max_attempts] is given up. *)
Theorem leases_are_fenced cfg ops log s l1 e l2 :
  queue_run cfg ops empty_queue = (log, s) → log = l1 ++ e :: l2 → event_fenced l1 e l2.
Proof.
  intros Hrun ->. destruct (run_simulates cfg ops empty_queue empty_queue_wf) as [_ Hp].
  rewrite Hrun in Hp. specialize (Hp (event_id e)).
  rewrite empty_phase in Hp. by eapply protocol_fenced.
Qed.


(** ** A history: claimed, given back, claimed again, acknowledged *)

Definition demo_cfg : QueueConfig := mkQueueConfig 30 5 10.

Definition demo_row : queue_row :=
  mkQueueRow 1 (mkProjectId (mkUUID 7 I)) TOPIC_TRACE_EVENT (JObj []) 100 0 5 0 0 None 1 (Some (mkUUID 11 I)) (Some (mkUUID 12 I)) (Some (mkUUID 13 I)) (Some (mkUUID 14 I))
    (Some (of_ascii "data")) None (Some (mkUUID 12 I)) (Some (mkUUID 13 I)) [].

Definition demo_item (attempts lease : Z) : QueueItem :=
  mkItem 1 TOPIC_TRACE_EVENT (mkProjectId (mkUUID 7 I)) [] 100 attempts (mkRunId (mkUUID 11 I)) (mkPrincipalId (mkUUID 12 I)) (mkAgentTypeId (mkUUID 13 I)) (mkUUID 14 I)
    (of_ascii "data") None (mkPrincipalId (mkUUID 12 I)) (mkAgentTypeId (mkUUID 13 I)) [] 5 0 0 lease.

Definition demo_ops : list queue_op :=
  [Enqueue demo_row; Claim [] TOPIC_TRACE_EVENT 4 1000; Nack (demo_item 1 30001000) 0 2000;
   Ack (demo_item 1 30001000) 2500; Claim [] TOPIC_TRACE_EVENT 4 3000; Ack (demo_item 2 30003000) 4000].

Definition demo_log : list queue_event :=
  [Enqueued 1 5; Claimed 1 1 1000 30001000; Nacked 1 1; Claimed 1 2 3000 30003000; Acked 1 2].

(** The late acknowledgement of the first generation has no effect; the second one settles. *)
Lemma leases_are_fenced_witness :
  queue_run demo_cfg demo_ops empty_queue = (demo_log, (queue_run demo_cfg demo_ops empty_queue).2)
  ∧ event_fenced (take 4 demo_log) (Acked 1 2) [].
Proof.
  assert (Hrun : queue_run demo_cfg demo_ops empty_queue = (demo_log, (queue_run demo_cfg demo_ops empty_queue).2))
    by (vm_compute; reflexivity).
  split; [exact Hrun|]. apply (leases_are_fenced demo_cfg demo_ops demo_log (queue_run demo_cfg demo_ops empty_queue).2).
  - exact Hrun.
  - reflexivity.
Defined.

(** An erasure of another project takes nothing; one of the row's project takes the row. *)
Example purge_covers_its_project :
  queue_run demo_cfg
    [Enqueue demo_row; Fence [mkProjectId (mkUUID 8 I)];
     Purge (mkPurge (mkProjectId (mkUUID 8 I)) true None []) 100 wq_id (wq_id ∘ dl_row);
     Purge (mkPurge (mkProjectId (mkUUID 7 I)) true None []) 100 wq_id (wq_id ∘ dl_row);
     Fence [mkProjectId (mkUUID 7 I)];
     Purge (mkPurge (mkProjectId (mkUUID 7 I)) false None [mkUUID 11 I]) 100 wq_id (wq_id ∘ dl_row)] empty_queue
  = ([Enqueued 1 5; Purged 1], mkQueue ∅ [] 2 [mkProjectId (mkUUID 7 I)] [1] []).
Proof. vm_compute. reflexivity. Qed.

