(* ===== verification/Corroboration.v ===== *)
(** * Recording corroborating runs (workers/corroboration.py, stores/pg/learning.py)

    [CorroborationWriter] over the columns of [memory_item] it reads and the one it writes
    ([CorroborationRepo]).  The append is one statement that locks its row and decides against the
    locked version, so it is atomic; the snapshot a writer decides on may be stale.  The source
    of candidate runs is a collaborator.  [corroboration_step] interleaves any number of writers
    with whatever else moves rows. *)

From S2P Require Import Prelude Domain PyText StateMachine Independence Memory ShadowValidator.
Open Scope Z_scope.

Inductive AppendOutcome := APPENDED | ALREADY_PRESENT | ROW_NOT_ELIGIBLE.

Record QuarantinedMemoryForCorroboration := mkCorroborable {
  qc_id : MemoryId;
  qc_project_id : ProjectId;
  qc_status : Status;
  qc_provenance : Provenance;
  qc_confirming_run_ids : list RunId;
}.

(** The reasons a run is not recorded. *)
Inductive refusal := OwnOrigin | AtCapacity | NotEligible.

Record CorroborationOutcome := mkCorroboration {
  co_memory_id : MemoryId;
  co_run_id : RunId;
  co_recorded : bool;
  co_newly_added : bool;
  co_reason : option refusal;
}.

Record CorroborationBatchResult := mkCorroborationBatch { cb_rows_examined : nat; cb_outcomes : list CorroborationOutcome }.

(** ** The store *)

(** The columns of [memory_item], by [(project_id, id)]. *)
Record memory_row := mkMemoryRow {
  mr_status : Status;
  mr_provenance : Provenance;
  mr_shadow_confirm_runs : list RunId;
  mr_created_at : Z;
}.
Abbreviation memory_table := (gmap (ProjectId * MemoryId) memory_row).

Definition row_to_quarantined (k : ProjectId * MemoryId) (r : memory_row) : result exn QuarantinedMemoryForCorroboration :=
  check! bool_decide (mr_status r = QUARANTINED) else TracebedError in
  Ok (mkCorroborable k.2 k.1 (mr_status r) (mr_provenance r) (mr_shadow_confirm_runs r)).

(** [ORDER BY created_at, id] *)
Definition select_leb (a b : (ProjectId * MemoryId) * memory_row) : bool :=
  (mr_created_at a.2 <? mr_created_at b.2)
  || ((mr_created_at a.2 =? mr_created_at b.2) && (uuid_int (MemoryId_value a.1.2) <=? uuid_int (MemoryId_value b.1.2))%N).

Definition select_quarantined (p : ProjectId) (t : memory_table) : result exn (list QuarantinedMemoryForCorroboration) :=
  rmap (λ x, row_to_quarantined x.1 x.2)
    (py_sorted select_leb (List.filter (λ x, bool_decide (x.1.1 = p) && bool_decide (mr_status x.2 = QUARANTINED)) (map_to_list t))).

(** What the statement returns: [appended], [already_present], [eligible], or no row. *)
Definition append_statement (p : ProjectId) (m : MemoryId) (run : RunId) (t : memory_table) : option (bool * bool * bool) * memory_table :=
  match t !! (p, m) with
  | None => (None, t)
  | Some r =>
      let eligible := bool_decide (mr_status r = QUARANTINED) in
      let present := bool_decide (run ∈ mr_shadow_confirm_runs r) in
      let appends := eligible && negb present in
      (Some (appends, present, eligible),
       if appends then <[(p, m) := mkMemoryRow (mr_status r) (mr_provenance r) (mr_shadow_confirm_runs r ++ [run]) (mr_created_at r)]> t else t)
  end.

Definition append_outcome (row : option (bool * bool * bool)) : result exn AppendOutcome :=
  match row with
  | None => Ok ROW_NOT_ELIGIBLE
  | Some (appended, already_present, eligible) =>
      if appended : bool then Ok APPENDED
      else if negb eligible then Ok ROW_NOT_ELIGIBLE
      else if already_present : bool then Ok ALREADY_PRESENT else Err TracebedError
  end.

Definition append_confirming_run (p : ProjectId) (m : MemoryId) (run : RunId) (t : memory_table) : result exn AppendOutcome * memory_table :=
  let '(row, t') := append_statement p m run t in (append_outcome row, t').

(** ** The writer *)

Definition require_quarantined (row : QuarantinedMemoryForCorroboration) (p : ProjectId) : result exn unit :=
  check! bool_decide (qc_project_id row = p) else TracebedError in
  check! bool_decide (qc_status row = QUARANTINED) else TracebedError in Ok tt.

Definition record_one (p : ProjectId) (row : QuarantinedMemoryForCorroboration) (run : RunId) (t : memory_table)
  : result exn CorroborationOutcome * memory_table :=
  match require_quarantined row p with
  | Err e => (Err e, t)
  | Ok _ =>
      let outcome := mkCorroboration (qc_id row) run in
      if bool_decide (run ∈ origin_runs (qc_provenance row)) then (Ok (outcome false false (Some OwnOrigin)), t)
      else if bool_decide (run ∈ qc_confirming_run_ids row) then (Ok (outcome true false None), t)
      else if (MAX_CONFIRMATIONS_CONSIDERED <=? length (qc_confirming_run_ids row))%nat then (Ok (outcome false false (Some AtCapacity)), t)
      else
        let '(appended, t') := append_confirming_run p (qc_id row) run t in
        match appended with
        | Ok APPENDED => (Ok (outcome true true None), t')
        | Ok ALREADY_PRESENT => (Ok (outcome true false None), t')
        | Ok ROW_NOT_ELIGIBLE => (Ok (outcome false false (Some NotEligible)), t')
        | Err e => (Err e, t')
        end
  end.

(** The snapshot after an outcome. *)
Definition advance_snapshot (row : QuarantinedMemoryForCorroboration) (o : CorroborationOutcome) : QuarantinedMemoryForCorroboration :=
  if co_recorded o && negb (bool_decide (co_run_id o ∈ qc_confirming_run_ids row))
  then mkCorroborable (qc_id row) (qc_project_id row) (qc_status row) (qc_provenance row) (qc_confirming_run_ids row ++ [co_run_id o])
  else row.

Fixpoint record_runs (p : ProjectId) (current : QuarantinedMemoryForCorroboration) (offered : list RunId) (t : memory_table)
  : result exn (list CorroborationOutcome) * memory_table :=
  match offered with
  | [] => (Ok [], t)
  | run :: offered' =>
      match record_one p current run t with
      | (Err e, t') => (Err e, t')
      | (Ok o, t') =>
          match record_runs p (advance_snapshot current o) offered' t' with
          | (Ok os, t'') => (Ok (o :: os), t'')
          | (Err e, t'') => (Err e, t'')
          end
      end
  end.

Fixpoint record_rows (p : ProjectId) (source : QuarantinedMemoryForCorroboration → result exn (list RunId))
    (rows : list QuarantinedMemoryForCorroboration) (t : memory_table) : result exn (list CorroborationOutcome) * memory_table :=
  match rows with
  | [] => (Ok [], t)
  | row :: rows' =>
      match source row with
      | Err e => (Err e, t)
      | Ok offered =>
          match record_runs p row offered t with
          | (Err e, t') => (Err e, t')
          | (Ok os, t') =>
              match record_rows p source rows' t' with
              | (Ok os', t'') => (Ok (os ++ os'), t'')
              | (Err e, t'') => (Err e, t'')
              end
          end
      end
  end.

Definition corroborate_once (p : ProjectId) (source : QuarantinedMemoryForCorroboration → result exn (list RunId)) (t : memory_table)
  : result exn CorroborationBatchResult * memory_table :=
  match (let! rows := select_quarantined p t in let! _ := rmap (λ row, require_quarantined row p) rows in Ok rows) with
  | Err e => (Err e, t)
  | Ok rows =>
      match record_rows p source rows t with
      | (Ok os, t') => (Ok (mkCorroborationBatch (length rows) os), t')
      | (Err e, t') => (Err e, t')
      end
  end.

(** ** The append *)

Lemma append_run_spec p m run t : ∃ o, (append_confirming_run p m run t).1 = Ok o ∧
  match t !! (p, m) with
  | Some r =>
      if decide (mr_status r = QUARANTINED)
      then if decide (run ∈ mr_shadow_confirm_runs r)
           then o = ALREADY_PRESENT ∧ (append_confirming_run p m run t).2 = t
           else o = APPENDED ∧ (append_confirming_run p m run t).2
                  = <[(p, m) := mkMemoryRow (mr_status r) (mr_provenance r) (mr_shadow_confirm_runs r ++ [run]) (mr_created_at r)]> t
      else o = ROW_NOT_ELIGIBLE ∧ (append_confirming_run p m run t).2 = t
  | None => o = ROW_NOT_ELIGIBLE ∧ (append_confirming_run p m run t).2 = t
  end.
Proof.
  unfold append_confirming_run, append_statement. destruct (t !! (p, m)) as [r|]; [|by eexists].
  destruct (decide (mr_status r = QUARANTINED)); [rewrite (bool_decide_eq_true_2 (mr_status r = _)) by done|rewrite (bool_decide_eq_false_2 (mr_status r = _)) by done; by eexists].
  destruct (decide (run ∈ mr_shadow_confirm_runs r)); [rewrite bool_decide_eq_true_2 by done|rewrite bool_decide_eq_false_2 by done]; by eexists.
Qed.

(** ** Any number of writers *)

Definition with_runs (r : memory_row) (runs : list RunId) : memory_row := mkMemoryRow (mr_status r) (mr_provenance r) runs (mr_created_at r).
Abbreviation row_key row := (qc_project_id row, qc_id row).

(** The table, the snapshots writers hold, the outcomes reported (with the project of the call), and every key that was ever used. *)
Record corroboration_world := mkCorroborationWorld {
  cw_table : memory_table;
  cw_snapshots : list QuarantinedMemoryForCorroboration;
  cw_log : list (ProjectId * CorroborationOutcome);
  cw_seen : gset (ProjectId * MemoryId);
}.

(** Writers select and record, a call at a time, on whatever snapshot they hold; other workers move rows between statuses,
    create them without confirmations, under ids never used before, and delete them. *)
Inductive corroboration_step (w : corroboration_world) : corroboration_world → Prop :=
| step_select p rows : select_quarantined p (cw_table w) = Ok rows →
    corroboration_step w (mkCorroborationWorld (cw_table w) (cw_snapshots w ++ rows) (cw_log w) (cw_seen w))
| step_record p row run o t : row ∈ cw_snapshots w → record_one p row run (cw_table w) = (Ok o, t) →
    corroboration_step w (mkCorroborationWorld t (cw_snapshots w ++ [advance_snapshot row o]) (cw_log w ++ [(p, o)]) (cw_seen w))
| step_status k r s : cw_table w !! k = Some r →
    corroboration_step w (mkCorroborationWorld (<[k := mkMemoryRow s (mr_provenance r) (mr_shadow_confirm_runs r) (mr_created_at r)]> (cw_table w))
                            (cw_snapshots w) (cw_log w) (cw_seen w))
| step_insert k s prov created : k ∉ cw_seen w →
    corroboration_step w (mkCorroborationWorld (<[k := mkMemoryRow s prov [] created]> (cw_table w)) (cw_snapshots w) (cw_log w) ({[k]} ∪ cw_seen w))
| step_delete k : corroboration_step w (mkCorroborationWorld (delete k (cw_table w)) (cw_snapshots w) (cw_log w) (cw_seen w)).

(** Distinct runs, none of them an origin of the memory. *)
Definition evidence_ok (r : memory_row) : Prop :=
  NoDup (mr_shadow_confirm_runs r) ∧ ∀ run, run ∈ mr_shadow_confirm_runs r → run ∉ origin_runs (mr_provenance r).

Definition addition (x : ProjectId * CorroborationOutcome) : ProjectId * MemoryId * RunId := (x.1, co_memory_id x.2, co_run_id x.2).

Record evidence_inv (w : corroboration_world) : Prop := {
  ei_rows : ∀ k r, cw_table w !! k = Some r → evidence_ok r;
  ei_seen : ∀ k r, cw_table w !! k = Some r → k ∈ cw_seen w;
  ei_snapshots : ∀ row, row ∈ cw_snapshots w → row_key row ∈ cw_seen w ∧ ∀ r, cw_table w !! row_key row = Some r →
    qc_provenance row = mr_provenance r ∧ ∀ run, run ∈ qc_confirming_run_ids row → run ∈ mr_shadow_confirm_runs r;
  ei_log : ∀ p o, (p, o) ∈ cw_log w → co_recorded o = true → (p, co_memory_id o) ∈ cw_seen w ∧
    ∀ r, cw_table w !! (p, co_memory_id o) = Some r → co_run_id o ∈ mr_shadow_confirm_runs r;
  ei_once : NoDup (addition <$> List.filter (λ x, co_newly_added x.2) (cw_log w));
  ei_newly : ∀ p o, (p, o) ∈ cw_log w → co_newly_added o = true → co_recorded o = true;
}.

(** The rows after an append extend the rows before. *)
Definition rows_extend (t t' : memory_table) : Prop :=
  ∀ k r', t' !! k = Some r' → ∃ r new, t !! k = Some r ∧ r' = with_runs r (mr_shadow_confirm_runs r ++ new).

Lemma rows_extend_refl t : rows_extend t t.
Proof. intros k r Hr. exists r, []. rewrite app_nil_r. by destruct r. Qed.

(** One call. *)
Lemma record_one_spec p row run t o t' : record_one p row run t = (Ok o, t') →
  qc_project_id row = p ∧ co_memory_id o = qc_id row ∧ co_run_id o = run
  ∧ ((t' = t ∧ co_newly_added o = false
      ∧ (co_recorded o = true → run ∈ qc_confirming_run_ids row ∨ ∃ r, t !! (p, qc_id row) = Some r ∧ run ∈ mr_shadow_confirm_runs r))
     ∨ ∃ r, t !! (p, qc_id row) = Some r ∧ mr_status r = QUARANTINED ∧ run ∉ mr_shadow_confirm_runs r ∧ run ∉ origin_runs (qc_provenance row)
         ∧ (length (qc_confirming_run_ids row) < MAX_CONFIRMATIONS_CONSIDERED)%nat
         ∧ t' = <[(p, qc_id row) := with_runs r (mr_shadow_confirm_runs r ++ [run])]> t ∧ co_recorded o = true ∧ co_newly_added o = true).
Proof.
  unfold record_one, require_quarantined. case_bool_decide as Hp; [|done]. case_bool_decide as Hs; [|done]. cbn iota.
  case_bool_decide as Ho; [intros [= <- <-]; split_and!; try done; by left|].
  case_bool_decide as Hin; [intros [= <- <-]; split_and!; try done; left; split_and!; try done; by left|].
  destruct (Nat.leb_spec MAX_CONFIRMATIONS_CONSIDERED (length (qc_confirming_run_ids row))); [intros [= <- <-]; split_and!; try done; by left|].
  destruct (append_run_spec p (qc_id row) run t) as (a & Ha & Hcases). destruct (append_confirming_run p (qc_id row) run t) as [ra t1]. cbn [fst snd] in *. subst ra.
  destruct (t !! (p, qc_id row)) as [r|] eqn:Hr; [destruct (decide (mr_status r = QUARANTINED)); [destruct (decide (run ∈ mr_shadow_confirm_runs r))|]|];
    destruct Hcases as [-> ->]; intros [= <- <-]; (split_and!; [done..|]).
  - left. split_and!; [done|done|]. intros _. right. by exists r.
  - right. by exists r.
  - left. by split_and!.
  - left. by split_and!.
Qed.

Lemma record_one_extends p row run t o t' : record_one p row run t = (Ok o, t') → rows_extend t t'.
Proof.
  intros (_ & _ & _ & [(-> & _)|(r & Hr & _ & _ & _ & _ & -> & _)])%record_one_spec; [apply rows_extend_refl|].
  intros k r'. destruct (decide (k = (p, qc_id row))) as [->|Hne]; [rewrite lookup_insert_eq; intros [= <-]; by exists r, [run]|].
  rewrite lookup_insert_ne by done. apply rows_extend_refl.
Qed.

(** Rows of before keep their provenance and their runs; the others are new. *)
Definition table_later (seen : gset (ProjectId * MemoryId)) (t t' : memory_table) : Prop :=
  ∀ k r', t' !! k = Some r' → k ∉ seen ∨ ∃ r, t !! k = Some r ∧ mr_provenance r' = mr_provenance r
    ∧ ∀ run, run ∈ mr_shadow_confirm_runs r → run ∈ mr_shadow_confirm_runs r'.

Definition snapshot_ok (seen : gset (ProjectId * MemoryId)) (t : memory_table) (row : QuarantinedMemoryForCorroboration) : Prop :=
  row_key row ∈ seen ∧ ∀ r, t !! row_key row = Some r →
    qc_provenance row = mr_provenance r ∧ ∀ run, run ∈ qc_confirming_run_ids row → run ∈ mr_shadow_confirm_runs r.
Definition logged_ok (seen : gset (ProjectId * MemoryId)) (t : memory_table) (x : ProjectId * CorroborationOutcome) : Prop :=
  co_recorded x.2 = true → (x.1, co_memory_id x.2) ∈ seen ∧ ∀ r, t !! (x.1, co_memory_id x.2) = Some r → co_run_id x.2 ∈ mr_shadow_confirm_runs r.

Lemma snapshot_later seen seen' t t' row : table_later seen t t' → seen ⊆ seen' → snapshot_ok seen t row → snapshot_ok seen' t' row.
Proof.
  intros Hl Hs [Hk Hr]. split; [by apply Hs|]. intros r' Hr'. destruct (Hl _ _ Hr') as [?|(r & Hr0 & Hp & Hsub)]; [done|].
  destruct (Hr r Hr0) as [Hprov Hruns]. split; [congruence|]. intros run Hrun. by apply Hsub, Hruns.
Qed.

Lemma logged_later seen seen' t t' x : table_later seen t t' → seen ⊆ seen' → logged_ok seen t x → logged_ok seen' t' x.
Proof.
  intros Hl Hs Hx Hrec. destruct (Hx Hrec) as [Hk Hr]. split; [by apply Hs|]. intros r' Hr'.
  destruct (Hl _ _ Hr') as [?|(r & Hr0 & _ & Hsub)]; [done|]. by apply Hsub, Hr.
Qed.

Lemma extend_later seen t t' : rows_extend t t' → table_later seen t t'.
Proof. intros Hx k r' Hr'. destruct (Hx k r' Hr') as (r & new & Hr & ->). right. exists r. split_and!; [done|done|]. intros run Hrun. apply elem_of_app. by left. Qed.

(** What changes the table only. *)
Lemma inv_table w t' seen' : evidence_inv w → table_later (cw_seen w) (cw_table w) t' → cw_seen w ⊆ seen' →
  (∀ k r, t' !! k = Some r → evidence_ok r ∧ k ∈ seen') → evidence_inv (mkCorroborationWorld t' (cw_snapshots w) (cw_log w) seen').
Proof.
  intros [Hrows Hseen Hsnap Hlog Honce Hnew] Hl Hs Hok. split; cbn; [by apply Hok|by apply Hok| | |done|done].
  - intros row Hrow. eapply snapshot_later; [done..|]. by apply Hsnap.
  - intros p o Ho. apply (logged_later (cw_seen w) seen' (cw_table w) t' (p, o)); [done..|]. exact (Hlog p o Ho).
Qed.

Lemma select_snapshot p t rows row : select_quarantined p t = Ok rows → row ∈ rows →
  ∃ r, t !! (p, qc_id row) = Some r ∧ mr_status r = QUARANTINED ∧ row = mkCorroborable (qc_id row) p (mr_status r) (mr_provenance r) (mr_shadow_confirm_runs r).
Proof.
  unfold select_quarantined. intros Hsel%rmap_Ok Hin. apply list_elem_of_lookup_1 in Hin as [i Hi]. destruct (Forall2_lookup_r _ _ _ _ _ Hsel Hi) as ([[p' m] r] & Hx & Hrow).
  apply list_elem_of_lookup_2 in Hx. rewrite py_sorted_Permutation in Hx. apply list_elem_of_In, List.filter_In in Hx as [Hx Hf]. apply list_elem_of_In, elem_of_map_to_list in Hx.
  cbn [fst snd] in *. apply andb_true_iff in Hf as [Hp%bool_decide_eq_true Hq%bool_decide_eq_true]. subst p'. unfold row_to_quarantined in Hrow.
  rewrite bool_decide_eq_true_2 in Hrow by done. injection Hrow as <-. by exists r.
Qed.

Lemma inv_select w p rows : evidence_inv w → select_quarantined p (cw_table w) = Ok rows →
  evidence_inv (mkCorroborationWorld (cw_table w) (cw_snapshots w ++ rows) (cw_log w) (cw_seen w)).
Proof.
  intros [Hrows Hseen Hsnap Hlog Honce Hnew] Hsel. split; cbn; [done|done| |done|done|done].
  intros row [?|Hin]%elem_of_app; [by apply Hsnap|]. destruct (select_snapshot _ _ _ _ Hsel Hin) as (r & Hr & _ & ->). cbn. split; [by eapply Hseen|].
  intros r' Hr'. rewrite Hr in Hr'. injection Hr' as <-. done.
Qed.

Lemma filter_snoc {A} (f : A → bool) l x : List.filter f (l ++ [x]) = List.filter f l ++ (if f x then [x] else []).
Proof. rewrite List.filter_app. cbn. by destruct (f x). Qed.

Lemma inv_record w p row run o t : evidence_inv w → row ∈ cw_snapshots w → record_one p row run (cw_table w) = (Ok o, t) →
  evidence_inv (mkCorroborationWorld t (cw_snapshots w ++ [advance_snapshot row o]) (cw_log w ++ [(p, o)]) (cw_seen w)).
Proof.
  intros Hinv Hrow Hrec. pose proof (extend_later (cw_seen w) _ _ (record_one_extends _ _ _ _ _ _ Hrec)) as Hl. pose proof Hinv as [Hrows Hseen Hsnap Hlog Honce Hnew].
  destruct (record_one_spec _ _ _ _ _ _ Hrec) as (Hp & Hm & Hr & Hcases). destruct (Hsnap row Hrow) as [Hk Hcur]. rewrite Hp in Hk, Hcur.
  assert (Hpresent : co_recorded o = true → ∀ r, t !! (p, qc_id row) = Some r → run ∈ mr_shadow_confirm_runs r).
  { intros Hrc r Htr. destruct Hcases as [(-> & _ & Hin)|(r0 & _ & _ & _ & _ & _ & -> & _)].
    - destruct (Hin Hrc) as [Hin'|(r0 & Hr0 & Hin')]; [by eapply Hcur|congruence].
    - rewrite lookup_insert_eq in Htr. injection Htr as <-. cbn. apply elem_of_app. right. left. }
  assert (Hok : ∀ k r, t !! k = Some r → evidence_ok r ∧ k ∈ cw_seen w).
  { intros k r. destruct Hcases as [(-> & _)|(r0 & Hr0 & _ & Hni & Hno & _ & -> & _)]; [intros ?; split; [by eapply Hrows|by eapply Hseen]|].
    destruct (decide (k = (p, qc_id row))) as [->|Hne]; [|rewrite lookup_insert_ne by done; intros ?; split; [by eapply Hrows|by eapply Hseen]].
    rewrite lookup_insert_eq. intros [= <-]. split; [|done]. destruct (Hrows _ _ Hr0) as [Hnd Horg], (Hcur _ Hr0) as [Hprov _]. split; cbn.
    - apply NoDup_app. split_and!; [done| |apply NoDup_singleton]. intros x Hx ->%list_elem_of_singleton. done.
    - intros x [?| ->%list_elem_of_singleton]%elem_of_app; [by apply Horg|by rewrite <- Hprov]. }
  destruct (inv_table w t (cw_seen w) Hinv Hl (reflexivity _) Hok) as [HA HB HC HD HE HF]. cbn in *. split; cbn; [done|done|..].
  - intros x [Hx| ->%list_elem_of_singleton]%elem_of_app; [by apply HC|]. unfold advance_snapshot.
    destruct (co_recorded o) eqn:Hrc; cbn [andb]; [|by apply HC]. case_bool_decide; cbn [negb]; [by apply HC|]. cbn. rewrite Hp. split; [done|].
    intros r Htr. destruct (HC row Hrow) as [_ HCr]. rewrite Hp in HCr. destruct (HCr r Htr) as [? Hsub]. split; [done|].
    intros x [?| ->%list_elem_of_singleton]%elem_of_app; [by apply Hsub|]. rewrite Hr. by apply Hpresent.
  - intros p' o' [?|[= -> ->]%list_elem_of_singleton]%elem_of_app Hrc; [by apply HD|]. rewrite Hm, Hr. split; [done|]. by apply Hpresent.
  - rewrite filter_snoc, fmap_app. apply NoDup_app. destruct (co_newly_added o) eqn:Hna; cbn; rewrite Hna; cbn; [|split_and!; [done|by intros ? _ ?%elem_of_nil|constructor]].
    split_and!; [done| |apply NoDup_singleton]. intros x Hx ->%list_elem_of_singleton. unfold addition in Hx. cbn in Hx. rewrite Hm, Hr in Hx.
    apply list_elem_of_fmap in Hx as ([p' o'] & Heq & Hx). cbn in Heq. injection Heq as Hp' Hm' Hr'.
    apply list_elem_of_In, List.filter_In in Hx as [Hx Hna']. apply list_elem_of_In in Hx. cbn in Hna'.
    destruct Hcases as [(_ & ? & _)|(r0 & Hr0 & _ & Hni & _)]; [congruence|]. apply Hni. rewrite Hr'.
    apply (Hlog p' o' Hx (Hnew p' o' Hx Hna')). by rewrite <- Hp', <- Hm'.
  - intros p' o' [?|[= -> ->]%list_elem_of_singleton]%elem_of_app; [by apply (HF p')|]. destruct Hcases as [(_ & ? & _)|(? & _ & _ & _ & _ & _ & _ & ? & _)]; congruence.
Qed.

Lemma inv_step w w' : evidence_inv w → corroboration_step w w' → evidence_inv w'.
Proof.
  intros Hinv Hstep. pose proof Hinv as [Hrows Hseen _ _ _ _]. destruct Hstep as [p rows Hsel|p row run o t Hrow Hrec|k r s Hr|k s prov created Hk|k].
  - by eapply inv_select.
  - by eapply inv_record.
  - apply inv_table; [done| |done|].
    + intros k' r'. destruct (decide (k' = k)) as [->|]; [rewrite lookup_insert_eq; intros [= <-]; right; by exists r|]. rewrite lookup_insert_ne by done. intros ?. right. by exists r'.
    + intros k' r'. destruct (decide (k' = k)) as [->|]; [rewrite lookup_insert_eq; intros [= <-]|rewrite lookup_insert_ne by done; intros ?]; (split; [|by eapply Hseen]).
      * destruct (Hrows _ _ Hr) as [? ?]. by split.
      * by eapply Hrows.
  - apply inv_table; [done| |set_solver|].
    + intros k' r'. destruct (decide (k' = k)) as [->|]; [by left|]. rewrite lookup_insert_ne by done. intros ?. right. by exists r'.
    + intros k' r'. destruct (decide (k' = k)) as [->|]; [rewrite lookup_insert_eq; intros [= <-]; split; [|set_solver]|rewrite lookup_insert_ne by done; intros Hr'; split; [by eapply Hrows|apply Hseen in Hr'; set_solver]].
      split; [constructor|by intros ? ?%elem_of_nil].
  - apply inv_table; [done| |done|].
    + intros k' r' [_ Hr']%lookup_delete_Some. right. by exists r'.
    + intros k' r' [_ Hr']%lookup_delete_Some. split; [by eapply Hrows|by eapply Hseen].
Qed.

Definition start_corroboration (t : memory_table) : corroboration_world := mkCorroborationWorld t [] [] (dom t).

(** [C15] The evidence that lets a memory out of quarantine stays sound under any number of concurrent writers, with any
    snapshots, while rows change status, are created and deleted: the recorded runs of a memory are distinct and
    none of them is one of its own origin runs; a run reported as recorded is in the column for as long as the
    row exists; and no two calls both report to have added the same run. *)
Theorem corroboration_sound t w : (∀ k r, t !! k = Some r → evidence_ok r) → rtc corroboration_step (start_corroboration t) w →
  (∀ k r, cw_table w !! k = Some r → NoDup (mr_shadow_confirm_runs r) ∧ ∀ run, run ∈ mr_shadow_confirm_runs r → run ∉ origin_runs (mr_provenance r))
  ∧ (∀ p o, (p, o) ∈ cw_log w → co_recorded o = true → ∀ w' r, rtc corroboration_step w w' → cw_table w' !! (p, co_memory_id o) = Some r →
       co_run_id o ∈ mr_shadow_confirm_runs r)
  ∧ NoDup (addition <$> List.filter (λ x, co_newly_added x.2) (cw_log w)).
Proof.
  intros Ht Hw. assert (Hstart : evidence_inv (start_corroboration t)).
  { split; cbn; [done|intros k r Hk; by apply elem_of_dom_2 in Hk|by intros ? ?%elem_of_nil|by intros ? ? ?%elem_of_nil|constructor|by intros ? ? ?%elem_of_nil]. }
  assert (Hsteps : ∀ a b, rtc corroboration_step a b → evidence_inv a → evidence_inv b).
  { intros a b Hab. induction Hab as [|a b c Hs _ IH]; [done|]. intros Ha. apply IH. by eapply inv_step. }
  pose proof (Hsteps _ _ Hw Hstart) as Hinv. split_and!; [apply (ei_rows _ Hinv)| |apply (ei_once _ Hinv)].
  intros p o Ho Hrec w' r Hww' Hr. assert (Hlog : (p, o) ∈ cw_log w').
  { clear -Ho Hww'. induction Hww' as [|a b c Hs _ IH]; [done|]. apply IH. destruct Hs; cbn; try done. apply elem_of_app. by left. }
  by apply (ei_log _ (Hsteps _ _ Hww' Hinv) p o Hlog Hrec).
Qed.

(** ** One batch *)

(** What a batch adds to a row for the runs offered: distinct new ones that are not origins, as many as the cap allows, and all of them below it. *)
Record accepted (r : memory_row) (offered new : list RunId) : Prop := {
  ac_distinct : NoDup new;
  ac_sound : ∀ run, run ∈ new → run ∈ offered ∧ run ∉ origin_runs (mr_provenance r) ∧ run ∉ mr_shadow_confirm_runs r;
  ac_bound : (length (mr_shadow_confirm_runs r ++ new) <= Nat.max MAX_CONFIRMATIONS_CONSIDERED (length (mr_shadow_confirm_runs r)))%nat;
  ac_all : (length (mr_shadow_confirm_runs r ++ new) < MAX_CONFIRMATIONS_CONSIDERED)%nat → ∀ run, run ∈ offered →
    run ∉ origin_runs (mr_provenance r) → run ∈ mr_shadow_confirm_runs r ++ new;
}.

Definition snapshot_of (p : ProjectId) (m : MemoryId) (r : memory_row) : QuarantinedMemoryForCorroboration :=
  mkCorroborable m p (mr_status r) (mr_provenance r) (mr_shadow_confirm_runs r).

Lemma accepted_skip r run offered new : accepted r offered new → run ∈ origin_runs (mr_provenance r) ∨ run ∈ mr_shadow_confirm_runs r
    ∨ (MAX_CONFIRMATIONS_CONSIDERED <= length (mr_shadow_confirm_runs r))%nat → accepted r (run :: offered) new.
Proof.
  intros [Hd Hs Hb Ha] Hskip. split; [done|intros x Hx; destruct (Hs x Hx) as (? & ? & ?); split_and!; [by right|done|done]|done|].
  intros Hlt x [->|Hx]%elem_of_cons Hno; [|by apply Ha]. destruct Hskip as [?|[?|Hcap]]; [done|apply elem_of_app; by left|]. rewrite length_app in Hlt. lia.
Qed.

Lemma accepted_take r run offered new : accepted (with_runs r (mr_shadow_confirm_runs r ++ [run])) offered new →
  run ∉ origin_runs (mr_provenance r) → run ∉ mr_shadow_confirm_runs r → (length (mr_shadow_confirm_runs r) < MAX_CONFIRMATIONS_CONSIDERED)%nat →
  accepted r (run :: offered) (run :: new).
Proof.
  intros [Hd Hs Hb Ha] Hno Hni Hlt. cbn [with_runs mr_provenance mr_shadow_confirm_runs] in *.
  assert (Happ : (mr_shadow_confirm_runs r ++ [run]) ++ new = mr_shadow_confirm_runs r ++ run :: new) by (by rewrite <- app_assoc). rewrite Happ in Hb, Ha.
  assert (Hin : ∀ x, x ∈ new → x ∈ offered ∧ x ∉ origin_runs (mr_provenance r) ∧ x ∉ mr_shadow_confirm_runs r ∧ x ≠ run).
  { intros x Hx. destruct (Hs x Hx) as (? & ? & Hx'). rewrite not_elem_of_app, list_elem_of_singleton in Hx'. tauto. }
  split.
  - constructor; [|done]. intros Hx. by destruct (Hin run Hx) as (_ & _ & _ & ?).
  - intros x [->|Hx]%elem_of_cons; [split_and!; [left|done|done]|]. destruct (Hin x Hx) as (? & ? & ? & _). split_and!; [by right|done|done].
  - rewrite (length_app _ [run]) in Hb. cbn [length] in Hb. lia.
  - intros Hl x [->|Hx]%elem_of_cons Hxo; [apply elem_of_app; right; left|by apply Ha].
Qed.

Lemma record_runs_spec p m offered : ∀ r t, t !! (p, m) = Some r → mr_status r = QUARANTINED →
  ∃ os new, record_runs p (snapshot_of p m r) offered t = (Ok os, <[(p, m) := with_runs r (mr_shadow_confirm_runs r ++ new)]> t) ∧ accepted r offered new.
Proof.
  induction offered as [|run offered IH]; intros r t Hr Hq; cbn [record_runs].
  { exists [], []. rewrite app_nil_r. split; [f_equal; symmetry; apply insert_id; rewrite Hr; by destruct r|].
    split; [constructor|by intros ? ?%elem_of_nil|rewrite app_nil_r; lia|by intros _ ? ?%elem_of_nil]. }
  unfold record_one, require_quarantined. cbn [snapshot_of qc_project_id qc_status qc_id qc_provenance qc_confirming_run_ids]. rewrite (bool_decide_eq_true_2 (p = p)), (bool_decide_eq_true_2 (mr_status r = QUARANTINED)) by done.
  assert (Hgo : ∀ o, advance_snapshot (snapshot_of p m r) o = snapshot_of p m r → (run ∈ origin_runs (mr_provenance r) ∨ run ∈ mr_shadow_confirm_runs r
      ∨ (MAX_CONFIRMATIONS_CONSIDERED <= length (mr_shadow_confirm_runs r))%nat) →
    ∃ os new, match record_runs p (advance_snapshot (snapshot_of p m r) o) offered t with (Ok os, t'') => (Ok (o :: os), t'') | (Err e, t'') => (Err e, t'') end
      = (Ok os, <[(p, m) := with_runs r (mr_shadow_confirm_runs r ++ new)]> t) ∧ accepted r (run :: offered) new).
  { intros o -> Hskip. destruct (IH r t Hr Hq) as (os & new & -> & Hacc). exists (o :: os), new. split; [done|by apply accepted_skip]. }
  fold (snapshot_of p m r). case_bool_decide as Ho; [apply Hgo; [done|by left]|].
  case_bool_decide as Hin; [apply Hgo; [|right; by left]; unfold advance_snapshot; cbn; by rewrite bool_decide_eq_true_2|].
  destruct (Nat.leb_spec MAX_CONFIRMATIONS_CONSIDERED (length (mr_shadow_confirm_runs r))); [apply Hgo; [done|right; by right]|]. clear Hgo.
  destruct (append_run_spec p m run t) as (a & Ha & Hcases). rewrite Hr in Hcases. destruct (decide (mr_status r = QUARANTINED)); [|done].
  destruct (decide (run ∈ mr_shadow_confirm_runs r)); [done|]. destruct Hcases as [-> Ht]. destruct (append_confirming_run p m run t) as [ra t1]. cbn [fst snd] in Ha, Ht. subst ra t1.
  set (r1 := with_runs r (mr_shadow_confirm_runs r ++ [run])). change (mkMemoryRow _ _ _ _) with r1.
  assert (Hadv : advance_snapshot (snapshot_of p m r) (mkCorroboration m run true true None) = snapshot_of p m r1) by (unfold advance_snapshot; cbn; by rewrite bool_decide_eq_false_2).
  rewrite Hadv. destruct (IH r1 (<[(p, m) := r1]> t)) as (os & new & -> & Hacc); [by rewrite lookup_insert_eq|done|].
  exists (mkCorroboration m run true true None :: os), (run :: new). split; [|by apply accepted_take]. f_equal. rewrite insert_insert_eq. f_equal. unfold r1, with_runs. cbn. by rewrite <- app_assoc.
Qed.

(** The rows after a batch. *)
Definition batch_effect (p : ProjectId) (offers : QuarantinedMemoryForCorroboration → list RunId) (touched : MemoryId → Prop) (t t' : memory_table) : Prop :=
  ∀ k, match t !! k with
       | None => t' !! k = None
       | Some r => ∃ new, t' !! k = Some (with_runs r (mr_shadow_confirm_runs r ++ new))
           ∧ ((k.1 = p ∧ touched k.2 → accepted r (offers (snapshot_of p k.2 r)) new) ∧ (¬ (k.1 = p ∧ touched k.2) → new = []))
       end.

Lemma record_rows_spec p offers rows : ∀ t, NoDup (qc_id <$> rows) →
  (∀ row, row ∈ rows → ∃ r, t !! (p, qc_id row) = Some r ∧ mr_status r = QUARANTINED ∧ row = snapshot_of p (qc_id row) r) →
  ∃ os t', record_rows p (λ row, Ok (offers row)) rows t = (Ok os, t') ∧ batch_effect p offers (λ m, m ∈ qc_id <$> rows) t t'.
Proof.
  induction rows as [|row rows IH]; intros t Hnd Hrows; cbn [record_rows].
  { exists [], t. split; [done|]. intros k. destruct (t !! k) as [r|]; [|done]. exists []. rewrite app_nil_r. split; [by destruct r|]. split; [|done].
    by intros [_ ?%elem_of_nil]. }
  rewrite fmap_cons, NoDup_cons in Hnd. destruct Hnd as [Hnew Hnd]. destruct (Hrows row ltac:(left)) as (r & Hr & Hq & Hsnap).
  destruct (record_runs_spec p (qc_id row) (offers row) r t Hr Hq) as (os & new & Hrec & Hacc). rewrite <- Hsnap in Hrec. rewrite Hrec. set (t1 := insert _ _ t) in *.
  destruct (IH t1 Hnd) as (os' & t2 & Hrest & Heff).
  { intros x Hx. destruct (Hrows x ltac:(by right)) as (rx & Hrx & Hqx & Hsx). exists rx. split_and!; [|done|done]. unfold t1. rewrite lookup_insert_ne; [done|].
    intros [= Heq]. apply Hnew. rewrite Heq. by apply list_elem_of_fmap_2. }
  rewrite Hrest. exists (os ++ os'), t2. split; [done|]. intros k. specialize (Heff k). unfold t1 in Heff. destruct (decide (k = (p, qc_id row))) as [->|Hne].
  - rewrite lookup_insert_eq in Heff. rewrite Hr. destruct Heff as (new' & Ht2 & _ & Hno). assert (new' = []) as -> by (apply Hno; cbn; tauto). rewrite app_nil_r in Ht2.
    exists new. split; [exact Ht2|]. cbn [fst snd]. rewrite <- Hsnap. split; [done|]. intros Hx. destruct Hx. split; [done|]. rewrite fmap_cons. left.
  - rewrite lookup_insert_ne in Heff by done. destruct (t !! k) as [rk|]; [|done]. destruct Heff as (new' & Ht2 & Hyes & Hno). exists new'. split; [done|]. split.
    + intros [Hk Hm]. apply Hyes. split; [done|]. rewrite fmap_cons in Hm. apply elem_of_cons in Hm as [Hm|Hm]; [|done]. destruct Hne. destruct k. cbn in *. congruence.
    + intros Hk. apply Hno. intros [? ?]. apply Hk. split; [done|]. rewrite fmap_cons. by right.
Qed.

Lemma select_quarantined_spec p t : ∃ rows, select_quarantined p t = Ok rows ∧ NoDup (qc_id <$> rows)
  ∧ (∀ m, m ∈ qc_id <$> rows ↔ ∃ r, t !! (p, m) = Some r ∧ mr_status r = QUARANTINED).
Proof.
  set (found := py_sorted select_leb (List.filter (λ x, bool_decide (x.1.1 = p) && bool_decide (mr_status x.2 = QUARANTINED)) (map_to_list t))).
  assert (Hin : ∀ x, x ∈ found ↔ t !! x.1 = Some x.2 ∧ x.1.1 = p ∧ mr_status x.2 = QUARANTINED).
  { intros [k r]. unfold found. rewrite py_sorted_Permutation, list_elem_of_In, List.filter_In, <- list_elem_of_In, elem_of_map_to_list. cbn.
    rewrite andb_true_iff, !bool_decide_eq_true. done. }
  assert (Hsel : select_quarantined p t = Ok ((λ x, snapshot_of x.1.1 x.1.2 x.2) <$> found)).
  { unfold select_quarantined. fold found. apply rmap_Ok, Forall2_fmap_r, Forall_Forall2_diag, Forall_forall. intros [[p' m] r] (_ & _ & Hq)%Hin. unfold row_to_quarantined. cbn in *.
    by rewrite bool_decide_eq_true_2. }
  eexists. split; [exact Hsel|]. split.
  - rewrite <- list_fmap_compose. assert (Hnd : NoDup found).
    { unfold found. rewrite py_sorted_Permutation. apply NoDup_ListNoDup, List.NoDup_filter, NoDup_ListNoDup, NoDup_map_to_list. }
    apply NoDup_fmap_2_strong; [|done]. intros [[p1 m1] r1] [[p2 m2] r2] (Hr1 & Hp1 & _)%Hin (Hr2 & Hp2 & _)%Hin Heq. cbn in *. subst. rewrite Hr1 in Hr2. by injection Hr2 as ->.
  - intros m. rewrite <- list_fmap_compose, list_elem_of_fmap. split.
    + intros ([[p' m'] r] & -> & (Hr & Hp & Hq)%Hin). cbn in *. subst p'. by exists r.
    + intros (r & Hr & Hq). exists ((p, m), r). split; [done|]. by apply Hin.
Qed.

(** [C16] A batch of the writer does exactly its work: where the source answers, it never raises; it changes nothing but
    the recorded runs of the project's quarantined memories; and to each of these it adds, from the runs the source
    offered for it, distinct ones that are neither recorded yet nor origins of the memory, never beyond the cap on
    confirmations, and below the cap all of them. *)
Theorem corroboration_batch p offers t : ∃ b t', corroborate_once p (λ row, Ok (offers row)) t = (Ok b, t')
  ∧ batch_effect p offers (λ m, ∃ r, t !! (p, m) = Some r ∧ mr_status r = QUARANTINED) t t'.
Proof.
  destruct (select_quarantined_spec p t) as (rows & Hsel & Hnd & Hids). unfold corroborate_once. rewrite Hsel. cbn [rbind].
  assert (Hreq : ∃ us, rmap (λ row, require_quarantined row p) rows = Ok us).
  { apply rmap_total. intros row Hrow. destruct (select_snapshot _ _ _ _ Hsel Hrow) as (r & _ & Hq & ->). exists tt.
    unfold require_quarantined. cbn. by rewrite !bool_decide_eq_true_2. }
  destruct Hreq as [us Hreq].
  rewrite Hreq. cbn [rbind]. destruct (record_rows_spec p offers rows t Hnd) as (os & t' & Hrec & Heff).
  { intros row Hrow. destruct (select_snapshot _ _ _ _ Hsel Hrow) as (r & Hr & Hq & Hs). by exists r. }
  rewrite Hrec. eexists _, t'. split; [done|]. intros k. specialize (Heff k). destruct (t !! k) as [r|]; [|done]. destruct Heff as (new & Ht' & Hyes & Hno).
  exists new. rewrite <- Hids. done.
Qed.

(** ** Witness: a quarantined memory, one run recorded *)

Definition project_c : ProjectId := mkProjectId (mkUUID 1 I).
Definition memory_c : MemoryId := mkMemoryId (mkUUID 2 I).
Definition origin_c : RunId := mkRunId (mkUUID 3 I).
Definition confirming_c : RunId := mkRunId (mkUUID 4 I).
Definition row_c : memory_row := mkMemoryRow QUARANTINED (mkProvenance PARSER [origin_c] None [] [] None None) [] 0.
Definition table_c : memory_table := {[(project_c, memory_c) := row_c]}.

(** The origin is refused, the other run recorded once however often it is offered. *)
Example batch_c : match corroborate_once project_c (λ _, Ok [origin_c; confirming_c; confirming_c]) table_c with
  | (Ok b, t) => ((λ o, (co_run_id o, co_recorded o, co_newly_added o)) <$> cb_outcomes b, mr_shadow_confirm_runs <$> t !! (project_c, memory_c))
  | _ => ([], None)
  end = ([(origin_c, false, false); (confirming_c, true, true); (confirming_c, true, false)], Some [confirming_c]).
Proof. vm_compute. reflexivity. Qed.

Lemma corroboration_sound_witness : ∃ w o, rtc corroboration_step (start_corroboration table_c) w ∧ (project_c, o) ∈ cw_log w ∧ co_recorded o = true
  ∧ ∀ k r, cw_table w !! k = Some r → NoDup (mr_shadow_confirm_runs r) ∧ ∀ run, run ∈ mr_shadow_confirm_runs r → run ∉ origin_runs (mr_provenance r).
Proof.
  assert (Htable : table_c !! (project_c, memory_c) = Some row_c) by apply lookup_singleton_eq.
  destruct (select_quarantined_spec project_c table_c) as (rows & Hsel & _ & Hids). assert (Hin : memory_c ∈ qc_id <$> rows) by (apply Hids; by exists row_c).
  apply list_elem_of_fmap in Hin as (row & Hid & Hrow). destruct (select_snapshot _ _ _ _ Hsel Hrow) as (r & Hr & _ & Hs). rewrite <- Hid, Htable in Hr. injection Hr as <-.
  rewrite <- Hid in Hs. assert (Hone : record_one project_c row confirming_c table_c
    = (Ok (mkCorroboration memory_c confirming_c true true None), (append_confirming_run project_c memory_c confirming_c table_c).2)).
  { rewrite Hs. unfold record_one. cbn -[append_confirming_run]. destruct (append_run_spec project_c memory_c confirming_c table_c) as (a & Ha & Hc). rewrite Htable in Hc.
    destruct (append_confirming_run _ _ _ _) as [ra t']. cbn [fst] in Ha. subst ra. destruct (decide (mr_status row_c = QUARANTINED)); [|done].
    destruct (decide (confirming_c ∈ mr_shadow_confirm_runs row_c)) as [?%elem_of_nil|]; [done|]. by destruct Hc as [-> _]. }
  eexists (mkCorroborationWorld _ _ _ _), _. match goal with |- ?A ∧ _ => assert (Hw : A) end.
  { eapply rtc_l; [eapply step_select; exact Hsel|]. eapply rtc_l; [|apply rtc_refl]. eapply step_record; [cbn; exact Hrow|exact Hone]. }
  split; [exact Hw|]. split; [cbn; left|]. split; [done|]. eapply (corroboration_sound table_c _); [|exact Hw].
  intros k r. unfold table_c. rewrite lookup_singleton_Some. intros [_ <-]. split; [constructor|by intros ? ?%elem_of_nil].
Defined.
