(* ===== verification/ShadowStore.v ===== *)
(** * The shadow validator over the vault (stores/pg/shadow_validator.py)

    [ShadowValidatorRepo] over the database of VaultStore.v, and [ShadowValidator.run_once]
    through it: the quarantined rows are selected once, each is judged by [evaluate_one]
    (ShadowValidator.v), and an approved exit is written by the status writer
    (StatusWriter.v), which checks the status again.  The corroboration writer of
    Corroboration.v runs over the column [shadow_confirm_runs] of the same table.  The trace
    index is the host's ([TracePrincipalLookupPort]), the parameter [lookup]. *)

From Stdlib Require Import Floats.
From S2P Require Import Prelude Domain PyText Json StateMachine Independence Memory ShadowValidator Corroboration Lifecycle VaultStore StatusWriter.
Open Scope Z_scope.

(** ** The store *)

(** The projection of [_SELECT_QUARANTINED_SQL]: [is_failure_lesson] is the literal [false]. *)
Definition quarantined_row (k : row_key) (c : memory_columns) : QuarantinedMemoryRow :=
  mkQRow k.2 k.1 (c_status c) (c_trust_tier c) (c_mem_type c) (c_provenance c) (c_status_changed_at c) false
    (c_shadow_confirm_runs c).

Definition row_to_quarantined_for_validation (p : ProjectId) (k : row_key) (c : memory_columns)
  : result exn QuarantinedMemoryRow :=
  check! bool_decide (k.1 = p) else TracebedError in
  check! bool_decide (c_status c = QUARANTINED) else TracebedError in
  Ok (quarantined_row k c).

(** [ORDER BY created_at, id]. *)
Definition created_leb (a b : row_key * memory_columns) : bool :=
  let ta := dt_us (c_created_at a.2) in
  let tb := dt_us (c_created_at b.2) in
  (ta <? tb) || ((ta =? tb) && (uuid_int (MemoryId_value a.1.2) <=? uuid_int (MemoryId_value b.1.2))%N).

Definition pg_select_quarantined (d : database) (p : ProjectId) : result exn (list QuarantinedMemoryRow) :=
  rmap (λ x, row_to_quarantined_for_validation p x.1 x.2)
    (py_sorted created_leb
       (List.filter (λ x, bool_decide (x.1.1 = p) && bool_decide (c_status x.2 = QUARANTINED)) (map_to_list (items d)))).

(** The [MemoryStatusWrite] of [persist]: no actor. *)
Definition shadow_status_write (w : ShadowTransitionWrite) : MemoryStatusWrite :=
  mkSWrite (ShadowValidator.w_memory_id w) (ShadowValidator.w_from_status w) (ShadowValidator.w_to_status w)
    (ShadowValidator.w_now w) None.

Definition persist_shadow (p : ProjectId) (w : ShadowTransitionWrite) : worker database unit :=
  let* sw := wlift (of_exn (status_write_post_init (shadow_status_write w))) in
  λ σ, match pg_persist_status σ.1 p sw [] [] (Some (w_epoch_id w)) None None with
       | Ok d' => (Ok tt, (d', σ.2))
       | Err e => (Err e, σ)
       end.

(** ** The validator *)

(** What [TransitionLimits.from_config] checks. *)
Definition config_limits (c : EffectiveConfig) : TransitionLimits :=
  mkLimits (cfg_quarantine_ttl_days c) (cfg_candidate_ttl_days c) (cfg_min_outcomes c)
    (cfg_failure_lesson_outcomes c) (cfg_promotion_min_distinct_principals c) (cfg_q_threshold c)
    (cfg_min_scored_uses c) (cfg_retirement_min_distinct_principals c) (cfg_archive_floor c).

Definition of_shadow (e : shadow_error) : lifecycle_error :=
  match e with ShadowExn e => LExn e | ShadowIllegal t => LTransition t end.

Section Validator.
Context (clock : nat → datetime) (lookup : ProjectId → RunId → option ConfirmingRun) (epoch_id : Z).

Definition validate_one (p : ProjectId) (cfg : EffectiveConfig) (row : QuarantinedMemoryRow)
  : worker database ShadowValidationOutcome :=
  let* _ := wlift (of_exn (require_row row p)) in
  let* n := wnow clock in
  match evaluate_one lookup epoch_id p row (config_limits cfg) n with
  | (Ok o, ws) => let* _ := wfor (persist_shadow p) ws in wret o
  | (Err e, _) => wlift (Err (of_shadow e))
  end.

Definition validate_once (p : ProjectId) (cfg : EffectiveConfig) : worker database ShadowValidationBatchResult :=
  let* rows := wtry (λ d, of_exn (pg_select_quarantined d p)) in
  let* os := wfor (validate_one p cfg) rows in
  wret (mkShadowBatch (length rows) os).
End Validator.

(** ** The corroboration writer on the same table *)

Definition corroboration_view (c : memory_columns) : memory_row :=
  mkMemoryRow (c_status c) (c_provenance c) (c_shadow_confirm_runs c) (dt_us (c_created_at c)).

Definition set_shadow_confirm_runs (runs : list RunId) (c : memory_columns) : memory_columns :=
  mkMemoryColumns (c_status c) (c_trust_tier c) (c_mem_type c) (c_provenance c) (c_status_changed_at c)
    (c_strike_count c) (c_last_retrieved_at c) (c_created_at c) (c_q_value c) (c_last_revalidated_at c)
    (c_scored_use_count c) (c_last_scored_at c) (c_epoch_id c) (c_subject_tag c) runs (c_hashes c).

(** [CorroborationWriter.corroborate_once]: the one column it writes is taken over. *)
Definition corroborate (p : ProjectId) (source : QuarantinedMemoryForCorroboration → result exn (list RunId)) (d : database)
  : database :=
  let t := (corroborate_once p source (corroboration_view <$> items d)).2 in
  set_items (map_imap (λ k c, Some (match t !! k with
                                    | Some r => set_shadow_confirm_runs (mr_shadow_confirm_runs r) c
                                    | None => c
                                    end)) (items d)) d.

(** ** Lemmas *)

Lemma selected_rows d p rows row : pg_select_quarantined d p = Ok rows → row ∈ rows →
  ∃ k c, items d !! k = Some c ∧ k.1 = p ∧ c_status c = QUARANTINED ∧ row = quarantined_row k c.
Proof.
  intros Hsel%rmap_Ok [i Hi]%list_elem_of_lookup. eapply Forall2_lookup_r in Hsel as ([k c] & Hk & Hrow); [|done].
  apply list_elem_of_lookup_2, elem_of_py_sorted, list_elem_of_In, filter_In in Hk as [Hk Hf].
  apply list_elem_of_In, elem_of_map_to_list in Hk. bsplit. cbn in *.
  repeat match goal with H : bool_decide _ = true |- _ => apply bool_decide_eq_true in H end.
  exists k, c. split_and!; [done..|]. unfold row_to_quarantined_for_validation in Hrow.
  rewrite !bool_decide_eq_true_2 in Hrow by done. by injection Hrow.
Qed.

Lemma persist_shadow_inv p w d k r σ : persist_shadow p w (d, k) = (r, σ) →
  σ = (d, k) ∨ ∃ c, items d !! (p, ShadowValidator.w_memory_id w) = Some c
    ∧ c_status c = ShadowValidator.w_from_status w ∧ σ.2 = k
    ∧ items σ.1 = <[(p, ShadowValidator.w_memory_id w) := sql_set_status (shadow_status_write w) c]> (items d).
Proof.
  unfold persist_shadow, wbind, wlift. destruct (of_exn _) as [sw|] eqn:Hw; [|intros [= <- <-]; by left].
  assert (sw = shadow_status_write w) as ->.
  { unfold status_write_post_init in Hw. repeat (case_match; [|done]). by injection Hw. }
  cbn [fst snd]. destruct (pg_persist_status _ _ _ _ _ _ _ _) as [d'|] eqn:Hp; intros [= <- <-]; [right|by left].
  apply persist_status_Ok in Hp as (_ & c & Hc & Hst & ->). by exists c.
Qed.

Lemma corroborate_vault memory_visible p source d k :
  @vault _ (pg_vault memory_visible) (corroborate p source d) k = @vault _ (pg_vault memory_visible) d k.
Proof.
  unfold vault, pg_vault, table_vault, corroborate. cbn [items set_items]. destruct (memory_visible k.1 k.2); [|done].
  rewrite map_lookup_imap. destruct (items d !! k) as [c|]; [|done]. cbn. by case_match.
Qed.

(** What an approved exit of a selected row rests on: two pairwise independent confirmations,
    each a run recorded for the row that corroborates it. *)
Definition quorum (lookup : ProjectId → RunId → option ConfirmingRun) (k : row_key) (c : memory_columns) : Prop :=
  c_status c = QUARANTINED ∧ cls (c_provenance c) ≠ PROPOSAL
  ∧ ∃ cs I, independent_set cs I ∧ 2 ≤ Z.of_nat (size I)
      ∧ ∀ x, x ∈ cs → corroborates lookup k.1 (quarantined_row k c) x.

Lemma exit_has_quorum lookup k c n cs l st : c_status c = QUARANTINED →
  resolve_confirmations lookup k.1 (quarantined_row k c) = Ok cs →
  apply (Some QUARANTINED) CANDIDATE (shadow_evidence n (quarantined_row k c) cs) l = Ok st →
  quorum lookup k c.
Proof.
  intros Hst Hcs [Hnp Hreq]%quarantine_exit. split_and!; [done..|].
  destruct (independent_confirmations_attained cs
    (Some (required_confirmations (shadow_evidence n (quarantined_row k c) cs) l))) as (I & HI & Hsz).
  exists (take MAX_CONFIRMATIONS_CONSIDERED cs), I. split; [done|]. split; [rewrite Hsz; exact Hreq|].
  intros x Hx. eapply resolve_corroborates; [done|].
  by apply elem_of_take in Hx as (i & Hi%list_elem_of_lookup_2 & _).
Qed.
