(* ===== verification/Governance.v ===== *)
(** * The vault under all its workers

    Every worker of the lifecycle, run to completion or stopped by an exception at any
    point, changes the vault only by steps the state machine allowed: a decision taken on a
    row as it was read is still a legal decision when its write commits, because the write
    names the status it expects and the columns the evidence repeats are never rewritten.
    The governance invariants of StateMachine.v therefore hold of the whole vault under any
    sequence of worker runs.

    A step records the evidence it was taken on ([gstep allowed]): all the workers but the
    shadow validator present evidence without confirmations and without an operator's
    restore ([plain]), and the validator presents what it resolved from the stored row.

    [safe_from s0 m]: started in any state reached from [s0] by such steps, [m] takes such
    steps only, whatever it returns. *)

From Stdlib Require Import Floats.
From S2P Require Import Prelude Domain PyText Json StateMachine Independence Memory ShadowValidator Corroboration Lifecycle VaultStore Sweeps Revalidation Invalidator StatusWriter EditOps Descendants Forensics Promotion Scoring ShadowStore.
Open Scope Z_scope.

Section Safe.
Context {S : Type} `{!Vault S} (allowed : row_key → TransitionEvidence → TransitionLimits → Prop).

(** A change of one row on evidence of the given kind (or with the status kept), or a change
    of another table. *)
Inductive gstep (s s' : S) : Prop :=
| gstep_transition k r r' e l :
    vault s k = Some r → same_columns r r' → about (row_columns_of r) e → allowed k e l →
    apply (Some (l_status r)) (l_status r') e l = Ok (l_status r') → updates s s' k r' → gstep s s'
| gstep_touch k r r' :
    vault s k = Some r → same_columns r r' → l_status r' = l_status r → updates s s' k r' → gstep s s'
| gstep_elsewhere : (∀ k, vault s' k = vault s k) → gstep s s'.

Abbreviation later := (rtc gstep).

Definition safe_from {A} (s0 : S) (m : worker S A) : Prop :=
  ∀ s k, later s0 s → later s (m (s, k)).2.1.

Lemma gstep_vstep s s' : gstep s s' → vstep s s'.
Proof.
  intros [k r r' e l Hr Hc Ha _ Happ Hu|k r r' Hr Hc Hst Hu|Hsame].
  - eapply vstep_row; [exact Hr| |exact Hu]. by apply (row_transition _ _ e l).
  - eapply vstep_row; [exact Hr| |exact Hu]. by apply row_touch.
  - by apply vstep_elsewhere.
Qed.

Lemma gstep_columns s s' k r : vault s k = Some r → gstep s s' →
  ∃ r', vault s' k = Some r' ∧ row_columns_of r' = row_columns_of r.
Proof.
  intros Hr [k' r1 r1' e l Hr1 [_ Hc] _ _ _ Hu|k' r1 r1' Hr1 [_ Hc] _ Hu|Hsame]; [| |rewrite Hsame; eauto];
    rewrite Hu; (case_decide as Hk; [subst k'; exists r1'; split; [done|congruence]|eauto]).
Qed.

Lemma columns_stable s s' k r : vault s k = Some r → later s s' →
  ∃ r', vault s' k = Some r' ∧ row_columns_of r' = row_columns_of r.
Proof.
  intros Hr Hs. revert r Hr. induction Hs as [s|s s1 s2 Hstep _ IH]; intros r Hr; [eauto|].
  destruct (gstep_columns _ _ _ _ Hr Hstep) as (r1 & Hr1 & Hc). destruct (IH _ Hr1) as (r' & ? & Hc').
  exists r'. split; [done|congruence].
Qed.

Lemma safe_later {A} s0 s (m : worker S A) : safe_from s0 m → later s0 s → safe_from s m.
Proof. intros Hm Hs s1 k Hs1. apply Hm. by etransitivity. Qed.

Lemma safe_ret {A} s0 (a : A) : safe_from s0 (wret a).
Proof. by intros s k _. Qed.

Lemma safe_lift {A} s0 (r : result lifecycle_error A) : safe_from s0 (wlift r).
Proof. by intros s k _. Qed.

Lemma safe_bind {A B} s0 (m : worker S A) (f : A → worker S B) :
  safe_from s0 m → (∀ a, safe_from s0 (f a)) → safe_from s0 (wbind m f).
Proof.
  intros Hm Hf s k Hs. unfold wbind. specialize (Hm s k Hs). destruct (m (s, k)) as [[a|e] [s' k']]; [|done].
  cbn in Hm. transitivity s'; [done|]. apply Hf. by transitivity s.
Qed.

Lemma safe_bind_lift {A B} s0 (r : result lifecycle_error A) (f : A → worker S B) :
  (∀ a, r = Ok a → safe_from s0 (f a)) → safe_from s0 (wbind (wlift r) f).
Proof. intros Hf s k Hs. unfold wbind, wlift. destruct r as [a|e]; [|done]. by apply Hf. Qed.

Lemma safe_now {B} s0 clock (f : datetime → worker S B) :
  (∀ n, safe_from s0 (f n)) → safe_from s0 (wbind (wnow clock) f).
Proof. intros Hf s k Hs. unfold wbind, wnow. cbn. by apply Hf. Qed.

(** What is read is read in a later state. *)
Lemma safe_read {A B} s0 (g : S → A) (f : A → worker S B) :
  (∀ s, later s0 s → safe_from s (f (g s))) → safe_from s0 (wbind (wread g) f).
Proof. intros Hf s k Hs. unfold wbind, wread. cbn. by apply Hf. Qed.

Lemma safe_try {A B} s0 (g : S → result lifecycle_error A) (f : A → worker S B) :
  (∀ s a, later s0 s → g s = Ok a → safe_from s (f a)) → safe_from s0 (wbind (wtry g) f).
Proof.
  intros Hf s k Hs. unfold wbind, wtry. cbn. destruct (g s) as [a|e] eqn:Hg; [|done]. by apply (Hf s a).
Qed.

Lemma safe_for {A B} s0 (f : A → worker S B) xs : (∀ x, x ∈ xs → safe_from s0 (f x)) → safe_from s0 (wfor f xs).
Proof.
  induction xs as [|x xs IH]; intros Hf; cbn [wfor]; [apply safe_ret|].
  apply safe_bind; [apply Hf; left|]. intros y. apply safe_bind; [|intros ys; apply safe_ret].
  apply IH. intros x' Hx'. apply Hf. by right.
Qed.

(** A decision on a row as it was read. *)
Lemma decision_stands s0 s k r e l to : vault s0 k = Some r → later s0 s → about (row_columns_of r) e →
  apply (Some (l_status r)) to e l = Ok to →
  ∀ r', vault s k = Some r' → l_status r' = l_status r →
    about (row_columns_of r') e ∧ apply (Some (l_status r')) to e l = Ok to.
Proof.
  intros Hr Hs Ha Happ r' Hr' Hst. destruct (columns_stable _ _ _ _ Hr Hs) as (r'' & Hr'' & Hc).
  assert (r'' = r') as -> by congruence. rewrite Hc, Hst. done.
Qed.

(** ** Leaving quarantine *)

(** Where a row that was never released can be. *)
Definition UNRELEASED : list Status := [QUARANTINED; ARCHIVED; TOMBSTONED].

Hypothesis never_restored : ∀ k e l, allowed k e l → operator_restore e = false.

Definition released_on (k : row_key) : Prop :=
  ∃ e l, allowed k e l ∧ apply (Some QUARANTINED) CANDIDATE e l = Ok CANDIDATE.

Lemma unreleased_step s s' k r r' : gstep s s' → vault s k = Some r → vault s' k = Some r' →
  l_status r ∈ UNRELEASED → l_status r' ∈ UNRELEASED ∨ released_on k.
Proof.
  intros [k' r1 r1' e l Hr1 _ _ Hal Happ Hu|k' r1 r1' Hr1 _ Hst Hu|Hsame] Hr Hr' Hin;
    [| |rewrite Hsame in Hr'; left; by simplify_eq];
    rewrite Hu in Hr'; (case_decide as Hk; [subst k'|left; by simplify_eq]); simplify_eq; [|left; by rewrite Hst].
  pose proof Happ as Hedge. apply apply_edges in Hedge as [->|Hedge]; [left; set_solver|].
  unfold UNRELEASED in Hin. rewrite !elem_of_cons, elem_of_nil in Hin. destruct Hin as [Hq|[Ha|[Ht|[]]]].
  - rewrite Hq in Hedge, Happ. destruct Hedge as [Hc|Hc]; rewrite Hc in Happ |- *; [right; by exists e, l|left; set_solver].
  - rewrite Ha in Hedge, Happ. rewrite Hedge in Happ. apply archived_restore in Happ as [_ Hres].
    by rewrite (never_restored _ _ _ Hal) in Hres.
  - by rewrite Ht in Hedge.
Qed.

Lemma unreleased_later s s' k r r' : later s s' → vault s k = Some r → vault s' k = Some r' →
  l_status r ∈ UNRELEASED → l_status r' ∈ UNRELEASED ∨ released_on k.
Proof.
  intros Hs. revert r. induction Hs as [s|s s1 s2 Hstep _ IH]; intros r Hr Hr' Hin; [left; by simplify_eq|].
  destruct (gstep_columns _ _ _ _ Hr Hstep) as (r1 & Hr1 & _).
  destruct (unreleased_step _ _ _ _ _ Hstep Hr Hr1 Hin) as [Hin1|?]; [|by right]. by apply (IH r1).
Qed.
End Safe.

Abbreviation later allowed := (rtc (gstep allowed)).

(** The evidence of the workers that do not validate: it opens neither quarantine nor the
    archive. *)
Definition plain (k : row_key) (e : TransitionEvidence) (l : TransitionLimits) : Prop :=
  confirmations e = [] ∧ is_failure_lesson e = false ∧ operator_restore e = false.

Lemma plain_holds_quarantine k : ¬ released_on plain k.
Proof.
  intros (e & l & (Hc & Hf & _) & [_ Hq]%quarantine_exit). unfold required_confirmations in Hq.
  rewrite Hf, Hc in Hq. by vm_compute in Hq.
Qed.

#[export] Hint Resolve safe_ret safe_lift : tracebed.

Lemma evidence_inv e e' : of_exn (evidence_post_init e) = Ok e' → e' = e.
Proof. unfold evidence_post_init. case_match; [|done]. case_match; [|done]. by intros [= <-]. Qed.

Lemma transition_inv c t e l st : of_transition (apply c t e l) = Ok st → st = t ∧ apply c t e l = Ok t.
Proof.
  destruct (apply c t e l) as [st'|] eqn:Happ; [|done]. intros [= <-].
  apply apply_target in Happ as Ht. by subst.
Qed.

(** The Python sequence evidence, [apply], write. *)
Ltac decide_write :=
  apply safe_bind_lift; intros ?e ->%evidence_inv;
  apply safe_bind_lift; intros ?st [-> ?]%transition_inv.

Section LifecycleWorkers.
Context {S : Type} `{!LifecycleRepo S, !LifecycleRepoLaws S} (clock : nat → datetime).

Lemma persist_inv (s : S) p w s' : persist s p w = Ok s' →
  ∃ r, vault s (p, lw_memory_id w) = Some r ∧ l_status r = lw_from_status w
       ∧ updates s s' (p, lw_memory_id w) (written w r).
Proof.
  intros Hp. destruct (vault s (p, lw_memory_id w)) as [r|] eqn:Hr.
  - destruct (decide (l_status r = lw_from_status w)) as [H2|Hn].
    + destruct (persist_applies s p w r Hr H2) as (s'' & Hp' & Hu). exists r. split_and!; try done.
      by assert (s' = s'') as -> by congruence.
    + rewrite persist_stale in Hp; [done|]. rewrite Hr. by intros r0 [= <-].
  - rewrite persist_stale in Hp; [done|]. by rewrite Hr.
Qed.

Lemma safe_persist s0 p w r e l : vault s0 (l_key r) = Some r → l_project_id r = p → lw_memory_id w = l_id r →
  lw_from_status w = l_status r → about (row_columns_of r) e → plain (l_key r) e l →
  apply (Some (l_status r)) (lw_to_status w) e l = Ok (lw_to_status w) → safe_from plain s0 (wpersist p w).
Proof.
  intros Hv Hp Hid Hf Ha Hpl Happ s k Hs. unfold wpersist. cbn.
  destruct (persist s p w) as [s'|] eqn:Hw; [|done]. cbn. apply persist_inv in Hw as (r' & Hr' & Hst & Hu).
  assert (l_key r = (p, lw_memory_id w)) as Hk by (unfold l_key; congruence). rewrite Hk in Hv.
  destruct (decision_stands _ _ _ _ _ _ _ _ Hv Hs Ha Happ r' Hr') as [Ha' Happ']; [congruence|].
  apply rtc_once. by apply (gstep_transition plain _ _ (p, lw_memory_id w) r' (written w r') e l).
Qed.

Lemma safe_touch s0 p w : lw_from_status w = lw_to_status w → safe_from plain s0 (wpersist p w).
Proof.
  intros Heq s k Hs. unfold wpersist. cbn. destruct (persist s p w) as [s'|] eqn:Hw; [|done]. cbn.
  apply persist_inv in Hw as (r' & Hr' & Hst & Hu). apply rtc_once.
  apply (gstep_touch _ _ _ (p, lw_memory_id w) r' (written w r')); [exact Hr'|done| |exact Hu]. cbn. congruence.
Qed.

Lemma required_row r p st : require_returned_row r p st = Ok tt → l_project_id r = p ∧ l_status r = st.
Proof. unfold require_returned_row. do 2 (case_bool_decide; [|done]). done. Qed.

Lemma sweep_ttl_safe p cfg source target s0 : safe_from plain s0 (sweep_ttl clock p cfg source target).
Proof.
  apply safe_bind_lift. intros l _. apply safe_now. intros n. apply safe_read. intros s Hs.
  apply safe_bind; [|auto with tracebed]. apply safe_for. intros r (Hv & Hp & _)%select_one_sound.
  apply safe_bind_lift. intros _ _. destruct (l_status_changed_at r); [|apply safe_ret].
  apply safe_bind_lift. intros e ->%evidence_inv.
  destruct (apply (Some (l_status r)) target (row_evidence n r) l) as [st|[]] eqn:Happ; [|auto with tracebed..].
  apply apply_target in Happ as Ht. subst st. apply safe_bind; [|auto with tracebed].
  by apply (safe_persist s p _ r (row_evidence n r) l).
Qed.

Lemma decay_sweep_safe fpow p cfg s0 : safe_from plain s0 (decay_sweep clock fpow p cfg).
Proof.
  apply safe_bind_lift. intros l _. apply safe_now. intros n. apply safe_read. intros s Hs.
  apply safe_bind; [|auto with tracebed]. apply safe_for. intros r (Hv & Hp & _)%select_one_sound.
  unfold decay_row. apply safe_bind_lift. intros _ _. apply safe_bind_lift. intros weeks _. cbv zeta.
  destruct (weeks <=? 0); [apply safe_ret|]. destruct (_ <? _)%float.
  - destruct (_ <=? _)%float; [apply safe_ret|]. apply safe_bind; [by apply safe_touch|auto with tracebed].
  - decide_write. apply safe_bind; [|auto with tracebed]. by apply (safe_persist s p _ r (decay_evidence n r) l).
Qed.

Lemma run_all_sweeps_safe fpow p cfg s0 : safe_from plain s0 (run_all_sweeps clock fpow p cfg).
Proof.
  apply safe_bind; [apply sweep_ttl_safe|]. intros q. apply safe_bind; [apply sweep_ttl_safe|]. intros c.
  apply safe_bind; [apply decay_sweep_safe|auto with tracebed].
Qed.

Lemma check_validated_safe reverify p cfg r s0 : vault s0 (l_key r) = Some r →
  safe_from plain s0 (check_validated clock reverify p cfg r).
Proof.
  intros Hv. apply safe_bind_lift. intros [] [Hp Hst]%required_row. apply safe_now. intros n.
  apply safe_bind; [by intros s k _|]. intros [].
  - apply safe_bind; [by apply safe_touch|auto with tracebed].
  - apply safe_bind_lift. intros l _. decide_write. apply safe_bind; [|auto with tracebed].
    by apply (safe_persist s0 p _ r (failed_evidence n r) l).
Qed.

Lemma check_stale_safe reverify p cfg r s0 : vault s0 (l_key r) = Some r →
  safe_from plain s0 (check_stale clock reverify p cfg r).
Proof.
  intros Hv. apply safe_bind_lift. intros [] [Hp Hst]%required_row. apply safe_now. intros n.
  apply safe_bind_lift. intros l _. apply safe_bind; [by intros s k _|].
  intros []; decide_write; (apply safe_bind; [|auto with tracebed]).
  - by apply (safe_persist s0 p _ r (reverified_evidence n r) l).
  - by apply (safe_persist s0 p _ r (strike_evidence n (l_strike_count r + 1) r) l).
Qed.

Lemma run_once_safe reverify p cfg s0 : safe_from plain s0 (run_once clock reverify p cfg).
Proof.
  apply safe_now. intros n. apply safe_read. intros s Hs. apply safe_read. intros s1 Hs1.
  apply safe_bind.
  - apply safe_for. intros r (Hv & _)%due_sound. eapply safe_later; [|exact Hs1]. by apply check_validated_safe.
  - intros os. apply safe_bind; [|auto with tracebed]. apply safe_for.
    intros r [_ Hr]%list_elem_of_filter. apply stale_rows in Hr as (Hv & _). by apply check_stale_safe.
Qed.

Lemma process_event_safe flush p cfg ev s0 : bytes_ok (sel_input_sig_hashes (ev_selector ev)) = true →
  safe_from plain s0 (process_event clock flush p cfg ev).
Proof.
  intros Hb. unfold process_event. case_bool_decide; [destruct flush; apply safe_ret|].
  destruct (selector_is_empty _); [apply safe_ret|]. apply safe_read. intros s Hs.
  apply safe_bind_lift. intros us _. apply safe_bind_lift. intros l _. apply safe_now. intros n.
  apply safe_bind; [|auto with tracebed]. apply safe_for. intros r (Hv & Hp & _)%provenance_iff; [|done].
  unfold invalidate_row. case_bool_decide; [apply safe_ret|]. decide_write. apply safe_bind; [|auto with tracebed].
  by apply (safe_persist s p _ r (invalidated_evidence n r) l).
Qed.

Lemma process_raw_batch_safe flush repr iso p cfg raws s0 :
  safe_from plain s0 (process_raw_batch clock flush (parse_invalidation_payload repr iso) p cfg raws).
Proof.
  apply safe_bind_lift. intros events Hp. apply safe_for. intros ev [i Hi]%list_elem_of_lookup.
  apply process_event_safe. destruct (rmap _ raws) as [evs|] eqn:Hr; [|done]. injection Hp as ->.
  apply rmap_Ok in Hr. eapply Forall2_lookup_r in Hr as (raw & _ & Hraw); [|done]. by eapply parsed_bytes.
Qed.
End LifecycleWorkers.

Section StatusWorkers.
Context {S : Type} `{!StatusRepo S, !StatusRepoLaws S} (clock : nat → datetime).

Lemma get_inv (s : S) p m row : get_memory_by_id s p m = Ok row →
  ∃ tag r, vault s (p, m) = Some r ∧ row = editable_of tag r ∧ l_id r = m.
Proof.
  intros Hg. destruct (vault s (p, m)) as [r|] eqn:Hv.
  - destruct (get_found s p m r Hv) as [tag Hg']. exists tag, r. split_and!; [done|congruence|].
    apply status_vault_id in Hv. unfold l_key in Hv. by injection Hv.
  - rewrite get_missing in Hg by done. done.
Qed.

Lemma safe_status s0 p w r e l : vault s0 (p, w_memory_id w) = Some r → w_from_status w = l_status r →
  about (row_columns_of r) e → plain (p, w_memory_id w) e l →
  apply (Some (l_status r)) (w_to_status w) e l = Ok (w_to_status w) → safe_from plain s0 (wstatus p w).
Proof.
  intros Hv Hf Ha Hpl Happ. apply safe_bind_lift. intros w' Hw s k Hs. cbn.
  assert (w' = w) as -> by (unfold status_write_post_init in Hw; do 2 (case_match; [|done]); by injection Hw).
  destruct (persist_status s p w) as [s'|] eqn:Hp; [|done]. cbn.
  destruct (columns_stable _ _ _ _ _ Hv Hs) as (r' & Hr' & _).
  destruct (decide (l_status r' = w_from_status w)) as [Hst|Hst].
  2: { destruct (status_stale s p w r' Hr' Hst) as [e' He']. congruence. }
  destruct (decision_stands _ _ _ _ _ _ _ _ Hv Hs Ha Happ r' Hr') as [Ha' Happ']; [congruence|].
  destruct (status_applies s p w r' Hr' Hst) as (s'' & Hp' & Hu).
  { apply apply_ok in Happ' as (_ & g & Hg & _). rewrite <- Hst, Hg. by eexists. }
  assert (s'' = s') as -> by congruence. apply rtc_once.
  by apply (gstep_transition plain _ _ (p, w_memory_id w) r' (restatus (w_to_status w) (w_now w) r') e l).
Qed.

Lemma safe_review s0 p reason m : safe_from plain s0 (wreview p reason m).
Proof. intros s k _. cbn. apply rtc_once, gstep_elsewhere. intros key. apply review_vault. Qed.

Lemma safe_reads {A B C} s0 (g : S → A → result lifecycle_error B) xs (f : list B → worker S C) :
  (∀ s ys, later plain s0 s → rmap (g s) xs = Ok ys → safe_from plain s (f ys)) →
  safe_from plain s0 (wbind (wfor (λ x, wtry (λ s, g s x)) xs) f).
Proof.
  intros Hf s k Hs. unfold wbind. rewrite (wfor_reads _ (g s)) by done.
  destruct (rmap (g s) xs) as [ys|] eqn:Hy; [|done]. by apply (Hf s ys).
Qed.

(** The shape of every single-row operation: evidence about the row read, [apply], write. *)
Lemma safe_single {B} s0 p tag r target ev l w st (b : B) : vault s0 (p, w_memory_id w) = Some r →
  w_from_status w = l_status r → about (row_columns_of r) ev → plain (p, w_memory_id w) ev l → w_to_status w = st →
  of_transition (apply (Some (e_status (editable_of tag r))) target ev l) = Ok st →
  safe_from plain s0 (wbind (wstatus p w) (λ _, wret b)).
Proof.
  intros Hv Hf Ha Hpl Hto [-> Happ]%transition_inv. apply safe_bind; [|auto with tracebed].
  apply (safe_status s0 p w r ev l); [done|done|done|done|]. rewrite Hto. exact Happ.
Qed.

Lemma merge_safe p ids cfg s0 : safe_from plain s0 (merge clock p ids cfg).
Proof.
  unfold merge. case_bool_decide; [apply safe_lift|]. destruct (_ <? _)%nat; [apply safe_lift|].
  apply safe_now. intros n. apply safe_bind_lift. intros l _. apply safe_reads. intros s ys Hs Hys.
  apply safe_bind; [|auto with tracebed]. apply safe_for. intros x [i Hi]%list_elem_of_lookup.
  apply rmap_Ok in Hys. eapply Forall2_lookup_r in Hys as (m & _ & Hm); [|exact Hi].
  unfold resolve_source in Hm. apply rbind_Ok in Hm as (row & Hg & Hm). apply rbind_Ok in Hm as (_ & _ & Hm).
  apply rbind_Ok in Hm as (e & ->%evidence_inv & Hm). apply rbind_Ok in Hm as (st & [-> Happ]%transition_inv & Hm).
  injection Hm as <-. apply get_inv in Hg as (tag & r & Hv & -> & Hid).
  apply (safe_status s p _ r (superseding_evidence n (editable_of tag r)) l); [|done|done|done|done].
  cbn. by rewrite Hid.
Qed.

Lemma operator_edit_safe p m who cfg s0 : safe_from plain s0 (operator_edit clock p m who cfg).
Proof.
  apply safe_try. intros s row Hs (tag & r & Hv & -> & Hid)%get_inv. apply safe_bind_lift. intros _ _.
  apply safe_now. intros n. apply safe_bind_lift. intros l _. apply safe_bind_lift. intros e ->%evidence_inv.
  apply safe_bind_lift. intros st Hst.
  by eapply (safe_single s p tag r SUPERSEDED (superseding_evidence n (editable_of tag r)) l _ st).
Qed.

Lemma unpin_safe p m cfg s0 : safe_from plain s0 (unpin clock p m cfg).
Proof.
  apply safe_try. intros s row Hs (tag & r & Hv & -> & Hid)%get_inv. apply safe_bind_lift. intros _ _.
  case_bool_decide as Hp; [apply safe_lift|]. cbn in Hp.
  apply safe_now. intros n. apply safe_bind_lift. intros l _. apply safe_bind_lift. intros e ->%evidence_inv.
  apply safe_bind_lift. intros st Hst.
  by eapply (safe_single s p tag r TOMBSTONED (deletion_evidence n (editable_of tag r)) l _ st).
Qed.

Context `{!ForensicsReads S}.

Lemma containment_about tag r n target e : containment_edge n (editable_of tag r) = Some (target, e) →
  about (row_columns_of r) e ∧ ∀ k l, plain k e l.
Proof. unfold containment_edge. cbn. destruct (l_status r); try done; by intros [= <- <-]. Qed.

Lemma contain_safe p m tag r l n s0 : vault s0 (p, m) = Some r → l_id r = m →
  safe_from plain s0 (contain p (editable_of tag r) l n).
Proof.
  intros Hv Hid. unfold contain. case_bool_decide; [apply safe_ret|].
  destruct (containment_edge n (editable_of tag r)) as [[target ev]|] eqn:Hedge; [|apply safe_lift].
  apply safe_bind_lift. intros e ->%evidence_inv. apply safe_bind_lift. intros st Hst.
  destruct (containment_about _ _ _ _ _ Hedge) as [Ha Hpl].
  eapply (safe_single s0 p tag r target ev l _ st); [|done|exact Ha|apply Hpl|done|exact Hst].
  cbn. by rewrite Hid.
Qed.

Lemma recall_safe with_queue p m cfg s0 : safe_from plain s0 (recall_and_rollback clock with_queue p m cfg).
Proof.
  apply safe_now. intros n. apply safe_bind_lift. intros l _.
  apply safe_try. intros s row Hs (tag & r & Hv & -> & Hid)%get_inv. apply safe_bind_lift. intros _ _.
  apply safe_bind; [by eapply contain_safe|]. intros [already contained]. apply safe_bind_lift. intros rev _.
  apply safe_read. intros s1 Hs1. apply safe_read. intros s2 Hs2. destruct (default _ _) as [found tr].
  apply safe_try. intros s3 refs Hs3 _. apply safe_bind; [|auto with tracebed]. destruct with_queue; [|apply safe_ret].
  apply safe_bind.
  { apply safe_bind_lift. intros l' _. apply safe_now. intros n'. apply safe_bind_lift. intros ts _. apply safe_review. }
  intros _. apply safe_bind; [apply safe_for; intros; apply safe_review|]. intros _.
  apply safe_bind; [apply safe_for; intros; apply safe_review|auto with tracebed].
Qed.

Context `{!PromotionReads S, !PromotionReadsLaws S}.

(** A write decided on a row as a select returned it. *)
Lemma safe_promotion s0 p st g target ev l n : reads_row s0 p st g →
  about (mkColumns (cls (g_provenance g)) (g_trust_tier g) (g_mem_type g)) ev → plain (p, g_id g) ev l →
  apply (Some (g_status g)) target ev l = Ok target →
  safe_from plain s0 (persist_promotion p (mkPWrite (g_id g) (g_status g) target n)).
Proof.
  intros (_ & _ & r & Hv & Hst & Ht & Hm & Hprov & _) Ha Hpl Happ.
  apply (safe_status s0 p _ r ev l); [exact Hv|done| |exact Hpl|cbn; by rewrite Hst].
  unfold row_columns_of. by rewrite Ht, Hm, Hprov.
Qed.

Lemma run_promotion_safe p cfg s0 : safe_from plain s0 (run_promotion_once clock p cfg).
Proof.
  apply safe_read. intros s Hs. apply safe_bind; [|auto with tracebed]. apply safe_for. intros row Hrow.
  apply candidates_sound in Hrow. unfold evaluate_candidate. apply safe_bind_lift. intros _ _.
  apply safe_now. intros n. apply safe_bind_lift. intros l _. apply safe_bind_lift. intros e ->%evidence_inv.
  destruct (apply _ _ _ l) as [st|[]] eqn:Happ; [|auto with tracebed..].
  pose proof (apply_target _ _ _ _ _ Happ) as ->. apply safe_bind; [|auto with tracebed].
  eapply safe_promotion; [exact Hrow| | |exact Happ]; by repeat split.
Qed.

Lemma run_retirement_safe text p cfg s0 : safe_from plain s0 (run_retirement_once clock text p cfg).
Proof.
  apply safe_read. intros s Hs. apply safe_bind; [|auto with tracebed]. apply safe_for. intros row Hrow.
  apply validated_sound in Hrow as [Hrow _]. unfold evaluate_retirement. apply safe_bind_lift. intros _ _.
  apply safe_now. intros n. apply safe_bind_lift. intros l _. apply safe_bind_lift. intros e ->%evidence_inv.
  destruct (apply _ _ _ l) as [st|[|? ? why]] eqn:Happ; [|auto with tracebed|destruct (_ && _); [|auto with tracebed]].
  - pose proof (apply_target _ _ _ _ _ Happ) as ->. apply safe_bind; [|auto with tracebed].
    eapply safe_promotion; [exact Hrow| | |exact Happ]; by repeat split.
  - apply safe_bind; [apply safe_review|auto with tracebed].
Qed.
End StatusWorkers.

(** Scoring writes the Q value and its bookkeeping, never the status. *)
Lemma apply_q_update_steps memory_visible d p u d' : pg_apply_q_update d p u = Ok d' →
  @rtc _ (@gstep _ (pg_vault memory_visible) plain) d d'.
Proof.
  unfold pg_apply_q_update. destruct (items d !! _) as [c|] eqn:Hc; [|done].
  case_bool_decide; [by intros [= <-]|]. intros [= <-]. apply rtc_once.
  set (k := (p, q_memory_id u)) in *. destruct (memory_visible p (q_memory_id u)) eqn:Hvis.
  - apply (gstep_touch _ _ _ k (row_to_lifecycle_row k c) (row_to_lifecycle_row k (sql_score u c))); [|done|done|].
    + unfold vault, pg_vault, table_vault. cbn [fst snd k]. by rewrite Hvis, Hc.
    + intros k'. unfold vault, pg_vault, table_vault. cbn [items]. destruct (decide (k = k')) as [<-|Hne].
      * cbn [fst snd k]. by rewrite Hvis, lookup_insert_eq.
      * by rewrite lookup_insert_ne.
  - apply gstep_elsewhere. intros k'. unfold vault, pg_vault, table_vault. cbn [items].
    destruct (decide (k = k')) as [<-|Hne]; [cbn [fst snd k]; by rewrite Hvis|by rewrite lookup_insert_ne].
Qed.

Lemma score_batch_steps memory_visible clock judge (σ : database * nat) c :
  @rtc _ (@gstep _ (pg_vault memory_visible) plain) σ.1 (batch clock judge σ c).1.
Proof.
  destruct σ as [d k]. unfold batch.
  destruct (run_scorer_batch _ _ _ _ _ _ _ _ (d, k)) as [res [d' k']] eqn:Hrun. cbn [fst snd].
  apply run_scorer_batch_effect in Hrun. destruct res as [r|]; [|by subst d'].
  destruct Hrun as (_ & [[_ ->]|(e & u & _ & _ & Happ)]); [done|]. by eapply apply_q_update_steps.
Qed.

(** ** The shadow validator *)

(** The evidence of a pass: resolved from the row as it was stored when the pass began. *)
Definition resolved (lookup : ProjectId → RunId → option ConfirmingRun) (p : ProjectId) (cfg : EffectiveConfig)
    (d : database) (k : row_key) (e : TransitionEvidence) (l : TransitionLimits) : Prop :=
  k.1 = p ∧ ∃ c n cs, items d !! k = Some c ∧ c_status c = QUARANTINED
    ∧ resolve_confirmations lookup p (quarantined_row k c) = Ok cs
    ∧ e = shadow_evidence n (quarantined_row k c) cs ∧ l = config_limits cfg.

Section Validation.
Context (memory_visible : ProjectId → MemoryId → bool) (clock : nat → datetime).
Context (lookup : ProjectId → RunId → option ConfirmingRun) (epoch_id : Z) (p : ProjectId) (cfg : EffectiveConfig).
Context (d : database).

#[local] Existing Instance pg_vault.
Abbreviation vault_of := (@vault _ (pg_vault memory_visible)).
Abbreviation validating := (@gstep _ (pg_vault memory_visible) (resolved lookup p cfg d)).

Lemma vault_row s k c : items s !! k = Some c → memory_visible k.1 k.2 = true →
  vault_of s k = Some (row_to_lifecycle_row k c).
Proof. intros Hc Hv. unfold vault, pg_vault, table_vault. by rewrite Hv, Hc. Qed.

Lemma vault_insert s s' k c : items s' = <[k := c]> (items s) → ∀ k',
  vault_of s' k' = if decide (k = k') then if memory_visible k.1 k.2 then Some (row_to_lifecycle_row k c) else None
                   else vault_of s k'.
Proof.
  intros Hi k'. unfold vault, pg_vault, table_vault. rewrite Hi. case_decide as Hk; [subst k'|].
  - by rewrite lookup_insert_eq.
  - by rewrite lookup_insert_ne.
Qed.

Lemma persist_shadow_safe k c n cs : items d !! k = Some c → k.1 = p → c_status c = QUARANTINED →
  resolve_confirmations lookup p (quarantined_row k c) = Ok cs →
  apply (Some QUARANTINED) CANDIDATE (shadow_evidence n (quarantined_row k c) cs) (config_limits cfg) = Ok CANDIDATE →
  @safe_from _ (pg_vault memory_visible) (resolved lookup p cfg d) _ d
    (persist_shadow p (mkShadowWrite k.2 QUARANTINED CANDIDATE n epoch_id)).
Proof.
  intros Hc Hp Hst Hcs Happ s i Hs. destruct (persist_shadow _ _ (s, i)) as [res σ] eqn:Hw.
  apply persist_shadow_inv in Hw as [->|(c' & Hc' & Hst' & _ & Hi)]; [done|]. cbn in Hc', Hst', Hi.
  assert ((p, k.2) = k) as Hk by (destruct k; cbn in *; by subst). rewrite Hk in Hc', Hi. apply rtc_once. cbn.
  pose proof (vault_insert _ _ _ _ Hi) as Hu. destruct (memory_visible k.1 k.2) eqn:Hvis.
  - pose proof (vault_row _ _ _ Hc Hvis) as Hr. pose proof (vault_row _ _ _ Hc' Hvis) as Hr'.
    destruct (columns_stable _ _ _ _ _ Hr Hs) as (r' & Hr'' & Hcol). rewrite Hr' in Hr''. injection Hr'' as <-.
    set (c1 := sql_set_status _ c') in *.
    apply (gstep_transition _ _ _ k (row_to_lifecycle_row k c') (row_to_lifecycle_row k c1)
             (shadow_evidence n (quarantined_row k c) cs) (config_limits cfg)); [exact Hr'|done|by rewrite Hcol| | |exact Hu].
    + split; [done|]. by exists c, n, cs.
    + cbn. by rewrite Hst'.
  - apply gstep_elsewhere. intros k'. rewrite Hu. case_decide as Hkk; [subst k'|done].
    unfold vault, pg_vault, table_vault. by rewrite Hvis.
Qed.

Lemma validate_one_safe k c : items d !! k = Some c → k.1 = p → c_status c = QUARANTINED →
  @safe_from _ (pg_vault memory_visible) (resolved lookup p cfg d) _ d
    (validate_one clock lookup epoch_id p cfg (quarantined_row k c)).
Proof.
  intros Hc Hp Hst. unfold validate_one. apply safe_bind_lift. intros _ _. apply safe_now. intros n.
  destruct (evaluate_one _ _ _ _ _ _) as [[o|e] ws] eqn:Hev; [|auto with tracebed].
  apply evaluate_one_ok in Hev as (cs & _ & _ & Hcs & _ & [(Happ & _ & _ & ->)|(? & _ & _ & _ & _ & ->)]);
    (apply safe_bind; [apply safe_for|auto with tracebed]); intros w Hw; [|by apply elem_of_nil in Hw].
  apply list_elem_of_singleton in Hw as ->. by eapply persist_shadow_safe.
Qed.

Lemma validate_once_steps i : rtc validating d (validate_once clock lookup epoch_id p cfg (d, i)).2.1.
Proof.
  unfold validate_once, wbind, wtry. cbn [fst]. destruct (pg_select_quarantined d p) as [rows|] eqn:Hsel; [|done].
  cbn. assert (@safe_from _ (pg_vault memory_visible) (resolved lookup p cfg d) _ d
                 (wfor (validate_one clock lookup epoch_id p cfg) rows)) as Hsafe.
  { apply safe_for. intros row (k & c & Hc & Hp & Hst & ->)%(selected_rows _ _ _ _ Hsel). by apply validate_one_safe. }
  specialize (Hsafe d i (rtc_refl _ _)). by destruct (wfor _ _ _) as [[os|] [d' i']].
Qed.
End Validation.

(** ** A recall and the revalidation batch *)

Section Wedge.
Context (memory_visible : ProjectId → MemoryId → bool) (clock : nat → datetime).
Context (reverify : nat → LifecycleMemoryRow → bool).

(** A recall can wedge revalidation: a validated memory that has never been struck, once
    contained by a recall, is stale without a strike; at any later instant, if the verifier
    rejects it, the batch stops with an exception instead of retiring it (and with it every
    stale row the batch had not reached). *)
Lemma recalled_memory_blocks_revalidation with_queue p cfg l m r d k clock' j :
  from_config cfg = Ok l → (∀ i, dt_aware (clock i) = true) →
  @dated _ (pg_vault memory_visible) d → @vault _ (pg_vault memory_visible) d (p, m) = Some r →
  l_status r = VALIDATED → l_strike_count r ≤ 0 →
  (∀ i r', l_id r' = m → reverify i r' = false) → dt_us (clock k) < dt_us (clock' j) →
  ∃ rep d' k',
    @recall_and_rollback _ (pg_status_repo memory_visible) pg_reads clock with_queue p m cfg (d, k)
      = (Ok rep, (d', k'))
    ∧ ((length (pg_select_by_status memory_visible (items d') p [STALE] 10000) < SELECT_LIMIT)%nat →
       ∃ e σ, @run_once _ (pg_repo memory_visible) clock' reverify p cfg (d', j) = (Err e, σ)).
Proof.
  intros Hl Hn Hd Hv Hst Hk Hrv Hlt.
  destruct (@recall_spec _ (pg_status_repo memory_visible) (pg_status_laws memory_visible) pg_reads
              (pg_forensics_laws memory_visible) clock p cfg l Hl Hn with_queue m r d k Hd Hv)
    as (rep & d' & k' & Hrun & Hu & _).
  exists rep, d', k'. split; [exact Hrun|]. intros Hlim.
  pose proof (@status_vault_id _ _ (pg_status_laws memory_visible) d (p, m) r Hv) as [= Hp Hid].
  assert (contained_row (clock k) r = restatus STALE (clock k) r) as Hrow.
  { unfold contained_row. rewrite Hst. by rewrite bool_decide_eq_false_2 by set_solver. }
  rewrite Hrow in Hu.
  apply (@run_once_blocked _ (pg_repo memory_visible) (pg_laws memory_visible) clock' reverify p cfg
           (restatus STALE (clock k) r) d' j).
  - unfold l_key. cbn. rewrite Hp, Hid. specialize (Hu (p, m)). by rewrite decide_True in Hu.
  - by apply population_true.
  - done.
  - intros i. by apply Hrv.
  - unfold is_due_for_revalidation. rewrite bool_decide_eq_true_2 by done. cbn. by apply Z.ltb_lt.
  - exact Hlim.
Qed.
End Wedge.

(** ** Sequences of operations on the database *)

(** One operation of one worker, with its arguments. *)
Inductive operation :=
| RunSweeps (p : ProjectId) (cfg : EffectiveConfig)
| Revalidate (p : ProjectId) (cfg : EffectiveConfig)
| Invalidate (p : ProjectId) (cfg : EffectiveConfig) (raws : list (list (pystr * json)))
| Merge (p : ProjectId) (ids : list MemoryId) (cfg : EffectiveConfig)
| OperatorEdit (p : ProjectId) (m : MemoryId) (who : PrincipalId) (cfg : EffectiveConfig)
| Unpin (p : ProjectId) (m : MemoryId) (cfg : EffectiveConfig)
| Recall (with_queue : bool) (p : ProjectId) (m : MemoryId) (cfg : EffectiveConfig)
| Promote (p : ProjectId) (cfg : EffectiveConfig)
| Retire (p : ProjectId) (cfg : EffectiveConfig)
| Score (c : batch_call)
| Corroborate (p : ProjectId) (source : QuarantinedMemoryForCorroboration → result exn (list RunId))
| Validate (p : ProjectId) (cfg : EffectiveConfig) (lookup : ProjectId → RunId → option ConfirmingRun) (epoch_id : Z).

Section System.
Context (memory_visible : ProjectId → MemoryId → bool) (clock : nat → datetime) (fpow : float → Z → float).
Context (reverify : nat → LifecycleMemoryRow → bool) (flush_cache : option (ProjectId → Z)).
Context (repr_container : json → pystr) (fromisoformat : pystr → result exn datetime).
Context (reads : PromotionReads database) (retirement_text : ValidatedMemoryRow → TransitionLimits → option GuardReason → pystr).
Context (judge : nat → pystr → pystr → result lifecycle_error ContributionVerdict).

#[local] Existing Instance pg_vault.
#[local] Existing Instance pg_repo.
#[local] Existing Instance pg_laws.
#[local] Existing Instance pg_status_repo.
#[local] Existing Instance pg_status_laws.

(** The database after an operation, whether it returned or raised. *)
Definition perform (op : operation) (σ : database * nat) : database * nat :=
  match op with
  | RunSweeps p cfg => (@run_all_sweeps _ (pg_repo memory_visible) clock fpow p cfg σ).2
  | Revalidate p cfg => (@run_once _ (pg_repo memory_visible) clock reverify p cfg σ).2
  | Invalidate p cfg raws =>
      (@process_raw_batch _ (pg_repo memory_visible) clock flush_cache
         (parse_invalidation_payload repr_container fromisoformat) p cfg raws σ).2
  | Merge p ids cfg => (@merge _ (pg_status_repo memory_visible) clock p ids cfg σ).2
  | OperatorEdit p m who cfg => (@operator_edit _ (pg_status_repo memory_visible) clock p m who cfg σ).2
  | Unpin p m cfg => (@unpin _ (pg_status_repo memory_visible) clock p m cfg σ).2
  | Recall q p m cfg => (@recall_and_rollback _ (pg_status_repo memory_visible) pg_reads clock q p m cfg σ).2
  | Promote p cfg => (@run_promotion_once _ (pg_status_repo memory_visible) reads clock p cfg σ).2
  | Retire p cfg => (@run_retirement_once _ (pg_status_repo memory_visible) reads clock retirement_text p cfg σ).2
  | Score c => batch clock judge σ c
  | Corroborate p source => (corroborate p source σ.1, σ.2)
  | Validate p cfg lookup epoch_id => (validate_once clock lookup epoch_id p cfg σ).2
  end.

Definition performs (ops : list operation) (σ : database * nat) : database * nat := foldl (λ σ op, perform op σ) σ ops.

Context (reads_laws : @PromotionReadsLaws database (pg_status_repo memory_visible) reads).

(** The evidence an operation may act on. *)
Definition evidence_of (op : operation) (d : database) : row_key → TransitionEvidence → TransitionLimits → Prop :=
  match op with Validate p cfg lookup _ => resolved lookup p cfg d | _ => plain end.

Lemma perform_steps op σ : @rtc _ (@gstep _ (pg_vault memory_visible) (evidence_of op σ.1)) σ.1 (perform op σ).1.
Proof.
  destruct σ as [d k], op; cbn [perform fst evidence_of].
  - by apply (@run_all_sweeps_safe _ (pg_repo memory_visible) (pg_laws memory_visible) clock fpow p cfg d).
  - by apply (@run_once_safe _ (pg_repo memory_visible) (pg_laws memory_visible) clock reverify p cfg d).
  - by apply (@process_raw_batch_safe _ (pg_repo memory_visible) (pg_laws memory_visible) clock flush_cache
                repr_container fromisoformat p cfg raws d).
  - by apply (@merge_safe _ (pg_status_repo memory_visible) (pg_status_laws memory_visible) clock p ids cfg d).
  - by apply (@operator_edit_safe _ (pg_status_repo memory_visible) (pg_status_laws memory_visible) clock p m who cfg d).
  - by apply (@unpin_safe _ (pg_status_repo memory_visible) (pg_status_laws memory_visible) clock p m cfg d).
  - by apply (@recall_safe _ (pg_status_repo memory_visible) (pg_status_laws memory_visible) clock pg_reads
                with_queue p m cfg d).
  - by apply (@run_promotion_safe _ (pg_status_repo memory_visible) (pg_status_laws memory_visible) clock reads
                reads_laws p cfg d).
  - by apply (@run_retirement_safe _ (pg_status_repo memory_visible) (pg_status_laws memory_visible) clock reads
                reads_laws retirement_text p cfg d).
  - apply (score_batch_steps memory_visible clock judge (d, k)).
  - apply rtc_once, gstep_elsewhere. intros key. apply corroborate_vault.
  - apply validate_once_steps.
Qed.

Lemma evidence_never_restores op d k e l : evidence_of op d k e l → operator_restore e = false.
Proof. destruct op; try (by intros (_ & _ & ?)). by intros (_ & ? & ? & ? & _ & _ & _ & -> & _). Qed.

Lemma perform_governed op σ : @governed _ (pg_vault memory_visible) σ.1 →
  @governed _ (pg_vault memory_visible) (perform op σ).1.
Proof.
  intros Hg. eapply (@vsteps_governed _ (pg_vault memory_visible)); [exact Hg|].
  eapply rtc_subrel; [intros ? ?; apply gstep_vstep|apply perform_steps].
Qed.

Lemma performs_governed ops σ : @governed _ (pg_vault memory_visible) σ.1 →
  @governed _ (pg_vault memory_visible) (performs ops σ).1.
Proof. revert σ. induction ops as [|op ops IH]; intros σ Hg; [done|]. by apply IH, perform_governed. Qed.

(** Only a validation pass of the row's project can release a row, and only with a quorum. *)
Lemma perform_released op σ key r r' :
  @vault _ (pg_vault memory_visible) σ.1 key = Some r → l_status r ∈ UNRELEASED →
  @vault _ (pg_vault memory_visible) (perform op σ).1 key = Some r' →
  l_status r' ∈ UNRELEASED
  ∨ ∃ cfg lookup epoch_id c, op = Validate key.1 cfg lookup epoch_id ∧ items σ.1 !! key = Some c ∧ quorum lookup key c.
Proof.
  intros Hr Hin Hr'.
  destruct (unreleased_later _ (evidence_never_restores op σ.1) _ _ _ _ _ (perform_steps op σ) Hr Hr' Hin)
    as [?|Hrel]; [by left|right].
  destruct op; try by apply plain_holds_quarantine in Hrel.
  destruct Hrel as (e & l & (<- & c & n & cs & Hc & Hst & Hcs & -> & ->) & Happ).
  exists cfg, lookup, epoch_id, c. split_and!; [done..|]. by eapply exit_has_quorum.
Qed.

Lemma perform_keeps op σ key r : @vault _ (pg_vault memory_visible) σ.1 key = Some r →
  ∃ r', @vault _ (pg_vault memory_visible) (perform op σ).1 key = Some r'.
Proof. intros Hr. destruct (columns_stable _ _ _ _ _ Hr (perform_steps op σ)) as (r' & ? & _). eauto. Qed.

Lemma performs_released ops σ key r r' :
  @vault _ (pg_vault memory_visible) σ.1 key = Some r → l_status r ∈ UNRELEASED →
  @vault _ (pg_vault memory_visible) (performs ops σ).1 key = Some r' →
  l_status r' ∈ UNRELEASED
  ∨ ∃ ops1 cfg lookup epoch_id ops2 c, ops = ops1 ++ Validate key.1 cfg lookup epoch_id :: ops2
      ∧ items (performs ops1 σ).1 !! key = Some c ∧ quorum lookup key c.
Proof.
  revert σ r. induction ops as [|op ops IH]; intros σ r Hr Hin Hr'; [left; by simplify_eq/=|].
  destruct (perform_keeps op σ key r Hr) as [r1 Hr1].
  destruct (perform_released op σ key r r1 Hr Hin Hr1) as [Hin1|(cfg & lookup & ep & c & -> & Hc & Hq)].
  - destruct (IH (perform op σ) r1 Hr1 Hin1 Hr') as [?|(ops1 & cfg & lookup & ep & ops2 & c & -> & Hc & Hq)]; [by left|].
    right. by exists (op :: ops1), cfg, lookup, ep, ops2, c.
  - right. by exists [], cfg, lookup, ep, ops, c.
Qed.

(** [C1] The vault never serves a proposal, and releases nothing uncorroborated: after any
    sequence of operations of any workers, in any order, with any arguments, whether they
    returned or raised, a row whose provenance is a proposal is not in a retrievable status;
    and a row that was in quarantine (or archived) at the start is in one only if the
    sequence contains a shadow-validation pass of the row's project before which the row, as
    it was then stored, was quarantined, was no proposal and had recorded confirming runs
    that the trace index of that pass resolves to at least two pairwise independent
    confirmations, each independent of the memory's own origins.  No other worker can
    release a row. *)
Theorem vault_stays_governed ops d k key r :
  @governed _ (pg_vault memory_visible) d →
  @vault _ (pg_vault memory_visible) (performs ops (d, k)).1 key = Some r →
  (cls (l_provenance r) = PROPOSAL → l_status r ∉ RETRIEVABLE_STATUSES)
  ∧ (∀ r0, @vault _ (pg_vault memory_visible) d key = Some r0 → l_status r0 ∈ [QUARANTINED; ARCHIVED] →
     l_status r ∈ RETRIEVABLE_STATUSES →
     ∃ ops1 cfg lookup epoch_id ops2 c, ops = ops1 ++ Validate key.1 cfg lookup epoch_id :: ops2
       ∧ items (performs ops1 (d, k)).1 !! key = Some c ∧ quorum lookup key c).
Proof.
  intros Hg Hr. split.
  - intros Hc. destruct (performs_governed ops (d, k) Hg key r Hr) as [hist Hlife].
    by eapply proposals_never_retrievable.
  - intros r0 Hr0 Hq Hst. destruct (performs_released ops (d, k) key r0 r) as [Hin|?]; [done|set_solver|done| |done].
    unfold UNRELEASED, RETRIEVABLE_STATUSES in *. destruct (l_status r); set_solver.
Qed.

End System.

(** One quarantined memory, and an index that knows runs 4 and 6, of different principals and
    inputs, and neither of the memory's origins. *)
Definition db_quarantined : database :=
  mkDb {[ (project_ex, memory_ex 3 I) := columns_ex QUARANTINED (Some (instant 0)) 0.5 ]} [] [] [] [] [] [].

Definition index_ex (pid : ProjectId) (r : RunId) : option ConfirmingRun :=
  if N.odd (uuid_int (RunId_value r)) then None
  else Some (mkConfirming r (mkPrincipalId (RunId_value r))
               (replicate 32 1 ++ replicate 8 (if N.eqb (uuid_int (RunId_value r)) 4 then 0 else 255))).

Definition ops_ex : list operation :=
  [Score call_ex; Promote project_ex default_config; Corroborate project_ex (λ _, Ok [run_ex 4 I; run_ex 6 I]);
   Validate project_ex default_config index_ex 7; RunSweeps project_ex default_config].

(** The two runs are recorded, the next pass releases the memory, and a sweep keeps it. *)
Lemma vault_stays_governed_witness :
  ∃ r ops1 cfg lookup epoch_id ops2 c,
    @vault _ (pg_vault all_visible)
      (performs all_visible (λ _, instant 20) fpow_ex (λ _ _, false) None (λ _, []) (λ _, Err ValueError)
         reads_ex (λ _ _ _, []) judge_ex ops_ex (db_quarantined, 0%nat)).1 (project_ex, memory_ex 3 I) = Some r
    ∧ l_status r = CANDIDATE ∧ ops_ex = ops1 ++ Validate project_ex cfg lookup epoch_id :: ops2
    ∧ quorum lookup (project_ex, memory_ex 3 I) c.
Proof.
  eexists. destruct (vault_stays_governed all_visible (λ _, instant 20) fpow_ex (λ _ _, false) None (λ _, [])
           (λ _, Err ValueError) reads_ex (λ _ _ _, []) judge_ex reads_ex_laws ops_ex db_quarantined 0%nat
           (project_ex, memory_ex 3 I)
           (restatus CANDIDATE (instant 20) (row_to_lifecycle_row (project_ex, memory_ex 3 I)
              (columns_ex QUARANTINED (Some (instant 0)) 0.5)))) as [_ Hrel].
  - intros m r (_ & c & Hc & ->)%vault_stored. cbn [items db_quarantined] in Hc.
    apply lookup_singleton_Some in Hc as [_ <-]. eexists.
    apply (lifecycle_create _ QUARANTINED
             (mkEvidence (instant 0) DISTILLER TierB LESSON false true true true None [] false 0 0 false false false false
                false false false false false 0 0%float 0 0 false false false false) limits_ex);
      [by repeat split|vm_compute; reflexivity].
  - vm_compute. reflexivity.
  - destruct (Hrel (row_to_lifecycle_row (project_ex, memory_ex 3 I) (columns_ex QUARANTINED (Some (instant 0)) 0.5)))
      as (ops1 & cfg & lookup & ep & ops2 & c & Hops & _ & Hq).
    + vm_compute. reflexivity.
    + by left.
    + right. left.
    + exists ops1, cfg, lookup, ep, ops2, c. split; [vm_compute; reflexivity|]. by split_and!.
Defined.

Lemma recalled_memory_blocks_revalidation_witness :
  ∃ d' σ e, @run_once _ (pg_repo all_visible) (λ _, instant 61) (λ _ _, false) project_ex default_config (d', 0%nat)
            = (Err e, σ).
Proof.
  destruct (recalled_memory_blocks_revalidation all_visible (λ _, instant 60) (λ _ _, false) true project_ex
              default_config default_limits (memory_ex 5 I)
              (row_to_lifecycle_row (project_ex, memory_ex 5 I) (columns_ex VALIDATED (Some (instant 1)) 0.5))
              db_ex 0%nat (λ _, instant 61) 0%nat) as (rep & d' & k' & Hrun & Hblocked).
  - apply default_limits_ok.
  - done.
  - apply table_dated. vm_compute. reflexivity.
  - vm_compute. reflexivity.
  - reflexivity.
  - done.
  - done.
  - vm_compute. reflexivity.
  - assert (snd (@recall_and_rollback _ (pg_status_repo all_visible) pg_reads (λ _, instant 60) true
                   project_ex (memory_ex 5 I) default_config (db_ex, 0%nat)) = (d', k')) as Hd by (by rewrite Hrun).
    clear Hrun. destruct Hblocked as (e & σ & He); [|by exists d', σ, e].
    assert (d' = (snd (@recall_and_rollback _ (pg_status_repo all_visible) pg_reads (λ _, instant 60) true
                   project_ex (memory_ex 5 I) default_config (db_ex, 0%nat))).1) as -> by (by rewrite Hd).
    apply Nat.ltb_lt. vm_compute. reflexivity.
Defined.
