(* ===== verification/HotPath.v ===== *)
(** * The hot path's world: effects, the deadline, the holdout arm

    Models src/src/tracebed/hotpath/budget.py ([Deadline]) and hotpath/holdout.py
    ([assign_arm]), the configuration and the rows of the retrieval path, and its effects.  [E] is everything outside the
    modelled code: stores, embedder, caches, the clock.  A collaborator may answer anything,
    take any time and raise any [Exception] ([BaseException]s outside [Exception], such as an
    interpreter shutdown, are not modelled).  The log keeps, in order, the clock readings
    taken, the calls into the retriever and the candidate store ([Asked]), what the
    configuration, the retriever, the store and the wall clock answered, and the rows handed
    to the recorders. *)

From Stdlib Require Import Floats.
From S2P Require Import Prelude Domain PyText PyFloat StateMachine Memory Templates Assembler Fusion Abstention.
Open Scope Z_scope.

(** ** Exceptions of the retrieval path *)

Inductive herr :=
| HExn (e : exn)
| HRequestDeadline
| HAssemblyDeadline
| HPoolDeadline
| HQueryCanceled
| HOther.

(** ** Configuration *)

Record RetrievalConfig := mkRetrieval { total_budget_ms : Z; embed_timeout_ms : Z }.

Record ScoreConfig := mkScore {
  w_sim : float;
  w_q : float;
  w_recency : float;
  w_validity : float;
  recency_half_life_days : Z;
}.

(** The sections of [EffectiveConfig] the retrieval path reads. *)
Record HotConfig := mkHot {
  cfg_retrieval : RetrievalConfig;
  cfg_abstention : AbstentionConfig;
  cfg_score : ScoreConfig;
  cfg_budget : BudgetConfig;
  cfg_holdout_pct : float;
  cfg_killswitch_overlay : list (pystr * bool);
}.

(** ** Rows *)

Record CandidateRow := mkCandidateRow {
  cr_memory_id : MemoryId;
  cr_mem_type : MemType;
  cr_trust_tier : TrustTier;
  cr_status : Status;
  cr_content : pystr;
  cr_token_count : Z;
  cr_q_value : float;
  cr_confidence : float;
  cr_created_at : datetime;
  cr_scope_type : ScopeType;
  cr_scope_id : option uuid;
}.

(** [RetrievalEventInsert] and [InjectionRow] (stores/pg/rows.py). *)
Record RetrievalEventInsert := mkEventRow {
  re_run_id : RunId;
  re_outcome_code : OutcomeCode;
  re_latency_ms : Z;
  re_embed_latency_ms : option Z;
  re_candidates_considered : Z;
  re_top_score : option float;
  re_arm : Arm;
}.

Record InjectionRow := mkInjection { in_memory_id : MemoryId; in_slot : Slot; in_score : float; in_tokens : Z }.

(** [JitTrigger] (hotpath/jit.py). *)
Inductive JitTrigger := TOOL_ERROR | SCHEMA_FAILURE.

(** The reads of the candidate store, and what each answers. *)
Inductive StoreQuery :=
| FetchCandidates (p : ProjectId) (ids : list MemoryId)
| DocumentFrequency (p : ProjectId) (terms : list pystr)
| CorpusSize (p : ProjectId).

Definition answer (q : StoreQuery) : Type :=
  match q with
  | FetchCandidates _ _ => list CandidateRow
  | DocumentFrequency _ _ => list (pystr * Z)
  | CorpusSize _ => Z
  end.

Inductive effect :=
| ClockRead (t : float)
| NowRead (t : Z)
| Asked
| Configured (p : ProjectId) (agent : AgentTypeId) (cfg : HotConfig)
| Retrieved (p : ProjectId) (query_text : pystr) (candidates : list FusedCandidate)
| StoreAnswered (q : StoreQuery) (a : answer q)
| RecordInjections (p : ProjectId) (run : RunId) (rows : list InjectionRow)
| RecordRetrieval (p : ProjectId) (row : RetrievalEventInsert)
| RecordTerminal (rows : list InjectionRow) (row : RetrievalEventInsert)
| RecordJit (p : ProjectId) (run : RunId) (trigger : JitTrigger) (code : OutcomeCode).

(** ** The monad *)

Section World.
Context (E : Type).

Record world := mkWorld { w_env : E; w_log : list effect }.

Definition io (A : Type) : Type := world → result herr A * world.

Definition ret {A} (a : A) : io A := λ w, (Ok a, w).
Definition raise {A} (e : herr) : io A := λ w, (Err e, w).
Definition bind {A B} (m : io A) (f : A → io B) : io B := λ w,
  match m w with (Ok a, w') => f a w' | (Err e, w') => (Err e, w') end.
Definition catch {A} (m : io A) (h : herr → io A) : io A := λ w,
  match m w with (Ok a, w') => (Ok a, w') | (Err e, w') => h e w' end.
Definition of_result {A} (r : result exn A) : io A := λ w,
  match r with Ok a => (Ok a, w) | Err e => (Err (HExn e), w) end.

(** A collaborator, and a call that leaves a trace in the log. *)
Definition port (A : Type) : Type := E → result herr A * E.
Definition call {A} (f : port A) : io A := λ w,
  let '(r, e) := f (w_env w) in (r, mkWorld e (w_log w)).
Definition logged (x : effect) : io unit := λ w, (Ok tt, mkWorld (w_env w) (w_log w ++ [x])).

(** A question, and the answer it got; nothing is answered by a call that raises. *)
Definition ask {A} (record : A → effect) (f : port A) : io A :=
  bind (logged Asked) (λ _, bind (call f) (λ a, bind (logged (record a)) (λ _, ret a))).

(** The query decides both what is called and what is recorded. *)
Definition ask_store (serve : ∀ q, port (answer q)) (q : StoreQuery) : io (answer q) := ask (StoreAnswered q) (serve q).

Definition read_now (now_ms : port Z) : io Z :=
  bind (call now_ms) (λ t, bind (logged (NowRead t)) (λ _, ret t)).

Definition read_clock (monotonic_ms : port float) : io float :=
  bind (call monotonic_ms) (λ t, bind (logged (ClockRead t)) (λ _, ret t)).
End World.

Arguments mkWorld {E}.
Arguments w_env {E}.
Arguments w_log {E}.
Arguments ret {E A}.
Arguments raise {E A}.
Arguments bind {E A B}.
Arguments catch {E A}.
Arguments of_result {E A}.
Arguments call {E A}.
Arguments logged {E}.
Arguments ask {E A}.
Arguments ask_store {E}.
Arguments read_now {E}.
Arguments read_clock {E}.

Declare Scope io_scope.
Delimit Scope io_scope with io.
Notation "'do' x ← m ; k" := (bind m (λ x, k)) (at level 20, x pattern, m at level 100, k at level 200) : io_scope.
Notation "'try' m 'except' h" := (catch m h) (at level 20, m at level 100, h at level 100) : io_scope.
Open Scope io_scope.

(** ** Numbers *)

(** [math.ceil] and [int] of a float; an infinity or a NaN raises. *)
Definition py_ceil (x : float) : result exn Z :=
  check! isfinite x else ValueError in Ok (- ((- fscaled x) / 2 ^ 1074)).
Definition py_int (x : float) : result exn Z :=
  check! isfinite x else ValueError in Ok (Z.quot (fscaled x) (2 ^ 1074)).

(** ** [Deadline] *)

Section Deadline.
Context {E : Type}.

Record Deadline := mkDeadline {
  dl_total_budget_ms : Z;
  dl_embed_timeout_ms : Z;
  dl_started_at_ms : float;
  dl_listeners : list (port E unit);
}.

Definition new_deadline (monotonic_ms : port E float) (total embed : Z) (started : option float) : io E Deadline :=
  if total <=? 0 then raise (HExn ValueError)
  else if embed <=? 0 then raise (HExn ValueError)
  else
    do t ← match started with Some t => ret t | None => read_clock monotonic_ms end;
    ret (mkDeadline total embed t []).

(** The listeners run after the new budget is in place; one that raises stops the rest. *)
Fixpoint run_listeners (ls : list (port E unit)) : io E unit :=
  match ls with [] => ret tt | l :: ls' => do _ ← call l; run_listeners ls' end.

Definition narrow_total_budget_ms (d : Deadline) (total : Z) : io E Deadline :=
  if total <=? 0 then raise (HExn ValueError)
  else if dl_total_budget_ms d <=? total then ret d
  else
    do _ ← run_listeners (dl_listeners d);
    ret (mkDeadline total (dl_embed_timeout_ms d) (dl_started_at_ms d) (dl_listeners d)).

Context (monotonic_ms : port E float).

Definition remaining_ms (d : Deadline) : io E float :=
  do now ← read_clock monotonic_ms;
  do total ← of_result (float_of_int (dl_total_budget_ms d));
  ret (total - (now - dl_started_at_ms d))%float.

Definition total_exceeded (d : Deadline) : io E bool :=
  do r ← remaining_ms d; ret (r <=? 0)%float.

Definition embed_sub_budget_ms (d : Deadline) : io E float :=
  do embed ← of_result (float_of_int (dl_embed_timeout_ms d));
  do r ← remaining_ms d;
  ret (py_fmax 0 (py_fmin embed r)).
End Deadline.
Arguments Deadline : clear implicits.

(** ** [assign_arm] *)

Definition RS : pystr := [31].

Section Holdout.
Context (sha256 : list Z → list Z).

(** The draw: the leading 8 bytes of the digest over 2^64; the division by a power of two is
    exact once the integer is rounded. *)
Definition holdout_draw (salt : pystr) (agent : AgentTypeId) (session_key : pystr) : result exn float :=
  let! bs := utf8_encode (py_join RS [salt; uuid_str (AgentTypeId_value agent); session_key]) in
  let! n := float_of_int (int_from_bytes_big 0 (take 8 (sha256 bs))) in
  Ok (n / 18446744073709551616)%float.

Definition assign_arm (session_key : pystr) (agent : AgentTypeId) (salt : pystr) (holdout_pct : float)
  : result exn Arm :=
  check! (0 <=? holdout_pct)%float && (holdout_pct <=? 100)%float else ValueError in
  check! negb (bool_decide (salt = [])) else ValueError in
  check! negb (bool_decide (session_key = [])) else ValueError in
  let! draw := holdout_draw salt agent session_key in
  Ok (if (draw <? holdout_pct / 100)%float then ARM_HOLDOUT else MEMORY_ON).
End Holdout.

(** ** Reading back a computation *)

Lemma bind_Ok {E A B} (m : io E A) (f : A → io E B) w b w' :
  bind m f w = (Ok b, w') ↔ ∃ a w1, m w = (Ok a, w1) ∧ f a w1 = (Ok b, w').
Proof.
  unfold bind. destruct (m w) as [[a|e] w1]; split.
  - eauto.
  - by intros (a' & w2 & [= <- <-] & ?).
  - done.
  - by intros (a' & w2 & ? & ?).
Qed.

Lemma bind_eq {E A B} (m : io E A) (f : A → io E B) w a w' : m w = (Ok a, w') → bind m f w = f a w'.
Proof. unfold bind. by intros ->. Qed.

Lemma of_result_Ok {E A} (r : result exn A) (w : world E) a w' :
  of_result r w = (Ok a, w') → r = Ok a ∧ w' = w.
Proof. unfold of_result. destruct r; [|done]. by intros [= -> ->]. Qed.

Lemma call_Ok {E A} (f : port E A) w a w' :
  call f w = (Ok a, w') → f (w_env w) = (Ok a, w_env w') ∧ w_log w' = w_log w.
Proof. unfold call. destruct (f (w_env w)) as [r e]. by intros [= -> <-]. Qed.

(** What a computation added to the log. *)
Definition emits {E} (w w' : world E) (l : list effect) : Prop := w_log w' = w_log w ++ l.

Lemma emits_trans {E} (w w1 w2 : world E) l l' : emits w w1 l → emits w1 w2 l' → emits w w2 (l ++ l').
Proof. unfold emits. intros H H'. by rewrite H', H, app_assoc. Qed.

Lemma ask_Ok {E A} record (f : port E A) w a w' : ask record f w = (Ok a, w') → emits w w' [Asked; record a].
Proof.
  unfold ask, bind, emits. cbn. destruct (call f _) as [[x|e] w1] eqn:Hc; [|done]. intros [= <- <-]. apply call_Ok in Hc as [_ Hl].
  cbn in Hl |- *. by rewrite Hl, <- app_assoc.
Qed.

Lemma ask_store_Ok {E} (serve : ∀ q, port E (answer q)) q w a w' : ask_store serve q w = (Ok a, w') → emits w w' [Asked; StoreAnswered q a].
Proof. apply ask_Ok. Qed.

Lemma read_now_Ok {E} (now_ms : port E Z) w t w' : read_now now_ms w = (Ok t, w') → emits w w' [NowRead t].
Proof.
  intros (t' & w1 & [_ Hl]%call_Ok & H)%bind_Ok. apply bind_Ok in H as ([] & w2 & [= <-] & [= <- <-]). unfold emits. cbn. by rewrite Hl.
Qed.

(** ** Computations that record nothing *)

Definition is_record (x : effect) : bool :=
  match x with RecordInjections _ _ _ | RecordRetrieval _ _ | RecordTerminal _ _ | RecordJit _ _ _ _ => true | _ => false end.

Definition records (l : list effect) : list effect := List.filter is_record l.

Definition quiet {E A} (m : io E A) : Prop :=
  ∀ w, ∃ l, w_log (m w).2 = w_log w ++ l ∧ records l = [].

Section Quiet.
Context {E : Type}.

Lemma records_app l l' : records (l ++ l') = records l ++ records l'.
Proof. apply List.filter_app. Qed.

Lemma quiet_ret {A} (a : A) : quiet (E := E) (ret a).
Proof. intros w. exists []. by rewrite app_nil_r. Qed.

Lemma quiet_raise {A} e : quiet (E := E) (A := A) (raise e).
Proof. intros w. exists []. by rewrite app_nil_r. Qed.

Lemma quiet_of_result {A} (r : result exn A) : quiet (E := E) (of_result r).
Proof. intros w. exists []. rewrite app_nil_r. by destruct r. Qed.

Lemma quiet_call {A} (f : port E A) : quiet (call f).
Proof. intros w. exists []. unfold call. destruct (f _). by rewrite app_nil_r. Qed.

Lemma quiet_then {A B} (m : io E A) (f : A → io E B) (g : herr → io E B) : quiet m → (∀ a, quiet (f a)) → (∀ e, quiet (g e)) →
  quiet (λ w, match m w with (Ok a, w') => f a w' | (Err e, w') => g e w' end).
Proof.
  intros Hm Hf Hg w. destruct (Hm w) as (l & Hl & Hr). destruct (m w) as [[a|e] w1]; cbn in Hl.
  - destruct (Hf a w1) as (l' & Hl' & Hr'). exists (l ++ l'). by rewrite Hl', Hl, (assoc_L (++)), records_app, Hr.
  - destruct (Hg e w1) as (l' & Hl' & Hr'). exists (l ++ l'). by rewrite Hl', Hl, (assoc_L (++)), records_app, Hr.
Qed.

Lemma quiet_bind {A B} (m : io E A) (f : A → io E B) : quiet m → (∀ a, quiet (f a)) → quiet (bind m f).
Proof. intros Hm Hf. apply (quiet_then m f raise); [done..|intros; apply quiet_raise]. Qed.

Lemma quiet_catch {A} (m : io E A) h : quiet m → (∀ e, quiet (h e)) → quiet (catch m h).
Proof. intros Hm Hh. apply (quiet_then m ret h); [done|intros; apply quiet_ret|done]. Qed.

Lemma quiet_logged x : is_record x = false → quiet (E := E) (logged x).
Proof. intros Hx w. exists [x]. split; [done|]. cbn. by rewrite Hx. Qed.

Lemma quiet_ask {A} record (f : port E A) : (∀ a, is_record (record a) = false) → quiet (ask record f).
Proof.
  intros Hr. apply quiet_bind; [by apply quiet_logged|intros]. apply quiet_bind; [apply quiet_call|intros].
  apply quiet_bind; [by apply quiet_logged|intros; apply quiet_ret].
Qed.

Lemma quiet_ask_store (serve : ∀ q, port E (answer q)) q : quiet (ask_store serve q).
Proof. by apply quiet_ask. Qed.

Lemma quiet_read_now (f : port E Z) : quiet (read_now f).
Proof. repeat (apply quiet_bind; [first [apply quiet_call|by apply quiet_logged]|intros]). apply quiet_ret. Qed.

Lemma quiet_read_clock (f : port E float) : quiet (read_clock f).
Proof. repeat (apply quiet_bind; [first [apply quiet_call|by apply quiet_logged]|intros]). apply quiet_ret. Qed.
End Quiet.

Create HintDb quiet.
#[export] Hint Resolve quiet_ret quiet_raise quiet_of_result quiet_call quiet_ask quiet_ask_store quiet_read_now quiet_read_clock : quiet.

(** Reduce to the leaves of a computation. *)
Ltac quiet_tac :=
  repeat first
    [ solve [auto with quiet]
    | apply quiet_bind; [|intros]
    | apply quiet_catch; [|intros]
    | case_match ].

Section QuietDeadline.
Context {E : Type} (monotonic_ms : port E float).

Lemma quiet_new_deadline total embed started : quiet (new_deadline monotonic_ms total embed started).
Proof. unfold new_deadline. quiet_tac. Qed.

Lemma quiet_run_listeners (ls : list (port E unit)) : quiet (run_listeners ls).
Proof. induction ls; cbn [run_listeners]; quiet_tac. Qed.

Lemma quiet_narrow (d : Deadline E) total : quiet (narrow_total_budget_ms d total).
Proof. unfold narrow_total_budget_ms. quiet_tac. apply quiet_run_listeners. Qed.

Lemma quiet_remaining d : quiet (remaining_ms monotonic_ms d).
Proof. unfold remaining_ms. quiet_tac. Qed.

Lemma quiet_total_exceeded d : quiet (total_exceeded monotonic_ms d).
Proof. unfold total_exceeded. apply quiet_bind; [apply quiet_remaining|]. intros. auto with quiet. Qed.

Lemma quiet_embed_sub d : quiet (embed_sub_budget_ms monotonic_ms d).
Proof. unfold embed_sub_budget_ms. quiet_tac. Qed.
End QuietDeadline.
#[export] Hint Resolve quiet_new_deadline quiet_narrow quiet_remaining quiet_total_exceeded quiet_embed_sub : quiet.
