(* ===== verification/Assembly.v ===== *)
(** * From fused candidates to packed slots (hotpath/assembly.py)

    Models src/src/tracebed/hotpath/assembly.py ([CandidateAssembly], [query_terms],
    [killswitched], [slot_for]), the rest of hotpath/calibration.py ([recency_weight],
    [CalibratedSignals], [calibrated_score]) and [assert_dynamically_retrievable] of
    stores/pg/search.py.  The three reads of the store are collaborators; so are the clock,
    Unicode lower-casing, SHA-256 and the platform's [pow]. *)

From Stdlib Require Import Floats.
From S2P Require Import Prelude Domain PyText PyFloat StateMachine Memory Templates Assembler Fusion Abstention HotPath.
Open Scope Z_scope.
Open Scope io_scope.

(** ** Rows *)

Definition DYNAMIC_STATUSES : list Status := [VALIDATED; CANDIDATE].

Definition assert_dynamically_retrievable (row : CandidateRow) : result exn unit :=
  check! bool_decide (cr_status row ∈ DYNAMIC_STATUSES) else TracebedError in
  check! negb (bool_decide (cr_status row = CANDIDATE) && negb (bool_decide (cr_trust_tier row = TierA)))
  else TracebedError in Ok tt.

Definition killswitched (m : MemType) (cfg : HotConfig) : bool :=
  default false (dict_get (cfg_killswitch_overlay cfg) (MemType_value m)).

Definition SLOT_BY_MEM_TYPE (m : MemType) : Slot :=
  match m with SEMANTIC => FACT | EPISODIC => EXEMPLAR | LESSON => PITFALL | PREFERENCE => STATIC_PREFIX end.

Definition slot_for (row : CandidateRow) : Slot :=
  if bool_decide (cr_status row = CANDIDATE) then CANDIDATE_NOTE else SLOT_BY_MEM_TYPE (cr_mem_type row).

(** ** Terms: [re.findall("[0-9a-z]+", text.lower())], each once *)

Definition term_char (c : Z) : bool := ((48 <=? c) && (c <=? 57)) || ((97 <=? c) && (c <=? 122)).

Fixpoint runs (cur : pystr) (s : pystr) : list pystr :=
  match s with
  | [] => match cur with [] => [] | _ => [rev cur] end
  | c :: s' =>
      if term_char c then runs (c :: cur) s'
      else match cur with [] => runs [] s' | _ => rev cur :: runs [] s' end
  end.

(** ** The composite score (hotpath/calibration.py) *)

(** [n / d] on integers: the quotient, rounded once. *)
Definition true_div (n : Z) (d : positive) : float :=
  let sf := match n with
            | 0 => S754_zero false
            | Zpos p => S754_finite false p 0
            | Zneg p => S754_finite true p 0
            end in
  SF2Prim (SFdiv FloatOps.prec FloatOps.emax sf (S754_finite false d 0)).

Record CalibratedSignals := mkCalibrated { cs_cos_sim : float; cs_q_value : float; cs_age_days : float; cs_validity : float }.

Definition calibrated_post_init (s : CalibratedSignals) : result exn CalibratedSignals :=
  check! within (-1) (cs_cos_sim s) 1 else ValueError in
  check! within 0 (cs_q_value s) 1 else ValueError in
  check! within 0 (cs_validity s) 1 else ValueError in
  check! negb (negb (isfinite (cs_age_days s)) || (cs_age_days s <? 0)%float) else ValueError in
  Ok s.

Section Score.
Context (powf : float → float → float).

Definition recency_weight (age_days half_life : float) : result exn float :=
  check! negb (negb (isfinite age_days) || (age_days <? 0)%float) else ValueError in
  check! negb (negb (isfinite half_life) || (half_life <=? 0)%float) else ValueError in
  Ok (powf 0.5 (age_days / half_life))%float.

Definition calibrated_score (s : CalibratedSignals) (cfg : ScoreConfig) : result exn float :=
  let! half_life := float_of_int (recency_half_life_days cfg) in
  let! recency := recency_weight (cs_age_days s) half_life in
  Ok (w_sim cfg * cs_cos_sim s + w_q cfg * cs_q_value s + w_recency cfg * recency + w_validity cfg * cs_validity s)%float.
End Score.

(** Age from [created_at] (a [timestamptz], hence aware), floored at 0. *)
Definition age_days (now_ms : Z) (created_at : datetime) : result exn float :=
  let created_ms := (true_div (dt_us created_at) 1000000 * 1000)%float in
  let! now := float_of_int now_ms in
  Ok (py_fmax 0 ((now - created_ms) / 86400000))%float.

(** ** The stage *)

Record CandidateSetResult := mkSetResult {
  sr_outcome_code : OutcomeCode;
  sr_slots : list ContextSlot;
  sr_top_score : option float;
  sr_injections : list InjectionRow;
}.

Definition set_outcome_code (anything_placed : bool) (abstentions : list OutcomeCode) : OutcomeCode :=
  if anything_placed then INJECTED
  else match abstentions with c :: _ => c | [] => EMPTY_RESULT end.

(** [CandidateStorePort]. *)
Record CandidateStore (E : Type) := mkStore {
  fetch_candidates : ProjectId → list MemoryId → Deadline E → port E (list CandidateRow);
  document_frequency : ProjectId → list pystr → Deadline E → port E (list (pystr * Z));
  corpus_size : ProjectId → Deadline E → port E Z;
}.
Arguments fetch_candidates {E}.
Arguments document_frequency {E}.
Arguments corpus_size {E}.

Section Assembly.
Context {E : Type} (lower : pystr → pystr) (sha256 : list Z → list Z) (powf : float → float → float)
        (monotonic_ms : port E float) (now_ms : port E Z) (store : CandidateStore E).

Definition query_terms (text : pystr) : list pystr := fromkeys (runs [] (lower text)).

Definition sha256_hex (data : list Z) : pystr := bytes_hex (sha256 data).

Definition ensure_time (d : Deadline E) : io E unit :=
  do x ← total_exceeded monotonic_ms d; if x then raise HAssemblyDeadline else ret tt.

Definition serve (d : Deadline E) (q : StoreQuery) : port E (answer q) :=
  match q with
  | FetchCandidates p ids => fetch_candidates store p ids d
  | DocumentFrequency p terms => document_frequency store p terms d
  | CorpusSize p => corpus_size store p d
  end.

(** [ensure_time], the read, and the two handlers around them. *)
Definition store_call (d : Deadline E) (q : StoreQuery) : io E (answer q) :=
  try (do _ ← ensure_time d; ask_store (serve d) q) except (λ e,
    match e with
    | HPoolDeadline => raise HAssemblyDeadline
    | HQueryCanceled =>
        do r ← remaining_ms monotonic_ms d;
        if (r <=? 0)%float then raise HAssemblyDeadline else raise HQueryCanceled
    | e => raise e
    end).

Definition shared_pct (frequencies : list (pystr * Z)) (corpus : Z) (term : pystr) : result exn float :=
  let! n := float_of_int (default 0 (dict_get frequencies term)) in
  let! c := float_of_int corpus in
  Ok (py_fmin (100 * n / c) 100)%float.

Definition shared_evidence (terms : list pystr) (frequencies : list (pystr * Z)) (corpus : Z) (row : CandidateRow)
  : result exn (MemoryId * RarityEvidence) :=
  let content_terms := query_terms (cr_content row) in
  let! shared := rmap (shared_pct frequencies corpus) (List.filter (λ t, bool_decide (t ∈ content_terms)) terms) in
  let! ev := rarity_post_init (mkRarity shared corpus) in
  Ok (cr_memory_id row, ev).

Definition no_evidence (corpus : Z) (row : CandidateRow) : result exn (MemoryId * RarityEvidence) :=
  let! ev := rarity_post_init (mkRarity [] corpus) in Ok (cr_memory_id row, ev).

Definition rarity_lookup (p : ProjectId) (query_text : pystr) (rows : list CandidateRow) (d : Deadline E)
  : io E (list (MemoryId * RarityEvidence)) :=
  let terms := query_terms query_text in
  do corpus ← store_call d (CorpusSize p);
  if (corpus <=? 0) || bool_decide (terms = []) then of_result (rmap (no_evidence corpus) rows)
  else
    do frequencies ← store_call d (DocumentFrequency p terms);
    of_result (rmap (shared_evidence terms frequencies corpus) rows).

Definition signals_for (fused : FusedCandidate) (r : RarityEvidence) : result exn CandidateSignals :=
  signals_post_init (mkSignals (sg_raw_score <$> f_vector fused) (sg_raw_score <$> f_lexical fused) r).

(** What the loop does with a candidate whose row came back. *)
Inductive verdict := Skipped | Abstained (code : OutcomeCode) (score : float) | Injectable (c : Candidate) (score : float).

Definition judge_row (cfg : HotConfig) (visibility : RunVisibility) (now : Z) (rarity : list (MemoryId * RarityEvidence))
    (fused : FusedCandidate) (row : CandidateRow) : result exn verdict :=
  let! _ := assert_dynamically_retrievable row in
  if negb (scope_visible (cr_scope_type row) (cr_scope_id row) visibility) then Ok Skipped
  else if killswitched (cr_mem_type row) cfg then Ok Skipped
  else
    let! ev := match dict_get rarity (f_memory_id fused) with Some ev => Ok ev | None => Err KeyError end in
    let! signals := signals_for fused ev in
    let! decision := Abstention.decide signals (cfg_abstention cfg) in
    let! age := age_days now (cr_created_at row) in
    let! cal := calibrated_post_init
                  (mkCalibrated (match f_vector fused with None => 0%float | Some v => sg_raw_score v end)
                     (cr_q_value row) age (cr_confidence row)) in
    let! score := calibrated_score powf cal (cfg_score cfg) in
    if negb (inject decision) then
      match outcome_code decision with Some code => Ok (Abstained code score) | None => Err ValueError end
    else
      let! bs := utf8_encode (cr_content row) in
      let! c := make_candidate (slot_for row) (cr_memory_id row) (cr_mem_type row) (cr_content row)
                  (cr_token_count row) score (sha256_hex bs) in
      Ok (Injectable c score).

Record loop_state := mkLoop { injectable : list Candidate; abstentions : list OutcomeCode; best_score : option float }.

Definition best (b : option float) (score : float) : option float :=
  Some (match b with None => score | Some x => py_fmax x score end).

Fixpoint gate_loop (judge : FusedCandidate → CandidateRow → result exn verdict)
    (rows : list (MemoryId * CandidateRow)) (candidates : list FusedCandidate) (st : loop_state)
  : result exn loop_state :=
  match candidates with
  | [] => Ok st
  | fused :: rest =>
      match dict_get rows (f_memory_id fused) with
      | None => gate_loop judge rows rest st
      | Some row =>
          let! v := judge fused row in
          match v with
          | Skipped => gate_loop judge rows rest st
          | Abstained code score =>
              gate_loop judge rows rest (mkLoop (injectable st) (abstentions st ++ [code]) (best (best_score st) score))
          | Injectable c score =>
              gate_loop judge rows rest (mkLoop (injectable st ++ [c]) (abstentions st) (best (best_score st) score))
          end
      end
  end.

(** The rows that win a slot: the injectable candidates whose id was placed. *)
Definition injection_rows (cs : list Candidate) (placed : list ContextSlot) : list InjectionRow :=
  let placed_ids := omap memory_id placed in
  (λ c, mkInjection (c_memory_id c) (c_slot c) (c_score c) (c_tokens c))
    <$> List.filter (λ c, bool_decide (MemoryId_value (c_memory_id c) ∈ placed_ids)) cs.

Definition empty_set_result : CandidateSetResult := mkSetResult EMPTY_RESULT [] None [].

Definition assembly_run (scope : ProjectScope) (query_text : pystr) (candidates : list FusedCandidate)
    (cfg : HotConfig) (deadline : option (Deadline E)) : io E CandidateSetResult :=
  match candidates with
  | [] => ret empty_set_result
  | _ =>
      do d ← match deadline with
             | Some d => ret d
             | None => new_deadline monotonic_ms (total_budget_ms (cfg_retrieval cfg))
                         (embed_timeout_ms (cfg_retrieval cfg)) None
             end;
      do fetched ← store_call d (FetchCandidates (sc_project_id scope) (f_memory_id <$> candidates));
      let rows := dict_of ((λ r, (cr_memory_id r, r)) <$> fetched) in
      match rows with
      | [] => ret empty_set_result
      | _ =>
          do rarity ← rarity_lookup (sc_project_id scope) query_text rows.*2 d;
          do now ← read_now now_ms;
          let visibility := mkVisibility (sc_agent_type_id scope) None None in
          do st ← of_result (gate_loop (judge_row cfg visibility now rarity) rows candidates (mkLoop [] [] None));
          let assembled := assemble (injectable st) (cfg_budget cfg) in
          ret (mkSetResult (set_outcome_code (negb (bool_decide (a_slots assembled = []))) (abstentions st))
                 (a_slots assembled) (best_score st) (injection_rows (injectable st) (a_slots assembled)))
      end
  end.
End Assembly.

(** ** What was read *)

Section Reads.
Context {E : Type} (monotonic_ms : port E float) (store : CandidateStore E).

Lemma quiet_ensure_time (d : Deadline E) : quiet (ensure_time monotonic_ms d).
Proof. unfold ensure_time. quiet_tac. Qed.

Lemma quiet_emits {A} (m : io E A) w r w' : quiet m → m w = (r, w') → ∃ l, emits w w' l.
Proof. intros Hq Hm. destruct (Hq w) as (l & Hl & _). rewrite Hm in Hl. by exists l. Qed.

(** What a read returns is what the store answered to it. *)
Lemma store_call_Ok d q w a w' :
  store_call monotonic_ms store d q w = (Ok a, w') → ∃ l, emits w w' l ∧ StoreAnswered q a ∈ l.
Proof.
  unfold store_call, catch. destruct (bind _ _ w) as [[b|e] w1] eqn:Hb.
  - intros [= -> ->]. apply bind_Ok in Hb as (x & w2 & Ht & Hc%ask_store_Ok).
    apply quiet_emits in Ht as [l Hl]; [|apply quiet_ensure_time]. exists (l ++ [Asked; StoreAnswered q a]).
    split; [by eapply emits_trans|set_solver].
  - destruct e; try done. intros Hr. apply bind_Ok in Hr as (x & w2 & _ & Hr). by destruct (x <=? 0)%float.
Qed.
End Reads.

Lemma dict_of_sub {K V} `{EqDecision K} (l : list (K * V)) k v : (k, v) ∈ dict_of l → (k, v) ∈ l.
Proof.
  unfold dict_of. assert (H : ∀ d : list (K * V), NoDup d.*1 → (k, v) ∈ foldl (λ d p, dict_set d p.1 p.2) d l →
    (k, v) ∈ d ∨ (k, v) ∈ l).
  { induction l as [|[k' v'] l IH]; cbn; intros d Hd Hin; [by left|].
    apply IH in Hin as [Hin|Hin]; [|right; by right|by apply dict_set_NoDup].
    apply elem_of_dict_set in Hin; [|done]. set_solver. }
  intros Hin. destruct (H [] (NoDup_nil_2) Hin) as [?%elem_of_nil|]; done.
Qed.

(** ** The rarity evidence of a row *)

Section Evidence.
Context (lower : pystr → pystr).

(** The evidence of one row: the document frequency, in percent of the corpus, of each term
    the query shares with this row's content. *)
Definition row_evidence (query_text : pystr) (corpus : Z) (frequencies : list (pystr * Z)) (row : CandidateRow)
  : result exn RarityEvidence :=
  let shared_terms := List.filter (λ t, bool_decide (t ∈ query_terms lower (cr_content row))) (query_terms lower query_text) in
  let! shared := if corpus <=? 0 then Ok [] else rmap (shared_pct frequencies corpus) shared_terms in
  rarity_post_init (mkRarity shared corpus).

(** The corpus size and the frequencies are the store's answers among [l]; the frequencies
    are asked for only when there is something to ask. *)
Record rarity_answers (p : ProjectId) (query_text : pystr) (l : list effect) (corpus : Z) (frequencies : list (pystr * Z))
  : Prop := {
  ra_corpus : StoreAnswered (CorpusSize p) corpus ∈ l;
  ra_frequencies : 0 < corpus → query_terms lower query_text ≠ [] →
    StoreAnswered (DocumentFrequency p (query_terms lower query_text)) frequencies ∈ l;
}.

Lemma rarity_answers_sub p query l l' corpus freqs :
  l ⊆ l' → rarity_answers p query l corpus freqs → rarity_answers p query l' corpus freqs.
Proof. intros Hl [H1 H2]. split; [by apply Hl|]. intros. by apply Hl, H2. Qed.

(** Every entry of the lookup is the evidence of the one row with its id. *)
Definition rarity_exact (query : pystr) (corpus : Z) (freqs : list (pystr * Z)) (rows : list CandidateRow)
    (rarity : list (MemoryId * RarityEvidence)) : Prop :=
  NoDup (cr_memory_id <$> rows) → ∀ row, row ∈ rows →
  ∃ ev, dict_get rarity (cr_memory_id row) = Some ev ∧ row_evidence query corpus freqs row = Ok ev.

Lemma rmap_keyed (f : CandidateRow → result exn (MemoryId * RarityEvidence)) (g : CandidateRow → result exn RarityEvidence) rows :
  (∀ row, f row = (let! ev := g row in Ok (cr_memory_id row, ev))) →
  ∀ rarity, rmap f rows = Ok rarity → NoDup (cr_memory_id <$> rows) →
  ∀ row, row ∈ rows → ∃ ev, dict_get rarity (cr_memory_id row) = Some ev ∧ g row = Ok ev.
Proof.
  intros Hf. induction rows as [|r rows IH]; intros rarity H Hnd row Hin; [by apply elem_of_nil in Hin|].
  cbn [rmap] in H. rewrite rbind_Ok in H. destruct H as ([k e] & He & H). rewrite rbind_Ok in H. destruct H as (rest & Hrest & [= <-]).
  rewrite Hf, rbind_Ok in He. destruct He as (e' & He & [= <- <-]). rewrite fmap_cons, NoDup_cons in Hnd. destruct Hnd as [Hn Hnd].
  apply elem_of_cons in Hin as [-> | Hin].
  - exists e'. cbn. by rewrite bool_decide_eq_true_2.
  - destruct (IH rest Hrest Hnd row Hin) as (ev & Hg & Hev). exists ev. split; [|done]. cbn. rewrite bool_decide_eq_false_2; [done|].
    intros Heq. apply Hn. rewrite Heq. by apply list_elem_of_fmap_2.
Qed.

(** The lookup of both injection paths, over the call each makes into the store. *)
Context {E : Type} (ask_q : ∀ q, io E (answer q)).
Hypothesis ask_answered : ∀ q w a w', ask_q q w = (Ok a, w') → ∃ l, emits w w' l ∧ StoreAnswered q a ∈ l.

Definition lookup_with (p : ProjectId) (query_text : pystr) (rows : list CandidateRow) : io E (list (MemoryId * RarityEvidence)) :=
  let terms := query_terms lower query_text in
  do corpus ← ask_q (CorpusSize p);
  if (corpus <=? 0) || bool_decide (terms = []) then of_result (rmap (no_evidence corpus) rows)
  else
    do frequencies ← ask_q (DocumentFrequency p terms);
    of_result (rmap (shared_evidence lower terms frequencies corpus) rows).

Lemma lookup_exact p query rows w rarity w' : lookup_with p query rows w = (Ok rarity, w') →
  ∃ l corpus freqs, emits w w' l ∧ rarity_answers p query l corpus freqs ∧ rarity_exact query corpus freqs rows rarity.
Proof.
  intros (corpus & w1 & (l1 & Hl1 & Hc)%ask_answered & H)%bind_Ok. cbn [answer] in corpus.
  destruct ((corpus <=? 0) || _) eqn:Hnone.
  - apply of_result_Ok in H as [H ->]. exists l1, corpus, []. split; [done|]. apply orb_true_iff in Hnone.
    rewrite Z.leb_le, bool_decide_eq_true in Hnone. split.
    + split; [done|]. intros Hpos Hne. destruct Hnone; [lia|done].
    + intros Hnd. eapply rmap_keyed; [|exact H|done]. intros row. unfold no_evidence, row_evidence.
      destruct (Z.leb_spec corpus 0); [done|]. destruct Hnone as [?|Hnil]; [lia|]. by rewrite Hnil.
  - apply bind_Ok in H as (freqs & w2 & (l2 & Hl2 & Hf)%ask_answered & H). apply of_result_Ok in H as [H ->].
    exists (l1 ++ l2), corpus, freqs. split; [by eapply emits_trans|]. apply orb_false_iff in Hnone as [Hpos _]. split.
    + split; [set_solver|]. intros _ _. set_solver.
    + intros Hnd. eapply rmap_keyed; [|exact H|done]. intros row. unfold shared_evidence, row_evidence. rewrite Hpos.
      by destruct (rmap (shared_pct _ _) _).
Qed.
End Evidence.

Lemma dict_of_keys {K V} `{EqDecision K} (l : list (K * V)) : NoDup (dict_of l).*1.
Proof.
  unfold dict_of. assert (H : ∀ d : list (K * V), NoDup d.*1 → NoDup (foldl (λ d p, dict_set d p.1 p.2) d l).*1).
  { induction l as [|[k v] l IH]; cbn; intros d Hd; [done|]. apply IH. by apply dict_set_NoDup. }
  apply H, NoDup_nil_2.
Qed.

(** A dict of rows keyed by their ids. *)
Definition rows_by_id (rows : list CandidateRow) : list (MemoryId * CandidateRow) := dict_of ((λ r, (cr_memory_id r, r)) <$> rows).

Lemma rows_by_id_get rows k row : dict_get (rows_by_id rows) k = Some row → cr_memory_id row = k ∧ row ∈ rows ∧ row ∈ (rows_by_id rows).*2.
Proof.
  intros Hg%dict_get_Some_elem. pose proof (list_elem_of_fmap_2 snd _ _ Hg) as H2. apply dict_of_sub in Hg.
  apply list_elem_of_fmap in Hg as (r & [= -> ->] & Hr). done.
Qed.

Lemma rows_by_id_NoDup rows : NoDup (cr_memory_id <$> (rows_by_id rows).*2).
Proof.
  replace (cr_memory_id <$> (rows_by_id rows).*2) with (rows_by_id rows).*1; [apply dict_of_keys|].
  rewrite <- list_fmap_compose. apply list_fmap_ext. intros i [k r] Hi%list_elem_of_lookup_2%dict_of_sub.
  by apply list_elem_of_fmap in Hi as (r' & [= -> ->] & _).
Qed.

(** ** The loop *)

Section Loop.
Context (judge : FusedCandidate → CandidateRow → result exn verdict) (rows : list (MemoryId * CandidateRow)).

Definition injected_by (cands : list FusedCandidate) (c : Candidate) : Prop :=
  ∃ fused row score, fused ∈ cands ∧ dict_get rows (f_memory_id fused) = Some row
                     ∧ judge fused row = Ok (Injectable c score).

Lemma injected_by_cons f cands c : injected_by cands c → injected_by (f :: cands) c.
Proof. intros (fused & row & score & Hin & H). exists fused, row, score. split; [by right|done]. Qed.

Lemma gate_loop_spec cands : ∀ st st', gate_loop judge rows cands st = Ok st' →
  ∃ added codes, injectable st' = injectable st ++ added ∧ abstentions st' = abstentions st ++ codes
    ∧ Forall (injected_by cands) added
    ∧ Forall (λ code, ∃ fused row score, judge fused row = Ok (Abstained code score)) codes
    ∧ ((∀ fused row c score, dict_get rows (f_memory_id fused) = Some row → judge fused row = Ok (Injectable c score) →
          c_memory_id c = f_memory_id fused) →
       (c_memory_id <$> added) `sublist_of` (f_memory_id <$> cands)).
Proof.
  induction cands as [|f cands IH]; intros st st' H; cbn [gate_loop] in H.
  { injection H as <-. exists [], []. rewrite !app_nil_r. split_and!; try done; constructor. }
  destruct (dict_get rows (f_memory_id f)) as [row|] eqn:Hrow.
  - destruct (judge f row) as [v|] eqn:Hj; cbn in H; [|done]. destruct v as [|code score|c score];
      apply IH in H as (added & codes & Hi & Ha & Hadd & Hcodes & Hsub); cbn [injectable abstentions] in *.
    + exists added, codes. split_and!; try done; [eapply Forall_impl; [exact Hadd|apply injected_by_cons]|].
      intros Hid. by apply sublist_cons, Hsub.
    + exists added, (code :: codes). rewrite <- (assoc_L (++)) in Ha.
      split_and!; try done; [eapply Forall_impl; [exact Hadd|apply injected_by_cons]|constructor; eauto|].
      intros Hid. by apply sublist_cons, Hsub.
    + exists (c :: added), codes. rewrite <- (assoc_L (++)) in Hi. split_and!; try done.
      * constructor; [exists f, row, score; split; [by left|done]|].
        eapply Forall_impl; [exact Hadd|apply injected_by_cons].
      * intros Hid. rewrite !fmap_cons, (Hid _ _ _ _ Hrow Hj). by apply sublist_skip, Hsub.
  - apply IH in H as (added & codes & Hi & Ha & Hadd & Hcodes & Hsub). exists added, codes.
    split_and!; try done; [eapply Forall_impl; [exact Hadd|apply injected_by_cons]|].
    intros Hid. by apply sublist_cons, Hsub.
Qed.
End Loop.

(** ** What may be placed *)

(** A row the store returned for a fused candidate, which this run may see and the kill
    switch allows, and whose own signals -- the raw scores of its candidate and the rarity
    evidence computed from its own content -- cleared the abstention gates. *)
Record admitted (evidence : CandidateRow → result exn RarityEvidence) (cfg : HotConfig) (scope : ProjectScope)
    (fused : FusedCandidate) (row : CandidateRow) : Prop := {
  adm_id : cr_memory_id row = f_memory_id fused;
  adm_status : cr_status row = VALIDATED ∨ cr_status row = CANDIDATE ∧ cr_trust_tier row = TierA;
  adm_visible : scope_visible (cr_scope_type row) (cr_scope_id row) (mkVisibility (sc_agent_type_id scope) None None) = true;
  adm_enabled : killswitched (cr_mem_type row) cfg = false;
  adm_gates : ∃ ev s d, evidence row = Ok ev ∧ signals_for fused ev = Ok s ∧ Abstention.decide s (cfg_abstention cfg) = Ok d ∧ inject d = true;
}.

Definition slot_of (row : CandidateRow) : ContextSlot :=
  mkSlot (slot_for row) (Some (MemoryId_value (cr_memory_id row))) (cr_token_count row) (cr_content row).

Lemma assert_dynamic_Ok row : assert_dynamically_retrievable row = Ok tt →
  cr_status row = VALIDATED ∨ cr_status row = CANDIDATE ∧ cr_trust_tier row = TierA.
Proof.
  unfold assert_dynamically_retrievable. destruct (cr_status row), (cr_trust_tier row); intros H; vm_compute in H;
    first [discriminate | auto].
Qed.

Lemma decide_code s cfg d : Abstention.decide s cfg = Ok d → inject d = false →
  outcome_code d = Some ABSTAINED_RARITY ∨ outcome_code d = Some ABSTAINED_THRESHOLD.
Proof.
  unfold Abstention.decide. rewrite rbind_Ok. intros (n & _ & H) Hi.
  destruct (_ || _); [injection H as <-; auto|]. destruct (match cos_sim s with Some _ => _ | None => _ end);
    [injection H as <-; auto|]. destruct (match n with Some _ => _ | None => _ end); injection H as <-; auto. done.
Qed.

Section Judge.
Context (sha256 : list Z → list Z) (powf : float → float → float) (cfg : HotConfig) (scope : ProjectScope) (now : Z)
        (rarity : list (MemoryId * RarityEvidence)) (evidence : CandidateRow → result exn RarityEvidence).
Let judge := judge_row sha256 powf cfg (mkVisibility (sc_agent_type_id scope) None None) now rarity.

Lemma judge_injects fused row c score :
  judge fused row = Ok (Injectable c score) → cr_memory_id row = f_memory_id fused →
  (∃ ev, dict_get rarity (cr_memory_id row) = Some ev ∧ evidence row = Ok ev) →
  admitted evidence cfg scope fused row ∧ c_memory_id c = cr_memory_id row ∧ to_slot c = slot_of row.
Proof.
  unfold judge, judge_row. intros H Hid (ev0 & Hget & Hev0). rewrite rbind_Ok in H. destruct H as ([] & Hdyn & H).
  destruct (scope_visible _ _ _) eqn:Hvis; cbn [negb] in H; [|done].
  destruct (killswitched _ _) eqn:Hks; [done|]. rewrite rbind_Ok in H. destruct H as (ev & Hev & H).
  rewrite rbind_Ok in H. destruct H as (s & Hs & H). rewrite rbind_Ok in H. destruct H as (d & Hd & H).
  rewrite rbind_Ok in H. destruct H as (age & _ & H). rewrite rbind_Ok in H. destruct H as (cal & _ & H).
  rewrite rbind_Ok in H. destruct H as (sc & _ & H). destruct (inject d) eqn:Hi; cbn [negb] in H; [|by case_match].
  rewrite rbind_Ok in H. destruct H as (bs & _ & H). rewrite rbind_Ok in H. destruct H as (c' & Hc & [= -> ->]).
  unfold make_candidate in Hc. destruct (stdpp.base.decide _); [|done]. injection Hc as <-. split; [|done].
  split; [done|by apply assert_dynamic_Ok|done|done|]. rewrite <- Hid, Hget in Hev. injection Hev as ->. by exists ev, s, d.
Qed.

Lemma judge_abstains fused row code score :
  judge fused row = Ok (Abstained code score) → code = ABSTAINED_RARITY ∨ code = ABSTAINED_THRESHOLD.
Proof.
  unfold judge, judge_row. intros H. rewrite rbind_Ok in H. destruct H as ([] & Hdyn & H).
  destruct (scope_visible _ _ _) eqn:Hvis; cbn [negb] in H; [|done].
  destruct (killswitched _ _) eqn:Hks; [done|]. rewrite rbind_Ok in H. destruct H as (ev & Hev & H).
  rewrite rbind_Ok in H. destruct H as (s & Hs & H). rewrite rbind_Ok in H. destruct H as (d & Hd & H).
  rewrite rbind_Ok in H. destruct H as (age & _ & H). rewrite rbind_Ok in H. destruct H as (cal & _ & H).
  rewrite rbind_Ok in H. destruct H as (sc & _ & H). destruct (inject d) eqn:Hi; cbn [negb] in H.
  - rewrite rbind_Ok in H. destruct H as (bs & _ & H). rewrite rbind_Ok in H. by destruct H as (c' & Hc & H).
  - destruct (decide_code _ _ _ Hd Hi) as [Hc|Hc]; rewrite Hc in H; injection H as <- <-; auto.
Qed.
End Judge.

(** The rows logged are those of the slots placed. *)
Definition slot_key (s : ContextSlot) : option uuid * Slot * Z := (memory_id s, slot s, tokens s).
Definition injection_key (i : InjectionRow) : option uuid * Slot * Z :=
  (Some (MemoryId_value (in_memory_id i)), in_slot i, in_tokens i).

Lemma omap_placed sel : omap memory_id (map to_slot sel) = MemoryId_value <$> (c_memory_id <$> sel).
Proof. induction sel as [|c sel IH]; [done|]. cbn. by rewrite IH. Qed.

Lemma MemoryId_value_inj (a b : MemoryId) : MemoryId_value a = MemoryId_value b → a = b.
Proof. destruct a, b. cbn. congruence. Qed.

Lemma injection_rows_member cs sel c :
  c ∈ cs → c ∈ sel → slot_key (to_slot c) ∈ injection_key <$> injection_rows cs (map to_slot sel).
Proof.
  intros Hcs Hsel. unfold injection_rows. rewrite omap_placed, <- list_fmap_compose. apply list_elem_of_fmap.
  exists c. split; [done|]. apply list_elem_of_In, filter_In. split; [by apply list_elem_of_In|].
  apply bool_decide_eq_true. by apply list_elem_of_fmap_2, list_elem_of_fmap_2.
Qed.

Lemma injection_rows_Permutation cs sel :
  NoDup (c_memory_id <$> cs) → NoDup (c_memory_id <$> sel) → (∀ c, c ∈ sel → c ∈ cs) →
  injection_key <$> injection_rows cs (map to_slot sel) ≡ₚ slot_key <$> map to_slot sel.
Proof.
  intros Hcs Hsel Hsub. unfold injection_rows. rewrite omap_placed. change (map to_slot sel) with (to_slot <$> sel).
  rewrite <- !list_fmap_compose. change (injection_key ∘ _) with (slot_key ∘ to_slot).
  apply fmap_Permutation, NoDup_Permutation.
  - apply (NoDup_fmap_1 c_memory_id), filter_keys_NoDup, Hcs.
  - by apply (NoDup_fmap_1 c_memory_id).
  - intros c. rewrite list_elem_of_In, filter_In, <- list_elem_of_In, bool_decide_eq_true. split.
    + intros [Hc (c' & Hid%MemoryId_value_inj & Hc')%list_elem_of_fmap].
      assert (c = c') as ->; [|done]. apply Hsub in Hc' as Hin.
      apply list_elem_of_lookup in Hc as [i Hi], Hin as [j Hj].
      assert (i = j) as ->; [|congruence]. eapply NoDup_lookup; [exact Hcs|by rewrite list_lookup_fmap, Hi|].
      rewrite list_lookup_fmap, Hj. cbn. by rewrite Hid.
    + intros Hc. split; [by apply Hsub|]. apply list_elem_of_fmap. by exists c.
Qed.

(** ** The stage records nothing *)

Section QuietAssembly.
Context {E : Type} (lower : pystr → pystr) (sha256 : list Z → list Z) (powf : float → float → float)
        (monotonic_ms : port E float) (now_ms : port E Z) (store : CandidateStore E).

Lemma quiet_store_call d q : quiet (store_call monotonic_ms store d q).
Proof. unfold store_call, ensure_time. quiet_tac. Qed.

Lemma quiet_assembly scope query cands cfg deadline :
  quiet (assembly_run lower sha256 powf monotonic_ms now_ms store scope query cands cfg deadline).
Proof. unfold assembly_run, rarity_lookup. quiet_tac; apply quiet_store_call. Qed.
End QuietAssembly.
#[export] Hint Resolve quiet_assembly : quiet.

(** ** The result of the stage *)

Section Sound.
Context {E : Type} (lower : pystr → pystr) (sha256 : list Z → list Z) (powf : float → float → float)
        (monotonic_ms : port E float) (now_ms : port E Z) (store : CandidateStore E).

(** The store returned the row when it was asked for the candidates. *)
Definition fetched_row (scope : ProjectScope) (cands : list FusedCandidate) (l : list effect) (row : CandidateRow) : Prop :=
  ∃ rows, StoreAnswered (FetchCandidates (sc_project_id scope) (f_memory_id <$> cands)) rows ∈ l ∧ row ∈ rows.

(** The slot is that of a row fetched for one of the candidates and admitted on the store's own
    answers, all of them among [l]. *)
Definition placed_from (cfg : HotConfig) (scope : ProjectScope) (query : pystr) (cands : list FusedCandidate) (l : list effect)
    (s : ContextSlot) : Prop :=
  ∃ fused row corpus freqs, fused ∈ cands ∧ fetched_row scope cands l row
    ∧ rarity_answers lower (sc_project_id scope) query l corpus freqs
    ∧ admitted (row_evidence lower query corpus freqs) cfg scope fused row ∧ s = slot_of row.

Record set_result_ok (cfg : HotConfig) (scope : ProjectScope) (query : pystr) (cands : list FusedCandidate) (l : list effect)
    (r : CandidateSetResult) : Prop := {
  so_placed : ∀ s, s ∈ sr_slots r → placed_from cfg scope query cands l s;
  so_member : ∀ s, s ∈ sr_slots r → slot_key s ∈ injection_key <$> sr_injections r;
  so_logged : NoDup (f_memory_id <$> cands) → injection_key <$> sr_injections r ≡ₚ slot_key <$> sr_slots r;
  so_injected : sr_outcome_code r = INJECTED ↔ sr_slots r ≠ [];
  so_code : sr_outcome_code r ∈ [INJECTED; ABSTAINED_RARITY; ABSTAINED_THRESHOLD; EMPTY_RESULT];
  so_order : in_canonical_order (sr_slots r) = sr_slots r;
}.

Lemma empty_set_result_ok cfg scope query cands l : set_result_ok cfg scope query cands l empty_set_result.
Proof.
  split; cbn.
  - by intros s ?%elem_of_nil.
  - by intros s ?%elem_of_nil.
  - done.
  - done.
  - do 3 right. by left.
  - reflexivity.
Qed.

Lemma outcome_code_ok placed codes :
  Forall (λ c, c = ABSTAINED_RARITY ∨ c = ABSTAINED_THRESHOLD) codes →
  (set_outcome_code placed codes = INJECTED ↔ placed = true)
  ∧ set_outcome_code placed codes ∈ [INJECTED; ABSTAINED_RARITY; ABSTAINED_THRESHOLD; EMPTY_RESULT].
Proof.
  intros Hc. unfold set_outcome_code. destruct placed; [split; [done|by left]|].
  destruct Hc as [|c codes [-> | ->]]; (split; [done|]); rewrite !elem_of_cons; auto.
Qed.

Lemma assembly_sound scope query cands cfg deadline w r w' :
  assembly_run lower sha256 powf monotonic_ms now_ms store scope query cands cfg deadline w = (Ok r, w') →
  ∃ l, emits w w' l ∧ set_result_ok cfg scope query cands l r.
Proof.
  intros H0. destruct (quiet_emits _ _ _ _ (quiet_assembly _ _ _ _ _ _ _ _ _ _ _) H0) as [lq Hlq].
  revert H0. unfold assembly_run. destruct cands as [|f0 cands0] eqn:Hcands;
    [intros [= <- <-]; exists lq; split; [done|apply empty_set_result_ok]|].
  rewrite <- Hcands in *. clear f0 cands0 Hcands.
  intros (d & w1 & Hd & H)%bind_Ok. apply quiet_emits in Hd as [l1 Hl1]; [|destruct deadline; auto with quiet].
  apply bind_Ok in H as (fetched & w2 & Hf & H). apply store_call_Ok in Hf as (l2 & Hl2 & Hf). cbn [answer] in fetched.
  fold (rows_by_id fetched) in H. destruct (rows_by_id fetched) as [|kr rows0] eqn:Hrows;
    [injection H as <- _; exists lq; split; [done|apply empty_set_result_ok]|].
  rewrite <- Hrows in H. clear kr rows0 Hrows.
  apply bind_Ok in H as (rar & w3 & Hrar & H). change (rarity_lookup _ _ _ _ _ _ _) with
    (lookup_with lower (store_call monotonic_ms store d) (sc_project_id scope) query (rows_by_id fetched).*2) in Hrar.
  apply lookup_exact in Hrar as (l3 & corpus & freqs & Hl3 & Hans & Hexact); [|intros; by eapply store_call_Ok].
  specialize (Hexact (rows_by_id_NoDup fetched)).
  apply bind_Ok in H as (now & w4 & Hl4%read_now_Ok & H).
  apply bind_Ok in H as (st & w5 & [Hg ->]%of_result_Ok & [= <- ->]).
  pose proof (emits_trans _ _ _ _ _ (emits_trans _ _ _ _ _ (emits_trans _ _ _ _ _ Hl1 Hl2) Hl3) Hl4) as Hall.
  eexists. split; [exact Hall|]. clear Hl1 Hl2 Hl3 Hl4 Hall Hlq lq.
  apply gate_loop_spec in Hg as (added & codes & Hi & Ha & Hadd & Hcodes & Hsub). cbn in Hi, Ha. rewrite Hi, Ha.
  destruct (assemble_accounts_for_every_id added (cfg_budget cfg)) as [(sel & Hslots & Hsel & Hnd & _) _].
  assert (Hcode : Forall (λ c, c = ABSTAINED_RARITY ∨ c = ABSTAINED_THRESHOLD) codes).
  { eapply Forall_impl; [exact Hcodes|]. intros c (fused & row & score & Hj). by eapply judge_abstains. }
  destruct (outcome_code_ok (negb (bool_decide (a_slots (assemble added (cfg_budget cfg)) = []))) codes Hcode) as [H1 H2].
  split; cbn [sr_slots sr_injections sr_outcome_code].
  - rewrite Hslots. intros s (c & -> & Hc)%list_elem_of_fmap. apply Hsel in Hc.
    rewrite Forall_forall in Hadd. apply Hadd in Hc as (fused & row & score & Hin & Hrow & Hj).
    apply rows_by_id_get in Hrow as (Hid & Hrow & Hrow2). destruct (judge_injects _ _ _ _ _ _ (row_evidence lower query corpus freqs)
      _ _ _ _ Hj Hid (Hexact row Hrow2)) as (Hadm & _ & Hslot).
    exists fused, row, corpus, freqs. split_and!; [done| | |done|done].
    + exists fetched. split; [|done]. rewrite !elem_of_app. auto.
    + eapply rarity_answers_sub; [|exact Hans]. set_solver.
  - rewrite Hslots. intros s (c & -> & Hc)%list_elem_of_fmap. by apply injection_rows_member; [apply Hsel|].
  - intros Hcands. rewrite Hslots. apply injection_rows_Permutation; [|exact Hnd|exact Hsel].
    eapply sublist_NoDup; [exact Hcands|]. apply Hsub. intros fused row c score (Hid & _ & Hrow2)%rows_by_id_get Hj.
    rewrite <- Hid. by eapply (judge_injects _ _ _ _ _ _ (row_evidence lower query corpus freqs)); [..|by apply Hexact].
  - rewrite H1, negb_true_iff, bool_decide_eq_false. done.
  - done.
  - apply assemble_placement.
Qed.
End Sound.
