(* ===== verification/Pipeline.v ===== *)
(** * The retrieval call (hotpath/pipeline.py)

    Models [Pipeline.retrieve] with everything it composes: the holdout draw, the degradation
    ladder, the retriever (a collaborator), the candidate assembly (Assembly.v), the renderer
    (Templates.v) and the recorders.  Every collaborator may raise, stall and answer anything.
    [accepts] is the validation of the response model (pydantic). *)

From Stdlib Require Import Floats.
From S2P Require Import Prelude Domain PyText PyFloat StateMachine Templates Assembler Fusion Abstention HotPath Assembly.
Open Scope Z_scope.
Open Scope io_scope.

Record RetrievalOutcome := mkOutcome {
  ro_candidates : list FusedCandidate;
  ro_degraded : bool;
  ro_embed_latency_ms : Z;
  ro_candidates_considered : Z;
}.

Record RetrieveResult := mkResult {
  rr_run_id : RunId;
  rr_arm : Arm;
  rr_outcome_code : OutcomeCode;
  rr_context_block : ContextBlock;
}.

Definition empty_context_block : ContextBlock := mkBlock [] [].

(** What a [Pipeline] is constructed with.  [static_prefix] answers [None] for anything that
    is not a [ContextBlock]. *)
Record Ports (E : Type) := mkPorts {
  monotonic_ms : port E float;
  now_ms : port E Z;
  mint : option Z → port E RunId;
  effective : ProjectId → AgentTypeId → option (Deadline E) → port E HotConfig;
  retriever : ProjectId → pystr → RetrievalConfig → Deadline E → port E RetrievalOutcome;
  store : CandidateStore E;
  static_prefix : option (ProjectScope → port E (option ContextBlock));
  injection_recorder : option (ProjectId → RunId → list InjectionRow → port E unit);
  record_retrieval : ProjectId → RetrievalEventInsert → port E unit;
}.
Arguments monotonic_ms {E}.
Arguments now_ms {E}.
Arguments mint {E}.
Arguments effective {E}.
Arguments retriever {E}.
Arguments store {E}.
Arguments static_prefix {E}.
Arguments injection_recorder {E}.
Arguments record_retrieval {E}.

Record LadderResult := mkLadder {
  lr_outcome_code : OutcomeCode;
  lr_context_block : ContextBlock;
  lr_embed_latency_ms : option Z;
  lr_candidates_considered : Z;
  lr_top_score : option float;
  lr_injections : list InjectionRow;
}.

(** [RetrievalAuditPort]. *)
Abbreviation Audit E := (list InjectionRow → RetrievalEventInsert → port E unit).

(** [except Exception] around a whole block: its result, raised or not. *)
Definition attempt {E A} (m : io E A) : io E (result herr A) := λ w, let '(r, w') := m w in (Ok r, w').

Section Pipeline.
Context {E : Type} (lower : pystr → pystr) (sha256 : list Z → list Z) (powf : float → float → float)
        (accepts : RetrieveResult → bool) (P : Ports E) (salt : pystr).

(** ** Two collaborators, and what they answered *)

Definition read_config (p : ProjectId) (agent : AgentTypeId) (deadline : option (Deadline E)) : io E HotConfig :=
  do cfg ← call (effective P p agent deadline); do _ ← logged (Configured p agent cfg); ret cfg.

Definition ask_retriever (p : ProjectId) (query_text : pystr) (rc : RetrievalConfig) (d : Deadline E) : io E RetrievalOutcome :=
  ask (λ o, Retrieved p query_text (ro_candidates o)) (retriever P p query_text rc d).

(** ** Guards *)

Definition mint_run_id : io E RunId :=
  try (do ms ← call (now_ms P); call (mint P (Some ms))) except (λ _, call (mint P None)).

Definition monotonic_or_none : io E (option float) :=
  try (do t ← read_clock (monotonic_ms P); ret (Some t)) except (λ _, ret None).

Definition latency_ms (mono_start : option float) : io E Z :=
  match mono_start with
  | None => ret 0
  | Some t0 =>
      try (do t ← read_clock (monotonic_ms P); do n ← of_result (py_int (t - t0)%float); ret (Z.max 0 n))
      except (λ _, ret 0)
  end.

Definition session_key (session_id : option pystr) (run : RunId) : pystr :=
  match session_id with
  | Some s => if negb (py_blank s) then s else uuid_str (RunId_value run)
  | None => uuid_str (RunId_value run)
  end.

(** [_result]: the fallback replaces a result the model refuses. *)
Definition build_result (run : RunId) (arm : Arm) (code : OutcomeCode) (block : ContextBlock) : io E RetrieveResult :=
  let r := mkResult run arm code block in
  if accepts r then ret r
  else
    let fallback := mkResult run MEMORY_ON STORE_ERROR empty_context_block in
    if accepts fallback then ret fallback else raise (HExn ValueError).

Definition record_injections (p : ProjectId) (run : RunId) (rows : list InjectionRow) : io E unit :=
  match injection_recorder P, rows with
  | Some f, _ :: _ => try (do _ ← logged (RecordInjections p run rows); call (f p run rows)) except (λ _, ret tt)
  | _, _ => ret tt
  end.

Definition record_telemetry (p : ProjectId) (row : RetrievalEventInsert) : io E unit :=
  try (do _ ← logged (RecordRetrieval p row); call (record_retrieval P p row)) except (λ _, ret tt).

Definition finish (scope : ProjectScope) (run : RunId) (arm : Arm) (mono_start : option float) (l : LadderResult)
    (audit : option (Audit E)) : io E RetrieveResult :=
  do result ← build_result run arm (lr_outcome_code l) (lr_context_block l);
  let kept := bool_decide (rr_outcome_code result = lr_outcome_code l) && bool_decide (rr_arm result = arm) in
  let injections := if kept then lr_injections l else [] in
  let row n := mkEventRow run (rr_outcome_code result) n (lr_embed_latency_ms l) (lr_candidates_considered l)
                 (lr_top_score l) (rr_arm result) in
  match audit with
  | Some record_terminal =>
      do n ← latency_ms mono_start;
      do _ ← logged (RecordTerminal injections (row n));
      do _ ← call (record_terminal injections (row n));
      ret result
  | None =>
      do _ ← record_injections (sc_project_id scope) run injections;
      do n ← latency_ms mono_start;
      do _ ← record_telemetry (sc_project_id scope) (row n);
      ret result
  end.

(** ** The ladder *)

Definition timeout_prefix_only (scope : ProjectScope) (embed_latency : option Z) : io E LadderResult :=
  do fetched ← match static_prefix P with
               | None => ret None
               | Some get => try (call (get scope)) except (λ _, ret None)
               end;
  ret (mkLadder TIMEOUT_PREFIX_ONLY (default empty_context_block fetched) embed_latency 0 None []).

Definition embed_bounded (rc : RetrievalConfig) (d : Deadline E) : io E RetrievalConfig :=
  do s ← embed_sub_budget_ms (monotonic_ms P) d;
  do bounded ← of_result (py_ceil s);
  ret (if embed_timeout_ms rc <=? bounded then rc else mkRetrieval (total_budget_ms rc) bounded).

(** From the third check of the budget on. *)
Definition deliver (scope : ProjectScope) (d : Deadline E) (outcome : RetrievalOutcome) (a : CandidateSetResult)
  : io E LadderResult :=
  do late ← total_exceeded (monotonic_ms P) d;
  if late then timeout_prefix_only scope (Some (ro_embed_latency_ms outcome))
  else
    do block ← of_result (render (sr_slots a));
    ret (mkLadder (if ro_degraded outcome then DEGRADED_LEXICAL else sr_outcome_code a) block
           (Some (ro_embed_latency_ms outcome)) (ro_candidates_considered outcome) (sr_top_score a) (sr_injections a)).

Definition run_ladder (scope : ProjectScope) (query_text : pystr) (cfg : HotConfig) (started_at_ms : float)
    (deadline : option (Deadline E)) : io E LadderResult :=
  do d ← match deadline with
         | Some d => ret d
         | None => new_deadline (monotonic_ms P) (total_budget_ms (cfg_retrieval cfg))
                     (embed_timeout_ms (cfg_retrieval cfg)) (Some started_at_ms)
         end;
  do early ← total_exceeded (monotonic_ms P) d;
  if early then timeout_prefix_only scope None
  else
    do rc ← embed_bounded (cfg_retrieval cfg) d;
    do outcome ← ask_retriever (sc_project_id scope) query_text rc d;
    do late ← total_exceeded (monotonic_ms P) d;
    if late then timeout_prefix_only scope (Some (ro_embed_latency_ms outcome))
    else
      do assembled ← attempt (assembly_run lower sha256 powf (monotonic_ms P) (now_ms P) (store P) scope query_text
                                (ro_candidates outcome) cfg (Some d));
      match assembled with
      | Err HAssemblyDeadline => timeout_prefix_only scope (Some (ro_embed_latency_ms outcome))
      | Err e => raise e
      | Ok a => deliver scope d outcome a
      end.

(** ** [retrieve] *)

Definition store_error_ladder : LadderResult := mkLadder STORE_ERROR empty_context_block None 0 None [].
Definition config_deadline_timeout : LadderResult := mkLadder TIMEOUT_PREFIX_ONLY empty_context_block None 0 None [].

Definition arm_of (scope : ProjectScope) (cfg : HotConfig) (session_id : option pystr) (run : RunId) : Arm :=
  match assign_arm sha256 (session_key session_id run) (sc_agent_type_id scope) salt (cfg_holdout_pct cfg) with
  | Ok arm => arm
  | Err _ => MEMORY_ON
  end.

(** The holdout arm keeps everything but the code and the block. *)
Definition withhold (arm : Arm) (l : LadderResult) : LadderResult :=
  match arm with
  | ARM_HOLDOUT => mkLadder OUTCOME_HOLDOUT empty_context_block (lr_embed_latency_ms l) (lr_candidates_considered l)
                     (lr_top_score l) (lr_injections l)
  | MEMORY_ON => l
  end.

Definition guarded_ladder (scope : ProjectScope) (query_text : pystr) (cfg : HotConfig) (t0 : float)
    (deadline : option (Deadline E)) : io E LadderResult :=
  try (do d ← match deadline with
              | None => ret None
              | Some d => do d' ← narrow_total_budget_ms d (total_budget_ms (cfg_retrieval cfg)); ret (Some d')
              end;
       run_ladder scope query_text cfg t0 d)
  except (λ _, ret store_error_ladder).

Definition retrieve (scope : ProjectScope) (query_text : pystr) (session_id : option pystr) (run_id : option RunId)
    (deadline : option (Deadline E)) (audit : option (Audit E)) : io E RetrieveResult :=
  do run ← match run_id with Some r => ret r | None => mint_run_id end;
  do mono_start ← monotonic_or_none;
  do cfg ← attempt (read_config (sc_project_id scope) (sc_agent_type_id scope) deadline);
  match cfg with
  | Err HRequestDeadline =>
      match deadline with
      | Some _ => raise HRequestDeadline
      | None => finish scope run MEMORY_ON mono_start config_deadline_timeout audit
      end
  | Err _ => finish scope run MEMORY_ON mono_start store_error_ladder audit
  | Ok cfg =>
      match mono_start with
      | None => finish scope run MEMORY_ON mono_start store_error_ladder audit
      | Some t0 =>
          let arm := arm_of scope cfg session_id run in
          do l ← guarded_ladder scope query_text cfg t0 deadline;
          finish scope run arm mono_start (withhold arm l) audit
      end
  end.
End Pipeline.

(** ** Everything before the end is quiet *)

Lemma quiet_attempt {E A} (m : io E A) : quiet m → quiet (attempt m).
Proof. intros Hm w. destruct (Hm w) as (l & Hl & Hr). exists l. unfold attempt. by destruct (m w). Qed.
#[export] Hint Resolve quiet_attempt : quiet.

Section QuietPipeline.
Context {E : Type} (lower : pystr → pystr) (sha256 : list Z → list Z) (powf : float → float → float) (P : Ports E).

Lemma quiet_read_config p agent deadline : quiet (read_config P p agent deadline).
Proof. unfold read_config. apply quiet_bind; [auto with quiet|intros]. apply quiet_bind; [by apply quiet_logged|auto with quiet]. Qed.

Lemma quiet_ask_retriever p query rc d : quiet (ask_retriever P p query rc d).
Proof. by apply quiet_ask. Qed.
#[local] Hint Resolve quiet_ask_retriever : quiet.

Lemma quiet_mint : quiet (mint_run_id P).
Proof. unfold mint_run_id. quiet_tac. Qed.

Lemma quiet_monotonic : quiet (monotonic_or_none P).
Proof. unfold monotonic_or_none. quiet_tac. Qed.

Lemma quiet_latency t : quiet (latency_ms P t).
Proof. unfold latency_ms. quiet_tac. Qed.

Lemma quiet_timeout scope n : quiet (timeout_prefix_only P scope n).
Proof. unfold timeout_prefix_only. quiet_tac. Qed.
#[local] Hint Resolve quiet_timeout : quiet.

Lemma quiet_ladder scope query cfg t0 deadline :
  quiet (guarded_ladder lower sha256 powf P scope query cfg t0 deadline).
Proof.
  unfold guarded_ladder, run_ladder, embed_bounded, deliver.
  repeat first
    [ solve [auto with quiet]
    | apply quiet_bind; [|intros]
    | apply quiet_catch; [|intros]
    | case_match ].
Qed.
End QuietPipeline.

(** ** The end *)

Definition clock_only (l : list effect) : Prop := Forall (λ x, match x with ClockRead _ => True | _ => False end) l.

Lemma read_clock_log {E} (f : port E float) w r w' : read_clock f w = (r, w') →
  (∃ t, r = Ok t ∧ w_log w' = w_log w ++ [ClockRead t]) ∨ (∃ e, r = Err e) ∧ w_log w' = w_log w.
Proof.
  unfold read_clock, bind, call. destruct (f (w_env w)) as [[t|e] env]; cbn; intros [= <- <-]; [left|right]; cbn; eauto.
Qed.

Lemma latency_log {E} (P : Ports E) t w :
  ∃ n w' l, latency_ms P t w = (Ok n, w') ∧ w_log w' = w_log w ++ l ∧ clock_only l.
Proof.
  unfold latency_ms. destruct t as [t0|]; [|eexists _, _, []; split; [done|split; [by rewrite app_nil_r|constructor]]].
  unfold catch, bind. destruct (read_clock (monotonic_ms P) w) as [r w1] eqn:Hr.
  apply read_clock_log in Hr as [(t & -> & Hl)|[[e ->] Hl]].
  - destruct (of_result _ w1) as [[n|e] w2] eqn:Hn; cbn.
    + apply of_result_Ok in Hn as [_ ->]. eexists _, _, [ClockRead t]. split; [done|]. split; [done|by repeat constructor].
    + eexists _, _, [ClockRead t]. split; [done|]. split; [|by repeat constructor].
      unfold of_result in Hn. destruct (py_int _); [done|]. by injection Hn as _ <-.
  - eexists _, _, []. split; [done|]. split; [by rewrite app_nil_r|constructor].
Qed.

Lemma clock_only_records l : clock_only l → records l = [].
Proof. induction 1 as [|x l Hx Hl IH]; [done|]. by destruct x. Qed.

Lemma clock_only_asked l : clock_only l → Forall (λ x, x ≠ Asked) l.
Proof. intros H. eapply Forall_impl; [exact H|]. by intros []. Qed.

Definition recorded {E} (P : Ports E) (p : ProjectId) (run : RunId) (audit : option (Audit E)) (inj : list InjectionRow)
    (row : RetrievalEventInsert) : list effect :=
  match audit with
  | Some _ => [RecordTerminal inj row]
  | None =>
      match injection_recorder P, inj with Some _, _ :: _ => [RecordInjections p run inj] | _, _ => [] end
      ++ [RecordRetrieval p row]
  end.

(** The row describes the result. *)
Definition describes (row : RetrievalEventInsert) (res : RetrieveResult) : Prop :=
  re_run_id row = rr_run_id res ∧ re_outcome_code row = rr_outcome_code res ∧ re_arm row = rr_arm res.

Definition fallback (run : RunId) : RetrieveResult := mkResult run MEMORY_ON STORE_ERROR empty_context_block.

Section Finish.
Context {E : Type} (accepts : RetrieveResult → bool) (P : Ports E).
Hypothesis accepts_fallback : ∀ run, accepts (fallback run) = true.

Lemma record_injections_log p run rows w :
  ∃ w', record_injections P p run rows w = (Ok tt, w')
    ∧ w_log w' = w_log w ++ match injection_recorder P, rows with Some _, _ :: _ => [RecordInjections p run rows] | _, _ => [] end.
Proof.
  unfold record_injections. destruct (injection_recorder P) as [f|], rows as [|r rows];
    try (eexists; split; [done|by rewrite app_nil_r]).
  unfold catch, bind, call. cbn. destruct (f _ _ _ _) as [[[]|e] env]; by eexists.
Qed.

Lemma record_telemetry_log p row w :
  ∃ w', record_telemetry P p row w = (Ok tt, w') ∧ w_log w' = w_log w ++ [RecordRetrieval p row].
Proof.
  unfold record_telemetry, catch, bind, call. cbn. destruct (record_retrieval P p row (w_env w)) as [[[]|e] env]; by eexists.
Qed.

Lemma build_result_cases run arm code block (w : world E) :
  ∃ res, build_result accepts run arm code block w = (Ok res, w) ∧ rr_run_id res = run
    ∧ (res = mkResult run arm code block ∨ res = fallback run ∧ accepts (mkResult run arm code block) = false).
Proof.
  unfold build_result. destruct (accepts (mkResult run arm code block)) eqn:Ha; [by eexists; eauto|].
  fold (fallback run). rewrite accepts_fallback. eexists; eauto.
Qed.

Lemma finish_spec scope run arm t l audit w r w' :
  finish accepts P scope run arm t l audit w = (r, w') →
  ∃ res inj row new, w_log w' = w_log w ++ new
    ∧ records new = recorded P (sc_project_id scope) run audit inj row ∧ Forall (λ x, x ≠ Asked) new
    ∧ describes row res
    ∧ (res = mkResult run arm (lr_outcome_code l) (lr_context_block l) ∧ inj = lr_injections l ∨ res = fallback run)
    ∧ (r = Ok res ∨ audit ≠ None ∧ ∃ e, r = Err e).
Proof.
  unfold finish. destruct (build_result_cases run arm (lr_outcome_code l) (lr_context_block l) w) as (res & Hb & Hrun & Hres).
  rewrite (bind_eq _ _ _ _ _ Hb). set (kept := _ && _). set (inj := if kept then _ else _).
  assert (Hinj : res = mkResult run arm (lr_outcome_code l) (lr_context_block l) ∧ inj = lr_injections l ∨ res = fallback run).
  { destruct Hres as [->|[-> _]]; [left|by right]. split; [done|]. unfold inj, kept. cbn. by rewrite !bool_decide_true. }
  clearbody inj. clear kept Hres Hb. destruct audit as [record_terminal|].
  - destruct (latency_log P t w) as (n & w1 & l1 & Hn & Hl1 & Hc). rewrite (bind_eq _ _ _ _ _ Hn).
    set (row := mkEventRow _ _ _ _ _ _ _). intros H.
    exists res, inj, row, (l1 ++ [RecordTerminal inj row]).
    assert (Hw : w_log w' = w_log w1 ++ [RecordTerminal inj row] ∧ (r = Ok res ∨ ∃ e, r = Err e)).
    { revert H. unfold bind, logged, call. cbn. destruct (record_terminal inj row (w_env w1)) as [[[]|e] env];
        intros [= <- <-]; split; eauto. }
    destruct Hw as [Hw Hr]. split_and!.
    + rewrite Hw, Hl1, <- app_assoc. reflexivity.
    + by rewrite records_app, (clock_only_records _ Hc).
    + apply Forall_app. split; [by apply clock_only_asked|by repeat constructor].
    + done.
    + done.
    + destruct Hr as [?|?]; [by left|]. right. by split.
  - destruct (record_injections_log (sc_project_id scope) run inj w) as (w1 & Hi & Hl1). rewrite (bind_eq _ _ _ _ _ Hi).
    destruct (latency_log P t w1) as (n & w2 & l2 & Hn & Hl2 & Hc). rewrite (bind_eq _ _ _ _ _ Hn).
    set (row := mkEventRow _ _ _ _ _ _ _).
    destruct (record_telemetry_log (sc_project_id scope) row w2) as (w3 & Ht & Hl3). rewrite (bind_eq _ _ _ _ _ Ht).
    intros [= <- <-].
    exists res, inj, row, (match injection_recorder P, inj with
                           | Some _, _ :: _ => [RecordInjections (sc_project_id scope) run inj] | _, _ => [] end
                           ++ l2 ++ [RecordRetrieval (sc_project_id scope) row]). split_and!.
    + rewrite Hl3, Hl2, Hl1, <- !app_assoc. reflexivity.
    + rewrite !records_app, (clock_only_records _ Hc). unfold recorded. destruct (injection_recorder P), inj; done.
    + rewrite !Forall_app. split_and!; [|by apply clock_only_asked|by repeat constructor].
      destruct (injection_recorder P), inj; by repeat constructor.
    + done.
    + done.
    + by left.
Qed.
End Finish.

(** ** The call, taken apart *)

Section Cases.
Context {E : Type} (lower : pystr → pystr) (sha256 : list Z → list Z) (powf : float → float → float)
        (accepts : RetrieveResult → bool) (P : Ports E).

(** [os.urandom] works. *)
Hypothesis mint_total : ∀ e, ∃ run e', mint P None e = (Ok run, e').

Lemma mint_Ok (w : world E) : ∃ run w', mint_run_id P w = (Ok run, w').
Proof.
  unfold mint_run_id, catch. destruct (bind _ _ w) as [[run|e] w1]; [eauto|].
  destruct (mint_total (w_env w1)) as (run & e' & Hm). unfold call. rewrite Hm. eauto.
Qed.

Lemma monotonic_Ok (w : world E) : ∃ t w', monotonic_or_none P w = (Ok t, w').
Proof. unfold monotonic_or_none, catch. destruct (bind _ _ w) as [[t|e] w1]; eauto. Qed.

Lemma ladder_Ok scope query cfg t0 deadline (w : world E) :
  ∃ l w', guarded_ladder lower sha256 powf P scope query cfg t0 deadline w = (Ok l, w').
Proof. unfold guarded_ladder, catch. destruct (bind _ _ w) as [[l|e] w1]; eauto. Qed.

(** The configuration the provider answered. *)
Definition configured (scope : ProjectScope) (l : list effect) (cfg : HotConfig) : Prop :=
  Configured (sc_project_id scope) (sc_agent_type_id scope) cfg ∈ l.

Record prologue (scope : ProjectScope) (run_id : option RunId) (w : world E)
    (run : RunId) (t : option float) (cfg : result herr HotConfig) (w0 : world E) : Prop := {
  pro_quiet : ∃ l, w_log w0 = w_log w ++ l ∧ records l = [] ∧ ∀ c, cfg = Ok c → configured scope l c;
  pro_run : run_id = None ∨ run_id = Some run;
}.

Lemma quiet_log {A} (m : io E A) w r w' : quiet m → m w = (r, w') → ∃ l, w_log w' = w_log w ++ l ∧ records l = [].
Proof. intros Hq Hm. destruct (Hq w) as (l & Hl & Hr). rewrite Hm in Hl. eauto. Qed.

Lemma read_config_Ok p agent deadline w c w' : read_config P p agent deadline w = (Ok c, w') →
  w_log w' = w_log w ++ [Configured p agent c].
Proof.
  intros (c' & w1 & [_ Hl]%call_Ok & H)%bind_Ok. apply bind_Ok in H as ([] & w2 & [= <-] & [= <- <-]). cbn. by rewrite Hl.
Qed.

(** [retrieve] without its first three steps. *)
Definition conclude (salt : pystr) (scope : ProjectScope) (query : pystr) (session : option pystr) (deadline : option (Deadline E))
    (audit : option (Audit E)) (run : RunId) (t : option float) (cfg : result herr HotConfig) : io E RetrieveResult :=
  match cfg with
  | Err HRequestDeadline =>
      match deadline with
      | Some _ => raise HRequestDeadline
      | None => finish accepts P scope run MEMORY_ON t config_deadline_timeout audit
      end
  | Err _ => finish accepts P scope run MEMORY_ON t store_error_ladder audit
  | Ok cfg =>
      match t with
      | None => finish accepts P scope run MEMORY_ON t store_error_ladder audit
      | Some t0 =>
          let arm := arm_of sha256 salt scope cfg session run in
          do l ← guarded_ladder lower sha256 powf P scope query cfg t0 deadline;
          finish accepts P scope run arm t (withhold arm l) audit
      end
  end.

Lemma retrieve_conclude scope query session run_id deadline audit w :
  ∃ run t cfg w0, prologue scope run_id w run t cfg w0
    ∧ ∀ salt, retrieve lower sha256 powf accepts P salt scope query session run_id deadline audit w
      = conclude salt scope query session deadline audit run t cfg w0.
Proof.
  assert (Hrun : ∃ run w1, (match run_id with Some r => ret r | None => mint_run_id P end) w = (Ok run, w1)
                           ∧ (run_id = None ∨ run_id = Some run) ∧ ∃ l, w_log w1 = w_log w ++ l ∧ records l = []).
  { destruct run_id as [run|].
    - eexists _, _. split; [done|]. split; [by right|]. exists []. by rewrite app_nil_r.
    - destruct (mint_Ok w) as (run & w1 & Hm). eexists _, _. split; [done|]. split; [by left|].
      eapply quiet_log; [apply quiet_mint|done]. }
  destruct Hrun as (run & w1 & Hrun & Hid & l1 & Hl1 & Hr1).
  destruct (monotonic_Ok w1) as (t & w2 & Ht). destruct (quiet_log _ _ _ _ (quiet_monotonic P) Ht) as (l2 & Hl2 & Hr2).
  set (m := read_config P (sc_project_id scope) (sc_agent_type_id scope) deadline).
  destruct (m w2) as [cfg w3] eqn:Hm. destruct (quiet_log m _ _ _ (quiet_read_config P _ _ _) Hm) as (l3 & Hl3 & Hr3).
  exists run, t, cfg, w3. split.
  - split.
    + exists (l1 ++ l2 ++ l3). split_and!; [by rewrite Hl3, Hl2, Hl1, !app_assoc|by rewrite !records_app, Hr1, Hr2, Hr3|].
      intros c ->. apply read_config_Ok in Hm. rewrite Hm in Hl3. apply app_inv_head in Hl3 as <-. unfold configured. set_solver.
    + done.
  - intros salt. unfold retrieve. rewrite (bind_eq _ _ _ _ _ Hrun), (bind_eq _ _ _ _ _ Ht). fold m.
    assert (Ha : attempt m w2 = (Ok cfg, w3)) by (unfold attempt; by rewrite Hm).
    by rewrite (bind_eq _ _ _ _ _ Ha).
Qed.

Lemma conclude_cases salt scope query session deadline audit run t cfg w r w' :
  conclude salt scope query session deadline audit run t cfg w = (r, w') →
  (deadline ≠ None ∧ r = Err HRequestDeadline ∧ w' = w)
  ∨ ∃ arm l w1, finish accepts P scope run arm t l audit w1 = (r, w')
      ∧ (∃ q, w_log w1 = w_log w ++ q ∧ records q = [])
      ∧ (arm = MEMORY_ON ∧ (l = store_error_ladder ∨ l = config_deadline_timeout)
         ∨ ∃ c t0 l', cfg = Ok c ∧ arm = arm_of sha256 salt scope c session run ∧ l = withhold arm l'
                      ∧ guarded_ladder lower sha256 powf P scope query c t0 deadline w = (Ok l', w1)).
Proof.
  assert (Hnil : ∃ q, w_log w = w_log w ++ q ∧ records q = []) by (exists []; by rewrite app_nil_r).
  unfold conclude. destruct cfg as [c|[]]; try (intros H; right; eexists _, _, _; split; [exact H|]; split; [done|left; auto]).
  - destruct t as [t0|]; [|intros H; right; eexists _, _, _; split; [exact H|]; split; [done|left; auto]].
    destruct (ladder_Ok scope query c t0 deadline w) as (l & w1 & Hl). cbn zeta. rewrite (bind_eq _ _ _ _ _ Hl).
    intros H. right. eexists _, _, w1. split; [exact H|]. split; [by eapply quiet_log; [apply quiet_ladder|]|].
    right. by eexists _, _, _.
  - destruct deadline; [intros [= <- <-]; by left|]. intros H. right. eexists _, _, _. split; [exact H|]. split; [done|left; auto].
Qed.
End Cases.

(** ** Theorems *)

(** [C5] A retrieval never fails because of Tracebed: whatever the clock, the configuration,
    the retriever, the stores, the prefix cache and the recorders answer or raise, the call
    returns a result.  The two exceptions are a caller that brought its own deadline, whose
    expiry during configuration is raised, and a caller that brought its own audit, which may
    raise.  Every result leaves exactly one terminal row, with its run, code and arm; nothing
    is recorded when the deadline is raised. *)
Theorem retrieve_never_fails {E} lower sha256 powf accepts (P : Ports E) salt scope query session run_id deadline audit
    (w w' : world E) r :
  (∀ e, ∃ run e', mint P None e = (Ok run, e')) → (∀ run, accepts (fallback run) = true) →
  retrieve lower sha256 powf accepts P salt scope query session run_id deadline audit w = (r, w') →
  ∃ new, w_log w' = w_log w ++ new
    ∧ ((deadline ≠ None ∧ r = Err HRequestDeadline ∧ records new = [])
       ∨ ∃ res inj row, records new = recorded P (sc_project_id scope) (rr_run_id res) audit inj row ∧ describes row res
           ∧ (r = Ok res ∨ audit ≠ None ∧ ∃ e, r = Err e)).
Proof.
  intros Hmint Hacc H. destruct (retrieve_conclude lower sha256 powf accepts P Hmint scope query session run_id deadline
    audit w) as (run & t & cfg & w0 & [(l0 & Hl0 & Hr0 & _) _] & Heq). rewrite Heq in H. clear Heq.
  apply conclude_cases in H as [(Hd & -> & ->)|(arm & l & w1 & Hf & (q & Hq & Hrq) & _)].
  - exists l0. split; [done|]. by left.
  - apply (finish_spec accepts P Hacc) in Hf as (res & inj & row & new & Hnew & Hrec & _ & Hdesc & Hres & Hr).
    exists (l0 ++ q ++ new). split; [by rewrite Hnew, Hq, Hl0, !app_assoc|]. right. exists res, inj, row.
    rewrite !records_app, Hr0, Hrq. cbn [app]. rewrite Hrec. split; [|done].
    by destruct Hres as [[-> _]| ->].
Qed.

(** ** The holdout arm *)

(** A terminal row without what the arm decides. *)
Definition unarmed (row : RetrievalEventInsert) : RetrievalEventInsert :=
  mkEventRow (re_run_id row) EMPTY_RESULT (re_latency_ms row) (re_embed_latency_ms row) (re_candidates_considered row)
    (re_top_score row) MEMORY_ON.

Definition mask (x : effect) : effect :=
  match x with
  | RecordRetrieval p row => RecordRetrieval p (unarmed row)
  | RecordTerminal inj row => RecordTerminal inj (unarmed row)
  | x => x
  end.

Section Shadow.
Context {E : Type} (accepts : RetrieveResult → bool) (P : Ports E).
Hypothesis accepts_all : ∀ r, accepts r = true.

Definition same_work (l l' : LadderResult) : Prop :=
  lr_embed_latency_ms l = lr_embed_latency_ms l' ∧ lr_candidates_considered l = lr_candidates_considered l'
  ∧ lr_top_score l = lr_top_score l' ∧ lr_injections l = lr_injections l'.

Lemma withhold_same_work arm arm' l : same_work (withhold arm l) (withhold arm' l).
Proof. by destruct arm, arm'. Qed.

Lemma build_accepted run arm code block (w : world E) :
  build_result accepts run arm code block w = (Ok (mkResult run arm code block), w).
Proof. unfold build_result. by rewrite accepts_all. Qed.

Lemma kept_accepted code arm :
  bool_decide (code = code :> OutcomeCode) && bool_decide (arm = arm :> Arm) = true.
Proof. by rewrite !bool_decide_true. Qed.

Lemma finish_masked scope run arm arm' t l l' audit w : same_work l l' →
  mask <$> w_log (finish accepts P scope run arm t l audit w).2
  = mask <$> w_log (finish accepts P scope run arm' t l' audit w).2.
Proof.
  intros (He & Hc & Ht & Hi). unfold finish. rewrite !(bind_eq _ _ _ _ _ (build_accepted _ _ _ _ w)).
  cbn [rr_outcome_code rr_arm]. rewrite !kept_accepted, Hi, He, Hc, Ht. destruct audit as [record_terminal|].
  - destruct (latency_log P t w) as (n & w1 & l1 & Hn & _). rewrite !(bind_eq _ _ _ _ _ Hn).
    unfold bind, logged, call. cbn. destruct (record_terminal _ _ _) as [[[]|e] env],
      (record_terminal (lr_injections l') _ _) as [[[]|e'] env']; cbn; by rewrite !fmap_app.
  - destruct (record_injections_log P (sc_project_id scope) run (lr_injections l') w) as (w1 & H1 & _).
    rewrite !(bind_eq _ _ _ _ _ H1). destruct (latency_log P t w1) as (n & w2 & l2 & Hn & _).
    rewrite !(bind_eq _ _ _ _ _ Hn).
    destruct (record_telemetry_log P (sc_project_id scope)
      (mkEventRow run (lr_outcome_code l) n (lr_embed_latency_ms l') (lr_candidates_considered l') (lr_top_score l') arm) w2)
      as (w3 & H3 & Hl3).
    destruct (record_telemetry_log P (sc_project_id scope)
      (mkEventRow run (lr_outcome_code l') n (lr_embed_latency_ms l') (lr_candidates_considered l') (lr_top_score l') arm') w2)
      as (w4 & H4 & Hl4).
    rewrite (bind_eq _ _ _ _ _ H3), (bind_eq _ _ _ _ _ H4). cbn. by rewrite Hl3, Hl4, !fmap_app.
Qed.

Lemma finish_accepted scope run arm t l audit w res w' :
  finish accepts P scope run arm t l audit w = (Ok res, w') → res = mkResult run arm (lr_outcome_code l) (lr_context_block l).
Proof.
  unfold finish. rewrite (bind_eq _ _ _ _ _ (build_accepted _ _ _ _ w)). destruct audit.
  - intros (n & w1 & _ & H)%bind_Ok. apply bind_Ok in H as (? & w2 & _ & H). by apply bind_Ok in H as (? & w3 & _ & [= <- _]).
  - intros (? & w1 & _ & H)%bind_Ok. apply bind_Ok in H as (? & w2 & _ & H). by apply bind_Ok in H as (? & w3 & _ & [= <- _]).
Qed.
End Shadow.

(** [C7] The holdout arm is memory-off and shadow-retrieved: a run assigned to it gets the
    empty block and the holdout code, and apart from the code and the arm of the terminal row
    everything the call does -- the clock readings, the questions to the stores, the rows of
    the memories it would have placed, the counts and scores it reports -- is what the same
    call does under any other salt, that is, on the other arm. *)
Theorem holdout_is_shadowed {E} lower sha256 powf accepts (P : Ports E) salt salt' scope query session run_id deadline audit
    (w : world E) :
  (∀ e, ∃ run e', mint P None e = (Ok run, e')) → (∀ r, accepts r = true) →
  let '(a, w1) := retrieve lower sha256 powf accepts P salt scope query session run_id deadline audit w in
  let '(b, w2) := retrieve lower sha256 powf accepts P salt' scope query session run_id deadline audit w in
  mask <$> w_log w1 = mask <$> w_log w2
  ∧ ∀ res, a = Ok res → rr_arm res = ARM_HOLDOUT →
      rr_outcome_code res = OUTCOME_HOLDOUT ∧ rr_context_block res = empty_context_block.
Proof.
  intros Hmint Hacc.
  destruct (retrieve_conclude lower sha256 powf accepts P Hmint scope query session run_id deadline audit w)
    as (run & t & cfg & w0 & _ & Heq). rewrite !Heq. clear Heq.
  destruct (conclude _ _ _ _ _ salt _ _ _ _ _ _ _ _ _) as [a w1] eqn:Ha.
  destruct (conclude _ _ _ _ _ salt' _ _ _ _ _ _ _ _ _) as [b w2] eqn:Hb. split.
  - change w1 with ((a, w1).2). change w2 with ((b, w2).2). rewrite <- Ha, <- Hb. unfold conclude.
    destruct cfg as [c|[]]; try done. destruct t as [t0|]; [|done].
    destruct (ladder_Ok lower sha256 powf P scope query c t0 deadline w0) as (l & w3 & Hl). cbn zeta.
    rewrite !(bind_eq _ _ _ _ _ Hl). by apply finish_masked, withhold_same_work.
  - intros res -> Harm. apply conclude_cases in Ha as [(_ & ? & _)|(arm & l & w3 & Hf & _ & Hcase)]; [done|].
    apply (finish_accepted accepts P Hacc) in Hf as ->. cbn in *. subst arm.
    destruct Hcase as [[? _]|(c & t0 & l' & _ & _ & -> & _)]; [done|]. done.
Qed.

(** ** What is delivered *)

Section Deliver.
Context {E : Type} (lower : pystr → pystr) (sha256 : list Z → list Z) (powf : float → float → float) (P : Ports E).











End Deliver.





(** ** A call, on a clock that the retriever advances by ten milliseconds *)

Definition agent_ex : AgentTypeId := mkAgentTypeId (mkUUID 5 I).
Definition scope_ex : ProjectScope := mkScope (mkProjectId (mkUUID 4 I)) agent_ex (mkPrincipalId (mkUUID 7 I)).
Definition run_ex : RunId := mkRunId (mkUUID 6 I).

Definition hot_ex : HotConfig :=
  mkHot (mkRetrieval 300 200) config_ex (mkScore 0.5 0.25 0.125 0.125 14) budget_ex 5 [].

Definition fused_one : FusedCandidate :=
  mkFused (mkMemoryId (mkUUID 1 I)) TierB VALIDATED 1 (Some (mkSignal 20 1)) (Some (mkSignal 0.75 1)).

Definition row_one : CandidateRow :=
  mkCandidateRow (mkMemoryId (mkUUID 1 I)) SEMANTIC TierB VALIDATED (of_ascii "alpha beta gamma") 12 0.5 0.5
    (mkDatetime 0 true) PROJECT_SHARED None.

Definition ports_ex : Ports float :=
  mkPorts float (λ e, (Ok e, e)) (λ e, (Ok 1000, e)) (λ _ e, (Ok run_ex, e)) (λ _ _ _ e, (Ok hot_ex, e))
    (λ _ _ _ _ e, (Ok (mkOutcome [fused_one] false 3 1), (e + 10)%float))
    (mkStore float (λ _ _ _ e, (Ok [row_one], e)) (λ _ _ _ e, (Ok [(of_ascii "alpha", 1); (of_ascii "beta", 1)], e))
       (λ _ _ e, (Ok 1000, e)))
    None (Some (λ _ _ _ e, (Ok tt, e))) (λ _ _ e, (Err HOther, e)).

Definition digest_ex (bs : list Z) : list Z := replicate 32 (hd 0 bs).

Definition call_ex (salt : pystr) : result herr RetrieveResult * world float :=
  retrieve (λ s, s) digest_ex (λ _ _, 1%float) (λ _, true) ports_ex salt scope_ex (of_ascii "alpha beta") None None None None
    (mkWorld 100%float []).

Definition result_ex (r : result herr RetrieveResult) : RetrieveResult :=
  match r with Ok res => res | Err _ => fallback run_ex end.

(** The telemetry store is down; the call returns all the same. *)
Lemma retrieve_never_fails_witness :
  ∃ new, w_log (call_ex [200]).2 = [] ++ new
    ∧ ((@None (Deadline float) ≠ None ∧ (call_ex [200]).1 = Err HRequestDeadline ∧ records new = [])
       ∨ ∃ res inj row, records new = recorded ports_ex (sc_project_id scope_ex) (rr_run_id res) None inj row
           ∧ describes row res
           ∧ ((call_ex [200]).1 = Ok res ∨ @None (Audit float) ≠ None ∧ ∃ e, (call_ex [200]).1 = Err e)).
Proof.
  apply (retrieve_never_fails (λ s, s) digest_ex (λ _ _, 1%float) (λ _, true) ports_ex [200] scope_ex (of_ascii "alpha beta")
    None None None None (mkWorld 100%float [])).
  - intros e. by exists run_ex, e.
  - done.
  - unfold call_ex. apply surjective_pairing.
Defined.

Lemma holdout_is_shadowed_witness :
  mask <$> w_log (call_ex [1]).2 = mask <$> w_log (call_ex [200]).2
  ∧ rr_arm (result_ex (call_ex [1]).1) = ARM_HOLDOUT ∧ rr_arm (result_ex (call_ex [200]).1) = MEMORY_ON.
Proof.
  pose proof (holdout_is_shadowed (λ s, s) digest_ex (λ _ _, 1%float) (λ _, true) ports_ex [1] [200] scope_ex
    (of_ascii "alpha beta") None None None None (mkWorld 100%float [])) as H.
  split; [|by split; vm_compute].
  unfold call_ex. destruct (retrieve _ _ _ _ _ [1] _ _ _ _ _ _ _) as [a w1], (retrieve _ _ _ _ _ [200] _ _ _ _ _ _ _) as [b w2].
  apply H; [|done]. intros e. by exists run_ex, e.
Defined.


(** The bound on the embedding is read after the check: a clock that passes the deadline
    between the two gives the retriever a timeout of 0. *)
Definition late_clock : Ports float :=
  mkPorts float (λ e, (Ok e, (e + 400)%float)) (now_ms ports_ex) (mint ports_ex) (effective ports_ex) (retriever ports_ex)
    (store ports_ex) None None (record_retrieval ports_ex).

Example embed_timeout_zero :
  (do late ← total_exceeded (monotonic_ms late_clock) (mkDeadline 300 200 0%float []);
   do rc ← embed_bounded late_clock (mkRetrieval 300 200) (mkDeadline 300 200 0%float []);
   ret (late, embed_timeout_ms rc)) (mkWorld 100%float [])
  = (Ok (false, 0), mkWorld 900%float [ClockRead 100; ClockRead 500]%float).
Proof. vm_compute. reflexivity. Qed.

(** With an audit the call is only as reliable as the audit. *)
Lemma failing_audit_raises {E} lower sha256 powf accepts (P : Ports E) salt scope query session run_id (w : world E) :
  (∀ e, ∃ run e', mint P None e = (Ok run, e')) → (∀ run, accepts (fallback run) = true) →
  (retrieve lower sha256 powf accepts P salt scope query session run_id None (Some (λ _ _ e, (Err HOther, e))) w).1 = Err HOther.
Proof.
  intros Hmint Hacc. destruct (retrieve_conclude lower sha256 powf accepts P Hmint scope query session run_id
    None (Some (λ _ _ e, (Err HOther, e))) w) as (run & t & cfg & w0 & _ & Heq). rewrite Heq. clear Heq.
  assert (Hf : ∀ arm l w1, (finish accepts P scope run arm t l (Some (λ _ _ e, (Err HOther, e))) w1).1 = Err HOther).
  { intros arm l w1. unfold finish.
    destruct (build_result_cases accepts Hacc run arm (lr_outcome_code l) (lr_context_block l) w1) as (res & Hb & _).
    rewrite (bind_eq _ _ _ _ _ Hb). destruct (latency_log P t w1) as (n & w2 & l2 & Hn & _).
    by rewrite (bind_eq _ _ _ _ _ Hn). }
  unfold conclude. destruct cfg as [c|[]]; try apply Hf. destruct t as [t0|]; [|apply Hf].
  destruct (ladder_Ok lower sha256 powf P scope query c t0 None w0) as (l & w1 & Hl). cbn zeta.
  rewrite (bind_eq _ _ _ _ _ Hl). apply Hf.
Qed.
