(* ===== verification/Erasure.v ===== *)
(** * Erasure: the vocabulary of the saga, and the adapters' programs

    Models src/src/tracebed/erasure/domain.py and the port protocols of erasure/ports.py and
    erasure/executor.py.  A destructive adapter is a [prog]: a finite program over its calls to
    the outside, its clock readings, and the progress hook [before_page] that the coordinator
    hands it.  What the hook raises reaches the adapter's own handlers.  Values of a declared
    type are of that type, so the exact-type checks of the source have nothing to refuse;
    every other check is kept. *)

From Stdlib Require Import Floats.
From S2P Require Import Prelude Domain PyText PyFloat Fusion Signatures.
Open Scope Z_scope.

Abbreviation pybytes := (list Z).

(** ** Vocabulary *)

Inductive ErasurePhase :=
| requested | fenced | crypto_erased | primary_purged | external_purged | verified | scope_complete.

Inductive ErasureStep :=
| step_fence | step_crypto | step_postgres | step_queue | step_valkey | step_trace_store
| step_vector | step_graph | step_verify | step_complete.

Inductive ErasureResult := succeeded | retryable | blocked.

Inductive ErasureResultCode :=
| ok | already_absent | not_configured | embedded_primary | closure_changed
| dependency_unavailable | dependency_timeout | verification_failed | configuration_mismatch
| store_refused | catalog_mismatch | unsafe_path | integrity_failed | operator_resumed.

Inductive ExternalStoreCode :=
| trace_fs_v1 | trace_s3_v1 | valkey_v1 | vector_postgres | vector_qdrant | vector_none
| graph_postgres | graph_age | graph_none.

Inductive ErasureScope := scope_subject | scope_project.

#[export] Instance ErasurePhase_eq_dec : EqDecision ErasurePhase.
Proof. solve_decision. Defined.
#[export] Instance ErasureStep_eq_dec : EqDecision ErasureStep.
Proof. solve_decision. Defined.
#[export] Instance ErasureResult_eq_dec : EqDecision ErasureResult.
Proof. solve_decision. Defined.
#[export] Instance ErasureResultCode_eq_dec : EqDecision ErasureResultCode.
Proof. solve_decision. Defined.
#[export] Instance ExternalStoreCode_eq_dec : EqDecision ExternalStoreCode.
Proof. solve_decision. Defined.
#[export] Instance ErasureScope_eq_dec : EqDecision ErasureScope.
Proof. solve_decision. Defined.

Definition store_code_text (c : ExternalStoreCode) : pystr :=
  of_ascii match c with
  | trace_fs_v1 => "trace_fs_v1" | trace_s3_v1 => "trace_s3_v1" | valkey_v1 => "valkey_v1"
  | vector_postgres => "vector_postgres" | vector_qdrant => "vector_qdrant" | vector_none => "vector_none"
  | graph_postgres => "graph_postgres" | graph_age => "graph_age" | graph_none => "graph_none"
  end.

(** [str.startswith]. *)
Fixpoint py_startswith {A} `{EqDecision A} (s p : list A) : bool :=
  match p, s with
  | [], _ => true
  | _ :: _, [] => false
  | x :: p', y :: s' => bool_decide (x = y) && py_startswith s' p'
  end.

(** ** Exceptions

    [Blocked] is the coordinator's [_Blocked], a subclass of [ErasureOperatorBlocked]; every
    exception outside the [TracebedError] hierarchy is one of the last three. *)

Inductive xerr :=
| LeaseLost | ClosureChanged | OperatorBlocked | Blocked (c : ErasureResultCode)
| DependencyTimeout | OtherTracebed
| XTimeout | XValue | XForeign.

#[export] Instance xerr_eq_dec : EqDecision xerr.
Proof. solve_decision. Defined.

(** [isinstance(e, TracebedError)]. *)
Definition is_tracebed (e : xerr) : bool :=
  match e with XTimeout | XValue | XForeign => false | _ => true end.

(** ** [canonical_manifest] *)

Definition manifest_groups : list (list pystr) :=
  [ [store_code_text trace_fs_v1; store_code_text trace_s3_v1];
    [store_code_text valkey_v1];
    [store_code_text vector_postgres; store_code_text vector_qdrant; store_code_text vector_none];
    [store_code_text graph_postgres; store_code_text graph_age; store_code_text graph_none] ].

Definition canonical_manifest (raw : list pystr) : result xerr (list pystr) :=
  check! bool_decide (length raw = 4%nat) else XValue in
  check! bool_decide (raw = py_sorted str_leb raw) && bool_decide (NoDup raw) else XValue in
  check! forallb (λ g, bool_decide (length (List.filter (λ c, bool_decide (c ∈ g)) raw) = 1%nat)) manifest_groups else XValue in
  Ok raw.

(** ** Values *)

Record ErasureLease := mkErasureLease {
  el_project_id : uuid;
  el_request_id : uuid;
  el_scope : ErasureScope;
  el_phase : ErasurePhase;
  el_generation : Z;
  el_lease_token : uuid;
  el_lease_expires_at : datetime;
  el_closure_revision : Z;
}.

Definition lease_post_init (l : ErasureLease) : result xerr ErasureLease :=
  check! 1 <=? el_generation l else XValue in
  check! 1 <=? el_closure_revision l else XValue in
  Ok l.

Inductive target := RunTarget (run_id : uuid) | ProjectTarget.

Inductive TargetKind := kind_run | kind_project.

Record ExternalWork := mkExternalWork {
  ew_work_id : uuid;
  ew_target_kind : TargetKind;
  ew_target_id : option uuid;
  ew_work_revision : Z;
  ew_attempt : Z;
}.

Definition external_work_post_init (w : ExternalWork) : result xerr ExternalWork :=
  check! match ew_target_kind w, ew_target_id w with
         | kind_run, Some _ | kind_project, None => true
         | _, _ => false
         end else XValue in
  check! 1 <=? ew_work_revision w else XValue in
  check! 1 <=? ew_attempt w else XValue in
  Ok w.

Record StoreResult := mkStoreResult {
  sr_result_code : ErasureResultCode;
  sr_affected_rows : Z;
  sr_postcondition_digest : pybytes;
}.

Definition store_result_post_init (r : StoreResult) : result xerr StoreResult :=
  check! 0 <=? sr_affected_rows r else XValue in
  check! bool_decide (length (sr_postcondition_digest r) = 32%nat) else XValue in
  Ok r.

Record StepOutcome := mkStepOutcome {
  so_phase : ErasurePhase;
  so_affected_rows : Z;
  so_closure_revision : Z;
  so_result_code : ErasureResultCode;
}.

Definition step_outcome_post_init (o : StepOutcome) : result xerr StepOutcome :=
  check! 0 <=? so_affected_rows o else XValue in
  check! 1 <=? so_closure_revision o else XValue in
  Ok o.

Record TraceManifestRef := mkTraceManifestRef { tm_run_id : uuid; tm_payload_ref : pystr }.

Record PrimaryBatch := mkPrimaryBatch {
  pb_code : pystr;
  pb_affected_rows : Z;
  pb_remaining : Z;
  pb_closure_revision : Z;
  pb_postcondition_digest : pybytes;
}.

Definition primary_batch_post_init (b : PrimaryBatch) : result xerr PrimaryBatch :=
  check! (0 <=? pb_affected_rows b) && (0 <=? pb_remaining b) && (1 <=? pb_closure_revision b)
         && bool_decide (length (pb_postcondition_digest b) = 32%nat) else XValue in
  Ok b.

#[export] Instance target_eq_dec : EqDecision target.
Proof. solve_decision. Defined.
#[export] Instance StoreResult_eq_dec : EqDecision StoreResult.
Proof. solve_decision. Defined.
#[export] Instance TargetKind_eq_dec : EqDecision TargetKind.
Proof. solve_decision. Defined.
#[export] Instance ExternalWork_eq_dec : EqDecision ExternalWork.
Proof. solve_decision. Defined.

(** ** [ErasureSettings] *)

Inductive TraceChoice := choose_fs | choose_s3.
Inductive VectorChoice := choose_vector_postgres | choose_qdrant | choose_no_vector.
Inductive GraphChoice := choose_graph_postgres | choose_age | choose_no_graph.

Definition trace_choice (c : TraceChoice) : ExternalStoreCode :=
  match c with choose_fs => trace_fs_v1 | choose_s3 => trace_s3_v1 end.
Definition vector_choice (c : VectorChoice) : ExternalStoreCode :=
  match c with choose_vector_postgres => vector_postgres | choose_qdrant => vector_qdrant | choose_no_vector => vector_none end.
Definition graph_choice (c : GraphChoice) : ExternalStoreCode :=
  match c with choose_graph_postgres => graph_postgres | choose_age => graph_age | choose_no_graph => graph_none end.

Record ErasureSettings := mkErasureSettings {
  es_poll_seconds : float;
  es_lease_seconds : Z;
  es_heartbeat_seconds : Z;
  es_batch_size : Z;
  es_external_timeout_seconds : float;
  es_trace_store : TraceChoice;
  es_vector_store : VectorChoice;
  es_graph_store : GraphChoice;
}.

Definition settings_manifest (s : ErasureSettings) : result xerr (list pystr) :=
  canonical_manifest (py_sorted str_leb (store_code_text <$>
    [trace_choice (es_trace_store s); valkey_v1; vector_choice (es_vector_store s); graph_choice (es_graph_store s)])).

(** The field bounds, then [_validate_lease_timing]; [<] between an [int] and a [float] is
    exact, and both sides are small here. *)
Definition validate_settings (s : ErasureSettings) : result xerr ErasureSettings :=
  check! (0 <? es_poll_seconds s)%float && (es_poll_seconds s <=? 60)%float else XValue in
  check! (30 <=? es_lease_seconds s) && (es_lease_seconds s <=? 900) else XValue in
  check! (1 <=? es_heartbeat_seconds s) && (es_heartbeat_seconds s <=? 299) else XValue in
  check! (1 <=? es_batch_size s) && (es_batch_size s <=? 10000) else XValue in
  check! (0 <? es_external_timeout_seconds s)%float && (es_external_timeout_seconds s <=? 299)%float else XValue in
  check! 3 * es_heartbeat_seconds s <? es_lease_seconds s else XValue in
  check! fscaled (es_external_timeout_seconds s) <? es_heartbeat_seconds s * 2 ^ 1074 else XValue in
  let! _ := settings_manifest s in
  Ok s.

(** ** The manifests that exist *)

Definition manifest_of (g : GraphChoice) (t : TraceChoice) (v : VectorChoice) : list ExternalStoreCode :=
  [graph_choice g; trace_choice t; valkey_v1; vector_choice v].

Lemma settings_manifest_ok s :
  settings_manifest s = Ok (store_code_text <$> manifest_of (es_graph_store s) (es_trace_store s) (es_vector_store s)).
Proof. destruct s as [? ? ? ? ? t v g]. destruct t, v, g; by vm_compute. Qed.

(** A group that counts one member has a member. *)
Lemma group_member (g raw : list pystr) :
  length (List.filter (λ c, bool_decide (c ∈ g)) raw) = 1%nat → ∃ c, c ∈ g ∧ c ∈ raw.
Proof.
  intros H. destruct (List.filter _ raw) as [|c l] eqn:Hf; [done|]. exists c.
  assert (Hc : In c (List.filter (λ c, bool_decide (c ∈ g)) raw)) by (rewrite Hf; by left).
  apply filter_In in Hc as [Hc Hg%bool_decide_eq_true]. by rewrite <- list_elem_of_In in Hc.
Qed.

(** The accepted manifests are the eighteen canonical ones, as they are. *)
Lemma canonical_manifest_exact raw raw' :
  canonical_manifest raw = Ok raw' ↔ raw' = raw ∧ ∃ g t v, raw = store_code_text <$> manifest_of g t v.
Proof.
  split.
  - unfold canonical_manifest. intros H. rinv H. split; [done|]. bsplit.
    rewrite !bool_decide_eq_true in *. rewrite forallb_forall in Heqb1.
    assert (Hg : ∀ g, g ∈ manifest_groups → ∃ c, c ∈ g ∧ c ∈ raw').
    { intros g Hg%list_elem_of_In%Heqb1. apply group_member. by apply bool_decide_eq_true in Hg. }
    destruct (Hg _ ltac:(left)) as (t & Ht & Htr). destruct (Hg _ ltac:(right; left)) as (k & Hk & Hkr).
    destruct (Hg _ ltac:(right; right; left)) as (v & Hv & Hvr). destruct (Hg _ ltac:(right; right; right; left)) as (q & Hq & Hqr).
    clear Hg Heqb1. rewrite list_elem_of_singleton in Hk. subst k.
    assert (∃ tc, t = store_code_text (trace_choice tc)) as [tc ->].
    { apply list_elem_of_In in Ht as [<-|[<-|[]]]; [by exists choose_fs|by exists choose_s3]. }
    assert (∃ vc, v = store_code_text (vector_choice vc)) as [vc ->].
    { apply list_elem_of_In in Hv as [<-|[<-|[<-|[]]]]; [by exists choose_vector_postgres|by exists choose_qdrant|by exists choose_no_vector]. }
    assert (∃ gc, q = store_code_text (graph_choice gc)) as [gc ->].
    { apply list_elem_of_In in Hq as [<-|[<-|[<-|[]]]]; [by exists choose_graph_postgres|by exists choose_age|by exists choose_no_graph]. }
    set (l := [store_code_text (trace_choice tc); store_code_text valkey_v1; store_code_text (vector_choice vc); store_code_text (graph_choice gc)]).
    assert (Hp : l ≡ₚ raw').
    { apply submseteq_length_Permutation; [|by rewrite Heqb]. apply NoDup_submseteq; [|set_solver].
      refine (bool_decide_eq_true_1 _ _). destruct tc, vc, gc; by vm_compute. }
    rewrite H, <- (py_sorted_str_perm _ _ Hp). exists gc, tc, vc. destruct tc, vc, gc; by vm_compute.
  - intros (-> & g & t & v & ->). destruct g, t, v; by vm_compute.
Qed.

(** ** Adapters as programs

    [Call] is one call to the outside, the only node that may have an effect there. *)

Section Prog.
Context (E : Type).

Definition xport (A : Type) : Type := E → result xerr A * E.

Inductive prog (A : Type) : Type :=
| Return (r : result xerr A)
| Stuck
| Clock (k : float → prog A)
| Page (k : result xerr unit → prog A)
| Call {B : Type} (f : xport B) (k : result xerr B → prog A).
End Prog.

Arguments Return {E A}.
Arguments Stuck {E A}.
Arguments Clock {E A}.
Arguments Page {E A}.
Arguments Call {E A B}.

Section ProgOps.
Context {E : Type}.

Fixpoint pbind {A B} (m : prog E A) (f : A → prog E B) : prog E B :=
  match m with
  | Return (Ok a) => f a
  | Return (Err e) => Return (Err e)
  | Stuck => Stuck
  | Clock k => Clock (λ t, pbind (k t) f)
  | Page k => Page (λ r, pbind (k r) f)
  | Call c k => Call c (λ r, pbind (k r) f)
  end.

Fixpoint pcatch {A} (m : prog E A) (h : xerr → prog E A) : prog E A :=
  match m with
  | Return (Ok a) => Return (Ok a)
  | Return (Err e) => h e
  | Stuck => Stuck
  | Clock k => Clock (λ t, pcatch (k t) h)
  | Page k => Page (λ r, pcatch (k r) h)
  | Call c k => Call c (λ r, pcatch (k r) h)
  end.

Definition pret {A} (a : A) : prog E A := Return (Ok a).
Definition praise {A} (e : xerr) : prog E A := Return (Err e).
Definition pcall {A} (f : xport E A) : prog E A := Call f Return.
Definition ppage : prog E unit := Page Return.
Definition pclock : prog E float := Clock (λ t, Return (Ok t)).
Definition plift {A} (r : result xerr A) : prog E A := Return r.

(** A program that stops, with the same exception, once the hook reported the lease lost. *)
Fixpoint honest {A} (m : prog E A) : Prop :=
  match m with
  | Return _ | Stuck => True
  | Clock k => ∀ t, honest (k t)
  | Page k => k (Err LeaseLost) = Return (Err LeaseLost) ∧ ∀ r, honest (k r)
  | Call _ k => ∀ r, honest (k r)
  end.

(** The reference for calls: what every call of the program satisfies. *)
Fixpoint calls_satisfy {A} (P : ∀ B, xport E B → Prop) (m : prog E A) : Prop :=
  match m with
  | Return _ | Stuck => True
  | Clock k => ∀ t, calls_satisfy P (k t)
  | Page k => ∀ r, calls_satisfy P (k r)
  | @Call _ _ B f k => P B f ∧ ∀ r, calls_satisfy P (k r)
  end.
End ProgOps.

Declare Scope prog_scope.
Delimit Scope prog_scope with prog.
Notation "'do' x ← m ; k" := (pbind m (λ x, k)) (at level 20, x pattern, m at level 100, k at level 200) : prog_scope.
Notation "'try' m 'except' h" := (pcatch m h) (at level 20, m at level 100, h at level 100) : prog_scope.

(** ** A store object

    What the coordinator sees of an adapter: each attribute may be missing or not callable;
    an operation declares whether it takes the hook, and answers with some object. *)

Inductive attribute (A : Type) := Missing | NotCallable | Method (a : A).
Arguments Missing {A}.
Arguments NotCallable {A}.
Arguments Method {A} a.

Definition hasattr {A} (a : attribute A) : bool := match a with Missing => false | _ => true end.

Inductive reply := AStoreResult (r : StoreResult) | AnotherObject.
Inductive frame_reply := FrameBytes (b : pybytes) | NotBytes.

Record store_operation (E : Type) (Args : Type) := mkOperation {
  op_accepts_progress : bool;
  op_body : Args → float → prog E reply;
}.
Arguments mkOperation {E Args}.
Arguments op_accepts_progress {E Args}.
Arguments op_body {E Args}.

Record Store (E : Type) := mkStore {
  validate_manifest_ref : attribute (uuid → uuid → pystr → xport E frame_reply);
  erase_run : attribute (store_operation E (uuid * uuid));
  verify_run_absent : attribute (store_operation E (uuid * uuid));
  erase_project : attribute (store_operation E uuid);
  verify_project_absent : attribute (store_operation E uuid);
}.
Arguments mkStore {E}.
Arguments validate_manifest_ref {E}.
Arguments erase_run {E}.
Arguments verify_run_absent {E}.
Arguments erase_project {E}.
Arguments verify_project_absent {E}.

(** [ErasureDatabasePort]: every method may answer anything of its type, or raise. *)
Record ErasureDb (E : Type) := mkErasureDb {
  db_claim_next : pystr → Z → list ExternalStoreCode → xport E (option ErasureLease);
  db_claim_request : uuid → pystr → Z → list ExternalStoreCode → xport E (option ErasureLease);
  db_renew : ErasureLease → pystr → Z → xport E datetime;
  db_crypto_step : ErasureLease → pystr → xport E StepOutcome;
  db_trace_refs_batch : ErasureLease → pystr → Z → option uuid → option pystr → Z → xport E (list TraceManifestRef);
  db_seal_trace_manifest : ErasureLease → pystr → Z → Z → pybytes → xport E unit;
  db_prepare_primary : ErasureLease → pystr → xport E StepOutcome;
  db_primary_batch : ErasureLease → pystr → Z → xport E PrimaryBatch;
  db_external_work_batch : ErasureLease → pystr → ExternalStoreCode → Z → xport E (list ExternalWork);
  db_mark_external_work : ErasureLease → pystr → ExternalWork → StoreResult → xport E unit;
  db_close_external_step : ErasureLease → pystr → ExternalStoreCode → Z → StoreResult → xport E StepOutcome;
  db_verify_and_complete : ErasureLease → pystr → xport E StepOutcome;
  db_fail : ErasureLease → pystr → ErasureStep → ErasureResult → ErasureResultCode → xport E unit;
  db_release : ErasureLease → pystr → xport E unit;
}.
Arguments db_claim_next {E}.
Arguments db_claim_request {E}.
Arguments db_renew {E}.
Arguments db_crypto_step {E}.
Arguments db_trace_refs_batch {E}.
Arguments db_seal_trace_manifest {E}.
Arguments db_prepare_primary {E}.
Arguments db_primary_batch {E}.
Arguments db_external_work_batch {E}.
Arguments db_mark_external_work {E}.
Arguments db_close_external_step {E}.
Arguments db_verify_and_complete {E}.
Arguments db_fail {E}.
Arguments db_release {E}.
