(* ===== verification/ValkeyKeys.v ===== *)
(** * The cache's key space

    Models src/src/tracebed/stores/valkey/keys.py: the four key builders and the pattern a
    project's keys are flushed through.  SHA-256 is a parameter; arguments of a tool call are
    the JSON values of Json.v.  Two builder calls yield the same key only for the same entry
    (or they exhibit a collision of the hash), and every key lies in the namespace of its
    project, so that flushing one namespace touches one project. *)

From S2P Require Import Prelude Domain PyText Json Memory Erasure.
Open Scope Z_scope.

Definition FIELD_RS : Z := 31.
Definition MAX_FIELD_LEN : nat := 512.

Definition require_field (value : pystr) (allow_empty : bool) : result exn pystr :=
  check! negb (negb allow_empty && bool_decide (value = [])) else ValueError in
  check! bool_decide (length value ≤ MAX_FIELD_LEN)%nat else ValueError in
  check! negb (bool_decide (FIELD_RS ∈ value)) else ValueError in
  Ok value.

(** [f"tb:{project_id}:"]. *)
Definition namespace (p : ProjectId) : pystr := of_ascii "tb:" ++ uuid_str (ProjectId_value p) ++ of_ascii ":".

Definition project_key_pattern (p : ProjectId) : pystr := namespace p ++ of_ascii "*".

Section Keys.
Context (sha256 : list Z → list Z).

Definition tool_cache_joined (p : ProjectId) (tool_id tool_version fingerprint : pystr) (args : json) : pystr :=
  py_join [FIELD_RS] [uuid_str (ProjectId_value p); tool_id; tool_version; fingerprint; json_dumps args].

Definition tool_cache_key (p : ProjectId) (tool_id tool_version fingerprint : pystr) (args : json) : result exn pystr :=
  let! tool_id := require_field tool_id true in
  let! tool_version := require_field tool_version true in
  let! fingerprint := require_field fingerprint false in
  let! _ := canonical_json args in
  let! data := utf8_encode (tool_cache_joined p tool_id tool_version fingerprint args) in
  Ok (namespace p ++ of_ascii "tc:" ++ bytes_hex (sha256 data)).

Definition working_memory_key (p : ProjectId) (run : RunId) (key : pystr) : result exn pystr :=
  let! key := require_field key true in
  Ok (namespace p ++ of_ascii "wm:" ++ uuid_str (RunId_value run) ++ of_ascii ":" ++ key).

Definition static_prefix_key (p : ProjectId) (agent : AgentTypeId) (prefix_version : Z) : result exn pystr :=
  check! 0 <=? prefix_version else ValueError in
  Ok (namespace p ++ of_ascii "px:" ++ uuid_str (AgentTypeId_value agent) ++ of_ascii ":" ++ dec_str prefix_version).

Definition current_prefix_version_key (p : ProjectId) (agent : AgentTypeId) : result exn pystr :=
  Ok (namespace p ++ of_ascii "pxcur:" ++ uuid_str (AgentTypeId_value agent)).

(** ** What the keys stand for *)

Inductive entry :=
| ToolResult (p : ProjectId) (tool_id tool_version fingerprint : pystr) (args : json)
| WorkingMemory (p : ProjectId) (run : RunId) (key : pystr)
| StaticPrefix (p : ProjectId) (agent : AgentTypeId) (prefix_version : Z)
| PrefixPointer (p : ProjectId) (agent : AgentTypeId).

Definition entry_project (k : entry) : ProjectId :=
  match k with ToolResult p _ _ _ _ | WorkingMemory p _ _ | StaticPrefix p _ _ | PrefixPointer p _ => p end.

Definition entry_key (k : entry) : result exn pystr :=
  match k with
  | ToolResult p i v f a => tool_cache_key p i v f a
  | WorkingMemory p r x => working_memory_key p r x
  | StaticPrefix p a v => static_prefix_key p a v
  | PrefixPointer p a => current_prefix_version_key p a
  end.

(** Equal up to the canonical form of the arguments. *)
Definition same_entry (a b : entry) : Prop :=
  match a, b with
  | ToolResult p i v f x, ToolResult p' i' v' f' x' =>
      p = p' ∧ i = i' ∧ v = v' ∧ f = f' ∧ json_dumps x = json_dumps x'
  | _, _ => a = b
  end.

(** What follows the namespace. *)
Definition entry_tail (k : entry) (tail : pystr) : Prop :=
  match k with
  | ToolResult p i v f a =>
      FIELD_RS ∉ i ∧ FIELD_RS ∉ v ∧ FIELD_RS ∉ f ∧
      ∃ data, utf8_encode (tool_cache_joined p i v f a) = Ok data ∧ tail = of_ascii "tc:" ++ bytes_hex (sha256 data)
  | WorkingMemory _ r x => tail = of_ascii "wm:" ++ uuid_str (RunId_value r) ++ of_ascii ":" ++ x
  | StaticPrefix _ a v => 0 ≤ v ∧ tail = of_ascii "px:" ++ uuid_str (AgentTypeId_value a) ++ of_ascii ":" ++ dec_str v
  | PrefixPointer _ a => tail = of_ascii "pxcur:" ++ uuid_str (AgentTypeId_value a)
  end.

Lemma require_field_Ok v b s : require_field v b = Ok s → s = v ∧ FIELD_RS ∉ v.
Proof. unfold require_field. intros H. rinv H. by rewrite negb_true_iff, bool_decide_eq_false in *. Qed.

Lemma entry_key_tail k s : entry_key k = Ok s → ∃ tail, s = namespace (entry_project k) ++ tail ∧ entry_tail k tail.
Proof.
  destruct k as [p i v f a|p r x|p a v|p a]; cbn [entry_key entry_project entry_tail].
  - unfold tool_cache_key. intros (i' & [-> Hi]%require_field_Ok & H)%rbind_Ok.
    apply rbind_Ok in H as (v' & [-> Hv]%require_field_Ok & H). apply rbind_Ok in H as (f' & [-> Hf]%require_field_Ok & H).
    apply rbind_Ok in H as (_ & _ & H). apply rbind_Ok in H as (data & Hd & <-%(inj Ok)). eauto 10.
  - unfold working_memory_key. intros (x' & [-> _]%require_field_Ok & <-%(inj Ok))%rbind_Ok. eauto.
  - unfold static_prefix_key. case_match eqn:Hv; [|done]. intros <-%(inj Ok). apply Z.leb_le in Hv. eauto.
  - intros <-%(inj Ok). eauto.
Qed.
End Keys.

(** ** Lengths and separators *)

Lemma length_uuid_str u : length (uuid_str u) = 36%nat.
Proof. unfold uuid_str. rewrite !length_app, !length_take, !length_drop, !length_hex_pad. reflexivity. Qed.

Lemma hex_char_range d : 0 ≤ d < 16 → 48 ≤ hex_char d.
Proof. unfold hex_char. case_match; lia. Qed.

Lemma hex_pad_range k n : Forall (λ c, 45 ≤ c) (hex_pad k n).
Proof.
  revert n; induction k; intros; simpl; [constructor|]. apply Forall_app; split; [done|]. repeat constructor.
  pose proof (hex_char_range (n mod 16) (Z.mod_pos_bound n 16 ltac:(lia))). lia.
Qed.

Lemma uuid_str_no_RS u : FIELD_RS ∉ uuid_str u.
Proof.
  intros H. assert (Hall : Forall (λ c, 45 ≤ c) (uuid_str u)).
  { assert (Hy : Forall (λ c, 45 ≤ c) [45]) by (constructor; [lia|constructor]).
    unfold uuid_str. repeat apply Forall_app_2; auto using Forall_take, Forall_drop, hex_pad_range. }
  rewrite Forall_forall in Hall. apply Hall in H. unfold FIELD_RS in H. lia.
Qed.

Lemma namespace_inj p q s t : namespace p ++ s = namespace q ++ t → p = q ∧ s = t.
Proof.
  intros H. unfold namespace in H. rewrite <- !(assoc_L (++)) in H. apply app_inv_head in H.
  apply app_inj_1 in H as [Hu H]; [|by rewrite !length_uuid_str]. apply app_inv_head in H.
  apply uuid_str_inj in Hu. split; [|done]. destruct p, q; cbn in Hu. by rewrite Hu.
Qed.

Lemma startswith_spec {A} `{EqDecision A} (s p : list A) : py_startswith s p = true ↔ ∃ t, s = p ++ t.
Proof.
  revert s. induction p as [|x p IH]; intros s.
  { split; [intros _; by exists s|by destruct s]. }
  destruct s as [|y s]; [split; [done|by intros [t ?]]|]. cbn. rewrite andb_true_iff, bool_decide_eq_true, IH. split.
  - intros [-> [t ->]]. by exists t.
  - intros [t [= -> ->]]. eauto.
Qed.

(** Namespaces of different projects share no key. *)
Lemma namespaces_disjoint p q k : py_startswith k (namespace p) = true → py_startswith k (namespace q) = true → p = q.
Proof. rewrite !startswith_spec. intros [s ->] [t H]. by apply namespace_inj in H as [-> _]. Qed.

(** A join is read back uniquely when the separator is in no field but the last. *)
Lemma join_field_inj (sep : Z) (a b s t : pystr) : sep ∉ a → sep ∉ b → a ++ sep :: s = b ++ sep :: t → a = b ∧ s = t.
Proof.
  revert b. induction a as [|x a IH]; intros [|y b] Ha Hb; cbn; intros H.
  - by injection H as ->.
  - injection H as -> _. destruct Hb. by left.
  - injection H as -> _. destruct Ha. by left.
  - injection H as -> H. apply IH in H as [-> ->]; [done|..]; set_solver.
Qed.

(** ** UTF-8 is injective *)

Lemma utf8_char_inj c d bs cs s t : utf8_char c = Ok bs → utf8_char d = Ok cs → bs ++ s = cs ++ t → c = d ∧ s = t.
Proof.
  assert (Hdm : ∀ n, n = n / 64 * 64 + n mod 64 ∧ 0 ≤ n mod 64 < 64) by (intros n; pose proof (Z.div_mod n 64); pose proof (Z.mod_pos_bound n 64); lia).
  assert (H4 : ∀ n, n / 4096 = n / 64 / 64) by (intros n; by rewrite Z.div_div).
  assert (H18 : ∀ n, n / 262144 = n / 64 / 64 / 64) by (intros n; by rewrite !Z.div_div).
  pose proof (Hdm c); pose proof (Hdm d); pose proof (Hdm (c / 64)); pose proof (Hdm (d / 64)).
  pose proof (Hdm (c / 64 / 64)); pose proof (Hdm (d / 64 / 64)).
  unfold utf8_char. rewrite !H4, !H18. intros Hc Hd.
  repeat case_match; simplify_eq; cbn; intros Heq; simplify_eq;
    repeat match goal with
    | H : (_ <? _) = true |- _ => apply Z.ltb_lt in H
    | H : (_ <? _) = false |- _ => apply Z.ltb_ge in H
    end; split; try done; lia.
Qed.

Lemma utf8_encode_inj s t bs : utf8_encode s = Ok bs → utf8_encode t = Ok bs → s = t.
Proof.
  unfold utf8_encode. intros (ps & Hps & <-%(inj Ok))%rbind_Ok (qs & Hqs & Heq%(inj Ok))%rbind_Ok.
  apply rmap_Ok in Hps. apply rmap_Ok in Hqs. revert t qs Hqs Heq.
  induction Hps as [|c p s ps Hc Hs IH]; intros t qs Hqs Heq; destruct Hqs as [|d q t qs Hd Ht]; [done|..]; cbn in Heq.
  - exfalso. apply utf8_char_length in Hd. destruct q; [cbn in Hd; lia|done].
  - exfalso. apply utf8_char_length in Hc. destruct p; [cbn in Hc; lia|done].
  - symmetry in Heq. destruct (utf8_char_inj _ _ _ _ _ _ Hc Hd Heq) as [-> He]. f_equal. by eapply IH.
Qed.

Lemma tool_cache_joined_inj p i v f a p' i' v' f' a' :
  FIELD_RS ∉ i → FIELD_RS ∉ v → FIELD_RS ∉ f → FIELD_RS ∉ i' → FIELD_RS ∉ v' → FIELD_RS ∉ f' →
  tool_cache_joined p i v f a = tool_cache_joined p' i' v' f' a' →
  i = i' ∧ v = v' ∧ f = f' ∧ json_dumps a = json_dumps a'.
Proof.
  intros Hi Hv Hf Hi' Hv' Hf'. unfold tool_cache_joined. cbn [py_join app]. intros H.
  apply join_field_inj in H as [_ H]; [|apply uuid_str_no_RS..].
  apply join_field_inj in H as [-> H]; [|done..]. apply join_field_inj in H as [-> H]; [|done..].
  by apply join_field_inj in H as [-> ->].
Qed.

(** ** The claim *)

Section Claim.
Context (sha256 : list Z → list Z).

(** Two entries of the cache get the same key only if they are the same entry (for tool
    results: same project, tool, version, privilege fingerprint and canonical arguments), unless
    the hash collides. *)
Lemma cache_keys_never_collide a b k :
  (∀ data, Forall (λ x, 0 ≤ x < 256) (sha256 data)) →
  entry_key sha256 a = Ok k → entry_key sha256 b = Ok k →
  same_entry a b ∨ ∃ x y, x ≠ y ∧ sha256 x = sha256 y.
Proof.
  intros Hsha (ta & -> & Ha)%entry_key_tail (tb & H & Hb)%entry_key_tail. apply namespace_inj in H as [Hp ->].
  destruct a as [p i v f x|p r x|p g v|p g], b as [p' i' v' f' x'|p' r' x'|p' g' v'|p' g'];
    cbn [entry_project entry_tail] in *; subst p'.
  - destruct Ha as (? & ? & ? & data & Hd & ->), Hb as (? & ? & ? & data' & Hd' & Heq).
    apply app_inv_head in Heq. apply (f_equal bytes_fromhex) in Heq. rewrite !bytes_fromhex_hex in Heq by done.
    apply (inj Ok) in Heq. destruct (decide (data = data')) as [<-|Hne]; [left|right; by exists data, data'].
    assert (Hj := utf8_encode_inj _ _ _ Hd Hd'). apply tool_cache_joined_inj in Hj as (-> & -> & -> & Hx); [|done..]. cbn. by rewrite Hx.
  - by destruct Ha as (_ & _ & _ & data & _ & ->).
  - by destruct Ha as (_ & _ & _ & data & _ & ->), Hb.
  - by destruct Ha as (_ & _ & _ & data & _ & ->).
  - by destruct Hb as (_ & _ & _ & data & _ & ?); simplify_eq.
  - left. subst tb. apply app_inv_head in Hb. apply app_inj_1 in Hb as [Hu Hb]; [|by rewrite !length_uuid_str].
    apply app_inv_head in Hb as ->. apply uuid_str_inj in Hu. destruct r, r'; cbn in Hu. by subst.
  - by destruct Hb; simplify_eq.
  - by simplify_eq.
  - by destruct Hb as (_ & _ & _ & data & _ & ?), Ha; simplify_eq.
  - by destruct Ha; simplify_eq.
  - left. destruct Ha as [Hv ->], Hb as [Hv' Hb]. apply app_inv_head in Hb.
    apply app_inj_1 in Hb as [Hu Hb]; [|by rewrite !length_uuid_str]. apply app_inv_head in Hb.
    apply uuid_str_inj in Hu. apply (f_equal (dec_read 0)) in Hb. rewrite !dec_str_read in Hb by done.
    destruct g, g'; cbn in Hu. cbn. by simplify_eq.
  - by destruct Ha; simplify_eq.
  - by destruct Hb as (_ & _ & _ & data & _ & ?); simplify_eq.
  - by simplify_eq.
  - by destruct Hb; simplify_eq.
  - left. subst tb. apply app_inv_head in Hb. apply uuid_str_inj in Hb. destruct g, g'; cbn in Hb. by subst.
Qed.
End Claim.

(** Two argument mappings written in different order share a key. *)
Lemma cache_keys_never_collide_witness :
  let p := mkProjectId (mkUUID 7 I) in
  let a := ToolResult p (of_ascii "grep") (of_ascii "1") (of_ascii "fp") (JObj [(of_ascii "a", JInt 1); (of_ascii "b", JNull)]) in
  let b := ToolResult p (of_ascii "grep") (of_ascii "1") (of_ascii "fp") (JObj [(of_ascii "b", JNull); (of_ascii "a", JInt 1)]) in
  let sha := map (λ x : Z, x mod 256) in
  same_entry a b ∨ ∃ x y, x ≠ y ∧ sha x = sha y.
Proof.
  cbv zeta. eapply (cache_keys_never_collide (map (λ x : Z, x mod 256))).
  - intros data. induction data as [|x data IH]; cbn; constructor; [apply Z.mod_pos_bound; lia|done].
  - reflexivity.
  - vm_compute. reflexivity.
Defined.
