(* ===== verification/Coordinator.v ===== *)
(** * The erasure coordinator

    Models src/src/tracebed/erasure/executor.py: [ErasureExecutor] with its heartbeat, the
    phases of one leased request, the failure handlers.  The database port, the adapters and
    the clock may answer anything and raise anything.  The log keeps, in order, every database
    call with its answer, every heartbeat that found the lease young enough, every adapter
    operation with the calls to the outside it makes, and every trace frame accepted.

    The [while True] loops take fuel; a computation out of fuel is [Running], which no handler
    catches, and its log is what the code has done so far.  [w_next] is the heartbeat's
    [_next]; [w_lease] and [w_step] are the locals [lease] and [failure_step] of [_run], which
    its handlers read. *)

From Stdlib Require Import Floats.
From S2P Require Import Prelude Domain PyText PyFloat Fusion Erasure.
Open Scope Z_scope.

(** ** The log *)

Inductive method := Erase | Verify.

#[export] Instance method_eq_dec : EqDecision method.
Proof. solve_decision. Defined.

Inductive db_op :=
| Renew
| CryptoStep
| TraceRefsBatch
| SealTraceManifest (revision count : Z) (digest : pybytes)
| PreparePrimary
| PrimaryBatchOp
| ExternalWorkBatch (code : ExternalStoreCode)
| MarkExternalWork (code : ExternalStoreCode) (work : ExternalWork) (r : StoreResult)
| CloseExternalStep (code : ExternalStoreCode) (target_count : Z) (r : StoreResult)
| VerifyAndComplete
| Fail (step : ErasureStep) (r : ErasureResult) (code : ErasureResultCode).

Inductive answer :=
| Nothing
| AnOutcome (o : StepOutcome)
| ABatch (b : PrimaryBatch)
| Works (ws : list ExternalWork).

Inductive event :=
| Beat
| Db (op : db_op) (r : result xerr answer)
| Framed (frame : pybytes)
| Begin (code : ExternalStoreCode) (m : method) (project : uuid) (t : target)
| Io (code : ExternalStoreCode)
| Finish (code : ExternalStoreCode) (m : method) (project : uuid) (t : target) (r : reply).

(** ** The monad *)

Section World.
Context (E : Type).

Record world := mkWorld {
  w_env : E;
  w_next : float;
  w_lease : ErasureLease;
  w_step : ErasureStep;
  w_log : list event;
}.

Inductive outcome (A : Type) := Done (r : result xerr A) | Running.

Definition eio (A : Type) : Type := world → outcome A * world.
End World.

Arguments mkWorld {E}.
Arguments w_env {E}.
Arguments w_next {E}.
Arguments w_lease {E}.
Arguments w_step {E}.
Arguments w_log {E}.
Arguments Done {A}.
Arguments Running {A}.

Section Monad.
Context {E : Type}.

Definition ret {A} (a : A) : eio E A := λ w, (Done (Ok a), w).
Definition raise {A} (e : xerr) : eio E A := λ w, (Done (Err e), w).
Definition running {A} : eio E A := λ w, (Running, w).
Definition of_result {A} (r : result xerr A) : eio E A := λ w, (Done r, w).
Definition bind {A B} (m : eio E A) (f : A → eio E B) : eio E B := λ w,
  match m w with
  | (Done (Ok a), w') => f a w'
  | (Done (Err e), w') => (Done (Err e), w')
  | (Running, w') => (Running, w')
  end.
Definition catch {A} (m : eio E A) (h : xerr → eio E A) : eio E A := λ w,
  match m w with
  | (Done (Err e), w') => h e w'
  | (o, w') => (o, w')
  end.

Definition emit (x : event) : eio E unit := λ w,
  (Done (Ok tt), mkWorld (w_env w) (w_next w) (w_lease w) (w_step w) (w_log w ++ [x])).
Definition get_lease : eio E ErasureLease := λ w, (Done (Ok (w_lease w)), w).
Definition set_lease (l : ErasureLease) : eio E unit := λ w,
  (Done (Ok tt), mkWorld (w_env w) (w_next w) l (w_step w) (w_log w)).
Definition get_step : eio E ErasureStep := λ w, (Done (Ok (w_step w)), w).
Definition set_step (s : ErasureStep) : eio E unit := λ w,
  (Done (Ok tt), mkWorld (w_env w) (w_next w) (w_lease w) s (w_log w)).
Definition get_next : eio E float := λ w, (Done (Ok (w_next w)), w).
Definition set_next (t : float) : eio E unit := λ w,
  (Done (Ok tt), mkWorld (w_env w) t (w_lease w) (w_step w) (w_log w)).
Definition read {A} (f : E → A * E) : eio E A := λ w,
  let '(a, e) := f (w_env w) in (Done (Ok a), mkWorld e (w_next w) (w_lease w) (w_step w) (w_log w)).
Definition invoke {A} (f : xport E A) : eio E A := λ w,
  let '(r, e) := f (w_env w) in (Done r, mkWorld e (w_next w) (w_lease w) (w_step w) (w_log w)).

Definition answered {A} (f : A → answer) (r : result xerr A) : result xerr answer :=
  match r with Ok a => Ok (f a) | Err e => Err e end.

(** A database call: one transaction, logged with its answer. *)
Definition db_call {A} (op : db_op) (to_answer : A → answer) (f : xport E A) : eio E A := λ w,
  let '(r, e) := f (w_env w) in
  (Done r, mkWorld e (w_next w) (w_lease w) (w_step w) (w_log w ++ [Db op (answered to_answer r)])).
End Monad.

Declare Scope saga_scope.
Delimit Scope saga_scope with saga.
Notation "'do' x ← m ; k" := (bind m (λ x, k)) (at level 20, x pattern, m at level 100, k at level 200) : saga_scope.
Notation "'try' m 'except' h" := (catch m h) (at level 20, m at level 100, h at level 100) : saga_scope.
Open Scope saga_scope.

(** Python's arithmetic between [float] and [int]. *)
Definition seconds (n : Z) : result xerr float :=
  match float_of_int n with Ok x => Ok x | Err _ => Err XForeign end.

Definition starts (c : ExternalStoreCode) (p : string) : bool :=
  py_startswith (store_code_text c) (of_ascii p).

Definition step_for_store (code : ExternalStoreCode) : ErasureStep :=
  if bool_decide (code = valkey_v1) then step_valkey
  else if starts code "vector_" then step_vector
  else if starts code "graph_" then step_graph
  else step_trace_store.

(** An operation of an adapter on its arguments: whether it takes the hook, and what it does. *)
Record bound_call (E : Type) := mkBound { bc_accepts_progress : bool; bc_body : float → prog E reply }.
Arguments mkBound {E}.
Arguments bc_accepts_progress {E}.
Arguments bc_body {E}.

Definition on_args {E Args} (a : attribute (store_operation E Args)) (args : Args) : attribute (bound_call E) :=
  match a with
  | Missing => Missing
  | NotCallable => NotCallable
  | Method o => Method (mkBound (op_accepts_progress o) (op_body o args))
  end.

(** The operation a call of the coordinator names: the attribute of the adapter, and the
    arguments it is given. *)
Definition store_method {E} (port : Store E) (m : method) (project_id : uuid) (t : target) : attribute (bound_call E) :=
  match m, t with
  | Erase, RunTarget run_id => on_args (erase_run port) (project_id, run_id)
  | Verify, RunTarget run_id => on_args (verify_run_absent port) (project_id, run_id)
  | Erase, ProjectTarget => on_args (erase_project port) project_id
  | Verify, ProjectTarget => on_args (verify_project_absent port) project_id
  end.

Section Executor.
Context {E : Type} (sha256 : pybytes → pybytes) (db : ErasureDb E) (now : E → float * E)
  (stores : ExternalStoreCode → option (Store E)) (manifest : list ExternalStoreCode) (owner : pystr)
  (lease_seconds heartbeat_seconds batch_size : Z) (external_timeout_seconds : float) (fuel : nat).

(** ** [_Heartbeat] *)

Definition heartbeat_init : eio E unit :=
  do t ← read now;
  do interval ← of_result (seconds heartbeat_seconds);
  set_next (t + interval)%float.

(** [hb] is the lease as it was claimed. *)
Definition before_side_effect (hb : ErasureLease) : eio E unit :=
  do t ← read now;
  do next ← get_next;
  if (t <? next)%float then emit Beat
  else
    do _ ← try db_call Renew (λ _, Nothing) (db_renew db hb owner lease_seconds)
           except (λ e, if is_tracebed e then raise LeaseLost else raise e);
    heartbeat_init.

(** ** Adapter calls *)

Fixpoint run_prog {A} (code : ExternalStoreCode) (before_page : option (eio E unit)) (m : prog E A) : eio E A :=
  match m with
  | Return r => of_result r
  | Stuck => running
  | Clock k => do t ← read now; run_prog code before_page (k t)
  | Page k =>
      match before_page with
      | None => run_prog code before_page (k (Ok tt))
      | Some hook => λ w,
          match hook w with
          | (Done r, w') => run_prog code before_page (k r) w'
          | (Running, w') => (Running, w')
          end
      end
  | Call f k => λ w,
      let '(r, e) := f (w_env w) in
      run_prog code before_page (k r) (mkWorld e (w_next w) (w_lease w) (w_step w) (w_log w ++ [Io code]))
  end.

(** [_call_store] on the operation so named; the log shows where it begins and where it
    returns. *)
Definition call_store (hb : ErasureLease) (code : ExternalStoreCode) (port : Store E) (m : method) (project_id : uuid)
    (t : target) : eio E reply :=
  match store_method port m project_id t with
  | Method o =>
      do _ ← emit (Begin code m project_id t);
      let hook := if bc_accepts_progress o then Some (before_side_effect hb) else None in
      do r ← run_prog code hook (bc_body o external_timeout_seconds);
      do _ ← emit (Finish code m project_id t r);
      ret r
  | _ => raise OperatorBlocked
  end.

Definition require_store_result (r : reply) : eio E StoreResult :=
  match r with AStoreResult s => ret s | AnotherObject => raise OperatorBlocked end.

Definition delete_and_verify (hb : ErasureLease) (code : ExternalStoreCode) (port : Store E)
    (project_id : uuid) (work : ExternalWork) : eio E StoreResult :=
  match ew_target_kind work with
  | kind_run =>
      if negb (hasattr (erase_run port)) || negb (hasattr (verify_run_absent port)) then raise OperatorBlocked
      else match ew_target_id work with
      | None => raise XForeign
      | Some run_id =>
          do erased ← call_store hb code port Erase project_id (RunTarget run_id);
          do _ ← require_store_result erased;
          do _ ← before_side_effect hb;
          do result ← call_store hb code port Verify project_id (RunTarget run_id);
          require_store_result result
      end
  | kind_project =>
      if negb (hasattr (erase_project port)) || negb (hasattr (verify_project_absent port)) then raise OperatorBlocked
      else
        do erased ← call_store hb code port Erase project_id ProjectTarget;
        do _ ← require_store_result erased;
        do _ ← before_side_effect hb;
        do result ← call_store hb code port Verify project_id ProjectTarget;
        require_store_result result
  end.

Definition verify_project_zero (hb : ErasureLease) (code : ExternalStoreCode) (port : Store E)
    (project_id : uuid) : eio E StoreResult :=
  if negb (hasattr (verify_project_absent port)) then raise OperatorBlocked
  else
    do result ← call_store hb code port Verify project_id ProjectTarget;
    require_store_result result.

(** ** [_run_external_store] *)

Definition ascii_bytes (s : string) : pybytes := of_ascii s.

Definition aggregate_init (code : ExternalStoreCode) : pybytes :=
  sha256 (ascii_bytes "tracebed.erasure-store/v1:" ++ store_code_text code).
Definition aggregate_next (aggregate : pybytes) (r : StoreResult) : pybytes :=
  sha256 (aggregate ++ sr_postcondition_digest r).

Fixpoint work_loop (hb lease : ErasureLease) (code : ExternalStoreCode) (port : Store E)
    (total : Z) (aggregate : pybytes) (batch : list ExternalWork) : eio E (Z * pybytes) :=
  match batch with
  | [] => ret (total, aggregate)
  | work :: rest =>
      do _ ← before_side_effect hb;
      do result ← delete_and_verify hb code port (el_project_id lease) work;
      do _ ← before_side_effect hb;
      do _ ← db_call (MarkExternalWork code work result) (λ _, Nothing)
               (db_mark_external_work db lease owner work result);
      work_loop hb lease code port (total + 1) (aggregate_next aggregate result) rest
  end.

Fixpoint drain_loop (n : nat) (hb lease : ErasureLease) (code : ExternalStoreCode) (port : Store E)
    (total : Z) (aggregate : pybytes) : eio E (Z * pybytes) :=
  match n with
  | O => running
  | S n' =>
      do _ ← before_side_effect hb;
      do batch ← db_call (ExternalWorkBatch code) Works (db_external_work_batch db lease owner code batch_size);
      if bool_decide (batch = []) then ret (total, aggregate)
      else
        do acc ← work_loop hb lease code port total aggregate batch;
        drain_loop n' hb lease code port acc.1 acc.2
  end.

Definition is_subject_trace (lease : ErasureLease) (code : ExternalStoreCode) : bool :=
  starts code "trace_" && bool_decide (el_scope lease = scope_subject).

Definition targets_proof (aggregate : pybytes) : StoreResult :=
  mkStoreResult ok 0 (sha256 (ascii_bytes "tracebed.erasure-trace-targets/v1" ++ aggregate)).

Definition external_store_body (hb lease : ErasureLease) (code : ExternalStoreCode) (port : Store E)
  : eio E StepOutcome :=
  do acc ← drain_loop fuel hb lease code port 0 (aggregate_init code);
  do _ ← before_side_effect hb;
  do close_proof ←
    (if is_subject_trace lease code then of_result (store_result_post_init (targets_proof acc.2))
     else verify_project_zero hb code port (el_project_id lease));
  do result ← of_result (store_result_post_init
    (mkStoreResult (sr_result_code close_proof) (sr_affected_rows close_proof) (aggregate_next acc.2 close_proof)));
  db_call (CloseExternalStep code acc.1 result) AnOutcome
    (db_close_external_step db lease owner code acc.1 result).

(** The handlers re-raise three classes and turn every other exception into [TracebedError]. *)
Definition store_handler (e : xerr) : xerr :=
  match e with
  | OperatorBlocked | Blocked _ | LeaseLost | DependencyTimeout => e
  | _ => OtherTracebed
  end.

Definition run_external_store (hb lease : ErasureLease) (code : ExternalStoreCode) : eio E StepOutcome :=
  match stores code with
  | None => raise (Blocked configuration_mismatch)
  | Some port => try external_store_body hb lease code port except (λ e, raise (store_handler e))
  end.

(** ** [_seal_trace_manifest] *)

Definition manifest_header : pybytes := ascii_bytes "tracebed.erasure-trace-manifest/v1" ++ [0].
Definition frame_bytes (frame : pybytes) : pybytes :=
  int_to_bytes_big 8 (Z.of_nat (length frame)) ++ frame.

(** The loop's state: count, the bytes fed to the hasher, the cursor. *)
Record seal_state := mkSeal {
  sl_count : Z;
  sl_hashed : pybytes;
  sl_after : option (uuid * pystr);
}.

Fixpoint refs_loop (hb lease : ErasureLease) (validate : uuid → uuid → pystr → xport E frame_reply)
    (s : seal_state) (refs : list TraceManifestRef) : eio E seal_state :=
  match refs with
  | [] => ret s
  | ref :: rest =>
      do _ ← before_side_effect hb;
      do frame ← try invoke (validate (el_project_id lease) (tm_run_id ref) (tm_payload_ref ref))
                 except (λ _, raise (Blocked unsafe_path));
      match frame with
      | FrameBytes (_ :: _ as b) =>
          do _ ← emit (Framed b);
          refs_loop hb lease validate
            (mkSeal (sl_count s + 1) (sl_hashed s ++ frame_bytes b) (Some (tm_run_id ref, tm_payload_ref ref))) rest
      | _ => raise (Blocked integrity_failed)
      end
  end.

Fixpoint seal_loop (n : nat) (hb lease : ErasureLease) (validate : uuid → uuid → pystr → xport E frame_reply)
    (s : seal_state) : eio E seal_state :=
  match n with
  | O => running
  | S n' =>
      do _ ← before_side_effect hb;
      do refs ← db_call TraceRefsBatch (λ _, Nothing)
        (db_trace_refs_batch db lease owner (el_closure_revision lease) (fst <$> sl_after s) (snd <$> sl_after s) batch_size);
      if bool_decide (refs = []) then ret s
      else
        do s' ← refs_loop hb lease validate s refs;
        if Z.of_nat (length refs) <? batch_size then ret s'
        else seal_loop n' hb lease validate s'
  end.

(** Adapter objects are truthy. *)
Definition trace_store : option (Store E) :=
  match stores trace_fs_v1 with Some s => Some s | None => stores trace_s3_v1 end.

Definition seal_trace_manifest (hb lease : ErasureLease) : eio E unit :=
  match trace_store with
  | Some port =>
      match validate_manifest_ref port with
      | Method validate =>
          do s ← seal_loop fuel hb lease validate (mkSeal 0 manifest_header None);
          let digest := sha256 (sl_hashed s) in
          db_call (SealTraceManifest (el_closure_revision lease) (sl_count s) digest) (λ _, Nothing)
            (db_seal_trace_manifest db lease owner (el_closure_revision lease) (sl_count s) digest)
      | _ => raise (Blocked configuration_mismatch)
      end
  | None => raise (Blocked configuration_mismatch)
  end.

(** ** [_run] *)

Definition at_revision (lease : ErasureLease) (revision : Z) (phase : ErasurePhase) : result xerr ErasureLease :=
  check! bool_decide (phase ∈ [crypto_erased; primary_purged; external_purged; scope_complete]) else LeaseLost in
  lease_post_init (mkErasureLease (el_project_id lease) (el_request_id lease) (el_scope lease) phase
    (el_generation lease) (el_lease_token lease) (el_lease_expires_at lease) revision).

Definition advance (revision : Z) (phase : ErasurePhase) : eio E unit :=
  do lease ← get_lease;
  do lease' ← of_result (at_revision lease revision phase);
  set_lease lease'.

Fixpoint primary_loop (n : nat) (hb : ErasureLease) (quick : bool) : eio E unit :=
  match n with
  | O => running
  | S n' =>
      do _ ← set_step step_postgres;
      do _ ← before_side_effect hb;
      do lease ← get_lease;
      do batch ← db_call PrimaryBatchOp ABatch (db_primary_batch db lease owner batch_size);
      if pb_remaining batch =? 0 then
        advance (pb_closure_revision batch) (if quick then external_purged else primary_purged)
      else
        do _ ← advance (pb_closure_revision batch) primary_purged;
        primary_loop n' hb quick
  end.

Fixpoint stores_loop (hb : ErasureLease) (codes : list ExternalStoreCode) : eio E unit :=
  match codes with
  | [] => ret tt
  | code :: rest =>
      do _ ← set_step (step_for_store code);
      do _ ← before_side_effect hb;
      do lease ← get_lease;
      do o ← run_external_store hb lease code;
      do _ ← advance (so_closure_revision o) (so_phase o);
      stores_loop hb rest
  end.

(** The three blocks of the body, each guarded by the phase reached so far. *)
Definition crypto_block : eio E unit :=
  do lease ← get_lease;
  if bool_decide (el_phase lease = fenced) then
    do _ ← set_step step_crypto;
    do o ← db_call CryptoStep AnOutcome (db_crypto_step db lease owner);
    advance (so_closure_revision o) (so_phase o)
  else ret tt.

Definition primary_block (hb : ErasureLease) : eio E unit :=
  do lease ← get_lease;
  if bool_decide (el_phase lease ∈ [crypto_erased; primary_purged; external_purged]) then
    do _ ← set_step step_trace_store;
    do _ ← seal_trace_manifest hb lease;
    do _ ← set_step step_postgres;
    do o ← db_call PreparePrimary AnOutcome (db_prepare_primary db lease owner);
    do _ ← advance (so_closure_revision o) (so_phase o);
    do prepared ← get_lease;
    let needs_external := 0 <? so_affected_rows o in
    primary_loop fuel hb (bool_decide (el_phase prepared = external_purged) && negb needs_external)
  else ret tt.

Definition stores_block (hb : ErasureLease) : eio E unit :=
  do lease ← get_lease;
  if bool_decide (el_phase lease = primary_purged) then stores_loop hb manifest else ret tt.

Definition final_block : eio E StepOutcome :=
  do lease ← get_lease;
  if bool_decide (el_phase lease = external_purged) then
    do _ ← set_step step_verify;
    db_call VerifyAndComplete AnOutcome (db_verify_and_complete db lease owner)
  else if bool_decide (el_phase lease = scope_complete) then
    of_result (step_outcome_post_init (mkStepOutcome scope_complete 0 (el_closure_revision lease) ok))
  else
    do step ← get_step;
    do _ ← db_call (Fail step retryable closure_changed) (λ _, Nothing) (db_fail db lease owner step retryable closure_changed);
    raise LeaseLost.

Definition run_body (hb : ErasureLease) : eio E StepOutcome :=
  do _ ← crypto_block;
  do _ ← primary_block hb;
  do _ ← stores_block hb;
  final_block.

(** What the handlers write for an exception; the last class writes nothing. *)
Definition receipt_of (e : xerr) : option (ErasureResult * ErasureResultCode) :=
  match e with
  | LeaseLost => None
  | ClosureChanged => Some (retryable, closure_changed)
  | Blocked c => Some (blocked, c)
  | OperatorBlocked => Some (blocked, verification_failed)
  | DependencyTimeout => Some (retryable, dependency_timeout)
  | OtherTracebed => Some (retryable, dependency_unavailable)
  | XTimeout | XValue | XForeign => None
  end.

Definition run_handler {A} (e : xerr) : eio E A :=
  match receipt_of e with
  | None => raise e
  | Some (r, code) =>
      do lease ← get_lease;
      do step ← get_step;
      do _ ← db_call (Fail step r code) (λ _, Nothing) (db_fail db lease owner step r code);
      raise e
  end.

Definition run_lease (lease : ErasureLease) : eio E StepOutcome :=
  do _ ← set_lease lease;
  do _ ← heartbeat_init;
  do _ ← set_step step_crypto;
  try run_body lease except run_handler.

(** ** The entry points *)

Definition run_next : eio E (option StepOutcome) :=
  do claimed ← invoke (db_claim_next db owner lease_seconds manifest);
  match claimed with None => ret None | Some lease => do o ← run_lease lease; ret (Some o) end.

Definition run_request (request_id : uuid) : eio E (option StepOutcome) :=
  do claimed ← invoke (db_claim_request db request_id owner lease_seconds manifest);
  match claimed with None => ret None | Some lease => do o ← run_lease lease; ret (Some o) end.

Definition cancel (lease : ErasureLease) : eio E unit :=
  try invoke (db_release db lease owner)
  except (λ e, if bool_decide (e = LeaseLost) then ret tt else raise e).
End Executor.

(** [ErasureExecutor.__init__]'s checks: it raises unless this holds.  A NaN passes both tests on
    the timeout. *)
Definition executor_valid (owner : pystr) (lease_seconds heartbeat_seconds batch_size : Z) (timeout : float) : bool :=
  negb (bool_decide (owner = [])) && (Z.of_nat (length owner) <=? 96)
  && (30 <=? lease_seconds) && (lease_seconds <=? 900) && (3 * heartbeat_seconds <? lease_seconds)
  && (1 <=? batch_size)
  && (is_nan_f timeout || isfinite timeout && (0 <? fscaled timeout) && (fscaled timeout <? heartbeat_seconds * 2 ^ 1074)).
