(* ===== verification/Saga.v ===== *)
(** * The erasure protocol, and that the coordinator follows it

    [ledger_step] is the promise of the erasure saga (the comments of erasure/executor.py and
    of the domain errors) as a transition function on what one run has established so far;
    the coordinator of Coordinator.v refines it.  The consequences the operators rely on are
    proved below: nothing happens after a lost lease, and every failure leaves one receipt. *)

From Stdlib Require Import Floats.
From S2P Require Import Prelude Domain PyText PyFloat Fusion Erasure Coordinator.
Open Scope Z_scope.

(** ** The ledger of a run *)

Inductive ending := Live | Failing | Over.

(** The store being drained: the targets still owed from the last batch, whether a batch came
    back empty, the targets marked, and the evidence chained so far. *)
Record drain_state := mkDrain {
  dr_code : ExternalStoreCode;
  dr_todo : list ExternalWork;
  dr_empty : bool;
  dr_count : Z;
  dr_chain : pybytes;
}.

Inductive stage :=
| Opening (frames : list pybytes)
| Sealed
| Purging (quick : bool)
| Passing (quick : bool) (closed : list ExternalStoreCode) (cur : option drain_state).

Inductive activity :=
| Idle
| Busy (code : ExternalStoreCode) (m : method) (t : target)
| Erased (t : target)
| Proved (t : target) (r : StoreResult).

Record ledger := mkLedger {
  ld_end : ending;
  ld_fresh : bool;
  ld_stage : stage;
  ld_act : activity;
}.

#[export] Instance activity_eq_dec : EqDecision activity.
Proof. solve_decision. Defined.

Definition target_of (w : ExternalWork) : option target :=
  match ew_target_kind w with
  | kind_run => RunTarget <$> ew_target_id w
  | kind_project => Some ProjectTarget
  end.

Definition set_end (e : ending) (ld : ledger) : ledger := mkLedger e (ld_fresh ld) (ld_stage ld) (ld_act ld).
Definition set_fresh (b : bool) (ld : ledger) : ledger := mkLedger (ld_end ld) b (ld_stage ld) (ld_act ld).
Definition moved (s : stage) (a : activity) (ld : ledger) : ledger := mkLedger (ld_end ld) false s a.

Definition ledger_init : ledger := mkLedger Live false (Opening []) Idle.

(** The lease is gone: a database call said so, or the lease could not be renewed. *)
Definition lost (ev : event) : bool :=
  match ev with
  | Db Renew (Err e) => is_tracebed e
  | Db _ (Err e) => bool_decide (e = LeaseLost)
  | _ => false
  end.

Section Protocol.
Context (sha256 : pybytes → pybytes) (manifest : list ExternalStoreCode) (project : uuid) (scope : ErasureScope).

Definition manifest_digest (frames : list pybytes) : pybytes :=
  sha256 (manifest_header ++ concat (frame_bytes <$> frames)).

Definition subject_trace (c : ExternalStoreCode) : bool :=
  starts c "trace_" && bool_decide (scope = scope_subject).

(** The evidence a store is closed with: the chain of its targets, extended by a fresh proof
    of absence for the whole project, or by the targets alone for one subject's traces. *)
Definition closing (d : drain_state) (a : activity) : option StoreResult :=
  if subject_trace (dr_code d) then
    match a with
    | Idle => Some (mkStoreResult ok 0 (aggregate_next sha256 (dr_chain d) (targets_proof sha256 (dr_chain d))))
    | _ => None
    end
  else
    match a with
    | Proved ProjectTarget p =>
        Some (mkStoreResult (sr_result_code p) (sr_affected_rows p) (aggregate_next sha256 (dr_chain d) p))
    | _ => None
    end.

Definition permitted (ld : ledger) (op : db_op) : bool :=
  match op with
  | Renew | Fail _ _ _ => true
  | CryptoStep => match ld_stage ld with Opening [] => true | _ => false end
  | TraceRefsBatch => ld_fresh ld && match ld_stage ld with Opening _ => true | _ => false end
  | SealTraceManifest _ n d =>
      match ld_stage ld with
      | Opening frames => (n =? Z.of_nat (length frames)) && bool_decide (d = manifest_digest frames)
      | _ => false
      end
  | PreparePrimary => match ld_stage ld with Sealed => true | _ => false end
  | PrimaryBatchOp => ld_fresh ld && match ld_stage ld with Purging _ => true | _ => false end
  | ExternalWorkBatch c =>
      ld_fresh ld && bool_decide (ld_act ld = Idle) &&
      match ld_stage ld with
      | Passing _ closed None => bool_decide (manifest !! length closed = Some c)
      | Passing _ _ (Some d) => bool_decide (dr_code d = c) && negb (dr_empty d) && bool_decide (dr_todo d = [])
      | _ => false
      end
  | MarkExternalWork c w r =>
      ld_fresh ld &&
      match ld_stage ld, ld_act ld with
      | Passing _ _ (Some d), Proved t p =>
          bool_decide (dr_code d = c) && bool_decide (head (dr_todo d) = Some w)
          && bool_decide (target_of w = Some t) && bool_decide (r = p)
      | _, _ => false
      end
  | CloseExternalStep c n r =>
      match ld_stage ld with
      | Passing _ _ (Some d) =>
          bool_decide (dr_code d = c) && dr_empty d && (dr_count d =? n) && bool_decide (closing d (ld_act ld) = Some r)
      | _ => false
      end
  | VerifyAndComplete =>
      match ld_stage ld with
      | Passing quick closed None => quick && bool_decide (closed = []) || bool_decide (closed = manifest)
      | _ => false
      end
  end.

(** What a successful call establishes. *)
Definition established (ld : ledger) (op : db_op) (a : answer) : ledger :=
  match op, a, ld_stage ld with
  | SealTraceManifest _ _ _, _, _ => moved Sealed Idle ld
  | PreparePrimary, AnOutcome o, _ =>
      moved (Purging (bool_decide (so_phase o = external_purged) && negb (0 <? so_affected_rows o))) Idle ld
  | PrimaryBatchOp, ABatch b, Purging quick =>
      moved (if pb_remaining b =? 0 then Passing quick [] None else Purging quick) Idle ld
  | ExternalWorkBatch c, Works ws, Passing quick closed cur =>
      let '(n, chain) := match cur with Some d => (dr_count d, dr_chain d) | None => (0, aggregate_init sha256 c) end in
      moved (Passing quick closed (Some (mkDrain c ws (bool_decide (ws = [])) n chain))) Idle ld
  | MarkExternalWork c w r, _, Passing quick closed (Some d) =>
      moved (Passing quick closed
        (Some (mkDrain c (tail (dr_todo d)) (dr_empty d) (dr_count d + 1) (aggregate_next sha256 (dr_chain d) r)))) Idle ld
  | CloseExternalStep c _ _, _, Passing quick closed _ => moved (Passing quick (closed ++ [c]) None) Idle ld
  | VerifyAndComplete, _, _ => set_end Over ld
  | _, _, s => moved s (ld_act ld) ld
  end.

Definition may_begin (ld : ledger) (c : ExternalStoreCode) (m : method) (t : target) : bool :=
  ld_fresh ld &&
  match ld_stage ld with
  | Passing _ _ (Some d) =>
      bool_decide (dr_code d = c) &&
      match m with
      | Erase => bool_decide (ld_act ld = Idle) && bool_decide (head (dr_todo d) ≫= target_of = Some t)
      | Verify => bool_decide (ld_act ld = Erased t)
                  || bool_decide (ld_act ld = Idle) && dr_empty d && bool_decide (dr_todo d = [])
                     && bool_decide (t = ProjectTarget) && negb (subject_trace c)
      end
  | _ => false
  end.

Definition receipted (ld : ledger) (r : result xerr answer) : ledger :=
  set_end (match r with Ok _ => Over | Err e => if bool_decide (e = LeaseLost) then Over else Failing end) ld.

Definition ledger_step (ld : ledger) (ev : event) : option ledger :=
  match ld_end ld, ev with
  | Over, _ => None
  | _, Db (Fail _ _ _) r => Some (receipted ld r)
  | Failing, _ => None
  | Live, Beat => Some (set_fresh true ld)
  | Live, Db Renew (Ok _) => Some (set_fresh true ld)
  | Live, Db Renew (Err e) => Some (if is_tracebed e then set_end Over ld else set_fresh false ld)
  | Live, Db op r =>
      if permitted ld op then
        Some match r with
             | Ok a => established ld op a
             | Err e => set_end (if bool_decide (e = LeaseLost) then Over else Failing) ld
             end
      else None
  | Live, Framed f =>
      match ld_stage ld with
      | Opening frames => if ld_fresh ld then Some (moved (Opening (frames ++ [f])) Idle ld) else None
      | _ => None
      end
  | Live, Begin c m p t => if bool_decide (p = project) && may_begin ld c m t then Some (moved (ld_stage ld) (Busy c m t) ld) else None
  | Live, Io c =>
      match ld_act ld with
      | Busy c' _ _ => if bool_decide (c = c') then Some (set_fresh false ld) else None
      | _ => None
      end
  | Live, Finish c m p t r =>
      if bool_decide (p = project) && bool_decide (ld_act ld = Busy c m t) then
        Some match r with
             | AStoreResult s => moved (ld_stage ld) (match m with Erase => Erased t | Verify => Proved t s end) ld
             | AnotherObject => set_end Failing ld
             end
      else None
  end.

Fixpoint ledger_run (ld : ledger) (l : list event) : option ledger :=
  match l with
  | [] => Some ld
  | ev :: l' => ledger_step ld ev ≫= λ ld', ledger_run ld' l'
  end.
End Protocol.

(** ** Triples

    [spec P m Q]: from a world in [P], a computation that returns ends in [Q]; one that raises
    leaves a ledger on which a receipt may still be written, unless it reports the lease lost;
    one out of fuel has followed the protocol so far. *)

Lemma store_result_post_init_Ok r r' : store_result_post_init r = Ok r' → r' = r.
Proof. unfold store_result_post_init. intros H. by rinv H. Qed.

(** What the coordinator needs of an adapter that takes the hook. *)
Definition honest_method {E Args} (a : attribute (store_operation E Args)) : Prop :=
  match a with
  | Method o => op_accepts_progress o = true → ∀ args timeout, honest (op_body o args timeout)
  | _ => True
  end.

Class HonestStore {E} (s : Store E) : Prop := {
  honest_erase_run : honest_method (erase_run s);
  honest_verify_run : honest_method (verify_run_absent s);
  honest_erase_project : honest_method (erase_project s);
  honest_verify_project : honest_method (verify_project_absent s);
}.

Section Triples.
Context {E : Type} (sha256 : pybytes → pybytes) (manifest : list ExternalStoreCode) (project : uuid) (scope : ErasureScope).

Definition on (ld : ledger) (L : ErasureLease) (w : world E) : Prop :=
  ledger_run sha256 manifest project scope ledger_init (w_log w) = Some ld ∧ w_lease w = L.

Definition follows (w : world E) : Prop := ∃ ld L, on ld L w.
Definition stopped (e : xerr) (w : world E) : Prop := ∃ ld L, on ld L w ∧ (e ≠ LeaseLost → ld_end ld ≠ Over).

Definition spec {A} (P : world E → Prop) (m : eio E A) (Q : A → world E → Prop) : Prop :=
  ∀ w, P w →
  match m w with
  | (Done (Ok a), w') => Q a w'
  | (Done (Err e), w') => stopped e w'
  | (Running, w') => follows w'
  end.

Lemma spec_ret {A} (P : world E → Prop) (a : A) Q : (∀ w, P w → Q a w) → spec P (ret a) Q.
Proof. intros H w Hw. by apply H. Qed.

Lemma spec_bind {A B} P (m : eio E A) (f : A → eio E B) Q R :
  spec P m Q → (∀ a, spec (Q a) (f a) R) → spec P (bind m f) R.
Proof.
  intros Hm Hf w Hw. specialize (Hm w Hw). unfold bind. destruct (m w) as [[[a|e]|] w']; [|done..].
  by apply Hf.
Qed.

Lemma spec_weaken {A} (P P' : world E → Prop) (m : eio E A) (Q Q' : A → world E → Prop) :
  (∀ w, P w → P' w) → (∀ a w, Q' a w → Q a w) → spec P' m Q' → spec P m Q.
Proof.
  intros HP HQ Hm w Hw. specialize (Hm w (HP w Hw)). destruct (m w) as [[[a|e]|] w']; [|done..]. by apply HQ.
Qed.

Lemma spec_exists {A X} (P : X → world E → Prop) (m : eio E A) Q :
  (∀ x, spec (P x) m Q) → spec (λ w, ∃ x, P x w) m Q.
Proof. intros H w [x Hw]. by apply (H x). Qed.

Lemma spec_raise {A} ld L e (Q : A → world E → Prop) : ld_end ld ≠ Over → spec (on ld L) (raise e) Q.
Proof. intros He w Hw. exists ld, L. done. Qed.

Lemma spec_of_result {A} ld L (r : result xerr A) (Q : A → world E → Prop) :
  ld_end ld ≠ Over → (∀ a, r = Ok a → ∀ w, on ld L w → Q a w) → spec (on ld L) (of_result r) Q.
Proof. intros He HQ w Hw. destruct r as [a|e]; cbn; [by apply HQ|by exists ld, L]. Qed.

Lemma spec_check {A B} ld L (r : result xerr A) (f : A → eio E B) Q :
  ld_end ld ≠ Over → (∀ a, r = Ok a → spec (on ld L) (f a) Q) → spec (on ld L) (bind (of_result r) f) Q.
Proof. intros He Hf w Hw. destruct r as [a|e]; [by apply (Hf a)|]. by exists ld, L. Qed.

Lemma spec_running {A} ld L (Q : A → world E → Prop) : spec (on ld L) running Q.
Proof. intros w Hw. by exists ld, L. Qed.

(** A handler that only maps exceptions, and keeps the lost lease apart. *)
Lemma spec_map_error {A} P (m : eio E A) (h : xerr → xerr) Q :
  (∀ e, h e ≠ LeaseLost → e ≠ LeaseLost) → spec P m Q → spec P (catch m (λ e, raise (h e))) Q.
Proof.
  intros Hh Hm w Hw. specialize (Hm w Hw). unfold catch. destruct (m w) as [[[a|e]|] w']; [done| |done].
  destruct Hm as (ld & L & Hon & He). exists ld, L. split; [done|]. intros H. by apply He, Hh.
Qed.

Lemma spec_get_lease ld L : spec (on ld L) get_lease (λ a w, a = L ∧ on ld L w).
Proof. intros w Hw. split; [apply Hw|done]. Qed.

Lemma spec_set_step ld L s : spec (on ld L) (set_step s) (λ _, on ld L).
Proof. by intros w Hw. Qed.

Lemma spec_get_step ld L : spec (on ld L) get_step (λ _, on ld L).
Proof. by intros w Hw. Qed.

Lemma spec_set_lease ld L L' : spec (on ld L) (set_lease L') (λ _, on ld L').
Proof. intros w [Hw _]. by split. Qed.

Lemma ledger_run_snoc ld l ev :
  ledger_run sha256 manifest project scope ld (l ++ [ev]) =
  ledger_run sha256 manifest project scope ld l ≫= λ ld', ledger_step sha256 manifest project scope ld' ev.
Proof.
  revert ld. induction l as [|x l IH]; intros ld; cbn [ledger_run app mbind option_bind].
  - by destruct (ledger_step _ _ _ _ ld ev).
  - destruct (ledger_step _ _ _ _ ld x) as [ld'|]; cbn [mbind option_bind]; [apply IH|done].
Qed.

Lemma spec_emit ld L ev ld' :
  ledger_step sha256 manifest project scope ld ev = Some ld' → spec (on ld L) (emit ev) (λ _, on ld' L).
Proof. intros Hs w [Hr HL]. split; [|done]. cbn [w_log]. by rewrite ledger_run_snoc, Hr. Qed.

Definition working (op : db_op) : bool := match op with Renew | Fail _ _ _ => false | _ => true end.

Lemma spec_db_call {A} ld L op (to_answer : A → answer) (f : xport E A) :
  ld_end ld = Live → working op = true → permitted sha256 manifest scope ld op = true →
  spec (on ld L) (db_call op to_answer f) (λ a, on (established sha256 ld op (to_answer a)) L).
Proof.
  intros Hlive Hop Hperm w [Hr HL]. unfold db_call. destruct (f (w_env w)) as [r e].
  assert (Hstep : ledger_step sha256 manifest project scope ld (Db op (answered to_answer r)) =
    Some match answered to_answer r with
         | Ok a => established sha256 ld op a
         | Err x => set_end (if bool_decide (x = LeaseLost) then Over else Failing) ld
         end).
  { unfold ledger_step. rewrite Hlive. destruct op; try discriminate Hop; by rewrite Hperm. }
  destruct r as [a|x]; cbn [answered] in *.
  - split; [|done]. cbn [w_log]. by rewrite ledger_run_snoc, Hr.
  - eexists _, L. split; [split; [|done]; cbn [w_log]; rewrite ledger_run_snoc, Hr; exact Hstep|].
    intros Hx. cbn. by rewrite bool_decide_false by done.
Qed.
End Triples.

(** ** The coordinator follows the protocol *)

Section Refines.
Context {E : Type} (sha256 : pybytes → pybytes) (db : ErasureDb E) (now : E → float * E)
  (stores : ExternalStoreCode → option (Store E)) (manifest : list ExternalStoreCode) (owner : pystr)
  (lease_seconds heartbeat_seconds batch_size : Z) (external_timeout_seconds : float) (fuel : nat)
  (project : uuid) (scope : ErasureScope).

Let on := on (E := E) sha256 manifest project scope.
Let spec {A} := spec (E := E) (A := A) sha256 manifest project scope.
Let beat := before_side_effect db now owner lease_seconds heartbeat_seconds.

Lemma on_read {A} ld L (f : E → A * E) w : on ld L w → on ld L (read f w).2.
Proof. unfold read. by destruct (f (w_env w)). Qed.

Lemma on_snoc ld L w ev ld' :
  on ld L w → ledger_step sha256 manifest project scope ld ev = Some ld' →
  ∀ e n s, on ld' L (mkWorld e n (w_lease w) s (w_log w ++ [ev])).
Proof. intros [Hr HL] Hs e n s. split; [|done]. cbn [w_log]. by rewrite ledger_run_snoc, Hr. Qed.

Lemma heartbeat_init_on ld L w : on ld L w →
  match heartbeat_init now heartbeat_seconds w with
  | (Done (Ok _), w') => on ld L w'
  | (Done (Err e), w') => e ≠ LeaseLost ∧ on ld L w'
  | (Running, _) => False
  end.
Proof.
  intros Hw. unfold heartbeat_init, bind, read. destruct (now (w_env w)) as [t e]. cbn.
  unfold seconds. by destruct (float_of_int _).
Qed.

Lemma beat_on ld L hb w : ld_end ld = Live → on ld L w →
  match beat hb w with
  | (Done (Ok _), w') => on (set_fresh true ld) L w'
  | (Done (Err e), w') =>
      (e = LeaseLost ∧ follows sha256 manifest project scope w') ∨ (e ≠ LeaseLost ∧ ∃ b, on (set_fresh b ld) L w')
  | (Running, _) => False
  end.
Proof.
  intros Hlive Hw. unfold beat, before_side_effect, bind at 1, read. destruct (now (w_env w)) as [t e].
  unfold bind at 1. cbn [get_next]. destruct (_ <? _)%float.
  - refine (on_snoc ld L w Beat _ Hw _ _ _ _). unfold ledger_step. by rewrite Hlive.
  - unfold bind at 1, catch, db_call. cbn [w_env w_next w_lease w_step w_log]. destruct (db_renew db hb owner lease_seconds e) as [[d|x] e'].
    + pose proof (on_snoc ld L w (Db Renew (Ok Nothing)) (set_fresh true ld) Hw) as Hon.
      specialize (Hon ltac:(unfold ledger_step; by rewrite Hlive) e' (w_next w) (w_step w)).
      apply heartbeat_init_on in Hon. cbn [answered].
      destruct (heartbeat_init _ _ _) as [[[]|] w']; [done| |done]. right. destruct Hon. eauto.
    + pose proof (on_snoc ld L w (Db Renew (Err x)) _ Hw ltac:(unfold ledger_step; by rewrite Hlive) e' (w_next w) (w_step w)) as Hon.
      cbn [answered]. destruct (is_tracebed x) eqn:Hx; cbn.
      * left. split; [done|]. eexists _, _. exact Hon.
      * right. split; [by intros ->|]. eauto.
Qed.

Lemma spec_beat ld L hb : ld_end ld = Live → spec (on ld L) (beat hb) (λ _, on (set_fresh true ld) L).
Proof.
  intros Hlive w Hw. pose proof (beat_on ld L hb w Hlive Hw) as H.
  destruct (beat hb w) as [[[]|] w']; [done| |done]. destruct H as [[-> (ld' & L' & H)]|[He [b H]]].
  - exists ld', L'. done.
  - eexists _, L. split; [exact H|]. cbn. by rewrite Hlive.
Qed.

(** An adapter's program: its calls to the outside are covered by the operation under way. *)
Lemma spec_run_prog {A} ld L hb code m t hook (p : prog E A) :
  ld_end ld = Live → ld_act ld = Busy code m t → (hook = None ∨ hook = Some (beat hb) ∧ honest p) →
  spec (on ld L) (run_prog now code hook p) (λ _ w, ∃ b, on (set_fresh b ld) L w).
Proof.
  intros Hlive Hact Hhook.
  assert (Hgen : ∀ b, spec (on (set_fresh b ld) L) (run_prog now code hook p) (λ _ w, ∃ b, on (set_fresh b ld) L w)).
  2: { intros w Hw. apply (Hgen (ld_fresh ld)). by destruct ld. }
  induction p as [r| |k IH|k IH|B f k IH]; intros b; cbn [run_prog honest] in *.
  - apply spec_of_result; [cbn; by rewrite Hlive|]. eauto.
  - apply spec_running.
  - intros w Hw. unfold bind, read. pose proof (on_read (set_fresh b ld) L now w Hw) as Hr. unfold read in Hr.
    destruct (now (w_env w)) as [tm e]. eapply IH; [|done]. destruct Hhook as [?|[? ?]]; auto.
  - destruct Hhook as [-> |[-> [Hlost Hp]]]; [apply IH; auto|].
    intros w Hw. pose proof (beat_on (set_fresh b ld) L hb w Hlive Hw) as H.
    destruct (beat hb w) as [[[u|e]|] w']; [eapply IH; eauto| |done].
    destruct H as [[-> (ld' & L' & H)]|[He [b' H]]].
    + rewrite Hlost. cbn. by exists ld', L'.
    + eapply IH; eauto.
  - intros w Hw. destruct (f (w_env w)) as [r e]. eapply IH; [destruct Hhook as [?|[? ?]]; auto|].
    eapply on_snoc; [exact Hw|]. unfold ledger_step. cbn. rewrite Hlive, Hact. by rewrite bool_decide_true.
Qed.

Let acall := call_store (E := E) db now owner lease_seconds heartbeat_seconds external_timeout_seconds.

(** One adapter operation, whose answer must be a [StoreResult]. *)
Definition after_op (m : method) (t : target) (s : StoreResult) : activity :=
  match m with Erase => Erased t | Verify => Proved t s end.

Lemma honest_on_args {Args} (a : attribute (store_operation E Args)) args o : honest_method a → on_args a args = Method o →
  bc_accepts_progress o = true → ∀ timeout, honest (bc_body o timeout).
Proof. destruct a as [| |o']; [done..|]. intros Ha [= <-] Hp timeout. by apply Ha. Qed.

Lemma honest_store_method (port : Store E) m p t o : HonestStore port → store_method port m p t = Method o →
  bc_accepts_progress o = true → ∀ timeout, honest (bc_body o timeout).
Proof. intros []. destruct m, t; cbn; by apply honest_on_args. Qed.

Lemma spec_call_store fr st act L hb code port m t :
  may_begin scope (mkLedger Live fr st act) code m t = true → HonestStore port →
  spec (on (mkLedger Live fr st act) L) (acall hb code port m project t)
    (λ r w, ∃ b, on (match r with
                     | AStoreResult s => mkLedger Live false st (after_op m t s)
                     | AnotherObject => mkLedger Failing b st (Busy code m t)
                     end) L w).
Proof.
  intros Hbegin Hop. unfold acall, call_store.
  destruct (store_method port m project t) as [| |o] eqn:Ho; [apply spec_raise with (ld := mkLedger Live fr st act) (L := L); done..|].
  eapply spec_bind with (Q := λ _, on (mkLedger Live false st (Busy code m t)) L).
  { apply spec_emit. unfold ledger_step. cbn [ld_end]. by rewrite Hbegin, bool_decide_true. }
  intros _. eapply spec_bind.
  { apply spec_run_prog with (hb := hb) (m := m) (t := t); [done..|].
    destruct (bc_accepts_progress o) eqn:Hp; [right; split; [done|by eapply honest_store_method]|by left]. }
  intros r. apply spec_exists. intros b. eapply spec_bind.
  { apply spec_emit. unfold ledger_step. cbn [ld_end set_fresh ld_act]. rewrite !bool_decide_true by done. reflexivity. }
  intros u. apply spec_ret. intros w Hw. exists b. by destruct r.
Qed.

Lemma spec_store_op {B} fr st act L hb code port m t (k : StoreResult → eio E B) Q :
  may_begin scope (mkLedger Live fr st act) code m t = true → HonestStore port →
  (∀ s, spec (on (mkLedger Live false st (after_op m t s)) L) (k s) Q) →
  spec (on (mkLedger Live fr st act) L) (do r ← acall hb code port m project t; do s ← require_store_result r; k s) Q.
Proof.
  intros Hbegin Hop Hk. eapply spec_bind; [by apply spec_call_store|].
  intros [s|]; apply spec_exists; intros b; cbn [require_store_result].
  - intros w Hw. by apply (Hk s).
  - eapply spec_bind with (Q := λ _ _, False); [by apply spec_raise|]. by intros s w [].
Qed.

Lemma spec_last_op fr st act L hb code port m t :
  may_begin scope (mkLedger Live fr st act) code m t = true → HonestStore port →
  spec (on (mkLedger Live fr st act) L) (do r ← acall hb code port m project t; require_store_result r)
    (λ s, on (mkLedger Live false st (after_op m t s)) L).
Proof.
  intros Hbegin Hop. eapply spec_bind; [by apply spec_call_store|].
  intros [s|]; apply spec_exists; intros b; cbn [require_store_result].
  - by apply spec_ret.
  - by apply spec_raise.
Qed.

Let erase_one := delete_and_verify db now owner lease_seconds heartbeat_seconds external_timeout_seconds.

(** Delete, renew, prove: ends with the proof of this target. *)
Lemma spec_delete_and_verify q closed d L hb port work :
  HonestStore port → head (dr_todo d) = Some work →
  spec (on (mkLedger Live true (Passing q closed (Some d)) Idle) L) (erase_one hb (dr_code d) port project work)
    (λ s w, ∃ t, target_of work = Some t ∧ on (mkLedger Live false (Passing q closed (Some d)) (Proved t s)) L w).
Proof.
  intros Hport Hhead. unfold erase_one, delete_and_verify. set (st := Passing q closed (Some d)).
  assert (Hgo : ∀ t, target_of work = Some t →
    spec (on (mkLedger Live true st Idle) L)
      (do erased ← acall hb (dr_code d) port Erase project t;
       do _ ← require_store_result erased;
       do _ ← beat hb;
       do result ← acall hb (dr_code d) port Verify project t;
       require_store_result result)
      (λ s w, ∃ t, target_of work = Some t ∧ on (mkLedger Live false st (Proved t s)) L w)).
  { intros t Ht. apply spec_store_op; [|done|].
    - unfold may_begin. cbn. rewrite Hhead. cbn. by rewrite Ht, !bool_decide_true.
    - intros s. eapply spec_bind; [by apply spec_beat|]. intros ?. eapply spec_weaken; [done| |apply spec_last_op; [|done]].
      + intros s' w Hw. exists t. done.
      + unfold may_begin. cbn. by rewrite (bool_decide_true (dr_code d = _)), (bool_decide_true (Erased t = _)). }
  destruct (ew_target_kind work) eqn:Hk.
  - case_match; [by apply spec_raise|]. destruct (ew_target_id work) as [r|] eqn:Hr; [|by apply spec_raise].
    apply Hgo. unfold target_of. by rewrite Hk, Hr.
  - case_match; [by apply spec_raise|]. apply Hgo. unfold target_of. by rewrite Hk.
Qed.

Let mark_all := work_loop sha256 db now owner lease_seconds heartbeat_seconds external_timeout_seconds.

Lemma spec_work_loop q closed code L hb lease port batch : HonestStore port → el_project_id lease = project →
  ∀ fr n chain,
  spec (on (mkLedger Live fr (Passing q closed (Some (mkDrain code batch false n chain))) Idle) L)
    (mark_all hb lease code port n chain batch)
    (λ acc w, ∃ fr', on (mkLedger Live fr' (Passing q closed (Some (mkDrain code [] false acc.1 acc.2))) Idle) L w).
Proof.
  intros Hport Hproj. induction batch as [|work rest IH]; intros fr n chain; cbn [mark_all work_loop]; rewrite ?Hproj.
  - apply spec_ret. eauto.
  - eapply spec_bind; [by apply spec_beat|]. intros ?.
    eapply spec_bind; [by apply (spec_delete_and_verify q closed (mkDrain code (work :: rest) false n chain))|].
    intros s. apply spec_exists. intros t w [Ht Hw]. revert w Hw.
    eapply spec_bind; [by apply spec_beat|]. intros ?.
    eapply spec_bind; [apply spec_db_call; [done|done|]|].
    { cbn. by rewrite Ht, !bool_decide_true. }
    intros u. cbn [established ld_stage]. apply IH.
Qed.

Let drain_all := drain_loop sha256 db now owner lease_seconds heartbeat_seconds batch_size external_timeout_seconds.

Lemma spec_drain_loop q closed code L hb lease port m : HonestStore port → el_project_id lease = project →
  ∀ fr cur n chain,
  cur = Some (mkDrain code [] false n chain) ∨
    cur = None ∧ n = 0 ∧ chain = aggregate_init sha256 code ∧ manifest !! length closed = Some code →
  spec (on (mkLedger Live fr (Passing q closed cur) Idle) L)
    (drain_all m hb lease code port n chain)
    (λ acc, on (mkLedger Live false (Passing q closed (Some (mkDrain code [] true acc.1 acc.2))) Idle) L).
Proof.
  intros Hport Hproj. induction m as [|m IH]; intros fr cur n chain Hcur; cbn [drain_all drain_loop].
  { apply spec_running. }
  eapply spec_bind; [by apply spec_beat|]. intros ?.
  eapply spec_bind with (Q := λ ws,
    on (mkLedger Live false (Passing q closed (Some (mkDrain code ws (bool_decide (ws = [])) n chain))) Idle) L).
  - eapply spec_weaken; [done| |apply spec_db_call; [done|done|]].
    + intros ws w. by destruct Hcur as [-> |(-> & -> & -> & _)].
    + destruct Hcur as [-> |(-> & -> & -> & Hc)]; cbn; by rewrite !bool_decide_true.
  - intros ws. destruct (decide (ws = [])) as [-> |Hws].
    { apply spec_ret. intros w Hw. exact Hw. }
    rewrite bool_decide_false by done. eapply spec_bind; [by apply spec_work_loop|].
    intros [n' chain']. apply spec_exists. intros fr'. apply IH. by left.
Qed.

Let store_body := external_store_body sha256 db now owner lease_seconds heartbeat_seconds batch_size external_timeout_seconds fuel.
Let run_store := run_external_store sha256 db now stores owner lease_seconds heartbeat_seconds batch_size external_timeout_seconds fuel.

(** Closing a drained store on the evidence [closing] asks for. *)
Lemma spec_close q closed code n chain fr act L p result lease :
  closing sha256 scope (mkDrain code [] true n chain) act
    = Some (mkStoreResult (sr_result_code p) (sr_affected_rows p) (aggregate_next sha256 chain p)) →
  store_result_post_init (mkStoreResult (sr_result_code p) (sr_affected_rows p) (aggregate_next sha256 chain p)) = Ok result →
  spec (on (mkLedger Live fr (Passing q closed (Some (mkDrain code [] true n chain))) act) L)
    (db_call (CloseExternalStep code n result) AnOutcome (db_close_external_step db lease owner code n result))
    (λ _, on (mkLedger Live false (Passing q (closed ++ [code]) None) Idle) L).
Proof.
  intros Hclosing Hres. assert (result = mkStoreResult (sr_result_code p) (sr_affected_rows p) (aggregate_next sha256 chain p)) as ->
    by by apply store_result_post_init_Ok in Hres.
  eapply spec_weaken; [done| |apply spec_db_call; [done..|]].
  - by intros o w Hw.
  - cbn -[closing]. rewrite Hclosing, Z.eqb_refl. by rewrite !bool_decide_true.
Qed.

Lemma spec_external_store q closed code fr L hb lease :
  (∀ c s, stores c = Some s → HonestStore s) → el_project_id lease = project → el_scope lease = scope → manifest !! length closed = Some code →
  spec (on (mkLedger Live fr (Passing q closed None) Idle) L) (run_store hb lease code)
    (λ _, on (mkLedger Live false (Passing q (closed ++ [code]) None) Idle) L).
Proof.
  intros Hstores Hproj Hscope Hcode. unfold run_store, run_external_store.
  destruct (stores code) as [port|] eqn:Hport; [|by apply spec_raise].
  apply Hstores in Hport. apply spec_map_error; [by intros [] ?|].
  eapply spec_bind; [by apply (spec_drain_loop q closed code L hb lease port fuel Hport Hproj fr None); right|].
  intros [n chain]. cbn [fst snd]. eapply spec_bind; [by apply spec_beat|]. intros ?.
  set (d := mkDrain code [] true n chain).
  apply spec_bind with (Q := λ p w, ∃ fr' act,
    closing sha256 scope d act = Some (mkStoreResult (sr_result_code p) (sr_affected_rows p) (aggregate_next sha256 chain p))
    ∧ on (mkLedger Live fr' (Passing q closed (Some d)) act) L w).
  - assert (Hsub : is_subject_trace lease code = subject_trace scope code) by (unfold is_subject_trace; by rewrite Hscope).
    rewrite Hsub. destruct (subject_trace scope code) eqn:Hs.
    + apply spec_of_result; [done|]. intros p Hp w Hw. exists true, Idle. split; [|exact Hw].
      unfold closing. cbn [dr_code d]. rewrite Hs. by apply store_result_post_init_Ok in Hp as ->.
    + unfold verify_project_zero. rewrite Hproj. case_match; [by apply spec_raise|].
      eapply spec_weaken; [done| |apply spec_last_op; [|exact Hport]].
      * intros p w Hw. exists false, (Proved ProjectTarget p). split; [|exact Hw].
        unfold closing. cbn [dr_code d]. by rewrite Hs.
      * unfold may_begin. cbn. rewrite Hs. by rewrite (bool_decide_true (code = _)).
  - intros p. do 2 (apply spec_exists; intros ?). intros w [Hclosing Hw]. revert w Hw.
    apply spec_check; [done|]. intros r Hr. by eapply spec_close.
Qed.

(** ** The trace manifest *)

Definition seal_ok (frames : list pybytes) (s : seal_state) : Prop :=
  sl_count s = Z.of_nat (length frames) ∧ sl_hashed s = manifest_header ++ concat (frame_bytes <$> frames).

Let frame_all := refs_loop db now owner lease_seconds heartbeat_seconds.
Let seal_all := seal_loop db now owner lease_seconds heartbeat_seconds batch_size.

Lemma spec_invoke {A} ld L (f : xport E A) e : ld_end ld ≠ Over →
  spec (on ld L) (try invoke f except (λ _, raise e)) (λ _, on ld L).
Proof.
  intros He w Hw. unfold catch, invoke. destruct (f (w_env w)) as [[a|x] x']; [done|]. by exists ld, L.
Qed.

Lemma spec_refs_loop hb lease validate L refs : ∀ fr frames s, seal_ok frames s →
  spec (on (mkLedger Live fr (Opening frames) Idle) L) (frame_all hb lease validate s refs)
    (λ s' w, ∃ fr' frames', seal_ok frames' s' ∧ on (mkLedger Live fr' (Opening frames') Idle) L w).
Proof.
  induction refs as [|ref rest IH]; intros fr frames s Hs; cbn [frame_all refs_loop].
  { apply spec_ret. eauto. }
  eapply spec_bind; [by apply spec_beat|]. intros ?.
  eapply spec_bind; [by apply spec_invoke|].
  intros [[|b0 b]|]; [by apply spec_raise| |by apply spec_raise].
  eapply spec_bind; [by apply spec_emit|]. intros ?. apply IH. destruct Hs as [Hn Hh]. split; cbn [sl_count sl_hashed].
  - rewrite Hn, length_app. cbn [length]. lia.
  - rewrite Hh, fmap_app, concat_app. cbn [fmap list_fmap concat]. by rewrite app_nil_r, (assoc_L (++)).
Qed.

Lemma spec_seal_loop hb lease validate L m : ∀ fr frames s, seal_ok frames s →
  spec (on (mkLedger Live fr (Opening frames) Idle) L) (seal_all m hb lease validate s)
    (λ s' w, ∃ fr' frames', seal_ok frames' s' ∧ on (mkLedger Live fr' (Opening frames') Idle) L w).
Proof.
  induction m as [|m IH]; intros fr frames s Hs; cbn [seal_all seal_loop]; [apply spec_running|].
  eapply spec_bind; [by apply spec_beat|]. intros ?.
  eapply spec_bind; [by apply spec_db_call|]. intros refs. cbn [established ld_stage moved ld_end ld_act].
  case_bool_decide; [apply spec_ret; eauto|].
  eapply spec_bind; [by apply spec_refs_loop|]. intros s'. do 2 (apply spec_exists; intros ?).
  intros w [Hs' Hw]. revert w Hw. case_match; [apply spec_ret; eauto|by apply IH].
Qed.

Lemma spec_seal hb lease L fr :
  spec (on (mkLedger Live fr (Opening []) Idle) L)
    (seal_trace_manifest sha256 db now stores owner lease_seconds heartbeat_seconds batch_size fuel hb lease)
    (λ _, on (mkLedger Live false Sealed Idle) L).
Proof.
  unfold seal_trace_manifest. case_match; [|by apply spec_raise]. case_match; [by apply spec_raise..|].
  eapply spec_bind; [by apply (spec_seal_loop hb lease _ L fuel fr [])|]. intros st. do 2 (apply spec_exists; intros ?).
  intros w [[Hn Hh] Hw]. revert w Hw. eapply spec_weaken; [done| |apply spec_db_call; [done..|]].
  - by intros u w Hw.
  - cbn. unfold manifest_digest. rewrite Hn, Hh, Z.eqb_refl. by rewrite bool_decide_true.
Qed.

(** ** The phases *)

Lemma at_revision_Ok lease rev ph lease' : at_revision lease rev ph = Ok lease' →
  el_phase lease' = ph ∧ el_scope lease' = el_scope lease ∧ el_project_id lease' = el_project_id lease.
Proof. unfold at_revision, lease_post_init. intros H. by rinv H. Qed.

(** The ledger [ld] is current, at a lease of this scope whose phase is [ph]. *)
Definition phased (ld : ledger) (ph : ErasurePhase → Prop) (w : world E) : Prop :=
  ∃ L, ((el_project_id L = project ∧ el_scope L = scope) ∧ ph (el_phase L)) ∧ on ld L w.

Lemma spec_phased {A} ld ph (m : eio E A) Q :
  (∀ L, el_project_id L = project ∧ el_scope L = scope → ph (el_phase L) → spec (on ld L) m Q) → spec (phased ld ph) m Q.
Proof. intros H. apply spec_exists. intros L w [[Hs Hp] Hw]. by apply (H L). Qed.

Lemma spec_advance ld L rev ph : ld_end ld ≠ Over → el_project_id L = project ∧ el_scope L = scope →
  spec (on ld L) (advance rev ph) (λ _, phased ld (λ p, p = ph)).
Proof.
  intros He Hs. eapply spec_bind; [apply spec_get_lease|]. intros L0 w [-> Hw]. revert w Hw.
  apply spec_check; [done|]. intros L' (Hp & Hs' & Hp')%at_revision_Ok.
  eapply spec_weaken; [done| |apply spec_set_lease]. intros ? w Hw. exists L'. split; [|exact Hw]. by rewrite Hs', Hp'.
Qed.

Let purge_all := primary_loop db now owner lease_seconds heartbeat_seconds batch_size.

Lemma spec_primary_loop hb quick m : ∀ fr,
  spec (phased (mkLedger Live fr (Purging quick) Idle) (λ _, True)) (purge_all m hb quick)
    (λ _, phased (mkLedger Live false (Passing quick [] None) Idle)
            (λ p, p = if quick then external_purged else primary_purged)).
Proof.
  induction m as [|m IH]; intros fr; apply spec_phased; intros L Hs _; cbn [purge_all primary_loop]; [apply spec_running|].
  eapply spec_bind; [apply spec_set_step|]. intros ?. eapply spec_bind; [by apply spec_beat|]. intros ?.
  eapply spec_bind; [apply spec_get_lease|]. intros L0 w [-> Hw]. revert w Hw.
  eapply spec_bind; [by apply spec_db_call|]. intros b. cbn [established ld_stage].
  destruct (pb_remaining b =? 0); [by apply spec_advance|].
  eapply spec_bind; [by apply spec_advance|]. intros ?. eapply spec_weaken; [| |apply IH].
  - intros w (L' & [? _] & Hw). exists L'. split; [done|exact Hw].
  - done.
Qed.

Let stores_all := stores_loop sha256 db now stores owner lease_seconds heartbeat_seconds batch_size external_timeout_seconds fuel.
Context (Hstores : ∀ c s, stores c = Some s → HonestStore s).

Lemma spec_stores_loop hb quick codes : ∀ closed fr, closed ++ codes = manifest →
  spec (phased (mkLedger Live fr (Passing quick closed None) Idle) (λ _, True)) (stores_all hb codes)
    (λ _ w, ∃ fr', phased (mkLedger Live fr' (Passing quick manifest None) Idle) (λ _, True) w).
Proof.
  induction codes as [|code codes IH]; intros closed fr Hm; cbn [stores_all stores_loop].
  { rewrite app_nil_r in Hm. subst closed. apply spec_ret. eauto. }
  apply spec_phased. intros L Hs _.
  eapply spec_bind; [apply spec_set_step|]. intros ?. eapply spec_bind; [by apply spec_beat|]. intros ?.
  eapply spec_bind; [apply spec_get_lease|]. intros L0 w [-> Hw]. revert w Hw.
  eapply spec_bind; [apply spec_external_store; [done|apply Hs|apply Hs|]|].
  { by rewrite <- Hm, lookup_app_r, Nat.sub_diag by done. }
  intros o. eapply spec_bind; [by apply spec_advance|]. intros ?.
  eapply spec_weaken; [| |apply (IH (closed ++ [code]))].
  - intros w (L' & [? _] & Hw). exists L'. split; [done|exact Hw].
  - done.
  - by rewrite <- (assoc_L (++)).
Qed.

(** What each block of the body leaves. *)
Definition sealed_pass (w : world E) : Prop :=
  ∃ fr st, (st = Opening [] ∧ phased (mkLedger Live fr st Idle) (λ p, p ∉ [crypto_erased; primary_purged; external_purged]) w)
    ∨ ∃ quick, st = Passing quick [] None
      ∧ phased (mkLedger Live fr st Idle) (λ p, p = if quick then external_purged else primary_purged) w.

Definition may_complete (ld : ledger) : Prop :=
  ld_end ld = Live ∧ permitted sha256 manifest scope ld VerifyAndComplete = true.

Definition external_pass (w : world E) : Prop :=
  ∃ ld L, (ld_end ld = Live ∧ (el_phase L = external_purged → may_complete ld)) ∧ on ld L w.

Lemma spec_crypto_block fr :
  spec (phased (mkLedger Live fr (Opening []) Idle) (λ _, True)) (crypto_block db owner)
    (λ _ w, ∃ fr', phased (mkLedger Live fr' (Opening []) Idle) (λ _, True) w).
Proof.
  apply spec_phased. intros L Hs _. unfold crypto_block.
  eapply spec_bind; [apply spec_get_lease|]. intros L0 w [-> Hw]. revert w Hw. case_bool_decide.
  - eapply spec_bind; [apply spec_set_step|]. intros ?. eapply spec_bind; [by apply spec_db_call|]. intros o.
    eapply spec_weaken; [done| |by apply spec_advance]. intros ? w (L' & [? _] & Hw). exists false, L'. split; [done|exact Hw].
  - apply spec_ret. intros w Hw. exists fr, L. done.
Qed.

Lemma spec_primary_block hb fr :
  spec (phased (mkLedger Live fr (Opening []) Idle) (λ _, True))
    (primary_block sha256 db now stores owner lease_seconds heartbeat_seconds batch_size fuel hb) (λ _, sealed_pass).
Proof.
  apply spec_phased. intros L Hs _. unfold primary_block.
  eapply spec_bind; [apply spec_get_lease|]. intros L0 w [-> Hw]. revert w Hw. case_bool_decide.
  - eapply spec_bind; [apply spec_set_step|]. intros ?. eapply spec_bind; [apply spec_seal|]. intros ?.
    eapply spec_bind; [apply spec_set_step|]. intros ?. eapply spec_bind; [by apply spec_db_call|]. intros o.
    cbn [established]. eapply spec_bind; [by apply spec_advance|]. intros ?. apply spec_phased. intros L' Hs' Hp'.
    eapply spec_bind; [apply spec_get_lease|]. intros L1 w [-> Hw]. rewrite Hp'. set (quick := _ && _).
    revert w Hw. eapply spec_weaken; [| |apply (spec_primary_loop hb quick fuel false)].
    + intros w Hw. by exists L'.
    + intros ? w Hw. exists false, (Passing quick [] None). right. exists quick. done.
  - apply spec_ret. intros w Hw. exists fr, (Opening []). left. split; [done|]. by exists L.
Qed.

Lemma spec_stores_block hb :
  spec sealed_pass
    (stores_block sha256 db now stores manifest owner lease_seconds heartbeat_seconds batch_size external_timeout_seconds fuel hb)
    (λ _, external_pass).
Proof.
  unfold stores_block. do 2 (apply spec_exists; intros ?). intros w H. destruct H as [[-> (L & [Hs Hp] & Hw)]|(quick & -> & L & [Hs Hp] & Hw)].
  - revert w Hw. eapply spec_bind; [apply spec_get_lease|]. intros L0 w [-> Hw]. revert w Hw.
    rewrite bool_decide_false by (intros He; apply Hp; rewrite He; set_solver).
    apply spec_ret. intros w Hw. eexists _, L. split; [|exact Hw]. split; [done|]. intros He. destruct Hp. rewrite He. set_solver.
  - revert w Hw. eapply spec_bind; [apply spec_get_lease|]. intros L0 w [-> Hw]. revert w Hw.
    destruct quick; rewrite Hp.
    + apply spec_ret. intros w Hw. eexists _, L. split; [|exact Hw]. by repeat split.
    + eapply spec_weaken; [| |apply (spec_stores_loop hb false manifest []); done].
      * intros w Hw. by exists L.
      * intros ? w (fr' & L' & [? _] & Hw). eexists _, L'. split; [|exact Hw]. repeat split. cbn. by apply bool_decide_true.
Qed.

(** A return is the answer of the last, completing call, or the database had already
    completed the request. *)
Definition completed (o : StepOutcome) (w : world E) : Prop :=
  last (w_log w) = Some (Db VerifyAndComplete (Ok (AnOutcome o)))
  ∨ so_phase o = scope_complete ∧ ∃ ld L, ld_end ld = Live ∧ on ld L w.

Lemma spec_final_block : spec external_pass (final_block db owner) (λ o w, follows sha256 manifest project scope w ∧ completed o w).
Proof.
  apply spec_exists. intros ld. apply spec_exists. intros L w [[Hlive Hc] Hw]. revert w Hw. unfold final_block.
  eapply spec_bind; [apply spec_get_lease|]. intros L0 w [-> Hw]. revert w Hw. case_bool_decide as Hp.
  { destruct (Hc Hp) as [_ Hperm]. eapply spec_bind; [apply spec_set_step|]. intros u w Hw.
    pose proof (spec_db_call (E := E) sha256 manifest project scope ld L VerifyAndComplete AnOutcome
      (db_verify_and_complete db L owner) Hlive eq_refl Hperm w Hw) as H.
    revert H. unfold db_call. destruct (db_verify_and_complete _ _ _ _) as [[o|e] x]; [|done].
    intros H. split; [by eexists _, L|]. left. cbn. by rewrite last_snoc. }
  case_bool_decide.
  { apply spec_of_result; [by rewrite Hlive|]. intros o Ho w Hw. split; [by exists ld, L|]. right.
    split; [|by exists ld, L]. unfold step_outcome_post_init in Ho. by rinv Ho. }
  eapply spec_bind; [apply spec_get_step|]. intros step w Hw. unfold bind, db_call, raise.
  destruct (db_fail _ _ _ _ _ _ _) as [r x].
  assert (Hstep : ledger_step sha256 manifest project scope ld (Db (Fail step retryable closure_changed) (answered (λ _, Nothing) r))
    = Some (receipted ld (answered (λ _, Nothing) r))) by (unfold ledger_step; by rewrite Hlive).
  pose proof (on_snoc ld L w _ _ Hw Hstep x (w_next w) (w_step w)) as Hon. destruct r as [u|e].
  - by eexists _, L.
  - eexists _, L. split; [exact Hon|]. intros He. cbn. by rewrite bool_decide_false.
Qed.

Let body := run_body sha256 db now stores manifest owner lease_seconds heartbeat_seconds batch_size external_timeout_seconds fuel.
Let go := run_lease sha256 db now stores manifest owner lease_seconds heartbeat_seconds batch_size external_timeout_seconds fuel.

Lemma spec_run_body hb fr :
  spec (phased (mkLedger Live fr (Opening []) Idle) (λ _, True)) (body hb)
    (λ o w, follows sha256 manifest project scope w ∧ completed o w).
Proof.
  eapply spec_bind; [apply spec_crypto_block|]. intros ?. apply spec_exists. intros fr'.
  eapply spec_bind; [apply spec_primary_block|]. intros ?.
  eapply spec_bind; [apply spec_stores_block|]. intros ?. apply spec_final_block.
Qed.

Lemma handler_follows {A} e w : stopped sha256 manifest project scope e w →
  follows sha256 manifest project scope (run_handler (A := A) db owner e w).2.
Proof.
  intros (ld & L & Hw & He). unfold run_handler. destruct (receipt_of e) as [[r code]|] eqn:Hr; [|by exists ld, L].
  assert (ld_end ld ≠ Over) as Hend by (apply He; by intros ->). unfold bind, get_lease, get_step, db_call, raise.
  destruct (db_fail _ _ _ _ _ _ _) as [a x].
  assert (Hstep : ledger_step sha256 manifest project scope ld (Db (Fail (w_step w) r code) (answered (λ _, Nothing) a))
    = Some (receipted ld (answered (λ _, Nothing) a))) by (unfold ledger_step; by destruct (ld_end ld)).
  pose proof (on_snoc ld L w _ _ Hw Hstep x (w_next w) (w_step w)) as Hon.
  destruct a; by eexists _, L.
Qed.

(** The whole run. *)
Lemma run_follows lease w o w' : el_project_id lease = project ∧ el_scope lease = scope → w_log w = [] → go lease w = (o, w') →
  follows sha256 manifest project scope w' ∧ ∀ out, o = Done (Ok out) → completed out w'.
Proof.
  intros Hs Hlog. unfold go, run_lease, bind at 1, set_lease.
  assert (H0 : on ledger_init lease (mkWorld (w_env w) (w_next w) lease (w_step w) (w_log w))) by (split; cbn; [by rewrite Hlog|done]).
  unfold bind at 1. apply heartbeat_init_on in H0. destruct (heartbeat_init _ _ _) as [[[u|e]|] w1]; [| |done].
  2: { destruct H0 as [_ H0]. intros [= <- <-]. split; [by eexists _, _|done]. }
  unfold bind, set_step, catch.
  pose proof (spec_run_body lease false (mkWorld (w_env w1) (w_next w1) (w_lease w1) step_crypto (w_log w1))) as Hb.
  specialize (Hb ltac:(exists lease; split; [done|apply H0])). fold body.
  destruct (body lease _) as [[[out|e]|] w2].
  - intros [= <- <-]. destruct Hb as [Hf Hc]. split; [done|]. by intros o' [= <-].
  - apply (handler_follows (A := StepOutcome)) in Hb. intros Heq. rewrite Heq in Hb. split; [done|].
    intros out ->. exfalso. revert Heq. unfold run_handler.
    destruct (receipt_of e) as [[r code]|]; [|done]. unfold bind, get_lease, get_step, db_call, raise.
    by destruct (db_fail _ _ _ _ _ _ _) as [[] ?].
  - by intros [= <- <-].
Qed.
End Refines.

(** ** What the protocol gives *)

(** Turn the boolean tests of the protocol that hold into facts. *)
Ltac facts :=
  bsplit;
  repeat match goal with H : bool_decide _ = true |- _ => apply bool_decide_eq_true in H end.

Section Consequences.
Context (sha256 : pybytes → pybytes) (manifest : list ExternalStoreCode) (project : uuid) (scope : ErasureScope).

Lemma ledger_run_app ld l1 l2 :
  ledger_run sha256 manifest project scope ld (l1 ++ l2) =
  ledger_run sha256 manifest project scope ld l1 ≫= λ ld', ledger_run sha256 manifest project scope ld' l2.
Proof.
  revert ld. induction l1 as [|ev l1 IH]; intros ld; [done|]. cbn [app ledger_run].
  destruct (ledger_step _ _ _ _ ld ev) as [ld'|]; [apply IH|done].
Qed.

Lemma over_is_final ld l : ld_end ld = Over → is_Some (ledger_run sha256 manifest project scope ld l) → l = [].
Proof. intros Hend [ld' H]. destruct l as [|ev l]; [done|]. cbn in H. unfold ledger_step in H. by rewrite Hend in H. Qed.

Lemma lost_is_over ld ev ld' : lost ev = true → ledger_step sha256 manifest project scope ld ev = Some ld' → ld_end ld' = Over.
Proof.
  intros Hlost. unfold ledger_step. destruct ev as [|op [a|e]| | | |]; try done; [by destruct op|].
  destruct (ld_end ld); [|destruct op; try done..|done].
  - destruct op; cbn in Hlost |- *; unfold receipted; rewrite ?Hlost; repeat (case_match; try done); by intros [= <-].
  - cbn in Hlost |- *. unfold receipted. rewrite Hlost. by intros [= <-].
Qed.

Lemma lost_is_last l1 ev l2 :
  is_Some (ledger_run sha256 manifest project scope ledger_init (l1 ++ ev :: l2)) → lost ev = true → l2 = [].
Proof.
  intros H Hlost. rewrite ledger_run_app in H. destruct (ledger_run _ _ _ _ ledger_init l1) as [ld|]; [|by destruct H].
  cbn in H. destruct (ledger_step _ _ _ _ ld ev) as [ld'|] eqn:Hs; [|by destruct H].
  eapply over_is_final; [|exact H]. by eapply lost_is_over.
Qed.

(** ** The evidence behind a mark *)

Definition heartbeat_event (ev : event) : Prop := ev = Beat ∨ ∃ r, ev = Db Renew r.
Definition during (c : ExternalStoreCode) (ev : event) : Prop := heartbeat_event ev ∨ ev = Io c.

(** The log ends in one finished operation, and heartbeats. *)
Definition finished (c : ExternalStoreCode) (m : method) (t : target) (s : StoreResult) (l0 l : list event) : Prop :=
  ∃ io beats, l = l0 ++ Begin c m project t :: io ++ Finish c m project t (AStoreResult s) :: beats
    ∧ Forall (during c) io ∧ Forall heartbeat_event beats.

Definition under_way (c : ExternalStoreCode) (m : method) (t : target) (l0 l : list event) : Prop :=
  ∃ io, l = l0 ++ Begin c m project t :: io ∧ Forall (during c) io.

Definition current (ld : ledger) : option drain_state :=
  match ld_stage ld with Passing _ _ cur => cur | _ => None end.

Definition erased_before (ld : ledger) (c : ExternalStoreCode) (t : target) (l : list event) : Prop :=
  (∃ l0 s, finished c Erase t s l0 l) ∨ dr_todo <$> current ld = Some [].

(** What the log shows, by the activity the ledger has. *)
Definition evidence (l : list event) (ld : ledger) : Prop :=
  match ld_act ld with
  | Idle => True
  | Busy c m t =>
      dr_code <$> current ld = Some c ∧
      ∃ l0, under_way c m t l0 l ∧ (m = Verify → erased_before ld c t l0)
  | Erased t => ∃ c l0 s, dr_code <$> current ld = Some c ∧ finished c Erase t s l0 l
  | Proved t r => ∃ c l0, dr_code <$> current ld = Some c ∧ finished c Verify t r l0 l ∧ erased_before ld c t l0
  end.

Lemma finished_snoc c m t s l0 l ev : heartbeat_event ev → finished c m t s l0 l → finished c m t s l0 (l ++ [ev]).
Proof.
  intros Hev (io & beats & -> & Hio & Hb). exists io, (beats ++ [ev]). split_and!; [|done|].
  - by rewrite <- !(assoc_L (++)); cbn; rewrite <- !(assoc_L (++)).
  - by apply Forall_app; split; [|constructor].
Qed.

Lemma under_way_snoc c m t l0 l ev : during c ev → under_way c m t l0 l → under_way c m t l0 (l ++ [ev]).
Proof.
  intros Hev (io & -> & Hio). exists (io ++ [ev]). split; [by rewrite <- (assoc_L (++))|].
  by apply Forall_app; split; [|constructor].
Qed.

(** A heartbeat keeps the evidence. *)
Lemma evidence_beat l ld ld' ev : heartbeat_event ev → ld_stage ld' = ld_stage ld → ld_act ld' = ld_act ld →
  evidence l ld → evidence (l ++ [ev]) ld'.
Proof.
  intros Hev Hst Hact. unfold evidence, erased_before, current. rewrite Hst, Hact.
  destruct (ld_act ld) as [|c m t|t|t r]; [done|..].
  - intros (Hc & l0 & Hu & He). split; [done|]. exists l0. split; [|done]. apply under_way_snoc; [by left|done].
  - intros (c & l0 & s & Hc & Hf). exists c, l0, s. split; [done|]. by apply finished_snoc.
  - intros (c & l0 & Hc & Hf & He). exists c, l0. split_and!; [done| |done]. by apply finished_snoc.
Qed.

Lemma evidence_outside l ld : current ld = None → evidence l ld → ld_act ld = Idle.
Proof.
  unfold evidence. intros ->. destruct (ld_act ld); [done|..]; cbn; naive_solver.
Qed.

(** A database call that worked leaves no operation and no proof behind. *)
Lemma established_idle l ld op a : working op = true → permitted sha256 manifest scope ld op = true →
  evidence l ld → ld_end (established sha256 ld op a) = Live → ld_act (established sha256 ld op a) = Idle.
Proof.
  intros Hop Hperm He. assert (Hout : current ld = None → ld_act ld = Idle) by (intros H; by apply (evidence_outside l)).
  unfold current in Hout. destruct op; try done; cbn in Hperm |- *; destruct (ld_stage ld) eqn:Hst;
    try done; try (rewrite andb_false_r in Hperm; done); destruct a; cbn; try done; try (intros _; by apply Hout).
  all: facts; repeat case_match; done.
Qed.

Lemma evidence_step l ld ev ld' : ledger_step sha256 manifest project scope ld ev = Some ld' → ld_end ld' = Live →
  (ld_end ld = Live → evidence l ld) → ld_end ld = Live ∧ evidence (l ++ [ev]) ld'.
Proof.
  intros Hs Hlive' He. destruct (ld_end ld) eqn:Hlive.
  2: { unfold ledger_step in Hs. rewrite Hlive in Hs. destruct ev as [|[] a| | | |]; try done.
       injection Hs as <-. exfalso. revert Hlive'. unfold receipted. cbn. repeat case_match; done. }
  2: { unfold ledger_step in Hs. by rewrite Hlive in Hs. }
  specialize (He eq_refl). split; [done|]. unfold ledger_step in Hs. rewrite Hlive in Hs.
  destruct ev as [|op r|f|c m p t|c|c m p t r].
  - injection Hs as <-. apply (evidence_beat l ld); [by left|done..].
  - destruct (working op) eqn:Hop.
    + assert (Hdb : permitted sha256 manifest scope ld op = true ∧ ∃ a, ld' = established sha256 ld op a).
      { destruct r as [a|e].
        - destruct op; try done; destruct (permitted _ _ _ _ _); try done; (split; [done|]); exists a; by injection Hs as <-.
        - exfalso. destruct op; try done; destruct (permitted _ _ _ _ _); try done; injection Hs as <-;
            revert Hlive'; cbn; case_match; done. }
      destruct Hdb as [Hperm [a ->]]. unfold evidence. by rewrite (established_idle l).
    + destruct op; try done.
      * apply (evidence_beat l ld); [right; by exists r|..|done]; destruct r as [a|e]; repeat case_match; by injection Hs as <-.
      * injection Hs as <-. exfalso. revert Hlive'. unfold receipted. cbn. repeat case_match; done.
  - destruct (ld_stage ld); try done. destruct (ld_fresh ld); [|done]. by injection Hs as <-.
  - case_bool_decide; [subst p|done]. cbn [andb] in Hs. destruct (may_begin _ _ _ _ _) eqn:Hb; [|done]. injection Hs as <-. unfold may_begin in Hb. unfold evidence, erased_before, current in *.
    cbn [ld_act moved ld_stage]. apply andb_true_iff in Hb as [_ Hb].
    destruct (ld_stage ld) as [| | |q closed [d|]]; try done. apply andb_true_iff in Hb as [Hc Hb].
    apply bool_decide_eq_true in Hc as <-. split; [done|]. exists l. split; [by exists []|]. intros ->.
    apply orb_true_iff in Hb as [Hb|Hb]; facts.
    + rewrite Hb in He. left. destruct He as (c & l0 & s & Hc & Hf). injection Hc as <-. eauto.
    + right. cbn. by f_equal.
  - destruct (ld_act ld) as [|c' m t|t|t r] eqn:Hact; try done. case_bool_decide; [|done]. subst c'. injection Hs as <-.
    unfold evidence in *. cbn [set_fresh ld_act]. rewrite Hact in *. destruct He as (Hc & l0 & Hu & Hv). split; [done|]. exists l0. split; [|done]. apply under_way_snoc; [by right|done].
  - case_bool_decide; [subst p|done]. cbn [andb] in Hs. case_bool_decide as Hact; [|done]. injection Hs as <-. unfold evidence in He. rewrite Hact in He.
    destruct He as (Hc & l0 & (io & -> & Hio) & Hv). destruct r as [s|]; [|done].
    assert (Hfin : finished c m t s l0 ((l0 ++ Begin c m project t :: io) ++ [Finish c m project t (AStoreResult s)])).
    { exists io, []. split_and!; [by rewrite <- (assoc_L (++))|done|constructor]. }
    unfold evidence. destruct m; cbn; [by exists c, l0, s|]. exists c, l0. split_and!; [done..|by apply Hv].
Qed.

Lemma evidence_run l ld : ledger_run sha256 manifest project scope ledger_init l = Some ld → ld_end ld = Live → evidence l ld.
Proof.
  revert ld. induction l as [|ev l IH] using rev_ind; intros ld H Hlive; [by injection H as <-|].
  rewrite ledger_run_snoc in H. destruct (ledger_run _ _ _ _ ledger_init l) as [ld0|] eqn:Hl; [|done].
  by destruct (evidence_step l ld0 ev ld H Hlive (IH ld0 eq_refl)).
Qed.

(** A permitted mark has the deletion and the independent proof right before it. *)
Lemma mark_evidence l1 c work r a l2 :
  is_Some (ledger_run sha256 manifest project scope ledger_init (l1 ++ Db (MarkExternalWork c work r) a :: l2)) →
  ∃ t s l0 l0', target_of work = Some t ∧ finished c Erase t s l0 l0' ∧ finished c Verify t r l0' l1.
Proof.
  rewrite ledger_run_app. destruct (ledger_run _ _ _ _ ledger_init l1) as [ld|] eqn:Hl; [|by intros []]. cbn. intros [ld' H].
  destruct (ledger_step _ _ _ _ ld _) as [ld1|] eqn:Hs; [|done]. clear H. unfold ledger_step in Hs.
  destruct (ld_end ld) eqn:Hlive; try done. apply evidence_run in Hl; [|done]. unfold evidence, erased_before, current in Hl.
  destruct (permitted _ _ _ _ _) eqn:Hp; [|done]. cbn in Hp. bsplit.
  destruct (ld_stage ld) as [| | |q closed [d|]]; try done. destruct (ld_act ld) as [| | |t p]; try done.
  facts. subst. destruct Hl as (c' & l0 & Hc & Hf & [(l00 & s & He)|He]); injection Hc as <-.
  - exists t, s, l00, l0. done.
  - cbn in He. injection He as He. by rewrite He in *.
Qed.

(** ** The pass behind a completion *)

Definition closes (l : list event) : list ExternalStoreCode :=
  omap (λ ev, match ev with Db (CloseExternalStep c _ _) (Ok _) => Some c | _ => None end) l.

(** The database had every store checkpointed, and found no work for this revision. *)
Definition prepared_clean (l : list event) : Prop :=
  ∃ o, Db PreparePrimary (Ok (AnOutcome o)) ∈ l ∧ so_phase o = external_purged ∧ so_affected_rows o ≤ 0.
Definition primary_empty (l : list event) : Prop :=
  ∃ b, Db PrimaryBatchOp (Ok (ABatch b)) ∈ l ∧ pb_remaining b = 0.

Definition progress (l : list event) (ld : ledger) : Prop :=
  match ld_stage ld with
  | Opening _ | Sealed => closes l = []
  | Purging q => closes l = [] ∧ (q = true → prepared_clean l)
  | Passing q closed _ => closes l = closed ∧ (q = true → prepared_clean l) ∧ primary_empty l
  end.

Lemma closes_app l k : closes (l ++ k) = closes l ++ closes k.
Proof. apply omap_app. Qed.

Lemma prepared_clean_app l k : prepared_clean l → prepared_clean (l ++ k).
Proof. intros (o & Ho & H). exists o. split; [|done]. apply elem_of_app. by left. Qed.

Lemma primary_empty_app l k : primary_empty l → primary_empty (l ++ k).
Proof. intros (b & Hb & H). exists b. split; [|done]. apply elem_of_app. by left. Qed.

(** Events that do not move the stage, and close nothing. *)
Lemma progress_keep l ld ev ld' : ld_stage ld' = ld_stage ld → closes [ev] = [] →
  progress l ld → progress (l ++ [ev]) ld'.
Proof.
  intros Hst Hev. unfold progress. rewrite Hst, closes_app, Hev, app_nil_r.
  destruct (ld_stage ld); [done..| |]; naive_solver (auto using prepared_clean_app, primary_empty_app).
Qed.

Lemma progress_established l ld op a : working op = true → permitted sha256 manifest scope ld op = true →
  progress l ld → progress (l ++ [Db op (Ok a)]) (established sha256 ld op a).
Proof.
  intros Hop Hperm Hp.
  destruct op as [| | |rev n dig| | |c|c wk r|c n r| |]; try done; cbn in Hperm.
  1,2,9: apply (progress_keep l ld); [|done..]; cbn; by destruct a, (ld_stage ld).
  all: destruct (ld_stage ld) as [frames| |q|q closed cur] eqn:Hst; rewrite ?andb_false_r in Hperm; try done.
  all: unfold progress in *; cbn [established]; rewrite Hst in *; rewrite closes_app; cbn [closes omap list_omap].
  all: destruct a as [|o|b|ws]; try (destruct cur as [d|]); cbn; rewrite ?app_nil_r, ?Hst; try done.
  all: try (destruct Hp as (<- & Hq & Hb); split_and!; [done|auto using prepared_clean_app|by apply primary_empty_app]).
  1: { split; [done|]. intros H. facts. exists o. split; [apply elem_of_app; right; by left|].
       split; [done|]. by apply Z.ltb_ge. }
  all: destruct Hp as [Hc Hq]; try (split; [done|auto using prepared_clean_app]).
  destruct (Z.eqb_spec (pb_remaining b) 0); [|split; [done|auto using prepared_clean_app]].
  split_and!; [done|auto using prepared_clean_app|]. exists b. split; [apply elem_of_app; right; by left|done].
Qed.

Lemma progress_step l ld ev ld' : ledger_step sha256 manifest project scope ld ev = Some ld' → progress l ld → progress (l ++ [ev]) ld'.
Proof.
  intros Hs Hp. unfold ledger_step in Hs. destruct (ld_end ld); [|destruct ev as [|[] r| | | |]; try done..].
  2: { apply (progress_keep l ld); [|done..]. by injection Hs as <-. }
  destruct ev as [|op r|f|c m p t|c|c m p t r].
  - apply (progress_keep l ld); [|done..]. by injection Hs as <-.
  - destruct (working op) eqn:Hop.
    + destruct r as [a|e].
      * assert (permitted sha256 manifest scope ld op = true ∧ ld' = established sha256 ld op a) as [Hperm ->].
        { destruct op; try done; destruct (permitted _ _ _ _ _); try done; by injection Hs as <-. }
        by apply progress_established.
      * apply (progress_keep l ld); [|by destruct op|done]. destruct op; try done; destruct (permitted _ _ _ _ _); try done; by injection Hs as <-.
    + apply (progress_keep l ld); [|by destruct op|done]. destruct op; try done; destruct r; repeat case_match; by injection Hs as <-.
  - destruct (ld_stage ld) eqn:Hst; try done. destruct (ld_fresh ld); [|done]. injection Hs as <-.
    unfold progress in *. rewrite Hst in Hp. cbn [moved ld_stage]. by rewrite closes_app, app_nil_r.
  - destruct (_ && _); [|done]. apply (progress_keep l ld); [|done..]. by injection Hs as <-.
  - destruct (ld_act ld); try done. case_match; [|done]. apply (progress_keep l ld); [|done..]. by injection Hs as <-.
  - destruct (_ && _); [|done]. apply (progress_keep l ld); [|done..]. injection Hs as <-. by destruct r.
Qed.

Lemma progress_run l ld : ledger_run sha256 manifest project scope ledger_init l = Some ld → progress l ld.
Proof.
  revert ld. induction l as [|ev l IH] using rev_ind; intros ld H; [by injection H as <-|].
  rewrite ledger_run_snoc in H. destruct (ledger_run _ _ _ _ ledger_init l) as [ld0|] eqn:Hl; [|done].
  by apply (progress_step l ld0 ev ld H), IH.
Qed.

Lemma completion_evidence l1 a l2 :
  is_Some (ledger_run sha256 manifest project scope ledger_init (l1 ++ Db VerifyAndComplete a :: l2)) →
  primary_empty l1 ∧ (closes l1 = manifest ∨ closes l1 = [] ∧ prepared_clean l1).
Proof.
  rewrite ledger_run_app. destruct (ledger_run _ _ _ _ ledger_init l1) as [ld|] eqn:Hl; [|by intros []]. cbn. intros [ld' H].
  destruct (ledger_step _ _ _ _ ld _) as [ld1|] eqn:Hs; [|done]. clear H. unfold ledger_step in Hs.
  destruct (ld_end ld); try done. apply progress_run in Hl. unfold progress in Hl.
  destruct (permitted _ _ _ _ _) eqn:Hp; [|done]. cbn in Hp. destruct (ld_stage ld) as [| | |q closed [d|]]; try done.
  destruct Hl as (<- & Hq & Hb). split; [done|]. apply orb_true_iff in Hp as [Hp|Hp]; facts; auto.
Qed.

(** Once a receipt was attempted, only receipts follow, and none after one was written. *)
Lemma after_receipt ld l ld' : ld_end ld ≠ Live → ledger_run sha256 manifest project scope ld l = Some ld' →
  ld_end ld' ≠ Live ∧ ∀ ev, ev ∈ l → ∃ step r c a, ev = Db (Fail step r c) a.
Proof.
  revert ld. induction l as [|ev l IH]; intros ld Hend H; cbn in H.
  { injection H as <-. split; [done|]. by intros ev ?%elem_of_nil. }
  destruct (ledger_step _ _ _ _ ld ev) as [ld1|] eqn:Hs; [|done].
  assert (∃ step r c a, ev = Db (Fail step r c) a ∧ ld1 = receipted ld a) as (step & r & c & a & -> & ->).
  { unfold ledger_step in Hs. destruct (ld_end ld), ev as [|[] a| | | |]; try done. injection Hs as <-. eauto 10. }
  apply IH in H as [Hl Hev].
  - split; [done|]. intros ev [-> |?]%elem_of_cons; eauto 10.
  - unfold receipted. cbn. repeat case_match; done.
Qed.

Lemma receipt_is_last l1 step r c a l2 ld' :
  ledger_run sha256 manifest project scope ledger_init (l1 ++ Db (Fail step r c) a :: l2) = Some ld' →
  ld_end ld' ≠ Live ∧ (∀ ev, ev ∈ l2 → ∃ step r c a, ev = Db (Fail step r c) a) ∧ (is_ok a = true → l2 = []).
Proof.
  rewrite ledger_run_app. destruct (ledger_run _ _ _ _ ledger_init l1) as [ld|]; [|done]. cbn. intros H.
  assert (Hs : ledger_step sha256 manifest project scope ld (Db (Fail step r c) a) = Some (receipted ld a)).
  { unfold ledger_step in *. by destruct (ld_end ld). }
  rewrite Hs in H. cbn in H. pose proof H as [Hend Hl2]%after_receipt; [|unfold receipted; cbn; repeat case_match; done].
  split_and!; [done..|]. intros Ha. eapply over_is_final; [|eexists; exact H]. by destruct a.
Qed.
End Consequences.

(** ** The operations behind the labels

    A label of the log is the execution it names: where the log shows that an operation on a
    target returned an answer, the method of the configured adapter for it ran on the project
    and the target named, returned that answer, and made the calls logged in between. *)

Definition plain (ev : event) : Prop :=
  match ev with Begin _ _ _ _ | Finish _ _ _ _ _ => False | _ => True end.

Section Genuine.
Context {E : Type} (db : ErasureDb E) (now : E → float * E) (stores : ExternalStoreCode → option (Store E)) (owner : pystr)
  (lease_seconds heartbeat_seconds : Z) (external_timeout_seconds : float) (hb : ErasureLease).

Let beat := before_side_effect db now owner lease_seconds heartbeat_seconds hb.

(** The method ran on its arguments, from a world whose log was [pre], returned [r] and left [io]. *)
Definition performed {Args} (code : ExternalStoreCode) (a : attribute (store_operation E Args)) (args : Args) (r : reply)
    (pre io : list event) : Prop :=
  ∃ o w1 w2, a = Method o
    ∧ run_prog now code (if op_accepts_progress o then Some beat else None) (op_body o args external_timeout_seconds) w1
      = (Done (Ok r), w2)
    ∧ w_log w1 = pre ∧ w_log w2 = pre ++ io.

Definition deleted (code : ExternalStoreCode) (port : Store E) (project : uuid) (t : target) (r : reply) (pre io : list event) : Prop :=
  match t with
  | RunTarget run => performed code (erase_run port) (project, run) r pre io
  | ProjectTarget => performed code (erase_project port) project r pre io
  end.

Definition proved_absent (code : ExternalStoreCode) (port : Store E) (project : uuid) (t : target) (r : reply) (pre io : list event)
  : Prop :=
  match t with
  | RunTarget run => performed code (verify_run_absent port) (project, run) r pre io
  | ProjectTarget => performed code (verify_project_absent port) project r pre io
  end.

Definition operated (code : ExternalStoreCode) (port : Store E) (m : method) : uuid → target → reply → list event → list event → Prop :=
  match m with Erase => deleted code port | Verify => proved_absent code port end.

Definition genuine (l : list event) : Prop :=
  ∀ pre c m p t r post, l = pre ++ Finish c m p t r :: post →
  ∃ port l0 io, stores c = Some port ∧ pre = l0 ++ Begin c m p t :: io ∧ Forall plain io
    ∧ operated c port m p t r (l0 ++ [Begin c m p t]) io.

Lemma genuine_snoc l ev : genuine l →
  (∀ c m p t r, ev = Finish c m p t r → ∃ port l0 io, stores c = Some port ∧ l = l0 ++ Begin c m p t :: io ∧ Forall plain io
    ∧ operated c port m p t r (l0 ++ [Begin c m p t]) io) →
  genuine (l ++ [ev]).
Proof.
  intros Hl Hev pre c m p t r post. destruct post as [|x post _] using rev_ind.
  - intros [-> ->]%app_inj_tail. by apply Hev.
  - rewrite app_comm_cons, app_assoc. intros [-> ->]%app_inj_tail. by eapply Hl.
Qed.

Lemma genuine_app l io : genuine l → Forall plain io → genuine (l ++ io).
Proof.
  intros Hl. induction io as [|ev io IH] using rev_ind; [by rewrite app_nil_r|]. intros [Hio Hev]%Forall_app. apply (proj1 (Forall_singleton _ _)) in Hev.
  rewrite app_assoc. apply genuine_snoc; [by apply IH|]. by intros c m p t r ->.
Qed.

(** Computations whose events name no operation. *)
Definition adds {A} (m : eio E A) : Prop := ∀ w, ∃ io, w_log (m w).2 = w_log w ++ io ∧ Forall plain io.

Lemma adds_none {A} (m : eio E A) : (∀ w, w_log (m w).2 = w_log w) → adds m.
Proof. intros H w. exists []. by rewrite H, app_nil_r. Qed.

Lemma adds_then {A B} (m : eio E A) (f : A → eio E B) (g : xerr → eio E B) : adds m → (∀ a, adds (f a)) → (∀ e, adds (g e)) →
  adds (λ w, match m w with
             | (Done (Ok a), w') => f a w' | (Done (Err e), w') => g e w' | (Running, w') => (Running, w') end).
Proof.
  intros Hm Hf Hg w. destruct (Hm w) as (io & Hio & Hp). destruct (m w) as [[[a|e]|] w1]; cbn in Hio; [| |by exists io].
  - destruct (Hf a w1) as (io' & Hio' & Hp'). exists (io ++ io'). by rewrite Hio', Hio, app_assoc, Forall_app.
  - destruct (Hg e w1) as (io' & Hio' & Hp'). exists (io ++ io'). by rewrite Hio', Hio, app_assoc, Forall_app.
Qed.

Lemma adds_bind {A B} (m : eio E A) (f : A → eio E B) : adds m → (∀ a, adds (f a)) → adds (bind m f).
Proof. intros Hm Hf. apply (adds_then m f raise); [done..|]. intros e. by apply adds_none. Qed.

Lemma adds_catch {A} (m : eio E A) h : adds m → (∀ e, adds (h e)) → adds (catch m h).
Proof.
  intros Hm Hh w. destruct (adds_then m ret h Hm (λ a, adds_none (ret a) (λ w, eq_refl)) Hh w) as (io & Hio & Hp).
  exists io. split; [|done]. rewrite <- Hio. unfold catch. by destruct (m w) as [[[]|] ?].
Qed.

Lemma adds_emit ev : plain ev → adds (emit ev).
Proof. intros Hev w. exists [ev]. split; [done|by repeat constructor]. Qed.

Lemma adds_db_call {A} op (to_answer : A → answer) f : adds (db_call op to_answer f).
Proof. intros w. unfold db_call. destruct (f (w_env w)) as [r e]. exists [Db op (answered to_answer r)]. by split; [|repeat constructor]. Qed.

Lemma adds_heartbeat : adds (heartbeat_init now heartbeat_seconds).
Proof.
  unfold heartbeat_init. apply adds_bind; [apply adds_none; intros w; unfold read; by destruct (now _)|intros t].
  apply adds_bind; [by apply adds_none|intros]. by apply adds_none.
Qed.

Lemma adds_beat : adds beat.
Proof.
  unfold beat, before_side_effect. apply adds_bind; [apply adds_none; intros w; unfold read; by destruct (now _)|intros t].
  apply adds_bind; [by apply adds_none|intros n]. destruct (_ <? _)%float; [by apply adds_emit|].
  apply adds_bind; [|intros; apply adds_heartbeat]. apply adds_catch; [apply adds_db_call|]. intros e. case_match; by apply adds_none.
Qed.

Lemma adds_run_prog {A} code hook (p : prog E A) : hook = None ∨ hook = Some beat → adds (run_prog now code hook p).
Proof.
  intros Hhook. induction p as [r| |k IH|k IH|B f k IH]; cbn [run_prog].
  - by apply adds_none.
  - by apply adds_none.
  - apply adds_bind; [apply adds_none; intros w; unfold read; by destruct (now _)|done].
  - destruct Hhook as [-> | ->]; [apply IH|]. intros w. destruct (adds_beat w) as (io & Hio & Hp).
    destruct (beat w) as [[r|] w1]; cbn in Hio; [|by exists io]. destruct (IH r w1) as (io' & Hio' & Hp').
    exists (io ++ io'). by rewrite Hio', Hio, app_assoc, Forall_app.
  - intros w. destruct (f (w_env w)) as [r e]. destruct (IH r (mkWorld e (w_next w) (w_lease w) (w_step w) (w_log w ++ [Io code]))) as (io & Hio & Hp).
    exists (Io code :: io). rewrite Hio. cbn. rewrite <- app_assoc. split; [done|by constructor].
Qed.

Definition keeps {A} (m : eio E A) : Prop := ∀ w, genuine (w_log w) → genuine (w_log (m w).2).

Lemma keeps_adds {A} (m : eio E A) : adds m → keeps m.
Proof. intros Hm w Hw. destruct (Hm w) as (io & -> & Hp). by apply genuine_app. Qed.

Lemma keeps_none {A} (m : eio E A) : (∀ w, w_log (m w).2 = w_log w) → keeps m.
Proof. intros H w Hw. by rewrite H. Qed.

Lemma keeps_bind {A B} (m : eio E A) (f : A → eio E B) : keeps m → (∀ a, keeps (f a)) → keeps (bind m f).
Proof. intros Hm Hf w Hw. specialize (Hm w Hw). unfold bind. destruct (m w) as [[[a|e]|] w1]; [by apply Hf|done..]. Qed.

Lemma keeps_catch {A} (m : eio E A) h : keeps m → (∀ e, keeps (h e)) → keeps (catch m h).
Proof. intros Hm Hh w Hw. specialize (Hm w Hw). unfold catch. destruct (m w) as [[[a|e]|] w1]; [done|by apply Hh|done]. Qed.

Lemma on_args_performed {Args} code (a : attribute (store_operation E Args)) args b r w1 w2 io :
  on_args a args = Method b →
  run_prog now code (if bc_accepts_progress b then Some beat else None) (bc_body b external_timeout_seconds) w1 = (Done (Ok r), w2) →
  w_log w2 = w_log w1 ++ io → performed code a args r (w_log w1) io.
Proof. destruct a as [| |o]; [done..|]. intros [= <-] Hrun Hl. by exists o, w1, w2. Qed.

Lemma keeps_call_store code port m p t : stores code = Some port →
  keeps (call_store db now owner lease_seconds heartbeat_seconds external_timeout_seconds hb code port m p t).
Proof.
  intros Hport w Hw. unfold call_store. destruct (store_method port m p t) as [| |b] eqn:Hb; [done..|].
  unfold bind at 1. cbn [emit]. set (w1 := mkWorld _ _ _ _ _).
  assert (Hw1 : genuine (w_log w1)) by (by apply genuine_snoc). fold beat.
  destruct (adds_run_prog code (if bc_accepts_progress b then Some beat else None) (bc_body b external_timeout_seconds)
    ltac:(destruct (bc_accepts_progress b); auto) w1) as (io & Hio & Hp).
  unfold bind at 1. destruct (run_prog _ _ _ _ w1) as [[[r|e]|] w2] eqn:Hrun; cbn [snd] in Hio |- *; [|rewrite Hio; by apply genuine_app..].
  unfold bind, emit, ret. cbn [snd w_log]. apply genuine_snoc; [rewrite Hio; by apply genuine_app|].
  intros c' m' p' t' r' [= <- <- <- <- <-]. exists port, (w_log w), io. split_and!; [done| |done|].
  - rewrite Hio. cbn [w1 w_log]. by rewrite <- app_assoc.
  - change (w_log w ++ [Begin code m p t]) with (w_log w1). destruct m, t; cbn in Hb; exact (on_args_performed code _ _ b r w1 w2 io Hb Hrun Hio).
Qed.
(** *** The whole run *)

Context (sha256 : pybytes → pybytes) (manifest : list ExternalStoreCode) (batch_size : Z) (fuel : nat).

Lemma keeps_beat : keeps beat.
Proof. apply keeps_adds, adds_beat. Qed.

Lemma keeps_db_call {A} op (to_answer : A → answer) f : keeps (db_call op to_answer f).
Proof. apply keeps_adds, adds_db_call. Qed.

Lemma keeps_invoke {A} (f : xport E A) : keeps (invoke f).
Proof. apply keeps_none. intros w. unfold invoke. by destruct (f _). Qed.

Lemma keeps_emit ev : plain ev → keeps (emit ev).
Proof. intros H. by apply keeps_adds, adds_emit. Qed.

Ltac keeps_tac :=
  repeat first
    [ apply keeps_beat | apply keeps_db_call | apply keeps_invoke | by apply keeps_call_store | by apply keeps_emit
    | by apply keeps_none
    | apply keeps_bind; [|intros] | apply keeps_catch; [|intros] | case_match ].

Lemma keeps_delete_and_verify code port p work : stores code = Some port →
  keeps (delete_and_verify db now owner lease_seconds heartbeat_seconds external_timeout_seconds hb code port p work).
Proof. intros Hport. unfold delete_and_verify, require_store_result. fold beat. keeps_tac. Qed.

Lemma keeps_work_loop lease code port batch : stores code = Some port → ∀ total aggregate,
  keeps (work_loop sha256 db now owner lease_seconds heartbeat_seconds external_timeout_seconds hb lease code port total aggregate batch).
Proof.
  intros Hport. induction batch as [|work rest IH]; intros total aggregate; cbn [work_loop]; [by apply keeps_none|].
  apply keeps_bind; [apply keeps_beat|intros]. apply keeps_bind; [by apply keeps_delete_and_verify|intros].
  apply keeps_bind; [apply keeps_beat|intros]. apply keeps_bind; [apply keeps_db_call|intros]. apply IH.
Qed.

Lemma keeps_drain_loop lease code port n : stores code = Some port → ∀ total aggregate,
  keeps (drain_loop sha256 db now owner lease_seconds heartbeat_seconds batch_size external_timeout_seconds n hb lease code port total aggregate).
Proof.
  intros Hport. induction n as [|n IH]; intros total aggregate; cbn [drain_loop]; [by apply keeps_none|].
  apply keeps_bind; [apply keeps_beat|intros]. apply keeps_bind; [apply keeps_db_call|intros]. case_match; [by apply keeps_none|].
  apply keeps_bind; [by apply keeps_work_loop|intros]. apply IH.
Qed.

Lemma keeps_external_store lease code :
  keeps (run_external_store sha256 db now stores owner lease_seconds heartbeat_seconds batch_size external_timeout_seconds fuel hb lease code).
Proof.
  unfold run_external_store. destruct (stores code) as [port|] eqn:Hport; [|by apply keeps_none].
  apply keeps_catch; [|intros; by apply keeps_none]. unfold external_store_body, verify_project_zero, require_store_result. fold beat.
  apply keeps_bind; [by apply keeps_drain_loop|intros]. keeps_tac.
Qed.

Lemma keeps_refs_loop lease validate refs : ∀ s, keeps (refs_loop db now owner lease_seconds heartbeat_seconds hb lease validate s refs).
Proof. induction refs as [|ref rest IH]; intros s; cbn [refs_loop]; fold beat; keeps_tac. apply IH. Qed.

Lemma keeps_seal_loop lease validate n : ∀ s,
  keeps (seal_loop db now owner lease_seconds heartbeat_seconds batch_size n hb lease validate s).
Proof.
  induction n as [|n IH]; intros s; cbn [seal_loop]; [by apply keeps_none|]. fold beat.
  apply keeps_bind; [apply keeps_beat|intros]. apply keeps_bind; [apply keeps_db_call|intros]. case_match; [by apply keeps_none|].
  apply keeps_bind; [apply keeps_refs_loop|intros]. case_match; [by apply keeps_none|apply IH].
Qed.

Lemma keeps_seal lease :
  keeps (seal_trace_manifest sha256 db now stores owner lease_seconds heartbeat_seconds batch_size fuel hb lease).
Proof.
  unfold seal_trace_manifest. case_match; [|by apply keeps_none]. case_match; [by apply keeps_none..|].
  apply keeps_bind; [apply keeps_seal_loop|intros]. apply keeps_db_call.
Qed.

Lemma keeps_advance rev ph : keeps (advance (E := E) rev ph).
Proof. unfold advance. keeps_tac. Qed.

Lemma keeps_primary_loop quick n : keeps (primary_loop db now owner lease_seconds heartbeat_seconds batch_size n hb quick).
Proof.
  induction n as [|n IH]; cbn [primary_loop]; [by apply keeps_none|]. fold beat.
  repeat (apply keeps_bind; [first [by apply keeps_none|apply keeps_beat|apply keeps_db_call]|intros]). case_match; [apply keeps_advance|].
  apply keeps_bind; [apply keeps_advance|intros]. apply IH.
Qed.

Lemma keeps_stores_loop codes :
  keeps (stores_loop sha256 db now stores owner lease_seconds heartbeat_seconds batch_size external_timeout_seconds fuel hb codes).
Proof.
  induction codes as [|code rest IH]; cbn [stores_loop]; [by apply keeps_none|]. fold beat.
  repeat (apply keeps_bind; [first [by apply keeps_none|apply keeps_beat|apply keeps_external_store|apply keeps_advance]|intros]). apply IH.
Qed.

Lemma keeps_run_body :
  keeps (run_body sha256 db now stores manifest owner lease_seconds heartbeat_seconds batch_size external_timeout_seconds fuel hb).
Proof.
  unfold run_body, crypto_block, primary_block, stores_block, final_block.
  repeat first
    [ apply keeps_advance | apply keeps_seal | apply keeps_primary_loop | apply keeps_stores_loop | apply keeps_db_call
    | by apply keeps_none | apply keeps_bind; [|intros] | case_match ].
Qed.

Lemma genuine_run w :
  genuine (w_log w) → genuine (w_log (run_lease sha256 db now stores manifest owner lease_seconds heartbeat_seconds batch_size
    external_timeout_seconds fuel hb w).2).
Proof.
  revert w. change (keeps (run_lease sha256 db now stores manifest owner lease_seconds heartbeat_seconds batch_size
    external_timeout_seconds fuel hb)). unfold run_lease.
  apply keeps_bind; [by apply keeps_none|intros]. apply keeps_bind; [apply keeps_adds, adds_heartbeat|intros].
  apply keeps_bind; [by apply keeps_none|intros]. apply keeps_catch; [apply keeps_run_body|intros e].
  unfold run_handler. keeps_tac.
Qed.

(** An operation is located by its label alone. *)
Lemma genuine_located l0 c m p t io r post : genuine ((l0 ++ Begin c m p t :: io) ++ Finish c m p t r :: post) → Forall plain io →
  ∃ port, stores c = Some port ∧ operated c port m p t r (l0 ++ [Begin c m p t]) io.
Proof.
  intros Hg Hio. destruct (Hg _ _ _ _ _ _ _ eq_refl) as (port & l0' & io' & Hport & Heq & Hio' & Hop). exists port. split; [done|].
  enough (l0' = l0 ∧ io' = io) as [-> ->]; [done|]. clear -Heq Hio Hio'. revert io' Heq Hio'.
  induction io as [|ev io IH] using rev_ind; intros io' Heq Hio'.
  - destruct io' as [|x io' _] using rev_ind; [by apply app_inj_tail in Heq as [-> _]|]. exfalso.
    rewrite app_comm_cons, app_assoc in Heq. apply app_inj_tail in Heq as [_ <-]. apply Forall_app in Hio' as [_ [Hx _]%Forall_cons]. done.
  - apply Forall_app in Hio as [Hio [Hev _]%Forall_cons]. destruct io' as [|x io' _] using rev_ind.
    + exfalso. rewrite app_comm_cons, app_assoc in Heq. apply app_inj_tail in Heq as [_ ->]. done.
    + rewrite !app_comm_cons, !app_assoc in Heq. apply app_inj_tail in Heq as [Heq <-]. apply Forall_app in Hio' as [Hio' _].
      by destruct (IH Hio io' Heq Hio') as [-> ->].
Qed.
End Genuine.

(** ** The claims *)

Section Claims.
Context {E : Type} (sha256 : pybytes → pybytes) (db : ErasureDb E) (now : E → float * E)
  (stores : ExternalStoreCode → option (Store E)) (manifest : list ExternalStoreCode) (owner : pystr)
  (lease_seconds heartbeat_seconds batch_size : Z) (external_timeout_seconds : float) (fuel : nat).

Local Abbreviation go :=
  (run_lease sha256 db now stores manifest owner lease_seconds heartbeat_seconds batch_size external_timeout_seconds fuel).

(** Shared by the claims: the run is accepted, and a return is a completion. *)
Lemma go_follows lease w o w' :
  (∀ c s, stores c = Some s → HonestStore s) → w_log w = [] → go lease w = (o, w') →
  ∃ ld, ledger_run sha256 manifest (el_project_id lease) (el_scope lease) ledger_init (w_log w') = Some ld ∧
    ∀ out, o = Done (Ok out) →
      last (w_log w') = Some (Db VerifyAndComplete (Ok (AnOutcome out)))
      ∨ so_phase out = scope_complete ∧ ld_end ld = Live.
Proof.
  intros Hst Hlog Hrun. destruct (run_follows sha256 db now stores manifest owner lease_seconds heartbeat_seconds
    batch_size external_timeout_seconds fuel _ _ Hst lease w o w' (conj eq_refl eq_refl) Hlog Hrun) as [(ld & L & [Hld HL]) Hc].
  exists ld. split; [done|]. intros out [Hl|(Hp & ld' & L' & Hlive & [Hld' _])]%Hc; [by left|]. right.
  split; [done|]. rewrite Hld in Hld'. by injection Hld' as ->.
Qed.

(** [C8] Whatever the database, the clock and the adapters answer or raise, a run of the
    coordinator makes only the calls the saga's protocol allows at that point: guarded by a
    heartbeat, in the order of the phases and of the manifest, on the evidence the protocol
    asks for; also when it is cut short.  A run that returns ends in the completing call, or
    the database had already reported the scope complete. *)
Theorem erasure_follows_protocol lease w o w' :
  (∀ c s, stores c = Some s → HonestStore s) → w_log w = [] → go lease w = (o, w') →
  ∃ ld, ledger_run sha256 manifest (el_project_id lease) (el_scope lease) ledger_init (w_log w') = Some ld ∧
    ∀ out, o = Done (Ok out) →
      last (w_log w') = Some (Db VerifyAndComplete (Ok (AnOutcome out)))
      ∨ so_phase out = scope_complete ∧ ld_end ld = Live.
Proof. apply go_follows. Qed.

(** [C9] A database call that reports the lease lost, or a renewal that fails, is the last
    thing a run does: no store is touched and no mark, receipt or release is written after it,
    and the run does not return a result. *)
Theorem nothing_after_lost_lease lease w o w' l1 ev l2 :
  (∀ c s, stores c = Some s → HonestStore s) → w_log w = [] → go lease w = (o, w') →
  w_log w' = l1 ++ ev :: l2 → lost ev = true →
  l2 = [] ∧ ∀ out, o ≠ Done (Ok out).
Proof.
  intros Hst Hlog Hrun Hl Hlost. destruct (go_follows lease w o w' Hst Hlog Hrun) as (ld & Hld & Hc).
  rewrite Hl in Hld. assert (l2 = []) as ->.
  { eapply lost_is_last; [|exact Hlost]. by eexists. }
  split; [done|]. intros out [Hlast|[_ Hlive]]%Hc.
  - rewrite Hl, last_snoc in Hlast. injection Hlast as ->. done.
  - rewrite ledger_run_snoc in Hld.
    destruct (ledger_run _ _ _ _ ledger_init l1) as [ld0|]; [|done]. cbn in Hld.
    apply lost_is_over in Hld; [|done]. by rewrite Hlive in Hld.
Qed.

Lemma during_plain c ev : during c ev → plain ev.
Proof. by intros [[-> |[r ->]]| ->]. Qed.

(** [C10] Every target the coordinator marks was first deleted and then independently proved
    absent: right before the mark, the deleting method and then the verifying method of the
    configured adapter -- those for its kind of target, on the leased project and this target
    -- each ran and returned, with nothing but their own calls and heartbeats in between, and
    the mark carries the answer of the verifying method. *)
Theorem marked_targets_were_proved lease w o w' l1 c work r a l2 :
  (∀ c s, stores c = Some s → HonestStore s) → w_log w = [] → go lease w = (o, w') →
  w_log w' = l1 ++ Db (MarkExternalWork c work r) a :: l2 →
  let p := el_project_id lease in
  let erased := deleted db now owner lease_seconds heartbeat_seconds external_timeout_seconds lease c in
  let absent := proved_absent db now owner lease_seconds heartbeat_seconds external_timeout_seconds lease c in
  ∃ port t s l0 io1 beats1 io2 beats2,
    stores c = Some port ∧ target_of work = Some t ∧
    l1 = (l0 ++ Begin c Erase p t :: io1 ++ Finish c Erase p t (AStoreResult s) :: beats1)
         ++ Begin c Verify p t :: io2 ++ Finish c Verify p t (AStoreResult r) :: beats2 ∧
    erased port p t (AStoreResult s) (l0 ++ [Begin c Erase p t]) io1 ∧
    absent port p t (AStoreResult r)
      ((l0 ++ Begin c Erase p t :: io1 ++ Finish c Erase p t (AStoreResult s) :: beats1) ++ [Begin c Verify p t]) io2 ∧
    Forall (during c) io1 ∧ Forall heartbeat_event beats1 ∧ Forall (during c) io2 ∧ Forall heartbeat_event beats2.
Proof.
  intros Hst Hlog Hrun Hl p erased absent. destruct (go_follows lease w o w' Hst Hlog Hrun) as (ld & Hld & _).
  rewrite Hl in Hld. destruct (mark_evidence sha256 manifest p (el_scope lease) l1 c work r a l2) as (t & s & l0 & l0' & Ht & He & Hv); [by eexists|].
  assert (Hg : genuine db now stores owner lease_seconds heartbeat_seconds external_timeout_seconds lease (w_log w')).
  { change w' with ((o, w').2). rewrite <- Hrun. apply genuine_run. rewrite Hlog. by intros [] ? ? ? ? ? ? ?. }
  rewrite Hl in Hg. destruct He as (io1 & beats1 & -> & Hio1 & Hb1), Hv as (io2 & beats2 & -> & Hio2 & Hb2).
  destruct (genuine_located db now stores owner lease_seconds heartbeat_seconds external_timeout_seconds lease
    (l0 ++ Begin c Erase p t :: io1 ++ Finish c Erase p t (AStoreResult s) :: beats1) c Verify p t io2 (AStoreResult r)
    (beats2 ++ Db (MarkExternalWork c work r) a :: l2)) as (port & Hport & Hver).
  { refine (eq_ind _ _ Hg _ _). by repeat (rewrite <- app_assoc; cbn [app]). }
  { eapply Forall_impl; [exact Hio2|apply during_plain]. }
  destruct (genuine_located db now stores owner lease_seconds heartbeat_seconds external_timeout_seconds lease
    l0 c Erase p t io1 (AStoreResult s) (beats1 ++ Begin c Verify p t :: io2 ++ Finish c Verify p t (AStoreResult r) :: beats2
      ++ Db (MarkExternalWork c work r) a :: l2)) as (port' & Hport' & Her).
  { refine (eq_ind _ _ Hg _ _). by repeat (rewrite <- app_assoc; cbn [app]). }
  { eapply Forall_impl; [exact Hio1|apply during_plain]. }
  assert (port' = port) as -> by congruence. by exists port, t, s, l0, io1, beats1, io2, beats2.
Qed.

(** The completing call is made only after a primary batch found nothing left, and after
    every store of the manifest was closed, in order, in this run, unless the database itself
    reported, for this revision, every store checkpointed and no pending work. *)
Lemma completion_needs_every_store lease w o w' l1 a l2 :
  (∀ c s, stores c = Some s → HonestStore s) → w_log w = [] → go lease w = (o, w') →
  w_log w' = l1 ++ Db VerifyAndComplete a :: l2 →
  primary_empty l1 ∧ (closes l1 = manifest ∨ closes l1 = [] ∧ prepared_clean l1).
Proof.
  intros Hst Hlog Hrun Hl. destruct (go_follows lease w o w' Hst Hlog Hrun) as (ld & Hld & _).
  rewrite Hl in Hld. apply (completion_evidence sha256 manifest (el_project_id lease) (el_scope lease) l1 a l2). by eexists.
Qed.

(** A closure change reported while a store is drained or closed reaches the receipt as an
    unavailable dependency. *)
Lemma closure_change_hidden hb lease code port w w' :
  stores code = Some port →
  external_store_body sha256 db now owner lease_seconds heartbeat_seconds batch_size external_timeout_seconds fuel
    hb lease code port w = (Done (Err ClosureChanged), w') →
  run_external_store sha256 db now stores owner lease_seconds heartbeat_seconds batch_size external_timeout_seconds fuel
    hb lease code w = (Done (Err OtherTracebed), w') ∧
  receipt_of OtherTracebed = Some (retryable, dependency_unavailable).
Proof. intros Hp Hb. unfold run_external_store. rewrite Hp. unfold catch. by rewrite Hb. Qed.

Lemma handler_receipt {A} e w e' w' r c :
  run_handler (A := A) db owner e w = (Done (Err e'), w') → receipt_of e' = Some (r, c) →
  (∃ step, w_log w' = w_log w ++ [Db (Fail step r c) (Ok Nothing)]) ∨
  ∃ step r' c', w_log w' = w_log w ++ [Db (Fail step r' c') (Err e')].
Proof.
  unfold run_handler. destruct (receipt_of e) as [[r0 c0]|] eqn:He.
  - unfold bind, get_lease, get_step, db_call, raise. destruct (db_fail _ _ _ _ _ _ _) as [[u|x] y]; intros [= <- <-] Hr.
    + left. rewrite He in Hr. injection Hr as <- <-. eauto.
    + right. eauto.
  - unfold raise. intros [= <- <-] Hr. by rewrite He in Hr.
Qed.

(** [C11] A written receipt is the last thing a run does, so there is at most one; a run that
    returns wrote none; a run that fails with an error of the service other than a lost lease
    ends in the receipt for that error, or in a receipt that could not be written and raised
    it. *)
Theorem failures_leave_one_receipt lease w o w' :
  (∀ c s, stores c = Some s → HonestStore s) → w_log w = [] → go lease w = (o, w') →
  (∀ l1 step r c l2, w_log w' = l1 ++ Db (Fail step r c) (Ok Nothing) :: l2 → l2 = []) ∧
  (∀ out, o = Done (Ok out) → ∀ step r c a, Db (Fail step r c) a ∉ w_log w') ∧
  (∀ e r c, o = Done (Err e) → receipt_of e = Some (r, c) →
     (∃ l step, w_log w' = l ++ [Db (Fail step r c) (Ok Nothing)]) ∨
     ∃ l step r' c', w_log w' = l ++ [Db (Fail step r' c') (Err e)]).
Proof.
  intros Hst Hlog Hrun. destruct (go_follows lease w o w' Hst Hlog Hrun) as (ld & Hld & Hc).
  split_and!.
  - intros l1 step r c l2 Hl. rewrite Hl in Hld. by apply receipt_is_last in Hld as (_ & _ & H); auto.
  - intros out Ho step r c a [l1 [l2 Hl]]%list_elem_of_split. rewrite Hl in Hld.
    apply receipt_is_last in Hld as Hr. destruct Hr as (Hend & Hl2 & _).
    destruct (Hc out Ho) as [Hlast|[_ Hlive]]; [|done].
    rewrite Hl, last_app_cons in Hlast. destruct (Hl2 (Db VerifyAndComplete (Ok (AnOutcome out)))) as (? & ? & ? & ? & [=]).
    rewrite last_cons in Hlast. destruct (last l2) as [x|] eqn:Hx; [|done]. injection Hlast as ->.
    by apply last_Some_elem_of in Hx.
  - intros e r c -> Hr. revert Hrun. unfold run_lease, bind at 1, set_lease.
    unfold bind at 1. destruct (heartbeat_init _ _ _) as [[[u|x]|] w1] eqn:Hi; [| |done].
    2: { intros [= -> _]. revert Hi. unfold heartbeat_init, bind, read, of_result, seconds.
      destruct (now _) as [t y]. cbn. destruct (float_of_int _); [done|]. intros [= <- _]. done. }
    unfold bind, set_step, catch. destruct (run_body _ _ _ _ _ _ _ _ _ _ _ _ _) as [[[out|x]|] w2]; [done| |done].
    intros [(step & ->)|(step & r' & c' & ->)]%(handler_receipt _ _ _ _ r c); [|..|done]; eauto 10.
Qed.
End Claims.
