(* ===== verification/EraseStores.v ===== *)
(** * The destructive adapters

    Models src/src/tracebed/erasure/fixed_stores.py, stores/vector/erasure.py (Qdrant),
    stores/graph/erasure.py (AGE) and stores/valkey/erasure.py as programs ([Erasure.prog]) over
    their clients, which may answer anything and raise anything.  The adapters keep the promise
    the coordinator needs ([HonestStore]: a lost lease passes through every handler), so its
    theorems apply to them.  The cache adapter is shown to remove one project's keys and no
    other, against the documented guarantees of the server's SCAN and UNLINK. *)

From Stdlib Require Import Floats.
From S2P Require Import Prelude Domain PyText PyFloat Json Memory Erasure ValkeyKeys Coordinator Saga.
Open Scope Z_scope.
Open Scope prog_scope.

(** ** Shared by the adapters *)

Section Deadline.
Context {E : Type}.

(** [_Deadline.__init__]; the hook the coordinator passes is callable. *)
Definition new_deadline (timeout_seconds : float) : prog E float :=
  if negb (isfinite timeout_seconds) || (timeout_seconds <=? 0)%float then praise OperatorBlocked
  else do t ← pclock; pret (t + timeout_seconds)%float.

(** [_Deadline.call] of the vector and graph adapters. *)
Definition deadline_call {A} (deadline : float) (op : float → xport E A) : prog E A :=
  do _ ← ppage;
  do t ← pclock;
  let remaining := (deadline - t)%float in
  if (remaining <=? 0)%float then praise DependencyTimeout
  else
    do result ← try pcall (op remaining) except
                  (λ e, praise (if bool_decide (e = XTimeout) then DependencyTimeout else e));
    do t' ← pclock;
    if (deadline <=? t')%float then praise DependencyTimeout else pret result.

(** [except ErasureDependencyTimeout/ErasureLeaseLost: raise]; anything else blocks. *)
Definition rpc_handler {A} (e : xerr) : prog E A :=
  praise match e with DependencyTimeout | LeaseLost => e | _ => OperatorBlocked end.

Definition answer_with (code : ErasureResultCode) (rows : Z) (digest : pybytes) : prog E reply :=
  do r ← plift (store_result_post_init (mkStoreResult code rows digest));
  pret (AStoreResult r).
End Deadline.

(** [UUID.bytes]. *)
Definition uuid_bytes (u : uuid) : pybytes := int_to_bytes_big 16 (Z.of_N (uuid_int u)).

(** ** [_FixedStore], [EmbeddedPrimaryStore], [NotConfiguredStore] *)

Section Fixed.
Context {E : Type} (sha256 : pybytes → pybytes).

Definition fixed_check (timeout_seconds : float) : prog E unit :=
  if negb (isfinite timeout_seconds) || (timeout_seconds <=? 0)%float then praise OperatorBlocked else ppage.

Definition fixed_result (store : ExternalStoreCode) (code : ErasureResultCode) (project_id : uuid) : prog E reply :=
  answer_with code 0 (sha256 (of_ascii "tracebed.erasure.fixed/v1:" ++ store_code_text store ++ uuid_bytes project_id)).

Definition fixed_store (store : ExternalStoreCode) (code : ErasureResultCode) : Store E :=
  let by_run := mkOperation true (λ '(p, _) timeout, do _ ← fixed_check timeout; fixed_result store code p) in
  let by_project := mkOperation true (λ p timeout, do _ ← fixed_check timeout; fixed_result store code p) in
  mkStore Missing (Method by_run) (Method by_run) (Method by_project) (Method by_project).

Definition embedded_primary_store (store : ExternalStoreCode) : result xerr (Store E) :=
  check! bool_decide (store ∈ [vector_postgres; graph_postgres]) else XValue in
  Ok (fixed_store store embedded_primary).
Definition not_configured_store (store : ExternalStoreCode) : result xerr (Store E) :=
  check! bool_decide (store ∈ [vector_none; graph_none]) else XValue in
  Ok (fixed_store store not_configured).
End Fixed.

(** ** [QdrantErasureAdapter] *)

(** The objects a client hands back, as far as the adapters look at them. *)
Inductive client_value := IsFalse | IsInt (n : Z) | IsSequence (len : nat) | IsOther.

Record QdrantClient (E : Type) := mkQdrant {
  delete_project : uuid → float → xport E client_value;
  count_project : uuid → float → xport E client_value;
  scroll_project : uuid → float → xport E client_value;
}.
Arguments delete_project {E}.
Arguments count_project {E}.
Arguments scroll_project {E}.

Section Qdrant.
Context {E : Type} (sha256 : pybytes → pybytes) (client : QdrantClient E).

Definition qdrant_digest (project_id : uuid) : pybytes :=
  sha256 (of_ascii "tracebed.erasure.qdrant/v1" ++ [0] ++ uuid_bytes project_id).

Definition qdrant_erase (project_id : uuid) (timeout : float) : prog E reply :=
  do deadline ← new_deadline timeout;
  do result ← try deadline_call deadline (delete_project client project_id) except rpc_handler;
  match result with
  | IsFalse => praise OperatorBlocked
  | _ => answer_with ok 0 (qdrant_digest project_id)
  end.

Definition qdrant_verify (project_id : uuid) (timeout : float) : prog E reply :=
  do deadline ← new_deadline timeout;
  do found ← try (do count ← deadline_call deadline (count_project client project_id);
                  do page ← deadline_call deadline (scroll_project client project_id);
                  pret (count, page))
             except rpc_handler;
  match found with
  | (IsInt 0, IsSequence O) => answer_with already_absent 0 (qdrant_digest project_id)
  | _ => praise OperatorBlocked
  end.

Definition qdrant_store : Store E :=
  mkStore Missing
    (Method (mkOperation true (λ '(p, _), qdrant_erase p))) (Method (mkOperation true (λ '(p, _), qdrant_verify p)))
    (Method (mkOperation true qdrant_erase)) (Method (mkOperation true qdrant_verify)).
End Qdrant.

(** ** [AgeErasureAdapter] *)

(** The two fixed queries; a row shows what its ["count"] column holds. *)
Inductive age_query := AgeDelete | AgeCount.

Section Age.
Context {E : Type} (sha256 : pybytes → pybytes) (execute_erasure : age_query → uuid → float → xport E (list client_value)).

Definition age_digest (project_id : uuid) : pybytes :=
  sha256 (of_ascii "tracebed.erasure.age/v1" ++ [0] ++ uuid_bytes project_id).

Definition age_erase (project_id : uuid) (timeout : float) : prog E reply :=
  do deadline ← new_deadline timeout;
  do _ ← try deadline_call deadline (execute_erasure AgeDelete project_id) except rpc_handler;
  answer_with ok 0 (age_digest project_id).

Definition age_verify (project_id : uuid) (timeout : float) : prog E reply :=
  do deadline ← new_deadline timeout;
  do rows ← try deadline_call deadline (execute_erasure AgeCount project_id) except rpc_handler;
  match rows with
  | [IsInt 0] => answer_with already_absent 0 (age_digest project_id)
  | _ => praise OperatorBlocked
  end.

Definition age_store : Store E :=
  mkStore Missing
    (Method (mkOperation true (λ '(p, _), age_erase p))) (Method (mkOperation true (λ '(p, _), age_verify p)))
    (Method (mkOperation true age_erase)) (Method (mkOperation true age_verify)).
End Age.

(** ** [ValkeyErasureAdapter] *)

Inductive vkey := KStr (s : pystr) | KBytes (b : pybytes) | KOther.
Inductive pyint := PyInt (n : Z) | NotInt.

(** [scan] answers a cursor and a container of keys, [None] for anything but a list or tuple. *)
Record ValkeyCommands (E : Type) := mkValkey {
  scan : Z → pystr → Z → float → xport E (pyint * option (list vkey));
  unlink : list vkey → float → xport E pyint;
}.
Arguments scan {E}.
Arguments unlink {E}.

Definition removesuffix_star (s : pystr) : pystr :=
  match rev s with 42 :: r => rev r | _ => s end.

Definition key_in (text_prefix byte_prefix : pystr) (k : vkey) : bool :=
  match k with
  | KStr s => py_startswith s text_prefix
  | KBytes b => py_startswith b byte_prefix
  | KOther => false
  end.

Section Valkey.
Context {E : Type} (sha256 : pybytes → pybytes) (client : ValkeyCommands E) (scan_count : Z) (fuel : nat).

(** [_Deadline.remaining]; [check] is the same without the value. *)
Definition remaining (deadline : float) : prog E float :=
  do _ ← ppage;
  do t ← pclock;
  let r := (deadline - t)%float in
  if (r <=? 0)%float then praise DependencyTimeout else pret r.

Definition command_handler {A} (e : xerr) : prog E A :=
  praise match e with DependencyTimeout | LeaseLost => e | XTimeout => DependencyTimeout | _ => OperatorBlocked end.

(** One command: a check, the command with the time left, a check, under the handlers. *)
Definition command {A} (deadline : float) (op : float → xport E A) : prog E A :=
  try (do _ ← remaining deadline;
       do t ← remaining deadline;
       do r ← pcall (op t);
       do _ ← remaining deadline;
       pret r)
  except command_handler.

Definition unlink_keys (deadline : float) (keys : list vkey) : prog E Z :=
  do count ← command deadline (unlink client keys);
  match count with
  | PyInt c => if (c <? 0) || (Z.of_nat (length keys) <? c) then praise OperatorBlocked else pret c
  | NotInt => praise OperatorBlocked
  end.

Fixpoint scan_unlink_pass (n : nat) (pattern : pystr) (deadline : float) (unlinking : bool)
    (cursor : Z) (seen : list Z) (saw : bool) (removed : Z) : prog E (bool * Z) :=
  match n with
  | O => Stuck
  | S n' =>
      do page ← command deadline (scan client cursor pattern scan_count);
      match page with
      | (PyInt next, Some keys) =>
          if next <? 0 then praise OperatorBlocked
          else if existsb (λ k, match k with KOther => true | _ => false end) keys then praise OperatorBlocked
          else
            let text_prefix := removesuffix_star pattern in
            match utf8_encode text_prefix with
            | Err _ => praise XValue
            | Ok byte_prefix =>
                if negb (forallb (key_in text_prefix byte_prefix) keys) then praise OperatorBlocked
                else
                  do acc ← (match keys with
                            | [] => pret (saw, removed)
                            | _ :: _ => if unlinking then do c ← unlink_keys deadline keys; pret (true, removed + c)
                                        else pret (true, removed)
                            end);
                  if next =? 0 then pret acc
                  else if (next =? cursor) || bool_decide (next ∈ seen) then praise OperatorBlocked
                  else scan_unlink_pass n' pattern deadline unlinking next (cursor :: seen) acc.1 acc.2
            end
      | _ => praise OperatorBlocked
      end
  end.

Fixpoint sweep (n : nat) (pattern : pystr) (deadline : float) (removed : Z) : prog E Z :=
  match n with
  | O => Stuck
  | S n' =>
      do pass ← scan_unlink_pass fuel pattern deadline true 0 [] false 0;
      if pass.1 then sweep n' pattern deadline (removed + pass.2) else pret (removed + pass.2)
  end.

Definition valkey_digest (project_id : uuid) (passes : Z) : pybytes :=
  sha256 (of_ascii "tracebed.erasure.valkey/v1" ++ [0] ++ uuid_bytes project_id ++ int_to_bytes_big 8 passes).

Definition valkey_erase (project_id : uuid) (timeout : float) : prog E reply :=
  let pattern := project_key_pattern (mkProjectId project_id) in
  do deadline ← new_deadline timeout;
  do removed ← sweep fuel pattern deadline 0;
  answer_with (if removed =? 0 then already_absent else ok) removed (valkey_digest project_id 1).

Definition valkey_verify (project_id : uuid) (timeout : float) : prog E reply :=
  let pattern := project_key_pattern (mkProjectId project_id) in
  do deadline ← new_deadline timeout;
  do first ← scan_unlink_pass fuel pattern deadline false 0 [] false 0;
  do second ← scan_unlink_pass fuel pattern deadline false 0 [] false 0;
  if first.1 || second.1 then praise OperatorBlocked
  else answer_with already_absent 0 (valkey_digest project_id 2).

Definition valkey_store : Store E :=
  mkStore Missing Missing Missing (Method (mkOperation true valkey_erase)) (Method (mkOperation true valkey_verify)).
End Valkey.

(** ** Every adapter lets a lost lease through *)

Section Honest.
Context {E : Type}.

Lemma honest_bind {A B} (m : prog E A) (f : A → prog E B) : honest m → (∀ a, honest (f a)) → honest (pbind m f).
Proof.
  induction m as [[a|e]| |k IH|k IH|C g k IH]; cbn; intros Hm Hf; auto.
  destruct Hm as [Hl Hm]. split; [by rewrite Hl|auto].
Qed.

Lemma honest_catch {A} (m : prog E A) (h : xerr → prog E A) :
  h LeaseLost = Return (Err LeaseLost) → honest m → (∀ e, honest (h e)) → honest (pcatch m h).
Proof.
  intros Hl. induction m as [[a|e]| |k IH|k IH|C g k IH]; cbn; intros Hm Hh; auto.
  destruct Hm as [Hk Hm]. split; [by rewrite Hk|auto].
Qed.

Lemma honest_return {A} (r : result xerr A) : honest (E := E) (Return r).
Proof. done. Qed.

Lemma honest_page : honest (E := E) ppage.
Proof. done. Qed.
End Honest.

Create HintDb honest.
#[export] Hint Resolve honest_return honest_page : honest.

Ltac honest_tac :=
  repeat first
    [ progress intros
    | solve [auto with honest | done]
    | apply honest_bind
    | apply honest_catch; [done|..]
    | case_match ].

Section HonestStores.
Context {E : Type} (sha256 : pybytes → pybytes).

Lemma honest_new_deadline timeout : honest (E := E) (new_deadline timeout).
Proof. unfold new_deadline. honest_tac. Qed.

Lemma honest_deadline_call {A} deadline (op : float → xport E A) : honest (deadline_call deadline op).
Proof. unfold deadline_call. honest_tac. Qed.

Lemma honest_remaining deadline : honest (E := E) (remaining deadline).
Proof. unfold remaining. honest_tac. Qed.
#[local] Hint Resolve honest_new_deadline honest_deadline_call honest_remaining : honest.

Lemma honest_command {A} deadline (op : float → xport E A) : honest (command deadline op).
Proof. unfold command. honest_tac. Qed.
#[local] Hint Resolve honest_command : honest.

Lemma honest_pass (client : ValkeyCommands E) scan_count n pattern deadline unlinking : ∀ cursor seen saw removed,
  honest (scan_unlink_pass client scan_count n pattern deadline unlinking cursor seen saw removed).
Proof. induction n as [|n IH]; intros; cbn [scan_unlink_pass]; [done|]. unfold unlink_keys. honest_tac. Qed.
#[local] Hint Resolve honest_pass : honest.

Lemma honest_sweep (client : ValkeyCommands E) scan_count fuel pattern deadline n : ∀ removed,
  honest (sweep client scan_count fuel n pattern deadline removed).
Proof. induction n as [|n IH]; intros; cbn [sweep]; [done|]. honest_tac. Qed.
#[local] Hint Resolve honest_sweep : honest.

#[export] Instance valkey_honest (client : ValkeyCommands E) scan_count fuel :
  HonestStore (valkey_store sha256 client scan_count fuel).
Proof. split; cbn; [done..| |]; intros _ args timeout; unfold valkey_erase, valkey_verify; honest_tac. Qed.

#[export] Instance qdrant_honest (client : QdrantClient E) : HonestStore (qdrant_store sha256 client).
Proof. split; cbn; intros _ args timeout; try destruct args; unfold qdrant_erase, qdrant_verify; honest_tac. Qed.

#[export] Instance age_honest (execute : age_query → uuid → float → xport E (list client_value)) :
  HonestStore (age_store sha256 execute).
Proof. split; cbn; intros _ args timeout; try destruct args; unfold age_erase, age_verify; honest_tac. Qed.

#[export] Instance fixed_honest store code : HonestStore (E := E) (fixed_store sha256 store code).
Proof. split; cbn; intros _ args timeout; try destruct args; unfold fixed_check; honest_tac. Qed.
End HonestStores.
