(* ===== verification/ValkeyErase.v ===== *)
(** * What the cache adapter removes

    Theorems about [valkey_erase] and [valkey_verify] (stores/valkey/erasure.py) run against a
    server with the documented guarantees of SCAN and UNLINK: a complete iteration over an
    unchanging key space returns every matching key, a key is removed only when it is named.
    Nothing is assumed of what a page contains otherwise: the adapter refuses foreign keys. *)

From Stdlib Require Import Floats.
From S2P Require Import Prelude Domain PyText PyFloat Json Memory Erasure ValkeyKeys Coordinator Saga EraseStores.
Open Scope Z_scope.

(** The stored key a returned one names. *)
Definition names (k : vkey) (b : pybytes) : Prop :=
  match k with KStr s => utf8_encode s = Ok b | KBytes b' => b = b' | KOther => False end.

(** A key space, and a page SCAN may answer from it. *)
Class ValkeyServer {E} (client : ValkeyCommands E) (keyspace : E → gset pybytes)
    (page : gset pybytes → pystr → Z → Z → list vkey → Prop) : Prop := {
  scan_reads : ∀ c m n t e r e', scan client c m n t e = (r, e') → keyspace e' = keyspace e;
  scan_page : ∀ c m n t e next ks e',
    scan client c m n t e = (Ok (PyInt next, Some ks), e') → page (keyspace e) m c next ks;
  unlink_shrinks : ∀ ks t e r e', unlink client ks t e = (r, e') → keyspace e' ⊆ keyspace e;
  unlink_named : ∀ ks t e r e' b, unlink client ks t e = (r, e') →
    b ∈ keyspace e → b ∉ keyspace e' → ∃ k, k ∈ ks ∧ names k b;
}.

(** A complete iteration, from a cursor to 0, and the pages it returned. *)
Inductive iteration (page : gset pybytes → pystr → Z → Z → list vkey → Prop) (K : gset pybytes) (m : pystr)
  : Z → list (list vkey) → Prop :=
| iteration_last c ks : page K m c 0 ks → iteration page K m c [ks]
| iteration_next c next ks pages : page K m c next ks → iteration page K m next pages → iteration page K m c (ks :: pages).

(** The guarantee of SCAN on a key space that does not change. *)
Definition scan_complete (page : gset pybytes → pystr → Z → Z → list vkey → Prop) : Prop :=
  ∀ K p pages b, iteration page K (project_key_pattern p) 0 pages → b ∈ K → py_startswith b (namespace p) = true →
  ∃ ks k, ks ∈ pages ∧ k ∈ ks ∧ names k b.

(** ** Reasoning about programs by the key space they leave *)

Section Keyspace.
Context {E : Type} (keyspace : E → gset pybytes).

(** [leads m K Q]: from key space [K], every end of the program satisfies [Q]; [None] stands
    for a program that is still running. *)
Fixpoint leads {A} (m : prog E A) (K : gset pybytes) (Q : option (result xerr A) → gset pybytes → Prop) : Prop :=
  match m with
  | Return r => Q (Some r) K
  | Stuck => Q None K
  | Clock k => ∀ t, leads (k t) K Q
  | Page k => ∀ r, leads (k r) K Q
  | Call f k => ∀ e r e', keyspace e = K → f e = (r, e') → leads (k r) (keyspace e') Q
  end.

Definition ended {A} (o : outcome A) : option (result xerr A) := match o with Done r => Some r | Running => None end.

(** The progress hook ends, and leaves the key space alone. *)
Definition benign {A} (m : eio E A) : Prop :=
  ∀ w, keyspace (w_env (m w).2) = keyspace (w_env w) ∧ (m w).1 ≠ Running.

Lemma leads_run {A} now code hook (m : prog E A) Q :
  (∀ e, keyspace (now e).2 = keyspace e) → (∀ h, hook = Some h → benign h) → ∀ w,
  leads m (keyspace (w_env w)) Q →
  Q (ended (run_prog now code hook m w).1) (keyspace (w_env (run_prog now code hook m w).2)).
Proof.
  intros Hnow Hhook. induction m as [r| |k IH|k IH|B f k IH]; intros w; cbn [leads run_prog]; [done..| | |].
  - intros Hk. unfold bind, read. specialize (Hnow (w_env w)). destruct (now (w_env w)) as [t e].
    apply IH. cbn in *. rewrite Hnow. apply Hk.
  - intros Hk. destruct hook as [h|]; [|by apply IH]. destruct (Hhook h eq_refl w) as [He Hr].
    destruct (h w) as [[r|] w1]; [|done]. cbn in He. apply IH. rewrite He. apply Hk.
  - intros Hk. destruct (f (w_env w)) as [r e] eqn:Hf. apply IH. cbn. by eapply Hk.
Qed.

Lemma leads_weaken {A} (m : prog E A) (Q Q' : option (result xerr A) → gset pybytes → Prop) :
  (∀ o K, Q o K → Q' o K) → ∀ K, leads m K Q → leads m K Q'.
Proof. intros HQ. induction m as [r| |k IH|k IH|B f k IH]; intros K; cbn; eauto. Qed.

Lemma leads_bind {A B} (m : prog E A) (f : A → prog E B) Q : ∀ K,
  leads m K (λ o K', match o with
                     | Some (Ok a) => leads (f a) K' Q
                     | Some (Err e) => Q (Some (Err e)) K'
                     | None => Q None K'
                     end) →
  leads (pbind m f) K Q.
Proof. induction m as [[a|e]| |k IH|k IH|C g k IH]; intros K; cbn; eauto. Qed.

Lemma leads_call {A} (f : xport E A) K Q :
  (∀ e r e', keyspace e = K → f e = (r, e') → Q (Some r) (keyspace e')) → leads (pcall f) K Q.
Proof. done. Qed.

(** A handler that only maps exceptions. *)
Lemma leads_catch {A} (m : prog E A) (h : xerr → prog E A) (Q : option (result xerr A) → gset pybytes → Prop) :
  (∀ e, ∃ e', h e = Return (Err e')) → ∀ K,
  leads m K (λ o K', match o with Some (Err _) => ∀ e, Q (Some (Err e)) K' | _ => Q o K' end) →
  leads (pcatch m h) K Q.
Proof.
  intros Hh. induction m as [[a|e]| |k IH|k IH|C g k IH]; intros K; cbn; eauto.
  intros H. destruct (Hh e) as [e' ->]. apply H.
Qed.
End Keyspace.

(** ** The namespace as text and as bytes *)

Lemma utf8_encode_ascii s : Forall (λ c, c < 128) s → utf8_encode s = Ok s.
Proof.
  intros Hs. unfold utf8_encode. assert (Hr : rmap utf8_char s = Ok ((λ c, [c]) <$> s)).
  { apply rmap_Ok. induction Hs as [|c s Hc _ IH]; constructor; [|done]. unfold utf8_char. by destruct (Z.ltb_spec c 128); [|lia]. }
  rewrite Hr. cbn. f_equal. clear. induction s as [|c s IH]; [done|]. cbn. by f_equal.
Qed.

Lemma utf8_encode_app s t b : utf8_encode (s ++ t) = Ok b → ∃ b1 b2, utf8_encode s = Ok b1 ∧ utf8_encode t = Ok b2 ∧ b = b1 ++ b2.
Proof.
  unfold utf8_encode. intros (ps & Hps & <-%(inj Ok))%rbind_Ok. apply rmap_Ok, Forall2_app_inv_l in Hps as (p1 & p2 & H1 & H2 & ->).
  apply rmap_Ok in H1. apply rmap_Ok in H2. exists (concat p1), (concat p2). rewrite H1, H2. split_and!; [done..|]. apply concat_app.
Qed.

Lemma hex_pad_ascii k n : Forall (λ c, c < 128) (hex_pad k n).
Proof.
  revert n; induction k; intros; simpl; [constructor|]. apply Forall_app; split; [done|]. repeat constructor.
  pose proof (Z.mod_pos_bound n 16). unfold hex_char. case_match; lia.
Qed.

Lemma namespace_ascii p : utf8_encode (namespace p) = Ok (namespace p).
Proof.
  apply utf8_encode_ascii. unfold namespace, uuid_str. repeat apply Forall_app_2;
    auto using Forall_take, Forall_drop, hex_pad_ascii; repeat constructor; lia.
Qed.

Lemma pattern_prefix p : removesuffix_star (project_key_pattern p) = namespace p.
Proof.
  unfold removesuffix_star, project_key_pattern. generalize (namespace p). intros s.
  change (of_ascii "*") with [42]. rewrite rev_app_distr. apply rev_involutive.
Qed.

Lemma named_in_namespace p k b : key_in (namespace p) (namespace p) k = true → names k b → py_startswith b (namespace p) = true.
Proof.
  destruct k as [s|b'|]; cbn [key_in names]; [|by intros H ->|done]. rewrite !startswith_spec. intros [t ->] H.
  apply utf8_encode_app in H as (b1 & b2 & H1 & _ & ->). rewrite namespace_ascii in H1. injection H1 as <-. eauto.
Qed.

(** ** The adapter *)

Section Adapter.
Context {E : Type} (client : ValkeyCommands E) (keyspace : E → gset pybytes)
  (page : gset pybytes → pystr → Z → Z → list vkey → Prop) `{!ValkeyServer client keyspace page}
  (scan_count : Z) (p : ProjectId).

Let leads {A} := leads (E := E) (A := A) keyspace.
Abbreviation ns := (namespace p).

(** Every key of another namespace is still there, and none was added. *)
Definition confined (K0 K : gset pybytes) : Prop :=
  K ⊆ K0 ∧ ∀ b, b ∈ K0 → py_startswith b ns = false → b ∈ K.

Lemma confined_refl K : confined K K.
Proof. by split. Qed.

Lemma leads_remaining deadline K Q :
  (∀ t, Q (Some (Ok t)) K) → (∀ e, Q (Some (Err e)) K) → leads (remaining deadline) K Q.
Proof.
  intros Hok He. cbn. intros [u|e]; [|apply He]. cbn. intros t. destruct (_ <=? _)%float; [apply He|apply Hok].
Qed.

(** One command: the call happens at most once, at the key space it started from. *)
Lemma leads_command {A} deadline (op : float → xport E A) K Q :
  (∀ t e r e', keyspace e = K → op t e = (r, e') →
     (∀ x, Q (Some (Err x)) (keyspace e')) ∧ (∀ a, r = Ok a → Q (Some (Ok a)) (keyspace e'))) →
  (∀ x, Q (Some (Err x)) K) → leads (command deadline op) K Q.
Proof.
  intros Hop He. apply leads_catch; [intros e; by eexists|].
  apply leads_bind, leads_remaining; [intros _|done]. apply leads_bind, leads_remaining; [intros t|done].
  apply leads_bind, leads_call. intros e r e' HK Hcall. destruct (Hop t e r e' HK Hcall) as [Hx Ha].
  destruct r as [a|x]; [|done]. apply leads_bind, leads_remaining; [intros _|done]. by apply Ha.
Qed.

Lemma leads_unlink_keys deadline keys K Q :
  (∀ K' r, K' ⊆ K → (∀ b, b ∈ K → b ∉ K' → ∃ k, k ∈ keys ∧ names k b) → Q (Some r) K') →
  leads (unlink_keys client deadline keys) K Q.
Proof.
  intros HQ. assert (HK : ∀ r, Q (Some r) K) by (intros r; apply HQ; [done|by intros b ??]).
  apply leads_bind, leads_command; [|done]. intros t e r e' He Hcall.
  assert (HQ' : ∀ r, Q (Some r) (keyspace e')).
  { intros r'. apply HQ; rewrite <- He; [by eapply unlink_shrinks|]. intros b. by eapply unlink_named. }
  split; [done|]. intros a ->. destruct a as [c|]; [case_match|]; apply HQ'.
Qed.

(** Removing named keys of the namespace keeps the rest. *)
Lemma confined_unlink K0 K K' keys : confined K0 K → forallb (key_in ns ns) keys = true → K' ⊆ K →
  (∀ b, b ∈ K → b ∉ K' → ∃ k, k ∈ keys ∧ names k b) → confined K0 K'.
Proof.
  intros [Hsub Hkeep] Hkeys HK Hdel. split; [set_solver|]. intros b Hb Hns.
  destruct (decide (b ∈ K')) as [|Hno]; [done|]. exfalso. destruct (Hdel b (Hkeep b Hb Hns) Hno) as (k & Hk & Hn).
  rewrite forallb_forall in Hkeys. specialize (Hkeys k). rewrite <- list_elem_of_In in Hkeys.
  apply (named_in_namespace p k b) in Hn; [congruence|auto].
Qed.

(** What one pass leaves: confinement always; and a pass that saw no key was a complete,
    empty iteration over a key space that did not change. *)
Definition passed (unlinking : bool) (K0 K : gset pybytes) (cursor : Z) (saw : bool)
    (o : option (result xerr (bool * Z))) (K' : gset pybytes) : Prop :=
  confined K0 K' ∧
  ∀ saw' removed', o = Some (Ok (saw', removed')) →
    (unlinking = false → K' = K) ∧
    (saw' = false → saw = false ∧ K' = K ∧
       ∃ pages, iteration page K (project_key_pattern p) cursor pages ∧ Forall (λ ks, ks = []) pages).

Lemma leads_pass n deadline u : ∀ cursor seen saw removed K0 K, confined K0 K →
  leads (scan_unlink_pass client scan_count n (project_key_pattern p) deadline u cursor seen saw removed) K
    (passed u K0 K cursor saw).
Proof.
  induction n as [|n IH]; intros cursor seen saw removed K0 K Hc; cbn [scan_unlink_pass]; [by split|].
  assert (Herr : ∀ e, passed u K0 K cursor saw (Some (Err e)) K) by (by split).
  apply leads_bind, leads_command; [|done]. intros t e r e' He Hscan.
  rewrite (scan_reads (keyspace := keyspace) (page := page) _ _ _ _ _ _ _ Hscan), He. split; [done|]. intros [next keys] ->.
  destruct next as [next|], keys as [keys|]; [|apply Herr..].
  apply (scan_page (keyspace := keyspace) (page := page)) in Hscan. rewrite He in Hscan. rewrite pattern_prefix, namespace_ascii.
  destruct (next <? 0); [apply Herr|]. destruct (existsb _ keys); [apply Herr|].
  destruct (forallb (key_in ns ns) keys) eqn:Hkeys; [|apply Herr]. cbn [negb].
  apply leads_bind. destruct keys as [|k keys].
  - (* an empty page *)
    cbn [ValkeyErase.leads pret]. destruct (Z.eqb_spec next 0) as [-> |Hn].
    + split; [done|]. intros saw' removed' [= <- <-]. split; [done|]. intros ->. split_and!; [done..|].
      exists [[]]. split; [by apply iteration_last|by repeat constructor].
    + destruct ((next =? cursor) || _); [apply Herr|]. eapply leads_weaken; [|by apply IH]. intros o K' [Hconf Hok]. split; [done|].
      intros saw' removed' Ho. destruct (Hok saw' removed' Ho) as [Hu Hs]. split; [done|]. intros Hs'.
      destruct (Hs Hs') as (Hsaw & -> & pages & Hit & Hnil). split_and!; [done..|]. exists ([] :: pages).
      split; [by eapply iteration_next|by constructor].
  - assert (Hgo : ∀ K1 c, confined K0 K1 → (u = false → K1 = K) →
      leads (if next =? 0 then pret (true, removed + c)
             else if (next =? cursor) || bool_decide (next ∈ seen) then praise OperatorBlocked
             else scan_unlink_pass client scan_count n (project_key_pattern p) deadline u next (cursor :: seen) true (removed + c)) K1
        (passed u K0 K cursor saw)).
    { intros K1 c Hc1 Hu1. destruct (next =? 0); [split; [done|]; intros saw' removed' [= <- <-]; by split|].
      destruct ((next =? cursor) || _); [by split|]. eapply leads_weaken; [|by apply IH]. intros o K' [Hconf Hok]. split; [done|].
      intros saw' removed' Ho. destruct (Hok saw' removed' Ho) as [Hu Hs]. split; [intros Huf; rewrite Hu; auto|].
      intros Hs'. by destruct (Hs Hs') as [? _]. }
    destruct u.
    + apply leads_bind, leads_unlink_keys. intros K1 r HK1 Hdel.
      assert (confined K0 K1) by (by eapply confined_unlink). destruct r as [c|x]; [by apply (Hgo K1 c)|by split].
    + cbn [ValkeyErase.leads pret]. specialize (Hgo K 0 Hc). rewrite Z.add_0_r in Hgo. by apply Hgo.
Qed.

Context (Hcomplete : scan_complete page).

Definition absent (K : gset pybytes) : Prop := ∀ b, b ∈ K → py_startswith b ns = false.

(** A complete iteration of empty pages is a proof of absence. *)
Lemma empty_iteration_absent K pages :
  iteration page K (project_key_pattern p) 0 pages → Forall (λ ks, ks = []) pages → absent K.
Proof.
  intros Hit Hnil b Hb. destruct (py_startswith b ns) eqn:Hs; [|done]. exfalso.
  destruct (Hcomplete K p pages b Hit Hb Hs) as (ks & k & Hks & Hk & _).
  rewrite Forall_forall in Hnil. rewrite (Hnil ks Hks) in Hk. by apply elem_of_nil in Hk.
Qed.

(** What an operation of the adapter leaves. *)
Definition purged {A : Type} (K0 : gset pybytes) (o : option (result xerr A)) (K : gset pybytes) : Prop :=
  confined K0 K ∧ ((∃ a, o = Some (Ok a)) → absent K).

Lemma leads_sweep fuel n deadline : ∀ removed K0 K, confined K0 K →
  leads (sweep client scan_count fuel n (project_key_pattern p) deadline removed) K (purged K0).
Proof.
  induction n as [|n IH]; intros removed K0 K Hc; cbn [sweep]; [by split; [|intros []]|].
  apply leads_bind. eapply leads_weaken; [|by apply (leads_pass fuel deadline true 0 [] false 0 K0 K)].
  intros [[[saw c]|e]|] K' [Hconf Hok]; [|by split; [|intros []]..].
  destruct (Hok saw c eq_refl) as [_ Hsaw]. destruct saw; [by apply IH|]. split; [done|]. intros _.
  destruct (Hsaw eq_refl) as (_ & -> & pages & Hit & Hnil). by eapply empty_iteration_absent.
Qed.

Lemma leads_new_deadline timeout K Q :
  (∀ t, Q (Some (Ok t)) K) → (∀ e, Q (Some (Err e)) K) → leads (new_deadline timeout) K Q.
Proof. intros Hok He. unfold new_deadline. case_match; [apply He|]. cbn. intros t. apply Hok. Qed.

Lemma leads_answer (code : ErasureResultCode) (rows : Z) (digest : pybytes) (K : gset pybytes) (Q : option (result xerr reply) → gset pybytes → Prop) :
  (∀ o, Q o K) → leads (answer_with code rows digest) K Q.
Proof. intros HQ. apply leads_bind. cbn. destruct (store_result_post_init _); cbn; apply HQ. Qed.

Lemma leads_erase sha256 fuel timeout K :
  leads (valkey_erase sha256 client scan_count fuel (ProjectId_value p) timeout) K (purged K).
Proof.
  unfold valkey_erase. destruct p as [u] eqn:Hp. cbn [ProjectId_value]. rewrite <- Hp.
  apply leads_bind, leads_new_deadline; [intros deadline|by split; [apply confined_refl|intros []]].
  apply leads_bind. eapply leads_weaken; [|apply leads_sweep, confined_refl].
  intros [[removed|e]|] K' [Hconf Hok]; [|by split; [|intros []]..].
  apply leads_answer. intros o. split; [done|]. intros _. apply Hok. eauto.
Qed.

Lemma leads_verify sha256 fuel timeout K :
  leads (valkey_verify sha256 client scan_count fuel (ProjectId_value p) timeout) K
    (λ o K', purged K o K' ∧ ((∃ a, o = Some (Ok a)) → K' = K)).
Proof.
  unfold valkey_verify. destruct p as [u] eqn:Hp. cbn [ProjectId_value]. rewrite <- Hp.
  assert (Hfail : ∀ K' o, confined K K' → (∀ a, o ≠ Some (Ok a)) → purged K o K' ∧ ((∃ a : reply, o = Some (Ok a)) → K' = K)).
  { intros K' o Hc Ho. split; [split; [done|]|]; intros [a Ha]; by destruct (Ho a). }
  apply leads_bind, leads_new_deadline; [intros deadline|intros e; apply Hfail; [apply confined_refl|done]].
  apply leads_bind. eapply leads_weaken; [|apply (leads_pass fuel deadline false 0 [] false 0 K K), confined_refl].
  intros [[[saw1 c1]|e]|] K1 [Hc1 Hok1]; [|by apply Hfail..]. destruct (Hok1 saw1 c1 eq_refl) as [Hu1 Hs1].
  rewrite (Hu1 eq_refl) in *. clear K1 Hu1.
  apply leads_bind. eapply leads_weaken; [|apply (leads_pass fuel deadline false 0 [] false 0 K K), confined_refl].
  intros [[[saw2 c2]|e]|] K2 [Hc2 Hok2]; [|by apply Hfail..]. destruct (Hok2 saw2 c2 eq_refl) as [Hu2 _].
  rewrite (Hu2 eq_refl) in *. cbn [fst]. destruct saw1; [by apply Hfail|]. destruct saw2; [by apply Hfail|]. cbn [orb].
  destruct (Hs1 eq_refl) as (_ & _ & pages & Hit & Hnil). apply empty_iteration_absent in Hit; [|done].
  apply leads_answer. intros o. by repeat split.
Qed.
End Adapter.

(** ** The claim *)

(** [C12] Erasing a project in the cache removes keys of its namespace only, whatever the server
    answers and however the call ends; when it returns, no key of the namespace is left. *)
Theorem valkey_erases_one_project {E} (client : ValkeyCommands E) keyspace page `{!ValkeyServer client keyspace page}
    sha256 scan_count fuel p timeout now code hook (w w' : world E) o :
  scan_complete page → (∀ e, keyspace (now e).2 = keyspace e) → (∀ h, hook = Some h → benign keyspace h) →
  run_prog now code hook (valkey_erase sha256 client scan_count fuel (ProjectId_value p) timeout) w = (o, w') →
  keyspace (w_env w') ⊆ keyspace (w_env w) ∧
  (∀ b, b ∈ keyspace (w_env w) → py_startswith b (namespace p) = false → b ∈ keyspace (w_env w')) ∧
  (∀ r, o = Done (Ok r) → ∀ b, b ∈ keyspace (w_env w') → py_startswith b (namespace p) = false).
Proof.
  intros Hcomplete Hnow Hhook Hrun.
  pose proof (leads_run keyspace now code hook _ _ Hnow Hhook w
    (leads_erase client keyspace page scan_count p Hcomplete sha256 fuel timeout _)) as [[Hsub Hkeep] Habs].
  rewrite Hrun in *. split_and!; [done..|]. intros r ->. apply Habs. by eexists.
Qed.

(** The cache's proof of absence is sound and changes nothing: when it returns, no key of
    the project exists. *)
Lemma valkey_proof_of_absence {E} (client : ValkeyCommands E) keyspace page `{!ValkeyServer client keyspace page}
    sha256 scan_count fuel p timeout now code hook (w w' : world E) r :
  scan_complete page → (∀ e, keyspace (now e).2 = keyspace e) → (∀ h, hook = Some h → benign keyspace h) →
  run_prog now code hook (valkey_verify sha256 client scan_count fuel (ProjectId_value p) timeout) w = (Done (Ok r), w') →
  keyspace (w_env w') = keyspace (w_env w) ∧ ∀ b, b ∈ keyspace (w_env w) → py_startswith b (namespace p) = false.
Proof.
  intros Hcomplete Hnow Hhook Hrun.
  pose proof (leads_run keyspace now code hook _ _ Hnow Hhook w
    (leads_verify client keyspace page scan_count p Hcomplete sha256 fuel timeout _)) as [[_ Habs] Hsame].
  rewrite Hrun in *. cbn in *. rewrite Hsame in * by eauto. split; [done|]. apply Habs. eauto.
Qed.
