(* ===== verification/ErasureRuns.v ===== *)
(** * Runs of the erasure saga

    A small database, cache server and trace store, on which the coordinator and the adapters
    run by evaluation: they show that the hypotheses of the claims of Saga.v and ValkeyErase.v
    can be met, and exercise a completed run, a lost lease, a failed proof and the receipt of a
    closure change. *)

From Stdlib Require Import Floats.
From S2P Require Import Prelude Domain PyText PyFloat Fusion Json Memory Erasure ValkeyKeys Coordinator Saga EraseStores ValkeyErase.
Open Scope Z_scope.

(** A stand-in for SHA-256: 32 bytes of its input. *)
Definition toy_sha (b : pybytes) : pybytes := take 32 (b ++ repeat 0 32).

(** ** The world outside *)

Record outside := mkOutside {
  ou_clock : Z;
  ou_keys : gset pybytes;
  ou_pending : list (ExternalStoreCode * ExternalWork);
  ou_rows : Z;
  ou_closed : list ExternalStoreCode;
  ou_lease_ok : bool;
}.

Definition tick (o : outside) : outside :=
  mkOutside (ou_clock o + 1) (ou_keys o) (ou_pending o) (ou_rows o) (ou_closed o) (ou_lease_ok o).
Definition set_keys (o : outside) (k : gset pybytes) : outside :=
  mkOutside (ou_clock o) k (ou_pending o) (ou_rows o) (ou_closed o) (ou_lease_ok o).

Definition toy_now (o : outside) : float * outside :=
  (match float_of_int (ou_clock o) with Ok t => (t / 8)%float | Err _ => 0%float end, tick o).

Definition no_uuid : uuid := mkUUID 0 I.
Definition toy_time : datetime := mkDatetime 0 true.

(** The server: one page holds every matching key. *)
Definition matching (K : gset pybytes) (m : pystr) : list vkey :=
  KBytes <$> List.filter (λ b, py_startswith b (removesuffix_star m)) (elements K).

Definition toy_page (K : gset pybytes) (m : pystr) (c next : Z) (ks : list vkey) : Prop := next = 0 ∧ ks = matching K m.

Definition toy_valkey : ValkeyCommands outside := mkValkey outside
  (λ _ m _ _ o, (Ok (PyInt 0, Some (matching (ou_keys o) m)), o))
  (λ ks _ o,
    let gone := omap (λ k, match k with KBytes b => Some b | _ => None end) ks in
    (Ok (PyInt (Z.of_nat (length ks))), set_keys o (ou_keys o ∖ list_to_set gone))).

#[export] Instance toy_server : ValkeyServer toy_valkey ou_keys toy_page.
Proof.
  split.
  - by intros c m n t e r e' [= <- <-].
  - by intros c m n t e next ks e' [= <- <- <-].
  - intros ks t e r e' [= <- <-]. cbn. set_solver.
  - intros ks t e r e' b [= <- <-]. cbn. intros Hb Hno.
    assert (Hg : b ∈ omap (λ k, match k with KBytes b => Some b | _ => None end) ks).
    { destruct (decide (b ∈ omap (λ k, match k with KBytes b => Some b | _ => None end) ks)); [done|]. set_solver. }
    apply list_elem_of_omap in Hg as (k & Hk & Hkb). exists k. split; [done|]. destruct k; by simplify_eq.
Qed.

Lemma toy_complete : scan_complete toy_page.
Proof.
  intros K p pages b Hit Hb Hs. assert (Hin : KBytes b ∈ matching K (project_key_pattern p)).
  { unfold matching. rewrite pattern_prefix. apply list_elem_of_fmap. exists b. split; [done|].
    apply list_elem_of_In, filter_In. split; [|done]. by apply list_elem_of_In, elem_of_elements. }
  destruct Hit as [c ks [_ ->]|c next ks pages [_ ->] _];
    eexists _, (KBytes b); (split; [by left|done]).
Qed.

(** The database: claims, batches of one target, checkpoints. *)
Definition done_ {A} (a : A) : xport outside A := λ o, (Ok a, o).
Definition guarded {A} (a : A) : xport outside A := λ o, (if ou_lease_ok o then Ok a else Err LeaseLost, o).

Definition toy_db : ErasureDb outside := mkErasureDb outside
  (λ _ _ _, done_ None) (λ _ _ _ _, done_ None)
  (λ _ _ _, guarded toy_time)
  (λ _ _, guarded (mkStepOutcome crypto_erased 0 1 ok))
  (λ _ _ _ after _ _, guarded (match after with None => [mkTraceManifestRef no_uuid (of_ascii "fs://x")] | Some _ => [] end))
  (λ _ _ _ _ _, guarded tt)
  (λ _ _ o, (Ok (mkStepOutcome crypto_erased (Z.of_nat (length (ou_pending o))) 1 ok), o))
  (λ _ _ _ o, (Ok (mkPrimaryBatch [] 1 (ou_rows o - 1) 1 (repeat 0 32)),
     mkOutside (ou_clock o) (ou_keys o) (ou_pending o) (ou_rows o - 1) (ou_closed o) (ou_lease_ok o)))
  (λ _ _ c _ o, (if ou_lease_ok o then Ok (take 1 (snd <$> List.filter (λ w, bool_decide (w.1 = c)) (ou_pending o))) else Err LeaseLost, o))
  (λ _ _ work _ o, (Ok tt, mkOutside (ou_clock o) (ou_keys o)
     (List.filter (λ w, negb (bool_decide (ew_work_id w.2 = ew_work_id work))) (ou_pending o)) (ou_rows o) (ou_closed o) (ou_lease_ok o)))
  (λ _ _ c _ _ o,
    let closed := c :: ou_closed o in
    (Ok (mkStepOutcome (if bool_decide (length closed = 4%nat) then external_purged else primary_purged) 0 1 ok),
     mkOutside (ou_clock o) (ou_keys o) (ou_pending o) (ou_rows o) closed (ou_lease_ok o)))
  (λ _ _, guarded (mkStepOutcome scope_complete 0 1 ok))
  (λ _ _ _ _ _, guarded tt)
  (λ _ _, guarded tt).

(** The trace store: narrow operations, without the progress hook. *)
Definition toy_result : reply := AStoreResult (mkStoreResult already_absent 0 (repeat 7 32)).
Definition toy_trace : Store outside :=
  let op {A} : store_operation outside A := mkOperation false (λ _ _, do _ ← pcall (done_ tt); pret toy_result)%prog in
  mkStore (Method (λ _ _ _, done_ (FrameBytes [1; 2; 3]))) (Method op) (Method op) (Method op) (Method op).

Definition toy_stores (c : ExternalStoreCode) : option (Store outside) :=
  match c with
  | trace_fs_v1 => Some toy_trace
  | valkey_v1 => Some (valkey_store toy_sha toy_valkey 500 10)
  | vector_none | graph_none => Some (fixed_store toy_sha c not_configured)
  | _ => None
  end.

Lemma toy_honest c s : toy_stores c = Some s → HonestStore s.
Proof. destruct c; try discriminate; intros [= <-]; try apply _. split; cbn; by intros. Qed.

Definition toy_manifest : list ExternalStoreCode := [graph_none; trace_fs_v1; valkey_v1; vector_none].
Definition toy_lease : ErasureLease :=
  mkErasureLease no_uuid no_uuid scope_subject fenced 1 no_uuid toy_time 1.

Definition project_zero : ProjectId := mkProjectId no_uuid.
Definition project_one : ProjectId := mkProjectId (mkUUID 1 I).

(** One run to erase, one cache namespace to flush, two projects in the cache. *)
Definition toy_work : ExternalWork := mkExternalWork no_uuid kind_run (Some no_uuid) 1 1.
Definition cache_work : ExternalWork := mkExternalWork (mkUUID 1 I) kind_project None 1 1.
Definition toy_outside (lease_ok : bool) : outside :=
  mkOutside 0 {[namespace project_zero ++ [1]; namespace project_one ++ [1]]}
    [(trace_fs_v1, toy_work); (valkey_v1, cache_work)] 2 [] lease_ok.

Definition toy_world (lease_ok : bool) : world outside := mkWorld (toy_outside lease_ok) 0%float toy_lease step_fence [].

Definition toy_run (heartbeat : Z) (lease_ok : bool) : outcome StepOutcome * world outside :=
  run_lease toy_sha toy_db toy_now toy_stores toy_manifest (of_ascii "w") 90 heartbeat 100 9%float 10 toy_lease (toy_world lease_ok).

Example toy_run_completes :
  (toy_run 20 true).1 = Done (Ok (mkStepOutcome scope_complete 0 1 ok)) ∧ ou_pending (w_env (toy_run 20 true).2) = []
  ∧ bool_decide (ou_keys (w_env (toy_run 20 true).2) = {[namespace project_one ++ [1]]}) = true.
Proof. by vm_compute. Qed.

Example toy_run_loses : (toy_run 20 false).1 = Done (Err LeaseLost).
Proof. by vm_compute. Qed.

(** A database whose closure moves while a store is being closed (its P0014). *)
Definition moving_db : ErasureDb outside := mkErasureDb outside
  (db_claim_next toy_db) (db_claim_request toy_db) (db_renew toy_db) (db_crypto_step toy_db) (db_trace_refs_batch toy_db)
  (db_seal_trace_manifest toy_db) (db_prepare_primary toy_db) (db_primary_batch toy_db) (db_external_work_batch toy_db)
  (db_mark_external_work toy_db) (λ _ _ _ _ _ o, (Err ClosureChanged, o)) (db_verify_and_complete toy_db)
  (db_fail toy_db) (db_release toy_db).

Definition moving_run : outcome StepOutcome * world outside :=
  run_lease toy_sha moving_db toy_now toy_stores toy_manifest (of_ascii "w") 90 20 100 9%float 10 toy_lease (toy_world true).

(** The change is reported as an unavailable dependency. *)
Example closure_change_while_closing :
  moving_run.1 = Done (Err OtherTracebed) ∧
  last (w_log moving_run.2) = Some (Db (Fail step_graph retryable dependency_unavailable) (Ok Nothing)).
Proof. by vm_compute. Qed.

(** ** Witnesses *)

Definition toy_log : list event := w_log (toy_run 20 true).2.

Lemma erasure_follows_protocol_witness :
  ∃ ld, ledger_run toy_sha toy_manifest no_uuid scope_subject ledger_init toy_log = Some ld.
Proof.
  destruct (erasure_follows_protocol toy_sha toy_db toy_now toy_stores toy_manifest (of_ascii "w") 90 20 100 9%float 10
    toy_lease (toy_world true) (toy_run 20 true).1 (toy_run 20 true).2) as (ld & Hld & _).
  - apply toy_honest.
  - reflexivity.
  - unfold toy_run. apply surjective_pairing.
  - by exists ld.
Defined.

Lemma nothing_after_lost_lease_witness :
  w_log (toy_run 20 false).2 = [Db CryptoStep (Err LeaseLost)] ∧ ∀ out, (toy_run 20 false).1 ≠ Done (Ok out).
Proof.
  split; [by vm_compute|].
  apply (nothing_after_lost_lease toy_sha toy_db toy_now toy_stores toy_manifest (of_ascii "w") 90 20 100 9%float 10
    toy_lease (toy_world false) (toy_run 20 false).1 (toy_run 20 false).2 [] (Db CryptoStep (Err LeaseLost)) []).
  - apply toy_honest.
  - reflexivity.
  - unfold toy_run. apply surjective_pairing.
  - by vm_compute.
  - reflexivity.
Defined.

Lemma marked_targets_were_proved_witness :
  ∃ port t s l0 io1 beats1 io2 beats2,
    toy_stores trace_fs_v1 = Some port ∧ target_of toy_work = Some t ∧
    take 31 toy_log = (l0 ++ Begin trace_fs_v1 Erase no_uuid t :: io1 ++ Finish trace_fs_v1 Erase no_uuid t (AStoreResult s) :: beats1)
      ++ Begin trace_fs_v1 Verify no_uuid t :: io2 ++ Finish trace_fs_v1 Verify no_uuid t toy_result :: beats2 ∧
    deleted toy_db toy_now (of_ascii "w") 90 20 9%float toy_lease trace_fs_v1 port no_uuid t (AStoreResult s)
      (l0 ++ [Begin trace_fs_v1 Erase no_uuid t]) io1 ∧
    proved_absent toy_db toy_now (of_ascii "w") 90 20 9%float toy_lease trace_fs_v1 port no_uuid t toy_result
      ((l0 ++ Begin trace_fs_v1 Erase no_uuid t :: io1 ++ Finish trace_fs_v1 Erase no_uuid t (AStoreResult s) :: beats1)
       ++ [Begin trace_fs_v1 Verify no_uuid t]) io2 ∧
    Forall (during trace_fs_v1) io1 ∧ Forall heartbeat_event beats1 ∧ Forall (during trace_fs_v1) io2 ∧ Forall heartbeat_event beats2.
Proof.
  apply (marked_targets_were_proved toy_sha toy_db toy_now toy_stores toy_manifest (of_ascii "w") 90 20 100 9%float 10
    toy_lease (toy_world true) (toy_run 20 true).1 (toy_run 20 true).2 (take 31 toy_log) trace_fs_v1 toy_work
    (mkStoreResult already_absent 0 (repeat 7 32)) (Ok Nothing) (drop 32 toy_log)).
  - apply toy_honest.
  - reflexivity.
  - unfold toy_run. apply surjective_pairing.
  - by vm_compute.
Defined.

Lemma completion_needs_every_store_witness : primary_empty (take 89 toy_log) ∧ closes (take 89 toy_log) = toy_manifest.
Proof.
  destruct (completion_needs_every_store toy_sha toy_db toy_now toy_stores toy_manifest (of_ascii "w") 90 20 100 9%float 10
    toy_lease (toy_world true) (toy_run 20 true).1 (toy_run 20 true).2 (take 89 toy_log)
    (Ok (AnOutcome (mkStepOutcome scope_complete 0 1 ok))) []) as [Hp _].
  - apply toy_honest.
  - reflexivity.
  - unfold toy_run. apply surjective_pairing.
  - by vm_compute.
  - split; [exact Hp|by vm_compute].
Defined.

Lemma failures_leave_one_receipt_witness :
  moving_run.1 = Done (Err OtherTracebed) ∧
  ((∃ l step, w_log moving_run.2 = l ++ [Db (Fail step retryable dependency_unavailable) (Ok Nothing)]) ∨
   ∃ l step r' c', w_log moving_run.2 = l ++ [Db (Fail step r' c') (Err OtherTracebed)]).
Proof.
  assert (Ho : moving_run.1 = Done (Err OtherTracebed)) by by vm_compute. split; [exact Ho|].
  destruct (failures_leave_one_receipt toy_sha moving_db toy_now toy_stores toy_manifest (of_ascii "w") 90 20 100 9%float 10
    toy_lease (toy_world true) moving_run.1 moving_run.2) as (_ & _ & H).
  - apply toy_honest.
  - reflexivity.
  - unfold moving_run. apply surjective_pairing.
  - by apply (H OtherTracebed retryable dependency_unavailable).
Defined.

(** The erase operation of the cache adapter alone, without a hook. *)
Definition flush_run : outcome reply * world outside :=
  run_prog toy_now valkey_v1 None (valkey_erase toy_sha toy_valkey 500 10 no_uuid 9%float) (toy_world true).
Definition proof_run : outcome reply * world outside :=
  run_prog toy_now valkey_v1 None (valkey_verify toy_sha toy_valkey 500 10 no_uuid 9%float) flush_run.2.

Lemma valkey_erases_one_project_witness :
  is_Some (match flush_run.1 with Done (Ok r) => Some r | _ => None end) ∧
  (∀ b, b ∈ ou_keys (w_env (toy_world true)) → py_startswith b (namespace project_zero) = false →
     b ∈ ou_keys (w_env flush_run.2)).
Proof.
  split; [by vm_compute; eexists|].
  apply (valkey_erases_one_project toy_valkey ou_keys toy_page toy_sha 500 10 project_zero 9%float toy_now valkey_v1 None
    (toy_world true) flush_run.2 flush_run.1).
  - apply toy_complete.
  - done.
  - discriminate.
  - unfold flush_run. apply surjective_pairing.
Defined.

Lemma valkey_proof_of_absence_witness :
  w_log proof_run.2 ≠ [] ∧ ∀ b, b ∈ ou_keys (w_env flush_run.2) → py_startswith b (namespace project_zero) = false.
Proof.
  split; [vm_compute; discriminate|].
  assert (Hok : match proof_run.1 with Done (Ok _) => True | _ => False end) by (vm_compute; exact I).
  destruct proof_run as [[[r|e]|] w'] eqn:Hr; [|destruct Hok..].
  apply (valkey_proof_of_absence toy_valkey ou_keys toy_page toy_sha 500 10 project_zero 9%float toy_now valkey_v1 None
    flush_run.2 w' r).
  - apply toy_complete.
  - done.
  - discriminate.
  - exact Hr.
Defined.
