(* ===== verification/Blackboard.v ===== *)
(** * The run blackboard (workflow/blackboard.py, stores/pg/blackboard.py)

    Proposals with their content address, and the repository's three methods.  A method is
    a check of its arguments, the body of its [with scoped(...)] block - a tree of SQL
    statements, [txn] - and what it does after the block; BlackboardRaces.v runs many of
    them interleaved.  [isolation] is the level the connection reports, [now] what the
    clock answers inside the block.  The hash is the parameter [sha256], the order of
    text columns (the collation of the database) the parameter [text_leb]. *)

From Stdlib Require Import Floats.
From S2P Require Import Prelude Domain PyText Json Memory.
Open Scope Z_scope.

(** ** Errors *)

Inductive bb_error :=
| BbValueError
| BlackboardCommitUnresolved
| BlackboardKeyConflict (key branch_id winning_value_ref winning_author : pystr)
| DatabaseError.

Inductive CommitOutcome := Committed | Converged.

Definition STATUS_COMMITTED : pystr := of_ascii "committed".

(** ** Proposals *)

Definition BTREE_MAX_ITEM_BYTES : Z := 2704.
Definition PK_UUID_COLUMN_BYTES : Z := 16 * 2.
Definition INDEX_TUPLE_HEADER_SLACK_BYTES : Z := 64.
Definition MAX_BLACKBOARD_KEY_BYTES : Z :=
  BTREE_MAX_ITEM_BYTES - PK_UUID_COLUMN_BYTES - INDEX_TUPLE_HEADER_SLACK_BYTES.

Record BlackboardProposal := mkProposal {
  bp_project_id : ProjectId;
  bp_run_id : RunId;
  bp_branch_id : pystr;
  bp_author_agent : PrincipalId;
  bp_key : pystr;
  bp_value_ref : pystr;
}.

(** The call site of the constructor, three frames up: the module and the qualified name
    of its code, or [None] when the stack is shallower than that. *)
Record call_site := mkSite { site_module : pystr; site_qualname : pystr }.

Definition BLACKBOARD_MODULE : pystr := of_ascii "tracebed.workflow.blackboard".
Definition CREATE_QUALNAME : pystr := of_ascii "BlackboardProposal.create".

Definition guard_construction_site (caller : option call_site) : result exn unit :=
  match caller with
  | Some c =>
      check! bool_decide (site_module c = BLACKBOARD_MODULE) && bool_decide (site_qualname c = CREATE_QUALNAME)
      else TypeError in Ok tt
  | None => Err TypeError
  end.

Definition proposal_post_init (caller : option call_site) (p : BlackboardProposal) : result exn BlackboardProposal :=
  check! negb (bool_decide (bp_branch_id p = [])) else ValueError in
  check! negb (bool_decide (bp_key p = [])) else ValueError in
  let! b := utf8_encode (bp_branch_id p) in
  let! k := utf8_encode (bp_key p) in
  check! Z.of_nat (length b) + Z.of_nat (length k) <=? MAX_BLACKBOARD_KEY_BYTES else ValueError in
  let! _ := guard_construction_site caller in
  Ok p.

Section Create.
Context (sha256 : list Z → list Z).

Definition compute_value_ref (value : json) : result exn pystr :=
  let! bytes := canonical_json value in Ok (bytes_hex (sha256 bytes)).

Definition proposal_create (scope : ProjectScope) (run_id : RunId) (branch_id key : pystr) (value : json)
  : result exn BlackboardProposal :=
  let! ref := compute_value_ref value in
  proposal_post_init (Some (mkSite BLACKBOARD_MODULE CREATE_QUALNAME))
    (mkProposal (sc_project_id scope) run_id branch_id (sc_principal_id scope) key ref).

End Create.

(** ** Rows *)

Record BlackboardEntryRow := mkEntry {
  be_project_id : ProjectId;
  be_run_id : RunId;
  be_branch_id : pystr;
  be_author_agent : PrincipalId;
  be_key : pystr;
  be_value_ref : pystr;
  be_status : pystr;
  be_created_at : Z;
}.

Record BlackboardCommitResult := mkCommitResult {
  cr_outcome : CommitOutcome;
  cr_project_id : ProjectId;
  cr_run_id : RunId;
  cr_branch_id : pystr;
  cr_key : pystr;
  cr_value_ref : pystr;
  cr_author_agent : PrincipalId;
  cr_created_at : Z;
}.

(** What the driver hands back for a row of [blackboard_entry]. *)
Record entry_row := mkEntryRow {
  er_project_id : ProjectId;
  er_run_id : RunId;
  er_branch_id : pystr;
  er_author_agent : PrincipalId;
  er_key : pystr;
  er_value_ref : option pystr;
  er_status : option pystr;
  er_created_at : Z;
}.

Abbreviation entry_pk := (ProjectId * RunId * pystr * pystr)%type.

Definition row_pk (r : entry_row) : entry_pk := (er_project_id r, er_run_id r, er_branch_id r, er_key r).
Definition proposal_pk (p : BlackboardProposal) : entry_pk := (bp_project_id p, bp_run_id p, bp_branch_id p, bp_key p).
Definition existing_pk (e : BlackboardEntryRow) : entry_pk :=
  (be_project_id e, be_run_id e, be_branch_id e, be_key e).

Definition row_to_entry (r : entry_row) : result bb_error BlackboardEntryRow :=
  match er_value_ref r, er_status r with
  | Some v, Some s =>
      Ok (mkEntry (er_project_id r) (er_run_id r) (er_branch_id r) (er_author_agent r) (er_key r) v s (er_created_at r))
  | _, _ => Err BbValueError
  end.

Definition commit_result (o : CommitOutcome) (e : BlackboardEntryRow) : BlackboardCommitResult :=
  mkCommitResult o (be_project_id e) (be_run_id e) (be_branch_id e) (be_key e) (be_value_ref e) (be_author_agent e)
    (be_created_at e).

Definition resolve_after_conflict (p : BlackboardProposal) (existing : BlackboardEntryRow)
  : result bb_error BlackboardCommitResult :=
  check! bool_decide (proposal_pk p = existing_pk existing) else BbValueError in
  if bool_decide (be_value_ref existing = bp_value_ref p) then Ok (commit_result Converged existing)
  else Err (BlackboardKeyConflict (bp_key p) (bp_branch_id p) (be_value_ref existing)
              (uuid_str (PrincipalId_value (be_author_agent existing)))).

(** ** The body of a transaction *)

Inductive txn (R : Type) :=
| Leave (r : R)
| InsertEntry (row : entry_row) (k : option entry_row → txn R)
| SelectEntry (pk : entry_pk) (k : option entry_row → txn R)
| SelectEntries (project : ProjectId) (run : RunId) (branch : option pystr) (limit : Z) (k : list entry_row → txn R).
Arguments Leave {R} r.
Arguments InsertEntry {R} row k.
Arguments SelectEntry {R} pk k.
Arguments SelectEntries {R} project run branch limit k.

Inductive IsolationLevel := READ_UNCOMMITTED | READ_COMMITTED | REPEATABLE_READ | SERIALIZABLE.

#[export] Instance IsolationLevel_eq_dec : EqDecision IsolationLevel.
Proof. solve_decision. Defined.

Definition require_read_committed (level : option IsolationLevel) : result bb_error unit :=
  check! bool_decide (level ∈ [None; Some READ_COMMITTED]) else BlackboardCommitUnresolved in Ok tt.

(** The values the INSERT binds. *)
Definition proposal_row (p : BlackboardProposal) (now : Z) : entry_row :=
  mkEntryRow (bp_project_id p) (bp_run_id p) (bp_branch_id p) (bp_author_agent p) (bp_key p) (Some (bp_value_ref p))
    (Some STATUS_COMMITTED) now.

(** ** The repository

    How a block ends: with the method's value, or (a commit that lost) with the row it
    lost to.  An [Err] leaves the block by an exception, so that it is rolled back. *)

Inductive answer :=
| AResult (r : BlackboardCommitResult)
| AEntry (e : option BlackboardEntryRow)
| AEntries (l : list BlackboardEntryRow).

Inductive exit := Answer (a : answer) | LostTo (p : BlackboardProposal) (existing : BlackboardEntryRow).

Definition commit_guard (scope : ProjectScope) (p : BlackboardProposal) : result bb_error unit :=
  check! bool_decide (bp_project_id p = sc_project_id scope) else BbValueError in
  check! bool_decide (bp_author_agent p = sc_principal_id scope) else BbValueError in
  Ok tt.

(** Inside the block: the read-back after a lost insert, and what follows the insert. *)
Definition commit_read_back (p : BlackboardProposal) (existing_row : option entry_row) : txn (result bb_error exit) :=
  match existing_row with
  | None => Leave (Err BlackboardCommitUnresolved)
  | Some r => Leave (let! existing := row_to_entry r in Ok (LostTo p existing))
  end.

Definition commit_inserted (p : BlackboardProposal) (won : option entry_row) : txn (result bb_error exit) :=
  match won with
  | Some r => Leave (let! stored := row_to_entry r in Ok (Answer (AResult (commit_result Committed stored))))
  | None => SelectEntry (proposal_pk p) (commit_read_back p)
  end.

Definition commit_block (p : BlackboardProposal) (isolation : option IsolationLevel) (now : Z)
  : txn (result bb_error exit) :=
  match require_read_committed isolation with
  | Err e => Leave (Err e)
  | Ok _ => InsertEntry (proposal_row p now) (commit_inserted p)
  end.

Definition get_read (row : option entry_row) : txn (result bb_error exit) :=
  Leave match row with
        | Some r => let! e := row_to_entry r in Ok (Answer (AEntry (Some e)))
        | None => Ok (Answer (AEntry None))
        end.

Definition get_block (scope : ProjectScope) (run_id : RunId) (branch_id key : pystr) : txn (result bb_error exit) :=
  SelectEntry (sc_project_id scope, run_id, branch_id, key) get_read.

Definition MAX_BLACKBOARD_ROW_LIMIT : Z := 1000.

Definition list_read (rows : list entry_row) : txn (result bb_error exit) :=
  Leave (let! es := rmap row_to_entry rows in Ok (Answer (AEntries es))).

Definition list_block (scope : ProjectScope) (run_id : RunId) (branch_id : option pystr) (limit : Z)
  : txn (result bb_error exit) :=
  let bounded := Z.max 1 (Z.min limit MAX_BLACKBOARD_ROW_LIMIT) in
  SelectEntries (sc_project_id scope) run_id branch_id bounded list_read.

Inductive op :=
| OpCommit (p : BlackboardProposal) (isolation : option IsolationLevel) (now : Z)
| OpGet (run_id : RunId) (branch_id key : pystr)
| OpList (run_id : RunId) (branch_id : option pystr) (limit : Z).

Definition op_guard (scope : ProjectScope) (o : op) : result bb_error unit :=
  match o with OpCommit p _ _ => commit_guard scope p | _ => Ok tt end.

Definition op_block (scope : ProjectScope) (o : op) : txn (result bb_error exit) :=
  match o with
  | OpCommit p isolation now => commit_block p isolation now
  | OpGet run branch key => get_block scope run branch key
  | OpList run branch limit => list_block scope run branch limit
  end.

(** After the block: a commit that lost decides whether it converged. *)
Definition op_after (x : exit) : result bb_error answer :=
  match x with
  | Answer a => Ok a
  | LostTo p existing => let! r := resolve_after_conflict p existing in Ok (AResult r)
  end.

(** ** Proposals: what [create] accepts *)

Definition text_bytes (s : pystr) : nat := match utf8_encode s with Ok b => length b | Err _ => 0 end.

(** A proposal carries the caller's own project and principal and the address of the value,
    and its primary key fits an index tuple. *)
Lemma proposal_create_Ok sha256 scope run branch key v p :
  proposal_create sha256 scope run branch key v = Ok p ↔
  ∃ bytes, canonical_json v = Ok bytes
  ∧ p = mkProposal (sc_project_id scope) run branch (sc_principal_id scope) key (bytes_hex (sha256 bytes))
  ∧ branch ≠ [] ∧ key ≠ [] ∧ is_ok (utf8_encode branch) = true ∧ is_ok (utf8_encode key) = true
  ∧ Z.of_nat (text_bytes branch) + Z.of_nat (text_bytes key) + PK_UUID_COLUMN_BYTES + INDEX_TUPLE_HEADER_SLACK_BYTES
    <= BTREE_MAX_ITEM_BYTES.
Proof.
  unfold proposal_create, compute_value_ref, proposal_post_init, text_bytes, guard_construction_site.
  cbn [bp_branch_id bp_key site_module site_qualname]. rewrite (bool_decide_eq_true_2 (BLACKBOARD_MODULE = _)), (bool_decide_eq_true_2 (CREATE_QUALNAME = _)) by done.
  destruct (canonical_json v) as [bytes|e]; cbn [rbind]; [|split; [done|by intros (? & ? & _)]].
  case_bool_decide; cbn [negb]; [split; [done|by intros (? & _ & _ & ? & _)]|].
  case_bool_decide; cbn [negb]; [split; [done|by intros (? & _ & _ & _ & ? & _)]|].
  destruct (utf8_encode branch) as [b|e]; cbn [rbind is_ok]; [|split; [done|by intros (? & _ & _ & _ & _ & ? & _)]].
  destruct (utf8_encode key) as [k|e]; cbn [rbind is_ok]; [|split; [done|by intros (? & _ & _ & _ & _ & _ & ? & _)]].
  unfold MAX_BLACKBOARD_KEY_BYTES. case_match eqn:E; cbn [andb].
  - apply Z.leb_le in E. split; [intros [= <-]; exists bytes; split_and!; try done; lia|].
    by intros (? & [= <-] & -> & _).
  - apply Z.leb_gt in E. split; [done|]. intros (? & _ & _ & _ & _ & _ & _ & ?). lia.
Qed.

(** ** Rows and their resolution *)

Definition entry_of (p : BlackboardProposal) (now : Z) : BlackboardEntryRow :=
  mkEntry (bp_project_id p) (bp_run_id p) (bp_branch_id p) (bp_author_agent p) (bp_key p) (bp_value_ref p)
    STATUS_COMMITTED now.

Lemma row_to_entry_proposal p now : row_to_entry (proposal_row p now) = Ok (entry_of p now).
Proof. done. Qed.

Lemma row_to_entry_pk r e : row_to_entry r = Ok e → existing_pk e = row_pk r.
Proof. unfold row_to_entry. by destruct (er_value_ref r), (er_status r); intros [= <-]. Qed.

Lemma commit_guard_Ok scope p :
  commit_guard scope p = Ok tt ↔ bp_project_id p = sc_project_id scope ∧ bp_author_agent p = sc_principal_id scope.
Proof. unfold commit_guard. repeat case_bool_decide; naive_solver. Qed.

Lemma commit_guard_cases scope p : commit_guard scope p = Ok tt ∨ commit_guard scope p = Err BbValueError.
Proof. unfold commit_guard. repeat case_bool_decide; auto. Qed.
