(* ===== verification/BlackboardRaces.v ===== *)
(** * Commits racing for blackboard keys

    Any number of repository calls (Blackboard.v) run interleaved, one SQL statement at a
    time, against the table [blackboard_entry] at READ COMMITTED: a statement sees what is
    committed when it starts and what its own transaction wrote, an INSERT waits while
    another transaction holds an uncommitted row with its primary key, and row level
    security confines a transaction to the project of its scope.  A statement may fail,
    and the acknowledgement of a COMMIT may be lost after the server applied it.

    The invariant [race_inv] holds in every reachable state; from it follow what each
    answer means, who wrote each row, that nothing deadlocks, and how a race ends. *)

From stdpp Require Import fin_maps.
From Stdlib Require Import Floats.
From S2P Require Import Prelude Domain PyText Json Memory Blackboard.
Open Scope Z_scope.

(** ** The table *)

Abbreviation table := (gmap entry_pk entry_row).

(** Row level security: a statement sees the rows of the project in the session variable. *)
Definition rls_visible (guc : ProjectId) (t : table) : table := filter (λ kv, er_project_id kv.2 = guc) t.

(** ORDER BY created_at DESC, branch_id ASC, key ASC *)
Definition entry_leb (text_leb : pystr → pystr → bool) (a b : entry_row) : bool :=
  if er_created_at a =? er_created_at b then
    if bool_decide (er_branch_id a = er_branch_id b) then text_leb (er_key a) (er_key b)
    else text_leb (er_branch_id a) (er_branch_id b)
  else er_created_at b <? er_created_at a.

Definition select_entries (text_leb : pystr → pystr → bool) (project : ProjectId) (run : RunId) (branch : option pystr)
  (limit : Z) (t : table) : list entry_row :=
  take (Z.to_nat limit) (py_sorted (entry_leb text_leb)
    (List.filter (λ r, bool_decide (er_project_id r = project) && bool_decide (er_run_id r = run)
                       && match branch with Some b => bool_decide (er_branch_id r = b) | None => true end)
       ((map_to_list t).*2))).

(** ** Sessions *)

Abbreviation block := (txn (result bb_error exit)).

Inductive session :=
| Waiting (scope : ProjectScope) (o : op)
| InBlock (scope : ProjectScope) (o : op) (pending : table) (rest : block)
| Returned (scope : ProjectScope) (o : op) (r : result bb_error answer).

Definition call_of (s : session) : ProjectScope * op :=
  match s with Waiting sc o | InBlock sc o _ _ | Returned sc o _ => (sc, o) end.
Definition pending_of (s : session) : table := match s with InBlock _ _ p _ => p | _ => ∅ end.

Record world := mkWorld { committed : table; sessions : gmap nat session }.

Definition start (t : table) (calls : gmap nat (ProjectScope * op)) : world :=
  mkWorld t ((λ c, Waiting c.1 c.2) <$> calls).

Inductive event := Go | StatementFails | LoseAck.

Section Run.
Context (text_leb : pystr → pystr → bool).

(** Does another transaction hold an uncommitted row with this key? *)
Definition held (i : nat) (pk : entry_pk) (ss : gmap nat session) : bool :=
  negb (bool_decide (map_Forall (λ j s, j = i ∨ pending_of s !! pk = None) ss)).

Definition put (i : nat) (s : session) (t : table) (w : world) : world := mkWorld t (<[i := s]> (sessions w)).

(** One step of session [i]; [None] when it cannot move. *)
Definition exec (i : nat) (ev : event) (w : world) : option world :=
  let t := committed w in
  match sessions w !! i with
  | None | Some (Returned _ _ _) => None
  | Some (Waiting sc o) =>
      match op_guard sc o, ev with
      | Err e, Go => Some (put i (Returned sc o (Err e)) t w)
      | Ok _, Go => Some (put i (InBlock sc o ∅ (op_block sc o)) t w)
      | Ok _, StatementFails => Some (put i (Returned sc o (Err DatabaseError)) t w)
      | _, _ => None
      end
  | Some (InBlock sc o pend (Leave (Err e))) =>
      match ev with LoseAck => None | _ => Some (put i (Returned sc o (Err e)) t w) end
  | Some (InBlock sc o pend (Leave (Ok x))) =>
      match ev with
      | Go => Some (put i (Returned sc o (op_after x)) (pend ∪ t) w)
      | LoseAck => Some (put i (Returned sc o (Err DatabaseError)) (pend ∪ t) w)
      | StatementFails => Some (put i (Returned sc o (Err DatabaseError)) t w)
      end
  | Some (InBlock sc o pend rest) =>
      match ev, rest with
      | StatementFails, _ => Some (put i (Returned sc o (Err DatabaseError)) t w)
      | Go, InsertEntry row k =>
          if negb (bool_decide (er_project_id row = sc_project_id sc))
          then Some (put i (Returned sc o (Err DatabaseError)) t w)
          else if held i (row_pk row) (sessions w) then None
          else match (pend ∪ t) !! row_pk row with
               | Some _ => Some (put i (InBlock sc o pend (k None)) t w)
               | None => Some (put i (InBlock sc o (<[row_pk row := row]> pend) (k (Some row))) t w)
               end
      | Go, SelectEntry pk k =>
          Some (put i (InBlock sc o pend (k (rls_visible (sc_project_id sc) (pend ∪ t) !! pk))) t w)
      | Go, SelectEntries project run branch limit k =>
          Some (put i (InBlock sc o pend
                  (k (select_entries text_leb project run branch limit (rls_visible (sc_project_id sc) (pend ∪ t))))) t w)
      | _, _ => None
      end
  end.

Definition step (w w' : world) : Prop := ∃ i ev, exec i ev w = Some w'.
Definition go_step (w w' : world) : Prop := ∃ i, exec i Go w = Some w'.

(** No session can move any more. *)
Definition quiet (w : world) : Prop := ∀ i, exec i Go w = None.

End Run.

(** ** What an answer says about the table *)

Definition safe_isolation (l : option IsolationLevel) : Prop := l ∈ [None; Some READ_COMMITTED].

(** The entry the table holds under a key. *)
Definition holds (t : table) (pk : entry_pk) (e : BlackboardEntryRow) : Prop :=
  ∃ row, t !! pk = Some row ∧ row_to_entry row = Ok e.

Definition truthful (t : table) (sc : ProjectScope) (o : op) (r : result bb_error answer) : Prop :=
  match o, r with
  | OpCommit p iso now, Ok (AResult c) =>
      commit_guard sc p = Ok tt ∧ ∃ e, holds t (proposal_pk p) e ∧ be_value_ref e = bp_value_ref p
        ∧ (c = commit_result Committed e ∧ e = entry_of p now ∨ c = commit_result Converged e)
  | OpCommit p iso now, Err (BlackboardKeyConflict k b v a) =>
      commit_guard sc p = Ok tt ∧ ∃ e, holds t (proposal_pk p) e ∧ be_value_ref e ≠ bp_value_ref p
        ∧ k = bp_key p ∧ b = bp_branch_id p ∧ v = be_value_ref e ∧ a = uuid_str (PrincipalId_value (be_author_agent e))
  | OpCommit p iso now, Err BlackboardCommitUnresolved => ¬ safe_isolation iso
  | OpCommit p iso now, Err BbValueError => commit_guard sc p = Err BbValueError
  | OpGet run b k, Ok (AEntry (Some e)) => holds t (sc_project_id sc, run, b, k) e
  | OpGet _ _ _, Ok (AEntry None) => True
  | OpList run b limit, Ok (AEntries es) =>
      (length es <= Z.to_nat MAX_BLACKBOARD_ROW_LIMIT)%nat
      ∧ ∀ e, e ∈ es → holds t (existing_pk e) e ∧ be_project_id e = sc_project_id sc ∧ be_run_id e = run
                      ∧ match b with Some b => be_branch_id e = b | None => True end
  | _, Err DatabaseError => True
  | _, _ => False
  end.

(** Session [i] answered "committed" for the key. *)
Definition won (w : world) (i : nat) (pk : entry_pk) : Prop :=
  ∃ sc p iso now c, sessions w !! i = Some (Returned sc (OpCommit p iso now) (Ok (AResult c)))
    ∧ cr_outcome c = Committed ∧ proposal_pk p = pk.

(** Session [i] wrote the row: it said so, or its acknowledgement was lost. *)
Definition wrote (w : world) (i : nat) (row : entry_row) : Prop :=
  ∃ sc p iso now r, sessions w !! i = Some (Returned sc (OpCommit p iso now) r)
    ∧ commit_guard sc p = Ok tt ∧ row = proposal_row p now
    ∧ (r = Ok (AResult (commit_result Committed (entry_of p now))) ∨ r = Err DatabaseError).

(** ** The invariant *)

(** Where a transaction stands; [t] is the committed table. *)
Inductive stage (t : table) (sc : ProjectScope) : op → table → block → Prop :=
| stage_start o : op_guard sc o = Ok tt → stage t sc o ∅ (op_block sc o)
| stage_won p iso now : commit_guard sc p = Ok tt →
    stage t sc (OpCommit p iso now) {[proposal_pk p := proposal_row p now]}
      (Leave (Ok (Answer (AResult (commit_result Committed (entry_of p now))))))
| stage_lost p iso now row e : commit_guard sc p = Ok tt → t !! proposal_pk p = Some row → row_to_entry row = Ok e →
    stage t sc (OpCommit p iso now) ∅ (SelectEntry (proposal_pk p) (commit_read_back p))
| stage_read p iso now e : commit_guard sc p = Ok tt → holds t (proposal_pk p) e →
    stage t sc (OpCommit p iso now) ∅ (Leave (Ok (LostTo p e)))
| stage_answered o a : (∀ p iso now, o ≠ OpCommit p iso now) → truthful t sc o (Ok a) →
    stage t sc o ∅ (Leave (Ok (Answer a))).

Definition session_ok (t : table) (s : session) : Prop :=
  match s with
  | Waiting _ _ => True
  | InBlock sc o pend rest => stage t sc o pend rest
  | Returned sc o r => truthful t sc o r
  end.

(** Rows sit under their own key and have no missing column (the table's constraints). *)
Definition table_ok (t : table) : Prop :=
  ∀ pk row, t !! pk = Some row → row_pk row = pk ∧ ∃ e, row_to_entry row = Ok e.

Record race_inv (t0 : table) (calls : gmap nat (ProjectScope * op)) (w : world) : Prop := {
  ri_table : table_ok (committed w);
  ri_grows : t0 ⊆ committed w;
  ri_calls : call_of <$> sessions w = calls;
  ri_sessions : ∀ i s, sessions w !! i = Some s → session_ok (committed w) s;
  ri_fresh : ∀ i s, sessions w !! i = Some s → pending_of s ##ₘ committed w;
  ri_apart : ∀ i j s s', i ≠ j → sessions w !! i = Some s → sessions w !! j = Some s' → pending_of s ##ₘ pending_of s';
  ri_writers : ∀ pk row, committed w !! pk = Some row → t0 !! pk = None → ∃ i, wrote w i row;
  ri_one : ∀ i j pk, won w i pk → won w j pk → i = j;
}.

(** ** The committed table only grows, and what was true stays true *)

Lemma holds_mono t t' pk e : t ⊆ t' → holds t pk e → holds t' pk e.
Proof. intros Ht (row & Hrow & He). exists row. split; [by eapply lookup_weaken|done]. Qed.

Lemma truthful_mono t t' sc o r : t ⊆ t' → truthful t sc o r → truthful t' sc o r.
Proof.
  intros Ht. unfold truthful.
  destruct o, r as [[c| [e|] |es]|[]]; try done.
  - intros (? & e & ? & ?). split; [done|]. exists e. split; [by eapply holds_mono|done].
  - intros (? & e & ? & ?). split; [done|]. exists e. split; [by eapply holds_mono|done].
  - by apply holds_mono.
  - intros [? H]. split; [done|]. intros e He. destruct (H e He) as (? & ?). split; [by eapply holds_mono|done].
Qed.

Lemma stage_mono t t' sc o pend rest : t ⊆ t' → stage t sc o pend rest → stage t' sc o pend rest.
Proof.
  intros Ht. destruct 1.
  - by apply stage_start.
  - by apply stage_won.
  - eapply stage_lost; [done|by eapply lookup_weaken|done].
  - apply stage_read; [done|by eapply holds_mono].
  - apply stage_answered; [done|by eapply truthful_mono].
Qed.

Lemma session_ok_mono t t' s : t ⊆ t' → session_ok t s → session_ok t' s.
Proof. intros Ht. destruct s; simpl; [done|by apply stage_mono|by apply truthful_mono]. Qed.

Lemma stage_guard t sc o pend rest : stage t sc o pend rest → op_guard sc o = Ok tt.
Proof.
  destruct 1 as [| | | |o a Ho]; try done. by destruct o as [p iso now| |]; [destruct (Ho p iso now)|..].
Qed.

(** ** Replacing one session *)

Section Update.
Context (t0 : table) (calls : gmap nat (ProjectScope * op)) (w : world) (i : nat) (s s' : session) (t' : table).
Hypothesis Hinv : race_inv t0 calls w.
Hypothesis Hs : sessions w !! i = Some s.
Hypothesis Hcall : call_of s' = call_of s.
Hypothesis Hrunning : ∀ sc o r, s ≠ Returned sc o r.

Lemma lookup_put j : sessions (put i s' t' w) !! j = if decide (i = j) then Some s' else sessions w !! j.
Proof. apply lookup_insert. Qed.

Lemma won_put j pk : won (put i s' t' w) j pk → j ≠ i → won w j pk.
Proof.
  intros (sc & p & iso & now & c & Hj & ?) Hne. rewrite lookup_put, decide_False in Hj by done. by exists sc, p, iso, now, c.
Qed.

Lemma wrote_put j row : wrote w j row → wrote (put i s' t' w) j row.
Proof.
  intros (sc & p & iso & now & r & Hj & ?). exists sc, p, iso, now, r. rewrite lookup_put, decide_False; [done|].
  intros <-. rewrite Hs in Hj. injection Hj as ->. by destruct (Hrunning sc (OpCommit p iso now) r).
Qed.

(** The obligations of a step that replaces session [i] and perhaps commits rows. *)
Lemma race_inv_put :
  table_ok t' → committed w ⊆ t' → session_ok t' s' → pending_of s' ##ₘ t' →
  (∀ j s2, j ≠ i → sessions w !! j = Some s2 → pending_of s' ##ₘ pending_of s2 ∧ pending_of s2 ##ₘ t') →
  (∀ pk row, t' !! pk = Some row → committed w !! pk = None → wrote (put i s' t' w) i row) →
  (∀ pk, won (put i s' t' w) i pk → committed w !! pk = None) →
  race_inv t0 calls (put i s' t' w).
Proof.
  intros Hok Hgrow Hs' Hfresh Hothers Hwrote Hwon. destruct Hinv as [Ht Hg Hc Hss Hf Ha Hw H1].
  split; cbn [put committed]; try done.
  - by transitivity (committed w).
  - rewrite <- Hc. unfold put. simpl. rewrite fmap_insert, Hcall. apply insert_id. by rewrite lookup_fmap, Hs.
  - intros j s2 Hj. rewrite lookup_put in Hj. case_decide; [by injection Hj as <-|].
    eapply session_ok_mono; [done|by eapply Hss].
  - intros j s2 Hj. rewrite lookup_put in Hj. case_decide; [by injection Hj as <-|]. by eapply Hothers.
  - intros j k s2 s3 Hjk Hj Hk. rewrite lookup_put in Hj, Hk.
    destruct (decide (i = j)) as [Hij|], (decide (i = k)) as [Hik|]; [congruence|..].
    + injection Hj as <-. eapply (Hothers k); congruence.
    + injection Hk as <-. apply map_disjoint_sym. eapply (Hothers j); congruence.
    + by eapply (Ha j k).
  - intros pk row Hrow Hpk. destruct (committed w !! pk) as [row'|] eqn:E.
    + assert (row' = row) as -> by (eapply (lookup_weaken _ _ _ _ E) in Hgrow; congruence).
      destruct (Hw _ _ E Hpk) as [j Hj]. exists j. by apply wrote_put.
    + exists i. by eapply Hwrote.
  - assert (Hmix : ∀ j pk, j ≠ i → won (put i s' t' w) i pk → won w j pk → False).
    { intros j pk Hji Hi (sc & p & iso & now & c & Hj & Hout & <-). apply Hwon in Hi. apply Hss in Hj. simpl in Hj.
      destruct Hj as (_ & e & (row & Hrow & _) & _). by rewrite Hi in Hrow. }
    intros j k pk Hj Hk. destruct (decide (j = i)) as [->|Hji], (decide (k = i)) as [->|Hki]; [done|..].
    + destruct (Hmix k pk); eauto using won_put.
    + destruct (Hmix j pk); eauto using won_put.
    + eapply H1; by eapply won_put.
Qed.


End Update.

(** A step that commits nothing, holds no new row and reports no win. *)
Lemma race_inv_quiet t0 calls w i s s' :
  race_inv t0 calls w → sessions w !! i = Some s → call_of s' = call_of s → (∀ sc o r, s ≠ Returned sc o r) →
  session_ok (committed w) s' → pending_of s' = ∅ →
  (∀ sc p iso now c, s' = Returned sc (OpCommit p iso now) (Ok (AResult c)) → cr_outcome c ≠ Committed) →
  race_inv t0 calls (put i s' (committed w) w).
Proof.
  intros Hinv Hs Hcall Hrun Hok Hpend Hwon. eapply race_inv_put; try done; [by destruct Hinv|..].
  - rewrite Hpend. apply map_disjoint_empty_l.
  - intros j s2 Hj Hs2. rewrite Hpend. split; [apply map_disjoint_empty_l|by eapply ri_fresh].
  - congruence.
  - intros pk (sc & p & iso & now & c & Hi & Hc & _). rewrite lookup_put, decide_True in Hi by done.
    injection Hi as Hi. by destruct (Hwon _ _ _ _ _ Hi).
Qed.

(** ** Every step preserves the invariant *)

Section Preserve.
Context (text_leb : pystr → pystr → bool) (t0 : table) (calls : gmap nat (ProjectScope * op)).

Lemma rls_lookup guc t pk row : rls_visible guc t !! pk = Some row ↔ t !! pk = Some row ∧ er_project_id row = guc.
Proof. unfold rls_visible. by rewrite map_lookup_filter_Some. Qed.

Lemma safe_isolation_block p iso now : safe_isolation iso →
  commit_block p iso now = InsertEntry (proposal_row p now) (commit_inserted p).
Proof. intros H. unfold commit_block, require_read_committed. by rewrite bool_decide_eq_true_2. Qed.

Lemma unsafe_isolation_block p iso now : ¬ safe_isolation iso →
  commit_block p iso now = Leave (Err BlackboardCommitUnresolved).
Proof. intros H. unfold commit_block, require_read_committed. by rewrite bool_decide_eq_false_2. Qed.

Lemma commit_block_cases p iso now :
  safe_isolation iso ∧ commit_block p iso now = InsertEntry (proposal_row p now) (commit_inserted p)
  ∨ ¬ safe_isolation iso ∧ commit_block p iso now = Leave (Err BlackboardCommitUnresolved).
Proof.
  destruct (decide (iso ∈ [None; Some READ_COMMITTED])); [left|right]; split; try done;
    [by apply safe_isolation_block|by apply unsafe_isolation_block].
Qed.

Lemma truthful_database_error t sc o : truthful t sc o (Err DatabaseError).
Proof. by destruct o. Qed.

(** Reads answer with rows of the table, inside the scope. *)
Lemma get_read_ok t sc run b k : table_ok t →
  ∃ a, get_read (rls_visible (sc_project_id sc) t !! (sc_project_id sc, run, b, k)) = Leave (Ok (Answer a))
       ∧ truthful t sc (OpGet run b k) (Ok a).
Proof.
  intros Ht. unfold get_read. destruct (rls_visible _ _ !! _) as [row|] eqn:E; [|by eexists].
  apply rls_lookup in E as [E _]. destruct (Ht _ _ E) as [_ [e He]]. rewrite He. eexists. split; [done|]. by exists row.
Qed.

Lemma elem_of_select project run b limit t row : row ∈ select_entries text_leb project run b limit t →
  (∃ pk, t !! pk = Some row) ∧ er_project_id row = project ∧ er_run_id row = run
  ∧ match b with Some b => er_branch_id row = b | None => True end.
Proof.
  unfold select_entries. intros H%(subseteq_take (Z.to_nat limit)). rewrite elem_of_py_sorted in H.
  apply list_elem_of_In, List.filter_In in H as [H Hf]. apply list_elem_of_In, list_elem_of_fmap in H as ([pk r] & -> & H).
  apply elem_of_map_to_list in H. bsplit. split; [by exists pk|]. cbn [snd] in *.
  split_and!; [by eapply bool_decide_eq_true_1..|]. destruct b; [by eapply bool_decide_eq_true_1|done].
Qed.

Lemma list_read_ok t sc run b limit : table_ok t →
  ∃ a, list_read (select_entries text_leb (sc_project_id sc) run b (Z.max 1 (Z.min limit MAX_BLACKBOARD_ROW_LIMIT))
                    (rls_visible (sc_project_id sc) t)) = Leave (Ok (Answer a))
       ∧ truthful t sc (OpList run b limit) (Ok a).
Proof.
  intros Ht. unfold list_read. set (rows := select_entries _ _ _ _ _ _).
  assert (Hrows : ∀ row, row ∈ rows → t !! row_pk row = Some row ∧ er_project_id row = sc_project_id sc ∧ er_run_id row = run
                    ∧ match b with Some b => er_branch_id row = b | None => True end).
  { intros row ((pk & Hpk) & ?)%elem_of_select. apply rls_lookup in Hpk as [Hpk _].
    destruct (Ht _ _ Hpk) as [-> _]. done. }
  destruct (rmap_total row_to_entry rows) as [es Hes].
  { intros row Hrow. destruct (Hrows row Hrow) as [Hpk _]. by destruct (Ht _ _ Hpk). }
  rewrite Hes. eexists. split; [done|]. split.
  - apply rmap_length in Hes. rewrite Hes. unfold rows, select_entries. rewrite length_take. unfold MAX_BLACKBOARD_ROW_LIMIT. lia.
  - intros e He. apply rmap_Ok in Hes. apply list_elem_of_lookup in He as [n Hn].
    destruct (Forall2_lookup_r _ _ _ _ _ Hes Hn) as (row & Hrow & Hr).
    apply list_elem_of_lookup_2 in Hrow. destruct (Hrows row Hrow) as (Hpk & Hp & Hrun & Hb).
    rewrite (row_to_entry_pk _ _ Hr). split; [by exists row|].
    unfold row_to_entry in Hr. by destruct (er_value_ref row), (er_status row); simplify_eq.
Qed.

(** A transaction reads the table through its own pending rows, of which a reader has none. *)
Local Abbreviation sees t := (∅ ∪ t : table).

Lemma lost_read_ok t sc p : table_ok t → commit_guard sc p = Ok tt → is_Some (t !! proposal_pk p) →
  ∃ e, commit_read_back p (rls_visible (sc_project_id sc) t !! proposal_pk p) = Leave (Ok (LostTo p e))
       ∧ holds t (proposal_pk p) e.
Proof.
  intros Ht Hg [row Hrow]. apply commit_guard_Ok in Hg as [Hp _]. destruct (Ht _ _ Hrow) as [Hpk [e He]].
  rewrite (proj2 (rls_lookup _ _ _ row)); [|split; [done|]].
  - unfold commit_read_back. rewrite He. exists e. split; [done|by exists row].
  - unfold row_pk, proposal_pk in Hpk. congruence.
Qed.

Lemma resolved_ok t sc p iso now e : table_ok t → commit_guard sc p = Ok tt → holds t (proposal_pk p) e →
  truthful t sc (OpCommit p iso now) (op_after (LostTo p e)).
Proof.
  intros Ht Hg (row & Hrow & He). destruct (Ht _ _ Hrow) as [Hpk _].
  cbn [op_after]. unfold resolve_after_conflict. rewrite (row_to_entry_pk _ _ He), Hpk, bool_decide_eq_true_2 by done.
  case_bool_decide; simpl; (split; [done|]); exists e; (split; [by exists row|]); [|done].
  split; [done|by right].
Qed.

Lemma resolved_no_win p e c : op_after (LostTo p e) = Ok (AResult c) → cr_outcome c ≠ Committed.
Proof.
  cbn [op_after]. unfold resolve_after_conflict. repeat case_bool_decide; simpl; try done. by intros [= <-].
Qed.

Section Step.
Context (w : world) (i : nat).
Hypothesis Hinv : race_inv t0 calls w.

Lemma inv_fails s sc o : sessions w !! i = Some s → call_of s = (sc, o) → (∀ sc o r, s ≠ Returned sc o r) →
  race_inv t0 calls (put i (Returned sc o (Err DatabaseError)) (committed w) w).
Proof.
  intros Hs Hc Hr. eapply race_inv_quiet; try done. apply truthful_database_error.
Qed.

(** Rows of a committing transaction that no other one conflicts with. *)
Lemma inv_commits sc p iso now c r :
  sessions w !! i = Some (InBlock sc (OpCommit p iso now) {[proposal_pk p := proposal_row p now]} c) →
  commit_guard sc p = Ok tt →
  r = Ok (AResult (commit_result Committed (entry_of p now))) ∨ r = Err DatabaseError →
  race_inv t0 calls (put i (Returned sc (OpCommit p iso now) r)
                       ({[proposal_pk p := proposal_row p now]} ∪ committed w) w).
Proof.
  intros Hs Hg Hr. pose proof (ri_fresh _ _ _ Hinv _ _ Hs) as Hf. cbn [pending_of] in Hf.
  assert (Hnone : committed w !! proposal_pk p = None) by (by apply map_disjoint_singleton_l in Hf).
  rewrite <- insert_union_singleton_l. eapply race_inv_put; try done.
  - intros pk row. rewrite lookup_insert. case_decide as E; [|apply (ri_table _ _ _ Hinv)].
    intros [= <-]. split; [done|]. by exists (entry_of p now).
  - by apply insert_subseteq.
  - simpl. destruct Hr as [-> | ->]; [|done]. simpl. split; [done|]. exists (entry_of p now).
    split; [|split; [done|by left]]. exists (proposal_row p now). by rewrite lookup_insert, decide_True.
  - apply map_disjoint_empty_l.
  - intros j s2 Hj Hs2. split; [apply map_disjoint_empty_l|]. apply map_disjoint_insert_r. split.
    + pose proof (ri_apart _ _ _ Hinv i j _ _ (not_eq_sym Hj) Hs Hs2) as Ha. cbn [pending_of] in Ha.
      by apply map_disjoint_singleton_l in Ha.
    + by eapply ri_fresh.
  - intros pk row. rewrite lookup_insert. case_decide as E; [|congruence]. intros [= <-] _.
    exists sc, p, iso, now, r. rewrite lookup_put, decide_True by done. done.
  - intros pk (sc' & p' & iso' & now' & c' & Hi & _ & <-). rewrite lookup_put, decide_True in Hi by done.
    by injection Hi as -> -> -> -> _.
Qed.

Lemma held_false pk : held i pk (sessions w) = false →
  ∀ j s2, j ≠ i → sessions w !! j = Some s2 → pending_of s2 !! pk = None.
Proof.
  unfold held. rewrite negb_false_iff, bool_decide_eq_true. intros H j s2 Hj Hs2. by destruct (H j s2 Hs2).
Qed.

Lemma inv_inserts sc p iso now c :
  sessions w !! i = Some (InBlock sc (OpCommit p iso now) ∅ c) → commit_guard sc p = Ok tt →
  held i (proposal_pk p) (sessions w) = false → committed w !! proposal_pk p = None →
  race_inv t0 calls (put i (InBlock sc (OpCommit p iso now) {[proposal_pk p := proposal_row p now]}
                              (commit_inserted p (Some (proposal_row p now)))) (committed w) w).
Proof.
  intros Hs Hg Hheld Hnone. eapply race_inv_put; try done; [by destruct Hinv|..].
  - apply stage_won; done.
  - by apply map_disjoint_singleton_l.
  - intros j s2 Hj Hs2. split; [|by eapply ri_fresh]. apply map_disjoint_singleton_l. by eapply held_false.
  - congruence.
  - intros pk (sc' & p' & iso' & now' & c' & Hi & _). rewrite lookup_put, decide_True in Hi by done. done.
Qed.

(** The block of a call, before its first statement. *)
Lemma inv_first ev sc o w' : sessions w !! i = Some (InBlock sc o ∅ (op_block sc o)) → op_guard sc o = Ok tt →
  exec text_leb i ev w = Some w' → race_inv t0 calls w'.
Proof.
  intros Hs Hg. pose proof (ri_table _ _ _ Hinv) as Ht. unfold exec. rewrite Hs.
  destruct o as [p iso now|run b k|run b limit]; cbn [op_block op_guard] in *.
  - destruct (commit_block_cases p iso now) as [[Hiso ->] | [Hiso ->]].
    + destruct ev; [|intros [= <-]; by eapply inv_fails|done].
      rewrite bool_decide_eq_true_2 by (by apply commit_guard_Ok in Hg as [? _]). cbn [negb].
      change (row_pk (proposal_row p now)) with (proposal_pk p).
      destruct (held i _ _) eqn:Hheld; [done|]. rewrite (left_id_L ∅ _).
      destruct (committed w !! proposal_pk p) as [row|] eqn:Hrow; intros [= <-].
      * destruct (Ht _ _ Hrow) as [_ [e He]]. eapply race_inv_quiet; try done. by eapply stage_lost.
      * rewrite insert_empty. by eapply inv_inserts.
    + destruct ev; [intros [= <-]; by eapply race_inv_quiet; try done..|done].
  - destruct ev; [|intros [= <-]; by eapply inv_fails|done]. intros [= <-]. rewrite (left_id_L ∅ _).
    destruct (get_read_ok (committed w) sc run b k Ht) as (a & -> & Ha).
    eapply race_inv_quiet; try done. by apply stage_answered.
  - destruct ev; [|intros [= <-]; by eapply inv_fails|done]. intros [= <-]. rewrite (left_id_L ∅ _).
    destruct (list_read_ok (committed w) sc run b limit Ht) as (a & -> & Ha).
    eapply race_inv_quiet; try done. by apply stage_answered.
Qed.

Lemma inv_in_block ev sc o pend rest w' : sessions w !! i = Some (InBlock sc o pend rest) →
  exec text_leb i ev w = Some w' → race_inv t0 calls w'.
Proof.
  intros Hs. pose proof (ri_table _ _ _ Hinv) as Ht. pose proof (ri_sessions _ _ _ Hinv _ _ Hs) as Hst. cbn in Hst.
  destruct Hst as [o Hg|p iso now Hg|p iso now row e Hg Hrow He|p iso now e Hg He|o a Ho Ha]; [by eapply inv_first|..];
    unfold exec; rewrite Hs.
  - destruct ev; intros [= <-]; [eapply inv_commits; eauto|by eapply inv_fails|eapply inv_commits; eauto].
  - destruct ev; [|intros [= <-]; by eapply inv_fails|done]. intros [= <-]. rewrite (left_id_L ∅ _).
    destruct (lost_read_ok (committed w) sc p Ht Hg) as (e' & -> & He'); [by eexists|].
    eapply race_inv_quiet; try done. by apply stage_read.
  - rewrite (left_id_L ∅ _). destruct ev; intros [= <-]; [|by eapply inv_fails..].
    eapply race_inv_quiet; try done; [by apply resolved_ok|].
    intros ????? [= _ _ _ _ H]. by eapply resolved_no_win.
  - rewrite (left_id_L ∅ _). destruct ev; intros [= <-]; [|by eapply inv_fails..].
    eapply race_inv_quiet; try done. intros sc' p iso now c [= _ H _]. by destruct (Ho p iso now).
Qed.

Lemma inv_exec ev w' : exec text_leb i ev w = Some w' → race_inv t0 calls w'.
Proof.
  destruct (sessions w !! i) as [[sc o|sc o pend rest|sc o r]|] eqn:Hs; [|by apply (inv_in_block ev sc o pend rest)|..];
    unfold exec; rewrite Hs; [|done..].
  destruct (op_guard sc o) as [[]|e] eqn:Hg, ev; intros [= <-]; [|by eapply inv_fails|].
  - eapply race_inv_quiet; try done. by apply stage_start.
  - eapply race_inv_quiet; try done. destruct o; try done. cbn in Hg |- *.
    destruct (commit_guard_cases sc p) as [E|E]; rewrite E in Hg; [done|by injection Hg as <-].
Qed.

End Step.

(** The invariant holds at the start and in every state any interleaving reaches. *)
Lemma race_inv_start : table_ok t0 → race_inv t0 calls (start t0 calls).
Proof.
  intros Ht.
  assert (Hl : ∀ i s, sessions (start t0 calls) !! i = Some s → ∃ c, s = Waiting c.1 c.2).
  { intros i s. unfold start. simpl. rewrite lookup_fmap. destruct (calls !! i) as [c|]; [|done]. intros [= <-]. by exists c. }
  split; try done.
  - unfold start. simpl. rewrite <- map_fmap_compose. apply map_eq. intros i. rewrite lookup_fmap.
    by destruct (calls !! i) as [[]|].
  - by intros i s (c & ->)%Hl.
  - intros i s (c & ->)%Hl. apply map_disjoint_empty_l.
  - intros i j s s' _ (c & ->)%Hl _. apply map_disjoint_empty_l.
  - simpl. congruence.
  - intros i j pk (? & ? & ? & ? & ? & (c & H)%Hl & _). done.
Qed.

Lemma race_inv_reachable w : table_ok t0 → rtc (step text_leb) (start t0 calls) w → race_inv t0 calls w.
Proof.
  intros Ht. apply (rtc_ind_r (race_inv t0 calls)); [by apply race_inv_start|].
  intros w1 w2 _ (i & ev & Hex) IH. by eapply inv_exec.
Qed.

(** The committed table only grows. *)
Lemma exec_grows i ev w w' : exec text_leb i ev w = Some w' → race_inv t0 calls w → committed w ⊆ committed w'.
Proof.
  intros Hex Hinv. unfold exec in Hex.
  destruct (sessions w !! i) as [[sc o|sc o pend [[x|e]|row k|pk k|pj run b l k]|sc o r]|] eqn:Hs; [..|done|done];
    try (by repeat case_match; simplify_eq).
  pose proof (ri_fresh _ _ _ Hinv _ _ Hs) as Hf. cbn in Hf.
  by destruct ev; injection Hex as <-; cbn; try apply map_union_subseteq_r.
Qed.

Lemma steps_grow w w' : race_inv t0 calls w → rtc (step text_leb) w w' → committed w ⊆ committed w'.
Proof.
  intros Hinv H. revert Hinv. induction H as [|w1 w2 w3 (i & ev & Hex) _ IH]; intros Hinv; [done|].
  transitivity (committed w2); [by eapply exec_grows|]. apply IH. by eapply inv_exec.
Qed.

End Preserve.

(** ** Progress *)

Section Progress.
Context (text_leb : pystr → pystr → bool) (t0 : table) (calls : gmap nat (ProjectScope * op)).

Definition returned (s : session) : Prop := ∃ sc o r, s = Returned sc o r.

(** A transaction that holds a row has executed its last statement. *)
Lemma holder_leaves t sc o pend rest pk : stage t sc o pend rest → pend !! pk ≠ None → ∃ x, rest = Leave (Ok x).
Proof. destruct 1; rewrite ?lookup_empty; try done. eauto. Qed.

(** Only an insert waits, and only for a transaction that can move. *)
Lemma waits_for_holder w i s : race_inv t0 calls w → sessions w !! i = Some s → ¬ returned s →
  exec text_leb i Go w = None → ∃ j, exec text_leb j Go w ≠ None.
Proof.
  intros Hinv Hs Hr. unfold exec at 1. rewrite Hs.
  destruct s as [sc o|sc o pend [[x|e]|row k|pk k|pj run b l k]|sc o r]; try done.
  - by destruct (op_guard sc o).
  - case_match; [done|]. destruct (held i (row_pk row) (sessions w)) eqn:Hh; [|by case_match].
    unfold held in Hh. apply negb_true_iff, bool_decide_eq_false in Hh.
    apply map_not_Forall in Hh as (j & s' & Hj & Hp); [|apply _]. intros _. exists j.
    assert (pending_of s' !! row_pk row ≠ None) as Hne by tauto. unfold exec. rewrite Hj.
    destruct s' as [| sc' o' pend' rest' |]; cbn in Hne; [by rewrite lookup_empty in Hne| |by rewrite lookup_empty in Hne].
    pose proof (ri_sessions _ _ _ Hinv _ _ Hj) as Hst. by destruct (holder_leaves _ _ _ _ _ _ Hst Hne) as [x ->].
  - destruct Hr. by exists sc, o, r.
Qed.

Lemma quiet_returned w i s : race_inv t0 calls w → quiet text_leb w → sessions w !! i = Some s → returned s.
Proof.
  intros Hinv Hq Hs. destruct s as [sc o|sc o pend rest|sc o r]; [..|by exists sc, o, r].
  all: edestruct waits_for_holder as [j []]; [done|exact Hs|by intros (? & ? & ? & ?)|apply Hq|apply Hq].
Qed.

(** ** Termination *)

Definition rank (s : session) : nat :=
  match s with
  | Waiting _ _ => 4
  | InBlock _ _ _ (InsertEntry _ _) => 3
  | InBlock _ _ _ (SelectEntry _ _) | InBlock _ _ _ (SelectEntries _ _ _ _ _) => 2
  | InBlock _ _ _ (Leave _) => 1
  | Returned _ _ _ => 0
  end.

Definition total (ss : gmap nat session) : nat := map_fold (λ _ s n, (rank s + n)%nat) 0%nat ss.

Lemma total_delete ss i s : ss !! i = Some s → total ss = (rank s + total (delete i ss))%nat.
Proof. intros Hi. unfold total. rewrite (map_fold_delete_L _ _ i s) by (done || lia). done. Qed.

Lemma total_insert ss i s s' : ss !! i = Some s → (rank s' < rank s)%nat → (total (<[i := s']> ss) < total ss)%nat.
Proof.
  intros Hi Hr. rewrite (total_delete ss i s Hi), (total_delete (<[i := s']> ss) i s') by (by rewrite lookup_insert_eq).
  rewrite delete_insert_eq. lia.
Qed.

Lemma exec_rank w w' i ev : race_inv t0 calls w → exec text_leb i ev w = Some w' →
  ∃ s s', sessions w !! i = Some s ∧ sessions w' = <[i := s']> (sessions w) ∧ (rank s' < rank s)%nat.
Proof.
  intros Hinv Hex. unfold exec in Hex. destruct (sessions w !! i) as [s|] eqn:Hs; [|done]. exists s.
  pose proof (ri_sessions _ _ _ Hinv _ _ Hs) as Hok.
  destruct s as [sc o|sc o pend rest|sc o r]; [| |done].
  - destruct (op_guard sc o) as [[]|e], ev; try done; injection Hex as <-; eexists; (split; [done|]); (split; [done|]);
      simpl; try lia.
    destruct o as [p iso now| |]; simpl; [|lia..]. destruct (commit_block_cases p iso now) as [[_ ->] | [_ ->]]; lia.
  - cbn in Hok. destruct Hok as [o Hg|p iso now Hg|p iso now row e Hg Hrow He|p iso now e Hg He|o a Ho Ha];
      [destruct o as [p iso now| |]; simpl in *; [destruct (commit_block_cases p iso now) as [[_ E] | [_ E]]; rewrite E in *|..]|..];
      destruct ev; repeat case_match; simplify_eq; eexists; (split; [done|]); (split; [done|]);
      unfold rank, commit_inserted, commit_read_back; repeat case_match; simplify_eq; lia.
Qed.

Lemma total_start : total (sessions (start t0 calls)) = (4 * size calls)%nat.
Proof.
  unfold start. cbn [sessions]. induction calls as [|i c m Hi IH] using map_ind; [done|].
  rewrite fmap_insert, (total_delete _ i (Waiting c.1 c.2)) by (by rewrite lookup_insert_eq).
  rewrite delete_insert_id by (by rewrite lookup_fmap, Hi). rewrite IH, map_size_insert_None by done. cbn [rank]. lia.
Qed.

Lemma steps_bounded n w w' : race_inv t0 calls w → nsteps (step text_leb) n w w' →
  race_inv t0 calls w' ∧ (n + total (sessions w') <= total (sessions w))%nat.
Proof.
  intros Hinv H. induction H as [w|n w1 w2 w3 (i & ev & Hex) _ IH]; [done|].
  destruct IH as [Hinv3 Hle]; [by eapply inv_exec|]. split; [done|].
  destruct (exec_rank _ _ _ _ Hinv Hex) as (s & s' & Hs & Heq & Hr).
  pose proof (total_insert _ _ _ _ Hs Hr) as Hlt. rewrite <- Heq in Hlt. lia.
Qed.

(** ** Without faults *)

Definition no_fault (w : world) : Prop := ∀ i sc o, sessions w !! i ≠ Some (Returned sc o (Err DatabaseError)).

Lemma no_fault_put i s t w : no_fault w → (∀ sc o, s ≠ Returned sc o (Err DatabaseError)) → no_fault (put i s t w).
Proof.
  intros Hw Hs j sc o. rewrite lookup_put. case_decide; [|apply Hw]. intros [= ->]. by eapply Hs.
Qed.

Lemma go_no_fault w w' : race_inv t0 calls w → no_fault w → go_step text_leb w w' → no_fault w'.
Proof.
  intros Hinv Hnf [i Hex]. unfold exec in Hex. destruct (sessions w !! i) as [s|] eqn:Hs; [|done].
  pose proof (ri_sessions _ _ _ Hinv _ _ Hs) as Hok.
  destruct s as [sc o|sc o pend rest|sc o r]; [| |done].
  - destruct (op_guard sc o) as [[]|e] eqn:Hg; injection Hex as <-; apply no_fault_put; try done.
    intros sc' o' [= <- <- ->]. destruct o as [p| |]; cbn in Hg; try done.
    by destruct (commit_guard_cases sc p) as [E|E]; rewrite E in Hg.
  - cbn in Hok. destruct Hok as [o Hg|p iso now Hg|p iso now row e Hg Hrow He|p iso now e Hg He|o a Ho Ha];
      [|injection Hex as <-; apply no_fault_put; try done..].
    + destruct o as [p iso now| |]; simpl in *; [|injection Hex as <-; by apply no_fault_put..].
      destruct (commit_block_cases p iso now) as [[_ E] | [_ E]]; rewrite E in *;
        [|injection Hex as <-; by apply no_fault_put].
      rewrite bool_decide_eq_true_2 in Hex by (by apply commit_guard_Ok in Hg as [? _]).
      cbn [negb] in Hex. repeat case_match; simplify_eq; by apply no_fault_put.
    + intros sc' o'. unfold op_after, resolve_after_conflict. by repeat case_bool_decide.
Qed.

Lemma go_steps w w' : race_inv t0 calls w → no_fault w → rtc (go_step text_leb) w w' →
  race_inv t0 calls w' ∧ no_fault w'.
Proof.
  intros Hinv Hnf H. revert Hinv Hnf. induction H as [|w1 w2 w3 Hgo _ IH]; intros Hinv Hnf; [done|].
  apply IH; [|by eapply go_no_fault]. destruct Hgo as [i Hex]. by eapply inv_exec.
Qed.

Lemma no_fault_start : no_fault (start t0 calls).
Proof. intros i sc o. unfold start. cbn [sessions]. rewrite lookup_fmap. by destruct (calls !! i). Qed.

End Progress.

(** ** What the blackboard promises *)

(** A call that may take the key: a commit for it, authored by its own caller. *)
Definition contender (pk : entry_pk) (c : ProjectScope * op) : Prop :=
  ∃ p iso now, c.2 = OpCommit p iso now ∧ commit_guard c.1 p = Ok tt ∧ safe_isolation iso ∧ proposal_pk p = pk.

(** What session [j] is told when the commit of [p] at [now] by session [i] wins the key. *)
Definition race_result (i j : nat) (p : BlackboardProposal) (now : Z) (p' : BlackboardProposal)
  : result bb_error answer :=
  if decide (j = i) then Ok (AResult (commit_result Committed (entry_of p now)))
  else if decide (bp_value_ref p' = bp_value_ref p) then Ok (AResult (commit_result Converged (entry_of p now)))
  else Err (BlackboardKeyConflict (bp_key p') (bp_branch_id p') (bp_value_ref p)
              (uuid_str (PrincipalId_value (bp_author_agent p)))).

Section Ending.
Context (text_leb : pystr → pystr → bool) (t0 : table) (calls : gmap nat (ProjectScope * op)) (w : world) (pk : entry_pk).
Hypothesis Hinv : race_inv t0 calls w.
Hypothesis Hnf : no_fault w.
Hypothesis Hq : quiet text_leb w.
Hypothesis Hcalls : ∀ i c, calls !! i = Some c → contender pk c.

(** At the end every call has its answer. *)
Lemma race_returned j c : calls !! j = Some c →
  ∃ r, sessions w !! j = Some (Returned c.1 c.2 r) ∧ r ≠ Err DatabaseError ∧ contender pk c.
Proof.
  intros Hj. pose proof (Hcalls _ _ Hj) as Hc. rewrite <- (ri_calls _ _ _ Hinv), lookup_fmap in Hj.
  destruct (sessions w !! j) as [s|] eqn:Hs; [|done].
  destruct (quiet_returned _ _ _ _ _ _ Hinv Hq Hs) as (sc & o & r & ->). injection Hj as <-. exists r. split_and!; try done.
  intros ->. by apply Hnf in Hs.
Qed.

(** An answer to a contender speaks of a row under the key. *)
Lemma contender_holds sc o r : contender pk (sc, o) → truthful (committed w) sc o r → r ≠ Err DatabaseError →
  ∃ e, holds (committed w) pk e.
Proof.
  intros (p & iso & now & Ho & Hg & Hiso & <-) Ht Hr. cbn [fst snd] in *. subst o.
  destruct r as [[c|?|?]|[]]; cbn in Ht; try done.
  - destruct Ht as (_ & e & ? & _). by exists e.
  - by rewrite Hg in Ht.
  - destruct Ht as (_ & e & ? & _). by exists e.
Qed.

Lemma race_winner : t0 !! pk = None → calls ≠ ∅ →
  ∃ i sc p iso now, sessions w !! i = Some (Returned sc (OpCommit p iso now)
                                            (Ok (AResult (commit_result Committed (entry_of p now)))))
    ∧ proposal_pk p = pk ∧ committed w !! pk = Some (proposal_row p now).
Proof.
  intros Hfree (j & [sc o] & Hj)%map_choose. destruct (race_returned j _ Hj) as (r & Hs & Hr & Hc).
  pose proof (ri_sessions _ _ _ Hinv _ _ Hs) as Ht. cbn in Ht.
  destruct (contender_holds _ _ _ Hc Ht Hr) as (e & row & Hrow & _).
  destruct (ri_writers _ _ _ Hinv _ _ Hrow Hfree) as (i & sc' & p & iso & now & r' & Hi & _ & -> & [-> | ->]);
    [|by apply Hnf in Hi].
  exists i, sc', p, iso, now. split_and!; try done. by destruct (ri_table _ _ _ Hinv _ _ Hrow).
Qed.

Lemma race_told i sc p iso now j sc' p' iso' now' r :
  sessions w !! i = Some (Returned sc (OpCommit p iso now) (Ok (AResult (commit_result Committed (entry_of p now))))) →
  proposal_pk p = pk → committed w !! pk = Some (proposal_row p now) →
  sessions w !! j = Some (Returned sc' (OpCommit p' iso' now') r) → r ≠ Err DatabaseError →
  contender pk (sc', OpCommit p' iso' now') → r = race_result i j p now p'.
Proof.
  intros Hi Hpk Hrow Hj Hr (p2 & iso2 & now2 & [= <- <- <-] & Hg & Hiso & Hpk'). cbn [fst] in Hg.
  assert (Hholds : ∀ e, holds (committed w) (proposal_pk p') e → e = entry_of p now).
  { intros e (row & Hrow' & He). rewrite Hpk', Hrow in Hrow'. injection Hrow' as <-. by injection He as <-. }
  unfold race_result. case_decide as Hji; [subst j; rewrite Hi in Hj; congruence|].
  pose proof (ri_sessions _ _ _ Hinv _ _ Hj) as Ht. destruct r as [[c|?|?]|[]]; cbn in Ht; try done.
  - destruct Ht as (_ & e & ->%Hholds & Hv & [[-> He] | ->]); cbn in Hv.
    + destruct Hji. apply (ri_one _ _ _ Hinv j i pk); [|by exists sc, p, iso, now, (commit_result Committed (entry_of p now))].
      by exists sc', p', iso', now', (commit_result Committed (entry_of p now)).
    + by rewrite decide_True.
  - by rewrite Hg in Ht.
  - destruct Ht as (_ & e & ->%Hholds & Hv & -> & -> & -> & ->). cbn in Hv. by rewrite decide_False.
Qed.

End Ending.

Section Promises.
Context (text_leb : pystr → pystr → bool) (t0 : table) (calls : gmap nat (ProjectScope * op)).
Hypothesis Ht0 : table_ok t0.

(** [C25] Whatever the interleaving, with failed statements and lost acknowledgements, every
    answer stays true of the table: "committed" and "converged" mean the table holds the
    caller's value under its key (with the author and time reported), a conflict names the
    value and author that hold it, a commit is unresolved only on a connection stricter than
    READ COMMITTED, and a read returns committed rows of its own project, run and branch.
    At most one call per key is told that it committed; no committed row ever changes. *)
Theorem blackboard_answers_true w : rtc (step text_leb) (start t0 calls) w →
  (∀ i sc o r, sessions w !! i = Some (Returned sc o r) → truthful (committed w) sc o r)
  ∧ (∀ i j pk, won w i pk → won w j pk → i = j)
  ∧ (∀ w', rtc (step text_leb) w w' → committed w ⊆ committed w').
Proof.
  intros Hw. pose proof (race_inv_reachable _ _ _ _ Ht0 Hw) as Hinv. split_and!.
  - intros i sc o r Hi. apply (ri_sessions _ _ _ Hinv _ _ Hi).
  - apply (ri_one _ _ _ Hinv).
  - intros w'. by eapply steps_grow.
Qed.

(** [C27] Nobody writes under another name or into another project: every row that
    appears was committed by a call whose authenticated principal is the row's author and
    whose scope is the row's project, with the value that call proposed, whatever proposals
    (forged ones included) the calls carry. *)
Theorem blackboard_no_impersonation w pk row : rtc (step text_leb) (start t0 calls) w →
  committed w !! pk = Some row → t0 !! pk = None →
  ∃ i sc p iso now, calls !! i = Some (sc, OpCommit p iso now) ∧ row = proposal_row p now ∧ row_pk row = pk
    ∧ er_author_agent row = sc_principal_id sc ∧ er_project_id row = sc_project_id sc.
Proof.
  intros Hw Hrow Hpk. pose proof (race_inv_reachable _ _ _ _ Ht0 Hw) as Hinv.
  destruct (ri_writers _ _ _ Hinv _ _ Hrow Hpk) as (i & sc & p & iso & now & r & Hi & Hg & -> & _).
  exists i, sc, p, iso, now. apply commit_guard_Ok in Hg as [Hp Ha].
  rewrite <- (ri_calls _ _ _ Hinv), lookup_fmap, Hi. by destruct (ri_table _ _ _ Hinv _ _ Hrow).
Qed.

(** [C26] A race for a free key always ends, after at most four steps per call, with
    exactly one winner: the call whose row the table holds is told "committed", a call with
    the same content address "converged" on that row, and every other call gets the
    conflict that names the winning value and author. *)
Theorem race_has_one_winner pk n w : t0 !! pk = None → calls ≠ ∅ → (∀ i c, calls !! i = Some c → contender pk c) →
  nsteps (go_step text_leb) n (start t0 calls) w →
  (n <= 4 * size calls)%nat
  ∧ (quiet text_leb w → ∃ i sc p iso now, calls !! i = Some (sc, OpCommit p iso now)
      ∧ committed w !! pk = Some (proposal_row p now)
      ∧ ∀ j sc' p' iso' now', calls !! j = Some (sc', OpCommit p' iso' now') →
          sessions w !! j = Some (Returned sc' (OpCommit p' iso' now') (race_result i j p now p'))).
Proof.
  intros Hfree Hne Hcalls Hn.
  assert (Hgo : rtc (go_step text_leb) (start t0 calls) w) by (by eapply rtc_nsteps_2).
  destruct (go_steps text_leb t0 calls _ _ (race_inv_start _ _ Ht0) (no_fault_start _ _) Hgo) as [Hinv Hnf].
  split.
  - apply (nsteps_congruence id (step text_leb)) in Hn; [|by intros ? ? [i ?]; exists i, Go].
    apply (steps_bounded _ t0 calls) in Hn as [_ Hn]; [|by apply race_inv_start]. unfold id in Hn. rewrite total_start in Hn. lia.
  - intros Hq. destruct (race_winner text_leb t0 calls w pk Hinv Hnf Hq Hcalls Hfree Hne) as (i & sc & p & iso & now & Hi & Hpk & Hrow).
    exists i, sc, p, iso, now. split_and!; [|done|].
    + by rewrite <- (ri_calls _ _ _ Hinv), lookup_fmap, Hi.
    + intros j sc' p' iso' now' Hj. destruct (race_returned text_leb t0 calls w pk Hinv Hnf Hq Hcalls j _ Hj) as (r & Hr & Hdb & Hc).
      rewrite Hr. do 2 f_equal. by eapply race_told.
Qed.

End Promises.

(** ** A race of three, on an empty table

    Session 0 and session 1 propose the same value, session 2 another one.  Session 1 inserts
    first; session 0 waits for it; the lost inserts read the winner back. *)

Definition bb_project : ProjectId := mkProjectId (mkUUID 1 I).
Definition bb_run : RunId := mkRunId (mkUUID 2 I).
Definition bb_agent (n : N) (H : Is_true (N.ltb n (2 ^ 128))) : ProjectScope :=
  mkScope bb_project (mkAgentTypeId (mkUUID 3 I)) (mkPrincipalId (mkUUID n H)).
Definition bb_key : pystr := of_ascii "plan".
Definition bb_branch : pystr := of_ascii "main".

(** Proposals made by [create], with the identity for the hash. *)
Definition bb_propose (sc : ProjectScope) (v : Z) : BlackboardProposal :=
  match proposal_create (λ bytes, bytes) sc bb_run bb_branch bb_key (JInt v) with
  | Ok p => p
  | Err _ => mkProposal bb_project bb_run [] (sc_principal_id sc) [] []
  end.

Definition bb_call (sc : ProjectScope) (v now : Z) : ProjectScope * op :=
  (sc, OpCommit (bb_propose sc v) (Some READ_COMMITTED) now).

Definition bb_calls : gmap nat (ProjectScope * op) :=
  {[0%nat := bb_call (bb_agent 10 I) 7 100; 1%nat := bb_call (bb_agent 11 I) 7 101; 2%nat := bb_call (bb_agent 12 I) 8 102]}.

Fixpoint replay (text_leb : pystr → pystr → bool) (trace : list (nat * event)) (w : world) : option world :=
  match trace with
  | [] => Some w
  | (i, ev) :: trace' => match exec text_leb i ev w with Some w' => replay text_leb trace' w' | None => None end
  end.

Definition race_trace : list (nat * event) :=
  (λ i, (i, Go)) <$> [0; 1; 2; 1; 1; 0; 2; 2; 0; 0; 2]%nat.

Definition race_end : world :=
  match replay (λ _ _, true) race_trace (start ∅ bb_calls) with Some w => w | None => start ∅ bb_calls end.

Definition is_returned (s : session) : bool := match s with Returned _ _ _ => true | _ => false end.

Lemma replayed : replay (λ _ _, true) race_trace (start ∅ bb_calls) = Some race_end.
Proof.
  assert (H : match replay (λ _ _, true) race_trace (start ∅ bb_calls) with Some _ => true | None => false end = true)
    by (vm_compute; reflexivity).
  unfold race_end. destruct (replay _ _ _); [done|discriminate H].
Qed.

Lemma replay_nsteps text_leb (ixs : list nat) w w' :
  replay text_leb ((λ i, (i, Go)) <$> ixs) w = Some w' → nsteps (go_step text_leb) (length ixs) w w'.
Proof.
  revert w. induction ixs as [|i ixs IH]; intros w; cbn; [intros [= ->]; constructor|].
  destruct (exec text_leb i Go w) as [w1|] eqn:E; [|done]. intros H. econstructor; [by exists i|by apply IH].
Qed.

Lemma race_go : nsteps (go_step (λ _ _, true)) 11 (start ∅ bb_calls) race_end.
Proof. apply (replay_nsteps _ [0; 1; 2; 1; 1; 0; 2; 2; 0; 0; 2]%nat), replayed. Qed.

Lemma race_steps : rtc (step (λ _ _, true)) (start ∅ bb_calls) race_end.
Proof.
  eapply (rtc_congruence id), rtc_nsteps_2, race_go. by intros ? ? [i ?]; exists i, Go.
Qed.

Lemma returned_quiet text_leb w : map_Forall (λ _ s, is_returned s = true) (sessions w) → quiet text_leb w.
Proof.
  intros H i. unfold exec. destruct (sessions w !! i) as [s|] eqn:Hs; [|done]. apply H in Hs. by destruct s.
Qed.

Lemma race_quiet : quiet (λ _ _, true) race_end.
Proof. apply returned_quiet. refine (bool_decide_eq_true_1 _ _). vm_compute. reflexivity. Qed.

Definition bb_pk : entry_pk := (bb_project, bb_run, bb_branch, bb_key).

Lemma bb_contender sc v now : sc_project_id sc = bb_project → 0 <= v < 10 → contender bb_pk (bb_call sc v now).
Proof.
  intros Hp Hv. exists (bb_propose sc v), (Some READ_COMMITTED), now.
  assert (H : bb_propose sc v = mkProposal (sc_project_id sc) bb_run bb_branch (sc_principal_id sc) bb_key
                                  (bytes_hex match canonical_json (JInt v) with Ok b => b | Err _ => [] end)).
  { assert (v = 0 ∨ v = 1 ∨ v = 2 ∨ v = 3 ∨ v = 4 ∨ v = 5 ∨ v = 6 ∨ v = 7 ∨ v = 8 ∨ v = 9) as Hc by lia.
    by repeat destruct Hc as [-> | Hc]; [..|subst v]; vm_compute. }
  unfold bb_call. cbn [fst snd]. rewrite H. split_and!; [done| |right; left|].
  - by apply commit_guard_Ok.
  - unfold proposal_pk, bb_pk. cbn. congruence.
Qed.

Lemma bb_contenders i c : bb_calls !! i = Some c → contender bb_pk c.
Proof.
  unfold bb_calls. intros [[_ <-]|[_ H]]%lookup_insert_Some; [by apply bb_contender|].
  apply lookup_insert_Some in H as [[_ <-]|[_ [_ <-]%lookup_singleton_Some]]; by apply bb_contender.
Qed.

Lemma table_ok_empty : table_ok ∅.
Proof. intros pk row H. by rewrite lookup_empty in H. Qed.

Lemma blackboard_answers_true_witness : won race_end 1 bb_pk
  ∧ (∀ i sc o r, sessions race_end !! i = Some (Returned sc o r) → truthful (committed race_end) sc o r).
Proof.
  split; [|apply (blackboard_answers_true (λ _ _, true) ∅ bb_calls table_ok_empty), race_steps].
  exists (bb_agent 11 I), (bb_propose (bb_agent 11 I) 7), (Some READ_COMMITTED), 101,
    (commit_result Committed (entry_of (bb_propose (bb_agent 11 I) 7) 101)).
  split_and!; vm_compute; reflexivity.
Defined.

Lemma blackboard_no_impersonation_witness :
  committed race_end !! bb_pk = Some (proposal_row (bb_propose (bb_agent 11 I) 7) 101)
  ∧ ∃ i sc p iso now, bb_calls !! i = Some (sc, OpCommit p iso now)
      ∧ proposal_row (bb_propose (bb_agent 11 I) 7) 101 = proposal_row p now
      ∧ row_pk (proposal_row (bb_propose (bb_agent 11 I) 7) 101) = bb_pk
      ∧ er_author_agent (proposal_row (bb_propose (bb_agent 11 I) 7) 101) = sc_principal_id sc
      ∧ er_project_id (proposal_row (bb_propose (bb_agent 11 I) 7) 101) = sc_project_id sc.
Proof.
  assert (H : committed race_end !! bb_pk = Some (proposal_row (bb_propose (bb_agent 11 I) 7) 101))
    by (vm_compute; reflexivity).
  split; [exact H|].
  exact (blackboard_no_impersonation (λ _ _, true) ∅ bb_calls table_ok_empty race_end bb_pk _ race_steps H (lookup_empty _)).
Defined.

Lemma race_has_one_winner_witness : (11 <= 4 * size bb_calls)%nat
  ∧ ∃ i sc p iso now, bb_calls !! i = Some (sc, OpCommit p iso now)
      ∧ committed race_end !! bb_pk = Some (proposal_row p now)
      ∧ ∀ j sc' p' iso' now', bb_calls !! j = Some (sc', OpCommit p' iso' now') →
          sessions race_end !! j = Some (Returned sc' (OpCommit p' iso' now') (race_result i j p now p')).
Proof.
  assert (Hne : bb_calls ≠ ∅) by apply insert_non_empty.
  destruct (race_has_one_winner (λ _ _, true) ∅ bb_calls table_ok_empty bb_pk 11 race_end (lookup_empty _) Hne
              bb_contenders race_go) as [Hn Hend].
  split; [exact Hn|exact (Hend race_quiet)].
Defined.
