(* ===== verification/SeqSet.v ===== *)
(** * The recorded sequence numbers of a run (ingest/trace_writer.py, [_SeqSet])

    A set of sequence numbers as sorted, disjoint, non-adjacent closed ranges, which is
    re-read from and re-written to a JSON column with every batch.  The lemmas give each
    operation its meaning as an operation on sets, and show that the representation of a
    set is unique. *)

From S2P Require Import Prelude Domain PyText Json.
Open Scope Z_scope.

Definition MAX_TRACE_SEQ : Z := 1000000.

Abbreviation range := (Z * Z)%type.
Record SeqSet := mkSeqSet { ranges : list range }.

(** Tuples compare lexicographically. *)
Definition range_leb (a b : range) : bool := (a.1 <? b.1) || ((a.1 =? b.1) && (a.2 <=? b.2)).

(** The loop of [_merge_ranges]; [merged] is held last range first. *)
Fixpoint merge_loop (merged : list range) (rs : list range) : list range :=
  match rs with
  | [] => reverse merged
  | (lo, hi) :: rs' =>
      match merged with
      | (prev_lo, prev_hi) :: rest =>
          if lo <=? prev_hi + 1 then merge_loop ((prev_lo, Z.max prev_hi hi) :: rest) rs'
          else merge_loop ((lo, hi) :: merged) rs'
      | [] => merge_loop [(lo, hi)] rs'
      end
  end.

Definition merge_ranges (rs : list range) : list range := merge_loop [] (py_sorted range_leb rs).

Definition parse_range (entry : json) : option range :=
  match entry with
  | JArr [JInt lo; JInt hi] => if (lo <? 0) || (hi <? lo) || (MAX_TRACE_SEQ <? hi) then None else Some (lo, hi)
  | _ => None
  end.

Definition from_path (raw : option json) : SeqSet :=
  match raw with
  | Some (JArr entries) => mkSeqSet (merge_ranges (omap parse_range entries))
  | _ => mkSeqSet []
  end.

(** [bisect_right] on a sorted list: the number of entries up to [x]. *)
Fixpoint bisect_right (l : list Z) (x : Z) : nat :=
  match l with y :: l' => if y <=? x then S (bisect_right l' x) else 0 | [] => 0 end.

Definition contains (s : SeqSet) (seq : Z) : bool :=
  match bisect_right (ranges s).*1 seq with
  | O => false
  | S idx => match ranges s !! idx with Some r => seq <=? r.2 | None => false end
  end.

Definition extend (s : SeqSet) (seqs : list Z) : SeqSet :=
  mkSeqSet (merge_ranges (ranges s ++ ((λ n, (n, n)) <$> seqs))).

Definition count_upto (s : SeqSet) (last : Z) : Z :=
  foldr Z.add 0 ((λ r, Z.min r.2 last - r.1 + 1) <$> List.filter (λ r, r.1 <=? last) (ranges s)).

Definition has_above (s : SeqSet) (last_seq : Z) : bool :=
  match last (ranges s) with Some r => last_seq <? r.2 | None => false end.

Definition to_path (s : SeqSet) : json := JArr ((λ r, JArr [JInt r.1; JInt r.2]) <$> ranges s).

Definition parse_seq (raw : option json) : option Z :=
  match raw with
  | Some (JInt n) => if (0 <=? n) && (n <=? MAX_TRACE_SEQ) then Some n else None
  | _ => None
  end.

(** ** Meaning *)

Definition in_ranges (l : list range) (n : Z) : Prop := ∃ r, r ∈ l ∧ r.1 <= n <= r.2.
Abbreviation mem s n := (in_ranges (ranges s) n).

(** Sorted, disjoint, non-adjacent, non-empty ranges. *)
Definition canonical (l : list range) : Prop :=
  StronglySorted (λ a b, a.2 + 1 < b.1) l ∧ Forall (λ r, r.1 <= r.2) l.

(** A set of sequence numbers a run may use. *)
Definition seqset_ok (s : SeqSet) : Prop :=
  canonical (ranges s) ∧ Forall (λ r, 0 <= r.1 ∧ r.2 <= MAX_TRACE_SEQ) (ranges s).

Lemma in_ranges_nil n : ¬ in_ranges [] n.
Proof. by intros (r & Hr%elem_of_nil & _). Qed.

Lemma in_ranges_cons r l n : in_ranges (r :: l) n ↔ r.1 <= n <= r.2 ∨ in_ranges l n.
Proof.
  unfold in_ranges. setoid_rewrite elem_of_cons. split.
  - intros (r' & [-> | ?] & ?); [by left|right; eauto].
  - intros [?|(r' & ? & ?)]; eauto.
Qed.

Lemma in_ranges_app l1 l2 n : in_ranges (l1 ++ l2) n ↔ in_ranges l1 n ∨ in_ranges l2 n.
Proof. unfold in_ranges. setoid_rewrite elem_of_app. naive_solver. Qed.

Lemma in_ranges_perm l1 l2 n : l1 ≡ₚ l2 → in_ranges l1 n ↔ in_ranges l2 n.
Proof. intros Hp. unfold in_ranges. by setoid_rewrite Hp. Qed.

Lemma in_ranges_points seqs n : in_ranges ((λ n, (n, n)) <$> seqs) n ↔ n ∈ seqs.
Proof.
  unfold in_ranges. setoid_rewrite list_elem_of_fmap. split.
  - intros (r & (m & -> & Hm) & ?). simpl in *. by replace n with m by lia.
  - intros Hn. exists (n, n). simpl. split; [eauto|lia].
Qed.

Lemma canonical_nil : canonical [].
Proof. split; constructor. Qed.

Lemma canonical_cons r l : canonical (r :: l) ↔ r.1 <= r.2 ∧ Forall (λ b, r.2 + 1 < b.1) l ∧ canonical l.
Proof.
  unfold canonical. rewrite Forall_cons. split.
  - intros [[? ?]%StronglySorted_inv [? ?]]. done.
  - intros (? & ? & ? & ?). split; [by constructor|done].
Qed.

#[export] Instance range_leb_total : TotalPreorder range_leb.
Proof.
  split; unfold range_leb.
  - intros x y. destruct (Z.ltb_spec x.1 y.1), (Z.eqb_spec x.1 y.1), (Z.leb_spec x.2 y.2), (Z.ltb_spec y.1 x.1),
      (Z.eqb_spec y.1 x.1), (Z.leb_spec y.2 x.2); simpl; auto; lia.
  - intros x y z. rewrite !orb_true_iff, !andb_true_iff, !Z.ltb_lt, !Z.eqb_eq, !Z.leb_le. lia.
Qed.

Lemma canonical_snoc l x : canonical (l ++ [x]) ↔ canonical l ∧ x.1 <= x.2 ∧ Forall (λ a, a.2 + 1 < x.1) l.
Proof.
  induction l as [|y l IH]; cbn [app].
  - rewrite canonical_cons. split; intros (? & ? & ?); repeat split; try done; apply canonical_nil.
  - rewrite !canonical_cons, IH, Forall_app, Forall_singleton, Forall_cons. split.
    + intros (? & [? ?] & ? & ? & ?). done.
    + intros ((? & ? & ?) & ? & ? & ?). done.
Qed.

(** The last range of a canonical list lies above the others. *)
Lemma canonical_snoc_above l x y : canonical (l ++ [x]) → x.2 + 1 < y → Forall (λ a, a.2 + 1 < y) (l ++ [x]).
Proof.
  intros (Hl & Hx & Hlt)%canonical_snoc Hy. apply Forall_app. split; [|by constructor].
  eapply Forall_impl; [exact Hlt|]. simpl. lia.
Qed.

Lemma merge_loop_spec merged rs :
  canonical (reverse merged) → StronglySorted (λ a b, range_leb a b = true) rs → Forall (λ r, r.1 <= r.2) rs →
  (∀ p rest, merged = p :: rest → Forall (λ r, p.1 <= r.1) rs) →
  canonical (merge_loop merged rs)
  ∧ ∀ n, in_ranges (merge_loop merged rs) n ↔ in_ranges merged n ∨ in_ranges rs n.
Proof.
  revert merged. induction rs as [|[lo hi] rs IH]; intros merged Hc Hs Hne Hlow; cbn [merge_loop].
  { split; [done|]. intros n. rewrite (in_ranges_perm (reverse merged) merged) by apply reverse_Permutation.
    pose proof (in_ranges_nil n). tauto. }
  apply StronglySorted_inv in Hs as [Hs Hle]. apply Forall_cons in Hne as [Hlh Hne]. cbn in Hlh.
  assert (Hlo : Forall (λ r, lo <= r.1) rs).
  { eapply Forall_impl; [exact Hle|]. intros r. unfold range_leb. rewrite orb_true_iff, andb_true_iff, Z.ltb_lt, Z.eqb_eq.
    simpl. lia. }
  destruct merged as [|[plo phi] rest].
  - destruct (IH [(lo, hi)]) as [Hc' Hm]; try done.
    + apply canonical_cons. repeat split; [done|constructor|apply canonical_nil..].
    + intros p r' [= <- <-]. done.
    + split; [done|]. intros n. rewrite Hm, !in_ranges_cons. pose proof (in_ranges_nil n). tauto.
  - rewrite reverse_cons in Hc. pose proof Hc as Hsn. apply canonical_snoc in Hsn as (Hcr & Hp & Habove). cbn in Hp, Habove.
    pose proof (Hlow _ _ eq_refl) as Hpl. apply Forall_cons in Hpl as [Hpl0 Hpl]. cbn in Hpl0, Hpl.
    destruct (Z.leb_spec lo (phi + 1)).
    + destruct (IH ((plo, Z.max phi hi) :: rest)) as [Hc' Hm]; try done.
      * rewrite reverse_cons. apply canonical_snoc. cbn. split_and!; [done|lia|done].
      * intros p r' [= <- <-]. done.
      * split; [done|]. intros n. rewrite Hm, !in_ranges_cons. cbn. split; intros; destruct_or?; try tauto.
        all: destruct (decide (n <= phi)); try (left; lia); try tauto; try (right; left; lia).
    + destruct (IH ((lo, hi) :: (plo, phi) :: rest)) as [Hc' Hm]; try done.
      * rewrite !reverse_cons. apply canonical_snoc. split_and!; [done|done|]. by apply canonical_snoc_above.
      * intros p r' [= <- <-]. done.
      * split; [done|]. intros n. rewrite Hm, !in_ranges_cons. tauto.
Qed.

Lemma merge_ranges_spec rs : Forall (λ r, r.1 <= r.2) rs →
  canonical (merge_ranges rs) ∧ ∀ n, in_ranges (merge_ranges rs) n ↔ in_ranges rs n.
Proof.
  intros Hne. destruct (merge_loop_spec [] (py_sorted range_leb rs)) as [Hc Hm].
  - apply canonical_nil.
  - apply py_sorted_Sorted, _.
  - by rewrite py_sorted_Permutation.
  - done.
  - split; [done|]. intros n. unfold merge_ranges. rewrite Hm, (in_ranges_perm (py_sorted range_leb rs) rs) by apply py_sorted_Permutation.
    pose proof (in_ranges_nil n). tauto.
Qed.

(** Merging a canonical list changes nothing. *)
Lemma merge_loop_id merged l : canonical (reverse merged ++ l) → merge_loop merged l = reverse merged ++ l.
Proof.
  revert merged. induction l as [|[lo hi] l IH]; intros merged Hc; cbn [merge_loop]; [by rewrite app_nil_r|].
  assert (Hsh : reverse merged ++ (lo, hi) :: l = reverse ((lo, hi) :: merged) ++ l) by (by rewrite reverse_cons, <- app_assoc).
  destruct merged as [|[plo phi] rest]; [by rewrite IH, Hsh; rewrite <- ?Hsh|].
  replace (lo <=? phi + 1) with false; [by rewrite IH, Hsh; rewrite <- ?Hsh|].
  symmetry. apply Z.leb_gt. rewrite reverse_cons, <- app_assoc in Hc. cbn [app] in Hc.
  destruct Hc as [Hs _]. apply StronglySorted_app_1_r in Hs. apply StronglySorted_inv in Hs as [_ Hall].
  apply Forall_cons in Hall as [H _]. done.
Qed.

Lemma canonical_sorted l : canonical l → StronglySorted (λ a b, range_leb a b = true) l.
Proof.
  intros [Hs Hne]. induction Hs as [|r l Hs IH Hall]; [constructor|]. apply Forall_cons in Hne as [Hr Hne].
  constructor; [by apply IH|]. eapply Forall_impl; [exact Hall|]. intros b Hb. unfold range_leb.
  apply orb_true_iff. left. apply Z.ltb_lt. cbn in Hb. lia.
Qed.

Lemma merge_ranges_id l : canonical l → merge_ranges l = l.
Proof.
  intros Hc. unfold merge_ranges. rewrite py_sorted_sorted by (by apply canonical_sorted). by rewrite merge_loop_id.
Qed.

(** Everything in the tail of a canonical list lies above the first range, with a gap. *)
Lemma canonical_tail r l n : canonical (r :: l) → in_ranges l n → r.2 + 1 < n.
Proof.
  intros (_ & Hall & _)%canonical_cons (b & Hb & Hn). rewrite Forall_forall in Hall. apply Hall in Hb. lia.
Qed.

(** Two representations of one set are equal. *)
Lemma canonical_unique l1 l2 : canonical l1 → canonical l2 → (∀ n, in_ranges l1 n ↔ in_ranges l2 n) → l1 = l2.
Proof.
  revert l2. induction l1 as [|[a b] l1 IH]; intros [|[c d] l2] H1 H2 Hm; [done|..].
  - destruct (in_ranges_nil c). apply Hm, in_ranges_cons. left. apply canonical_cons in H2 as [? _]. cbn in *. lia.
  - destruct (in_ranges_nil a). apply Hm, in_ranges_cons. left. apply canonical_cons in H1 as [? _]. cbn in *. lia.
  - pose proof (λ n, canonical_tail _ _ n H1) as T1. pose proof (λ n, canonical_tail _ _ n H2) as T2. cbn in T1, T2.
    pose proof H1 as (Hab & _ & Hc1)%canonical_cons. pose proof H2 as (Hcd & _ & Hc2)%canonical_cons. cbn in Hab, Hcd.
    setoid_rewrite in_ranges_cons in Hm. cbn in Hm.
    assert (a = c) as <-.
    { pose proof (proj1 (Hm a) ltac:(left; lia)) as [?|?%T2]; pose proof (proj2 (Hm c) ltac:(left; lia)) as [?|?%T1]; lia. }
    assert (b = d) as <-.
    { destruct (Z.lt_trichotomy b d) as [Hlt|[?|Hlt]]; [|done|].
      - pose proof (proj2 (Hm (b + 1)) ltac:(left; lia)) as [?|?%T1]; lia.
      - pose proof (proj1 (Hm (d + 1)) ltac:(left; lia)) as [?|?%T2]; lia. }
    f_equal. apply IH; [done..|]. intros n. split; intros Hn.
    + pose proof (T1 n Hn). destruct (proj1 (Hm n) (or_intror Hn)); [lia|done].
    + pose proof (T2 n Hn). destruct (proj2 (Hm n) (or_intror Hn)); [lia|done].
Qed.

(** ** The operations as operations on sets *)

Lemma bisect_contains l n : canonical l →
  match bisect_right l.*1 n with O => false | S i => match l !! i with Some r => n <=? r.2 | None => false end end = true
  ↔ in_ranges l n.
Proof.
  induction l as [|[lo hi] l IH]; intros Hc; cbn.
  { split; [done|]. by intros ?%in_ranges_nil. }
  pose proof (λ m, canonical_tail _ _ m Hc) as T. cbn in T. apply canonical_cons in Hc as (Hlh & Hall & Hc). cbn in *.
  rewrite in_ranges_cons. cbn. destruct (Z.leb_spec lo n) as [Hlo|Hlo]; cbn.
  - specialize (IH Hc). destruct (bisect_right l.*1 n) as [|i] eqn:E; cbn.
    + rewrite Z.leb_le. split; [lia|]. intros [?|Hn]; [lia|]. apply IH in Hn. done.
    + rewrite IH. split; [tauto|]. intros [?|?]; [|done]. exfalso.
      destruct l as [|[lo' hi'] l]; [done|]. cbn in E. apply Forall_cons in Hall as [? _]. cbn in *.
      destruct (Z.leb_spec lo' n); [lia|done].
  - split; [done|]. intros [?|Hn%T]; lia.
Qed.

Lemma contains_spec s n : canonical (ranges s) → contains s n = true ↔ mem s n.
Proof. apply bisect_contains. Qed.

Definition seq_bounded (n : Z) : Prop := 0 <= n <= MAX_TRACE_SEQ.

Lemma seqset_ok_bounded s n : seqset_ok s → mem s n → seq_bounded n.
Proof.
  intros [_ Hb] (r & Hr & Hn). rewrite Forall_forall in Hb. destruct (Hb r Hr). split; lia.
Qed.

(** Bounds of a canonical list are bounds of its members. *)
Lemma ranges_bounded_of_numbers l : canonical l → (∀ n, in_ranges l n → seq_bounded n) →
  Forall (λ r, 0 <= r.1 ∧ r.2 <= MAX_TRACE_SEQ) l.
Proof.
  intros [_ Hne] Hb. rewrite Forall_forall in *. intros r Hr. specialize (Hne r Hr).
  destruct (Hb r.1); [by exists r|]. destruct (Hb r.2); [exists r; split; [done|lia]|]. done.
Qed.

Lemma merged_ok rs : Forall (λ r, r.1 <= r.2) rs → (∀ n, in_ranges rs n → seq_bounded n) →
  seqset_ok (mkSeqSet (merge_ranges rs)).
Proof.
  intros Hne Hb. destruct (merge_ranges_spec rs Hne) as [Hc Hm]. split; [done|]. apply ranges_bounded_of_numbers; [done|].
  intros n. rewrite Hm. apply Hb.
Qed.

Lemma extend_spec s seqs : seqset_ok s → Forall seq_bounded seqs →
  seqset_ok (extend s seqs) ∧ ∀ n, mem (extend s seqs) n ↔ mem s n ∨ n ∈ seqs.
Proof.
  intros Hs Hseqs. unfold extend.
  assert (Hne : Forall (λ r, r.1 <= r.2) (ranges s ++ ((λ n, (n, n)) <$> seqs))).
  { apply Forall_app. split; [apply Hs|]. apply Forall_fmap, Forall_true. intros n. cbn. lia. }
  split.
  - apply merged_ok; [done|]. intros n. rewrite in_ranges_app, in_ranges_points. intros [?|Hn].
    + by eapply seqset_ok_bounded.
    + rewrite Forall_forall in Hseqs. by apply Hseqs.
  - intros n. cbn. destruct (merge_ranges_spec _ Hne) as [_ ->]. by rewrite in_ranges_app, in_ranges_points.
Qed.

(** Whatever the column holds reads as a set within the bounds. *)
Lemma from_path_ok raw : seqset_ok (from_path raw).
Proof.
  assert (Hnil : seqset_ok (mkSeqSet [])) by (split; [apply canonical_nil|constructor]).
  unfold from_path. destruct raw as [[]|]; try done.
  assert (Hin : Forall (λ r, r.1 <= r.2 ∧ 0 <= r.1 ∧ r.2 <= MAX_TRACE_SEQ) (omap parse_range l)).
  { apply Forall_forall. intros r (e & _ & Hr)%list_elem_of_omap. unfold parse_range in Hr.
    repeat (case_match; try done). injection Hr as <-. cbn.
    repeat match goal with H : _ || _ = false |- _ => apply orb_false_iff in H as [? ?] end.
    rewrite Z.ltb_ge in *. lia. }
  apply merged_ok; [eapply Forall_impl; [exact Hin|]; by intros r (? & _)|].
  intros n (r & Hr & Hn). rewrite Forall_forall in Hin. destruct (Hin r Hr). unfold seq_bounded. lia.
Qed.

(** The column reads back as the set that was written. *)
Lemma from_to_path s : seqset_ok s → from_path (Some (to_path s)) = s.
Proof.
  intros [Hc Hb]. unfold from_path, to_path. destruct s as [l]. cbn in *. f_equal.
  assert (omap parse_range ((λ r, JArr [JInt r.1; JInt r.2]) <$> l) = l) as ->; [|by apply merge_ranges_id].
  destruct Hc as [_ Hne]. induction l as [|[lo hi] l IH]; [done|]. apply Forall_cons in Hb as [[? ?] Hb].
  apply Forall_cons in Hne as [? Hne]. cbn in *. rewrite (proj2 (orb_false_iff _ _)).
  - cbn. by rewrite IH.
  - rewrite orb_false_iff, !Z.ltb_ge. lia.
Qed.

(** ** Counting and the top *)

Lemma count_nil last : count_upto (mkSeqSet []) last = 0.
Proof. done. Qed.

Lemma count_cons r l last :
  count_upto (mkSeqSet (r :: l)) last
  = (if r.1 <=? last then Z.min r.2 last - r.1 + 1 else 0) + count_upto (mkSeqSet l) last.
Proof. unfold count_upto. cbn. by destruct (r.1 <=? last). Qed.

Lemma count_above l last : Forall (λ r, last < r.1) l → count_upto (mkSeqSet l) last = 0.
Proof.
  induction 1 as [|r l Hr _ IH]; [done|]. rewrite count_cons, IH. destruct (Z.leb_spec r.1 last); lia.
Qed.

(** Counting to [last] from [low]: full exactly when nothing between them is missing. *)
Lemma count_full l low last : canonical l → Forall (λ r, low <= r.1) l → low <= last + 1 →
  count_upto (mkSeqSet l) last <= last - low + 1
  ∧ (count_upto (mkSeqSet l) last = last - low + 1 ↔ ∀ n, low <= n <= last → in_ranges l n).
Proof.
  revert low. induction l as [|[lo hi] l IH]; intros low Hc Hlow Hle.
  { rewrite count_nil. split; [lia|]. split; [lia|]. intros H. destruct (decide (low = last + 1)); [lia|].
    destruct (in_ranges_nil low). apply H. lia. }
  pose proof (λ m, canonical_tail _ _ m Hc) as T. cbn in T. apply canonical_cons in Hc as (Hlh & Hall & Hc).
  apply Forall_cons in Hlow as [Hl0 _]. cbn in Hlh, Hl0, Hall. rewrite count_cons. cbn [fst snd].
  setoid_rewrite in_ranges_cons. cbn [fst snd].
  destruct (Z.leb_spec lo last) as [Hin|Hout].
  - destruct (decide (hi < last)) as [Hhi|Hhi].
    + destruct (IH (hi + 1)) as [Hcnt Hfull]; [done|eapply Forall_impl; [exact Hall|]; cbn; lia|lia|].
      split; [lia|]. split.
      * intros E n Hn. destruct (decide (n <= hi)); [left; lia|right]. apply Hfull; lia.
      * intros H. assert (lo = low) as -> by (destruct (H low) as [?|?%T]; lia).
        enough (count_upto (mkSeqSet l) last = last - (hi + 1) + 1) by lia. apply Hfull. intros n Hn.
        destruct (H n); [lia|lia|done].
    + rewrite count_above by (eapply Forall_impl; [exact Hall|]; cbn; lia). split; [lia|]. split.
      * intros E n Hn. left. lia.
      * intros H. destruct (decide (low = lo)) as [->|]; [lia|]. exfalso. destruct (H low) as [?|?%T]; lia.
  - rewrite count_above by (eapply Forall_impl; [exact Hall|]; cbn; lia). split; [lia|]. split.
    + intros E n Hn. lia.
    + intros H. destruct (decide (low = last + 1)); [lia|]. exfalso. destruct (H low) as [?|?%T]; lia.
Qed.

(** The completeness test: every number up to [last] is recorded. *)
Lemma count_upto_complete s last : seqset_ok s → 0 <= last →
  count_upto s last = last + 1 ↔ ∀ n, 0 <= n <= last → mem s n.
Proof.
  intros [Hc Hb] Hl. destruct s as [l]. cbn in *. destruct (count_full l 0 last Hc) as [_ H]; [|lia|].
  - eapply Forall_impl; [exact Hb|]. by intros r [? _].
  - by replace (last + 1) with (last - 0 + 1) by lia.
Qed.

Lemma has_above_spec s n : seqset_ok s → has_above s n = true ↔ ∃ m, mem s m ∧ n < m.
Proof.
  intros [Hc _]. unfold has_above. destruct s as [l]. cbn in *.
  destruct (last l) as [r|] eqn:E.
  - apply last_Some in E as [l' ->]. apply canonical_snoc in Hc as (_ & Hr & Hall). rewrite Z.ltb_lt. split.
    + intros Hn. exists r.2. split; [|done]. exists r. split; [set_solver|lia].
    + intros (m & (q & Hq & Hm) & Hn). apply elem_of_snoc in Hq as [Hq| ->]; [|lia].
      rewrite Forall_forall in Hall. apply Hall in Hq. lia.
  - apply last_None in E as ->. split; [done|]. by intros (m & ?%in_ranges_nil & _).
Qed.

(** ** What the component promises *)

(** Batches are stored through the JSON column one after the other. *)
Definition store_batches (batches : list (list Z)) : json :=
  foldl (λ col seqs, to_path (extend (from_path (Some col)) seqs)) (to_path (mkSeqSet [])) batches.

Lemma store_batches_spec batches : Forall (Forall seq_bounded) batches →
  ∃ s, store_batches batches = to_path s ∧ seqset_ok s ∧ ∀ n, mem s n ↔ ∃ b, b ∈ batches ∧ n ∈ b.
Proof.
  unfold store_batches. induction batches as [|b bs IH] using rev_ind; intros Hb.
  { exists (mkSeqSet []). split_and!; [done|split; [apply canonical_nil|constructor]|]. intros n. cbn.
    split; [by intros ?%in_ranges_nil|]. by intros (b & ?%elem_of_nil & _). }
  apply Forall_app in Hb as [Hbs Hb]. rewrite Forall_singleton in Hb. destruct (IH Hbs) as (s & Hs & Hok & Hm).
  rewrite foldl_snoc, Hs, from_to_path by done. destruct (extend_spec s b Hok Hb) as [Hok' Hm'].
  exists (extend s b). split_and!; [done..|]. intros n. rewrite Hm', Hm. setoid_rewrite elem_of_snoc. naive_solver.
Qed.

(** However the sequence numbers of a run are split into batches, stored and read
    back, the column holds exactly the numbers delivered: membership is exact, the run tests
    complete to [last] exactly when every number from 0 to [last] was delivered, a number
    above [last] is seen exactly when one was delivered, and the stored value depends only on
    the set of numbers, not on the batches or their order. *)
Lemma seq_ranges_exact batches : Forall (Forall seq_bounded) batches →
  let s := from_path (Some (store_batches batches)) in
  (∀ n, contains s n = true ↔ ∃ b, b ∈ batches ∧ n ∈ b)
  ∧ (∀ last, 0 <= last →
       count_upto s last = last + 1 ↔ ∀ n, 0 <= n <= last → ∃ b, b ∈ batches ∧ n ∈ b)
  ∧ (∀ last, has_above s last = true ↔ ∃ n b, b ∈ batches ∧ n ∈ b ∧ last < n)
  ∧ (∀ batches', Forall (Forall seq_bounded) batches' →
       (∀ n, (∃ b, b ∈ batches ∧ n ∈ b) ↔ ∃ b, b ∈ batches' ∧ n ∈ b) → store_batches batches' = store_batches batches).
Proof.
  intros Hb. destruct (store_batches_spec batches Hb) as (s & Hs & Hok & Hm). cbn zeta. rewrite Hs, from_to_path by done.
  split_and!.
  - intros n. rewrite contains_spec by apply Hok. apply Hm.
  - intros last Hl. rewrite count_upto_complete by done. by setoid_rewrite Hm.
  - intros last. rewrite has_above_spec by done. setoid_rewrite Hm. naive_solver.
  - intros batches' Hb' Heq. destruct (store_batches_spec batches' Hb') as (s' & -> & Hok' & Hm'). f_equal.
    destruct s as [l], s' as [l']. f_equal. apply canonical_unique; [apply Hok'|apply Hok|].
    intros n. rewrite Hm', Hm. by rewrite Heq.
Qed.

(** Three batches, with a repeated number and a hole that is filled last. *)
Lemma seq_ranges_exact_witness :
  store_batches [[0; 1; 4]; [4; 5]; [3; 2]] = to_path (mkSeqSet [(0, 5)])
  ∧ store_batches [[5; 4; 3]; [0; 1; 2]] = store_batches [[0; 1; 4]; [4; 5]; [3; 2]].
Proof.
  assert (Hb : ∀ l, forallb (forallb (λ n, (0 <=? n) && (n <=? MAX_TRACE_SEQ))) l = true → Forall (Forall seq_bounded) l).
  { intros l H. apply Forall_forall. intros b Hbl. rewrite forallb_forall in H. apply list_elem_of_In in Hbl.
    specialize (H b Hbl). rewrite forallb_forall in H. apply Forall_forall. intros n Hn. apply list_elem_of_In in Hn.
    specialize (H n Hn). apply andb_true_iff in H as [? ?]. unfold seq_bounded. lia. }
  split; [vm_compute; reflexivity|].
  apply (seq_ranges_exact [[0; 1; 4]; [4; 5]; [3; 2]]); [by apply Hb|by apply Hb|].
  intros n. rewrite <- !elem_of_concat. cbn [concat app]. rewrite !elem_of_cons, !elem_of_nil. tauto.
Defined.
