(* ===== verification/Envelope.v ===== *)
(** * The envelope of a trace object (crypto/envelope.py, crypto/subject_digest.py)

    Base64 in its canonical spelling, the XOR shares of a data key, the byte frames that
    authenticated encryption binds, the digests of subject tags, and the canonical JSONL form
    of a [tb-env/2] object with its validator.  SHA-256 is a
    parameter with its digest size. *)

From S2P Require Import Prelude Domain PyText Json JsonLoads Memory.
Open Scope Z_scope.

Definition KEY_LEN : nat := 32.
Definition NONCE_LEN : nat := 12.
Definition MAX_SUBJECT_DIGESTS : nat := 64.
Definition MAX_SECTIONS : Z := 10000.
Definition MAX_SEQ : Z := Z.shiftl 1 40.
Definition ENVELOPE_ALG : pystr := of_ascii "AES-256-GCM".
Definition V2_ENVELOPE_VERSION : Z := 2.
Definition V2_ENVELOPE_FMT : pystr := of_ascii "tb-env/2".
Definition V2_SPLIT : pystr := of_ascii "XOR-ALL/v1".
Definition V2_WRAP_ALG : pystr := of_ascii "AES-256-GCM".

(** [b"...\0"] *)
Definition V2_SECTION_AAD_DOMAIN : list Z := of_ascii "tracebed.section-aad/v2" ++ [0].
Definition V2_SHARE_AAD_DOMAIN : list Z := of_ascii "tracebed.share-aad/v2" ++ [0].
Definition V2_KEK_AAD_DOMAIN : list Z := of_ascii "tracebed.kek-aad/v2" ++ [0].
Definition SUBJECT_DIGEST_DOMAIN : list Z := of_ascii "tracebed.subject-digest/v1" ++ [0].

Definition is_bytes (bs : list Z) : Prop := Forall (λ b, 0 <= b < 256) bs.
Definition uuid_bytes (u : uuid) : list Z := int_to_bytes_big 16 (Z.of_N (uuid_int u)).

(** ** Base64 *)

Definition b64_char (v : Z) : Z :=
  if v <? 26 then 65 + v else if v <? 52 then 71 + v else if v <? 62 then v - 4 else if v =? 62 then 43 else 47.

Definition b64_val (c : Z) : option Z :=
  if (65 <=? c) && (c <=? 90) then Some (c - 65) else if (97 <=? c) && (c <=? 122) then Some (c - 71)
  else if (48 <=? c) && (c <=? 57) then Some (c + 4) else if c =? 43 then Some 62 else if c =? 47 then Some 63 else None.

Fixpoint b64e (bs : list Z) : pystr :=
  match bs with
  | [] => []
  | [a] => [b64_char (a / 4); b64_char (a mod 4 * 16); 61; 61]
  | [a; b] => [b64_char (a / 4); b64_char (a mod 4 * 16 + b / 16); b64_char (b mod 16 * 4); 61]
  | a :: b :: c :: r =>
      b64_char (a / 4) :: b64_char (a mod 4 * 16 + b / 16) :: b64_char (b mod 16 * 4 + c / 64) :: b64_char (c mod 64) :: b64e r
  end.

(** The decoder of whole groups with their padding; what it accepts beyond the canonical
    spelling the comparison below refuses, as it does what Python's decoder accepts. *)
Fixpoint b64_groups (s : pystr) : option (list Z) :=
  match s with
  | [] => Some []
  | a :: b :: c :: d :: r =>
      x ← b64_val a; y ← b64_val b;
      match b64_val c, b64_val d with
      | Some z, Some w => rest ← b64_groups r; Some (x * 4 + y / 16 :: y mod 16 * 16 + z / 4 :: z mod 4 * 64 + w :: rest)
      | Some z, None => Some [x * 4 + y / 16; y mod 16 * 16 + z / 4]
      | None, _ => Some [x * 4 + y / 16]
      end
  | _ => None
  end.

Definition b64d_canonical (j : option json) : result exn (list Z) :=
  match j with
  | Some (JStr s) =>
      match b64_groups s with
      | Some decoded => check! bool_decide (b64e decoded = s) else ValueError in Ok decoded
      | None => Err ValueError
      end
  | _ => Err ValueError
  end.

(** ** Shares *)

Definition xor_bytes (a b : list Z) : list Z := zip_with Z.lxor a b.

(** [shares] are the [n - 1] random ones; for one share the key is its own. *)
Definition split_dek (dek : list Z) (shares : list (list Z)) : list (list Z) :=
  shares ++ [foldl xor_bytes dek shares].

Fixpoint combine_loop (out : list Z) (shares : list (list Z)) : result exn (list Z) :=
  match shares with
  | [] => Ok out
  | s :: shares' => check! (length s =? length out)%nat else ValueError in combine_loop (xor_bytes out s) shares'
  end.

Definition combine_shares (shares : list (list Z)) : result exn (list Z) :=
  match shares with [] => Err ValueError | s :: shares' => combine_loop s shares' end.

(** ** The parsed object *)

Abbreviation dict := (list (pystr * json)).
Record EncryptedPayload := mkPayload { pl_header : dict; pl_sections : list dict }.

(** [raw.split(sep)]; [cur] is the piece being read. *)
Fixpoint split_on (sep : Z) (cur : list Z) (raw : list Z) : list (list Z) :=
  match raw with
  | [] => [cur]
  | b :: raw' => if b =? sep then cur :: split_on sep [] raw' else split_on sep (cur ++ [b]) raw'
  end.
Abbreviation split_lines := (split_on 10).

(** ** Subject digests *)

Class Sha256 := {
  sha256 : list Z → list Z;
  sha256_length : ∀ m, length (sha256 m) = 32%nat;
  sha256_bytes : ∀ m, is_bytes (sha256 m);
}.

Section Digests.
Context `{Sha256}.

Definition subject_digest (p : ProjectId) (tag : pystr) : result exn (list Z) :=
  let! encoded := utf8_encode tag in
  Ok (sha256 (SUBJECT_DIGEST_DOMAIN ++ uuid_bytes (ProjectId_value p)
              ++ int_to_bytes_big 4 (Z.of_nat (length encoded)) ++ encoded)).

Definition digest_leb (a b : list Z * pystr) : bool := str_leb a.1 b.1.

(** The pairs have distinct digests, so [sorted] compares nothing else. *)
Definition subject_digest_pairs (p : ProjectId) (tags : list pystr) : result exn (list (list Z * pystr)) :=
  check! (length tags <=? 64)%nat else ValueError in
  check! bool_decide (NoDup tags) else ValueError in
  let! pairs := rmap (λ tag, let! t := validate_subject_tag tag false in let! d := subject_digest p t in Ok (d, tag)) tags in
  check! bool_decide (NoDup pairs.*1) else ValueError in
  Ok (py_sorted digest_leb pairs).

(** ** Authenticated frames *)

Definition validate_subject_digests (digests : list (list Z)) : result exn (list (list Z)) :=
  check! (length digests <=? MAX_SUBJECT_DIGESTS)%nat else ValueError in
  check! forallb (λ d, (length d =? KEY_LEN)%nat) digests else ValueError in
  check! bool_decide (py_sorted str_leb digests = digests) && bool_decide (NoDup digests) else ValueError in
  Ok digests.

Definition validate_v2_uint (n bits : Z) : result exn Z :=
  check! (0 <=? n) && (n <? Z.shiftl 1 bits) else ValueError in Ok n.
Definition validate_v2_sequence (n : Z) : result exn Z := check! (0 <=? n) && (n <? MAX_SEQ) else ValueError in Ok n.

Definition build_v2_section_aad (p : ProjectId) (r : RunId) (section_index seq_from seq_to : Z) (digests : list (list Z))
  : result exn (list Z) :=
  let! _ := validate_v2_uint section_index 32 in
  let! _ := validate_v2_sequence seq_from in
  let! _ := validate_v2_sequence seq_to in
  check! seq_from <=? seq_to else ValueError in
  let! ds := validate_subject_digests digests in
  Ok (V2_SECTION_AAD_DOMAIN ++ uuid_bytes (ProjectId_value p) ++ uuid_bytes (RunId_value r)
      ++ int_to_bytes_big 4 section_index ++ int_to_bytes_big 8 seq_from ++ int_to_bytes_big 8 seq_to
      ++ int_to_bytes_big 2 (Z.of_nat (length ds)) ++ concat ds).

Definition build_v2_share_aad (section_aad : list Z) (wrap_index : Z) (wrap_digest : list Z) (key_id : uuid)
  : result exn (list Z) :=
  let! _ := validate_v2_uint wrap_index 16 in
  let! ds := validate_subject_digests [wrap_digest] in
  Ok (V2_SHARE_AAD_DOMAIN ++ sha256 section_aad ++ int_to_bytes_big 2 wrap_index ++ concat ds ++ uuid_bytes key_id).

Definition build_v2_kek_aad (p : ProjectId) (digest : list Z) (key_id : uuid) : result exn (list Z) :=
  let! ds := validate_subject_digests [digest] in
  Ok (V2_KEK_AAD_DOMAIN ++ uuid_bytes (ProjectId_value p) ++ concat ds ++ uuid_bytes key_id).

(** ** The validator *)

Definition get (d : dict) (k : string) : option json := dict_get d (of_ascii k).

Definition same_keys (d : dict) (ks : list string) : bool :=
  bool_decide (length d = length ks) && forallb (λ k, bool_decide (of_ascii k ∈ d.*1)) ks.

Definition V2_HEADER_KEYS : list string :=
  ["alg"; "first_seq"; "fmt"; "last_seq"; "project_id"; "run_id"; "section_count"; "split"; "v"; "wrap_alg"]%string.
Definition V2_SECTION_KEYS : list string :=
  ["ct"; "nonce"; "section_index"; "seq_from"; "seq_to"; "subject_digests"; "wraps"]%string.
Definition V2_WRAP_KEYS : list string := ["digest"; "key_id"; "nonce"; "share"]%string.

Definition as_uint (bits : Z) (j : option json) : result exn Z :=
  match j with Some (JInt n) => validate_v2_uint n bits | _ => Err ValueError end.
Definition as_sequence (j : option json) : result exn Z :=
  match j with Some (JInt n) => validate_v2_sequence n | _ => Err ValueError end.

Definition canonical_uuid (j : option json) : result exn uuid :=
  match j with
  | Some (JStr s) =>
      match uuid_parse s with
      | Some u => check! bool_decide (uuid_str u = s) else ValueError in Ok u
      | None => Err ValueError
      end
  | _ => Err ValueError
  end.

Definition v2_digests (j : option json) : result exn (list (list Z)) :=
  match j with
  | Some (JArr l) => let! ds := rmap (λ x, b64d_canonical (Some x)) l in validate_subject_digests ds
  | _ => Err ValueError
  end.

(** One wrap against the digest it must carry; [prev] is the digest before it. *)
Definition validate_wrap (prev : option (list Z)) (expected : list Z) (wrap : json) : result exn unit :=
  match wrap with
  | JObj w =>
      check! same_keys w V2_WRAP_KEYS else ValueError in
      let! d := b64d_canonical (get w "digest") in
      check! bool_decide (d = expected) else ValueError in
      let! _ := canonical_uuid (get w "key_id") in
      let! nonce := b64d_canonical (get w "nonce") in
      let! share := b64d_canonical (get w "share") in
      check! (length nonce =? NONCE_LEN)%nat && (length share =? KEY_LEN + 16)%nat else ValueError in
      check! (match prev with Some q => str_ltb q expected | None => true end) else ValueError in Ok tt
  | _ => Err ValueError
  end.

Fixpoint validate_wraps (prev : option (list Z)) (expected : list (list Z)) (wraps : list json) : result exn unit :=
  match expected, wraps with
  | d :: expected', w :: wraps' => let! _ := validate_wrap prev d w in validate_wraps (Some d) expected' wraps'
  | _, _ => Ok tt
  end.

(** One section; the result is its range. *)
Definition validate_section (sentinel : list Z) (index : Z) (prev : option Z) (s : dict) : result exn (Z * Z) :=
  check! same_keys s V2_SECTION_KEYS else ValueError in
  let! i := as_uint 32 (get s "section_index") in
  check! i =? index else ValueError in
  let! seq_from := as_sequence (get s "seq_from") in
  let! seq_to := as_sequence (get s "seq_to") in
  check! seq_from <=? seq_to else ValueError in
  check! (match prev with Some q => q <? seq_from | None => true end) else ValueError in
  let! digests := v2_digests (get s "subject_digests") in
  check! negb (bool_decide (sentinel ∈ digests)) else ValueError in
  let! nonce := b64d_canonical (get s "nonce") in
  let! ct := b64d_canonical (get s "ct") in
  check! (length nonce =? NONCE_LEN)%nat && (16 <? length ct)%nat else ValueError in
  match get s "wraps" with
  | Some (JArr wraps) =>
      let expected := match digests with [] => [sentinel] | _ => digests end in
      check! (length wraps =? length expected)%nat else ValueError in
      let! _ := validate_wraps None expected wraps in Ok (seq_from, seq_to)
  | _ => Err ValueError
  end.

(** The smallest first and the largest last number seen. *)
Fixpoint validate_sections (sentinel : list Z) (index : Z) (prev : option Z) (seen : option (Z * Z)) (sections : list dict)
  : result exn (option (Z * Z)) :=
  match sections with
  | [] => Ok seen
  | s :: sections' =>
      let! range := validate_section sentinel index prev s in
      validate_sections sentinel (index + 1) (Some range.2)
        (Some match seen with Some (a, b) => (Z.min a range.1, Z.max b range.2) | None => range end) sections'
  end.

Definition has_str (d : dict) (k : string) (v : pystr) : bool := match get d k with Some (JStr s) => bool_decide (s = v) | _ => false end.
Definition has_int (d : dict) (k : string) (v : Z) : bool := match get d k with Some (JInt n) => n =? v | _ => false end.

Definition validate_v2_envelope (header : dict) (sections : list dict) : result exn unit :=
  check! same_keys header V2_HEADER_KEYS else ValueError in
  check! has_str header "alg" ENVELOPE_ALG && has_str header "fmt" V2_ENVELOPE_FMT && has_str header "split" V2_SPLIT
         && has_int header "v" V2_ENVELOPE_VERSION && has_str header "wrap_alg" V2_WRAP_ALG else ValueError in
  let! project := canonical_uuid (get header "project_id") in
  let! _ := canonical_uuid (get header "run_id") in
  let! count := as_uint 32 (get header "section_count") in
  check! (1 <=? count) && (count <=? MAX_SECTIONS) && (count =? Z.of_nat (length sections)) else ValueError in
  let! first_seq := as_sequence (get header "first_seq") in
  let! last_seq := as_sequence (get header "last_seq") in
  check! first_seq <=? last_seq else ValueError in
  let! sentinel := subject_digest (mkProjectId project) PROJECT_SUBJECT_TAG in
  let! seen := validate_sections sentinel 0 None None sections in
  check! bool_decide (seen = Some (first_seq, last_seq)) else ValueError in Ok tt.

(** [v == 2] of a Python value also holds of the float 2.0, which no canonical line is; a
    boolean is never 2. *)

(** ** Its bytes *)

Definition dumps_v2_line (d : dict) : list Z := json_dumps_sorted_ascii (JObj d) ++ [10].

Definition serialize_v2_envelope (c : EncryptedPayload) : result exn (list Z) :=
  let! _ := validate_v2_envelope (pl_header c) (pl_sections c) in
  Ok (dumps_v2_line (pl_header c) ++ concat (dumps_v2_line <$> pl_sections c)).

Definition load_v2_line (line : list Z) : result exn dict :=
  match loads_bytes no_duplicates line with
  | Some (JObj d) => check! bool_decide (dumps_v2_line d = line ++ [10]) else ValueError in Ok d
  | _ => Err ValueError
  end.

Definition loads_v2_lines (raw : list Z) : result exn (list dict) :=
  check! negb (bool_decide (raw = [])) && negb (bool_decide (take 3 raw = [0xEF; 0xBB; 0xBF]))
         && bool_decide (last raw = Some 10) && negb (bool_decide (13 ∈ raw)) else ValueError in
  let lines := split_lines [] (take (length raw - 1) raw) in
  check! forallb (λ l, negb (bool_decide (l = []))) lines else ValueError in
  rmap load_v2_line lines.

(** [EncryptedPayload.from_bytes] on a canonical object that claims version 2. *)
Definition from_bytes_v2 (raw : list Z) : result exn EncryptedPayload :=
  let! lines := loads_v2_lines raw in
  match lines with
  | header :: sections =>
      check! has_str header "fmt" V2_ENVELOPE_FMT && has_int header "v" V2_ENVELOPE_VERSION else ValueError in
      let! _ := validate_v2_envelope header sections in Ok (mkPayload header sections)
  | [] => Err ValueError
  end.

End Digests.

(** ** Base64 reads back what it writes *)

Lemma b64_val_char v : 0 <= v < 64 → b64_val (b64_char v) = Some v.
Proof.
  intros Hv. unfold b64_char.
  destruct (Z.ltb_spec v 26); [|destruct (Z.ltb_spec v 52); [|destruct (Z.ltb_spec v 62); [|destruct (Z.eqb_spec v 62)]]].
  all: try (assert (v = 63) by lia); subst; try done.
  all: unfold b64_val; repeat (match goal with |- context [?a <=? ?b] => destruct (Z.leb_spec a b); try lia end); cbn [andb]; f_equal; lia.
Qed.

Lemma b64_char_ascii v : 0 <= v < 64 → 43 <= b64_char v <= 122.
Proof. intros Hv. unfold b64_char. repeat case_match; lia. Qed.

Lemma list_ind3 {A} (P : list A → Prop) : P [] → (∀ a, P [a]) → (∀ a b, P [a; b]) →
  (∀ a b c r, P r → P (a :: b :: c :: r)) → ∀ l, P l.
Proof.
  intros H0 H1 H2 H3. fix IH 1. intros [|a [|b [|c r]]]; [done|apply H1|apply H2|]. apply H3, IH.
Qed.

(** The six-bit digits of three bytes. *)
Lemma byte_digits a : 0 <= a < 256 →
  0 <= a / 4 < 64 ∧ 0 <= a mod 4 < 4 ∧ a = a / 4 * 4 + a mod 4
  ∧ 0 <= a / 16 < 16 ∧ 0 <= a mod 16 < 16 ∧ a = a / 16 * 16 + a mod 16
  ∧ 0 <= a / 64 < 4 ∧ 0 <= a mod 64 < 64 ∧ a = a / 64 * 64 + a mod 64.
Proof.
  intros Ha. pose proof (Z.div_mod a 4 ltac:(lia)). pose proof (Z.div_mod a 16 ltac:(lia)). pose proof (Z.div_mod a 64 ltac:(lia)).
  pose proof (Z.mod_pos_bound a 4 ltac:(lia)). pose proof (Z.mod_pos_bound a 16 ltac:(lia)). pose proof (Z.mod_pos_bound a 64 ltac:(lia)).
  split_and!; lia.
Qed.

Lemma digits_back h l k : 0 <= l < k → (h * k + l) / k = h ∧ (h * k + l) mod k = l.
Proof. intros Hl. split; [rewrite Z.div_add_l by lia; rewrite Z.div_small by lia; lia|]. rewrite Z.add_comm, Z.mod_add by lia. by apply Z.mod_small. Qed.

Lemma b64_groups_encode bs : is_bytes bs → b64_groups (b64e bs) = Some bs.
Proof.
  induction bs as [|a|a b|a b c r IH] using list_ind3; intros Hb; [done|..];
    repeat (apply Forall_cons in Hb as [?Hx Hb]); cbn [b64e b64_groups].
  - destruct (byte_digits a Hx) as (? & ? & ? & _). rewrite !b64_val_char by lia. cbn [mbind option_bind].
    change (b64_val 61) with (@None Z). cbn iota. rewrite <- (Z.add_0_r (a mod 4 * 16)).
    destruct (digits_back (a mod 4) 0 16) as [-> _]; [lia|]. do 2 f_equal. lia.
  - destruct (byte_digits a Hx) as (? & ? & ? & _), (byte_digits b Hx0) as (_ & _ & _ & ? & ? & ? & _). rewrite !b64_val_char by lia.
    cbn [mbind option_bind]. change (b64_val 61) with (@None Z). cbn iota.
    destruct (digits_back (a mod 4) (b / 16) 16) as [-> ->]; [lia|]. rewrite <- (Z.add_0_r (b mod 16 * 4)).
    destruct (digits_back (b mod 16) 0 4) as [-> _]; [lia|]. do 2 f_equal; [lia|]. f_equal. lia.
  - destruct (byte_digits a Hx) as (? & ? & ? & _), (byte_digits b Hx0) as (_ & _ & _ & ? & ? & ? & _), (byte_digits c Hx1) as (_ & _ & _ & _ & _ & _ & ? & ? & ?).
    rewrite !b64_val_char by lia. cbn [mbind option_bind]. rewrite IH by done. cbn [mbind option_bind].
    destruct (digits_back (a mod 4) (b / 16) 16) as [-> ->]; [lia|]. destruct (digits_back (b mod 16) (c / 64) 4) as [-> ->]; [lia|].
    do 2 f_equal; [lia|]. f_equal; [lia|]. f_equal. lia.
Qed.

Lemma b64_roundtrip bs : is_bytes bs → b64d_canonical (Some (JStr (b64e bs))) = Ok bs.
Proof. intros Hb. unfold b64d_canonical. rewrite b64_groups_encode by done. by rewrite bool_decide_eq_true_2. Qed.

Lemma b64e_ascii bs : is_bytes bs → Forall (λ c, 43 <= c <= 122) (b64e bs).
Proof.
  induction bs as [|a|a b|a b c r IH] using list_ind3; intros Hb; [constructor|..];
    repeat (apply Forall_cons in Hb as [?Hx Hb]); cbn [b64e].
  - destruct (byte_digits a Hx) as (? & ? & ? & _). repeat constructor; lia || (apply b64_char_ascii; lia).
  - destruct (byte_digits a Hx) as (? & ? & ? & _), (byte_digits b Hx0) as (_ & _ & _ & ? & ? & ? & _).
    repeat constructor; lia || (apply b64_char_ascii; lia).
  - destruct (byte_digits a Hx) as (? & ? & ? & _), (byte_digits b Hx0) as (_ & _ & _ & ? & ? & ? & _), (byte_digits c Hx1) as (_ & _ & _ & _ & _ & _ & ? & ? & ?).
    repeat (constructor; [apply b64_char_ascii; lia|]). by apply IH.
Qed.

(** The canonical decoder is injective: one spelling per value. *)
Lemma b64_canonical j bs : b64d_canonical j = Ok bs → j = Some (JStr (b64e bs)).
Proof.
  unfold b64d_canonical. destruct j as [[]|]; try done. destruct (b64_groups s); [|done]. case_bool_decide as Heq; [|done].
  intros [= <-]. by rewrite Heq.
Qed.

(** ** Shares: every one is needed *)

Lemma xor_bytes_length a b : length a = length b → length (xor_bytes a b) = length a.
Proof. intros H. unfold xor_bytes. rewrite length_zip_with. lia. Qed.

Lemma xor_bytes_comm a b : xor_bytes a b = xor_bytes b a.
Proof. revert b. induction a as [|x a IH]; intros [|y b]; try done. cbn. by rewrite Z.lxor_comm, IH. Qed.

Lemma xor_bytes_assoc a b c : xor_bytes (xor_bytes a b) c = xor_bytes a (xor_bytes b c).
Proof. revert b c. induction a as [|x a IH]; intros [|y b] [|z c]; try done. cbn. by rewrite Z.lxor_assoc, IH. Qed.

Lemma xor_bytes_cancel a b : length a = length b → xor_bytes a (xor_bytes a b) = b.
Proof.
  revert b. induction a as [|x a IH]; intros [|y b]; try done. cbn. intros [= H].
  by rewrite IH, <- Z.lxor_assoc, Z.lxor_nilpotent, Z.lxor_0_l.
Qed.

Lemma xor_fold_swap shares : ∀ a b, foldl xor_bytes (xor_bytes a b) shares = xor_bytes (foldl xor_bytes a shares) b.
Proof.
  induction shares as [|s shares IH]; intros a b; [done|]. cbn. rewrite <- IH. f_equal.
  by rewrite !xor_bytes_assoc, (xor_bytes_comm b).
Qed.

Lemma xor_fold_length n shares : Forall (λ s, length s = n) shares → ∀ a, length a = n → length (foldl xor_bytes a shares) = n.
Proof. induction 1 as [|s shares Hs _ IH]; intros a Ha; [done|]. cbn. apply IH. rewrite xor_bytes_length; lia. Qed.

Lemma combine_loop_fold n shares : Forall (λ s, length s = n) shares → ∀ out, length out = n →
  combine_loop out shares = Ok (foldl xor_bytes out shares).
Proof.
  induction 1 as [|s shares Hs _ IH]; intros out Ho; [done|]. cbn [combine_loop foldl]. rewrite Hs, Ho, Nat.eqb_refl.
  apply IH. rewrite xor_bytes_length; lia.
Qed.

Lemma combine_split dek shares : Forall (λ s, length s = length dek) shares → combine_shares (split_dek dek shares) = Ok dek.
Proof.
  intros Hs. unfold split_dek. destruct Hs as [|s shares Hs Hr]; [done|]. cbn [app combine_shares foldl].
  rewrite (combine_loop_fold (length dek)); [|apply Forall_app; split; [done|]|done].
  - rewrite foldl_app. cbn. rewrite (xor_bytes_comm dek s), (xor_fold_swap shares s dek). f_equal. apply xor_bytes_cancel.
    by rewrite (xor_fold_length (length dek)).
  - constructor; [|done]. apply xor_fold_length; [done|]. rewrite xor_bytes_length; lia.
Qed.

(** The shares one by one, whichever is put first. *)
Lemma combine_at n shares i s : Forall (λ s, length s = n) shares → length s = n → (i < length shares)%nat →
  combine_shares (<[i := s]> shares) = Ok (foldl xor_bytes s (delete i shares)).
Proof.
  revert i. destruct shares as [|t shares]; intros [|i] Hs Hn Hi; try (cbn in Hi; lia); apply Forall_cons in Hs as [Ht Hs].
  - cbn. by apply (combine_loop_fold n).
  - cbn [insert list_insert combine_shares delete list_delete]. cbn in Hi. apply Nat.succ_lt_mono in Hi.
    rewrite (combine_loop_fold n) by (done || by apply Forall_insert). f_equal. cbn [foldl].
    rewrite (xor_bytes_comm s t). change (list_delete i shares) with (delete i shares). change (list_insert i s shares) with (<[i := s]> shares).
    clear Hs Ht Hn n. revert t i Hi. induction shares as [|u shares IH]; intros t [|i] Hi; try (cbn in Hi; lia); cbn; [done|].
    change (list_delete i shares) with (delete i shares). change (list_insert i s shares) with (<[i := s]> shares).
    rewrite IH by (cbn in Hi; lia). f_equal. by rewrite !xor_bytes_assoc, (xor_bytes_comm s).
Qed.

Lemma xor_fold_twice n rest : Forall (λ s, length s = n) rest → ∀ k, length k = n → foldl xor_bytes (foldl xor_bytes k rest) rest = k.
Proof.
  induction rest as [|t rest IH] using rev_ind; intros Hr k Hk; [done|]. apply Forall_app in Hr as [Hr [Ht _]%Forall_cons].
  rewrite !foldl_app. cbn. rewrite xor_fold_swap, IH by done. by rewrite xor_bytes_comm, (xor_bytes_comm k), xor_bytes_cancel by lia.
Qed.

(** Without the share at [i] every key is as possible as any other: exactly one value of it yields it. *)
Lemma missing_share n shares i k : Forall (λ s, length s = n) shares → (i < length shares)%nat → length k = n →
  exists! s, length s = n ∧ combine_shares (<[i := s]> shares) = Ok k.
Proof.
  intros Hs Hi Hk. set (rest := delete i shares). assert (Hr : Forall (λ s, length s = n) rest) by by apply Forall_delete.
  exists (foldl xor_bytes k rest). split.
  - assert (Hl : length (foldl xor_bytes k rest) = n) by by apply xor_fold_length. split; [done|].
    rewrite (combine_at n) by done. f_equal. by apply (xor_fold_twice n).
  - intros s [Hl Hc]. rewrite (combine_at n) in Hc by done. injection Hc as <-. by apply (xor_fold_twice n).
Qed.

(** ** One byte form per object *)

Definition printable (s : pystr) : Prop := Forall (λ c, 32 <= c <= 126) s.

Lemma printable_join sep ps : printable sep → Forall printable ps → printable (py_join sep ps).
Proof.
  intros Hsep Hps. induction Hps as [|p ps Hp Hps IH]; [constructor|]. destruct ps; [done|]. rewrite join_cons.
  by repeat (apply Forall_app; split).
Qed.

Lemma printable_dec n : printable (dec_str n).
Proof.
  unfold dec_str. assert (Hd : ∀ m k, 0 <= m → printable (dec_digits k m)).
  { intros m k Hm. eapply Forall_impl; [by apply dec_digits_chars|]. intros c Hc. cbn in Hc. lia. }
  destruct (Z.ltb_spec n 0); [constructor; [lia|]|]; apply Hd; lia.
Qed.

Lemma encodable_codes s : encodable s → Forall (λ c, 0 <= c <= 0x10FFFF) s.
Proof. induction s as [|c s IH]; [constructor|]. cbn. intros (? & _ & ?). constructor; [done|]. by apply IH. Qed.

Lemma printable_text j : json_wf encodable j → printable (json_dumps_sorted_ascii j).
Proof.
  unfold json_dumps_sorted_ascii, printable. induction j as [|b|n|s|l IH|l IH] using json_ind_nested; intros Hwf.
  - by repeat constructor.
  - destruct b; by repeat constructor.
  - apply printable_dec.
  - by apply json_dumps_printable, encodable_codes.
  - apply wf_arr in Hwf. rewrite text_arr. rewrite !Forall_app. split_and!; [by repeat constructor| |by repeat constructor].
    apply printable_join; [by repeat constructor|]. rewrite Forall_fmap. rewrite Forall_forall in *. intros x Hx. by apply IH, Hwf.
  - apply wf_obj in Hwf as [_ Hwf]. rewrite text_obj. rewrite !Forall_app. split_and!; [by repeat constructor| |by repeat constructor].
    apply printable_join; [by repeat constructor|]. rewrite Forall_fmap, py_sorted_Permutation. rewrite Forall_forall in *.
    intros kv Hkv. unfold compose, member. destruct (Hwf kv Hkv). apply Forall_app. split; [by apply json_dumps_printable, encodable_codes|].
    apply Forall_app. split; [by repeat constructor|]. by apply IH.
Qed.

Lemma utf8_decode_printable s : printable s → utf8_decode s = Ok s.
Proof. induction 1 as [|c s Hc _ IH]; [done|]. cbn [utf8_decode]. by rewrite cont_true, IH by lia. Qed.

Lemma split_on_sep sep l : ∀ cur rest, sep ∉ l → split_on sep cur (l ++ sep :: rest) = (cur ++ l) :: split_on sep [] rest.
Proof.
  induction l as [|c l IH]; intros cur rest Hl; cbn; [by rewrite app_nil_r, Z.eqb_refl|]. apply not_elem_of_cons in Hl as [Hc Hl].
  rewrite (proj2 (Z.eqb_neq c sep)), IH, <- app_assoc by congruence. done.
Qed.

Lemma split_on_last sep l cur : sep ∉ l → split_on sep cur l = [cur ++ l].
Proof.
  revert cur. induction l as [|c l IH]; intros cur Hl; cbn; [by rewrite app_nil_r|]. apply not_elem_of_cons in Hl as [Hc Hl].
  rewrite (proj2 (Z.eqb_neq c sep)), IH, <- app_assoc by congruence. done.
Qed.

(** Splitting undoes terminating every line. *)
Lemma split_lines_concat (ls : list (list Z)) body : ls ≠ [] → Forall (λ l, 10 ∉ l) ls → concat ((λ l, l ++ [10]) <$> ls) = body ++ [10] →
  split_lines [] body = ls.
Proof.
  revert body. induction ls as [|l ls IH]; intros body Hne Hls Hc; [done|]. apply Forall_cons in Hls as [Hl Hls].
  rewrite fmap_cons in Hc. cbn [concat] in Hc. destruct ls as [|l' ls].
  - cbn in Hc. rewrite app_nil_r in Hc. apply app_inj_tail in Hc as [<- _]. by rewrite split_on_last.
  - destruct (exists_last (l := concat ((λ l, l ++ [10]) <$> l' :: ls))) as (rest & x & Hr).
    { intros Hn. apply (f_equal length) in Hn. rewrite fmap_cons in Hn. cbn [concat] in Hn. rewrite !length_app in Hn. cbn in Hn. lia. }
    rewrite Hr, app_assoc in Hc. apply app_inj_tail in Hc as [<- ->]. rewrite <- app_assoc. cbn [app]. rewrite split_on_sep by done.
    f_equal. by apply IH.
Qed.

Lemma split_lines_join raw : ∀ cur, concat ((λ l, l ++ [10]) <$> split_lines cur raw) = cur ++ raw ++ [10].
Proof.
  induction raw as [|b raw IH]; intros cur; cbn [split_on]; [cbn; by rewrite app_nil_r|].
  destruct (Z.eqb_spec b 10) as [->|].
  - rewrite fmap_cons. cbn [concat]. rewrite IH, <- app_assoc. done.
  - rewrite IH, <- app_assoc. done.
Qed.

(** A dict with its keys in order, as the parser returns it and the writer builds it. *)
Definition canonical_dict (d : dict) : Prop := json_wf encodable (JObj d) ∧ sort_json (JObj d) = JObj d.

Abbreviation line_of := (λ d : dict, json_dumps_sorted_ascii (JObj d)).

Lemma line_open d : ∃ r, line_of d = 123 :: r.
Proof. eexists. unfold json_dumps_sorted_ascii. by rewrite text_obj. Qed.

Lemma load_line d : canonical_dict d → load_v2_line (line_of d) = Ok d.
Proof.
  intros [Hwf Hs]. unfold load_v2_line, loads_bytes. rewrite utf8_decode_printable by by apply printable_text.
  rewrite loads_ascii, Hs by done. unfold dumps_v2_line. by rewrite bool_decide_eq_true_2.
Qed.

Lemma printable_line d : canonical_dict d → 10 ∉ line_of d ∧ 13 ∉ line_of d.
Proof.
  intros [Hwf _]. pose proof (printable_text _ Hwf) as Hp. unfold printable in Hp. rewrite Forall_forall in Hp.
  split; intros Hin; apply Hp in Hin; lia.
Qed.

Lemma concat_lines ds : concat (dumps_v2_line <$> ds) = concat ((λ l, l ++ [10]) <$> (line_of <$> ds)).
Proof. by rewrite <- list_fmap_compose. Qed.

Lemma loads_dumps ds : ds ≠ [] → Forall canonical_dict ds → loads_v2_lines (concat (dumps_v2_line <$> ds)) = Ok ds.
Proof.
  intros Hne Hds. assert (Hlast : ∃ body, concat (dumps_v2_line <$> ds) = body ++ [10]).
  { destruct (exists_last Hne) as (ds' & d & ->). rewrite fmap_app, concat_app. exists (concat (dumps_v2_line <$> ds') ++ line_of d). cbn [fmap list_fmap concat].
    by rewrite app_nil_r, <- app_assoc. }
  destruct Hlast as [body Hb]. assert (Hsplit : split_lines [] body = line_of <$> ds).
  { apply split_lines_concat; [by destruct ds| |by rewrite <- Hb, concat_lines].
    rewrite Forall_fmap. eapply Forall_impl; [done|]. intros d Hd. by apply printable_line. }
  unfold loads_v2_lines. assert (Hhead : ∃ r, concat (dumps_v2_line <$> ds) = 123 :: r).
  { destruct ds as [|d ds]; [done|]. rewrite fmap_cons. cbn [concat]. unfold dumps_v2_line at 1. destruct (line_open d) as [r ->].
    by eexists. }
  assert (Hcr : 13 ∉ concat (dumps_v2_line <$> ds)).
  { intros Hin. apply list_elem_of_In, in_concat in Hin as (l & Hl & Hin). apply list_elem_of_In, list_elem_of_fmap in Hl as (d & -> & Hd).
    rewrite Forall_forall in Hds. apply list_elem_of_In, elem_of_app in Hin as [Hin|Hin]; [|set_solver].
    by apply (printable_line d (Hds d Hd)). }
  rewrite (bool_decide_eq_false_2 (13 ∈ _)) by done. rewrite (bool_decide_eq_true_2 (last _ = _)) by (by rewrite Hb, last_snoc).
  destruct Hhead as [r Hh]. rewrite (bool_decide_eq_false_2 (_ = [])), (bool_decide_eq_false_2 (take 3 _ = _)) by (by rewrite Hh). cbn [negb andb].
  rewrite Hb, length_app. cbn [length]. rewrite Nat.add_sub, take_app_length, Hsplit.
  assert (forallb (λ l, negb (bool_decide (l = []))) (line_of <$> ds) = true) as ->.
  { apply forallb_forall. intros l (d & <- & _)%in_map_iff. destruct (line_open d) as [r' ->]. done. }
  apply rmap_Ok, Forall2_fmap_l, Forall_Forall2_diag. eapply Forall_impl; [done|]. intros d Hd. by apply load_line.
Qed.

Section OneForm.
Context `{Sha256}.

Lemma from_bytes_serialize c raw : canonical_dict (pl_header c) → Forall canonical_dict (pl_sections c) →
  serialize_v2_envelope c = Ok raw → from_bytes_v2 raw = Ok c.
Proof.
  intros Hh Hs. unfold serialize_v2_envelope. intros ([] & Hv & <-%(inj Ok))%rbind_Ok. unfold from_bytes_v2.
  change (dumps_v2_line (pl_header c) ++ concat (dumps_v2_line <$> pl_sections c)) with (concat (dumps_v2_line <$> pl_header c :: pl_sections c)).
  rewrite loads_dumps by (done || by constructor). cbn [rbind]. rewrite Hv. cbn [rbind].
  assert (has_str (pl_header c) "fmt" V2_ENVELOPE_FMT && has_int (pl_header c) "v" V2_ENVELOPE_VERSION = true) as ->; [|by destruct c].
  unfold validate_v2_envelope in Hv. destruct (same_keys _ _); [|done]. destruct (has_str _ "alg" _); [|done].
  destruct (has_str _ "fmt" _); [|done]. destruct (has_str _ "split" _); [|done]. by destruct (has_int _ "v" _).
Qed.

(** [C35] What the strict reader accepts is, byte for byte, what the writer of that object emits: an object has
    one byte form, so no alternate spelling of an authenticated field survives the reader. *)
Theorem serialize_from_bytes c raw : from_bytes_v2 raw = Ok c → serialize_v2_envelope c = Ok raw.
Proof.
  unfold from_bytes_v2. intros (lines & Hl & Hc)%rbind_Ok. destruct lines as [|h secs]; [done|].
  destruct (has_str h _ _ && _); [|done]. apply rbind_Ok in Hc as ([] & Hv & [= <-]). unfold serialize_v2_envelope. cbn [pl_header pl_sections].
  rewrite Hv. cbn [rbind]. f_equal. change (concat (dumps_v2_line <$> h :: secs) = raw). unfold loads_v2_lines in Hl.
  case_bool_decide as Hne; [done|]. case_bool_decide as Hbom; [done|]. case_bool_decide as Hlast; [|done].
  cbn [negb andb] in Hl. case_bool_decide; [done|]. cbn [negb] in Hl. destruct (forallb _ _); [|done].
  apply last_Some in Hlast as [body ->]. rewrite length_app in Hl. cbn [length] in Hl. rewrite Nat.add_sub, take_app_length in Hl.
  apply rmap_Ok in Hl. rewrite <- (app_nil_l (body ++ [10])), <- (split_lines_join body []). f_equal.
  clear -Hl. induction Hl as [|l d ls ds Hd _ IH]; [done|]. rewrite !fmap_cons, IH. f_equal. unfold load_v2_line in Hd.
  destruct (loads_bytes _ l) as [[]|]; try done. case_bool_decide as Heq; [|done]. by injection Hd as <-.
Qed.
End OneForm.

(** The shares of a key combine to it, and no share can be spared: with any one of them missing every key
    of the same length is possible, through exactly one value of the missing share. *)
Lemma shares_all_needed dek extra i k : Forall (λ s, length s = length dek) extra → (i <= length extra)%nat → length k = length dek →
  combine_shares (split_dek dek extra) = Ok dek
  ∧ exists! s, length s = length dek ∧ combine_shares (<[i := s]> (split_dek dek extra)) = Ok k.
Proof.
  intros He Hi Hk. split; [by apply combine_split|]. apply missing_share; [|unfold split_dek; rewrite length_app; cbn; lia|done].
  apply Forall_app. split; [done|]. constructor; [|done]. by apply xor_fold_length.
Qed.

Lemma shares_all_needed_witness : combine_shares (split_dek [5; 6] [[1; 2]; [3; 4]]) = Ok [5; 6]
  ∧ exists! s, length s = 2%nat ∧ combine_shares (<[1%nat := s]> (split_dek [5; 6] [[1; 2]; [3; 4]])) = Ok [9; 9].
Proof. apply (shares_all_needed [5; 6] [[1; 2]; [3; 4]] 1%nat [9; 9]); [by repeat constructor|cbn; lia|done]. Defined.
