(* ===== verification/Sections.v ===== *)
(** * Sections of a trace object and the subject-key interface (crypto/shred.py)

    A stored object is a list of sections, each the lines of consecutive events with the same
    subject tags.  [SubjectKeys] is what the trace writer relies on: encryption may create
    subject keys in the caller's transaction; what it produced opens, with every later state
    of the keys in which none was destroyed, to the lines it was given.  The last holds only
    of [unraced] draws; Shred.v, which implements the interface, shows why. *)

From S2P Require Import Prelude Domain PyText.
Open Scope Z_scope.

Record PlainSection := mkSection {
  ps_seq_from : Z;
  ps_seq_to : Z;
  ps_subject_tags : list pystr;
  ps_lines : list (list Z);
  ps_subject_digests : list (list Z);
  ps_envelope_version : Z;
}.

Record TombstonedSection := mkTombstone {
  ts_seq_from : Z;
  ts_seq_to : Z;
  ts_subject_tags : list pystr;
  ts_subject_digests : list (list Z);
  ts_envelope_version : Z;
}.

Inductive OpenedSection := Plain (s : PlainSection) | Tombstoned (t : TombstonedSection).

(** What encryption preserves of a section. *)
Definition section_body (s : PlainSection) : Z * Z * list (list Z) := (ps_seq_from s, ps_seq_to s, ps_lines s).

(** The opened sections are the given ones, tags apart. *)
Definition same_sections (opened : list OpenedSection) (secs : list PlainSection) : Prop :=
  ∃ secs', opened = Plain <$> secs' ∧ section_body <$> secs' = section_body <$> secs.

Class SubjectKeys (payload keys draws : Type) := {
  encrypt_v2 : draws → ProjectId → RunId → list PlainSection → keys → result exn (payload * keys);
  decrypt : keys → ProjectId → payload → result exn (list OpenedSection);
  keys_later : relation keys;
  unraced : draws → Prop;
  keys_later_po :: PreOrder keys_later;
  encrypt_later : ∀ d p r secs ks c ks', encrypt_v2 d p r secs ks = Ok (c, ks') → keys_later ks ks';
  decrypt_encrypt : ∀ d p r secs ks c ks' later, encrypt_v2 d p r secs ks = Ok (c, ks') → unraced d → keys_later ks' later →
    ∃ opened, decrypt later p c = Ok opened ∧ same_sections opened secs;
}.

(** The payload was made from the sections by an encryption with draws of [drawn], and no key was destroyed since. *)
Definition sealed_as `{SubjectKeys payload keys draws} (drawn : draws → Prop) (ks : keys) (p : ProjectId) (r : RunId) (c : payload) (secs : list PlainSection) : Prop :=
  ∃ d ks0 ks1, encrypt_v2 d p r secs ks0 = Ok (c, ks1) ∧ drawn d ∧ keys_later ks1 ks.

Lemma sealed_later `{SubjectKeys payload keys draws} drawn ks ks' p r c secs :
  sealed_as drawn ks p r c secs → keys_later ks ks' → sealed_as drawn ks' p r c secs.
Proof. intros (d & ks0 & ks1 & He & Hu & Hl) Hl'. exists d, ks0, ks1. split_and!; [done..|]. by etrans. Qed.

Lemma encrypt_sealed `{SubjectKeys payload keys draws} (drawn : draws → Prop) d p r secs ks c ks' :
  encrypt_v2 d p r secs ks = Ok (c, ks') → drawn d → sealed_as drawn ks' p r c secs.
Proof. intros He Hu. by exists d, ks, ks'. Qed.

Lemma sealed_lines `{SubjectKeys payload keys draws} (drawn : draws → Prop) ks p r c secs :
  sealed_as drawn ks p r c secs → (∀ d, drawn d → unraced d) →
  ∃ secs', decrypt ks p c = Ok (Plain <$> secs') ∧ ps_lines <$> secs' = ps_lines <$> secs.
Proof.
  intros (d & ks0 & ks1 & He & Hd0 & Hl) Hu. apply Hu in Hd0. clear Hu. rename Hd0 into Hu. destruct (decrypt_encrypt _ _ _ _ _ _ _ ks He Hu Hl) as (opened & Hd & secs' & -> & Hb). exists secs'. split; [done|].
  assert (Hlines : ∀ l, ps_lines <$> l = snd <$> (section_body <$> l)) by (intros l; by rewrite <- list_fmap_compose).
  by rewrite !Hlines, Hb.
Qed.
