(* ===== verification/Shred.v ===== *)
(** * Crypto-shredding (crypto/shred.py, stores/pg/repo.py)

    The subject-key table, the manager that creates, wraps and unwraps the keys of subjects,
    and the [tb-env/2] encryption and decryption of the sections of a trace object.  AES-GCM
    is a parameter with the laws its documentation gives; [os.urandom], [uuid4] and what other
    transactions do to the key table meanwhile are the [Draws] of a call.  The legacy [tb-env/1]
    object is not modelled, the legacy rows of the key table are. *)

From S2P Require Import Prelude Domain PyText Json JsonLoads Memory Envelope Sections.
Open Scope Z_scope.

Inductive cerr :=
| CExn (e : exn)
| InvalidTag
| KeyBindingMismatch
| KeyMaterialUnavailable
| ShreddedSubject
| NotFoundPayload
| WriteDenied.

(** The exceptions of this package derive from [TracebedError]. *)
Definition exn_of (e : cerr) : exn := match e with CExn e => e | _ => TracebedError end.

Definition lift {A} (r : result exn A) : result cerr A := match r with Ok a => Ok a | Err e => Err (CExn e) end.

(** [AESGCM(key).encrypt] and [.decrypt]: a ciphertext is the plaintext and a 16-byte tag. *)
Class AesGcm := {
  aesgcm_encrypt : list Z → list Z → list Z → list Z → result cerr (list Z);
  aesgcm_decrypt : list Z → list Z → list Z → list Z → result cerr (list Z);
  aesgcm_total : ∀ key nonce pt aad, length key = 32%nat → length nonce = 12%nat → is_ok (aesgcm_encrypt key nonce pt aad) = true;
  aesgcm_length : ∀ key nonce pt aad ct, aesgcm_encrypt key nonce pt aad = Ok ct → length ct = (length pt + 16)%nat;
  aesgcm_bytes : ∀ key nonce pt aad ct, is_bytes pt → aesgcm_encrypt key nonce pt aad = Ok ct → is_bytes ct;
  aesgcm_inverse : ∀ key nonce pt aad ct, aesgcm_encrypt key nonce pt aad = Ok ct → aesgcm_decrypt key nonce ct aad = Ok pt;
}.

(** ** The key table *)

Record SubjectKeyRow := mkKeyRow {
  kr_subject_tag : option pystr;
  kr_key_id : uuid;
  kr_wrapped_kek : list Z;
  kr_created_at : Z;
  kr_destroyed_at : option Z;
  kr_subject_digest : option (list Z);
  kr_wrap_version : Z;
}.

(** A stored row; its digest is in the primary key. *)
Record subject_key := mkKey {
  k_subject_tag : option pystr;
  k_wrap_version : Z;
  k_key_id : uuid;
  k_wrapped_kek : list Z;
  k_created_at : Z;
  k_destroyed_at : option Z;
}.

Abbreviation key_table := (gmap (ProjectId * list Z) subject_key).

Definition get_subject_key_by_digest (ks : key_table) (p : ProjectId) (digest : list Z) : option SubjectKeyRow :=
  (λ r, mkKeyRow (k_subject_tag r) (k_key_id r) (k_wrapped_kek r) (k_created_at r) (k_destroyed_at r) (Some digest) (k_wrap_version r))
    <$> ks !! (p, digest).

(** What a call reads from outside: the bytes of each [os.urandom] by the number of the draw,
    the result of each [uuid4], and at the insertion numbered [n] the row another transaction
    commits first for the same digest, and whether the database refuses the write. *)
Record Draws := mkDraws {
  dr_urandom : nat → nat → Z;
  dr_uuid4 : nat → uuid;
  dr_race : nat → option subject_key;
  dr_denied : nat → bool;
  dr_now : Z;
}.

Definition random_bytes (d : Draws) (n len : nat) : list Z := (λ i, dr_urandom d n i mod 256) <$> seq 0 len.

(** The transaction: the key table as it reads it and the number of the next draw. *)
Definition tx : Type := key_table * nat.

(** [INSERT ... ON CONFLICT (project_id, subject_digest) DO NOTHING] *)
Definition insert_subject_key_v2 (d : Draws) (st : tx) (p : ProjectId) (digest : list Z) (key_id : uuid) (wrapped : list Z)
  : result cerr tx :=
  check! (length digest =? 32)%nat else CExn ValueError in
  check! (length wrapped =? 60)%nat else CExn ValueError in
  check! negb (dr_denied d st.2) else WriteDenied in
  let ks := match dr_race d st.2 with Some other => <[(p, digest) := other]> st.1 | None => st.1 end in
  Ok (match ks !! (p, digest) with Some _ => ks | None => <[(p, digest) := mkKey None 2 key_id wrapped (dr_now d) None]> ks end, S st.2).

(** The crypto step of an erasure: the rows of the subject, or every row of the project. *)
Definition destroy_row (now : Z) (r : subject_key) : subject_key :=
  match k_destroyed_at r with
  | None => mkKey None (k_wrap_version r) (k_key_id r) [] (k_created_at r) (Some now)
  | Some _ => r
  end.

Definition destroy_keys (ks : key_table) (p : ProjectId) (scope : option (list Z)) (now : Z) : key_table :=
  map_imap (λ key r, Some (if bool_decide (key.1 = p) && match scope with None => true | Some digest => bool_decide (key.2 = digest) end
                           then destroy_row now r else r)) ks.

(** ** The manager *)

Section Manager.
Context `{Sha256, AesGcm} (master : list Z).

Definition kek_wrap_aad (p : ProjectId) (tag : pystr) (key_id : uuid) : result exn (list Z) :=
  let! text := utf8_encode (py_join [0x1f] [uuid_str (ProjectId_value p); tag]) in
  Ok (text ++ [0x1f] ++ uuid_bytes key_id).

(** Only a failed tag becomes [e]. *)
Definition on_invalid_tag {A} (e : cerr) (r : result cerr A) : result cerr A := match r with Err InvalidTag => Err e | _ => r end.

Definition unwrap_kek (wrapped : list Z) (p : ProjectId) (tag : pystr) (key_id : uuid) : result cerr (list Z) :=
  let! aad := lift (kek_wrap_aad p tag key_id) in
  on_invalid_tag KeyMaterialUnavailable (aesgcm_decrypt master (take NONCE_LEN wrapped) (drop NONCE_LEN wrapped) aad).

Definition unwrap_v2_or_legacy_kek (p : ProjectId) (digest : list Z) (row : SubjectKeyRow) : result cerr (list Z) :=
  if kr_wrap_version row =? 1 then
    match kr_subject_tag row with
    | None => Err KeyBindingMismatch
    | Some tag => unwrap_kek (kr_wrapped_kek row) p tag (kr_key_id row)
    end
  else
    check! (kr_wrap_version row =? 2) && (length (kr_wrapped_kek row) =? NONCE_LEN + KEY_LEN + 16)%nat else KeyBindingMismatch in
    let! aad := lift (build_v2_kek_aad p digest (kr_key_id row)) in
    on_invalid_tag KeyMaterialUnavailable
      (aesgcm_decrypt master (take NONCE_LEN (kr_wrapped_kek row)) (drop NONCE_LEN (kr_wrapped_kek row)) aad).

(** The digest a row carries, or that of its tag, is [digest]. *)
Definition tag_bound (p : ProjectId) (digest : list Z) (tag : option pystr) : result cerr unit :=
  match tag with
  | None => Err KeyBindingMismatch
  | Some tag => let! dg := lift (subject_digest p tag) in check! bool_decide (dg = digest) else KeyBindingMismatch in Ok tt
  end.

Definition digest_agrees (row : SubjectKeyRow) (digest : list Z) : bool :=
  match kr_subject_digest row with Some dg => bool_decide (dg = digest) | None => true end.

Definition get_or_create_v2_kek (d : Draws) (st : tx) (p : ProjectId) (digest : list Z) : result cerr (list Z * uuid * tx) :=
  check! (length digest =? 32)%nat else CExn ValueError in
  match get_subject_key_by_digest st.1 p digest with
  | Some row =>
      check! digest_agrees row digest else KeyBindingMismatch in
      if kr_wrap_version row =? 1 then
        check! bool_decide (kr_destroyed_at row = None) else ShreddedSubject in
        let! _ := tag_bound p digest (kr_subject_tag row) in
        let! kek := unwrap_kek (kr_wrapped_kek row) p (default [] (kr_subject_tag row)) (kr_key_id row) in
        Ok (kek, kr_key_id row, st)
      else
        check! (kr_wrap_version row =? 2) && bool_decide (kr_subject_tag row = None) else KeyBindingMismatch in
        check! bool_decide (kr_destroyed_at row = None) else ShreddedSubject in
        let! kek := unwrap_v2_or_legacy_kek p digest row in
        Ok (kek, kr_key_id row, st)
  | None =>
      let n := st.2 in
      let kek := random_bytes d n KEY_LEN in
      let key_id := dr_uuid4 d n in
      let nonce := random_bytes d (S n) NONCE_LEN in
      let! aad := lift (build_v2_kek_aad p digest key_id) in
      let! ct := aesgcm_encrypt master nonce kek aad in
      let! st' := insert_subject_key_v2 d (st.1, S (S n)) p digest key_id (nonce ++ ct) in
      Ok (kek, key_id, st')
  end.

(** *** Plaintext *)

(** The sequence number of a canonical event line. *)
Definition line_seq (line : list Z) : result exn Z :=
  match loads_bytes dict_hook line with
  | Some (JObj value) =>
      check! same_keys value ["seq"; "event"]%string else ValueError in
      match get value "seq" with
      | Some (JInt n) =>
          let! canonical := canonical_json (JObj value) in
          check! bool_decide (canonical = line) else ValueError in Ok n
      | _ => Err ValueError
      end
  | _ => Err ValueError
  end.

(** The numbers of the lines, in range and increasing; the result is the first and the last. *)
Fixpoint check_lines (seq_from seq_to : Z) (prev : option (Z * Z)) (lines : list (list Z)) : result exn (option (Z * Z)) :=
  match lines with
  | [] => Ok prev
  | line :: lines' =>
      let! n := line_seq line in
      check! (seq_from <=? n) && (n <=? seq_to) && match prev with Some (_, q) => q <? n | None => true end else ValueError in
      check_lines seq_from seq_to (Some (match prev with Some (first, _) => first | None => n end, n)) lines'
  end.

Definition v2_plaintext (s : PlainSection) : result exn (list Z) :=
  check! negb (bool_decide (ps_lines s = [])) else ValueError in
  let! range := check_lines (ps_seq_from s) (ps_seq_to s) None (ps_lines s) in
  check! bool_decide (range = Some (ps_seq_from s, ps_seq_to s)) else ValueError in
  Ok (concat ((λ line, line ++ [10]) <$> ps_lines s)).

Definition v2_decrypt_plaintext (plaintext : list Z) (seq_from seq_to : Z) : result exn (list (list Z)) :=
  check! bool_decide (last plaintext = Some 10) else ValueError in
  let lines := split_lines [] (take (length plaintext - 1) plaintext) in
  check! forallb (λ l, negb (bool_decide (l = []))) lines else ValueError in
  let! range := check_lines seq_from seq_to None lines in
  check! bool_decide (range = Some (seq_from, seq_to)) else ValueError in
  Ok lines.

(** *** Encryption *)

Definition wrap_dict (digest : list Z) (key_id : uuid) (nonce share : list Z) : dict :=
  [(of_ascii "digest", JStr (b64e digest)); (of_ascii "key_id", JStr (uuid_str key_id));
   (of_ascii "nonce", JStr (b64e nonce)); (of_ascii "share", JStr (b64e share))].

Fixpoint encrypt_wraps (d : Draws) (st : tx) (p : ProjectId) (section_aad : list Z) (wrap_index : Z)
    (digests : list (list Z)) (shares : list (list Z)) : result cerr (list dict * tx) :=
  match digests, shares with
  | digest :: digests', share :: shares' =>
      let! (kek, key_id, st) := get_or_create_v2_kek d st p digest in
      let nonce := random_bytes d st.2 NONCE_LEN in
      let! aad := lift (build_v2_share_aad section_aad wrap_index digest key_id) in
      let! ct := aesgcm_encrypt kek nonce share aad in
      let! (wraps, st) := encrypt_wraps d (st.1, S st.2) p section_aad (wrap_index + 1) digests' shares' in
      Ok (wrap_dict digest key_id nonce ct :: wraps, st)
  | _, _ => Ok ([], st)
  end.

Definition section_dict (ct nonce : list Z) (index seq_from seq_to : Z) (digests : list (list Z)) (wraps : list dict) : dict :=
  [(of_ascii "ct", JStr (b64e ct)); (of_ascii "nonce", JStr (b64e nonce)); (of_ascii "section_index", JInt index);
   (of_ascii "seq_from", JInt seq_from); (of_ascii "seq_to", JInt seq_to);
   (of_ascii "subject_digests", JArr ((λ x, JStr (b64e x)) <$> digests)); (of_ascii "wraps", JArr (JObj <$> wraps))].

(** The digests a section's key is split across: its own, or the project's when it has none. *)
Definition wrap_digests (p : ProjectId) (declared : list (list Z)) : result exn (list (list Z)) :=
  match declared with [] => let! s := subject_digest p PROJECT_SUBJECT_TAG in Ok [s] | _ => Ok declared end.

Definition encrypt_section (d : Draws) (st : tx) (p : ProjectId) (r : RunId) (index : Z) (prev : option Z) (s : PlainSection)
  : result cerr (dict * tx) :=
  check! (0 <=? ps_seq_from s) && (ps_seq_from s <=? ps_seq_to s) && (ps_seq_to s <? MAX_SEQ) else CExn ValueError in
  check! (match prev with Some q => q <? ps_seq_from s | None => true end) else CExn ValueError in
  let! pairs := lift (subject_digest_pairs p (ps_subject_tags s)) in
  let declared := pairs.*1 in
  let! wrapping := lift (wrap_digests p declared) in
  let! plaintext := lift (v2_plaintext s) in
  let! aad := lift (build_v2_section_aad p r index (ps_seq_from s) (ps_seq_to s) declared) in
  let n := st.2 in
  let dek := random_bytes d n KEY_LEN in
  let nonce := random_bytes d (S n) NONCE_LEN in
  let! ct := aesgcm_encrypt dek nonce plaintext aad in
  let extra := (length wrapping - 1)%nat in
  let shares := split_dek dek ((λ k, random_bytes d (n + 2 + k) KEY_LEN) <$> seq 0 extra) in
  let! (wraps, st) := encrypt_wraps d (st.1, n + 2 + extra)%nat p aad 0 wrapping shares in
  Ok (section_dict ct nonce index (ps_seq_from s) (ps_seq_to s) declared wraps, st).

(** The smallest and the largest number of the sections read so far. *)
Definition widen (range : option (Z * Z)) (s : PlainSection) : option (Z * Z) :=
  Some match range with
       | Some (a, b) => (Z.min a (ps_seq_from s), Z.max b (ps_seq_to s))
       | None => (ps_seq_from s, ps_seq_to s)
       end.

Fixpoint encrypt_sections (d : Draws) (st : tx) (p : ProjectId) (r : RunId) (index : Z) (prev : option Z) (range : option (Z * Z))
    (secs : list PlainSection) : result cerr (list dict * option (Z * Z) * tx) :=
  match secs with
  | [] => Ok ([], range, st)
  | s :: secs' =>
      let! (e, st) := encrypt_section d st p r index prev s in
      let! (es, range, st) := encrypt_sections d st p r (index + 1) (Some (ps_seq_to s)) (widen range s) secs' in
      Ok (e :: es, range, st)
  end.

Definition header_dict (p : ProjectId) (r : RunId) (first_seq last_seq count : Z) : dict :=
  [(of_ascii "alg", JStr ENVELOPE_ALG); (of_ascii "first_seq", JInt first_seq); (of_ascii "fmt", JStr V2_ENVELOPE_FMT);
   (of_ascii "last_seq", JInt last_seq); (of_ascii "project_id", JStr (uuid_str (ProjectId_value p)));
   (of_ascii "run_id", JStr (uuid_str (RunId_value r))); (of_ascii "section_count", JInt count);
   (of_ascii "split", JStr V2_SPLIT); (of_ascii "v", JInt V2_ENVELOPE_VERSION); (of_ascii "wrap_alg", JStr V2_WRAP_ALG)].

Definition shred_encrypt_v2 (d : Draws) (p : ProjectId) (r : RunId) (secs : list PlainSection) (ks : key_table)
  : result cerr (EncryptedPayload * key_table) :=
  check! negb (bool_decide (secs = [])) && (Z.of_nat (length secs) <=? MAX_SECTIONS) else CExn ValueError in
  let! (es, range, st) := encrypt_sections d (ks, 0%nat) p r 0 None None secs in
  match range with
  | Some (first_seq, last_seq) => Ok (mkPayload (header_dict p r first_seq last_seq (Z.of_nat (length es))) es, st.1)
  | None => Err (CExn AssertionError)
  end.

(** *** Decryption *)

Definition as_int (j : option json) : result exn Z :=
  match j with Some (JInt n) => check! (0 <=? n) && (n <? MAX_SEQ) else ValueError in Ok n | _ => Err ValueError end.
Definition as_str (j : option json) : result exn pystr := match j with Some (JStr s) => Ok s | _ => Err ValueError end.
Definition as_list (j : option json) : result exn (list json) := match j with Some (JArr l) => Ok l | _ => Err ValueError end.
Definition as_wrap (j : json) : result exn dict := match j with JObj d => Ok d | _ => Err ValueError end.

(** One wrap with the key row it is bound to. *)
Definition bind_wrap (ks : key_table) (p : ProjectId) (j : json) : result cerr (dict * list Z * uuid * SubjectKeyRow) :=
  let! wrap := lift (as_wrap j) in
  let! digest := lift (b64d_canonical (get wrap "digest")) in
  let! text := lift (as_str (get wrap "key_id")) in
  let! key_id := lift (uuid_new text) in
  match get_subject_key_by_digest ks p digest with
  | None => Err KeyBindingMismatch
  | Some row =>
      check! bool_decide (kr_key_id row = key_id) else KeyBindingMismatch in
      check! digest_agrees row digest else KeyBindingMismatch in
      let! _ := match kr_subject_digest row with Some _ => Ok tt | None => tag_bound p digest (kr_subject_tag row) end in
      Ok (wrap, digest, key_id, row)
  end.

(** The readable shares; the flag is whether some key was destroyed. *)
Fixpoint open_shares (p : ProjectId) (section_aad : list Z) (wrap_index : Z) (bound : list (dict * list Z * uuid * SubjectKeyRow))
  : result cerr (bool * list (list Z)) :=
  match bound with
  | [] => Ok (false, [])
  | (wrap, digest, key_id, row) :: bound' =>
      if bool_decide (kr_destroyed_at row = None) then
        let! kek := unwrap_v2_or_legacy_kek p digest row in
        let! nonce := lift (b64d_canonical (get wrap "nonce")) in
        let! share := lift (b64d_canonical (get wrap "share")) in
        let! aad := lift (build_v2_share_aad section_aad wrap_index digest key_id) in
        let! opened := on_invalid_tag KeyBindingMismatch (aesgcm_decrypt kek nonce share aad) in
        let! (destroyed, shares) := open_shares p section_aad (wrap_index + 1) bound' in
        Ok (destroyed, opened :: shares)
      else
        let! (_, shares) := open_shares p section_aad (wrap_index + 1) bound' in
        Ok (true, shares)
  end.

Definition decrypt_section_v2 (ks : key_table) (p : ProjectId) (r : RunId) (s : dict) : result cerr OpenedSection :=
  let! seq_from := lift (as_int (get s "seq_from")) in
  let! seq_to := lift (as_int (get s "seq_to")) in
  let! index := lift (as_int (get s "section_index")) in
  let! encoded := lift (as_list (get s "subject_digests")) in
  let! digests := lift (rmap (λ x, b64d_canonical (Some x)) encoded) in
  let! aad := lift (build_v2_section_aad p r index seq_from seq_to digests) in
  let! wraps := lift (as_list (get s "wraps")) in
  let! bound := rmap (bind_wrap ks p) wraps in
  let! (destroyed, shares) := open_shares p aad 0 bound in
  if destroyed : bool then Ok (Tombstoned (mkTombstone seq_from seq_to [] digests V2_ENVELOPE_VERSION))
  else
    let! dek := lift (combine_shares shares) in
    let! nonce := lift (b64d_canonical (get s "nonce")) in
    let! ct := lift (b64d_canonical (get s "ct")) in
    let! plaintext := on_invalid_tag (CExn ValueError) (aesgcm_decrypt dek nonce ct aad) in
    let! lines := lift (v2_decrypt_plaintext plaintext seq_from seq_to) in
    Ok (Plain (mkSection seq_from seq_to [] lines digests V2_ENVELOPE_VERSION)).

Definition decrypt_v2 (ks : key_table) (p : ProjectId) (c : EncryptedPayload) : result cerr (list OpenedSection) :=
  let! project := lift (as_str (get (pl_header c) "project_id")) in
  check! bool_decide (project = uuid_str (ProjectId_value p)) else NotFoundPayload in
  let! text := lift (as_str (get (pl_header c) "run_id")) in
  let! run := lift (uuid_new text) in
  rmap (decrypt_section_v2 ks p (mkRunId run)) (pl_sections c).

(** What the trace writer stores and the archive reader reads. *)
Definition seal (d : Draws) (p : ProjectId) (r : RunId) (secs : list PlainSection) (ks : key_table) : result cerr (list Z * key_table) :=
  let! (c, ks') := shred_encrypt_v2 d p r secs ks in
  let! raw := lift (serialize_v2_envelope c) in Ok (raw, ks').

Definition open (ks : key_table) (p : ProjectId) (raw : list Z) : result cerr (list OpenedSection) :=
  let! c := lift (from_bytes_v2 raw) in decrypt_v2 ks p c.

End Manager.

(** ** Rows over time *)

(** A row stays as it is or is destroyed; its identity never changes. *)
Definition row_after (r r' : subject_key) : Prop := r' = r ∨ (is_Some (k_destroyed_at r') ∧ k_key_id r' = k_key_id r).

Definition keys_after (ks later : key_table) : Prop := ∀ key r, ks !! key = Some r → ∃ r', later !! key = Some r' ∧ row_after r r'.

#[export] Instance keys_after_po : PreOrder keys_after.
Proof.
  split.
  - intros ks key r Hr. exists r. split; [done|by left].
  - intros a b c Hab Hbc key r Hr. destruct (Hab key r Hr) as (r1 & H1 & Ha1). destruct (Hbc key r1 H1) as (r2 & H2 & Ha2).
    exists r2. split; [done|]. destruct Ha2 as [->|[? ?]]; [done|]. right. split; [done|]. destruct Ha1 as [->|[_ ?]]; congruence.
Qed.

Lemma subseteq_after ks later : ks ⊆ later → keys_after ks later.
Proof. intros Hs key r Hr. exists r. split; [by eapply lookup_weaken|by left]. Qed.

Definition in_scope (p : ProjectId) (scope : option (list Z)) (key : ProjectId * list Z) : bool :=
  bool_decide (key.1 = p) && match scope with None => true | Some digest => bool_decide (key.2 = digest) end.

Lemma lookup_destroy ks p scope now key : destroy_keys ks p scope now !! key = (λ r, if in_scope p scope key then destroy_row now r else r) <$> ks !! key.
Proof. unfold destroy_keys. rewrite map_lookup_imap. unfold in_scope. by destruct (ks !! key). Qed.

Lemma destroy_row_after now r : row_after r (destroy_row now r) ∧ is_Some (k_destroyed_at (destroy_row now r)).
Proof. unfold destroy_row. destruct (k_destroyed_at r) eqn:Hd; [split; [by left|]; rewrite Hd; by eexists|]. split; [|by eexists]. right. split; [by eexists|done]. Qed.

Lemma destroy_after ks p scope now : keys_after ks (destroy_keys ks p scope now).
Proof.
  intros key r Hr. rewrite lookup_destroy, Hr. cbn. eexists. split; [done|]. destruct (in_scope p scope key); [apply destroy_row_after|by left].
Qed.

Definition destroyed_in (ks : key_table) (p : ProjectId) (digest : list Z) : bool :=
  match ks !! (p, digest) with Some r => negb (bool_decide (k_destroyed_at r = None)) | None => false end.

(** *** Bytes *)

Lemma random_bytes_length d n len : length (random_bytes d n len) = len.
Proof. unfold random_bytes. by rewrite length_fmap, length_seq. Qed.

Lemma random_bytes_bytes d n len : is_bytes (random_bytes d n len).
Proof. apply Forall_fmap, Forall_true. intros i. apply Z.mod_pos_bound. lia. Qed.

Lemma lxor_byte a b : 0 <= a < 256 → 0 <= b < 256 → 0 <= Z.lxor a b < 256.
Proof.
  intros Ha Hb. assert (Hhigh : ∀ x i, 0 <= x < 256 → 8 <= i → Z.testbit x i = false).
  { intros x i Hx Hi. rewrite <- (Z.mod_small x (2 ^ 8)) by (cbn; lia). apply Z.mod_pow2_bits_high. lia. }
  assert (Hm : Z.lxor a b = Z.lxor a b mod 2 ^ 8).
  { apply Z.bits_inj'. intros i Hi. destruct (Z.lt_ge_cases i 8); [by rewrite Z.mod_pow2_bits_low|].
    by rewrite Z.mod_pow2_bits_high, Z.lxor_spec, !Hhigh by lia. }
  rewrite Hm. apply Z.mod_pos_bound. lia.
Qed.

Lemma xor_bytes_bytes a b : is_bytes a → is_bytes b → is_bytes (xor_bytes a b).
Proof.
  intros Ha. revert b. induction Ha as [|x a Hx Ha IH]; intros [|y b] Hb; try constructor; apply Forall_cons in Hb as [? ?].
  - by apply lxor_byte.
  - by apply IH.
Qed.

Lemma xor_fold_bytes shares : ∀ a, is_bytes a → Forall is_bytes shares → is_bytes (foldl xor_bytes a shares).
Proof.
  induction shares as [|s shares IH]; intros a Ha Hs; [done|]. apply Forall_cons in Hs as [? ?]. cbn.
  apply IH; [by apply xor_bytes_bytes|done].
Qed.

Lemma split_dek_bytes dek shares : is_bytes dek → Forall is_bytes shares → Forall is_bytes (split_dek dek shares).
Proof. intros Hd Hs. apply Forall_app. split; [done|]. constructor; [by apply xor_fold_bytes|done]. Qed.

Lemma int_to_bytes_bytes k n : is_bytes (int_to_bytes_big k n).
Proof.
  revert n. induction k as [|k IH]; intros n; [constructor|]. apply Forall_app. split; [apply IH|].
  constructor; [|done]. apply Z.mod_pos_bound. lia.
Qed.

(** *** Lines *)

Lemma utf8_decode_bytes bs : ∀ s, utf8_decode bs = Ok s → is_bytes bs.
Proof.
  induction bs as [bs IH] using (induction_ltof1 _ length). intros s. destruct bs as [|a r]; [constructor|]. unfold ltof in IH.
  cbn [utf8_decode]. unfold cont. intros Hd.
  repeat match goal with
  | H : context [if ?b then _ else _] |- _ => destruct b eqn:?; [|try discriminate H]
  | H : context [match ?l with [] => _ | _ => _ end] |- _ => is_var l; destruct l
  | H : rbind _ _ = Ok _ |- _ => apply rbind_Ok in H as (? & ? & ?)
  | H : (_ && _) = true |- _ => apply andb_prop in H as [? ?]
  | H : (_ <=? _) = true |- _ => apply Z.leb_le in H
  end; try discriminate; repeat (constructor; [lia|]); (eapply IH; [|done]); cbn; lia.
Qed.

Lemma plain_no_newline s : 10 ∉ json_dumps_plain s.
Proof.
  unfold json_dumps_plain. rewrite not_elem_of_cons, not_elem_of_app. split_and!; [done| |set_solver].
  induction s as [|c s IH]; [set_solver|]. cbn. rewrite not_elem_of_app. split; [|done]. unfold escape_plain_char.
  destruct (short_escape c) as [e|] eqn:He.
  - unfold short_escape in He. repeat (case_match; [injection He as <-; set_solver|]). done.
  - destruct (Z.ltb_spec c 32); [|rewrite list_elem_of_singleton; lia]. unfold u_escape.
    rewrite !not_elem_of_cons. split_and!; [done|done|]. intros Hin.
    pose proof (proj1 (Forall_forall _ _) (hex_pad_printable 4 c) 10 Hin) as Hp. cbn in Hp. lia.
Qed.

Lemma join_no_newline sep ps : 10 ∉ sep → Forall (λ p, 10 ∉ p) ps → 10 ∉ py_join sep ps.
Proof.
  intros Hsep Hps. induction Hps as [|p ps Hp Hps IH]; [set_solver|]. destruct ps; [done|]. rewrite join_cons, !not_elem_of_app. done.
Qed.

Lemma dumps_no_newline j : 10 ∉ json_dumps j.
Proof.
  unfold json_dumps. induction j as [|b|n|s|l IH|l IH] using json_ind_nested.
  - vm_compute. set_solver.
  - destruct b; vm_compute; set_solver.
  - intros Hin. pose proof (proj1 (Forall_forall _ _) (printable_dec n) 10 Hin) as Hp. cbn in Hp. lia.
  - apply plain_no_newline.
  - rewrite text_arr, !not_elem_of_app. split_and!; [set_solver| |set_solver]. apply join_no_newline; [set_solver|]. by rewrite Forall_fmap.
  - rewrite text_obj, !not_elem_of_app. split_and!; [set_solver| |set_solver]. apply join_no_newline; [set_solver|].
    rewrite Forall_fmap, py_sorted_Permutation. eapply Forall_impl; [done|]. intros kv Hkv. unfold compose, member.
    rewrite !not_elem_of_app. split_and!; [apply plain_no_newline|set_solver|done].
Qed.

Lemma utf8_no_newline s bs : 10 ∉ s → utf8_encode s = Ok bs → 10 ∉ bs.
Proof.
  intros Hs. unfold utf8_encode. intros (parts & Hp & [= <-])%rbind_Ok. apply rmap_Ok in Hp.
  induction Hp as [|c b s parts Hc _ IH]; [set_solver|]. apply not_elem_of_cons in Hs as [Hc10 Hs]. cbn. rewrite not_elem_of_app.
  split; [|by apply IH]. clear IH. unfold utf8_char in Hc.
  pose proof (Z.mod_pos_bound c 64 ltac:(lia)). pose proof (Z.mod_pos_bound (c / 64) 64 ltac:(lia)).
  pose proof (Z.mod_pos_bound (c / 4096) 64 ltac:(lia)).
  destruct (Z.ltb_spec c 0x80); [injection Hc as <-; set_solver|].
  assert (0 <= c / 64 ∧ 0 <= c / 4096 ∧ 0 <= c / 262144) as (? & ? & ?) by (split_and!; apply Z.div_pos; lia).
  repeat case_match; try done; injection Hc as <-; rewrite !not_elem_of_cons; split_and!; try lia; set_solver.
Qed.

(** A canonical event line: bytes, not empty, no line break. *)
Lemma line_seq_shape line n : line_seq line = Ok n → is_bytes line ∧ line ≠ [] ∧ 10 ∉ line.
Proof.
  unfold line_seq. destruct (loads_bytes dict_hook line) as [[| | | | |value]|] eqn:Hl; try done.
  destruct (same_keys _ _); [|done]. destruct (get value "seq") as [[]|]; try done. intros (raw & Hc & Heq)%rbind_Ok.
  case_bool_decide; [|done]. subst raw. split_and!.
  - unfold loads_bytes in Hl. destruct (utf8_decode line) eqn:Hd; [|done]. by eapply utf8_decode_bytes.
  - intros ->. unfold canonical_json, utf8_encode in Hc. apply rbind_Ok in Hc as (parts & Hp & [= Hnil]).
    unfold json_dumps in Hp. rewrite text_obj in Hp. cbn [app] in Hp. apply rmap_Ok in Hp. inversion Hp as [|? b ? ? Hb]; subst.
    vm_compute in Hb. injection Hb as <-. done.
  - eapply utf8_no_newline; [|done]. apply dumps_no_newline.
Qed.

Lemma check_lines_shape a b lines : ∀ prev range, check_lines a b prev lines = Ok range → Forall (λ l, is_bytes l ∧ l ≠ [] ∧ 10 ∉ l) lines.
Proof.
  induction lines as [|l lines IH]; intros prev range; cbn; [constructor|]. intros (n & Hn & Hc)%rbind_Ok. constructor; [by eapply line_seq_shape|].
  case_match; [|done]. by eapply IH.
Qed.

Lemma plaintext_roundtrip s pt : v2_plaintext s = Ok pt → is_bytes pt ∧ v2_decrypt_plaintext pt (ps_seq_from s) (ps_seq_to s) = Ok (ps_lines s).
Proof.
  unfold v2_plaintext. case_bool_decide as Hne; [done|]. cbn [negb]. intros (range & Hc & Heq)%rbind_Ok.
  case_bool_decide; [|done]. apply (inj Ok) in Heq as <-. subst range. pose proof (check_lines_shape _ _ _ _ _ Hc) as Hsh. split.
  - apply Forall_concat, Forall_fmap. eapply Forall_impl; [done|]. intros l (Hb & _). unfold compose. apply Forall_app. by repeat constructor.
  - destruct (exists_last Hne) as (ls & l & Hl).
    assert (Hb : ∃ body, concat ((λ line, line ++ [10]) <$> ps_lines s) = body ++ [10]).
    { exists (concat ((λ line, line ++ [10]) <$> ls) ++ l). rewrite Hl, fmap_app, concat_app. cbn. by rewrite app_nil_r, app_assoc. }
    destruct Hb as [body Hb]. unfold v2_decrypt_plaintext. rewrite Hb, last_snoc, bool_decide_eq_true_2 by done.
    rewrite length_app. cbn [length]. rewrite Nat.add_sub, take_app_length, (split_lines_concat (ps_lines s) body); [|done| |done].
    + rewrite (proj2 (forallb_forall _ _)), Hc; [cbn; by rewrite bool_decide_eq_true_2|]. intros x Hx. apply list_elem_of_In in Hx.
      rewrite Forall_forall in Hsh. destruct (Hsh x Hx) as (_ & ? & _). by rewrite bool_decide_eq_false_2.
    + eapply Forall_impl; [done|]. by intros x (_ & _ & ?).
Qed.

(** ** What was encrypted opens *)

Section Opens.
Context `{Sha256, AesGcm} (master : list Z).

Definition row_of (digest : list Z) (r : subject_key) : SubjectKeyRow :=
  mkKeyRow (k_subject_tag r) (k_key_id r) (k_wrapped_kek r) (k_created_at r) (k_destroyed_at r) (Some digest) (k_wrap_version r).

Lemma get_key_row ks p digest : get_subject_key_by_digest ks p digest = row_of digest <$> ks !! (p, digest).
Proof. done. Qed.

Lemma lift_Ok {A} (r : result exn A) a : lift r = Ok a ↔ r = Ok a.
Proof. destruct r; cbn; split; congruence. Qed.

(** An insertion keeps every row; alone, it stores the new one. *)
Lemma insert_spec d st p digest key_id wrapped st' : insert_subject_key_v2 d st p digest key_id wrapped = Ok st' → st.1 !! (p, digest) = None →
  st.1 ⊆ st'.1 ∧ length wrapped = 60%nat
  ∧ (dr_race d st.2 = None → st'.1 !! (p, digest) = Some (mkKey None 2 key_id wrapped (dr_now d) None)).
Proof.
  unfold insert_subject_key_v2. destruct (Nat.eqb_spec (length digest) 32); [|done]. destruct (Nat.eqb_spec (length wrapped) 60); [|done].
  destruct (dr_denied d st.2); [done|]. cbn [negb]. intros [= <-] Hnone. cbn [fst]. destruct (dr_race d st.2) as [other|].
  - rewrite lookup_insert_eq. split_and!; [by apply insert_subseteq|done|done].
  - rewrite Hnone. split_and!; [by apply insert_subseteq|done|]. intros _. by rewrite lookup_insert_eq.
Qed.

(** The key returned is the one a live row of the table wraps, unless another transaction stored its own. *)
Lemma get_or_create_spec d st p digest kek key_id st' : get_or_create_v2_kek master d st p digest = Ok (kek, key_id, st') →
  st.1 ⊆ st'.1 ∧ ((∀ n, dr_race d n = None) → ∃ r, st'.1 !! (p, digest) = Some r ∧ k_key_id r = key_id ∧ k_destroyed_at r = None
    ∧ unwrap_v2_or_legacy_kek master p digest (row_of digest r) = Ok kek).
Proof.
  unfold get_or_create_v2_kek. destruct (Nat.eqb_spec (length digest) 32); [|done]. rewrite get_key_row.
  destruct (st.1 !! (p, digest)) as [r|] eqn:Hr; cbn [fmap option_fmap option_map].
  - unfold row_of at 1. unfold digest_agrees. cbn [kr_subject_digest kr_wrap_version kr_destroyed_at kr_subject_tag kr_wrapped_kek kr_key_id row_of].
    rewrite bool_decide_eq_true_2 by done. destruct (Z.eqb_spec (k_wrap_version r) 1) as [Hv|Hv].
    + case_bool_decide as Hd; [|done]. intros (u & Ht & (kek' & Hk & [= <- <- <-])%rbind_Ok)%rbind_Ok. split; [done|]. intros _.
      exists r. split_and!; try done. unfold unwrap_v2_or_legacy_kek. cbn [kr_wrap_version row_of kr_subject_tag kr_wrapped_kek kr_key_id].
      rewrite Hv, Z.eqb_refl. by destruct (k_subject_tag r).
    + destruct (_ && _); [|done]. case_bool_decide as Hd; [|done]. intros (kek' & Hk & [= <- <- <-])%rbind_Ok. split; [done|]. intros _.
      by exists r.
  - intros (aad & Ha & (ct & Hct & (st1 & Hi & [= <- <- <-])%rbind_Ok)%rbind_Ok)%rbind_Ok.
    destruct (insert_spec _ _ _ _ _ _ _ Hi Hr) as (Hsub & Hlen & Hrow). split; [done|]. intros Hu. eexists. split; [by apply Hrow|].
    split_and!; [done..|]. unfold unwrap_v2_or_legacy_kek. cbn [row_of kr_wrap_version kr_wrapped_kek kr_key_id k_wrap_version k_wrapped_kek k_key_id].
    change (2 =? 1) with false. change (2 =? 2) with true. cbn iota. rewrite Hlen. change (60 =? NONCE_LEN + KEY_LEN + 16)%nat with true. cbn [andb].
    rewrite Ha. cbn [rbind]. assert (Hn : length (random_bytes d (S st.2) NONCE_LEN) = NONCE_LEN) by apply random_bytes_length.
    by rewrite take_app_length', drop_app_length', (aesgcm_inverse _ _ _ _ _ Hct) by done.
Qed.

Lemma encrypt_wraps_sub d p aad digests : ∀ shares st i wraps st', encrypt_wraps master d st p aad i digests shares = Ok (wraps, st') → st.1 ⊆ st'.1.
Proof.
  induction digests as [|digest digests IH]; intros [|share shares] st i wraps st'; cbn [encrypt_wraps]; try (by intros [= <- <-]).
  intros ([[kek key_id] st1] & Hg & (aad' & _ & (ct & _ & ([ws st2] & Hw & [= _ <-])%rbind_Ok)%rbind_Ok)%rbind_Ok)%rbind_Ok.
  destruct (get_or_create_spec _ _ _ _ _ _ _ Hg) as [Hs _]. etrans; [done|]. by apply (IH _ _ _ _ _ Hw).
Qed.

(** One wrap against a later table: bound to its row, its share readable as long as the row is live. *)
Lemma wrap_binds later p digest key_id nonce ct r : is_bytes digest → later !! (p, digest) = Some r → k_key_id r = key_id →
  bind_wrap later p (JObj (wrap_dict digest key_id nonce ct)) = Ok (wrap_dict digest key_id nonce ct, digest, key_id, row_of digest r).
Proof.
  intros Hb Hr Hk. unfold bind_wrap. cbn [as_wrap lift rbind].
  change (get (wrap_dict digest key_id nonce ct) "digest") with (Some (JStr (b64e digest))).
  change (get (wrap_dict digest key_id nonce ct) "key_id") with (Some (JStr (uuid_str key_id))).
  rewrite b64_roundtrip by done. cbn [lift rbind as_str]. rewrite uuid_new_str. cbn [lift rbind]. rewrite get_key_row, Hr.
  cbn [fmap option_fmap option_map]. cbn [row_of kr_key_id]. rewrite bool_decide_eq_true_2 by done. unfold digest_agrees. cbn [kr_subject_digest row_of].
  by rewrite bool_decide_eq_true_2.
Qed.

Lemma encrypt_wraps_open d p aad later : (∀ n, dr_race d n = None) → ∀ digests shares st i wraps st',
  encrypt_wraps master d st p aad i digests shares = Ok (wraps, st') → length digests = length shares →
  Forall is_bytes digests → Forall is_bytes shares → keys_after st'.1 later →
  ∃ bound opened, rmap (bind_wrap later p) (JObj <$> wraps) = Ok bound
    ∧ open_shares master p aad i bound = Ok (existsb (destroyed_in later p) digests, opened)
    ∧ (existsb (destroyed_in later p) digests = false → opened = shares).
Proof.
  intros Hu. induction digests as [|digest digests IH]; intros [|share shares] st i wraps st'; cbn [encrypt_wraps]; try done.
  { intros [= <- <-] _ _ _ _. by exists [], []. }
  intros ([[kek key_id] st1] & Hg & (aad' & Ha & (ct & Hct & ([ws st2] & Hw & [= <- <-])%rbind_Ok)%rbind_Ok)%rbind_Ok)%rbind_Ok.
  intros [= Hlen] [Hb Hbs]%Forall_cons [Hsb Hsbs]%Forall_cons Hlater.
  destruct (get_or_create_spec _ _ _ _ _ _ _ Hg) as [_ Hrow]. destruct (Hrow Hu) as (r & Hr & Hk & Hlive & Hun). clear Hrow.
  pose proof (encrypt_wraps_sub _ _ _ _ _ _ _ _ _ Hw) as Hsub. cbn [fst] in Hsub.
  destruct (IH _ _ _ _ _ Hw Hlen Hbs Hsbs Hlater) as (bound & opened & Hbind & Hopen & Hall).
  destruct (Hlater (p, digest) r) as (r' & Hr' & Hafter); [by eapply lookup_weaken|].
  assert (Hk' : k_key_id r' = key_id) by (destruct Hafter as [->|[_ ?]]; congruence).
  assert (Hdes : destroyed_in later p digest = negb (bool_decide (k_destroyed_at r' = None))) by (unfold destroyed_in; by rewrite Hr').
  exists ((wrap_dict digest key_id (random_bytes d st1.2 NONCE_LEN) ct, digest, key_id, row_of digest r') :: bound).
  exists (if bool_decide (k_destroyed_at r' = None) then share :: opened else opened). rewrite fmap_cons. cbn [rmap]. rewrite (wrap_binds later p digest key_id _ ct r') by done. cbn [rbind]. rewrite Hbind. cbn [rbind].
  split; [done|]. cbn [open_shares existsb kr_destroyed_at row_of]. rewrite Hdes, Hopen. case_bool_decide as Hd; cbn [negb orb rbind].
  - assert (r' = r) as -> by (destruct Hafter as [?|[[? ?] _]]; [done|congruence]). rewrite Hun. cbn [rbind].
    change (get (wrap_dict digest key_id (random_bytes d st1.2 NONCE_LEN) ct) "nonce") with (Some (JStr (b64e (random_bytes d st1.2 NONCE_LEN)))).
    change (get (wrap_dict digest key_id (random_bytes d st1.2 NONCE_LEN) ct) "share") with (Some (JStr (b64e ct))).
    rewrite !b64_roundtrip by (apply random_bytes_bytes || by eapply aesgcm_bytes). cbn [lift rbind]. apply lift_Ok in Ha. rewrite Ha. cbn [lift rbind].
    rewrite (aesgcm_inverse _ _ _ _ _ Hct). cbn [on_invalid_tag rbind]. split; [done|]. intros Hf. by rewrite Hall.
  - by split.
Qed.

Lemma subject_digest_bytes p tag dg : subject_digest p tag = Ok dg → is_bytes dg ∧ length dg = 32%nat.
Proof. unfold subject_digest. intros (e & _ & <-%(inj Ok))%rbind_Ok. split; [apply sha256_bytes|apply sha256_length]. Qed.

Lemma digest_pairs_bytes p tags pairs : subject_digest_pairs p tags = Ok pairs → Forall is_bytes pairs.*1.
Proof.
  unfold subject_digest_pairs. destruct (_ <=? _)%nat; [|done]. case_bool_decide; [|done]. intros (ps & Hp & Heq)%rbind_Ok. case_bool_decide; [|done].
  injection Heq as <-. rewrite Forall_fmap, py_sorted_Permutation. apply rmap_Ok in Hp. induction Hp as [|tag pr tags ps Hpr _ IH]; constructor.
  - apply rbind_Ok in Hpr as (t & _ & (dg & Hd & <-%(inj Ok))%rbind_Ok). cbn. by apply subject_digest_bytes in Hd as [? _].
  - apply IH; [by eapply NoDup_cons_1_2|]. rewrite fmap_cons in *. by eapply NoDup_cons_1_2.
Qed.

Lemma wrap_digests_bytes p declared wrapping : wrap_digests p declared = Ok wrapping → Forall is_bytes declared →
  Forall is_bytes wrapping ∧ wrapping ≠ [].
Proof.
  unfold wrap_digests. destruct declared; [|by intros [= <-]]. intros (dg & Hd & [= <-])%rbind_Ok _.
  apply subject_digest_bytes in Hd as [? _]. split; [by constructor|done].
Qed.

(** What a section opens to: its lines, or a tombstone once a key it was wrapped under is destroyed. *)
Definition opened_as (later : key_table) (p : ProjectId) (s : PlainSection) (o : OpenedSection) : Prop :=
  ∃ pairs wrapping, subject_digest_pairs p (ps_subject_tags s) = Ok pairs ∧ wrap_digests p pairs.*1 = Ok wrapping
    ∧ o = if existsb (destroyed_in later p) wrapping
          then Tombstoned (mkTombstone (ps_seq_from s) (ps_seq_to s) [] pairs.*1 V2_ENVELOPE_VERSION)
          else Plain (mkSection (ps_seq_from s) (ps_seq_to s) [] (ps_lines s) pairs.*1 V2_ENVELOPE_VERSION).

Lemma encrypt_section_sub d st p r i prev s e st' : encrypt_section master d st p r i prev s = Ok (e, st') → st.1 ⊆ st'.1.
Proof.
  unfold encrypt_section. destruct (_ && _); [|done]. destruct prev as [q|]; [destruct (_ <? _); [|done]|];
  intros (pairs & _ & (wr & _ & (pt & _ & (aad & _ & (ct & _ & ([ws st1] & Hw & [= _ <-])%rbind_Ok)%rbind_Ok)%rbind_Ok)%rbind_Ok)%rbind_Ok)%rbind_Ok;
  by apply encrypt_wraps_sub in Hw.
Qed.

Lemma section_aad_range p r i a b dgs aad : build_v2_section_aad p r i a b dgs = Ok aad → 0 <= i < MAX_SEQ.
Proof.
  unfold build_v2_section_aad, validate_v2_uint. intros (x & Hx & _)%rbind_Ok. destruct (_ && _) eqn:Hb; [|done].
  apply andb_prop in Hb as [H1%Z.leb_le H2%Z.ltb_lt]. change (Z.shiftl 1 32) with 4294967296 in H2. unfold MAX_SEQ.
  change (Z.shiftl 1 40) with 1099511627776. lia.
Qed.

Lemma as_int_ok n : 0 <= n < MAX_SEQ → as_int (Some (JInt n)) = Ok n.
Proof. intros Hn. cbn [as_int]. by rewrite (proj2 (Z.leb_le _ _)), (proj2 (Z.ltb_lt _ _)) by lia. Qed.

Lemma rmap_b64 dgs : Forall is_bytes dgs → rmap (λ x, b64d_canonical (Some x)) ((λ x, JStr (b64e x)) <$> dgs) = Ok dgs.
Proof. intros Hb. apply rmap_Ok, Forall2_fmap_l, Forall_Forall2_diag. eapply Forall_impl; [done|]. apply b64_roundtrip. Qed.

(** Reading a written section: its fields come back, what remains is its wraps and its ciphertext. *)
Lemma decrypt_section_dict later p r ct nonce i a b digests ws aad : 0 <= a < MAX_SEQ → 0 <= b < MAX_SEQ → Forall is_bytes digests →
  build_v2_section_aad p r i a b digests = Ok aad →
  decrypt_section_v2 master later p r (section_dict ct nonce i a b digests ws)
  = (let! bound := rmap (bind_wrap later p) (JObj <$> ws) in
     let! (destroyed, shares) := open_shares master p aad 0 bound in
     if destroyed : bool then Ok (Tombstoned (mkTombstone a b [] digests V2_ENVELOPE_VERSION))
     else
       let! dek := lift (combine_shares shares) in
       let! nonce := lift (b64d_canonical (Some (JStr (b64e nonce)))) in
       let! ct := lift (b64d_canonical (Some (JStr (b64e ct)))) in
       let! plaintext := on_invalid_tag (CExn ValueError) (aesgcm_decrypt dek nonce ct aad) in
       let! lines := lift (v2_decrypt_plaintext plaintext a b) in
       Ok (Plain (mkSection a b [] lines digests V2_ENVELOPE_VERSION))).
Proof.
  intros Ha Hb Hd Haad. unfold decrypt_section_v2. set (sd := section_dict _ _ _ _ _ _ _).
  change (get sd "seq_from") with (Some (JInt a)). change (get sd "seq_to") with (Some (JInt b)).
  change (get sd "section_index") with (Some (JInt i)). change (get sd "subject_digests") with (Some (JArr ((λ x, JStr (b64e x)) <$> digests))).
  change (get sd "wraps") with (Some (JArr (JObj <$> ws))). change (get sd "ct") with (Some (JStr (b64e ct))).
  change (get sd "nonce") with (Some (JStr (b64e nonce))).
  rewrite !as_int_ok by (done || by eapply section_aad_range). cbn [lift rbind as_list]. rewrite rmap_b64 by done. cbn [lift rbind].
  rewrite Haad. cbn [lift rbind]. done.
Qed.

Lemma encrypt_section_opens d st p r i prev s e st' later : (∀ n, dr_race d n = None) →
  encrypt_section master d st p r i prev s = Ok (e, st') → keys_after st'.1 later →
  ∃ o, decrypt_section_v2 master later p r e = Ok o ∧ opened_as later p s o.
Proof.
  intros Hu. unfold encrypt_section. destruct (_ && _) eqn:Hrange; [|done].
  apply andb_prop in Hrange as [[H1%Z.leb_le H2%Z.leb_le]%andb_prop H3%Z.ltb_lt].
  destruct (match prev with Some q => q <? ps_seq_from s | None => true end); [|done].
  intros (pairs & Hp%lift_Ok & (wr & Hwr%lift_Ok & (pt & Hpt%lift_Ok & (aad & Haad%lift_Ok & (ct & Hct & ([ws st1] & Hw & [= <- <-])%rbind_Ok)%rbind_Ok)%rbind_Ok)%rbind_Ok)%rbind_Ok)%rbind_Ok Hlater.
  pose proof (digest_pairs_bytes _ _ _ Hp) as Hdb. destruct (wrap_digests_bytes _ _ _ Hwr Hdb) as [Hwb Hwne].
  destruct (plaintext_roundtrip _ _ Hpt) as [Hptb Hback]. set (dek := random_bytes d st.2 KEY_LEN) in *.
  set (extra := (λ k, random_bytes d (st.2 + 2 + k) KEY_LEN) <$> seq 0 (length wr - 1)) in *.
  destruct (encrypt_wraps_open d p aad later Hu _ _ _ _ _ _ Hw) as (bound & opened & Hbind & Hopen & Hall); [|done| |done|].
  { unfold split_dek, extra. rewrite length_app, length_fmap, length_seq. destruct wr; [done|]. cbn. lia. }
  { apply split_dek_bytes; [apply random_bytes_bytes|]. apply Forall_fmap, Forall_true. intros k. apply random_bytes_bytes. }
  eexists. split; [|by exists pairs, wr]. rewrite (decrypt_section_dict _ _ _ _ _ _ _ _ _ _ aad) by (done || lia).
  rewrite Hbind. cbn [rbind]. rewrite Hopen. cbn [rbind]. destruct (existsb _ wr); [done|].
  rewrite Hall by done. rewrite combine_split.
  2:{ apply Forall_fmap, Forall_true. intros k. unfold compose. by rewrite !random_bytes_length. }
  cbn [lift rbind]. rewrite !b64_roundtrip by (apply random_bytes_bytes || by eapply aesgcm_bytes). cbn [lift rbind].
  rewrite (aesgcm_inverse _ _ _ _ _ Hct). cbn [on_invalid_tag rbind]. rewrite Hback. done.
Qed.

Lemma encrypt_sections_sub d p r secs : ∀ st i prev range es range' st',
  encrypt_sections master d st p r i prev range secs = Ok (es, range', st') → st.1 ⊆ st'.1.
Proof.
  induction secs as [|s secs IH]; intros st i prev range es range' st'; cbn [encrypt_sections]; [by intros [= _ _ <-]|].
  intros ([e st1] & He & ([[es1 rg] st2] & Hes & [= _ _ <-])%rbind_Ok)%rbind_Ok.
  etrans; [by eapply encrypt_section_sub|by eapply IH].
Qed.

Lemma encrypt_sections_open d p r later secs : (∀ n, dr_race d n = None) → ∀ st i prev range es range' st',
  encrypt_sections master d st p r i prev range secs = Ok (es, range', st') → keys_after st'.1 later →
  ∃ os, rmap (decrypt_section_v2 master later p r) es = Ok os ∧ Forall2 (opened_as later p) secs os.
Proof.
  intros Hu. induction secs as [|s secs IH]; intros st i prev range es range' st'; cbn [encrypt_sections].
  { intros [= <- _ _] _. by exists []. }
  intros ([e st1] & He & ([[es1 rg] st2] & Hes & [= <- _ <-])%rbind_Ok)%rbind_Ok Hlater.
  destruct (IH _ _ _ _ _ _ _ Hes Hlater) as (os & Hos & Hall).
  destruct (encrypt_section_opens _ _ _ _ _ _ _ _ _ later Hu He) as (o & Ho & Hop).
  { etrans; [|done]. apply subseteq_after. by eapply encrypt_sections_sub. }
  exists (o :: os). cbn [rmap]. rewrite Ho. cbn [rbind]. rewrite Hos. split; [done|by constructor].
Qed.

(** *** The dicts written are canonical *)

Lemma ascii_encodable s : Forall (λ c, 0 <= c <= 126) s → encodable s.
Proof.
  induction 1 as [|c s Hc Hs IH]; [done|]. cbn. split; [lia|]. split; [|done]. destruct s as [|d s]; [done|]. apply Forall_cons in Hs as [? _].
  unfold is_high. rewrite (proj2 (Z.leb_gt _ c)) by lia. done.
Qed.

Lemma b64_encodable bs : is_bytes bs → encodable (b64e bs).
Proof. intros Hb. apply ascii_encodable. eapply Forall_impl; [by apply b64e_ascii|]. intros c Hc. cbn in Hc. lia. Qed.

Lemma uuid_encodable u : encodable (uuid_str u).
Proof.
  apply ascii_encodable. unfold uuid_str. assert (Hp : Forall (λ c, 0 <= c <= 126) (hex_pad 32 (Z.of_N (uuid_int u)))).
  { eapply Forall_impl; [apply hex_pad_printable|]. intros c Hc. cbn in Hc. lia. }
  assert (H45 : Forall (λ c, 0 <= c <= 126) [45]) by (constructor; [lia|done]).
  rewrite !Forall_app. split_and!; first [exact H45 | apply Forall_take | idtac]; by repeat apply Forall_drop.
Qed.

Definition canonical_value (v : json) : Prop := json_wf encodable v ∧ sort_json v = v.

Definition ascii_keys (l : dict) : bool := forallb (λ k, forallb (λ c, (0 <=? c) && (c <=? 126)) k) l.*1.

(** An object whose keys are distinct, ASCII and in order is canonical when its values are. *)
Lemma canonical_obj (l : dict) : bool_decide (NoDup l.*1) = true → ascii_keys l = true → py_sorted (λ a b, str_leb a.1 b.1) l = l →
  Forall canonical_value l.*2 → canonical_dict l.
Proof.
  intros Hnd%bool_decide_eq_true Ha Hs Hv%(Forall_fmap snd canonical_value). split.
  - apply wf_obj. split; [done|]. unfold ascii_keys in Ha. rewrite forallb_forall in Ha. rewrite Forall_forall in *. intros kv Hkv. split; [|by apply Hv].
    apply ascii_encodable, Forall_forall. intros c Hc. specialize (Ha kv.1). rewrite forallb_forall in Ha.
    assert (Hc' : In c kv.1) by by apply list_elem_of_In. apply Ha in Hc'; [|apply in_map; by apply list_elem_of_In].
    apply andb_prop in Hc' as [?%Z.leb_le ?%Z.leb_le]. lia.
  - rewrite sort_obj, Hs. f_equal. rewrite <- (list_fmap_id l) at 2. apply Forall_fmap_ext_1. eapply Forall_impl; [done|].
    intros [k v] [_ Hk]. cbn in *. by rewrite Hk.
Qed.

Lemma canonical_str s : encodable s → canonical_value (JStr s).
Proof. done. Qed.

Lemma canonical_wrap digest key_id nonce ct : is_bytes digest → is_bytes nonce → is_bytes ct → canonical_dict (wrap_dict digest key_id nonce ct).
Proof.
  intros Hd%b64_encodable%canonical_str Hn%b64_encodable%canonical_str Hc%b64_encodable%canonical_str.
  pose proof (canonical_str _ (uuid_encodable key_id)) as Hu. unfold wrap_dict. revert Hd Hn Hc Hu.
  generalize (JStr (b64e digest)) (JStr (b64e nonce)) (JStr (b64e ct)) (JStr (uuid_str key_id)). intros v1 v2 v3 v4 ????.
  apply canonical_obj; [vm_compute; reflexivity|vm_compute; reflexivity|reflexivity|].
  cbn [fmap list_fmap snd]. by repeat (apply Forall_cons; split; [done|]).
Qed.

Lemma canonical_arr (l : list json) : Forall canonical_value l → canonical_value (JArr l).
Proof.
  intros Hl. split; [apply wf_arr; eapply Forall_impl; [done|]; by intros v [? _]|]. cbn [sort_json]. f_equal.
  rewrite <- (list_fmap_id l) at 2. apply Forall_fmap_ext_1. eapply Forall_impl; [done|]. by intros v [_ ?].
Qed.

Lemma canonical_section ct nonce i a b digests wraps : is_bytes ct → is_bytes nonce → Forall is_bytes digests → Forall canonical_dict wraps →
  canonical_dict (section_dict ct nonce i a b digests wraps).
Proof.
  intros Hc%b64_encodable%canonical_str Hn%b64_encodable%canonical_str Hd Hw.
  assert (Ha : canonical_value (JArr ((λ x, JStr (b64e x)) <$> digests))).
  { apply canonical_arr, Forall_fmap. eapply Forall_impl; [done|]. intros dg Hdg. by apply canonical_str, b64_encodable. }
  assert (Hb : canonical_value (JArr (JObj <$> wraps))) by (apply canonical_arr; by rewrite Forall_fmap).
  unfold section_dict. revert Hc Hn Ha Hb.
  generalize (JStr (b64e ct)) (JStr (b64e nonce)) (JArr ((λ x, JStr (b64e x)) <$> digests)) (JArr (JObj <$> wraps)). intros v1 v2 v3 v4 ????.
  apply canonical_obj; [vm_compute; reflexivity|vm_compute; reflexivity|reflexivity|].
  cbn [fmap list_fmap snd]. by repeat (apply Forall_cons; split; [done|]).
Qed.

Lemma canonical_header p r a b n : canonical_dict (header_dict p r a b n).
Proof.
  pose proof (canonical_str _ (uuid_encodable (ProjectId_value p))) as Hp. pose proof (canonical_str _ (uuid_encodable (RunId_value r))) as Hr.
  assert (Ha : ∀ s, forallb (λ c, (0 <=? c) && (c <=? 126)) s = true → canonical_value (JStr s)).
  { intros s Hs. apply canonical_str, ascii_encodable, Forall_forall. intros c Hc. rewrite forallb_forall in Hs.
    apply list_elem_of_In, Hs, andb_prop in Hc as [?%Z.leb_le ?%Z.leb_le]. lia. }
  unfold header_dict. revert Hp Hr. generalize (JStr (uuid_str (ProjectId_value p))) (JStr (uuid_str (RunId_value r))). intros v1 v2 ??.
  apply canonical_obj; [vm_compute; reflexivity|vm_compute; reflexivity|reflexivity|].
  cbn [fmap list_fmap snd]. repeat (constructor; [first [done | apply Ha; vm_compute; reflexivity]|]). done.
Qed.

Lemma encrypt_wraps_canonical d p aad digests : ∀ shares st i wraps st', encrypt_wraps master d st p aad i digests shares = Ok (wraps, st') →
  Forall is_bytes digests → Forall is_bytes shares → Forall canonical_dict wraps.
Proof.
  induction digests as [|digest digests IH]; intros [|share shares] st i wraps st'; cbn [encrypt_wraps]; try (by intros [= <- <-]).
  intros ([[kek key_id] st1] & _ & (aad' & _ & (ct & Hct & ([ws st2] & Hw & [= <- _])%rbind_Ok)%rbind_Ok)%rbind_Ok)%rbind_Ok.
  intros [? ?]%Forall_cons [? ?]%Forall_cons. constructor; [|by eapply IH].
  apply canonical_wrap; [done|apply random_bytes_bytes|by eapply aesgcm_bytes].
Qed.

Lemma encrypt_section_canonical d st p r i prev s e st' : encrypt_section master d st p r i prev s = Ok (e, st') → canonical_dict e.
Proof.
  unfold encrypt_section. destruct (_ && _); [|done]. destruct (match prev with Some q => q <? ps_seq_from s | None => true end); [|done].
  intros (pairs & Hp%lift_Ok & (wr & Hwr%lift_Ok & (pt & Hpt%lift_Ok & (aad & _ & (ct & Hct & ([ws st1] & Hw & [= <- _])%rbind_Ok)%rbind_Ok)%rbind_Ok)%rbind_Ok)%rbind_Ok)%rbind_Ok.
  pose proof (digest_pairs_bytes _ _ _ Hp) as Hdb. destruct (wrap_digests_bytes _ _ _ Hwr Hdb) as [Hwb _].
  destruct (plaintext_roundtrip _ _ Hpt) as [Hptb _].
  apply canonical_section; [by eapply aesgcm_bytes|apply random_bytes_bytes|done|].
  eapply encrypt_wraps_canonical; [done|done|]. apply split_dek_bytes; [apply random_bytes_bytes|].
  apply Forall_fmap, Forall_true. intros k. apply random_bytes_bytes.
Qed.

Lemma encrypt_sections_canonical d p r secs : ∀ st i prev range es range' st',
  encrypt_sections master d st p r i prev range secs = Ok (es, range', st') → Forall canonical_dict es.
Proof.
  induction secs as [|s secs IH]; intros st i prev range es range' st'; cbn [encrypt_sections]; [by intros [= <- _ _]|].
  intros ([e st1] & He & ([[es1 rg] st2] & Hes & [= <- _ _])%rbind_Ok)%rbind_Ok.
  constructor; [by eapply encrypt_section_canonical|by eapply IH].
Qed.

(** What an encryption produced. *)
Lemma encrypt_v2_inv d p r secs ks c ks' : shred_encrypt_v2 master d p r secs ks = Ok (c, ks') →
  ∃ es a b st, encrypt_sections master d (ks, 0%nat) p r 0 None None secs = Ok (es, Some (a, b), st) ∧ ks' = st.1
    ∧ c = mkPayload (header_dict p r a b (Z.of_nat (length es))) es.
Proof.
  unfold shred_encrypt_v2. destruct (_ && _); [|done]. intros ([[es range] st] & He & Hc)%rbind_Ok. destruct range as [[a b]|]; [|done].
  apply (inj Ok) in Hc. simplify_eq. by exists es, a, b, st.
Qed.

Lemma seal_sub d p r secs ks raw ks' : seal master d p r secs ks = Ok (raw, ks') → ks ⊆ ks'.
Proof.
  unfold seal. intros ([c ks1] & Hc & (raw1 & _ & [= _ <-])%rbind_Ok)%rbind_Ok. apply encrypt_v2_inv in Hc as (es & a & b & st & He & -> & _).
  by apply encrypt_sections_sub in He.
Qed.

(** Opening a sealed object is opening its sections. *)
Lemma open_sealed d p r secs ks raw ks' later : seal master d p r secs ks = Ok (raw, ks') →
  ∃ es range st, encrypt_sections master d (ks, 0%nat) p r 0 None None secs = Ok (es, range, st) ∧ ks' = st.1
    ∧ open master later p raw = rmap (decrypt_section_v2 master later p r) es.
Proof.
  unfold seal. intros ([c ks1] & Hc & (raw1 & Hs%lift_Ok & [= <- <-])%rbind_Ok)%rbind_Ok.
  apply encrypt_v2_inv in Hc as (es & a & b & st & He & -> & ->). exists es, (Some (a, b)), st. split_and!; [done..|].
  unfold open. erewrite from_bytes_serialize; [|..|exact Hs].
  2:{ apply canonical_header. }
  2:{ by eapply encrypt_sections_canonical. }
  cbn [lift rbind]. unfold decrypt_v2. cbn [pl_header pl_sections]. set (h := header_dict _ _ _ _ _).
  change (get h "project_id") with (Some (JStr (uuid_str (ProjectId_value p)))). change (get h "run_id") with (Some (JStr (uuid_str (RunId_value r)))).
  cbn [as_str lift rbind]. rewrite bool_decide_eq_true_2 by done. rewrite uuid_new_str. cbn [lift rbind]. by destruct r.
Qed.

Lemma seal_opens d p r secs ks raw ks' later : seal master d p r secs ks = Ok (raw, ks') → (∀ n, dr_race d n = None) → keys_after ks' later →
  ∃ os, open master later p raw = Ok os ∧ Forall2 (opened_as later p) secs os.
Proof.
  intros Hseal Hu Hlater. destruct (open_sealed _ _ _ _ _ _ _ later Hseal) as (es & range & st & He & -> & ->).
  by eapply encrypt_sections_open.
Qed.

(** *** The keys a section is wrapped under *)

Definition live_in (ks : key_table) (p : ProjectId) (digest : list Z) : Prop := ∃ r, ks !! (p, digest) = Some r ∧ k_destroyed_at r = None.

Lemma live_sub ks ks' p digest : live_in ks p digest → ks ⊆ ks' → live_in ks' p digest.
Proof. intros (r & Hr & Hl) Hs. exists r. split; [by eapply lookup_weaken|done]. Qed.

(** No key is created in place of a destroyed one. *)
Lemma get_or_create_undestroyed d st p digest x : get_or_create_v2_kek master d st p digest = Ok x → destroyed_in st.1 p digest = false.
Proof.
  unfold get_or_create_v2_kek, destroyed_in. destruct (_ =? _)%nat; [|done]. rewrite get_key_row. destruct (st.1 !! (p, digest)) as [r|]; [|done].
  cbn [fmap option_fmap option_map]. destruct (digest_agrees _ _); [|done]. cbn [row_of kr_destroyed_at kr_wrap_version].
  destruct (_ =? 1); [by case_bool_decide|]. destruct (_ && _); [|done]. by case_bool_decide.
Qed.

Lemma destroyed_sub ks ks' p digest : destroyed_in ks p digest = true → ks ⊆ ks' → destroyed_in ks' p digest = true.
Proof. unfold destroyed_in. intros Hd Hs. destruct (ks !! (p, digest)) as [r|] eqn:Hr; [|done]. by rewrite (lookup_weaken _ _ _ _ Hr Hs). Qed.

Lemma undestroyed_sub ks ks' p digest : ks ⊆ ks' → destroyed_in ks' p digest = false → destroyed_in ks p digest = false.
Proof. intros Hs Hd. apply not_true_iff_false. intros Ht. by rewrite (destroyed_sub ks ks') in Hd. Qed.

Lemma encrypt_wraps_keys d p aad digests : ∀ shares st i wraps st', encrypt_wraps master d st p aad i digests shares = Ok (wraps, st') →
  length digests = length shares →
  Forall (λ dg, destroyed_in st.1 p dg = false ∧ ((∀ n, dr_race d n = None) → live_in st'.1 p dg)) digests.
Proof.
  induction digests as [|digest digests IH]; intros [|share shares] st i wraps st'; cbn [encrypt_wraps]; try done.
  intros ([[kek key_id] st1] & Hg & (aad' & _ & (ct & _ & ([ws st2] & Hw & [= _ <-])%rbind_Ok)%rbind_Ok)%rbind_Ok)%rbind_Ok [= Hlen].
  pose proof (encrypt_wraps_sub _ _ _ _ _ _ _ _ _ Hw) as Hsub. cbn [fst] in Hsub. destruct (get_or_create_spec _ _ _ _ _ _ _ Hg) as [Hs1 Hrow].
  constructor.
  - split; [by eapply get_or_create_undestroyed|]. intros Hu. destruct (Hrow Hu) as (r & Hr & _ & Hl & _). by apply (live_sub st1.1); [exists r|].
  - eapply Forall_impl; [by eapply IH|]. intros dg [Hd Hl]. split; [|done]. by apply (undestroyed_sub st.1 st1.1).
Qed.

Definition wrapped_under (p : ProjectId) (s : PlainSection) (wrapping : list (list Z)) : Prop :=
  ∃ pairs, subject_digest_pairs p (ps_subject_tags s) = Ok pairs ∧ wrap_digests p pairs.*1 = Ok wrapping.

Lemma encrypt_section_keys d st p r i prev s e st' : encrypt_section master d st p r i prev s = Ok (e, st') →
  ∃ wrapping, wrapped_under p s wrapping
    ∧ Forall (λ dg, destroyed_in st.1 p dg = false ∧ ((∀ n, dr_race d n = None) → live_in st'.1 p dg)) wrapping.
Proof.
  unfold encrypt_section. destruct (_ && _); [|done]. destruct (match prev with Some q => q <? ps_seq_from s | None => true end); [|done].
  intros (pairs & Hp%lift_Ok & (wr & Hwr%lift_Ok & (pt & Hpt%lift_Ok & (aad & _ & (ct & Hct & ([ws st1] & Hw & [= _ <-])%rbind_Ok)%rbind_Ok)%rbind_Ok)%rbind_Ok)%rbind_Ok)%rbind_Ok.
  exists wr. split; [by exists pairs|]. eapply (encrypt_wraps_keys _ _ _ _ _ (st.1, _)); [done|].
  destruct (wrap_digests_bytes _ _ _ Hwr (digest_pairs_bytes _ _ _ Hp)) as [_ Hne].
  unfold split_dek. rewrite length_app, length_fmap, length_seq. destruct wr; [done|]. cbn. lia.
Qed.

Lemma encrypt_sections_keys d p r secs : ∀ st i prev range es range' st',
  encrypt_sections master d st p r i prev range secs = Ok (es, range', st') →
  Forall (λ s, ∃ wrapping, wrapped_under p s wrapping
    ∧ Forall (λ dg, destroyed_in st.1 p dg = false ∧ ((∀ n, dr_race d n = None) → live_in st'.1 p dg)) wrapping) secs.
Proof.
  induction secs as [|s secs IH]; intros st i prev range es range' st'; cbn [encrypt_sections]; [constructor|].
  intros ([e st1] & He & ([[es1 rg] st2] & Hes & [= _ _ <-])%rbind_Ok)%rbind_Ok. pose proof (encrypt_section_sub _ _ _ _ _ _ _ _ _ He) as Hs1.
  pose proof (encrypt_sections_sub _ _ _ _ _ _ _ _ _ _ _ Hes) as Hs2. constructor.
  - destruct (encrypt_section_keys _ _ _ _ _ _ _ _ _ He) as (wr & Hwr & Hall). exists wr. split; [done|]. eapply Forall_impl; [done|].
    intros dg [Hd Hl]. split; [done|]. intros Hu. by eapply live_sub; [apply Hl|].
  - eapply Forall_impl; [by eapply IH|]. intros x (wr & Hwr & Hall). exists wr. split; [done|]. eapply Forall_impl; [done|].
    intros dg [Hd Hl]. split; [|done]. by apply (undestroyed_sub st.1 st1.1).
Qed.

Lemma seal_keys d p r secs ks raw ks' : seal master d p r secs ks = Ok (raw, ks') →
  Forall (λ s, ∃ wrapping, wrapped_under p s wrapping
    ∧ Forall (λ dg, destroyed_in ks p dg = false ∧ ((∀ n, dr_race d n = None) → live_in ks' p dg)) wrapping) secs.
Proof.
  unfold seal. intros ([c ks1] & Hc & (raw1 & _ & [= _ <-])%rbind_Ok)%rbind_Ok. apply encrypt_v2_inv in Hc as (es & a & b & st & He & -> & _).
  by apply encrypt_sections_keys in He.
Qed.
End Opens.
