(* ===== verification/ShredGuarantees.v ===== *)
(** * What crypto-shredding guarantees

    The key manager implements the interface the trace writer is proved against; destroying
    the keys of a subject turns exactly the sections wrapped under them into tombstones; a
    tombstone is always evidence of a destroyed key; a destroyed subject is never encrypted
    for again; and the object of a transaction that lost the race to create a subject's key
    cannot be read. *)

From S2P Require Import Prelude Domain PyText Json JsonLoads Memory Envelope Sections Shred.
Open Scope Z_scope.

Section Guarantees.
Context `{Sha256, AesGcm} (master : list Z).

Lemma wrapped_under_fun p s w1 w2 : wrapped_under p s w1 → wrapped_under p s w2 → w1 = w2.
Proof. intros (p1 & Hp1 & Hw1) (p2 & Hp2 & Hw2). rewrite Hp1 in Hp2. injection Hp2 as <-. rewrite Hw1 in Hw2. by injection Hw2. Qed.

(** What a section opens to when it is, or is not, shredded. *)
Definition opened_if (shredded : list (list Z) → bool) (p : ProjectId) (s : PlainSection) (o : OpenedSection) : Prop :=
  ∃ pairs wrapping, subject_digest_pairs p (ps_subject_tags s) = Ok pairs ∧ wrap_digests p pairs.*1 = Ok wrapping
    ∧ o = if shredded wrapping
          then Tombstoned (mkTombstone (ps_seq_from s) (ps_seq_to s) [] pairs.*1 V2_ENVELOPE_VERSION)
          else Plain (mkSection (ps_seq_from s) (ps_seq_to s) [] (ps_lines s) pairs.*1 V2_ENVELOPE_VERSION).

Lemma opened_as_if later p s o (f : list Z → bool) : opened_as later p s o →
  (∃ wrapping, wrapped_under p s wrapping ∧ Forall (λ dg, destroyed_in later p dg = f dg) wrapping) → opened_if (existsb f) p s o.
Proof.
  intros (pairs & wr & Hp & Hw & ->) (wr' & Hwu & Hall). exists pairs, wr. split; [done|]. split; [done|].
  assert (wr' = wr) as -> by (eapply wrapped_under_fun; [done|by exists pairs]).
  assert (existsb (destroyed_in later p) wr = existsb f wr) as ->; [|done].
  clear -Hall. induction Hall as [|dg wr Hd _ IH]; [done|]. cbn. by rewrite Hd, IH.
Qed.

Lemma destroyed_after_destroy ks p scope now dg : live_in ks p dg → destroyed_in (destroy_keys ks p scope now) p dg = in_scope p scope (p, dg).
Proof.
  intros (r & Hr & Hl). unfold destroyed_in. rewrite lookup_destroy, Hr. cbn [fmap option_fmap option_map].
  destruct (in_scope p scope (p, dg)); [|by rewrite Hl]. unfold destroy_row. by rewrite Hl.
Qed.

(** The object of an undisturbed encryption, read with keys that were live and may since be destroyed. *)
Lemma seal_opens_live d p r secs ks raw ks1 ks2 later : seal master d p r secs ks = Ok (raw, ks1) → (∀ n, dr_race d n = None) →
  ks1 ⊆ ks2 → keys_after ks2 later →
  ∃ os, open master later p raw = Ok os
    ∧ Forall2 (λ s o, opened_as later p s o ∧ ∃ wr, wrapped_under p s wr ∧ Forall (live_in ks2 p) wr) secs os.
Proof.
  intros Hseal Hu Hsub Hlater. destruct (seal_opens master d p r secs ks raw ks1 later Hseal Hu) as (os & Ho & Hall).
  { etrans; [by apply subseteq_after|done]. }
  exists os. split; [done|]. pose proof (seal_keys _ _ _ _ _ _ _ _ Hseal) as Hkeys. clear -Hall Hkeys Hsub Hu.
  induction Hall as [|s o secs os Hso _ IH]; constructor; apply Forall_cons in Hkeys as [(wr & Hwr & Hlive) Hkeys]; [|by apply IH].
  split; [done|]. exists wr. split; [done|]. eapply Forall_impl; [done|]. intros dg [_ Hl]. by eapply live_sub; [apply Hl|].
Qed.

Lemma seal_opens_if d p r secs ks raw ks1 ks2 later f : seal master d p r secs ks = Ok (raw, ks1) → (∀ n, dr_race d n = None) →
  ks1 ⊆ ks2 → keys_after ks2 later → (∀ dg, live_in ks2 p dg → destroyed_in later p dg = f dg) →
  ∃ os, open master later p raw = Ok os ∧ Forall2 (opened_if (existsb f) p) secs os.
Proof.
  intros Hseal Hu Hsub Hlater Hf. destruct (seal_opens_live _ _ _ _ _ _ _ _ _ Hseal Hu Hsub Hlater) as (os & Ho & Hall).
  exists os. split; [done|]. eapply Forall2_impl; [done|]. intros s o (Hso & wr & Hwr & Hlive). apply (opened_as_if _ _ _ _ _ Hso).
  exists wr. split; [done|]. eapply Forall_impl; [done|]. intros dg Hd. by apply Hf.
Qed.

Lemma live_undestroyed ks p dg : live_in ks p dg → destroyed_in ks p dg = false.
Proof. intros (r & Hr & Hl). unfold destroyed_in. by rewrite Hr, Hl. Qed.

Lemma seal_opens_plain d p r secs ks raw ks1 later : seal master d p r secs ks = Ok (raw, ks1) → (∀ n, dr_race d n = None) → ks1 ⊆ later →
  ∃ os, open master later p raw = Ok os ∧ Forall2 (opened_if (existsb (λ _, false)) p) secs os.
Proof. intros Hseal Hu Hsub. eapply seal_opens_if; [done|done|done|done|]. intros dg. apply live_undestroyed. Qed.

Lemma opened_plain p secs os : Forall2 (opened_if (existsb (λ _, false)) p) secs os → same_sections os secs.
Proof.
  induction 1 as [|s o secs os (pairs & wr & Hp & Hw & ->) _ (secs' & -> & Hb)]; [by exists []|].
  assert (existsb (λ _ : list Z, false) wr = false) as -> by (clear; by induction wr).
  exists (mkSection (ps_seq_from s) (ps_seq_to s) [] (ps_lines s) pairs.*1 V2_ENVELOPE_VERSION :: secs'). split; [done|].
  rewrite !fmap_cons, Hb. done.
Qed.

(** The key manager is an implementation of what the trace writer and its archive rely on. *)
Definition as_exn {A} (r : result cerr A) : result exn A := match r with Ok a => Ok a | Err e => Err (exn_of e) end.

Lemma as_exn_Ok {A} (r : result cerr A) a : as_exn r = Ok a ↔ r = Ok a.
Proof. destruct r; cbn; split; congruence. Qed.

#[export, program] Instance shredding : SubjectKeys (list Z) key_table Draws := {|
  encrypt_v2 d p r secs ks := as_exn (seal master d p r secs ks);
  decrypt ks p raw := as_exn (open master ks p raw);
  keys_later ks later := ks ⊆ later;
  unraced d := ∀ n, dr_race d n = None;
|}.
Next Obligation. intros d p r secs ks c ks' He%as_exn_Ok. by apply seal_sub in He. Qed.
Next Obligation.
  intros d p r secs ks c ks' later He%as_exn_Ok Hu Hl. destruct (seal_opens_plain _ _ _ _ _ _ _ _ He Hu Hl) as (os & Ho & Hall).
  exists os. split; [by apply as_exn_Ok|by eapply opened_plain].
Qed.

(** [C33] Once the keys of a subject, or of a whole project, are destroyed, an object written before, by an
    encryption that lost no race to create a key (see [raced_key_lost] for one that did), reads back with exactly the sections wrapped under a destroyed key as tombstones, each with its range and
    digests, and every other section with the lines it was given; the stored bytes do not change. *)
Theorem erasure_shreds d p r secs ks raw ks1 ks2 scope now : seal master d p r secs ks = Ok (raw, ks1) →
  (∀ n, dr_race d n = None) → ks1 ⊆ ks2 →
  ∃ os, open master (destroy_keys ks2 p scope now) p raw = Ok os
    ∧ Forall2 (opened_if (existsb (λ dg, in_scope p scope (p, dg))) p) secs os.
Proof.
  intros Hseal Hu Hsub. eapply seal_opens_if; [done|done|done|apply destroy_after|]. intros dg. apply destroyed_after_destroy.
Qed.

(** A sealed object opens, as long as none of its keys is destroyed, to the sections it was given, each
    with its range, its lines and its digests; whatever other keys the table gains meanwhile. *)
Lemma sealed_opens d p r secs ks raw ks1 later : seal master d p r secs ks = Ok (raw, ks1) → (∀ n, dr_race d n = None) →
  ks1 ⊆ later → ∃ secs', open master later p raw = Ok (Plain <$> secs') ∧ section_body <$> secs' = section_body <$> secs
    ∧ Forall2 (λ s s', ∃ pairs, subject_digest_pairs p (ps_subject_tags s) = Ok pairs ∧ ps_subject_digests s' = pairs.*1) secs secs'.
Proof.
  intros Hseal Hu Hsub. destruct (seal_opens_plain _ _ _ _ _ _ _ _ Hseal Hu Hsub) as (os & Ho & Hall).
  destruct (opened_plain _ _ _ Hall) as (secs' & -> & Hb). exists secs'. split_and!; [done..|]. rewrite Forall2_fmap_r in Hall.
  eapply Forall2_impl; [done|]. intros s s' (pairs & wr & Hp & _ & Heq). exists pairs. split; [done|]. by destruct (existsb _ wr); simplify_eq.
Qed.

(** Nothing is encrypted under a destroyed key again: where an encryption succeeds, no key its sections
    are wrapped under had been destroyed. *)
Lemma no_resurrection d p r secs ks raw ks1 : seal master d p r secs ks = Ok (raw, ks1) →
  Forall (λ s, ∃ wrapping, wrapped_under p s wrapping ∧ Forall (λ dg, destroyed_in ks p dg = false) wrapping) secs.
Proof.
  intros Hs%seal_keys. eapply Forall_impl; [done|]. intros s (wr & Hw & Hall). exists wr. split; [done|].
  eapply Forall_impl; [done|]. by intros dg [? _].
Qed.

(** *** Tombstones of untrusted objects *)

Lemma open_shares_destroyed p aad bound : ∀ i shares, open_shares master p aad i bound = Ok (true, shares) →
  Exists (λ b, is_Some (kr_destroyed_at b.2)) bound.
Proof.
  induction bound as [|[[[w dg] kid] row] bound IH]; intros i shares; cbn [open_shares]; [done|]. case_bool_decide as Hd.
  - intros (kek & _ & (n & _ & (sh & _ & (a & _ & (o & _ & ([des shs] & Ho & Heq)%rbind_Ok)%rbind_Ok)%rbind_Ok)%rbind_Ok)%rbind_Ok)%rbind_Ok.
    apply (inj Ok) in Heq. simplify_eq. right. by eapply IH.
  - intros _. left. cbn. by destruct (kr_destroyed_at row); [eexists|].
Qed.

Lemma bind_wrap_inv ks p j w dg kid row : bind_wrap ks p j = Ok (w, dg, kid, row) →
  j = JObj w ∧ b64d_canonical (get w "digest") = Ok dg
  ∧ (∃ text, get w "key_id" = Some (JStr text) ∧ uuid_new text = Ok kid)
  ∧ ∃ r, ks !! (p, dg) = Some r ∧ row = row_of dg r ∧ k_key_id r = kid.
Proof.
  unfold bind_wrap. intros (w' & Hw%lift_Ok & (dg' & Hd%lift_Ok & (text & Ht%lift_Ok & (kid' & Hk%lift_Ok & Hrow)%rbind_Ok)%rbind_Ok)%rbind_Ok)%rbind_Ok.
  rewrite get_key_row in Hrow. destruct (ks !! (p, dg')) as [r|] eqn:Hr; [|done]. cbn [fmap option_fmap option_map] in Hrow.
  cbn [row_of kr_key_id] in Hrow. case_bool_decide as Hkid; [|done]. destruct (digest_agrees _ _); [|done].
  apply rbind_Ok in Hrow as ([] & _ & Heq). apply (inj Ok) in Heq. simplify_eq. destruct j; try done. injection Hw as ->.
  split_and!; [done|done| |by exists r]. exists text. split; [|done]. unfold as_str in Ht. destruct (get w "key_id") as [[]|]; try done. by injection Ht as ->.
Qed.

(** What a tombstone of an object shows: a wrap of its section names, by digest and identity, a destroyed row. *)
Definition names_destroyed_key (ks : key_table) (p : ProjectId) (s : dict) : Prop :=
  ∃ wraps w dg text row, get s "wraps" = Some (JArr wraps) ∧ JObj w ∈ wraps ∧ b64d_canonical (get w "digest") = Ok dg
    ∧ get w "key_id" = Some (JStr text) ∧ uuid_new text = Ok (k_key_id row)
    ∧ ks !! (p, dg) = Some row ∧ is_Some (k_destroyed_at row).

Lemma tombstone_section ks p r s t : decrypt_section_v2 master ks p r s = Ok (Tombstoned t) → names_destroyed_key ks p s.
Proof.
  unfold decrypt_section_v2.
  intros (a & _ & (b & _ & (i & _ & (enc & _ & (dgs & _ & (aad & _ & (ws & Hws%lift_Ok & (bound & Hb & ([des shs] & Ho & Hres)%rbind_Ok)%rbind_Ok)%rbind_Ok)%rbind_Ok)%rbind_Ok)%rbind_Ok)%rbind_Ok)%rbind_Ok)%rbind_Ok.
  destruct des.
  2:{ exfalso. apply rbind_Ok in Hres as (? & _ & Hres). repeat (apply rbind_Ok in Hres as (? & _ & Hres)). done. }
  apply open_shares_destroyed, Exists_exists in Ho as ([[[w dg] kid] row] & Hin & Hd). cbn in Hd.
  apply list_elem_of_lookup_1 in Hin as [k Hk]. apply rmap_Ok in Hb. destruct (Forall2_lookup_r _ _ _ _ _ Hb Hk) as (j & Hj & Hbind).
  apply bind_wrap_inv in Hbind as (-> & Hdg & (text & Ht & Hu) & r0 & Hr & -> & <-).
  exists ws, w, dg, text, r0. split_and!; try done; [|by eapply list_elem_of_lookup_2].
  unfold as_list in Hws. destruct (get s "wraps") as [[]|]; try done. by injection Hws as ->.
Qed.

(** [C34] A tombstone is never produced by a parse failure or a missing key: of whatever bytes are read, a section
    that opens as a tombstone has a wrap that names, by digest and by key identity, a row the table
    retains as destroyed. *)
Theorem tombstone_evidence ks p raw os i t : open master ks p raw = Ok os → os !! i = Some (Tombstoned t) →
  ∃ c s, from_bytes_v2 raw = Ok c ∧ pl_sections c !! i = Some s ∧ names_destroyed_key ks p s.
Proof.
  unfold open. intros (c & Hc%lift_Ok & Hos)%rbind_Ok Hi. exists c. unfold decrypt_v2 in Hos. apply rbind_Ok in Hos as (pr & _ & Hos).
  case_bool_decide; [|done]. apply rbind_Ok in Hos as (text & _ & (run & _ & Hos)%rbind_Ok). apply rmap_Ok in Hos.
  destruct (Forall2_lookup_r _ _ _ _ _ Hos Hi) as (s & Hs & Hd). exists s. split_and!; [done..|]. by eapply tombstone_section.
Qed.

(** *** The race to create a subject's key *)

Lemma raced_create d st p digest kek key_id st' : get_or_create_v2_kek master d st p digest = Ok (kek, key_id, st') →
  st.1 !! (p, digest) = None → (∀ n, ∃ other, dr_race d n = Some other ∧ ∀ m, k_key_id other ≠ dr_uuid4 d m) →
  ∃ other, st'.1 !! (p, digest) = Some other ∧ k_key_id other ≠ key_id.
Proof.
  unfold get_or_create_v2_kek. destruct (_ =? _)%nat; [|done]. rewrite get_key_row. intros Hg Hnone Hrace. rewrite Hnone in Hg.
  cbn [fmap option_fmap option_map] in Hg. apply rbind_Ok in Hg as (aad & _ & (ct & _ & (st1 & Hi & Heq)%rbind_Ok)%rbind_Ok).
  apply (inj Ok) in Heq. simplify_eq. unfold insert_subject_key_v2 in Hi. destruct (_ =? 32)%nat; [|done]. destruct (_ =? 60)%nat; [|done].
  destruct (dr_denied _ _); [done|]. cbn [negb snd fst] in Hi. destruct (Hrace (S (S st.2))) as (other & Ho & Hne). rewrite Ho, lookup_insert_eq in Hi.
  apply (inj Ok) in Hi as <-. cbn [fst]. rewrite lookup_insert_eq. by exists other.
Qed.

Lemma raced_bind later p digest key_id nonce ct r : is_bytes digest → later !! (p, digest) = Some r → k_key_id r ≠ key_id →
  bind_wrap later p (JObj (wrap_dict digest key_id nonce ct)) = Err KeyBindingMismatch.
Proof.
  intros Hb Hr Hk. unfold bind_wrap. cbn [as_wrap lift rbind].
  change (get (wrap_dict digest key_id nonce ct) "digest") with (Some (JStr (b64e digest))).
  change (get (wrap_dict digest key_id nonce ct) "key_id") with (Some (JStr (uuid_str key_id))).
  rewrite b64_roundtrip by done. cbn [lift rbind as_str]. rewrite uuid_new_str. cbn [lift rbind]. rewrite get_key_row, Hr.
  cbn [fmap option_fmap option_map]. cbn [row_of kr_key_id]. by rewrite bool_decide_eq_false_2.
Qed.

Lemma raced_wraps d p aad digest digests shares st i wraps st' later : encrypt_wraps master d st p aad i (digest :: digests) shares = Ok (wraps, st') →
  shares ≠ [] → is_bytes digest → st.1 !! (p, digest) = None → (∀ n, ∃ other, dr_race d n = Some other ∧ ∀ m, k_key_id other ≠ dr_uuid4 d m) →
  keys_after st'.1 later → rmap (bind_wrap later p) (JObj <$> wraps) = Err KeyBindingMismatch.
Proof.
  destruct shares as [|share shares]; [done|]. cbn [encrypt_wraps].
  intros ([[kek key_id] st1] & Hg & (aad' & _ & (ct & _ & ([ws st2] & Hw & [= <- <-])%rbind_Ok)%rbind_Ok)%rbind_Ok)%rbind_Ok _ Hb Hnone Hrace Hlater.
  destruct (raced_create _ _ _ _ _ _ _ Hg Hnone Hrace) as (other & Ho & Hne). pose proof (encrypt_wraps_sub _ _ _ _ _ _ _ _ _ _ Hw) as Hsub.
  destruct (Hlater (p, digest) other) as (r' & Hr' & Hafter); [by eapply lookup_weaken|].
  rewrite fmap_cons. cbn [rmap]. by rewrite (raced_bind later p digest key_id _ ct r') by (done || destruct Hafter as [->|[_ ->]]; done).
Qed.

Lemma raced_section d st p r i prev s e st' later dg wr : encrypt_section master d st p r i prev s = Ok (e, st') → wrapped_under p s (dg :: wr) →
  st.1 !! (p, dg) = None → (∀ n, ∃ other, dr_race d n = Some other ∧ ∀ m, k_key_id other ≠ dr_uuid4 d m) → keys_after st'.1 later →
  decrypt_section_v2 master later p r e = Err KeyBindingMismatch.
Proof.
  unfold encrypt_section. destruct (_ && _) eqn:Hrange; [|done].
  apply andb_prop in Hrange as [[H1%Z.leb_le H2%Z.leb_le]%andb_prop H3%Z.ltb_lt].
  destruct (match prev with Some q => q <? ps_seq_from s | None => true end); [|done].
  intros (pairs & Hp%lift_Ok & (wr' & Hwr%lift_Ok & (pt & _ & (aad & Haad%lift_Ok & (ct & _ & ([ws st1] & Hw & [= <- <-])%rbind_Ok)%rbind_Ok)%rbind_Ok)%rbind_Ok)%rbind_Ok)%rbind_Ok Hwu Hnone Hrace Hlater.
  assert (wr' = dg :: wr) as -> by (eapply wrapped_under_fun; [by exists pairs|done]).
  pose proof (digest_pairs_bytes _ _ _ Hp) as Hdb. destruct (wrap_digests_bytes _ _ _ Hwr Hdb) as [[Hb _]%Forall_cons _].
  rewrite (decrypt_section_dict _ _ _ _ _ _ _ _ _ _ _ aad) by (done || lia).
  erewrite raced_wraps; [done|exact Hw| |done|done|done|done]. unfold split_dek. by destruct (_ <$> seq _ _).
Qed.

(** Two transactions that both find no key for a subject and both create one: the database keeps the first,
    the second encrypts under the key it drew all the same.  Its object, stored and acknowledged, is
    refused as corrupt under every later key table. *)
Lemma raced_key_lost d p r s secs ks raw ks1 later dg wr : seal master d p r (s :: secs) ks = Ok (raw, ks1) →
  wrapped_under p s (dg :: wr) → ks !! (p, dg) = None →
  (∀ n, ∃ other, dr_race d n = Some other ∧ ∀ m, k_key_id other ≠ dr_uuid4 d m) →
  keys_after ks1 later → open master later p raw = Err KeyBindingMismatch.
Proof.
  intros Hseal Hwu Hnone Hrace Hlater. destruct (open_sealed _ _ _ _ _ _ _ _ later Hseal) as (es & range & st & He & -> & ->).
  cbn [encrypt_sections] in He. apply rbind_Ok in He as ([e st1] & He & ([[es1 rg] st2] & Hes & Heq)%rbind_Ok). apply (inj Ok) in Heq.
  simplify_eq. cbn [rmap]. rewrite (raced_section d (ks, 0%nat) p r 0 None s e st1 later dg wr) by (done || (etrans; [apply subseteq_after; by eapply encrypt_sections_sub|done])).
  done.
Qed.
End Guarantees.

(** ** Witnesses: a toy digest and a toy cipher with the laws assumed *)

Definition toy_digest (m : list Z) : list Z := (λ b, b mod 256) <$> take 32 (reverse m ++ replicate 32 0).

#[export, program] Instance toy_sha : Sha256 := {| sha256 := toy_digest |}.
Next Obligation. intros m. unfold toy_digest. rewrite length_fmap, length_take, length_app, length_replicate. lia. Qed.
Next Obligation. intros m. apply Forall_fmap, Forall_true. intros b. unfold compose. apply Z.mod_pos_bound. lia. Qed.

Definition toy_tag (key nonce pt aad : list Z) : list Z := replicate 16 (foldr Z.add 0 (key ++ nonce ++ pt ++ aad) mod 256).
Definition toy_encrypt (key nonce pt aad : list Z) : result cerr (list Z) :=
  check! (length key =? 32)%nat && (length nonce =? 12)%nat else CExn ValueError in Ok (pt ++ toy_tag key nonce pt aad).
Definition toy_decrypt (key nonce ct aad : list Z) : result cerr (list Z) :=
  check! (length key =? 32)%nat && (length nonce =? 12)%nat else CExn ValueError in
  let pt := take (length ct - 16) ct in
  check! bool_decide (ct = pt ++ toy_tag key nonce pt aad) else InvalidTag in Ok pt.

#[export, program] Instance toy_gcm : AesGcm := {| aesgcm_encrypt := toy_encrypt; aesgcm_decrypt := toy_decrypt |}.
Next Obligation. intros key nonce pt aad Hk Hn. unfold toy_encrypt. by rewrite Hk, Hn. Qed.
Next Obligation.
  intros key nonce pt aad ct. unfold toy_encrypt. destruct (_ && _); [|done]. intros [= <-]. by rewrite length_app.
Qed.
Next Obligation.
  intros key nonce pt aad ct Hb. unfold toy_encrypt. destruct (_ && _); [|done]. intros <-%(inj Ok). apply Forall_app. split; [done|].
  apply Forall_replicate, Z.mod_pos_bound. lia.
Qed.
Next Obligation.
  intros key nonce pt aad ct. unfold toy_encrypt, toy_decrypt. destruct (_ && _); [|done]. intros <-%(inj Ok). rewrite length_app.
  change (length (toy_tag key nonce pt aad)) with 16%nat. rewrite Nat.add_sub, take_app_length. by rewrite bool_decide_eq_true_2.
Qed.

Definition master_ex : list Z := replicate 32 7.
Definition draws_ex (race : option subject_key) : Draws :=
  {| dr_urandom n i := Z.of_nat (17 * n + i); dr_uuid4 n := if (n =? 2)%nat then mkUUID 11 I else mkUUID 12 I;
     dr_race _ := race; dr_denied _ := false; dr_now := 100 |}.
Definition p_ex : ProjectId := mkProjectId (mkUUID 1 I).
Definition r_ex : RunId := mkRunId (mkUUID 2 I).
Definition line_ex (n : Z) : list Z :=
  match canonical_json (JObj [(of_ascii "event", JObj []); (of_ascii "seq", JInt n)]) with Ok l => l | Err _ => [] end.
Definition secs_ex : list PlainSection :=
  [mkSection 0 1 [] [line_ex 0; line_ex 1] [] 2; mkSection 2 2 [of_ascii "alice"; of_ascii "bob"] [line_ex 2] [] 2].

Lemma seals_ex : ∃ raw ks1, seal master_ex (draws_ex None) p_ex r_ex secs_ex ∅ = Ok (raw, ks1).
Proof.
  assert (Hok : is_ok (seal master_ex (draws_ex None) p_ex r_ex secs_ex ∅) = true) by (vm_compute; reflexivity).
  destruct (seal _ _ _ _ _ _) as [[raw ks1]|e]; [by exists raw, ks1|done].
Qed.

(** The tag of the second section whose key is destroyed. *)
Definition alice_digest : list Z := match subject_digest p_ex (of_ascii "alice") with Ok d => d | Err _ => [] end.

Lemma erasure_shreds_witness : ∃ raw ks1 os, seal master_ex (draws_ex None) p_ex r_ex secs_ex ∅ = Ok (raw, ks1)
  ∧ open master_ex (destroy_keys ks1 p_ex (Some alice_digest) 200) p_ex raw = Ok os
  ∧ Forall2 (opened_if (existsb (λ dg, in_scope p_ex (Some alice_digest) (p_ex, dg))) p_ex) secs_ex os.
Proof.
  destruct seals_ex as (raw & ks1 & Hs). exists raw, ks1.
  destruct (erasure_shreds master_ex (draws_ex None) p_ex r_ex secs_ex ∅ raw ks1 ks1 (Some alice_digest) 200 Hs (λ _, eq_refl) (reflexivity ks1)) as (os & Ho & Hall).
  exists os. exact (conj Hs (conj Ho Hall)).
Defined.

(** Its result: the first section readable, the second a tombstone. *)
Example erasure_shreds_ex :
  (let! (raw, ks1) := seal master_ex (draws_ex None) p_ex r_ex secs_ex ∅ in
   let! os := open master_ex (destroy_keys ks1 p_ex (Some alice_digest) 200) p_ex raw in
   Ok ((λ o, match o with Plain s => inl (ps_lines s) | Tombstoned t => inr (ts_seq_from t, ts_seq_to t) end) <$> os))
  = Ok [inl [line_ex 0; line_ex 1]; inr (2, 2)].
Proof. vm_compute. reflexivity. Qed.

Lemma sealed_opens_witness : ∃ raw ks1 secs', seal master_ex (draws_ex None) p_ex r_ex secs_ex ∅ = Ok (raw, ks1)
  ∧ open master_ex ks1 p_ex raw = Ok (Plain <$> secs') ∧ section_body <$> secs' = section_body <$> secs_ex.
Proof.
  destruct seals_ex as (raw & ks1 & Hs). exists raw, ks1.
  destruct (sealed_opens master_ex (draws_ex None) p_ex r_ex secs_ex ∅ raw ks1 ks1 Hs (λ _, eq_refl) (reflexivity ks1)) as (secs' & Ho & Hb & _).
  exists secs'. exact (conj Hs (conj Ho Hb)).
Defined.

Lemma no_resurrection_witness : ∃ raw ks1, seal master_ex (draws_ex None) p_ex r_ex secs_ex ∅ = Ok (raw, ks1)
  ∧ Forall (λ s, ∃ wrapping, wrapped_under p_ex s wrapping ∧ Forall (λ dg, destroyed_in ∅ p_ex dg = false) wrapping) secs_ex.
Proof.
  destruct seals_ex as (raw & ks1 & Hs). exists raw, ks1. split; [exact Hs|].
  exact (no_resurrection master_ex (draws_ex None) p_ex r_ex secs_ex ∅ raw ks1 Hs).
Defined.

(** A second encryption for the destroyed subject is refused. *)
Example shredded_refused_ex :
  (let! (raw, ks1) := seal master_ex (draws_ex None) p_ex r_ex secs_ex ∅ in
   let! (raw', _) := seal master_ex (draws_ex None) p_ex r_ex secs_ex (destroy_keys ks1 p_ex (Some alice_digest) 200) in Ok raw')
  = Err ShreddedSubject.
Proof. vm_compute. reflexivity. Qed.

Lemma tombstones_ex : ∃ raw ks os t, open master_ex ks p_ex raw = Ok os ∧ os !! 1%nat = Some (Tombstoned t).
Proof.
  destruct seals_ex as (raw & ks1 & Hs). exists raw, (destroy_keys ks1 p_ex (Some alice_digest) 200).
  pose proof erasure_shreds_ex as Hex. rewrite Hs in Hex. cbn [rbind] in Hex.
  destruct (open _ _ _ raw) as [os|] eqn:Ho; [|discriminate Hex]. cbn [rbind] in Hex. apply (inj Ok) in Hex.
  pose proof (f_equal (λ l, l !! 1%nat) Hex) as H1. cbn beta in H1. rewrite list_lookup_fmap in H1.
  destruct (os !! 1%nat) as [[s|t]|] eqn:Hos; [discriminate H1| |discriminate H1]. exists os, t. exact (conj eq_refl Hos).
Qed.

Lemma tombstone_evidence_witness : ∃ raw ks c s, from_bytes_v2 raw = Ok c ∧ pl_sections c !! 1%nat = Some s ∧ names_destroyed_key ks p_ex s.
Proof.
  destruct tombstones_ex as (raw & ks & os & t & Ho & Ht). exists raw, ks.
  destruct (tombstone_evidence master_ex ks p_ex raw os 1%nat t Ho Ht) as (c & s & H1 & H2 & H3). exists c, s. exact (conj H1 (conj H2 H3)).
Defined.

Definition other_ex : subject_key := mkKey None 2 (mkUUID 99 I) (replicate 60 0) 90 None.

Lemma raced_seals_ex : ∃ raw ks1, seal master_ex (draws_ex (Some other_ex)) p_ex r_ex secs_ex ∅ = Ok (raw, ks1).
Proof.
  assert (Hok : is_ok (seal master_ex (draws_ex (Some other_ex)) p_ex r_ex secs_ex ∅) = true) by (vm_compute; reflexivity).
  destruct (seal _ _ _ _ _ _) as [[raw ks1]|e]; [by exists raw, ks1|done].
Qed.

Lemma raced_key_lost_witness : ∃ raw ks1, seal master_ex (draws_ex (Some other_ex)) p_ex r_ex secs_ex ∅ = Ok (raw, ks1)
  ∧ open master_ex ks1 p_ex raw = Err KeyBindingMismatch.
Proof.
  destruct raced_seals_ex as (raw & ks1 & Hs). exists raw, ks1. split; [exact Hs|].
  eapply (raced_key_lost master_ex (draws_ex (Some other_ex)) p_ex r_ex _ _ ∅ raw ks1 ks1 (toy_digest _) [] Hs);
    [exists []; split; [vm_compute; reflexivity|reflexivity]|reflexivity| |reflexivity].
  intros n. exists other_ex. split; [reflexivity|]. intros m. cbn. by destruct (m =? 2)%nat.
Defined.

Lemma parsed_ex : ∃ raw c, from_bytes_v2 raw = Ok c.
Proof.
  assert (Hok : is_ok (let! (raw, _) := seal master_ex (draws_ex None) p_ex r_ex secs_ex ∅ in lift (from_bytes_v2 raw)) = true) by (vm_compute; reflexivity).
  destruct (seal _ _ _ _ _ _) as [[raw ks1]|e]; [|discriminate Hok]. exists raw. cbn [rbind] in Hok.
  destruct (from_bytes_v2 raw) as [c|e]; [exists c; reflexivity|discriminate Hok].
Qed.

Lemma serialize_from_bytes_witness : ∃ raw c, from_bytes_v2 raw = Ok c ∧ serialize_v2_envelope c = Ok raw.
Proof. destruct parsed_ex as (raw & c & Hc). exists raw, c. split; [exact Hc|]. exact (serialize_from_bytes c raw Hc). Defined.
