(* ===== verification/TraceWriter.v ===== *)
(** * The trace writer (ingest/trace_writer.py)

    The consumer of queued trace events: claimed items are parsed, grouped by run, checked
    against the run's owner and its end sentinel, encrypted, stored, and recorded in
    [trace_index] in one transaction; then the items are settled with the queue.  The two
    statements of stores/pg/repo.py it relies on - the merge of an index row and the
    scheduling of the learning job - are here too.

    What a group meets on its way is an [attempt]: what the activity gate and the erasure
    fence answer, whether the object store or the transaction fails, whether a COMMIT that
    was applied is acknowledged, and when the queue stops taking settlements (a fault of the
    queue while items are returned to it is only an earlier end of the call).  Pydantic's
    validation of an event is the parameter [validate_business], its dump [dump_event]; the
    crypto layer is the interface [SubjectKeys] of Sections.v, the names of objects
    [TraceStore].  Only
    authority version 1 items exist: the worker queue hands out nothing else. *)

From Stdlib Require Import Floats.
From S2P Require Import Prelude Domain PyText Json Signatures Memory WorkQueue ValkeyKeys SeqSet Sections.
Open Scope Z_scope.

(** ** Events (domain/events.py) *)

Inductive EventType :=
| E_run_start | E_tool_call | E_tool_result | E_llm_call_meta | E_error | E_artifact_ref | E_state_note | E_run_end.

#[export] Instance EventType_eq_dec : EqDecision EventType.
Proof. solve_decision. Defined.

Record TraceEvent := mkEvent { ev_type : EventType; ev_ts : datetime; ev_payload : list (pystr * json) }.

Definition RUN_END_STATUSES : list pystr := of_ascii <$> ["ok"; "error"; "cancelled"]%string.
Definition SUBJECT_TAGS_KEY : pystr := of_ascii "subject_tags".

Record TraceQueueEnvelope := mkEnvelope {
  en_project_id : ProjectId;
  en_principal_id : PrincipalId;
  en_agent_type_id : AgentTypeId;
  en_run_id : RunId;
  en_seq : Z;
  en_event : TraceEvent;
}.

Definition is_type (t : EventType) (e : TraceQueueEnvelope) : bool := bool_decide (ev_type (en_event e) = t).
Abbreviation is_end e := (is_type E_run_end e).

(** ** Outcome statuses *)

Inductive TraceOutcomeStatus := T_PENDING | T_OK | T_ERROR | T_CANCELLED | T_INCOMPLETE.

#[export] Instance TraceOutcomeStatus_eq_dec : EqDecision TraceOutcomeStatus.
Proof. solve_decision. Defined.

Definition is_terminal (s : TraceOutcomeStatus) : bool :=
  match s with T_OK | T_ERROR | T_CANCELLED => true | _ => false end.

(** [TraceOutcomeStatus(end_status)] on the values [parse_end_status] lets through. *)
Definition outcome_of_status (s : pystr) : TraceOutcomeStatus :=
  if bool_decide (s = of_ascii "ok") then T_OK
  else if bool_decide (s = of_ascii "error") then T_ERROR else T_CANCELLED.

Definition parse_end_status (raw : option json) : option pystr :=
  match raw with
  | Some (JStr s) => if bool_decide (s ∈ RUN_END_STATUSES) then Some s else None
  | _ => None
  end.

Definition PATH_SEQ_RANGES : pystr := of_ascii "seq_ranges".
Definition PATH_PAYLOAD_REFS : pystr := of_ascii "payload_refs".
Definition PATH_END_SEQ : pystr := of_ascii "end_seq".
Definition PATH_END_STATUS : pystr := of_ascii "end_status".

(** ** Rows *)

#[export] Instance datetime_eq_dec : EqDecision datetime.
Proof. solve_decision. Defined.

Inductive InstrumentationSource := SDK | HOST_STREAM.

Record TraceIndexRow := mkTraceIndex {
  ti_agent_type_id : AgentTypeId;
  ti_workflow_template_id : option uuid;
  ti_submitter_principal : PrincipalId;
  ti_input_signature_hash : list Z;
  ti_instrumentation_source : InstrumentationSource;
  ti_arm : Arm;
  ti_path : option (list (pystr * json));
  ti_started_at : option datetime;
  ti_ended_at : option datetime;
  ti_payload_ref : option pystr;
  ti_outcome_status : TraceOutcomeStatus;
  ti_envelope_versions : list Z;
}.

(** [existing.path or {}] *)
Definition path_of (existing : option TraceIndexRow) : list (pystr * json) :=
  match existing with Some row => default [] (ti_path row) | None => [] end.

Record LearningJob := mkJob { job_trace_ended_at : datetime; job_max_attempts : Z }.

Abbreviation run_key := (ProjectId * RunId)%type.

(** The tables a group writes; the subject keys are the crypto layer's. *)
Record trace_db (keys : Type) := mkDb {
  trace_index : gmap run_key TraceIndexRow;
  learning_job : gmap run_key LearningJob;
  subject_key : keys;
}.
Arguments mkDb {keys} _ _ _.
Arguments trace_index {keys} _.
Arguments learning_job {keys} _.
Arguments subject_key {keys} _.

Definition set_keys {keys} (ks : keys) (db : trace_db keys) : trace_db keys := mkDb (trace_index db) (learning_job db) ks.

(** The values an upsert binds. *)
Record TraceIndexUpsert := mkUpsert {
  up_agent_type_id : AgentTypeId;
  up_submitter_principal : PrincipalId;
  up_input_signature_hash : list Z;
  up_path : list (pystr * json);
  up_started_at : option datetime;
  up_ended_at : option datetime;
  up_payload_ref : pystr;
  up_outcome_status : TraceOutcomeStatus;
}.

(** ** The SQL of the index *)

(** The newest of two optional columns that the first, or the second, wins. *)
Definition coalesce {A} (a b : option A) : option A := match a with Some _ => a | None => b end.

(** [_TRACE_INDEX_UPSERT_TEMPLATE]; [arm] is the arm the server itself recorded for the run. *)
Definition merge_index (arm : option Arm) (old : TraceIndexRow) (row : TraceIndexUpsert) : TraceIndexRow :=
  if is_terminal (ti_outcome_status old) then old
  else mkTraceIndex (ti_agent_type_id old) (ti_workflow_template_id old) (ti_submitter_principal old)
         (if is_absent_signature (ti_input_signature_hash old) then up_input_signature_hash row
          else ti_input_signature_hash old)
         SDK (default (ti_arm old) arm) (Some (up_path row)) (coalesce (ti_started_at old) (up_started_at row))
         (coalesce (up_ended_at row) (ti_ended_at old)) (coalesce (ti_payload_ref old) (Some (up_payload_ref row)))
         (if bool_decide (up_outcome_status row = T_PENDING) then ti_outcome_status old else up_outcome_status row)
         (py_sorted Z.leb (remove_dups (ti_envelope_versions old ++ [2]))).

Definition new_index (arm : option Arm) (row : TraceIndexUpsert) : TraceIndexRow :=
  mkTraceIndex (up_agent_type_id row) None (up_submitter_principal row) (up_input_signature_hash row) SDK
    (default MEMORY_ON arm) (Some (up_path row)) (up_started_at row) (up_ended_at row) (Some (up_payload_ref row))
    (up_outcome_status row) [2].

Definition upsert_trace_index {keys} (arm : option Arm) (k : run_key) (row : TraceIndexUpsert) (db : trace_db keys)
  : trace_db keys :=
  mkDb (<[k := match trace_index db !! k with Some old => merge_index arm old row | None => new_index arm row end]>
          (trace_index db)) (learning_job db) (subject_key db).

Definition MAX_QUEUE_ATTEMPTS : Z := 32.

(** [_impl_schedule_trace_learning_job], for the Tier A pipeline. *)
Definition schedule_trace_learning_job {keys} (k : run_key) (max_attempts : Z) (db : trace_db keys)
  : result exn (bool * trace_db keys) :=
  check! (1 <=? max_attempts) && (max_attempts <=? MAX_QUEUE_ATTEMPTS) else ValueError in
  match trace_index db !! k, learning_job db !! k with
  | Some row, None =>
      match is_terminal (ti_outcome_status row), ti_ended_at row with
      | true, Some ended =>
          Ok (true, mkDb (trace_index db) (<[k := mkJob ended max_attempts]> (learning_job db)) (subject_key db))
      | _, _ => Err RuntimeError
      end
  | Some row, Some job =>
      check! bool_decide (Some (job_trace_ended_at job) = ti_ended_at row) && (job_max_attempts job =? max_attempts)
      else RuntimeError in Ok (false, db)
  | None, _ => Err RuntimeError
  end.

(** ** The trace store *)

(** The trace store names an object by its project, run and first sequence number. *)
Class TraceStore := {
  object_ref : ProjectId → RunId → Z → pystr;
  object_ref_inj : ∀ p r n p' r' n', 0 <= n → 0 <= n' → object_ref p r n = object_ref p' r' n' → p = p' ∧ r = r' ∧ n = n';
}.

(** ** Object names (stores/tracestore)

    [str(PayloadRef)] of the two drivers: [fs://{project}/{run}/{first_seq:08d}.tbz] and
    [s3://{bucket}/tb/{project}/{run}/{first_seq:08d}]. *)

Definition format_08d (n : Z) : pystr := replicate (8 - length (dec_str n)) 48 ++ dec_str n.

Definition object_key (p : ProjectId) (r : RunId) (n : Z) : pystr :=
  uuid_str (ProjectId_value p) ++ [47] ++ uuid_str (RunId_value r) ++ [47] ++ format_08d n.

Definition fs_object_ref (p : ProjectId) (r : RunId) (n : Z) : pystr :=
  of_ascii "fs://" ++ object_key p r n ++ of_ascii ".tbz".
Definition s3_object_ref (bucket : pystr) (p : ProjectId) (r : RunId) (n : Z) : pystr :=
  of_ascii "s3://" ++ bucket ++ of_ascii "/tb/" ++ object_key p r n.

Lemma format_08d_inj n m : 0 <= n → 0 <= m → format_08d n = format_08d m → n = m.
Proof.
  intros Hn Hm H. assert (Hread : ∀ k, 0 <= k → dec_read 0 (format_08d k) = Some k).
  { intros k Hk. unfold format_08d. rewrite dec_read_app.
    assert (Hz : ∀ j, dec_read 0 (replicate j 48) = Some 0) by (by induction j; cbn). rewrite Hz. by apply dec_str_read. }
  apply (f_equal (dec_read 0)) in H. rewrite !Hread in H by done. by injection H.
Qed.

Lemma object_key_inj p r n p' r' n' : 0 <= n → 0 <= n' → object_key p r n = object_key p' r' n' → p = p' ∧ r = r' ∧ n = n'.
Proof.
  intros Hn Hn' H. unfold object_key in H. apply app_inj_1 in H as [Hp H]; [|by rewrite !length_uuid_str].
  apply app_inv_head in H. apply app_inj_1 in H as [Hr H]; [|by rewrite !length_uuid_str]. apply app_inv_head in H.
  apply uuid_str_inj in Hp, Hr. destruct p, p', r, r'. cbn in *. subst. by rewrite (format_08d_inj n n').
Qed.

#[export] Program Instance fs_trace_store : TraceStore := {| object_ref := fs_object_ref |}.
Next Obligation.
  intros p r n p' r' n' Hn Hn' H. apply app_inv_head, app_inv_tail in H. by apply object_key_inj.
Qed.

Definition s3_trace_store (bucket : pystr) : TraceStore.
Proof.
  refine {| object_ref := s3_object_ref bucket |}.
  intros p r n p' r' n' Hn Hn' H. apply app_inv_head, app_inv_head, app_inv_head in H. by apply object_key_inj.
Defined.

(** ** Reading an event *)

Section Events.
Context (sha256 : list Z → list Z) (nfc_casefold : pystr → pystr) (dump_event : TraceEvent → json).

Record RunStartFeatures := mkFeatures {
  rf_query_text : pystr;
  rf_workflow_template : option pystr;
  rf_tool_manifest : option (list pystr);
  rf_started_at : datetime;
}.

Definition as_str (j : json) : result exn pystr := match j with JStr s => Ok s | _ => Err ValueError end.

Definition run_start_features (env : TraceQueueEnvelope) : result exn RunStartFeatures :=
  check! is_type E_run_start env else ValueError in
  let payload := ev_payload (en_event env) in
  let! query := as_str (default (JStr []) (dict_get payload (of_ascii "query_text"))) in
  let! template := match dict_get payload (of_ascii "workflow_template") with
                   | None | Some JNull => Ok None
                   | Some j => let! s := as_str j in Ok (Some s)
                   end in
  let! manifest := match dict_get payload (of_ascii "tool_manifest") with
                   | None | Some JNull => Ok None
                   | Some (JArr l) => let! ts := rmap as_str l in Ok (Some ts)
                   | Some _ => Err ValueError
                   end in
  let! _ := input_signature_hash sha256 nfc_casefold (en_agent_type_id env) query template manifest in
  Ok (mkFeatures query template manifest (ev_ts (en_event env))).

(** Tags of validated events are strings; sorted and without repetition. *)
Definition subject_tags_for (e : TraceEvent) : list pystr :=
  match ev_type e, dict_get (ev_payload e) SUBJECT_TAGS_KEY with
  | (E_state_note | E_artifact_ref), Some (JArr l) =>
      py_sorted str_leb (remove_dups (omap (λ j, match j with JStr s => Some s | _ => None end) l))
  | _, _ => []
  end.

Definition wire_line (seq : Z) (e : TraceEvent) : result exn (list Z) :=
  canonical_json (JObj [(of_ascii "seq", JInt seq); (of_ascii "event", dump_event e)]).

(** The loop of [_build_sections]: the open section, if any, and the remaining events. *)
Fixpoint sections_loop (current : option PlainSection) (envs : list TraceQueueEnvelope) : result exn (list PlainSection) :=
  match envs with
  | [] => Ok (match current with Some s => [s] | None => [] end)
  | env :: envs' =>
      let tags := subject_tags_for (en_event env) in
      let! line := wire_line (en_seq env) (en_event env) in
      let fresh := mkSection (en_seq env) (en_seq env) tags [line] [] 1 in
      match current with
      | None => sections_loop (Some fresh) envs'
      | Some s =>
          if bool_decide (tags = ps_subject_tags s)
          then sections_loop (Some (mkSection (ps_seq_from s) (en_seq env) tags (ps_lines s ++ [line]) [] 1)) envs'
          else let! rest := sections_loop (Some fresh) envs' in Ok (s :: rest)
      end
  end.

Definition build_sections (envs : list TraceQueueEnvelope) : result exn (list PlainSection) := sections_loop None envs.

(** ** Owners and sentinels *)

Record RunOwner := mkOwner { ro_principal_id : PrincipalId; ro_agent_type_id : AgentTypeId }.

#[export] Instance RunOwner_eq_dec : EqDecision RunOwner.
Proof. solve_decision. Defined.

(** [min(candidates, key=lambda e: e.seq)]: the first of the smallest. *)
Definition min_seq (e0 : TraceQueueEnvelope) (l : list TraceQueueEnvelope) : TraceQueueEnvelope :=
  foldl (λ m e, if en_seq e <? en_seq m then e else m) e0 l.

Definition resolve_owner (existing : option TraceIndexRow) (envs : list TraceQueueEnvelope) : result exn RunOwner :=
  match existing with
  | Some row => Ok (mkOwner (ti_submitter_principal row) (ti_agent_type_id row))
  | None =>
      match List.filter (is_type E_run_start) envs, envs with
      | e :: l, _ | [], e :: l => let m := min_seq e l in Ok (mkOwner (en_principal_id m) (en_agent_type_id m))
      | [], [] => Err ValueError
      end
  end.

Definition end_status_of (env : TraceQueueEnvelope) : option pystr :=
  parse_end_status (dict_get (ev_payload (en_event env)) (of_ascii "status")).

Definition sentinel_identity (env : TraceQueueEnvelope) : result exn (Z * option pystr * list Z) :=
  let! bytes := canonical_json (dump_event (en_event env)) in
  Ok (en_seq env, end_status_of env, bytes).

(** [_admit_nonterminal_events]: the test that splits the batch, each event on its own. *)
Definition admits (existing : option TraceIndexRow) (envs : list TraceQueueEnvelope)
  : result exn (TraceQueueEnvelope → bool) :=
  let path := path_of existing in
  match parse_seq (dict_get path PATH_END_SEQ) with
  | Some existing_end =>
      let existing_status := parse_end_status (dict_get path PATH_END_STATUS) in
      Ok (λ env, negb ((existing_end <? en_seq env)
                       || (is_end env && (negb (en_seq env =? existing_end)
                                          || negb (bool_decide (end_status_of env = existing_status))))))
  | None =>
      let ends := List.filter (is_type E_run_end) envs in
      let! identities := rmap sentinel_identity ends in
      if (1 <? length (remove_dups identities))%nat then Ok (λ env, negb (is_end env))
      else match ends with
           | [] => Ok (λ _, true)
           | e :: _ =>
               let seen := from_path (dict_get path PATH_SEQ_RANGES) in
               if has_above seen (en_seq e) then Ok (λ env, negb (is_end env) && (en_seq env <=? en_seq e))
               else Ok (λ env, (en_seq env <? en_seq e) || ((en_seq env =? en_seq e) && is_end env))
           end
  end.

(** ** The batch *)

(** [by_seq.setdefault], then the events in the order of their numbers. *)
Fixpoint first_by_seq (seen : list Z) (envs : list TraceQueueEnvelope) : list TraceQueueEnvelope :=
  match envs with
  | [] => []
  | e :: envs' => if bool_decide (en_seq e ∈ seen) then first_by_seq seen envs' else e :: first_by_seq (en_seq e :: seen) envs'
  end.

Definition seq_leb (a b : TraceQueueEnvelope) : bool := en_seq a <=? en_seq b.

Definition new_events (seen : SeqSet) (envs : list TraceQueueEnvelope) : list TraceQueueEnvelope :=
  List.filter (λ e, negb (contains seen (en_seq e))) (py_sorted seq_leb (first_by_seq [] envs)).

Definition identity_columns (owner : RunOwner) (existing : option TraceIndexRow) (new_envs : list TraceQueueEnvelope)
  : result exn (list Z * option datetime) :=
  match List.filter (is_type E_run_start) new_envs with
  | [] => Ok (match existing with Some row => ti_input_signature_hash row | None => ABSENT_SIGNATURE end, None)
  | e :: _ =>
      let! f := run_start_features e in
      let! sig := input_signature_hash sha256 nfc_casefold (ro_agent_type_id owner) (rf_query_text f)
                    (rf_workflow_template f) (rf_tool_manifest f) in
      Ok (sig, Some (rf_started_at f))
  end.

(** The status and end time, and [merged_path] with the sentinel written into it. *)
Definition resolve_completeness (existing_path merged_path : list (pystr * json)) (merged : SeqSet)
  (new_envs : list TraceQueueEnvelope) : TraceOutcomeStatus * option datetime * list (pystr * json) :=
  let '(end_seq, end_status, ended_at, path) :=
    match parse_seq (dict_get existing_path PATH_END_SEQ) with
    | Some n => (Some n, parse_end_status (dict_get existing_path PATH_END_STATUS), None, merged_path)
    | None =>
        match List.filter (is_type E_run_end) new_envs with
        | [] => (None, parse_end_status (dict_get existing_path PATH_END_STATUS), None, merged_path)
        | e :: _ =>
            let path := dict_set merged_path PATH_END_SEQ (JInt (en_seq e)) in
            (Some (en_seq e), end_status_of e, Some (ev_ts (en_event e)),
             match end_status_of e with Some s => dict_set path PATH_END_STATUS (JStr s) | None => path end)
        end
    end in
  match end_seq, end_status with
  | None, _ => (T_PENDING, None, path)
  | Some _, None => (T_INCOMPLETE, ended_at, path)
  | Some n, Some s =>
      if count_upto merged n =? n + 1 then (outcome_of_status s, ended_at, path) else (T_INCOMPLETE, ended_at, path)
  end.

End Events.

(** ** Processing *)

Inductive settlement := Ack | Nack | Reject (reason : pystr).

Definition MALFORMED : pystr := of_ascii "malformed_business_payload".
Definition OWNER_CONFLICT : pystr := of_ascii "owner_conflict".

Inductive gate_answer := GateOpen | GateBusy | GateRefused.
Inductive commit_end := CommitApplied | CommitFailed | CommitUnacknowledged.

(** What one group meets.  [at_snapshot] is what the erasure fence returns, [None] when it
    raises; [at_draws] what the crypto layer draws; [at_settle] after how many settlements the
    queue raises, if it does. *)
Record attempt (draws : Type) := mkAttempt {
  at_gate : gate_answer;
  at_snapshot : option (list (list Z));
  at_draws : draws;
  at_put_fails : bool;
  at_statement_fails : bool;
  at_commit : commit_end;
  at_settle : option nat;
}.
Arguments mkAttempt {draws} _ _ _ _ _ _ _.
Arguments at_gate {draws} _.
Arguments at_snapshot {draws} _.
Arguments at_draws {draws} _.
Arguments at_put_fails {draws} _.
Arguments at_statement_fails {draws} _.
Arguments at_commit {draws} _.
Arguments at_settle {draws} _.

Abbreviation pair := (TraceQueueEnvelope * QueueItem)%type.

Record tworld (payload keys : Type) := mkTWorld {
  tw_db : trace_db keys;
  tw_objects : gmap pystr payload;
  tw_settled : list (QueueItem * settlement);
}.
Arguments mkTWorld {payload keys} _ _ _.
Arguments tw_db {payload keys} _.
Arguments tw_objects {payload keys} _.
Arguments tw_settled {payload keys} _.

Definition item_owner (i : QueueItem) : RunOwner := mkOwner (qi_run_owner_principal_id i) (qi_run_owner_agent_type_id i).
Definition env_owner (e : TraceQueueEnvelope) : RunOwner := mkOwner (en_principal_id e) (en_agent_type_id e).

(** Where each item of a group goes. *)
Record triage := mkTriage {
  tr_accepted : list pair;
  tr_replayed : list pair;
  tr_invalid : list pair;
  tr_refused : list pair;
}.

Definition settlements (t : triage) : list (QueueItem * settlement) :=
  ((λ p, (p.2, Ack)) <$> tr_accepted t) ++ ((λ p, (p.2, Ack)) <$> tr_replayed t)
  ++ ((λ p, (p.2, Reject MALFORMED)) <$> tr_invalid t) ++ ((λ p, (p.2, Reject OWNER_CONFLICT)) <$> tr_refused t).

Section Process.
Context {payload keys draws : Type} {KEYS : SubjectKeys payload keys draws} {STORE : TraceStore}.
Context (sha256 : list Z → list Z) (nfc_casefold : pystr → pystr).
Context (validate_business : list (pystr * json) → option (Z * TraceEvent)) (dump_event : TraceEvent → json).
Context (server_arm : run_key → option Arm) (max_attempts : Z).

Abbreviation objects := (gmap pystr payload).
Abbreviation db_t := (trace_db keys).
Abbreviation world := (tworld payload keys).
Abbreviation attempt_t := (attempt draws).

(** [_write_batch]: the count and the new database, and the object store, which keeps what
    was put even when the transaction fails afterwards.  The references in the path are
    strings, which [str] leaves as they are. *)
Definition write_batch (k : run_key) (owner : RunOwner) (existing : option TraceIndexRow)
  (envs : list TraceQueueEnvelope) (a : attempt_t) (objs : objects) (db : db_t) : result exn (Z * db_t) * objects :=
  let existing_path := path_of existing in
  let seen := from_path (dict_get existing_path PATH_SEQ_RANGES) in
  match new_events seen envs with
  | [] => (Ok (0, db), objs)
  | (first :: _) as new_envs =>
      match (let! secs := build_sections dump_event new_envs in encrypt_v2 (at_draws a) k.1 k.2 secs (subject_key db)) with
      | Err e => (Err e, objs)
      | Ok (encrypted, ks) =>
          if at_put_fails a then (Err RuntimeError, objs)
          else
            let ref := object_ref k.1 k.2 (en_seq first) in
            let objs' := <[ref := encrypted]> objs in
            let merged := extend seen (en_seq <$> new_envs) in
            let prior_refs := match dict_get existing_path PATH_PAYLOAD_REFS with Some (JArr l) => l | _ => [] end in
            let merged_path :=
              dict_set (dict_set existing_path PATH_SEQ_RANGES (to_path merged)) PATH_PAYLOAD_REFS
                (JArr (prior_refs ++ [JStr ref])) in
            (let! id := identity_columns sha256 nfc_casefold owner existing new_envs in
             let '(sig, started_at) := id in
             let '(outcome_status, ended_at, path) :=
               resolve_completeness existing_path merged_path merged new_envs in
             check! negb (at_statement_fails a) else RuntimeError in
             let db1 := upsert_trace_index (server_arm k) k
                          (mkUpsert (ro_agent_type_id owner) (ro_principal_id owner) sig path started_at ended_at ref
                             outcome_status) (set_keys ks db) in
             if is_terminal outcome_status
                && negb (match existing with Some row => is_terminal (ti_outcome_status row) | None => false end)
             then let! scheduled := schedule_trace_learning_job k max_attempts db1 in
                  Ok (Z.of_nat (length new_envs), scheduled.2)
             else Ok (Z.of_nat (length new_envs), db1), objs')
      end
  end.

(** The body of the transaction of [_process_group]; [item0] is the first item. *)
Definition group_tx (k : run_key) (item0 : QueueItem) (pairs : list pair) (a : attempt_t) (objs : objects) (db : db_t)
  : result exn (triage * Z * db_t) * objects :=
  let existing := trace_index db !! k in
  let expected := qi_subject_digests item0 in
  if negb (forallb (λ p, bool_decide (qi_subject_digests p.2 = expected)) pairs) then (Err TracebedError, objs)
  else if negb (bool_decide (at_snapshot a = Some expected)) then (Err TracebedError, objs)
  else
    match resolve_owner existing pairs.*1 with
    | Err e => (Err e, objs)
    | Ok owner0 =>
        let persisted := item_owner item0 in
        if bool_decide (is_Some existing) && negb (bool_decide (owner0 = persisted))
        then (Ok (mkTriage [] [] [] pairs, 0, db), objs)
        else
          let owner := persisted in
          let mine := λ p : pair, bool_decide (env_owner p.1 = owner) && bool_decide (item_owner p.2 = owner) in
          let accepted := List.filter mine pairs in
          let refused := List.filter (λ p, negb (mine p)) pairs in
          if match existing with Some row => is_terminal (ti_outcome_status row) | None => false end then
            let seen := from_path (dict_get (path_of existing) PATH_SEQ_RANGES) in
            (Ok (mkTriage [] (List.filter (λ p, contains seen (en_seq p.1)) accepted)
                   (List.filter (λ p, negb (contains seen (en_seq p.1))) accepted) refused, 0, db), objs)
          else match accepted with
               | [] => (Ok (mkTriage [] [] [] refused, 0, db), objs)
               | _ =>
                   match admits dump_event existing accepted.*1 with
                   | Err e => (Err e, objs)
                   | Ok allowed =>
                       let admitted := List.filter (λ p, allowed p.1) accepted in
                       let invalid := List.filter (λ p, negb (allowed p.1)) accepted in
                       let '(r, objs') := write_batch k owner existing admitted.*1 a objs db in
                       (let! n := r in Ok (mkTriage admitted [] invalid refused, n.1, n.2), objs')
                   end
               end
    end.

Definition group_body (k : run_key) (pairs : list pair) (a : attempt_t) (objs : objects) (db : db_t)
  : result exn (triage * Z * db_t) * objects :=
  match pairs with
  | [] => (Err LookupError, objs)
  | (_, item0) :: _ => group_tx k item0 pairs a objs db
  end.

(** [_process_group]: the transaction, then the settlements. *)
Definition process_group (k : run_key) (pairs : list pair) (a : attempt_t) (w : world)
  : result exn Z * world :=
  let '(r, objs) := group_body k pairs a (tw_objects w) (tw_db w) in
  match r with
  | Err e => (Err e, mkTWorld (tw_db w) objs (tw_settled w))
  | Ok (t, n, db) =>
      match at_commit a with
      | CommitFailed => (Err RuntimeError, mkTWorld (tw_db w) objs (tw_settled w))
      | CommitUnacknowledged => (Err RuntimeError, mkTWorld db objs (tw_settled w))
      | CommitApplied =>
          match at_settle a with
          | Some m =>
              if (m <? length (settlements t))%nat
              then (Err RuntimeError, mkTWorld db objs (tw_settled w ++ take m (settlements t)))
              else (Ok n, mkTWorld db objs (tw_settled w ++ settlements t))
          | None => (Ok n, mkTWorld db objs (tw_settled w ++ settlements t))
          end
      end
  end.

Definition nack_all (pairs : list pair) (w : world) : world :=
  mkTWorld (tw_db w) (tw_objects w) (tw_settled w ++ ((λ p, (p.2, Nack)) <$> pairs)).

(** The groups in turn; an exception of the gate other than its being busy escapes. *)
Fixpoint groups_loop (groups : list (run_key * list pair)) (attempts : nat → attempt_t) (w : world)
  : result exn Z * world :=
  match groups with
  | [] => (Ok 0, w)
  | (k, pairs) :: groups' =>
      let a := attempts 0%nat in
      let next n w1 := match groups_loop groups' (λ i, attempts (S i)) w1 with
                       | (Ok m, w2) => (Ok (n + m), w2)
                       | (Err e, w2) => (Err e, w2)
                       end in
      match at_gate a with
      | GateRefused => (Err TracebedError, w)
      | GateBusy => next 0 (nack_all pairs w)
      | GateOpen =>
          match process_group k pairs a w with
          | (Ok n, w1) => next n w1
          | (Err _, w1) => next 0 (nack_all pairs w1)
          end
      end
  end.

(** [_parse_item]; [None] when the item is refused. *)
Definition parse_item (i : QueueItem) : option TraceQueueEnvelope :=
  if (length (qi_payload i) =? 2)%nat && bool_decide (of_ascii "seq" ∈ (qi_payload i).*1)
     && bool_decide (of_ascii "event" ∈ (qi_payload i).*1)
  then match validate_business (qi_payload i) with
       | Some (seq, ev) =>
           let env := mkEnvelope (qi_project_id i) (qi_source_principal_id i) (qi_source_agent_type_id i) (qi_run_id i)
                        seq ev in
           if is_type E_run_start env
           then match run_start_features sha256 nfc_casefold env with Ok _ => Some env | Err _ => None end
           else Some env
       | None => None
       end
  else None.

(** [groups.setdefault(key, []).append(pair)] *)
Definition add_pair (groups : list (run_key * list pair)) (k : run_key) (p : pair) : list (run_key * list pair) :=
  dict_set groups k (default [] (dict_get groups k) ++ [p]).

Fixpoint group_items (items : list QueueItem) (groups : list (run_key * list pair))
  : list (run_key * list pair) * list (QueueItem * settlement) :=
  match items with
  | [] => (groups, [])
  | i :: items' =>
      match parse_item i with
      | Some env => group_items items' (add_pair groups (qi_project_id i, qi_run_id i) (env, i))
      | None => let '(gs, log) := group_items items' groups in (gs, (i, Reject MALFORMED) :: log)
      end
  end.

Definition run_once (items : list QueueItem) (attempts : nat → attempt_t) (w : world)
  : result exn Z * world :=
  let '(groups, log) := group_items items [] in
  groups_loop groups attempts (mkTWorld (tw_db w) (tw_objects w) (tw_settled w ++ log)).

End Process.

(** ** The sweep *)

Definition MAX_SWEEP_BATCH : Z := 10000.

Definition started_us (row : TraceIndexRow) : Z := match ti_started_at row with Some d => dt_us d | None => 0 end.

(** ORDER BY started_at NULLS FIRST *)
Definition started_leb (a b : RunId * TraceIndexRow) : bool :=
  match ti_started_at a.2, ti_started_at b.2 with
  | None, _ => true
  | Some _, None => false
  | Some x, Some y => dt_us x <=? dt_us y
  end.

Definition find_runs_missing_sentinel {keys} (p : ProjectId) (older_than : Z) (db : trace_db keys) : list RunId :=
  (take (Z.to_nat MAX_SWEEP_BATCH) (py_sorted started_leb
     (omap (λ kr, if bool_decide (kr.1.1 = p) && bool_decide (ti_outcome_status kr.2 = T_PENDING)
                     && (started_us kr.2 <? older_than) then Some (kr.1.2, kr.2) else None)
        (map_to_list (trace_index db))))).*1.

Definition set_outcome (s : TraceOutcomeStatus) (row : TraceIndexRow) : TraceIndexRow :=
  mkTraceIndex (ti_agent_type_id row) (ti_workflow_template_id row) (ti_submitter_principal row)
    (ti_input_signature_hash row) (ti_instrumentation_source row) (ti_arm row) (ti_path row) (ti_started_at row)
    (ti_ended_at row) (ti_payload_ref row) s (ti_envelope_versions row).

Definition mark_run_incomplete {keys} (k : run_key) (db : trace_db keys) : trace_db keys :=
  match trace_index db !! k with
  | Some row =>
      if bool_decide (ti_outcome_status row = T_PENDING)
      then mkDb (<[k := set_outcome T_INCOMPLETE row]> (trace_index db)) (learning_job db) (subject_key db) else db
  | None => db
  end.

(** Between the read of a project and the mark of one of its runs other transactions may
    commit, so each mark is a step of its own ([TraceRuns.v]); alone, the sweep is this. *)
Definition sweep_project {keys} (p : ProjectId) (cutoff : Z) (db : trace_db keys) : Z * trace_db keys :=
  let runs := find_runs_missing_sentinel p cutoff db in
  (Z.of_nat (length runs), foldl (λ db r, mark_run_incomplete (p, r) db) db runs).

Definition sweep_incomplete {keys} (now idle_ttl_min : Z) (projects : list ProjectId) (db : trace_db keys)
  : Z * trace_db keys :=
  let cutoff := now - 2 * (idle_ttl_min * 60 * 1000000) in
  foldl (λ acc p, let '(n, db') := sweep_project p cutoff acc.2 in (acc.1 + n, db')) (0, db) projects.

(** ** Sections *)

Section Sections.
Context (dump_event : TraceEvent → json).

(** The lines of the sections are the lines of the events, in order. *)
Lemma sections_loop_lines cur envs secs : sections_loop dump_event cur envs = Ok secs →
  ∃ lines, rmap (λ e, wire_line dump_event (en_seq e) (en_event e)) envs = Ok lines
    ∧ concat (ps_lines <$> secs) = (match cur with Some s => ps_lines s | None => [] end) ++ lines.
Proof.
  revert cur secs. induction envs as [|e envs IH]; intros cur secs; cbn [sections_loop rmap].
  { intros [= <-]. exists []. split; [done|]. by destruct cur; cbn; rewrite ?app_nil_r. }
  destruct (wire_line dump_event (en_seq e) (en_event e)) as [line|err]; cbn [rbind]; [|done].
  destruct cur as [s|]; [case_bool_decide as Ht|].
  - intros (lines & Hl & Hc)%IH. rewrite Hl. exists (line :: lines). split; [done|]. rewrite Hc. cbn. by rewrite <- app_assoc.
  - intros (rest & (lines & Hl & Hc)%IH & [= <-])%rbind_Ok. rewrite Hl. exists (line :: lines). split; [done|].
    cbn [fmap list_fmap concat]. by rewrite Hc.
  - intros (lines & Hl & Hc)%IH. rewrite Hl. exists (line :: lines). split; [done|]. by rewrite Hc.
Qed.

Lemma build_sections_lines envs secs : build_sections dump_event envs = Ok secs →
  rmap (λ e, wire_line dump_event (en_seq e) (en_event e)) envs = Ok (concat (ps_lines <$> secs)).
Proof. intros (lines & -> & ->)%sections_loop_lines. done. Qed.

End Sections.
