(* ===== verification/TraceRuns.v ===== *)
(** * What the trace index and the archive say about a run

    Workers process groups of events one transaction at a time, in any order and with any
    faults, and the sweeper marks idle runs; TraceWriter.v has the operations.  For every
    run of a reachable state there is a list of batches, the events that were recorded, in
    the order of their transactions: the objects the index row refers to hold exactly these
    batches, the row's sequence ranges are exactly their numbers, no number occurs twice,
    and the sentinel, the status and the learning job follow from them. *)

From Stdlib Require Import Floats.
From S2P Require Import Prelude Domain PyText Json Signatures Memory WorkQueue SeqSet Sections TraceWriter.
Open Scope Z_scope.

Abbreviation envelope := TraceQueueEnvelope.

(** ** The new events of a batch *)

Lemma first_by_seq_sub seen envs e : e ∈ first_by_seq seen envs → e ∈ envs ∧ en_seq e ∉ seen.
Proof.
  revert seen. induction envs as [|x envs IH]; intros seen; cbn; [by intros ?%elem_of_nil|].
  case_bool_decide as Hx.
  - intros [? ?]%IH. split; [by right|done].
  - rewrite elem_of_cons. intros [-> | [? Hn]%IH]; [split; [left|done]|]. split; [by right|]. set_solver.
Qed.

Lemma first_by_seq_NoDup seen envs : NoDup (en_seq <$> first_by_seq seen envs).
Proof.
  revert seen. induction envs as [|x envs IH]; intros seen; cbn; [constructor|]. case_bool_decide; [apply IH|].
  cbn. constructor; [|apply IH]. rewrite list_elem_of_fmap. intros (y & Hy & [_ Hn]%first_by_seq_sub). set_solver.
Qed.

Lemma first_by_seq_covers seen envs e : e ∈ envs → en_seq e ∉ seen → en_seq e ∈ en_seq <$> first_by_seq seen envs.
Proof.
  revert seen. induction envs as [|x envs IH]; intros seen; cbn; [by intros ?%elem_of_nil|].
  rewrite elem_of_cons. intros He Hn. case_bool_decide as Hx.
  - destruct He as [-> | He]; [done|by apply IH].
  - cbn. rewrite elem_of_cons. destruct (decide (en_seq e = en_seq x)); [by left|right].
    destruct He as [-> | He]; [done|]. apply IH; [done|]. set_solver.
Qed.

#[export] Instance seq_leb_total : TotalPreorder seq_leb.
Proof. split; unfold seq_leb; intros *; rewrite !Z.leb_le; lia. Qed.

Definition seq_ordered (l : list envelope) : Prop := StronglySorted (λ a b, en_seq a < en_seq b) l.

Lemma sorted_strict l : NoDup (en_seq <$> l) → StronglySorted (λ a b, seq_leb a b = true) l → seq_ordered l.
Proof.
  intros Hnd Hs. induction Hs as [|x l Hs IH Hall]; [constructor|]. cbn in Hnd. apply NoDup_cons in Hnd as [Hx Hnd].
  constructor; [by apply IH|]. rewrite Forall_forall in *. intros y Hy. specialize (Hall y Hy). unfold seq_leb in Hall.
  apply Z.leb_le in Hall. assert (en_seq x ≠ en_seq y); [|lia]. intros E. apply Hx. rewrite E. by apply list_elem_of_fmap_2.
Qed.

Lemma seq_ordered_NoDup l : seq_ordered l → NoDup (en_seq <$> l).
Proof.
  induction 1 as [|x l Hs IH Hall]; cbn; [constructor|]. constructor; [|done].
  rewrite list_elem_of_fmap. intros (y & Hy & Hin). rewrite Forall_forall in Hall. specialize (Hall y Hin). lia.
Qed.

Lemma elem_of_new_events seen envs e :
  e ∈ new_events seen envs → e ∈ envs ∧ contains seen (en_seq e) = false.
Proof.
  unfold new_events. intros [He Hf]%list_elem_of_In%List.filter_In. apply list_elem_of_In in He.
  rewrite elem_of_py_sorted in He. apply first_by_seq_sub in He as [He _]. split; [done|]. by apply negb_true_iff.
Qed.

Lemma new_events_ordered seen envs : seq_ordered (new_events seen envs).
Proof.
  assert (Hnd : NoDup (en_seq <$> py_sorted seq_leb (first_by_seq [] envs))).
  { rewrite (py_sorted_Permutation seq_leb). apply first_by_seq_NoDup. }
  pose proof (sorted_strict _ Hnd (py_sorted_Sorted seq_leb _)) as Hs.
  eapply StronglySorted_sublist; [|exact Hs]. unfold new_events.
  generalize (py_sorted seq_leb (first_by_seq [] envs)). intros l. clear.
  induction l as [|x l IH]; [constructor|]. cbn. case_match; by constructor.
Qed.

Lemma new_events_covers seen envs e : e ∈ envs →
  contains seen (en_seq e) = true ∨ en_seq e ∈ en_seq <$> new_events seen envs.
Proof.
  intros He. destruct (contains seen (en_seq e)) eqn:Hc; [by left|right].
  assert (Hin : en_seq e ∈ en_seq <$> py_sorted seq_leb (first_by_seq [] envs)).
  { rewrite (py_sorted_Permutation seq_leb). apply first_by_seq_covers; [done|apply not_elem_of_nil]. }
  apply list_elem_of_fmap in Hin as (y & Hy & Hin). rewrite Hy. apply list_elem_of_fmap_2. unfold new_events.
  apply list_elem_of_In, List.filter_In. split; [by apply list_elem_of_In|]. by rewrite <- Hy, Hc.
Qed.

(** ** Admission *)

Section Admission.
Context (dump_event : TraceEvent → json) (existing : option TraceIndexRow) (envs : list envelope).
Abbreviation path := (path_of existing).
Abbreviation seen := (from_path (dict_get path PATH_SEQ_RANGES)).

Lemma sentinel_identity_seq e x : sentinel_identity dump_event e = Ok x → x.1.1 = en_seq e.
Proof. unfold sentinel_identity. intros (b & _ & [= <-])%rbind_Ok. done. Qed.

Lemma one_identity ends ids : rmap (sentinel_identity dump_event) ends = Ok ids →
  (length (remove_dups ids) <= 1)%nat → ∀ e e', e ∈ ends → e' ∈ ends → en_seq e = en_seq e'.
Proof.
  intros Hids%rmap_Ok Hlen e e' He He'.
  assert (Hone : ∀ x y, x ∈ ids → y ∈ ids → x = y).
  { intros x y Hx Hy. rewrite <- elem_of_remove_dups in Hx, Hy. destruct (remove_dups ids) as [|z [|z' l]]; [set_solver|set_solver|].
    cbn in Hlen. lia. }
  apply list_elem_of_lookup in He as [i Hi]. apply list_elem_of_lookup in He' as [j Hj].
  destruct (Forall2_lookup_l _ _ _ _ _ Hids Hi) as (x & Hx & Ex). destruct (Forall2_lookup_l _ _ _ _ _ Hids Hj) as (y & Hy & Ey).
  apply list_elem_of_lookup_2 in Hx, Hy. rewrite <- (sentinel_identity_seq _ _ Ex), <- (sentinel_identity_seq _ _ Ey).
  by rewrite (Hone x y).
Qed.

(** With a sentinel on record, only numbers below it pass, and its own redelivery. *)
Lemma admits_after_end allowed n : admits dump_event existing envs = Ok allowed →
  parse_seq (dict_get path PATH_END_SEQ) = Some n →
  ∀ e, allowed e = true → en_seq e <= n ∧ (is_end e = true → en_seq e = n).
Proof.
  unfold admits. intros H Hn. rewrite Hn in H. injection H as <-. intros e Ha. apply negb_true_iff, orb_false_iff in Ha as [Hle Hend].
  apply Z.ltb_ge in Hle. split; [done|]. intros He. rewrite He in Hend. cbn in Hend.
  apply orb_false_iff in Hend as [Hs _]. apply negb_false_iff in Hs. by apply Z.eqb_eq.
Qed.

(** Without one, an admitted sentinel closes the batch: nothing above it passes or was seen. *)
Lemma admits_end allowed e : admits dump_event existing envs = Ok allowed →
  parse_seq (dict_get path PATH_END_SEQ) = None → e ∈ envs → allowed e = true → is_end e = true →
  has_above seen (en_seq e) = false
  ∧ ∀ e', allowed e' = true → en_seq e' <= en_seq e ∧ (en_seq e' = en_seq e → is_end e' = true).
Proof.
  unfold admits. intros H Hn He Ha Hend. rewrite Hn in H. apply rbind_Ok in H as (ids & Hids & H).
  assert (Hin : e ∈ List.filter (is_type E_run_end) envs) by (apply list_elem_of_In, List.filter_In; by rewrite <- list_elem_of_In).
  destruct (Nat.ltb_spec 1 (length (remove_dups ids))); [injection H as <-; by rewrite Hend in Ha|].
  destruct (List.filter (is_type E_run_end) envs) as [|e0 ends] eqn:Eends; [by apply elem_of_nil in Hin|].
  assert (Hseq : en_seq e = en_seq e0) by (eapply one_identity; [done|lia|done|left]).
  destruct (has_above seen (en_seq e0)) eqn:Habove; injection H as <-; [by rewrite Hend in Ha|].
  rewrite Hseq. split; [done|]. intros e' Ha'. apply orb_true_iff in Ha' as [Hlt|Heq].
  - apply Z.ltb_lt in Hlt. split; lia.
  - apply andb_true_iff in Heq as [Heq ?]. apply Z.eqb_eq in Heq. split; [lia|done].
Qed.

End Admission.

(** ** The archive of a run *)

Definition first_seq (b : list envelope) : Z := match b with e :: _ => en_seq e | [] => 0 end.

(** The run's end event, if it was recorded. *)
Definition sentinel (l : list envelope) : option envelope := head (List.filter (is_type E_run_end) l).

Definition complete_upto (l : list envelope) (n : Z) : Prop := ∀ m, 0 <= m <= n → m ∈ en_seq <$> l.

(** The status an ended run deserves. *)
Definition ended_outcome (l : list envelope) (e : envelope) : TraceOutcomeStatus :=
  match end_status_of e with
  | Some s => if forallb (λ m, bool_decide (m ∈ en_seq <$> l)) (seqZ 0 (en_seq e + 1)) then outcome_of_status s else T_INCOMPLETE
  | None => T_INCOMPLETE
  end.

Lemma complete_upto_test l n :
  forallb (λ m, bool_decide (m ∈ en_seq <$> l)) (seqZ 0 (n + 1)) = true ↔ complete_upto l n.
Proof.
  rewrite forallb_forall. unfold complete_upto. split.
  - intros H m Hm. eapply bool_decide_eq_true_1, H, list_elem_of_In, elem_of_seqZ. lia.
  - intros H m Hm%list_elem_of_In%elem_of_seqZ. apply bool_decide_eq_true_2, H. lia.
Qed.

Lemma end_status_known e s : end_status_of e = Some s → s ∈ RUN_END_STATUSES.
Proof. unfold end_status_of, parse_end_status. repeat case_match; try done. case_bool_decide; by intros [= <-]. Qed.

Lemma outcome_of_known s : s ∈ RUN_END_STATUSES → is_terminal (outcome_of_status s) = true.
Proof. intros _. unfold outcome_of_status. by repeat case_bool_decide. Qed.

Lemma ended_outcome_terminal l e : is_terminal (ended_outcome l e) = true ↔
  is_Some (end_status_of e) ∧ complete_upto l (en_seq e).
Proof.
  unfold ended_outcome. destruct (end_status_of e) as [s|] eqn:E; [|split; [done|by intros [[] _]]].
  rewrite <- complete_upto_test. destruct (forallb _ _).
  - rewrite (outcome_of_known s) by (by eapply end_status_known). split; [by split|done].
  - split; [done|by intros [_ ?]].
Qed.

Lemma ended_outcome_not_pending l e : ended_outcome l e ≠ T_PENDING.
Proof. unfold ended_outcome, outcome_of_status. by repeat case_match. Qed.

Lemma sentinel_app l1 l2 : sentinel (l1 ++ l2) = match sentinel l1 with Some e => Some e | None => sentinel l2 end.
Proof. unfold sentinel. rewrite List.filter_app. by destruct (List.filter _ l1). Qed.

Lemma sentinel_Some l e : sentinel l = Some e → e ∈ l ∧ is_end e = true.
Proof.
  unfold sentinel. intros H. assert (Hin : e ∈ List.filter (is_type E_run_end) l).
  { destruct (List.filter _ l); [done|]. injection H as <-. left. }
  apply list_elem_of_In, List.filter_In in Hin as [? ?]. by rewrite list_elem_of_In.
Qed.

Lemma sentinel_None l e : sentinel l = None → e ∈ l → is_end e = false.
Proof.
  unfold sentinel. intros H He. destruct (is_end e) eqn:Hend; [|done].
  assert (Hin : e ∈ List.filter (is_type E_run_end) l) by (apply list_elem_of_In, List.filter_In; by rewrite <- list_elem_of_In).
  destruct (List.filter _ l); [by apply elem_of_nil in Hin|done].
Qed.

Section Runs.
Context {payload keys draws : Type} {KEYS : SubjectKeys payload keys draws} {STORE : TraceStore}.
Context (sha256 : list Z → list Z) (nfc_casefold : pystr → pystr).
Context (validate_business : list (pystr * json) → option (Z * TraceEvent)) (dump_event : TraceEvent → json).
Context (server_arm : run_key → option Arm) (max_attempts : Z).
(** The items workers ever claim, and the random draws the attempts on a run ever make; a draw is [unraced]
    when no other transaction wins the race to create a subject's key. *)
Context (claimed : QueueItem → Prop) (drawn : run_key → draws → Prop).
(** [Field(ge=0, le=MAX_TRACE_SEQ)] of the validated payload, and the configured attempts. *)
Hypothesis valid_seq : ∀ l seq ev, validate_business l = Some (seq, ev) → seq_bounded seq.
Hypothesis valid_attempts : 1 <= max_attempts <= MAX_QUEUE_ATTEMPTS.

Abbreviation parse := (parse_item sha256 nfc_casefold validate_business).

(** The subject keys and the objects: what it takes to open an archive. *)
Abbreviation vault := (keys * gmap pystr payload)%type.
Abbreviation db_t := (trace_db keys).

Definition batch_ref (k : run_key) (b : list envelope) : pystr := object_ref k.1 k.2 (first_seq b).

(** The columns of the path. *)
Record path_ok (k : run_key) (path : list (pystr * json)) (batches : list (list envelope)) : Prop := {
  po_seqs : ∀ n, mem (from_path (dict_get path PATH_SEQ_RANGES)) n ↔ n ∈ en_seq <$> concat batches;
  po_refs : match dict_get path PATH_PAYLOAD_REFS with Some (JArr l) => l | _ => [] end = (λ b, JStr (batch_ref k b)) <$> batches;
  po_end_seq : dict_get path PATH_END_SEQ = (λ e, JInt (en_seq e)) <$> sentinel (concat batches);
  po_ranges : batches ≠ [] → dict_get path PATH_SEQ_RANGES = Some (to_path (from_path (dict_get path PATH_SEQ_RANGES)));
  po_end_status : dict_get path PATH_END_STATUS = JStr <$> (sentinel (concat batches) ≫= end_status_of);
}.

(** The recorded events: distinct numbers, all the owner's, all from claimed items of the
    run, and at most one sentinel, above which nothing was recorded. *)
Record events_ok (k : run_key) (owner : RunOwner) (batches : list (list envelope)) : Prop := {
  eo_batch : ∀ b, b ∈ batches → b ≠ [] ∧ seq_ordered b;
  eo_nodup : NoDup (en_seq <$> concat batches);
  eo_source : ∀ e, e ∈ concat batches → env_owner e = owner ∧ ∃ i, claimed i ∧ parse i = Some e ∧ (qi_project_id i, qi_run_id i) = k;
  eo_end : ∀ e, sentinel (concat batches) = Some e →
    ∀ e', e' ∈ concat batches → en_seq e' <= en_seq e ∧ (is_end e' = true → e' = e);
}.

(** Each batch is one object, sealed from the sections of its events. *)
Definition objects_ok (k : run_key) (v : vault) (batches : list (list envelope)) : Prop :=
  ∀ b, b ∈ batches → ∃ c secs, v.2 !! batch_ref k b = Some c ∧ sealed_as (drawn k) v.1 k.1 k.2 c secs ∧ build_sections dump_event b = Ok secs.

Lemma objects_later k ks ks' objs batches : keys_later ks ks' → objects_ok k (ks, objs) batches → objects_ok k (ks', objs) batches.
Proof.
  intros Hl Ho b Hb. destruct (Ho b Hb) as (c & secs & Hc & Hop & Hs). exists c, secs. split_and!; [done| |done].
  by eapply sealed_later.
Qed.

Definition status_ok (l : list envelope) (s : TraceOutcomeStatus) : Prop :=
  match sentinel l with Some e => s = ended_outcome l e | None => s = T_PENDING ∨ s = T_INCOMPLETE end.

Record run_archive (v : vault) (k : run_key) (row : TraceIndexRow) (batches : list (list envelope)) : Prop := {
  ra_path : path_ok k (path_of (Some row)) batches;
  ra_events : events_ok k (mkOwner (ti_submitter_principal row) (ti_agent_type_id row)) batches;
  ra_objects : objects_ok k v batches;
  ra_status : status_ok (concat batches) (ti_outcome_status row);
  ra_ended : ti_ended_at row = (λ e, ev_ts (en_event e)) <$> sentinel (concat batches);
  ra_ref : ti_payload_ref row = batch_ref k <$> head batches;
  ra_versions : ti_envelope_versions row = [2];
  ra_some : batches ≠ [];
}.

Lemma path_ok_nil k : path_ok k [] [].
Proof. split; cbn; try done. intros n. split; [by intros ?%in_ranges_nil|by intros ?%elem_of_nil]. Qed.

Lemma events_ok_nil k owner : events_ok k owner [].
Proof. split; cbn; try done; [by intros b ?%elem_of_nil|constructor|by intros e ?%elem_of_nil]. Qed.

Lemma parse_env i e : parse i = Some e →
  seq_bounded (en_seq e) ∧ env_owner e = mkOwner (qi_source_principal_id i) (qi_source_agent_type_id i).
Proof.
  unfold parse_item. case_match; [|done]. destruct (validate_business _) as [[seq ev]|] eqn:Hv; [|done].
  apply valid_seq in Hv. intros He. by repeat case_match; simplify_eq.
Qed.

Lemma recorded_bounded k owner batches e : events_ok k owner batches → e ∈ concat batches → seq_bounded (en_seq e).
Proof. intros H He. destruct (eo_source _ _ _ H e He) as (_ & i & _ & Hi & _). by apply parse_env in Hi as [? _]. Qed.

Lemma path_end_seq k owner path batches : path_ok k path batches → events_ok k owner batches →
  parse_seq (dict_get path PATH_END_SEQ) = en_seq <$> sentinel (concat batches).
Proof.
  intros Hp He. rewrite (po_end_seq _ _ _ Hp). destruct (sentinel (concat batches)) as [e|] eqn:E; [|done].
  apply sentinel_Some in E as [E _]. destruct (recorded_bounded _ _ _ _ He E). cbn.
  by rewrite (proj2 (Z.leb_le 0 _)), (proj2 (Z.leb_le _ MAX_TRACE_SEQ)).
Qed.

Lemma path_end_status k path batches : path_ok k path batches →
  parse_end_status (dict_get path PATH_END_STATUS) = sentinel (concat batches) ≫= end_status_of.
Proof.
  intros Hp. rewrite (po_end_status _ _ _ Hp). destruct (sentinel (concat batches)) as [e|]; [|done]. cbn.
  destruct (end_status_of e) as [s|] eqn:E; [|done]. cbn. apply end_status_known in E. by rewrite bool_decide_eq_true_2.
Qed.

Lemma concat_snoc {A} (ls : list (list A)) l : concat (ls ++ [l]) = concat ls ++ l.
Proof. by rewrite concat_app, concat_cons, app_nil_r. Qed.

(** ** Recording a batch *)

Section Batch.
Context (k : run_key) (owner : RunOwner) (existing : option TraceIndexRow) (batches : list (list envelope)).
Abbreviation old_path := (path_of existing).
Abbreviation seen := (from_path (dict_get old_path PATH_SEQ_RANGES)).
Hypothesis Hpath : path_ok k old_path batches.
Hypothesis Hev : events_ok k owner batches.

(** The accepted events of the group, those admitted, and those new among them. *)
Context (accepted : list envelope) (allowed : envelope → bool).
Hypothesis Hsource : ∀ e, e ∈ accepted → env_owner e = owner ∧ ∃ i, claimed i ∧ parse i = Some e ∧ (qi_project_id i, qi_run_id i) = k.
Hypothesis Hadmits : admits dump_event existing accepted = Ok allowed.
Abbreviation admitted := (List.filter allowed accepted).
Abbreviation new_envs := (new_events seen admitted).

Lemma elem_of_admitted e : e ∈ admitted ↔ e ∈ accepted ∧ allowed e = true.
Proof. rewrite !list_elem_of_In. apply List.filter_In. Qed.

Lemma seen_spec n : contains seen n = true ↔ n ∈ en_seq <$> concat batches.
Proof. rewrite contains_spec by apply from_path_ok. apply (po_seqs _ _ _ Hpath). Qed.

Lemma elem_of_new e : e ∈ new_envs → e ∈ accepted ∧ allowed e = true ∧ en_seq e ∉ en_seq <$> concat batches.
Proof.
  intros [[He Ha]%elem_of_admitted Hc]%elem_of_new_events. split_and!; try done. by rewrite <- seen_spec, Hc.
Qed.

Lemma new_bounded : Forall seq_bounded (en_seq <$> new_envs).
Proof.
  apply Forall_fmap, Forall_forall. intros e (He & _)%elem_of_new. destruct (Hsource e He) as (_ & i & _ & Hi & _).
  by apply parse_env in Hi as [? _].
Qed.

(** A recorded sentinel excludes another one and everything above it. *)
Lemma sentinel_stays e : sentinel (concat batches) = Some e →
  ∀ e', e' ∈ new_envs → en_seq e' <= en_seq e ∧ is_end e' = false.
Proof.
  intros Hs e' (He & Ha & Hn)%elem_of_new.
  pose proof (path_end_seq _ _ _ _ Hpath Hev) as Hend. rewrite Hs in Hend. cbn in Hend.
  destruct (admits_after_end _ _ _ _ _ Hadmits Hend e' Ha) as [Hle Hsame]. split; [done|].
  destruct (is_end e') eqn:E; [|done]. exfalso. apply Hn. rewrite (Hsame eq_refl).
  apply list_elem_of_fmap_2. by apply sentinel_Some in Hs as [? _].
Qed.

(** A new sentinel is unique and on top. *)
Lemma sentinel_new e : sentinel (concat batches) = None → sentinel new_envs = Some e →
  (∀ e', e' ∈ concat batches → en_seq e' <= en_seq e)
  ∧ ∀ e', e' ∈ new_envs → en_seq e' <= en_seq e ∧ (is_end e' = true → e' = e).
Proof.
  intros Hs Hn. pose proof (path_end_seq _ _ _ _ Hpath Hev) as Hend. rewrite Hs in Hend. cbn in Hend.
  apply sentinel_Some in Hn as [Hin Hie]. pose proof (elem_of_new _ Hin) as (He & Ha & _).
  destruct (admits_end _ _ _ _ _ Hadmits Hend He Ha Hie) as [Habove Hmax]. split.
  - intros e' He'. destruct (decide (en_seq e < en_seq e')) as [Hlt|]; [|lia]. exfalso.
    assert (has_above seen (en_seq e) = true); [|congruence]. apply has_above_spec; [apply from_path_ok|].
    exists (en_seq e'). split; [|done]. apply (po_seqs _ _ _ Hpath). by apply list_elem_of_fmap_2.
  - intros e' He'. pose proof (elem_of_new _ He') as (_ & Ha' & _). destruct (Hmax e' Ha') as [Hle _]. split; [done|].
    intros Hie'. pose proof (elem_of_new _ He') as (Hacc' & _).
    destruct (admits_end _ _ _ _ _ Hadmits Hend Hacc' Ha' Hie') as [_ Hmax']. destruct (Hmax' e Ha) as [Hge _].
    assert (Heq : en_seq e' = en_seq e) by lia.
    pose proof (seq_ordered_NoDup _ (new_events_ordered seen admitted)) as Hnd.
    apply list_elem_of_lookup in He' as [i Hi]. apply list_elem_of_lookup in Hin as [j Hj].
    assert (i = j) as ->; [|congruence]. eapply NoDup_lookup; [exact Hnd|..]; rewrite list_lookup_fmap; [by rewrite Hi|].
    rewrite Hj. cbn. by rewrite Heq.
Qed.

Lemma events_ok_snoc : new_envs ≠ [] → events_ok k owner (batches ++ [new_envs]).
Proof.
  intros Hne. split.
  - intros b. rewrite elem_of_snoc. intros [?| ->]; [by eapply eo_batch|]. split; [done|apply new_events_ordered].
  - rewrite concat_snoc, fmap_app. apply NoDup_app. split_and!; [by eapply eo_nodup| |].
    + intros n Hn (e & -> & He)%list_elem_of_fmap. by apply elem_of_new in He as (_ & _ & []).
    + apply seq_ordered_NoDup, new_events_ordered.
  - intros e. rewrite concat_snoc, elem_of_app. intros [?|(He & _)%elem_of_new]; [by eapply eo_source|by apply Hsource].
  - intros e. rewrite concat_snoc, sentinel_app. destruct (sentinel (concat batches)) as [e0|] eqn:Hs; intros Hsent e';
      rewrite elem_of_app.
    + injection Hsent as <-. intros [?|He']; [by eapply eo_end|]. destruct (sentinel_stays _ Hs _ He') as [? Hf].
      split; [done|]. by rewrite Hf.
    + destruct (sentinel_new _ Hs Hsent) as [Hold Hnew]. intros [He'|He']; [|by apply Hnew].
      split; [by apply Hold|]. by rewrite (sentinel_None _ _ Hs He').
Qed.

(** The merged columns, before the sentinel is written. *)
Abbreviation merged := (extend seen (en_seq <$> new_envs)).

Lemma merged_spec n : mem merged n ↔ n ∈ en_seq <$> concat (batches ++ [new_envs]).
Proof.
  destruct (extend_spec seen (en_seq <$> new_envs) (from_path_ok _) new_bounded) as [_ ->].
  by rewrite (po_seqs _ _ _ Hpath), concat_snoc, fmap_app, elem_of_app.
Qed.

Abbreviation with_refs := (dict_set (dict_set old_path PATH_SEQ_RANGES (to_path merged)) PATH_PAYLOAD_REFS
  (JArr (match dict_get old_path PATH_PAYLOAD_REFS with Some (JArr l) => l | _ => [] end ++ [JStr (batch_ref k new_envs)]))).

Lemma merged_ok' : seqset_ok merged.
Proof. apply extend_spec; [apply from_path_ok|apply new_bounded]. Qed.

(** A path that has the merged columns, and the sentinel of the recorded events. *)
Lemma path_ok_snoc path' :
  dict_get path' PATH_SEQ_RANGES = Some (to_path merged) →
  dict_get path' PATH_PAYLOAD_REFS = dict_get with_refs PATH_PAYLOAD_REFS →
  dict_get path' PATH_END_SEQ = (λ e, JInt (en_seq e)) <$> sentinel (concat (batches ++ [new_envs])) →
  dict_get path' PATH_END_STATUS = JStr <$> (sentinel (concat (batches ++ [new_envs])) ≫= end_status_of) →
  path_ok k path' (batches ++ [new_envs]).
Proof.
  intros H1 H2 H3 H4. split; [| |done| |done].
  - intros n. rewrite H1, from_to_path by apply merged_ok'. apply merged_spec.
  - rewrite H2, dict_get_set, decide_True by done. by rewrite (po_refs _ _ _ Hpath), fmap_app.
  - intros _. by rewrite H1, from_to_path by apply merged_ok'.
Qed.

Lemma merged_complete n : 0 <= n →
  (count_upto merged n =? n + 1) = forallb (λ m, bool_decide (m ∈ en_seq <$> concat (batches ++ [new_envs]))) (seqZ 0 (n + 1)).
Proof.
  intros Hn. apply eq_bool_prop_intro. rewrite !Is_true_true, complete_upto_test, Z.eqb_eq.
  rewrite count_upto_complete by (apply merged_ok' || done). unfold complete_upto. by setoid_rewrite merged_spec.
Qed.

Lemma completeness_spec st ended path' :
  resolve_completeness old_path with_refs merged new_envs = (st, ended, path') →
  path_ok k path' (batches ++ [new_envs])
  ∧ st = match sentinel (concat (batches ++ [new_envs])) with
         | Some e => ended_outcome (concat (batches ++ [new_envs])) e
         | None => T_PENDING
         end
  ∧ ended = match sentinel (concat batches) with
            | Some _ => None
            | None => (λ e, ev_ts (en_event e)) <$> sentinel new_envs
            end.
Proof.
  assert (Hk : ∀ p q : pystr, p ≠ q → ∀ d (v : json), dict_get (dict_set d p v) q = dict_get d q)
    by (intros p q Hpq d v; by rewrite dict_get_set, decide_False).
  assert (H1 : dict_get with_refs PATH_SEQ_RANGES = Some (to_path merged)).
  { rewrite Hk by done. by rewrite dict_get_set, decide_True. }
  unfold resolve_completeness. rewrite (path_end_seq _ _ _ _ Hpath Hev), (path_end_status _ _ _ Hpath).
  rewrite concat_snoc, sentinel_app, <- concat_snoc. destruct (sentinel (concat batches)) as [e|] eqn:Hs; cbn [fmap option_fmap option_map].
  - assert (Hp : path_ok k with_refs (batches ++ [new_envs])).
    { apply path_ok_snoc; [done|done|..]; rewrite concat_snoc, sentinel_app, Hs.
      - rewrite !Hk by done. by rewrite (po_end_seq _ _ _ Hpath), Hs.
      - rewrite !Hk by done. by rewrite (po_end_status _ _ _ Hpath), Hs. }
    assert (Hn : 0 <= en_seq e).
    { apply sentinel_Some in Hs as [Hin _]. by destruct (recorded_bounded _ _ _ _ Hev Hin). }
    unfold ended_outcome. cbn [mbind option_bind]. rewrite <- (merged_complete _ Hn).
    destruct (end_status_of e); [destruct (count_upto merged _ =? _)|]; by intros [= <- <- <-].
  - destruct (List.filter (is_type E_run_end) new_envs) as [|e l] eqn:Hf; cbn iota beta.
    + assert (Hs' : sentinel new_envs = None) by (unfold sentinel; by rewrite Hf). rewrite Hs'.
      intros [= <- <- <-]. split_and!; [|done..].
      apply path_ok_snoc; [done|done|..]; rewrite concat_snoc, sentinel_app, Hs, Hs'; rewrite !Hk by done.
      * by rewrite (po_end_seq _ _ _ Hpath), Hs.
      * by rewrite (po_end_status _ _ _ Hpath), Hs.
    + assert (Hs' : sentinel new_envs = Some e) by (unfold sentinel; by rewrite Hf). rewrite Hs'.
      pose proof (sentinel_Some _ _ Hs') as [Hin _].
      assert (Hn : 0 <= en_seq e).
      { pose proof new_bounded as Hb. rewrite Forall_fmap, Forall_forall in Hb. by destruct (Hb e Hin). }
      unfold ended_outcome. rewrite <- (merged_complete _ Hn).
      assert (Hp : path_ok k (match end_status_of e with
                              | Some s => dict_set (dict_set with_refs PATH_END_SEQ (JInt (en_seq e))) PATH_END_STATUS (JStr s)
                              | None => dict_set with_refs PATH_END_SEQ (JInt (en_seq e)) end) (batches ++ [new_envs])).
      { apply path_ok_snoc; try rewrite concat_snoc, sentinel_app, Hs, Hs'; cbn [mbind option_bind fmap option_fmap option_map].
        - destruct (end_status_of e); rewrite !Hk by done; by rewrite dict_get_set, decide_True.
        - destruct (end_status_of e); rewrite !Hk by done; done.
        - destruct (end_status_of e); [rewrite Hk by done|]; by rewrite dict_get_set, decide_True.
        - destruct (end_status_of e); [by rewrite dict_get_set, decide_True|]. rewrite !Hk by done.
          by rewrite (po_end_status _ _ _ Hpath), Hs. }
      destruct (end_status_of e); [destruct (count_upto merged _ =? _)|]; by intros [= <- <- <-].
Qed.

End Batch.

(** ** The state of the ingest *)

(** The item's number is recorded in its run. *)
Definition item_recorded (db : db_t) (i : QueueItem) : Prop :=
  ∃ env row, parse i = Some env ∧ trace_index db !! (qi_project_id i, qi_run_id i) = Some row
    ∧ contains (from_path (dict_get (path_of (Some row)) PATH_SEQ_RANGES)) (en_seq env) = true.

Definition ended_run (db : db_t) (k : run_key) : Prop :=
  ∃ row, trace_index db !! k = Some row ∧ is_terminal (ti_outcome_status row) = true.

Record db_ok (objs : gmap pystr payload) (db : db_t) : Prop := {
  do_runs : ∀ k row, trace_index db !! k = Some row → ∃ batches, run_archive (subject_key db, objs) k row batches;
  do_jobs : ∀ k, is_Some (learning_job db !! k) ↔ ended_run db k;
}.

Record ingest_inv (w : tworld payload keys) : Prop := {
  ii_db : db_ok (tw_objects w) (tw_db w);
  ii_acked : ∀ i, (i, Ack) ∈ tw_settled w → claimed i ∧ item_recorded (tw_db w) i;
}.

(** What was recorded stays: rows keep their owner, and their numbers only grow. *)
Record row_extends (old new : TraceIndexRow) : Prop := {
  re_owner : mkOwner (ti_submitter_principal new) (ti_agent_type_id new)
             = mkOwner (ti_submitter_principal old) (ti_agent_type_id old);
  re_seqs : ∀ n, mem (from_path (dict_get (path_of (Some old)) PATH_SEQ_RANGES)) n →
                 mem (from_path (dict_get (path_of (Some new)) PATH_SEQ_RANGES)) n;
  re_final : is_terminal (ti_outcome_status old) = true → new = old;
}.

Definition db_extends (db db' : db_t) : Prop :=
  keys_later (subject_key db) (subject_key db') ∧ ∀ k row, trace_index db !! k = Some row → ∃ row', trace_index db' !! k = Some row' ∧ row_extends row row'.

Lemma row_extends_refl row : row_extends row row.
Proof. done. Qed.

Lemma db_extends_refl db : db_extends db db.
Proof. split; [done|]. intros k row Hr. exists row. split; [done|apply row_extends_refl]. Qed.

Lemma row_extends_trans a b c : row_extends a b → row_extends b c → row_extends a c.
Proof.
  intros [H1 H2 H3] [H4 H5 H6]. split; [congruence|auto|]. intros Ht. rewrite (H3 Ht) in *. by rewrite H6.
Qed.

Lemma db_extends_trans a b c : db_extends a b → db_extends b c → db_extends a c.
Proof.
  intros [Hk1 H1] [Hk2 H2]. split; [by etrans|]. intros k row Hr. destruct (H1 k row Hr) as (r1 & Hr1 & E1). destruct (H2 k r1 Hr1) as (r2 & Hr2 & E2).
  exists r2. split; [done|by eapply row_extends_trans].
Qed.

Lemma item_recorded_extends db db' i : db_extends db db' → item_recorded db i → item_recorded db' i.
Proof.
  intros [_ Hx] (env & row & He & Hr & Hc). destruct (Hx _ _ Hr) as (row' & Hr' & E). exists env, row'. split_and!; try done.
  rewrite contains_spec in * by apply from_path_ok. by apply E.
Qed.

Lemma first_seq_in k owner batches b : events_ok k owner batches → b ∈ batches → first_seq b ∈ en_seq <$> concat batches.
Proof.
  intros He Hb. destruct (eo_batch _ _ _ He b Hb) as [Hne _]. destruct b as [|e b]; [done|]. cbn.
  apply list_elem_of_fmap_2, elem_of_concat. exists (e :: b). split; [done|left].
Qed.

Lemma first_seq_nonneg k owner batches b : events_ok k owner batches → b ∈ batches → 0 <= first_seq b.
Proof.
  intros He Hb. destruct (proj1 (list_elem_of_fmap _ _ _) (first_seq_in _ _ _ _ He Hb)) as (e & -> & Hin).
  by destruct (recorded_bounded _ _ _ _ He Hin).
Qed.

(** Putting an object under a number the run has not recorded leaves every archive as it is. *)
Lemma archives_keep objs db k n c : db_ok objs db → 0 <= n →
  (∀ row batches, trace_index db !! k = Some row → run_archive (subject_key db, objs) k row batches → n ∉ en_seq <$> concat batches) →
  db_ok (<[object_ref k.1 k.2 n := c]> objs) db.
Proof.
  intros [Hruns Hjobs] Hn0 Hn. split; [|done]. intros k' row Hrow. destruct (Hruns k' row Hrow) as [batches Ha].
  exists batches. destruct Ha as [Hp He Ho Hs Hend Hsome]. split; try done. intros b Hb. destruct (Ho b Hb) as (c' & secs & Hc & Hd).
  exists c', secs. split; [|done]. cbn. rewrite lookup_insert_ne; [done|].
  intros (H1 & H2 & H3)%object_ref_inj; [|done|by eapply first_seq_nonneg].
  assert (k' = k) as -> by (destruct k, k'; cbn in *; congruence).
  apply (Hn row batches Hrow); [by split|]. rewrite H3. by eapply first_seq_in.
Qed.

(** What the writer knows of a run that is not closed: the row, if any, and its batches. *)
Definition run_so_far (v : vault) (k : run_key) (owner : RunOwner) (existing : option TraceIndexRow)
  (batches : list (list envelope)) : Prop :=
  match existing with
  | Some row => run_archive v k row batches ∧ owner = mkOwner (ti_submitter_principal row) (ti_agent_type_id row)
                ∧ is_terminal (ti_outcome_status row) = false
  | None => batches = []
  end.

Lemma so_far_path v k owner existing batches : run_so_far v k owner existing batches → path_ok k (path_of existing) batches.
Proof. destruct existing as [row|]; cbn; [by intros [[] _]|intros ->; apply path_ok_nil]. Qed.

Lemma so_far_events v k owner existing batches : run_so_far v k owner existing batches → events_ok k owner batches.
Proof. destruct existing as [row|]; cbn; [by intros [[] [-> _]]|intros ->; apply events_ok_nil]. Qed.

Definition merged_row (arm : option Arm) (existing : option TraceIndexRow) (up : TraceIndexUpsert) : TraceIndexRow :=
  match existing with Some old => merge_index arm old up | None => new_index arm up end.

Section Write.
Context (v : vault) (k : run_key) (owner : RunOwner) (existing : option TraceIndexRow)
  (batches : list (list envelope)) (new_envs : list envelope).
Hypothesis Hsofar : run_so_far v k owner existing batches.
Hypothesis Hnew : events_ok k owner (batches ++ [new_envs]).

Lemma sentinel_so_far e : sentinel (concat batches) = Some e → sentinel (concat (batches ++ [new_envs])) = Some e.
Proof. intros H. by rewrite concat_snoc, sentinel_app, H. Qed.

(** The row after the upsert. *)
Lemma merged_row_archive v' arm sig path started ended ref c secs :
  path_ok k path (batches ++ [new_envs]) →
  objects_ok k v' batches → v'.2 !! batch_ref k new_envs = Some c → sealed_as (drawn k) v'.1 k.1 k.2 c secs →
  build_sections dump_event new_envs = Ok secs → ref = batch_ref k new_envs →
  ended = match sentinel (concat batches) with
          | Some _ => None | None => (λ e, ev_ts (en_event e)) <$> sentinel new_envs end →
  let st := match sentinel (concat (batches ++ [new_envs])) with
            | Some e => ended_outcome (concat (batches ++ [new_envs])) e | None => T_PENDING end in
  let row := merged_row arm existing (mkUpsert (ro_agent_type_id owner) (ro_principal_id owner) sig path started ended ref st) in
  run_archive v' k row (batches ++ [new_envs])
  ∧ (∀ e, sentinel (concat (batches ++ [new_envs])) = Some e → ti_outcome_status row = st)
  ∧ (sentinel (concat (batches ++ [new_envs])) = None → is_terminal (ti_outcome_status row) = false).
Proof.
  intros Hp Ho Hc Hd Hsec Hrf Hended st row.
  assert (Hobj : objects_ok k v' (batches ++ [new_envs])).
  { intros b. rewrite elem_of_snoc. intros [?| ->]; [by apply Ho|]. by exists c, secs. }
  assert (Hstp : ∀ e, sentinel (concat (batches ++ [new_envs])) = Some e → st ≠ T_PENDING).
  { intros e He. unfold st. rewrite He. apply ended_outcome_not_pending. }
  destruct existing as [old|].
  - destruct Hsofar as (Harch & Hown & Hterm). destruct Harch as [_ _ _ Hst Hend Href Hvers Hsome].
    assert (Hrow : path_of (Some row) = path ∧ mkOwner (ti_submitter_principal row) (ti_agent_type_id row) = owner
                   ∧ ti_outcome_status row = (if bool_decide (st = T_PENDING) then ti_outcome_status old else st)
                   ∧ ti_ended_at row = coalesce ended (ti_ended_at old)
                   ∧ ti_payload_ref row = coalesce (ti_payload_ref old) (Some ref)
                   ∧ ti_envelope_versions row = py_sorted Z.leb (remove_dups (ti_envelope_versions old ++ [2]))).
    { unfold row, merged_row, merge_index. rewrite Hterm. done. }
    destruct Hrow as (Hpath & Howner & Hstatus & Hended' & Href' & Hvers').
    assert (Hnone : sentinel (concat (batches ++ [new_envs])) = None →
                    ti_outcome_status row = ti_outcome_status old ∧ sentinel (concat batches) = None).
    { intros Hn. split; [rewrite Hstatus; unfold st; by rewrite Hn|].
      destruct (sentinel (concat batches)) as [e|] eqn:E; [|done]. by rewrite (sentinel_so_far e E) in Hn. }
    split_and!.
    + split; [by rewrite Hpath|by rewrite Howner|done| | | | |].
      * unfold status_ok in *. destruct (sentinel (concat (batches ++ [new_envs]))) as [e|] eqn:E.
        -- rewrite Hstatus, bool_decide_eq_false_2 by (by eapply Hstp). done.
        -- destruct (Hnone eq_refl) as [-> Hn]. by rewrite Hn in Hst.
      * rewrite Hended', Hended, concat_snoc, sentinel_app, Hend. by destruct (sentinel (concat batches)), (sentinel new_envs).
      * rewrite Href', Href. by destruct batches.
      * by rewrite Hvers', Hvers.
      * by destruct batches.
    + intros e He. rewrite Hstatus, bool_decide_eq_false_2 by (by eapply Hstp). done.
    + intros Hn. destruct (Hnone Hn) as [-> _]. done.
  - assert (batches = []) as -> by exact Hsofar. unfold row, merged_row, new_index. cbn in *. split_and!; [split; cbn; try done|done|].
    + by destruct owner.
    + unfold status_ok, st. cbn. destruct (sentinel _); [done|by left].
    + rewrite Hended. by rewrite app_nil_r.
    + by rewrite Hrf.
    + unfold st. by intros ->.
Qed.

End Write.

(** Replacing the row of a run that was not closed, with the job it then needs. *)
Lemma db_ok_upsert objs db k row job :
  db_ok objs db → (∀ old, trace_index db !! k = Some old → is_terminal (ti_outcome_status old) = false) →
  (∃ batches, run_archive (subject_key db, objs) k row batches) →
  learning_job db !! k = None →
  (if is_terminal (ti_outcome_status row) then is_Some job else job = None) →
  db_ok objs (mkDb (<[k := row]> (trace_index db)) (partial_alter (λ _, job) k (learning_job db)) (subject_key db)).
Proof.
  intros [Hruns Hjobs] Hopen Harch Hnj Hjob. split; cbn.
  - intros k' row'. rewrite lookup_insert. case_decide as E; [subst; by intros [= <-]|apply Hruns].
  - intros k'. unfold ended_run. cbn. destruct (decide (k = k')) as [<-|Hne].
    + rewrite lookup_partial_alter_eq, lookup_insert_eq. split.
      * intros [j Hj]. exists row. split; [done|]. destruct (is_terminal _); [done|congruence].
      * intros (row' & [= <-] & Ht). by rewrite Ht in Hjob.
    + rewrite lookup_partial_alter_ne, lookup_insert_ne by done. apply Hjobs.
Qed.

Lemma so_far_open objs db k owner existing batches : db_ok objs db → existing = trace_index db !! k →
  run_so_far (subject_key db, objs) k owner existing batches →
  learning_job db !! k = None ∧ ∀ old, trace_index db !! k = Some old → is_terminal (ti_outcome_status old) = false.
Proof.
  intros Hdb He Hs. assert (Hopen : ∀ old, trace_index db !! k = Some old → is_terminal (ti_outcome_status old) = false).
  { intros old Hold. rewrite Hold in He. subst existing. by destruct Hs as (_ & _ & ?). }
  split; [|done]. destruct (learning_job db !! k) as [j|] eqn:Hj; [|done].
  destruct (proj1 (do_jobs _ _ Hdb k)) as (row & Hrow & Ht); [by exists j|]. by rewrite (Hopen row Hrow) in Ht.
Qed.

(** The same archive, found from the row again, has the same numbers. *)
Lemma archive_numbers v v' k row b1 b2 : run_archive v k row b1 → run_archive v' k row b2 →
  ∀ n, n ∈ en_seq <$> concat b1 ↔ n ∈ en_seq <$> concat b2.
Proof. intros [H1 _] [H2 _] n. by rewrite <- (po_seqs _ _ _ H1), <- (po_seqs _ _ _ H2). Qed.

Lemma upsert_merged arm k up (db : db_t) : upsert_trace_index arm k up db
  = mkDb (<[k := merged_row arm (trace_index db !! k) up]> (trace_index db)) (learning_job db) (subject_key db).
Proof. done. Qed.

Lemma schedule_new k (db : db_t) row ended : trace_index db !! k = Some row → is_terminal (ti_outcome_status row) = true →
  ti_ended_at row = Some ended → learning_job db !! k = None →
  schedule_trace_learning_job k max_attempts db
  = Ok (true, mkDb (trace_index db) (<[k := mkJob ended max_attempts]> (learning_job db)) (subject_key db)).
Proof.
  intros Hr Ht He Hj. unfold schedule_trace_learning_job. rewrite Hr, Hj, Ht, He.
  by rewrite (proj2 (Z.leb_le 1 _)), (proj2 (Z.leb_le _ MAX_QUEUE_ATTEMPTS)) by apply valid_attempts.
Qed.

Lemma db_ok_later objs db ks : db_ok objs db → keys_later (subject_key db) ks → db_ok objs (set_keys ks db).
Proof.
  intros [Hruns Hjobs] Hl. split; [|done]. intros k row Hrow. destruct (Hruns k row Hrow) as [batches []]. exists batches.
  split; try done. by eapply objects_later.
Qed.

Section WriteBatch.
Context (objs : gmap pystr payload) (db : db_t) (k : run_key) (owner : RunOwner) (batches : list (list envelope)).
Abbreviation existing := (trace_index db !! k).
Hypothesis Hdb : db_ok objs db.
Hypothesis Hsofar : run_so_far (subject_key db, objs) k owner existing batches.
Context (accepted : list envelope) (allowed : envelope → bool) (a : attempt draws).
Hypothesis Hsource : ∀ e, e ∈ accepted → env_owner e = owner ∧ ∃ i, claimed i ∧ parse i = Some e ∧ (qi_project_id i, qi_run_id i) = k.
Hypothesis Hadmits : admits dump_event existing accepted = Ok allowed.
Abbreviation admitted := (List.filter allowed accepted).
Abbreviation seen := (from_path (dict_get (path_of existing) PATH_SEQ_RANGES)).
Abbreviation new_envs := (new_events seen admitted).

(** Every admitted event is recorded, by this batch or before it. *)
Lemma admitted_recorded db' row e i : e ∈ admitted → parse i = Some e → (qi_project_id i, qi_run_id i) = k →
  trace_index db' !! k = Some row → (∃ v b, run_archive v k row b ∧ ∀ n, n ∈ en_seq <$> concat batches ++ new_envs → n ∈ en_seq <$> concat b) →
  item_recorded db' i.
Proof.
  intros He Hi Hk Hrow (v & b & Harch & Hb). exists e, row. rewrite Hk. split_and!; try done.
  apply contains_spec; [apply from_path_ok|]. apply (po_seqs _ _ _ (ra_path _ _ _ _ Harch)), Hb. rewrite fmap_app, elem_of_app.
  destruct (new_events_covers seen admitted e He) as [Hc|Hn]; [left|by right].
  by apply (seen_spec k (trace_index db !! k) batches (so_far_path _ _ _ _ _ Hsofar)).
Qed.

Abbreviation writes r objs' := (write_batch sha256 nfc_casefold dump_event server_arm max_attempts k owner existing admitted a objs db = (r, objs')).

(** The recorded row. *)
Lemma write_row_ok objs1 ks c secs sig started path st ended :
  new_envs ≠ [] → db_ok objs1 db → keys_later (subject_key db) ks → objs1 !! batch_ref k new_envs = Some c →
  sealed_as (drawn k) ks k.1 k.2 c secs →
  build_sections dump_event new_envs = Ok secs →
  (∀ b, b ∈ batches → objs1 !! batch_ref k b = objs !! batch_ref k b) →
  resolve_completeness (path_of existing)
    (dict_set (dict_set (path_of existing) PATH_SEQ_RANGES (to_path (extend seen (en_seq <$> new_envs)))) PATH_PAYLOAD_REFS
       (JArr (match dict_get (path_of existing) PATH_PAYLOAD_REFS with Some (JArr l) => l | _ => [] end
              ++ [JStr (batch_ref k new_envs)])))
    (extend seen (en_seq <$> new_envs)) new_envs = (st, ended, path) →
  let up := mkUpsert (ro_agent_type_id owner) (ro_principal_id owner) sig path started ended (batch_ref k new_envs) st in
  let db1 := upsert_trace_index (server_arm k) k up (set_keys ks db) in
  let r := if is_terminal st then let! s := schedule_trace_learning_job k max_attempts db1 in Ok s.2 else Ok db1 in
  ∃ db', r = Ok db' ∧ db_ok objs1 db' ∧ db_extends db db'
    ∧ ∀ e i, e ∈ admitted → parse i = Some e → (qi_project_id i, qi_run_id i) = k → item_recorded db' i.
Proof.
  intros Hne Hdb1 Hlater Hc Hd Hsec Hsame Hres up db1 r. apply (db_ok_later _ _ ks) in Hdb1; [|done].
  pose proof (so_far_path _ _ _ _ _ Hsofar) as Hp. pose proof (so_far_events _ _ _ _ _ Hsofar) as He.
  destruct (completeness_spec _ _ _ _ Hp He _ _ Hsource _ _ _ Hres) as (Hpath & Hst & Hended).
  pose proof (events_ok_snoc _ _ _ _ Hp He _ _ Hsource Hadmits Hne) as Hnew.
  destruct (so_far_open _ _ _ _ _ _ Hdb eq_refl Hsofar) as [Hnj Hopen].
  assert (Hobj : objects_ok k (ks, objs1) batches).
  { destruct existing as [row|]; cbn in Hsofar; [|subst batches; by intros b ?%elem_of_nil].
    destruct Hsofar as ([_ _ Ho _ _ _ _ _] & _). apply (objects_later _ _ ks _ _ Hlater) in Ho.
    intros b Hb. cbn. rewrite Hsame by done. by apply Ho. }
  destruct (merged_row_archive _ k owner existing batches new_envs Hsofar Hnew (ks, objs1) (server_arm k) sig path started ended
              (batch_ref k new_envs) c secs Hpath Hobj Hc Hd Hsec eq_refl Hended) as (Harch & Hstatus & Hnone).
  rewrite <- Hst in Harch, Hstatus, Hnone. fold up in Harch, Hstatus, Hnone.
  set (row := merged_row (server_arm k) existing up) in *.
  assert (Hdb' : db1 = mkDb (<[k := row]> (trace_index db)) (learning_job db) ks) by done.
  assert (Hterm : is_terminal (ti_outcome_status row) = is_terminal st).
  { destruct (sentinel (concat (batches ++ [new_envs]))) as [e|] eqn:E; [by rewrite (Hstatus e)|].
    rewrite Hnone by done. by rewrite Hst. }
  assert (Hfin : ∀ db', trace_index db' = <[k := row]> (trace_index db) → subject_key db' = ks → db_ok objs1 db' → db_ok objs1 db' ∧ db_extends db db'
    ∧ ∀ e i, e ∈ admitted → parse i = Some e → (qi_project_id i, qi_run_id i) = k → item_recorded db' i).
  { intros db' Hidx Hks Hok. split_and!; [done|..].
    - split; [by rewrite Hks|]. intros k' old Hold. rewrite Hidx. destruct (decide (k = k')) as [<-|]; [|rewrite lookup_insert_ne by done; exists old; split; [done|apply row_extends_refl]].
      rewrite lookup_insert_eq. exists row. split; [done|]. rewrite Hold in Hsofar. destruct Hsofar as (Hold_arch & Hown & Hot). split.
      + unfold row, merged_row, merge_index. rewrite Hold, Hot. done.
      + intros n Hn. apply (po_seqs _ _ _ (ra_path _ _ _ _ Harch)). rewrite concat_snoc, fmap_app, elem_of_app. left.
        by apply (po_seqs _ _ _ (ra_path _ _ _ _ Hold_arch)).
      + by rewrite Hot.
    - intros e i Hin Hi Hk. eapply (admitted_recorded db' row e i); try done; [by rewrite Hidx, lookup_insert_eq|].
      exists (ks, objs1), (batches ++ [new_envs]). split; [done|]. by rewrite concat_snoc. }
  unfold r. destruct (is_terminal st) eqn:Et.
  - assert (Hend : ∃ t, ti_ended_at row = Some t).
    { rewrite (ra_ended _ _ _ _ Harch). destruct (sentinel _) as [e|] eqn:E; [by eexists|]. by rewrite Hst in Et. }
    destruct Hend as [t Hend]. rewrite (schedule_new k db1 row t); [|by rewrite Hdb'; cbn; rewrite lookup_insert_eq|done|done|done].
    eexists. split; [done|]. apply Hfin; [done..|]. rewrite Hdb'. cbn [trace_index learning_job subject_key].
    apply (db_ok_upsert objs1 (set_keys ks db) k row (Some (mkJob t max_attempts))); try done; [by eexists|by rewrite Hterm].
  - exists db1. split; [done|]. apply Hfin; [done..|]. rewrite Hdb'.
    replace (learning_job db) with (partial_alter (λ _, None) k (learning_job db)).
    + apply (db_ok_upsert objs1 (set_keys ks db) k row None); try done; [by eexists|by rewrite Hterm].
    + apply map_eq. intros k'. destruct (decide (k = k')) as [<-|]; [by rewrite lookup_partial_alter_eq|by rewrite lookup_partial_alter_ne].
Qed.

(** The object of a new batch does not disturb the archives. *)
Lemma new_object_ok first l c : new_envs = first :: l → db_ok (<[object_ref k.1 k.2 (en_seq first) := c]> objs) db
  ∧ ∀ b, b ∈ batches → <[object_ref k.1 k.2 (en_seq first) := c]> objs !! batch_ref k b = objs !! batch_ref k b.
Proof.
  intros Enew. assert (Hfirst : en_seq first ∉ en_seq <$> concat batches).
  { eapply elem_of_new; [exact (so_far_path _ _ _ _ _ Hsofar)|]. rewrite Enew. left. }
  assert (Hpos : 0 <= en_seq first).
  { assert (Hin : first ∈ new_envs) by (rewrite Enew; left). apply elem_of_new_events in Hin as [[Hin _]%elem_of_admitted _].
    destruct (Hsource first Hin) as (_ & i & _ & Hi & _). by apply parse_env in Hi as [[? _] _]. }
  split.
  - apply archives_keep; [done..|]. intros row b Hrow Hb. rewrite Hrow in Hsofar. destruct Hsofar as (Hb' & _).
    by rewrite (archive_numbers _ _ _ _ _ _ Hb Hb').
  - intros b Hb. pose proof (so_far_events _ _ _ _ _ Hsofar) as He. apply lookup_insert_ne.
    intros (_ & _ & H)%object_ref_inj; [|done|by eapply first_seq_nonneg]. apply Hfirst. rewrite H. by eapply first_seq_in.
Qed.

Lemma write_batch_spec r objs' : drawn k (at_draws a) → writes r objs' →
  db_ok objs' db ∧ ∀ n db', r = Ok (n, db') → db_ok objs' db' ∧ db_extends db db'
    ∧ ∀ e i, e ∈ admitted → parse i = Some e → (qi_project_id i, qi_run_id i) = k → item_recorded db' i.
Proof.
  intros Hdrawn. unfold write_batch. destruct new_envs as [|first l] eqn:Enew.
  { intros [= <- <-]. split; [done|]. intros n db' [= <- <-]. split_and!; [done|apply db_extends_refl|].
    intros e i He Hi Hk. destruct (new_events_covers seen admitted e He) as [Hc|Hn]; [|rewrite Enew in Hn; by apply elem_of_nil in Hn].
    destruct (trace_index db !! k) as [row|] eqn:E; [|done]. exists e, row. by rewrite Hk, E. }
  rewrite <- Enew. destruct (rbind _ _) as [[c ks]|e] eqn:Henc; [|intros [= <- <-]; by split].
  destruct (at_put_fails a); [intros [= <- <-]; by split|].
  apply rbind_Ok in Henc as (secs & Hsec & Henc). pose proof (encrypt_later _ _ _ _ _ _ _ Henc) as Hlater.
  apply (encrypt_sealed (drawn k)) in Henc; [|done].
  destruct (new_object_ok first l c Enew) as [Hdb1 Hsame].
  assert (Hfs : object_ref k.1 k.2 (en_seq first) = batch_ref k new_envs) by (unfold batch_ref; by rewrite Enew).
  rewrite Hfs in *. intros Heq. split; [by injection Heq as _ <-|]. intros n db' ->. injection Heq as Hr <-.
  apply rbind_Ok in Hr as ([sig started] & _ & Hr).
  destruct (resolve_completeness _ _ _ _) as [[st ended] path] eqn:Hres.
  destruct (at_statement_fails a); cbn [negb] in Hr; [done|].
  edestruct (write_row_ok (<[batch_ref k new_envs := c]> objs) ks c secs sig started path st ended) as (db2 & Hr2 & Hdone);
    [by rewrite Enew|done|done|by rewrite lookup_insert_eq|done|done|done|exact Hres|].
  replace db' with db2; [done|].
  assert (Hopen : match existing with Some row => is_terminal (ti_outcome_status row) | None => false end = false).
  { destruct (trace_index db !! k) as [row|]; [|done]. by destruct Hsofar as (_ & _ & ?). }
  rewrite Hopen, andb_true_r in Hr. destruct (is_terminal st).
  - apply rbind_Ok in Hr as (s2 & Hs2 & Hr). rewrite Hs2 in Hr2. cbn in Hr2. congruence.
  - congruence.
Qed.

(** Without faults the batch is written. *)
Lemma write_batch_clean : drawn k (at_draws a) → at_put_fails a = false → at_statement_fails a = false →
  (new_envs ≠ [] → is_ok (let! secs := build_sections dump_event new_envs in encrypt_v2 (at_draws a) k.1 k.2 secs (subject_key db)) = true) →
  is_ok (identity_columns sha256 nfc_casefold owner existing new_envs) = true →
  ∃ n db' objs', writes (Ok (n, db')) objs'.
Proof.
  intros Hdrawn Hput Hstm Henc Hid. unfold write_batch. destruct new_envs as [|first l] eqn:Enew; [by eexists _, _, _|].
  rewrite <- Enew in *. specialize (Henc ltac:(by rewrite Enew)).
  destruct (rbind _ _) as [[c ks]|e] eqn:Ec; [|done]. rewrite Hput.
  apply rbind_Ok in Ec as (secs & Hsec & Ec). pose proof (encrypt_later _ _ _ _ _ _ _ Ec) as Hlater.
  apply (encrypt_sealed (drawn k)) in Ec; [|done].
  destruct (new_object_ok first l c Enew) as [Hdb1 Hsame].
  assert (Hfs : object_ref k.1 k.2 (en_seq first) = batch_ref k new_envs) by (unfold batch_ref; by rewrite Enew).
  rewrite Hfs in *. destruct (identity_columns _ _ _ _ _) as [[sig started]|e]; [|done]. cbn [rbind].
  destruct (resolve_completeness _ _ _ _) as [[st ended] path] eqn:Hres. rewrite Hstm. cbn [negb].
  edestruct (write_row_ok (<[batch_ref k new_envs := c]> objs) ks c secs sig started path st ended) as (db2 & Hr2 & _);
    [by rewrite Enew|done|done|by rewrite lookup_insert_eq|done|done|done|exact Hres|].
  assert (Hopen : match existing with Some row => is_terminal (ti_outcome_status row) | None => false end = false).
  { destruct (trace_index db !! k) as [row|]; [|done]. by destruct Hsofar as (_ & _ & ?). }
  rewrite Hopen, andb_true_r. destruct (is_terminal st); [|by eexists _, _, _].
  apply rbind_Ok in Hr2 as (s2 & -> & _). by eexists _, _, _.
Qed.

End WriteBatch.

(** ** One group *)

(** The pairs of a group: claimed items of the run with their parsed events. *)
Definition group_ok (k : run_key) (pairs : list pair) : Prop :=
  Forall (λ p, claimed p.2 ∧ parse p.2 = Some p.1 ∧ (qi_project_id p.2, qi_run_id p.2) = k) pairs.

Lemma fst_filter {A B} (f : A → bool) (l : list (A * B)) : (List.filter (λ p, f p.1) l).*1 = List.filter f l.*1.
Proof. induction l as [|[a b] l IH]; [done|]. cbn. by destruct (f a); cbn; rewrite IH. Qed.

Lemma acks_of t i : (i, Ack) ∈ settlements t → ∃ e, (e, i) ∈ tr_accepted t ++ tr_replayed t.
Proof.
  unfold settlements. rewrite !elem_of_app, !list_elem_of_fmap.
  intros [([e i'] & [= <-] & H)|[([e i'] & [= <-] & H)|[(? & [=] & _)|(? & [=] & _)]]];
    exists e; rewrite elem_of_app; auto.
Qed.

(** A transaction that acknowledges nothing and leaves the database as it is. *)
Definition acks_recorded (t : triage) (db : db_t) : Prop := ∀ i, (i, Ack) ∈ settlements t → claimed i ∧ item_recorded db i.

Lemma no_acks t db : tr_accepted t = [] → tr_replayed t = [] → acks_recorded t db.
Proof. intros H1 H2 i (e & He)%acks_of. rewrite H1, H2 in He. by apply elem_of_nil in He. Qed.

Definition body_done (objs' : gmap pystr payload) (db : db_t) (r : result exn (triage * Z * db_t)) : Prop :=
  db_ok objs' db ∧ ∀ t n db', r = Ok (t, n, db') → db_ok objs' db' ∧ db_extends db db' ∧ acks_recorded t db'.

Lemma body_unchanged objs (db : db_t) t n : db_ok objs db → acks_recorded t db → body_done objs db (Ok (t, n, db)).
Proof. intros Hdb Ht. split; [done|]. intros t' n' db' [= <- <- <-]. split_and!; [done|apply db_extends_refl|done]. Qed.

Lemma body_failed objs db e : db_ok objs db → body_done objs db (Err e).
Proof. by split. Qed.

Section Group.
Context (k : run_key) (pairs : list pair) (objs : gmap pystr payload) (db : db_t) (owner : RunOwner).
Hypothesis Hdb : db_ok objs db.
Hypothesis Hg : group_ok k pairs.
Abbreviation existing := (trace_index db !! k).
Hypothesis Hown : ∀ row, existing = Some row → owner = mkOwner (ti_submitter_principal row) (ti_agent_type_id row).
Abbreviation mine := (λ p : pair, bool_decide (env_owner p.1 = owner) && bool_decide (item_owner p.2 = owner)).
Abbreviation accepted := (List.filter mine pairs).

Lemma elem_of_accepted e i : (e, i) ∈ accepted → env_owner e = owner ∧ claimed i ∧ parse i = Some e ∧ (qi_project_id i, qi_run_id i) = k.
Proof.
  intros [Hin Hm]%list_elem_of_In%List.filter_In. apply list_elem_of_In in Hin. unfold group_ok in Hg. rewrite Forall_forall in Hg.
  destruct (Hg _ Hin) as (? & ? & ?). bsplit. split_and!; try done. by eapply bool_decide_eq_true_1.
Qed.

Lemma accepted_source e : e ∈ accepted.*1 → env_owner e = owner ∧ ∃ i, claimed i ∧ parse i = Some e ∧ (qi_project_id i, qi_run_id i) = k.
Proof. intros ([e' i] & -> & (? & ? & ? & ?)%elem_of_accepted)%list_elem_of_fmap. split; [done|by exists i]. Qed.

(** The run is closed: what it has seen is acknowledged again. *)
Lemma group_closed refused : is_Some existing →
  body_done objs db
    (Ok (mkTriage [] (List.filter (λ p, contains (from_path (dict_get (path_of existing) PATH_SEQ_RANGES)) (en_seq p.1)) accepted)
           (List.filter (λ p, negb (contains (from_path (dict_get (path_of existing) PATH_SEQ_RANGES)) (en_seq p.1))) accepted)
           refused, 0, db)).
Proof.
  intros [row Hrow]. apply body_unchanged; [done|]. intros i (e & He)%acks_of. cbn [tr_accepted tr_replayed app] in He.
  apply list_elem_of_In, List.filter_In in He as [He Hc]. apply list_elem_of_In in He.
  apply elem_of_accepted in He as (_ & ? & ? & Hk). split; [done|]. exists e, row. rewrite Hk. rewrite Hrow in Hc. done.
Qed.

Lemma group_writes allowed (a : attempt draws) refused r objs' : drawn k (at_draws a) →
  (∀ row, existing = Some row → is_terminal (ti_outcome_status row) = false) →
  admits dump_event existing accepted.*1 = Ok allowed →
  write_batch sha256 nfc_casefold dump_event server_arm max_attempts k owner existing
    (List.filter (λ p, allowed p.1) accepted).*1 a objs db = (r, objs') →
  body_done objs' db
    (let! n := r in Ok (mkTriage (List.filter (λ p, allowed p.1) accepted) []
                         (List.filter (λ p, negb (allowed p.1)) accepted) refused, n.1, n.2)).
Proof.
  intros Hdrawn Hopen Hadm Hw. rewrite fst_filter in Hw.
  assert (Hsofar : ∃ batches, run_so_far (subject_key db, objs) k owner existing batches).
  { destruct (trace_index db !! k) as [row|] eqn:E; [|by exists []]. destruct (do_runs _ _ Hdb k row E) as [batches Hb].
    exists batches. split_and!; [done|by apply Hown|by apply Hopen]. }
  destruct Hsofar as [batches Hsofar].
  destruct (write_batch_spec objs db k owner batches Hdb Hsofar _ _ a accepted_source Hadm r objs' Hdrawn Hw) as [Hok Hres].
  split; [done|]. intros t n db' Ht. apply rbind_Ok in Ht as ([m db1] & -> & [= <- <- <-]).
  destruct (Hres m db1 eq_refl) as (? & ? & Hrec). split_and!; [done..|].
  intros i (e & He)%acks_of. cbn [tr_accepted tr_replayed] in He. rewrite app_nil_r in He.
  pose proof He as [Hin Ha]%list_elem_of_In%List.filter_In. apply list_elem_of_In in Hin.
  pose proof (elem_of_accepted _ _ Hin) as (_ & ? & ? & ?). split; [done|]. apply (Hrec e i); [|done..].
  rewrite <- fst_filter. apply (list_elem_of_fmap_2 fst (List.filter (λ p, allowed p.1) accepted) (e, i)). done.
Qed.

End Group.

Lemma group_body_spec k pairs (a : attempt draws) objs db r objs' : db_ok objs db → group_ok k pairs → drawn k (at_draws a) →
  group_body sha256 nfc_casefold dump_event server_arm max_attempts k pairs a objs db = (r, objs') → body_done objs' db r.
Proof.
  intros Hdb Hg Hdrawn. unfold group_body. destruct pairs as [|[e0 item0] pairs0] eqn:Epairs; [intros [= <- <-]; by apply body_failed|].
  rewrite <- Epairs in *. clear Epairs. unfold group_tx.
  destruct (forallb _ pairs); cbn [negb]; [|intros [= <- <-]; by apply body_failed].
  case_bool_decide; cbn [negb]; [|intros [= <- <-]; by apply body_failed].
  destruct (resolve_owner _ _) as [owner0|e] eqn:Hown; [|intros [= <- <-]; by apply body_failed].
  destruct (bool_decide (is_Some (trace_index db !! k)) && negb (bool_decide (owner0 = item_owner item0))) eqn:Hconf.
  { intros [= <- <-]. apply body_unchanged; [done|by apply no_acks]. }
  set (owner := item_owner item0) in *.
  assert (Howner : ∀ row, trace_index db !! k = Some row → owner = mkOwner (ti_submitter_principal row) (ti_agent_type_id row)).
  { intros row Hrow. rewrite Hrow in Hown, Hconf. cbn in Hown. injection Hown as <-.
    rewrite bool_decide_eq_true_2 in Hconf by (by eexists). cbn in Hconf. apply negb_false_iff, bool_decide_eq_true_1 in Hconf. done. }
  destruct (match trace_index db !! k with Some row => is_terminal (ti_outcome_status row) | None => false end) eqn:Hterm.
  { intros [= <- <-]. eapply group_closed; try done. by destruct (trace_index db !! k); [eexists|]. }
  destruct (List.filter _ pairs) as [|p0 acc] eqn:Eacc.
  { intros [= <- <-]. apply body_unchanged; [done|by apply no_acks]. }
  rewrite <- Eacc. destruct (admits _ _ _) as [allowed|e] eqn:Hadm; [|intros [= <- <-]; by apply body_failed].
  destruct (write_batch _ _ _ _ _ _ _ _ _ _ _ _) as [r' objs1] eqn:Hw. intros [= <- <-].
  eapply group_writes; try done. intros row Hrow. by rewrite Hrow in Hterm.
Qed.

(** ** Steps *)

Abbreviation process := (process_group sha256 nfc_casefold dump_event server_arm max_attempts).

(** Workers on any number of hosts and the sweeper, one transaction at a time. *)
Inductive ingest_step (w : tworld payload keys) : tworld payload keys → Prop :=
| step_group k pairs a : group_ok k pairs → drawn k (at_draws a) → ingest_step w (process k pairs a w).2
| step_refuse log : Forall (λ x, x.2 ≠ Ack) log → ingest_step w (mkTWorld (tw_db w) (tw_objects w) (tw_settled w ++ log))
| step_mark k : ingest_step w (mkTWorld (mark_run_incomplete k (tw_db w)) (tw_objects w) (tw_settled w)).

Lemma mark_extends k db : db_extends db (mark_run_incomplete k db).
Proof.
  unfold mark_run_incomplete. destruct (trace_index db !! k) as [row|] eqn:E; [|apply db_extends_refl].
  case_bool_decide as Hp; [|apply db_extends_refl]. split; [done|]. intros k' row' Hr'. cbn. rewrite lookup_insert. case_decide as Hk.
  - subst k'. rewrite E in Hr'. injection Hr' as <-. eexists. split; [done|]. split; [done|done|]. by rewrite Hp.
  - exists row'. split; [done|apply row_extends_refl].
Qed.

Lemma mark_ok objs k db : db_ok objs db → db_ok objs (mark_run_incomplete k db).
Proof.
  intros Hdb. unfold mark_run_incomplete. destruct (trace_index db !! k) as [row|] eqn:E; [|done].
  case_bool_decide as Hp; [|done].
  assert (Hnj : learning_job db !! k = None).
  { destruct (learning_job db !! k) as [j|] eqn:Ej; [|done]. destruct (proj1 (do_jobs _ _ Hdb k)) as (row' & Hr & Ht); [by exists j|].
    rewrite E in Hr. injection Hr as <-. by rewrite Hp in Ht. }
  replace (learning_job db) with (partial_alter (λ _, None) k (learning_job db)).
  - apply db_ok_upsert; try done.
    + intros old Hold. rewrite E in Hold. injection Hold as <-. by rewrite Hp.
    + destruct (do_runs _ _ Hdb k row E) as [batches Ha]. exists batches. destruct Ha as [Hpa He Ho Hs Hend Hsome]. split; try done.
      unfold status_ok in *. destruct (sentinel (concat batches)) as [e|]; [|by right].
      rewrite Hp in Hs. by destruct (ended_outcome_not_pending (concat batches) e).
  - apply map_eq. intros k'. destruct (decide (k = k')) as [<-|]; [by rewrite lookup_partial_alter_eq|by rewrite lookup_partial_alter_ne].
Qed.

Lemma inv_log objs db log log' : ingest_inv (mkTWorld db objs log) → Forall (λ x, x.2 ≠ Ack) log' →
  ingest_inv (mkTWorld db objs (log ++ log')).
Proof.
  intros [Hdb Hack] Hl. split; [done|]. cbn in *. intros i. rewrite elem_of_app. intros [?|Hi]; [by apply Hack|].
  rewrite Forall_forall in Hl. by destruct (Hl _ Hi).
Qed.

Lemma inv_extends objs objs' db db' log : ingest_inv (mkTWorld db objs log) → db_ok objs' db' → db_extends db db' →
  ingest_inv (mkTWorld db' objs' log).
Proof.
  intros [_ Hack] Hok Hx. split; [done|]. cbn in *. intros i [? ?]%Hack. split; [done|by eapply item_recorded_extends].
Qed.

Lemma take_sub {A} n (l : list A) x : x ∈ take n l → x ∈ l.
Proof. apply subseteq_take. Qed.

(** A group: the state afterwards is good and extends the one before. *)
Lemma process_spec k pairs a w : ingest_inv w → group_ok k pairs → drawn k (at_draws a) →
  ingest_inv (process k pairs a w).2 ∧ db_extends (tw_db w) (tw_db (process k pairs a w).2).
Proof.
  intros Hinv Hg Hdrawn. unfold process_group. destruct (group_body _ _ _ _ _ _ _ _ _ _) as [r objs] eqn:Hb.
  destruct w as [db objs0 log]. cbn [tw_db tw_objects tw_settled] in *.
  destruct (group_body_spec _ _ _ _ _ _ _ (ii_db _ Hinv) Hg Hdrawn Hb) as [Hok Hres].
  assert (Hsame : ingest_inv (mkTWorld db objs log)) by (eapply inv_extends; [done..|apply db_extends_refl]).
  destruct r as [[[t n] db']|e]; cbn; [|split; [done|apply db_extends_refl]].
  destruct (Hres t n db' eq_refl) as (Hok' & Hx & Hacks).
  assert (Hlog : ∀ l, (∀ x, x ∈ l → x ∈ settlements t) → ingest_inv (mkTWorld db' objs (log ++ l))).
  { intros l Hl. split; [done|]. cbn. intros i. rewrite elem_of_app. intros [Hi|Hi].
    - destruct (ii_acked _ Hinv i Hi) as [? ?]. split; [done|by eapply item_recorded_extends].
    - by apply Hacks, Hl. }
  destruct (at_commit a); cbn.
  - destruct (at_settle a) as [m|]; [case_match|]; cbn; (split; [apply Hlog|done]); eauto using take_sub.
  - split; [done|apply db_extends_refl].
  - split; [|done]. by eapply inv_extends.
Qed.

Lemma step_spec w w' : ingest_inv w → ingest_step w w' → ingest_inv w' ∧ db_extends (tw_db w) (tw_db w').
Proof.
  intros Hinv [k pairs a Hg Hu|log Hl|k].
  - by apply process_spec.
  - split; [|apply db_extends_refl]. apply inv_log; [by destruct w|done].
  - cbn. split; [|apply mark_extends]. destruct w as [db objs log]. eapply inv_extends; [done| |apply mark_extends].
    apply mark_ok, (ii_db _ Hinv).
Qed.

Lemma steps_spec w w' : ingest_inv w → rtc ingest_step w w' → ingest_inv w' ∧ db_extends (tw_db w) (tw_db w').
Proof.
  intros Hinv H. revert Hinv. induction H as [w|w1 w2 w3 H12 _ IH]; intros Hinv; [split; [done|apply db_extends_refl]|].
  destruct (step_spec _ _ Hinv H12) as [H2 Hx]. destruct (IH H2) as [H3 Hx']. split; [done|by eapply db_extends_trans].
Qed.

(** Nothing recorded yet; the keys and the object store may hold anything. *)
Definition empty_world (ks : keys) (objs : gmap pystr payload) : tworld payload keys := mkTWorld (mkDb ∅ ∅ ks) objs [].

Lemma inv_empty ks objs : ingest_inv (empty_world ks objs).
Proof.
  split; [split|]; cbn.
  - intros k row H. by rewrite lookup_empty in H.
  - intros k. unfold ended_run. cbn. setoid_rewrite lookup_empty. split; [by intros []|by intros (? & ? & _)].
  - by intros i ?%elem_of_nil.
Qed.

Lemma inv_reachable ks objs w : rtc ingest_step (empty_world ks objs) w → ingest_inv w.
Proof. intros H. by eapply (steps_spec _ _ (inv_empty ks objs)). Qed.

(** ** The operations are sequences of these steps *)

Lemma nack_all_step pairs w : ingest_step w (nack_all pairs w).
Proof. apply step_refuse. apply Forall_fmap, Forall_true. done. Qed.

Lemma groups_loop_steps groups attempts w : Forall (λ g, group_ok g.1 g.2) groups → (∀ k i, drawn k (at_draws (attempts i))) →
  rtc ingest_step w (groups_loop sha256 nfc_casefold dump_event server_arm max_attempts groups attempts w).2.
Proof.
  revert attempts w. induction groups as [|[k pairs] groups IH]; intros attempts w Hg Hu; cbn [groups_loop]; [by apply rtc_refl|].
  apply Forall_cons in Hg as [Hk Hg]. cbn in Hk.
  assert (Hnext : ∀ n w1, rtc ingest_step w w1 →
    rtc ingest_step w (match groups_loop sha256 nfc_casefold dump_event server_arm max_attempts groups (λ i, attempts (S i)) w1 with
                       | (Ok m, w2) => (Ok (n + m), w2) | (Err e, w2) => (Err e, w2) end).2).
  { intros n w1 Hw1. specialize (IH (λ i, attempts (S i)) w1 Hg (λ k' i, Hu k' (S i))).
    destruct (groups_loop _ _ _ _ _ groups _ w1) as [[m|e] w2]; cbn in *; by etrans. }
  destruct (at_gate (attempts 0%nat)).
  - pose proof (step_group w k pairs (attempts 0%nat) Hk (Hu k 0%nat)) as Hstep.
    destruct (process k pairs (attempts 0%nat) w) as [[n|e] w1]; cbn in Hstep; apply Hnext; [by apply rtc_once|].
    eapply rtc_r; [by apply rtc_once|apply nack_all_step].
  - apply Hnext, rtc_once, nack_all_step.
  - apply rtc_refl.
Qed.

Lemma add_pair_ok groups k p : Forall (λ g, group_ok g.1 g.2) groups → group_ok k [p] →
  Forall (λ g, group_ok g.1 g.2) (add_pair groups k p).
Proof.
  intros Hg Hp. unfold add_pair. assert (Hold : group_ok k (default [] (dict_get groups k))).
  { destruct (dict_get groups k) as [ps|] eqn:E; [|constructor]. apply dict_get_Some_elem in E. rewrite Forall_forall in Hg.
    by apply Hg in E. }
  assert (Hnew : group_ok k (default [] (dict_get groups k) ++ [p])) by (by apply Forall_app).
  revert Hnew. generalize (default [] (dict_get groups k) ++ [p]). intros ps Hps. clear Hold Hp.
  induction Hg as [|[k' ps'] groups Hk' Hg IH]; cbn; [by repeat constructor|]. case_bool_decide; subst; by constructor.
Qed.

Lemma group_items_ok items groups : Forall claimed items → Forall (λ g, group_ok g.1 g.2) groups →
  Forall (λ g, group_ok g.1 g.2) (group_items sha256 nfc_casefold validate_business items groups).1
  ∧ Forall (λ x, x.2 ≠ Ack) (group_items sha256 nfc_casefold validate_business items groups).2.
Proof.
  intros Hi. revert groups. induction Hi as [|i items Hc Hi IH]; intros groups Hg; cbn [group_items]; [by split|].
  destruct (parse i) as [env|] eqn:E.
  - apply IH, add_pair_ok; [done|]. by repeat constructor.
  - specialize (IH groups Hg). destruct (group_items _ _ _ items groups) as [gs log]. cbn in *. destruct IH. split; [done|by constructor].
Qed.

(** A run of the writer over any claimed items. *)
Lemma run_once_steps items attempts w : Forall claimed items → (∀ k i, drawn k (at_draws (attempts i))) →
  rtc ingest_step w (run_once sha256 nfc_casefold validate_business dump_event server_arm max_attempts items attempts w).2.
Proof.
  intros Hi Hu. unfold run_once. destruct (group_items_ok items [] Hi) as [Hg Hl]; [constructor|].
  destruct (group_items _ _ _ items []) as [groups log]. cbn in *.
  eapply rtc_l; [by apply step_refuse|]. by apply groups_loop_steps.
Qed.

(** A sweep. *)
Lemma sweep_project_steps p cutoff w : rtc ingest_step w
  (mkTWorld (sweep_project p cutoff (tw_db w)).2 (tw_objects w) (tw_settled w)).
Proof.
  unfold sweep_project. cbn. generalize (find_runs_missing_sentinel p cutoff (tw_db w)). intros runs.
  revert w. induction runs as [|r runs IH]; intros w; cbn; [destruct w; apply rtc_refl|].
  eapply rtc_l; [apply (step_mark w (p, r))|]. apply (IH (mkTWorld (mark_run_incomplete (p, r) (tw_db w)) (tw_objects w) (tw_settled w))).
Qed.

End Runs.
