(* ===== verification/TraceGuarantees.v ===== *)
(** * What the trace ingest guarantees

    The consequences of the invariant of TraceRuns.v for readers of the index and the
    archive, and for well-formed runs delivered at least once; then a run of three events
    delivered in two batches out of order, with a lost acknowledgement in between. *)

From Stdlib Require Import Floats.
From S2P Require Import Prelude Domain PyText Json Signatures Memory WorkQueue SeqSet Sections TraceWriter TraceRuns.
Open Scope Z_scope.

Abbreviation recorded row n := (contains (from_path (dict_get (path_of (Some row)) PATH_SEQ_RANGES)) n = true).

Section Guarantees.
Context {payload keys draws : Type} {KEYS : SubjectKeys payload keys draws} {STORE : TraceStore}.
Context (sha256 : list Z → list Z) (nfc_casefold : pystr → pystr).
Context (validate_business : list (pystr * json) → option (Z * TraceEvent)) (dump_event : TraceEvent → json).
Context (server_arm : run_key → option Arm) (max_attempts : Z) (claimed : QueueItem → Prop)
  (drawn : run_key → draws → Prop).
Hypothesis valid_seq : ∀ l seq ev, validate_business l = Some (seq, ev) → seq_bounded seq.
Hypothesis valid_attempts : 1 <= max_attempts <= MAX_QUEUE_ATTEMPTS.

Abbreviation parse := (parse_item sha256 nfc_casefold validate_business).
Abbreviation step := (ingest_step sha256 nfc_casefold validate_business dump_event server_arm max_attempts claimed drawn).
Abbreviation archive := (run_archive sha256 nfc_casefold validate_business dump_event claimed drawn).
Abbreviation lines := (rmap (λ e, wire_line dump_event (en_seq e) (en_event e))).

Lemma reachable_archive ks0 objs w k row : rtc step (empty_world ks0 objs) w → trace_index (tw_db w) !! k = Some row →
  ∃ batches, archive (subject_key (tw_db w), tw_objects w) k row batches.
Proof.
  intros Hw Hrow. destruct (inv_reachable _ _ _ _ _ _ _ _ valid_seq valid_attempts _ _ _ Hw) as [[Hruns _] _]. by apply Hruns.
Qed.

Lemma reachable_jobs ks0 objs w k : rtc step (empty_world ks0 objs) w → is_Some (learning_job (tw_db w) !! k) ↔ ended_run (tw_db w) k.
Proof. intros Hw. destruct (inv_reachable _ _ _ _ _ _ _ _ valid_seq valid_attempts _ _ _ Hw) as [[_ Hjobs] _]. apply Hjobs. Qed.

Lemma reachable_acked ks0 objs w i : rtc step (empty_world ks0 objs) w → (i, Ack) ∈ tw_settled w →
  claimed i ∧ item_recorded sha256 nfc_casefold validate_business (tw_db w) i.
Proof. intros Hw. destruct (inv_reachable _ _ _ _ _ _ _ _ valid_seq valid_attempts _ _ _ Hw) as [_ Hacked]. apply Hacked. Qed.

Lemma reachable_extends ks0 objs w w' : rtc step (empty_world ks0 objs) w → rtc step w w' → db_extends (tw_db w) (tw_db w').
Proof.
  intros Hw Hw'. apply (steps_spec sha256 nfc_casefold validate_business dump_event server_arm max_attempts claimed drawn valid_seq valid_attempts w w'); [|done].
  by eapply (inv_reachable _ _ _ _ _ _ _ _ valid_seq valid_attempts).
Qed.

Lemma archive_recorded v k row batches n : archive v k row batches → recorded row n ↔ n ∈ en_seq <$> concat batches.
Proof. intros Ha. rewrite contains_spec by apply from_path_ok. apply (po_seqs _ _ _ (ra_path _ _ _ _ _ _ _ _ _ _ Ha)). Qed.

Lemma archive_refs v k row batches : archive v k row batches →
  dict_get (path_of (Some row)) PATH_PAYLOAD_REFS = Some (JArr ((λ b, JStr (batch_ref k b)) <$> batches)).
Proof.
  intros Ha. pose proof (po_refs _ _ _ (ra_path _ _ _ _ _ _ _ _ _ _ Ha)) as Hr. pose proof (ra_some _ _ _ _ _ _ _ _ _ _ Ha) as Hne.
  destruct batches as [|b bs]; [done|]. by destruct (dict_get _ PATH_PAYLOAD_REFS) as [[]|]; cbn in Hr |- *; try done; rewrite Hr.
Qed.

(** [C28] Whatever the batches, the order, the faults and the redeliveries, the archive of a
    run is exactly its recorded events: every sequence number the row reports was archived
    exactly once, by an event of a claimed item of the run submitted by the principal and
    agent type the row names; each batch of these events has its object; and where no attempt
    on the run lost the race to create a subject's key, the objects open to the lines of
    these events, batch by batch.  The sequence number of an acknowledged event is among the
    archived ones from then on -- with that event, or with the one first recorded under the
    same number ([recorded_event_shadows_sentinel]). *)
Theorem trace_archive_exact ks0 objs w : rtc step (empty_world ks0 objs) w →
  (∀ k row, trace_index (tw_db w) !! k = Some row → ∃ batches,
     dict_get (path_of (Some row)) PATH_PAYLOAD_REFS = Some (JArr ((λ b, JStr (batch_ref k b)) <$> batches))
     ∧ (∀ b, b ∈ batches → is_Some (tw_objects w !! batch_ref k b))
     ∧ ((∀ d, drawn k d → unraced d) → ∀ b, b ∈ batches → ∃ c secs, tw_objects w !! batch_ref k b = Some c
          ∧ decrypt (subject_key (tw_db w)) k.1 c = Ok (Plain <$> secs) ∧ lines b = Ok (concat (ps_lines <$> secs)))
     ∧ NoDup (en_seq <$> concat batches) ∧ (∀ n, recorded row n ↔ n ∈ en_seq <$> concat batches)
     ∧ ∀ e, e ∈ concat batches → ∃ i, claimed i ∧ parse i = Some e ∧ (qi_project_id i, qi_run_id i) = k
          ∧ qi_source_principal_id i = ti_submitter_principal row ∧ qi_source_agent_type_id i = ti_agent_type_id row)
  ∧ ∀ i w', (i, Ack) ∈ tw_settled w → rtc step w w' → item_recorded sha256 nfc_casefold validate_business (tw_db w') i.
Proof.
  intros Hw. split.
  - intros k row Hrow. destruct (reachable_archive _ _ _ _ _ Hw Hrow) as [batches Ha]. exists batches. split_and!.
    + by eapply archive_refs.
    + intros b Hb. destruct (ra_objects _ _ _ _ _ _ _ _ _ _ Ha b Hb) as (c & secs & Hc & _). by exists c.
    + intros Hu b Hb. destruct (ra_objects _ _ _ _ _ _ _ _ _ _ Ha b Hb) as (c & secs & Hc & Hd & Hs).
      destruct (sealed_lines _ _ _ _ _ _ Hd Hu) as (secs' & Hd' & Hl). exists c, secs'. split_and!; [done..|]. rewrite Hl.
      by apply build_sections_lines.
    + apply (eo_nodup _ _ _ _ _ _ _ (ra_events _ _ _ _ _ _ _ _ _ _ Ha)).
    + intros n. by eapply archive_recorded.
    + intros e He. destruct (eo_source _ _ _ _ _ _ _ (ra_events _ _ _ _ _ _ _ _ _ _ Ha) e He) as (Hown & i & Hi & Hp & Hk).
      exists i. pose proof (parse_env _ _ _ valid_seq _ _ Hp) as [_ Hsrc]. rewrite Hsrc in Hown. by injection Hown as -> ->.
  - intros i w' Hi Hw'. destruct (reachable_acked _ _ _ _ Hw Hi) as [_ Hr].
    eapply item_recorded_extends; [by eapply reachable_extends|done].
Qed.

(** The sentinel columns of a row. *)
Abbreviation end_seq row := (parse_seq (dict_get (path_of (Some row)) PATH_END_SEQ)).
Abbreviation end_status row := (parse_end_status (dict_get (path_of (Some row)) PATH_END_STATUS)).

Lemma archive_end v k row batches : archive v k row batches →
  end_seq row = en_seq <$> sentinel (concat batches)
  ∧ end_status row = sentinel (concat batches) ≫= end_status_of
  ∧ status_ok (concat batches) (ti_outcome_status row).
Proof.
  intros Ha. pose proof (ra_path _ _ _ _ _ _ _ _ _ _ Ha) as Hp. split_and!.
  - by eapply (path_end_seq _ _ _ _ valid_seq), (ra_events _ _ _ _ _ _ _ _ _ _ Ha).
  - by eapply path_end_status.
  - apply (ra_status _ _ _ _ _ _ _ _ _ _ Ha).
Qed.

(** A run is closed exactly when its sentinel is recorded with a status and no number is missing. *)
Lemma archive_closed v k row batches : archive v k row batches →
  is_terminal (ti_outcome_status row) = true ↔
  ∃ n s, end_seq row = Some n ∧ end_status row = Some s ∧ ti_outcome_status row = outcome_of_status s
         ∧ ∀ m, 0 <= m <= n → recorded row m.
Proof.
  intros Ha. destruct (archive_end _ _ _ _ Ha) as (-> & -> & Hst). unfold status_ok in Hst.
  setoid_rewrite (archive_recorded _ _ _ _ _ Ha). destruct (sentinel (concat batches)) as [e|]; cbn.
  - rewrite Hst. split.
    + intros Ht. pose proof Ht as [[s Hs] Hc]%ended_outcome_terminal. exists (en_seq e), s. split_and!; try done.
      unfold ended_outcome. rewrite Hs. by rewrite (proj2 (complete_upto_test _ _) Hc).
    + intros (n & s & [= <-] & Hs & _ & Hc). apply ended_outcome_terminal. split; [by exists s|done].
  - split; [by destruct Hst as [-> | ->]|by intros (? & ? & ? & _)].
Qed.

(** The archive holds the sentinel, with the status [s], and every number up to the sentinel's. *)
Definition archived_whole (events : list TraceQueueEnvelope) (s : pystr) : Prop :=
  ∃ e, e ∈ events ∧ is_end e = true ∧ end_status_of e = Some s ∧ ∀ m, 0 <= m <= en_seq e → m ∈ en_seq <$> events.

(** The events of the batches the row refers to: one object each, sealed from them, with distinct numbers, those
    the row reports. *)
Definition archived_events (w : tworld payload keys) (k : run_key) (row : TraceIndexRow) (batches : list (list TraceQueueEnvelope)) : Prop :=
  dict_get (path_of (Some row)) PATH_PAYLOAD_REFS = Some (JArr ((λ b, JStr (batch_ref k b)) <$> batches))
  ∧ (∀ b, b ∈ batches → ∃ c secs, tw_objects w !! batch_ref k b = Some c ∧ build_sections dump_event b = Ok secs
       ∧ sealed_as (drawn k) (subject_key (tw_db w)) k.1 k.2 c secs)
  ∧ NoDup (en_seq <$> concat batches) ∧ ∀ n, recorded row n ↔ n ∈ en_seq <$> concat batches.

(** The status is read off the archive: the sentinel's when all is there, and pending or incomplete otherwise. *)
Lemma archive_status v k row batches : archive v k row batches →
  (∀ s, archived_whole (concat batches) s → ti_outcome_status row = outcome_of_status s ∧ is_terminal (ti_outcome_status row) = true)
  ∧ ((∀ s, ¬ archived_whole (concat batches) s) → is_terminal (ti_outcome_status row) = false).
Proof.
  intros Ha. destruct (archive_end _ _ _ _ Ha) as (_ & _ & Hst). unfold status_ok in Hst.
  pose proof (ra_events _ _ _ _ _ _ _ _ _ _ Ha) as Hev. split.
  - intros s (e & He & Hie & Hs & Hall). destruct (sentinel (concat batches)) as [e'|] eqn:Hsent; [|by rewrite (sentinel_None _ _ Hsent He) in Hie].
    destruct (eo_end _ _ _ _ _ _ _ Hev e' Hsent e He) as [_ Heq]. rewrite (Heq Hie) in *. clear Heq.
    assert (Hout : ti_outcome_status row = outcome_of_status s).
    { rewrite Hst. unfold ended_outcome. rewrite Hs. by rewrite (proj2 (complete_upto_test _ _) Hall). }
    split; [done|]. rewrite Hout. apply outcome_of_known. by eapply end_status_known.
  - intros Hno. destruct (sentinel (concat batches)) as [e|] eqn:Hsent; [|by destruct Hst as [-> | ->]].
    apply not_true_iff_false. rewrite Hst. intros [[s Hs] Hc]%ended_outcome_terminal.
    pose proof (sentinel_Some _ _ Hsent) as [He Hie]. apply (Hno s). by exists e.
Qed.

(** [C29] A run counts as finished exactly when its archive is whole: where the objects its row
    refers to hold its sentinel, with a status, and every sequence number up to the
    sentinel's, its status is the one the sentinel reports; where they do not, it is pending
    or incomplete.  Nothing above the sentinel is ever archived; the run has a learning job
    exactly when it is finished; and from then on its index row never changes.  All of this
    whatever races the attempts lose. *)
Theorem trace_completeness ks0 objs w k row : rtc step (empty_world ks0 objs) w → trace_index (tw_db w) !! k = Some row →
  ∃ batches, archived_events w k row batches
  ∧ (∀ s, archived_whole (concat batches) s → ti_outcome_status row = outcome_of_status s ∧ is_terminal (ti_outcome_status row) = true)
  ∧ ((∀ s, ¬ archived_whole (concat batches) s) → ti_outcome_status row = T_PENDING ∨ ti_outcome_status row = T_INCOMPLETE)
  ∧ (∀ e e', e ∈ concat batches → is_end e = true → e' ∈ concat batches → en_seq e' <= en_seq e)
  ∧ (is_Some (learning_job (tw_db w) !! k) ↔ ∃ s, archived_whole (concat batches) s)
  ∧ ((∃ s, archived_whole (concat batches) s) → ∀ w', rtc step w w' → trace_index (tw_db w') !! k = Some row).
Proof.
  intros Hw Hrow. destruct (reachable_archive _ _ _ _ _ Hw Hrow) as [batches Ha]. exists batches.
  destruct (archive_status _ _ _ _ Ha) as [Hyes Hno]. pose proof (ra_events _ _ _ _ _ _ _ _ _ _ Ha) as Hev. split_and!.
  - split_and!; [by eapply archive_refs| |apply (eo_nodup _ _ _ _ _ _ _ Hev)|intros n; by eapply archive_recorded].
    intros b Hb. destruct (ra_objects _ _ _ _ _ _ _ _ _ _ Ha b Hb) as (c & secs & Hc & Hd & Hs). by exists c, secs.
  - done.
  - intros H. specialize (Hno H). destruct (ti_outcome_status row); cbn in Hno; by auto.
  - intros e e' He Hie He'. destruct (sentinel (concat batches)) as [e0|] eqn:Hs; [|by rewrite (sentinel_None _ _ Hs He) in Hie].
    destruct (eo_end _ _ _ _ _ _ _ Hev e0 Hs e He) as [_ Heq]. rewrite (Heq Hie).
    by apply (eo_end _ _ _ _ _ _ _ Hev e0 Hs e' He').
  - rewrite (reachable_jobs _ _ _ _ Hw). unfold ended_run. rewrite Hrow. split.
    + intros (row' & [= <-] & Ht). apply (archive_closed _ _ _ _ Ha) in Ht as (n & s & Hn & Hs & _ & Hall).
      destruct (archive_end _ _ _ _ Ha) as (He & Hst & _). rewrite He in Hn. rewrite Hst in Hs.
      destruct (sentinel (concat batches)) as [e|] eqn:Hsent; [|done]. injection Hn as <-. cbn in Hs.
      pose proof (sentinel_Some _ _ Hsent) as [Hin Hie]. exists s, e. split_and!; [done..|]. intros m Hm.
      by apply (archive_recorded _ _ _ _ _ Ha), Hall.
    + intros [s Hs]. exists row. split; [done|by eapply Hyes].
  - intros [s Hs] w' Hw'. destruct (proj2 (reachable_extends _ _ _ _ Hw Hw') k row Hrow) as (row' & Hrow' & Hx).
    rewrite (re_final _ _ Hx (proj2 (Hyes s Hs))) in Hrow'. done.
Qed.

(** ** Well-formed runs *)

(** Every item ever claimed for the run is one of its events: numbers up to [n], with the
    sentinel, always the same, at [n] and nowhere else, all from one owner, all JSON. *)
Record well_formed_run (k : run_key) (owner : RunOwner) (n : Z) (s : pystr) : Prop := {
  wf_event : ∀ i env, claimed i → (qi_project_id i, qi_run_id i) = k → parse i = Some env →
    item_owner i = owner ∧ env_owner env = owner ∧ en_seq env <= n
    ∧ (is_end env = true ↔ en_seq env = n) ∧ (is_end env = true → end_status_of env = Some s)
    ∧ is_ok (wire_line dump_event (en_seq env) (en_event env)) = true ∧ is_ok (canonical_json (dump_event (en_event env))) = true;
  wf_end : ∀ i i' env env', claimed i → claimed i' → (qi_project_id i, qi_run_id i) = k → (qi_project_id i', qi_run_id i') = k →
    parse i = Some env → parse i' = Some env' → is_end env = true → is_end env' = true → env = env';
}.

Lemma wf_recorded v k row batches owner n s : well_formed_run k owner n s → archive v k row batches →
  ∀ e, e ∈ concat batches → en_seq e <= n ∧ (is_end e = true ↔ en_seq e = n) ∧ (is_end e = true → end_status_of e = Some s).
Proof.
  intros Hwf Ha e He. destruct (eo_source _ _ _ _ _ _ _ (ra_events _ _ _ _ _ _ _ _ _ _ Ha) e He) as (_ & i & Hi & Hp & Hk).
  by destruct (wf_event _ _ _ _ Hwf i e Hi Hk Hp) as (_ & _ & ? & ? & ? & _).
Qed.

(** All its events acknowledged, the run is finished with the status it reported. *)
Lemma wf_resolves ks0 objs w k owner n s : well_formed_run k owner n s → 0 <= n → rtc step (empty_world ks0 objs) w →
  (∀ m, 0 <= m <= n → ∃ i env, (i, Ack) ∈ tw_settled w ∧ (qi_project_id i, qi_run_id i) = k ∧ parse i = Some env ∧ en_seq env = m) →
  ∃ row, trace_index (tw_db w) !! k = Some row ∧ ti_outcome_status row = outcome_of_status s ∧ end_seq row = Some n.
Proof.
  intros Hwf Hn Hw Hall.
  assert (Hrec : ∀ m, 0 <= m <= n → ∃ row, trace_index (tw_db w) !! k = Some row ∧ recorded row m).
  { intros m Hm. destruct (Hall m Hm) as (i & env & Hi & Hk & Hp & <-).
    destruct (reachable_acked _ _ _ _ Hw Hi) as [_ (env' & row & Hp' & Hrow & Hc)]. rewrite Hp in Hp'. injection Hp' as <-.
    rewrite Hk in Hrow. by exists row. }
  destruct (Hrec n) as (row & Hrow & Hend); [lia|]. exists row.
  destruct (reachable_archive _ _ _ _ _ Hw Hrow) as [batches Ha]. pose proof (wf_recorded _ _ _ _ _ _ _ Hwf Ha) as Hev.
  rewrite (archive_recorded _ _ _ _ _ Ha), list_elem_of_fmap in Hend. destruct Hend as (e & He & Hin).
  assert (Hie : is_end e = true) by (by apply (Hev e Hin)).
  assert (Hsent : is_Some (sentinel (concat batches))).
  { apply not_eq_None_Some. intros Hs. by rewrite (sentinel_None _ _ Hs Hin) in Hie. }
  destruct Hsent as [e' Hs]. pose proof (sentinel_Some _ _ Hs) as [Hin' Hie'].
  destruct (archive_end _ _ _ _ Ha) as (Hes & _ & Hst). rewrite Hs in Hes. unfold status_ok in Hst. rewrite Hs in Hst.
  assert (Hn' : en_seq e' = n) by (by apply (Hev e' Hin')). split_and!; [done| |by rewrite Hes, <- Hn'].
  rewrite Hst. unfold ended_outcome. rewrite (proj2 (proj2 (Hev e' Hin')) Hie').
  rewrite (proj2 (complete_upto_test _ _)); [done|]. intros m Hm. rewrite Hn' in Hm. destruct (Hrec m Hm) as (row' & Hrow' & Hm').
  rewrite Hrow in Hrow'. injection Hrow' as <-. by apply (archive_recorded _ _ _ _ _ Ha).
Qed.

(** ** A clean attempt on a well-formed run *)

Record clean_attempt (ks : keys) (k : run_key) (pairs : list pair) (a : attempt draws) : Prop := {
  ca_put : at_put_fails a = false;
  ca_statement : at_statement_fails a = false;
  ca_commit : at_commit a = CommitApplied;
  ca_settle : at_settle a = None;
  ca_snapshot : Forall (λ p, at_snapshot a = Some (qi_subject_digests p.2)) pairs;
  ca_drawn : drawn k (at_draws a);
  ca_encrypt : ∀ envs secs, (∀ e, e ∈ envs → e ∈ pairs.*1) → build_sections dump_event envs = Ok secs →
    is_ok (encrypt_v2 (at_draws a) k.1 k.2 secs ks) = true;
}.

Lemma sections_loop_ok cur envs :
  (∀ e, e ∈ envs → is_ok (wire_line dump_event (en_seq e) (en_event e)) = true) → is_ok (sections_loop dump_event cur envs) = true.
Proof.
  revert cur. induction envs as [|e envs IH]; intros cur He; cbn [sections_loop]; [done|].
  pose proof (He e ltac:(left)) as Hl. destruct (wire_line _ _ _) as [line|]; [|done]. cbn [rbind].
  assert (He' : ∀ e0, e0 ∈ envs → is_ok (wire_line dump_event (en_seq e0) (en_event e0)) = true) by (intros e0 ?; apply He; by right).
  destruct cur as [s|]; [case_bool_decide|]; [by apply IH| |by apply IH].
  specialize (IH (Some (mkSection (en_seq e) (en_seq e) (subject_tags_for (en_event e)) [line] [] 1)) He'). by destruct (sections_loop _ _ _).
Qed.

(** A parsed [run_start] has a signature, whoever of its owner computes it. *)
Lemma identity_ok owner existing envs :
  (∀ e, e ∈ envs → env_owner e = owner ∧ ∃ i, parse i = Some e) → is_ok (identity_columns sha256 nfc_casefold owner existing envs) = true.
Proof.
  intros He. unfold identity_columns. destruct (List.filter (is_type E_run_start) envs) as [|e l] eqn:Ef; [done|].
  assert (Hin : e ∈ List.filter (is_type E_run_start) envs) by (rewrite Ef; left).
  apply list_elem_of_In, List.filter_In in Hin as [Hin Ht]. apply list_elem_of_In in Hin. destruct (He e Hin) as [Hown [i Hi]].
  assert (Hf : is_ok (run_start_features sha256 nfc_casefold e) = true).
  { unfold parse_item in Hi. case_match; [|done]. destruct (validate_business _) as [[seq ev]|]; [|done].
    case_match eqn:Et; [case_match eqn:Er; [|done]|]; injection Hi as <-; [by rewrite Er|by rewrite Et in Ht]. }
  assert (Hagent : ro_agent_type_id owner = en_agent_type_id e) by (by rewrite <- Hown).
  destruct (run_start_features sha256 nfc_casefold e) as [f|] eqn:Ef'; [|done]. cbn [rbind]. rewrite Hagent.
  unfold run_start_features in Ef'. rinv Ef'. cbn [rf_query_text rf_workflow_template rf_tool_manifest].
  by match goal with H : input_signature_hash _ _ _ _ _ _ = Ok _ |- _ => rewrite H end.
Qed.

Section CleanGroup.
Context (k : run_key) (owner : RunOwner) (n : Z) (s : pystr) (w : tworld payload keys) (pairs : list pair) (a : attempt draws).
Hypothesis Hwf : well_formed_run k owner n s.
Hypothesis Hinv : ingest_inv sha256 nfc_casefold validate_business dump_event claimed drawn w.
Hypothesis Hg : group_ok sha256 nfc_casefold validate_business claimed k pairs.
Hypothesis Hclean : clean_attempt (subject_key (tw_db w)) k pairs a.
Abbreviation existing := (trace_index (tw_db w) !! k).

Lemma pair_wf p : p ∈ pairs → claimed p.2 ∧ parse p.2 = Some p.1 ∧ (qi_project_id p.2, qi_run_id p.2) = k
  ∧ item_owner p.2 = owner ∧ env_owner p.1 = owner ∧ 0 <= en_seq p.1 <= n ∧ (is_end p.1 = true ↔ en_seq p.1 = n)
  ∧ (is_end p.1 = true → end_status_of p.1 = Some s).
Proof.
  intros Hp. unfold group_ok in Hg. rewrite Forall_forall in Hg. destruct (Hg p Hp) as (Hc & Hi & Hk).
  destruct (wf_event _ _ _ _ Hwf _ _ Hc Hk Hi) as (? & ? & ? & ? & ? & _). pose proof (parse_env _ _ _ valid_seq _ _ Hi) as [[? _] _].
  by split_and!.
Qed.

Lemma env_wf e : e ∈ pairs.*1 → ∃ i, (e, i) ∈ pairs.
Proof. intros ([e' i] & -> & He)%list_elem_of_fmap. by exists i. Qed.

Lemma existing_owner row : existing = Some row → mkOwner (ti_submitter_principal row) (ti_agent_type_id row) = owner.
Proof.
  intros Hrow. destruct (do_runs _ _ _ _ _ _ _ _ (ii_db _ _ _ _ _ _ _ Hinv) k row Hrow) as [batches Ha].
  pose proof (ra_events _ _ _ _ _ _ _ _ _ _ Ha) as He. pose proof (ra_some _ _ _ _ _ _ _ _ _ _ Ha) as Hne.
  destruct batches as [|b bs]; [done|]. destruct (eo_batch _ _ _ _ _ _ _ He b ltac:(left)) as [Hb _].
  destruct b as [|e b]; [done|]. destruct (eo_source _ _ _ _ _ _ _ He e ltac:(left)) as (Hown & i & Hc & Hi & Hk).
  destruct (wf_event _ _ _ _ Hwf _ _ Hc Hk Hi) as (_ & <- & _). done.
Qed.

Abbreviation ends := (List.filter (is_type E_run_end) pairs.*1).

Lemma elem_of_ends e : e ∈ ends → ∃ i, (e, i) ∈ pairs ∧ is_end e = true.
Proof. intros [He Ht]%list_elem_of_In%List.filter_In. apply list_elem_of_In, env_wf in He as [i Hi]. by exists i. Qed.

Lemma ends_same e e' : e ∈ ends → e' ∈ ends → e = e'.
Proof.
  intros (i & Hi & Ht)%elem_of_ends (i' & Hi' & Ht')%elem_of_ends.
  destruct (pair_wf _ Hi) as (Hc & Hpi & Hk & _), (pair_wf _ Hi') as (Hc' & Hpi' & Hk' & _).
  by eapply (wf_end _ _ _ _ Hwf i i').
Qed.

(** The sentinels of the batch have one identity. *)
Lemma ends_identity : ∃ ids, rmap (sentinel_identity dump_event) ends = Ok ids ∧ (length (remove_dups ids) <= 1)%nat.
Proof.
  destruct (rmap_total (sentinel_identity dump_event) ends) as [ids Hids].
  { intros e (i & Hi & _)%elem_of_ends. destruct (pair_wf _ Hi) as (Hc & Hpi & Hk & _).
    destruct (wf_event _ _ _ _ Hwf _ _ Hc Hk Hpi) as (_ & _ & _ & _ & _ & _ & Hj). cbn in Hj. unfold sentinel_identity.
    destruct (canonical_json _); [by eexists|done]. }
  exists ids. split; [done|]. apply rmap_Ok in Hids.
  destruct (remove_dups ids) as [|x [|y l]] eqn:Er; [cbn; lia..|]. exfalso.
  pose proof (NoDup_remove_dups ids) as Hnd. rewrite Er in Hnd. apply NoDup_cons in Hnd as [Hnd _]. apply Hnd.
  assert (Hx : x ∈ ids) by (apply elem_of_remove_dups; rewrite Er; left).
  assert (Hy : y ∈ ids) by (apply elem_of_remove_dups; rewrite Er; right; left).
  apply list_elem_of_lookup in Hx as [jx Hx], Hy as [jy Hy].
  destruct (Forall2_lookup_r _ _ _ _ _ Hids Hx) as (ex & Hex & Hix), (Forall2_lookup_r _ _ _ _ _ Hids Hy) as (ey & Hey & Hiy).
  apply list_elem_of_lookup_2 in Hex, Hey. rewrite (ends_same ex ey Hex Hey) in Hix.
  replace x with y by congruence. left.
Qed.

(** What is on record of the run, if anything. *)
Lemma wf_path : ∃ batches, path_ok k (path_of existing) batches
  ∧ (∀ e, e ∈ concat batches → en_seq e <= n ∧ (is_end e = true ↔ en_seq e = n) ∧ (is_end e = true → end_status_of e = Some s))
  ∧ parse_seq (dict_get (path_of existing) PATH_END_SEQ) = en_seq <$> sentinel (concat batches)
  ∧ parse_end_status (dict_get (path_of existing) PATH_END_STATUS) = sentinel (concat batches) ≫= end_status_of.
Proof.
  destruct (trace_index (tw_db w) !! k) as [row|] eqn:Hrow.
  - destruct (do_runs _ _ _ _ _ _ _ _ (ii_db _ _ _ _ _ _ _ Hinv) k row Hrow) as [batches Ha]. exists batches.
    destruct (archive_end _ _ _ _ Ha) as (? & ? & _).
    split_and!; [apply (ra_path _ _ _ _ _ _ _ _ _ _ Ha)|exact (wf_recorded _ _ _ _ _ _ _ Hwf Ha)|done..].
  - exists []. split_and!; [apply path_ok_nil|by intros e ?%elem_of_nil|done..].
Qed.

(** Nothing of a well-formed run is turned away at the sentinel. *)
Lemma wf_admits : ∃ allowed, admits dump_event existing pairs.*1 = Ok allowed ∧ ∀ e, e ∈ pairs.*1 → allowed e = true.
Proof.
  destruct wf_path as (batches & Hp & Hev & Hend & Hest). unfold admits. rewrite Hend, Hest.
  destruct (sentinel (concat batches)) as [e0|] eqn:Hs; cbn [fmap option_fmap option_map mbind option_bind].
  - eexists. split; [done|]. intros e (i & Hi)%env_wf. destruct (pair_wf _ Hi) as (_ & _ & _ & _ & _ & Hle & Hie & Hst). cbn in *.
    pose proof (sentinel_Some _ _ Hs) as [Hin0 Hie0]. destruct (Hev e0 Hin0) as (_ & Hn0 & Hs0). apply Hn0 in Hie0 as Hseq0.
    rewrite Hseq0, (proj2 (Z.ltb_ge _ _)) by lia. destruct (is_end e); [|done]. rewrite (Hst eq_refl), (Hs0 Hie0).
    rewrite (proj1 Hie eq_refl), Z.eqb_refl. by rewrite bool_decide_eq_true_2.
  - destruct ends_identity as (ids & -> & Hone). cbn [rbind]. destruct (Nat.ltb_spec 1 (length (remove_dups ids))); [lia|].
    pose proof elem_of_ends as Hends. destruct ends as [|e0 l]; [by eexists; split|].
    destruct (Hends e0 ltac:(left)) as (i0 & Hi0 & Ht0).
    destruct (pair_wf _ Hi0) as (_ & _ & _ & _ & _ & _ & Hie0 & _). cbn in Hie0. rewrite (proj1 Hie0 Ht0).
    destruct (has_above _ n) eqn:Habove.
    { exfalso. apply has_above_spec in Habove as (m & Hm & Hlt); [|apply from_path_ok].
      apply (po_seqs _ _ _ Hp), list_elem_of_fmap in Hm as (e & -> & He). destruct (Hev e He). lia. }
    eexists. split; [done|]. intros e (i & Hi)%env_wf. destruct (pair_wf _ Hi) as (_ & _ & _ & _ & _ & Hle & Hie & _). cbn in *.
    destruct (Z.ltb_spec (en_seq e) n); [done|]. cbn. rewrite (proj2 Hie) by lia. rewrite andb_true_r. apply Z.eqb_eq. lia.
Qed.

Abbreviation body := (group_body sha256 nfc_casefold dump_event server_arm max_attempts k pairs a (tw_objects w) (tw_db w)).

Lemma all_acked t acc rep : t = mkTriage acc rep [] [] → acc ++ rep = pairs → settlements t = (λ p, (p.2, Ack)) <$> pairs.
Proof. intros -> <-. unfold settlements. cbn. by rewrite !app_nil_r, fmap_app. Qed.

(** A closed run has seen all of its events. *)
Lemma closed_recorded row : existing = Some row → is_terminal (ti_outcome_status row) = true →
  ∀ p, p ∈ pairs → recorded row (en_seq p.1).
Proof.
  intros Hrow Ht p Hp. destruct (do_runs _ _ _ _ _ _ _ _ (ii_db _ _ _ _ _ _ _ Hinv) k row Hrow) as [batches Ha].
  apply (archive_closed _ _ _ _ Ha) in Ht as (m & s' & Hm & _ & _ & Hall).
  destruct (archive_end _ _ _ _ Ha) as (He & _). rewrite Hm in He. destruct (sentinel (concat batches)) as [e|] eqn:Hs; [|done].
  injection He as ->. pose proof (sentinel_Some _ _ Hs) as [Hin Hie]. destruct (wf_recorded _ _ _ _ _ _ _ Hwf Ha e Hin) as (_ & Hn & _).
  apply Hall. rewrite (proj1 Hn Hie). by destruct (pair_wf p Hp) as (_ & _ & _ & _ & _ & ? & _).
Qed.

(** The new events of the group can be written and have their signature. *)
Lemma clean_writes envs : (∀ e, e ∈ envs → e ∈ pairs.*1) →
  is_ok (let! secs := build_sections dump_event envs in encrypt_v2 (at_draws a) k.1 k.2 secs (subject_key (tw_db w))) = true
  ∧ is_ok (identity_columns sha256 nfc_casefold owner existing envs) = true.
Proof.
  intros Hin. split.
  - assert (Hs : is_ok (build_sections dump_event envs) = true).
    { apply sections_loop_ok. intros e He. apply Hin, env_wf in He as [i Hi]. destruct (pair_wf _ Hi) as (Hc & Hp & Hk & _).
      by destruct (wf_event _ _ _ _ Hwf _ _ Hc Hk Hp) as (_ & _ & _ & _ & _ & ? & _). }
    destruct (build_sections dump_event envs) as [secs|] eqn:Eb; [|done]. cbn. by eapply (ca_encrypt _ _ _ _ Hclean).
  - apply identity_ok. intros e He. apply Hin, env_wf in He as [i Hi]. destruct (pair_wf _ Hi) as (_ & Hp & _ & _ & Ho & _).
    split; [done|by exists i].
Qed.

(** Every item is its owner's. *)
Lemma all_mine : List.filter (λ p : pair, bool_decide (env_owner p.1 = owner) && bool_decide (item_owner p.2 = owner)) pairs = pairs
  ∧ List.filter (λ p : pair, negb (bool_decide (env_owner p.1 = owner) && bool_decide (item_owner p.2 = owner))) pairs = [].
Proof.
  assert (Hmine : ∀ p, p ∈ pairs → bool_decide (env_owner p.1 = owner) && bool_decide (item_owner p.2 = owner) = true).
  { intros p Hp. destruct (pair_wf p Hp) as (_ & _ & _ & ? & ? & _). by rewrite !bool_decide_eq_true_2. }
  split; [by apply filter_all_true|]. apply filter_all_false. intros p Hp. by rewrite Hmine.
Qed.

Lemma owner_agrees : pairs ≠ [] → ∃ o, resolve_owner existing pairs.*1 = Ok o
  ∧ bool_decide (is_Some existing) && negb (bool_decide (o = owner)) = false.
Proof.
  intros Hne. unfold resolve_owner. destruct (trace_index (tw_db w) !! k) as [row|] eqn:Hrow.
  - eexists. split; [done|]. rewrite (existing_owner row Hrow), (bool_decide_eq_true_2 (owner = owner)) by done. by rewrite andb_false_r.
  - assert (Hf : pairs.*1 ≠ []) by (by destruct pairs). rewrite bool_decide_eq_false_2 by (by intros []).
    destruct (List.filter _ _), (pairs.*1); try done; eexists; done.
Qed.

Lemma match_nonempty {A B} (l : list A) (x y : B) : l ≠ [] → match l with [] => x | _ => y end = y.
Proof. by destruct l. Qed.

Lemma clean_tx item0 : pairs ≠ [] → at_snapshot a = Some (qi_subject_digests item0) → item_owner item0 = owner →
  ∃ t m db objs, group_tx sha256 nfc_casefold dump_event server_arm max_attempts k item0 pairs a (tw_objects w) (tw_db w)
                 = (Ok (t, m, db), objs) ∧ settlements t = (λ p, (p.2, Ack)) <$> pairs.
Proof.
  intros Hne Hsnap0 Hown0. unfold group_tx. rewrite Hown0. destruct all_mine as [-> ->].
  pose proof (ca_snapshot _ _ _ _ Hclean) as Hsnap. rewrite Forall_forall in Hsnap.
  rewrite (proj2 (forallb_forall _ pairs)).
  2: { intros p Hp%list_elem_of_In. apply bool_decide_eq_true_2. specialize (Hsnap p Hp). rewrite Hsnap0 in Hsnap. congruence. }
  rewrite bool_decide_eq_true_2 by done. cbn [negb]. destruct (owner_agrees Hne) as (o & -> & ->).
  destruct (match existing with Some row => is_terminal (ti_outcome_status row) | None => false end) eqn:Ht.
  - destruct (trace_index (tw_db w) !! k) as [row|] eqn:Hrow; [|done]. pose proof (closed_recorded row Hrow Ht) as Hrec.
    rewrite (filter_all_true _ pairs Hrec), (filter_all_false _ pairs) by (intros p Hp; by rewrite Hrec).
    eexists _, _, _, _. split; [done|]. by eapply all_acked.
  - destruct wf_admits as (allowed & Hadm & Hall).
    assert (Hall' : ∀ p : pair, p ∈ pairs → allowed p.1 = true) by (intros p Hp; apply Hall; by apply list_elem_of_fmap_2).
    rewrite match_nonempty, Hadm by done. rewrite (filter_all_true _ pairs Hall'), (filter_all_false _ pairs) by (intros p Hp; by rewrite Hall').
    assert (Hsofar : ∃ batches, run_so_far sha256 nfc_casefold validate_business dump_event claimed drawn (subject_key (tw_db w), tw_objects w) k owner existing batches).
    { destruct (trace_index (tw_db w) !! k) as [row|] eqn:Hrow; [|by exists []].
      destruct (do_runs _ _ _ _ _ _ _ _ (ii_db _ _ _ _ _ _ _ Hinv) k row Hrow) as [batches Hb].
      exists batches. split_and!; [done|by rewrite existing_owner|done]. }
    destruct Hsofar as [batches Hsofar].
    assert (Hf : List.filter allowed pairs.*1 = pairs.*1) by (by apply filter_all_true).
    destruct (clean_writes (new_events (from_path (dict_get (path_of existing) PATH_SEQ_RANGES)) pairs.*1)) as [Henc Hid].
    { by intros e [? _]%elem_of_new_events. }
    edestruct (write_batch_clean sha256 nfc_casefold validate_business dump_event server_arm max_attempts claimed drawn valid_seq valid_attempts
      (tw_objects w) (tw_db w) k owner batches (ii_db _ _ _ _ _ _ _ Hinv) Hsofar pairs.*1 allowed a) as (m & db' & objs' & Hw);
      [|exact Hadm|apply Hclean|apply Hclean|apply Hclean|by rewrite Hf|by rewrite Hf|].
    { intros e (i & Hi)%env_wf. destruct (pair_wf _ Hi) as (? & ? & ? & _ & ? & _). split; [done|by exists i]. }
    rewrite Hf in Hw. rewrite Hw. cbn. eexists _, _, _, _. split; [done|]. eapply all_acked; [done|by rewrite app_nil_r].
Qed.

(** Every item of the group is acknowledged. *)
Lemma clean_process : pairs ≠ [] → ∃ m w', process_group sha256 nfc_casefold dump_event server_arm max_attempts k pairs a w = (Ok m, w')
  ∧ ∀ p, p ∈ pairs → (p.2, Ack) ∈ tw_settled w'.
Proof.
  intros Hne. assert (Hcons : ∃ e0 i0 l, pairs = (e0, i0) :: l) by (destruct pairs as [|[]]; [done|by eauto]).
  destruct Hcons as (e0 & i0 & l & Hcons). assert (Hin0 : (e0, i0) ∈ pairs) by (rewrite Hcons; left).
  pose proof (ca_snapshot _ _ _ _ Hclean) as Hsnap. rewrite Forall_forall in Hsnap.
  destruct (clean_tx i0 Hne (Hsnap _ Hin0)) as (t & m & db & objs & Hbody & Hacks).
  { by destruct (pair_wf _ Hin0) as (_ & _ & _ & ? & _). }
  assert (Hb : body = (Ok (t, m, db), objs)) by (rewrite <- Hbody; unfold group_body; by rewrite Hcons).
  unfold process_group. rewrite Hb, (ca_commit _ _ _ _ Hclean), (ca_settle _ _ _ _ Hclean). eexists _, _. split; [done|].
  intros p Hp. cbn. rewrite Hacks, elem_of_app. right. by apply (list_elem_of_fmap_2 (λ p : pair, (p.2, Ack))).
Qed.

End CleanGroup.

(** [C30] A well-formed run gets through.  In any reachable state, an attempt on any items of
    the run, recorded before or not, that meets no fault succeeds and acknowledges every one
    of them; and once each number up to the sentinel has been acknowledged, in any order and
    over any faults in between, the run is finished with the status it reported and its
    learning job is scheduled. *)
Theorem well_formed_run_resolves ks0 objs w k owner n s :
  well_formed_run k owner n s → 0 <= n → rtc step (empty_world ks0 objs) w →
  (∀ pairs a, pairs ≠ [] → group_ok sha256 nfc_casefold validate_business claimed k pairs → clean_attempt (subject_key (tw_db w)) k pairs a →
     ∃ m w', process_group sha256 nfc_casefold dump_event server_arm max_attempts k pairs a w = (Ok m, w')
       ∧ ∀ p, p ∈ pairs → (p.2, Ack) ∈ tw_settled w')
  ∧ ((∀ m, 0 <= m <= n → ∃ i env, (i, Ack) ∈ tw_settled w ∧ (qi_project_id i, qi_run_id i) = k ∧ parse i = Some env
                                    ∧ en_seq env = m) →
     ∃ row, trace_index (tw_db w) !! k = Some row ∧ ti_outcome_status row = outcome_of_status s ∧ end_seq row = Some n
       ∧ is_Some (learning_job (tw_db w) !! k)).
Proof.
  intros Hwf Hn Hw. split.
  - intros pairs a Hne Hg Hclean. eapply clean_process; try done. by eapply (inv_reachable _ _ _ _ _ _ _ _ valid_seq valid_attempts).
  - intros Hall. destruct (wf_resolves _ _ _ _ _ _ _ Hwf Hn Hw Hall) as (row & Hrow & Hst & Hend). exists row. split_and!; [done..|].
    apply (reachable_jobs _ _ _ _ Hw). exists row. split; [done|]. rewrite Hst. apply outcome_of_known.
    destruct (Hall n) as (i & env & Hi & Hk & Hp & Hseq); [lia|]. destruct (reachable_acked _ _ _ _ Hw Hi) as [Hc _].
    destruct (wf_event _ _ _ _ Hwf i env Hc Hk Hp) as (_ & _ & _ & Hend' & Hs & _). eapply end_status_known, Hs. by apply Hend'.
Qed.

End Guarantees.

(** ** A run of three events

    Two items arrive first, the sentinel among them, and the COMMIT that records them is
    not acknowledged; then all three arrive. *)

#[export] Program Instance plain_keys : SubjectKeys (list PlainSection) unit unit :=
  {| encrypt_v2 _ _ _ secs _ := Ok (secs, tt); decrypt _ _ secs := Ok (Plain <$> secs); keys_later _ _ := True; unraced _ := True |}.
Next Obligation. by split. Qed.
Next Obligation. intros ? ? ? secs ? c ? ? [= <- <-] _ _. eexists. split; [done|]. by exists secs. Qed.

Definition project_ex : ProjectId := mkProjectId (mkUUID 7 I).
Definition submitter_ex : PrincipalId := mkPrincipalId (mkUUID 12 I).
Definition submitting_ex : AgentTypeId := mkAgentTypeId (mkUUID 13 I).
Definition traced_ex : run_key := (project_ex, mkRunId (mkUUID 11 I)).

Definition types_ex : list (pystr * EventType) :=
  [(of_ascii "run_start", E_run_start); (of_ascii "tool_call", E_tool_call); (of_ascii "run_end", E_run_end)].

(** A validator of three event types, and a dump. *)
Definition validate_ex (l : list (pystr * json)) : option (Z * TraceEvent) :=
  match dict_get l (of_ascii "seq"), dict_get l (of_ascii "event") with
  | Some (JInt n), Some (JObj ev) =>
      match dict_get ev (of_ascii "type"), dict_get ev (of_ascii "payload") with
      | Some (JStr t), Some (JObj body) =>
          if (0 <=? n) && (n <=? MAX_TRACE_SEQ)
          then (λ ty, (n, mkEvent ty (mkDatetime n true) body)) <$> dict_get types_ex t else None
      | _, _ => None
      end
  | _, _ => None
  end.
Definition dump_ex (e : TraceEvent) : json := JObj [(of_ascii "ts", JInt (dt_us (ev_ts e))); (of_ascii "payload", JObj (ev_payload e))].
Definition sha_ex (_ : list Z) : list Z := replicate 32 0.

Definition queued_ex (n : Z) (type : string) (body : list (pystr * json)) : QueueItem :=
  mkItem (n + 1) TOPIC_TRACE_EVENT project_ex
    [(of_ascii "seq", JInt n); (of_ascii "event", JObj [(of_ascii "type", JStr (of_ascii type)); (of_ascii "payload", JObj body)])]
    100 1 traced_ex.2 submitter_ex submitting_ex (mkUUID 14 I) (of_ascii "data") None submitter_ex submitting_ex [] 5 0 0 60.
Definition start_ex : QueueItem := queued_ex 0 "run_start" [(of_ascii "query_text", JStr (of_ascii "find"))].
Definition call_item_ex : QueueItem := queued_ex 1 "tool_call" [(of_ascii "tool", JStr (of_ascii "grep"))].
Definition end_ex : QueueItem := queued_ex 2 "run_end" [(of_ascii "status", JStr (of_ascii "ok"))].
Definition items_ex : list QueueItem := [start_ex; call_item_ex; end_ex].

Definition attempt_ex (c : commit_end) : attempt unit := mkAttempt GateOpen (Some []) tt false false c None.
Definition ingest_ex (items : list QueueItem) (c : commit_end) (w : tworld (list PlainSection) unit) :=
  run_once sha_ex id validate_ex dump_ex (λ _, None) 5 items (λ _, attempt_ex c) w.
Definition lost_ack_ex : tworld (list PlainSection) unit := (ingest_ex [end_ex; start_ex] CommitUnacknowledged (empty_world tt ∅)).2.
Definition resolved_ex : tworld (list PlainSection) unit := (ingest_ex items_ex CommitApplied lost_ack_ex).2.

Abbreviation step_ex := (ingest_step sha_ex id validate_ex dump_ex (λ _, None) 5 (λ i, i ∈ items_ex) (λ _ _, True)).
Abbreviation parse_ex := (parse_item sha_ex id validate_ex).

Lemma validate_ex_seq l seq ev : validate_ex l = Some (seq, ev) → seq_bounded seq.
Proof.
  unfold validate_ex. destruct (dict_get l (of_ascii "seq")) as [[]|]; try done.
  destruct (dict_get l (of_ascii "event")) as [[]|]; try done. destruct (dict_get _ (of_ascii "type")) as [[]|]; try done.
  destruct (dict_get _ (of_ascii "payload")) as [[]|]; try done. case_match eqn:Hb; [|done].
  intros (ty & _ & [= -> _])%fmap_Some. unfold seq_bounded. lia.
Qed.

Lemma attempts_ex : 1 <= 5 <= MAX_QUEUE_ATTEMPTS.
Proof. done. Qed.

Lemma lost_ack_reachable : rtc step_ex (empty_world tt ∅) lost_ack_ex.
Proof. apply run_once_steps; [repeat constructor; set_solver|done]. Qed.

Lemma resolved_reachable : rtc step_ex (empty_world tt ∅) resolved_ex.
Proof. etrans; [apply lost_ack_reachable|]. apply run_once_steps; [repeat constructor; set_solver|done]. Qed.

Lemma settled_ex : tw_settled resolved_ex =
  [(end_ex, Nack); (start_ex, Nack); (start_ex, Ack); (call_item_ex, Ack); (end_ex, Ack)].
Proof. vm_compute. reflexivity. Qed.

Definition env_ex (i : QueueItem) : TraceQueueEnvelope := default (mkEnvelope project_ex submitter_ex submitting_ex traced_ex.2 0 (mkEvent E_error (mkDatetime 0 true) [])) (parse_ex i).

Lemma items_ex_cases i : i ∈ items_ex → i = start_ex ∨ i = call_item_ex ∨ i = end_ex.
Proof. unfold items_ex. rewrite !elem_of_cons, elem_of_nil. tauto. Qed.

Lemma items_ex_parse i : i ∈ items_ex → parse_ex i = Some (env_ex i).
Proof. by intros [-> | [-> | ->]]%items_ex_cases; vm_compute. Qed.

Lemma well_formed_ex : well_formed_run sha_ex id validate_ex dump_ex (λ i, i ∈ items_ex) traced_ex
  (mkOwner submitter_ex submitting_ex) 2 (of_ascii "ok").
Proof.
  split.
  - intros i env Hi _ Hp. rewrite items_ex_parse in Hp by done. injection Hp as <-.
    destruct (items_ex_cases i Hi) as [-> | [-> | ->]]; apply (bool_decide_unpack _); by vm_compute.
  - intros i i' env env' Hi Hi' _ _ Hp Hp'. rewrite items_ex_parse in Hp, Hp' by done. injection Hp as <-. injection Hp' as <-.
    destruct (items_ex_cases i Hi) as [-> | [-> | ->]], (items_ex_cases i' Hi') as [-> | [-> | ->]]; by vm_compute.
Qed.

(** After the lost acknowledgement both events are recorded, each once, though their items
    were returned to the queue. *)
Lemma trace_archive_exact_witness :
  ∃ row batches, trace_index (tw_db resolved_ex) !! traced_ex = Some row
    ∧ dict_get (path_of (Some row)) PATH_PAYLOAD_REFS = Some (JArr ((λ b, JStr (batch_ref traced_ex b)) <$> batches))
    ∧ (∀ b, b ∈ batches → ∃ secs, tw_objects resolved_ex !! batch_ref traced_ex b = Some secs
         ∧ rmap (λ e, wire_line dump_ex (en_seq e) (en_event e)) b = Ok (concat (ps_lines <$> secs)))
    ∧ NoDup (en_seq <$> concat batches) ∧ (∀ n, n ∈ [0; 1; 2] → n ∈ en_seq <$> concat batches)
    ∧ (start_ex, Nack) ∈ tw_settled resolved_ex ∧ (start_ex, Ack) ∈ tw_settled resolved_ex.
Proof.
  assert (Hrow : ∃ row, trace_index (tw_db resolved_ex) !! traced_ex = Some row ∧ Forall (λ n, recorded row n) [0; 1; 2]).
  { vm_compute. eexists. split; [reflexivity|]. repeat constructor. }
  destruct Hrow as (row & Hrow & Hrec). rewrite Forall_forall in Hrec.
  pose proof (trace_archive_exact sha_ex id validate_ex dump_ex (λ _, None) 5 (λ i, i ∈ items_ex) (λ _ _, True) validate_ex_seq attempts_ex tt ∅ resolved_ex
                resolved_reachable) as [Harch _].
  destruct (Harch traced_ex row Hrow) as (batches & Hrefs & _ & Hopen & Hnd & Hnum & _). exists row, batches. split_and!; [done..| |done| | |].
  - intros b Hb. destruct (Hopen (λ _ _, I) b Hb) as (c & secs & Hc & Hd & Hl). exists secs. split; [|done].
    injection Hd as Hd. apply list_fmap_eq_inj in Hd; [by rewrite <- Hd|]. by intros ? ? [=].
  - intros n Hn. by apply Hnum, Hrec.
  - rewrite settled_ex. by apply (list_elem_of_lookup_2 _ 1).
  - rewrite settled_ex. by apply (list_elem_of_lookup_2 _ 2).
Defined.

(** The run stays incomplete while number 1 is missing, and closes when it comes. *)
Lemma trace_completeness_witness :
  (∃ row, trace_index (tw_db lost_ack_ex) !! traced_ex = Some row ∧ ti_outcome_status row = T_INCOMPLETE
     ∧ ¬ is_Some (learning_job (tw_db lost_ack_ex) !! traced_ex))
  ∧ ∃ row batches, trace_index (tw_db resolved_ex) !! traced_ex = Some row ∧ ti_outcome_status row = T_OK
     ∧ archived_events (draws := unit) dump_ex (λ _ _, True) resolved_ex traced_ex row batches ∧ ∃ s, archived_whole (concat batches) s.
Proof.
  assert (Hlost : ∃ row, trace_index (tw_db lost_ack_ex) !! traced_ex = Some row ∧ ti_outcome_status row = T_INCOMPLETE)
    by (vm_compute; eexists; split; reflexivity).
  assert (Hres : ∃ row, trace_index (tw_db resolved_ex) !! traced_ex = Some row ∧ ti_outcome_status row = T_OK)
    by (vm_compute; eexists; split; reflexivity).
  split; [destruct Hlost as (row & Hrow & Hst)|destruct Hres as (row & Hrow & Hst)]; exists row.
  - destruct (trace_completeness sha_ex id validate_ex dump_ex (λ _, None) 5 (λ i, i ∈ items_ex) (λ _ _, True) validate_ex_seq attempts_ex tt ∅ lost_ack_ex
                traced_ex row lost_ack_reachable Hrow) as (batches & _ & Hyes & _ & _ & Hjob & _). split_and!; [exact Hrow|exact Hst|].
    rewrite Hjob. intros [s Hs]. destruct (Hyes s Hs) as [_ Ht]. by rewrite Hst in Ht.
  - destruct (trace_completeness sha_ex id validate_ex dump_ex (λ _, None) 5 (λ i, i ∈ items_ex) (λ _ _, True) validate_ex_seq attempts_ex tt ∅ resolved_ex
                traced_ex row resolved_reachable Hrow) as (batches & Harch & _ & _ & _ & Hjob & _). exists batches. split_and!; [exact Hrow|exact Hst|exact Harch|].
    apply Hjob. by vm_compute; eexists.
Defined.

Lemma clean_attempt_ex pairs : Forall (λ p : pair, p.2 ∈ items_ex) pairs → clean_attempt dump_ex (λ _ _, True) tt traced_ex pairs (attempt_ex CommitApplied).
Proof. intros Hp. split; try done. eapply Forall_impl; [exact Hp|]. intros p [-> | [-> | ->]]%items_ex_cases; done. Qed.

(** The middle event alone gets through after the lost acknowledgement; in the end the run
    is finished. *)
Lemma well_formed_run_resolves_witness :
  (∃ m w', process_group sha_ex id dump_ex (λ _, None) 5 traced_ex [(env_ex call_item_ex, call_item_ex)] (attempt_ex CommitApplied)
             lost_ack_ex = (Ok m, w') ∧ (call_item_ex, Ack) ∈ tw_settled w')
  ∧ ∃ row, trace_index (tw_db resolved_ex) !! traced_ex = Some row ∧ ti_outcome_status row = T_OK.
Proof.
  pose proof (λ w, well_formed_run_resolves sha_ex id validate_ex dump_ex (λ _, None) 5 (λ i, i ∈ items_ex) (λ _ _, True) validate_ex_seq attempts_ex tt ∅ w
                traced_ex _ 2 _ well_formed_ex ltac:(done)) as Hthm. split.
  - destruct (proj1 (Hthm lost_ack_ex lost_ack_reachable) [(env_ex call_item_ex, call_item_ex)] (attempt_ex CommitApplied))
      as (m & w' & Hp & Hack); [done| | |].
    + apply Forall_singleton. split_and!; [by apply (list_elem_of_lookup_2 _ 1)|apply items_ex_parse; by apply (list_elem_of_lookup_2 _ 1)|done].
    + apply clean_attempt_ex, Forall_singleton. by apply (list_elem_of_lookup_2 _ 1).
    + exists m, w'. split; [done|]. apply (Hack (env_ex call_item_ex, call_item_ex)). left.
  - destruct (proj2 (Hthm resolved_ex resolved_reachable)) as (row & Hrow & Hst & _).
    + assert (Hacks : ∀ i, i ∈ items_ex → (i, Ack) ∈ tw_settled resolved_ex)
        by (rewrite settled_ex; intros i [-> | [-> | ->]]%items_ex_cases; repeat constructor).
      intros m Hm. assert (Hi : ∃ i, i ∈ items_ex ∧ en_seq (env_ex i) = m).
      { assert (m = 0 ∨ m = 1 ∨ m = 2) as [-> | [-> | ->]] by lia;
          [exists start_ex|exists call_item_ex|exists end_ex]; (split; [|by vm_compute]);
          [by apply (list_elem_of_lookup_2 _ 0)|by apply (list_elem_of_lookup_2 _ 1)|by apply (list_elem_of_lookup_2 _ 2)]. }
      destruct Hi as (i & Hi & Hseq). exists i, (env_ex i). split_and!; [by apply Hacks| |by apply items_ex_parse|done].
      by destruct (items_ex_cases i Hi) as [-> | [-> | ->]].
    + exists row. split; [done|]. by rewrite Hst.
Defined.

(** ** Two behaviours the comments describe otherwise *)

(** A non-end event recorded by an earlier batch shadows a [run_end] of the same number: the
    sentinel is acknowledged, nothing of it is recorded, and the run stays pending. *)
Definition shadowing_ex : QueueItem := queued_ex 2 "tool_call" [].
Definition shadowed_ex : tworld (list PlainSection) unit :=
  (ingest_ex [end_ex] CommitApplied (ingest_ex [start_ex; call_item_ex; shadowing_ex] CommitApplied (empty_world tt ∅)).2).2.

Lemma recorded_event_shadows_sentinel :
  last (tw_settled shadowed_ex) = Some (end_ex, Ack)
  ∧ ∃ row, trace_index (tw_db shadowed_ex) !! traced_ex = Some row ∧ ti_outcome_status row = T_PENDING
      ∧ parse_seq (dict_get (path_of (Some row)) PATH_END_SEQ) = None
      ∧ Forall (λ n, recorded row n) [0; 1; 2].
Proof.
  split; [vm_compute; reflexivity|].
  assert (Hrow : (λ row, (ti_outcome_status row, parse_seq (dict_get (path_of (Some row)) PATH_END_SEQ),
                          contains (from_path (dict_get (path_of (Some row)) PATH_SEQ_RANGES)) <$> [0; 1; 2]))
                 <$> trace_index (tw_db shadowed_ex) !! traced_ex = Some (T_PENDING, None, [true; true; true]))
    by (vm_compute; reflexivity).
  apply fmap_Some in Hrow as (row & Hrow & Heq). injection Heq as Hst Hend H0 H1 H2. exists row. by repeat constructor.
Qed.

(** A refused item is dead-lettered at once, whatever attempts it has left: it is rejected,
    never returned to the queue. *)
Lemma malformed_item_rejected {payload keys draws} `{!SubjectKeys payload keys draws, !TraceStore} sha256 nfc_casefold validate_business dump_event server_arm
    max_attempts i attempts (w : tworld payload keys) : parse_item sha256 nfc_casefold validate_business i = None →
  run_once sha256 nfc_casefold validate_business dump_event server_arm max_attempts [i] attempts w
  = (Ok 0, mkTWorld (tw_db w) (tw_objects w) (tw_settled w ++ [(i, Reject MALFORMED)])).
Proof. intros Hp. unfold run_once. cbn [group_items]. by rewrite Hp. Qed.
