(* ===== verification/TraceArchive.v ===== *)
(** * The strict archive reader (ingest/trace_archive.py)

    Reads the archive of a finished run back: the index row, the references in its path, the
    objects, their keys and their events, each checked against the others; what it cannot
    accept is one of three dispositions with a fixed code.  The index, the object store and
    the key table are what the reader meets ([archive_env]); pydantic's validation of an event
    is a parameter.  Objects of the format before [tb-env/2] are outside the model. *)

From S2P Require Import Prelude Domain Erasure ValkeyKeys PyText Json JsonLoads Memory SeqSet Envelope Sections Shred TraceWriter.
Open Scope Z_scope.

Definition TRACE_UNAVAILABLE : pystr := of_ascii "trace_unavailable".
Definition ARCHIVE_INVALID : pystr := of_ascii "archive_invalid".
Definition ARCHIVE_AUTH_FAILED : pystr := of_ascii "archive_auth_failed".
Definition ARCHIVE_DIGEST_MISMATCH : pystr := of_ascii "archive_digest_mismatch".
Definition PRIVACY_TOMBSTONED : pystr := of_ascii "privacy_tombstoned".
Definition DIGEST_DOMAIN : list Z := of_ascii "tracebed.archive-ciphertext/v1" ++ [0].

Inductive TraceArchiveDisposition := RETRY | DEAD | PRIVACY_SKIP.

(** [TraceArchiveReadError], or an exception on its way to the handlers of [read_complete]. *)
Inductive archive_err :=
| ReadError (disposition : TraceArchiveDisposition) (code : pystr) (observed_digest : option (list Z))
| Raised (e : cerr).

Definition dead_invalid : archive_err := ReadError DEAD ARCHIVE_INVALID None.
Definition retry_unavailable : archive_err := ReadError RETRY TRACE_UNAVAILABLE None.

Definition raised {A} (r : result cerr A) : result archive_err A := match r with Ok a => Ok a | Err e => Err (Raised e) end.
Definition raised_exn {A} (r : result exn A) : result archive_err A := raised (lift r).

(** The handlers of [read_complete]. *)
Definition disposition_of (e : archive_err) : archive_err :=
  match e with
  | Raised KeyMaterialUnavailable => retry_unavailable
  | Raised (KeyBindingMismatch | NotFoundPayload) => dead_invalid
  | Raised InvalidTag => ReadError DEAD ARCHIVE_AUTH_FAILED None
  | Raised (CExn (ValueError | TypeError | KeyError)) => dead_invalid
  | _ => e
  end.

Record SubjectKeyBinding := mkBinding {
  kb_subject_tag : option pystr;
  kb_key_id : uuid;
  kb_subject_digest : option (list Z);
}.

Record ArchivedTrace := mkArchived {
  ar_index : TraceIndexRow;
  ar_events : list TraceEvent;
  ar_trace_digest : list Z;
  ar_subject_key_bindings : list SubjectKeyBinding;
}.

Record ArchiveObject := mkObject {
  ob_ref_text : pystr;
  ob_raw : list Z;
  ob_payload : EncryptedPayload;
  ob_first_seq : Z;
  ob_last_seq : Z;
  ob_version : Z;
}.

(** What the reader meets.  The index: a row with its key, no row, or no connection.  An object:
    its bytes, unless the store fails.  The key table while an object is decrypted, unless the
    connection fails. *)
Inductive index_answer := IndexRow (k : run_key) (row : TraceIndexRow) | IndexMissing | IndexUnreachable.

Record archive_env := mkArchiveEnv {
  ae_index : index_answer;
  ae_get : pystr → option (list Z);
  ae_keys : pystr → option key_table;
}.

(** ** References *)

Inductive driver := FS | S3.
Record PayloadRef := mkRef { pr_driver : driver; pr_key : pystr }.

Definition payload_ref_parse (ref : pystr) : result exn PayloadRef :=
  if py_startswith ref (of_ascii "fs://") then Ok (mkRef FS (drop 5 ref))
  else if py_startswith ref (of_ascii "s3://") then Ok (mkRef S3 (drop 5 ref)) else Err ValueError.

Definition MAX_KEY_LEN : nat := 512.

Definition is_safe_key (key : pystr) : bool :=
  negb (bool_decide (key = [])) && (length key <=? MAX_KEY_LEN)%nat
  && negb (bool_decide (92 ∈ key)) && negb (bool_decide (0 ∈ key)) && negb (py_startswith key [47])
  && let segments := split_on 47 [] key in
     negb (bool_decide (58 ∈ default [] (head segments)))
     && forallb (λ s, negb (bool_decide (s = [])) && negb (bool_decide (s = [46])) && negb (bool_decide (s = [46; 46]))) segments.

Definition leaf_seq (leaf : pystr) : result exn Z :=
  check! (length leaf =? 8)%nat && forallb is_digit leaf else ValueError in
  match dec_read 0 leaf with Some n => Ok n | None => Err ValueError end.

Definition py_endswith (s suffix : pystr) : bool := bool_decide (drop (length s - length suffix) s = suffix).

Definition ref_first_seq (ref : PayloadRef) (p : ProjectId) (r : RunId) : result exn Z :=
  let project := uuid_str (ProjectId_value p) in
  let run := uuid_str (RunId_value r) in
  match pr_driver ref, split_on 47 [] (pr_key ref) with
  | FS, [a; b; leaf] =>
      check! bool_decide (a = project) && bool_decide (b = run) && py_endswith leaf (of_ascii ".tbz") else ValueError in
      leaf_seq (take (length leaf - 4) leaf)
  | S3, [bucket; tb; a; b; leaf] =>
      check! negb (bool_decide (bucket = [])) && bool_decide (tb = of_ascii "tb") && bool_decide (a = project) && bool_decide (b = run)
      else ValueError in
      leaf_seq leaf
  | _, _ => Err ValueError
  end.

(** A reference of the path, bound to the run: the first number of its object. *)
Definition check_ref (p : ProjectId) (r : RunId) (end_seq : Z) (ref_text : pystr) : result archive_err (pystr * Z) :=
  let! ref := raised_exn (payload_ref_parse ref_text) in
  check! is_safe_key (pr_key ref) else dead_invalid in
  let! first := raised_exn (ref_first_seq ref p r) in
  check! (first <=? end_seq) && (first <=? MAX_TRACE_SEQ) else dead_invalid in
  Ok (ref_text, first).

(** ** The index row *)

Definition strict_ref (j : json) : result archive_err pystr :=
  match j with JStr s => check! negb (py_blank s) else dead_invalid in Ok s | _ => Err dead_invalid end.

Definition strict_index_path (row : TraceIndexRow) : result archive_err (Z * pystr * list pystr) :=
  match ti_path row with
  | None => Err dead_invalid
  | Some path =>
      match parse_seq (dict_get path PATH_END_SEQ), parse_end_status (dict_get path PATH_END_STATUS) with
      | Some end_seq, Some end_status =>
          match dict_get path PATH_SEQ_RANGES, dict_get path PATH_PAYLOAD_REFS with
          | Some (JArr [JArr [JInt lo; JInt hi]]), raw_refs =>
              check! (lo =? 0) && (hi =? end_seq) && (hi <=? MAX_TRACE_SEQ) else dead_invalid in
              match raw_refs with
              | Some (JArr (j :: js)) =>
                  let! refs := rmap strict_ref (j :: js) in
                  check! bool_decide (NoDup refs) && bool_decide (ti_payload_ref row = head refs) else dead_invalid in
                  Ok (end_seq, end_status, refs)
              | _ => Err dead_invalid
              end
          | _, _ => Err dead_invalid
          end
      | _, _ => Err dead_invalid
      end
  end.

(** ** Objects *)

Section Reader.
Context `{Sha256, AesGcm} (master : list Z) (validate_event : list (pystr * json) → option TraceEvent).

(** [json.loads] with duplicate keys and the non-finite constants refused. *)
Definition strict_json (text : pystr) : result exn json :=
  match json_loads no_duplicates text with Some j => Ok j | None => Err ValueError end.

Definition strict_payload (raw : list Z) : result archive_err EncryptedPayload :=
  let! text := raised_exn (utf8_decode raw) in
  check! negb (bool_decide (13 ∈ text)) && bool_decide (last text = Some 10) else dead_invalid in
  let lines := split_on 10 [] (take (length text - 1) text) in
  check! forallb (λ l, negb (bool_decide (l = []))) lines else dead_invalid in
  let! values := raised_exn (rmap strict_json lines) in
  check! forallb (λ j, match j with JObj _ => true | _ => false end) values else dead_invalid in
  raised_exn (from_bytes_v2 raw).

Definition validate_header (c : EncryptedPayload) (p : ProjectId) (r : RunId) : result archive_err (Z * Z) :=
  let h := pl_header c in
  check! has_int h "v" V2_ENVELOPE_VERSION && has_str h "fmt" V2_ENVELOPE_FMT
         && has_str h "project_id" (uuid_str (ProjectId_value p)) && has_str h "run_id" (uuid_str (RunId_value r)) else dead_invalid in
  match parse_seq (get h "first_seq"), parse_seq (get h "last_seq") with
  | Some first, Some last => check! first <=? last else dead_invalid in Ok (first, last)
  | _, _ => Err dead_invalid
  end.

Definition read_object (get_bytes : pystr → option (list Z)) (p : ProjectId) (r : RunId) (ref : pystr * Z) : result archive_err ArchiveObject :=
  match get_bytes ref.1 with
  | None => Err retry_unavailable
  | Some raw =>
      let! payload := strict_payload raw in
      let! (first, last) := validate_header payload p r in
      check! first =? ref.2 else dead_invalid in
      check! negb (bool_decide (pl_sections payload = [])) else dead_invalid in
      match get (pl_header payload) "v" with
      | Some (JInt v) => check! v =? V2_ENVELOPE_VERSION else dead_invalid in Ok (mkObject ref.1 raw payload first last v)
      | _ => Err dead_invalid
      end
  end.

(** [key=lambda item: (item.first_seq, item.ref_text.encode("utf-8"))] *)
Definition object_leb (a b : ArchiveObject * list Z) : bool :=
  (ob_first_seq a.1 <? ob_first_seq b.1) || ((ob_first_seq a.1 =? ob_first_seq b.1) && str_leb a.2 b.2).

Definition read_objects (get_bytes : pystr → option (list Z)) (p : ProjectId) (r : RunId) (refs : list pystr) (end_seq : Z)
  : result archive_err (list ArchiveObject) :=
  check! Z.of_nat (length refs) <=? end_seq + 1 else dead_invalid in
  let! validated := rmap (check_ref p r end_seq) refs in
  let! objects := rmap (read_object get_bytes p r) validated in
  let! keyed := raised_exn (rmap (λ o, let! b := utf8_encode (ob_ref_text o) in Ok (o, b)) objects) in
  Ok (py_sorted object_leb keyed).*1.

(** ** Keys *)

Definition wrap_binding (wrap : json) : result archive_err (list Z * uuid) :=
  match wrap with
  | JObj w =>
      match get w "key_id" with
      | Some (JStr text) =>
          match uuid_new text, b64d_canonical (get w "digest") with
          | Ok key_id, Ok digest => Ok (digest, key_id)
          | _, _ => Err dead_invalid
          end
      | _ => Err dead_invalid
      end
  | _ => Err dead_invalid
  end.

Definition section_wraps (s : dict) : result archive_err (list json) :=
  match get s "wraps" with Some (JArr wraps) => Ok wraps | _ => Err dead_invalid end.

(** [by_digest.setdefault], refusing a second key of one digest. *)
Fixpoint bind_all (by_digest : list (list Z * uuid)) (wraps : list json) : result archive_err (list (list Z * uuid)) :=
  match wraps with
  | [] => Ok by_digest
  | wrap :: wraps' =>
      let! (digest, key_id) := wrap_binding wrap in
      match dict_get by_digest digest with
      | None => bind_all (by_digest ++ [(digest, key_id)]) wraps'
      | Some old => check! bool_decide (old = key_id) else dead_invalid in bind_all by_digest wraps'
      end
  end.

Definition subject_key_bindings (objects : list ArchiveObject) : result archive_err (list SubjectKeyBinding) :=
  let! wraps := rmap section_wraps (concat ((λ o, pl_sections (ob_payload o)) <$> objects)) in
  let! by_digest := bind_all [] (concat wraps) in
  Ok ((λ x, mkBinding None x.2 (Some x.1)) <$> py_sorted (λ a b, str_leb a.1 b.1) by_digest).

(** ** The digest of the ciphertext *)

(** [struct.pack] of an unsigned field of [k] bytes. *)
Definition struct_pack (k : nat) (n : Z) : result exn (list Z) :=
  check! (0 <=? n) && (n <? 256 ^ Z.of_nat k) else ValueError in Ok (int_to_bytes_big k n).

Definition object_frame (o : ArchiveObject) : result exn (list Z) :=
  let! ref_bytes := utf8_encode (ob_ref_text o) in
  let! a := struct_pack 8 (ob_first_seq o) in
  let! b := struct_pack 8 (ob_last_seq o) in
  let! c := struct_pack 4 (Z.of_nat (length ref_bytes)) in
  let! d := struct_pack 8 (Z.of_nat (length (ob_raw o))) in
  Ok (a ++ b ++ c ++ ref_bytes ++ d ++ ob_raw o).

Definition ciphertext_digest (p : ProjectId) (r : RunId) (objects : list ArchiveObject) : result exn (list Z) :=
  let! count := struct_pack 4 (Z.of_nat (length objects)) in
  let! frames := rmap object_frame objects in
  Ok (sha256 (DIGEST_DOMAIN ++ uuid_bytes (ProjectId_value p) ++ uuid_bytes (RunId_value r) ++ count ++ concat frames)).

(** ** Events *)

(** [decoded] and [run_ends] *)
Record decoding := mkDecoding { dc_events : gmap Z TraceEvent; dc_ends : list (Z * TraceEvent) }.

Definition decode_line (p : ProjectId) (s : PlainSection) (st : decoding) (previous : Z) (line : list Z) : result archive_err (decoding * Z) :=
  let! text := raised_exn (utf8_decode line) in
  let! value := raised_exn (strict_json text) in
  match value with
  | JObj v =>
      check! same_keys v ["seq"; "event"]%string else dead_invalid in
      match get v "seq", get v "event" with
      | Some (JInt seq), Some (JObj event_raw) =>
          check! (ps_seq_from s <=? seq) && (seq <=? ps_seq_to s) && (previous <? seq)
                 && negb (bool_decide (is_Some (dc_events st !! seq))) else dead_invalid in
          let! event := raised_exn (match validate_event event_raw with Some ev => Ok ev | None => Err ValueError end) in
          match subject_digest_pairs p (subject_tags_for event) with
          | Ok pairs =>
              check! bool_decide (pairs.*1 = ps_subject_digests s) else dead_invalid in
              Ok (mkDecoding (<[seq := event]> (dc_events st))
                    (if bool_decide (ev_type event = E_run_end) then dc_ends st ++ [(seq, event)] else dc_ends st), seq)
          | Err _ => Err dead_invalid
          end
      | _, _ => Err dead_invalid
      end
  | _ => Err dead_invalid
  end.

(** The lines in turn; the numbers read, in order. *)
Fixpoint decode_lines (p : ProjectId) (s : PlainSection) (st : decoding) (previous : Z) (lines : list (list Z))
  : result archive_err (decoding * list Z) :=
  match lines with
  | [] => Ok (st, [])
  | line :: lines' =>
      let! (st, seq) := decode_line p s st previous line in
      let! (st, seqs) := decode_lines p s st seq lines' in
      Ok (st, seq :: seqs)
  end.

Definition validate_plain_section (p : ProjectId) (s : PlainSection) (st : decoding) : result archive_err decoding :=
  check! negb (bool_decide (ps_lines s = [])) else dead_invalid in
  let! (st, actual) := decode_lines p s st (-1) (ps_lines s) in
  match actual with
  | [] => Err (Raised (CExn ValueError))
  | a :: l => check! (foldl Z.min a l =? ps_seq_from s) && (foldl Z.max a l =? ps_seq_to s) else dead_invalid in Ok st
  end.

Fixpoint decode_sections (p : ProjectId) (st : decoding) (tombstoned : bool) (sections : list OpenedSection) : result archive_err (decoding * bool) :=
  match sections with
  | [] => Ok (st, tombstoned)
  | Tombstoned _ :: sections' => decode_sections p st true sections'
  | Plain s :: sections' => let! st := validate_plain_section p s st in decode_sections p st tombstoned sections'
  end.

Fixpoint decode_objects (keys : pystr → option key_table) (p : ProjectId) (st : decoding) (tombstoned : bool) (objects : list ArchiveObject)
  : result archive_err (decoding * bool) :=
  match objects with
  | [] => Ok (st, tombstoned)
  | o :: objects' =>
      match keys (ob_ref_text o) with
      | None => Err retry_unavailable
      | Some ks =>
          let! sections := raised (decrypt_v2 master ks p (ob_payload o)) in
          let! (st, tombstoned) := decode_sections p st tombstoned sections in
          decode_objects keys p st tombstoned objects'
      end
  end.

Definition outcome_value (s : TraceOutcomeStatus) : pystr :=
  of_ascii match s with T_PENDING => "pending" | T_OK => "ok" | T_ERROR => "error" | T_CANCELLED => "cancelled" | T_INCOMPLETE => "incomplete" end.

(** [tuple(decoded[seq] for seq in range(end_seq + 1))] *)
Definition events_upto (st : decoding) (end_seq : Z) : result archive_err (list TraceEvent) :=
  raised_exn (rmap (λ n, match dc_events st !! n with Some e => Ok e | None => Err KeyError end) (seqZ 0 (end_seq + 1))).

(** The checks after decoding. *)
Definition finish_archive (row : TraceIndexRow) (end_seq : Z) (end_status : pystr) (digest : list Z) (bindings : list SubjectKeyBinding)
  (st : decoding) : result archive_err ArchivedTrace :=
  check! bool_decide (dom (dc_events st) = (list_to_set (seqZ 0 (end_seq + 1)) : gset Z)) else dead_invalid in
  match dc_ends st with
  | [(seq, e)] =>
      check! (seq =? end_seq) && bool_decide (ev_type e = E_run_end) else dead_invalid in
      check! bool_decide (parse_end_status (dict_get (ev_payload e) (of_ascii "status")) = Some end_status) else dead_invalid in
      check! bool_decide (end_status = outcome_value (ti_outcome_status row)) && bool_decide (Some (ev_ts e) = ti_ended_at row) else dead_invalid in
      let! events := events_upto st end_seq in
      Ok (mkArchived row events digest bindings)
  | _ => Err dead_invalid
  end.

(** The column of versions is never NULL in a row of this writer; the source skips its comparison for a NULL. *)
Definition read_checked (env : archive_env) (p : ProjectId) (r : RunId) (row : TraceIndexRow) (expected_digest : option (list Z))
  : result archive_err ArchivedTrace :=
  let! (end_seq, end_status, refs) := strict_index_path row in
  let! objects := read_objects (ae_get env) p r refs end_seq in
  let! bindings := subject_key_bindings objects in
  check! bool_decide (ti_envelope_versions row = py_sorted Z.leb (remove_dups (ob_version <$> objects))) else dead_invalid in
  let! digest := raised_exn (ciphertext_digest p r objects) in
  check! (match expected_digest with Some d => bool_decide (d = digest) | None => true end)
  else ReadError DEAD ARCHIVE_DIGEST_MISMATCH (Some digest) in
  let! (st, tombstoned) := decode_objects (ae_keys env) p (mkDecoding ∅ []) false objects in
  if tombstoned : bool then Err (ReadError PRIVACY_SKIP PRIVACY_TOMBSTONED (Some digest))
  else finish_archive row end_seq end_status digest bindings st.

Definition read_complete_body (env : archive_env) (p : ProjectId) (r : RunId) (expected_digest : option (list Z)) (expected_ended_at : option datetime)
  : result archive_err ArchivedTrace :=
  match ae_index env with
  | IndexMissing => Err dead_invalid
  | IndexUnreachable => Err retry_unavailable
  | IndexRow k row =>
      check! bool_decide (k = (p, r)) else dead_invalid in
      check! is_terminal (ti_outcome_status row) && negb (bool_decide (ti_ended_at row = None)) else dead_invalid in
      check! (match expected_ended_at with Some _ => bool_decide (ti_ended_at row = expected_ended_at) | None => true end) else dead_invalid in
      read_checked env p r row expected_digest
  end.

Definition read_complete (env : archive_env) (p : ProjectId) (r : RunId) (expected_digest : option (list Z)) (expected_ended_at : option datetime)
  : result archive_err ArchivedTrace :=
  match (check! (match expected_digest with Some d => (length d =? 32)%nat | None => true end) else dead_invalid in
         read_complete_body env p r expected_digest expected_ended_at) with
  | Ok a => Ok a
  | Err e => Err (disposition_of e)
  end.

End Reader.
