(* ===== verification/TraceRefs.v ===== *)
(** * The references of the two stores, as the reader checks them

    What the archive reader asks of a store's references ([ReadableRefs]), and that both
    drivers' references have it: the file store's, and the object store's for a bucket name
    its naming rules allow. *)

From S2P Require Import Prelude Domain Erasure ValkeyKeys ValkeyErase PyText Json JsonLoads Memory SeqSet Envelope Sections Shred TraceWriter TraceArchive.
Open Scope Z_scope.

(** What the reader asks of the references a store hands out. *)
Class ReadableRefs (STORE : TraceStore) := {
  ref_checks : ∀ p r n m, seq_bounded n → n <= m → check_ref p r m (object_ref p r n) = Ok (object_ref p r n, n);
  ref_encodes : ∀ p r n, seq_bounded n → ∃ bs, utf8_encode (object_ref p r n) = Ok bs ∧ Z.of_nat (length bs) < 256 ^ 4;
  ref_strict : ∀ p r n, strict_ref (JStr (object_ref p r n)) = Ok (object_ref p r n);
}.

(** ** Segments *)

Abbreviation slash_join := (py_join [47]).

Definition segment_char (c : Z) : Prop := 45 <= c <= 122 ∧ c ≠ 47 ∧ c ≠ 58 ∧ c ≠ 92.
Definition segment (s : pystr) : Prop := Forall segment_char s ∧ s ∉ [[]; [46]; [46; 46]].

Lemma uuid_segment u : segment (uuid_str u).
Proof.
  assert (Hh : ∀ k n, Forall segment_char (hex_pad k n)).
  { induction k as [|k IH]; intros n; [constructor|]. cbn [hex_pad]. apply Forall_app. split; [done|]. constructor; [|done].
    pose proof (Z.mod_pos_bound n 16 ltac:(lia)). unfold segment_char, hex_char. case_match; lia. }
  split.
  - assert (Hy : Forall segment_char [45]) by (constructor; [unfold segment_char; lia|done]).
    unfold uuid_str. repeat apply Forall_app_2; auto using Forall_take, Forall_drop.
  - rewrite !elem_of_cons, elem_of_nil. intros [Hu|[Hu|[Hu|[]]]]; apply (f_equal length) in Hu; by rewrite length_uuid_str in Hu.
Qed.

Lemma dec_digits_length k : ∀ n j, 0 <= n < 10 ^ Z.of_nat j → (1 <= j)%nat → (length (dec_digits k n) <= j)%nat.
Proof.
  induction k as [|k IH]; intros n j Hn Hj; cbn [dec_digits]; [cbn; lia|]. destruct (Z.ltb_spec n 10); [cbn; lia|].
  destruct j as [|[|j]]; [lia|cbn in Hn; lia|]. rewrite length_app. cbn [length].
  assert (Hl : (length (dec_digits k (n / 10)) <= S j)%nat); [|lia]. apply IH; [|lia].
  split; [apply Z.div_pos; lia|]. apply Z.div_lt_upper_bound; [lia|]. rewrite Nat2Z.inj_succ, Z.pow_succ_r in Hn by lia. lia.
Qed.

Lemma leaf_digits n : 0 <= n → Forall (λ c, 48 <= c <= 57) (format_08d n).
Proof. intros Hn. unfold format_08d. apply Forall_app. split; [apply Forall_replicate; lia|by apply dec_str_chars]. Qed.

Lemma leaf_read n : 0 <= n → dec_read 0 (format_08d n) = Some n.
Proof.
  intros Hn. unfold format_08d. rewrite dec_read_app. assert (Hz : ∀ j, dec_read 0 (replicate j 48) = Some 0) by (by induction j; cbn).
  rewrite Hz. by apply dec_str_read.
Qed.

Lemma leaf_length n : seq_bounded n → length (format_08d n) = 8%nat.
Proof.
  intros [Hlo Hhi]. unfold format_08d. rewrite length_app, length_replicate. assert (Hl : (length (dec_str n) <= 8)%nat); [|lia].
  unfold dec_str. destruct (Z.ltb_spec n 0); [lia|]. apply dec_digits_length; [|lia]. unfold MAX_TRACE_SEQ in Hhi. cbn. lia.
Qed.

Lemma leaf_seq_format n : seq_bounded n → leaf_seq (format_08d n) = Ok n.
Proof.
  intros Hn. unfold leaf_seq. rewrite leaf_length, leaf_read by (done || by destruct Hn). rewrite (proj2 (forallb_forall _ _)); [done|].
  intros c Hc%list_elem_of_In. apply (proj1 (Forall_forall _ _) (leaf_digits n ltac:(by destruct Hn))) in Hc. unfold is_digit. lia.
Qed.

Lemma leaf_segment n suffix : seq_bounded n → Forall segment_char suffix → segment (format_08d n ++ suffix).
Proof.
  intros Hn Hs. split.
  - apply Forall_app. split; [|done]. eapply Forall_impl; [apply leaf_digits; by destruct Hn|]. unfold segment_char. cbn. lia.
  - rewrite !elem_of_cons, elem_of_nil. intros [Hu|[Hu|[Hu|[]]]]; apply (f_equal length) in Hu; rewrite length_app, leaf_length in Hu by done; cbn in Hu; lia.
Qed.

(** ** Keys *)

Lemma segment_no c s : segment s → ¬ segment_char c → c ∉ s.
Proof. intros [Hs _] Hc Hin. by apply Hc, (proj1 (Forall_forall _ _) Hs). Qed.

Lemma split_join segs : segs ≠ [] → Forall segment segs → split_on 47 [] (slash_join segs) = segs.
Proof.
  intros Hne Hs. induction Hs as [|s segs Hseg Hs IH]; [done|]. assert (H47 : 47 ∉ s) by (apply segment_no; [done|unfold segment_char; lia]).
  destruct segs as [|s' segs]; [by apply split_on_last|]. change (slash_join (s :: s' :: segs)) with (s ++ 47 :: slash_join (s' :: segs)).
  rewrite split_on_sep by done. by rewrite IH.
Qed.

Lemma join_chars (P : Z → Prop) segs : P 47 → Forall (Forall P) segs → Forall P (slash_join segs).
Proof.
  intros H47. induction 1 as [|s segs Hs Hall IH]; [constructor|]. destruct segs as [|s' segs]; [done|].
  change (slash_join (s :: s' :: segs)) with (s ++ 47 :: slash_join (s' :: segs)). apply Forall_app. split; [done|]. by constructor.
Qed.

Lemma join_head s segs : segment s → ∃ c rest, slash_join (s :: segs) = c :: rest ∧ c ≠ 47.
Proof.
  intros [Hs Hn]. destruct s as [|c s]; [destruct Hn; left|]. apply Forall_cons in Hs as [Hc _]. unfold segment_char in Hc.
  destruct segs as [|s' segs]; [exists c, s|exists c, (s ++ [47] ++ slash_join (s' :: segs))]; (split; [done|lia]).
Qed.

Lemma safe_join segs : segs ≠ [] → Forall segment segs → (length (slash_join segs) <= MAX_KEY_LEN)%nat → is_safe_key (slash_join segs) = true.
Proof.
  intros Hne Hs Hlen. unfold is_safe_key. rewrite split_join by done.
  assert (Hc : Forall (λ c, c ≠ 92 ∧ c ≠ 0) (slash_join segs)).
  { apply join_chars; [lia|]. eapply Forall_impl; [exact Hs|]. intros s [Hsc _]. eapply Forall_impl; [exact Hsc|]. unfold segment_char. lia. }
  rewrite Forall_forall in Hc. rewrite (proj2 (Nat.leb_le _ _)) by done. rewrite (bool_decide_eq_false_2 (92 ∈ _)) by (intros Hx%Hc; lia).
  rewrite (bool_decide_eq_false_2 (0 ∈ _)) by (intros Hx%Hc; lia). destruct segs as [|s segs]; [done|].
  destruct (join_head s segs) as (c & rest & -> & Hne47); [by apply Forall_cons in Hs as [? _]|]. rewrite bool_decide_eq_false_2 by done.
  cbn [py_startswith negb andb head default]. rewrite (bool_decide_eq_false_2 (47 = c)) by congruence. cbn [andb negb].
  rewrite (bool_decide_eq_false_2 (58 ∈ _)) by (apply segment_no; [by apply Forall_cons in Hs as [? _]|unfold segment_char; lia]). cbn [negb andb].
  apply forallb_forall. intros x Hx%list_elem_of_In. apply (proj1 (Forall_forall _ _) Hs) in Hx as [_ Hx]. rewrite !not_elem_of_cons in Hx.
  destruct Hx as (? & ? & ? & _). by rewrite !bool_decide_eq_false_2.
Qed.

Lemma startswith_app (a b : pystr) : py_startswith (a ++ b) a = true.
Proof. induction a as [|c a IH]; [by destruct b|]. cbn. by rewrite bool_decide_eq_true_2. Qed.

Lemma ascii_encodes s : Forall (λ c, c < 128) s → (length s < 1024)%nat → ∃ bs, utf8_encode s = Ok bs ∧ Z.of_nat (length bs) < 256 ^ 4.
Proof. intros Hs Hl. exists s. split; [by apply utf8_encode_ascii|]. change (256 ^ 4) with 4294967296. lia. Qed.

Lemma check_join d p r n m segs text : payload_ref_parse text = Ok (mkRef d (slash_join segs)) → segs ≠ [] → Forall segment segs →
  (length (slash_join segs) <= MAX_KEY_LEN)%nat → ref_first_seq (mkRef d (slash_join segs)) p r = Ok n → seq_bounded n → n <= m →
  check_ref p r m text = Ok (text, n).
Proof.
  intros Hp Hne Hs Hlen Hf [_ Hn] Hm. unfold check_ref. rewrite Hp. cbn [raised_exn raised lift rbind pr_key]. rewrite safe_join by done. rewrite Hf.
  cbn [raised_exn raised lift rbind]. by rewrite !(proj2 (Z.leb_le _ _)).
Qed.

Lemma join_ascii segs : Forall segment segs → Forall (λ c, c < 128) (slash_join segs).
Proof.
  intros Hs. apply join_chars; [lia|]. eapply Forall_impl; [exact Hs|]. intros s [Hsc _]. eapply Forall_impl; [exact Hsc|]. unfold segment_char. lia.
Qed.

(** ** The file store *)

Lemma fs_key p r n : fs_object_ref p r n = of_ascii "fs://" ++ slash_join [uuid_str (ProjectId_value p); uuid_str (RunId_value r); format_08d n ++ of_ascii ".tbz"].
Proof. unfold fs_object_ref, object_key. cbn [py_join]. by rewrite <- !app_assoc. Qed.

Lemma fs_segments p r n : seq_bounded n → Forall segment [uuid_str (ProjectId_value p); uuid_str (RunId_value r); format_08d n ++ of_ascii ".tbz"].
Proof.
  intros Hn. constructor; [apply uuid_segment|]. constructor; [apply uuid_segment|]. constructor; [|done]. apply leaf_segment; [done|].
  change (of_ascii ".tbz") with [46; 116; 98; 122]. repeat (constructor; [unfold segment_char; lia|]). constructor.
Qed.

#[export, program] Instance fs_readable : ReadableRefs fs_trace_store.
Next Obligation.
  intros p r n m Hn Hm. change (object_ref p r n) with (fs_object_ref p r n). rewrite fs_key.
  pose proof (fs_segments p r n Hn) as Hseg.
  revert Hseg. set (segs := [_; _; _]). intros Hseg. apply (check_join FS p r n m segs); [|done|done| | |done|done].
  - unfold payload_ref_parse. by rewrite startswith_app.
  - subst segs. cbn [py_join]. rewrite !length_app, !length_uuid_str, leaf_length by done. unfold MAX_KEY_LEN. cbn. lia.
  - unfold ref_first_seq. cbv zeta. cbn [pr_driver pr_key]. rewrite split_join by done. subst segs. cbn iota. rewrite !(bool_decide_eq_true_2 (_ = _)) by done. cbn [andb].
    unfold py_endswith. rewrite length_app. change (length (of_ascii ".tbz")) with 4%nat. rewrite Nat.add_sub, drop_app_length, take_app_length.
    rewrite bool_decide_eq_true_2 by done. by apply leaf_seq_format.
Qed.
Next Obligation.
  intros p r n Hn. change (object_ref p r n) with (fs_object_ref p r n). apply ascii_encodes.
  - rewrite fs_key. apply Forall_app. split.
    + change (of_ascii "fs://") with [102; 115; 58; 47; 47]. repeat (constructor; [lia|]). constructor.
    + by apply join_ascii, fs_segments.
  - unfold fs_object_ref, object_key. rewrite !length_app, !length_uuid_str, leaf_length by done. cbn. lia.
Qed.
Next Obligation. done. Qed.

(** ** The object store *)

(** A bucket name its rules allow: 3 to 63 letters, digits, dots and hyphens. *)
Definition bucket_name (bucket : pystr) : Prop :=
  (3 <= length bucket <= 63)%nat ∧ Forall (λ c, c = 45 ∨ c = 46 ∨ 48 <= c <= 57 ∨ 97 <= c <= 122) bucket.

Section S3.
Context (bucket : pystr) (Hbucket : bucket_name bucket).

Lemma s3_key p r n : s3_object_ref bucket p r n = of_ascii "s3://" ++ slash_join [bucket; of_ascii "tb"; uuid_str (ProjectId_value p); uuid_str (RunId_value r); format_08d n].
Proof using Type.
  unfold s3_object_ref, object_key. change (of_ascii "/tb/") with ([47] ++ of_ascii "tb" ++ [47]). cbn [py_join]. by rewrite <- !app_assoc.
Qed.

Lemma bucket_segment : segment bucket.
Proof.
  destruct Hbucket as [Hl Hc]. split; [eapply Forall_impl; [exact Hc|]; unfold segment_char; cbn; lia|].
  rewrite !elem_of_cons, elem_of_nil. intros [Hu|[Hu|[Hu|[]]]]; rewrite Hu in Hl; cbn in Hl; lia.
Qed.

Lemma s3_segments p r n : seq_bounded n → Forall segment [bucket; of_ascii "tb"; uuid_str (ProjectId_value p); uuid_str (RunId_value r); format_08d n].
Proof.
  intros Hn. constructor; [apply bucket_segment|]. constructor; [|constructor; [apply uuid_segment|]; constructor; [apply uuid_segment|]; constructor; [|done]].
  - split; [|rewrite !elem_of_cons, elem_of_nil; by intros [?|[?|[?|[]]]]]. change (of_ascii "tb") with [116; 98].
    repeat (constructor; [unfold segment_char; lia|]). constructor.
  - rewrite <- (app_nil_r (format_08d n)). by apply leaf_segment.
Qed.

Lemma s3_readable : ReadableRefs (s3_trace_store bucket).
Proof.
  split; intros p r n; change (object_ref p r n) with (s3_object_ref bucket p r n).
  - intros m Hn Hm. rewrite s3_key. pose proof (s3_segments p r n Hn) as Hseg. revert Hseg. set (segs := [_; _; _; _; _]). intros Hseg.
    apply (check_join S3 p r n m segs); [|done|done| | |done|done].
    + unfold payload_ref_parse. by rewrite startswith_app.
    + subst segs. destruct Hbucket as [Hl _]. cbn [py_join]. rewrite !length_app, !length_uuid_str, leaf_length by done. unfold MAX_KEY_LEN. cbn. lia.
    + unfold ref_first_seq. cbv zeta. cbn [pr_driver pr_key]. rewrite split_join by done. subst segs. cbn iota.
      rewrite bool_decide_eq_false_2 by (intros ->; by destruct Hbucket as [[? _] _]; cbn in *; lia).
      rewrite !bool_decide_eq_true_2 by done. by apply leaf_seq_format.
  - intros Hn. apply ascii_encodes.
    + rewrite s3_key. apply Forall_app. split; [|by apply join_ascii, s3_segments].
      change (of_ascii "s3://") with [115; 51; 58; 47; 47]. repeat (constructor; [lia|]). constructor.
    + destruct Hbucket as [Hl _]. unfold s3_object_ref, object_key. rewrite !length_app, !length_uuid_str, leaf_length by done. cbn. lia.
  - done.
Qed.
End S3.
