(* ===== verification/ArchiveGuarantees.v ===== *)
(** * The writer's archives read back

    What the trace writer stored for a finished run, under any order of batches, faults and
    redeliveries, the strict reader accepts: it returns every event once, in order; and once a
    subject is erased it reports the run as shredded, never as corrupt and never in part. *)

From Stdlib Require Import Floats.
From S2P Require Import Prelude Domain Erasure ValkeyKeys PyText Json JsonLoads Memory WorkQueue SeqSet Envelope Sections Shred ShredGuarantees TraceWriter TraceRuns TraceGuarantees TraceArchive TraceRefs.
Open Scope Z_scope.

(** ** Sections and the events in them *)

Definition last_seq (b : list envelope) : Z := match last b with Some e => en_seq e | None => 0 end.

Lemma last_seq_snoc b e : last_seq (b ++ [e]) = en_seq e.
Proof. unfold last_seq. by rewrite last_snoc. Qed.

Section Sections.
Context (dump_event : TraceEvent → json).
Abbreviation line_of_event := (λ e, wire_line dump_event (en_seq e) (en_event e)).

(** A section and the events it holds. *)
Record section_of (s : PlainSection) (g : list envelope) : Prop := {
  so_some : g ≠ [];
  so_from : ps_seq_from s = first_seq g;
  so_to : ps_seq_to s = last_seq g;
  so_lines : rmap line_of_event g = Ok (ps_lines s);
  so_tags : ∀ e, e ∈ g → subject_tags_for (en_event e) = ps_subject_tags s;
}.

Lemma rmap_snoc {E A B} (f : A → result E B) l x ys y : rmap f l = Ok ys → f x = Ok y → rmap f (l ++ [x]) = Ok (ys ++ [y]).
Proof. intros Hl Hx. apply rmap_Ok in Hl. apply rmap_Ok. apply Forall2_app; [done|]. by repeat constructor. Qed.

Lemma sections_loop_groups envs : ∀ current acc secs, match current with Some s => section_of s acc | None => acc = [] end →
  sections_loop dump_event current envs = Ok secs → ∃ groups, concat groups = acc ++ envs ∧ Forall2 section_of secs groups.
Proof.
  induction envs as [|env envs IH]; intros current acc secs Hcur; cbn [sections_loop].
  { destruct current as [s|]; intros [= <-]; [|subst; by exists []]. exists [acc]. cbn. split; [done|]. constructor; [done|constructor]. }
  intros (line & Hline & Hloop)%rbind_Ok.
  set (fresh := mkSection (en_seq env) (en_seq env) (subject_tags_for (en_event env)) [line] [] 1) in *.
  assert (Hfresh : section_of fresh [env]).
  { split; [done|done|done|cbn; by rewrite Hline|]. by intros e ->%list_elem_of_singleton. }
  destruct current as [s|]; [|subst acc; by destruct (IH (Some fresh) [env] _ Hfresh Hloop) as (gs & Hc & Hall); exists gs].
  case_bool_decide as Htags.
  - destruct Hcur as [Hne Hfrom Hto Hl Ht].
    match type of Hloop with sections_loop _ (Some ?s') _ = _ => assert (Hnext : section_of s' (acc ++ [env])) end.
    { split; [by destruct acc|cbn; rewrite Hfrom; by destruct acc|by rewrite last_seq_snoc|by apply rmap_snoc|].
      intros e [He| ->]%elem_of_snoc; [by rewrite (Ht e He)|done]. }
    destruct (IH (Some _) _ _ Hnext Hloop) as (gs & Hc & Hall). exists gs. by rewrite Hc, <- app_assoc.
  - apply rbind_Ok in Hloop as (rest & Hrest & [= <-]). destruct (IH (Some fresh) [env] _ Hfresh Hrest) as (gs & Hc & Hall).
    exists (acc :: gs). cbn. rewrite Hc. split; [done|by constructor].
Qed.

Lemma build_sections_groups b secs : build_sections dump_event b = Ok secs → ∃ groups, concat groups = b ∧ Forall2 section_of secs groups.
Proof. apply (sections_loop_groups b None [] secs eq_refl). Qed.
End Sections.

Lemma first_seq_elem b : b ≠ [] → ∃ e, e ∈ b ∧ first_seq b = en_seq e.
Proof. destruct b as [|e b]; [done|]. exists e. split; [left|done]. Qed.

Lemma last_seq_elem b : b ≠ [] → ∃ e, e ∈ b ∧ last_seq b = en_seq e.
Proof.
  intros Hb. destruct (exists_last Hb) as (b' & e & ->). exists e. rewrite last_seq_snoc. split; [|done]. apply elem_of_app. right. by apply list_elem_of_singleton.
Qed.

Lemma seq_ordered_app a b : seq_ordered (a ++ b) ↔ seq_ordered a ∧ seq_ordered b ∧ ∀ x y, x ∈ a → y ∈ b → en_seq x < en_seq y.
Proof.
  unfold seq_ordered. induction a as [|x a IH]; cbn.
  { split; [intros ?; split_and!; [constructor|done|by intros ? ? ?%elem_of_nil]|by intros (_ & ? & _)]. }
  split.
  - intros H. inversion H as [|? ? Hs Hall]; subst. apply Forall_app in Hall as [Ha Hb]. apply IH in Hs as (Hsa & Hsb & Hlt).
    split_and!; [by constructor|done|]. intros u v [->|Hu]%elem_of_cons Hv; [|by apply Hlt]. by apply (proj1 (Forall_forall _ _) Hb).
  - intros (Ha & Hb & Hlt). inversion Ha as [|? ? Hs Hall]; subst. constructor.
    + apply IH. split_and!; [done..|]. intros u v Hu Hv. apply Hlt; [by right|done].
    + apply Forall_app. split; [done|]. apply Forall_forall. intros v Hv. apply Hlt; [left|done].
Qed.

Lemma ordered_bounds b e : seq_ordered b → e ∈ b → first_seq b <= en_seq e <= last_seq b.
Proof.
  intros Hs He. apply list_elem_of_split in He as (l1 & l2 & ->). apply seq_ordered_app in Hs as (_ & Hs2 & Hlt). split.
  - destruct l1 as [|x l1]; cbn; [lia|]. specialize (Hlt x e). assert (en_seq x < en_seq e); [|lia]. apply Hlt; left.
  - change (e :: l2) with ([e] ++ l2) in Hs2. apply seq_ordered_app in Hs2 as (_ & _ & Hlt2). destruct l2 as [|y l2] using rev_ind.
    + change (l1 ++ [e]) with (l1 ++ [e]). rewrite last_seq_snoc. lia.
    + rewrite app_comm_cons, app_assoc, last_seq_snoc. assert (en_seq e < en_seq y); [|lia]. apply Hlt2; [left|]. apply elem_of_app. right. left.
Qed.

Lemma last_seq_app a b : b ≠ [] → last_seq (a ++ b) = last_seq b.
Proof. intros Hb. destruct (exists_last Hb) as (b' & e & ->). by rewrite app_assoc, !last_seq_snoc. Qed.

Section Ranges.
Context (dump_event : TraceEvent → json).

Lemma widen_ordered secs groups : Forall2 (section_of dump_event) secs groups → seq_ordered (concat groups) → ∀ a z,
  a <= z → (∀ e, e ∈ concat groups → z < en_seq e) →
  foldl widen (Some (a, z)) secs = Some (a, match concat groups with [] => z | _ => last_seq (concat groups) end).
Proof.
  induction 1 as [|s g secs gs Hsg _ IH]; intros Hord a z Haz Hz; [done|]. cbn [concat] in *. destruct Hsg as [Hne Hfrom Hto _ _].
  apply seq_ordered_app in Hord as (Hg & Hgs & Hlt). destruct (first_seq_elem g Hne) as (x & Hx & Hfx), (last_seq_elem g Hne) as (y & Hy & Hly).
  pose proof (Hz x (proj2 (elem_of_app _ _ _) (or_introl Hx))). pose proof (Hz y (proj2 (elem_of_app _ _ _) (or_introl Hy))).
  cbn [foldl]. assert (widen (Some (a, z)) s = Some (a, en_seq y)) as ->.
  { unfold widen. by rewrite Hfrom, Hto, Hfx, Hly, Z.min_l, Z.max_r by lia. }
  rewrite IH; [|done|lia|].
  - destruct (concat gs) as [|e l] eqn:Hc; [rewrite app_nil_r, Hly; by destruct g|]. rewrite last_seq_app by done. by destruct g.
  - intros e He. rewrite <- Hly in *. pose proof (Hlt y e Hy He). lia.
Qed.

Lemma widen_batch secs b : build_sections dump_event b = Ok secs → b ≠ [] → seq_ordered b →
  foldl widen None secs = Some (first_seq b, last_seq b) ∧ secs ≠ [].
Proof.
  intros (groups & Hc & Hall)%build_sections_groups Hne Hord. destruct Hall as [|s g secs gs Hsg Hall]; [by subst b|].
  split; [|done]. cbn [concat] in Hc. subst b. destruct Hsg as [Hgne Hfrom Hto _ _]. apply seq_ordered_app in Hord as (Hg & Hgs & Hlt).
  destruct (first_seq_elem g Hgne) as (x & Hx & Hfx), (last_seq_elem g Hgne) as (y & Hy & Hly). pose proof (ordered_bounds g x Hg Hx).
  cbn [foldl]. change (widen None s) with (Some (ps_seq_from s, ps_seq_to s)). rewrite (widen_ordered secs gs Hall Hgs).
  - rewrite Hfrom, Hto. destruct g as [|e0 g]; [done|]. cbn [first_seq app]. f_equal. f_equal.
    destruct (concat gs) as [|e l] eqn:Hc; [by rewrite app_nil_r|]. by rewrite app_comm_cons, last_seq_app.
  - rewrite Hfrom, Hto. lia.
  - intros e He. rewrite Hto, Hly. by apply Hlt.
Qed.
End Ranges.

(** ** One object *)

Section Objects.
Context `{Sha256, AesGcm} (master : list Z).

Lemma encrypt_sections_shape d p r secs : ∀ st i prev range es range' st',
  encrypt_sections master d st p r i prev range secs = Ok (es, range', st') → range' = foldl widen range secs ∧ length es = length secs.
Proof.
  induction secs as [|s secs IH]; intros st i prev range es range' st'; cbn [encrypt_sections]; [by intros [= <- <- _]|].
  intros ([e st1] & _ & ([[es1 rg] st2] & Hes & [= <- <- _])%rbind_Ok)%rbind_Ok. destruct (IH _ _ _ _ _ _ _ Hes) as [-> Hl].
  cbn. by rewrite Hl.
Qed.

Lemma loads_line d : canonical_dict d → strict_json (line_of d) = Ok (JObj d).
Proof. intros [Hwf Hs]. unfold strict_json. by rewrite loads_ascii, Hs. Qed.

Lemma utf8_decode_lines ls : Forall printable ls → utf8_decode (concat ((λ l, l ++ [10]) <$> ls)) = Ok (concat ((λ l, l ++ [10]) <$> ls)).
Proof.
  assert (Hascii : ∀ s, Forall (λ c, 0 <= c <= 127) s → utf8_decode s = Ok s).
  { induction 1 as [|c s Hc _ IH]; [done|]. cbn [utf8_decode]. by rewrite cont_true, IH by lia. }
  intros Hls. apply Hascii, Forall_concat, Forall_fmap. eapply Forall_impl; [done|]. intros l Hl. unfold compose. apply Forall_app.
  split; [|constructor; [lia|done]]. eapply Forall_impl; [done|]. intros c Hc. cbn in Hc. lia.
Qed.

(** The reader's own pass over the lines accepts what the strict parser of the envelope accepts. *)
Lemma strict_payload_lines ds c : ds ≠ [] → Forall canonical_dict ds → from_bytes_v2 (concat (dumps_v2_line <$> ds)) = Ok c →
  strict_payload (concat (dumps_v2_line <$> ds)) = Ok c.
Proof.
  intros Hne Hds Hfrom. pose proof (loads_dumps ds Hne Hds) as Hl. unfold loads_v2_lines in Hl. unfold strict_payload. rewrite Hfrom.
  assert (Hdec : utf8_decode (concat (dumps_v2_line <$> ds)) = Ok (concat (dumps_v2_line <$> ds))).
  { rewrite concat_lines. apply utf8_decode_lines. rewrite Forall_fmap. eapply Forall_impl; [done|]. intros d [Hwf _]. by apply printable_text. }
  rewrite Hdec. cbn [raised_exn raised lift rbind].
  destruct (bool_decide (13 ∈ _)) eqn:H13; [rewrite andb_false_r in Hl; done|]. cbn [negb andb].
  destruct (bool_decide (last _ = _)) eqn:Hlast; [|rewrite andb_false_r in Hl; done].
  destruct (_ && _) in Hl; [|done]. destruct (forallb _ _) eqn:Hb; [|done].
  assert (Hlines : split_on 10 [] (take (length (concat (dumps_v2_line <$> ds)) - 1) (concat (dumps_v2_line <$> ds))) = line_of <$> ds).
  { apply rmap_Ok in Hl. clear -Hl. induction Hl as [|l d ls ds' Hd _ IH]; [done|]. rewrite fmap_cons, IH. f_equal. unfold load_v2_line in Hd.
    destruct (loads_bytes _ l) as [[]|]; try done. case_bool_decide as Heq; [|done]. injection Hd as ->. unfold dumps_v2_line in Heq.
    by apply app_inv_tail in Heq. }
  rewrite Hlines. assert (Hparse : rmap strict_json (line_of <$> ds) = Ok (JObj <$> ds)).
  { apply rmap_Ok, Forall2_fmap, Forall_Forall2_diag. eapply Forall_impl; [done|]. intros d Hd. by apply loads_line. }
  rewrite Hparse. cbn [raised_exn raised lift rbind]. rewrite (proj2 (forallb_forall _ _)); [done|].
  by intros x (d & <- & _)%in_map_iff.
Qed.

(** The object of a batch, as the reader finds it. *)
Lemma sealed_payload d p r secs ks raw ks1 a z : seal master d p r secs ks = Ok (raw, ks1) → foldl widen None secs = Some (a, z) →
  ∃ es, length es = length secs ∧ let c := mkPayload (header_dict p r a z (Z.of_nat (length es))) es in
    strict_payload raw = Ok c ∧ ∀ later, decrypt_v2 master later p c = open master later p raw.
Proof.
  intros Hseal Hw. unfold seal in Hseal. apply rbind_Ok in Hseal as ([c ks2] & Hc & (raw1 & Hs%lift_Ok & Heq)%rbind_Ok). injection Heq as <- <-.
  apply encrypt_v2_inv in Hc as (es & a' & z' & st & He & -> & ->). pose proof (encrypt_sections_shape _ _ _ _ _ _ _ _ _ _ _ He) as [Hr Hl].
  rewrite Hw in Hr. injection Hr as -> ->. exists es. split; [done|]. cbv zeta. set (c := mkPayload _ es) in *.
  assert (Hcan : Forall canonical_dict (pl_header c :: pl_sections c)).
  { constructor; [apply canonical_header|by eapply encrypt_sections_canonical]. }
  assert (Hfrom : from_bytes_v2 raw1 = Ok c) by (apply Forall_cons in Hcan as [? ?]; by apply from_bytes_serialize).
  split.
  - unfold serialize_v2_envelope in Hs. apply rbind_Ok in Hs as ([] & _ & <-%(inj Ok)).
    change (dumps_v2_line (pl_header c) ++ concat (dumps_v2_line <$> pl_sections c)) with (concat (dumps_v2_line <$> pl_header c :: pl_sections c)) in *.
    by apply strict_payload_lines.
  - intros later. unfold open. by rewrite Hfrom.
Qed.

Lemma header_valid p r a z n es : seq_bounded a → seq_bounded z → a <= z →
  validate_header (mkPayload (header_dict p r a z n) es) p r = Ok (a, z) ∧ get (header_dict p r a z n) "v" = Some (JInt V2_ENVELOPE_VERSION).
Proof.
  intros [Ha1 Ha2] [Hz1 Hz2] Haz. split; [|done]. unfold validate_header. cbn [pl_header]. unfold has_str, has_int. set (h := header_dict p r a z n).
  change (get h "v") with (Some (JInt 2)). change (get h "fmt") with (Some (JStr V2_ENVELOPE_FMT)).
  change (get h "project_id") with (Some (JStr (uuid_str (ProjectId_value p)))). change (get h "run_id") with (Some (JStr (uuid_str (RunId_value r)))).
  change (get h "first_seq") with (Some (JInt a)). change (get h "last_seq") with (Some (JInt z)).
  cbn iota. rewrite !bool_decide_eq_true_2 by done. cbn [andb Z.eqb Pos.eqb V2_ENVELOPE_VERSION]. unfold parse_seq.
  rewrite !(proj2 (Z.leb_le _ _)) by lia. cbn [andb]. by rewrite (proj2 (Z.leb_le _ _)).
Qed.

Lemma read_sealed get_bytes d p r secs ks raw ks1 a z ref : seal master d p r secs ks = Ok (raw, ks1) → foldl widen None secs = Some (a, z) →
  secs ≠ [] → seq_bounded a → seq_bounded z → a <= z → get_bytes ref = Some raw →
  ∃ c, read_object get_bytes p r (ref, a) = Ok (mkObject ref raw c a z V2_ENVELOPE_VERSION)
    ∧ ∀ later, decrypt_v2 master later p c = open master later p raw.
Proof.
  intros Hseal Hw Hne Ha Hz Haz Hget. destruct (sealed_payload _ _ _ _ _ _ _ _ _ Hseal Hw) as (es & Hl & Hp & Hdec). exists (mkPayload (header_dict p r a z (Z.of_nat (length es))) es).
  split; [|done]. destruct (header_valid p r a z (Z.of_nat (length es)) es Ha Hz Haz) as [Hh Hv]. unfold read_object. cbn [fst snd]. rewrite Hget, Hp. cbn [rbind]. rewrite Hh. cbn [rbind].
  rewrite Z.eqb_refl. cbn [pl_sections pl_header]. rewrite Hv. rewrite bool_decide_eq_false_2 by (intros ->; by destruct secs). done.
Qed.

(** *** Key bindings: one key per digest, the one in the table *)

Definition bound_in (ks : key_table) (p : ProjectId) (wrap : json) : Prop :=
  ∃ dg row, wrap_binding wrap = Ok (dg, k_key_id row) ∧ ks !! (p, dg) = Some row.

Lemma decrypted_wraps ks p r s o : decrypt_section_v2 master ks p r s = Ok o → ∃ wraps, section_wraps s = Ok wraps ∧ Forall (bound_in ks p) wraps.
Proof.
  unfold decrypt_section_v2.
  intros (a & _ & (b & _ & (i & _ & (enc & _ & (dgs & _ & (aad & _ & (ws & Hws%lift_Ok & (bound & Hb & _)%rbind_Ok)%rbind_Ok)%rbind_Ok)%rbind_Ok)%rbind_Ok)%rbind_Ok)%rbind_Ok)%rbind_Ok.
  exists ws. unfold as_list in Hws. unfold section_wraps. destruct (get s "wraps") as [[]|]; try done. injection Hws as ->. split; [done|].
  apply rmap_Ok in Hb. apply Forall_forall. intros w Hw. apply list_elem_of_lookup_1 in Hw as [j Hj].
  destruct (Forall2_lookup_l _ _ _ _ _ Hb Hj) as ([[[w' dg] kid] row] & _ & Hbind).
  apply bind_wrap_inv in Hbind as (-> & Hdg & (text & Ht & Hu) & r0 & Hr & -> & <-). exists dg, r0. split; [|done].
  unfold wrap_binding. by rewrite Ht, Hu, Hdg.
Qed.

Lemma bind_all_ok ks p wraps : Forall (bound_in ks p) wraps → ∀ acc, Forall (λ x, k_key_id <$> ks !! (p, x.1) = Some x.2) acc →
  ∃ acc', bind_all acc wraps = Ok acc'.
Proof.
  induction 1 as [|w wraps (dg & row & Hw & Hr) _ IH]; intros acc Hacc; cbn [bind_all]; [by exists acc|]. rewrite Hw. cbn [rbind].
  destruct (dict_get acc dg) as [old|] eqn:Hold.
  - apply dict_get_Some_elem in Hold. apply (proj1 (Forall_forall _ _) Hacc) in Hold. cbn in Hold. rewrite Hr in Hold. injection Hold as <-.
    rewrite bool_decide_eq_true_2 by done. by apply IH.
  - apply IH, Forall_app. split; [done|]. constructor; [|done]. cbn. by rewrite Hr.
Qed.

Lemma bindings_ok ks p objects : Forall (λ o, is_ok (decrypt_v2 master ks p (ob_payload o)) = true) objects →
  ∃ bs, subject_key_bindings objects = Ok bs.
Proof.
  intros Hall. assert (Hsecs : Forall (λ s, ∃ wraps, section_wraps s = Ok wraps ∧ Forall (bound_in ks p) wraps)
                                (concat ((λ o, pl_sections (ob_payload o)) <$> objects))).
  { apply Forall_concat, Forall_fmap. eapply Forall_impl; [done|]. intros o Ho. cbn beta in Ho. unfold compose.
    destruct (decrypt_v2 master ks p (ob_payload o)) as [os|] eqn:Hd; [|done]. unfold decrypt_v2 in Hd. apply rbind_Ok in Hd as (pr & _ & Hd). case_bool_decide; [|done].
    apply rbind_Ok in Hd as (t & _ & (run & _ & Hd)%rbind_Ok). apply rmap_Ok in Hd. clear -Hd.
    induction Hd as [|s o' ss os' Hs _ IH]; constructor; [by eapply decrypted_wraps|done]. }
  unfold subject_key_bindings. assert (Hw : ∃ wraps, rmap section_wraps (concat ((λ o, pl_sections (ob_payload o)) <$> objects)) = Ok wraps ∧ Forall (bound_in ks p) (concat wraps)).
  { clear Hall. induction Hsecs as [|s ss (ws & Hs & Hb) _ (wss & Hss & Hbs)]; [by exists []|]. exists (ws :: wss). cbn [rmap]. rewrite Hs. cbn [rbind].
    rewrite Hss. split; [done|]. cbn. by apply Forall_app. }
  destruct Hw as (wraps & -> & Hb). cbn [rbind]. destruct (bind_all_ok ks p _ Hb []) as [acc ->]; [done|]. cbn [rbind]. by eexists.
Qed.
End Objects.

(** ** Events *)

Lemma loads_plain_strict j : json_wf code_points j → json_loads no_duplicates (json_dumps j) = Some (sort_json j).
Proof.
  intros Hwf. eapply (loads_text _ code_points); [by intros s; eexists| |apply no_duplicates_distinct|done].
  intros s tail Hs. by apply read_string_plain.
Qed.

(** One event more. *)
Definition record (st : decoding) (e : envelope) : decoding :=
  mkDecoding (<[en_seq e := en_event e]> (dc_events st))
    (if bool_decide (ev_type (en_event e) = E_run_end) then dc_ends st ++ [(en_seq e, en_event e)] else dc_ends st).

Section Decoding.
Context `{Sha256, AesGcm} (master : list Z) (validate_event : list (pystr * json) → option TraceEvent) (dump_event : TraceEvent → json).

(** The dump of an event, written and read as JSON, validates to the event. *)
Definition dump_reads (ev : TraceEvent) : Prop :=
  ∃ d d', dump_event ev = JObj d ∧ json_wf code_points (JObj d) ∧ sort_json (JObj d) = JObj d' ∧ validate_event d' = Some ev.

Lemma decode_event p s st previous e line pairs : dump_reads (en_event e) → wire_line dump_event (en_seq e) (en_event e) = Ok line →
  subject_digest_pairs p (subject_tags_for (en_event e)) = Ok pairs → ps_subject_digests s = pairs.*1 →
  ps_seq_from s <= en_seq e <= ps_seq_to s → previous < en_seq e → dc_events st !! en_seq e = None →
  decode_line validate_event p s st previous line = Ok (record st e, en_seq e).
Proof.
  intros (d & d' & Hdump & Hwf & Hsort & Hval) Hline Hpairs Hdg [Hlo Hhi] Hprev Hnone. unfold wire_line in Hline. rewrite Hdump in Hline.
  set (j := JObj [(of_ascii "seq", JInt (en_seq e)); (of_ascii "event", JObj d)]) in *.
  assert (Hjwf : json_wf code_points j).
  { apply wf_obj. split; [apply (bool_decide_unpack _); vm_compute; exact I|]. constructor; [split; [apply codes_ascii|done]|]. constructor; [split; [apply codes_ascii|done]|done]. }
  assert (Hj : sort_json j = JObj [(of_ascii "event", JObj d'); (of_ascii "seq", JInt (en_seq e))]).
  { unfold j. rewrite sort_obj. change (py_sorted (λ a b : pystr * json, str_leb a.1 b.1) [(of_ascii "seq", JInt (en_seq e)); (of_ascii "event", JObj d)])
      with [(of_ascii "event", JObj d); (of_ascii "seq", JInt (en_seq e))]. cbn [fmap list_fmap fst snd]. by rewrite Hsort. }
  unfold decode_line. unfold canonical_json in Hline. rewrite (utf8_roundtrip (json_dumps j) line) by (done || by apply codes_text).
  cbn [raised_exn raised lift rbind]. unfold strict_json. rewrite loads_plain_strict, Hj by done. cbn [raised_exn raised lift rbind].
  set (v := [(of_ascii "event", JObj d'); (of_ascii "seq", JInt (en_seq e))]).
  change (same_keys v ["seq"; "event"]%string) with true. change (get v "seq") with (Some (JInt (en_seq e))). change (get v "event") with (Some (JObj d')).
  cbn iota. rewrite !(proj2 (Z.leb_le _ _)), (proj2 (Z.ltb_lt _ _)) by lia. rewrite Hnone. rewrite bool_decide_eq_false_2 by (by intros [? ?]). cbn [negb andb].
  rewrite Hval. cbn [raised_exn raised lift rbind]. rewrite Hpairs, Hdg. by rewrite bool_decide_eq_true_2.
Qed.

Lemma decode_group p s pairs g : (∀ e, e ∈ g → dump_reads (en_event e) ∧ subject_digest_pairs p (subject_tags_for (en_event e)) = Ok pairs
    ∧ ps_seq_from s <= en_seq e <= ps_seq_to s) → ps_subject_digests s = pairs.*1 → seq_ordered g → ∀ st previous lines,
  rmap (λ e, wire_line dump_event (en_seq e) (en_event e)) g = Ok lines → (∀ e, e ∈ g → previous < en_seq e ∧ dc_events st !! en_seq e = None) →
  decode_lines validate_event p s st previous lines = Ok (foldl record st g, en_seq <$> g).
Proof.
  intros Hg Hdg Hord. induction Hord as [|e g Hord IH Hall]; intros st previous lines; cbn [rmap]; [by intros [= <-]|].
  intros (line & Hl & (ls & Hls & [= <-])%rbind_Ok)%rbind_Ok Hst. destruct (Hg e ltac:(left)) as (Hd & Hp & Hr). destruct (Hst e ltac:(left)) as [Hprev Hnone].
  cbn [decode_lines]. rewrite (decode_event p s st previous e line pairs) by done. cbn [rbind]. rewrite IH with (lines := ls); [done|..|done|].
  - intros x Hx. apply Hg. by right.
  - intros x Hx. pose proof (proj1 (Forall_forall _ _) Hall x Hx) as Hlt. cbn in Hlt. split; [done|]. cbn [record dc_events].
    rewrite lookup_insert_ne by lia. apply Hst. by right.
Qed.

Lemma fold_min_ordered a l : StronglySorted Z.lt (a :: l) → foldl Z.min a l = a ∧ foldl Z.max a l = default a (last l).
Proof.
  revert a. induction l as [|b l IH]; intros a Hs; [done|]. inversion Hs as [|? ? Hs' Hall]; subst. apply Forall_cons in Hall as [Hab Hall].
  cbn [foldl]. rewrite Z.min_l, Z.max_r by lia. destruct (IH b Hs') as [_ Hmax]. rewrite Hmax. split; [|rewrite last_cons; by destruct (last l)].
  apply (IH a). inversion Hs' as [|? ? Hs'' Hall']; subst. constructor; [done|]. done.
Qed.

Lemma decode_section p s g o pairs st : section_of dump_event s g → seq_ordered g → subject_digest_pairs p (ps_subject_tags s) = Ok pairs →
  o = mkSection (ps_seq_from s) (ps_seq_to s) [] (ps_lines s) pairs.*1 V2_ENVELOPE_VERSION →
  (∀ e, e ∈ g → dump_reads (en_event e) ∧ 0 <= en_seq e ∧ dc_events st !! en_seq e = None) →
  validate_plain_section validate_event p o st = Ok (foldl record st g).
Proof.
  intros [Hne Hfrom Hto Hl Ht] Hord Hp -> Hg. unfold validate_plain_section. cbn [ps_lines].
  rewrite bool_decide_eq_false_2; [cbn [negb]|intros Hn; rewrite Hn in Hl; apply rmap_length in Hl; by destruct g].
  rewrite (decode_group p _ pairs g) with (lines := ps_lines s); [|..|done|].
  - cbn [rbind ps_seq_from ps_seq_to]. destruct g as [|e g]; [done|]. rewrite fmap_cons. cbn iota.
    assert (Hs : StronglySorted Z.lt (en_seq e :: (en_seq <$> g))).
    { rewrite <- fmap_cons. clear -Hord. induction Hord as [|x l _ IH Hall]; [constructor|]. rewrite fmap_cons. constructor; [done|]. by apply Forall_fmap. }
    destruct (fold_min_ordered _ _ Hs) as [-> ->]. rewrite Hfrom, Hto. cbn [first_seq]. rewrite Z.eqb_refl.
    assert (default (en_seq e) (last (en_seq <$> g)) = last_seq (e :: g)) as ->; [|by rewrite Z.eqb_refl].
    unfold last_seq. rewrite fmap_last. destruct g as [|e' g] using rev_ind; [done|]. by rewrite app_comm_cons, !last_snoc.
  - intros e He. destruct (Hg e He) as (Hd & _ & _). split_and!; [done|by rewrite (Ht e He)|..]; cbn [ps_seq_from ps_seq_to];
      rewrite ?Hfrom, ?Hto; by apply ordered_bounds.
  - done.
  - done.
  - intros e He. destruct (Hg e He) as (_ & ? & ?). split; [lia|done].
Qed.

Lemma record_other kept : ∀ st n, n ∉ en_seq <$> kept → dc_events (foldl record st kept) !! n = dc_events st !! n.
Proof using Type.
  induction kept as [|e kept IH]; intros st n Hn; [done|]. rewrite fmap_cons, not_elem_of_cons in Hn. destruct Hn as [Hne Hn]. cbn [foldl].
  rewrite IH by done. cbn. by rewrite lookup_insert_ne.
Qed.

(** A section one of whose keys is destroyed in the table. *)
Definition shredded (later : key_table) (p : ProjectId) (s : PlainSection) : Prop :=
  ∃ wrapping, wrapped_under p s wrapping ∧ existsb (destroyed_in later p) wrapping = true.

Lemma opened_cases later p s o : opened_as later p s o →
  (shredded later p s ∧ ∃ t, o = Tombstoned t)
  ∨ (¬ shredded later p s ∧ ∃ pairs, subject_digest_pairs p (ps_subject_tags s) = Ok pairs
       ∧ o = Plain (mkSection (ps_seq_from s) (ps_seq_to s) [] (ps_lines s) pairs.*1 V2_ENVELOPE_VERSION)).
Proof using Type.
  intros (pairs & wr & Hp & Hw & ->). destruct (existsb (destroyed_in later p) wr) eqn:He.
  - left. split; [|by eexists]. exists wr. split; [by exists pairs|done].
  - right. split; [|by exists pairs]. intros (wr' & Hwu & Ht). assert (wr' = wr) as -> by (eapply wrapped_under_fun; [done|by exists pairs]). congruence.
Qed.

Lemma decode_opened p later secs groups os : Forall2 (section_of dump_event) secs groups → Forall2 (opened_as later p) secs os →
  NoDup (en_seq <$> concat groups) → Forall seq_ordered groups → ∀ st tomb,
  (∀ e, e ∈ concat groups → dump_reads (en_event e) ∧ 0 <= en_seq e ∧ dc_events st !! en_seq e = None) →
  ∃ kept tomb', decode_sections validate_event p st tomb os = Ok (foldl record st kept, tomb') ∧ (∀ e, e ∈ kept → e ∈ concat groups)
    ∧ (tomb' = true ↔ tomb = true ∨ Exists (shredded later p) secs) ∧ (¬ Exists (shredded later p) secs → kept = concat groups).
Proof.
  intros Hsg. revert os. induction Hsg as [|s g secs groups Hs _ IH]; intros os Hos Hnd Hord st tomb Hst; inversion Hos as [|? o ? os' Ho Hos']; subst.
  { exists [], tomb. split_and!; [done|done| |done]. split; [by left|]. intros [?|Hn%Exists_nil]; done. }
  cbn [concat] in *. rewrite fmap_app, NoDup_app in Hnd. destruct Hnd as (_ & Hdisj & Hnd). apply Forall_cons in Hord as [Hg Hord].
  destruct (opened_cases _ _ _ _ Ho) as [(Hsh & t & ->)|(Hsh & pairs & Hp & ->)]; cbn [decode_sections].
  - destruct (IH os' Hos' Hnd Hord st true) as (kept & tomb' & Hd & Hin & Ht & _); [intros e He; apply Hst, elem_of_app; by right|].
    exists kept, tomb'. split_and!; [done|intros e He; apply elem_of_app; right; by apply Hin| |].
    + rewrite Ht. split; [intros _; right; by left|by left].
    + intros Hno. destruct Hno. by left.
  - rewrite (decode_section p s g _ pairs st Hs Hg Hp eq_refl) by (intros e He; apply Hst, elem_of_app; by left). cbn [rbind].
    destruct (IH os' Hos' Hnd Hord (foldl record st g) tomb) as (kept & tomb' & Hd & Hin & Ht & Hall).
    { intros e He. destruct (Hst e) as (? & ? & ?); [apply elem_of_app; by right|]. split_and!; [done..|]. rewrite record_other; [done|].
      intros Hx. apply (Hdisj _ Hx). by apply list_elem_of_fmap_2. }
    exists (g ++ kept), tomb'. rewrite foldl_app. split_and!; [done|..].
    + intros e. rewrite !elem_of_app. intros [?|?]; [by left|right; by apply Hin].
    + rewrite Ht. split; intros [?|He]; [by left|right; by right|by left|]. apply Exists_cons in He as [?|?]; [done|by right].
    + intros Hno. rewrite Hall; [done|]. intros He. apply Hno. by right.
Qed.

(** A batch whose object holds a shredded section. *)
Definition shredded_batch (keys : pystr → option key_table) (p : ProjectId) (ref : pystr) (b : list envelope) : Prop :=
  ∃ ks secs, keys ref = Some ks ∧ build_sections dump_event b = Ok secs ∧ Exists (shredded ks p) secs.

(** An object and the batch it was made from, as it opens with the keys met. *)
Definition opens_to (keys : pystr → option key_table) (p : ProjectId) (ob : ArchiveObject * list envelope) : Prop :=
  seq_ordered ob.2 ∧ ∃ ks secs os, keys (ob_ref_text ob.1) = Some ks ∧ build_sections dump_event ob.2 = Ok secs
    ∧ decrypt_v2 master ks p (ob_payload ob.1) = Ok os ∧ Forall2 (opened_as ks p) secs os.

Lemma ordered_concat groups : seq_ordered (concat groups) → Forall seq_ordered groups.
Proof using Type. induction groups as [|g gs IH]; [constructor|]. cbn. intros (? & ? & _)%seq_ordered_app. constructor; [done|by apply IH]. Qed.

Lemma decode_archive keys p obs : Forall (opens_to keys p) obs → NoDup (en_seq <$> concat obs.*2) → ∀ st tomb,
  (∀ e, e ∈ concat obs.*2 → dump_reads (en_event e) ∧ 0 <= en_seq e ∧ dc_events st !! en_seq e = None) →
  ∃ kept tomb', decode_objects master validate_event keys p st tomb obs.*1 = Ok (foldl record st kept, tomb')
    ∧ (tomb' = true ↔ tomb = true ∨ Exists (λ ob, shredded_batch keys p (ob_ref_text ob.1) ob.2) obs)
    ∧ (¬ Exists (λ ob, shredded_batch keys p (ob_ref_text ob.1) ob.2) obs → kept = concat obs.*2).
Proof.
  induction 1 as [|[o b] obs (Hord & ks & secs & os & Hks & Hsec & Hdec & Hos) _ IH]; intros Hnd st tomb Hst.
  { exists [], tomb. split_and!; [done| |done]. split; [by left|]. by intros [?|Hn%Exists_nil]. }
  cbn [fst snd] in *. rewrite !fmap_cons in *. cbn [concat fst snd] in *. rewrite fmap_app, NoDup_app in Hnd. destruct Hnd as (Hndb & Hdisj & Hnd).
  destruct (build_sections_groups _ _ _ Hsec) as (groups & Hc & Hsg). subst b.
  destruct (decode_opened p ks secs groups os Hsg Hos Hndb (ordered_concat _ Hord) st tomb) as (kept1 & tomb1 & Hd1 & Hin1 & Ht1 & Hall1).
  { intros e He. apply Hst, elem_of_app. by left. }
  destruct (IH Hnd (foldl record st kept1) tomb1) as (kept2 & tomb2 & Hd2 & Ht2 & Hall2).
  { intros e He. destruct (Hst e) as (? & ? & ?); [apply elem_of_app; by right|]. split_and!; [done..|]. rewrite record_other; [done|].
    intros (x & Hx & Hxk)%list_elem_of_fmap. apply (Hdisj (en_seq e)); [rewrite Hx; by apply list_elem_of_fmap_2, Hin1|by apply list_elem_of_fmap_2]. }
  assert (Hone : shredded_batch keys p (ob_ref_text o) (concat groups) ↔ Exists (shredded ks p) secs).
  { split; [intros (ks' & secs' & Hk' & Hs' & He); congruence|intros He; by exists ks, secs]. }
  exists (kept1 ++ kept2), tomb2. cbn [decode_objects]. rewrite Hks, Hdec. cbn [raised rbind]. rewrite Hd1. cbn [rbind]. rewrite Hd2, foldl_app. split_and!; [done|..].
  - rewrite Ht2, Ht1, Exists_cons. cbn [fst snd]. rewrite Hone. tauto.
  - rewrite Exists_cons. cbn [fst snd]. rewrite Hone. intros Hno. rewrite Hall1, Hall2 by tauto. done.
Qed.
End Decoding.

(** ** The complete trace *)

Lemma record_ends evs : ∀ st, dc_ends (foldl record st evs) = dc_ends st ++ ((λ e, (en_seq e, en_event e)) <$> List.filter (is_type E_run_end) evs).
Proof.
  induction evs as [|e evs IH]; intros st; cbn [foldl List.filter]; [by rewrite app_nil_r|]. rewrite IH. cbn [record dc_ends]. unfold is_type.
  case_bool_decide; [by rewrite <- app_assoc|done].
Qed.

Lemma record_events evs : ∀ st, NoDup (en_seq <$> evs) → ∀ e, e ∈ evs → dc_events (foldl record st evs) !! en_seq e = Some (en_event e).
Proof.
  induction evs as [|x evs IH]; intros st Hnd e He; [by apply elem_of_nil in He|]. rewrite fmap_cons, NoDup_cons in Hnd. destruct Hnd as [Hx Hnd].
  cbn [foldl]. apply elem_of_cons in He as [->|He]; [|by apply IH]. rewrite record_other by done. cbn. by rewrite lookup_insert_eq.
Qed.

Lemma record_dom evs n : is_Some (dc_events (foldl record (mkDecoding ∅ []) evs) !! n) ↔ n ∈ en_seq <$> evs.
Proof.
  assert (Hgen : ∀ st, is_Some (dc_events (foldl record st evs) !! n) ↔ is_Some (dc_events st !! n) ∨ n ∈ en_seq <$> evs).
  { induction evs as [|e evs IH]; intros st; cbn [foldl]; [split; [by left|by intros [?|?%elem_of_nil]]|]. rewrite IH, fmap_cons, elem_of_cons. cbn.
    destruct (decide (n = en_seq e)) as [->|Hne]; [rewrite lookup_insert_eq; split; [auto|intros _; left; by eexists]|].
    rewrite lookup_insert_ne by done. tauto. }
  rewrite Hgen. cbn. rewrite lookup_empty. split; [by intros [[]|]|by right].
Qed.

Lemma unique_end evs e : NoDup (en_seq <$> evs) → e ∈ evs → is_end e = true → (∀ e', e' ∈ evs → is_end e' = true → e' = e) →
  List.filter (is_type E_run_end) evs = [e].
Proof.
  intros Hnd. revert e. induction evs as [|x evs IH]; intros e He Hend Huniq; [by apply elem_of_nil in He|].
  rewrite fmap_cons, NoDup_cons in Hnd. destruct Hnd as [Hx Hnd]. cbn [List.filter]. destruct (is_end x) eqn:Hex.
  - assert (x = e) as -> by (apply Huniq; [left|done]). f_equal.
    destruct (List.filter _ evs) as [|y l] eqn:Hf; [done|]. exfalso.
    assert (Hy : In y (List.filter (is_type E_run_end) evs)) by (rewrite Hf; by left). apply List.filter_In in Hy as [Hy Hey].
    apply list_elem_of_In in Hy. assert (y = e) as -> by (apply Huniq; [by right|done]). apply Hx. by apply list_elem_of_fmap_2.
  - apply elem_of_cons in He as [->|He]; [congruence|]. apply IH; [done..|]. intros e' He'. apply Huniq. by right.
Qed.

Lemma finish_complete row n s digest bindings evs e : NoDup (en_seq <$> evs) → (∀ m, m ∈ en_seq <$> evs ↔ 0 <= m <= n) → 0 <= n →
  e ∈ evs → is_end e = true → en_seq e = n → (∀ e', e' ∈ evs → is_end e' = true → e' = e) → end_status_of e = Some s →
  s = outcome_value (ti_outcome_status row) → ti_ended_at row = Some (ev_ts (en_event e)) →
  ∃ events, finish_archive row n s digest bindings (foldl record (mkDecoding ∅ []) evs) = Ok (mkArchived row events digest bindings)
    ∧ Z.of_nat (length events) = n + 1 ∧ ∀ x, x ∈ evs → events !! Z.to_nat (en_seq x) = Some (en_event x).
Proof.
  intros Hnd Hseqs Hn He Hend Hseq Huniq Hstatus Hvalue Hended. unfold finish_archive. set (st := foldl record (mkDecoding ∅ []) evs).
  rewrite bool_decide_eq_true_2.
  2:{ apply set_eq. intros m. rewrite elem_of_dom, elem_of_list_to_set, elem_of_seqZ. unfold st. rewrite record_dom, Hseqs. lia. }
  unfold st at 1. rewrite record_ends. cbn [dc_ends app]. rewrite (unique_end evs e) by done. cbn [fmap list_fmap].
  rewrite Hseq, Z.eqb_refl. unfold is_type in Hend. rewrite Hend. cbn [andb]. unfold end_status_of in Hstatus. rewrite Hstatus.
  rewrite bool_decide_eq_true_2 by done. rewrite Hvalue, Hended, !bool_decide_eq_true_2 by done. cbn [andb]. unfold events_upto.
  assert (Hev : ∃ events, rmap (λ m, match dc_events st !! m with Some ev => Ok ev | None => Err KeyError end) (seqZ 0 (n + 1)) = Ok events).
  { apply rmap_total. intros m Hm%elem_of_seqZ. assert (Hs : is_Some (dc_events st !! m)) by (apply record_dom, Hseqs; lia). destruct Hs as [ev ->]. by eexists. }
  destruct Hev as [events Hev]. rewrite Hev. cbn [raised_exn raised lift rbind]. exists events. split_and!; [done|apply rmap_length in Hev; rewrite Hev, length_seqZ; lia|].
  intros x Hx. assert (Hb : 0 <= en_seq x <= n) by (apply Hseqs; by apply list_elem_of_fmap_2).
  destruct (rmap_lookup _ _ _ (Z.to_nat (en_seq x)) (en_seq x) Hev) as (ev & Hlook & Hval); [apply lookup_seqZ; lia|].
  rewrite Hlook. f_equal. unfold st in Hval. rewrite (record_events evs _ Hnd x Hx) in Hval. by injection Hval.
Qed.

(** ** The objects of a run *)

Lemma remove_dups_same l : l ≠ [] → Forall (λ v, v = V2_ENVELOPE_VERSION) l → remove_dups l = [V2_ENVELOPE_VERSION].
Proof.
  intros Hne Hl. rewrite Forall_forall in Hl. assert (Hin : ∀ x, x ∈ remove_dups l → x = V2_ENVELOPE_VERSION) by (intros x; rewrite elem_of_remove_dups; apply Hl).
  pose proof (NoDup_remove_dups l) as Hnd. destruct (remove_dups l) as [|x [|y l']] eqn:Hr.
  - destruct l as [|v l]; [done|]. assert (Hv : v ∈ remove_dups (v :: l)) by (apply elem_of_remove_dups; left). rewrite Hr in Hv. by apply elem_of_nil in Hv.
  - f_equal. apply Hin. left.
  - exfalso. apply NoDup_cons in Hnd as [Hx _]. apply Hx. rewrite (Hin x), (Hin y); [left|right; left|left].
Qed.

Lemma struct_pack_ok k n : 0 <= n < 256 ^ Z.of_nat k → struct_pack k n = Ok (int_to_bytes_big k n).
Proof. intros Hn. unfold struct_pack. by rewrite (proj2 (Z.leb_le _ _)), (proj2 (Z.ltb_lt _ _)) by lia. Qed.

Section Reads.
Context `{Sha256, AesGcm} (master : list Z) (dump_event : TraceEvent → json) {STORE : TraceStore} {REFS : ReadableRefs STORE}.

(** An object read and the batch it holds. *)
Record object_of (k : run_key) (get_bytes : pystr → option (list Z)) (ob : ArchiveObject * list envelope) : Prop := {
  oo_ref : ob_ref_text ob.1 = batch_ref k ob.2;
  oo_raw : get_bytes (batch_ref k ob.2) = Some (ob_raw ob.1);
  oo_named : seq_bounded (first_seq ob.2);
  oo_first : seq_bounded (ob_first_seq ob.1);
  oo_last : seq_bounded (ob_last_seq ob.1);
  oo_version : ob_version ob.1 = V2_ENVELOPE_VERSION;
  oo_opens : ∀ later, decrypt_v2 master later k.1 (ob_payload ob.1) = open master later k.1 (ob_raw ob.1);
}.

(** A batch the writer sealed. *)
Definition sealed_batch (k : run_key) (get_bytes : pystr → option (list Z)) (b : list envelope) : Prop :=
  b ≠ [] ∧ seq_ordered b ∧ (∀ e, e ∈ b → seq_bounded (en_seq e))
  ∧ ∃ d ks0 raw ks1 secs, seal master d k.1 k.2 secs ks0 = Ok (raw, ks1) ∧ build_sections dump_event b = Ok secs ∧ get_bytes (batch_ref k b) = Some raw.

Lemma read_batch k get_bytes b : sealed_batch k get_bytes b → ∃ o, read_object get_bytes k.1 k.2 (batch_ref k b, first_seq b) = Ok o ∧ object_of k get_bytes (o, b).
Proof using Type.
  intros (Hne & Hord & Hbd & d & ks0 & raw & ks1 & secs & Hseal & Hsec & Hget). destruct (widen_batch _ _ _ Hsec Hne Hord) as [Hw Hsne].
  destruct (first_seq_elem b Hne) as (x & Hx & Hfx), (last_seq_elem b Hne) as (y & Hy & Hly). pose proof (Hbd x Hx) as Hbx. pose proof (Hbd y Hy) as Hby.
  pose proof (ordered_bounds b x Hord Hx). rewrite <- Hfx in Hbx. rewrite <- Hly in Hby.
  destruct (read_sealed master get_bytes d k.1 k.2 secs ks0 raw ks1 (first_seq b) (last_seq b) (batch_ref k b) Hseal Hw Hsne Hbx Hby ltac:(lia) Hget) as (c & Hr & Ho).
  eexists. split; [exact Hr|]. by split.
Qed.

Lemma read_batches k get_bytes n batches : Forall (sealed_batch k get_bytes) batches → (∀ e, e ∈ concat batches → en_seq e <= n) →
  Z.of_nat (length batches) <= n + 1 →
  ∃ obs, read_objects get_bytes k.1 k.2 (batch_ref k <$> batches) n = Ok obs.*1 ∧ obs.*2 ≡ₚ batches ∧ Forall (object_of k get_bytes) obs.
Proof using REFS.
  intros Hall Hle Hlen. unfold read_objects. rewrite length_fmap, (proj2 (Z.leb_le _ _)) by done.
  assert (Hrefs : rmap (check_ref k.1 k.2 n) (batch_ref k <$> batches) = Ok ((λ b, (batch_ref k b, first_seq b)) <$> batches)).
  { apply rmap_Ok, Forall2_fmap, Forall_Forall2_diag, Forall_forall. intros b Hb. destruct (proj1 (Forall_forall _ _) Hall b Hb) as (Hne & _ & Hbd & _).
    destruct (first_seq_elem b Hne) as (x & Hx & Hfx). apply ref_checks; rewrite Hfx; [by apply Hbd|]. apply Hle, elem_of_concat. by exists b. }
  rewrite Hrefs. cbn [rbind].
  assert (Hobs : ∃ obs, obs.*2 = batches ∧ rmap (read_object get_bytes k.1 k.2) ((λ b, (batch_ref k b, first_seq b)) <$> batches) = Ok obs.*1 ∧ Forall (object_of k get_bytes) obs).
  { clear -Hall. induction Hall as [|b bs Hb _ (obs & Hbs & Hr & Ho)]; [by exists []|]. destruct (read_batch _ _ _ Hb) as (o & Hro & Hoo).
    exists ((o, b) :: obs). rewrite !fmap_cons. cbn [rmap]. rewrite Hro. cbn [rbind]. rewrite Hr, Hbs. split_and!; [done|done|by constructor]. }
  destruct Hobs as (obs & Hbs & Hr & Ho). rewrite Hr. cbn [rbind].
  assert (Henc : ∃ keyed, rmap (λ o, let! b := utf8_encode (ob_ref_text o) in Ok (o, b)) obs.*1 = Ok keyed ∧ keyed.*1 = obs.*1).
  { clear -Ho Hall Hbs REFS. subst batches. induction Ho as [|[o b] obs Hob _ IH]; [by exists []|]. rewrite !fmap_cons in *. apply Forall_cons in Hall as [Hb Hall].
    destruct Hb as (Hne & _ & Hbd & _). destruct (first_seq_elem b Hne) as (x & Hx & Hfx).
    destruct (IH Hall) as (keyed & Hk & Hk1). destruct (ref_encodes k.1 k.2 (first_seq b)) as (bs & He & _); [rewrite Hfx; by apply Hbd|].
    exists ((o, bs) :: keyed). pose proof (oo_ref _ _ _ Hob) as Href. cbn [fst snd] in Href. cbn [rmap fst]. rewrite Href. unfold batch_ref. rewrite He. cbn [rbind]. rewrite Hk. split; [done|]. cbn. by rewrite Hk1. }
  destruct Henc as (keyed & Hk & Hk1). rewrite Hk. cbn [raised_exn raised lift rbind].
  assert (Hperm : (py_sorted object_leb keyed).*1 ≡ₚ obs.*1) by (rewrite <- Hk1; apply fmap_Permutation, py_sorted_Permutation).
  destruct (Permutation_map_inv fst obs Hperm) as (obs' & Heq & Hp). exists obs'. split_and!.
  - f_equal. exact Heq.
  - rewrite <- Hbs. apply fmap_Permutation. by symmetry.
  - by rewrite <- Hp.
Qed.

Lemma digest_ok k get_bytes obs : Forall (object_of k get_bytes) obs → (∀ ref raw, get_bytes ref = Some raw → Z.of_nat (length raw) < 256 ^ 8) →
  Z.of_nat (length obs) < 256 ^ 4 → ∃ dg, ciphertext_digest k.1 k.2 obs.*1 = Ok dg.
Proof using REFS.
  intros Hobs Hraw Hlen. unfold ciphertext_digest. rewrite length_fmap, struct_pack_ok by (cbn in *; lia). cbn [rbind].
  assert (Hf : ∃ frames, rmap object_frame obs.*1 = Ok frames).
  { apply rmap_total. intros o ([o' b] & -> & Ho)%list_elem_of_fmap. destruct (proj1 (Forall_forall _ _) Hobs _ Ho) as [Href Hget Hn [? ?] [? ?] _ _].
    cbn [fst snd] in *. destruct (ref_encodes k.1 k.2 (first_seq b) Hn) as (bs & He & Hbs). unfold object_frame. rewrite Href. unfold batch_ref. rewrite He. cbn [rbind].
    pose proof (Hraw _ _ Hget). unfold MAX_TRACE_SEQ in *. change (256 ^ 8) with 18446744073709551616 in *. change (256 ^ 4) with 4294967296 in *.
    rewrite !struct_pack_ok; [|change (256 ^ Z.of_nat 8) with 18446744073709551616; lia|change (256 ^ Z.of_nat 4) with 4294967296; lia|change (256 ^ Z.of_nat 8) with 18446744073709551616; lia|change (256 ^ Z.of_nat 8) with 18446744073709551616; lia].
    cbn [rbind]. by eexists. }
  destruct Hf as [frames ->]. cbn [rbind]. by eexists.
Qed.
End Reads.

Section Finished.
Context {payload keys draws : Type} {KEYS : SubjectKeys payload keys draws} {STORE : TraceStore} {REFS : ReadableRefs STORE}.
Context (sha : list Z → list Z) (nfc_casefold : pystr → pystr).
Context (validate_business : list (pystr * json) → option (Z * TraceEvent)) (dump_event : TraceEvent → json) (claimed : QueueItem → Prop)
  (drawn : run_key → draws → Prop).
Hypothesis valid_seq : ∀ l seq ev, validate_business l = Some (seq, ev) → seq_bounded seq.

Lemma refs_distinct k owner batches : events_ok sha nfc_casefold validate_business claimed k owner batches → NoDup (batch_ref k <$> batches).
Proof.
  intros Hev. assert (Hnn : ∀ b, b ∈ batches → b ≠ [] ∧ ∀ e, e ∈ b → 0 <= en_seq e).
  { intros b Hb. split; [by apply (eo_batch _ _ _ _ _ _ _ Hev)|]. intros e He.
    assert (Hc : e ∈ concat batches) by (apply elem_of_concat; by exists b). by destruct (recorded_bounded _ _ _ _ valid_seq _ _ _ _ Hev Hc). }
  pose proof (eo_nodup _ _ _ _ _ _ _ Hev) as Hnd. clear Hev. induction batches as [|b bs IH]; [constructor|]. rewrite fmap_cons. cbn [concat] in Hnd.
  rewrite fmap_app, NoDup_app in Hnd. destruct Hnd as (_ & Hdisj & Hnd). constructor; [|apply IH; [intros b' Hb'; apply Hnn; by right|done]].
  intros (b' & Heq & Hb')%list_elem_of_fmap. destruct (Hnn b ltac:(left)) as [Hne Hpos], (Hnn b' ltac:(by right)) as [Hne' Hpos'].
  destruct (first_seq_elem b Hne) as (x & Hx & Hfx), (first_seq_elem b' Hne') as (y & Hy & Hfy). unfold batch_ref in Heq.
  apply object_ref_inj in Heq as (_ & _ & Heq); [|rewrite Hfx; by apply Hpos|rewrite Hfy; by apply Hpos'].
  apply (Hdisj (en_seq x)); [by apply list_elem_of_fmap_2|]. rewrite <- Hfx, Heq, Hfy. apply list_elem_of_fmap_2, elem_of_concat. by exists b'.
Qed.

(** The path of a finished run is as strict as the reader wants it. *)
Lemma path_strict v k row batches n s : run_archive sha nfc_casefold validate_business dump_event claimed drawn v k row batches →
  parse_seq (dict_get (path_of (Some row)) PATH_END_SEQ) = Some n → parse_end_status (dict_get (path_of (Some row)) PATH_END_STATUS) = Some s →
  (∀ m, m ∈ en_seq <$> concat batches ↔ 0 <= m <= n) → 0 <= n <= MAX_TRACE_SEQ →
  strict_index_path row = Ok (n, s, batch_ref k <$> batches).
Proof.
  intros Ha Hend Hst Hseqs Hn. pose proof (archive_refs _ _ _ _ _ _ _ _ _ _ Ha) as Hrefs. destruct Ha as [Hp Hev _ _ _ Href _ Hne].
  pose proof (po_ranges _ _ _ Hp Hne) as Hr. pose proof (po_seqs _ _ _ Hp) as Hm. unfold strict_index_path, path_of in *.
  destruct (ti_path row) as [path|]; [|done]. change (default [] (Some path)) with path in *. rewrite Hend, Hst.
  assert (Hranges : ranges (from_path (dict_get path PATH_SEQ_RANGES)) = [(0, n)]).
  { apply canonical_unique; [apply from_path_ok|apply canonical_cons; split_and!; [cbn; lia|constructor|apply canonical_nil]|].
    intros m. etrans; [apply (Hm m)|]. rewrite Hseqs, in_ranges_cons. cbn [fst snd]. split; [by left|]. intros [?|Hnil]; [done|by apply in_ranges_nil in Hnil]. }
  rewrite Hr, Hrefs. unfold to_path. rewrite Hranges. cbn [fmap list_fmap fst snd]. destruct batches as [|b bs]; [done|]. rewrite fmap_cons.
  rewrite !Z.eqb_refl, (proj2 (Z.leb_le _ _)) by lia. cbn [andb].
  assert (Hstrict : rmap strict_ref (JStr (batch_ref k b) :: ((λ b, JStr (batch_ref k b)) <$> bs)) = Ok (batch_ref k <$> b :: bs)).
  { rewrite <- (fmap_cons (λ b, JStr (batch_ref k b))). apply rmap_Ok, Forall2_fmap, Forall_Forall2_diag, Forall_true. intros b'. apply ref_strict. }
  rewrite Hstrict. cbn [rbind]. rewrite bool_decide_eq_true_2 by by eapply refs_distinct. by rewrite Href, bool_decide_eq_true_2.
Qed.
End Finished.

(** ** The reader against the writer *)

Lemma seqs_all n l : NoDup (en_seq <$> l) → (∀ m, m ∈ en_seq <$> l ↔ 0 <= m <= n) → 0 <= n → Z.of_nat (length l) = n + 1.
Proof.
  intros Hnd Hm Hn. assert (Hp : en_seq <$> l ≡ₚ seqZ 0 (n + 1)).
  { apply NoDup_Permutation; [done|apply NoDup_seqZ|]. intros m. rewrite Hm, elem_of_seqZ. lia. }
  apply Permutation_length in Hp. rewrite length_fmap, length_seqZ in Hp. lia.
Qed.

Lemma length_concat_ge {A} (ls : list (list A)) : (∀ l, l ∈ ls → l ≠ []) → (length ls <= length (concat ls))%nat.
Proof.
  induction ls as [|l ls IH]; intros Hne; [done|]. cbn. rewrite length_app. specialize (IH (λ l' Hl', Hne l' (list_elem_of_further _ _ _ Hl'))).
  pose proof (Hne l ltac:(left)). destruct l; [done|]. cbn. lia.
Qed.

Lemma outcome_value_known s : s ∈ RUN_END_STATUSES → outcome_value (outcome_of_status s) = s.
Proof. unfold RUN_END_STATUSES. cbn [fmap list_fmap]. rewrite !elem_of_cons, elem_of_nil. intros [-> | [-> | [-> | []]]]; by vm_compute. Qed.

Section Readback.
Context `{Sha256, AesGcm} (master : list Z) {STORE : TraceStore} {REFS : ReadableRefs STORE}.
Context (nfc_casefold : pystr → pystr) (validate_business : list (pystr * json) → option (Z * TraceEvent)) (dump_event : TraceEvent → json).
Context (validate_event : list (pystr * json) → option TraceEvent).
Context (server_arm : run_key → option Arm) (max_attempts : Z) (claimed : QueueItem → Prop)
  (drawn : run_key → Draws → Prop).
Hypothesis valid_seq : ∀ l seq ev, validate_business l = Some (seq, ev) → seq_bounded seq.
Hypothesis valid_attempts : 1 <= max_attempts <= MAX_QUEUE_ATTEMPTS.
Hypothesis valid_dump : ∀ l seq ev, validate_business l = Some (seq, ev) → dump_reads validate_event dump_event ev.

Abbreviation KEYS := (shredding master).
Abbreviation step := (ingest_step (KEYS := KEYS) sha256 nfc_casefold validate_business dump_event server_arm max_attempts claimed drawn).
Abbreviation archive := (run_archive (KEYS := KEYS) sha256 nfc_casefold validate_business dump_event claimed drawn).
Abbreviation shredded_in env k := (λ b, shredded_batch dump_event (ae_keys env) k.1 (batch_ref k b) b).

(** A finished run: its sentinel, its status, its numbers. *)
Lemma finished_archive v k row batches : archive v k row batches → is_terminal (ti_outcome_status row) = true →
  ∃ e s, sentinel (concat batches) = Some e ∧ end_status_of e = Some s ∧ ti_outcome_status row = outcome_of_status s
    ∧ ∀ m, m ∈ en_seq <$> concat batches ↔ 0 <= m <= en_seq e.
Proof using valid_seq.
  intros Ha Ht. pose proof (ra_events _ _ _ _ _ _ _ _ _ _ Ha) as Hev. destruct (proj1 (archive_closed _ _ _ _ _ _ valid_seq _ _ _ _ Ha) Ht) as (n & s & Hn & Hs & Ho & Hall).
  destruct (archive_end _ _ _ _ _ _ valid_seq _ _ _ _ Ha) as (Hend & Hst & _). rewrite Hend in Hn. rewrite Hst in Hs.
  destruct (sentinel (concat batches)) as [e|] eqn:Hsent; [|done]. injection Hn as <-. exists e, s. split_and!; [done..|]. intros m. split.
  - intros (x & -> & Hx)%list_elem_of_fmap. destruct (recorded_bounded _ _ _ _ valid_seq _ _ _ _ Hev Hx) as [Hlo _].
    destruct (eo_end _ _ _ _ _ _ _ Hev e Hsent x Hx) as [Hle _]. lia.
  - intros Hm. by apply (archive_recorded _ _ _ _ _ _ _ _ _ _ _ Ha), Hall.
Qed.

(** The objects of a run, sealed and bounded. *)
Lemma archive_sealed ks objs k row batches get_bytes : archive (ks, objs) k row batches → (∀ ref, get_bytes ref = objs !! ref) →
  Forall (sealed_batch master dump_event k get_bytes) batches.
Proof using valid_seq.
  intros Ha Hget. pose proof (ra_events _ _ _ _ _ _ _ _ _ _ Ha) as Hev. apply Forall_forall. intros b Hb.
  destruct (eo_batch _ _ _ _ _ _ _ Hev b Hb) as [Hne Hord]. destruct (ra_objects _ _ _ _ _ _ _ _ _ _ Ha b Hb) as (c & secs & Hc & (d & ks0 & ks1 & He & _) & Hs).
  split_and!; [done|done|intros e Hx; eapply (recorded_bounded _ _ _ _ valid_seq _ _ _ _ Hev), elem_of_concat; by exists b|].
  exists d, ks0, c, ks1, secs. split_and!; [by apply as_exn_Ok|done|]. by rewrite Hget.
Qed.

Lemma archive_opens ks objs k row batches get_bytes o b keys later : archive (ks, objs) k row batches → (∀ ref, get_bytes ref = objs !! ref) →
  (∀ d, drawn k d → ∀ n, dr_race d n = None) →
  b ∈ batches → object_of master k get_bytes (o, b) → keys (batch_ref k b) = Some later → keys_after ks later →
  opens_to master dump_event keys k.1 (o, b).
Proof using Type.
  intros Ha Hget Hunraced Hb Hob Hkeys Hafter. destruct (eo_batch _ _ _ _ _ _ _ (ra_events _ _ _ _ _ _ _ _ _ _ Ha) b Hb) as [_ Hord].
  destruct (ra_objects _ _ _ _ _ _ _ _ _ _ Ha b Hb) as (c & secs & Hc & (d & ks0 & ks1 & He%as_exn_Ok & Hd & Hl) & Hs). cbn [fst snd] in *.
  pose proof (Hunraced d Hd) as Hu.
  destruct (seal_opens _ _ _ _ _ _ _ _ later He Hu) as (os & Ho & Hos); [etrans; [apply subseteq_after; exact Hl|done]|].
  split; [done|]. exists later, secs, os. pose proof (oo_ref _ _ _ _ Hob) as Href. pose proof (oo_raw _ _ _ _ Hob) as Hraw. cbn [fst snd] in *.
  rewrite Hget, Hc in Hraw. injection Hraw as ->. split_and!; [by rewrite Href|done| |done]. by rewrite (oo_opens _ _ _ _ Hob).
Qed.

Section Finished.
Context (ks : key_table) (objs : gmap pystr (list Z)) (k : run_key) (row : TraceIndexRow) (batches : list (list envelope)) (env : archive_env).
Hypothesis Harch : archive (ks, objs) k row batches.
Hypothesis Hunraced : ∀ d, drawn k d → ∀ n, dr_race d n = None.
Hypothesis Hterm : is_terminal (ti_outcome_status row) = true.
Hypothesis Hget : ∀ ref, ae_get env ref = objs !! ref.
Hypothesis Hkeys : ∀ ref, ∃ later, ae_keys env ref = Some later ∧ keys_after ks later.
Hypothesis Hsize : ∀ ref raw, objs !! ref = Some raw → Z.of_nat (length raw) < 256 ^ 8.

Lemma objects_readable obs : obs.*2 ≡ₚ batches → Forall (object_of master k (ae_get env)) obs →
  (∃ bindings, subject_key_bindings obs.*1 = Ok bindings) ∧ Forall (opens_to master dump_event (ae_keys env) k.1) obs
  ∧ remove_dups (ob_version <$> obs.*1) = [V2_ENVELOPE_VERSION].
Proof using Harch Hget Hkeys Hunraced.
  intros Hperm Hobs. assert (Hin : ∀ o b, (o, b) ∈ obs → b ∈ batches).
  { intros o b Hob. rewrite <- Hperm. by apply (list_elem_of_fmap_2 snd _ (o, b)). }
  split_and!.
  - apply (bindings_ok master ks k.1). apply Forall_fmap, Forall_forall. intros [o b] Hob. unfold compose. cbn [fst].
    destruct (archive_opens ks objs k row batches (ae_get env) o b (λ _, Some ks) ks Harch Hget Hunraced (Hin _ _ Hob)) as (_ & ? & ? & os & [= <-] & _ & Hd & _);
      [by apply (proj1 (Forall_forall _ _) Hobs)|done|done|]. cbn [fst] in Hd. by rewrite Hd.
  - apply Forall_forall. intros [o b] Hob. destruct (Hkeys (batch_ref k b)) as (later & Hl & Hafter).
    eapply archive_opens; [exact Harch|exact Hget|exact Hunraced|by eapply Hin|by apply (proj1 (Forall_forall _ _) Hobs)|done|done].
  - apply remove_dups_same; [|rewrite !Forall_fmap; eapply Forall_impl; [exact Hobs|]; intros ob; by intros [? ? ? ? ? ? ?]].
    destruct obs; [|done]. apply Permutation_nil_l in Hperm. by destruct (ra_some _ _ _ _ _ _ _ _ _ _ Harch).
Qed.

Lemma shredded_objects obs : obs.*2 ≡ₚ batches → Forall (object_of master k (ae_get env)) obs →
  Exists (λ ob, shredded_batch dump_event (ae_keys env) k.1 (ob_ref_text ob.1) ob.2) obs ↔ Exists (shredded_in env k) batches.
Proof using Type.
  intros Hperm Hobs. rewrite <- Hperm, Exists_fmap. rewrite !Exists_exists. split; intros (ob & Hin & Hs); exists ob; (split; [done|]);
    pose proof (oo_ref _ _ _ _ (proj1 (Forall_forall _ _) Hobs ob Hin)) as Href; unfold compose in *; [by rewrite <- Href|by rewrite Href].
Qed.

Lemma recorded_readable e : e ∈ concat batches → dump_reads validate_event dump_event (en_event e) ∧ seq_bounded (en_seq e).
Proof using Harch valid_dump valid_seq.
  intros He. pose proof (ra_events _ _ _ _ _ _ _ _ _ _ Harch) as Hev. split; [|by eapply (recorded_bounded _ _ _ _ valid_seq)].
  destruct (eo_source _ _ _ _ _ _ _ Hev e He) as (_ & i & _ & Hp & _). unfold parse_item in Hp. destruct (_ && _); [|done].
  destruct (validate_business _) as [[seq ev]|] eqn:Hv; [|done]. apply valid_dump in Hv. by repeat case_match; simplify_eq.
Qed.

Lemma read_finished : ∃ digest,
  (¬ Exists (shredded_in env k) batches ∧ ∃ bindings events,
     read_checked master validate_event env k.1 k.2 row None = Ok (mkArchived row events digest bindings)
     ∧ length events = length (concat batches) ∧ ∀ e, e ∈ concat batches → events !! Z.to_nat (en_seq e) = Some (en_event e))
  ∨ (Exists (shredded_in env k) batches ∧
     read_checked master validate_event env k.1 k.2 row None = Err (ReadError PRIVACY_SKIP PRIVACY_TOMBSTONED (Some digest))).
Proof using All.
  pose proof (ra_events _ _ _ _ _ _ _ _ _ _ Harch) as Hev. destruct (finished_archive _ _ _ _ Harch Hterm) as (e & s & Hsent & Hs & Hst & Hseqs).
  destruct (sentinel_Some _ _ Hsent) as [He Hend]. destruct (recorded_readable e He) as [_ [Hlo Hhi]]. pose proof (eo_nodup _ _ _ _ _ _ _ Hev) as Hnd.
  pose proof (seqs_all _ _ Hnd Hseqs Hlo) as Hlen. pose proof (length_concat_ge batches (λ b Hb, proj1 (eo_batch _ _ _ _ _ _ _ Hev b Hb))) as Hle.
  destruct (read_batches master dump_event k (ae_get env) (en_seq e) batches (archive_sealed _ _ _ _ _ _ Harch Hget)) as (obs & Hread & Hperm & Hobs); [|lia|].
  { intros x Hx. apply Hseqs. by apply list_elem_of_fmap_2. }
  destruct (objects_readable obs Hperm Hobs) as ((bindings & Hb) & Hopens & Hver).
  destruct (digest_ok master k (ae_get env) obs Hobs) as [digest Hdig]; [intros ref raw; rewrite Hget; apply Hsize| |].
  { apply Permutation_length in Hperm. rewrite length_fmap in Hperm. rewrite Hperm. unfold MAX_TRACE_SEQ in Hhi. change (256 ^ 4) with 4294967296. lia. }
  exists digest. pose proof (path_strict _ _ _ _ _ _ valid_seq _ _ _ _ (en_seq e) s Harch) as Hpath. destruct (archive_end _ _ _ _ _ _ valid_seq _ _ _ _ Harch) as (Hpe & Hps & _).
  rewrite Hsent in Hpe, Hps. specialize (Hpath Hpe ltac:(by rewrite Hps) Hseqs ltac:(lia)).
  assert (Hcat : concat obs.*2 ≡ₚ concat batches) by by rewrite Hperm.
  assert (Hnd' : NoDup (en_seq <$> concat obs.*2)) by by rewrite Hcat.
  destruct (decode_archive master validate_event dump_event (ae_keys env) k.1 obs Hopens Hnd' (mkDecoding ∅ []) false) as (kept & tomb & Hdec & Htomb & Hkept).
  { intros x Hx. rewrite Hcat in Hx. destruct (recorded_readable x Hx) as [? [? _]]. split_and!; [done|done|]. apply lookup_empty. }
  rewrite (shredded_objects obs Hperm Hobs) in Htomb, Hkept.
  assert (Hread' : ∀ r, (if tomb then Err (ReadError PRIVACY_SKIP PRIVACY_TOMBSTONED (Some digest))
                         else finish_archive row (en_seq e) s digest bindings (foldl record (mkDecoding ∅ []) kept)) = r →
                        read_checked master validate_event env k.1 k.2 row None = r).
  { intros r <-. unfold read_checked. rewrite Hpath. cbn [rbind]. rewrite Hread. cbn [rbind]. rewrite Hb. cbn [rbind]. rewrite Hver, (ra_versions _ _ _ _ _ _ _ _ _ _ Harch).
    change (py_sorted Z.leb [V2_ENVELOPE_VERSION]) with [2]. rewrite bool_decide_eq_true_2 by done. rewrite Hdig. cbn [raised_exn raised lift rbind]. by rewrite Hdec. }
  destruct tomb; [right; split; [by destruct (proj1 Htomb eq_refl)|by apply Hread']|left].
  assert (Hsh : ¬ Exists (shredded_in env k) batches) by (intros Hx; discriminate (proj2 Htomb (or_intror Hx))). split; [done|]. rewrite (Hkept Hsh) in Hread'.
  destruct (finish_complete row (en_seq e) s digest bindings (concat obs.*2) e Hnd') as (events & Hfin & Hl & Hat); try done.
  - intros m. by rewrite Hcat.
  - by rewrite Hcat.
  - intros x. rewrite Hcat. intros Hx. by apply (eo_end _ _ _ _ _ _ _ Hev e Hsent x Hx).
  - rewrite Hst. symmetry. eapply outcome_value_known, end_status_known. exact Hs.
  - by rewrite (ra_ended _ _ _ _ _ _ _ _ _ _ Harch), Hsent.
  - exists bindings, events. split_and!; [by apply Hread'|lia|]. intros x Hx. apply Hat. by rewrite Hcat.
Qed.
End Finished.

(** What the reader meets once the run is in the store: its row, the objects the writer left, and at each
    object some later state of the key table, in which keys may have been destroyed meanwhile. *)
Record meets (w : tworld (list Z) key_table) (k : run_key) (row : TraceIndexRow) (env : archive_env) : Prop := {
  me_index : ae_index env = IndexRow k row;
  me_get : ∀ ref, ae_get env ref = tw_objects w !! ref;
  me_keys : ∀ ref, ∃ later, ae_keys env ref = Some later ∧ keys_after (subject_key (tw_db w)) later;
  me_size : ∀ ref raw, tw_objects w !! ref = Some raw → Z.of_nat (length raw) < 256 ^ 8;
}.

(** [C31] A finished run none of whose attempts lost the race to create a subject's key reads back, whatever
    batches, faults and redeliveries wrote it: as long as no key of its sections was destroyed, the reader
    returns all its events, each once and each at its own number; and once one was, it answers with the privacy
    disposition, never that the archive is corrupt and never a part of the events.  (An object sealed by an
    attempt that lost the race does not open: [raced_key_lost].) *)
Theorem archive_reads_back ks0 objs w k row env : rtc step (empty_world ks0 objs) w → trace_index (tw_db w) !! k = Some row →
  (∀ d, drawn k d → ∀ n, dr_race d n = None) → is_terminal (ti_outcome_status row) = true → meets w k row env →
  ∃ batches digest, archive (subject_key (tw_db w), tw_objects w) k row batches
    ∧ ((¬ Exists (shredded_in env k) batches ∧ ∃ bindings events,
         read_complete master validate_event env k.1 k.2 None None = Ok (mkArchived row events digest bindings)
         ∧ length events = length (concat batches) ∧ ∀ e, e ∈ concat batches → events !! Z.to_nat (en_seq e) = Some (en_event e))
       ∨ (Exists (shredded_in env k) batches
          ∧ read_complete master validate_event env k.1 k.2 None None = Err (ReadError PRIVACY_SKIP PRIVACY_TOMBSTONED (Some digest)))).
Proof using All.
  intros Hw Hrow Hunraced Hterm [Hindex Hget Hkeys Hsize]. destruct (reachable_archive _ _ _ _ _ _ _ _ valid_seq valid_attempts _ _ _ _ _ Hw Hrow) as [batches Ha].
  destruct (read_finished _ _ _ _ _ env Ha Hunraced Hterm Hget Hkeys Hsize) as (digest & Hcases). exists batches, digest. split; [done|].
  assert (Hended : bool_decide (ti_ended_at row = None) = false).
  { apply bool_decide_eq_false_2. destruct (finished_archive _ _ _ _ Ha Hterm) as (e & s & Hs & _). by rewrite (ra_ended _ _ _ _ _ _ _ _ _ _ Ha), Hs. }
  unfold read_complete, read_complete_body. rewrite Hindex, Hterm, Hended. rewrite bool_decide_eq_true_2 by by destruct k. cbn [negb andb].
  destruct Hcases as [(Hno & bs & events & -> & ? & ?)|[He ->]]; [left; split; [done|]; by exists bs, events|by right].
Qed.
End Readback.

(** ** Outages *)

(** Some answers replaced by failures of the index, the store or the key table. *)
Record failing (env env' : archive_env) : Prop := {
  fa_index : ae_index env' = ae_index env ∨ ae_index env' = IndexUnreachable;
  fa_get : ∀ ref, ae_get env' ref = ae_get env ref ∨ ae_get env' ref = None;
  fa_keys : ∀ ref, ae_keys env' ref = ae_keys env ref ∨ ae_keys env' ref = None;
}.

Abbreviation same_or_retry x' x := (x' = x ∨ x' = Err retry_unavailable).

Section Outages.
Context `{Sha256, AesGcm} (master : list Z) (validate_event : list (pystr * json) → option TraceEvent).

Lemma rbind_retry {A B} (x x' : result archive_err A) (f f' : A → result archive_err B) :
  same_or_retry x' x → (∀ a, same_or_retry (f' a) (f a)) → same_or_retry (rbind x' f') (rbind x f).
Proof using Type. intros [-> | ->] Hf; [|by right]. destruct x as [a|e]; [apply Hf|by left]. Qed.

Lemma check_retry {A} (b : bool) (x x' : result archive_err A) e : same_or_retry x' x → same_or_retry (if b then x' else Err e) (if b then x else Err e).
Proof using Type. destruct b; [done|by left]. Qed.

Lemma rmap_retry {A B} (f f' : A → result archive_err B) l : (∀ a, same_or_retry (f' a) (f a)) → same_or_retry (rmap f' l) (rmap f l).
Proof using Type.
  intros Hf. induction l as [|a l IH]; [by left|]. cbn [rmap]. apply rbind_retry; [apply Hf|]. intros b. apply rbind_retry; [done|]. by left.
Qed.

Lemma decode_objects_retry keys keys' p objects : (∀ ref, keys' ref = keys ref ∨ keys' ref = None) → ∀ st tomb,
  same_or_retry (decode_objects master validate_event keys' p st tomb objects) (decode_objects master validate_event keys p st tomb objects).
Proof.
  intros Hk. induction objects as [|o objects IH]; intros st tomb; [by left|]. cbn [decode_objects]. destruct (Hk (ob_ref_text o)) as [-> | ->]; [|by right].
  destruct (keys (ob_ref_text o)); [|by left]. apply rbind_retry; [by left|]. intros os. apply rbind_retry; [by left|]. intros [st' tomb']. apply IH.
Qed.

(** [C32] An outage never condemns an archive: where the index, the object store or the key table fails to
    answer, the reader's result is the one it would have given, or the disposition to try again; so neither
    a dead archive nor a privacy skip is ever concluded from a failure. *)
Theorem outage_retries env env' p r expected_digest expected_ended_at : failing env env' →
  same_or_retry (read_complete master validate_event env' p r expected_digest expected_ended_at)
                (read_complete master validate_event env p r expected_digest expected_ended_at).
Proof.
  intros [Hi Hg Hk].
  assert (Hlift : ∀ x x' : result archive_err ArchivedTrace, same_or_retry x' x →
    same_or_retry (match x' with Ok a => Ok a | Err e => Err (disposition_of e) end) (match x with Ok a => Ok a | Err e => Err (disposition_of e) end)).
  { intros x x' [-> | ->]; [by left|by right]. }
  apply Hlift. clear Hlift. apply check_retry. unfold read_complete_body. destruct Hi as [-> | ->]; [|by right]. destruct (ae_index env) as [k row| |]; [|by left..].
  do 3 apply check_retry. unfold read_checked. apply rbind_retry; [by left|]. intros [[end_seq end_status] refs]. apply rbind_retry.
  { unfold read_objects. apply check_retry. apply rbind_retry; [by left|]. intros validated. apply rbind_retry; [|by left].
    apply rmap_retry. intros [ref n]. unfold read_object. cbn [fst]. destruct (Hg ref) as [-> | ->]; [by left|by right]. }
  intros objects. apply rbind_retry; [by left|]. intros bindings. apply check_retry. apply rbind_retry; [by left|]. intros digest.
  apply check_retry. apply rbind_retry; [by apply decode_objects_retry|]. by left.
Qed.
End Outages.

(** ** Witnesses: a run of two events, the first about a subject *)

Definition events_rb : list (pystr * TraceEvent) :=
  [(of_ascii "state_note", mkEvent E_state_note (mkDatetime 1 true) [(of_ascii "subject_tags", JArr [JStr (of_ascii "alice")])]);
   (of_ascii "run_end", mkEvent E_run_end (mkDatetime 2 true) [(of_ascii "status", JStr (of_ascii "ok"))])].
Definition read_event_rb (d : list (pystr * json)) : option TraceEvent :=
  match dict_get d (of_ascii "type") with Some (JStr t) => dict_get events_rb t | _ => None end.
Definition validate_rb (l : list (pystr * json)) : option (Z * TraceEvent) :=
  match dict_get l (of_ascii "seq"), dict_get l (of_ascii "event") with
  | Some (JInt n), Some (JObj ev) => if (0 <=? n) && (n <=? MAX_TRACE_SEQ) then (λ e, (n, e)) <$> read_event_rb ev else None
  | _, _ => None
  end.
Definition dump_rb (ev : TraceEvent) : json :=
  JObj [(of_ascii "type", JStr (of_ascii (if bool_decide (ev_type ev = E_run_end) then "run_end" else "state_note")))].

Definition items_rb : list QueueItem := [queued_ex 0 "state_note" []; queued_ex 1 "run_end" []].
Definition attempt_rb : attempt Draws := mkAttempt GateOpen (Some []) (draws_ex None) false false CommitApplied None.
Definition world_rb : tworld (list Z) key_table :=
  (run_once (KEYS := shredding master_ex) sha256 id validate_rb dump_rb (λ _, None) 5 items_rb (λ _, attempt_rb) (empty_world ∅ ∅)).2.
Definition tagged_digest : list Z := match subject_digest project_ex (of_ascii "alice") with Ok d => d | Err _ => [] end.

(** The archive, with the keys the run left or after the subject's erasure. *)
Definition env_rb (row : TraceIndexRow) (erased : bool) : archive_env :=
  mkArchiveEnv (IndexRow traced_ex row) (λ ref, tw_objects world_rb !! ref)
    (λ _, Some (if erased then destroy_keys (subject_key (tw_db world_rb)) project_ex (Some tagged_digest) 200 else subject_key (tw_db world_rb))).

Lemma validate_rb_cases l seq ev : validate_rb l = Some (seq, ev) → seq_bounded seq ∧ ev ∈ events_rb.*2.
Proof.
  unfold validate_rb. destruct (dict_get l (of_ascii "seq")) as [[]|]; try done. destruct (dict_get l (of_ascii "event")) as [[]|]; try done.
  case_match eqn:Hb; [|done]. intros (e & He & [= -> ->])%fmap_Some. split; [unfold seq_bounded; lia|]. unfold read_event_rb in He.
  destruct (dict_get _ (of_ascii "type")) as [[]|]; try done. apply dict_get_Some_elem in He. by apply (list_elem_of_fmap_2 snd) in He.
Qed.

Lemma validate_rb_seq l seq ev : validate_rb l = Some (seq, ev) → seq_bounded seq.
Proof. by intros [? _]%validate_rb_cases. Qed.

Lemma validate_rb_dump l seq ev : validate_rb l = Some (seq, ev) → dump_reads read_event_rb dump_rb ev.
Proof.
  intros [_ He]%validate_rb_cases. assert (Hcases : ∃ t, dict_get events_rb (of_ascii t) = Some ev ∧ dump_rb ev = JObj [(of_ascii "type", JStr (of_ascii t))]).
  { unfold events_rb in He. cbn [fmap list_fmap snd] in He. rewrite !elem_of_cons, elem_of_nil in He.
    destruct He as [-> | [-> | []]]; [exists "state_note"%string|exists "run_end"%string]; split; vm_compute; reflexivity. }
  destruct Hcases as (t & Ht & Hd). eexists _, _. split_and!; [exact Hd| |reflexivity|].
  - apply wf_obj. split; [cbn; apply NoDup_singleton|]. constructor; [|done]. split; [apply codes_ascii|apply codes_ascii].
  - unfold read_event_rb. rewrite <- Ht. reflexivity.
Qed.

Lemma world_rb_reachable : rtc (ingest_step (KEYS := shredding master_ex) sha256 id validate_rb dump_rb (λ _, None) 5 (λ i, i ∈ items_rb) (λ _ d, d = draws_ex None)) (empty_world ∅ ∅) world_rb.
Proof. apply run_once_steps; [repeat constructor; set_solver|done]. Qed.

Lemma row_rb : ∃ row, trace_index (tw_db world_rb) !! traced_ex = Some row ∧ is_terminal (ti_outcome_status row) = true
  ∧ (let! a := read_complete master_ex read_event_rb (env_rb row false) traced_ex.1 traced_ex.2 None None in Ok (ar_events a)) = Ok events_rb.*2
  ∧ is_ok (read_complete master_ex read_event_rb (env_rb row true) traced_ex.1 traced_ex.2 None None) = false.
Proof.
  destruct (trace_index (tw_db world_rb) !! traced_ex) as [row|] eqn:Hrow; [|by vm_compute in Hrow]. exists row. split; [done|].
  assert (Hr : row = default row (trace_index (tw_db world_rb) !! traced_ex)) by (by rewrite Hrow). rewrite Hr. clear Hrow Hr. split_and!; vm_compute; reflexivity.
Qed.

Lemma meets_rb row erased : meets world_rb traced_ex row (env_rb row erased).
Proof.
  split; [done|done| |].
  - intros ref. destruct erased; eexists; (split; [reflexivity|]); [apply destroy_after|reflexivity].
  - assert (Hall : forallb (λ x, (length x.2 <? 5000)%nat) (map_to_list (tw_objects world_rb)) = true) by (vm_compute; reflexivity).
    intros ref raw Hraw. apply elem_of_map_to_list, list_elem_of_In in Hraw. apply (proj1 (forallb_forall _ _) Hall), Nat.ltb_lt in Hraw.
    cbn [snd] in Hraw. change (256 ^ 8) with 18446744073709551616. lia.
Qed.

(** Both events before the erasure of the subject, the privacy disposition after. *)
Lemma archive_reads_back_witness : ∃ row digest bindings events digest',
  read_complete master_ex read_event_rb (env_rb row false) traced_ex.1 traced_ex.2 None None = Ok (mkArchived row events digest bindings)
  ∧ events = events_rb.*2
  ∧ read_complete master_ex read_event_rb (env_rb row true) traced_ex.1 traced_ex.2 None None = Err (ReadError PRIVACY_SKIP PRIVACY_TOMBSTONED (Some digest')).
Proof.
  destruct row_rb as (row & Hrow & Hterm & Hlive & Hdead). pose proof (λ erased, archive_reads_back master_ex id validate_rb dump_rb read_event_rb (λ _, None) 5
    (λ i, i ∈ items_rb) (λ _ d, d = draws_ex None) validate_rb_seq attempts_ex validate_rb_dump ∅ ∅ world_rb traced_ex row (env_rb row erased) world_rb_reachable Hrow
    ltac:(by intros d ->) Hterm (meets_rb row erased)) as Hread.
  destruct (Hread true) as (? & digest' & _ & [(_ & bs & evs & Hok & _)|[_ Herr]]); [rewrite Hok in Hdead; discriminate Hdead|].
  destruct (Hread false) as (? & digest & _ & [(_ & bindings & events & Hok & _)|[_ Herr']]); [|rewrite Herr' in Hlive; discriminate Hlive].
  exists row, digest, bindings, events, digest'. rewrite Hok in Hlive. apply (inj Ok) in Hlive. exact (conj Hok (conj Hlive Herr)).
Defined.

(** The same archive while the object store does not answer. *)
Definition outage_rb (row : TraceIndexRow) : archive_env := mkArchiveEnv (IndexRow traced_ex row) (λ _, None) (ae_keys (env_rb row false)).

Lemma outage_retries_witness : ∃ row, failing (env_rb row false) (outage_rb row)
  ∧ read_complete master_ex read_event_rb (outage_rb row) traced_ex.1 traced_ex.2 None None = Err retry_unavailable.
Proof.
  destruct row_rb as (row & Hrow & Hterm & Hlive & _). exists row.
  assert (Hf : failing (env_rb row false) (outage_rb row)) by (split; intros; [by left|by right|by left]).
  assert (Hdown : is_ok (read_complete master_ex read_event_rb (outage_rb row) traced_ex.1 traced_ex.2 None None) = false).
  { assert (Hr : row = default row (trace_index (tw_db world_rb) !! traced_ex)) by (by rewrite Hrow). rewrite Hr. clear. vm_compute. reflexivity. }
  destruct (outage_retries master_ex read_event_rb (env_rb row false) (outage_rb row) traced_ex.1 traced_ex.2 None None Hf) as [Heq|Heq]; [|exact (conj Hf Heq)].
  rewrite Heq in Hdown. destruct (read_complete _ _ (env_rb row false) _ _ _ _); discriminate.
Defined.
