(* ===== verification/Jit.v ===== *)
(** * Just-in-time lessons (hotpath/jit.py)

    [JitGate]: an operational event that reports a failed tool call may inject one lesson, once
    per run.  The claims and releases of runs happen under the gate's lock, so they are atomic
    steps on the ordered dict of fired runs; the clock is read before the lock is taken, by each
    thread for itself.  The retriever, the store and the recorders are collaborators as in
    HotPath; while they run, other threads may change the fired runs, which are part of the
    world [E]. *)

From Stdlib Require Import Floats.
From S2P Require Import Prelude Domain PyText PyFloat FloatRound Json TraceWriter StateMachine Memory Templates Assembler Fusion Abstention HotPath Assembly.
Open Scope Z_scope.

(** ** Triggers *)

Definition JitTrigger_value (t : JitTrigger) : pystr :=
  of_ascii match t with TOOL_ERROR => "tool_error" | SCHEMA_FAILURE => "schema_failure" end.

(** Python's truth of a JSON value. *)
Definition json_truthy (j : json) : bool :=
  match j with
  | JNull => false
  | JBool b => b
  | JInt n => negb (n =? 0)
  | JStr s => negb (bool_decide (s = []))
  | JArr l => match l with [] => false | _ => true end
  | JObj l => match l with [] => false | _ => true end
  end.

Definition payload_str (e : TraceEvent) (key : string) : option pystr :=
  match dict_get (ev_payload e) (of_ascii key) with Some (JStr s) => Some s | _ => None end.

Definition classify_trigger (e : TraceEvent) : option JitTrigger :=
  if negb (bool_decide (ev_type e = E_tool_result)) then None
  else if json_truthy (default (JBool true) (dict_get (ev_payload e) (of_ascii "ok"))) then None
  else if bool_decide (payload_str e "error_class" = Some (of_ascii "schema_validation")) then Some SCHEMA_FAILURE
  else Some TOOL_ERROR.

Definition nonempty_str (s : option pystr) : list pystr := match s with Some (c :: s') => [c :: s'] | _ => [] end.

Definition jit_query_text (e : TraceEvent) (trigger : JitTrigger) : pystr :=
  py_join [32] (JitTrigger_value trigger :: nonempty_str (payload_str e "tool_id") ++ nonempty_str (payload_str e "error_class")).

(** ** The fired runs, in order of insertion *)

Abbreviation fired_runs := (list (RunId * Z)).

Definition MS_PER_MINUTE : Z := 60000.

(** Entries up to the cutoff go, oldest first, until one is younger. *)
Fixpoint expire (cutoff : Z) (fired : fired_runs) : fired_runs :=
  match fired with
  | [] => []
  | (run, t) :: fired' => if cutoff <? t then fired else expire cutoff fired'
  end.

(** The critical section of [_claim]. *)
Definition claim_step (run : RunId) (now idle_ttl_min : Z) (fired : fired_runs) : bool * fired_runs :=
  let fired := expire (now - idle_ttl_min * MS_PER_MINUTE) fired in
  match dict_get fired run with
  | Some _ => (false, fired)
  | None => (true, fired ++ [(run, now)])
  end.

(** [self._fired.pop(run_id, None)] *)
Definition forget_step (run : RunId) (fired : fired_runs) : fired_runs := List.filter (λ x, negb (bool_decide (x.1 = run))) fired.

(** ** The gate *)

Record JitConfig := mkJitConfig { jc_hot : HotConfig; jc_idle_ttl_min : Z }.

(** The store's reads, without a deadline. *)
Record JitStore (E : Type) := mkJitStore {
  js_fetch_candidates : ProjectId → list MemoryId → port E (list CandidateRow);
  js_document_frequency : ProjectId → list pystr → port E (list (pystr * Z));
  js_corpus_size : ProjectId → port E Z;
}.
Arguments js_fetch_candidates {E}.
Arguments js_document_frequency {E}.
Arguments js_corpus_size {E}.

Record JitPorts (E : Type) := mkJitPorts {
  jp_retrieve : ProjectId → pystr → RetrievalConfig → port E (list FusedCandidate);
  jp_store : JitStore E;
  jp_now_ms : port E Z;
  jp_telemetry : option (ProjectId → RunId → JitTrigger → OutcomeCode → port E unit);
  jp_injections : option (ProjectId → RunId → list InjectionRow → port E unit);
  jp_fired : E → fired_runs;
  jp_set_fired : fired_runs → E → E;
}.
Arguments jp_retrieve {E}.
Arguments jp_store {E}.
Arguments jp_now_ms {E}.
Arguments jp_telemetry {E}.
Arguments jp_injections {E}.
Arguments jp_fired {E}.
Arguments jp_set_fired {E}.

Section Gate.
Context {E : Type} (lower : pystr → pystr) (powf : float → float → float) (P : JitPorts E).
Open Scope io_scope.

Definition critical {A} (step : fired_runs → A * fired_runs) : io E A := λ w,
  let '(a, fired) := step (jp_fired P (w_env w)) in (Ok a, mkWorld (jp_set_fired P fired (w_env w)) (w_log w)).

Definition forget (run : RunId) : io E unit := critical (λ fired, (tt, forget_step run fired)).

Definition claim (run : RunId) (cfg : JitConfig) : io E bool :=
  do now ← call (jp_now_ms P); critical (claim_step run now (jc_idle_ttl_min cfg)).

Definition jit_serve (q : StoreQuery) : port E (answer q) :=
  match q with
  | FetchCandidates p ids => js_fetch_candidates (jp_store P) p ids
  | DocumentFrequency p terms => js_document_frequency (jp_store P) p terms
  | CorpusSize p => js_corpus_size (jp_store P) p
  end.

Definition ask_lessons (p : ProjectId) (query_text : pystr) (rc : RetrievalConfig) : io E (list FusedCandidate) :=
  ask (Retrieved p query_text) (jp_retrieve P p query_text rc).

Definition jit_rarity_lookup (p : ProjectId) (query_text : pystr) (rows : list CandidateRow) : io E (list (MemoryId * RarityEvidence)) :=
  let terms := query_terms lower query_text in
  do corpus ← ask_store jit_serve (CorpusSize p);
  if (corpus <=? 0) || bool_decide (terms = []) then of_result (rmap (no_evidence corpus) rows)
  else
    do frequencies ← ask_store jit_serve (DocumentFrequency p terms);
    of_result (rmap (shared_evidence lower terms frequencies corpus) rows).

(** A row of the answer that may become a lesson. *)
Definition lesson_row (scope : ProjectScope) (row : CandidateRow) : bool :=
  bool_decide (cr_mem_type row = LESSON) && bool_decide (cr_status row = VALIDATED)
  && scope_visible (cr_scope_type row) (cr_scope_id row) (mkVisibility (sc_agent_type_id scope) None None).

(** The body of the loop: an abstention code, or the score of an injectable lesson. *)
Definition judge_lesson (cfg : HotConfig) (now : Z) (rarity : list (MemoryId * RarityEvidence)) (fused : FusedCandidate) (row : CandidateRow)
  : result exn (OutcomeCode + float) :=
  let! _ := assert_dynamically_retrievable row in
  let! ev := match dict_get rarity (cr_memory_id row) with Some ev => Ok ev | None => Err KeyError end in
  let! signals := signals_for fused ev in
  let! decision := Abstention.decide signals (cfg_abstention cfg) in
  let! age := age_days now (cr_created_at row) in
  let! cal := calibrated_post_init
                (mkCalibrated (match f_vector fused with None => 0%float | Some v => sg_raw_score v end) (cr_q_value row) age (cr_confidence row)) in
  let! score := calibrated_score powf cal (cfg_score cfg) in
  if negb (inject decision) then
    match outcome_code decision with Some code => Ok (inl code) | None => Err ValueError end
  else Ok (inr score).

Definition better_lesson (row : CandidateRow) (score : float) (best : option (CandidateRow * float)) : bool :=
  match best with
  | None => true
  | Some (r, s) => (s <? score)%float || ((score =? s)%float && str_ltb (id_str (cr_memory_id row)) (id_str (cr_memory_id r)))
  end.

Fixpoint lesson_loop (judge : FusedCandidate → CandidateRow → result exn (OutcomeCode + float)) (rows : list (MemoryId * CandidateRow))
    (candidates : list FusedCandidate) (best : option (CandidateRow * float)) (codes : list OutcomeCode)
  : result exn (option (CandidateRow * float) * list OutcomeCode) :=
  match candidates with
  | [] => Ok (best, codes)
  | fused :: rest =>
      match dict_get rows (f_memory_id fused) with
      | None => lesson_loop judge rows rest best codes
      | Some row =>
          let! v := judge fused row in
          match v with
          | inl code => lesson_loop judge rows rest best (codes ++ [code])
          | inr score => lesson_loop judge rows rest (if better_lesson row score best then Some (row, score) else best) codes
          end
      end
  end.

(** [ContextSlot(...)]: negative tokens are refused. *)
Definition lesson_slot (row : CandidateRow) : result exn ContextSlot :=
  check! 0 <=? cr_token_count row else ValueError in
  Ok (mkSlot JIT_LESSON (Some (MemoryId_value (cr_memory_id row))) (cr_token_count row) (cr_content row)).

Definition retrieve_one_lesson (scope : ProjectScope) (e : TraceEvent) (trigger : JitTrigger) (cfg : HotConfig)
  : io E (OutcomeCode * option (ContextSlot * InjectionRow)) :=
  if killswitched LESSON cfg then ret (EMPTY_RESULT, None)
  else
    let query_text := jit_query_text e trigger in
    do candidates ← ask_lessons (sc_project_id scope) query_text (cfg_retrieval cfg);
    match candidates with
    | [] => ret (EMPTY_RESULT, None)
    | _ =>
        do fetched ← ask_store jit_serve (FetchCandidates (sc_project_id scope) (f_memory_id <$> candidates));
        let rows := dict_of ((λ r, (cr_memory_id r, r)) <$> List.filter (lesson_row scope) fetched) in
        match rows with
        | [] => ret (EMPTY_RESULT, None)
        | _ =>
            do rarity ← jit_rarity_lookup (sc_project_id scope) query_text rows.*2;
            do now ← read_now (jp_now_ms P);
            do (best, codes) ← of_result (lesson_loop (judge_lesson cfg now rarity) rows candidates None []);
            match best with
            | None => ret (match codes with c :: _ => c | [] => EMPTY_RESULT end, None)
            | Some (row, score) =>
                if default 0 (slot_caps (cfg_budget cfg) !! "jit_lesson"%string) <? cr_token_count row then ret (EMPTY_RESULT, None)
                else
                  do slot ← of_result (lesson_slot row);
                  ret (INJECTED, Some (slot, mkInjection (cr_memory_id row) JIT_LESSON score (cr_token_count row)))
            end
        end
    end.

Definition record_jit (p : ProjectId) (run : RunId) (trigger : JitTrigger) (code : OutcomeCode) : io E unit :=
  match jp_telemetry P with
  | Some f => try (do _ ← logged (RecordJit p run trigger code); call (f p run trigger code)) except (λ _, ret tt)
  | None => ret tt
  end.

Definition record_injection (p : ProjectId) (run : RunId) (row : InjectionRow) : io E unit :=
  match jp_injections P with
  | Some f => try (do _ ← logged (RecordInjections p run [row]); call (f p run [row])) except (λ _, ret tt)
  | None => ret tt
  end.

Definition evaluate (scope : ProjectScope) (run : RunId) (e : TraceEvent) (cfg : JitConfig) : io E (option ContextBlock) :=
  match classify_trigger e with
  | None => ret None
  | Some trigger =>
      do won ← claim run cfg;
      if negb won then ret None
      else
        do (code, injection) ← try (retrieve_one_lesson scope e trigger (jc_hot cfg)) except (λ _, ret (STORE_ERROR, None));
        do _ ← record_jit (sc_project_id scope) run trigger code;
        match injection with
        | None => ret None
        | Some (slot, row) =>
            do _ ← record_injection (sc_project_id scope) run row;
            do block ← of_result (render [slot]);
            ret (Some block)
        end
  end.
End Gate.

(** ** One shot per run *)

(** The gate's critical sections, as the lock orders them. *)
Inductive gate_op := Claim (run : RunId) (now idle_ttl_min : Z) | Forget (run : RunId).

Definition gate_step (op : gate_op) (fired : fired_runs) : fired_runs :=
  match op with Claim run now ttl => (claim_step run now ttl fired).2 | Forget run => forget_step run fired end.
Definition gate_after (fired : fired_runs) (ops : list gate_op) : fired_runs := foldl (flip gate_step) fired ops.
Definition wins (run : RunId) (now idle_ttl_min : Z) (fired : fired_runs) : bool := (claim_step run now idle_ttl_min fired).1.

Lemma expire_keeps cutoff fired run t : (run, t) ∈ fired → cutoff < t → (run, t) ∈ expire cutoff fired.
Proof.
  induction fired as [|[r s] fired IH]; intros Hin Ht; [done|]. cbn. destruct (Z.ltb_spec cutoff s); [done|].
  apply elem_of_cons in Hin as [[= <- <-]|Hin]; [lia|by apply IH].
Qed.

Lemma claim_keeps r now ttl fired run t : (run, t) ∈ fired → now - ttl * MS_PER_MINUTE < t → (run, t) ∈ (claim_step r now ttl fired).2.
Proof.
  intros Hin Ht. unfold claim_step. pose proof (expire_keeps _ _ _ _ Hin Ht). case_match; cbn; [done|]. apply elem_of_app. by left.
Qed.

Lemma claim_loses run now ttl fired t : (run, t) ∈ fired → now - ttl * MS_PER_MINUTE < t → wins run now ttl fired = false.
Proof.
  intros Hin Ht. unfold wins, claim_step. pose proof (expire_keeps _ _ _ _ Hin Ht) as He.
  destruct (dict_get _ run) eqn:Hg; [done|]. exfalso. eapply dict_get_None; [exact Hg|]. by apply (list_elem_of_fmap_2 fst _ (run, t)).
Qed.

Lemma claim_wins run now ttl fired : wins run now ttl fired = true → (run, now) ∈ (claim_step run now ttl fired).2.
Proof. unfold wins, claim_step. case_match; [done|]. intros _. cbn. apply elem_of_app. right. left. Qed.

Lemma gate_keeps ops : ∀ fired run t, (run, t) ∈ fired → Forget run ∉ ops → (∀ r n ttl, Claim r n ttl ∈ ops → n - ttl * MS_PER_MINUTE < t) →
  (run, t) ∈ gate_after fired ops.
Proof.
  induction ops as [|op ops IH]; intros fired run t Hin Hf Hc; [done|]. apply not_elem_of_cons in Hf as [Hne Hf]. cbn [gate_after foldl]. apply IH; [|done|].
  - destruct op as [r n ttl|r]; cbn; [apply claim_keeps; [done|]; apply (Hc r n ttl); left|].
    unfold forget_step. apply list_elem_of_In, List.filter_In. split; [by apply list_elem_of_In|]. cbn. rewrite bool_decide_eq_false_2; [done|]. congruence.
  - intros r n ttl Hx. apply (Hc r n ttl). by right.
Qed.

Lemma expire_sub cutoff fired x : x ∈ expire cutoff fired → x ∈ fired.
Proof. induction fired as [|[r s] fired IH]; [done|]. cbn. destruct (cutoff <? s); [done|]. intros Hx. right. by apply IH. Qed.

(** A claim, of whatever run, whose own clock and own idle time put the given time out of the window. *)
Definition window_passed (t0 : Z) (op : gate_op) : Prop :=
  match op with Claim _ now ttl => t0 + ttl * MS_PER_MINUTE <= now | Forget _ => False end.

#[export] Instance window_passed_dec t0 op : Decision (window_passed t0 op).
Proof. destruct op; unfold window_passed; apply _. Defined.

(** [C14] A run gets one just-in-time lesson, whatever the interleaving of the threads' claims and releases, their
    clocks and their projects' idle times: a run that has not fired gets its shot; once it has, at time [now], no
    claim of it succeeds again, unless the run was released or some claim since -- of this run or of another, the
    succeeding claim included -- read a clock at least its own idle time past [now].  (A claim of another project
    with a shorter idle time, or with a clock ahead, can therefore end the run's window early:
    [foreign_ttl_second_shot].) *)
Theorem jit_one_shot fired run now ttl ops now' ttl' :
  (run ∉ fired.*1 → wins run now ttl fired = true)
  ∧ (wins run now ttl fired = true → Forget run ∉ ops →
     wins run now' ttl' (gate_after fired (Claim run now ttl :: ops)) = true →
     Exists (window_passed now) (ops ++ [Claim run now' ttl'])).
Proof.
  split.
  - intros Hrun. unfold wins, claim_step. rewrite (proj2 (dict_get_None _ _)); [done|]. intros ([r t] & -> & Hx%expire_sub)%list_elem_of_fmap.
    apply Hrun. by apply (list_elem_of_fmap_2 fst _ (r, t)).
  - intros Hwin Hf Hwin'. destruct (stdpp.base.decide (Exists (window_passed now) (ops ++ [Claim run now' ttl']))) as [?|Hn]; [done|]. exfalso.
    rewrite Exists_app, Exists_cons, Exists_nil in Hn. apply Decidable.not_or in Hn as [Hops Hlast]. cbn [window_passed] in Hlast.
    rewrite (claim_loses run now' ttl' _ now) in Hwin'; [done| |lia]. cbn [gate_after foldl]. apply gate_keeps; [by apply claim_wins|done|].
    intros r n t Hx. destruct (Z.le_gt_cases (now + t * MS_PER_MINUTE) n); [|lia]. destruct Hops. apply Exists_exists. by exists (Claim r n t).
Qed.

(** Claims in the order of their clock readings, all with one idle time. *)
Inductive in_order (ttl : Z) : Z → list gate_op → Prop :=
| order_nil now : in_order ttl now []
| order_claim run now now' ops : now <= now' → in_order ttl now' ops → in_order ttl now (Claim run now' ttl :: ops)
| order_forget run now ops : in_order ttl now ops → in_order ttl now (Forget run :: ops).

Definition by_time (fired : fired_runs) : Prop := StronglySorted (λ a b, a.2 <= b.2) fired.

Lemma expire_suffix cutoff fired : ∃ gone, fired = gone ++ expire cutoff fired.
Proof.
  induction fired as [|[r t] fired [gone IH]]; [by exists []|]. cbn. destruct (cutoff <? t); [by exists []|]. exists ((r, t) :: gone). cbn. by rewrite <- IH.
Qed.

Lemma expire_young cutoff fired : by_time fired → Forall (λ x, cutoff < x.2) (expire cutoff fired).
Proof.
  induction 1 as [|[r t] fired Hs IH Hall]; [constructor|]. cbn. destruct (Z.ltb_spec cutoff t); [|done]. constructor; [done|].
  eapply Forall_impl; [exact Hall|]. cbn. intros. lia.
Qed.

(** What the gate keeps: distinct runs, by time, none of the future. *)
Definition gate_ok (now : Z) (fired : fired_runs) : Prop := by_time fired ∧ NoDup fired.*1 ∧ Forall (λ x, x.2 <= now) fired.

Lemma suffix_ok now gone fired : gate_ok now (gone ++ fired) → gate_ok now fired.
Proof.
  intros (Hs & Hn & Hf). rewrite fmap_app, NoDup_app in Hn. apply Forall_app in Hf as [_ Hf]. split_and!; [|by destruct Hn as (_ & _ & ?)|done].
  clear -Hs. induction gone as [|x gone IH]; [done|]. inversion Hs. by apply IH.
Qed.

Lemma claim_ok run now now' ttl fired : gate_ok now fired → now <= now' → 0 < ttl →
  gate_ok now' (claim_step run now' ttl fired).2 ∧ Forall (λ x, now' - ttl * MS_PER_MINUTE < x.2) (claim_step run now' ttl fired).2.
Proof.
  intros Hok Hle Httl. set (cutoff := now' - ttl * MS_PER_MINUTE). pose proof (expire_young cutoff _ (proj1 Hok)) as Hy.
  destruct (expire_suffix cutoff fired) as [gone Hg]. rewrite Hg in Hok. apply suffix_ok in Hok as (Hs & Hn & Hf). unfold claim_step. fold cutoff.
  assert (Hf' : Forall (λ x : RunId * Z, x.2 <= now') (expire cutoff fired)) by (eapply Forall_impl; [exact Hf|]; cbn; lia).
  destruct (dict_get _ run) eqn:Hr; cbn [snd]; [done|]. apply dict_get_None in Hr. split; [split_and!|].
  - apply StronglySorted_app_2; [|done|by repeat constructor]. intros x y Hx ->%list_elem_of_singleton. by apply (proj1 (Forall_forall _ _) Hf' x).
  - rewrite fmap_app, NoDup_app. split_and!; [done| |apply NoDup_singleton]. intros x Hx ->%list_elem_of_singleton. done.
  - apply Forall_app. split; [done|]. by repeat constructor.
  - apply Forall_app. split; [done|]. constructor; [|done]. cbn. unfold cutoff, MS_PER_MINUTE. lia.
Qed.

Lemma forget_sub run fired x : x ∈ forget_step run fired → x ∈ fired.
Proof. unfold forget_step. rewrite !list_elem_of_In. by intros [? _]%List.filter_In. Qed.

Lemma forget_ok run now fired : gate_ok now fired → gate_ok now (forget_step run fired).
Proof.
  intros (Hs & Hn & Hf). split_and!.
  - induction Hs as [|x l _ IH Hall]; [constructor|]. rewrite fmap_cons, NoDup_cons in Hn. apply Forall_cons in Hf as [_ Hf]. destruct Hn as [_ Hn].
    unfold forget_step. cbn. destruct (negb _); [|by apply IH]. constructor; [by apply IH|]. apply Forall_forall. intros y Hy%forget_sub. by apply (proj1 (Forall_forall _ _) Hall).
  - clear -Hn. induction fired as [|x l IH]; [constructor|]. rewrite fmap_cons, NoDup_cons in Hn. destruct Hn as [Hx Hn]. unfold forget_step. cbn.
    destruct (negb _); [|by apply IH]. rewrite fmap_cons, NoDup_cons. split; [|by apply IH]. intros (y & Hy & Hin%forget_sub)%list_elem_of_fmap. apply Hx.
    rewrite Hy. by apply list_elem_of_fmap_2.
  - apply Forall_forall. intros y Hy%forget_sub. by apply (proj1 (Forall_forall _ _) Hf).
Qed.

(** The gate is bounded: right after a claim it holds only runs that fired within the idle time. *)
Lemma gate_bounded ttl ops : 0 < ttl → ∀ now fired run now', gate_ok now fired → in_order ttl now (ops ++ [Claim run now' ttl]) →
  NoDup (gate_after fired (ops ++ [Claim run now' ttl])).*1
  ∧ Forall (λ x, now' - ttl * MS_PER_MINUTE < x.2 <= now') (gate_after fired (ops ++ [Claim run now' ttl])).
Proof.
  intros Httl. induction ops as [|op ops IH]; intros now fired run now' Hok Hord; cbn [app] in Hord.
  - inversion Hord; subst. destruct (claim_ok run now now' ttl fired Hok) as [(_ & Hn & Hf) Hy]; [done|done|]. cbn. split; [done|].
    eapply Forall_impl; [apply Forall_and; exact (conj Hy Hf)|]. cbn. lia.
  - inversion Hord as [|r ? n ? Hle Hord'|r ? ? Hord']; subst; cbn [app gate_after foldl].
    + eapply (IH n); [|done]. by apply (claim_ok r now n ttl fired).
    + eapply (IH now); [|done]. by apply forget_ok.
Qed.

(** ** The loop picks a best lesson *)


Section Loop.
Context (judge : FusedCandidate → CandidateRow → result exn (OutcomeCode + float)) (rows : list (MemoryId * CandidateRow)).





End Loop.

(** ** The lesson that is injected *)

Section Evaluate.
Context {E : Type} (lower : pystr → pystr) (powf : float → float → float) (P : JitPorts E).


















End Evaluate.

(** ** Witnesses: a failed tool call, two lessons *)

Definition jit_run : RunId := mkRunId (mkUUID 6 I).
Definition jit_scope : ProjectScope := mkScope (mkProjectId (mkUUID 4 I)) (mkAgentTypeId (mkUUID 5 I)) (mkPrincipalId (mkUUID 7 I)).
Definition jit_hot : HotConfig :=
  mkHot (mkRetrieval 300 200) config_ex (mkScore 0.5 0.25 0.125 0.125 14) (mkBudget 1000 100 50 50 800 {["jit_lesson"%string := 40]} 1) 5 [].
Definition jit_cfg : JitConfig := mkJitConfig jit_hot 60.

Definition jit_row (n : N) (H : Is_true (N.ltb n (2 ^ 128))) (q : float) : CandidateRow :=
  mkCandidateRow (mkMemoryId (mkUUID n H)) LESSON TierB VALIDATED (of_ascii "grep error needs quotes") 12 q 0.5 (mkDatetime 0 true) PROJECT_SHARED None.
Definition jit_fused (n : N) (H : Is_true (N.ltb n (2 ^ 128))) : FusedCandidate :=
  mkFused (mkMemoryId (mkUUID n H)) TierB VALIDATED 1 (Some (mkSignal 20 1)) (Some (mkSignal 0.75 1)).

(** The world is the dict of fired runs; telemetry is down. *)
Definition jit_ports : JitPorts fired_runs :=
  mkJitPorts fired_runs (λ _ _ _ e, (Ok [jit_fused 1 I; jit_fused 2 I], e))
    (mkJitStore fired_runs (λ _ _ e, (Ok [jit_row 1 I 0.25; jit_row 2 I 0.75], e)) (λ _ _ e, (Ok [(of_ascii "grep", 1); (of_ascii "error", 1)], e)) (λ _ e, (Ok 1000, e)))
    (λ e, (Ok 1000, e)) (Some (λ _ _ _ _ e, (Err HOther, e))) (Some (λ _ _ _ e, (Ok tt, e))) id (λ f _, f).
Definition jit_event : TraceEvent := mkEvent E_tool_result (mkDatetime 0 true) [(of_ascii "ok", JBool false); (of_ascii "tool_id", JStr (of_ascii "grep"))].
Definition jit_call (fired : fired_runs) : result herr (option ContextBlock) * world fired_runs :=
  evaluate id (λ _ _, 1%float) jit_ports jit_scope jit_run jit_event jit_cfg (mkWorld fired []).

(** The better lesson, logged; and nothing the second time. *)
Example jit_call_ex : match (jit_call []).1 with Ok (Some b) => memory_id <$> slots b | _ => [] end = [Some (mkUUID 2 I)]
  ∧ records (w_log (jit_call []).2) = [RecordJit (sc_project_id jit_scope) jit_run TOOL_ERROR INJECTED;
      RecordInjections (sc_project_id jit_scope) jit_run [mkInjection (mkMemoryId (mkUUID 2 I)) JIT_LESSON 0.75 12]]
  ∧ (jit_call (w_env (jit_call []).2)).1 = Ok None.
Proof. split_and!; vm_compute; reflexivity. Qed.


(** Two threads claim the run at 1000 and 900; another run fires in between; an hour later the run may fire again. *)
Lemma jit_one_shot_witness : wins jit_run 1000 60 [] = true
  ∧ wins jit_run 900 60 (gate_after [] [Claim jit_run 1000 60; Claim (mkRunId (mkUUID 8 I)) 950 60]) = false
  ∧ wins jit_run 3601000 60 (gate_after [] [Claim jit_run 1000 60; Claim (mkRunId (mkUUID 8 I)) 950 60]) = true
  ∧ Exists (window_passed 1000) [Claim (mkRunId (mkUUID 8 I)) 950 60; Claim jit_run 3601000 60].
Proof.
  split; [apply (jit_one_shot [] jit_run 1000 60 [] 0 60); by intros ?%elem_of_nil|]. split; [vm_compute; reflexivity|]. split; [vm_compute; reflexivity|].
  apply (jit_one_shot [] jit_run 1000 60 [Claim (mkRunId (mkUUID 8 I)) 950 60] 3601000 60); [vm_compute; reflexivity| |vm_compute; reflexivity].
  by intros ?%list_elem_of_singleton.
Defined.

(** The idle time is the one of the calling project: a claim of another project with a shorter idle time releases
    the run, which then fires a second time within its own hour. *)
Lemma foreign_ttl_second_shot : ∃ other : RunId, other ≠ jit_run
  ∧ wins jit_run 1000 60 [] = true ∧ wins jit_run 122000 60 (gate_after [] [Claim jit_run 1000 60; Claim other 121000 2]) = true.
Proof. exists (mkRunId (mkUUID 8 I)). split_and!; [done|vm_compute; reflexivity..]. Qed.
