(* ===== verification/OutcomeIntake.v ===== *)
(** * Outcome intake (ingest/outcome_intake.py, [insert_outcome_event] of stores/pg/repo.py)

    The consumer of feedback: it checks a claimed item, derives the reward and whether its adapter
    carries any weight, inserts the row of [outcome_event], once per event, and settles the item.
    One item is one transaction, so any number of intakes is a sequence of items.  Pydantic's
    validation of the business payload is a parameter; the activity gate, the erasure guard, the
    faults of the database and of the queue are inputs of each attempt.  The items are those the worker queue hands
    out, of authority version 1. *)

From Stdlib Require Import Floats.
From S2P Require Import Prelude Domain PyText Json JsonLoads Scoring WorkQueue TraceWriter.
Open Scope Z_scope.

(** ** Python's [==] on JSON values: dicts are unordered, and [True == 1]. *)

Fixpoint py_eq (a b : json) : bool :=
  match a, b with
  | JNull, JNull => true
  | JBool x, JBool y => Bool.eqb x y
  | JBool x, JInt n => Z.b2z x =? n
  | JInt n, JBool x => n =? Z.b2z x
  | JInt n, JInt m => n =? m
  | JStr s, JStr t => bool_decide (s = t)
  | JArr xs, JArr ys =>
      (fix all xs ys := match xs, ys with
                        | [], [] => true
                        | x :: xs', y :: ys' => py_eq x y && all xs' ys'
                        | _, _ => false
                        end) xs ys
  | JObj xs, JObj ys =>
      (length xs =? length ys)%nat
      && forallb (λ kv, match dict_get ys kv.1 with Some y => py_eq kv.2 y | None => false end) xs
  | _, _ => false
  end.

(** ** Data *)

Record OutcomeBusinessPayload := mkOutcomeBusiness {
  ob_event_id : uuid;
  ob_outcome : pystr;
  ob_payload : list (pystr * json);
  ob_occurred_at : option datetime;
}.

Record FeedbackEvent := mkFeedback {
  fe_adapter : AdapterClass;
  fe_outcome : pystr;
  fe_event_id : uuid;
  fe_payload : list (pystr * json);
  fe_occurred_at : option datetime;
}.

Definition POSITIVE : pystr := of_ascii "positive".
Definition NEGATIVE : pystr := of_ascii "negative".
Definition REPLAY_CONFLICT : pystr := of_ascii "outcome_replay_conflict".
Definition W_ZERO_KEY : pystr := of_ascii "_w_zero".

(** [AdapterClass(value)] *)
Definition adapter_of (s : pystr) : option AdapterClass :=
  List.find (λ a, bool_decide (adapter_value a = s)) [A_VERDICT; A_CORRECTION_ADAPTER; A_DOWNSTREAM; A_IMPLICIT].

Record OutcomeEventInsert := mkOutcomeInsert {
  oi_event_id : uuid;
  oi_run_id : RunId;
  oi_principal_id : PrincipalId;
  oi_adapter : AdapterClass;
  oi_r : float;
  oi_w_zero : bool;
  oi_payload : list (pystr * json);
  oi_occurred_at : Z;
  oi_arrived_at : Z;
  oi_occurred_at_is_derived : bool;
  oi_source_agent_type_id : AgentTypeId;
  oi_source_grant_id : uuid;
  oi_feedback_source : pystr;
  oi_run_owner_principal_id : PrincipalId;
  oi_run_owner_agent_type_id : AgentTypeId;
  oi_subject_digests : list (list Z);
}.

(** The columns of authority version 1; rows of version 0 have none. *)
Record outcome_authority := mkOutcomeAuthority {
  oa_source_agent_type_id : AgentTypeId;
  oa_source_grant_id : uuid;
  oa_feedback_source : pystr;
  oa_run_owner_principal_id : PrincipalId;
  oa_run_owner_agent_type_id : AgentTypeId;
}.
#[export] Instance outcome_authority_eq_dec : EqDecision outcome_authority.
Proof. solve_decision. Defined.

(** A row of [outcome_event], by [(project_id, event_id)]. *)
Record outcome_row := mkOutcome {
  oe_run_id : RunId;
  oe_principal_id : PrincipalId;
  oe_adapter : pystr;
  oe_r : float;
  oe_payload : list (pystr * json);
  oe_occurred_at : Z;
  oe_arrived_at : Z;
  oe_authority : option outcome_authority;
  oe_subject_digests : list (list Z);
}.
Abbreviation outcome_table := (gmap (ProjectId * uuid) outcome_row).

Inductive intake_error := Fenced | SnapshotStale | ReplayConflict | OtherError.

(** ** The insert *)

Definition stored_payload (row : OutcomeEventInsert) : list (pystr * json) := dict_set (oi_payload row) W_ZERO_KEY (JBool (oi_w_zero row)).

Definition row_authority (row : OutcomeEventInsert) : outcome_authority :=
  mkOutcomeAuthority (oi_source_agent_type_id row) (oi_source_grant_id row) (oi_feedback_source row)
    (oi_run_owner_principal_id row) (oi_run_owner_agent_type_id row).

Definition new_outcome (row : OutcomeEventInsert) : outcome_row :=
  mkOutcome (oi_run_id row) (oi_principal_id row) (adapter_value (oi_adapter row)) (oi_r row) (stored_payload row) (oi_occurred_at row)
    (oi_arrived_at row) (Some (row_authority row)) (oi_subject_digests row).

(** [replay_actual == replay_expected] *)
Definition same_replay (row : OutcomeEventInsert) (existing : outcome_row) : bool :=
  bool_decide (oe_run_id existing = oi_run_id row) && bool_decide (oe_principal_id existing = oi_principal_id row)
  && bool_decide (oe_adapter existing = adapter_value (oi_adapter row)) && (oe_r existing =? oi_r row)%float
  && py_eq (JObj (oe_payload existing)) (JObj (stored_payload row))
  && (oi_occurred_at_is_derived row || (oe_occurred_at existing =? oi_occurred_at row))
  && bool_decide (oe_authority existing = Some (row_authority row)).

Definition impl_insert_outcome (p : ProjectId) (row : OutcomeEventInsert) (t : outcome_table) : result intake_error (bool * outcome_table) :=
  check! bool_decide (adapter_value (oi_adapter row) = oi_feedback_source row) else OtherError in
  match t !! (p, oi_event_id row) with
  | None => Ok (true, <[(p, oi_event_id row) := new_outcome row]> t)
  | Some existing => check! same_replay row existing else ReplayConflict in Ok (false, t)
  end.

(** What one item meets: the clock, the gate, the guard (if there is one), the snapshot of the transaction, a failing
    statement, the end of the commit, a failing acknowledgement, and whether the queue fails to take any other settlement. *)
Record intake_attempt := mkIntake {
  ia_now : Z;
  ia_gate : gate_answer;
  ia_guard : option (result intake_error (list (list Z)));
  ia_snapshot : result intake_error (list (list Z));
  ia_statement_fails : bool;
  ia_commit : commit_end;
  ia_ack_fails : bool;
  ia_settle_fails : bool;
}.

(** [assert_snapshot], and the comparison with the item's digests *)
Definition check_snapshot (answer : result intake_error (list (list Z))) (expected : list (list Z)) : result intake_error unit :=
  let! actual := answer in check! bool_decide (actual = expected) else SnapshotStale in Ok tt.

Definition insert_outcome_event (p : ProjectId) (row : OutcomeEventInsert) (a : intake_attempt) (t : outcome_table)
  : result intake_error bool * outcome_table :=
  match (let! _ := check_snapshot (ia_snapshot a) (oi_subject_digests row) in
         check! negb (ia_statement_fails a) else OtherError in impl_insert_outcome p row t) with
  | Err e => (Err e, t)
  | Ok (inserted, t') =>
      match ia_commit a with
      | CommitApplied => (Ok inserted, t')
      | CommitFailed => (Err OtherError, t)
      | CommitUnacknowledged => (Err OtherError, t')
      end
  end.

(** ** The intake *)

Record outcome_world := mkOutcomeWorld { ow_table : outcome_table; ow_settled : list (QueueItem * settlement) }.

(** The settlements are the calls made, whether or not they return. *)
Definition settle_outcome (i : QueueItem) (s : settlement) (w : outcome_world) : outcome_world :=
  mkOutcomeWorld (ow_table w) (ow_settled w ++ [(i, s)]).

Definition business_keys (payload : list (pystr * json)) : bool :=
  let keys := payload.*1 in
  let is_set ks := (length keys =? length ks)%nat && forallb (λ k, bool_decide (k ∈ keys)) ks in
  is_set (of_ascii <$> ["event_id"; "outcome"; "payload"]%string)
  || is_set (of_ascii <$> ["event_id"; "outcome"; "payload"; "occurred_at"]%string).

Section Intake.
Context (validate_business : list (pystr * json) → option OutcomeBusinessPayload).

(** [_parse_item]; [None] when the item is refused.  The ids of an item are never missing. *)
Definition parse_outcome (i : QueueItem) : option FeedbackEvent :=
  match qi_feedback_source i with
  | None => None
  | Some source =>
      if bool_decide (qi_required_role i = of_ascii "feedback") && business_keys (qi_payload i) then
        match validate_business (qi_payload i), adapter_of source with
        | Some b, Some adapter =>
            if bool_decide (ob_outcome b ∈ [POSITIVE; NEGATIVE])
               && match ob_occurred_at b with Some t => dt_aware t | None => true end
            then Some (mkFeedback adapter (ob_outcome b) (ob_event_id b) (ob_payload b) (ob_occurred_at b))
            else None
        | _, _ => None
        end
      else None
  end.

Definition w_zero (adapter_weights : list (pystr * float)) (a : AdapterClass) : bool :=
  match dict_get adapter_weights (adapter_value a) with Some w => negb (0 <? w)%float | None => true end.

Definition to_row (adapter_weights : list (pystr * float)) (now : Z) (f : FeedbackEvent) (source : pystr) (i : QueueItem) : OutcomeEventInsert :=
  mkOutcomeInsert (fe_event_id f) (qi_run_id i) (qi_source_principal_id i) (fe_adapter f)
    (if bool_decide (fe_outcome f = POSITIVE) then 1%float else 0%float) (w_zero adapter_weights (fe_adapter f)) (fe_payload f)
    (match fe_occurred_at f with Some t => dt_us t | None => qi_created_at i end) now
    (bool_decide (fe_occurred_at f = None)) (qi_source_agent_type_id i) (qi_source_grant_id i) source
    (qi_run_owner_principal_id i) (qi_run_owner_agent_type_id i) (qi_subject_digests i).

(** A settlement in a handler: where it raises, the batch ends. *)
Definition settle_or_raise (i : QueueItem) (s : settlement) (a : intake_attempt) (w : outcome_world) : result exn Z * outcome_world :=
  (if ia_settle_fails a then Err RuntimeError else Ok 0, settle_outcome i s w).

(** The body of the loop of [run_once]: what it adds to the count. *)
Definition process_item (adapter_weights : list (pystr * float)) (a : intake_attempt) (i : QueueItem) (w : outcome_world)
  : result exn Z * outcome_world :=
  match parse_outcome i, qi_feedback_source i with
  | Some f, Some source =>
      let row := to_row adapter_weights (ia_now a) f source i in
      match ia_gate a with
      | GateRefused => (Err TracebedError, w)
      | GateBusy => settle_or_raise i Nack a w
      | GateOpen =>
          let guarded := match ia_guard a with Some answer => check_snapshot answer (qi_subject_digests i) | None => Ok tt end in
          let '(r, t) := match guarded with
                         | Err e => (Err e, ow_table w)
                         | Ok _ => insert_outcome_event (qi_project_id i) row a (ow_table w)
                         end in
          let w1 := mkOutcomeWorld t (ow_settled w) in
          match r with
          | Ok _ => let w2 := settle_outcome i Ack w1 in if ia_ack_fails a then settle_or_raise i Nack a w2 else (Ok 1, w2)
          | Err ReplayConflict => settle_or_raise i (Reject REPLAY_CONFLICT) a w1
          | Err _ => settle_or_raise i Nack a w1
          end
      end
  | _, _ => settle_or_raise i (Reject MALFORMED) a w
  end.

Fixpoint intake_batch (adapter_weights : list (pystr * float)) (items : list QueueItem) (attempts : nat → intake_attempt) (w : outcome_world)
  : result exn Z * outcome_world :=
  match items with
  | [] => (Ok 0, w)
  | i :: items' =>
      match process_item adapter_weights (attempts 0%nat) i w with
      | (Err e, w1) => (Err e, w1)
      | (Ok n, w1) =>
          match intake_batch adapter_weights items' (λ k, attempts (S k)) w1 with
          | (Ok m, w2) => (Ok (n + m), w2)
          | (Err e, w2) => (Err e, w2)
          end
      end
  end.
End Intake.

(** ** Comparing values *)

Abbreviation dict_ok l := (json_wf (λ _, True) (JObj l)).

Lemma py_eq_refl j : json_wf (λ _, True) j → py_eq j j = true.
Proof.
  induction j as [|b|n|s|l IH|l IH] using json_ind_nested; intros Hwf; cbn [py_eq].
  - done.
  - by destruct b.
  - apply Z.eqb_refl.
  - by apply bool_decide_eq_true.
  - apply wf_arr in Hwf. induction l as [|x l IHl]; [done|]. apply Forall_cons in Hwf as [Hx Hl]. apply Forall_cons in IH as [IHx IH].
    rewrite (IHx Hx). by apply IHl.
  - apply wf_obj in Hwf as [Hnd Hl]. rewrite Nat.eqb_refl. cbn [andb]. apply forallb_forall. intros [k v] Hin%list_elem_of_In. cbn.
    rewrite (dict_get_NoDup _ _ _ Hnd Hin). rewrite Forall_forall in IH, Hl. apply (IH _ Hin), (Hl _ Hin).
Qed.

Lemma dict_set_ok l k j : dict_ok l → json_wf (λ _, True) j → dict_ok (dict_set l k j).
Proof.
  intros [Hnd Hl]%wf_obj Hj. apply wf_obj. split; [by apply dict_set_NoDup|]. rewrite Forall_forall in *. intros [k' v] Hin.
  apply elem_of_dict_set in Hin as [[-> ->]|[_ Hin]]; [done| |done]. by apply (Hl (k', v)).
Qed.

(** ** What the table says of an item *)

Definition reward (f : FeedbackEvent) : float := if bool_decide (fe_outcome f = POSITIVE) then 1%float else 0%float.

(** The row holds the feedback [f] with the authority of the item [i]; [b] is the flag stored beside the payload. *)
Definition describes (f : FeedbackEvent) (i : QueueItem) (b : bool) (row : outcome_row) : Prop :=
  oe_run_id row = qi_run_id i ∧ oe_principal_id row = qi_source_principal_id i
  ∧ oe_adapter row = adapter_value (fe_adapter f) ∧ qi_feedback_source i = Some (oe_adapter row)
  ∧ (oe_r row =? reward f)%float = true
  ∧ py_eq (JObj (oe_payload row)) (JObj (dict_set (fe_payload f) W_ZERO_KEY (JBool b))) = true
  ∧ (∀ t, fe_occurred_at f = Some t → oe_occurred_at row = dt_us t)
  ∧ oe_authority row = Some (mkOutcomeAuthority (qi_source_agent_type_id i) (qi_source_grant_id i) (oe_adapter row)
                               (qi_run_owner_principal_id i) (qi_run_owner_agent_type_id i)).

Lemma reward_self f : (reward f =? reward f)%float = true.
Proof. unfold reward. by case_bool_decide. Qed.

Lemma adapter_of_value s a : adapter_of s = Some a → adapter_value a = s.
Proof. unfold adapter_of. intros [_ H]%List.find_some. by apply bool_decide_eq_true in H. Qed.

Section Guarantees.
Context (validate_business : list (pystr * json) → option OutcomeBusinessPayload).
(** A validated payload is a Python dict. *)
Hypothesis payload_distinct : ∀ p b, validate_business p = Some b → dict_ok (ob_payload b).

Abbreviation parse := (parse_outcome validate_business).
Abbreviation process := (process_item validate_business).

Lemma parse_facts i f : parse i = Some f → qi_feedback_source i = Some (adapter_value (fe_adapter f)) ∧ dict_ok (fe_payload f).
Proof.
  unfold parse_outcome. destruct (qi_feedback_source i) as [source|]; [|done]. case_match; [|done].
  destruct (validate_business (qi_payload i)) as [b|] eqn:Hb; [|done]. destruct (adapter_of source) as [a|] eqn:Ha; [|done].
  case_match; [|done]. intros [= <-]. cbn [fe_adapter fe_payload]. rewrite (adapter_of_value _ _ Ha). split; [done|by eapply payload_distinct].
Qed.

Lemma new_describes weights now f i : parse i = Some f →
  describes f i (w_zero weights (fe_adapter f)) (new_outcome (to_row weights now f (adapter_value (fe_adapter f)) i)).
Proof.
  intros Hp. destruct (parse_facts i f Hp) as [Hs Hd]. split_and!; try done; cbn.
  - apply reward_self.
  - apply (py_eq_refl (JObj _)). by apply dict_set_ok.
  - by intros t ->.
Qed.

Lemma same_describes weights now f i row : parse i = Some f → same_replay (to_row weights now f (adapter_value (fe_adapter f)) i) row = true →
  describes f i (w_zero weights (fe_adapter f)) row.
Proof.
  intros Hp. destruct (parse_facts i f Hp) as [Hs _]. unfold same_replay. rewrite !andb_true_iff, !bool_decide_eq_true.
  intros [[[[[[Hrun Hprin] Had] Hr] Hpay] Hocc] Hauth]. cbn [to_row oi_run_id oi_principal_id oi_adapter oi_r oi_occurred_at oi_occurred_at_is_derived] in *. split_and!; try done.
  - congruence.
  - intros t Ht. rewrite Ht, bool_decide_eq_false_2 in Hocc by done. by apply Z.eqb_eq.
  - rewrite Hauth, Had. done.
Qed.

(** What one transaction does. *)
Lemma insert_cases weights a i f t r t' : parse i = Some f →
  insert_outcome_event (qi_project_id i) (to_row weights (ia_now a) f (adapter_value (fe_adapter f)) i) a t = (r, t') →
  (t' = t ∨ t !! (qi_project_id i, fe_event_id f) = None
            ∧ t' = <[(qi_project_id i, fe_event_id f) := new_outcome (to_row weights (ia_now a) f (adapter_value (fe_adapter f)) i)]> t)
  ∧ (is_ok r = true → ∃ row, t' !! (qi_project_id i, fe_event_id f) = Some row ∧ describes f i (w_zero weights (fe_adapter f)) row).
Proof.
  intros Hp. unfold insert_outcome_event. destruct (check_snapshot _ _); cbn [rbind]; [|intros [= <- <-]; split; [by left|done]].
  destruct (ia_statement_fails a); cbn [negb]; [intros [= <- <-]; split; [by left|done]|]. unfold impl_insert_outcome. cbn [oi_adapter oi_feedback_source oi_event_id to_row].
  rewrite bool_decide_eq_true_2 by done. destruct (t !! _) as [row|] eqn:Hrow.
  - destruct (same_replay _ row) eqn:Hsame; [|intros [= <- <-]; split; [by left|done]]. destruct (ia_commit a); intros [= <- <-]; (split; [by left|]); try done.
    intros _. exists row. split; [done|by eapply same_describes].
  - destruct (ia_commit a); intros [= <- <-]; (split; [auto|]); try done. intros _. eexists. split; [apply lookup_insert_eq|by apply new_describes].
Qed.

(** What one item does: rows are only added, and the item is acknowledged only with its row in the table. *)
Record item_effect (weights : list (pystr * float)) (a : intake_attempt) (i : QueueItem) (w w' : outcome_world) (log : list (QueueItem * settlement)) : Prop := {
  ie_settled : ow_settled w' = ow_settled w ++ log;
  ie_own : Forall (λ x, x.1 = i) log;
  ie_keeps : ow_table w ⊆ ow_table w';
  ie_adds : ∀ k row, ow_table w' !! k = Some row → ow_table w !! k = None →
    ∃ f, parse i = Some f ∧ k = (qi_project_id i, fe_event_id f) ∧ row = new_outcome (to_row weights (ia_now a) f (adapter_value (fe_adapter f)) i);
  ie_acks : (i, Ack) ∈ log → ∃ f row, parse i = Some f ∧ ow_table w' !! (qi_project_id i, fe_event_id f) = Some row
    ∧ describes f i (w_zero weights (fe_adapter f)) row;
}.

Lemma effect_still weights a i w s : s ≠ Ack → item_effect weights a i w (settle_outcome i s w) [(i, s)].
Proof.
  intros Hs. split; cbn; [done|by repeat constructor|done|congruence|]. intros Hin%list_elem_of_singleton. congruence.
Qed.

Lemma effect_insert weights a i f w r t' log : parse i = Some f →
  insert_outcome_event (qi_project_id i) (to_row weights (ia_now a) f (adapter_value (fe_adapter f)) i) a (ow_table w) = (r, t') →
  Forall (λ x, x.1 = i) log → ((i, Ack) ∈ log → is_ok r = true) → item_effect weights a i w (mkOutcomeWorld t' (ow_settled w ++ log)) log.
Proof.
  intros Hp Hins Hown Hack. destruct (insert_cases weights a i f _ _ _ Hp Hins) as [Hcase Hok]. split; cbn; [done|done| | |].
  - destruct Hcase as [->|[Hnone ->]]; [done|by apply insert_subseteq].
  - destruct Hcase as [->|[Hnone ->]]; [congruence|]. intros k row. destruct (decide (k = (qi_project_id i, fe_event_id f))) as [->|Hne].
    + rewrite lookup_insert_eq. intros [= <-] _. by exists f.
    + rewrite lookup_insert_ne by done. congruence.
  - intros (row & Hrow & Hdes)%Hack%Hok. by exists f, row.
Qed.

Lemma process_effect weights a i w : ∃ log, item_effect weights a i w (process weights a i w).2 log.
Proof.
  unfold process_item. destruct (parse i) as [f|] eqn:Hp; [|eexists; by apply effect_still]. destruct (parse_facts i f Hp) as [-> Hd].
  destruct (ia_gate a); [|eexists; by apply effect_still|].
  2:{ exists []. split; cbn; [by rewrite app_nil_r|constructor|done|congruence|by intros ?%elem_of_nil]. }
  destruct (match ia_guard a with Some _ => _ | None => _ end) as [|e].
  2:{ destruct w as [t l]. destruct e; eexists; by apply (effect_still weights a i (mkOutcomeWorld t l)). }
  destruct (insert_outcome_event _ _ _ _) as [r t'] eqn:Hins. pose proof (λ log, effect_insert weights a i f w r t' log Hp Hins) as Heff.
  assert (Hno : ∀ s, s ≠ Ack → (i, Ack) ∈ [(i, s)] → is_ok r = true) by (intros s ? ?%list_elem_of_singleton; congruence).
  destruct r as [b|e]; [destruct (ia_ack_fails a)|destruct e].
  - exists [(i, Ack); (i, Nack)]. replace (snd _) with (mkOutcomeWorld t' (ow_settled w ++ [(i, Ack); (i, Nack)])) by (unfold settle_or_raise, settle_outcome; cbn [snd ow_table ow_settled]; by rewrite <- app_assoc). apply Heff; [by repeat constructor|done].
  - exists [(i, Ack)]. apply Heff; [by repeat constructor|done].
  - exists [(i, Nack)]. apply Heff; [by repeat constructor|by apply Hno].
  - exists [(i, Nack)]. apply Heff; [by repeat constructor|by apply Hno].
  - exists [(i, Reject REPLAY_CONFLICT)]. apply Heff; [by repeat constructor|by apply Hno].
  - exists [(i, Nack)]. apply Heff; [by repeat constructor|by apply Hno].
Qed.

(** ** Any number of intakes *)

(** Items as their transactions are ordered, each with the weights of the process that handles it. *)
Abbreviation intake_step := (list (pystr * float) * intake_attempt * QueueItem)%type.
Definition intake_all (steps : list intake_step) (w : outcome_world) : outcome_world :=
  foldl (λ w s, (process s.1.1 s.1.2 s.2 w).2) w steps.

Lemma intake_snoc steps s w : intake_all (steps ++ [s]) w = (process s.1.1 s.1.2 s.2 (intake_all steps w)).2.
Proof. unfold intake_all. by rewrite foldl_app. Qed.

(** [C17] Whatever the interleaving of outcome intakes, their configurations and the faults they meet: a recorded outcome
    is never changed; every row that is added holds the feedback of one of the items, its reward from the reported
    outcome and all of its identity (run, principal, grant, adapter, owner of the run) from the queue's columns, and
    counts as carrying weight only where a positive weight is configured for that adapter; and an item is
    acknowledged only when its feedback is in the table. *)
Theorem outcomes_exact steps w :
  ow_table w ⊆ ow_table (intake_all steps w)
  ∧ (∀ k row, ow_table (intake_all steps w) !! k = Some row → ow_table w !! k = None →
       ∃ weights a i f b, (weights, a, i) ∈ steps ∧ parse i = Some f ∧ k = (qi_project_id i, fe_event_id f) ∧ describes f i b row
         ∧ dict_get (oe_payload row) W_ZERO_KEY = Some (JBool b)
         ∧ (b = false ↔ ∃ weight, dict_get weights (adapter_value (fe_adapter f)) = Some weight ∧ (0 <? weight)%float = true))
  ∧ ∃ log, ow_settled (intake_all steps w) = ow_settled w ++ log
       ∧ ∀ i, (i, Ack) ∈ log → ∃ f b row, parse i = Some f ∧ ow_table (intake_all steps w) !! (qi_project_id i, fe_event_id f) = Some row ∧ describes f i b row.
Proof.
  induction steps as [|[[weights a] i] steps (Hsub & Hadd & log & Hlog & Hack)] using rev_ind.
  { cbn. split_and!; [done|congruence|]. exists []. rewrite app_nil_r. split; [done|by intros ? ?%elem_of_nil]. }
  rewrite intake_snoc. cbn [fst snd]. destruct (process_effect weights a i (intake_all steps w)) as [log' [Hl Hown Hkeep Hnew Hok]]. split_and!.
  - by etrans.
  - intros k row Hrow Hnone. destruct (ow_table (intake_all steps w) !! k) as [row0|] eqn:Hrow0.
    + pose proof (lookup_weaken _ _ _ _ Hrow0 Hkeep) as Heq. rewrite Hrow in Heq. injection Heq as <-.
      destruct (Hadd k row Hrow0 Hnone) as (w1 & a1 & i1 & f & b & Hin & Hrest). exists w1, a1, i1, f, b. split; [|done]. apply elem_of_app. by left.
    + destruct (Hnew k row Hrow Hrow0) as (f & Hp & -> & ->). exists weights, a, i, f, (w_zero weights (fe_adapter f)).
      split; [apply elem_of_app; right; left|]. split; [done|]. split; [done|]. split; [by apply new_describes|]. split; [cbn; by rewrite dict_get_set, decide_True|].
      unfold w_zero. destruct (dict_get weights _) as [x|]; [|naive_solver]. rewrite negb_false_iff. naive_solver.
  - exists (log ++ log'). split; [by rewrite Hl, Hlog, app_assoc|]. intros j [Hin|Hin]%elem_of_app.
    + destruct (Hack j Hin) as (f & b & row & Hp & Hrow & Hd). exists f, b, row. split; [done|]. split; [|done]. by eapply lookup_weaken.
    + rewrite Forall_forall in Hown. pose proof (Hown _ Hin) as Hj. cbn in Hj. subst j. destruct (Hok Hin) as (f & row & ? & ? & ?). by eexists _, _, _.
Qed.

(** ** Redelivery *)

(** Nothing fails. *)
Definition healthy (a : intake_attempt) (i : QueueItem) : Prop :=
  ia_gate a = GateOpen ∧ (ia_guard a = None ∨ ia_guard a = Some (Ok (qi_subject_digests i))) ∧ ia_snapshot a = Ok (qi_subject_digests i)
  ∧ ia_statement_fails a = false ∧ ia_commit a = CommitApplied ∧ ia_ack_fails a = false ∧ ia_settle_fails a = false.

(** The same report by the same caller, in another row of the queue. *)
Definition same_report (i j : QueueItem) : Prop :=
  qi_project_id j = qi_project_id i ∧ qi_run_id j = qi_run_id i ∧ qi_source_principal_id j = qi_source_principal_id i
  ∧ qi_source_agent_type_id j = qi_source_agent_type_id i ∧ qi_source_grant_id j = qi_source_grant_id i
  ∧ qi_run_owner_principal_id j = qi_run_owner_principal_id i ∧ qi_run_owner_agent_type_id j = qi_run_owner_agent_type_id i.

Lemma flag_compare l b b' : dict_ok l →
  py_eq (JObj (dict_set l W_ZERO_KEY (JBool b))) (JObj (dict_set l W_ZERO_KEY (JBool b'))) = Bool.eqb b b'.
Proof.
  intros Hok. destruct (Bool.eqb_spec b b') as [->|Hne]; [apply (py_eq_refl (JObj _)); by apply dict_set_ok|].
  apply not_true_iff_false. cbn [py_eq]. intros [_ Hall]%andb_true_iff. rewrite forallb_forall in Hall.
  assert (Hin : (W_ZERO_KEY, JBool b) ∈ dict_set l W_ZERO_KEY (JBool b)) by (apply dict_get_Some_elem; by rewrite dict_get_set, decide_True).
  apply list_elem_of_In, Hall in Hin. cbn [fst snd] in Hin. rewrite dict_get_set, decide_True in Hin by done. cbn in Hin.
  by apply eqb_prop in Hin.
Qed.

Lemma same_replay_flag weights weights' now now' f source i j : dict_ok (fe_payload f) → same_report i j →
  same_replay (to_row weights' now' f source j) (new_outcome (to_row weights now f source i))
  = Bool.eqb (w_zero weights (fe_adapter f)) (w_zero weights' (fe_adapter f)).
Proof.
  intros Hok (_ & Hrun & Hprin & Hagent & Hgrant & Howner & Howner'). unfold same_replay, new_outcome, row_authority, stored_payload.
  cbn [oe_run_id oe_principal_id oe_adapter oe_r oe_payload oe_occurred_at oe_authority row_authority stored_payload
       to_row oi_run_id oi_principal_id oi_adapter oi_r oi_w_zero oi_payload oi_occurred_at oi_occurred_at_is_derived oi_source_agent_type_id oi_source_grant_id
       oi_feedback_source oi_run_owner_principal_id oi_run_owner_agent_type_id].
  rewrite flag_compare by done. change (if bool_decide _ then _ else _) with (reward f). rewrite reward_self.
  assert (bool_decide (fe_occurred_at f = None)
    || (match fe_occurred_at f with Some t => dt_us t | None => qi_created_at i end =? match fe_occurred_at f with Some t => dt_us t | None => qi_created_at j end)
    = true) as -> by (destruct (fe_occurred_at f); [apply orb_true_iff; right; apply Z.eqb_refl|done]).
  rewrite Hrun, Hprin, Hagent, Hgrant, Howner, Howner', !bool_decide_eq_true_2 by done. by rewrite !andb_true_r.
Qed.

Lemma healthy_process weights a i f w : parse i = Some f → healthy a i →
  process weights a i w =
    match impl_insert_outcome (qi_project_id i) (to_row weights (ia_now a) f (adapter_value (fe_adapter f)) i) (ow_table w) with
    | Ok (_, t) => (Ok 1, mkOutcomeWorld t (ow_settled w ++ [(i, Ack)]))
    | Err ReplayConflict => (Ok 0, settle_outcome i (Reject REPLAY_CONFLICT) w)
    | Err _ => (Ok 0, settle_outcome i Nack w)
    end.
Proof.
  intros Hp (Hg & Hguard & Hs & Hst & Hc & Ha & Hn). unfold process_item. rewrite Hp. destruct (parse_facts i f Hp) as [-> _]. rewrite Hg.
  assert (match ia_guard a with Some answer => check_snapshot answer (qi_subject_digests i) | None => Ok tt end = Ok tt) as ->.
  { destruct Hguard as [->| ->]; [done|]. unfold check_snapshot. cbn. by rewrite bool_decide_eq_true_2. }
  unfold insert_outcome_event, check_snapshot. rewrite Hs, Hst, Hc, Ha. cbn [rbind negb oi_subject_digests to_row]. rewrite bool_decide_eq_true_2 by done.
  unfold settle_or_raise, settle_outcome. rewrite Hn. destruct w as [t l]. by destruct (impl_insert_outcome _ _ _) as [[b t']|[]].
Qed.

(** [C18] Feedback is recorded at the first delivery; a later delivery of the same report, in any row of the queue and
    however the table has grown since, changes nothing and is acknowledged, provided the adapter still carries weight
    or still carries none.  Where its configured weight has crossed zero in between, the report is rejected as a
    conflicting replay. *)
Theorem outcome_redelivery weights weights' a a' i j f w w2 :
  parse i = Some f → parse j = Some f → same_report i j → healthy a i → healthy a' j →
  ow_table w !! (qi_project_id i, fe_event_id f) = None →
  (process weights a i w).1 = Ok 1
  ∧ (ow_table (process weights a i w).2 ⊆ ow_table w2 →
     process weights' a' j w2 =
       if Bool.eqb (w_zero weights (fe_adapter f)) (w_zero weights' (fe_adapter f)) then (Ok 1, settle_outcome j Ack w2)
       else (Ok 0, settle_outcome j (Reject REPLAY_CONFLICT) w2)).
Proof.
  intros Hi Hj Hsame Ha Ha' Hnone. rewrite (healthy_process weights a i f w Hi Ha). unfold impl_insert_outcome at 1 2.
  cbn [oi_adapter oi_feedback_source oi_event_id to_row]. rewrite bool_decide_eq_true_2 by done. rewrite Hnone. split; [done|]. cbn [snd ow_table]. intros Hsub.
  rewrite (healthy_process weights' a' j f w2 Hj Ha'). unfold impl_insert_outcome. cbn [oi_adapter oi_feedback_source oi_event_id to_row].
  rewrite bool_decide_eq_true_2 by done. replace (qi_project_id j) with (qi_project_id i) by (symmetry; apply Hsame).
  rewrite (lookup_weaken _ _ _ _ (lookup_insert_eq _ _ _) Hsub). rewrite same_replay_flag by (done || eapply parse_facts, Hi).
  by destruct (Bool.eqb _ _), w2.
Qed.

(** ** A batch *)

Definition acked (l : list (QueueItem * settlement)) : bool := match l with [(_, Ack)] => true | _ => false end.

(** The calls made for an item. *)
Definition settled_as (i : QueueItem) (l : list (QueueItem * settlement)) : Prop :=
  match parse i with
  | None => l = [(i, Reject MALFORMED)]
  | Some _ => l = [(i, Ack)] ∨ l = [(i, Ack); (i, Nack)] ∨ l = [(i, Nack)] ∨ l = [(i, Reject REPLAY_CONFLICT)]
  end.

Lemma process_settles weights a i w : ia_gate a ≠ GateRefused → ia_settle_fails a = false →
  ∃ n l t, process weights a i w = (Ok n, mkOutcomeWorld t (ow_settled w ++ l)) ∧ settled_as i l ∧ n = (if acked l then 1 else 0).
Proof.
  intros Hg Hn. unfold process_item, settled_as, settle_or_raise, settle_outcome. rewrite Hn. destruct (parse i) as [f|] eqn:Hp; [|by eexists _, _, _].
  destruct (parse_facts i f Hp) as [-> _]. destruct (ia_gate a); [|eexists _, _, _; split; [done|]; split; [tauto|done]|done].
  destruct (match ia_guard a with Some _ => _ | None => _ end) as [|e]; [|destruct e; eexists _, _, _; (split; [done|]; split; [tauto|done])].
  destruct (insert_outcome_event _ _ _ _) as [[b|e] t]; [destruct (ia_ack_fails a)|destruct e]; cbn [ow_table ow_settled].
  1:{ exists 0, [(i, Ack); (i, Nack)], t. rewrite <- app_assoc. split; [done|]. split; [tauto|done]. }
  all: eexists _, _, _; (split; [done|]; split; [tauto|done]).
Qed.

(** Where the gate answers and the queue takes what it is given, a batch settles every item and counts those acknowledged. *)
Lemma intake_settles_all weights items : ∀ attempts w, (∀ n, ia_gate (attempts n) ≠ GateRefused ∧ ia_settle_fails (attempts n) = false) →
  ∃ logs w', intake_batch validate_business weights items attempts w = (Ok (Z.of_nat (length (List.filter acked logs))), w')
    ∧ ow_settled w' = ow_settled w ++ concat logs ∧ Forall2 settled_as items logs
    ∧ w' = intake_all (imap (λ n i, (weights, attempts n, i)) items) w.
Proof.
  induction items as [|i items IH]; intros attempts w Hok; [exists [], w; cbn; by rewrite app_nil_r|].
  cbn [intake_batch imap]. destruct (Hok 0%nat) as [Hg Hn]. destruct (process_settles weights (attempts 0%nat) i w Hg Hn) as (n & l & t & Hproc & Hl & Hcount).
  rewrite Hproc. destruct (IH (λ k, attempts (S k)) (mkOutcomeWorld t (ow_settled w ++ l)) (λ k, Hok (S k))) as (logs & w' & -> & Hs & Hall & Hw).
  exists (l :: logs), w'. split_and!.
  - f_equal. f_equal. cbn [List.filter]. rewrite Hcount. destruct (acked l); cbn [length]; lia.
  - cbn [concat]. rewrite Hs. cbn. by rewrite app_assoc.
  - by constructor.
  - unfold intake_all in *. cbn [foldl fst snd]. by rewrite Hproc.
Qed.
End Guarantees.

(** ** Witness: a report delivered twice *)

Definition validate_ex (p : list (pystr * json)) : option OutcomeBusinessPayload :=
  match dict_get p (of_ascii "outcome") with Some (JStr o) => Some (mkOutcomeBusiness (mkUUID 9 I) o [] None) | _ => None end.
Definition report_ex (id : Z) : QueueItem :=
  mkItem id TOPIC_OUTCOME_EVENT (mkProjectId (mkUUID 7 I)) [(of_ascii "event_id", JStr []); (of_ascii "outcome", JStr POSITIVE); (of_ascii "payload", JObj [])]
    100 1 (mkRunId (mkUUID 11 I)) (mkPrincipalId (mkUUID 12 I)) (mkAgentTypeId (mkUUID 13 I)) (mkUUID 14 I) (of_ascii "feedback") (Some (of_ascii "verdict"))
    (mkPrincipalId (mkUUID 15 I)) (mkAgentTypeId (mkUUID 16 I)) [] 5 0 (1000 * id) 9000.
Definition feedback_ex : FeedbackEvent := mkFeedback A_VERDICT POSITIVE (mkUUID 9 I) [] None.
Definition intake_ex : intake_attempt := mkIntake 5000 GateOpen None (Ok []) false CommitApplied false false.
Definition weights_ex (w : float) : list (pystr * float) := [(of_ascii "verdict", w)].
Abbreviation start_ex := (mkOutcomeWorld ∅ []).

Lemma validate_ex_distinct p b : validate_ex p = Some b → dict_ok (ob_payload b).
Proof. unfold validate_ex. repeat case_match; try done. intros [= <-]. split; [constructor|done]. Qed.

Lemma outcomes_exact_witness : ∃ row, ow_table (intake_all validate_ex [(weights_ex 1, intake_ex, report_ex 1)] start_ex)
    !! (mkProjectId (mkUUID 7 I), mkUUID 9 I) = Some row ∧ describes feedback_ex (report_ex 1) false row.
Proof.
  destruct (outcomes_exact validate_ex validate_ex_distinct [(weights_ex 1, intake_ex, report_ex 1)] start_ex) as (_ & Hadd & _).
  destruct (ow_table (intake_all validate_ex [(weights_ex 1, intake_ex, report_ex 1)] start_ex) !! (mkProjectId (mkUUID 7 I), mkUUID 9 I)) as [row|] eqn:Hrow.
  - exists row. split; [done|]. destruct (Hadd _ _ Hrow (lookup_empty _)) as (wt & a & i & f & b & Hin & Hp & _ & Hd & _ & Hb).
    apply list_elem_of_singleton in Hin. injection Hin as -> -> ->. assert (f = feedback_ex) as -> by (vm_compute in Hp; injection Hp as <-; reflexivity).
    replace false with b; [done|]. apply Hb. exists 1%float. split; vm_compute; reflexivity.
  - exfalso. vm_compute in Hrow. discriminate.
Defined.

Lemma outcome_redelivery_witness : let w1 := (process_item validate_ex (weights_ex 1) intake_ex (report_ex 1) start_ex).2 in
  process_item validate_ex (weights_ex 1) intake_ex (report_ex 2) w1 = (Ok 1, settle_outcome (report_ex 2) Ack w1)
  ∧ process_item validate_ex (weights_ex 0) intake_ex (report_ex 2) w1 = (Ok 0, settle_outcome (report_ex 2) (Reject REPLAY_CONFLICT) w1).
Proof.
  assert (Hh : ∀ n, healthy intake_ex (report_ex n)) by (intros n; split_and!; try done; by left).
  intros w1. split; [destruct (outcome_redelivery validate_ex validate_ex_distinct (weights_ex 1) (weights_ex 1) intake_ex intake_ex (report_ex 1) (report_ex 2) feedback_ex start_ex w1) as [_ H]
    |destruct (outcome_redelivery validate_ex validate_ex_distinct (weights_ex 1) (weights_ex 0) intake_ex intake_ex (report_ex 1) (report_ex 2) feedback_ex start_ex w1) as [_ H]];
    try done; by apply H.
Defined.
