(* ===== verification/Proposals.v ===== *)
(** * Memory proposals (workflow/agent_control.py, the proposal statements of stores/pg/repo.py)

    An agent proposes a memory; [AgentControl.submit_proposal] lands it in quarantine within the
    caps or refuses it, and [ProposalIntake] consumes the queue of proposals.  The checks before the
    transaction read the table at earlier moments (other processes commit in between); the
    transaction of [insert_proposal_within_caps] holds an advisory lock of the project, so
    transactions of one project are ordered and each is atomic.  Parameters: SHA-256, Unicode
    normalisation, the rules of the content scan (regular expressions) and pydantic's validation of a proposal; inputs
    of an attempt: clock readings, minted ids, the activity gate, the erasure fence and the
    faults of database and queue.  Items are those the worker queue hands out (authority version
    1), and the store is the one shipped, which implements the transaction. *)

From Stdlib Require Import Floats.
From S2P Require Import Prelude Domain PyText Json StateMachine Memory Lifecycle WorkQueue TraceWriter OutcomeIntake.
Open Scope Z_scope.

(** ** Vocabulary *)

Record MemoryProposal := mkProposal {
  mp_mem_type : pystr;
  mp_content : pystr;
  mp_subject_tag : option pystr;
  mp_claimed_scope : pystr;
}.

Definition proposal_scope_type (t : ScopeType) : pystr :=
  of_ascii match t with AGENT_TYPE => "agent_type" | WORKFLOW_TEMPLATE => "workflow_template" | USER => "user" | PROJECT_SHARED => "project_shared" end.

Definition PROPOSABLE_MEM_TYPES : list MemType := [LESSON; SEMANTIC].
Definition PROPOSABLE_SCOPE_TYPES : list ScopeType := [AGENT_TYPE; PROJECT_SHARED].

Inductive control_error := ScanRejected | NotProposable | ControlFenced | ControlStale | ControlOther.

(** What the erasure fence may raise *)
Inductive fence_error := FenceClosed | FenceStale | FenceOther.
Definition of_fence {A} (x : result fence_error A) : result control_error A :=
  match x with
  | Ok a => Ok a
  | Err FenceClosed => Err ControlFenced
  | Err FenceStale => Err ControlStale
  | Err FenceOther => Err ControlOther
  end.

(** [_admitted]; [members] are the members of the enum. *)
Definition admitted {A} `{EqDecision A} (members : list A) (value : A → pystr) (raw : pystr) (allowed : list A) : result control_error A :=
  match List.find (λ a, bool_decide (value a = raw)) members with
  | None => Err NotProposable
  | Some a => check! bool_decide (a ∈ allowed) else NotProposable in Ok a
  end.

Definition estimate_token_count (content : pystr) : Z := Z.max 1 (Z.of_nat (length content) / 4).

Inductive ProposalOutcome :=
| ProposalAccepted (id : MemoryId) (status : Status)
| ProposalDuplicate (id : MemoryId)
| RunCapReached (count : Z)
| DayCapReached (count : Z).

Inductive ProposalCapOutcome := INSERTED | DUPLICATE | PER_RUN_CAP | PER_PROJECT_DAILY_CAP.

Record ProposalInsertResult := mkInsertResult { pi_outcome : ProposalCapOutcome; pi_memory_id : option MemoryId; pi_observed_count : Z }.

(** ** The store *)

(** A row of [memory_item]: the item as written, and the columns the store adds. *)
Record stored_item := mkStored {
  st_item : NewMemoryItem;
  st_status : Status;
  st_content_hash : pystr;
  st_created_at : Z;
  st_subject_digests : list (list Z);
}.
Abbreviation item_table := (gmap (ProjectId * MemoryId) stored_item).

Definition US_PER_DAY : Z := 86400000000.
(** [now.date()] of a UTC instant, as a number of days. *)
Definition proposal_day (us : Z) : Z := us / US_PER_DAY.

Definition is_proposal (p : ProjectId) (x : (ProjectId * MemoryId) * stored_item) : bool :=
  bool_decide (x.1.1 = p) && bool_decide (cls (provenance (st_item x.2)) = PROPOSAL).
Definition in_run (p : ProjectId) (run : RunId) (x : (ProjectId * MemoryId) * stored_item) : bool :=
  is_proposal p x && bool_decide (run_id (provenance (st_item x.2)) = Some run).
(** [created_at >= day_start AND created_at < day_end] *)
Definition on_day (p : ProjectId) (day : Z) (x : (ProjectId * MemoryId) * stored_item) : bool :=
  is_proposal p x && (day * US_PER_DAY <=? st_created_at x.2) && (st_created_at x.2 <? (day + 1) * US_PER_DAY).

Definition count_rows (f : (ProjectId * MemoryId) * stored_item → bool) (t : item_table) : Z := Z.of_nat (length (List.filter f (map_to_list t))).

Definition count_proposals_in_run (p : ProjectId) (run : RunId) (t : item_table) : Z := count_rows (in_run p run) t.
Definition count_proposals_in_project_day (p : ProjectId) (day : Z) (t : item_table) : Z := count_rows (on_day p day) t.
(** [LIMIT 1] without an order: any of the rows that match; here the first of the map. *)
Definition find_proposal_in_run (p : ProjectId) (run : RunId) (hash : pystr) (t : item_table) : option MemoryId :=
  (λ x, x.1.2) <$> List.find (λ x, in_run p run x && bool_decide (st_content_hash x.2 = hash)) (map_to_list t).

Record ProposalsConfig := mkProposalsConfig { per_run_cap : Z; per_project_daily_cap : Z }.

(** What the transaction meets.  [pa_minted] and [pa_created_at] are drawn when the row is written; [pa_snapshot] is the erasure
    fence, [pa_bind] the binding of the row to its run. *)
Record proposal_attempt := mkProposalAttempt {
  pa_minted : MemoryId;
  pa_created_at : Z;
  pa_snapshot : result fence_error (list (list Z));
  pa_bind : result fence_error unit;
  pa_statement_fails : bool;
  pa_commit : commit_end;
}.

(** [_impl_insert_memory_item]: the primary key is [(project_id, id)]. *)
Definition impl_insert_memory_item (p : ProjectId) (item : NewMemoryItem) (hash : pystr) (digests : list (list Z)) (a : proposal_attempt) (t : item_table)
  : result control_error (MemoryId * item_table) :=
  let id := default (pa_minted a) (item_id item) in
  check! negb (pa_statement_fails a) && bool_decide (t !! (p, id) = None) else ControlOther in
  Ok (id, <[(p, id) := mkStored item (status item) hash (pa_created_at a) digests]> t).

Definition committed {A} (a : proposal_attempt) (r : result control_error (A * item_table)) (t : item_table) : result control_error A * item_table :=
  match r with
  | Err e => (Err e, t)
  | Ok (x, t') =>
      match pa_commit a with
      | CommitApplied => (Ok x, t')
      | CommitFailed => (Err ControlOther, t)
      | CommitUnacknowledged => (Err ControlOther, t')
      end
  end.

Definition of_item {E A} (r : result E A) : result control_error A := match r with Ok x => Ok x | Err _ => Err ControlOther end.

Section Control.
Context (sha256 : list Z → list Z) (nfc : pystr → pystr).

(** [content_hash] of domain/canonical.py *)
Definition content_hash (text : pystr) : result control_error pystr :=
  let! bytes := of_item (utf8_encode (nfc text)) in Ok (bytes_hex (sha256 bytes)).

(** The transaction.  The verdict is the one the scan of this content just gave, so [verify_verdict] accepts it. *)
Definition within_caps_tx (p : ProjectId) (run : RunId) (item : NewMemoryItem) (cfg : ProposalsConfig) (day : Z) (digests : list (list Z))
    (a : proposal_attempt) (t : item_table) : result control_error (ProposalInsertResult * item_table) :=
     let! _ := of_item (assert_legal_creation_status (status item)) in
     let! _ := of_item (validate_provenance (provenance item)) in
     let! hash := content_hash (content item) in
     let! actual := of_fence (pa_snapshot a) in
     check! bool_decide (actual = digests) else ControlStale in
     match find_proposal_in_run p run hash t with
     | Some existing => Ok (mkInsertResult DUPLICATE (Some existing) 0, t)
     | None =>
         let run_count := count_proposals_in_run p run t in
         if per_run_cap cfg <=? run_count then Ok (mkInsertResult PER_RUN_CAP None run_count, t)
         else
           let day_count := count_proposals_in_project_day p day t in
           if per_project_daily_cap cfg <=? day_count then Ok (mkInsertResult PER_PROJECT_DAILY_CAP None day_count, t)
           else
             let! w := impl_insert_memory_item p item hash digests a t in
             let! _ := of_fence (pa_bind a) in
             Ok (mkInsertResult INSERTED (Some w.1) run_count, w.2)
     end.

Definition insert_proposal_within_caps (p : ProjectId) (run : RunId) (item : NewMemoryItem) (cfg : ProposalsConfig) (day : Z) (digests : list (list Z))
    (a : proposal_attempt) (t : item_table) : result control_error ProposalInsertResult * item_table :=
  committed a (within_caps_tx p run item cfg day digests a t) t.

Definition from_insert_result (r : ProposalInsertResult) (st : Status) : result control_error ProposalOutcome :=
  match pi_outcome r, pi_memory_id r with
  | INSERTED, Some id => Ok (ProposalAccepted id st)
  | DUPLICATE, Some id => Ok (ProposalDuplicate id)
  | INSERTED, None | DUPLICATE, None => Err ControlOther
  | PER_RUN_CAP, _ => Ok (RunCapReached (pi_observed_count r))
  | PER_PROJECT_DAILY_CAP, _ => Ok (DayCapReached (pi_observed_count r))
  end.

(** ** The content scan (core/scans) *)

Definition max_content_chars (t : MemType) : Z := match t with EPISODIC | SEMANTIC => 6000 | LESSON => 3000 | PREFERENCE => 1500 end.

(** [_CONTROL_CHAR_RE]: C0 except tab, line feed and carriage return, and DEL *)
Definition is_control (c : Z) : bool :=
  ((0 <=? c) && (c <=? 8)) || (c =? 11) || (c =? 12) || ((14 <=? c) && (c <=? 31)) || (c =? 127).

(** The reasons of [check_schema], as whether there are any *)
Definition check_schema (text : pystr) (t : MemType) : bool :=
  py_blank text || existsb is_control text || (max_content_chars t <? Z.of_nat (length text)).

(** [rule_hit]: one of the injection patterns or of the secret rules matches. *)
Context (rule_hit : pystr → bool).

(** [scan(...).passed] *)
Definition scan (text : pystr) (t : MemType) : bool :=
  if max_content_chars t <? Z.of_nat (length text) then false else negb (rule_hit text || check_schema text t).

(** ** Submitting a proposal *)

Definition canonical_digests (ds : list (list Z)) : bool :=
  (length ds <=? 64)%nat && forallb (λ d, (length d =? 32)%nat) ds
  && bool_decide (py_sorted str_leb ds = ds) && bool_decide (NoDup ds).

Definition proposal_evidence (n : datetime) (t : MemType) (passed : bool) : TransitionEvidence :=
  mkEvidence n PROPOSAL TierB t false passed false true None [] false 0 0 false false false false false
    false false false false 0 0%float 0 0 false false false false.

(** The steps of [submit_proposal] before the transaction, on the worker queue's path (agent type and digests are given): an
    outcome already, or the item to insert and the day it counts for.  [reads] are the tables the three checks see;
    [now_] is the one clock reading. *)
Definition prepare_proposal (p : ProjectId) (run : RunId) (proposal : MemoryProposal) (limits_cfg : EffectiveConfig) (cfg : ProposalsConfig)
    (agent : AgentTypeId) (digests : list (list Z)) (now_ : datetime) (reads : nat → item_table)
  : result control_error (ProposalOutcome + NewMemoryItem * Status * Z) :=
  check! canonical_digests digests else ControlOther in
  let! mem_type := admitted [EPISODIC; SEMANTIC; LESSON; PREFERENCE] MemType_value (mp_mem_type proposal) PROPOSABLE_MEM_TYPES in
  let! scope := admitted [AGENT_TYPE; WORKFLOW_TEMPLATE; USER; PROJECT_SHARED] proposal_scope_type (mp_claimed_scope proposal) PROPOSABLE_SCOPE_TYPES in
  let prov := mkProvenance PROPOSAL [] None [] [] (Some run) None in
  let! _ := of_item (validate_provenance prov) in
  let today := proposal_day (dt_us now_) in
  let! digest := content_hash (mp_content proposal) in
  match find_proposal_in_run p run digest (reads 0%nat) with
  | Some already => Ok (inl (ProposalDuplicate already))
  | None =>
      let run_count := count_proposals_in_run p run (reads 1%nat) in
      if per_run_cap cfg <=? run_count then Ok (inl (RunCapReached run_count))
      else
        let day_count := count_proposals_in_project_day p today (reads 2%nat) in
        if per_project_daily_cap cfg <=? day_count then Ok (inl (DayCapReached day_count))
        else
          let passed := scan (mp_content proposal) mem_type in
          check! passed else ScanRejected in
          let! limits := of_item (from_config limits_cfg) in
          let! evidence := of_item (evidence_post_init (proposal_evidence now_ mem_type passed)) in
          let! new_status := of_item (apply None QUARANTINED evidence limits) in
          let! item := of_item (item_post_init
            (Memory.mkItem scope (match scope with AGENT_TYPE => Some (AgentTypeId_value agent) | _ => None end) mem_type (of_ascii "proposal") QUALITY TierB
               new_status (mp_content proposal) (estimate_token_count (mp_content proposal)) prov None None None None None 1 None [])) in
          Ok (inr (item, new_status, today))
  end.

Definition submit_proposal (p : ProjectId) (run : RunId) (proposal : MemoryProposal) (limits_cfg : EffectiveConfig) (cfg : ProposalsConfig)
    (agent : AgentTypeId) (digests : list (list Z)) (now_ : datetime) (reads : nat → item_table) (a : proposal_attempt) (t : item_table)
  : result control_error ProposalOutcome * item_table :=
  match prepare_proposal p run proposal limits_cfg cfg agent digests now_ reads with
  | Err e => (Err e, t)
  | Ok (inl outcome) => (Ok outcome, t)
  | Ok (inr (item, new_status, today)) =>
      let '(r, t') := insert_proposal_within_caps p run item cfg today digests a t in
      (let! x := r in from_insert_result x new_status, t')
  end.

(** ** The intake *)

Record proposal_world := mkProposalWorld { pw_table : item_table; pw_settled : list (QueueItem * settlement) }.

Definition settle_proposal (i : QueueItem) (x : settlement) (w : proposal_world) : proposal_world := mkProposalWorld (pw_table w) (pw_settled w ++ [(i, x)]).

Definition PROPOSAL_CONFLICT : pystr := of_ascii "proposal_authority_conflict".

(** What one item meets; [ip_config] is the configuration of its project and agent type, or a failure to get it. *)
Record intake_proposal := mkIntakeProposal {
  ip_gate : gate_answer;
  ip_guard : option (result fence_error (list (list Z)));
  ip_config : result exn (EffectiveConfig * ProposalsConfig);
  ip_now : datetime;
  ip_reads : nat → item_table;
  ip_tx : proposal_attempt;
  ip_settle_fails : bool;
}.

Context (validate_proposal : list (pystr * json) → option MemoryProposal).

(** The envelope of an item; [None] when it is malformed. *)
Definition parse_proposal (i : QueueItem) : option MemoryProposal :=
  if bool_decide ((qi_payload i).*1 = [of_ascii "proposal"]) then validate_proposal (qi_payload i) else None.

(** A settlement: where it raises, the exception leaves the loop. *)
Definition settle_item (i : QueueItem) (x : settlement) (handled : bool) (a : intake_proposal) (w : proposal_world) : result exn bool * proposal_world :=
  (if ip_settle_fails a then Err RuntimeError else Ok handled, settle_proposal i x w).

(** [_process_one] with [_process_one_guarded]: whether the item was acknowledged. *)
Definition process_proposal (a : intake_proposal) (i : QueueItem) (w : proposal_world) : result exn bool * proposal_world :=
  match ip_gate a with
  | GateRefused => (Err TracebedError, w)
  | GateBusy => settle_item i Nack false a w
  | GateOpen =>
      match parse_proposal i with
      | None => settle_item i (Reject MALFORMED) false a w
      | Some proposal =>
          if negb (bool_decide (qi_source_principal_id i = qi_run_owner_principal_id i) && bool_decide (qi_source_agent_type_id i = qi_run_owner_agent_type_id i))
          then settle_item i (Reject PROPOSAL_CONFLICT) false a w
          else
            match (match ip_guard a with
                   | Some answer => let! actual := of_fence answer in check! bool_decide (actual = qi_subject_digests i) else ControlStale in Ok tt
                   | None => Ok tt
                   end) with
            | Err (ControlFenced | ControlStale) => settle_item i Nack false a w
            | Err _ => (Err RuntimeError, w)
            | Ok _ =>
                match ip_config a with
                | Err _ => settle_item i Nack false a w
                | Ok (limits_cfg, cfg) =>
                    let '(r, t) := submit_proposal (qi_project_id i) (qi_run_id i) proposal limits_cfg cfg (qi_run_owner_agent_type_id i)
                                     (qi_subject_digests i) (ip_now a) (ip_reads a) (ip_tx a) (pw_table w) in
                    let w1 := mkProposalWorld t (pw_settled w) in
                    match r with
                    | Err (ScanRejected | NotProposable) => settle_item i Ack true a w1
                    | Err _ => settle_item i Nack false a w1
                    | Ok _ => settle_item i Ack true a w1
                    end
                end
            end
      end
  end.

(** [run_once] on the claimed items *)
Fixpoint proposal_batch (items : list QueueItem) (attempts : nat → intake_proposal) (w : proposal_world) : result exn Z * proposal_world :=
  match items with
  | [] => (Ok 0, w)
  | i :: items' =>
      match process_proposal (attempts 0%nat) i w with
      | (Err e, w1) => (Err e, w1)
      | (Ok handled, w1) =>
          match proposal_batch items' (λ k, attempts (S k)) w1 with
          | (Ok m, w2) => (Ok (Z.b2z handled + m), w2)
          | (Err e, w2) => (Err e, w2)
          end
      end
  end.
End Control.

(** ** Counting *)

Lemma filter_length_Permutation {A} (f : A → bool) l l' : l ≡ₚ l' → length (List.filter f l) = length (List.filter f l').
Proof. induction 1; cbn; repeat destruct (f _); cbn; congruence. Qed.

Lemma count_insert f k row t : t !! k = None → count_rows f (<[k := row]> t) = count_rows f t + Z.b2z (f (k, row)).
Proof.
  intros Hk. unfold count_rows. rewrite (filter_length_Permutation _ _ _ (map_to_list_insert t k row Hk)). cbn [List.filter].
  destruct (f (k, row)); cbn [length Z.b2z]; lia.
Qed.

Lemma count_delete f k row t : t !! k = Some row → count_rows f t = count_rows f (delete k t) + Z.b2z (f (k, row)).
Proof. intros Hk. rewrite <- (insert_delete_id t k row Hk) at 1. apply count_insert, lookup_delete_eq. Qed.

Lemma count_update f k row row' t : t !! k = Some row → f (k, row') = f (k, row) → count_rows f (<[k := row']> t) = count_rows f t.
Proof.
  intros Hk Hf. rewrite (count_delete f k row' (<[k := row']> t)) by apply lookup_insert_eq. rewrite delete_insert_eq, Hf. symmetry. by apply count_delete.
Qed.

Lemma count_nonneg f t : 0 <= count_rows f t.
Proof. unfold count_rows. lia. Qed.

(** ** What may be said of the table *)

Definition proposed (t : item_table) (k : ProjectId * MemoryId) (run : RunId) (hash : pystr) : Prop :=
  ∃ row, t !! k = Some row ∧ cls (provenance (st_item row)) = PROPOSAL ∧ run_id (provenance (st_item row)) = Some run ∧ st_content_hash row = hash.

Lemma found p run hash t id : find_proposal_in_run p run hash t = Some id → proposed t (p, id) run hash.
Proof.
  unfold find_proposal_in_run. destruct (List.find _ _) as [[[p' m] row]|] eqn:Hf; [|done]. intros [= <-].
  apply List.find_some in Hf as [Hin Hb]. apply list_elem_of_In, elem_of_map_to_list in Hin. unfold in_run, is_proposal in Hb. cbn [fst snd] in *.
  rewrite !andb_true_iff, !bool_decide_eq_true in Hb. destruct Hb as [[[-> ?] ?] ?]. by exists row.
Qed.

Lemma not_found p run hash t id : find_proposal_in_run p run hash t = None → ¬ proposed t (p, id) run hash.
Proof.
  unfold find_proposal_in_run. destruct (List.find _ _) eqn:Hf; [done|]. intros _ (row & Hrow & Hc & Hr & Hh).
  apply elem_of_map_to_list, list_elem_of_In in Hrow. apply (List.find_none _ _ Hf) in Hrow. unfold in_run, is_proposal in Hrow. cbn in Hrow.
  by rewrite !bool_decide_eq_true_2 in Hrow.
Qed.

(** At most [R] proposals of a run, at most [D] of a project and a UTC day, and no content twice in a run. *)
Record within_caps (R D : Z) (t : item_table) : Prop := {
  wc_run : ∀ p run, count_proposals_in_run p run t <= R;
  wc_day : ∀ p day, count_proposals_in_project_day p day t <= D;
  wc_once : ∀ p m1 m2 run hash, proposed t (p, m1) run hash → proposed t (p, m2) run hash → m1 = m2;
}.

Section Guarantees.
Context (sha256 : list Z → list Z) (nfc : pystr → pystr) (rule_hit : pystr → bool) (validate_proposal : list (pystr * json) → option MemoryProposal).
Abbreviation hash_of := (content_hash sha256 nfc).

(** ** The transaction *)

(** The row a transaction adds, where it adds one. *)
Record added (p : ProjectId) (run : RunId) (cfg : ProposalsConfig) (day : Z) (a : proposal_attempt) (t : item_table) (id : MemoryId) (row : stored_item) : Prop := {
  ad_fresh : t !! (p, id) = None;
  ad_hash : hash_of (content (st_item row)) = Ok (st_content_hash row);
  ad_unique : find_proposal_in_run p run (st_content_hash row) t = None;
  ad_run : count_proposals_in_run p run t < per_run_cap cfg;
  ad_day : count_proposals_in_project_day p day t < per_project_daily_cap cfg;
  ad_created : st_created_at row = pa_created_at a;
}.

Lemma tx_spec p run item cfg day digests a t x t' : within_caps_tx sha256 nfc p run item cfg day digests a t = Ok (x, t') →
  ∃ hash, hash_of (content item) = Ok hash ∧
  match pi_outcome x with
  | INSERTED => ∃ id row, pi_memory_id x = Some id ∧ t' = <[(p, id) := row]> t ∧ added p run cfg day a t id row ∧ st_item row = item ∧ st_status row = status item
      ∧ st_subject_digests row = digests
  | DUPLICATE => t' = t ∧ ∃ id, pi_memory_id x = Some id ∧ proposed t (p, id) run hash
  | PER_RUN_CAP => t' = t ∧ per_run_cap cfg <= count_proposals_in_run p run t
  | PER_PROJECT_DAILY_CAP => t' = t ∧ per_project_daily_cap cfg <= count_proposals_in_project_day p day t
  end.
Proof.
  unfold within_caps_tx. destruct (of_item (assert_legal_creation_status _)); [|done]. destruct (of_item (validate_provenance _)); [|done]. cbn [rbind].
  destruct (hash_of (content item)) as [hash|] eqn:Hh; [|done]. destruct (of_fence (pa_snapshot a)) as [actual|]; [|done]. cbn [rbind]. case_bool_decide; [|done].
  destruct (find_proposal_in_run p run hash t) as [id|] eqn:Hf; [intros [= <- <-]; exists hash; split; [done|]; split; [done|]; exists id; split; [done|by apply found]|].
  destruct (Z.leb_spec (per_run_cap cfg) (count_proposals_in_run p run t)); [intros [= <- <-]; by exists hash|].
  destruct (Z.leb_spec (per_project_daily_cap cfg) (count_proposals_in_project_day p day t)); [intros [= <- <-]; by exists hash|].
  unfold impl_insert_memory_item. destruct (negb _ && _) eqn:Hok; [|done]. bsplit. cbn [rbind]. destruct (of_fence (pa_bind a)); [|done]. intros [= <- <-]. exists hash. split; [done|].
  eexists _, _. split; [done|]. split; [done|]. split; [|done]. split; cbn; try done. by eapply bool_decide_eq_true_1.
Qed.

(** The item a submission inserts. *)
Record well_proposed (run : RunId) (proposal : MemoryProposal) (agent : AgentTypeId) (item : NewMemoryItem) : Prop := {
  wp_status : status item = QUARANTINED;
  wp_class : cls (provenance item) = PROPOSAL ∧ run_id (provenance item) = Some run;
  wp_tier : item_tier item = TierB;
  wp_type : item_mem_type item ∈ PROPOSABLE_MEM_TYPES ∧ MemType_value (item_mem_type item) = mp_mem_type proposal;
  wp_scope : scope_type item ∈ PROPOSABLE_SCOPE_TYPES ∧ proposal_scope_type (scope_type item) = mp_claimed_scope proposal
    ∧ scope_id item = (match scope_type item with AGENT_TYPE => Some (AgentTypeId_value agent) | _ => None end);
  wp_content : content item = mp_content proposal ∧ scan rule_hit (content item) (item_mem_type item) = true;
  wp_subject : subject_tag item = None;
}.

Lemma admitted_Ok {A} `{EqDecision A} members (value : A → pystr) raw allowed x :
  admitted members value raw allowed = Ok x → x ∈ allowed ∧ value x = raw.
Proof.
  unfold admitted. destruct (List.find _ _) as [y|] eqn:Hf; [|done]. apply List.find_some in Hf as [_ Hv%bool_decide_eq_true].
  case_bool_decide; [|done]. by intros [= <-].
Qed.

Lemma item_post_init_same m m' : item_post_init m = Ok m' → m' = m.
Proof. unfold item_post_init. repeat case_match; congruence. Qed.

(** Why a submission ended before its transaction. *)
Definition early (p : ProjectId) (run : RunId) (cfg : ProposalsConfig) (day : Z) (hash : pystr) (reads : nat → item_table) (o : ProposalOutcome) : Prop :=
  match o with
  | ProposalAccepted _ _ => False
  | ProposalDuplicate id => proposed (reads 0%nat) (p, id) run hash
  | RunCapReached _ => per_run_cap cfg <= count_proposals_in_run p run (reads 1%nat)
  | DayCapReached _ => per_project_daily_cap cfg <= count_proposals_in_project_day p day (reads 2%nat)
  end.

Lemma prepare_spec p run proposal lc cfg agent digests n reads v :
  prepare_proposal sha256 nfc rule_hit p run proposal lc cfg agent digests n reads = Ok v →
  ∃ hash, hash_of (mp_content proposal) = Ok hash ∧
  match v with
  | inl o => early p run cfg (proposal_day (dt_us n)) hash reads o
  | inr (item, st, day) => st = QUARANTINED ∧ day = proposal_day (dt_us n) ∧ well_proposed run proposal agent item
  end.
Proof.
  unfold prepare_proposal. destruct (canonical_digests digests); [|done].
  destruct (admitted _ MemType_value _ _) as [mt|] eqn:Hmt; [|done]. destruct (admitted _ proposal_scope_type _ _) as [sc|] eqn:Hsc; [|done]. cbn [rbind].
  destruct (of_item (validate_provenance _)); [|done]. cbn [rbind]. destruct (hash_of (mp_content proposal)) as [hash|] eqn:Hh; [|done]. cbn [rbind].
  destruct (find_proposal_in_run p run hash (reads 0%nat)) as [id|] eqn:Hf; [intros [= <-]; exists hash; split; [done|by apply found]|].
  destruct (Z.leb_spec (per_run_cap cfg) (count_proposals_in_run p run (reads 1%nat))); [intros [= <-]; by exists hash|].
  destruct (Z.leb_spec (per_project_daily_cap cfg) (count_proposals_in_project_day p (proposal_day (dt_us n)) (reads 2%nat))); [intros [= <-]; by exists hash|].
  destruct (scan rule_hit (mp_content proposal) mt) eqn:Hscan; [|done]. destruct (of_item (from_config lc)) as [lim|]; [|done]. cbn [rbind].
  destruct (of_item (evidence_post_init _)) as [ev|]; [|done]. cbn [rbind]. destruct (apply None QUARANTINED ev lim) as [s|] eqn:Happ; [|done]. cbn [rbind of_item].
  assert (s = QUARANTINED) as -> by (revert Happ; unfold apply; repeat case_match; congruence).
  destruct (item_post_init _) as [item|] eqn:Hitem; [|done]. cbn [rbind of_item]. intros [= <-]. exists hash. split; [done|]. split; [done|]. split; [done|].
  apply item_post_init_same in Hitem as ->.
  apply admitted_Ok in Hmt as [? ?]. apply admitted_Ok in Hsc as [? ?]. by split.
Qed.

(** The type and the scope are of the wire's vocabulary. *)
Definition vocabulary (proposal : MemoryProposal) : Prop :=
  mp_mem_type proposal ∈ MemType_value <$> PROPOSABLE_MEM_TYPES ∧ mp_claimed_scope proposal ∈ proposal_scope_type <$> PROPOSABLE_SCOPE_TYPES.

Definition scan_fails (proposal : MemoryProposal) : Prop :=
  ∃ mt, mt ∈ PROPOSABLE_MEM_TYPES ∧ MemType_value mt = mp_mem_type proposal ∧ scan rule_hit (mp_content proposal) mt = false.

(** The proposal is there already, or a cap is reached, in the table [t]. *)
Definition settled_by (p : ProjectId) (run : RunId) (cfg : ProposalsConfig) (day : Z) (hash : pystr) (t : item_table) : Prop :=
  (∃ id, proposed t (p, id) run hash) ∨ per_run_cap cfg <= count_proposals_in_run p run t ∨ per_project_daily_cap cfg <= count_proposals_in_project_day p day t.

Lemma admitted_Err {A} `{EqDecision A} members (value : A → pystr) raw allowed e : (∀ x, x ∈ allowed → x ∈ members) → Inj (=) (=) value →
  admitted members value raw allowed = Err e → e = NotProposable ∧ raw ∉ value <$> allowed.
Proof.
  intros Hsub Hinj. unfold admitted. destruct (List.find _ _) as [y|] eqn:Hf.
  - apply List.find_some in Hf as [_ Hv%bool_decide_eq_true]. case_bool_decide as Hy; [done|]. intros [= <-]. split; [done|]. intros (x & -> & Hx)%list_elem_of_fmap.
    apply (inj value) in Hv. congruence.
  - intros [= <-]. split; [done|]. intros (x & -> & Hx%Hsub%list_elem_of_In)%list_elem_of_fmap. apply (List.find_none _ _ Hf) in Hx. by rewrite bool_decide_eq_true_2 in Hx.
Qed.

#[local] Instance MemType_value_inj : Inj (=) (=) MemType_value.
Proof. by intros [] [] [=]. Qed.
#[local] Instance proposal_scope_type_inj : Inj (=) (=) proposal_scope_type.
Proof. by intros [] [] [=]. Qed.

Lemma prepare_Err p run proposal lc cfg agent digests n reads e :
  prepare_proposal sha256 nfc rule_hit p run proposal lc cfg agent digests n reads = Err e →
  match e with NotProposable => ¬ vocabulary proposal | ScanRejected => scan_fails proposal | _ => True end.
Proof.
  assert (Hoi : ∀ E A (x : result E A) e', of_item x = Err e' → e' = ControlOther) by (intros E A [] e' [=]; done).
  unfold prepare_proposal. destruct (canonical_digests digests); [|by intros [= <-]].
  destruct (admitted _ MemType_value _ _) as [mt|e1] eqn:Hmt; cbn [rbind].
  2:{ intros [= <-]. apply admitted_Err in Hmt as [-> Hn]; [by intros [? _]|set_solver|apply _]. }
  destruct (admitted _ proposal_scope_type _ _) as [sc|e1] eqn:Hsc; cbn [rbind].
  2:{ intros [= <-]. apply admitted_Err in Hsc as [-> Hn]; [by intros [_ ?]|set_solver|apply _]. }
  destruct (of_item (validate_provenance _)) as [|e1] eqn:H1; cbn [rbind]; [|intros [= <-]; by apply Hoi in H1 as ->].
  destruct (hash_of (mp_content proposal)) as [hash|e1] eqn:Hh; cbn [rbind].
  2:{ unfold content_hash in Hh. destruct (of_item (utf8_encode _)) as [|e2] eqn:H2; [done|]. cbn in Hh. intros [= <-]. injection Hh as <-. by apply Hoi in H2 as ->. }
  destruct (find_proposal_in_run _ _ _ _); [done|]. destruct (per_run_cap cfg <=? _); [done|]. destruct (per_project_daily_cap cfg <=? _); [done|].
  destruct (scan rule_hit (mp_content proposal) mt) eqn:Hscan; [|intros [= <-]; apply admitted_Ok in Hmt as [? ?]; by exists mt].
  destruct (of_item (from_config lc)) as [|e1] eqn:H1'; cbn [rbind]; [|intros [= <-]; by apply Hoi in H1' as ->].
  destruct (of_item (evidence_post_init _)) as [|e1] eqn:H2; cbn [rbind]; [|intros [= <-]; by apply Hoi in H2 as ->].
  destruct (of_item (apply _ _ _ _)) as [|e1] eqn:H3; cbn [rbind]; [|intros [= <-]; by apply Hoi in H3 as ->].
  destruct (of_item (item_post_init _)) as [|e1] eqn:H4; cbn [rbind]; [done|]. intros [= <-]. by apply Hoi in H4 as ->.
Qed.

(** ** The handler *)

(** What one item does to the table. *)
Definition lands (a : intake_proposal) (i : QueueItem) (t t' : item_table) : Prop :=
  ∃ proposal lc cfg id row, parse_proposal validate_proposal i = Some proposal ∧ ip_config a = Ok (lc, cfg)
    ∧ qi_source_principal_id i = qi_run_owner_principal_id i
    ∧ t' = <[(qi_project_id i, id) := row]> t
    ∧ added (qi_project_id i) (qi_run_id i) cfg (proposal_day (dt_us (ip_now a))) (ip_tx a) t id row
    ∧ st_status row = QUARANTINED ∧ st_subject_digests row = qi_subject_digests i
    ∧ well_proposed (qi_run_id i) proposal (qi_run_owner_agent_type_id i) (st_item row).

(** The transaction neither scans nor judges the vocabulary. *)
Lemma tx_Err p run item cfg day digests a t e : within_caps_tx sha256 nfc p run item cfg day digests a t = Err e → e ≠ ScanRejected ∧ e ≠ NotProposable.
Proof.
  assert (Hoi : ∀ E A (x : result E A) e', of_item x = Err e' → e' ≠ ScanRejected ∧ e' ≠ NotProposable) by (intros E A [] e' [=]; by subst).
  assert (Hof : ∀ A (x : result fence_error A) e', of_fence x = Err e' → e' ≠ ScanRejected ∧ e' ≠ NotProposable) by (intros A [|[]] e' [=]; by subst).
  unfold within_caps_tx. destruct (of_item (assert_legal_creation_status _)) as [|e1] eqn:H1; cbn [rbind]; [|intros [= <-]; by eapply Hoi].
  destruct (of_item (validate_provenance _)) as [|e1] eqn:H2; cbn [rbind]; [|intros [= <-]; by eapply Hoi].
  unfold content_hash. destruct (of_item (utf8_encode _)) as [|e1] eqn:H3; cbn [rbind]; [|intros [= <-]; by eapply Hoi].
  destruct (of_fence (pa_snapshot a)) as [actual|e1] eqn:H4; cbn [rbind]; [|intros [= <-]; by eapply Hof]. case_bool_decide; [|by intros [= <-]].
  destruct (find_proposal_in_run _ _ _ _); [done|]. destruct (per_run_cap cfg <=? _); [done|]. destruct (per_project_daily_cap cfg <=? _); [done|].
  unfold impl_insert_memory_item. destruct (negb _ && _); cbn [rbind]; [|by intros [= <-]].
  destruct (of_fence (pa_bind a)) as [|e1] eqn:H5; cbn [rbind]; [done|]. intros [= <-]. by eapply Hof.
Qed.

(** What a submission does, and what its answer means. *)
Lemma submit_spec p run proposal lc cfg agent digests n reads a t r t' :
  submit_proposal sha256 nfc rule_hit p run proposal lc cfg agent digests n reads a t = (r, t') →
  (t' = t ∨ ∃ id row, t' = <[(p, id) := row]> t ∧ added p run cfg (proposal_day (dt_us n)) a t id row ∧ st_status row = QUARANTINED
             ∧ st_subject_digests row = digests ∧ well_proposed run proposal agent (st_item row))
  ∧ match r with
    | Ok _ => ∃ hash t0, hash_of (mp_content proposal) = Ok hash ∧ (t0 = t' ∨ ∃ k, t0 = reads k) ∧ settled_by p run cfg (proposal_day (dt_us n)) hash t0
    | Err NotProposable => ¬ vocabulary proposal
    | Err ScanRejected => scan_fails proposal
    | Err _ => True
    end.
Proof.
  unfold submit_proposal. destruct (prepare_proposal _ _ _ _ _ _ _ _ _ _ _ _) as [[o|[[item st] day]]|e] eqn:Hprep.
  - intros [= <- <-]. split; [by left|]. apply prepare_spec in Hprep as (hash & Hh & Hearly). exists hash. unfold settled_by.
    destruct o as [|id|c|c]; cbn in Hearly; [done|exists (reads 0%nat)|exists (reads 1%nat)|exists (reads 2%nat)]; eauto 10.
  - apply prepare_spec in Hprep as (hash & Hh & -> & -> & Hwp). unfold insert_proposal_within_caps.
    destruct (within_caps_tx _ _ _ _ _ _ _ _ _ _) as [[x t1]|e] eqn:Htx; cbn [committed].
    2:{ intros [= <- <-]. split; [by left|]. apply tx_Err in Htx as [? ?]. by destruct e. }
    apply tx_spec in Htx as (hash' & Hh' & Htx). rewrite (proj1 (wp_content _ _ _ _ Hwp)), Hh in Hh'. apply (inj Ok) in Hh' as <-.
    assert (Heff : t1 = t ∨ ∃ id row, t1 = <[(p, id) := row]> t ∧ added p run cfg (proposal_day (dt_us n)) a t id row ∧ st_status row = QUARANTINED
             ∧ st_subject_digests row = digests ∧ well_proposed run proposal agent (st_item row)).
    { destruct (pi_outcome x); [right|left; apply Htx..]. destruct Htx as (id & row & _ & -> & Hadd & Hit & Hst & Hd). exists id, row.
      rewrite Hst, Hit. pose proof (wp_status _ _ _ _ Hwp). by split_and!. }
    assert (Hset : ∀ o, from_insert_result x QUARANTINED = Ok o → settled_by p run cfg (proposal_day (dt_us n)) hash t1).
    { intros o Ho. unfold settled_by, from_insert_result in *. destruct (pi_outcome x).
      - destruct Htx as (id & row & _ & -> & Hadd & Hit & _). left. exists id, row. rewrite lookup_insert_eq. pose proof (wp_class _ _ _ _ Hwp) as [? ?]. rewrite Hit.
        split_and!; try done. pose proof (ad_hash _ _ _ _ _ _ _ _ Hadd) as Hx. rewrite Hit, (proj1 (wp_content _ _ _ _ Hwp)), Hh in Hx. by apply (inj Ok) in Hx.
      - destruct Htx as (-> & id & _ & Hp). left. by exists id.
      - destruct Htx as (-> & ?). tauto.
      - destruct Htx as (-> & ?). tauto. }
    destruct (pa_commit a); intros [= <- <-]; (split; [auto|]); cbn [rbind]; try done.
    destruct (from_insert_result x QUARANTINED) as [o|e] eqn:Ho; [exists hash, t1; eauto 10|].
    unfold from_insert_result in Ho. by destruct (pi_outcome x), (pi_memory_id x); simplify_eq.
  - intros [= <- <-]. split; [by left|]. by eapply prepare_Err.
Qed.

Abbreviation process := (process_proposal sha256 nfc rule_hit validate_proposal).

(** The table gains at most the row of the item, and the item is settled at most once, by an acknowledgement only under [P]. *)
Definition governed (a : intake_proposal) (i : QueueItem) (w : proposal_world) (x : result exn bool * proposal_world) (P : Prop) : Prop :=
  (pw_table x.2 = pw_table w ∨ lands a i (pw_table w) (pw_table x.2))
  ∧ ∃ log, pw_settled x.2 = pw_settled w ++ log ∧ (log = [] ∨ ∃ s, log = [(i, s)])
    ∧ (∀ b, x.1 = Ok b → ∃ s, log = [(i, s)] ∧ (b = true ↔ s = Ack)) ∧ ((i, Ack) ∈ log → P).

Lemma governed_settle a i w t s b P : (t = pw_table w ∨ lands a i (pw_table w) t) → (b = true ↔ s = Ack) → (s = Ack → P) →
  governed a i w (settle_item i s b a (mkProposalWorld t (pw_settled w))) P.
Proof.
  intros Ht Hb HP. split; [done|]. exists [(i, s)]. cbn. split_and!; [done|eauto| |intros Hin%list_elem_of_singleton; apply HP; congruence].
  intros b' Hb'. exists s. split; [done|]. destruct (ip_settle_fails a); [done|]. by injection Hb' as <-.
Qed.

Lemma governed_back a i w s P : s ≠ Ack → governed a i w (settle_item i s false a w) P.
Proof. intros Hs. destruct w as [t l]. apply (governed_settle a i (mkProposalWorld t l)); [by left|by split|done]. Qed.

Lemma governed_none a i w e P : governed a i w (Err e, w) P.
Proof. split; [by left|]. exists []. rewrite app_nil_r. split_and!; [done|by left|done|by intros ?%elem_of_nil]. Qed.

Lemma process_is_governed a i w : governed a i w (process a i w)
  (∃ proposal, parse_proposal validate_proposal i = Some proposal
         ∧ (¬ vocabulary proposal ∨ scan_fails proposal
            ∨ ∃ lc cfg hash t0, ip_config a = Ok (lc, cfg) ∧ hash_of (mp_content proposal) = Ok hash ∧ (t0 = pw_table (process a i w).2 ∨ ∃ k, t0 = ip_reads a k)
                ∧ settled_by (qi_project_id i) (qi_run_id i) cfg (proposal_day (dt_us (ip_now a))) hash t0)).
Proof.
  unfold process_proposal. destruct (ip_gate a); [|by apply governed_back|by apply governed_none].
  destruct (parse_proposal validate_proposal i) as [proposal|] eqn:Hparse; [|by apply governed_back].
  destruct (negb _) eqn:Howner; [by apply governed_back|]. apply negb_false_iff, andb_true_iff in Howner as [Howner%bool_decide_eq_true _].
  destruct (match ip_guard a with Some _ => _ | None => _ end) as [|e]; [|destruct e; first [by apply governed_back|by apply governed_none]].
  destruct (ip_config a) as [[lc cfg]|] eqn:Hcfg; [|by apply governed_back].
  destruct (submit_proposal _ _ _ _ _ _ _ _ _ _ _ _ _ _) as [r t] eqn:Hsub. apply submit_spec in Hsub as [Heff Hr].
  assert (Hland : t = pw_table w ∨ lands a i (pw_table w) t).
  { destruct Heff as [->|(id & row & Heq & Hadd & Hst & Hd & Hwp)]; [by left|right]. exists proposal, lc, cfg, id, row. by split_and!. }
  destruct r as [o|e]; [|destruct e]; apply governed_settle; try done; intros _; exists proposal; (split; [done|]); auto.
  destruct Hr as (hash & t0 & Hh & Ht0 & Hs). right. right. exists lc, cfg, hash, t0. by split_and!.
Qed.

(** [C19] A proposal is governed from the queue to the vault.  Whatever an item of the queue holds and whatever fails: the table
    is left alone, or it gains exactly one row, in quarantine, of the class that never leaves it, tier B, of a proposable
    type and scope (an agent scope is the run owner's own), scanned, bound to the item's run and below both caps, and only
    for a caller that owns the run; at most one settlement is made, exactly one when the handler returns; and an item is
    acknowledged only when there is nothing left to do for it: its vocabulary is refused, its content fails the
    scan, its content is in the vault for this run, or a cap was reached. *)
Theorem proposal_governed a i w :
  (pw_table (process a i w).2 = pw_table w ∨ lands a i (pw_table w) (pw_table (process a i w).2))
  ∧ ∃ log, pw_settled (process a i w).2 = pw_settled w ++ log ∧ (log = [] ∨ ∃ s, log = [(i, s)])
    ∧ (∀ b, (process a i w).1 = Ok b → ∃ s, log = [(i, s)] ∧ (b = true ↔ s = Ack))
    ∧ ((i, Ack) ∈ log → ∃ proposal, parse_proposal validate_proposal i = Some proposal
         ∧ (¬ vocabulary proposal ∨ scan_fails proposal
            ∨ ∃ lc cfg hash t0, ip_config a = Ok (lc, cfg) ∧ hash_of (mp_content proposal) = Ok hash ∧ (t0 = pw_table (process a i w).2 ∨ ∃ k, t0 = ip_reads a k)
                ∧ settled_by (qi_project_id i) (qi_run_id i) cfg (proposal_day (dt_us (ip_now a))) hash t0)).
Proof. exact (process_is_governed a i w). Qed.

(** ** The caps *)

(** Items of the queue, in the order of their transactions, with whatever configurations below [R] and [D]; meanwhile other workers
    move rows between statuses, create memories that are not proposals, and delete.  The day a submission is counted for is the
    day its row is stamped with. *)
Inductive proposal_step (R D : Z) (t : item_table) : item_table → Prop :=
| step_intake a i log : (∀ lc cfg, ip_config a = Ok (lc, cfg) → per_run_cap cfg <= R ∧ per_project_daily_cap cfg <= D) →
    proposal_day (pa_created_at (ip_tx a)) = proposal_day (dt_us (ip_now a)) → proposal_step R D t (pw_table (process a i (mkProposalWorld t log)).2)
| step_move k row s : t !! k = Some row →
    proposal_step R D t (<[k := mkStored (st_item row) s (st_content_hash row) (st_created_at row) (st_subject_digests row)]> t)
| step_other k row : t !! k = None → cls (provenance (st_item row)) ≠ PROPOSAL → proposal_step R D t (<[k := row]> t)
| step_remove k : proposal_step R D t (delete k t).

Lemma on_day_utc p day k row : on_day p day (k, row) = true → k.1 = p ∧ day = proposal_day (st_created_at row).
Proof.
  unfold on_day, is_proposal, proposal_day. cbn [fst snd]. rewrite !andb_true_iff, !bool_decide_eq_true, Z.leb_le, Z.ltb_lt. intros [[[Hp _] Hlo] Hhi]. split; [done|].
  apply (Z.div_unique_pos _ US_PER_DAY day (st_created_at row - US_PER_DAY * day)); lia.
Qed.

Lemma in_run_is p run k row : in_run p run (k, row) = true → k.1 = p ∧ run_id (provenance (st_item row)) = Some run.
Proof. unfold in_run, is_proposal. cbn [fst snd]. rewrite !andb_true_iff, !bool_decide_eq_true. tauto. Qed.

Lemma proposed_insert t k row k' run hash : proposed (<[k := row]> t) k' run hash →
  (k' = k ∧ cls (provenance (st_item row)) = PROPOSAL ∧ run_id (provenance (st_item row)) = Some run ∧ st_content_hash row = hash) ∨ k' ≠ k ∧ proposed t k' run hash.
Proof.
  intros (r & Hr & Hx). destruct (decide (k' = k)) as [->|Hne]; [left|right].
  - rewrite lookup_insert_eq in Hr. by injection Hr as <-.
  - rewrite lookup_insert_ne in Hr by done. split; [done|by exists r].
Qed.

Lemma within_insert R D p run cfg a t id row : within_caps R D t → added p run cfg (proposal_day (st_created_at row)) a t id row →
  per_run_cap cfg <= R → per_project_daily_cap cfg <= D → run_id (provenance (st_item row)) = Some run →
  within_caps R D (<[(p, id) := row]> t).
Proof.
  intros [Hrun Hday Honce] Hadd HR HD Hr. split.
  - intros p' run'. unfold count_proposals_in_run. rewrite count_insert by apply Hadd. specialize (Hrun p' run'). unfold count_proposals_in_run in Hrun.
    destruct (in_run p' run' ((p, id), row)) eqn:Hin; cbn [Z.b2z]; [|lia]. apply in_run_is in Hin as [<- Hr']. rewrite Hr in Hr'. injection Hr' as <-.
    pose proof (ad_run _ _ _ _ _ _ _ _ Hadd) as Hlt. unfold count_proposals_in_run in Hlt. cbn [fst] in *. lia.
  - intros p' day'. unfold count_proposals_in_project_day. rewrite count_insert by apply Hadd. specialize (Hday p' day'). unfold count_proposals_in_project_day in Hday.
    destruct (on_day p' day' ((p, id), row)) eqn:Hin; cbn [Z.b2z]; [|lia]. apply on_day_utc in Hin as [<- ->].
    pose proof (ad_day _ _ _ _ _ _ _ _ Hadd) as Hlt. unfold count_proposals_in_project_day in Hlt. cbn [fst] in *. lia.
  - intros p' m1 m2 run' hash H1 H2. pose proof (not_found _ _ _ _ m1 (ad_unique _ _ _ _ _ _ _ _ Hadd)) as Hno1. pose proof (not_found _ _ _ _ m2 (ad_unique _ _ _ _ _ _ _ _ Hadd)) as Hno2.
    apply proposed_insert in H1 as [([= -> ->] & _ & Hr1 & Hh1)|[Hne1 H1]], H2 as [([= ->] & _ & Hr2 & Hh2)|[Hne2 H2]]; simplify_eq; first [done|by eapply Honce].
Qed.

Lemma count_monotone R f t k row' : count_rows f t <= R → (∀ row, t !! k = Some row → f (k, row') = f (k, row)) → (t !! k = None → f (k, row') = false) →
  count_rows f (<[k := row']> t) <= R.
Proof.
  intros HR Hsome Hnone. destruct (t !! k) as [row|] eqn:Hk; [rewrite (count_update f k row row' t); [done|done|by apply Hsome]|].
  rewrite count_insert, Hnone by done. cbn. lia.
Qed.

Lemma within_step R D t t' : proposal_step R D t t' → within_caps R D t → within_caps R D t'.
Proof.
  intros Hstep Hok. destruct Hstep as [a i log Hcfg Hday|k row s Hk|k row Hk Hcls|k].
  - destruct (process_is_governed a i (mkProposalWorld t log)) as [[->|Hland] _]; [done|].
    destruct Hland as (proposal & lc & cfg & id & row & _ & Hc & _ & -> & Hadd & _ & _ & Hwp). destruct (Hcfg lc cfg Hc) as [HR HD].
    eapply within_insert; [done| |done|done|apply Hwp]. by rewrite (ad_created _ _ _ _ _ _ _ _ Hadd), Hday.
  - destruct Hok as [Hrun Hday Honce]. split; [intros p run; apply count_monotone|intros p day; apply count_monotone|]; try (apply Hrun || apply Hday || congruence).
    + intros r Hr. rewrite Hk in Hr. by injection Hr as <-.
    + intros r Hr. rewrite Hk in Hr. by injection Hr as <-.
    + assert (Hold : ∀ k' run hash, proposed (<[k := mkStored (st_item row) s (st_content_hash row) (st_created_at row) (st_subject_digests row)]> t) k' run hash →
        proposed t k' run hash) by (intros k' run hash [(-> & ? & ? & ?)|[_ ?]]%proposed_insert; [by exists row|done]).
      intros p m1 m2 run hash H1%Hold H2%Hold. by eapply Honce.
  - destruct Hok as [Hrun Hday Honce]. assert (Hnp : ∀ p, is_proposal p (k, row) = false) by (intros p; unfold is_proposal; cbn; by rewrite (bool_decide_eq_false_2 (cls _ = _)), andb_false_r).
    split; [intros p run; apply count_monotone|intros p day; apply count_monotone|]; try (apply Hrun || apply Hday || congruence).
    + intros _. unfold in_run. by rewrite Hnp.
    + intros _. unfold on_day. by rewrite Hnp.
    + intros p m1 m2 run hash [(_ & ? & _)|[_ H1]]%proposed_insert [(_ & ? & _)|[_ H2]]%proposed_insert; try done. by eapply Honce.
  - assert (Hle : ∀ f, count_rows f (delete k t) <= count_rows f t).
    { intros f. destruct (t !! k) as [row|] eqn:Hk; [rewrite (count_delete f k row t Hk); destruct (f (k, row)); cbn; lia|by rewrite delete_id]. }
    destruct Hok as [Hrun Hday Honce]. split; [intros p run; etrans; [apply Hle|apply Hrun]|intros p day; etrans; [apply Hle|apply Hday]|].
    assert (Hold : ∀ k' run hash, proposed (delete k t) k' run hash → proposed t k' run hash) by (intros k' run hash (r & [_ Hr]%lookup_delete_Some & ?); by exists r).
    intros p m1 m2 run hash H1%Hold H2%Hold. by eapply Honce.
Qed.

(** [C20] The flood controls hold however many intakes run and however they interleave with each other and with the rest of the
    system: from a table within the caps, no run ever has more than its cap of proposals, no project more than its cap on a UTC day, and no run
    the same content twice, as long as each row is stamped on the day its submission was counted for. *)
Theorem proposals_capped R D t t' : within_caps R D t → rtc (proposal_step R D) t t' →
  (∀ p run, count_proposals_in_run p run t' <= R) ∧ (∀ p day, count_proposals_in_project_day p day t' <= D)
  ∧ (∀ p m1 m2 run hash, proposed t' (p, m1) run hash → proposed t' (p, m2) run hash → m1 = m2).
Proof.
  intros Hok Hrun. assert (Hend : within_caps R D t') by (revert Hok; induction Hrun as [|x y z Hs _ IH]; [done|]; intros Hx; by eapply IH, within_step).
  by destruct Hend.
Qed.
End Guarantees.

(** ** Witness: proposals that land *)

Definition validate_note (p : list (pystr * json)) : option MemoryProposal :=
  match p with [(_, JStr text)] => Some (mkProposal (of_ascii "lesson") text None (of_ascii "agent_type")) | _ => None end.
Definition note_item (id : Z) (text : pystr) : QueueItem :=
  WorkQueue.mkItem id TOPIC_MEMORY_PROPOSAL (mkProjectId (mkUUID 7 I)) [(of_ascii "proposal", JStr text)] 100 1 (mkRunId (mkUUID 11 I)) (mkPrincipalId (mkUUID 12 I))
    (mkAgentTypeId (mkUUID 13 I)) (mkUUID 14 I) (of_ascii "data") None (mkPrincipalId (mkUUID 12 I)) (mkAgentTypeId (mkUUID 13 I)) [] 5 0 0 9000.
Definition note_attempt (minted : N) (H : (minted <? 2 ^ 128)%N) (now_us created_us daily : Z) : intake_proposal :=
  mkIntakeProposal GateOpen None (Ok (default_config, mkProposalsConfig 2 daily)) (mkDatetime now_us true) (λ _, ∅)
    (mkProposalAttempt (mkMemoryId (mkUUID minted H)) created_us (Ok []) (Ok tt) false CommitApplied) false.
Abbreviation process_note := (process_proposal id id (λ _, false) validate_note).
Abbreviation no_items := (mkProposalWorld ∅ []).

Lemma empty_within R D : 0 <= R → 0 <= D → within_caps R D ∅.
Proof. intros HR HD. split; [done|done|]. intros p m1 m2 run hash (row & Hr & _). by rewrite lookup_empty in Hr. Qed.

Lemma proposals_capped_witness : ∃ t', rtc (proposal_step id id (λ _, false) validate_note 2 50) ∅ t'
  ∧ count_proposals_in_run (mkProjectId (mkUUID 7 I)) (mkRunId (mkUUID 11 I)) t' = 1
  ∧ ∀ p day, count_proposals_in_project_day p day t' <= 50.
Proof.
  eexists. match goal with |- ?A ∧ _ => assert (Hr : A) end.
  { eapply rtc_once. apply (step_intake id id (λ _, false) validate_note 2 50 ∅ (note_attempt 40 I 1000 2000 50) (note_item 1 (of_ascii "retry the lookup once")) []); [|done].
    intros lc cfg [= <- <-]. cbn. lia. }
  split; [exact Hr|]. split; [vm_compute; reflexivity|]. apply (proposals_capped id id (λ _, false) validate_note 2 50 ∅ _); [by apply empty_within|exact Hr].
Defined.

(** A submission counted before midnight and written after it is counted for one day and stamped with the other: with a daily cap of one, a
    day ends up with two proposals. *)
Lemma midnight_overrun :
  let day1 := US_PER_DAY in
  let w1 := (process_note (note_attempt 40 I (day1 + 1) (day1 + 2) 1) (note_item 1 (of_ascii "first")) no_items).2 in
  let w2 := (process_note (note_attempt 41 I (day1 - 1) (day1 + 3) 1) (note_item 2 (of_ascii "second")) w1).2 in
  count_proposals_in_project_day (mkProjectId (mkUUID 7 I)) 1 (pw_table w2) = 2.
Proof. vm_compute. reflexivity. Qed.
